(* ===== verification/_CoqProject ===== *)
-Q . S2P
Prelude.v
CTypes.v
BaseMath.v
BitField.v
CheckSum.v
SafeInt.v
SafeIntConversions.v
SafeIntTheorems.v
Depex.v
LinkedList.v
ListFamily.v
Gcd.v
GcdMap.v
GcdSpace.v
GcdAllocate.v
GcdTheorems.v
GcdProgram.v
Event.v
EventInv.v
EventCheck.v
EventServices.v
EventLife.v
EventRun.v
EventDispatch.v
EventInit.v
EventTheorems.v
Handle.v
HandleInv.v
HandleLookup.v
HandleShape.v
HandleCreate.v
HandleRemove.v
HandleUninstall.v
HandleDriver.v
HandleOpen.v
HandleInstall.v
HandleErase.v
HandleLocate.v
HandleNotify.v
HandleInfo.v
HandleSafe.v
HandleProgram.v
HandleSample.v
HandleTheorems.v
HandleDepex.v
DevicePath.v
DevicePathSpec.v
DevicePathValid.v
DevicePathMemory.v
DevicePathOps.v
DevicePathInstances.v
DevicePathTheorems.v
DevicePathPrefix.v
HandlePath.v
HandlePathLocate.v
HandlePathInstall.v
HandlePathProgram.v
HandlePathTheorems.v
RedBlackTree.v
RedBlackTreeRep.v
RedBlackTreeSearch.v
RedBlackTreeInsert.v
RedBlackTreeUnlink.v
RedBlackTreeDelete.v
RedBlackTreeValidate.v
RedBlackTreeSpec.v
RedBlackTreeRefine.v
RedBlackTreeTheorems.v
