(* ===== verification/Prelude.v ===== *)
(** * A verification development for EDK II

    The repository (src/edk2) is EDK II, the reference implementation of UEFI
    firmware.  This library models parts of its core in Rocq, as they are
    written, and proves what makes them correct.

    ** The program and its parts

    Every driver is built on BaseLib (MdePkg/Library/BaseLib: linked lists,
    64-bit arithmetic, bit fields, checksums) and may use SafeIntLib
    (MdePkg/Library/BaseSafeIntLib) and ordered collections
    (MdePkg/Library/BaseOrderedCollectionRedBlackTreeLib).  The DXE core (MdeModulePkg/Core/Dxe)
    owns the machine while firmware drivers load: its GCD services keep the
    maps of the memory and I/O address spaces on BaseLib lists; its event
    services run notification functions by task priority level (TPL), from
    lists of events and of timers, and guard all of it with locks that raise
    the TPL; its handle database records which handle has which protocol
    interface and who has it open, and signals the events of clients that wait
    for a protocol; where a device is, is told by a protocol that is a device
    path, a sequence of nodes in memory (MdePkg/Library/UefiDevicePathLib), by
    which handles are found; its dispatcher decides, with the evaluator of dependency
    expressions, which asks the handle database, when a driver may start.

    ** Files

    - Prelude: status codes, the outcome monad [result], wrapping integers,
      sequences of calls ([run_each], [legal_each]), tactics.  CTypes: the C integer types, casts, and the operators that C
      leaves undefined on some operands.
    - BaseMath (module [Math]): the arithmetic of BaseLib, Math64.c and its
      wrappers (LShiftU64.c, DivS64x64Remainder.c, HighBitSet64.c, ...).
      BitField: BitField.c.  CheckSum: CheckSum.c.  LinkedList: LinkedList.c,
      on a store of nodes addressed by pointers.
    - SafeInt (modules [SafeIntLib], [SafeIntLib32], [SafeIntLib64],
      [SafeIntLibEbc]): the four files of BaseSafeIntLib.  SafeIntConversions
      and SafeIntTheorems: what its functions promise, and that they keep it.
    - Depex: Dispatcher/Dependency.c of the DXE core (modules [DepexStack],
      [Dxe]) and Dependency/Dependency.c of the PEI core (module [Pei]);
      module [Expr] is the reference semantics of a dependency expression.
    - Gcd: Gcd/Gcd.c.  GcdMap: its workers, on the list of records that a map
      holds.  GcdSpace: the services, on what the maps say about an address.
      GcdAllocate: the searches of the allocator.  GcdTheorems: the
      properties, the defects found, the witnesses.  GcdProgram: the fourteen
      services as calls, and sequences of calls.
    - ListFamily: several lists in one store.  Event: Event/Event.c, Timer.c,
      Tpl.c and the locks of Library/Library.c.  EventInv: the invariant
      [inv] (which event is in which list), and that the elementary changes
      keep it.  EventCheck decides it on a concrete state.  EventServices:
      signalling, checking and timers; EventLife: creating, closing and
      waiting; EventRun: the steps of the scheduler ([delivery], [lowers]),
      the dispatcher, [CoreRestoreTpl] and programs of clients;
      EventDispatch: what is delivered when notification functions make no
      calls; EventInit: how the
      services start.  EventTheorems: the properties, a defect, the witnesses.
    - Handle: Hand/Handle.c, Notify.c and Locate.c.  HandleInv: the invariant
      [inv] (which object is in which list) and the laws of the pool.
      HandleLookup: searching.  HandleShape, HandleCreate, HandleRemove,
      HandleUninstall: the invariant when an object is made, changed and
      removed.  HandleDriver: what drivers promise ([DriverLaws]).  HandleOpen,
      HandleInstall, HandleErase, HandleLocate, HandleNotify, HandleInfo: the
      specifications of the services ([open_result], [install_result], ...)
      and that the code meets them.  HandleSafe: searches whatever the marks
      are.  HandleProgram: the calls as data, and programs.  HandleSample: a
      platform and a driver that meet the laws.  HandleTheorems: the
      properties, two defects, the witnesses.  HandleDepex: dependency
      expressions over the handle database.
    - DevicePath: UefiDevicePathLib/DevicePathUtilities.c, on a memory of bytes.
      DevicePathSpec: nodes and their bytes.  DevicePathValid: the validation
      decides the grammar; traversals.  DevicePathMemory: copying, blocks of
      the pool.  DevicePathOps, DevicePathInstances: the operations.
      DevicePathPrefix: comparing.  DevicePathTheorems: the properties, the
      witnesses.
    - HandlePath: CoreLocateDevicePath of Locate.c,
      CoreInstallMultipleProtocolInterfaces of Handle.c, DevicePathFromHandle
      and FileDevicePath of DevicePathUtilities.c, which use both.
      HandlePathLocate, HandlePathInstall: what they do.  HandlePathProgram:
      all services of the handle database as calls, and sequences of calls.
      HandlePathTheorems: the properties, two defects, the witnesses.
    - RedBlackTree: BaseOrderedCollectionRedBlackTreeLib.c.
      RedBlackTreeRep: the functional tree that nodes with parent links form,
      subtrees in their context, rotations.  RedBlackTreeSearch: searching and
      iterating.  RedBlackTreeInsert, RedBlackTreeUnlink, RedBlackTreeDelete:
      the loops that restore the red-black properties.  RedBlackTreeValidate:
      the validation.  RedBlackTreeSpec: collections as sorted lists, clients
      as programs of calls.  RedBlackTreeRefine: the library refines that.
      RedBlackTreeTheorems: the properties, the witnesses.

    ** How state and code correspond

    A pointer is an integer and NULL is 0.  Nodes and records live in stores
    ([gmap]s from pointers): [LinkedList.heap] for LIST_ENTRY, [entries] of
    the state [GCD] for EFI_GCD_MAP_ENTRY, [events] of [EventData] for the
    fields of an IEVENT that are not links (its four links are nodes of
    [links], at the offsets of the structure), [objects] of [Database] for
    handles, protocol entries, interfaces, open records and registrations
    (their links are nodes of its [links]), [tree_nodes] of [Collections]
    for the nodes of all ordered collections.  Device paths are sequences of
    bytes, so there memory is one ([DevicePath.Memory]).  A linked structure is read by the
    functions exactly as in C, one field at a time; predicates such as
    [dlist] and [rep] relate it to a Rocq list.  An integer of w bits is a
    [Z] and wraps where the code wraps.  A function is a Rocq function in the
    monad [result]: [AssertFailed] is a violated ASSERT, [BadAccess] an access
    outside an object or another operation that C leaves undefined.  Code
    outside the modelled files is a parameter: the pool allocator and the CPU
    protocol in Gcd, the protocol and PPI databases in Depex, the signedness
    of char and the width of UINTN in CTypes ([Machine]), and in Event the
    pool, the CPU and SMM protocols, the timer hardware, the protocol
    notifications and the clients' notification functions ([Platform]); in
    Handle the pool, the contents of new memory ([Handle.Platform]) and the
    drivers that are connected and disconnected ([Drivers]); in DevicePath where
    the pool finds room and what new memory holds ([PathPlatform]); in RedBlackTree the pool ([Pool]) and the comparison functions, which must
    compare by a total order ([UserOrder], [KeyOrder]).

    Lowering the TPL runs notification functions, which call the event
    services and lower the TPL again.  [Event.CoreRestoreTpl] ties this knot
    with fuel; the services take it as an argument [restore], and their
    theorems are proved against the interface [restorer] (what they need of a
    function that lowers the TPL), which [CoreRestoreTpl] is shown to meet.  A
    notification function is a [prog], a tree of calls.

    ** What the theorems show

    - Lists: insertion, removal and swapping have their effect on the list
      that the nodes represent, and a traversal visits it in order.
    - Arithmetic, bit fields, checksums, SafeIntLib: each function agrees
      with a mathematical definition of its result, for all inputs and
      widths, and rejects what it documents to reject.
    - Dependency expressions: for every well-formed expression the two
      evaluators return its value, do so again after patching their operands,
      and never run off their stack.
    - Ordered collections: any client that keeps to the preconditions gets the
      answers of a sorted list, without a violated ASSERT; insertion and
      deletion keep the trees red-black, so that a search takes a logarithmic
      number of steps; the validation accepts exactly such trees.
    - Events: every program of calls keeps the lists well-formed, violates no
      ASSERT and follows no bad pointer; lowering the TPL delivers what is
      queued above it, by priority and then in order: step by step for any
      client that returns ([lowers]), and in total for notification functions
      that make no calls ([deliveries]).  Signalling and setting a timer do
      their change and then restore the TPL, at any TPL.  Timers fire when they
      are due, unless a period wraps around, which makes [CoreCheckTimers]
      loop; creating, signalling, checking and closing do what they promise on
      every branch.
    - Handle database: every legal sequence of calls of its seventeen services
      (registrations that are used are live, device paths are device paths) returns, keeps the lists
      well-formed and violates no ASSERT, also while drivers are disconnected
      in the middle of a call; every handle has an interface, and who has one
      open exclusively is its only driver.  Each service meets its
      specification on every branch: errors come with their reason, drivers are
      disconnected one by one before a service gives up; a registration finds every handle once;
      a driver is schedulable exactly when its dependency expression holds of
      the installed protocols.
    - Device paths: validation accepts exactly the byte sequences of the grammar
      and never leaves its buffer; appending paths, nodes and instances makes a
      new block with the nodes expected and changes nothing else; instances that
      were put together are taken apart again.  CoreLocateDevicePath finds the
      handle with the longest matching device path;
      CoreInstallMultipleProtocolInterfaces is all or nothing, and keeps the
      device paths of the handles different, as long as they have one instance
      and there is memory for the search.
    - GCD: every legal sequence of calls (ranges that do not wrap past 2^64,
      lists with room) keeps both maps a partition of their address space, with
      maximal segments; a conversion changes what the map says about its range,
      each address to a stated value, and nothing else (for attributes, that
      depends on the records before it: [gathered]); a bottom-up search returns
      the lowest address there is, a top-down search the highest that the code
      looks at ([seen]); memory that an image owns stays with it until it is
      freed.

    ** Bounds and fuel

    Loops over a list run with fuel one more than the number of nodes in the
    store, and [PcdMaximumLinkedListLength] is a parameter of the model, as in
    the code.  The loops on red-black trees run with one more than the number
    of nodes ([node_bound]), those on device paths with one more than the number
    of bytes ([node_fuel]).  [CoreCheckTimers] needs two passes per timer; [CoreRestoreTpl]
    needs fuel for every priority and every event when the notification
    functions do not call back.  When they do, they can run forever, as in
    the code; the theorem on programs then holds for every fuel.  The other
    loops take their bound from the data (the bytes of a depex, the bits of a
    word).  That the bound is enough is part of each theorem: it states that a
    result is returned.

    ** Not modelled

    Of the modelled files: the walk of the HOB list in
    CoreInitializeMemoryServices and CoreInitializeGcdServices, DEBUG output.
    An interrupt happens only where a program calls [TimerTick], not in the
    middle of a service.  Freed pool memory keeps its contents, and clients do
    not use the handle of an event in memory that is not an event.
    Of the handle database: DriverSupport.c, which calls back into drivers, is a
    parameter with laws.
    The lock is its state only, not the TPL; the event services are calls that
    are recorded.  Of the rest of the DXE core: page and pool allocation and
    the dispatcher, which would come next, and then BaseLib strings.  Drivers, user interface, networking, platform code, build tools and vendored code are
    outside the scope of this library. *)

From stdpp Require Export base tactics option list numbers strings gmap.
From Stdlib Require Export ZArith Lia Bool.

(** * Scopes and options *)

#[global] Open Scope Z_scope.

Declare Scope edk2_scope.
Delimit Scope edk2_scope with edk2.

(** * Status codes

    [EFI_STATUS] of MdePkg/Include/Uefi/UefiBaseType.h: [RETURN_SUCCESS] and
    the error codes (high bit set) that the modelled code returns. *)

Inductive EFI_STATUS :=
| EFI_SUCCESS
| EFI_INVALID_PARAMETER
| EFI_UNSUPPORTED
| EFI_BUFFER_TOO_SMALL
| EFI_NOT_READY
| EFI_DEVICE_ERROR
| EFI_OUT_OF_RESOURCES
| EFI_NOT_FOUND
| EFI_ACCESS_DENIED
| EFI_ALREADY_STARTED
| EFI_NOT_AVAILABLE_YET.

#[export] Instance EFI_STATUS_eq_dec : EqDecision EFI_STATUS.
Proof. solve_decision. Defined.

(** [EFI_ERROR (Status)]: the status has its high bit set. *)
Definition EFI_ERROR (Status : EFI_STATUS) : bool :=
  match Status with EFI_SUCCESS => false | _ => true end.

Lemma EFI_ERROR_false s : EFI_ERROR s = false <-> s = EFI_SUCCESS.
Proof. destruct s; naive_solver. Qed.

Lemma EFI_ERROR_true s : EFI_ERROR s = true <-> s <> EFI_SUCCESS.
Proof. destruct s; naive_solver. Qed.

(** * Outcomes of a piece of C code

    [Ok a]: it returns [a].  [AssertFailed]: an [ASSERT] is violated (DEBUG
    builds stop here).  [BadAccess]: it reads or writes outside an object, or
    does something else that C leaves undefined.  [NoFuel]: the bound given to a loop was too small; theorems show which
    bound is enough. *)

Inductive result (A : Type) : Type :=
| Ok (a : A)
| AssertFailed
| BadAccess
| NoFuel.
Arguments Ok {A} a.
Arguments AssertFailed {A}.
Arguments BadAccess {A}.
Arguments NoFuel {A}.

#[export] Instance result_ret : MRet result := @Ok.
#[export] Instance result_bind : MBind result := fun A B f m =>
  match m with
  | Ok a => f a
  | AssertFailed => AssertFailed
  | BadAccess => BadAccess
  | NoFuel => NoFuel
  end.

Definition ASSERT (b : bool) : result unit := if b then Ok tt else AssertFailed.

(** The result of reading through a pointer that may be out of its object. *)
Definition deref {A} (o : option A) : result A :=
  match o with Some a => Ok a | None => BadAccess end.

Notation "'let!' x ':=' m 'in' k" := (mbind (M:=result) (fun x => k) m)
  (at level 10, x pattern, m at level 100, k at level 200,
   format "'[v' 'let!'  x  ':='  m  'in' '/' k ']'") : edk2_scope.
Notation "'do!' m ';;' k" := (mbind (M:=result) (fun _ : unit => k) m)
  (at level 10, m at level 99, k at level 200,
   format "'[v' 'do!'  m ';;' '/' k ']'") : edk2_scope.
#[global] Open Scope edk2_scope.

Lemma bind_Ok {A B} (m : result A) (f : A -> result B) b :
  (let! x := m in f x) = Ok b <-> exists a, m = Ok a /\ f a = Ok b.
Proof. split; [destruct m; simpl; try done; eauto | intros (a & -> & Hb); done]. Qed.

(** Three steps, the second of which returns a pair, seen as one. *)
Lemma bind_assoc3 {A B C S : Type} (m : result A) (f : A -> result (B * S)) (g : B -> S -> result S) (k : S -> result C) :
  (let! a := m in let! (x, s) := f a in let! s := g x s in k s) =
  (let! s := (let! a := m in let! (x, s) := f a in g x s) in k s).
Proof. destruct m as [a| | |]; try done. cbn [mbind result_bind]. by destruct (f a) as [[x s]| | |]. Qed.

Lemma ASSERT_Ok b u : ASSERT b = Ok u <-> b = true.
Proof. destruct b, u; simpl; naive_solver. Qed.

Lemma deref_Ok {A} (o : option A) a : deref o = Ok a <-> o = Some a.
Proof. destruct o; simpl; naive_solver. Qed.

(** What a piece of code guarantees: no assertion fails, no access is bad, and
    the value returned has [Q].  If [total], the fuel is enough as well. *)
Definition wp {A} (total : bool) (m : result A) (Q : A -> Prop) : Prop :=
  match m with
  | Ok a => Q a
  | NoFuel => total = false
  | AssertFailed | BadAccess => False
  end.

Lemma wp_mono {A} total (m : result A) (P Q : A -> Prop) :
  wp total m P -> (forall a, P a -> Q a) -> wp total m Q.
Proof. destruct m; simpl; auto. Qed.

Lemma wp_partial {A} total (m : result A) (Q : A -> Prop) : wp total m Q -> wp false m Q.
Proof. by destruct m. Qed.

Lemma wp_bind {A B} total (m : result A) (f : A -> result B) (P : A -> Prop) (Q : B -> Prop) :
  wp total m P -> (forall a, P a -> wp total (f a) Q) -> wp total (let! x := m in f x) Q.
Proof. destruct m; simpl; auto. Qed.

(** The result that the condition is about is the one that is returned. *)
Lemma wp_ok {A} total (m : result A) (Q : A -> Prop) : wp total m Q -> wp total m (fun a => m = Ok a /\ Q a).
Proof. by destruct m. Qed.

Lemma wp_total {A} (m : result A) (Q : A -> Prop) : wp true m Q <-> exists a, m = Ok a /\ Q a.
Proof. destruct m; simpl; split; try naive_solver. Qed.

(** * Sequences of calls *)

Section Each.
Context {C A S : Type} (step : C -> S -> result (A * S)) (ok : C -> S -> Prop).

(** All of them, in order: their answers, and the state at the end. *)
Fixpoint run_each (cs : list C) (s : S) : result (list A * S) :=
  match cs with
  | [] => Ok ([], s)
  | c :: cs => let! (a, s) := step c s in let! (l, s) := run_each cs s in Ok (a :: l, s)
  end.

(** Each is legal in the state that it finds. *)
Fixpoint legal_each (cs : list C) (s : S) : Prop :=
  match cs with
  | [] => True
  | c :: cs => ok c s /\ match step c s with Ok (_, s') => legal_each cs s' | _ => True end
  end.

Lemma run_each_safe (good : S -> Prop) :
  (forall c s, good s -> ok c s -> exists a s', step c s = Ok (a, s') /\ good s') ->
  forall cs s, good s -> legal_each cs s ->
  exists l s', run_each cs s = Ok (l, s') /\ length l = length cs /\ good s'.
Proof.
  intros Hstep. induction cs as [|c cs IH]; intros s Hg Hl; cbn [run_each]; [by exists [], s|].
  destruct Hl as [Hc Hl]. destruct (Hstep c s Hg Hc) as (a & s1 & Heq & Hg1).
  rewrite Heq in Hl |- *. cbn [mbind result_bind].
  destruct (IH s1 Hg1 Hl) as (l & s' & -> & Hlen & Hg'). cbn [mbind result_bind].
  exists (a :: l), s'. split; [done|]. split; [simpl; by rewrite Hlen|done].
Qed.
End Each.

(** * Pointers

    A pointer is an address; no object is at [NULL]. *)

Abbreviation ptr := Z.
Definition NULL : ptr := 0.

(** * Machine integers

    A [UINTw] is a [Z] in [[0, 2^w)]; the operations wrap explicitly. *)

Definition wrap (w x : Z) : Z := x mod 2 ^ w.
Abbreviation u8 := (wrap 8).
Abbreviation u16 := (wrap 16).
Abbreviation u32 := (wrap 32).
Abbreviation u64 := (wrap 64).

Definition MAX_UINT64 : Z := 0xFFFFFFFFFFFFFFFF.

Lemma wrap_bounds w x : 0 <= w -> 0 <= wrap w x < 2 ^ w.
Proof. intros. apply Z.mod_pos_bound. lia. Qed.

Lemma wrap_small w x : 0 <= x < 2 ^ w -> wrap w x = x.
Proof. apply Z.mod_small. Qed.

Lemma wrap_wrap w x : 0 <= w -> wrap w (wrap w x) = wrap w x.
Proof. intros. apply wrap_small, wrap_bounds. done. Qed.

(** The complement of a mask, as a [UINT64]. *)
Definition not64 (x : Z) : Z := Z.lxor x MAX_UINT64.

(** [Value & ~(2^n - 1)] rounds down to a multiple of [2^n]. *)
Lemma land_not_mask v n :
  0 <= n < 64 -> 0 <= v < 2 ^ 64 ->
  Z.land v (not64 (2 ^ n - 1)) = v / 2 ^ n * 2 ^ n.
Proof.
  intros Hn Hv. unfold not64, MAX_UINT64.
  change 0xFFFFFFFFFFFFFFFF with (Z.ones 64).
  replace (2 ^ n - 1) with (Z.ones n) by (rewrite Z.ones_equiv; lia).
  rewrite <-Z.shiftl_mul_pow2, <-Z.shiftr_div_pow2 by lia.
  apply Z.bits_inj'. intros i Hi.
  rewrite Z.land_spec, Z.lxor_spec, Z.shiftl_spec by lia.
  rewrite !Z.testbit_ones by lia.
  destruct (Z.ltb_spec i n).
  - rewrite (Z.testbit_neg_r _ (i - n)) by lia.
    destruct (Z.leb_spec 0 i), (Z.ltb_spec i 64); try lia; simpl.
    apply andb_false_r.
  - rewrite Z.shiftr_spec by lia. replace (i - n + n) with i by lia.
    destruct (Z.leb_spec 0 i), (Z.ltb_spec i 64); try lia; simpl;
      rewrite ?andb_true_r, ?andb_false_r; auto.
    symmetry. apply Z.bits_above_log2; [lia|].
    destruct (Z.eq_dec v 0) as [->|]; [simpl; lia|].
    apply Z.log2_lt_pow2; [lia|]. eapply Z.lt_le_trans; [apply Hv|].
    apply Z.pow_le_mono_r; lia.
Qed.

(** A number is below [2^n] exactly if it has no bit from [n] on. *)
Lemma bits_below x n : 0 <= n -> 0 <= x -> x < 2 ^ n <-> forall i, n <= i -> Z.testbit x i = false.
Proof.
  intros Hn Hx. split.
  - intros Hlt i Hi. destruct (Z.eq_dec x 0) as [->|]; [apply Z.testbit_0_l|].
    apply Z.bits_above_log2; [done|]. apply Z.lt_le_trans with n; [|done]. apply Z.log2_lt_pow2; lia.
  - intros Hb. destruct (Z.eq_dec x 0) as [->|]; [apply Z.pow_pos_nonneg; lia|].
    apply Z.log2_lt_pow2; [lia|]. destruct (Z.lt_ge_cases (Z.log2 x) n) as [|Hge]; [done|].
    specialize (Hb _ Hge). rewrite Z.bit_log2 in Hb by lia. done.
Qed.

(** * Tactics *)

(** Split a run of [result] binds that ended in [Ok]. *)
Ltac inv_result :=
  repeat match goal with
  | H : Ok _ = Ok _ |- _ => injection H as H; subst
  | H : mbind _ _ = Ok _ |- _ =>
      let x := fresh "x" in let E := fresh "E" in let H' := fresh "H" in
      apply bind_Ok in H; destruct H as (x & E & H')
  | H : ASSERT _ = Ok _ |- _ => apply ASSERT_Ok in H
  | H : deref _ = Ok _ |- _ => apply deref_Ok in H
  | H : AssertFailed = Ok _ |- _ => discriminate H
  | H : BadAccess = Ok _ |- _ => discriminate H
  | H : NoFuel = Ok _ |- _ => discriminate H
  end.

(** Boolean tests of the code to propositions, everywhere. *)
Ltac bool_to_prop :=
  rewrite ?andb_true_iff, ?orb_true_iff, ?negb_true_iff,
    ?andb_false_iff, ?orb_false_iff, ?negb_false_iff,
    ?Z.leb_le, ?Z.ltb_lt, ?Z.eqb_eq, ?Z.leb_gt, ?Z.ltb_ge, ?Z.eqb_neq,
    ?Z.geb_le, ?Z.gtb_lt, ?Nat.eqb_eq, ?Nat.eqb_neq,
    ?Nat.leb_le, ?Nat.ltb_lt, ?Nat.leb_gt, ?Nat.ltb_ge,
    ?bool_decide_eq_true, ?bool_decide_eq_false in *.

(** Comparisons of named constants in the hypotheses. *)
Ltac eqb_compute :=
  repeat match goal with
  | H : context [?a =? ?b] |- _ =>
      is_const a; is_const b;
      let v := eval vm_compute in (a =? b) in
      lazymatch v with
      | true => change (a =? b) with true in H
      | false => change (a =? b) with false in H
      end
  end.

(** Case analysis on the guard of the first [if] of the goal. *)
Ltac case_if E :=
  match goal with
  | |- context [if ?b then _ else _] => destruct b eqn:E
  end.

(** Goals about the length of concatenations. *)
Ltac solve_length := simpl in *; repeat (rewrite ?length_app in *; simpl in *); lia.

(** * Lists *)

(** [sublist] as a byte copy: [n] elements from offset [i], all in range. *)
Definition CopyMem {A} (buf : list A) (i n : nat) : option (list A) :=
  if decide (i + n <= length buf)%nat then Some (take n (drop i buf)) else None.

Lemma CopyMem_length {A} (buf : list A) i n l :
  CopyMem buf i n = Some l -> length l = n.
Proof.
  unfold CopyMem. case_decide; intros; simplify_eq.
  rewrite length_take, length_drop. lia.
Qed.

Create HintDb edk2.
#[export] Hint Resolve wrap_bounds wrap_small : edk2.
