(* ===== verification/CTypes.v ===== *)
(** * C integer types

    The fixed-width integer types of MdePkg/Include/Base.h and
    ProcessorBind.h, conversions between them, the operations that C leaves
    undefined for some operands ([signed_result] for overflow of a signed
    operation, [shl] and [shr] for shift counts that reach the width), and
    the choices a compiler and a target make ([Machine]). *)

From S2P Require Import Prelude.

Record int_type := IntType { signed : bool; width : Z }.

Definition INT8 := IntType true 8.
Definition UINT8 := IntType false 8.
Definition INT16 := IntType true 16.
Definition UINT16 := IntType false 16.
Definition INT32 := IntType true 32.
Definition UINT32 := IntType false 32.
Definition INT64 := IntType true 64.
Definition UINT64 := IntType false 64.

(** What the code takes from the compiler and the target: whether plain
    [char] is signed, whether [UINTN] has 64 bits (else 32), and whether [>>]
    on a negative value keeps the sign. *)
Class Machine := {
  char_is_signed : bool;
  uintn_is_64 : bool;
  shift_is_arithmetic : bool
}.

Definition CHAR8 `{Machine} := IntType char_is_signed 8.
Definition INTN `{Machine} := IntType true (if uintn_is_64 then 64 else 32).
Definition UINTN `{Machine} := IntType false (if uintn_is_64 then 64 else 32).

(** The x86-64 build. *)
Definition X64 : Machine := {|
  char_is_signed := true; uintn_is_64 := true; shift_is_arithmetic := true |}.

Definition min_of (T : int_type) : Z :=
  if signed T then - 2 ^ (width T - 1) else 0.
Definition max_of (T : int_type) : Z :=
  if signed T then 2 ^ (width T - 1) - 1 else 2 ^ width T - 1.

Definition fits (T : int_type) (x : Z) : bool :=
  (min_of T <=? x) && (x <=? max_of T).

(** Conversion of [x] to [T]: reduction modulo [2^width], to the
    representative of [T]. *)
Definition cast (T : int_type) (x : Z) : Z :=
  if signed T then wrap (width T) (x + 2 ^ (width T - 1)) - 2 ^ (width T - 1)
  else wrap (width T) x.

(** The value of a signed operation of type [T]; overflow is undefined. *)
Definition signed_result (T : int_type) (x : Z) : result Z :=
  if fits T x then Ok x else BadAccess.

(** [x << c] and [x >> c] for an unsigned [x] of [w] bits; a count of [w] or
    more is undefined. *)
Definition shl (w x c : Z) : result Z :=
  if c <? w then Ok (wrap w (Z.shiftl x c)) else BadAccess.
Definition shr (w x c : Z) : result Z :=
  if c <? w then Ok (Z.shiftr x c) else BadAccess.

(** ** Lemmas *)

Lemma fits_spec T x : fits T x = true <-> min_of T <= x <= max_of T.
Proof. unfold fits. bool_to_prop. lia. Qed.

Lemma cast_fits T x : 0 < width T -> fits T x = true -> cast T x = x.
Proof.
  rewrite fits_spec. unfold cast, min_of, max_of. intros Hw Hx.
  assert (2 ^ width T = 2 * 2 ^ (width T - 1)) as Hp.
  { rewrite <-Z.pow_succ_r by lia. f_equal. lia. }
  destruct (signed T); rewrite wrap_small; lia.
Qed.

Lemma cast_in_range T x : 0 < width T -> fits T (cast T x) = true.
Proof.
  intros Hw. rewrite fits_spec. unfold cast, min_of, max_of.
  assert (2 ^ width T = 2 * 2 ^ (width T - 1)) as Hp.
  { rewrite <-Z.pow_succ_r by lia. f_equal. lia. }
  destruct (signed T).
  - pose proof (wrap_bounds (width T) (x + 2 ^ (width T - 1))). lia.
  - pose proof (wrap_bounds (width T) x). lia.
Qed.

(** Conversion only depends on the value modulo [2^width]. *)
Lemma cast_mod T x y :
  x mod 2 ^ width T = y mod 2 ^ width T -> cast T x = cast T y.
Proof.
  intros H. unfold cast, wrap. destruct (signed T); [|done].
  by rewrite Zplus_mod, H, <-Zplus_mod.
Qed.

Lemma signed_result_Ok T x : fits T x = true -> signed_result T x = Ok x.
Proof. unfold signed_result. by intros ->. Qed.

Lemma shl_Ok w x c : c < w -> shl w x c = Ok (wrap w (Z.shiftl x c)).
Proof. unfold shl. by intros ->%Z.ltb_lt. Qed.

Lemma shr_Ok w x c : c < w -> shr w x c = Ok (Z.shiftr x c).
Proof. unfold shr. by intros ->%Z.ltb_lt. Qed.

Lemma shl_undefined w x c : w <= c -> shl w x c = BadAccess.
Proof. unfold shl. by intros ->%Z.ltb_ge. Qed.

Lemma shr_undefined w x c : w <= c -> shr w x c = BadAccess.
Proof. unfold shr. by intros ->%Z.ltb_ge. Qed.

(** ** Bits of machine words *)

Lemma testbit_wrap w x i :
  0 <= w -> 0 <= i -> Z.testbit (wrap w x) i = (i <? w) && Z.testbit x i.
Proof.
  intros Hw Hi. unfold wrap. destruct (Z.ltb_spec i w).
  - by rewrite Z.mod_pow2_bits_low by lia.
  - by rewrite Z.mod_pow2_bits_high by lia.
Qed.

(** A word of [w] bits has no bit from [w] on. *)
Lemma testbit_above w x i :
  0 <= x < 2 ^ w -> w <= i -> Z.testbit x i = false.
Proof.
  intros Hx Hi. assert (0 <= w).
  { destruct (Z.ltb_spec w 0); [|lia]. rewrite Z.pow_neg_r in Hx; lia. }
  rewrite <-(Z.mod_small x (2 ^ w)) by done.
  apply Z.mod_pow2_bits_high. lia.
Qed.

(** Words that agree on their bits are equal. *)
Lemma word_ext w x y :
  0 <= w -> 0 <= x < 2 ^ w -> 0 <= y < 2 ^ w ->
  (forall i, 0 <= i < w -> Z.testbit x i = Z.testbit y i) -> x = y.
Proof.
  intros Hw Hx Hy H. apply Z.bits_inj'. intros i Hi.
  destruct (Z.ltb_spec i w); [apply H; lia|].
  by rewrite (testbit_above w x i), (testbit_above w y i).
Qed.

(** A number without bits from [w] on is a word of [w] bits. *)
Lemma word_bound w x :
  0 <= w -> 0 <= x -> (forall i, w <= i -> Z.testbit x i = false) ->
  0 <= x < 2 ^ w.
Proof.
  intros Hw Hx H. split; [done|].
  assert (x = x mod 2 ^ w) as ->; [|apply Z.mod_pos_bound; lia].
  apply Z.bits_inj'. intros i Hi. destruct (Z.ltb_spec i w).
  - by rewrite Z.mod_pow2_bits_low.
  - rewrite Z.mod_pow2_bits_high by lia. apply H. lia.
Qed.
