(* ===== verification/BaseMath.v ===== *)
(** * BaseLib arithmetic

    The shifts, rotations, byte swaps, divisions and bit searches of
    MdePkg/Library/BaseLib, with the C worker functions of Math64.c (the x64
    and AArch64 builds use these): module [Math].  A shift count that reaches
    the width, a signed quotient that does not fit, and the like are
    [BadAccess]; a failed [ASSERT] is [AssertFailed]. *)

From S2P Require Import Prelude.
From S2P Require Import CTypes.

Module Math.
Section Math.
Context `{Machine}.

(** ** Shifts *)

Definition InternalMathLShiftU64 (Operand Count : Z) : result Z :=
  shl 64 Operand Count.

Definition InternalMathRShiftU64 (Operand Count : Z) : result Z :=
  shr 64 Operand Count.

(** [x >> c] for a signed [x] of type [T]: the compiler keeps the sign or
    shifts the bit pattern. *)
Definition shr_signed (T : int_type) (x c : Z) : result Z :=
  if c <? width T then
    Ok (if shift_is_arithmetic then Z.shiftr x c
        else cast T (Z.shiftr (wrap (width T) x) c))
  else BadAccess.

Definition InternalMathARShiftU64 (Operand Count : Z) : result Z :=
  let! Bit63 := shl 64 1 63 in
  let! Shifted := shr_signed INT64 (cast INT64 Bit63) 63 in
  let TestValue := cast INTN Shifted in
  if TestValue =? -1 then
    let! r := shr_signed INT64 (cast INT64 Operand) Count in
    Ok (cast UINT64 r)
  else
    let! r := shr 64 Operand Count in
    let! Mask :=
      (if cast INTN Operand <? 0 then
         let! m := shr (width UINTN) (max_of UINTN) Count in
         Ok (Z.lxor m (max_of UINTN))
       else Ok 0) in
    Ok (Z.lor r Mask).

Definition LShiftU64 (Operand Count : Z) : result Z :=
  do! ASSERT (Count <? 64);;
  InternalMathLShiftU64 Operand Count.

Definition RShiftU64 (Operand Count : Z) : result Z :=
  do! ASSERT (Count <? 64);;
  InternalMathRShiftU64 Operand Count.

Definition ARShiftU64 (Operand Count : Z) : result Z :=
  do! ASSERT (Count <? 64);;
  InternalMathARShiftU64 Operand Count.

(** ** Rotations *)

Definition InternalMathLRotU64 (Operand Count : Z) : result Z :=
  let! l := shl 64 Operand Count in
  let! r := shr 64 Operand (64 - Count) in
  Ok (Z.lor l r).

Definition InternalMathRRotU64 (Operand Count : Z) : result Z :=
  let! r := shr 64 Operand Count in
  let! l := shl 64 Operand (64 - Count) in
  Ok (Z.lor r l).

Definition LRotU64 (Operand Count : Z) : result Z :=
  do! ASSERT (Count <? 64);;
  InternalMathLRotU64 Operand Count.

Definition RRotU64 (Operand Count : Z) : result Z :=
  do! ASSERT (Count <? 64);;
  InternalMathRRotU64 Operand Count.

Definition LRotU32 (Operand Count : Z) : result Z :=
  do! ASSERT (Count <? 32);;
  let! l := shl 32 Operand Count in
  let! r := shr 32 Operand (32 - Count) in
  Ok (Z.lor l r).

Definition RRotU32 (Operand Count : Z) : result Z :=
  do! ASSERT (Count <? 32);;
  let! r := shr 32 Operand Count in
  let! l := shl 32 Operand (32 - Count) in
  Ok (Z.lor r l).

(** ** Byte swaps *)

(** [Value] is promoted to [int], which holds 24 bits. *)
Definition SwapBytes16 (Value : Z) : Z :=
  u16 (Z.lor (Z.shiftl Value 8) (Z.shiftr Value 8)).

Definition SwapBytes32 (Value : Z) : Z :=
  let LowerBytes := u32 (SwapBytes16 (u16 Value)) in
  let HigherBytes := u32 (SwapBytes16 (u16 (Z.shiftr Value 16))) in
  Z.lor (u32 (Z.shiftl LowerBytes 16)) HigherBytes.

Definition InternalMathSwapBytes64 (Operand : Z) : Z :=
  let LowerBytes := u64 (SwapBytes32 (u32 Operand)) in
  let HigherBytes := u64 (SwapBytes32 (u32 (Z.shiftr Operand 32))) in
  Z.lor (u64 (Z.shiftl LowerBytes 32)) HigherBytes.

Definition SwapBytes64 (Value : Z) : Z := InternalMathSwapBytes64 Value.

(** ** Multiplication and division *)

Definition InternalMathMultU64x32 (Multiplicand Multiplier : Z) : Z :=
  u64 (Multiplicand * Multiplier).

Definition InternalMathMultU64x64 (Multiplicand Multiplier : Z) : Z :=
  u64 (Multiplicand * Multiplier).

Definition MultU64x32 (Multiplicand Multiplier : Z) : Z :=
  InternalMathMultU64x32 Multiplicand Multiplier.

Definition MultU64x64 (Multiplicand Multiplier : Z) : Z :=
  InternalMathMultU64x64 Multiplicand Multiplier.

Definition MultS64x64 (Multiplicand Multiplier : Z) : Z :=
  cast INT64 (MultU64x64 (cast UINT64 Multiplicand) (cast UINT64 Multiplier)).

Definition InternalMathDivU64x32 (Dividend Divisor : Z) : Z :=
  Dividend / Divisor.

Definition InternalMathModU64x32 (Dividend Divisor : Z) : Z :=
  u32 (Dividend mod Divisor).

(** The quotient, and what is stored through [Remainder] when it is not
    [NULL]. *)
Definition InternalMathDivRemU64x32 (Dividend Divisor : Z)
    (RemainderIsNull : bool) : Z * option Z :=
  (Dividend / Divisor,
   if RemainderIsNull then None else Some (u32 (Dividend mod Divisor))).

Definition InternalMathDivRemU64x64 (Dividend Divisor : Z)
    (RemainderIsNull : bool) : Z * option Z :=
  (Dividend / Divisor,
   if RemainderIsNull then None else Some (Dividend mod Divisor)).

(** [/] truncates; [/] and [%] are undefined when the quotient does not
    fit. *)
Definition InternalMathDivRemS64x64 (Dividend Divisor : Z)
    (RemainderIsNull : bool) : result (Z * option Z) :=
  let! q := signed_result INT64 (Z.quot Dividend Divisor) in
  Ok (q, if RemainderIsNull then None else Some (Z.rem Dividend Divisor)).

Definition DivU64x32 (Dividend Divisor : Z) : result Z :=
  do! ASSERT (negb (Divisor =? 0));;
  Ok (InternalMathDivU64x32 Dividend Divisor).

Definition ModU64x32 (Dividend Divisor : Z) : result Z :=
  do! ASSERT (negb (Divisor =? 0));;
  Ok (InternalMathModU64x32 Dividend Divisor).

Definition DivU64x32Remainder (Dividend Divisor : Z) (RemainderIsNull : bool)
    : result (Z * option Z) :=
  do! ASSERT (negb (Divisor =? 0));;
  Ok (InternalMathDivRemU64x32 Dividend Divisor RemainderIsNull).

Definition DivU64x64Remainder (Dividend Divisor : Z) (RemainderIsNull : bool)
    : result (Z * option Z) :=
  do! ASSERT (negb (Divisor =? 0));;
  Ok (InternalMathDivRemU64x64 Dividend Divisor RemainderIsNull).

Definition DivS64x64Remainder (Dividend Divisor : Z) (RemainderIsNull : bool)
    : result (Z * option Z) :=
  do! ASSERT (negb (Divisor =? 0));;
  InternalMathDivRemS64x64 Dividend Divisor RemainderIsNull.

(** ** Bit searches *)

Fixpoint LowBitSet32_loop (fuel : nat) (Operand BitIndex : Z) : result Z :=
  match fuel with
  | O => NoFuel
  | S fuel =>
      if 0 =? Z.land Operand 1
      then LowBitSet32_loop fuel (Z.shiftr Operand 1) (BitIndex + 1)
      else Ok BitIndex
  end.

Definition LowBitSet32 (Operand : Z) : result Z :=
  if Operand =? 0 then Ok (-1) else LowBitSet32_loop 32 Operand 0.

Fixpoint LowBitSet64_loop (fuel : nat) (Operand BitIndex : Z) : result Z :=
  match fuel with
  | O => NoFuel
  | S fuel =>
      if Z.land Operand 1 =? 0
      then let! Operand' := RShiftU64 Operand 1 in
           LowBitSet64_loop fuel Operand' (BitIndex + 1)
      else Ok BitIndex
  end.

Definition LowBitSet64 (Operand : Z) : result Z :=
  if Operand =? 0 then Ok (-1) else LowBitSet64_loop 64 Operand 0.

Fixpoint HighBitSet32_loop (fuel : nat) (Operand BitIndex : Z) : result Z :=
  match fuel with
  | O => NoFuel
  | S fuel =>
      if 0 <? cast INT32 Operand
      then HighBitSet32_loop fuel (u32 (Z.shiftl Operand 1)) (BitIndex - 1)
      else Ok BitIndex
  end.

Definition HighBitSet32 (Operand : Z) : result Z :=
  if Operand =? 0 then Ok (-1) else HighBitSet32_loop 32 Operand 31.

(** On a 32-bit target the high half is read through a [UINT32] pointer
    (little-endian), elsewhere it is shifted down. *)
Definition HighBitSet64 (Operand : Z) : result Z :=
  if Operand =? u32 Operand then HighBitSet32 (u32 Operand)
  else if width UINTN =? 32 then
    let! h := HighBitSet32 (Z.shiftr Operand 32) in Ok (h + 32)
  else
    let! High := RShiftU64 Operand 32 in
    let! h := HighBitSet32 (u32 High) in
    Ok (h + 32).

(** [1ul] has 32 bits at least; the result is converted to [UINT32]. *)
Definition GetPowerOfTwo32 (Operand : Z) : result Z :=
  if 0 =? Operand then Ok 0
  else
    let! h := HighBitSet32 Operand in
    shl 32 1 h.

Definition GetPowerOfTwo64 (Operand : Z) : result Z :=
  if Operand =? 0 then Ok 0
  else
    let! h := HighBitSet64 Operand in
    LShiftU64 1 (cast UINTN h).

End Math.
End Math.

(** * Theorems *)

(** Arithmetic with divisions by constants. *)
Ltac div_lia := Z.to_euclidean_division_equations; lia.

(** Reads a bit of a word built from words. *)
Ltac testbits :=
  repeat first
    [ rewrite Z.lor_spec | rewrite Z.land_spec | rewrite Z.lxor_spec
    | rewrite testbit_wrap by (lia || div_lia)
    | rewrite Z.shiftl_spec by (lia || div_lia)
    | rewrite Z.shiftr_spec by (lia || div_lia) ].

(** Decides the comparisons of bit positions in the goal. *)
Ltac bit_cases :=
  repeat match goal with
  | |- context [?a <? ?b] => destruct (Z.ltb_spec a b); try lia; simpl
  | |- context [?a <=? ?b] => destruct (Z.leb_spec a b); try lia; simpl
  end.

Lemma lor_bound w x y :
  0 <= w -> 0 <= x < 2 ^ w -> 0 <= y < 2 ^ w -> 0 <= Z.lor x y < 2 ^ w.
Proof.
  intros Hw Hx Hy. apply word_bound; [done|apply Z.lor_nonneg; lia|].
  intros i Hi. rewrite Z.lor_spec.
  by rewrite (testbit_above w x), (testbit_above w y) by lia.
Qed.

Lemma shiftr_bound w x n :
  0 <= w -> 0 <= n -> 0 <= x < 2 ^ w -> 0 <= Z.shiftr x n < 2 ^ w.
Proof.
  intros Hw Hn Hx. rewrite Z.shiftr_div_pow2 by done.
  pose proof (Z.pow_pos_nonneg 2 n ltac:(lia) Hn).
  split; [apply Z.div_pos; lia|].
  apply Z.div_lt_upper_bound; nia.
Qed.

Section Theorems.
Context `{Machine}.
Import Math.

(** ** Shifts *)

Lemma LShiftU64_Ok x n :
  n < 64 -> LShiftU64 x n = Ok (u64 (Z.shiftl x n)).
Proof.
  intros Hn. unfold LShiftU64, InternalMathLShiftU64.
  assert (n <? 64 = true) as -> by lia. simpl. by apply shl_Ok.
Qed.

Lemma RShiftU64_Ok x n : n < 64 -> RShiftU64 x n = Ok (Z.shiftr x n).
Proof.
  intros Hn. unfold RShiftU64, InternalMathRShiftU64.
  assert (n <? 64 = true) as -> by lia. simpl. by apply shr_Ok.
Qed.

(** The fallback of a compiler without an arithmetic shift: fill the high
    bits by hand. *)
Lemma fill_sign_bits x n :
  0 <= n < 64 -> 2 ^ 63 <= x < 2 ^ 64 ->
  Z.lor (Z.shiftr x n) (Z.lxor (Z.shiftr (2 ^ 64 - 1) n) (2 ^ 64 - 1)) =
  u64 (Z.shiftr (x - 2 ^ 64) n).
Proof.
  intros Hn Hx. change (2 ^ 64 - 1) with (Z.ones 64).
  assert (forall k, 0 <= k -> Z.testbit (Z.ones 64) k = (k <? 64)) as Hones.
  { intros k Hk. rewrite Z.testbit_ones by lia. bit_cases; done. }
  apply Z.bits_inj'. intros i Hi. testbits. rewrite !Hones by lia.
  destruct (Z.ltb_spec (i + n) 64).
  - replace (i <? 64) with true by lia. rewrite orb_false_r. simpl.
    assert (x - 2 ^ 64 = x + (-1) * 2 ^ 64) as -> by lia.
    rewrite <-(Z.mod_pow2_bits_low x 64), <-(Z.mod_pow2_bits_low (_ + _) 64)
      by lia.
    by rewrite Z.mod_add by lia.
  - rewrite (testbit_above 64 x) by lia. simpl.
    destruct (Z.ltb_spec i 64); [|done]. simpl.
    symmetry. rewrite <-(negb_involutive (Z.testbit _ _)), <-Z.lnot_spec by lia.
    rewrite (testbit_above 63); [done|unfold Z.lnot; lia|lia].
Qed.

Lemma shr_signed_Ok T x c :
  c < width T ->
  shr_signed T x c =
  Ok (if shift_is_arithmetic then Z.shiftr x c
      else cast T (Z.shiftr (wrap (width T) x) c)).
Proof. unfold shr_signed. by intros ->%Z.ltb_lt. Qed.

Lemma fits_INT64 x : fits INT64 x = true <-> - 2 ^ 63 <= x < 2 ^ 63.
Proof.
  rewrite fits_spec. change (min_of INT64) with (- 2 ^ 63).
  change (max_of INT64) with (2 ^ 63 - 1). lia.
Qed.

(** A [UINT64] read as an [INT64]. *)
Lemma cast_INT64 x :
  0 <= x < 2 ^ 64 ->
  cast INT64 x = if x <? 2 ^ 63 then x else x - 2 ^ 64.
Proof.
  intros Hx. destruct (Z.ltb_spec x (2 ^ 63)).
  - apply cast_fits; [done|]. apply fits_INT64. lia.
  - rewrite (cast_mod _ _ (x - 2 ^ 64)).
    + apply cast_fits; [done|]. apply fits_INT64. lia.
    + change (width INT64) with 64. rewrite <-(Z.mod_add (x - _) 1) by lia.
      f_equal. lia.
Qed.

Lemma logical_shift_filled x n :
  0 <= n < 64 -> 0 <= x < 2 ^ 64 ->
  (let! m :=
     (if cast INT64 x <? 0
      then Ok (Z.lxor (Z.shiftr (max_of UINT64) n) (max_of UINT64))
      else Ok 0) in
   Ok (Z.lor (Z.shiftr x n) m)) = Ok (u64 (Z.shiftr (cast INT64 x) n)).
Proof.
  intros Hn Hx. rewrite cast_INT64 by done.
  destruct (Z.ltb_spec x (2 ^ 63)).
  - assert (x <? 0 = false) as -> by lia. cbn [mbind result_bind].
    rewrite Z.lor_0_r, wrap_small; [done|]. apply shiftr_bound; lia.
  - assert (x - 2 ^ 64 <? 0 = true) as -> by lia. cbn [mbind result_bind].
    apply f_equal, fill_sign_bits; lia.
Qed.

(** [ARShiftU64] is the arithmetic shift of the operand read as a signed
    number, for every count up to 63, whether or not the compiler's [>>]
    keeps the sign (on targets with a 64-bit [UINTN], and on the others when
    it does); larger counts violate the [ASSERT]. *)
Theorem ARShiftU64_arithmetic Operand Count :
  0 <= Operand < 2 ^ 64 -> 0 <= Count ->
  uintn_is_64 = true \/ shift_is_arithmetic = true ->
  ARShiftU64 Operand Count =
  if Count <? 64
  then Ok (u64 (Z.shiftr (cast INT64 Operand) Count))
  else AssertFailed.
Proof.
  intros Ho Hc Hm. unfold ARShiftU64.
  destruct (Z.ltb_spec Count 64) as [Hn|]; [|done].
  cbn [ASSERT mbind result_bind]. unfold InternalMathARShiftU64.
  rewrite shl_Ok by lia. cbn [mbind result_bind].
  rewrite !shr_signed_Ok by (simpl; lia). cbn [mbind result_bind].
  destruct shift_is_arithmetic eqn:Ea.
  - assert (cast INTN (Z.shiftr (cast INT64 (u64 (Z.shiftl 1 63))) 63) = -1)
      as -> by (unfold INTN; by destruct uintn_is_64).
    done.
  - destruct Hm as [Hm|]; [|done]. unfold INTN, UINTN. rewrite Hm.
    case_if E; [by vm_compute in E|]. clear E.
    rewrite !shr_Ok by (simpl; lia). cbn [mbind result_bind].
    by apply logical_shift_filled.
Qed.

(** ** Rotations *)

(** The two halves of a rotation meet without overlap. *)
Lemma rotated_bit w x n i :
  0 < n < w -> 0 <= x < 2 ^ w -> 0 <= i < w ->
  Z.testbit (Z.lor (wrap w (Z.shiftl x n)) (Z.shiftr x (w - n))) i =
  Z.testbit x ((i - n) mod w).
Proof.
  intros Hn Hx Hi. testbits.
  assert (i <? w = true) as -> by lia. simpl.
  destruct (Z.ltb_spec i n).
  - rewrite (Z.testbit_neg_r x (i - n)) by lia. simpl. f_equal.
    rewrite <-(Z.mod_add _ 1) by lia. rewrite Z.mod_small; lia.
  - rewrite (testbit_above w x (i + _)) by lia. rewrite orb_false_r.
    by rewrite Z.mod_small by lia.
Qed.

Lemma rotated_bound w x n :
  0 < n < w -> 0 <= x < 2 ^ w ->
  0 <= Z.lor (wrap w (Z.shiftl x n)) (Z.shiftr x (w - n)) < 2 ^ w.
Proof.
  intros Hn Hx. apply lor_bound; [lia|apply wrap_bounds; lia|].
  apply shiftr_bound; lia.
Qed.

Lemma rotate_back w x n :
  0 < n < w -> 0 <= x < 2 ^ w ->
  let y := Z.lor (wrap w (Z.shiftl x n)) (Z.shiftr x (w - n)) in
  Z.lor (wrap w (Z.shiftl y (w - n))) (Z.shiftr y n) = x.
Proof.
  intros Hn Hx y. pose proof (rotated_bound w x n Hn Hx) as Hy.
  replace n with (w - (w - n)) at 2 by lia.
  apply (word_ext w); [lia| |done|].
  { apply (rotated_bound w y (w - n)); [lia|done]. }
  intros i Hi. rewrite (rotated_bit w y) by (done || lia).
  assert (0 <= (i - (w - n)) mod w < w) by (apply Z.mod_pos_bound; lia).
  unfold y. rewrite rotated_bit by (done || lia). f_equal.
  rewrite Zminus_mod_idemp_l. replace (i - (w - n) - n) with (i + (-1) * w) by lia.
  rewrite Z.mod_add by lia. rewrite Z.mod_small; lia.
Qed.

Lemma Rot_Ok x n :
  (0 < n < 64 ->
   LRotU64 x n = Ok (Z.lor (wrap 64 (Z.shiftl x n)) (Z.shiftr x (64 - n))) /\
   RRotU64 x n = Ok (Z.lor (Z.shiftr x n) (wrap 64 (Z.shiftl x (64 - n))))) /\
  (0 < n < 32 ->
   LRotU32 x n = Ok (Z.lor (wrap 32 (Z.shiftl x n)) (Z.shiftr x (32 - n))) /\
   RRotU32 x n = Ok (Z.lor (Z.shiftr x n) (wrap 32 (Z.shiftl x (32 - n))))).
Proof.
  unfold LRotU64, RRotU64, LRotU32, RRotU32, InternalMathLRotU64,
    InternalMathRRotU64.
  split; intros Hn.
  - assert (n <? 64 = true) as -> by lia. cbn [ASSERT mbind result_bind].
    by rewrite !shl_Ok, !shr_Ok by lia.
  - assert (n <? 32 = true) as -> by lia. cbn [ASSERT mbind result_bind].
    by rewrite !shl_Ok, !shr_Ok by lia.
Qed.

(** For counts strictly between 0 and the width, the rotations of
    BaseLib move bit [i] to bit [(i + Count) mod Width], lose no bit, and
    the right rotation undoes the left one. *)
Theorem Rot_rotates Width LRot RRot Operand Count :
  In (Width, LRot, RRot) [(64, LRotU64, RRotU64); (32, LRotU32, RRotU32)] ->
  0 < Count < Width -> 0 <= Operand < 2 ^ Width ->
  exists Rotated,
    LRot Operand Count = Ok Rotated /\
    0 <= Rotated < 2 ^ Width /\
    (forall i, 0 <= i < Width ->
       Z.testbit Rotated ((i + Count) mod Width) = Z.testbit Operand i) /\
    RRot Rotated Count = Ok Operand.
Proof.
  intros Hin Hc Ho.
  set (y := Z.lor (wrap Width (Z.shiftl Operand Count))
                  (Z.shiftr Operand (Width - Count))).
  exists y.
  assert (LRot Operand Count = Ok y /\
    RRot y Count = Ok (Z.lor (Z.shiftr y Count)
                             (wrap Width (Z.shiftl y (Width - Count)))))
    as [-> ->].
  { destruct Hin as [[= <- <- <-]|[[= <- <- <-]|[]]].
    - split; eapply Rot_Ok; lia.
    - split; eapply Rot_Ok; lia. }
  split_and!; [done| | |intros i Hi|].
  - by apply rotated_bound.
  - by apply rotated_bound.
  - assert (0 <= (i + Count) mod Width < Width)
      by (apply Z.mod_pos_bound; lia).
    unfold y. rewrite rotated_bit by (done || lia). f_equal.
    rewrite Zminus_mod_idemp_l. replace (i + Count - Count) with i by lia.
    rewrite Z.mod_small; lia.
  - f_equal. rewrite Z.lor_comm. by apply rotate_back.
Qed.

(** Counts of 0, which the comments of these functions allow, shift by the
    width of the operand: C leaves the result undefined. *)
Theorem Rot_zero_undefined Operand :
  LRotU64 Operand 0 = BadAccess /\ RRotU64 Operand 0 = BadAccess /\
  LRotU32 Operand 0 = BadAccess /\ RRotU32 Operand 0 = BadAccess.
Proof. done. Qed.

(** ** Byte swaps *)

Lemma SwapBytes16_bit x i :
  0 <= x < 2 ^ 16 -> 0 <= i < 16 ->
  Z.testbit (SwapBytes16 x) i = Z.testbit x (8 * (1 - i / 8) + i mod 8).
Proof.
  intros Hx Hi. unfold SwapBytes16. testbits.
  assert (i <? 16 = true) as -> by lia. simpl.
  assert (i / 8 = 0 \/ i / 8 = 1) as [E|E] by div_lia; rewrite E.
  - rewrite (Z.testbit_neg_r x (i - 8)) by div_lia. simpl. f_equal. div_lia.
  - rewrite (testbit_above 16 x (i + 8)) by (done || div_lia).
    rewrite orb_false_r. f_equal. div_lia.
Qed.

Lemma SwapBytes16_bound x : 0 <= SwapBytes16 x < 2 ^ 16.
Proof. unfold SwapBytes16. apply wrap_bounds. lia. Qed.

(** Swapping the halves of a word of [2 * w] bits, each by [swap]. *)
Lemma swap_halves_bit w (swap : Z -> Z) x i :
  0 < w -> w mod 8 = 0 -> 0 <= x < 2 ^ (2 * w) -> 0 <= i < 2 * w ->
  (forall y, 0 <= swap y < 2 ^ w) ->
  (forall y j, 0 <= y < 2 ^ w -> 0 <= j < w ->
     Z.testbit (swap y) j = Z.testbit y (8 * (w / 8 - 1 - j / 8) + j mod 8)) ->
  Z.testbit
    (Z.lor (wrap (2 * w) (Z.shiftl (wrap (2 * w) (swap (wrap w x))) w))
           (wrap (2 * w) (swap (wrap w (Z.shiftr x w))))) i =
  Z.testbit x (8 * (2 * w / 8 - 1 - i / 8) + i mod 8).
Proof.
  intros Hw Hw8 Hx Hi Hb Hs.
  assert (2 ^ w <= 2 ^ (2 * w)) by (apply Z.pow_le_mono_r; lia).
  assert (forall y, wrap (2 * w) (swap y) = swap y) as Hwrap.
  { intros y. specialize (Hb y). apply wrap_small. lia. }
  rewrite !Hwrap. testbits.
  assert (i <? 2 * w = true) as -> by lia. simpl.
  assert (w = 8 * (w / 8)) by div_lia.
  assert (2 * w / 8 = 2 * (w / 8)) by div_lia.
  destruct (Z.ltb_spec i w).
  - rewrite (Z.testbit_neg_r _ (i - w)) by lia. simpl.
    rewrite Hs by (try apply wrap_bounds; lia). testbits.
    assert (8 * (w / 8 - 1 - i / 8) + i mod 8 <? w = true) as -> by div_lia. simpl.
    f_equal. lia.
  - rewrite (testbit_above w (swap (wrap w (Z.shiftr x w))) i) by auto with lia.
    rewrite orb_false_r. rewrite Hs by (try apply wrap_bounds; lia). testbits.
    assert ((i - w) / 8 = i / 8 - w / 8 /\ (i - w) mod 8 = i mod 8) as [E1 E2]
      by div_lia.
    rewrite E1, E2.
    assert (8 * (w / 8 - 1 - (i / 8 - w / 8)) + i mod 8 <? w = true) as -> by div_lia.
    simpl. f_equal. div_lia.
Qed.

Lemma SwapBytes32_bit x i :
  0 <= x < 2 ^ 32 -> 0 <= i < 32 ->
  Z.testbit (SwapBytes32 x) i = Z.testbit x (8 * (3 - i / 8) + i mod 8).
Proof.
  intros Hx Hi. unfold SwapBytes32.
  apply (swap_halves_bit 16 SwapBytes16 x i);
    [done|done|done|done|apply SwapBytes16_bound|].
  intros. by apply SwapBytes16_bit.
Qed.

Lemma SwapBytes32_bound x : 0 <= SwapBytes32 x < 2 ^ 32.
Proof. unfold SwapBytes32. apply lor_bound; try apply wrap_bounds; lia. Qed.

Lemma SwapBytes64_bit x i :
  0 <= x < 2 ^ 64 -> 0 <= i < 64 ->
  Z.testbit (SwapBytes64 x) i = Z.testbit x (8 * (7 - i / 8) + i mod 8).
Proof.
  intros Hx Hi. unfold SwapBytes64, InternalMathSwapBytes64.
  apply (swap_halves_bit 32 SwapBytes32 x i);
    [done|done|done|done|apply SwapBytes32_bound|].
  intros. by apply SwapBytes32_bit.
Qed.

Lemma SwapBytes64_bound x : 0 <= SwapBytes64 x < 2 ^ 64.
Proof. unfold SwapBytes64. apply lor_bound; try apply wrap_bounds; lia. Qed.

(** The byte swaps reverse the order of the bytes: bit [i] of the result
    is the bit at the same place of the mirrored byte; swapping twice is the
    identity. *)
Theorem SwapBytes_reverses Width Swap Value :
  In (Width, Swap) [(16, SwapBytes16); (32, SwapBytes32); (64, SwapBytes64)] ->
  0 <= Value < 2 ^ Width ->
  0 <= Swap Value < 2 ^ Width /\
  (forall i, 0 <= i < Width ->
     Z.testbit (Swap Value) i =
     Z.testbit Value (8 * (Width / 8 - 1 - i / 8) + i mod 8)) /\
  Swap (Swap Value) = Value.
Proof.
  intros Hin Hv.
  assert (0 <= Width /\ Width mod 8 = 0 /\ (forall x, 0 <= Swap x < 2 ^ Width) /\
    forall x i, 0 <= x < 2 ^ Width -> 0 <= i < Width ->
      Z.testbit (Swap x) i =
      Z.testbit x (8 * (Width / 8 - 1 - i / 8) + i mod 8))
    as (Hw & Hw8 & Hb & Hs).
  { destruct Hin as [[= <- <-]|[[= <- <-]|[[= <- <-]|[]]]].
    - split_and!; [done..|apply SwapBytes16_bound|apply SwapBytes16_bit].
    - split_and!; [done..|apply SwapBytes32_bound|apply SwapBytes32_bit].
    - split_and!; [done..|apply SwapBytes64_bound|apply SwapBytes64_bit]. }
  clear Hin. split_and!; [apply Hb|apply Hb|intros; by apply Hs|].
  apply (word_ext Width); [done|apply Hb|done|]. intros i Hi.
  rewrite Hs by (done || apply Hb). rewrite Hs; [f_equal; div_lia|done|div_lia].
Qed.

(** ** Multiplication and division *)

(** [MultS64x64] keeps the product modulo [2^64]; a product that fits an
    [INT64] is exact. *)
Lemma MultS64x64_exact a b :
  fits INT64 (a * b) = true -> MultS64x64 a b = a * b.
Proof.
  intros Hf. rewrite <-(cast_fits INT64 (a * b)) by done.
  unfold MultS64x64, MultU64x64, InternalMathMultU64x64.
  apply cast_mod. unfold cast, wrap. simpl signed. cbv iota.
  rewrite Z.mod_mod by done. by rewrite <-Zmult_mod.
Qed.

(** [DivS64x64Remainder] of two [INT64] returns the truncated quotient
    and stores the remainder: they recompose the dividend, the remainder is
    smaller than the divisor and has the sign of the dividend.  The divisor 0
    violates the [ASSERT]; [MIN_INT64 / -1], which no comment mentions,
    overflows. *)
Theorem DivS64x64Remainder_correct Dividend Divisor :
  - 2 ^ 63 <= Dividend < 2 ^ 63 -> - 2 ^ 63 <= Divisor < 2 ^ 63 ->
  if Divisor =? 0 then
    DivS64x64Remainder Dividend Divisor false = AssertFailed
  else if (Dividend =? - 2 ^ 63) && (Divisor =? -1) then
    DivS64x64Remainder Dividend Divisor false = BadAccess
  else
    exists q r,
      DivS64x64Remainder Dividend Divisor false = Ok (q, Some r) /\
      DivS64x64Remainder Dividend Divisor true = Ok (q, None) /\
      Dividend = Divisor * q + r /\
      Z.abs r < Z.abs Divisor /\ 0 <= r * Dividend.
Proof.
  intros Ha Hb. unfold DivS64x64Remainder, InternalMathDivRemS64x64.
  destruct (Z.eqb_spec Divisor 0); [done|]. cbn [negb ASSERT mbind result_bind].
  pose proof (Z.quot_rem' Dividend Divisor) as Hqr.
  pose proof (Z.rem_bound_abs Dividend Divisor) as Hr.
  pose proof (Z.rem_sign_mul Dividend Divisor) as Hsg.
  destruct (_ && _) eqn:E; bool_to_prop.
  - destruct E as [-> ->]. done.
  - assert (fits INT64 (Z.quot Dividend Divisor) = true) as Hf.
    { apply fits_INT64. clear Hsg. destruct (decide (Divisor = -1)) as [->|].
      - assert (Z.quot Dividend (-1) = - Dividend) as ->; [|lia].
        rewrite (Z.quot_opp_r _ 1) by done. by rewrite Z.quot_1_r.
      - assert (Z.abs (Z.quot Dividend Divisor) < 2 ^ 63 \/ Divisor = 1) as [| ->] by nia;
          [lia|]. rewrite Z.quot_1_r. lia. }
    rewrite signed_result_Ok by done. cbn [mbind result_bind].
    eexists _, _. split_and!; [done|done|lia|auto|auto].
Qed.

(** ** Bit searches *)

Lemma land_1 x : Z.land x 1 = x mod 2.
Proof. change 1 with (Z.ones 1). by rewrite Z.land_ones by lia. Qed.

(** Both loops that look for the lowest set bit. *)
Lemma LowBitSet_loops fuel x k :
  0 < x < 2 ^ Z.of_nat fuel ->
  exists n,
    LowBitSet32_loop fuel x k = Ok (k + n) /\
    LowBitSet64_loop fuel x k = Ok (k + n) /\
    0 <= n /\ Z.testbit x n = true /\ x mod 2 ^ n = 0.
Proof.
  revert x k. induction fuel as [|fuel IH]; intros x k Hx; [simpl in Hx; lia|].
  cbn [LowBitSet32_loop LowBitSet64_loop]. rewrite (Z.eqb_sym 0), land_1.
  destruct (Z.eqb_spec (x mod 2) 0) as [E|E].
  - rewrite RShiftU64_Ok by lia. cbn [mbind result_bind].
    assert (Z.shiftr x 1 = x / 2) as -> by (by rewrite Z.shiftr_div_pow2).
    rewrite Nat2Z.inj_succ, Z.pow_succ_r in Hx by lia.
    destruct (IH (x / 2) (k + 1)) as (n & E1 & E2 & Hn & Ht & Hm); [div_lia|].
    exists (n + 1). rewrite E1, E2.
    split_and!; [f_equal; lia|f_equal; lia|lia| |].
    + replace x with (2 * (x / 2)) by div_lia.
      replace (n + 1) with (Z.succ n) by lia.
      by rewrite Z.testbit_even_succ by lia.
    + apply Z.mod_divide in Hm as [q Hq];
        [|pose proof (Z.pow_pos_nonneg 2 n); lia].
      apply Z.mod_divide; [pose proof (Z.pow_pos_nonneg 2 (n + 1)); lia|].
      exists q. rewrite Z.pow_add_r by lia. div_lia.
  - exists 0. rewrite Z.add_0_r. split_and!; try done.
    + rewrite Z.bit0_odd, Zodd_mod. apply Z.eqb_eq. div_lia.
    + apply Z.mod_1_r.
Qed.

(** The loop shifts until bit 31 is set. *)
Lemma HighBitSet32_loop_Ok fuel x k :
  0 < x < 2 ^ 32 -> 31 - Z.log2 x < Z.of_nat fuel ->
  HighBitSet32_loop fuel x k = Ok (k - 31 + Z.log2 x).
Proof.
  revert x k. induction fuel as [|fuel IH]; intros x k Hx Hf.
  { assert (Z.log2 x <= Z.log2 (2 ^ 32 - 1)) by (apply Z.log2_le_mono; lia).
    change (Z.log2 (2 ^ 32 - 1)) with 31 in *. lia. }
  cbn [HighBitSet32_loop].
  destruct (Z.ltb_spec x (2 ^ 31)).
  - assert (cast INT32 x = x) as ->.
    { apply cast_fits; [done|]. apply fits_spec.
      change (min_of INT32) with (- 2 ^ 31).
      change (max_of INT32) with (2 ^ 31 - 1). lia. }
    assert (0 <? x = true) as -> by lia.
    rewrite Z.shiftl_mul_pow2, wrap_small by lia.
    rewrite IH; rewrite ?Z.log2_mul_pow2 by lia; [f_equal; lia|lia|lia].
  - assert (cast INT32 x = x - 2 ^ 32) as ->.
    { rewrite (cast_mod _ _ (x - 2 ^ 32)).
      - apply cast_fits; [done|]. apply fits_spec.
        change (min_of INT32) with (- 2 ^ 31).
        change (max_of INT32) with (2 ^ 31 - 1). lia.
      - change (width INT32) with 32. rewrite <-(Z.mod_add (x - _) 1) by lia.
        f_equal. lia. }
    assert (0 <? x - 2 ^ 32 = false) as -> by lia.
    rewrite (Z.log2_unique x 31) by lia. f_equal. lia.
Qed.

Lemma HighBitSet32_Ok x :
  0 < x < 2 ^ 32 -> HighBitSet32 x = Ok (Z.log2 x).
Proof.
  intros Hx. unfold HighBitSet32. assert (x =? 0 = false) as -> by lia.
  rewrite HighBitSet32_loop_Ok; [f_equal; lia|done|].
  pose proof (Z.log2_nonneg x). lia.
Qed.

Lemma HighBitSet64_Ok x :
  0 < x < 2 ^ 64 -> HighBitSet64 x = Ok (Z.log2 x).
Proof.
  intros Hx. unfold HighBitSet64.
  destruct (Z.eqb_spec x (u32 x)) as [E|E].
  { rewrite <-E. apply HighBitSet32_Ok. rewrite E.
    pose proof (wrap_bounds 32 x). lia. }
  assert (2 ^ 32 <= x).
  { destruct (Z.ltb_spec x (2 ^ 32)); [|lia]. destruct E.
    by rewrite wrap_small by lia. }
  assert (0 < Z.shiftr x 32 < 2 ^ 32 /\
          Z.log2 (Z.shiftr x 32) + 32 = Z.log2 x) as [Hs Hl].
  { rewrite Z.log2_shiftr by lia. rewrite Z.shiftr_div_pow2 by lia.
    pose proof (Z.log2_le_mono (2 ^ 32) x ltac:(lia)) as Hl.
    rewrite Z.log2_pow2 in Hl by lia. split; [div_lia|lia]. }
  case_if Ew.
  - rewrite HighBitSet32_Ok by done. cbn [mbind result_bind]. by rewrite Hl.
  - rewrite RShiftU64_Ok by lia. cbn [mbind result_bind].
    rewrite wrap_small, HighBitSet32_Ok by lia. cbn [mbind result_bind].
    by rewrite Hl.
Qed.

(** The bit searches terminate and find what they look for: the lowest
    set bit, the highest set bit (the base-2 logarithm), the largest power of
    two that is not above the operand; on 0 they return -1, -1 and 0. *)
Theorem BitSearch_correct Width LowBitSet HighBitSet GetPowerOfTwo Operand :
  In (Width, LowBitSet, HighBitSet, GetPowerOfTwo)
    [(32, LowBitSet32, HighBitSet32, GetPowerOfTwo32);
     (64, LowBitSet64, HighBitSet64, GetPowerOfTwo64)] ->
  0 <= Operand < 2 ^ Width ->
  if Operand =? 0 then
    LowBitSet Operand = Ok (-1) /\ HighBitSet Operand = Ok (-1) /\
    GetPowerOfTwo Operand = Ok 0
  else
    exists low high,
      LowBitSet Operand = Ok low /\
      0 <= low < Width /\ Z.testbit Operand low = true /\
      (forall i, 0 <= i < low -> Z.testbit Operand i = false) /\
      HighBitSet Operand = Ok high /\
      2 ^ high <= Operand < 2 ^ (high + 1) /\ high < Width /\
      GetPowerOfTwo Operand = Ok (2 ^ high).
Proof.
  intros Hin Ho. destruct (Z.eqb_spec Operand 0) as [->|Hne].
  { by destruct Hin as [[= <- <- <- <-]|[[= <- <- <- <-]|[]]]. }
  assert (Operand < 2 ^ 64).
  { destruct Hin as [[= <- _ _ _]|[[= <- _ _ _]|[]]]; lia. }
  assert (0 < Width) by (by destruct Hin as [[= <- _ _ _]|[[= <- _ _ _]|[]]]).
  assert (exists low, LowBitSet Operand = Ok low /\ 0 <= low /\
    Z.testbit Operand low = true /\ Operand mod 2 ^ low = 0)
    as (low & El & Hl & Ht & Hm).
  { destruct Hin as [[= <- <- _ _]|[[= <- <- _ _]|[]]].
    - destruct (LowBitSet_loops 32 Operand 0) as (n & E & _ & ?); [lia|].
      exists n. unfold LowBitSet32. by rewrite (proj2 (Z.eqb_neq _ _) Hne).
    - destruct (LowBitSet_loops 64 Operand 0) as (n & _ & E & ?); [lia|].
      exists n. unfold LowBitSet64. by rewrite (proj2 (Z.eqb_neq _ _) Hne). }
  pose proof (Z.log2_spec Operand ltac:(lia)) as Hlog.
  pose proof (Z.log2_nonneg Operand) as Hlog0.
  assert (Z.log2 Operand < Width) by (apply Z.log2_lt_pow2; lia).
  exists low, (Z.log2 Operand). split_and!; [done|lia| |done| | |lia|lia|lia|].
  - destruct (Z.ltb_spec low Width); [done|].
    by rewrite (testbit_above Width) in Ht by lia.
  - intros i Hi. rewrite <-(Z.mod_pow2_bits_low Operand low) by lia.
    by rewrite Hm, Z.bits_0.
  - destruct Hin as [[= <- _ <- _]|[[= <- _ <- _]|[]]].
    + apply HighBitSet32_Ok. lia.
    + apply HighBitSet64_Ok. lia.
  - assert (forall w, Z.log2 Operand < w ->
      u64 0 = 0 /\ wrap w (Z.shiftl 1 (Z.log2 Operand)) = 2 ^ Z.log2 Operand)
      as Hpow.
    { intros w Hw. split; [done|]. rewrite Z.shiftl_1_l. apply wrap_small.
      split; [apply Z.pow_nonneg; lia|]. apply Z.pow_lt_mono_r; lia. }
    destruct Hin as [[= <- _ _ <-]|[[= <- _ _ <-]|[]]].
    + unfold GetPowerOfTwo32. rewrite Z.eqb_sym, (proj2 (Z.eqb_neq _ _) Hne).
      rewrite HighBitSet32_Ok by lia. cbn [mbind result_bind].
      rewrite shl_Ok by lia. f_equal. by apply Hpow.
    + unfold GetPowerOfTwo64. rewrite (proj2 (Z.eqb_neq _ _) Hne).
      rewrite HighBitSet64_Ok by lia. cbn [mbind result_bind].
      assert (cast UINTN (Z.log2 Operand) = Z.log2 Operand) as ->.
      { unfold cast, UINTN. destruct uintn_is_64; cbn; apply wrap_small; lia. }
      rewrite LShiftU64_Ok by lia. f_equal. by apply Hpow.
Qed.

End Theorems.

(** * Witnesses *)

Module BaseMathWitness.
Import Math.

(** Without an arithmetic shift in the compiler. *)
Definition Logical : Machine := {|
  char_is_signed := false; uintn_is_64 := true; shift_is_arithmetic := false |}.

Lemma ARShiftU64_arithmetic_witness :
  @ARShiftU64 Logical 0xF000000000000000 8 = Ok 0xFFF0000000000000.
Proof.
  rewrite (@ARShiftU64_arithmetic Logical); [reflexivity|lia|lia|by left].
Defined.

Lemma Rot_rotates_witness :
  exists Rotated,
    LRotU32 0x80000001 4 = Ok Rotated /\ RRotU32 Rotated 4 = Ok 0x80000001.
Proof.
  destruct (Rot_rotates 32 LRotU32 RRotU32 0x80000001 4)
    as (y & E & _ & _ & E').
  - right. left. reflexivity.
  - lia.
  - lia.
  - exists y. split; [exact E|exact E'].
Defined.

Lemma SwapBytes_reverses_witness :
  SwapBytes64 0x0102030405060708 = 0x0807060504030201 /\
  SwapBytes64 (SwapBytes64 0x0102030405060708) = 0x0102030405060708.
Proof.
  split; [reflexivity|].
  apply (SwapBytes_reverses 64 SwapBytes64 0x0102030405060708).
  - right. right. left. reflexivity.
  - lia.
Defined.

Lemma DivS64x64Remainder_correct_witness :
  exists q r,
    DivS64x64Remainder (-7) 2 false = Ok (q, Some r) /\ -7 = 2 * q + r.
Proof.
  destruct (DivS64x64Remainder_correct (-7) 2) as (q & r & E & _ & E' & _);
    [lia|lia|].
  exists q, r. split; [exact E|exact E'].
Defined.

Lemma BitSearch_correct_witness :
  exists high,
    @HighBitSet64 X64 0x1234567890 = Ok high /\
    @GetPowerOfTwo64 X64 0x1234567890 = Ok (2 ^ high).
Proof.
  destruct (@BitSearch_correct X64 64 (LowBitSet64) (@HighBitSet64 X64)
    (@GetPowerOfTwo64 X64) 0x1234567890)
    as (low & high & _ & _ & _ & _ & E & _ & _ & E').
  - right. left. reflexivity.
  - lia.
  - exists high. split; [exact E|exact E'].
Defined.

End BaseMathWitness.
