(* ===== verification/BitField.v ===== *)
(** * BaseLib bit fields

    MdePkg/Library/BaseLib/BitField.c: reading, writing, masking and counting
    the bits [StartBit .. EndBit] of a word of 8, 16, 32 or 64 bits (module
    [BitField]).  The 8-, 16- and 32-bit functions share workers on [UINTN];
    the 64-bit ones use the shifts of [BaseMath]. *)

From S2P Require Import Prelude.
From S2P Require Import CTypes.
From S2P Require Import BaseMath.

Module BitField.
Import Math.

Section BitField.
Context `{Machine}.

(** [~x] for an unsigned type. *)
Definition complement (T : int_type) (x : Z) : Z := Z.lxor x (max_of T).

Definition InternalBaseLibBitFieldReadUint (Operand StartBit EndBit : Z)
    : result Z :=
  let! m := shl (width UINTN) (cast UINTN (-2)) EndBit in
  shr (width UINTN) (Z.land Operand (complement UINTN m)) StartBit.

Definition InternalBaseLibBitFieldOrUint
    (Operand StartBit EndBit OrData : Z) : result Z :=
  let! High := shr (width UINTN) OrData (EndBit - StartBit) in
  do! ASSERT (High =? Z.land High 1);;
  let! d := shl (width UINTN) OrData StartBit in
  let! m := shl (width UINTN) (cast UINTN (-2)) EndBit in
  Ok (Z.lor Operand (Z.land d (complement UINTN m))).

Definition InternalBaseLibBitFieldAndUint
    (Operand StartBit EndBit AndData : Z) : result Z :=
  let! High := shr (width UINTN) AndData (EndBit - StartBit) in
  do! ASSERT (High =? Z.land High 1);;
  let! d := shl (width UINTN) (complement UINTN AndData) StartBit in
  let! m := shl (width UINTN) (cast UINTN (-2)) EndBit in
  Ok (Z.land Operand (complement UINTN (Z.land d (complement UINTN m)))).

(** ** 8 bits *)

Definition BitFieldRead8 (Operand StartBit EndBit : Z) : result Z :=
  do! ASSERT (EndBit <? 8);;
  do! ASSERT (StartBit <=? EndBit);;
  let! r := InternalBaseLibBitFieldReadUint Operand StartBit EndBit in
  Ok (cast UINT8 r).

Definition BitFieldOr8 (Operand StartBit EndBit OrData : Z) : result Z :=
  do! ASSERT (EndBit <? 8);;
  do! ASSERT (StartBit <=? EndBit);;
  let! r := InternalBaseLibBitFieldOrUint Operand StartBit EndBit OrData in
  Ok (cast UINT8 r).

Definition BitFieldAnd8 (Operand StartBit EndBit AndData : Z) : result Z :=
  do! ASSERT (EndBit <? 8);;
  do! ASSERT (StartBit <=? EndBit);;
  let! r := InternalBaseLibBitFieldAndUint Operand StartBit EndBit AndData in
  Ok (cast UINT8 r).

Definition BitFieldAndThenOr8
    (Operand StartBit EndBit AndData OrData : Z) : result Z :=
  do! ASSERT (EndBit <? 8);;
  do! ASSERT (StartBit <=? EndBit);;
  let! r := BitFieldAnd8 Operand StartBit EndBit AndData in
  BitFieldOr8 r StartBit EndBit OrData.

Definition BitFieldWrite8 (Operand StartBit EndBit Value : Z) : result Z :=
  do! ASSERT (EndBit <? 8);;
  do! ASSERT (StartBit <=? EndBit);;
  BitFieldAndThenOr8 Operand StartBit EndBit 0 Value.

(** ** 16 bits *)

Definition BitFieldRead16 (Operand StartBit EndBit : Z) : result Z :=
  do! ASSERT (EndBit <? 16);;
  do! ASSERT (StartBit <=? EndBit);;
  let! r := InternalBaseLibBitFieldReadUint Operand StartBit EndBit in
  Ok (cast UINT16 r).

Definition BitFieldOr16 (Operand StartBit EndBit OrData : Z) : result Z :=
  do! ASSERT (EndBit <? 16);;
  do! ASSERT (StartBit <=? EndBit);;
  let! r := InternalBaseLibBitFieldOrUint Operand StartBit EndBit OrData in
  Ok (cast UINT16 r).

Definition BitFieldAnd16 (Operand StartBit EndBit AndData : Z) : result Z :=
  do! ASSERT (EndBit <? 16);;
  do! ASSERT (StartBit <=? EndBit);;
  let! r := InternalBaseLibBitFieldAndUint Operand StartBit EndBit AndData in
  Ok (cast UINT16 r).

Definition BitFieldAndThenOr16
    (Operand StartBit EndBit AndData OrData : Z) : result Z :=
  do! ASSERT (EndBit <? 16);;
  do! ASSERT (StartBit <=? EndBit);;
  let! r := BitFieldAnd16 Operand StartBit EndBit AndData in
  BitFieldOr16 r StartBit EndBit OrData.

Definition BitFieldWrite16 (Operand StartBit EndBit Value : Z) : result Z :=
  do! ASSERT (EndBit <? 16);;
  do! ASSERT (StartBit <=? EndBit);;
  BitFieldAndThenOr16 Operand StartBit EndBit 0 Value.

(** ** 32 bits *)

Definition BitFieldRead32 (Operand StartBit EndBit : Z) : result Z :=
  do! ASSERT (EndBit <? 32);;
  do! ASSERT (StartBit <=? EndBit);;
  let! r := InternalBaseLibBitFieldReadUint Operand StartBit EndBit in
  Ok (cast UINT32 r).

Definition BitFieldOr32 (Operand StartBit EndBit OrData : Z) : result Z :=
  do! ASSERT (EndBit <? 32);;
  do! ASSERT (StartBit <=? EndBit);;
  let! r := InternalBaseLibBitFieldOrUint Operand StartBit EndBit OrData in
  Ok (cast UINT32 r).

Definition BitFieldAnd32 (Operand StartBit EndBit AndData : Z) : result Z :=
  do! ASSERT (EndBit <? 32);;
  do! ASSERT (StartBit <=? EndBit);;
  let! r := InternalBaseLibBitFieldAndUint Operand StartBit EndBit AndData in
  Ok (cast UINT32 r).

Definition BitFieldAndThenOr32
    (Operand StartBit EndBit AndData OrData : Z) : result Z :=
  do! ASSERT (EndBit <? 32);;
  do! ASSERT (StartBit <=? EndBit);;
  let! r := BitFieldAnd32 Operand StartBit EndBit AndData in
  BitFieldOr32 r StartBit EndBit OrData.

Definition BitFieldWrite32 (Operand StartBit EndBit Value : Z) : result Z :=
  do! ASSERT (EndBit <? 32);;
  do! ASSERT (StartBit <=? EndBit);;
  BitFieldAndThenOr32 Operand StartBit EndBit 0 Value.

(** ** 64 bits *)

Definition BitFieldRead64 (Operand StartBit EndBit : Z) : result Z :=
  do! ASSERT (EndBit <? 64);;
  do! ASSERT (StartBit <=? EndBit);;
  let! m := LShiftU64 (cast UINT64 (-2)) EndBit in
  RShiftU64 (Z.land Operand (complement UINT64 m)) StartBit.

Definition BitFieldOr64 (Operand StartBit EndBit OrData : Z) : result Z :=
  do! ASSERT (EndBit <? 64);;
  do! ASSERT (StartBit <=? EndBit);;
  let! High := RShiftU64 OrData (EndBit - StartBit) in
  do! ASSERT (High =? Z.land High 1);;
  let! Value1 := LShiftU64 OrData StartBit in
  let! Value2 := LShiftU64 (cast UINT64 (-2)) EndBit in
  Ok (Z.lor Operand (Z.land Value1 (complement UINT64 Value2))).

Definition BitFieldAnd64 (Operand StartBit EndBit AndData : Z) : result Z :=
  do! ASSERT (EndBit <? 64);;
  do! ASSERT (StartBit <=? EndBit);;
  let! High := RShiftU64 AndData (EndBit - StartBit) in
  do! ASSERT (High =? Z.land High 1);;
  let! Value1 := LShiftU64 (complement UINT64 AndData) StartBit in
  let! Value2 := LShiftU64 (cast UINT64 (-2)) EndBit in
  Ok (Z.land Operand (complement UINT64
        (Z.land Value1 (complement UINT64 Value2)))).

Definition BitFieldAndThenOr64
    (Operand StartBit EndBit AndData OrData : Z) : result Z :=
  do! ASSERT (EndBit <? 64);;
  do! ASSERT (StartBit <=? EndBit);;
  let! r := BitFieldAnd64 Operand StartBit EndBit AndData in
  BitFieldOr64 r StartBit EndBit OrData.

Definition BitFieldWrite64 (Operand StartBit EndBit Value : Z) : result Z :=
  do! ASSERT (EndBit <? 64);;
  do! ASSERT (StartBit <=? EndBit);;
  BitFieldAndThenOr64 Operand StartBit EndBit 0 Value.

(** ** Counting *)

Definition BitFieldCountOnes32 (Operand StartBit EndBit : Z) : result Z :=
  do! ASSERT (EndBit <? 32);;
  do! ASSERT (StartBit <=? EndBit);;
  let! Count := BitFieldRead32 Operand StartBit EndBit in
  let Count := u32 (Count - Z.land (Z.shiftr Count 1) 0x55555555) in
  let Count := u32 (Z.land Count 0x33333333 +
                    Z.land (Z.shiftr Count 2) 0x33333333) in
  let Count := u32 (Count + Z.shiftr Count 4) in
  let Count := Z.land Count 0x0F0F0F0F in
  let Count := u32 (Count + Z.shiftr Count 8) in
  let Count := u32 (Count + Z.shiftr Count 16) in
  Ok (Z.land (u8 Count) 0x3F).

Definition BitFieldCountOnes64 (Operand StartBit EndBit : Z) : result Z :=
  do! ASSERT (EndBit <? 64);;
  do! ASSERT (StartBit <=? EndBit);;
  let! BitField := BitFieldRead64 Operand StartBit EndBit in
  let! Count := BitFieldCountOnes32 (u32 BitField) 0 31 in
  let! High := RShiftU64 BitField 32 in
  let! Count' := BitFieldCountOnes32 (u32 High) 0 31 in
  Ok (u8 (Count + Count')).

End BitField.
End BitField.

(** * Theorems *)

Section Theorems.
Context `{Machine}.
Import Math.
Import BitField.

(** The functions for one width. *)
Record bitfield_functions := {
  Width : Z;
  Read : Z -> Z -> Z -> result Z;
  Or : Z -> Z -> Z -> Z -> result Z;
  And : Z -> Z -> Z -> Z -> result Z;
  AndThenOr : Z -> Z -> Z -> Z -> Z -> result Z;
  Write : Z -> Z -> Z -> Z -> result Z
}.

Definition bitfield_widths : list bitfield_functions :=
  [Build_bitfield_functions 8 BitFieldRead8 BitFieldOr8 BitFieldAnd8
     BitFieldAndThenOr8 BitFieldWrite8;
   Build_bitfield_functions 16 BitFieldRead16 BitFieldOr16 BitFieldAnd16
     BitFieldAndThenOr16 BitFieldWrite16;
   Build_bitfield_functions 32 BitFieldRead32 BitFieldOr32 BitFieldAnd32
     BitFieldAndThenOr32 BitFieldWrite32;
   Build_bitfield_functions 64 BitFieldRead64 BitFieldOr64 BitFieldAnd64
     BitFieldAndThenOr64 BitFieldWrite64].

(** Inside the field the bits of [r] are [f] of the bits of [x] and [d];
    outside they are those of [x]. *)
Definition combined (f : bool -> bool -> bool) (w x s e d r : Z) : Prop :=
  0 <= r < 2 ^ w /\
  forall i, 0 <= i < w ->
    Z.testbit r i =
    if (s <=? i) && (i <=? e) then f (Z.testbit x i) (Z.testbit d (i - s))
    else Z.testbit x i.

(** ** Masks *)

Lemma testbit_complement T x i :
  signed T = false -> 0 <= i < width T ->
  Z.testbit (complement T x) i = negb (Z.testbit x i).
Proof.
  intros Hs Hi. unfold complement, max_of. rewrite Hs, Z.lxor_spec.
  replace (2 ^ width T - 1) with (Z.ones (width T)) by (rewrite Z.ones_equiv; lia).
  rewrite Z.testbit_ones_nonneg by lia.
  assert (i <? width T = true) as -> by lia. apply xorb_true_r.
Qed.

Lemma complement_bound T x :
  signed T = false -> 0 <= width T -> 0 <= x < 2 ^ width T ->
  0 <= complement T x < 2 ^ width T.
Proof.
  intros Hs Hw Hx. unfold complement, max_of. rewrite Hs.
  replace (2 ^ width T - 1) with (Z.ones (width T)) by (rewrite Z.ones_equiv; lia).
  apply word_bound; [done|apply Z.lxor_nonneg; rewrite Z.ones_equiv; lia|].
  intros i Hi. rewrite Z.lxor_spec, (testbit_above (width T) x) by done.
  by rewrite Z.testbit_ones_nonneg, (proj2 (Z.ltb_ge _ _)) by lia.
Qed.

(** [~((T)-2 << EndBit)] keeps the bits up to [EndBit]. *)
Lemma field_mask T e :
  signed T = false -> 0 <= e < width T ->
  complement T (wrap (width T) (Z.shiftl (cast T (-2)) e)) = Z.ones (e + 1).
Proof.
  intros Hs He.
  assert (cast T (-2) = wrap (width T) (-2)) as -> by (unfold cast; by rewrite Hs).
  apply (word_ext (width T)); [lia| | |].
  { apply complement_bound; [done|lia|apply wrap_bounds; lia]. }
  { rewrite Z.ones_equiv. pose proof (Z.pow_pos_nonneg 2 (e + 1)).
    assert (2 ^ (e + 1) <= 2 ^ width T) by (apply Z.pow_le_mono_r; lia). lia. }
  intros i Hi. rewrite testbit_complement, Z.testbit_ones_nonneg by (done || lia).
  testbits. assert (i <? width T = true) as -> by lia. simpl.
  destruct (Z.ltb_spec i e).
  { rewrite Z.testbit_neg_r by lia. symmetry. bool_to_prop. lia. }
  rewrite testbit_wrap by lia.
  assert (i - e <? width T = true) as -> by lia. simpl.
  destruct (Z.eq_dec i e) as [->|].
  { rewrite Z.sub_diag. simpl. symmetry. bool_to_prop. lia. }
  assert (-2 = 2 * (-1)) as -> by done.
  replace (i - e) with (Z.succ (i - e - 1)) by lia.
  rewrite Z.testbit_even_succ, Z.bits_m1 by lia. symmetry. simpl.
  bool_to_prop. lia.
Qed.

(** The guard of the [ASSERT]s: the data fits the field. *)
Lemma field_guard d n :
  0 <= n -> 0 <= d ->
  (Z.shiftr d n =? Z.land (Z.shiftr d n) 1) = (d <? 2 ^ (n + 1)).
Proof.
  intros Hn Hd. rewrite land_1, Z.shiftr_div_pow2, Z.pow_add_r by lia.
  pose proof (Z.pow_pos_nonneg 2 n).
  apply eq_true_iff_eq. bool_to_prop. split; intros E.
  - assert (d / 2 ^ n < 2) by (pose proof (Z.mod_pos_bound (d / 2 ^ n) 2); lia).
    pose proof (Z.div_mod d (2 ^ n)). pose proof (Z.mod_pos_bound d (2 ^ n)). nia.
  - rewrite Z.mod_small; [done|]. split; [apply Z.div_pos; lia|].
    apply Z.div_lt_upper_bound; lia.
Qed.

(** ** The three workers, for an unsigned type [T] *)

Section Workers.
Context (T : int_type) (w x s e d : Z).
Hypothesis HT : signed T = false.
Hypothesis Hw : w <= width T.
Hypothesis Hx : 0 <= x < 2 ^ w.
Hypothesis Hse : 0 <= s <= e.
Hypothesis Hew : e < w.

Lemma w_nonneg : 0 < w. Proof. lia. Qed.

Lemma read_field :
  let r := Z.shiftr (Z.land x (Z.ones (e + 1))) s in
  r = x / 2 ^ s mod 2 ^ (e - s + 1) /\ 0 <= r < 2 ^ w.
Proof.
  intros r. assert (r = x / 2 ^ s mod 2 ^ (e - s + 1)) as Hr.
  { unfold r. rewrite <-Z.shiftr_div_pow2, <-Z.land_ones by lia.
    apply Z.bits_inj'. intros i Hi.
    rewrite !Z.shiftr_spec, !Z.land_spec, !Z.shiftr_spec by lia.
    rewrite !Z.testbit_ones_nonneg by lia. f_equal.
    apply eq_true_iff_eq. bool_to_prop. lia. }
  split; [done|]. rewrite Hr.
  pose proof (Z.mod_pos_bound (x / 2 ^ s) (2 ^ (e - s + 1))).
  assert (2 ^ (e - s + 1) <= 2 ^ w) by (apply Z.pow_le_mono_r; lia).
  pose proof (Z.pow_pos_nonneg 2 (e - s + 1)). lia.
Qed.

Hypothesis Hd : 0 <= d < 2 ^ (e - s + 1).

Lemma or_field :
  combined orb w x s e d
    (Z.lor x (Z.land (wrap (width T) (Z.shiftl d s)) (Z.ones (e + 1)))).
Proof.
  assert (forall i, 0 <= i -> Z.testbit (Z.lor x (Z.land
      (wrap (width T) (Z.shiftl d s)) (Z.ones (e + 1)))) i =
    Z.testbit x i || (i <=? e) && Z.testbit d (i - s)) as Hb.
  { intros i Hi. testbits. rewrite Z.testbit_ones_nonneg by lia. f_equal.
    destruct (Z.leb_spec i e).
    - assert (i <? width T = true) as -> by lia.
      assert (i <? e + 1 = true) as -> by lia. apply andb_true_r.
    - assert (i <? e + 1 = false) as -> by lia. apply andb_false_r. }
  split.
  - apply word_bound; [lia| |].
    { apply Z.lor_nonneg. split; [lia|]. apply Z.land_nonneg. left.
      apply wrap_bounds. lia. }
    intros i Hi. rewrite Hb, (testbit_above w x) by lia.
    assert (i <=? e = false) as -> by lia. done.
  - intros i Hi. rewrite Hb by lia. destruct (Z.leb_spec s i); simpl.
    + by destruct (i <=? e); simpl; rewrite ?orb_false_r.
    + rewrite (Z.testbit_neg_r d) by lia. by rewrite andb_false_r, orb_false_r.
Qed.

Lemma and_field :
  combined andb w x s e d
    (Z.land x (complement T (Z.land
       (wrap (width T) (Z.shiftl (complement T d) s)) (Z.ones (e + 1))))).
Proof.
  split.
  - apply word_bound; [lia|apply Z.land_nonneg; lia|].
    intros i Hi. by rewrite Z.land_spec, (testbit_above w x) by lia.
  - intros i Hi. rewrite Z.land_spec, testbit_complement by (done || lia).
    testbits. rewrite Z.testbit_ones_nonneg by lia.
    assert (i <? width T = true) as -> by lia. simpl.
    destruct (Z.leb_spec s i); simpl.
    + rewrite testbit_complement by (done || lia).
      destruct (Z.leb_spec i e); simpl.
      * assert (i <? e + 1 = true) as -> by lia.
        by rewrite andb_true_r, negb_involutive.
      * assert (i <? e + 1 = false) as -> by lia.
        by rewrite andb_false_r, andb_true_r.
    + rewrite (Z.testbit_neg_r _ (i - s)) by lia. by rewrite andb_true_r.
Qed.

End Workers.

(** ** The functions of a width, uniformly *)

Definition valid (w s e : Z) : bool := (e <? w) && (s <=? e).

Lemma guarded {A} w s e (k : result A) :
  (do! ASSERT (e <? w);; do! ASSERT (s <=? e);; k) =
  if valid w s e then k else AssertFailed.
Proof. unfold valid. by destruct (e <? w), (s <=? e). Qed.

Lemma valid_spec w s e : valid w s e = true <-> e < w /\ s <= e.
Proof. unfold valid. bool_to_prop. lia. Qed.

Lemma UINTN_width : 32 <= width UINTN <= 64.
Proof. unfold UINTN. by destruct uintn_is_64. Qed.

Lemma ReadUint_Ok x s e :
  0 <= s <= e -> e < width UINTN ->
  InternalBaseLibBitFieldReadUint x s e =
  Ok (Z.shiftr (Z.land x (Z.ones (e + 1))) s).
Proof.
  intros Hs He. unfold InternalBaseLibBitFieldReadUint.
  rewrite shl_Ok by lia. cbn [mbind result_bind].
  by rewrite field_mask, shr_Ok by (done || lia).
Qed.

Lemma OrUint_Ok x s e d :
  0 <= s <= e -> e < width UINTN -> 0 <= d ->
  InternalBaseLibBitFieldOrUint x s e d =
  if d <? 2 ^ (e - s + 1)
  then Ok (Z.lor x (Z.land (wrap (width UINTN) (Z.shiftl d s)) (Z.ones (e + 1))))
  else AssertFailed.
Proof.
  intros Hs He Hd. unfold InternalBaseLibBitFieldOrUint.
  rewrite shr_Ok by lia. cbn [mbind result_bind]. rewrite field_guard by lia.
  destruct (d <? _); [|done]. cbn [ASSERT mbind result_bind].
  rewrite !shl_Ok by lia. cbn [mbind result_bind].
  by rewrite field_mask by (done || lia).
Qed.

Lemma AndUint_Ok x s e d :
  0 <= s <= e -> e < width UINTN -> 0 <= d ->
  InternalBaseLibBitFieldAndUint x s e d =
  if d <? 2 ^ (e - s + 1)
  then Ok (Z.land x (complement UINTN (Z.land
         (wrap (width UINTN) (Z.shiftl (complement UINTN d) s))
         (Z.ones (e + 1)))))
  else AssertFailed.
Proof.
  intros Hs He Hd. unfold InternalBaseLibBitFieldAndUint.
  rewrite shr_Ok by lia. cbn [mbind result_bind]. rewrite field_guard by lia.
  destruct (d <? _); [|done]. cbn [ASSERT mbind result_bind].
  rewrite !shl_Ok by lia. cbn [mbind result_bind].
  by rewrite field_mask by (done || lia).
Qed.

(** The contract of the functions of one width; [Write] and [AndThenOr] are
    composed from [And] and [Or]. *)
Record bitfield_contract (F : bitfield_functions) : Prop := {
  contract_width : 0 < Width F;
  contract_read x s e :
    0 <= x < 2 ^ Width F -> 0 <= s ->
    Read F x s e =
    if valid (Width F) s e then Ok (x / 2 ^ s mod 2 ^ (e - s + 1))
    else AssertFailed;
  contract_or x s e d :
    0 <= x < 2 ^ Width F -> 0 <= s -> 0 <= d ->
    if valid (Width F) s e && (d <? 2 ^ (e - s + 1))
    then exists r, Or F x s e d = Ok r /\ combined orb (Width F) x s e d r
    else Or F x s e d = AssertFailed;
  contract_and x s e d :
    0 <= x < 2 ^ Width F -> 0 <= s -> 0 <= d ->
    if valid (Width F) s e && (d <? 2 ^ (e - s + 1))
    then exists r, And F x s e d = Ok r /\ combined andb (Width F) x s e d r
    else And F x s e d = AssertFailed;
  contract_and_then_or x s e a o :
    AndThenOr F x s e a o =
    if valid (Width F) s e
    then let! r := And F x s e a in Or F r s e o
    else AssertFailed;
  contract_write x s e v :
    Write F x s e v =
    if valid (Width F) s e then AndThenOr F x s e 0 v else AssertFailed
}.

(** The 8-, 16- and 32-bit functions narrow what the workers return. *)
Lemma narrow_contract T F :
  signed T = false -> width T = Width F -> 0 < Width F <= width UINTN ->
  (forall x s e, Read F x s e =
     if valid (Width F) s e
     then let! r := InternalBaseLibBitFieldReadUint x s e in Ok (cast T r)
     else AssertFailed) ->
  (forall x s e d, Or F x s e d =
     if valid (Width F) s e
     then let! r := InternalBaseLibBitFieldOrUint x s e d in Ok (cast T r)
     else AssertFailed) ->
  (forall x s e d, And F x s e d =
     if valid (Width F) s e
     then let! r := InternalBaseLibBitFieldAndUint x s e d in Ok (cast T r)
     else AssertFailed) ->
  (forall x s e a o, AndThenOr F x s e a o =
     if valid (Width F) s e
     then let! r := And F x s e a in Or F r s e o
     else AssertFailed) ->
  (forall x s e v, Write F x s e v =
     if valid (Width F) s e then AndThenOr F x s e 0 v else AssertFailed) ->
  bitfield_contract F.
Proof.
  intros HT Hw Hle Er Eo Ea Eao Ew.
  assert (forall x, 0 <= x < 2 ^ Width F -> cast T x = x) as Hcast.
  { intros x Hx. unfold cast. rewrite HT, Hw. by apply wrap_small. }
  split; [lia| | | |done|done].
  - intros x s e Hx Hs. rewrite Er. destruct (valid _ _ _) eqn:Hv; [|done].
    apply valid_spec in Hv. rewrite ReadUint_Ok by lia.
    cbn [mbind result_bind].
    destruct (read_field (Width F) x s e) as [E Hb]; [lia..|].
    by rewrite Hcast, E.
  - intros x s e d Hx Hs Hd. rewrite Eo. destruct (valid _ _ _) eqn:Hv; [|done].
    apply valid_spec in Hv. rewrite OrUint_Ok by lia. cbn [andb].
    destruct (Z.ltb_spec d (2 ^ (e - s + 1))); [|done].
    cbn [mbind result_bind]. eexists. split; [reflexivity|].
    rewrite Hcast; eapply (or_field UINTN); done || lia.
  - intros x s e d Hx Hs Hd. rewrite Ea. destruct (valid _ _ _) eqn:Hv; [|done].
    apply valid_spec in Hv. rewrite AndUint_Ok by lia. cbn [andb].
    destruct (Z.ltb_spec d (2 ^ (e - s + 1))); [|done].
    cbn [mbind result_bind]. eexists. split; [reflexivity|].
    rewrite Hcast; eapply (and_field UINTN); done || lia.
Qed.

Lemma contract64 :
  bitfield_contract (Build_bitfield_functions 64 BitFieldRead64 BitFieldOr64
    BitFieldAnd64 BitFieldAndThenOr64 BitFieldWrite64).
Proof.
  split; cbn [Width Read Or And AndThenOr Write]; [done| | | | |].
  - intros x s e Hx Hs. unfold BitFieldRead64. rewrite guarded.
    destruct (valid _ _ _) eqn:Hv; [|done]. apply valid_spec in Hv.
    rewrite LShiftU64_Ok by lia. cbn [mbind result_bind].
    rewrite (field_mask UINT64) by (done || simpl; lia).
    rewrite RShiftU64_Ok by lia. apply f_equal, (read_field 64); lia.
  - intros x s e d Hx Hs Hd. unfold BitFieldOr64. rewrite guarded.
    destruct (valid _ _ _) eqn:Hv; [|done]. apply valid_spec in Hv.
    rewrite RShiftU64_Ok by lia. cbn [mbind result_bind andb].
    rewrite field_guard by lia.
    destruct (Z.ltb_spec d (2 ^ (e - s + 1))); [|done].
    cbn [ASSERT mbind result_bind]. rewrite !LShiftU64_Ok by lia.
    cbn [mbind result_bind]. rewrite (field_mask UINT64) by (done || simpl; lia).
    eexists. split; [reflexivity|]. apply (or_field UINT64); done || lia.
  - intros x s e d Hx Hs Hd. unfold BitFieldAnd64. rewrite guarded.
    destruct (valid _ _ _) eqn:Hv; [|done]. apply valid_spec in Hv.
    rewrite RShiftU64_Ok by lia. cbn [mbind result_bind andb].
    rewrite field_guard by lia.
    destruct (Z.ltb_spec d (2 ^ (e - s + 1))); [|done].
    cbn [ASSERT mbind result_bind]. rewrite !LShiftU64_Ok by lia.
    cbn [mbind result_bind]. rewrite (field_mask UINT64) by (done || simpl; lia).
    eexists. split; [reflexivity|]. apply (and_field UINT64); done || lia.
  - intros. unfold BitFieldAndThenOr64. by rewrite guarded.
  - intros. unfold BitFieldWrite64. by rewrite guarded.
Qed.

Lemma bitfield_contracts F : In F bitfield_widths -> bitfield_contract F.
Proof.
  pose proof UINTN_width. intros [<-|[<-|[<-|[<-|[]]]]]; [| | |apply contract64].
  - apply (narrow_contract UINT8); cbn [Width]; [done|done|lia|..]; intros;
      apply (guarded 8).
  - apply (narrow_contract UINT16); cbn [Width]; [done|done|lia|..]; intros;
      apply (guarded 16).
  - apply (narrow_contract UINT32); cbn [Width]; [done|done|lia|..]; intros;
      apply (guarded 32).
Qed.

Section Contract.
Context (F : bitfield_functions) (HF : In F bitfield_widths).
#[local] Notation w := (Width F) (only parsing).
#[local] Notation C := (bitfield_contracts F HF) (only parsing).

Lemma or_outcome x s e d :
  0 <= x < 2 ^ w -> 0 <= s <= e -> e < w -> 0 <= d < 2 ^ (e - s + 1) ->
  exists r, Or F x s e d = Ok r /\ combined orb w x s e d r.
Proof.
  intros Hx Hs He Hd. pose proof (contract_or F C x s e d) as Ho.
  rewrite (proj2 (valid_spec _ s e)), (proj2 (Z.ltb_lt d _)) in Ho by lia.
  apply Ho; lia.
Qed.

Lemma and_outcome x s e d :
  0 <= x < 2 ^ w -> 0 <= s <= e -> e < w -> 0 <= d < 2 ^ (e - s + 1) ->
  exists r, And F x s e d = Ok r /\ combined andb w x s e d r.
Proof.
  intros Hx Hs He Hd. pose proof (contract_and F C x s e d) as Ho.
  rewrite (proj2 (valid_spec _ s e)), (proj2 (Z.ltb_lt d _)) in Ho by lia.
  apply Ho; lia.
Qed.

Lemma and_then_or_outcome x s e a o :
  0 <= x < 2 ^ w -> 0 <= s <= e -> e < w ->
  0 <= a < 2 ^ (e - s + 1) -> 0 <= o < 2 ^ (e - s + 1) ->
  exists r, AndThenOr F x s e a o = Ok r /\ 0 <= r < 2 ^ w /\
    forall i, 0 <= i < w ->
      Z.testbit r i =
      if (s <=? i) && (i <=? e)
      then Z.testbit x i && Z.testbit a (i - s) || Z.testbit o (i - s)
      else Z.testbit x i.
Proof.
  intros Hx Hs He Ha Ho. rewrite (contract_and_then_or F C).
  rewrite (proj2 (valid_spec _ s e)) by lia.
  destruct (and_outcome x s e a) as (y & -> & Hy & Hby); [done..|].
  cbn [mbind result_bind].
  destruct (or_outcome y s e o) as (r & -> & Hr & Hbr); [done..|].
  exists r. split_and!; [done|lia|lia|]. intros i Hi.
  rewrite Hbr, Hby by done. by destruct (_ && _).
Qed.

Lemma write_outcome x s e v :
  0 <= x < 2 ^ w -> 0 <= s <= e -> e < w -> 0 <= v < 2 ^ (e - s + 1) ->
  exists r, Write F x s e v = Ok r /\ combined (fun _ b => b) w x s e v r.
Proof.
  intros Hx Hs He Hv. rewrite (contract_write F C).
  rewrite (proj2 (valid_spec _ s e)) by lia.
  destruct (and_then_or_outcome x s e 0 v) as (r & -> & Hr & Hb); try done.
  { pose proof (Z.pow_pos_nonneg 2 (e - s + 1)). lia. }
  exists r. split; [done|]. split; [done|]. intros i Hi. rewrite Hb by done.
  rewrite Z.bits_0, andb_false_r. done.
Qed.

End Contract.

(** C39: For every width and every valid field, the bit-field functions of
    BaseLib are exactly the operations on that field: [Read] extracts it,
    [Or], [And], [AndThenOr] and [Write] combine the bits of the operand with
    the data inside the field and keep every bit outside it. *)
Theorem BitField_functional F x s e d o :
  In F bitfield_widths ->
  0 <= x < 2 ^ Width F -> 0 <= s <= e -> e < Width F ->
  0 <= d < 2 ^ (e - s + 1) -> 0 <= o < 2 ^ (e - s + 1) ->
  Read F x s e = Ok (x / 2 ^ s mod 2 ^ (e - s + 1)) /\
  (exists r, Or F x s e d = Ok r /\ combined orb (Width F) x s e d r) /\
  (exists r, And F x s e d = Ok r /\ combined andb (Width F) x s e d r) /\
  (exists r, Write F x s e d = Ok r /\
     combined (fun _ b => b) (Width F) x s e d r) /\
  (exists r, AndThenOr F x s e d o = Ok r /\ 0 <= r < 2 ^ Width F /\
     forall i, 0 <= i < Width F ->
       Z.testbit r i =
       if (s <=? i) && (i <=? e)
       then Z.testbit x i && Z.testbit d (i - s) || Z.testbit o (i - s)
       else Z.testbit x i).
Proof.
  intros HF Hx Hs He Hd Ho. split_and!.
  - rewrite (contract_read F (bitfield_contracts F HF)) by lia.
    by rewrite (proj2 (valid_spec _ s e)) by lia.
  - by apply or_outcome.
  - by apply and_outcome.
  - by apply write_outcome.
  - by apply and_then_or_outcome.
Qed.

(** A field that does not lie inside the word, and data that does not
    fit the field, violate an [ASSERT] of every function (no shift is ever
    undefined). *)
Theorem BitField_rejects F x s e d :
  In F bitfield_widths -> 0 <= x < 2 ^ Width F -> 0 <= s -> 0 <= d ->
  (Width F <= e \/ e < s ->
   Read F x s e = AssertFailed /\ Or F x s e d = AssertFailed /\
   And F x s e d = AssertFailed /\ Write F x s e d = AssertFailed /\
   AndThenOr F x s e d d = AssertFailed) /\
  (s <= e -> 2 ^ (e - s + 1) <= d ->
   Or F x s e d = AssertFailed /\ And F x s e d = AssertFailed /\
   Write F x s e d = AssertFailed /\ AndThenOr F x s e d d = AssertFailed).
Proof.
  intros HF Hx Hs Hd. pose proof (bitfield_contracts F HF) as C.
  pose proof (contract_or F C x s e d Hx Hs Hd) as Ho.
  pose proof (contract_and F C x s e d Hx Hs Hd) as Ha.
  rewrite (contract_write F C), !(contract_and_then_or F C),
    (contract_read F C) by done.
  split.
  - intros Hbad. assert (valid (Width F) s e = false) as E.
    { apply not_true_iff_false. rewrite valid_spec. lia. }
    by rewrite E in *.
  - intros Hse Hbig. assert (d <? 2 ^ (e - s + 1) = false) as E by lia.
    rewrite E, andb_false_r in Ho, Ha. rewrite Ha.
    destruct (valid _ _ _) eqn:Hv; [|done]. split_and!; [done..| |done].
    apply valid_spec in Hv.
    destruct (and_outcome F HF x s e 0) as (r & -> & Hr & _); try lia.
    cbn [mbind result_bind].
    pose proof (contract_or F C r s e d Hr Hs Hd) as Ho'.
    by rewrite E, andb_false_r in Ho'.
Qed.

(** Round trip: a field that was written reads back the written value,
    and every disjoint field reads back what it held before. *)
Theorem BitField_write_read F x s e v s' e' :
  In F bitfield_widths ->
  0 <= x < 2 ^ Width F -> 0 <= s <= e -> e < Width F ->
  0 <= v < 2 ^ (e - s + 1) ->
  0 <= s' <= e' -> e' < Width F -> e' < s \/ e < s' ->
  exists r,
    Write F x s e v = Ok r /\
    Read F r s e = Ok v /\
    Read F r s' e' = Read F x s' e'.
Proof.
  intros HF Hx Hs He Hv Hs' He' Hdis. pose proof (bitfield_contracts F HF) as C.
  destruct (write_outcome F HF x s e v) as (r & Er & Hr & Hb); [done..|].
  exists r. split; [done|].
  rewrite !(contract_read F C) by lia.
  rewrite (proj2 (valid_spec _ s e)), (proj2 (valid_spec _ s' e')) by lia.
  split; apply f_equal, Z.bits_inj'; intros i Hi;
    rewrite <-!Z.shiftr_div_pow2 by lia.
  - destruct (Z.ltb_spec i (e - s + 1)).
    + rewrite Z.mod_pow2_bits_low, Z.shiftr_spec, Hb by lia.
      assert ((s <=? i + s) && (i + s <=? e) = true) as -> by (bool_to_prop; lia).
      f_equal. lia.
    + by rewrite Z.mod_pow2_bits_high, (testbit_above (e - s + 1) v) by lia.
  - destruct (Z.ltb_spec i (e' - s' + 1)).
    + rewrite !Z.mod_pow2_bits_low, !Z.shiftr_spec, Hb by lia.
      assert ((s <=? i + s') && (i + s' <=? e) = false) as ->; [|done].
      bool_to_prop. lia.
    + by rewrite !Z.mod_pow2_bits_high by lia.
Qed.

(** ** Counting ones *)

(** The number of ones among the low [n] bits of [x]. *)
Fixpoint count_ones (n : nat) (x : Z) : Z :=
  match n with
  | O => 0
  | S n => x mod 2 + count_ones n (x / 2)
  end.

Lemma count_ones_bound n x : 0 <= count_ones n x <= Z.of_nat n.
Proof.
  revert x. induction n as [|n IH]; intros x; cbn [count_ones]; [lia|].
  specialize (IH (x / 2)). pose proof (Z.mod_pos_bound x 2). lia.
Qed.

Lemma count_ones_add n m x :
  count_ones (n + m) x = count_ones n x + count_ones m (x / 2 ^ Z.of_nat n).
Proof.
  revert x. induction n as [|n IH]; intros x.
  - cbn [count_ones]. simpl. by rewrite Z.div_1_r.
  - cbn [count_ones Nat.add]. rewrite IH, Nat2Z.inj_succ, Z.pow_succ_r by lia.
    rewrite <-Z.div_div by lia. lia.
Qed.

Lemma count_ones_mod n k x :
  (n <= k)%nat -> count_ones n (x mod 2 ^ Z.of_nat k) = count_ones n x.
Proof.
  revert k x. induction n as [|n IH]; intros k x Hk; [done|].
  destruct k as [|k]; [lia|]. cbn [count_ones].
  rewrite Nat2Z.inj_succ, Z.pow_succ_r by lia.
  rewrite Z.rem_mul_r by lia.
  rewrite (Z.mul_comm 2), Z.mod_add, Z.mod_mod by lia.
  rewrite Z.div_add by lia.
  rewrite (Z.div_small (x mod 2)) by (apply Z.mod_pos_bound; lia).
  rewrite Z.add_0_l, IH by lia. done.
Qed.

Lemma count_ones_small n k x :
  0 <= x < 2 ^ Z.of_nat n -> count_ones (n + k) x = count_ones n x.
Proof.
  intros Hx. rewrite count_ones_add, Z.div_small by done.
  assert (forall m, count_ones m 0 = 0) as ->; [|lia].
  induction m as [|m IH]; [done|]. cbn [count_ones]. by rewrite Z.div_0_l, IH.
Qed.

(** The three steps that count inside each byte. *)
Definition pairs (m x : Z) : Z := x - Z.land (Z.shiftr x 1) m.
Definition nibbles (m x : Z) : Z := Z.land x m + Z.land (Z.shiftr x 2) m.
Definition bytes (m x : Z) : Z := Z.land (x + Z.shiftr x 4) m.

Definition byte_count (a : Z) : Z :=
  bytes 0x0F (nibbles 0x33 (pairs 0x55 a)).

(** Every byte, by computation. *)
Definition check_byte (a : Z) : bool :=
  (0 <=? pairs 0x55 a) && (pairs 0x55 a <? 256) &&
  (0 <=? nibbles 0x33 (pairs 0x55 a)) &&
  (nibbles 0x33 (pairs 0x55 a) <? 0x45) &&
  (Z.land (nibbles 0x33 (pairs 0x55 a)) 0x0F <=? 4) &&
  (byte_count a =? count_ones 8 a).

Lemma check_byte_all a : 0 <= a < 256 -> check_byte a = true.
Proof.
  intros Ha.
  assert (Forall (fun a => check_byte a = true) (seqZ 0 256)) as Hall.
  { apply Forall_forall. intros b Hb.
    apply (proj1 (forallb_forall check_byte (seqZ 0 256)));
      [by vm_compute|by apply list_elem_of_In]. }
  rewrite Forall_forall in Hall. apply Hall, elem_of_seqZ. lia.
Qed.

Lemma testbit_join a b i :
  0 <= a < 2 ^ 8 -> 0 <= i ->
  Z.testbit (a + 2 ^ 8 * b) i =
  if i <? 8 then Z.testbit a i else Z.testbit b (i - 8).
Proof.
  intros Ha Hi. destruct (Z.ltb_spec i 8).
  - rewrite <-(Z.mod_pow2_bits_low _ 8) by lia.
    by rewrite (Z.mul_comm _ b), Z.mod_add, Z.mod_small by lia.
  - replace i with (i - 8 + 8) at 1 by lia.
    rewrite <-Z.div_pow2_bits by lia.
    by rewrite (Z.mul_comm _ b), Z.div_add, Z.div_small by lia.
Qed.

(** A shift under a mask that drops the bits coming from the next byte. *)
Lemma masked_shift_join k a b m n :
  0 <= k < 8 -> 0 <= a < 256 -> 0 <= m < 2 ^ (8 - k) ->
  Z.land (Z.shiftr (a + 256 * b) k) (m + 256 * n) =
  Z.land (Z.shiftr a k) m + 256 * Z.land (Z.shiftr b k) n.
Proof.
  intros Hk Ha Hm. change 256 with (2 ^ 8) in *.
  assert (2 ^ (8 - k) <= 2 ^ 8) by (apply Z.pow_le_mono_r; lia).
  pose proof (shiftr_bound 8 a k) as Hs.
  assert (0 <= Z.land (Z.shiftr a k) m < 2 ^ 8) as Hl.
  { apply word_bound; [lia|apply Z.land_nonneg; lia|]. intros i Hi.
    by rewrite Z.land_spec, (testbit_above 8 m), andb_false_r by lia. }
  apply Z.bits_inj'. intros i Hi.
  rewrite Z.land_spec, Z.shiftr_spec, !testbit_join by lia.
  destruct (Z.ltb_spec i 8).
  - rewrite Z.land_spec, Z.shiftr_spec by lia.
    destruct (Z.ltb_spec (i + k) 8); [done|].
    by rewrite (testbit_above (8 - k) m), !andb_false_r by lia.
  - assert (i + k <? 8 = false) as -> by lia.
    rewrite Z.land_spec, Z.shiftr_spec by lia. do 2 f_equal. lia.
Qed.

Lemma land_join a b m n :
  0 <= a < 256 -> 0 <= m < 256 ->
  Z.land (a + 256 * b) (m + 256 * n) = Z.land a m + 256 * Z.land b n.
Proof. intros. by apply (masked_shift_join 0). Qed.

Lemma pairs_join a b n :
  0 <= a < 256 ->
  pairs (0x55 + 256 * n) (a + 256 * b) = pairs 0x55 a + 256 * pairs n b.
Proof.
  intros. unfold pairs. rewrite (masked_shift_join 1) by lia. lia.
Qed.

Lemma nibbles_join a b n :
  0 <= a < 256 ->
  nibbles (0x33 + 256 * n) (a + 256 * b) = nibbles 0x33 a + 256 * nibbles n b.
Proof.
  intros. unfold nibbles. rewrite (masked_shift_join 2), land_join by lia. lia.
Qed.

(** Adding the shifted nibbles may not carry into the next byte. *)
Lemma bytes_join a b n :
  0 <= a < 0x45 -> 0 <= b -> Z.land b 0x0F <= 4 ->
  bytes (0x0F + 256 * n) (a + 256 * b) = bytes 0x0F a + 256 * bytes n b.
Proof.
  intros Ha Hb Hb4. unfold bytes.
  assert (Z.land b 0x0F = b mod 16) as Hm.
  { change 0x0F with (Z.ones 4). by rewrite Z.land_ones by lia. }
  assert (forall x, Z.land x 0x0F = x mod 16) as Hlow.
  { intros x. change 0x0F with (Z.ones 4). by rewrite Z.land_ones by lia. }
  rewrite Hlow in Hb4. rewrite !Z.shiftr_div_pow2 by lia. change (2 ^ 4) with 16.
  assert (a + 256 * b + (a + 256 * b) / 16 =
    (a + a / 16 + 16 * (b mod 16)) + 256 * (b + b / 16)) as -> by div_lia.
  rewrite land_join by div_lia. rewrite !Hlow.
  replace (a + a / 16 + 16 * (b mod 16)) with
    (a + a / 16 + (b mod 16) * 16) by lia.
  by rewrite Z.mod_add by lia.
Qed.

(** A word of four bytes. *)
Definition word4 (a b c d : Z) : Z := a + 256 * (b + 256 * (c + 256 * d)).

Lemma word4_exists x :
  0 <= x < 2 ^ 32 ->
  exists a b c d, x = word4 a b c d /\
    0 <= a < 256 /\ 0 <= b < 256 /\ 0 <= c < 256 /\ 0 <= d < 256.
Proof.
  intros Hx. exists (x mod 256), (x / 256 mod 256), (x / 256 / 256 mod 256),
    (x / 256 / 256 / 256). unfold word4. div_lia.
Qed.

Lemma count_ones_word4 a b c d :
  0 <= a < 256 -> 0 <= b < 256 -> 0 <= c < 256 -> 0 <= d < 256 ->
  count_ones 32 (word4 a b c d) =
  count_ones 8 a + count_ones 8 b + count_ones 8 c + count_ones 8 d.
Proof.
  intros Ha Hb Hc Hd.
  assert (forall n u v, 0 <= u < 256 ->
    count_ones (8 + n) (u + 256 * v) = count_ones 8 u + count_ones n v) as Hj.
  { intros n u v Hu. rewrite count_ones_add.
    rewrite <-(count_ones_mod 8 8 (u + _)) by lia.
    change (2 ^ Z.of_nat 8) with 256. rewrite (Z.mul_comm _ v).
    by rewrite Z.mod_add, Z.div_add, Z.mod_small, Z.div_small by lia. }
  unfold word4. rewrite (Hj 24%nat), (Hj 16%nat), (Hj 8%nat) by done. lia.
Qed.

(** What the steps compute on a byte. *)
Lemma byte_facts a :
  0 <= a < 256 ->
  let p := pairs 0x55 a in let n := nibbles 0x33 p in
  0 <= p < 256 /\ 0 <= n < 0x45 /\ Z.land n 0x0F <= 4 /\
  bytes 0x0F n = count_ones 8 a.
Proof.
  intros Ha p n. pose proof (check_byte_all a Ha) as E. unfold check_byte in E.
  fold p in E. fold n in E. unfold byte_count in E. fold p in E. fold n in E.
  bool_to_prop. lia.
Qed.

Lemma low_nibble_join a b :
  0 <= a < 256 -> Z.land (a + 256 * b) 0x0F = Z.land a 0x0F.
Proof.
  intros Ha. change 0x0F with (0x0F + 256 * 0) at 1.
  rewrite land_join by lia. rewrite Z.land_0_r. lia.
Qed.

Lemma bytes_word4 a b c d :
  0 <= a < 256 -> 0 <= b < 256 -> 0 <= c < 256 -> 0 <= d < 256 ->
  bytes 0x0F0F0F0F (nibbles 0x33333333 (pairs 0x55555555 (word4 a b c d))) =
  word4 (count_ones 8 a) (count_ones 8 b) (count_ones 8 c) (count_ones 8 d).
Proof.
  intros Ha Hb Hc Hd. unfold word4.
  change 0x55555555 with (0x55 + 256 * (0x55 + 256 * (0x55 + 256 * 0x55))).
  change 0x33333333 with (0x33 + 256 * (0x33 + 256 * (0x33 + 256 * 0x33))).
  change 0x0F0F0F0F with (0x0F + 256 * (0x0F + 256 * (0x0F + 256 * 0x0F))).
  destruct (byte_facts a Ha) as (Hpa & Hna & Hla & <-).
  destruct (byte_facts b Hb) as (Hpb & Hnb & Hlb & <-).
  destruct (byte_facts c Hc) as (Hpc & Hnc & Hlc & <-).
  destruct (byte_facts d Hd) as (Hpd & Hnd & Hld & <-).
  rewrite !pairs_join by done. rewrite !nibbles_join by done.
  rewrite !bytes_join; rewrite ?low_nibble_join by lia; lia || done.
Qed.

(** The last two steps add the four counters. *)
Lemma add_counters a b c d :
  0 <= a <= 8 -> 0 <= b <= 8 -> 0 <= c <= 8 -> 0 <= d <= 8 ->
  let x := word4 a b c d in
  let y := u32 (x + Z.shiftr x 8) in
  Z.land (u8 (u32 (y + Z.shiftr y 16))) 0x3F = a + b + c + d.
Proof.
  intros Ha Hb Hc Hd x y.
  assert (y = a + b + 256 * (b + c + 256 * (c + d + 256 * d))) as Hy.
  { unfold y. rewrite Z.shiftr_div_pow2 by lia. change (2 ^ 8) with 256.
    unfold x, word4. rewrite (Z.mul_comm 256 (b + _)), Z.div_add by lia.
    rewrite (Z.div_small a), wrap_small by lia. lia. }
  assert (Z.shiftr y 16 = c + d + 256 * d) as ->.
  { rewrite Z.shiftr_div_pow2 by lia. rewrite Hy. change (2 ^ 16) with 65536.
    replace (a + b + 256 * (b + c + 256 * (c + d + 256 * d))) with
      (a + b + 256 * (b + c) + (c + d + 256 * d) * 65536) by lia.
    rewrite Z.div_add, Z.div_small by lia. lia. }
  assert (u8 (u32 (y + (c + d + 256 * d))) = a + b + c + d) as ->.
  { rewrite (wrap_small 32) by lia. unfold wrap. change (2 ^ 8) with 256. rewrite Hy.
    replace (_ + _ + _) with (a + b + c + d +
      (b + c + d + 256 * (c + d + 256 * d)) * 256) by lia.
    rewrite Z.mod_add, Z.mod_small by lia. lia. }
  change 0x3F with (Z.ones 6). rewrite Z.land_ones, Z.mod_small by lia. lia.
Qed.

(** The count of a 32-bit word, all steps together. *)
Definition swar (x : Z) : Z :=
  let Count := u32 (x - Z.land (Z.shiftr x 1) 0x55555555) in
  let Count := u32 (Z.land Count 0x33333333 +
                    Z.land (Z.shiftr Count 2) 0x33333333) in
  let Count := u32 (Count + Z.shiftr Count 4) in
  let Count := Z.land Count 0x0F0F0F0F in
  let Count := u32 (Count + Z.shiftr Count 8) in
  let Count := u32 (Count + Z.shiftr Count 16) in
  Z.land (u8 Count) 0x3F.

Lemma word4_bound m a b c d :
  m <= 255 -> 0 <= a <= m -> 0 <= b <= m -> 0 <= c <= m -> 0 <= d <= m ->
  0 <= word4 a b c d < 2 ^ 32.
Proof. unfold word4. lia. Qed.

Lemma swar_count x : 0 <= x < 2 ^ 32 -> swar x = count_ones 32 x.
Proof.
  intros Hx. destruct (word4_exists x Hx) as (a & b & c & d & -> & Ha & Hb & Hc & Hd).
  set (x := word4 a b c d) in *.
  pose proof (bytes_word4 a b c d Ha Hb Hc Hd) as Hbytes. fold x in Hbytes.
  destruct (byte_facts a Ha) as (Hpa & Hna & _).
  destruct (byte_facts b Hb) as (Hpb & Hnb & _).
  destruct (byte_facts c Hc) as (Hpc & Hnc & _).
  destruct (byte_facts d Hd) as (Hpd & Hnd & _).
  assert (pairs 0x55555555 x = word4 (pairs 0x55 a) (pairs 0x55 b)
    (pairs 0x55 c) (pairs 0x55 d)) as Hp.
  { unfold x, word4.
    change 0x55555555 with (0x55 + 256 * (0x55 + 256 * (0x55 + 256 * 0x55))).
    by rewrite !pairs_join by done. }
  assert (nibbles 0x33333333 (pairs 0x55555555 x) =
    word4 (nibbles 0x33 (pairs 0x55 a)) (nibbles 0x33 (pairs 0x55 b))
      (nibbles 0x33 (pairs 0x55 c)) (nibbles 0x33 (pairs 0x55 d))) as Hn.
  { rewrite Hp. unfold word4.
    change 0x33333333 with (0x33 + 256 * (0x33 + 256 * (0x33 + 256 * 0x33))).
    by rewrite !nibbles_join by done. }
  unfold swar. fold (pairs 0x55555555 x).
  rewrite (wrap_small 32 (pairs _ _)) by (rewrite Hp; apply (word4_bound 255); lia).
  fold (nibbles 0x33333333 (pairs 0x55555555 x)).
  rewrite (wrap_small 32 (nibbles _ _)) by (rewrite Hn; apply (word4_bound 255); lia).
  set (n := nibbles 0x33333333 (pairs 0x55555555 x)) in *.
  assert (0 <= n + Z.shiftr n 4 < 2 ^ 32) as Hov.
  { rewrite Z.shiftr_div_pow2, Hn by lia. change (2 ^ 4) with 16.
    unfold word4. div_lia. }
  rewrite (wrap_small 32 (n + _)) by done. fold (bytes 0x0F0F0F0F n).
  rewrite Hbytes, add_counters by apply count_ones_bound.
  unfold x. by rewrite count_ones_word4.
Qed.

Lemma count_ones_field k n y :
  (n <= k)%nat -> count_ones k (y mod 2 ^ Z.of_nat n) = count_ones n y.
Proof.
  intros Hn. replace k with (n + (k - n))%nat by lia.
  rewrite count_ones_small, count_ones_mod by (apply Z.mod_pos_bound || lia; lia).
  done.
Qed.

Lemma count_ones_u32 x : count_ones 32 (u32 x) = count_ones 32 x.
Proof. exact (count_ones_mod 32 32 x (le_n _)). Qed.

Lemma CountOnes32_swar x s e :
  BitFieldCountOnes32 x s e =
  if valid 32 s e
  then let! Count := BitFieldRead32 x s e in Ok (swar Count)
  else AssertFailed.
Proof. exact (guarded 32 s e _). Qed.

Lemma CountOnes32_Ok x s e :
  0 <= x < 2 ^ 32 -> 0 <= s <= e -> e < 32 ->
  BitFieldCountOnes32 x s e =
  Ok (count_ones (Z.to_nat (e - s + 1)) (x / 2 ^ s)).
Proof.
  intros Hx Hs He. rewrite CountOnes32_swar.
  rewrite (proj2 (valid_spec 32 s e)) by lia.
  pose proof (contract_read _ (bitfield_contracts _
    ltac:(right; right; left; reflexivity)) x s e) as Hr.
  cbn [Read Width] in Hr. rewrite Hr by lia. clear Hr.
  rewrite (proj2 (valid_spec 32 s e)) by lia. cbn [mbind result_bind].
  apply f_equal.
  pose proof (Z.mod_pos_bound (x / 2 ^ s) (2 ^ (e - s + 1))).
  assert (2 ^ (e - s + 1) <= 2 ^ 32) by (apply Z.pow_le_mono_r; lia).
  pose proof (Z.pow_pos_nonneg 2 (e - s + 1)).
  rewrite swar_count by lia.
  rewrite <-(Z2Nat.id (e - s + 1)) at 1 by lia. apply count_ones_field. lia.
Qed.

(** [BitFieldCountOnes32] and [BitFieldCountOnes64], whose constant-time
    summation works on all the bytes in parallel, count the ones of the
    field. *)
Theorem BitFieldCountOnes_counts x s e :
  0 <= s <= e ->
  (0 <= x < 2 ^ 32 -> e < 32 ->
   BitFieldCountOnes32 x s e =
   Ok (count_ones (Z.to_nat (e - s + 1)) (x / 2 ^ s))) /\
  (0 <= x < 2 ^ 64 -> e < 64 ->
   BitFieldCountOnes64 x s e =
   Ok (count_ones (Z.to_nat (e - s + 1)) (x / 2 ^ s))).
Proof.
  intros Hs. split; intros Hx He; [by apply CountOnes32_Ok|].
  unfold BitFieldCountOnes64. rewrite guarded.
  rewrite (proj2 (valid_spec 64 s e)) by lia.
  pose proof (contract_read _ contract64 x s e) as Hr.
  cbn [Read Width] in Hr. rewrite Hr by lia. clear Hr.
  rewrite (proj2 (valid_spec 64 s e)) by lia. cbn [mbind result_bind].
  set (y := x / 2 ^ s mod 2 ^ (e - s + 1)).
  assert (0 <= y < 2 ^ 64) as Hy.
  { pose proof (Z.mod_pos_bound (x / 2 ^ s) (2 ^ (e - s + 1))).
    assert (2 ^ (e - s + 1) <= 2 ^ 64) by (apply Z.pow_le_mono_r; lia).
    pose proof (Z.pow_pos_nonneg 2 (e - s + 1)). unfold y. lia. }
  rewrite CountOnes32_Ok by (lia || apply wrap_bounds; lia).
  cbn [mbind result_bind]. rewrite RShiftU64_Ok by lia. cbn [mbind result_bind].
  rewrite CountOnes32_Ok by (lia || apply wrap_bounds; lia).
  cbn [mbind result_bind]. change (2 ^ 0) with 1. rewrite !Z.div_1_r.
  change (Z.to_nat (31 - 0 + 1)) with 32%nat. rewrite !count_ones_u32.
  rewrite Z.shiftr_div_pow2 by lia.
  pose proof (count_ones_add 32 32 y) as Ha. change (Z.of_nat 32) with 32 in Ha.
  rewrite <-Ha. pose proof (count_ones_bound (32 + 32) y) as Hb.
  change (Z.of_nat (32 + 32)) with 64 in Hb.
  rewrite wrap_small by lia. apply f_equal. unfold y.
  rewrite <-(Z2Nat.id (e - s + 1)) at 1 by lia. apply count_ones_field. lia.
Qed.

End Theorems.

(** * Witnesses *)

Module BitFieldWitness.
Import BitField.

#[local] Existing Instance X64.

Definition Widths64 : bitfield_functions :=
  Build_bitfield_functions 64 BitFieldRead64 BitFieldOr64 BitFieldAnd64
    BitFieldAndThenOr64 BitFieldWrite64.

Lemma BitField_functional_witness :
  BitFieldRead64 0xABCDEF 8 15 = Ok 0xCD /\
  exists r, BitFieldWrite64 0xABCDEF 8 15 0x12 = Ok r /\
            combined (fun _ b => b) 64 0xABCDEF 8 15 0x12 r.
Proof.
  destruct (BitField_functional Widths64 0xABCDEF 8 15 0x12 0)
    as (E & _ & _ & E' & _).
  - right. right. right. left. reflexivity.
  - simpl. lia.
  - lia.
  - simpl. lia.
  - lia.
  - lia.
  - split; [exact E|exact E'].
Defined.

Lemma BitField_rejects_witness :
  BitFieldWrite64 0 4 7 16 = AssertFailed.
Proof.
  apply (BitField_rejects Widths64 0 4 7 16).
  - right. right. right. left. reflexivity.
  - simpl. lia.
  - lia.
  - lia.
  - lia.
  - lia.
Defined.

Lemma BitField_write_read_witness :
  exists r, BitFieldWrite64 0xABCDEF 8 15 0x12 = Ok r /\
            BitFieldRead64 r 8 15 = Ok 0x12 /\
            BitFieldRead64 r 16 23 = BitFieldRead64 0xABCDEF 16 23.
Proof.
  apply (BitField_write_read Widths64 0xABCDEF 8 15 0x12 16 23).
  - right. right. right. left. reflexivity.
  - simpl. lia.
  - lia.
  - simpl. lia.
  - lia.
  - lia.
  - simpl. lia.
  - lia.
Defined.

Lemma BitFieldCountOnes_counts_witness :
  BitFieldCountOnes32 0xF0F0 4 15 = Ok 8.
Proof.
  destruct (BitFieldCountOnes_counts 0xF0F0 4 15) as [E _]; [lia|].
  rewrite E; [reflexivity|lia|lia].
Defined.

End BitFieldWitness.
