(* ===== verification/CheckSum.v ===== *)
(** * BaseLib checksums

    MdePkg/Library/BaseLib/CheckSum.c: the sums and two's complement
    checksums of arrays of 8-, 16-, 32- and 64-bit values, and the CRC-32 of
    a buffer with its table (module [CheckSum]).

    A buffer is its address and the values that it holds; a read behind them
    is [BadAccess]. *)

From S2P Require Import Prelude.
From S2P Require Import CTypes.

Module CheckSum.
Section CheckSum.
Context `{Machine}.

Definition MAX_ADDRESS : Z := max_of UINTN.

(** [Total] iterations from index [Count]; sums have [w] bits. *)
Fixpoint Sum_loop (w : Z) (Buffer : list Z) (Total Count : nat) (Sum : Z)
    : result Z :=
  match Total with
  | O => Ok Sum
  | S Total =>
      let! v := deref (Buffer !! Count) in
      Sum_loop w Buffer Total (S Count) (wrap w (Sum + v))
  end.

Definition CalculateSum8 (Address : Z) (Buffer : list Z) (Length : Z)
    : result Z :=
  do! ASSERT (negb (Address =? 0));;
  do! ASSERT (Length <=? wrap (width UINTN) (MAX_ADDRESS - Address + 1));;
  Sum_loop 8 Buffer (Z.to_nat Length) 0 0.

Definition CalculateCheckSum8 (Address : Z) (Buffer : list Z) (Length : Z)
    : result Z :=
  let! CheckSum := CalculateSum8 Address Buffer Length in
  Ok (u8 (0x100 - CheckSum)).

Definition CalculateSum16 (Address : Z) (Buffer : list Z) (Length : Z)
    : result Z :=
  do! ASSERT (negb (Address =? 0));;
  do! ASSERT (Z.land Address 1 =? 0);;
  do! ASSERT (Z.land Length 1 =? 0);;
  do! ASSERT (Length <=? wrap (width UINTN) (MAX_ADDRESS - Address + 1));;
  let Total := Length / 2 in
  Sum_loop 16 Buffer (Z.to_nat Total) 0 0.

Definition CalculateCheckSum16 (Address : Z) (Buffer : list Z) (Length : Z)
    : result Z :=
  let! CheckSum := CalculateSum16 Address Buffer Length in
  Ok (u16 (0x10000 - CheckSum)).

Definition CalculateSum32 (Address : Z) (Buffer : list Z) (Length : Z)
    : result Z :=
  do! ASSERT (negb (Address =? 0));;
  do! ASSERT (Z.land Address 3 =? 0);;
  do! ASSERT (Z.land Length 3 =? 0);;
  do! ASSERT (Length <=? wrap (width UINTN) (MAX_ADDRESS - Address + 1));;
  let Total := Length / 4 in
  Sum_loop 32 Buffer (Z.to_nat Total) 0 0.

Definition CalculateCheckSum32 (Address : Z) (Buffer : list Z) (Length : Z)
    : result Z :=
  let! CheckSum := CalculateSum32 Address Buffer Length in
  Ok (u32 (cast UINT32 (-1) - CheckSum + 1)).

Definition CalculateSum64 (Address : Z) (Buffer : list Z) (Length : Z)
    : result Z :=
  do! ASSERT (negb (Address =? 0));;
  do! ASSERT (Z.land Address 7 =? 0);;
  do! ASSERT (Z.land Length 7 =? 0);;
  do! ASSERT (Length <=? wrap (width UINTN) (MAX_ADDRESS - Address + 1));;
  let Total := Length / 8 in
  Sum_loop 64 Buffer (Z.to_nat Total) 0 0.

Definition CalculateCheckSum64 (Address : Z) (Buffer : list Z) (Length : Z)
    : result Z :=
  let! CheckSum := CalculateSum64 Address Buffer Length in
  Ok (u64 (cast UINT64 (-1) - CheckSum + 1)).

Definition mCrcTable : list Z :=
  [0x00000000; 0x77073096; 0xEE0E612C; 0x990951BA; 0x076DC419; 0x706AF48F;
   0xE963A535; 0x9E6495A3; 0x0EDB8832; 0x79DCB8A4; 0xE0D5E91E; 0x97D2D988;
   0x09B64C2B; 0x7EB17CBD; 0xE7B82D07; 0x90BF1D91; 0x1DB71064; 0x6AB020F2;
   0xF3B97148; 0x84BE41DE; 0x1ADAD47D; 0x6DDDE4EB; 0xF4D4B551; 0x83D385C7;
   0x136C9856; 0x646BA8C0; 0xFD62F97A; 0x8A65C9EC; 0x14015C4F; 0x63066CD9;
   0xFA0F3D63; 0x8D080DF5; 0x3B6E20C8; 0x4C69105E; 0xD56041E4; 0xA2677172;
   0x3C03E4D1; 0x4B04D447; 0xD20D85FD; 0xA50AB56B; 0x35B5A8FA; 0x42B2986C;
   0xDBBBC9D6; 0xACBCF940; 0x32D86CE3; 0x45DF5C75; 0xDCD60DCF; 0xABD13D59;
   0x26D930AC; 0x51DE003A; 0xC8D75180; 0xBFD06116; 0x21B4F4B5; 0x56B3C423;
   0xCFBA9599; 0xB8BDA50F; 0x2802B89E; 0x5F058808; 0xC60CD9B2; 0xB10BE924;
   0x2F6F7C87; 0x58684C11; 0xC1611DAB; 0xB6662D3D; 0x76DC4190; 0x01DB7106;
   0x98D220BC; 0xEFD5102A; 0x71B18589; 0x06B6B51F; 0x9FBFE4A5; 0xE8B8D433;
   0x7807C9A2; 0x0F00F934; 0x9609A88E; 0xE10E9818; 0x7F6A0DBB; 0x086D3D2D;
   0x91646C97; 0xE6635C01; 0x6B6B51F4; 0x1C6C6162; 0x856530D8; 0xF262004E;
   0x6C0695ED; 0x1B01A57B; 0x8208F4C1; 0xF50FC457; 0x65B0D9C6; 0x12B7E950;
   0x8BBEB8EA; 0xFCB9887C; 0x62DD1DDF; 0x15DA2D49; 0x8CD37CF3; 0xFBD44C65;
   0x4DB26158; 0x3AB551CE; 0xA3BC0074; 0xD4BB30E2; 0x4ADFA541; 0x3DD895D7;
   0xA4D1C46D; 0xD3D6F4FB; 0x4369E96A; 0x346ED9FC; 0xAD678846; 0xDA60B8D0;
   0x44042D73; 0x33031DE5; 0xAA0A4C5F; 0xDD0D7CC9; 0x5005713C; 0x270241AA;
   0xBE0B1010; 0xC90C2086; 0x5768B525; 0x206F85B3; 0xB966D409; 0xCE61E49F;
   0x5EDEF90E; 0x29D9C998; 0xB0D09822; 0xC7D7A8B4; 0x59B33D17; 0x2EB40D81;
   0xB7BD5C3B; 0xC0BA6CAD; 0xEDB88320; 0x9ABFB3B6; 0x03B6E20C; 0x74B1D29A;
   0xEAD54739; 0x9DD277AF; 0x04DB2615; 0x73DC1683; 0xE3630B12; 0x94643B84;
   0x0D6D6A3E; 0x7A6A5AA8; 0xE40ECF0B; 0x9309FF9D; 0x0A00AE27; 0x7D079EB1;
   0xF00F9344; 0x8708A3D2; 0x1E01F268; 0x6906C2FE; 0xF762575D; 0x806567CB;
   0x196C3671; 0x6E6B06E7; 0xFED41B76; 0x89D32BE0; 0x10DA7A5A; 0x67DD4ACC;
   0xF9B9DF6F; 0x8EBEEFF9; 0x17B7BE43; 0x60B08ED5; 0xD6D6A3E8; 0xA1D1937E;
   0x38D8C2C4; 0x4FDFF252; 0xD1BB67F1; 0xA6BC5767; 0x3FB506DD; 0x48B2364B;
   0xD80D2BDA; 0xAF0A1B4C; 0x36034AF6; 0x41047A60; 0xDF60EFC3; 0xA867DF55;
   0x316E8EEF; 0x4669BE79; 0xCB61B38C; 0xBC66831A; 0x256FD2A0; 0x5268E236;
   0xCC0C7795; 0xBB0B4703; 0x220216B9; 0x5505262F; 0xC5BA3BBE; 0xB2BD0B28;
   0x2BB45A92; 0x5CB36A04; 0xC2D7FFA7; 0xB5D0CF31; 0x2CD99E8B; 0x5BDEAE1D;
   0x9B64C2B0; 0xEC63F226; 0x756AA39C; 0x026D930A; 0x9C0906A9; 0xEB0E363F;
   0x72076785; 0x05005713; 0x95BF4A82; 0xE2B87A14; 0x7BB12BAE; 0x0CB61B38;
   0x92D28E9B; 0xE5D5BE0D; 0x7CDCEFB7; 0x0BDBDF21; 0x86D3D2D4; 0xF1D4E242;
   0x68DDB3F8; 0x1FDA836E; 0x81BE16CD; 0xF6B9265B; 0x6FB077E1; 0x18B74777;
   0x88085AE6; 0xFF0F6A70; 0x66063BCA; 0x11010B5C; 0x8F659EFF; 0xF862AE69;
   0x616BFFD3; 0x166CCF45; 0xA00AE278; 0xD70DD2EE; 0x4E048354; 0x3903B3C2;
   0xA7672661; 0xD06016F7; 0x4969474D; 0x3E6E77DB; 0xAED16A4A; 0xD9D65ADC;
   0x40DF0B66; 0x37D83BF0; 0xA9BCAE53; 0xDEBB9EC5; 0x47B2CF7F; 0x30B5FFE9;
   0xBDBDF21C; 0xCABAC28A; 0x53B39330; 0x24B4A3A6; 0xBAD03605; 0xCDD70693;
   0x54DE5729; 0x23D967BF; 0xB3667A2E; 0xC4614AB8; 0x5D681B02; 0x2A6F2B94;
   0xB40BBE37; 0xC30C8EA1; 0x5A05DF1B; 0x2D02EF8D].

Fixpoint Crc_loop (Buffer : list Z) (Length Index : nat) (Crc : Z)
    : result Z :=
  match Length with
  | O => Ok Crc
  | S Length =>
      let! b := deref (Buffer !! Index) in
      let! t := deref (mCrcTable !! Z.to_nat (Z.lxor (u8 Crc) b)) in
      Crc_loop Buffer Length (S Index) (Z.lxor (Z.shiftr Crc 8) t)
  end.

Definition CalculateCrc32 (Address : Z) (Buffer : list Z) (Length : Z)
    : result Z :=
  do! ASSERT (negb (Address =? 0));;
  do! ASSERT (Length <=? wrap (width UINTN) (MAX_ADDRESS - Address + 1));;
  let! Crc := Crc_loop Buffer (Z.to_nat Length) 0 0xffffffff in
  Ok (Z.lxor Crc 0xffffffff).

End CheckSum.
End CheckSum.

(** * Sums and checksums *)

Section Theorems.
Context `{Machine}.
Import CheckSum.

Definition total (l : list Z) : Z := foldr Z.add 0 l.

Lemma total_app l k : total (l ++ k) = total l + total k.
Proof. induction l as [|x l IH]; simpl; lia. Qed.

Lemma Sum_loop_Ok w l n i s :
  0 <= w -> (i + n <= length l)%nat -> wrap w s = s ->
  Sum_loop w l n i s = Ok (wrap w (s + total (take n (drop i l)))).
Proof.
  intros Hw. revert i s. induction n as [|n IH]; intros i s Hl Hs.
  { simpl. by rewrite Z.add_0_r, Hs. }
  cbn [Sum_loop]. destruct (lookup_lt_is_Some_2 l i) as [v Hv]; [lia|].
  rewrite Hv. cbn [deref mbind result_bind].
  rewrite (drop_S l v i Hv). cbn [take total foldr]. fold (total (take n (drop (S i) l))).
  rewrite IH by (lia || by apply wrap_wrap). f_equal. unfold wrap.
  rewrite Z.add_mod_idemp_l by (pose proof (Z.pow_pos_nonneg 2 w); lia).
  f_equal. lia.
Qed.

(** The four pairs of functions: width, sum, checksum. *)
Definition checksums : list
  (Z * (Z -> list Z -> Z -> result Z) * (Z -> list Z -> Z -> result Z)) :=
  [(8, CalculateSum8, CalculateCheckSum8);
   (16, CalculateSum16, CalculateCheckSum16);
   (32, CalculateSum32, CalculateCheckSum32);
   (64, CalculateSum64, CalculateCheckSum64)].

(** A buffer of whole values of [w] bits, at an aligned address, that ends
    inside the address space. *)
Definition buffer_ok (w Address : Z) (Buffer : list Z) (Length : Z) : Prop :=
  0 < Address <= MAX_ADDRESS /\ Address mod (w / 8) = 0 /\
  Length = w / 8 * Z.of_nat (length Buffer) /\
  Length <= MAX_ADDRESS - Address + 1.

Lemma address_guard a n :
  0 < a <= MAX_ADDRESS -> n <= MAX_ADDRESS - a + 1 ->
  (a =? 0) = false /\
  (n <=? wrap (width UINTN) (MAX_ADDRESS - a + 1)) = true.
Proof.
  intros Ha Hn. unfold MAX_ADDRESS, max_of in *. cbn [signed UINTN] in *.
  rewrite wrap_small by lia. bool_to_prop. lia.
Qed.

Lemma land_mask a k : 0 <= k -> Z.land a (2 ^ k - 1) = a mod 2 ^ k.
Proof.
  intros Hk. replace (2 ^ k - 1) with (Z.ones k) by (rewrite Z.ones_equiv; lia).
  by apply Z.land_ones.
Qed.

Lemma sum_all w l :
  0 <= w -> Sum_loop w l (length l) 0 0 = Ok (wrap w (total l)).
Proof.
  intros Hw. rewrite Sum_loop_Ok by (done || lia). by rewrite drop_0, firstn_all.
Qed.

Lemma guarded_sum8 a l n :
  buffer_ok 8 a l n -> CalculateSum8 a l n = Ok (u8 (total l)).
Proof.
  intros (Ha & _ & Hn & Hend). destruct (address_guard a n Ha Hend) as [E1 E2].
  unfold CalculateSum8. rewrite E1. cbn [ASSERT negb mbind result_bind].
  rewrite E2. cbn [ASSERT mbind result_bind].
  change (8 / 8) with 1 in Hn. replace (Z.to_nat n) with (length l) by lia.
  by apply sum_all.
Qed.

(** The body that the wider sums share. *)
Lemma guarded_sum w k a l n :
  0 <= w -> 0 <= k -> w / 8 = 2 ^ k -> buffer_ok w a l n ->
  (do! ASSERT (negb (a =? 0));;
   do! ASSERT (Z.land a (2 ^ k - 1) =? 0);;
   do! ASSERT (Z.land n (2 ^ k - 1) =? 0);;
   do! ASSERT (n <=? wrap (width UINTN) (MAX_ADDRESS - a + 1));;
   Sum_loop w l (Z.to_nat (n / 2 ^ k)) 0 0) = Ok (wrap w (total l)).
Proof.
  intros Hw Hk E (Ha & Hmod & Hn & Hend). rewrite E in *.
  destruct (address_guard a n Ha Hend) as [E1 E2].
  pose proof (Z.pow_pos_nonneg 2 k).
  rewrite E1, !land_mask, Hmod by done. rewrite E2, Hn, (Z.mul_comm (2 ^ k)).
  rewrite Z.mod_mul, Z.div_mul, Nat2Z.id by lia. simpl. by apply sum_all.
Qed.

Lemma sums_Ok w Sum CheckSum a l n :
  In (w, Sum, CheckSum) checksums -> buffer_ok w a l n ->
  0 < w /\ 0 < w / 8 /\ Sum a l n = Ok (wrap w (total l)) /\
  CheckSum a l n = Ok (wrap w (- wrap w (total l))).
Proof.
  intros Hin Hb.
  assert (forall k x, wrap k (2 ^ k - x) = wrap k (- x)) as Hneg.
  { intros k x. unfold wrap. replace (2 ^ k - x) with (- x + 1 * 2 ^ k) by lia.
    by rewrite Z_mod_plus_full. }
  destruct Hin as [[= <- <- <-]|[[= <- <- <-]|[[= <- <- <-]|[[= <- <- <-]|[]]]]].
  - pose proof (guarded_sum8 a l n Hb) as E. split_and!; [done..|].
    unfold CalculateCheckSum8. rewrite E. cbn [mbind result_bind]. apply f_equal, (Hneg 8).
  - pose proof (guarded_sum 16 1 a l n ltac:(done) ltac:(done) eq_refl Hb
      : CalculateSum16 a l n = _) as E. split_and!; [done..|].
    unfold CalculateCheckSum16. rewrite E. cbn [mbind result_bind]. apply f_equal, (Hneg 16).
  - pose proof (guarded_sum 32 2 a l n ltac:(done) ltac:(done) eq_refl Hb
      : CalculateSum32 a l n = _) as E. split_and!; [done..|].
    unfold CalculateCheckSum32. rewrite E. cbn [mbind result_bind].
    rewrite <-Hneg. apply f_equal. change (cast UINT32 (-1)) with (2 ^ 32 - 1).
    f_equal. lia.
  - pose proof (guarded_sum 64 3 a l n ltac:(done) ltac:(done) eq_refl Hb
      : CalculateSum64 a l n = _) as E. split_and!; [done..|].
    unfold CalculateCheckSum64. rewrite E. cbn [mbind result_bind].
    rewrite <-Hneg. apply f_equal. change (cast UINT64 (-1)) with (2 ^ 64 - 1).
    f_equal. lia.
Qed.

Lemma total_insert l k x y :
  l !! k = Some x -> total (<[k := y]> l) = total l - x + y.
Proof.
  revert k. induction l as [|z l IH]; intros [|k] Hk; simpl in *; simplify_eq;
    [lia|]. rewrite (IH k) by done. lia.
Qed.

(** For every width, the sum of an aligned buffer is the sum of its
    values modulo [2^w]; the checksum is the value that, stored in a slot of
    the buffer that held 0 when it was computed (the Checksum field of a
    table), makes the sum of the whole buffer 0. *)
Theorem CheckSum_zeroes_sum w Sum CheckSum Address Buffer Length :
  In (w, Sum, CheckSum) checksums -> buffer_ok w Address Buffer Length ->
  Sum Address Buffer Length = Ok (total Buffer mod 2 ^ w) /\
  exists c,
    CheckSum Address Buffer Length = Ok c /\ 0 <= c < 2 ^ w /\
    forall k, Buffer !! k = Some 0 ->
      Sum Address (<[k := c]> Buffer) Length = Ok 0.
Proof.
  intros Hin Hb. destruct (sums_Ok w Sum CheckSum _ _ _ Hin Hb) as (Hw & _ & Es & Ec).
  split; [done|]. exists (wrap w (- wrap w (total Buffer))).
  split_and!; [done|apply wrap_bounds; lia|apply wrap_bounds; lia|].
  intros k Hk.
  destruct (sums_Ok w Sum CheckSum Address (<[k := wrap w (- wrap w (total Buffer))]> Buffer)
    Length Hin) as (_ & _ & -> & _).
  { unfold buffer_ok in *. by rewrite length_insert. }
  rewrite (total_insert _ _ _ _ Hk). f_equal. unfold wrap.
  rewrite Z.sub_0_r, Zplus_mod_idemp_r.
  pose proof (Z.div_mod (total Buffer) (2 ^ w)) as Hd.
  pose proof (Z.pow_pos_nonneg 2 w).
  replace (total Buffer + _) with (total Buffer / 2 ^ w * 2 ^ w) by lia.
  apply Z.mod_mul. lia.
Qed.

(** * CRC-32 *)

(** The reference: one step per bit, with the reflected polynomial. *)
Definition crc_bit (c : Z) : Z :=
  if Z.odd c then Z.lxor (Z.shiftr c 1) 0xEDB88320 else Z.shiftr c 1.
Definition crc_byte (c : Z) : Z := Nat.iter 8 crc_bit c.
Definition crc_bytes (l : list Z) (c : Z) : Z :=
  fold_left (fun c b => crc_byte (Z.lxor c b)) l c.
Definition crc32 (l : list Z) : Z :=
  Z.lxor (crc_bytes l 0xffffffff) 0xffffffff.

Definition is_byte (b : Z) : Prop := 0 <= b < 256.

Lemma crc_bit_lxor a b : crc_bit (Z.lxor a b) = Z.lxor (crc_bit a) (crc_bit b).
Proof.
  unfold crc_bit. rewrite <-!Z.bit0_odd, Z.lxor_spec, Z.shiftr_lxor.
  apply Z.bits_inj'. intros i Hi.
  destruct (Z.testbit a 0), (Z.testbit b 0); simpl; rewrite !Z.lxor_spec;
    destruct (Z.testbit _ i), (Z.testbit (Z.shiftr b 1) i); simpl; try done;
    by destruct (Z.testbit 3988292384 i).
Qed.

Lemma crc_byte_lxor a b :
  crc_byte (Z.lxor a b) = Z.lxor (crc_byte a) (crc_byte b).
Proof. unfold crc_byte. simpl. by rewrite !crc_bit_lxor. Qed.

(** Bits that enter at the top leave unchanged. *)
Lemma crc_byte_shiftl x : crc_byte (Z.shiftl x 8) = x.
Proof.
  assert (forall n, Nat.iter n crc_bit (Z.shiftl x (Z.of_nat n)) = x) as Hn;
    [|apply (Hn 8%nat)].
  induction n as [|n IH]; [apply Z.shiftl_0_r|].
  rewrite Nat.iter_succ_r. rewrite <-IH at 2. f_equal. unfold crc_bit.
  rewrite <-Z.bit0_odd, Z.shiftl_spec_low by lia.
  rewrite Z.shiftr_shiftl_l by lia. f_equal. lia.
Qed.

Lemma split_byte x : x = Z.lxor (Z.land x 255) (Z.shiftl (Z.shiftr x 8) 8).
Proof.
  apply Z.bits_inj'. intros i Hi. change 255 with (Z.ones 8).
  rewrite Z.lxor_spec, Z.land_spec, Z.testbit_ones_nonneg, Z.shiftl_spec by lia.
  destruct (Z.ltb_spec i 8).
  - by rewrite (Z.testbit_neg_r _ (i - 8)), andb_true_r, xorb_false_r by lia.
  - rewrite Z.shiftr_spec, andb_false_r by lia. simpl. f_equal. lia.
Qed.

Lemma lxor_bound w x y :
  0 <= w -> 0 <= x < 2 ^ w -> 0 <= y < 2 ^ w -> 0 <= Z.lxor x y < 2 ^ w.
Proof.
  intros Hw Hx Hy. apply word_bound; [done|apply Z.lxor_nonneg; lia|].
  intros i Hi. by rewrite Z.lxor_spec, (testbit_above w x), (testbit_above w y).
Qed.

Lemma mCrcTable_lookup i :
  is_byte i -> mCrcTable !! Z.to_nat i = Some (crc_byte i).
Proof.
  intros Hi. assert (mCrcTable = crc_byte <$> seqZ 0 256) as -> by by vm_compute.
  rewrite list_lookup_fmap. unfold is_byte in Hi.
  rewrite (proj2 (lookup_seqZ 0 256 (Z.to_nat i) i)) by lia. done.
Qed.

(** A table step is eight steps of the reference. *)
Lemma crc_step c b :
  is_byte b ->
  is_byte (Z.lxor (u8 c) b) /\
  crc_byte (Z.lxor c b) =
  Z.lxor (Z.shiftr c 8) (crc_byte (Z.lxor (u8 c) b)).
Proof.
  intros Hb. split.
  { apply (lxor_bound 8); [done|apply wrap_bounds; done|done]. }
  assert (Z.shiftr b 8 = 0) as Hb8.
  { rewrite Z.shiftr_div_pow2 by done. by apply Z.div_small. }
  assert (Z.land b 255 = b) as Hbl.
  { change 255 with (Z.ones 8). rewrite Z.land_ones by done. by apply Z.mod_small. }
  rewrite (split_byte (Z.lxor c b)), crc_byte_lxor, crc_byte_shiftl.
  rewrite Z.shiftr_lxor, Hb8, Z.lxor_0_r.
  rewrite (Z.lxor_comm _ (Z.shiftr c 8)). do 2 f_equal.
  apply Z.bits_inj'. intros i Hi. change 255 with (Z.ones 8).
  rewrite Z.land_spec, !Z.lxor_spec, testbit_wrap by lia.
  rewrite Z.testbit_ones_nonneg by lia. destruct (Z.ltb_spec i 8).
  - by rewrite andb_true_r.
  - rewrite (testbit_above 8 b) by (done || lia). by rewrite andb_false_r.
Qed.

Lemma Crc_loop_Ok l n i c :
  Forall is_byte l -> (i + n <= length l)%nat ->
  Crc_loop l n i c = Ok (crc_bytes (take n (drop i l)) c).
Proof.
  intros Hl. revert i c. induction n as [|n IH]; intros i c Hn; [done|].
  destruct (lookup_lt_is_Some_2 l i) as [b Hb]; [lia|].
  assert (is_byte b) as Hbb by (by eapply Forall_lookup_1).
  destruct (crc_step c b Hbb) as [Hx Hs].
  cbn [Crc_loop]. rewrite Hb. cbn [deref mbind result_bind].
  rewrite mCrcTable_lookup by done. cbn [deref mbind result_bind].
  rewrite IH by lia. rewrite (drop_S l b i Hb). unfold crc_bytes.
  cbn [take fold_left]. by rewrite Hs.
Qed.

(** C30: [CalculateCrc32], which looks up a table of 256 constants once per
    byte, computes the CRC-32 of the buffer as it is defined bit by bit. *)
Theorem CalculateCrc32_reference Address Buffer Length :
  0 < Address <= MAX_ADDRESS -> Forall is_byte Buffer ->
  0 <= Length <= Z.of_nat (length Buffer) ->
  Length <= MAX_ADDRESS - Address + 1 ->
  CalculateCrc32 Address Buffer Length =
  Ok (crc32 (take (Z.to_nat Length) Buffer)).
Proof.
  intros Ha Hb Hl Hend. destruct (address_guard _ _ Ha Hend) as [E1 E2].
  unfold CalculateCrc32. rewrite E1. cbn [negb ASSERT mbind result_bind].
  rewrite E2. cbn [ASSERT mbind result_bind].
  rewrite Crc_loop_Ok by (done || lia). done.
Qed.

(** ** Error detection *)

Lemma crc_bit_bound c : 0 <= c < 2 ^ 32 -> 0 <= crc_bit c < 2 ^ 32.
Proof.
  intros Hc. unfold crc_bit. rewrite Z.shiftr_div_pow2 by lia.
  change (2 ^ 1) with 2.
  destruct (Z.odd c); [apply lxor_bound|]; Z.to_euclidean_division_equations; lia.
Qed.

(** The step loses nothing: its top bit tells whether the polynomial was
    added. *)
Lemma crc_bit_nonzero c : 0 < c < 2 ^ 32 -> crc_bit c <> 0.
Proof.
  intros Hc. unfold crc_bit. rewrite Z.shiftr_div_pow2 by lia.
  change (2 ^ 1) with 2. destruct (Z.odd c) eqn:Ho; intros E.
  - apply Z.lxor_eq in E. Z.to_euclidean_division_equations. lia.
  - assert (c < 2) by (Z.to_euclidean_division_equations; lia).
    by assert (c = 1) as -> by lia.
Qed.

Lemma iter_crc_bit_nonzero n c :
  0 < c < 2 ^ 32 -> 0 < Nat.iter n crc_bit c < 2 ^ 32.
Proof.
  intros Hc. induction n as [|n IH]; [done|]. simpl.
  pose proof (crc_bit_nonzero _ IH). pose proof (crc_bit_bound (Nat.iter n crc_bit c)).
  lia.
Qed.

Lemma crc_byte_nonzero c : 0 < c < 2 ^ 32 -> 0 < crc_byte c < 2 ^ 32.
Proof. apply (iter_crc_bit_nonzero 8). Qed.

(** The bytes of a list as one little-endian number. *)
Fixpoint le_word (l : list Z) : Z :=
  match l with
  | [] => 0
  | b :: l => Z.lxor b (Z.shiftl (le_word l) 8)
  end.

Lemma crc_bytes_word l c :
  crc_bytes l c = Nat.iter (length l) crc_byte (Z.lxor c (le_word l)).
Proof.
  revert c. induction l as [|b l IH]; intros c; cbn [le_word length].
  { by rewrite Z.lxor_0_r. }
  unfold crc_bytes in *. cbn [fold_left]. rewrite IH.
  rewrite <-(crc_byte_shiftl (le_word l)) at 1.
  rewrite <-crc_byte_lxor, <-Nat.iter_succ_r, Z.lxor_assoc. done.
Qed.

Lemma crc_bytes_lxor l c d :
  crc_bytes l (Z.lxor c d) =
  Z.lxor (crc_bytes l c) (Nat.iter (length l) crc_byte d).
Proof.
  rewrite !crc_bytes_word. rewrite Z.lxor_assoc, (Z.lxor_comm d), <-Z.lxor_assoc.
  generalize (Z.lxor c (le_word l)) (length l). intros x n.
  induction n as [|n IH]; [done|]. simpl. by rewrite IH, crc_byte_lxor.
Qed.

Lemma le_word_bound l :
  Forall is_byte l -> 0 <= le_word l < 2 ^ (8 * Z.of_nat (length l)).
Proof.
  induction 1 as [|b l Hb Hl IH]; [done|]. cbn [le_word length].
  rewrite Nat2Z.inj_succ. unfold is_byte in Hb.
  pose proof (Z.pow_pos_nonneg 2 (8 * Z.of_nat (length l))).
  assert (2 ^ (8 * Z.succ (Z.of_nat (length l))) =
          256 * 2 ^ (8 * Z.of_nat (length l))) as Hp.
  { change 256 with (2 ^ 8). rewrite <-Z.pow_add_r by lia. f_equal. lia. }
  apply lxor_bound; [lia|lia|]. rewrite Z.shiftl_mul_pow2 by lia.
  change (2 ^ 8) with 256. lia.
Qed.

Lemma le_word_inj l k :
  Forall is_byte l -> Forall is_byte k -> length l = length k ->
  le_word l = le_word k -> l = k.
Proof.
  intros Hl. revert k. induction Hl as [|b l Hb Hl IH]; intros [|d k] Hk Hlen E;
    try done. inversion Hk as [|?? Hd Hk']. subst. cbn [le_word] in E.
  assert (forall x y, is_byte x ->
    Z.lxor x (Z.shiftl y 8) mod 2 ^ 8 = x /\
    Z.lxor x (Z.shiftl y 8) / 2 ^ 8 = y) as Hsp.
  { intros x y Hx. rewrite <-Z.shiftr_div_pow2, <-Z.land_ones by lia.
    assert (Z.shiftr x 8 = 0) as Hx8.
    { rewrite Z.shiftr_div_pow2 by done. by apply Z.div_small. }
    rewrite Z.shiftr_lxor, Hx8, Z.lxor_0_l.
    rewrite Z.shiftr_shiftl_l, Z.shiftl_0_r by lia. split; [|done].
    apply Z.bits_inj'. intros i Hi.
    rewrite Z.land_spec, Z.lxor_spec, Z.testbit_ones_nonneg by lia.
    destruct (Z.ltb_spec i 8).
    - by rewrite Z.shiftl_spec_low, xorb_false_r, andb_true_r by lia.
    - by rewrite (testbit_above 8 x), andb_false_r by (done || lia). }
  destruct (Hsp b (le_word l) Hb) as [E1 E2], (Hsp d (le_word k) Hd) as [E3 E4].
  rewrite E, E3 in E1. rewrite E, E4 in E2. subst d. f_equal.
  apply IH; [done|simpl in Hlen; lia|done].
Qed.

(** The CRC detects every change of a message that is confined to four
    consecutive bytes. *)
Theorem Crc32_detects_bursts pre m m' post :
  Forall is_byte m -> Forall is_byte m' ->
  length m = length m' -> (length m <= 4)%nat -> m <> m' ->
  crc32 (pre ++ m ++ post) <> crc32 (pre ++ m' ++ post).
Proof.
  intros Hm Hm' Hlen H4 Hne E. unfold crc32 in E.
  apply (f_equal (fun x => Z.lxor x 0xffffffff)) in E.
  rewrite !Z.lxor_assoc, Z.lxor_nilpotent, !Z.lxor_0_r in E.
  unfold crc_bytes in E. rewrite !fold_left_app in E.
  fold (crc_bytes pre 0xffffffff) in E. set (c := crc_bytes pre _) in E.
  fold (crc_bytes m c) (crc_bytes m' c) in E.
  fold (crc_bytes post (crc_bytes m c)) (crc_bytes post (crc_bytes m' c)) in E.
  set (w := Z.lxor (le_word m) (le_word m')).
  assert (0 < w < 2 ^ 32) as Hw.
  { pose proof (le_word_bound m Hm). pose proof (le_word_bound m' Hm').
    assert (2 ^ (8 * Z.of_nat (length m)) <= 2 ^ 32)
      by (apply Z.pow_le_mono_r; lia).
    rewrite <-Hlen in *.
    assert (0 <= w < 2 ^ 32) by (apply lxor_bound; lia).
    destruct (Z.eq_dec w 0) as [Hw|]; [|lia].
    apply Z.lxor_eq in Hw. destruct Hne. by apply le_word_inj. }
  assert (crc_bytes m c = Z.lxor (crc_bytes m' c)
            (Nat.iter (length m') crc_byte w)) as Ed.
  { rewrite <-crc_bytes_lxor, !crc_bytes_word, Hlen. f_equal. unfold w.
    rewrite Z.lxor_assoc, (Z.lxor_comm (Z.lxor (le_word m) _)),
      (Z.lxor_comm (le_word m)), <-(Z.lxor_assoc (le_word m')),
      Z.lxor_nilpotent, Z.lxor_0_l. done. }
  rewrite Ed, crc_bytes_lxor in E.
  apply (f_equal (Z.lxor (crc_bytes post (crc_bytes m' c)))) in E.
  rewrite <-Z.lxor_assoc, Z.lxor_nilpotent, Z.lxor_0_l in E.
  rewrite <-Nat.iter_add in E.
  assert (forall n, 0 < Nat.iter n crc_byte w < 2 ^ 32) as Hpos.
  { intros n. induction n as [|n IH]; [done|]. simpl. by apply crc_byte_nonzero. }
  specialize (Hpos (length post + length m')%nat). lia.
Qed.

End Theorems.

(** * Witnesses *)

Module CheckSumWitness.
Import CheckSum.

#[local] Existing Instance X64.

Lemma CheckSum_zeroes_sum_witness :
  exists c,
    CalculateCheckSum8 0x1000 [1; 0; 3] 3 = Ok c /\
    CalculateSum8 0x1000 [1; c; 3] 3 = Ok 0.
Proof.
  destruct (CheckSum_zeroes_sum 8 CalculateSum8 CalculateCheckSum8 0x1000 [1; 0; 3] 3)
    as (_ & c & E & _ & Hz).
  - left. reflexivity.
  - unfold buffer_ok. vm_compute. intuition congruence.
  - exists c. split; [exact E|]. exact (Hz 1%nat eq_refl).
Defined.

(** The check value of CRC-32: the digits [1] to [9]. *)
Lemma CalculateCrc32_reference_witness :
  CalculateCrc32 0x1000 (seqZ 49 9) 9 = Ok 0xCBF43926.
Proof.
  rewrite CalculateCrc32_reference.
  - vm_compute. reflexivity.
  - vm_compute. intuition congruence.
  - apply Forall_seqZ. unfold is_byte. intros. lia.
  - vm_compute. intuition congruence.
  - vm_compute. intuition congruence.
Defined.

Lemma Crc32_detects_bursts_witness :
  crc32 [1; 2; 3; 4; 5] <> crc32 [1; 9; 3; 8; 5].
Proof.
  apply (Crc32_detects_bursts [1] [2; 3; 4] [9; 3; 8] [5]).
  - repeat constructor; unfold is_byte; lia.
  - repeat constructor; unfold is_byte; lia.
  - reflexivity.
  - simpl. lia.
  - discriminate.
Defined.

End CheckSumWitness.
