(* ===== verification/SafeInt.v ===== *)
(** * SafeIntLib: the code

    MdePkg/Library/BaseSafeIntLib: conversions between the integer types and
    additions, subtractions and multiplications that report when the result
    does not fit (EFI_BUFFER_TOO_SMALL).  Module [SafeIntLib] is
    SafeIntLib.c; the functions on INTN and UINTN have one version per target,
    modules [SafeIntLib32], [SafeIntLib64] and [SafeIntLibEbc] (which tests
    the size of UINTN at run time).

    A function returns its status and what it stores through [Result]
    ([None]: nothing).  Arithmetic on signed types is [BadAccess] when it
    overflows. *)

From S2P Require Import Prelude.
From S2P Require Import CTypes.
From S2P Require Import BaseMath.

Import Math.

(** ** Constants of Base.h and SafeIntLib.h *)

Definition MAX_INT8 : Z := 0x7F.
Definition MAX_UINT8 : Z := 0xFF.
Definition MAX_INT16 : Z := 0x7FFF.
Definition MAX_UINT16 : Z := 0xFFFF.
Definition MAX_INT32 : Z := 0x7FFFFFFF.
Definition MAX_UINT32 : Z := 0xFFFFFFFF.
Definition MAX_INT64 : Z := 0x7FFFFFFFFFFFFFFF.
Definition MIN_INT8 : Z := -127 - 1.
Definition MIN_INT16 : Z := -32767 - 1.
Definition MIN_INT32 : Z := -2147483647 - 1.
Definition MIN_INT64 : Z := -9223372036854775807 - 1.

Definition INT8_ERROR : Z := cast INT8 (-1).
Definition UINT8_ERROR : Z := MAX_UINT8.
Definition INT16_ERROR : Z := cast INT16 (-1).
Definition UINT16_ERROR : Z := MAX_UINT16.
Definition INT32_ERROR : Z := cast INT32 (-1).
Definition UINT32_ERROR : Z := MAX_UINT32.
Definition INT64_ERROR : Z := cast INT64 (-1).
Definition UINT64_ERROR : Z := MAX_UINT64.

(** Status, and the value stored in [*Result]. *)
Definition outcome : Type := EFI_STATUS * option Z.

Section Machine.
Context `{Machine}.

Definition MAX_INTN : Z := max_of INTN.
Definition MAX_UINTN : Z := max_of UINTN.
Definition CHAR8_ERROR : Z := cast CHAR8 MAX_INT8.
Definition INTN_ERROR : Z := cast INTN (-1).
Definition UINTN_ERROR : Z := MAX_UINTN.

End Machine.

Module SafeIntLib.
Section SafeIntLib.
Context `{Machine}.

Definition MIN_INT64_MAGNITUDE : Z := u64 (cast UINT64 (- (MIN_INT64 + 1)) + 1).

(** ** Conversions *)

Definition SafeInt8ToUint8 (Operand : Z) (ResultIsNull : bool) : outcome :=
  if ResultIsNull then (EFI_INVALID_PARAMETER, None)
  else if Operand >=? 0
  then (EFI_SUCCESS, Some (cast UINT8 Operand))
  else (EFI_BUFFER_TOO_SMALL, Some UINT8_ERROR).

Definition SafeInt8ToChar8 (Operand : Z) (ResultIsNull : bool) : outcome :=
  if ResultIsNull then (EFI_INVALID_PARAMETER, None)
  else if Operand >=? 0
  then (EFI_SUCCESS, Some (cast CHAR8 Operand))
  else (EFI_BUFFER_TOO_SMALL, Some CHAR8_ERROR).

Definition SafeInt8ToUint16 (Operand : Z) (ResultIsNull : bool) : outcome :=
  if ResultIsNull then (EFI_INVALID_PARAMETER, None)
  else if Operand >=? 0
  then (EFI_SUCCESS, Some (cast UINT16 Operand))
  else (EFI_BUFFER_TOO_SMALL, Some UINT16_ERROR).

Definition SafeInt8ToUint32 (Operand : Z) (ResultIsNull : bool) : outcome :=
  if ResultIsNull then (EFI_INVALID_PARAMETER, None)
  else if Operand >=? 0
  then (EFI_SUCCESS, Some (cast UINT32 Operand))
  else (EFI_BUFFER_TOO_SMALL, Some UINT32_ERROR).

Definition SafeInt8ToUintn (Operand : Z) (ResultIsNull : bool) : outcome :=
  if ResultIsNull then (EFI_INVALID_PARAMETER, None)
  else if Operand >=? 0
  then (EFI_SUCCESS, Some (cast UINTN Operand))
  else (EFI_BUFFER_TOO_SMALL, Some UINTN_ERROR).

Definition SafeInt8ToUint64 (Operand : Z) (ResultIsNull : bool) : outcome :=
  if ResultIsNull then (EFI_INVALID_PARAMETER, None)
  else if Operand >=? 0
  then (EFI_SUCCESS, Some (cast UINT64 Operand))
  else (EFI_BUFFER_TOO_SMALL, Some UINT64_ERROR).

Definition SafeUint8ToInt8 (Operand : Z) (ResultIsNull : bool) : outcome :=
  if ResultIsNull then (EFI_INVALID_PARAMETER, None)
  else if Operand <=? MAX_INT8
  then (EFI_SUCCESS, Some (cast INT8 Operand))
  else (EFI_BUFFER_TOO_SMALL, Some INT8_ERROR).

Definition SafeUint8ToChar8 (Operand : Z) (ResultIsNull : bool) : outcome :=
  if ResultIsNull then (EFI_INVALID_PARAMETER, None)
  else if Operand <=? MAX_INT8
  then (EFI_SUCCESS, Some (cast CHAR8 Operand))
  else (EFI_BUFFER_TOO_SMALL, Some CHAR8_ERROR).

Definition SafeInt16ToInt8 (Operand : Z) (ResultIsNull : bool) : outcome :=
  if ResultIsNull then (EFI_INVALID_PARAMETER, None)
  else if (Operand >=? MIN_INT8) && (Operand <=? MAX_INT8)
  then (EFI_SUCCESS, Some (cast INT8 Operand))
  else (EFI_BUFFER_TOO_SMALL, Some INT8_ERROR).

Definition SafeInt16ToChar8 (Operand : Z) (ResultIsNull : bool) : outcome :=
  if ResultIsNull then (EFI_INVALID_PARAMETER, None)
  else if (Operand >=? 0) && (Operand <=? MAX_INT8)
  then (EFI_SUCCESS, Some (cast CHAR8 Operand))
  else (EFI_BUFFER_TOO_SMALL, Some CHAR8_ERROR).

Definition SafeInt16ToUint8 (Operand : Z) (ResultIsNull : bool) : outcome :=
  if ResultIsNull then (EFI_INVALID_PARAMETER, None)
  else if (Operand >=? 0) && (Operand <=? MAX_UINT8)
  then (EFI_SUCCESS, Some (cast UINT8 Operand))
  else (EFI_BUFFER_TOO_SMALL, Some UINT8_ERROR).

Definition SafeInt16ToUint16 (Operand : Z) (ResultIsNull : bool) : outcome :=
  if ResultIsNull then (EFI_INVALID_PARAMETER, None)
  else if Operand >=? 0
  then (EFI_SUCCESS, Some (cast UINT16 Operand))
  else (EFI_BUFFER_TOO_SMALL, Some UINT16_ERROR).

Definition SafeInt16ToUint32 (Operand : Z) (ResultIsNull : bool) : outcome :=
  if ResultIsNull then (EFI_INVALID_PARAMETER, None)
  else if Operand >=? 0
  then (EFI_SUCCESS, Some (cast UINT32 Operand))
  else (EFI_BUFFER_TOO_SMALL, Some UINT32_ERROR).

Definition SafeInt16ToUintn (Operand : Z) (ResultIsNull : bool) : outcome :=
  if ResultIsNull then (EFI_INVALID_PARAMETER, None)
  else if Operand >=? 0
  then (EFI_SUCCESS, Some (cast UINTN Operand))
  else (EFI_BUFFER_TOO_SMALL, Some UINTN_ERROR).

Definition SafeInt16ToUint64 (Operand : Z) (ResultIsNull : bool) : outcome :=
  if ResultIsNull then (EFI_INVALID_PARAMETER, None)
  else if Operand >=? 0
  then (EFI_SUCCESS, Some (cast UINT64 Operand))
  else (EFI_BUFFER_TOO_SMALL, Some UINT64_ERROR).

Definition SafeUint16ToInt8 (Operand : Z) (ResultIsNull : bool) : outcome :=
  if ResultIsNull then (EFI_INVALID_PARAMETER, None)
  else if Operand <=? MAX_INT8
  then (EFI_SUCCESS, Some (cast INT8 Operand))
  else (EFI_BUFFER_TOO_SMALL, Some INT8_ERROR).

Definition SafeUint16ToChar8 (Operand : Z) (ResultIsNull : bool) : outcome :=
  if ResultIsNull then (EFI_INVALID_PARAMETER, None)
  else if Operand <=? MAX_INT8
  then (EFI_SUCCESS, Some (cast INT8 Operand))
  else (EFI_BUFFER_TOO_SMALL, Some CHAR8_ERROR).

Definition SafeUint16ToUint8 (Operand : Z) (ResultIsNull : bool) : outcome :=
  if ResultIsNull then (EFI_INVALID_PARAMETER, None)
  else if Operand <=? MAX_UINT8
  then (EFI_SUCCESS, Some (cast UINT8 Operand))
  else (EFI_BUFFER_TOO_SMALL, Some UINT8_ERROR).

Definition SafeUint16ToInt16 (Operand : Z) (ResultIsNull : bool) : outcome :=
  if ResultIsNull then (EFI_INVALID_PARAMETER, None)
  else if Operand <=? MAX_INT16
  then (EFI_SUCCESS, Some (cast INT16 Operand))
  else (EFI_BUFFER_TOO_SMALL, Some INT16_ERROR).

Definition SafeInt32ToInt8 (Operand : Z) (ResultIsNull : bool) : outcome :=
  if ResultIsNull then (EFI_INVALID_PARAMETER, None)
  else if (Operand >=? MIN_INT8) && (Operand <=? MAX_INT8)
  then (EFI_SUCCESS, Some (cast INT8 Operand))
  else (EFI_BUFFER_TOO_SMALL, Some INT8_ERROR).

Definition SafeInt32ToChar8 (Operand : Z) (ResultIsNull : bool) : outcome :=
  if ResultIsNull then (EFI_INVALID_PARAMETER, None)
  else if (Operand >=? 0) && (Operand <=? MAX_INT8)
  then (EFI_SUCCESS, Some (cast CHAR8 Operand))
  else (EFI_BUFFER_TOO_SMALL, Some CHAR8_ERROR).

Definition SafeInt32ToUint8 (Operand : Z) (ResultIsNull : bool) : outcome :=
  if ResultIsNull then (EFI_INVALID_PARAMETER, None)
  else if (Operand >=? 0) && (Operand <=? MAX_UINT8)
  then (EFI_SUCCESS, Some (cast UINT8 Operand))
  else (EFI_BUFFER_TOO_SMALL, Some UINT8_ERROR).

Definition SafeInt32ToInt16 (Operand : Z) (ResultIsNull : bool) : outcome :=
  if ResultIsNull then (EFI_INVALID_PARAMETER, None)
  else if (Operand >=? MIN_INT16) && (Operand <=? MAX_INT16)
  then (EFI_SUCCESS, Some (cast INT16 Operand))
  else (EFI_BUFFER_TOO_SMALL, Some INT16_ERROR).

Definition SafeInt32ToUint16 (Operand : Z) (ResultIsNull : bool) : outcome :=
  if ResultIsNull then (EFI_INVALID_PARAMETER, None)
  else if (Operand >=? 0) && (Operand <=? MAX_UINT16)
  then (EFI_SUCCESS, Some (cast UINT16 Operand))
  else (EFI_BUFFER_TOO_SMALL, Some UINT16_ERROR).

Definition SafeInt32ToUint32 (Operand : Z) (ResultIsNull : bool) : outcome :=
  if ResultIsNull then (EFI_INVALID_PARAMETER, None)
  else if Operand >=? 0
  then (EFI_SUCCESS, Some (cast UINT32 Operand))
  else (EFI_BUFFER_TOO_SMALL, Some UINT32_ERROR).

Definition SafeInt32ToUint64 (Operand : Z) (ResultIsNull : bool) : outcome :=
  if ResultIsNull then (EFI_INVALID_PARAMETER, None)
  else if Operand >=? 0
  then (EFI_SUCCESS, Some (cast UINT64 Operand))
  else (EFI_BUFFER_TOO_SMALL, Some UINT64_ERROR).

Definition SafeUint32ToInt8 (Operand : Z) (ResultIsNull : bool) : outcome :=
  if ResultIsNull then (EFI_INVALID_PARAMETER, None)
  else if Operand <=? MAX_INT8
  then (EFI_SUCCESS, Some (cast INT8 Operand))
  else (EFI_BUFFER_TOO_SMALL, Some INT8_ERROR).

Definition SafeUint32ToChar8 (Operand : Z) (ResultIsNull : bool) : outcome :=
  if ResultIsNull then (EFI_INVALID_PARAMETER, None)
  else if Operand <=? MAX_INT8
  then (EFI_SUCCESS, Some (cast INT8 Operand))
  else (EFI_BUFFER_TOO_SMALL, Some CHAR8_ERROR).

Definition SafeUint32ToUint8 (Operand : Z) (ResultIsNull : bool) : outcome :=
  if ResultIsNull then (EFI_INVALID_PARAMETER, None)
  else if Operand <=? MAX_UINT8
  then (EFI_SUCCESS, Some (cast UINT8 Operand))
  else (EFI_BUFFER_TOO_SMALL, Some UINT8_ERROR).

Definition SafeUint32ToInt16 (Operand : Z) (ResultIsNull : bool) : outcome :=
  if ResultIsNull then (EFI_INVALID_PARAMETER, None)
  else if Operand <=? MAX_INT16
  then (EFI_SUCCESS, Some (cast INT16 Operand))
  else (EFI_BUFFER_TOO_SMALL, Some INT16_ERROR).

Definition SafeUint32ToUint16 (Operand : Z) (ResultIsNull : bool) : outcome :=
  if ResultIsNull then (EFI_INVALID_PARAMETER, None)
  else if Operand <=? MAX_UINT16
  then (EFI_SUCCESS, Some (cast UINT16 Operand))
  else (EFI_BUFFER_TOO_SMALL, Some UINT16_ERROR).

Definition SafeUint32ToInt32 (Operand : Z) (ResultIsNull : bool) : outcome :=
  if ResultIsNull then (EFI_INVALID_PARAMETER, None)
  else if Operand <=? MAX_INT32
  then (EFI_SUCCESS, Some (cast INT32 Operand))
  else (EFI_BUFFER_TOO_SMALL, Some INT32_ERROR).

Definition SafeIntnToInt8 (Operand : Z) (ResultIsNull : bool) : outcome :=
  if ResultIsNull then (EFI_INVALID_PARAMETER, None)
  else if (Operand >=? MIN_INT8) && (Operand <=? MAX_INT8)
  then (EFI_SUCCESS, Some (cast INT8 Operand))
  else (EFI_BUFFER_TOO_SMALL, Some INT8_ERROR).

Definition SafeIntnToChar8 (Operand : Z) (ResultIsNull : bool) : outcome :=
  if ResultIsNull then (EFI_INVALID_PARAMETER, None)
  else if (Operand >=? 0) && (Operand <=? MAX_INT8)
  then (EFI_SUCCESS, Some (cast CHAR8 Operand))
  else (EFI_BUFFER_TOO_SMALL, Some CHAR8_ERROR).

Definition SafeIntnToUint8 (Operand : Z) (ResultIsNull : bool) : outcome :=
  if ResultIsNull then (EFI_INVALID_PARAMETER, None)
  else if (Operand >=? 0) && (Operand <=? MAX_UINT8)
  then (EFI_SUCCESS, Some (cast UINT8 Operand))
  else (EFI_BUFFER_TOO_SMALL, Some UINT8_ERROR).

Definition SafeIntnToInt16 (Operand : Z) (ResultIsNull : bool) : outcome :=
  if ResultIsNull then (EFI_INVALID_PARAMETER, None)
  else if (Operand >=? MIN_INT16) && (Operand <=? MAX_INT16)
  then (EFI_SUCCESS, Some (cast INT16 Operand))
  else (EFI_BUFFER_TOO_SMALL, Some INT16_ERROR).

Definition SafeIntnToUint16 (Operand : Z) (ResultIsNull : bool) : outcome :=
  if ResultIsNull then (EFI_INVALID_PARAMETER, None)
  else if (Operand >=? 0) && (Operand <=? MAX_UINT16)
  then (EFI_SUCCESS, Some (cast UINT16 Operand))
  else (EFI_BUFFER_TOO_SMALL, Some UINT16_ERROR).

Definition SafeIntnToUintn (Operand : Z) (ResultIsNull : bool) : outcome :=
  if ResultIsNull then (EFI_INVALID_PARAMETER, None)
  else if Operand >=? 0
  then (EFI_SUCCESS, Some (cast UINTN Operand))
  else (EFI_BUFFER_TOO_SMALL, Some UINTN_ERROR).

Definition SafeIntnToUint64 (Operand : Z) (ResultIsNull : bool) : outcome :=
  if ResultIsNull then (EFI_INVALID_PARAMETER, None)
  else if Operand >=? 0
  then (EFI_SUCCESS, Some (cast UINT64 Operand))
  else (EFI_BUFFER_TOO_SMALL, Some UINT64_ERROR).

Definition SafeUintnToInt8 (Operand : Z) (ResultIsNull : bool) : outcome :=
  if ResultIsNull then (EFI_INVALID_PARAMETER, None)
  else if Operand <=? MAX_INT8
  then (EFI_SUCCESS, Some (cast INT8 Operand))
  else (EFI_BUFFER_TOO_SMALL, Some INT8_ERROR).

Definition SafeUintnToChar8 (Operand : Z) (ResultIsNull : bool) : outcome :=
  if ResultIsNull then (EFI_INVALID_PARAMETER, None)
  else if Operand <=? MAX_INT8
  then (EFI_SUCCESS, Some (cast INT8 Operand))
  else (EFI_BUFFER_TOO_SMALL, Some CHAR8_ERROR).

Definition SafeUintnToUint8 (Operand : Z) (ResultIsNull : bool) : outcome :=
  if ResultIsNull then (EFI_INVALID_PARAMETER, None)
  else if Operand <=? MAX_UINT8
  then (EFI_SUCCESS, Some (cast UINT8 Operand))
  else (EFI_BUFFER_TOO_SMALL, Some UINT8_ERROR).

Definition SafeUintnToInt16 (Operand : Z) (ResultIsNull : bool) : outcome :=
  if ResultIsNull then (EFI_INVALID_PARAMETER, None)
  else if Operand <=? MAX_INT16
  then (EFI_SUCCESS, Some (cast INT16 Operand))
  else (EFI_BUFFER_TOO_SMALL, Some INT16_ERROR).

Definition SafeUintnToUint16 (Operand : Z) (ResultIsNull : bool) : outcome :=
  if ResultIsNull then (EFI_INVALID_PARAMETER, None)
  else if Operand <=? MAX_UINT16
  then (EFI_SUCCESS, Some (cast UINT16 Operand))
  else (EFI_BUFFER_TOO_SMALL, Some UINT16_ERROR).

Definition SafeUintnToInt32 (Operand : Z) (ResultIsNull : bool) : outcome :=
  if ResultIsNull then (EFI_INVALID_PARAMETER, None)
  else if Operand <=? MAX_INT32
  then (EFI_SUCCESS, Some (cast INT32 Operand))
  else (EFI_BUFFER_TOO_SMALL, Some INT32_ERROR).

Definition SafeUintnToIntn (Operand : Z) (ResultIsNull : bool) : outcome :=
  if ResultIsNull then (EFI_INVALID_PARAMETER, None)
  else if Operand <=? MAX_INTN
  then (EFI_SUCCESS, Some (cast INTN Operand))
  else (EFI_BUFFER_TOO_SMALL, Some INTN_ERROR).

Definition SafeInt64ToInt8 (Operand : Z) (ResultIsNull : bool) : outcome :=
  if ResultIsNull then (EFI_INVALID_PARAMETER, None)
  else if (Operand >=? MIN_INT8) && (Operand <=? MAX_INT8)
  then (EFI_SUCCESS, Some (cast INT8 Operand))
  else (EFI_BUFFER_TOO_SMALL, Some INT8_ERROR).

Definition SafeInt64ToChar8 (Operand : Z) (ResultIsNull : bool) : outcome :=
  if ResultIsNull then (EFI_INVALID_PARAMETER, None)
  else if (Operand >=? 0) && (Operand <=? MAX_INT8)
  then (EFI_SUCCESS, Some (cast CHAR8 Operand))
  else (EFI_BUFFER_TOO_SMALL, Some CHAR8_ERROR).

Definition SafeInt64ToUint8 (Operand : Z) (ResultIsNull : bool) : outcome :=
  if ResultIsNull then (EFI_INVALID_PARAMETER, None)
  else if (Operand >=? 0) && (Operand <=? MAX_UINT8)
  then (EFI_SUCCESS, Some (cast UINT8 Operand))
  else (EFI_BUFFER_TOO_SMALL, Some UINT8_ERROR).

Definition SafeInt64ToInt16 (Operand : Z) (ResultIsNull : bool) : outcome :=
  if ResultIsNull then (EFI_INVALID_PARAMETER, None)
  else if (Operand >=? MIN_INT16) && (Operand <=? MAX_INT16)
  then (EFI_SUCCESS, Some (cast INT16 Operand))
  else (EFI_BUFFER_TOO_SMALL, Some INT16_ERROR).

Definition SafeInt64ToUint16 (Operand : Z) (ResultIsNull : bool) : outcome :=
  if ResultIsNull then (EFI_INVALID_PARAMETER, None)
  else if (Operand >=? 0) && (Operand <=? MAX_UINT16)
  then (EFI_SUCCESS, Some (cast UINT16 Operand))
  else (EFI_BUFFER_TOO_SMALL, Some UINT16_ERROR).

Definition SafeInt64ToInt32 (Operand : Z) (ResultIsNull : bool) : outcome :=
  if ResultIsNull then (EFI_INVALID_PARAMETER, None)
  else if (Operand >=? MIN_INT32) && (Operand <=? MAX_INT32)
  then (EFI_SUCCESS, Some (cast INT32 Operand))
  else (EFI_BUFFER_TOO_SMALL, Some INT32_ERROR).

Definition SafeInt64ToUint32 (Operand : Z) (ResultIsNull : bool) : outcome :=
  if ResultIsNull then (EFI_INVALID_PARAMETER, None)
  else if (Operand >=? 0) && (Operand <=? MAX_UINT32)
  then (EFI_SUCCESS, Some (cast UINT32 Operand))
  else (EFI_BUFFER_TOO_SMALL, Some UINT32_ERROR).

Definition SafeInt64ToUint64 (Operand : Z) (ResultIsNull : bool) : outcome :=
  if ResultIsNull then (EFI_INVALID_PARAMETER, None)
  else if Operand >=? 0
  then (EFI_SUCCESS, Some (cast UINT64 Operand))
  else (EFI_BUFFER_TOO_SMALL, Some UINT64_ERROR).

Definition SafeUint64ToInt8 (Operand : Z) (ResultIsNull : bool) : outcome :=
  if ResultIsNull then (EFI_INVALID_PARAMETER, None)
  else if Operand <=? MAX_INT8
  then (EFI_SUCCESS, Some (cast INT8 Operand))
  else (EFI_BUFFER_TOO_SMALL, Some INT8_ERROR).

Definition SafeUint64ToChar8 (Operand : Z) (ResultIsNull : bool) : outcome :=
  if ResultIsNull then (EFI_INVALID_PARAMETER, None)
  else if Operand <=? MAX_INT8
  then (EFI_SUCCESS, Some (cast INT8 Operand))
  else (EFI_BUFFER_TOO_SMALL, Some CHAR8_ERROR).

Definition SafeUint64ToUint8 (Operand : Z) (ResultIsNull : bool) : outcome :=
  if ResultIsNull then (EFI_INVALID_PARAMETER, None)
  else if Operand <=? MAX_UINT8
  then (EFI_SUCCESS, Some (cast UINT8 Operand))
  else (EFI_BUFFER_TOO_SMALL, Some UINT8_ERROR).

Definition SafeUint64ToInt16 (Operand : Z) (ResultIsNull : bool) : outcome :=
  if ResultIsNull then (EFI_INVALID_PARAMETER, None)
  else if Operand <=? MAX_INT16
  then (EFI_SUCCESS, Some (cast INT16 Operand))
  else (EFI_BUFFER_TOO_SMALL, Some INT16_ERROR).

Definition SafeUint64ToUint16 (Operand : Z) (ResultIsNull : bool) : outcome :=
  if ResultIsNull then (EFI_INVALID_PARAMETER, None)
  else if Operand <=? MAX_UINT16
  then (EFI_SUCCESS, Some (cast UINT16 Operand))
  else (EFI_BUFFER_TOO_SMALL, Some UINT16_ERROR).

Definition SafeUint64ToInt32 (Operand : Z) (ResultIsNull : bool) : outcome :=
  if ResultIsNull then (EFI_INVALID_PARAMETER, None)
  else if Operand <=? MAX_INT32
  then (EFI_SUCCESS, Some (cast INT32 Operand))
  else (EFI_BUFFER_TOO_SMALL, Some INT32_ERROR).

Definition SafeUint64ToUint32 (Operand : Z) (ResultIsNull : bool) : outcome :=
  if ResultIsNull then (EFI_INVALID_PARAMETER, None)
  else if Operand <=? MAX_UINT32
  then (EFI_SUCCESS, Some (cast UINT32 Operand))
  else (EFI_BUFFER_TOO_SMALL, Some UINT32_ERROR).

Definition SafeUint64ToIntn (Operand : Z) (ResultIsNull : bool) : outcome :=
  if ResultIsNull then (EFI_INVALID_PARAMETER, None)
  else if Operand <=? MAX_INTN
  then (EFI_SUCCESS, Some (cast INTN Operand))
  else (EFI_BUFFER_TOO_SMALL, Some INTN_ERROR).

Definition SafeUint64ToInt64 (Operand : Z) (ResultIsNull : bool) : outcome :=
  if ResultIsNull then (EFI_INVALID_PARAMETER, None)
  else if Operand <=? MAX_INT64
  then (EFI_SUCCESS, Some (cast INT64 Operand))
  else (EFI_BUFFER_TOO_SMALL, Some INT64_ERROR).

(** ** Unsigned addition and subtraction *)

Definition SafeUint8Add (Augend Addend : Z) (ResultIsNull : bool) : outcome :=
  if ResultIsNull then (EFI_INVALID_PARAMETER, None)
  else if cast UINT8 (Augend + Addend) >=? Augend
  then (EFI_SUCCESS, Some (cast UINT8 (Augend + Addend)))
  else (EFI_BUFFER_TOO_SMALL, Some UINT8_ERROR).

Definition SafeUint16Add (Augend Addend : Z) (ResultIsNull : bool) : outcome :=
  if ResultIsNull then (EFI_INVALID_PARAMETER, None)
  else if cast UINT16 (Augend + Addend) >=? Augend
  then (EFI_SUCCESS, Some (cast UINT16 (Augend + Addend)))
  else (EFI_BUFFER_TOO_SMALL, Some UINT16_ERROR).

Definition SafeUint32Add (Augend Addend : Z) (ResultIsNull : bool) : outcome :=
  if ResultIsNull then (EFI_INVALID_PARAMETER, None)
  else if u32 (Augend + Addend) >=? Augend
  then (EFI_SUCCESS, Some (u32 (Augend + Addend)))
  else (EFI_BUFFER_TOO_SMALL, Some UINT32_ERROR).

Definition SafeUint64Add (Augend Addend : Z) (ResultIsNull : bool) : outcome :=
  if ResultIsNull then (EFI_INVALID_PARAMETER, None)
  else if u64 (Augend + Addend) >=? Augend
  then (EFI_SUCCESS, Some (u64 (Augend + Addend)))
  else (EFI_BUFFER_TOO_SMALL, Some UINT64_ERROR).

Definition SafeUint8Sub (Minuend Subtrahend : Z) (ResultIsNull : bool)
    : outcome :=
  if ResultIsNull then (EFI_INVALID_PARAMETER, None)
  else if Minuend >=? Subtrahend
  then (EFI_SUCCESS, Some (cast UINT8 (Minuend - Subtrahend)))
  else (EFI_BUFFER_TOO_SMALL, Some UINT8_ERROR).

Definition SafeUint16Sub (Minuend Subtrahend : Z) (ResultIsNull : bool)
    : outcome :=
  if ResultIsNull then (EFI_INVALID_PARAMETER, None)
  else if Minuend >=? Subtrahend
  then (EFI_SUCCESS, Some (cast UINT16 (Minuend - Subtrahend)))
  else (EFI_BUFFER_TOO_SMALL, Some UINT16_ERROR).

Definition SafeUint32Sub (Minuend Subtrahend : Z) (ResultIsNull : bool)
    : outcome :=
  if ResultIsNull then (EFI_INVALID_PARAMETER, None)
  else if Minuend >=? Subtrahend
  then (EFI_SUCCESS, Some (u32 (Minuend - Subtrahend)))
  else (EFI_BUFFER_TOO_SMALL, Some UINT32_ERROR).

Definition SafeUint64Sub (Minuend Subtrahend : Z) (ResultIsNull : bool)
    : outcome :=
  if ResultIsNull then (EFI_INVALID_PARAMETER, None)
  else if Minuend >=? Subtrahend
  then (EFI_SUCCESS, Some (u64 (Minuend - Subtrahend)))
  else (EFI_BUFFER_TOO_SMALL, Some UINT64_ERROR).

(** ** Unsigned multiplication *)

Definition SafeUint8Mult (Multiplicand Multiplier : Z) (ResultIsNull : bool)
    : outcome :=
  let IntermediateResult :=
    u32 (cast UINT32 Multiplicand * cast UINT32 Multiplier) in
  SafeUint32ToUint8 IntermediateResult ResultIsNull.

Definition SafeUint16Mult (Multiplicand Multiplier : Z) (ResultIsNull : bool)
    : outcome :=
  let IntermediateResult :=
    u32 (cast UINT32 Multiplicand * cast UINT32 Multiplier) in
  SafeUint32ToUint16 IntermediateResult ResultIsNull.

Definition SafeUint32Mult (Multiplicand Multiplier : Z) (ResultIsNull : bool)
    : outcome :=
  let IntermediateResult :=
    u64 (cast UINT64 Multiplicand * cast UINT64 Multiplier) in
  SafeUint64ToUint32 IntermediateResult ResultIsNull.

(** The value that a successful call stored. *)
Definition stored (r : outcome) : result Z := deref (snd r).

(** The case where one of the high dwords [DwordA], [DwordC] is not 0: the
    value of [*Result] when nothing overflows. *)
Definition SafeUint64Mult_wide (Multiplicand Multiplier DwordA DwordC : Z)
    : result (option Z) :=
  if (DwordA =? 0) || (DwordC =? 0) then
    let DwordD := u32 Multiplier in
    let ProductAD := u64 (DwordA * DwordD) in
    if Z.land ProductAD 0xffffffff00000000 =? 0 then
      let DwordB := u32 Multiplicand in
      let ProductBC := u64 (DwordB * DwordC) in
      if Z.land ProductBC 0xffffffff00000000 =? 0 then
        let! BC := LShiftU64 ProductBC 32 in
        let! AD := LShiftU64 ProductAD 32 in
        let Sum := SafeUint64Add BC AD false in
        if negb (EFI_ERROR (fst Sum)) then
          let! UnsignedResult := stored Sum in
          let ProductBD := u64 (DwordB * DwordD) in
          let Sum' := SafeUint64Add UnsignedResult ProductBD false in
          if negb (EFI_ERROR (fst Sum')) then
            let! UnsignedResult := stored Sum' in
            Ok (Some UnsignedResult)
          else Ok None
        else Ok None
      else Ok None
    else Ok None
  else Ok None.

Definition SafeUint64Mult (Multiplicand Multiplier : Z) (ResultIsNull : bool)
    : result outcome :=
  if ResultIsNull then Ok (EFI_INVALID_PARAMETER, None)
  else
    let! A := RShiftU64 Multiplicand 32 in
    let DwordA := u32 A in
    let! C := RShiftU64 Multiplier 32 in
    let DwordC := u32 C in
    if (DwordA =? 0) && (DwordC =? 0) then
      let DwordB := u32 Multiplicand in
      let DwordD := u32 Multiplier in
      Ok (EFI_SUCCESS, Some (u64 (DwordB * DwordD)))
    else
      let! r := SafeUint64Mult_wide Multiplicand Multiplier DwordA DwordC in
      match r with
      | Some UnsignedResult => Ok (EFI_SUCCESS, Some UnsignedResult)
      | None => Ok (EFI_BUFFER_TOO_SMALL, Some UINT64_ERROR)
      end.

(** ** Signed operations *)

Definition SafeInt8Add (Augend Addend : Z) (ResultIsNull : bool)
    : result outcome :=
  let! r := signed_result INT32 (cast INT32 Augend + cast INT32 Addend) in
  Ok (SafeInt32ToInt8 r ResultIsNull).

Definition SafeInt16Add (Augend Addend : Z) (ResultIsNull : bool)
    : result outcome :=
  let! r := signed_result INT32 (cast INT32 Augend + cast INT32 Addend) in
  Ok (SafeInt32ToInt16 r ResultIsNull).

Definition SafeInt32Add (Augend Addend : Z) (ResultIsNull : bool)
    : result outcome :=
  let! r := signed_result INT64 (cast INT64 Augend + cast INT64 Addend) in
  Ok (SafeInt64ToInt32 r ResultIsNull).

Definition SafeChar8Add (Augend Addend : Z) (ResultIsNull : bool)
    : result outcome :=
  if ResultIsNull then Ok (EFI_INVALID_PARAMETER, None)
  else
    let Augend32 := cast INT32 Augend in
    let Addend32 := cast INT32 Addend in
    if (Augend32 <? 0) || (Augend32 >? MAX_INT8) then
      Ok (EFI_BUFFER_TOO_SMALL, Some CHAR8_ERROR)
    else if (Addend32 <? 0) || (Addend32 >? MAX_INT8) then
      Ok (EFI_BUFFER_TOO_SMALL, Some CHAR8_ERROR)
    else
      let! r := signed_result INT32 (Augend32 + Addend32) in
      Ok (SafeInt32ToChar8 r ResultIsNull).

Definition SafeInt8Sub (Minuend Subtrahend : Z) (ResultIsNull : bool)
    : result outcome :=
  let! r := signed_result INT32 (cast INT32 Minuend - cast INT32 Subtrahend) in
  Ok (SafeInt32ToInt8 r ResultIsNull).

Definition SafeInt16Sub (Minuend Subtrahend : Z) (ResultIsNull : bool)
    : result outcome :=
  let! r := signed_result INT32 (cast INT32 Minuend - cast INT32 Subtrahend) in
  Ok (SafeInt32ToInt16 r ResultIsNull).

Definition SafeInt32Sub (Minuend Subtrahend : Z) (ResultIsNull : bool)
    : result outcome :=
  let! r := signed_result INT64 (cast INT64 Minuend - cast INT64 Subtrahend) in
  Ok (SafeInt64ToInt32 r ResultIsNull).

Definition SafeChar8Sub (Minuend Subtrahend : Z) (ResultIsNull : bool)
    : result outcome :=
  if ResultIsNull then Ok (EFI_INVALID_PARAMETER, None)
  else
    let Minuend32 := cast INT32 Minuend in
    let Subtrahend32 := cast INT32 Subtrahend in
    if (Minuend32 <? 0) || (Minuend32 >? MAX_INT8) then
      Ok (EFI_BUFFER_TOO_SMALL, Some CHAR8_ERROR)
    else if (Subtrahend32 <? 0) || (Subtrahend32 >? MAX_INT8) then
      Ok (EFI_BUFFER_TOO_SMALL, Some CHAR8_ERROR)
    else
      let! r := signed_result INT32 (Minuend32 - Subtrahend32) in
      Ok (SafeInt32ToChar8 r ResultIsNull).

Definition SafeInt8Mult (Multiplicand Multiplier : Z) (ResultIsNull : bool)
    : result outcome :=
  let! r := signed_result INT32 (cast INT32 Multiplier * cast INT32 Multiplicand) in
  Ok (SafeInt32ToInt8 r ResultIsNull).

Definition SafeInt16Mult (Multiplicand Multiplier : Z) (ResultIsNull : bool)
    : result outcome :=
  let! r := signed_result INT32 (cast INT32 Multiplicand * cast INT32 Multiplier) in
  Ok (SafeInt32ToInt16 r ResultIsNull).

Definition SafeInt32Mult (Multiplicand Multiplier : Z) (ResultIsNull : bool)
    : result outcome :=
  Ok (SafeInt64ToInt32 (MultS64x64 Multiplicand Multiplier) ResultIsNull).

Definition SafeChar8Mult (Multiplicand Multiplier : Z) (ResultIsNull : bool)
    : result outcome :=
  if ResultIsNull then Ok (EFI_INVALID_PARAMETER, None)
  else
    let Multiplicand32 := cast INT32 Multiplicand in
    let Multiplier32 := cast INT32 Multiplier in
    if (Multiplicand32 <? 0) || (Multiplicand32 >? MAX_INT8) then
      Ok (EFI_BUFFER_TOO_SMALL, Some CHAR8_ERROR)
    else if (Multiplier32 <? 0) || (Multiplier32 >? MAX_INT8) then
      Ok (EFI_BUFFER_TOO_SMALL, Some CHAR8_ERROR)
    else
      let! r := signed_result INT32 (Multiplicand32 * Multiplier32) in
      Ok (SafeInt32ToChar8 r ResultIsNull).

Definition SafeInt64Add (Augend Addend : Z) (ResultIsNull : bool)
    : result outcome :=
  if ResultIsNull then Ok (EFI_INVALID_PARAMETER, None)
  else
    let! First :=
      (if Addend >? 0 then
         let! Limit := signed_result INT64 (MAX_INT64 - Addend) in Ok (Augend >? Limit)
       else Ok false) in
    let! Bad :=
      (if (First : bool) then Ok true
       else if Addend <? 0 then
         let! Limit := signed_result INT64 (MIN_INT64 - Addend) in Ok (Augend <? Limit)
       else Ok false) in
    if (Bad : bool) then Ok (EFI_BUFFER_TOO_SMALL, Some INT64_ERROR)
    else
      let! r := signed_result INT64 (Augend + Addend) in
      Ok (EFI_SUCCESS, Some r).

Definition SafeInt64Sub (Minuend Subtrahend : Z) (ResultIsNull : bool)
    : result outcome :=
  if ResultIsNull then Ok (EFI_INVALID_PARAMETER, None)
  else
    let! First :=
      (if Subtrahend >? 0 then
         let! Limit := signed_result INT64 (MIN_INT64 + Subtrahend) in Ok (Minuend <? Limit)
       else Ok false) in
    let! Bad :=
      (if (First : bool) then Ok true
       else if Subtrahend <? 0 then
         let! Limit := signed_result INT64 (MAX_INT64 + Subtrahend) in Ok (Minuend >? Limit)
       else Ok false) in
    if (Bad : bool) then Ok (EFI_BUFFER_TOO_SMALL, Some INT64_ERROR)
    else
      let! r := signed_result INT64 (Minuend - Subtrahend) in
      Ok (EFI_SUCCESS, Some r).

(** The magnitude of an [INT64], without negating the most negative one. *)
Definition Magnitude (x : Z) : result Z :=
  if x <? 0 then
    let! Next := signed_result INT64 (x + 1) in
    let! Negated := signed_result INT64 (- Next) in
    Ok (u64 (cast UINT64 Negated + 1))
  else Ok (cast UINT64 x).

Definition SafeInt64Mult (Multiplicand Multiplier : Z) (ResultIsNull : bool)
    : result outcome :=
  if ResultIsNull then Ok (EFI_INVALID_PARAMETER, None)
  else
    let! UnsignedMultiplicand := Magnitude Multiplicand in
    let! UnsignedMultiplier := Magnitude Multiplier in
    let! Product := SafeUint64Mult UnsignedMultiplicand UnsignedMultiplier false in
    if negb (EFI_ERROR (fst Product)) then
      let! UnsignedResult := stored Product in
      if negb (Bool.eqb (Multiplicand <? 0) (Multiplier <? 0)) then
        if UnsignedResult >? MIN_INT64_MAGNITUDE then
          Ok (EFI_BUFFER_TOO_SMALL, Some INT64_ERROR)
        else if UnsignedResult =? MIN_INT64_MAGNITUDE then
          Ok (fst Product, Some MIN_INT64)
        else
          let! r := signed_result INT64 (- cast INT64 UnsignedResult) in
          Ok (fst Product, Some r)
      else
        if UnsignedResult >? MAX_INT64 then
          Ok (EFI_BUFFER_TOO_SMALL, Some INT64_ERROR)
        else Ok (fst Product, Some (cast INT64 UnsignedResult))
    else Ok (fst Product, Some INT64_ERROR).

End SafeIntLib.
End SafeIntLib.

(** ** SafeIntLib64.c: INTN and UINTN have 64 bits *)

Module SafeIntLib64.
Import SafeIntLib.
Section SafeIntLib64.
Context `{Machine}.

Definition SafeInt32ToUintn (Operand : Z) (ResultIsNull : bool)
    : outcome :=
  SafeInt32ToUint64 Operand ResultIsNull.

Definition SafeUint32ToIntn (Operand : Z) (ResultIsNull : bool)
    : outcome :=
  if ResultIsNull then (EFI_INVALID_PARAMETER, None)
  else (EFI_SUCCESS, Some (cast INTN Operand)).

Definition SafeIntnToInt32 (Operand : Z) (ResultIsNull : bool)
    : outcome :=
  SafeInt64ToInt32 (cast INT64 Operand) ResultIsNull.

Definition SafeIntnToUint32 (Operand : Z) (ResultIsNull : bool)
    : outcome :=
  SafeInt64ToUint32 (cast INT64 Operand) ResultIsNull.

Definition SafeUintnToUint32 (Operand : Z) (ResultIsNull : bool)
    : outcome :=
  SafeUint64ToUint32 (cast UINT64 Operand) ResultIsNull.

Definition SafeUintnToInt64 (Operand : Z) (ResultIsNull : bool)
    : outcome :=
  SafeUint64ToInt64 (cast UINT64 Operand) ResultIsNull.

Definition SafeInt64ToIntn (Operand : Z) (ResultIsNull : bool)
    : outcome :=
  if ResultIsNull then (EFI_INVALID_PARAMETER, None)
  else (EFI_SUCCESS, Some (cast INTN Operand)).

Definition SafeInt64ToUintn (Operand : Z) (ResultIsNull : bool)
    : outcome :=
  SafeInt64ToUint64 Operand ResultIsNull.

Definition SafeUint64ToUintn (Operand : Z) (ResultIsNull : bool)
    : outcome :=
  if ResultIsNull then (EFI_INVALID_PARAMETER, None)
  else (EFI_SUCCESS, Some (cast UINTN Operand)).

Definition SafeUintnAdd (Augend Addend : Z) (ResultIsNull : bool)
    : outcome :=
  SafeUint64Add (cast UINT64 Augend) (cast UINT64 Addend) ResultIsNull.

Definition SafeUintnSub (Minuend Subtrahend : Z) (ResultIsNull : bool)
    : outcome :=
  SafeUint64Sub (cast UINT64 Minuend) (cast UINT64 Subtrahend) ResultIsNull.

Definition SafeUintnMult (Multiplicand Multiplier : Z) (ResultIsNull : bool)
    : result outcome :=
  SafeUint64Mult (cast UINT64 Multiplicand) (cast UINT64 Multiplier) ResultIsNull.

Definition SafeIntnAdd (Augend Addend : Z) (ResultIsNull : bool)
    : result outcome :=
  SafeInt64Add (cast INT64 Augend) (cast INT64 Addend) ResultIsNull.

Definition SafeIntnSub (Minuend Subtrahend : Z) (ResultIsNull : bool)
    : result outcome :=
  SafeInt64Sub (cast INT64 Minuend) (cast INT64 Subtrahend) ResultIsNull.

Definition SafeIntnMult (Multiplicand Multiplier : Z) (ResultIsNull : bool)
    : result outcome :=
  SafeInt64Mult (cast INT64 Multiplicand) (cast INT64 Multiplier) ResultIsNull.

End SafeIntLib64.
End SafeIntLib64.

(** ** SafeIntLib32.c: INTN and UINTN have 32 bits *)

Module SafeIntLib32.
Import SafeIntLib.
Section SafeIntLib32.
Context `{Machine}.

Definition SafeInt32ToUintn (Operand : Z) (ResultIsNull : bool)
    : outcome :=
  SafeInt32ToUint32 Operand ResultIsNull.

Definition SafeUint32ToIntn (Operand : Z) (ResultIsNull : bool)
    : outcome :=
  SafeUint32ToInt32 Operand ResultIsNull.

Definition SafeIntnToInt32 (Operand : Z) (ResultIsNull : bool)
    : outcome :=
  if ResultIsNull then (EFI_INVALID_PARAMETER, None)
  else (EFI_SUCCESS, Some (cast INT32 Operand)).

Definition SafeIntnToUint32 (Operand : Z) (ResultIsNull : bool)
    : outcome :=
  if ResultIsNull then (EFI_INVALID_PARAMETER, None)
  else if Operand >=? 0
  then (EFI_SUCCESS, Some (cast UINT32 Operand))
  else (EFI_BUFFER_TOO_SMALL, Some UINT32_ERROR).

Definition SafeUintnToUint32 (Operand : Z) (ResultIsNull : bool)
    : outcome :=
  if ResultIsNull then (EFI_INVALID_PARAMETER, None)
  else (EFI_SUCCESS, Some (cast UINT32 Operand)).

Definition SafeUintnToInt64 (Operand : Z) (ResultIsNull : bool)
    : outcome :=
  if ResultIsNull then (EFI_INVALID_PARAMETER, None)
  else (EFI_SUCCESS, Some (cast INT64 Operand)).

Definition SafeInt64ToIntn (Operand : Z) (ResultIsNull : bool)
    : outcome :=
  SafeInt64ToInt32 Operand ResultIsNull.

Definition SafeInt64ToUintn (Operand : Z) (ResultIsNull : bool)
    : outcome :=
  SafeInt64ToUint32 Operand ResultIsNull.

Definition SafeUint64ToUintn (Operand : Z) (ResultIsNull : bool)
    : outcome :=
  SafeUint64ToUint32 (cast UINT64 Operand) ResultIsNull.

Definition SafeUintnAdd (Augend Addend : Z) (ResultIsNull : bool)
    : outcome :=
  if ResultIsNull then (EFI_INVALID_PARAMETER, None)
  else if wrap (width UINTN) (Augend + Addend) >=? Augend
  then (EFI_SUCCESS, Some (wrap (width UINTN) (Augend + Addend)))
  else (EFI_BUFFER_TOO_SMALL, Some UINTN_ERROR).

Definition SafeUintnSub (Minuend Subtrahend : Z) (ResultIsNull : bool)
    : outcome :=
  if ResultIsNull then (EFI_INVALID_PARAMETER, None)
  else if Minuend >=? Subtrahend
  then (EFI_SUCCESS, Some (wrap (width UINTN) (Minuend - Subtrahend)))
  else (EFI_BUFFER_TOO_SMALL, Some UINTN_ERROR).

Definition SafeUintnMult (Multiplicand Multiplier : Z) (ResultIsNull : bool)
    : outcome :=
  let IntermediateResult :=
    u64 (cast UINT64 Multiplicand * cast UINT64 Multiplier) in
  SafeUint64ToUintn IntermediateResult ResultIsNull.

Definition SafeIntnAdd (Augend Addend : Z) (ResultIsNull : bool)
    : result outcome :=
  let! r := signed_result INT64 (cast INT64 Augend + cast INT64 Addend) in
  Ok (SafeInt64ToIntn r ResultIsNull).

Definition SafeIntnSub (Minuend Subtrahend : Z) (ResultIsNull : bool)
    : result outcome :=
  let! r := signed_result INT64 (cast INT64 Minuend - cast INT64 Subtrahend) in
  Ok (SafeInt64ToIntn r ResultIsNull).

Definition SafeIntnMult (Multiplicand Multiplier : Z) (ResultIsNull : bool)
    : result outcome :=
  Ok (SafeInt64ToIntn (MultS64x64 Multiplicand Multiplier) ResultIsNull).

End SafeIntLib32.
End SafeIntLib32.

(** ** SafeIntLibEbc.c: the size of UINTN is tested at run time *)

Module SafeIntLibEbc.
Import SafeIntLib.
Section SafeIntLibEbc.
Context `{Machine}.

(** [sizeof (UINTN) == sizeof (UINT32)]. *)
Definition UINTN_is_32 : bool := width UINTN =? 32.

Definition SafeInt32ToUintn (Operand : Z) (ResultIsNull : bool)
    : outcome :=
  if UINTN_is_32 then
    SafeInt32ToUint32 Operand ResultIsNull
  else
    SafeInt32ToUint64 Operand ResultIsNull.

Definition SafeUint32ToIntn (Operand : Z) (ResultIsNull : bool)
    : outcome :=
  if ResultIsNull then (EFI_INVALID_PARAMETER, None)
  else if UINTN_is_32 then
    SafeUint32ToInt32 Operand ResultIsNull
  else
    (EFI_SUCCESS, Some (cast INTN Operand)).

Definition SafeIntnToInt32 (Operand : Z) (ResultIsNull : bool)
    : outcome :=
  if ResultIsNull then (EFI_INVALID_PARAMETER, None)
  else if UINTN_is_32 then
    (EFI_SUCCESS, Some (cast INT32 Operand))
  else
    SafeInt64ToInt32 (cast INT64 Operand) ResultIsNull.

Definition SafeIntnToUint32 (Operand : Z) (ResultIsNull : bool)
    : outcome :=
  if ResultIsNull then (EFI_INVALID_PARAMETER, None)
  else if UINTN_is_32 then
    if Operand >=? 0
    then (EFI_SUCCESS, Some (cast UINT32 Operand))
    else (EFI_BUFFER_TOO_SMALL, Some UINT32_ERROR)
  else
    SafeInt64ToUint32 (cast INT64 Operand) ResultIsNull.

Definition SafeUintnToUint32 (Operand : Z) (ResultIsNull : bool)
    : outcome :=
  if ResultIsNull then (EFI_INVALID_PARAMETER, None)
  else if UINTN_is_32 then
    (EFI_SUCCESS, Some (cast UINT32 Operand))
  else
    SafeUint64ToUint32 (cast UINT64 Operand) ResultIsNull.

Definition SafeUintnToInt64 (Operand : Z) (ResultIsNull : bool)
    : outcome :=
  if ResultIsNull then (EFI_INVALID_PARAMETER, None)
  else if UINTN_is_32 then
    (EFI_SUCCESS, Some (cast INT64 Operand))
  else
    SafeUint64ToInt64 (cast UINT64 Operand) ResultIsNull.

Definition SafeInt64ToIntn (Operand : Z) (ResultIsNull : bool)
    : outcome :=
  if ResultIsNull then (EFI_INVALID_PARAMETER, None)
  else if UINTN_is_32 then
    SafeInt64ToInt32 Operand ResultIsNull
  else
    (EFI_SUCCESS, Some (cast INTN Operand)).

Definition SafeInt64ToUintn (Operand : Z) (ResultIsNull : bool)
    : outcome :=
  if UINTN_is_32 then
    SafeInt64ToUint32 Operand ResultIsNull
  else
    SafeInt64ToUint64 Operand ResultIsNull.

Definition SafeUint64ToUintn (Operand : Z) (ResultIsNull : bool)
    : outcome :=
  if ResultIsNull then (EFI_INVALID_PARAMETER, None)
  else if UINTN_is_32 then
    SafeUint64ToUint32 (cast UINT64 Operand) ResultIsNull
  else
    (EFI_SUCCESS, Some (cast UINTN Operand)).

Definition SafeUintnAdd (Augend Addend : Z) (ResultIsNull : bool)
    : outcome :=
  if ResultIsNull then (EFI_INVALID_PARAMETER, None)
  else if UINTN_is_32 then
    if cast UINT32 (wrap (width UINTN) (Augend + Addend)) >=? Augend
    then (EFI_SUCCESS, Some (wrap (width UINTN) (Augend + Addend)))
    else (EFI_BUFFER_TOO_SMALL, Some UINTN_ERROR)
  else
    SafeUint64Add (cast UINT64 Augend) (cast UINT64 Addend) ResultIsNull.

Definition SafeUintnSub (Minuend Subtrahend : Z) (ResultIsNull : bool)
    : outcome :=
  if ResultIsNull then (EFI_INVALID_PARAMETER, None)
  else if UINTN_is_32 then
    if Minuend >=? Subtrahend
    then (EFI_SUCCESS, Some (wrap (width UINTN) (Minuend - Subtrahend)))
    else (EFI_BUFFER_TOO_SMALL, Some UINTN_ERROR)
  else
    SafeUint64Sub (cast UINT64 Minuend) (cast UINT64 Subtrahend) ResultIsNull.

Definition SafeUintnMult (Multiplicand Multiplier : Z) (ResultIsNull : bool)
    : result outcome :=
  if UINTN_is_32 then
    let IntermediateResult :=
      u64 (cast UINT64 Multiplicand * cast UINT64 Multiplier) in
    Ok (SafeUint64ToUintn IntermediateResult ResultIsNull)
  else
    SafeUint64Mult (cast UINT64 Multiplicand) (cast UINT64 Multiplier) ResultIsNull.

Definition SafeIntnAdd (Augend Addend : Z) (ResultIsNull : bool)
    : result outcome :=
  if UINTN_is_32 then
    let! r := signed_result INT64 (cast INT64 Augend + cast INT64 Addend) in
    Ok (SafeInt64ToIntn r ResultIsNull)
  else
    SafeInt64Add (cast INT64 Augend) (cast INT64 Addend) ResultIsNull.

Definition SafeIntnSub (Minuend Subtrahend : Z) (ResultIsNull : bool)
    : result outcome :=
  if UINTN_is_32 then
    let! r := signed_result INT64 (cast INT64 Minuend - cast INT64 Subtrahend) in
    Ok (SafeInt64ToIntn r ResultIsNull)
  else
    SafeInt64Sub (cast INT64 Minuend) (cast INT64 Subtrahend) ResultIsNull.

Definition SafeIntnMult (Multiplicand Multiplier : Z) (ResultIsNull : bool)
    : result outcome :=
  if UINTN_is_32 then
    let! r := signed_result INT64 (cast INT64 Multiplicand * cast INT64 Multiplier) in
    Ok (SafeInt64ToIntn r ResultIsNull)
  else
    SafeInt64Mult (cast INT64 Multiplicand) (cast INT64 Multiplier) ResultIsNull.

End SafeIntLibEbc.
End SafeIntLibEbc.
