(* ===== verification/SafeIntConversions.v ===== *)
(** * SafeIntLib: specification and conversions

    What a checked computation promises ([checked]), the tables of the
    conversions and of the operations of SafeIntLib.c, and the proof that
    every conversion keeps the promise. *)

From S2P Require Import Prelude.
From S2P Require Import CTypes.
From S2P Require Import BaseMath.
From S2P Require Import SafeInt.

Import Math.

(** ** Automation *)

(** Fixes the widths that depend on the machine. *)
Ltac machine_cases :=
  unfold MAX_INTN, MAX_UINTN, CHAR8_ERROR, INTN_ERROR, UINTN_ERROR,
    CHAR8, INTN, UINTN in *;
  repeat match goal with
  | |- context [uintn_is_64] => destruct uintn_is_64
  | |- context [char_is_signed] => destruct char_is_signed
  end.

(** Computes the bounds of the types. *)
Ltac eval_bounds :=
  repeat match goal with
  | |- context [min_of ?T] =>
      let v := eval vm_compute in (min_of T) in change (min_of T) with v
  | |- context [max_of ?T] =>
      let v := eval vm_compute in (max_of T) in change (max_of T) with v
  end.

Ltac unfold_head :=
  match goal with
  | |- ?t = _ =>
      let rec head t := lazymatch t with ?f _ => head f | _ => t end in
      let f := head t in unfold f
  end.

Section Theorems.
Context `{Machine}.
Import SafeIntLib.

(** ** Specification *)

Definition range (T : int_type) : Z * Z := (min_of T, max_of T).

(** The library takes CHAR8 for ASCII, whether [char] is signed or not. *)
Definition ascii : Z * Z := (0, MAX_INT8).

Definition inside (r : Z * Z) (v : Z) : bool := (r.1 <=? v) && (v <=? r.2).

(** What a checked computation of [v] promises. *)
Definition checked (r : Z * Z) (error v : Z) (ResultIsNull : bool) : outcome :=
  if ResultIsNull then (EFI_INVALID_PARAMETER, None)
  else if inside r v then (EFI_SUCCESS, Some v)
  else (EFI_BUFFER_TOO_SMALL, Some error).

Record conversion := Conversion {
  from : int_type;
  to : Z * Z;
  error_value : Z;
  convert : Z -> bool -> outcome
}.

Definition converts (c : conversion) : Prop :=
  forall v ResultIsNull,
    fits (from c) v = true ->
    convert c v ResultIsNull = checked (to c) (error_value c) v ResultIsNull.

(** The conversions of SafeIntLib.c, in the order of the file. *)
Definition conversions : list conversion :=
  [Conversion INT8 (range UINT8) UINT8_ERROR SafeInt8ToUint8;
   Conversion INT8 ascii CHAR8_ERROR SafeInt8ToChar8;
   Conversion INT8 (range UINT16) UINT16_ERROR SafeInt8ToUint16;
   Conversion INT8 (range UINT32) UINT32_ERROR SafeInt8ToUint32;
   Conversion INT8 (range UINTN) UINTN_ERROR SafeInt8ToUintn;
   Conversion INT8 (range UINT64) UINT64_ERROR SafeInt8ToUint64;
   Conversion UINT8 (range INT8) INT8_ERROR SafeUint8ToInt8;
   Conversion UINT8 ascii CHAR8_ERROR SafeUint8ToChar8;
   Conversion INT16 (range INT8) INT8_ERROR SafeInt16ToInt8;
   Conversion INT16 ascii CHAR8_ERROR SafeInt16ToChar8;
   Conversion INT16 (range UINT8) UINT8_ERROR SafeInt16ToUint8;
   Conversion INT16 (range UINT16) UINT16_ERROR SafeInt16ToUint16;
   Conversion INT16 (range UINT32) UINT32_ERROR SafeInt16ToUint32;
   Conversion INT16 (range UINTN) UINTN_ERROR SafeInt16ToUintn;
   Conversion INT16 (range UINT64) UINT64_ERROR SafeInt16ToUint64;
   Conversion UINT16 (range INT8) INT8_ERROR SafeUint16ToInt8;
   Conversion UINT16 ascii CHAR8_ERROR SafeUint16ToChar8;
   Conversion UINT16 (range UINT8) UINT8_ERROR SafeUint16ToUint8;
   Conversion UINT16 (range INT16) INT16_ERROR SafeUint16ToInt16;
   Conversion INT32 (range INT8) INT8_ERROR SafeInt32ToInt8;
   Conversion INT32 ascii CHAR8_ERROR SafeInt32ToChar8;
   Conversion INT32 (range UINT8) UINT8_ERROR SafeInt32ToUint8;
   Conversion INT32 (range INT16) INT16_ERROR SafeInt32ToInt16;
   Conversion INT32 (range UINT16) UINT16_ERROR SafeInt32ToUint16;
   Conversion INT32 (range UINT32) UINT32_ERROR SafeInt32ToUint32;
   Conversion INT32 (range UINT64) UINT64_ERROR SafeInt32ToUint64;
   Conversion UINT32 (range INT8) INT8_ERROR SafeUint32ToInt8;
   Conversion UINT32 ascii CHAR8_ERROR SafeUint32ToChar8;
   Conversion UINT32 (range UINT8) UINT8_ERROR SafeUint32ToUint8;
   Conversion UINT32 (range INT16) INT16_ERROR SafeUint32ToInt16;
   Conversion UINT32 (range UINT16) UINT16_ERROR SafeUint32ToUint16;
   Conversion UINT32 (range INT32) INT32_ERROR SafeUint32ToInt32;
   Conversion INTN (range INT8) INT8_ERROR SafeIntnToInt8;
   Conversion INTN ascii CHAR8_ERROR SafeIntnToChar8;
   Conversion INTN (range UINT8) UINT8_ERROR SafeIntnToUint8;
   Conversion INTN (range INT16) INT16_ERROR SafeIntnToInt16;
   Conversion INTN (range UINT16) UINT16_ERROR SafeIntnToUint16;
   Conversion INTN (range UINTN) UINTN_ERROR SafeIntnToUintn;
   Conversion INTN (range UINT64) UINT64_ERROR SafeIntnToUint64;
   Conversion UINTN (range INT8) INT8_ERROR SafeUintnToInt8;
   Conversion UINTN ascii CHAR8_ERROR SafeUintnToChar8;
   Conversion UINTN (range UINT8) UINT8_ERROR SafeUintnToUint8;
   Conversion UINTN (range INT16) INT16_ERROR SafeUintnToInt16;
   Conversion UINTN (range UINT16) UINT16_ERROR SafeUintnToUint16;
   Conversion UINTN (range INT32) INT32_ERROR SafeUintnToInt32;
   Conversion UINTN (range INTN) INTN_ERROR SafeUintnToIntn;
   Conversion INT64 (range INT8) INT8_ERROR SafeInt64ToInt8;
   Conversion INT64 ascii CHAR8_ERROR SafeInt64ToChar8;
   Conversion INT64 (range UINT8) UINT8_ERROR SafeInt64ToUint8;
   Conversion INT64 (range INT16) INT16_ERROR SafeInt64ToInt16;
   Conversion INT64 (range UINT16) UINT16_ERROR SafeInt64ToUint16;
   Conversion INT64 (range INT32) INT32_ERROR SafeInt64ToInt32;
   Conversion INT64 (range UINT32) UINT32_ERROR SafeInt64ToUint32;
   Conversion INT64 (range UINT64) UINT64_ERROR SafeInt64ToUint64;
   Conversion UINT64 (range INT8) INT8_ERROR SafeUint64ToInt8;
   Conversion UINT64 ascii CHAR8_ERROR SafeUint64ToChar8;
   Conversion UINT64 (range UINT8) UINT8_ERROR SafeUint64ToUint8;
   Conversion UINT64 (range INT16) INT16_ERROR SafeUint64ToInt16;
   Conversion UINT64 (range UINT16) UINT16_ERROR SafeUint64ToUint16;
   Conversion UINT64 (range INT32) INT32_ERROR SafeUint64ToInt32;
   Conversion UINT64 (range UINT32) UINT32_ERROR SafeUint64ToUint32;
   Conversion UINT64 (range INTN) INTN_ERROR SafeUint64ToIntn;
   Conversion UINT64 (range INT64) INT64_ERROR SafeUint64ToInt64].

Record operation := Operation {
  operand : int_type;
  error_of : Z;
  exact : Z -> Z -> Z;
  run : Z -> Z -> bool -> result outcome
}.

Definition computes (o : operation) : Prop :=
  forall a b ResultIsNull,
    fits (operand o) a = true -> fits (operand o) b = true ->
    run o a b ResultIsNull =
    Ok (checked (range (operand o)) (error_of o) (exact o a b) ResultIsNull).

(** A function that needs no undefined behaviour, seen as one that might. *)
Definition pure (f : Z -> Z -> bool -> outcome) : Z -> Z -> bool -> result outcome :=
  fun a b ResultIsNull => Ok (f a b ResultIsNull).

Definition operations : list operation :=
  [Operation UINT8 UINT8_ERROR Z.add (pure SafeUint8Add);
   Operation UINT16 UINT16_ERROR Z.add (pure SafeUint16Add);
   Operation UINT32 UINT32_ERROR Z.add (pure SafeUint32Add);
   Operation UINT64 UINT64_ERROR Z.add (pure SafeUint64Add);
   Operation UINT8 UINT8_ERROR Z.sub (pure SafeUint8Sub);
   Operation UINT16 UINT16_ERROR Z.sub (pure SafeUint16Sub);
   Operation UINT32 UINT32_ERROR Z.sub (pure SafeUint32Sub);
   Operation UINT64 UINT64_ERROR Z.sub (pure SafeUint64Sub);
   Operation UINT8 UINT8_ERROR Z.mul (pure SafeUint8Mult);
   Operation UINT16 UINT16_ERROR Z.mul (pure SafeUint16Mult);
   Operation UINT32 UINT32_ERROR Z.mul (pure SafeUint32Mult);
   Operation UINT64 UINT64_ERROR Z.mul SafeUint64Mult;
   Operation INT8 INT8_ERROR Z.add SafeInt8Add;
   Operation INT16 INT16_ERROR Z.add SafeInt16Add;
   Operation INT32 INT32_ERROR Z.add SafeInt32Add;
   Operation INT64 INT64_ERROR Z.add SafeInt64Add;
   Operation INT8 INT8_ERROR Z.sub SafeInt8Sub;
   Operation INT16 INT16_ERROR Z.sub SafeInt16Sub;
   Operation INT32 INT32_ERROR Z.sub SafeInt32Sub;
   Operation INT64 INT64_ERROR Z.sub SafeInt64Sub;
   Operation INT8 INT8_ERROR Z.mul SafeInt8Mult;
   Operation INT16 INT16_ERROR Z.mul SafeInt16Mult;
   Operation INT32 INT32_ERROR Z.mul SafeInt32Mult;
   Operation INT64 INT64_ERROR Z.mul SafeInt64Mult].

(** A conversion whose guard is the range test. *)
Lemma guarded_conversion (guard ResultIsNull : bool) T r error v :
  0 < width T ->
  guard = inside r v ->
  (inside r v = true -> fits T v = true) ->
  (if ResultIsNull then (EFI_INVALID_PARAMETER, None)
   else if guard then (EFI_SUCCESS, Some (cast T v))
   else (EFI_BUFFER_TOO_SMALL, Some error)) =
  checked r error v ResultIsNull.
Proof.
  intros Hw -> Hf. unfold checked. destruct ResultIsNull; [done|].
  destruct (inside r v); [|done]. by rewrite cast_fits by auto.
Qed.

Ltac solve_conversion :=
  let v := fresh "v" in let n := fresh "n" in let Hv := fresh "Hv" in
  intros v n; cbn [from to error_value convert]; intros Hv;
  unfold_head; revert Hv; unfold range, ascii; machine_cases;
  (rewrite fits_spec; eval_bounds; intros Hv; apply guarded_conversion;
  [ done
  | unfold inside; cbn [fst snd]; apply eq_true_iff_eq; bool_to_prop;
    cbv delta [MAX_INT8 MAX_UINT8 MAX_INT16 MAX_UINT16 MAX_INT32 MAX_UINT32
      MAX_INT64 MIN_INT8 MIN_INT16 MIN_INT32 MIN_INT64]; lia
  | unfold inside; cbn [fst snd]; rewrite fits_spec; eval_bounds; bool_to_prop;
    cbv delta [MAX_INT8] in *; lia ]).

Lemma conversions_hold : Forall converts conversions.
Proof.
  unfold conversions. rewrite !Forall_cons.
  split_and!; [..|by constructor]; solve_conversion.
Qed.

Lemma conversion_holds c : In c conversions -> converts c.
Proof. apply (proj1 (List.Forall_forall _ _) conversions_hold). Qed.

(** C32: The conversions of SafeIntLib are exact: a value that the target
    type holds is stored unchanged, any other is reported with the error
    value of the target stored, and a NULL result pointer is rejected. *)
Theorem SafeInt_conversions_exact : Forall converts conversions.
Proof. exact conversions_hold. Qed.

End Theorems.

(** Finds the row of a function in a table. *)
Ltac find_row := repeat (first [left; reflexivity | right]).

(** The bounds of the fixed-width types of the hypotheses and the goal. *)
Ltac eval_fits :=
  repeat match goal with
  | Hx : fits _ _ = true |- _ => apply fits_spec in Hx
  end;
  repeat match goal with
  | Hx : context [min_of ?T] |- _ =>
      let v := eval vm_compute in (min_of T) in change (min_of T) with v in Hx
  | Hx : context [max_of ?T] |- _ =>
      let v := eval vm_compute in (max_of T) in change (max_of T) with v in Hx
  end;
  rewrite ?fits_spec; eval_bounds.
