(* ===== verification/SafeIntTheorems.v ===== *)
(** * SafeIntLib: the operations

    Every operation of [SafeInt] computes the exact result when that fits,
    and otherwise reports EFI_BUFFER_TOO_SMALL and stores the error value of
    the type; nothing overflows on the way. *)

From S2P Require Import Prelude.
From S2P Require Import CTypes.
From S2P Require Import BaseMath.
From S2P Require Import SafeInt.
From S2P Require Import SafeIntConversions.

Import Math.

Section Theorems.
Context `{Machine}.
Import SafeIntLib.

(** ** Unsigned operations *)

Lemma range_inside T v : inside (range T) v = fits T v.
Proof. done. Qed.

Section Unsigned.
Context (T : int_type) (error a b : Z) (ResultIsNull : bool).
Hypothesis HT : signed T = false.
Hypothesis Hw : 0 < width T.
Hypothesis Ha : fits T a = true.
Hypothesis Hb : fits T b = true.

Lemma unsigned_bounds : 0 <= a < 2 ^ width T /\ 0 <= b < 2 ^ width T.
Proof.
  revert Ha Hb. rewrite !fits_spec. unfold min_of, max_of. rewrite HT. lia.
Qed.

Lemma checked_add :
  (if ResultIsNull then (EFI_INVALID_PARAMETER, None)
   else if cast T (a + b) >=? a then (EFI_SUCCESS, Some (cast T (a + b)))
   else (EFI_BUFFER_TOO_SMALL, Some error)) =
  checked (range T) error (a + b) ResultIsNull.
Proof.
  unfold checked. destruct ResultIsNull; [done|]. rewrite range_inside.
  destruct unsigned_bounds as [Ha' Hb'].
  destruct (fits T (a + b)) eqn:Hf.
  - rewrite cast_fits by done.
    assert (a + b >=? a = true) as -> by lia. done.
  - assert (2 ^ width T <= a + b) as Hbig.
    { apply not_true_iff_false in Hf. rewrite fits_spec in Hf.
      unfold min_of, max_of in Hf. rewrite HT in Hf. lia. }
    assert (cast T (a + b) = a + b - 2 ^ width T) as ->.
    { unfold cast, wrap. rewrite HT.
      replace (a + b) with (a + b - 2 ^ width T + 1 * 2 ^ width T) at 1 by lia.
      rewrite Z_mod_plus_full. apply Z.mod_small. lia. }
    assert (a + b - 2 ^ width T >=? a = false) as -> by lia. done.
Qed.

Lemma checked_sub :
  (if ResultIsNull then (EFI_INVALID_PARAMETER, None)
   else if a >=? b then (EFI_SUCCESS, Some (cast T (a - b)))
   else (EFI_BUFFER_TOO_SMALL, Some error)) =
  checked (range T) error (a - b) ResultIsNull.
Proof.
  unfold checked. destruct ResultIsNull; [done|]. rewrite range_inside.
  destruct unsigned_bounds as [Ha' Hb'].
  destruct (fits T (a - b)) eqn:Hf.
  - rewrite cast_fits by done. apply fits_spec in Hf.
    unfold min_of, max_of in Hf. rewrite HT in Hf.
    assert (a >=? b = true) as -> by lia. done.
  - apply not_true_iff_false in Hf. rewrite fits_spec in Hf.
    unfold min_of, max_of in Hf. rewrite HT in Hf.
    assert (a >=? b = false) as -> by lia. done.
Qed.

End Unsigned.

(** A narrow operation done in a wider type. *)
Lemma wide_product T U a b :
  signed T = false -> signed U = false -> 2 * width T <= width U ->
  0 < width T -> fits T a = true -> fits T b = true ->
  wrap (width U) (cast U a * cast U b) = a * b /\ fits U (a * b) = true.
Proof.
  intros HT HU Hw H0. rewrite !fits_spec. unfold min_of, max_of. rewrite HT, HU.
  intros Ha Hb.
  assert (2 ^ width T * 2 ^ width T <= 2 ^ width U) as Hp.
  { rewrite <-Z.pow_add_r by lia. apply Z.pow_le_mono_r; lia. }
  assert (0 <= a * b < 2 ^ width U) by nia.
  assert (2 ^ width T <= 2 ^ width U) by (apply Z.pow_le_mono_r; lia).
  unfold cast. rewrite HU, (wrap_small _ a), (wrap_small _ b) by lia.
  rewrite wrap_small by done. lia.
Qed.

(** ** The 64-bit product *)

Lemma high_dword_clear x :
  0 <= x < 2 ^ 64 ->
  (Z.land x 0xffffffff00000000 =? 0) = (x <? 2 ^ 32).
Proof.
  intros Hx. change 0xffffffff00000000 with (not64 (2 ^ 32 - 1)).
  rewrite land_not_mask by lia. apply eq_true_iff_eq. bool_to_prop. div_lia.
Qed.

(** Addition of two shifted or plain products. *)
Lemma Uint64Add_checked a b :
  0 <= a < 2 ^ 64 -> 0 <= b < 2 ^ 64 ->
  SafeUint64Add a b false =
  if a + b <? 2 ^ 64 then (EFI_SUCCESS, Some (a + b))
  else (EFI_BUFFER_TOO_SMALL, Some UINT64_ERROR).
Proof.
  intros Ha Hb.
  etransitivity;
    [apply (checked_add UINT64 UINT64_ERROR a b false); try done;
     rewrite fits_spec; eval_bounds; lia|].
  unfold checked. rewrite range_inside.
  destruct (Z.ltb_spec (a + b) (2 ^ 64)).
  - assert (fits UINT64 (a + b) = true) as ->; [|done].
    rewrite fits_spec. eval_bounds. lia.
  - assert (fits UINT64 (a + b) = false) as ->; [|done].
    apply not_true_iff_false. rewrite fits_spec. eval_bounds. lia.
Qed.

Lemma dwords x : 0 <= x < 2 ^ 64 ->
  u32 (Z.shiftr x 32) = x / 2 ^ 32 /\
  x = x / 2 ^ 32 * 2 ^ 32 + u32 x /\
  0 <= x / 2 ^ 32 < 2 ^ 32 /\ 0 <= u32 x < 2 ^ 32.
Proof.
  intros Hx. rewrite Z.shiftr_div_pow2 by lia.
  assert (0 <= x / 2 ^ 32 < 2 ^ 32) by div_lia.
  rewrite (wrap_small 32 (x / _)) by done.
  pose proof (wrap_bounds 32 x). unfold wrap in *.
  pose proof (Z.div_mod x (2 ^ 32)). lia.
Qed.

(** The sum of the partial products, each step guarded. *)
Lemma sum_products P Q R :
  0 <= P < 2 ^ 64 -> 0 <= Q < 2 ^ 64 -> 0 <= R < 2 ^ 64 ->
  (if P <? 2 ^ 32 then
     if Q <? 2 ^ 32 then
       let! BC := LShiftU64 Q 32 in
       let! AD := LShiftU64 P 32 in
       let Sum := SafeUint64Add BC AD false in
       if negb (EFI_ERROR (fst Sum)) then
         let! s := stored Sum in
         let Sum' := SafeUint64Add s R false in
         if negb (EFI_ERROR (fst Sum')) then
           let! s := stored Sum' in Ok (Some s)
         else Ok None
       else Ok None
     else Ok None
   else Ok None) =
  Ok (if 0 * 2 ^ 64 + (Q * 2 ^ 32 + P * 2 ^ 32) + R <? 2 ^ 64
      then Some (0 * 2 ^ 64 + (Q * 2 ^ 32 + P * 2 ^ 32) + R) else None).
Proof.
  intros HP HQ HR. rewrite Z.mul_0_l, Z.add_0_l.
  destruct (Z.ltb_spec P (2 ^ 32)) as [HP'|].
  2: { by rewrite (proj2 (Z.ltb_ge _ _)) by lia. }
  destruct (Z.ltb_spec Q (2 ^ 32)) as [HQ'|].
  2: { by rewrite (proj2 (Z.ltb_ge _ _)) by lia. }
  rewrite !LShiftU64_Ok by lia. cbn [mbind result_bind].
  rewrite !Z.shiftl_mul_pow2, !(wrap_small 64) by lia.
  rewrite Uint64Add_checked by lia.
  destruct (Z.ltb_spec (Q * 2 ^ 32 + P * 2 ^ 32) (2 ^ 64)).
  2: { cbn [fst EFI_ERROR negb]. by rewrite (proj2 (Z.ltb_ge _ _)) by lia. }
  cbn [fst snd stored deref EFI_ERROR negb mbind result_bind].
  rewrite Uint64Add_checked by lia.
  by destruct (Q * 2 ^ 32 + P * 2 ^ 32 + R <? 2 ^ 64).
Qed.

(** [(A * 2^32 + B) * (C * 2^32 + D)], where [A] or [C] is not 0. *)
Lemma Uint64Mult_wide_spec x y :
  0 <= x < 2 ^ 64 -> 0 <= y < 2 ^ 64 ->
  x / 2 ^ 32 <> 0 \/ y / 2 ^ 32 <> 0 ->
  SafeUint64Mult_wide x y (x / 2 ^ 32) (y / 2 ^ 32) =
  Ok (if x * y <? 2 ^ 64 then Some (x * y) else None).
Proof.
  intros Hx Hy Hnz.
  destruct (dwords x Hx) as (_ & Ex & HA & HB).
  destruct (dwords y Hy) as (_ & Ey & HC & HD).
  unfold SafeUint64Mult_wide.
  set (A := x / 2 ^ 32) in *. set (B := u32 x) in *.
  set (C := y / 2 ^ 32) in *. set (D := u32 y) in *. clearbody A B C D. subst x y.
  assert (0 <= A * D < 2 ^ 64 /\ 0 <= B * C < 2 ^ 64 /\ 0 <= B * D < 2 ^ 64)
    as (HAD & HBC & HBD) by nia.
  rewrite !wrap_small by done. rewrite !high_dword_clear by done.
  destruct ((A =? 0) || (C =? 0)) eqn:Hz.
  2: { bool_to_prop.
    assert ((A * 2 ^ 32 + B) * (C * 2 ^ 32 + D) <? 2 ^ 64 = false) as ->; [|done].
    apply Z.ltb_ge. nia. }
  assert (A * C = 0) as HAC by (bool_to_prop; nia).
  replace ((A * 2 ^ 32 + B) * (C * 2 ^ 32 + D)) with
    (A * C * 2 ^ 64 + (B * C * 2 ^ 32 + A * D * 2 ^ 32) + B * D) by lia.
  rewrite HAC. clear Hz HAC Hnz Hx Hy.
  set (P := A * D) in *. set (Q := B * C) in *. set (R := B * D) in *.
  clearbody P Q R. apply sum_products; lia.
Qed.


Lemma fits_UINT64 x : fits UINT64 x = (0 <=? x) && (x <? 2 ^ 64).
Proof. apply eq_true_iff_eq. rewrite fits_spec. eval_bounds. bool_to_prop. lia. Qed.

Lemma Uint64Mult_checked a b ResultIsNull :
  0 <= a < 2 ^ 64 -> 0 <= b < 2 ^ 64 ->
  SafeUint64Mult a b ResultIsNull =
  Ok (checked (range UINT64) UINT64_ERROR (a * b) ResultIsNull).
Proof.
  intros Ha Hb. unfold SafeUint64Mult, checked. destruct ResultIsNull; [done|].
  rewrite !RShiftU64_Ok by lia. cbn [mbind result_bind].
  destruct (dwords a Ha) as (-> & Ea & HA & HB).
  destruct (dwords b Hb) as (-> & Eb & HC & HD).
  rewrite range_inside, fits_UINT64, (proj2 (Z.leb_le 0 (a * b))) by nia.
  cbn [andb]. destruct (_ && _) eqn:Hz; bool_to_prop.
  - rewrite wrap_small by nia.
    assert (a = u32 a) as <- by lia. assert (b = u32 b) as <- by lia.
    by rewrite (proj2 (Z.ltb_lt _ _)) by nia.
  - rewrite Uint64Mult_wide_spec by lia. cbn [mbind result_bind].
    by destruct (a * b <? 2 ^ 64).
Qed.

(** ** Signed operations *)

(** A narrow signed operation done in a wider type. *)
Lemma wide_result T (r : Z) (f : Z -> bool -> outcome) rg err ResultIsNull :
  converts (Conversion T rg err f) -> fits T r = true ->
  (let! x := signed_result T r in Ok (f x ResultIsNull)) =
  Ok (checked rg err r ResultIsNull).
Proof.
  intros Hc Hr. rewrite signed_result_Ok by done. cbn [mbind result_bind].
  f_equal. by apply Hc.
Qed.

(** A comparison with a limit that is only computed when it fits. *)
Lemma guard_limit (c : bool) L (p : Z -> bool) :
  (c = true -> fits INT64 L = true) ->
  (if c then let! Limit := signed_result INT64 L in Ok (p Limit) else Ok false) =
  Ok (c && p L).
Proof. destruct c; [|done]. intros HL. by rewrite signed_result_Ok by auto. Qed.

(** The rest of [SafeInt64Add] and [SafeInt64Sub]: the two guards together
    test whether the result fits. *)
Lemma guarded_int64 (c1 c2 : bool) L1 L2 (p1 p2 : Z -> bool) v :
  (c1 = true -> fits INT64 L1 = true) -> (c2 = true -> fits INT64 L2 = true) ->
  c1 && p1 L1 || c2 && p2 L2 = negb (fits INT64 v) ->
  (let! First :=
     (if c1 then let! Limit := signed_result INT64 L1 in Ok (p1 Limit)
      else Ok false) in
   let! Bad :=
     (if (First : bool) then Ok true
      else if c2 then let! Limit := signed_result INT64 L2 in Ok (p2 Limit)
      else Ok false) in
   if (Bad : bool) then Ok (EFI_BUFFER_TOO_SMALL, Some INT64_ERROR)
   else let! r := signed_result INT64 v in Ok (EFI_SUCCESS, Some r)) =
  Ok (checked (range INT64) INT64_ERROR v false).
Proof.
  intros H1 H2 Hf. unfold checked. rewrite range_inside.
  rewrite !guard_limit by done. cbn [mbind result_bind].
  destruct (fits INT64 v) eqn:Hv; cbn [negb] in Hf.
  - apply orb_false_iff in Hf as [-> Hf]. rewrite Hf. cbn [mbind result_bind].
    by rewrite signed_result_Ok.
  - destruct (c1 && p1 L1); [done|]. cbn [orb] in Hf. by rewrite Hf.
Qed.

Lemma INT64_add_checked a b ResultIsNull :
  fits INT64 a = true -> fits INT64 b = true ->
  SafeInt64Add a b ResultIsNull =
  Ok (checked (range INT64) INT64_ERROR (a + b) ResultIsNull).
Proof.
  rewrite !fits_INT64. intros Ha Hb. unfold SafeInt64Add.
  destruct ResultIsNull; [done|].
  apply guarded_int64; rewrite ?fits_INT64; unfold MAX_INT64, MIN_INT64.
  - bool_to_prop. lia.
  - bool_to_prop. lia.
  - apply eq_true_iff_eq. rewrite negb_true_iff, <-not_true_iff_false, fits_INT64.
    bool_to_prop. lia.
Qed.

Lemma INT64_sub_checked a b ResultIsNull :
  fits INT64 a = true -> fits INT64 b = true ->
  SafeInt64Sub a b ResultIsNull =
  Ok (checked (range INT64) INT64_ERROR (a - b) ResultIsNull).
Proof.
  rewrite !fits_INT64. intros Ha Hb. unfold SafeInt64Sub.
  destruct ResultIsNull; [done|].
  apply guarded_int64; rewrite ?fits_INT64; unfold MAX_INT64, MIN_INT64.
  - bool_to_prop. lia.
  - bool_to_prop. lia.
  - apply eq_true_iff_eq. rewrite negb_true_iff, <-not_true_iff_false, fits_INT64.
    bool_to_prop. lia.
Qed.

Lemma Magnitude_abs x : fits INT64 x = true -> Magnitude x = Ok (Z.abs x).
Proof.
  rewrite fits_INT64. intros Hx. unfold Magnitude.
  destruct (Z.ltb_spec x 0).
  - rewrite signed_result_Ok by (apply fits_INT64; lia). cbn [mbind result_bind].
    rewrite signed_result_Ok by (apply fits_INT64; lia). cbn [mbind result_bind].
    f_equal. rewrite cast_fits by (done || rewrite fits_UINT64; bool_to_prop; lia).
    rewrite wrap_small by lia. lia.
  - f_equal. rewrite cast_fits by (done || rewrite fits_UINT64; bool_to_prop; lia).
    lia.
Qed.

(** Giving the product of the magnitudes its sign. *)
Lemma apply_sign (same : bool) v :
  (same = true -> 0 <= v) -> (same = false -> v <= 0) ->
  (if negb same then
     if Z.abs v >? 2 ^ 63 then Ok (EFI_BUFFER_TOO_SMALL, Some INT64_ERROR)
     else if Z.abs v =? 2 ^ 63 then Ok (EFI_SUCCESS, Some (- 2 ^ 63))
     else
       let! r := signed_result INT64 (- cast INT64 (Z.abs v)) in
       Ok (EFI_SUCCESS, Some r)
   else
     if Z.abs v >? 2 ^ 63 - 1 then Ok (EFI_BUFFER_TOO_SMALL, Some INT64_ERROR)
     else Ok (EFI_SUCCESS, Some (cast INT64 (Z.abs v)))) =
  Ok (if fits INT64 v then (EFI_SUCCESS, Some v)
      else (EFI_BUFFER_TOO_SMALL, Some INT64_ERROR)).
Proof.
  intros Hs Hd. destruct (fits INT64 v) eqn:Hf;
    [apply fits_INT64 in Hf
    |apply not_true_iff_false in Hf; rewrite fits_INT64 in Hf];
    destruct same; cbn [negb].
  - specialize (Hs eq_refl).
    destruct (Z.gtb_spec (Z.abs v) (2 ^ 63 - 1)); [lia|].
    rewrite cast_fits by (done || apply fits_INT64; lia). do 3 f_equal. lia.
  - specialize (Hd eq_refl). destruct (Z.gtb_spec (Z.abs v) (2 ^ 63)); [lia|].
    destruct (Z.eqb_spec (Z.abs v) (2 ^ 63)); [do 3 f_equal; lia|].
    rewrite (cast_fits INT64 (Z.abs v)) by (done || apply fits_INT64; lia).
    rewrite signed_result_Ok by (apply fits_INT64; lia). cbn [mbind result_bind].
    do 3 f_equal. lia.
  - specialize (Hs eq_refl).
    by destruct (Z.gtb_spec (Z.abs v) (2 ^ 63 - 1)); [|lia].
  - specialize (Hd eq_refl). by destruct (Z.gtb_spec (Z.abs v) (2 ^ 63)); [|lia].
Qed.

Lemma INT64_mult_checked a b ResultIsNull :
  fits INT64 a = true -> fits INT64 b = true ->
  SafeInt64Mult a b ResultIsNull =
  Ok (checked (range INT64) INT64_ERROR (a * b) ResultIsNull).
Proof.
  intros Ha Hb. unfold SafeInt64Mult. destruct ResultIsNull; [done|].
  rewrite !Magnitude_abs by done. cbn [mbind result_bind].
  apply fits_INT64 in Ha, Hb.
  rewrite Uint64Mult_checked, <-Z.abs_mul by lia. cbn [mbind result_bind].
  unfold checked at 1 2 3 4 5 6 7. rewrite !range_inside, fits_UINT64.
  rewrite (proj2 (Z.leb_le 0 _)) by lia. cbn [andb].
  assert (Bool.eqb (a <? 0) (b <? 0) = true -> 0 <= a * b) as Hsame.
  { intros E%eqb_prop. destruct (Z.ltb_spec a 0), (Z.ltb_spec b 0); done || nia. }
  assert (Bool.eqb (a <? 0) (b <? 0) = false -> a * b <= 0) as Hdiff.
  { intros E%eqb_false_iff. destruct (Z.ltb_spec a 0), (Z.ltb_spec b 0); done || nia. }
  set (v := a * b) in *. clearbody v.
  change MIN_INT64_MAGNITUDE with (2 ^ 63). change MAX_INT64 with (2 ^ 63 - 1).
  change MIN_INT64 with (- 2 ^ 63).
  destruct (Z.ltb_spec (Z.abs v) (2 ^ 64)).
  - cbn [fst snd stored deref EFI_ERROR negb mbind result_bind].
    by apply apply_sign.
  - cbn [fst EFI_ERROR negb]. rewrite (not_true_is_false (fits INT64 v)); [done|].
    rewrite fits_INT64. lia.
Qed.

(** A product or sum of narrow operands fits the wider type. *)
Ltac narrow T :=
  let Ha := fresh in let Hb := fresh in
  intros Ha Hb; apply (wide_result T);
  [ apply conversion_holds; find_row | eval_fits; nia ].

Lemma cast_small T U x :
  0 < width U -> min_of U <= min_of T -> max_of T <= max_of U ->
  fits T x = true -> cast U x = x.
Proof. intros Hw H1 H2. rewrite fits_spec. intros Hx. apply cast_fits; [done|]. apply fits_spec. lia. Qed.

Lemma unsigned_mult T U err (f : Z -> bool -> outcome) a b ResultIsNull :
  signed T = false -> signed U = false -> 2 * width T <= width U ->
  0 < width T -> converts (Conversion U (range T) err f) ->
  fits T a = true -> fits T b = true ->
  f (wrap (width U) (cast U a * cast U b)) ResultIsNull =
  checked (range T) err (a * b) ResultIsNull.
Proof.
  intros HT HU Hw H0 Hf Ha Hb.
  destruct (wide_product T U a b HT HU Hw H0 Ha Hb) as [-> Hfit].
  by apply Hf.
Qed.

Lemma operations_unsigned : Forall computes (take 12 operations).
Proof.
  unfold operations. cbn [take]. rewrite !Forall_cons.
  split_and!; [..|by constructor]; intros a b n; cbn [operand error_of exact run];
    intros Ha Hb; unfold pure.
  - apply f_equal. by apply (checked_add UINT8).
  - apply f_equal. by apply (checked_add UINT16).
  - apply f_equal. by apply (checked_add UINT32).
  - apply f_equal. by apply (checked_add UINT64).
  - apply f_equal. by apply (checked_sub UINT8).
  - apply f_equal. by apply (checked_sub UINT16).
  - apply f_equal. by apply (checked_sub UINT32).
  - apply f_equal. by apply (checked_sub UINT64).
  - apply f_equal, (unsigned_mult UINT8 UINT32); try done.
    apply conversion_holds. find_row.
  - apply f_equal, (unsigned_mult UINT16 UINT32); try done.
    apply conversion_holds. find_row.
  - apply f_equal, (unsigned_mult UINT32 UINT64); try done.
    apply conversion_holds. find_row.
  - rewrite fits_UINT64 in Ha, Hb. bool_to_prop. by apply Uint64Mult_checked.
Qed.

(** [cast] of an operand to a wider type. *)
Ltac widen T U :=
  rewrite !(cast_small T U) by first [assumption | done].

Lemma operations_signed : Forall computes (drop 12 operations).
Proof.
  unfold operations. cbn [drop]. rewrite !Forall_cons.
  split_and!; [..|by constructor]; intros a b n; cbn [operand error_of exact run];
    intros Ha Hb.
  - unfold SafeInt8Add. widen INT8 INT32. revert Ha Hb. narrow INT32.
  - unfold SafeInt16Add. widen INT16 INT32. revert Ha Hb. narrow INT32.
  - unfold SafeInt32Add. widen INT32 INT64. revert Ha Hb. narrow INT64.
  - by apply INT64_add_checked.
  - unfold SafeInt8Sub. widen INT8 INT32. revert Ha Hb. narrow INT32.
  - unfold SafeInt16Sub. widen INT16 INT32. revert Ha Hb. narrow INT32.
  - unfold SafeInt32Sub. widen INT32 INT64. revert Ha Hb. narrow INT64.
  - by apply INT64_sub_checked.
  - unfold SafeInt8Mult. widen INT8 INT32. rewrite Z.mul_comm.
    revert Ha Hb. narrow INT32.
  - unfold SafeInt16Mult. widen INT16 INT32. revert Ha Hb. narrow INT32.
  - unfold SafeInt32Mult.
    assert (fits INT64 (a * b) = true) as Hf by (eval_fits; nia).
    rewrite MultS64x64_exact by done. apply f_equal.
    apply (conversion_holds (Conversion INT64 (range INT32) INT32_ERROR
      SafeInt64ToInt32)); [find_row|done].
  - by apply INT64_mult_checked.
Qed.

Lemma operations_hold : Forall computes operations.
Proof.
  rewrite <-(take_drop 12 operations), Forall_app.
  split; [apply operations_unsigned|apply operations_signed].
Qed.

(** C28: Every addition, subtraction and multiplication of SafeIntLib, signed
    or not, from 8 to 64 bits, returns the exact result when its type holds
    it, and otherwise reports it with the error value stored; on the way
    nothing wraps unnoticed and no signed operation overflows. *)
Theorem SafeInt_operations_exact : Forall computes operations.
Proof. exact operations_hold. Qed.

(** ** CHAR8 *)

(** What the CHAR8 operations promise: operands and result are ASCII. *)
Definition checked_ascii (a b v : Z) (ResultIsNull : bool) : outcome :=
  if ResultIsNull then (EFI_INVALID_PARAMETER, None)
  else if inside ascii a && inside ascii b && inside ascii v
  then (EFI_SUCCESS, Some v)
  else (EFI_BUFFER_TOO_SMALL, Some CHAR8_ERROR).

Lemma fits_CHAR8 a : fits CHAR8 a = true -> -128 <= a <= 255.
Proof.
  unfold CHAR8. destruct char_is_signed; rewrite fits_spec; eval_bounds; lia.
Qed.

(** The body shared by the three operations, [v] the wide result. *)
Lemma ascii_body a b v (ResultIsNull : bool) :
  -128 <= a <= 255 -> -128 <= b <= 255 ->
  (inside ascii a = true -> inside ascii b = true -> fits INT32 v = true) ->
  (if ResultIsNull then Ok (EFI_INVALID_PARAMETER, None)
   else
     if (a <? 0) || (a >? MAX_INT8) then Ok (EFI_BUFFER_TOO_SMALL, Some CHAR8_ERROR)
     else if (b <? 0) || (b >? MAX_INT8) then
       Ok (EFI_BUFFER_TOO_SMALL, Some CHAR8_ERROR)
     else
       let! r := signed_result INT32 v in Ok (SafeInt32ToChar8 r ResultIsNull)) =
  Ok (checked_ascii a b v ResultIsNull).
Proof.
  intros Ha Hb Hv. unfold checked_ascii. destruct ResultIsNull; [done|].
  assert (forall x, (x <? 0) || (x >? MAX_INT8) = negb (inside ascii x)) as Hr.
  { intros x. unfold inside, ascii, MAX_INT8. cbn [fst snd].
    apply eq_true_iff_eq. bool_to_prop. lia. }
  rewrite !Hr. destruct (inside ascii a); [|done]. cbn [negb andb].
  destruct (inside ascii b); [|done]. cbn [negb andb].
  rewrite (wide_result INT32 _ SafeInt32ToChar8 ascii CHAR8_ERROR); [done| |auto].
  apply conversion_holds. find_row.
Qed.

(** The CHAR8 operations accept ASCII operands only and report, like any
    overflow, operands outside ASCII and results outside ASCII, whether
    [char] is signed or not. *)
Theorem SafeChar8_exact Augend Addend ResultIsNull :
  fits CHAR8 Augend = true -> fits CHAR8 Addend = true ->
  SafeChar8Add Augend Addend ResultIsNull =
    Ok (checked_ascii Augend Addend (Augend + Addend) ResultIsNull) /\
  SafeChar8Sub Augend Addend ResultIsNull =
    Ok (checked_ascii Augend Addend (Augend - Addend) ResultIsNull) /\
  SafeChar8Mult Augend Addend ResultIsNull =
    Ok (checked_ascii Augend Addend (Augend * Addend) ResultIsNull).
Proof.
  intros Ha%fits_CHAR8 Hb%fits_CHAR8.
  assert (forall x, -128 <= x <= 255 -> cast INT32 x = x) as Hc.
  { intros x Hx. apply cast_fits; [done|]. rewrite fits_spec. eval_bounds. lia. }
  unfold SafeChar8Add, SafeChar8Sub, SafeChar8Mult. rewrite !Hc by done.
  split_and!; apply ascii_body; try done;
    unfold inside, ascii, MAX_INT8; cbn [fst snd]; rewrite fits_spec; eval_bounds;
    bool_to_prop; nia.
Qed.

(** ** INTN and UINTN *)

(** The functions of which each target has its own version. *)
Record intn_library := {
  Int32ToUintn : Z -> bool -> outcome;
  Uint32ToIntn : Z -> bool -> outcome;
  IntnToInt32 : Z -> bool -> outcome;
  IntnToUint32 : Z -> bool -> outcome;
  UintnToUint32 : Z -> bool -> outcome;
  UintnToInt64 : Z -> bool -> outcome;
  Int64ToIntn : Z -> bool -> outcome;
  Int64ToUintn : Z -> bool -> outcome;
  Uint64ToUintn : Z -> bool -> outcome;
  UintnAdd : Z -> Z -> bool -> result outcome;
  UintnSub : Z -> Z -> bool -> result outcome;
  UintnMult : Z -> Z -> bool -> result outcome;
  IntnAdd : Z -> Z -> bool -> result outcome;
  IntnSub : Z -> Z -> bool -> result outcome;
  IntnMult : Z -> Z -> bool -> result outcome
}.

Definition intn_conversions (L : intn_library) : list conversion :=
  [Conversion INT32 (range UINTN) UINTN_ERROR (Int32ToUintn L);
   Conversion UINT32 (range INTN) INTN_ERROR (Uint32ToIntn L);
   Conversion INTN (range INT32) INT32_ERROR (IntnToInt32 L);
   Conversion INTN (range UINT32) UINT32_ERROR (IntnToUint32 L);
   Conversion UINTN (range UINT32) UINT32_ERROR (UintnToUint32 L);
   Conversion UINTN (range INT64) INT64_ERROR (UintnToInt64 L);
   Conversion INT64 (range INTN) INTN_ERROR (Int64ToIntn L);
   Conversion INT64 (range UINTN) UINTN_ERROR (Int64ToUintn L);
   Conversion UINT64 (range UINTN) UINTN_ERROR (Uint64ToUintn L)].

Definition intn_operations (L : intn_library) : list operation :=
  [Operation UINTN UINTN_ERROR Z.add (UintnAdd L);
   Operation UINTN UINTN_ERROR Z.sub (UintnSub L);
   Operation UINTN UINTN_ERROR Z.mul (UintnMult L);
   Operation INTN INTN_ERROR Z.add (IntnAdd L);
   Operation INTN INTN_ERROR Z.sub (IntnSub L);
   Operation INTN INTN_ERROR Z.mul (IntnMult L)].

Definition intn_exact (L : intn_library) : Prop :=
  Forall converts (intn_conversions L) /\ Forall computes (intn_operations L).

Definition library64 : intn_library := {|
  Int32ToUintn := SafeIntLib64.SafeInt32ToUintn;
  Uint32ToIntn := SafeIntLib64.SafeUint32ToIntn;
  IntnToInt32 := SafeIntLib64.SafeIntnToInt32;
  IntnToUint32 := SafeIntLib64.SafeIntnToUint32;
  UintnToUint32 := SafeIntLib64.SafeUintnToUint32;
  UintnToInt64 := SafeIntLib64.SafeUintnToInt64;
  Int64ToIntn := SafeIntLib64.SafeInt64ToIntn;
  Int64ToUintn := SafeIntLib64.SafeInt64ToUintn;
  Uint64ToUintn := SafeIntLib64.SafeUint64ToUintn;
  UintnAdd := pure SafeIntLib64.SafeUintnAdd;
  UintnSub := pure SafeIntLib64.SafeUintnSub;
  UintnMult := SafeIntLib64.SafeUintnMult;
  IntnAdd := SafeIntLib64.SafeIntnAdd;
  IntnSub := SafeIntLib64.SafeIntnSub;
  IntnMult := SafeIntLib64.SafeIntnMult |}.

Definition library32 : intn_library := {|
  Int32ToUintn := SafeIntLib32.SafeInt32ToUintn;
  Uint32ToIntn := SafeIntLib32.SafeUint32ToIntn;
  IntnToInt32 := SafeIntLib32.SafeIntnToInt32;
  IntnToUint32 := SafeIntLib32.SafeIntnToUint32;
  UintnToUint32 := SafeIntLib32.SafeUintnToUint32;
  UintnToInt64 := SafeIntLib32.SafeUintnToInt64;
  Int64ToIntn := SafeIntLib32.SafeInt64ToIntn;
  Int64ToUintn := SafeIntLib32.SafeInt64ToUintn;
  Uint64ToUintn := SafeIntLib32.SafeUint64ToUintn;
  UintnAdd := pure SafeIntLib32.SafeUintnAdd;
  UintnSub := pure SafeIntLib32.SafeUintnSub;
  UintnMult := pure SafeIntLib32.SafeUintnMult;
  IntnAdd := SafeIntLib32.SafeIntnAdd;
  IntnSub := SafeIntLib32.SafeIntnSub;
  IntnMult := SafeIntLib32.SafeIntnMult |}.

Definition libraryEbc : intn_library := {|
  Int32ToUintn := SafeIntLibEbc.SafeInt32ToUintn;
  Uint32ToIntn := SafeIntLibEbc.SafeUint32ToIntn;
  IntnToInt32 := SafeIntLibEbc.SafeIntnToInt32;
  IntnToUint32 := SafeIntLibEbc.SafeIntnToUint32;
  UintnToUint32 := SafeIntLibEbc.SafeUintnToUint32;
  UintnToInt64 := SafeIntLibEbc.SafeUintnToInt64;
  Int64ToIntn := SafeIntLibEbc.SafeInt64ToIntn;
  Int64ToUintn := SafeIntLibEbc.SafeInt64ToUintn;
  Uint64ToUintn := SafeIntLibEbc.SafeUint64ToUintn;
  UintnAdd := pure SafeIntLibEbc.SafeUintnAdd;
  UintnSub := pure SafeIntLibEbc.SafeUintnSub;
  UintnMult := SafeIntLibEbc.SafeUintnMult;
  IntnAdd := SafeIntLibEbc.SafeIntnAdd;
  IntnSub := SafeIntLibEbc.SafeIntnSub;
  IntnMult := SafeIntLibEbc.SafeIntnMult |}.

(** Storing a value that always fits. *)
Lemma stored_as_is T r error v (ResultIsNull : bool) :
  0 < width T -> fits T v = true -> inside r v = true ->
  (if ResultIsNull then (EFI_INVALID_PARAMETER, None)
   else (EFI_SUCCESS, Some (cast T v))) = checked r error v ResultIsNull.
Proof.
  intros Hw Hf Hr. unfold checked. by rewrite Hr, cast_fits.
Qed.

Ltac fix_width E :=
  unfold UINTN_ERROR, INTN_ERROR, MAX_UINTN, UINTN, INTN in *;
  rewrite ?E in *; cbv iota.

(** A wrapper that only converts its operand and calls, or stores. *)
Ltac solve_wrapper E :=
  unfold_head; fix_width E;
  match goal with
  | Hv : fits ?s ?v = true |- ?t = _ =>
      first
      [ apply stored_as_is; [done|eval_fits; lia|unfold inside, range; cbn [fst snd];
          eval_fits; bool_to_prop; lia]
      | apply guarded_conversion; [done| |]; unfold inside, range; cbn [fst snd];
          [apply eq_true_iff_eq|]; eval_fits; bool_to_prop; lia
      | rewrite ?(cast_fits _ v) by done;
        match goal with
        | |- ?f _ _ = checked ?r ?e _ _ =>
            apply (conversion_holds (Conversion s r e f)); [find_row|done]
        end ]
  end.

Ltac open_conversions :=
  unfold intn_conversions; rewrite !Forall_cons;
  split_and!; [..|by constructor];
  let v := fresh "v" in let n := fresh "n" in let Hv := fresh "Hv" in
  intros v n; cbn [from to error_value convert Int32ToUintn Uint32ToIntn
    IntnToInt32 IntnToUint32 UintnToUint32 UintnToInt64 Int64ToIntn
    Int64ToUintn Uint64ToUintn library64 library32 libraryEbc]; intros Hv.

Lemma conversions_64 :
  uintn_is_64 = true -> Forall converts (intn_conversions library64).
Proof. intros H64. open_conversions; fix_width H64; solve_wrapper H64. Qed.

Lemma conversions_32 :
  uintn_is_64 = false -> Forall converts (intn_conversions library32).
Proof. intros H32. open_conversions; fix_width H32; solve_wrapper H32. Qed.

Lemma operation_row T err op f a b ResultIsNull :
  In (Operation T err op f) operations ->
  fits T a = true -> fits T b = true ->
  f a b ResultIsNull = Ok (checked (range T) err (op a b) ResultIsNull).
Proof.
  intros Hin. apply (proj1 (List.Forall_forall _ _) operations_hold _ Hin).
Qed.

Ltac open_operations :=
  unfold intn_operations; rewrite !Forall_cons;
  split_and!; [..|by constructor];
  let a := fresh "a" in let b := fresh "b" in let n := fresh "n" in
  let Ha := fresh "Ha" in let Hb := fresh "Hb" in
  intros a b n; cbn [operand error_of exact run UintnAdd UintnSub UintnMult
    IntnAdd IntnSub IntnMult library64 library32 libraryEbc];
  intros Ha Hb; unfold pure.

(** A call of a function of SafeIntLib.c on the same operands. *)
Ltac same_operation T err op f :=
  rewrite ?cast_fits by done; apply (operation_row T err op f); [find_row|done|done].

Lemma operations_64 :
  uintn_is_64 = true -> Forall computes (intn_operations library64).
Proof.
  intros H64. open_operations; fix_width H64.
  - unfold SafeIntLib64.SafeUintnAdd.
    same_operation UINT64 UINT64_ERROR Z.add (pure SafeUint64Add).
  - unfold SafeIntLib64.SafeUintnSub.
    same_operation UINT64 UINT64_ERROR Z.sub (pure SafeUint64Sub).
  - unfold SafeIntLib64.SafeUintnMult.
    same_operation UINT64 UINT64_ERROR Z.mul SafeUint64Mult.
  - unfold SafeIntLib64.SafeIntnAdd.
    same_operation INT64 INT64_ERROR Z.add SafeInt64Add.
  - unfold SafeIntLib64.SafeIntnSub.
    same_operation INT64 INT64_ERROR Z.sub SafeInt64Sub.
  - unfold SafeIntLib64.SafeIntnMult.
    same_operation INT64 INT64_ERROR Z.mul SafeInt64Mult.
Qed.

(** The conversions that the 32-bit operations end with. *)
Lemma narrowing_32 :
  uintn_is_64 = false ->
  converts (Conversion UINT64 (range UINT32) UINT32_ERROR
              SafeIntLib32.SafeUint64ToUintn) /\
  converts (Conversion INT64 (range INT32) INT32_ERROR
              SafeIntLib32.SafeInt64ToIntn).
Proof.
  intros H32. split; intros v n; cbn [from to error_value convert]; intros Hv;
    solve_wrapper H32.
Qed.

Lemma operations_32 :
  uintn_is_64 = false -> Forall computes (intn_operations library32).
Proof.
  intros H32. destruct (narrowing_32 H32) as [Hu Hi].
  open_operations; fix_width H32.
  - unfold SafeIntLib32.SafeUintnAdd. fix_width H32.
    apply f_equal. by apply (checked_add UINT32).
  - unfold SafeIntLib32.SafeUintnSub. fix_width H32.
    apply f_equal. by apply (checked_sub UINT32).
  - apply f_equal. by apply (unsigned_mult UINT32 UINT64).
  - unfold SafeIntLib32.SafeIntnAdd. rewrite !(cast_small INT32 INT64) by done.
    apply (wide_result INT64); [done|]. eval_fits. lia.
  - unfold SafeIntLib32.SafeIntnSub. rewrite !(cast_small INT32 INT64) by done.
    apply (wide_result INT64); [done|]. eval_fits. lia.
  - unfold SafeIntLib32.SafeIntnMult.
    assert (fits INT64 (a * b) = true) as Hf by (eval_fits; nia).
    rewrite MultS64x64_exact by done. by apply f_equal, Hi.
Qed.

(** ** The EBC version

    Its run-time choice makes it agree, call by call, with the version of
    the target. *)

Definition agree_conversions (c c' : conversion) : Prop :=
  from c = from c' /\ to c = to c' /\ error_value c = error_value c' /\
  forall v ResultIsNull, convert c v ResultIsNull = convert c' v ResultIsNull.

Definition agree_operations (o o' : operation) : Prop :=
  operand o = operand o' /\ error_of o = error_of o' /\ exact o = exact o' /\
  forall a b ResultIsNull,
    fits (operand o) a = true -> fits (operand o) b = true ->
    run o a b ResultIsNull = run o' a b ResultIsNull.

Definition agree (L L' : intn_library) : Prop :=
  Forall2 agree_conversions (intn_conversions L) (intn_conversions L') /\
  Forall2 agree_operations (intn_operations L) (intn_operations L').

Lemma agree_exact L L' : agree L L' -> intn_exact L' -> intn_exact L.
Proof.
  intros [Hc Ho] [Hc' Ho']. split.
  - revert Hc'. induction Hc as [|c c' l l' (E1 & E2 & E3 & E4) _ IH]; [done|].
    rewrite !Forall_cons. intros [Hx Hl]. split; [|by apply IH].
    intros v n. rewrite E1, E2, E3, E4. apply Hx.
  - revert Ho'. induction Ho as [|o o' l l' (E1 & E2 & E3 & E4) _ IH]; [done|].
    rewrite !Forall_cons. intros [Hx Hl]. split; [|by apply IH].
    intros a b n Ha Hb. rewrite E4, E2, E3 by done. rewrite E1 in *. by apply Hx.
Qed.

Lemma UINTN_is_32_eq : SafeIntLibEbc.UINTN_is_32 = negb uintn_is_64.
Proof. unfold SafeIntLibEbc.UINTN_is_32, UINTN. by destruct uintn_is_64. Qed.

Lemma narrow_sum x :
  uintn_is_64 = false ->
  cast UINT32 (wrap (width UINTN) x) = wrap (width UINTN) x.
Proof. intros E. unfold UINTN. rewrite E. exact (wrap_wrap 32 x ltac:(lia)). Qed.

(** Both versions of a function, by cases on the NULL test. *)
Ltac same_function E :=
  intros;
  match goal with n : bool |- _ => destruct n end;
  cbv [convert run Int32ToUintn Uint32ToIntn IntnToInt32 IntnToUint32
    UintnToUint32 UintnToInt64 Int64ToIntn Int64ToUintn Uint64ToUintn UintnAdd
    UintnSub UintnMult IntnAdd IntnSub IntnMult library64 library32 libraryEbc
    pure];
  unfold SafeIntLibEbc.SafeUintnAdd,
    SafeIntLibEbc.SafeUintnSub, SafeIntLibEbc.SafeUintnMult,
    SafeIntLibEbc.SafeIntnAdd, SafeIntLibEbc.SafeIntnSub,
    SafeIntLibEbc.SafeIntnMult,
    SafeIntLibEbc.SafeInt32ToUintn, SafeIntLibEbc.SafeUint32ToIntn,
    SafeIntLibEbc.SafeIntnToInt32, SafeIntLibEbc.SafeIntnToUint32,
    SafeIntLibEbc.SafeUintnToUint32, SafeIntLibEbc.SafeUintnToInt64,
    SafeIntLibEbc.SafeInt64ToIntn, SafeIntLibEbc.SafeInt64ToUintn,
    SafeIntLibEbc.SafeUint64ToUintn;
  rewrite ?UINTN_is_32_eq, ?E; reflexivity.

Lemma Ebc_agrees_64 : uintn_is_64 = true -> agree libraryEbc library64.
Proof.
  intros E. unfold agree, intn_conversions, intn_operations.
  split; (repeat constructor); same_function E.
Qed.

Lemma Ebc_add_32 a b ResultIsNull :
  uintn_is_64 = false ->
  SafeIntLibEbc.SafeUintnAdd a b ResultIsNull =
  SafeIntLib32.SafeUintnAdd a b ResultIsNull.
Proof.
  intros E. unfold SafeIntLibEbc.SafeUintnAdd.
  by rewrite UINTN_is_32_eq, E, narrow_sum.
Qed.

Lemma Ebc_mult_32 a b ResultIsNull :
  uintn_is_64 = false -> fits INTN a = true -> fits INTN b = true ->
  SafeIntLibEbc.SafeIntnMult a b ResultIsNull =
  SafeIntLib32.SafeIntnMult a b ResultIsNull.
Proof.
  intros E. unfold INTN. rewrite E. intros Ha Hb.
  assert (fits INT64 (a * b) = true) as Hf by (eval_fits; nia).
  unfold SafeIntLibEbc.SafeIntnMult, SafeIntLib32.SafeIntnMult,
    SafeIntLibEbc.SafeInt64ToIntn.
  rewrite UINTN_is_32_eq, E. cbn [negb].
  rewrite !(cast_small INT32 INT64) by done.
  rewrite signed_result_Ok, MultS64x64_exact by done.
  by destruct ResultIsNull.
Qed.

Lemma Ebc_agrees_32 : uintn_is_64 = false -> agree libraryEbc library32.
Proof.
  intros E. unfold agree, intn_conversions, intn_operations.
  split; (repeat constructor);
    first [same_function E
          | intros; apply (f_equal Ok); by apply Ebc_add_32
          | intros; by apply Ebc_mult_32].
Qed.

(** On every target the functions on INTN and UINTN keep the same
    promise as the fixed-width ones: those of SafeIntLib64.c when UINTN has
    64 bits, those of SafeIntLib32.c when it has 32, and those of
    SafeIntLibEbc.c, which choose at run time, in both cases. *)
Theorem SafeIntn_exact :
  (uintn_is_64 = true -> intn_exact library64) /\
  (uintn_is_64 = false -> intn_exact library32) /\
  intn_exact libraryEbc.
Proof.
  assert (uintn_is_64 = true -> intn_exact library64) as H64.
  { intros E. by split; [apply conversions_64|apply operations_64]. }
  assert (uintn_is_64 = false -> intn_exact library32) as H32.
  { intros E. by split; [apply conversions_32|apply operations_32]. }
  split_and!; [done|done|]. destruct uintn_is_64 eqn:E.
  - by apply (agree_exact _ library64); [apply Ebc_agrees_64|apply H64].
  - by apply (agree_exact _ library32); [apply Ebc_agrees_32|apply H32].
Qed.

End Theorems.

(** * Witnesses *)

Module SafeIntWitness.
Import SafeIntLib.

#[local] Existing Instance X64.

Lemma SafeChar8_exact_witness :
  SafeChar8Add 65 1 false = Ok (EFI_SUCCESS, Some 66) /\
  SafeChar8Add 65 (-1) false = Ok (EFI_BUFFER_TOO_SMALL, Some 127).
Proof.
  split.
  - destruct (SafeChar8_exact 65 1 false) as [E _]; [reflexivity..|].
    rewrite E. reflexivity.
  - destruct (SafeChar8_exact 65 (-1) false) as [E _]; [reflexivity..|].
    rewrite E. reflexivity.
Defined.

Example SafeInt64Mult_limits :
  SafeInt64Mult (- 2 ^ 62) 2 false = Ok (EFI_SUCCESS, Some (- 2 ^ 63)) /\
  SafeInt64Mult (2 ^ 62) 2 false = Ok (EFI_BUFFER_TOO_SMALL, Some (-1)) /\
  SafeInt64Mult (- 2 ^ 63) (-1) false = Ok (EFI_BUFFER_TOO_SMALL, Some (-1)).
Proof. vm_compute. auto. Qed.

Lemma SafeIntn_exact_witness : intn_exact library64.
Proof. apply SafeIntn_exact. reflexivity. Defined.

End SafeIntWitness.
