(* ===== verification/Depex.v ===== *)
(** Dependency expressions: the DXE evaluator
    (MdeModulePkg/Core/Dxe/Dispatcher/Dependency.c) and the PEI evaluator
    (MdeModulePkg/Core/Pei/Dependency/Dependency.c).

    Module [DepexStack] is the growable BOOLEAN stack of the DXE core, module
    [Dxe] is [CorePreProcessDepex]/[CoreIsSchedulable], module [Pei] is
    [PeimDispatchReadiness].  Module [Expr] holds the reference semantics: the
    boolean expression that a postfix byte string encodes. *)

From S2P Require Import Prelude.

(** * Opcodes (MdePkg/Include/Pi/PiDependency.h and DxeMain.h) *)

Definition EFI_DEP_BEFORE : Z := 0x00.
Definition EFI_DEP_AFTER : Z := 0x01.
Definition EFI_DEP_PUSH : Z := 0x02.
Definition EFI_DEP_AND : Z := 0x03.
Definition EFI_DEP_OR : Z := 0x04.
Definition EFI_DEP_NOT : Z := 0x05.
Definition EFI_DEP_TRUE : Z := 0x06.
Definition EFI_DEP_FALSE : Z := 0x07.
Definition EFI_DEP_END : Z := 0x08.
Definition EFI_DEP_SOR : Z := 0x09.
Definition EFI_DEP_REPLACE_TRUE : Z := 0xff.

(** An [EFI_GUID] is its 16 bytes. *)
Abbreviation EFI_GUID := (list Z).
Definition sizeof_EFI_GUID : nat := 16.

(** What the evaluators ask of the protocol (PPI) database: does
    [CoreLocateProtocol (&Guid, NULL, &Interface)], respectively
    [PeiServicesLocatePpi], succeed for this GUID? *)
Class ProtocolDatabase := LocateProtocol : EFI_GUID -> EFI_STATUS.

Definition installed {db : ProtocolDatabase} (g : EFI_GUID) : bool :=
  negb (EFI_ERROR (LocateProtocol g)).

(** * The BOOLEAN stack of Dependency.c *)

Module DepexStack.

Definition DEPEX_STACK_SIZE_INCREMENT : nat := N.to_nat 0x1000.

(** [mDepexEvaluationStack]: [None] is the [NULL] pointer; a cell is [None]
    until it is written.  [mDepexEvaluationStackPointer] is the offset
    [Pointer]; [mDepexEvaluationStackEnd] is the end of the buffer. *)
Record stack := MkStack { Buffer : option (list (option bool)); Pointer : nat }.

Definition cells (st : stack) : list (option bool) := default [] (Buffer st).

Section Ops.
(** Whether the pool allocator can serve a request of that many bytes. *)
Context (AllocatePool : nat -> bool).

Definition GrowDepexStack (st : stack) : EFI_STATUS * stack :=
  let Size := (DEPEX_STACK_SIZE_INCREMENT + length (cells st))%nat in
  if negb (AllocatePool Size) then (EFI_OUT_OF_RESOURCES, st)
  else
    let NewStack := cells st ++ replicate DEPEX_STACK_SIZE_INCREMENT None in
    (EFI_SUCCESS, MkStack (Some NewStack) (Pointer st)).

Definition PushBool (Value : bool) (st : stack) : result (EFI_STATUS * stack) :=
  let '(Status, st) :=
    if (Pointer st =? length (cells st))%nat then GrowDepexStack st
    else (EFI_SUCCESS, st) in
  if EFI_ERROR Status then Ok (Status, st)
  else if (Pointer st <? length (cells st))%nat then
    Ok (EFI_SUCCESS,
        MkStack (Some (<[Pointer st := Some Value]> (cells st))) (S (Pointer st)))
  else BadAccess.

(** [Value] is the variable the popped BOOLEAN is stored into. *)
Definition PopBool (Value : bool) (st : stack) : result (EFI_STATUS * bool * stack) :=
  match Pointer st with
  | O => Ok (EFI_ACCESS_DENIED, Value, st)
  | S p =>
      let! v := deref (mjoin (cells st !! p)) in
      Ok (EFI_SUCCESS, v, MkStack (Buffer st) p)
  end.
End Ops.

Lemma DEPEX_STACK_SIZE_INCREMENT_pos : (0 < DEPEX_STACK_SIZE_INCREMENT)%nat.
Proof. apply Nat.ltb_lt. vm_compute. reflexivity. Qed.

#[global] Opaque DEPEX_STACK_SIZE_INCREMENT.

(** The initial value of the three global pointers. *)
Definition NULL_stack : stack := MkStack None 0.

(** ** Refinement of a list of BOOLEANs (top first) *)

Definition repr (st : stack) (l : list bool) : Prop :=
  (Pointer st <= length (cells st))%nat /\
  take (Pointer st) (cells st) = Some <$> reverse l.

(** The part of the invariant that survives resetting the pointer. *)
Lemma repr_NULL : repr NULL_stack [].
Proof. done. Qed.

Lemma repr_reset st l : repr st l -> repr (MkStack (Buffer st) 0) [].
Proof. intros _. split; [simpl; lia|done]. Qed.

Lemma repr_Pointer st l : repr st l -> Pointer st = length l.
Proof.
  intros [Hle Htk]. apply (f_equal length) in Htk.
  rewrite length_take, length_fmap, length_reverse in Htk. lia.
Qed.

Lemma repr_grow AllocatePool st l :
  repr st l -> repr (GrowDepexStack AllocatePool st).2 l.
Proof.
  intros [Hle Htk]. unfold GrowDepexStack.
  destruct (AllocatePool _); simpl; [|done].
  split; unfold cells; simpl.
  - rewrite length_app. unfold cells in Hle. lia.
  - unfold cells in *. rewrite take_app_le by done. done.
Qed.

Lemma cells_Some b p : cells (MkStack (Some b) p) = b.
Proof. done. Qed.

(** Writing above the pointer of a stack with room. *)
Lemma repr_write st l v :
  repr st l -> (Pointer st < length (cells st))%nat ->
  repr (MkStack (Some (<[Pointer st := Some v]> (cells st))) (S (Pointer st))) (v :: l).
Proof.
  intros [Hle Htk] Hlt. split; rewrite cells_Some; cbn [Pointer].
  - rewrite length_insert. lia.
  - rewrite (take_S_r _ _ (Some v)) by (by apply list_lookup_insert_eq).
    rewrite take_insert_ge by lia. rewrite Htk, reverse_cons, fmap_app. done.
Qed.

(** After a successful grow there is room for one more cell. *)
Lemma grow_room AllocatePool st st' :
  (Pointer st <= length (cells st))%nat ->
  GrowDepexStack AllocatePool st = (EFI_SUCCESS, st') ->
  (Pointer st' < length (cells st'))%nat.
Proof.
  unfold GrowDepexStack. destruct (AllocatePool _); simpl; intros; simplify_eq.
  rewrite cells_Some, length_app, length_replicate. cbn [Pointer].
  pose proof DEPEX_STACK_SIZE_INCREMENT_pos. lia.
Qed.

(** [PushBool] pushes, or reports [EFI_OUT_OF_RESOURCES] and changes nothing;
    it never writes outside the buffer. *)
Lemma PushBool_repr AllocatePool v st l :
  repr st l ->
  (exists st', PushBool AllocatePool v st = Ok (EFI_SUCCESS, st') /\ repr st' (v :: l)) \/
  (PushBool AllocatePool v st = Ok (EFI_OUT_OF_RESOURCES, st) /\
   AllocatePool (DEPEX_STACK_SIZE_INCREMENT + length (cells st))%nat = false).
Proof.
  intros Hr. pose proof (repr_grow AllocatePool st l Hr) as Hg.
  pose proof (grow_room AllocatePool st) as Hroom. destruct Hr as [Hle Htk].
  unfold PushBool. destruct (Nat.eqb_spec (Pointer st) (length (cells st))) as [He|Hne].
  - unfold GrowDepexStack in *. destruct (AllocatePool _) eqn:Ha; cbn [negb EFI_ERROR snd] in *; [|by right].
    left. specialize (Hroom _ Hle eq_refl). rewrite (proj2 (Nat.ltb_lt _ _) Hroom).
    eexists; split; [done|]. by apply (repr_write _ _ v Hg).
  - left. simpl. rewrite (proj2 (Nat.ltb_lt _ _)) by lia.
    eexists; split; [done|]. apply repr_write; [done|lia].
Qed.

(** [PopBool] pops the value last pushed, or denies the access to an empty
    stack; it never reads an unwritten cell. *)
Lemma PopBool_repr v st l :
  repr st l ->
  match l with
  | [] => PopBool v st = Ok (EFI_ACCESS_DENIED, v, st)
  | b :: l' => exists st', PopBool v st = Ok (EFI_SUCCESS, b, st') /\ repr st' l'
  end.
Proof.
  intros Hr. pose proof (repr_Pointer _ _ Hr) as Hp. destruct Hr as [Hle Htk].
  unfold PopBool. rewrite Hp. destruct l as [|b l]; simpl in *; [done|].
  rewrite reverse_cons, fmap_app, Hp in Htk.
  assert (cells st !! length l = Some (Some b)) as ->.
  { rewrite <-(lookup_take_lt _ (S (length l))) by lia. rewrite Htk.
    rewrite lookup_app_r; rewrite length_fmap, length_reverse; [|lia].
    by rewrite Nat.sub_diag. }
  simpl. eexists; split; [done|]. 
  change (cells (MkStack (Buffer st) (length l))) with (cells st) in *.
  unfold repr. change (cells (MkStack (Buffer st) (length l))) with (cells st).
  cbn [Pointer]. split; [lia|].
  apply (f_equal (take (length l))) in Htk. rewrite take_take, Nat.min_l in Htk by lia.
  rewrite Htk, take_app_le by (rewrite length_fmap, length_reverse; lia).
  rewrite take_ge; [done|]. rewrite length_fmap, length_reverse; lia.
Qed.

End DepexStack.

(** * Reference semantics *)

Module Expr.

(** The boolean expressions of the PI dependency grammar.  [Replaced g] is a
    [PUSH g] whose opcode was patched to [EFI_DEP_REPLACE_TRUE]. *)
Inductive expr :=
| Push (g : EFI_GUID)
| Replaced (g : EFI_GUID)
| TRUE
| FALSE
| NOT (e : expr)
| AND (e1 e2 : expr)
| OR (e1 e2 : expr).

Fixpoint eval {db : ProtocolDatabase} (e : expr) : bool :=
  match e with
  | Push g => installed g
  | Replaced _ | TRUE => true
  | FALSE => false
  | NOT e => negb (eval e)
  | AND e1 e2 => eval e1 && eval e2
  | OR e1 e2 => eval e1 || eval e2
  end.

(** Postfix encoding. *)
Fixpoint encode (e : expr) : list Z :=
  match e with
  | Push g => EFI_DEP_PUSH :: g
  | Replaced g => EFI_DEP_REPLACE_TRUE :: g
  | TRUE => [EFI_DEP_TRUE]
  | FALSE => [EFI_DEP_FALSE]
  | NOT e => encode e ++ [EFI_DEP_NOT]
  | AND e1 e2 => encode e1 ++ encode e2 ++ [EFI_DEP_AND]
  | OR e1 e2 => encode e1 ++ encode e2 ++ [EFI_DEP_OR]
  end.

(** Every GUID operand has its 16 bytes. *)
Fixpoint well_formed (e : expr) : Prop :=
  match e with
  | Push g | Replaced g => length g = sizeof_EFI_GUID
  | TRUE | FALSE => True
  | NOT e => well_formed e
  | AND e1 e2 | OR e1 e2 => well_formed e1 /\ well_formed e2
  end.

(** The expression after one evaluation: the satisfied PUSHes are patched. *)
Fixpoint patch {db : ProtocolDatabase} (e : expr) : expr :=
  match e with
  | Push g => if installed g then Replaced g else Push g
  | Replaced g => Replaced g
  | TRUE => TRUE
  | FALSE => FALSE
  | NOT e => NOT (patch e)
  | AND e1 e2 => AND (patch e1) (patch e2)
  | OR e1 e2 => OR (patch e1) (patch e2)
  end.

(** No operand is patched yet: the expression as the build wrote it. *)
Fixpoint pristine (e : expr) : Prop :=
  match e with
  | Replaced _ => False
  | Push _ | TRUE | FALSE => True
  | NOT e => pristine e
  | AND e1 e2 | OR e1 e2 => pristine e1 /\ pristine e2
  end.

(** Cells of stack that a postfix evaluation needs. *)
Fixpoint depth (e : expr) : nat :=
  match e with
  | Push _ | Replaced _ | TRUE | FALSE => 1
  | NOT e => depth e
  | AND e1 e2 | OR e1 e2 => Nat.max (depth e1) (S (depth e2))
  end.

Lemma encode_pos e : (0 < length (encode e))%nat.
Proof. induction e; simpl; rewrite ?length_app; simpl; lia. Qed.

Lemma patch_length {db : ProtocolDatabase} e : length (encode (patch e)) = length (encode e).
Proof.
  induction e; simpl; rewrite ?length_app; simpl; try (destruct (installed g)); simpl; lia.
Qed.

Lemma patch_well_formed {db : ProtocolDatabase} e : well_formed e -> well_formed (patch e).
Proof. induction e; simpl; try (destruct (installed g)); simpl; tauto. Qed.

Lemma depth_pos e : (0 < depth e)%nat.
Proof. induction e; simpl; lia. Qed.

(** While protocols are only added, a patched operand stays true. *)
Lemma eval_patch (db db' : ProtocolDatabase) e :
  (forall g, installed (db:=db) g = true -> installed (db:=db') g = true) ->
  eval (db:=db') (patch (db:=db) e) = eval (db:=db') e.
Proof.
  intros Hmono. induction e; simpl; try done; try congruence.
  destruct (installed (db:=db) g) eqn:Hg; simpl; [|done]. symmetry; auto.
Qed.

End Expr.

(** * The DXE evaluator *)

Module Dxe.
Import DepexStack.

(** The fields of [EFI_CORE_DRIVER_ENTRY] that the dispatcher's decisions read
    and write.  [Depex] is [None] for the [NULL] pointer. *)
Record EFI_CORE_DRIVER_ENTRY := MkDriver {
  Depex : option (list Z);
  DepexSize : nat;
  Before : bool;
  After : bool;
  BeforeAfterGuid : EFI_GUID;
  Dependent : bool;
  Unrequested : bool;
}.

Definition set_Depex (d : EFI_CORE_DRIVER_ENTRY) (bytes : list Z) : EFI_CORE_DRIVER_ENTRY :=
  MkDriver (Some bytes) (DepexSize d) (Before d) (After d) (BeforeAfterGuid d)
    (Dependent d) (Unrequested d).

(** An entry of [mArchProtocols]: its GUID ([None] ends the table) and whether
    the protocol is present. *)
Record EFI_CORE_PROTOCOL_NOTIFY_ENTRY := MkNotify {
  ProtocolGuid : option EFI_GUID;
  Present : bool;
}.

Fixpoint CoreAllEfiServicesAvailable (Entry : list EFI_CORE_PROTOCOL_NOTIFY_ENTRY)
  : result EFI_STATUS :=
  match Entry with
  | [] => BadAccess
  | e :: Entry' =>
      match ProtocolGuid e with
      | None => Ok EFI_SUCCESS
      | Some _ =>
          if negb (Present e) then Ok EFI_NOT_FOUND
          else CoreAllEfiServicesAvailable Entry'
      end
  end.

Definition CorePreProcessDepex (d : EFI_CORE_DRIVER_ENTRY)
  : result (EFI_STATUS * EFI_CORE_DRIVER_ENTRY) :=
  let! bytes := deref (Depex d) in
  let! op := deref (bytes !! 0%nat) in
  let '(Unrequested', Dependent') :=
    if op =? EFI_DEP_SOR then (true, Dependent d) else (Unrequested d, true) in
  let '(Before', After') :=
    if op =? EFI_DEP_BEFORE then (true, After d)
    else if op =? EFI_DEP_AFTER then (Before d, true)
    else (Before d, After d) in
  let! guid :=
    if Before' || After' then deref (CopyMem bytes 1 sizeof_EFI_GUID)
    else Ok (BeforeAfterGuid d) in
  Ok (EFI_SUCCESS,
      MkDriver (Depex d) (DepexSize d) Before' After' guid Dependent' Unrequested').

(** One pass of the [while (TRUE)] loop: fetch at [Iterator + 1] next, or
    return. *)
Inductive flow := Next (Iterator : nat) | Return (b : bool).

Section Evaluator.
Context {db : ProtocolDatabase} (AllocatePool : nat -> bool).

(** [Status = PushBool (Value); if (EFI_ERROR (Status)) return FALSE;] and the
    [break] to the next opcode. *)
Definition push_or_false (Value : bool) (Iterator : nat) (st : stack)
  : result (flow * stack) :=
  let! (Status, st) := PushBool AllocatePool Value st in
  if EFI_ERROR Status then Ok (Return false, st) else Ok (Next Iterator, st).

(** The two pops and the push of AND and OR. *)
Definition binary_operator (f : bool -> bool -> bool) (Iterator : nat) (st : stack)
  : result (flow * stack) :=
  let! (Status, Operator, st) := PopBool false st in
  if EFI_ERROR Status then Ok (Return false, st) else
  let! (Status, Operator2, st) := PopBool false st in
  if EFI_ERROR Status then Ok (Return false, st) else
  push_or_false (f Operator Operator2) Iterator st.

(** The [switch] on the opcode at [Iterator]. *)
Definition CoreIsSchedulable_switch (bytes : list Z) (Iterator : nat) (op : Z) (st : stack)
  : result (flow * stack * list Z) :=
  if op =? EFI_DEP_BEFORE then AssertFailed
  else if op =? EFI_DEP_AFTER then AssertFailed
  else if op =? EFI_DEP_SOR then
    if negb (Iterator =? 0)%nat then Ok (Return false, st, bytes)
    else Ok (Next Iterator, st, bytes)
  else if op =? EFI_DEP_PUSH then
    let! DriverGuid := deref (CopyMem bytes (Iterator + 1) sizeof_EFI_GUID) in
    if EFI_ERROR (LocateProtocol DriverGuid) then
      let! (f, st) := push_or_false false (Iterator + sizeof_EFI_GUID) st in
      Ok (f, st, bytes)
    else
      let bytes := <[Iterator := EFI_DEP_REPLACE_TRUE]> bytes in
      let! (f, st) := push_or_false true (Iterator + sizeof_EFI_GUID) st in
      Ok (f, st, bytes)
  else if op =? EFI_DEP_AND then
    let! (f, st) := binary_operator andb Iterator st in Ok (f, st, bytes)
  else if op =? EFI_DEP_OR then
    let! (f, st) := binary_operator orb Iterator st in Ok (f, st, bytes)
  else if op =? EFI_DEP_NOT then
    let! (Status, Operator, st) := PopBool false st in
    if EFI_ERROR Status then Ok (Return false, st, bytes) else
    let! (f, st) := push_or_false (negb Operator) Iterator st in Ok (f, st, bytes)
  else if op =? EFI_DEP_TRUE then
    let! (f, st) := push_or_false true Iterator st in Ok (f, st, bytes)
  else if op =? EFI_DEP_FALSE then
    let! (f, st) := push_or_false false Iterator st in Ok (f, st, bytes)
  else if op =? EFI_DEP_END then
    let! (Status, Operator, st) := PopBool false st in
    if EFI_ERROR Status then Ok (Return false, st, bytes)
    else Ok (Return Operator, st, bytes)
  else if op =? EFI_DEP_REPLACE_TRUE then
    let! DriverGuid := deref (CopyMem bytes (Iterator + 1) sizeof_EFI_GUID) in
    let! (f, st) := push_or_false true (Iterator + sizeof_EFI_GUID) st in
    Ok (f, st, bytes)
  else Ok (Return false, st, bytes).

(** The [while (TRUE)] loop; every pass advances [Iterator]. *)
Fixpoint CoreIsSchedulable_loop (fuel : nat) (Size : nat) (bytes : list Z)
    (Iterator : nat) (st : stack) : result (bool * stack * list Z) :=
  match fuel with
  | O => NoFuel
  | S fuel =>
      if (Size <=? Iterator)%nat then Ok (false, st, bytes) else
      let! op := deref (bytes !! Iterator) in
      let! (f, st, bytes) := CoreIsSchedulable_switch bytes Iterator op st in
      match f with
      | Return b => Ok (b, st, bytes)
      | Next Iterator => CoreIsSchedulable_loop fuel Size bytes (S Iterator) st
      end
  end.

Definition CoreIsSchedulable (mArchProtocols : list EFI_CORE_PROTOCOL_NOTIFY_ENTRY)
    (d : EFI_CORE_DRIVER_ENTRY) (st : stack)
  : result (bool * stack * EFI_CORE_DRIVER_ENTRY) :=
  if After d || Before d then Ok (false, st, d) else
  match Depex d with
  | None =>
      let! Status := CoreAllEfiServicesAvailable mArchProtocols in
      if EFI_ERROR Status then Ok (false, st, d) else Ok (true, st, d)
  | Some bytes =>
      let st := MkStack (Buffer st) 0 in
      let! (b, st, bytes) :=
        CoreIsSchedulable_loop (S (DepexSize d)) (DepexSize d) bytes 0 st in
      Ok (b, st, set_Depex d bytes)
  end.
End Evaluator.

(** ** Evaluation of an encoded expression *)

(** Opcodes of an encoding, that is, passes of the loop. *)
Fixpoint opcodes (e : Expr.expr) : nat :=
  match e with
  | Expr.Push _ | Expr.Replaced _ | Expr.TRUE | Expr.FALSE => 1
  | Expr.NOT e => opcodes e + 1
  | Expr.AND e1 e2 | Expr.OR e1 e2 => opcodes e1 + opcodes e2 + 1
  end.

Lemma opcodes_le e : (opcodes e <= length (Expr.encode e))%nat.
Proof. induction e; simpl; rewrite ?length_app; simpl; lia. Qed.

Lemma lookup_here {A} (pre : list A) x rest : (pre ++ x :: rest) !! length pre = Some x.
Proof. by rewrite lookup_app_r, Nat.sub_diag by lia. Qed.

Lemma insert_here {A} (pre : list A) x y rest :
  <[length pre := y]> (pre ++ x :: rest) = pre ++ y :: rest.
Proof. rewrite insert_app_r_alt, Nat.sub_diag by lia. done. Qed.

(** The operand that follows an opcode. *)
Lemma CopyMem_here {A} (pre : list A) x (g rest : list A) :
  CopyMem (pre ++ x :: g ++ rest) (length pre + 1) (length g) = Some g.
Proof.
  unfold CopyMem. rewrite decide_True.
  - replace (pre ++ x :: g ++ rest) with ((pre ++ [x]) ++ g ++ rest) by by rewrite <-app_assoc.
    rewrite drop_app_length' by (rewrite length_app; simpl; lia).
    by rewrite take_app_length.
  - rewrite length_app; simpl. rewrite length_app. lia.
Qed.

Section Correct.
Context {db : ProtocolDatabase} (AllocatePool : nat -> bool).
Hypothesis pool : forall n, AllocatePool n = true.

Lemma push_ok v i st l :
  repr st l -> exists st', push_or_false AllocatePool v i st = Ok (Next i, st') /\ repr st' (v :: l).
Proof using pool.
  intros Hr. unfold push_or_false.
  destruct (PushBool_repr AllocatePool v st l Hr) as [(st' & -> & Hr')|[_ Hf]].
  - simpl. eauto.
  - by rewrite pool in Hf.
Qed.

Lemma binary_ok f b1 b2 i st l :
  repr st (b2 :: b1 :: l) ->
  exists st', binary_operator AllocatePool f i st = Ok (Next i, st') /\ repr st' (f b2 b1 :: l).
Proof using pool.
  intros Hr. unfold binary_operator.
  destruct (PopBool_repr false _ _ Hr) as (st1 & -> & Hr1). simpl.
  destruct (PopBool_repr false _ _ Hr1) as (st2 & -> & Hr2). simpl.
  by apply push_ok.
Qed.

(** One pass at an opcode inside the expression. *)
Lemma loop_fetch fuel Size pre op rest st :
  (length pre < Size)%nat ->
  CoreIsSchedulable_loop AllocatePool (S fuel) Size (pre ++ op :: rest) (length pre) st =
  let! (f, st, bytes) :=
    CoreIsSchedulable_switch AllocatePool (pre ++ op :: rest) (length pre) op st in
  match f with
  | Return b => Ok (b, st, bytes)
  | Next Iterator => CoreIsSchedulable_loop AllocatePool fuel Size bytes (S Iterator) st
  end.
Proof. intros H. simpl. rewrite (proj2 (Nat.leb_gt _ _) H), lookup_here. done. Qed.

#[local] Arguments CoreIsSchedulable_loop : simpl never.

(** The loop over the bytes of [e] pushes the value of [e] and patches the
    bytes of [e]. *)
Definition evaluates (e : Expr.expr) : Prop :=
  forall pre rest fuel Size st l,
  repr st l -> (length pre + length (Expr.encode e) <= Size)%nat ->
  exists st', repr st' (Expr.eval e :: l) /\
    CoreIsSchedulable_loop AllocatePool (opcodes e + fuel) Size
      (pre ++ Expr.encode e ++ rest) (length pre) st =
    CoreIsSchedulable_loop AllocatePool fuel Size
      (pre ++ Expr.encode (Expr.patch e) ++ rest) (length pre + length (Expr.encode e)) st'.

Lemma evaluates_Push g : length g = sizeof_EFI_GUID -> evaluates (Expr.Push g).
Proof using pool.
  intros Hg pre rest fuel Size st l Hr Hsz. simpl in *.
  rewrite loop_fetch by lia. unfold CoreIsSchedulable_switch. simpl.
  rewrite <-Hg, CopyMem_here. simpl. unfold installed.
  destruct (EFI_ERROR (LocateProtocol g)) eqn:He; simpl.
  - destruct (push_ok false (length pre + length g) st l Hr) as (st' & -> & Hr').
    exists st'. simpl. rewrite Nat.add_succ_r. done.
  - destruct (push_ok true (length pre + length g) st l Hr) as (st' & -> & Hr').
    exists st'. simpl. rewrite Nat.add_succ_r, insert_here. done.
Qed.

Lemma evaluates_Replaced g : length g = sizeof_EFI_GUID -> evaluates (Expr.Replaced g).
Proof using pool.
  intros Hg pre rest fuel Size st l Hr Hsz. simpl in *.
  rewrite loop_fetch by lia. unfold CoreIsSchedulable_switch. simpl.
  rewrite <-Hg, CopyMem_here. simpl.
  destruct (push_ok true (length pre + length g) st l Hr) as (st' & -> & Hr').
  exists st'. simpl. rewrite Nat.add_succ_r. done.
Qed.

Lemma evaluates_constant (e : Expr.expr) :
  e = Expr.TRUE \/ e = Expr.FALSE -> evaluates e.
Proof using pool.
  intros He pre rest fuel Size st l Hr Hsz.
  destruct He as [-> | ->]; simpl in *; rewrite loop_fetch by lia;
    unfold CoreIsSchedulable_switch; simpl.
  - destruct (push_ok true (length pre) st l Hr) as (st' & -> & Hr').
    exists st'. simpl. by rewrite Nat.add_1_r.
  - destruct (push_ok false (length pre) st l Hr) as (st' & -> & Hr').
    exists st'. simpl. by rewrite Nat.add_1_r.
Qed.

Lemma evaluates_NOT e : evaluates e -> evaluates (Expr.NOT e).
Proof using pool.
  intros IH pre rest fuel Size st l Hr Hsz. simpl in *. rewrite length_app in Hsz; simpl in Hsz.
  rewrite <-!app_assoc, <-Nat.add_assoc.
  destruct (IH pre ([EFI_DEP_NOT] ++ rest) (1 + fuel)%nat Size st l Hr ltac:(lia))
    as (st1 & Hr1 & ->).
  destruct (PopBool_repr false _ _ Hr1) as (st2 & Hpop & Hr2).
  destruct (push_ok (negb (Expr.eval e)) (length pre + length (Expr.encode e)) st2 l Hr2)
    as (st3 & Hpush & Hr3).
  exists st3. split; [done|].
  rewrite <-Expr.patch_length, <-length_app, (app_assoc pre). simpl app.
  rewrite loop_fetch by (rewrite length_app, Expr.patch_length; lia).
  rewrite length_app, Expr.patch_length.
  unfold CoreIsSchedulable_switch. simpl. rewrite Hpop. simpl. rewrite Hpush. simpl.
  rewrite !length_app. simpl. rewrite <-app_assoc. simpl. f_equal. lia.
Qed.

(** AND and OR share their shape. *)
Lemma evaluates_binary e1 e2 e op f :
  Expr.encode e = Expr.encode e1 ++ Expr.encode e2 ++ [op] ->
  Expr.encode (Expr.patch e) =
    Expr.encode (Expr.patch e1) ++ Expr.encode (Expr.patch e2) ++ [op] ->
  opcodes e = (opcodes e1 + opcodes e2 + 1)%nat ->
  Expr.eval e = f (Expr.eval e2) (Expr.eval e1) ->
  (forall bytes i st, CoreIsSchedulable_switch AllocatePool bytes i op st =
     let! (fl, st) := binary_operator AllocatePool f i st in Ok (fl, st, bytes)) ->
  evaluates e1 -> evaluates e2 -> evaluates e.
Proof using pool.
  intros Henc Hpat Hop Heval Hsw IH1 IH2 pre rest fuel Size st l Hr Hsz.
  rewrite Henc in *. rewrite !length_app in Hsz; simpl in Hsz.
  rewrite Hop, <-!app_assoc, <-!Nat.add_assoc.
  destruct (IH1 pre (Expr.encode e2 ++ [op] ++ rest) (opcodes e2 + (1 + fuel))%nat Size st l Hr
    ltac:(lia)) as (st1 & Hr1 & ->).
  rewrite <-Expr.patch_length, <-length_app, (app_assoc pre).
  destruct (IH2 (pre ++ Expr.encode (Expr.patch e1)) ([op] ++ rest) (1 + fuel)%nat Size st1 _ Hr1
    ltac:(rewrite length_app, Expr.patch_length; lia)) as (st2 & Hr2 & ->).
  rewrite <-(Expr.patch_length e2), <-length_app, (app_assoc (pre ++ _)). simpl app.
  rewrite loop_fetch by (rewrite !length_app, !Expr.patch_length; lia). rewrite Hsw.
  set (i := length _).
  destruct (binary_ok f _ _ i st2 l Hr2) as (st3 & -> & Hr3). simpl.
  exists st3. rewrite Heval. split; [done|]. rewrite Hpat. subst i.
  rewrite !length_app, !Expr.patch_length. simpl.
  rewrite <-!app_assoc. simpl. f_equal. lia.
Qed.

Lemma evaluates_all e : Expr.well_formed e -> evaluates e.
Proof using pool.
  induction e; intros Hwf; simpl in Hwf.
  - by apply evaluates_Push.
  - by apply evaluates_Replaced.
  - apply evaluates_constant; auto.
  - apply evaluates_constant; auto.
  - by apply evaluates_NOT, IHe.
  - destruct Hwf. apply (evaluates_binary e1 e2 _ EFI_DEP_AND andb);
      simpl; auto using andb_comm.
  - destruct Hwf. apply (evaluates_binary e1 e2 _ EFI_DEP_OR orb);
      simpl; auto using orb_comm.
Qed.

(** The bytes of a driver's depex section. *)
Definition depex (sor : bool) (e : Expr.expr) : list Z :=
  (if sor then [EFI_DEP_SOR] else []) ++ Expr.encode e ++ [EFI_DEP_END].

Lemma loop_depex sor e Size st fuel :
  Expr.well_formed e -> repr st [] ->
  Size = length (depex sor e) -> (Size <= fuel)%nat ->
  exists st', repr st' [] /\
    CoreIsSchedulable_loop AllocatePool fuel Size (depex sor e) 0 st =
    Ok (Expr.eval e, st', depex sor (Expr.patch e)).
Proof using pool.
  intros Hwf Hr -> Hf. pose proof (opcodes_le e) as Hops.
  assert (Hbody : forall pre st fuel, repr st [] -> (opcodes e + 1 <= fuel)%nat ->
    exists st', repr st' [] /\
      CoreIsSchedulable_loop AllocatePool fuel (length (pre ++ Expr.encode e ++ [EFI_DEP_END]))
        (pre ++ Expr.encode e ++ [EFI_DEP_END]) (length pre) st =
      Ok (Expr.eval e, st', pre ++ Expr.encode (Expr.patch e) ++ [EFI_DEP_END])).
  { clear st fuel Hr Hf. intros pre st fuel Hr Hf.
    replace fuel with (opcodes e + S (fuel - opcodes e - 1))%nat by lia.
    destruct (evaluates_all e Hwf pre [EFI_DEP_END] (S (fuel - opcodes e - 1))
      (length (pre ++ Expr.encode e ++ [EFI_DEP_END])) st [] Hr) as (st1 & Hr1 & ->).
    { rewrite !length_app. simpl. lia. }
    rewrite <-Expr.patch_length, <-length_app, (app_assoc pre (Expr.encode (Expr.patch e))).
    rewrite loop_fetch by (rewrite !length_app, !Expr.patch_length; simpl; lia).
    destruct (PopBool_repr false _ _ Hr1) as (st2 & Hpop & Hr2).
    unfold CoreIsSchedulable_switch. simpl. rewrite Hpop. simpl.
    by exists st2. }
  unfold depex in *. destruct sor; simpl in *; [|by apply (Hbody []); [|rewrite length_app in Hf; simpl in Hf; lia]].
  destruct fuel as [|fuel]; [lia|].
  pose proof (loop_fetch fuel (S (length (Expr.encode e ++ [EFI_DEP_END]))) [] EFI_DEP_SOR
    (Expr.encode e ++ [EFI_DEP_END]) st ltac:(simpl; lia)) as Hfetch.
  simpl in Hfetch. rewrite Hfetch.
  apply (Hbody [EFI_DEP_SOR]); [done|]. rewrite length_app in Hf; simpl in Hf; lia.
Qed.

Lemma CoreIsSchedulable_depex mArchProtocols d sor e st :
  Expr.well_formed e -> Before d = false -> After d = false ->
  Depex d = Some (depex sor e) -> DepexSize d = length (depex sor e) ->
  exists st', repr st' [] /\
    CoreIsSchedulable AllocatePool mArchProtocols d st =
    Ok (Expr.eval e, st', set_Depex d (depex sor (Expr.patch e))).
Proof using pool.
  intros Hwf HB HA Hd Hs. unfold CoreIsSchedulable. rewrite HB, HA, Hd. simpl.
  destruct (loop_depex sor e (DepexSize d) (MkStack (Buffer st) 0) (S (DepexSize d)))
    as (st' & Hr' & ->); eauto using repr_reset, repr_NULL.
  split; simpl; [lia|done].
Qed.
End Correct.

(** C25: [CoreIsSchedulable] on the postfix bytes of a dependency expression,
    with or without a leading SOR, answers exactly the value of the expression
    in the current protocol database, whatever the global stack held before
    and however deep the expression is (the stack grows on demand); it leaves
    the driver's depex with the satisfied PUSH operands patched to
    [EFI_DEP_REPLACE_TRUE] and nothing else changed. *)
Theorem CoreIsSchedulable_evaluates (db : ProtocolDatabase) AllocatePool mArchProtocols d sor e st
    (Hpool : forall n, AllocatePool n = true) (Hwf : Expr.well_formed e)
    (HBefore : Before d = false) (HAfter : After d = false)
    (HDepex : Depex d = Some (depex sor e)) (HSize : DepexSize d = length (depex sor e)) :
  exists st', CoreIsSchedulable AllocatePool mArchProtocols d st =
    Ok (Expr.eval e, st', set_Depex d (depex sor (Expr.patch e))).
Proof.
  destruct (CoreIsSchedulable_depex AllocatePool Hpool mArchProtocols d sor e st) as (st' & _ & ?); eauto.
Qed.

(** patching PUSH to REPLACE_TRUE is a sound cache: after one evaluation in
    database [db], evaluating the patched driver in any database [db'] with at
    least the protocols of [db] answers the value of the original expression
    in [db']. *)
Theorem CoreIsSchedulable_cache_sound (db db' : ProtocolDatabase) AllocatePool mArchProtocols d sor e st
    (Hpool : forall n, AllocatePool n = true) (Hwf : Expr.well_formed e)
    (HBefore : Before d = false) (HAfter : After d = false)
    (HDepex : Depex d = Some (depex sor e)) (HSize : DepexSize d = length (depex sor e))
    (Hmono : forall g, installed (db:=db) g = true -> installed (db:=db') g = true) :
  exists b st1 d1 st2 d2,
    CoreIsSchedulable (db:=db) AllocatePool mArchProtocols d st = Ok (b, st1, d1) /\
    CoreIsSchedulable (db:=db') AllocatePool mArchProtocols d1 st1 =
      Ok (Expr.eval (db:=db') e, st2, d2).
Proof.
  destruct (CoreIsSchedulable_depex (db:=db) AllocatePool Hpool mArchProtocols d sor e st)
    as (st1 & _ & H1); auto.
  destruct (CoreIsSchedulable_depex (db:=db') AllocatePool Hpool mArchProtocols
    (set_Depex d (depex sor (Expr.patch (db:=db) e))) sor (Expr.patch (db:=db) e) st1)
    as (st2 & _ & H2); auto using Expr.patch_well_formed.
  { simpl. rewrite HSize. unfold depex. rewrite !length_app, Expr.patch_length. done. }
  rewrite (Expr.eval_patch db db' e Hmono) in H2. eauto 10.
Qed.

(** ** Arbitrary bytes *)

(** A GUID operand that runs past the end of the buffer. *)
Definition truncated_operand (bytes : list Z) : Prop :=
  exists i op, bytes !! i = Some op /\ (op = EFI_DEP_PUSH \/ op = EFI_DEP_REPLACE_TRUE) /\
    (length bytes < i + 1 + sizeof_EFI_GUID)%nat.

(** [bytes'] is [bytes] with some PUSH opcodes patched. *)
Definition patched (bytes bytes' : list Z) : Prop :=
  length bytes' = length bytes /\
  forall i op, bytes' !! i = Some op ->
    bytes !! i = Some op \/ (op = EFI_DEP_REPLACE_TRUE /\ bytes !! i = Some EFI_DEP_PUSH).

#[export] Instance patched_preorder : PreOrder patched.
Proof.
  split; [by split; auto|]. intros b1 b2 b3 [Hl12 H12] [Hl23 H23].
  split; [congruence|]. intros i op Hi.
  destruct (H23 i op Hi) as [H|[-> H]]; destruct (H12 _ _ H) as [?|[? ?]]; auto; done.
Qed.

Lemma patched_insert bytes i :
  bytes !! i = Some EFI_DEP_PUSH -> patched bytes (<[i := EFI_DEP_REPLACE_TRUE]> bytes).
Proof.
  intros Hi. split; [apply length_insert|]. intros j op Hj.
  destruct (decide (i = j)) as [<-|].
  - rewrite list_lookup_insert_eq in Hj by (by eapply lookup_lt_Some). simplify_eq. auto.
  - rewrite list_lookup_insert_ne in Hj by done. auto.
Qed.

Lemma truncated_patched bytes bytes' :
  patched bytes bytes' -> truncated_operand bytes' -> truncated_operand bytes.
Proof.
  intros [Hl H] (i & op & Hi & Hop & Hlt). rewrite Hl in Hlt.
  destruct (H i op Hi) as [?|[_ ?]]; [exists i, op | exists i, EFI_DEP_PUSH]; auto.
Qed.

Definition order_opcode (bytes : list Z) : Prop :=
  EFI_DEP_BEFORE ∈ bytes \/ EFI_DEP_AFTER ∈ bytes.

Lemma order_opcode_patched bytes bytes' :
  patched bytes bytes' -> order_opcode bytes' -> order_opcode bytes.
Proof.
  intros [_ H] [Hin|Hin]; [left|right]; apply list_elem_of_lookup in Hin as [i Hi];
    apply list_elem_of_lookup; exists i; destruct (H _ _ Hi) as [?|[? _]]; done.
Qed.

(** What a run may do on bytes that need not be well formed. *)
Definition safe_result {A} (bytes : list Z) (r : result A) (Q : A -> Prop) : Prop :=
  match r with
  | Ok a => Q a
  | AssertFailed => order_opcode bytes
  | BadAccess => truncated_operand bytes
  | NoFuel => False
  end.

Lemma safe_bind {A B} bytes (m : result A) (f : A -> result B) Q R :
  safe_result bytes m Q -> (forall a, Q a -> safe_result bytes (f a) R) ->
  safe_result bytes (let! x := m in f x) R.
Proof. destruct m; simpl; auto. Qed.

Definition valid (st : stack) : Prop := exists l, repr st l.

(** The stack operations are safe whatever the bytes. *)
Lemma PushBool_safe bytes AllocatePool v st :
  valid st -> safe_result bytes (PushBool AllocatePool v st) (fun r => valid r.2).
Proof.
  intros [l Hr]. destruct (PushBool_repr AllocatePool v st l Hr) as [(st' & -> & Hr')|[-> _]];
    simpl; eexists; eauto.
Qed.

Lemma PopBool_safe bytes v st :
  valid st -> safe_result bytes (PopBool v st) (fun r => valid r.2).
Proof.
  intros [l Hr]. pose proof (PopBool_repr v st l Hr) as H. destruct l as [|b l].
  - rewrite H. simpl. by exists [].
  - destruct H as (st' & -> & Hr'). simpl. by exists l.
Qed.

Definition advances (i : nat) (r : flow * stack) : Prop :=
  valid r.2 /\ match r.1 with Next j => (i <= j)%nat | Return _ => True end.

Lemma push_or_false_safe bytes AllocatePool v i j st :
  valid st -> (i <= j)%nat ->
  safe_result bytes (push_or_false AllocatePool v j st) (advances i).
Proof.
  intros Hv Hij. eapply safe_bind; [by apply PushBool_safe|].
  intros [Status st'] Hv'. case_if E; split; done.
Qed.

Lemma binary_operator_safe bytes AllocatePool f i st :
  valid st -> safe_result bytes (binary_operator AllocatePool f i st) (advances i).
Proof.
  intros Hv. eapply safe_bind; [by apply PopBool_safe|]. intros [[S1 o1] st1] Hv1.
  case_if E1; [by split|]. eapply safe_bind; [by apply PopBool_safe|].
  intros [[S2 o2] st2] Hv2. case_if E2; [by split|]. by apply push_or_false_safe.
Qed.

(** Outcome of one pass: progress, a valid stack, and patched bytes. *)
Definition pass_ok (bytes : list Z) (i : nat) (r : flow * stack * list Z) : Prop :=
  advances i r.1 /\ patched bytes r.2.

Lemma switch_finish bytes (m : result (flow * stack)) i bytes' :
  patched bytes bytes' -> safe_result bytes m (advances i) ->
  safe_result bytes (let! (f, st) := m in Ok (f, st, bytes')) (pass_ok bytes i).
Proof. intros Hp Hm. eapply safe_bind; [done|]. intros [f st] Ha. by split. Qed.

Lemma pass_return bytes i b st : valid st -> pass_ok bytes i (Return b, st, bytes).
Proof. intros Hv. split; [split; simpl; auto|simpl; reflexivity]. Qed.

Lemma pass_next bytes i st : valid st -> pass_ok bytes i (Next i, st, bytes).
Proof. intros Hv. split; [split; simpl; auto|simpl; reflexivity]. Qed.

#[local] Hint Resolve pass_return pass_next : core.

(** The operand fetch of PUSH and REPLACE_TRUE. *)
Lemma CopyMem_operand bytes i op :
  bytes !! i = Some op -> op = EFI_DEP_PUSH \/ op = EFI_DEP_REPLACE_TRUE ->
  safe_result bytes (deref (CopyMem bytes (i + 1) sizeof_EFI_GUID)) (fun _ => True).
Proof.
  intros Hi Hop. unfold CopyMem. case_decide as Hd; simpl; [done|].
  exists i, op. repeat split; auto. lia.
Qed.

Lemma switch_safe (db : ProtocolDatabase) AllocatePool bytes i op st :
  valid st -> bytes !! i = Some op ->
  safe_result bytes (CoreIsSchedulable_switch AllocatePool bytes i op st) (pass_ok bytes i).
Proof.
  intros Hv Hi. unfold CoreIsSchedulable_switch.
  destruct (Z.eqb_spec op EFI_DEP_BEFORE) as [->|_].
  { left. apply list_elem_of_lookup. eauto. }
  destruct (Z.eqb_spec op EFI_DEP_AFTER) as [->|_].
  { right. apply list_elem_of_lookup. eauto. }
  case_if Esor. { case_if Ei; simpl; auto. }
  destruct (Z.eqb_spec op EFI_DEP_PUSH) as [->|_].
  { eapply safe_bind; [eapply CopyMem_operand; eauto|]. intros g _. case_if Eg;
      (apply switch_finish; [auto using patched_insert | apply push_or_false_safe; [done|lia]]).
    reflexivity. }
  case_if Eand. { apply switch_finish; [done|]. by apply binary_operator_safe. }
  case_if Eor. { apply switch_finish; [done|]. by apply binary_operator_safe. }
  case_if Enot.
  { eapply safe_bind; [by apply PopBool_safe|]. intros [[S1 o1] st1] Hv1.
    case_if E1; [simpl; auto|]. apply switch_finish; [done|]. by apply push_or_false_safe. }
  case_if Etrue. { apply switch_finish; [done|]. by apply push_or_false_safe. }
  case_if Efalse. { apply switch_finish; [done|]. by apply push_or_false_safe. }
  case_if Eend.
  { eapply safe_bind; [by apply PopBool_safe|]. intros [[S1 o1] st1] Hv1.
    case_if E1; simpl; auto. }
  destruct (Z.eqb_spec op EFI_DEP_REPLACE_TRUE) as [->|_]; [|simpl; auto].
  eapply safe_bind; [eapply CopyMem_operand; eauto|]. intros g _.
  apply switch_finish; [done|]. apply push_or_false_safe; [done|lia].
Qed.

Lemma safe_patched {A} bytes bytes' (r : result A) Q R :
  patched bytes bytes' -> safe_result bytes' r Q -> (forall a, Q a -> R a) ->
  safe_result bytes r R.
Proof.
  intros Hp Hs HQ. destruct r; simpl in *; eauto using truncated_patched, order_opcode_patched.
Qed.

Lemma loop_safe (db : ProtocolDatabase) AllocatePool fuel bytes i st :
  valid st -> (length bytes - i < fuel)%nat ->
  safe_result bytes (CoreIsSchedulable_loop AllocatePool fuel (length bytes) bytes i st)
    (fun r => valid r.1.2 /\ patched bytes r.2).
Proof.
  revert bytes i st. induction fuel as [|fuel IH]; intros bytes i st Hv Hf.
  all: unfold CoreIsSchedulable_loop; fold (CoreIsSchedulable_loop (db:=db) AllocatePool).
  - lia.
  - destruct (Nat.leb_spec (length bytes) i) as [Hle|Hlt]; [by split|].
    destruct (lookup_lt_is_Some_2 bytes i Hlt) as [op Hop]. rewrite Hop. simpl.
    eapply safe_bind; [by apply switch_safe|]. intros [[f st'] bytes'] [[Hv' Hadv] Hp].
    destruct f as [j|b]; simpl in *; [|by split].
    pose proof Hp as [Hl _]. rewrite <-Hl.
    eapply safe_patched; [done|apply IH; [done|lia]|]. intros [[b st''] bytes''] [? ?].
    split; [done|]. by etrans.
Qed.

(** C29: on any bytes, well formed or not, with any pool allocator and any state
    of the stack, the evaluation terminates within [DepexSize + 1] passes and
    its stack accesses are in range; it stops abnormally only by the explicit
    ASSERT on a BEFORE or AFTER opcode of the depex, or by reading a GUID
    operand that runs past the end of the depex. *)
Theorem CoreIsSchedulable_safe (db : ProtocolDatabase) AllocatePool mArchProtocols d bytes st
    (HDepex : Depex d = Some bytes) (HSize : DepexSize d = length bytes) :
  match CoreIsSchedulable AllocatePool mArchProtocols d st with
  | Ok (_, st', _) => valid st' \/ st' = st
  | AssertFailed => order_opcode bytes
  | BadAccess => truncated_operand bytes
  | NoFuel => False
  end.
Proof.
  unfold CoreIsSchedulable. case_if E; [by right|]. rewrite HDepex, HSize.
  pose proof (loop_safe db AllocatePool (S (length bytes)) bytes 0 (MkStack (Buffer st) 0)) as H.
  destruct (CoreIsSchedulable_loop _ _ _ _ _ _) as [[[b st'] bytes']| | |]; simpl in *;
    try (apply H; [exists []; split; [simpl; lia|done]|lia]).
  left. apply H; [exists []; split; [simpl; lia|done]|lia].
Qed.

(** nothing checks that the operand of PUSH lies inside the depex: a
    one-byte depex makes the evaluator read the 16 bytes after it. *)
Theorem CoreIsSchedulable_reads_past_end (db : ProtocolDatabase) AllocatePool mArchProtocols st :
  CoreIsSchedulable AllocatePool mArchProtocols
    (MkDriver (Some [EFI_DEP_PUSH]) 1 false false [] false false) st = BadAccess.
Proof. reflexivity. Qed.

(** [CorePreProcessDepex] classifies a driver by its first opcode: SOR marks
    it unrequested, anything else dependent; BEFORE and AFTER record the GUID
    operand and take the driver away from [CoreIsSchedulable]. *)
Theorem CorePreProcessDepex_order (db : ProtocolDatabase) AllocatePool mArchProtocols bytes Size g op rest st
    (Hop : op = EFI_DEP_BEFORE \/ op = EFI_DEP_AFTER) (Hg : length g = sizeof_EFI_GUID)
    (Hbytes : bytes = op :: g ++ rest) :
  exists d, CorePreProcessDepex (MkDriver (Some bytes) Size false false [] false false)
      = Ok (EFI_SUCCESS, d) /\
    BeforeAfterGuid d = g /\ Dependent d = true /\ Unrequested d = false /\
    Before d = bool_decide (op = EFI_DEP_BEFORE) /\ After d = bool_decide (op = EFI_DEP_AFTER) /\
    CoreIsSchedulable AllocatePool mArchProtocols d st = Ok (false, st, d).
Proof.
  pose proof (CopyMem_here [] op g rest) as Hc. simpl in Hc. rewrite Hg in Hc.
  subst bytes. unfold CorePreProcessDepex. simpl.
  destruct Hop as [-> | ->]; simpl; rewrite Hc; simpl; eexists; repeat split.
Qed.
End Dxe.

(** * The PEI evaluator *)

Module Pei.

Definition MAX_GRAMMAR_SIZE : nat := 64.

(** [Operator] points at the GUID operand, as an offset into the expression;
    [None] is [NULL]. *)
Record EVAL_STACK_ENTRY := MkEntry { Result : bool; Operator : option nat }.

Section Evaluator.
Context {db : ProtocolDatabase}.

Definition IsPpiInstalled (bytes : list Z) (Stack : EVAL_STACK_ENTRY) : result bool :=
  match Operator Stack with
  | None => Ok (Result Stack)
  | Some p =>
      let! PpiGuid := deref (CopyMem bytes p sizeof_EFI_GUID) in
      if EFI_ERROR (LocateProtocol PpiGuid) then Ok false else Ok true
  end.

(** One pass of the loop: go on with these variables, or return. *)
Inductive flow := Next (EvalStack : list EVAL_STACK_ENTRY) (StackPtr Iterator : nat) | Return (b : bool).

(** The [switch]; [Iterator] is already past the opcode.  [EvalStack] has
    [MAX_GRAMMAR_SIZE] cells and [StackPtr] is the number of cells in use. *)
Definition PeimDispatchReadiness_switch (bytes : list Z) (op : Z) (Iterator : nat)
    (EvalStack : list EVAL_STACK_ENTRY) (StackPtr : nat) : result flow :=
  if op =? EFI_DEP_PUSH then
    if (MAX_GRAMMAR_SIZE - 1 <? StackPtr)%nat then Ok (Return false) else
    let! e := deref (EvalStack !! StackPtr) in
    Ok (Next (<[StackPtr := MkEntry (Result e) (Some Iterator)]> EvalStack) (S StackPtr)
          (Iterator + sizeof_EFI_GUID))
  else if (op =? EFI_DEP_AND) || (op =? EFI_DEP_OR) then
    if (StackPtr <? 2)%nat then Ok (Return false) else
    let StackPtr := (StackPtr - 1)%nat in
    let! e := deref (EvalStack !! StackPtr) in
    let! b := IsPpiInstalled bytes e in
    let EvalStack :=
      if op =? EFI_DEP_AND then
        if negb b then <[(StackPtr - 1)%nat := MkEntry false None]> EvalStack else EvalStack
      else
        if b then <[(StackPtr - 1)%nat := MkEntry true None]> EvalStack else EvalStack in
    Ok (Next EvalStack StackPtr Iterator)
  else if op =? EFI_DEP_END then
    if negb (StackPtr =? 1)%nat then Ok (Return false) else
    let! e := deref (EvalStack !! 0%nat) in
    let! b := IsPpiInstalled bytes e in
    Ok (Return b)
  else if op =? EFI_DEP_NOT then
    if (StackPtr <? 1)%nat then Ok (Return false) else
    let! e := deref (EvalStack !! (StackPtr - 1)%nat) in
    let! b := IsPpiInstalled bytes e in
    Ok (Next (<[(StackPtr - 1)%nat := MkEntry (negb b) None]> EvalStack) StackPtr Iterator)
  else if (op =? EFI_DEP_TRUE) || (op =? EFI_DEP_FALSE) then
    if (MAX_GRAMMAR_SIZE - 1 <? StackPtr)%nat then Ok (Return false) else
    Ok (Next (<[StackPtr := MkEntry (op =? EFI_DEP_TRUE) None]> EvalStack) (S StackPtr) Iterator)
  else Ok (Return false).

(** The [while (TRUE)] loop.  It has no bound on [Iterator]: it reads until an
    opcode returns. *)
Fixpoint PeimDispatchReadiness_loop (fuel : nat) (bytes : list Z) (Iterator : nat)
    (EvalStack : list EVAL_STACK_ENTRY) (StackPtr : nat) : result bool :=
  match fuel with
  | O => NoFuel
  | S fuel =>
      let! op := deref (bytes !! Iterator) in
      let! f := PeimDispatchReadiness_switch bytes op (S Iterator) EvalStack StackPtr in
      match f with
      | Return b => Ok b
      | Next EvalStack StackPtr Iterator =>
          PeimDispatchReadiness_loop fuel bytes Iterator EvalStack StackPtr
      end
  end.

(** [EvalStack] is an uninitialised local array. *)
Definition PeimDispatchReadiness (EvalStack : list EVAL_STACK_ENTRY)
    (DependencyExpression : list Z) : result bool :=
  PeimDispatchReadiness_loop (S (length DependencyExpression)) DependencyExpression 0 EvalStack 0.

(** ** Correctness *)

(** The first [length l] cells stand for the BOOLEANs [l], bottom first. *)
Definition denotes (bytes : list Z) (stk : list EVAL_STACK_ENTRY) (l : list bool) : Prop :=
  length stk = MAX_GRAMMAR_SIZE /\ (length l <= MAX_GRAMMAR_SIZE)%nat /\
  forall i b, l !! i = Some b ->
    exists e, stk !! i = Some e /\ IsPpiInstalled bytes e = Ok b.

Lemma denotes_push bytes stk l e b :
  denotes bytes stk l -> (length l < MAX_GRAMMAR_SIZE)%nat -> IsPpiInstalled bytes e = Ok b ->
  denotes bytes (<[length l := e]> stk) (l ++ [b]).
Proof.
  intros (Hs & Hl & Hd) Hlt He. repeat split.
  - by rewrite length_insert.
  - rewrite length_app. simpl. lia.
  - intros i b' Hi. destruct (decide (i = length l)) as [->|Hne].
    + rewrite list_lookup_insert_eq by lia. rewrite lookup_app_r, Nat.sub_diag in Hi by lia.
      simplify_eq/=. eauto.
    + rewrite list_lookup_insert_ne by done.
      apply lookup_app_Some in Hi as [Hi|[Hge Hi]]; [eauto|].
      apply lookup_lt_Some in Hi. simpl in Hi. lia.
Qed.

Lemma denotes_pop bytes stk l b : denotes bytes stk (l ++ [b]) -> denotes bytes stk l.
Proof.
  intros (Hs & Hl & Hd). rewrite length_app in Hl; simpl in Hl.
  repeat split; [done|lia|]. intros i b' Hi. apply Hd. by apply lookup_app_l_Some.
Qed.

Lemma denotes_top bytes stk l b :
  denotes bytes stk (l ++ [b]) ->
  exists e, stk !! length l = Some e /\ IsPpiInstalled bytes e = Ok b.
Proof. intros (_ & _ & Hd). apply Hd. by rewrite lookup_app_r, Nat.sub_diag by lia. Qed.

(** Overwriting the top cell by a constant. *)
Lemma denotes_set_top bytes stk l b b' :
  denotes bytes stk (l ++ [b]) ->
  denotes bytes (<[length l := MkEntry b' None]> stk) (l ++ [b']).
Proof.
  intros Hd. apply denotes_push; [by eapply denotes_pop| |done].
  destruct Hd as (_ & Hl & _). rewrite length_app in Hl. simpl in Hl. lia.
Qed.

Lemma pei_loop_fetch fuel pre op rest stk sp :
  PeimDispatchReadiness_loop (S fuel) (pre ++ op :: rest) (length pre) stk sp =
  let! f := PeimDispatchReadiness_switch (pre ++ op :: rest) op (S (length pre)) stk sp in
  match f with
  | Return b => Ok b
  | Next stk sp Iterator => PeimDispatchReadiness_loop fuel (pre ++ op :: rest) Iterator stk sp
  end.
Proof. cbn [PeimDispatchReadiness_loop]. by rewrite Dxe.lookup_here. Qed.

#[local] Arguments PeimDispatchReadiness_loop : simpl never.
#[local] Arguments MAX_GRAMMAR_SIZE : simpl never.

(** The loop over the bytes of [e] pushes the value of [e] when the stack has
    the [depth e] cells it needs, and answers FALSE when it has not. *)
Definition evaluates (e : Expr.expr) : Prop :=
  forall pre rest fuel stk l,
  denotes (pre ++ Expr.encode e ++ rest) stk l ->
  let run := PeimDispatchReadiness_loop (Dxe.opcodes e + fuel) (pre ++ Expr.encode e ++ rest)
    (length pre) stk (length l) in
  if (length l + Expr.depth e <=? MAX_GRAMMAR_SIZE)%nat then
    exists stk', denotes (pre ++ Expr.encode e ++ rest) stk' (l ++ [Expr.eval e]) /\
      run = PeimDispatchReadiness_loop fuel (pre ++ Expr.encode e ++ rest)
        (length pre + length (Expr.encode e)) stk' (S (length l))
  else run = Ok false.

(** The overflow check of PUSH, TRUE and FALSE. *)
Lemma overflow_check n : (MAX_GRAMMAR_SIZE - 1 <? n)%nat = negb (n + 1 <=? MAX_GRAMMAR_SIZE)%nat.
Proof.
  apply eq_true_iff_eq. rewrite negb_true_iff, Nat.ltb_lt, Nat.leb_gt. unfold MAX_GRAMMAR_SIZE. lia.
Qed.

Lemma pei_evaluates_Push g : length g = sizeof_EFI_GUID -> evaluates (Expr.Push g).
Proof.
  intros Hg pre rest fuel stk l Hd. simpl in *. rewrite pei_loop_fetch.
  unfold PeimDispatchReadiness_switch. simpl. rewrite overflow_check.
  destruct (Nat.leb_spec (length l + 1) MAX_GRAMMAR_SIZE); simpl; [|done].
  destruct Hd as (Hs & Hl & Hd).
  destruct (lookup_lt_is_Some_2 stk (length l)) as [e ->]; [lia|]. simpl.
  eexists. split; [apply (denotes_push _ stk l (MkEntry (Result e) (Some (S (length pre)))));
    [done|lia|]|].
  - unfold IsPpiInstalled. simpl. rewrite <-Nat.add_1_r, <-Hg, Dxe.CopyMem_here. simpl.
    unfold installed. by destruct (EFI_ERROR _).
  - rewrite Hg. f_equal; lia.
Qed.

(** TRUE and FALSE push a constant. *)
Lemma constant_switch bytes op i stk l v :
  denotes bytes stk l -> (op = EFI_DEP_TRUE /\ v = true) \/ (op = EFI_DEP_FALSE /\ v = false) ->
  if (length l + 1 <=? MAX_GRAMMAR_SIZE)%nat then
    denotes bytes (<[length l := MkEntry v None]> stk) (l ++ [v]) /\
    PeimDispatchReadiness_switch bytes op i stk (length l) =
      Ok (Next (<[length l := MkEntry v None]> stk) (S (length l)) i)
  else PeimDispatchReadiness_switch bytes op i stk (length l) = Ok (Return false).
Proof.
  intros Hd Hop. unfold PeimDispatchReadiness_switch.
  destruct Hop as [[-> ->]|[-> ->]]; simpl; rewrite overflow_check;
    (destruct (Nat.leb_spec (length l + 1) MAX_GRAMMAR_SIZE); simpl; [|done]);
    (split; [apply denotes_push; [done|lia|done]|done]).
Qed.

Lemma pei_evaluates_constant (e : Expr.expr) : e = Expr.TRUE \/ e = Expr.FALSE -> evaluates e.
Proof.
  intros He pre rest fuel stk l Hd.
  assert (exists op v, Expr.encode e = [op] /\ Expr.eval e = v /\ Expr.depth e = 1%nat /\
    Dxe.opcodes e = 1%nat /\
    ((op = EFI_DEP_TRUE /\ v = true) \/ (op = EFI_DEP_FALSE /\ v = false)))
    as (op & v & Henc & Hv & Hdep & Hops & Hop) by (destruct He as [-> | ->]; simpl; eauto 10).
  rewrite Henc, Hdep, Hops, Hv in *. simpl in *. rewrite pei_loop_fetch.
  pose proof (constant_switch _ op (S (length pre)) stk l v Hd Hop) as H.
  case_if E; [|by rewrite H]. destruct H as [Hd' ->]. simpl.
  eexists; split; [done|]. f_equal; lia.
Qed.

Lemma pei_evaluates_NOT e : evaluates e -> evaluates (Expr.NOT e).
Proof.
  intros IH pre rest fuel stk l Hd. simpl in *.
  rewrite <-app_assoc in *. rewrite <-Nat.add_assoc.
  change (1 + fuel)%nat with (S fuel).
  specialize (IH pre ([EFI_DEP_NOT] ++ rest) (S fuel) stk l Hd). cbv zeta in IH.
  case_if E; [|done]. destruct IH as (stk1 & Hd1 & ->).
  destruct (denotes_top _ _ _ _ Hd1) as (ent & He & Hv).
  rewrite <-length_app, (app_assoc pre) in *. simpl app in *. rewrite pei_loop_fetch.
  unfold PeimDispatchReadiness_switch. simpl. rewrite Nat.sub_0_r, He. simpl. rewrite Hv. simpl.
  eexists. split; [by eapply denotes_set_top|]. rewrite !length_app. simpl. f_equal. lia.
Qed.
(** The second operand of AND and OR stays in place unless the first decides. *)
Lemma binary_switch bytes op i stk l b1 b2 :
  denotes bytes stk ((l ++ [b1]) ++ [b2]) -> op = EFI_DEP_AND \/ op = EFI_DEP_OR ->
  let b := if op =? EFI_DEP_AND then b1 && b2 else b1 || b2 in
  exists stk', denotes bytes stk' (l ++ [b]) /\
    PeimDispatchReadiness_switch bytes op i stk (S (S (length l))) =
    Ok (Next stk' (S (length l)) i).
Proof.
  intros Hd Hop b. destruct (denotes_top _ _ _ _ Hd) as (ent & He & Hv).
  apply denotes_pop in Hd as Hd1. rewrite length_app in He. simpl in He.
  rewrite Nat.add_1_r in He. unfold PeimDispatchReadiness_switch.
  assert (Hlen : (S (S (length l)) <? 2)%nat = false) by (apply Nat.ltb_ge; lia).
  pose proof (fun b' => denotes_set_top _ _ _ _ b' Hd1) as Hset.
  destruct Hop as [-> | ->]; subst b; cbn -[Nat.ltb]; rewrite Hlen, ?Nat.sub_0_r, He; simpl;
    rewrite Hv; simpl; rewrite ?Nat.sub_0_r; eexists; (split; [|done]);
    destruct b2; rewrite ?andb_true_r, ?andb_false_r, ?orb_true_r, ?orb_false_r; simpl; auto.
Qed.

Lemma pei_evaluates_binary e1 e2 e op :
  op = EFI_DEP_AND \/ op = EFI_DEP_OR ->
  Expr.encode e = Expr.encode e1 ++ Expr.encode e2 ++ [op] ->
  Dxe.opcodes e = (Dxe.opcodes e1 + Dxe.opcodes e2 + 1)%nat ->
  Expr.depth e = Nat.max (Expr.depth e1) (S (Expr.depth e2)) ->
  Expr.eval e = (if op =? EFI_DEP_AND then Expr.eval e1 && Expr.eval e2
                 else Expr.eval e1 || Expr.eval e2) ->
  evaluates e1 -> evaluates e2 -> evaluates e.
Proof.
  intros Hop Henc Hops Hdep Hev IH1 IH2 pre rest fuel stk l Hd run. subst run.
  rewrite Henc, <-!app_assoc in *. rewrite Hops, Hdep, <-!Nat.add_assoc.
  specialize (IH1 pre (Expr.encode e2 ++ [op] ++ rest) (Dxe.opcodes e2 + (1 + fuel))%nat stk l Hd).
  cbv zeta in IH1. destruct (Nat.leb_spec (length l + Expr.depth e1) MAX_GRAMMAR_SIZE); cycle 1.
  { rewrite IH1. case_if E; [|done]. apply Nat.leb_le in E. lia. }
  destruct IH1 as (stk1 & Hd1 & ->). rewrite (app_assoc pre) in *.
  specialize (IH2 (pre ++ Expr.encode e1) ([op] ++ rest) (1 + fuel)%nat stk1 _ Hd1).
  cbv zeta in IH2. rewrite !length_app in IH2. cbn [length] in IH2. rewrite Nat.add_1_r in IH2.
  destruct (Nat.leb_spec (S (length l) + Expr.depth e2) MAX_GRAMMAR_SIZE); cycle 1.
  { rewrite IH2. case_if E; [|done]. apply Nat.leb_le in E. lia. }
  destruct IH2 as (stk2 & Hd2 & ->).
  rewrite (proj2 (Nat.leb_le _ _)) by lia. rewrite <-!length_app.
  rewrite (app_assoc (pre ++ _)) in *. cbn [app Nat.add] in *. rewrite pei_loop_fetch.
  destruct (binary_switch _ op (S (length ((pre ++ Expr.encode e1) ++ Expr.encode e2)))
    _ _ _ _ Hd2 Hop) as (stk3 & Hd3 & ->). simpl.
  exists stk3. rewrite Hev. split; [done|]. rewrite !length_app. simpl. f_equal. lia.
Qed.

Lemma pei_evaluates_all e : Expr.well_formed e -> Expr.pristine e -> evaluates e.
Proof.
  induction e; simpl; intros Hwf Hpr.
  - by apply pei_evaluates_Push.
  - done.
  - apply pei_evaluates_constant; auto.
  - apply pei_evaluates_constant; auto.
  - by apply pei_evaluates_NOT, IHe.
  - destruct Hwf, Hpr. apply (pei_evaluates_binary e1 e2 _ EFI_DEP_AND); auto.
  - destruct Hwf, Hpr. apply (pei_evaluates_binary e1 e2 _ EFI_DEP_OR); auto.
Qed.

Lemma PeimDispatchReadiness_depex stk e rest :
  length stk = MAX_GRAMMAR_SIZE -> Expr.well_formed e -> Expr.pristine e ->
  PeimDispatchReadiness stk (Expr.encode e ++ EFI_DEP_END :: rest) =
  Ok ((Expr.depth e <=? MAX_GRAMMAR_SIZE)%nat && Expr.eval e).
Proof.
  intros Hs Hwf Hpr. unfold PeimDispatchReadiness. pose proof (Dxe.opcodes_le e).
  rewrite length_app. simpl length.
  replace (S (length (Expr.encode e) + S (length rest)))
    with (Dxe.opcodes e + S (length (Expr.encode e) - Dxe.opcodes e + S (length rest)))%nat by lia.
  pose proof (pei_evaluates_all e Hwf Hpr [] (EFI_DEP_END :: rest)
    (S (length (Expr.encode e) - Dxe.opcodes e + S (length rest))) stk []) as H'.
  simpl in H'. simpl. destruct (Expr.depth e <=? MAX_GRAMMAR_SIZE)%nat; simpl; [|apply H'; repeat split; simpl; [done|lia|done]].
  destruct H' as (stk1 & Hd1 & ->); [repeat split; simpl; [done|lia|done]|].
  rewrite pei_loop_fetch. unfold PeimDispatchReadiness_switch. simpl.
  destruct (denotes_top _ _ [] _ Hd1) as (ent & He & Hv). simpl in He.
  rewrite He. simpl. by rewrite Hv.
Qed.
End Evaluator.

(** C40: the lazy PEI evaluator ([PeimDispatchReadiness], which postpones the
    PPI lookup of a PUSH until its value is needed and keeps the undecided
    operand of AND and OR in place) answers the value of the encoded
    expression when the expression fits its 64-entry stack, and FALSE when it
    does not, whatever the local array contained and whatever follows END. *)
Theorem PeimDispatchReadiness_evaluates (db : ProtocolDatabase) EvalStack e rest
    (HStack : length EvalStack = MAX_GRAMMAR_SIZE)
    (Hwf : Expr.well_formed e) (Hpr : Expr.pristine e) :
  PeimDispatchReadiness EvalStack (Expr.encode e ++ EFI_DEP_END :: rest) =
  Ok ((Expr.depth e <=? MAX_GRAMMAR_SIZE)%nat && Expr.eval e).
Proof. by apply PeimDispatchReadiness_depex. Qed.

(** the PEI and the DXE evaluator agree on every dependency expression that
    needs at most 64 stack entries, for the same set of installed GUIDs. *)
Theorem Pei_Dxe_agree (db : ProtocolDatabase) AllocatePool mArchProtocols d EvalStack e st
    (Hpool : forall n, AllocatePool n = true)
    (HStack : length EvalStack = MAX_GRAMMAR_SIZE)
    (Hwf : Expr.well_formed e) (Hpr : Expr.pristine e)
    (Hdepth : (Expr.depth e <= MAX_GRAMMAR_SIZE)%nat)
    (HBefore : Dxe.Before d = false) (HAfter : Dxe.After d = false)
    (HDepex : Dxe.Depex d = Some (Dxe.depex false e))
    (HSize : Dxe.DepexSize d = length (Dxe.depex false e)) :
  exists b st' d',
    PeimDispatchReadiness EvalStack (Dxe.depex false e) = Ok b /\
    Dxe.CoreIsSchedulable AllocatePool mArchProtocols d st = Ok (b, st', d').
Proof.
  destruct (Dxe.CoreIsSchedulable_depex AllocatePool Hpool mArchProtocols d false e st)
    as (st' & _ & H); auto.
  exists (Expr.eval e), st', (Dxe.set_Depex d (Dxe.depex false (Expr.patch e))). split; [|done].
  unfold Dxe.depex. simpl. rewrite PeimDispatchReadiness_depex by done.
  by rewrite (proj2 (Nat.leb_le _ _)) by done.
Qed.
End Pei.

(** * Concrete inputs *)

Module DepexWitness.
Import DepexStack.

Definition guid (n : Z) : EFI_GUID := replicate 16 n.

(** Databases with the GUIDs of a list installed. *)
Definition having (gs : list EFI_GUID) : ProtocolDatabase :=
  fun g => if decide (g ∈ gs) then EFI_SUCCESS else EFI_NOT_FOUND.

Definition pool : nat -> bool := fun _ => true.

(** [PUSH 1; PUSH 2; NOT; AND], behind a SOR. *)
Definition e : Expr.expr := Expr.AND (Expr.Push (guid 1)) (Expr.NOT (Expr.Push (guid 2))).

Definition driver (sor : bool) : Dxe.EFI_CORE_DRIVER_ENTRY :=
  Dxe.MkDriver (Some (Dxe.depex sor e)) (length (Dxe.depex sor e)) false false [] true false.

Lemma CoreIsSchedulable_evaluates_witness :
  exists st', Dxe.CoreIsSchedulable (db:=having [guid 1]) pool [] (driver true) NULL_stack =
    Ok (true, st', Dxe.set_Depex (driver true)
          (Dxe.depex true (Expr.AND (Expr.Replaced (guid 1)) (Expr.NOT (Expr.Push (guid 2)))))).
Proof.
  apply (Dxe.CoreIsSchedulable_evaluates (having [guid 1]) pool [] (driver true) true e NULL_stack);
    try reflexivity. repeat split.
Defined.

Lemma CoreIsSchedulable_cache_sound_witness :
  exists b st1 d1 st2 d2,
    Dxe.CoreIsSchedulable (db:=having [guid 1]) pool [] (driver false) NULL_stack = Ok (b, st1, d1) /\
    Dxe.CoreIsSchedulable (db:=having [guid 1; guid 2]) pool [] d1 st1 = Ok (false, st2, d2).
Proof.
  apply (Dxe.CoreIsSchedulable_cache_sound (having [guid 1]) (having [guid 1; guid 2]) pool []
    (driver false) false e NULL_stack); try reflexivity.
  - repeat split.
  - intros g. unfold installed, LocateProtocol, having.
    repeat case_decide; try done. set_solver.
Defined.

Lemma CoreIsSchedulable_safe_witness :
  Dxe.CoreIsSchedulable (db:=having []) (fun _ => false) []
    (Dxe.MkDriver (Some [3; 2; 0]) 3 false false [] true false) NULL_stack = Ok (false, NULL_stack,
     Dxe.MkDriver (Some [3; 2; 0]) 3 false false [] true false) /\
  match Dxe.CoreIsSchedulable (db:=having []) (fun _ => false) []
    (Dxe.MkDriver (Some [3; 2; 0]) 3 false false [] true false) NULL_stack with
  | Ok (_, st', _) => Dxe.valid st' \/ st' = NULL_stack
  | AssertFailed => Dxe.order_opcode [3; 2; 0]
  | BadAccess => Dxe.truncated_operand [3; 2; 0]
  | NoFuel => False
  end.
Proof.
  split; [reflexivity|].
  apply (Dxe.CoreIsSchedulable_safe (having []) (fun _ => false) []
    (Dxe.MkDriver (Some [3; 2; 0]) 3 false false [] true false) [3; 2; 0] NULL_stack); reflexivity.
Defined.

Lemma CorePreProcessDepex_order_witness :
  exists d, Dxe.CorePreProcessDepex
      (Dxe.MkDriver (Some (EFI_DEP_AFTER :: guid 7 ++ [EFI_DEP_END])) 18 false false [] false false)
      = Ok (EFI_SUCCESS, d) /\
    Dxe.BeforeAfterGuid d = guid 7 /\ Dxe.Dependent d = true /\ Dxe.Unrequested d = false /\
    Dxe.Before d = false /\ Dxe.After d = true /\
    Dxe.CoreIsSchedulable (db:=having []) pool [] d NULL_stack = Ok (false, NULL_stack, d).
Proof.
  apply (Dxe.CorePreProcessDepex_order (having []) pool [] _ 18 (guid 7) EFI_DEP_AFTER [EFI_DEP_END]
    NULL_stack); [by right | reflexivity | reflexivity].
Defined.

Definition stack64 : list Pei.EVAL_STACK_ENTRY := replicate 64 (Pei.MkEntry true (Some 5%nat)).

Lemma PeimDispatchReadiness_evaluates_witness :
  Pei.PeimDispatchReadiness (db:=having [guid 1]) stack64 (Expr.encode e ++ EFI_DEP_END :: [255; 0]) =
  Ok true.
Proof.
  apply (Pei.PeimDispatchReadiness_evaluates (having [guid 1]) stack64 e [255; 0]);
    [reflexivity|repeat split|repeat split].
Defined.

Lemma Pei_Dxe_agree_witness :
  exists b st' d',
    Pei.PeimDispatchReadiness (db:=having [guid 1]) stack64 (Dxe.depex false e) = Ok b /\
    Dxe.CoreIsSchedulable (db:=having [guid 1]) pool [] (driver false) NULL_stack = Ok (b, st', d').
Proof.
  apply (Pei.Pei_Dxe_agree (having [guid 1]) pool [] (driver false) stack64 e NULL_stack);
    [reflexivity|reflexivity|repeat split|repeat split| |reflexivity..].
  unfold Pei.MAX_GRAMMAR_SIZE. simpl. lia.
Defined.
End DepexWitness.
