(* ===== verification/LinkedList.v ===== *)
(** Doubly-linked lists: MdePkg/Library/BaseLib/LinkedList.c.

    The functions run on a store of [LIST_ENTRY] nodes addressed by pointers,
    as the C code does; [dlist h head l] says that the nodes [l] hang off
    [head] in that order.  The theorems give each operation's effect on [l];
    the components that keep their data on such lists (GCD map, event queues,
    timer list) work with [l]. *)

From S2P Require Import Prelude.

Record LIST_ENTRY := MkLink { ForwardLink : ptr; BackLink : ptr }.

Abbreviation store := (gmap Z LIST_ENTRY).

(** * The C functions *)

Section Code.
(** [PcdVerifyNodeInList] and [PcdMaximumLinkedListLength] (MdePkg.dec). *)
Context (PcdVerifyNodeInList : bool) (PcdMaximumLinkedListLength : nat).

Definition load (h : store) (p : ptr) : result LIST_ENTRY := deref (h !! p).

Definition set_ForwardLink (h : store) (p v : ptr) : result store :=
  let! n := load h p in Ok (<[p := MkLink v (BackLink n)]> h).

Definition set_BackLink (h : store) (p v : ptr) : result store :=
  let! n := load h p in Ok (<[p := MkLink (ForwardLink n) v]> h).

(** Passes that a loop over a list of this store can make. *)
Definition loop_bound (h : store) : nat := (PcdMaximumLinkedListLength + S (size h))%nat.

(** The [do ... while] of [InternalBaseLibIsListValid]; the result is the final
    [Count]. *)
Fixpoint IsListValid_loop (fuel : nat) (h : store) (List Ptr : ptr) (Count : nat) : result nat :=
  match fuel with
  | O => NoFuel
  | S fuel =>
      let! n := load h Ptr in
      let Ptr := ForwardLink n in
      let Count := S Count in
      if negb (Ptr =? List) && (Count <? PcdMaximumLinkedListLength)%nat
      then IsListValid_loop fuel h List Ptr Count else Ok Count
  end.

Definition InternalBaseLibIsListValid (h : store) (List : ptr) : result bool :=
  do! ASSERT (negb (List =? NULL)) ;;
  let! n := load h List in
  do! ASSERT (negb (ForwardLink n =? NULL)) ;;
  do! ASSERT (negb (BackLink n =? NULL)) ;;
  if (0 <? PcdMaximumLinkedListLength)%nat then
    let! Count := IsListValid_loop (loop_bound h) h List List 0 in
    Ok (Count <? PcdMaximumLinkedListLength)%nat
  else Ok true.

(** The [do ... while] of [IsNodeInList]. *)
Fixpoint IsNodeInList_loop (fuel : nat) (h : store) (FirstEntry SecondEntry Ptr : ptr)
    (Count : nat) : result bool :=
  match fuel with
  | O => NoFuel
  | S fuel =>
      let! n := load h Ptr in
      let Ptr := ForwardLink n in
      let Count := if (0 <? PcdMaximumLinkedListLength)%nat then S Count else Count in
      if (0 <? PcdMaximumLinkedListLength)%nat && (Count =? PcdMaximumLinkedListLength)%nat then
        Ok (Ptr =? SecondEntry)
      else if Ptr =? SecondEntry then Ok true
      else if negb (Ptr =? FirstEntry) then
        IsNodeInList_loop fuel h FirstEntry SecondEntry Ptr Count
      else Ok false
  end.

Definition IsNodeInList (h : store) (FirstEntry SecondEntry : ptr) : result bool :=
  let! v := InternalBaseLibIsListValid h FirstEntry in
  do! ASSERT v ;;
  do! ASSERT (negb (SecondEntry =? NULL)) ;;
  IsNodeInList_loop (loop_bound h) h FirstEntry SecondEntry FirstEntry 0.

Definition ASSERT_VERIFY_NODE_IN_VALID_LIST (h : store) (FirstEntry SecondEntry : ptr)
    (InList : bool) : result unit :=
  if PcdVerifyNodeInList then
    let! b := IsNodeInList h FirstEntry SecondEntry in ASSERT (Bool.eqb InList b)
  else
    let! b := InternalBaseLibIsListValid h FirstEntry in ASSERT b.

Definition InitializeListHead (h : store) (ListHead : ptr) : result (ptr * store) :=
  do! ASSERT (negb (ListHead =? NULL)) ;;
  let! h := set_ForwardLink h ListHead ListHead in
  let! h := set_BackLink h ListHead ListHead in
  Ok (ListHead, h).

Definition InsertHeadList (h : store) (ListHead Entry : ptr) : result (ptr * store) :=
  do! ASSERT_VERIFY_NODE_IN_VALID_LIST h ListHead Entry false ;;
  let! n := load h ListHead in
  let! h := set_ForwardLink h Entry (ForwardLink n) in
  let! h := set_BackLink h Entry ListHead in
  let! e := load h Entry in
  let! h := set_BackLink h (ForwardLink e) Entry in
  let! h := set_ForwardLink h ListHead Entry in
  Ok (ListHead, h).

Definition InsertTailList (h : store) (ListHead Entry : ptr) : result (ptr * store) :=
  do! ASSERT_VERIFY_NODE_IN_VALID_LIST h ListHead Entry false ;;
  let! h := set_ForwardLink h Entry ListHead in
  let! n := load h ListHead in
  let! h := set_BackLink h Entry (BackLink n) in
  let! e := load h Entry in
  let! h := set_ForwardLink h (BackLink e) Entry in
  let! h := set_BackLink h ListHead Entry in
  Ok (ListHead, h).

Definition GetFirstNode (h : store) (List : ptr) : result ptr :=
  let! v := InternalBaseLibIsListValid h List in
  do! ASSERT v ;;
  let! n := load h List in Ok (ForwardLink n).

Definition GetNextNode (h : store) (List Node : ptr) : result ptr :=
  do! ASSERT_VERIFY_NODE_IN_VALID_LIST h List Node true ;;
  let! n := load h Node in Ok (ForwardLink n).

Definition GetPreviousNode (h : store) (List Node : ptr) : result ptr :=
  do! ASSERT_VERIFY_NODE_IN_VALID_LIST h List Node true ;;
  let! n := load h Node in Ok (BackLink n).

Definition IsListEmpty (h : store) (ListHead : ptr) : result bool :=
  let! v := InternalBaseLibIsListValid h ListHead in
  do! ASSERT v ;;
  let! n := load h ListHead in Ok (ForwardLink n =? ListHead).

Definition IsNull (h : store) (List Node : ptr) : result bool :=
  do! ASSERT_VERIFY_NODE_IN_VALID_LIST h List Node true ;;
  Ok (Node =? List).

Definition IsNodeAtEnd (h : store) (List Node : ptr) : result bool :=
  do! ASSERT_VERIFY_NODE_IN_VALID_LIST h List Node true ;;
  let! b := IsNull h List Node in
  let! n := load h List in
  Ok (negb b && (BackLink n =? Node)).

Definition RemoveEntryList (h : store) (Entry : ptr) : result (ptr * store) :=
  let! empty := IsListEmpty h Entry in
  do! ASSERT (negb empty) ;;
  let! e := load h Entry in
  let! h := set_BackLink h (ForwardLink e) (BackLink e) in
  let! e := load h Entry in
  let! h := set_ForwardLink h (BackLink e) (ForwardLink e) in
  let! e := load h Entry in
  Ok (ForwardLink e, h).

Definition SwapListEntries (h : store) (FirstEntry SecondEntry : ptr) : result (ptr * store) :=
  if FirstEntry =? SecondEntry then Ok (SecondEntry, h) else
  do! ASSERT_VERIFY_NODE_IN_VALID_LIST h FirstEntry SecondEntry true ;;
  let! (Ptr, h) := RemoveEntryList h FirstEntry in
  let! n := load h Ptr in
  if BackLink n =? SecondEntry then InsertTailList h SecondEntry FirstEntry else
  let! (Head, h) := InsertHeadList h SecondEntry FirstEntry in
  if Ptr =? Head then Ok (Ptr, h) else
  let! (_, h) := RemoveEntryList h SecondEntry in
  let! (_, h) := InsertTailList h Ptr SecondEntry in
  Ok (SecondEntry, h).
End Code.

(** * Representation *)

Definition fwd (h : store) (p : ptr) : option ptr := ForwardLink <$> h !! p.
Definition bck (h : store) (p : ptr) : option ptr := BackLink <$> h !! p.

(** Consecutive nodes of [c] are linked both ways. *)
Fixpoint linked (h : store) (c : list ptr) : Prop :=
  match c with
  | a :: ((b :: _) as t) => fwd h a = Some b /\ bck h b = Some a /\ linked h t
  | _ => True
  end.

#[export] Instance linked_dec h c : Decision (linked h c).
Proof.
  induction c as [|a [|b c] IH]; simpl in *; [left; done|left; done|].
  destruct (decide (fwd h a = Some b)); [|right; tauto]. destruct (decide (bck h b = Some a)); [|right; tauto].
  destruct IH; [left|right]; tauto.
Defined.

(** The circular list of [head] holds exactly the nodes [l], in this order. *)
Definition dlist (h : store) (head : ptr) (l : list ptr) : Prop :=
  NoDup (head :: l) /\ (NULL ∉ head :: l) /\ linked h (head :: l ++ [head]).

(** Two stores agree on a pointer field of a set of nodes. *)
Lemma linked_frame h h' c :
  (forall x, x ∈ removelast c -> fwd h' x = fwd h x) ->
  (forall x, x ∈ tail c -> bck h' x = bck h x) ->
  linked h c -> linked h' c.
Proof.
  induction c as [|a [|b c] IH]; intros Hf Hb Hl; simpl; auto.
  destruct Hl as (H1 & H2 & H3). split; [|split].
  - rewrite Hf; [done|]. simpl. left.
  - rewrite Hb; [done|]. simpl. left.
  - apply IH; [| |done].
    + intros x Hx. apply Hf. simpl. right. done.
    + intros x Hx. apply Hb. simpl in *. right. done.
Qed.

Lemma linked_app h pre a post :
  linked h (pre ++ a :: post) <-> linked h (pre ++ [a]) /\ linked h (a :: post).
Proof.
  induction pre as [|x [|y pre] IH]; simpl in *; [tauto| |]; tauto.
Qed.

Lemma fwd_load h p f : fwd h p = Some f <-> exists n, load h p = Ok n /\ ForwardLink n = f.
Proof.
  unfold fwd, load. destruct (h !! p) as [n|]; simpl.
  - split; [intros; simplify_eq; eauto | intros (n' & ? & ?); simplify_eq; done].
  - split; [done | intros (n' & ? & ?); done].
Qed.

Lemma bck_load h p b : bck h p = Some b <-> exists n, load h p = Ok n /\ BackLink n = b.
Proof.
  unfold bck, load. destruct (h !! p) as [n|]; simpl.
  - split; [intros; simplify_eq; eauto | intros (n' & ? & ?); simplify_eq; done].
  - split; [done | intros (n' & ? & ?); done].
Qed.

Lemma load_Some h p n : h !! p = Some n -> load h p = Ok n.
Proof. unfold load. by intros ->. Qed.

Lemma is_Some_fwd h p : is_Some (fwd h p) <-> is_Some (h !! p).
Proof. unfold fwd. apply fmap_is_Some. Qed.

Lemma is_Some_bck h p : is_Some (bck h p) <-> is_Some (h !! p).
Proof. unfold bck. apply fmap_is_Some. Qed.

(** Field update, seen through [fwd] and [bck]. *)
Lemma set_ForwardLink_spec h p v :
  is_Some (h !! p) ->
  exists h', set_ForwardLink h p v = Ok h' /\
    (forall x, fwd h' x = if decide (x = p) then Some v else fwd h x) /\
    (forall x, bck h' x = bck h x) /\ (forall x, x <> p -> h' !! x = h !! x) /\
    (forall x, is_Some (h !! x) -> is_Some (h' !! x)).
Proof.
  intros [n Hn]. unfold set_ForwardLink, load. rewrite Hn. simpl.
  eexists; split; [done|]. unfold fwd, bck. repeat split; intros x.
  - case_decide; subst; [by rewrite lookup_insert_eq | by rewrite lookup_insert_ne].
  - destruct (decide (x = p)) as [->|];
      [by rewrite lookup_insert_eq, Hn | by rewrite lookup_insert_ne].
  - intros. by rewrite lookup_insert_ne.
  - intros. destruct (decide (x = p)) as [->|];
      [rewrite lookup_insert_eq; eauto | by rewrite lookup_insert_ne].
Qed.

Lemma set_BackLink_spec h p v :
  is_Some (h !! p) ->
  exists h', set_BackLink h p v = Ok h' /\
    (forall x, fwd h' x = fwd h x) /\
    (forall x, bck h' x = if decide (x = p) then Some v else bck h x) /\
    (forall x, x <> p -> h' !! x = h !! x) /\
    (forall x, is_Some (h !! x) -> is_Some (h' !! x)).
Proof.
  intros [n Hn]. unfold set_BackLink, load. rewrite Hn. simpl.
  eexists; split; [done|]. unfold fwd, bck. repeat split; intros x.
  - destruct (decide (x = p)) as [->|];
      [by rewrite lookup_insert_eq, Hn | by rewrite lookup_insert_ne].
  - case_decide; subst; [by rewrite lookup_insert_eq | by rewrite lookup_insert_ne].
  - intros. by rewrite lookup_insert_ne.
  - intros. destruct (decide (x = p)) as [->|];
      [rewrite lookup_insert_eq; eauto | by rewrite lookup_insert_ne].
Qed.

(** Reading the neighbours. *)
Lemma linked_fwd h pre a b post : linked h (pre ++ a :: b :: post) -> fwd h a = Some b.
Proof. rewrite linked_app. simpl. tauto. Qed.

Lemma linked_bck h pre a b post : linked h (pre ++ a :: b :: post) -> bck h b = Some a.
Proof. rewrite linked_app. simpl. tauto. Qed.

Lemma dlist_in h head l x : dlist h head l -> x ∈ (head :: l) -> is_Some (h !! x).
Proof.
  intros (_ & _ & Hl) Hx. apply is_Some_fwd.
  apply list_elem_of_split in Hx as (pre & post & Heq).
  rewrite app_comm_cons, Heq, <-app_assoc in Hl. simpl in Hl.
  destruct post as [|b post]; simpl in Hl; erewrite linked_fwd by done; eauto.
Qed.

(** Any node of the cycle can serve as its head. *)
Lemma dlist_rotate h head l1 p l2 :
  dlist h head (l1 ++ p :: l2) -> dlist h p (l2 ++ head :: l1).
Proof.
  intros (Hnd & Hnull & Hl). split; [|split].
  - assert (p :: l2 ++ head :: l1 ≡ₚ head :: l1 ++ p :: l2) as ->; [|done]. solve_Permutation.
  - intros Hin. apply Hnull. clear -Hin. set_solver.
  - replace (head :: (l1 ++ p :: l2) ++ [head]) with ((head :: l1) ++ p :: (l2 ++ [head])) in Hl
      by (simpl; by rewrite <-app_assoc).
    apply linked_app in Hl as [Hl1 Hl2].
    replace (p :: (l2 ++ head :: l1) ++ [p]) with ((p :: l2) ++ head :: (l1 ++ [p]))
      by (simpl; by rewrite <-app_assoc).
    by apply linked_app.
Qed.

(** ** The list checks *)

Section Checks.
Context (Verify : bool) (Max : nat).

(** The list is shorter than [PcdMaximumLinkedListLength], if that is set. *)
Definition capacity (l : list ptr) : Prop := Max = 0%nat \/ (S (length l) < Max)%nat.

Lemma capacity_length l l' : (length l' <= length l)%nat -> capacity l -> capacity l'.
Proof. unfold capacity. intros ? [?|?]; [by left|right; lia]. Qed.

Lemma IsListValid_loop_spec h head rest Ptr Count fuel :
  linked h (Ptr :: rest ++ [head]) -> head ∉ rest ->
  (Count < Max)%nat -> (Max - Count <= fuel)%nat ->
  IsListValid_loop Max fuel h head Ptr Count = Ok (Nat.min (Count + S (length rest)) Max).
Proof.
  revert Ptr Count fuel. induction rest as [|q rest IH]; intros Ptr Count fuel Hl Hnin HC Hf;
    (destruct fuel as [|fuel]; [lia|]); simpl in *; destruct Hl as (Hn & Hb & Hl);
    apply fwd_load in Hn as (n & Hn & Hq); rewrite Hn; simpl; rewrite Hq.
  - rewrite Z.eqb_refl. simpl. f_equal. lia.
  - rewrite not_elem_of_cons in Hnin. destruct Hnin as [Hne Hnin].
    rewrite (proj2 (Z.eqb_neq _ _)) by auto. simpl.
    destruct (Nat.ltb_spec (S Count) Max).
    + rewrite IH by (done || lia). f_equal. lia.
    + f_equal. lia.
Qed.

(** [InternalBaseLibIsListValid] accepts exactly the lists below the limit. *)
Lemma IsListValid_spec h head l :
  dlist h head l ->
  InternalBaseLibIsListValid Max h head = Ok ((Max =? 0) || (S (length l) <? Max))%nat.
Proof.
  intros Hd. pose proof Hd as (Hnd & Hnull & Hl).
  apply not_elem_of_cons in Hnull as [Hhead Hnull].
  unfold InternalBaseLibIsListValid. rewrite (proj2 (Z.eqb_neq _ _)) by auto. simpl.
  destruct (dlist_in h head l head Hd ltac:(left)) as [n Hn]. unfold load at 1. rewrite Hn. simpl.
  assert (fwd h head = Some (ForwardLink n) /\ bck h head = Some (BackLink n)) as [Hf Hb]
    by (unfold fwd, bck; by rewrite Hn).
  rewrite (proj2 (Z.eqb_neq _ _)), (proj2 (Z.eqb_neq _ _)).
  - simpl. destruct (Nat.ltb_spec 0 Max); [|by rewrite (proj2 (Nat.eqb_eq Max 0)) by lia].
    rewrite (IsListValid_loop_spec h head l) by (apply NoDup_cons in Hnd as [? _]; unfold loop_bound; done || lia).
    cbn -[Nat.min Nat.ltb]. rewrite (proj2 (Nat.eqb_neq _ _)) by lia. cbn -[Nat.min Nat.ltb].
    f_equal. apply eq_true_iff_eq. rewrite !Nat.ltb_lt. lia.
  - intros E. destruct l as [|l0 l]; simpl in Hl; destruct Hl as (Hf' & _); [congruence|].
    rewrite Hf' in Hf. injection Hf as Hf. apply Hnull. rewrite <-E, <-Hf. left.
  - intros E. destruct l as [|l0 l _] using rev_ind.
    + simpl in Hl. destruct Hl as (? & Hb' & _). congruence.
    + rewrite <-app_assoc in Hl. apply (linked_bck h (head :: l) l0 head []) in Hl.
      rewrite Hl in Hb. injection Hb as Hb. apply Hnull. rewrite <-E, <-Hb.
      clear. set_solver.
Qed.

(** A list has no more nodes than the store. *)
Lemma dlist_size h head l : dlist h head l -> (S (length l) <= size h)%nat.
Proof.
  intros Hd. pose proof Hd as (Hnd & _ & _).
  change (S (length l)) with (length (head :: l)).
  rewrite <-(size_list_to_set (C:=gset Z) (head :: l)) by done.
  rewrite <-size_dom. apply subseteq_size. intros x Hx.
  apply elem_of_list_to_set in Hx. apply elem_of_dom. by eapply dlist_in.
Qed.

Lemma IsNodeInList_loop_spec h head q rest Ptr Count fuel :
  linked h (Ptr :: rest ++ [head]) -> head ∉ rest ->
  Max = 0%nat \/ (Count + S (length rest) < Max)%nat -> (length rest < fuel)%nat ->
  IsNodeInList_loop Max fuel h head q Ptr Count = Ok (bool_decide (q ∈ rest ++ [head])).
Proof.
  revert Ptr Count fuel. induction rest as [|r rest IH]; intros Ptr Count fuel Hl Hnin HC Hf;
    (destruct fuel as [|fuel]; [lia|]); cbn [IsNodeInList_loop]; simpl in Hl;
    destruct Hl as (Hn & Hb & Hl);
    apply fwd_load in Hn as (n & Hn & Hq); rewrite Hn; cbn [mbind result_bind]; rewrite Hq;
    simpl in HC;
    (replace ((0 <? Max) && ((if (0 <? Max)%nat then S Count else Count) =? Max))%nat with false
      by (destruct (Nat.ltb_spec 0 Max); cbn [andb]; [symmetry; apply Nat.eqb_neq; lia|done])).
  - rewrite Z.eqb_refl. simpl. destruct (Z.eqb_spec head q) as [->|Hne].
    + rewrite bool_decide_true; [done|left].
    + rewrite bool_decide_false; [done|]. rewrite list_elem_of_singleton. auto.
  - rewrite not_elem_of_cons in Hnin. destruct Hnin as [Hne Hnin]. simpl.
    destruct (Z.eqb_spec r q) as [->|Hrq].
    + rewrite bool_decide_true; [done|left].
    + rewrite (proj2 (Z.eqb_neq _ _)) by auto. simpl.
      rewrite IH; [|done|done| |simpl in Hf; lia].
      * f_equal. apply bool_decide_ext. rewrite elem_of_cons. naive_solver.
      * destruct HC as [HC|HC]; [by left|right]. destruct (0 <? Max)%nat; lia.
Qed.

Lemma IsNodeInList_spec h head l q :
  dlist h head l -> capacity l -> q <> NULL ->
  IsNodeInList Max h head q = Ok (bool_decide (q ∈ head :: l)).
Proof.
  intros Hd Hc Hq. unfold IsNodeInList. rewrite (IsListValid_spec h head l) by done.
  assert (((Max =? 0) || (S (length l) <? Max))%nat = true) as ->.
  { apply orb_true_iff. rewrite Nat.eqb_eq, Nat.ltb_lt. done. }
  cbn [mbind result_bind ASSERT]. rewrite (proj2 (Z.eqb_neq _ _)) by auto.
  cbn [negb mbind result_bind ASSERT].
  pose proof (dlist_size h head l Hd). destruct Hd as (Hnd & _ & Hl).
  apply NoDup_cons in Hnd as [Hnin _].
  rewrite (IsNodeInList_loop_spec h head q l) by (done || (unfold loop_bound; lia) || apply Hc).
  f_equal. apply bool_decide_ext. clear. set_solver.
Qed.

(** The check before an insertion, and before a traversal. *)
Lemma ASSERT_VERIFY_spec h head l q InList :
  dlist h head l -> capacity l -> q <> NULL -> InList = bool_decide (q ∈ head :: l) ->
  ASSERT_VERIFY_NODE_IN_VALID_LIST Verify Max h head q InList = Ok tt.
Proof.
  intros Hd Hc Hq ->. unfold ASSERT_VERIFY_NODE_IN_VALID_LIST.
  rewrite (IsNodeInList_spec h head l q), (IsListValid_spec h head l) by done.
  assert (((Max =? 0) || (S (length l) <? Max))%nat = true) as ->.
  { apply orb_true_iff. rewrite Nat.eqb_eq, Nat.ltb_lt. done. }
  simpl. rewrite eqb_reflx. by destruct Verify.
Qed.
End Checks.

(** ** Insertion and removal *)

(** Stores that differ on the nodes of [ns] only. *)
Definition same_outside (h h' : store) (ns : list ptr) : Prop :=
  forall x, x ∉ ns -> h' !! x = h !! x.

(** A list none of whose nodes was touched is still there. *)
Lemma dlist_ext h h' head l :
  (forall x, x ∈ head :: l -> h' !! x = h !! x) -> dlist h head l -> dlist h' head l.
Proof.
  intros Hs (Hnd & Hnull & Hl). repeat split; [done..|].
  assert (Hx : forall x, x ∈ head :: l ++ [head] -> h' !! x = h !! x).
  { intros x Hx. apply Hs. clear -Hx. set_solver. }
  eapply linked_frame; [| |exact Hl]; intros x Hin; unfold fwd, bck; rewrite Hx; try done.
  - rewrite app_comm_cons, removelast_last in Hin. clear -Hin. set_solver.
  - simpl in Hin. clear -Hin. set_solver.
Qed.

Lemma dlist_frame h h' ns head l :
  same_outside h h' ns -> (forall x, x ∈ head :: l -> x ∉ ns) ->
  dlist h head l -> dlist h' head l.
Proof. intros Hs Hdis. apply dlist_ext. intros x Hx. by apply Hs, Hdis. Qed.

(** Where a chain [pre ++ [a]] meets a chain [b :: post]: neither end occurs
    elsewhere at a position whose field changes. *)
Definition junction (pre : list ptr) (a b : ptr) (post : list ptr) : Prop :=
  a ∉ pre /\ a ∉ removelast (b :: post) /\ b ∉ tail (pre ++ [a]) /\ b ∉ post.

Lemma linked_junction h h' pre a b post (es : list ptr) :
  junction pre a b post ->
  (forall x, x <> a -> x ∉ es -> fwd h' x = fwd h x) ->
  (forall x, x <> b -> x ∉ es -> bck h' x = bck h x) ->
  (forall x, x ∈ es -> x ∉ pre ++ [a] /\ x ∉ b :: post) ->
  linked h (pre ++ [a]) -> linked h (b :: post) -> linked h' (a :: es ++ [b]) ->
  linked h' (pre ++ a :: es ++ b :: post).
Proof.
  intros (Ha1 & Ha2 & Hb1 & Hb2) Hf Hb He Hl1 Hl2 Hmid.
  apply linked_app. split.
  - eapply linked_frame; [| |exact Hl1]; intros x Hx.
    + rewrite removelast_last in Hx. apply Hf; [congruence|]. intros Hin.
      destruct (He x Hin) as [Hn _]. apply Hn. clear -Hx. set_solver.
    + apply Hb; [congruence|]. intros Hin. destruct (He x Hin) as [Hn _]. apply Hn.
      clear -Hx. destruct pre; simpl in *; set_solver.
  - rewrite app_comm_cons. apply linked_app. split; [done|].
    eapply linked_frame; [| |exact Hl2]; intros x Hx.
    + apply Hf; [congruence|]. intros Hin. destruct (He x Hin) as [_ Hn]. apply Hn.
      clear -Hx. revert Hx. generalize (b :: post). intros l.
      induction l as [|y [|z l] IH]; simpl in *; set_solver.
    + simpl in Hx. apply Hb; [congruence|]. intros Hin. destruct (He x Hin) as [_ Hn].
      apply Hn. clear -Hx. set_solver.
Qed.

(** Every cut of a circular list is such a junction. *)
Lemma dlist_cut (head : ptr) l1 l2 :
  NoDup (head :: l1 ++ l2) ->
  exists pre a b post, head :: l1 = pre ++ [a] /\ l2 ++ [head] = b :: post /\ junction pre a b post.
Proof.
  intros Hnd. destruct (exists_last (l := head :: l1)) as (pre & a & Hpre); [done|].
  destruct (l2 ++ [head]) as [|b post] eqn:Hpost; [by destruct l2|].
  exists pre, a, b, post. repeat split; try done.
  all: rewrite app_comm_cons, Hpre in Hnd; apply NoDup_app in Hnd as (Hnd1 & Hdis & Hnd2).
  - apply NoDup_app in Hnd1 as (_ & H & _). intros Hin. apply (H a Hin). left.
  - rewrite <-Hpost, removelast_last. apply Hdis. apply elem_of_app. right. left.
  - rewrite <-Hpre. simpl. intros Hin. assert (Hb : b ∈ l2 ++ [head]) by (rewrite Hpost; left).
    apply elem_of_app in Hb as [Hb|Hb].
    + apply (Hdis b); [rewrite <-Hpre; by right|done].
    + apply list_elem_of_singleton in Hb as ->. rewrite <-Hpre in Hnd1.
      by apply NoDup_cons in Hnd1 as [? _].
  - assert (Hnd3 : NoDup (l2 ++ [head])).
    { apply NoDup_app. repeat split; [done| |apply NoDup_singleton].
      intros x Hx Hin. apply list_elem_of_singleton in Hin as ->.
      apply (Hdis head); [rewrite <-Hpre; left|done]. }
    rewrite Hpost in Hnd3. by apply NoDup_cons in Hnd3 as [? _].
Qed.

Lemma dlist_cut_linked h head l1 l2 pre a b post :
  head :: l1 = pre ++ [a] -> l2 ++ [head] = b :: post ->
  linked h (head :: (l1 ++ l2) ++ [head]) ->
  linked h (pre ++ [a]) /\ linked h (b :: post) /\ fwd h a = Some b /\ bck h b = Some a.
Proof.
  intros H1 H2 Hl. rewrite <-app_assoc, H2, app_comm_cons, H1, <-app_assoc in Hl. simpl in Hl.
  pose proof (linked_fwd _ _ _ _ _ Hl). pose proof (linked_bck _ _ _ _ _ Hl).
  apply linked_app in Hl as [Hl1 (_ & _ & Hl2)]. auto.
Qed.

(** The store after [e] was linked between [a] and [b]. *)
Definition spliced (h h' : store) (a b e : ptr) : Prop :=
  (forall x, fwd h' x = if decide (x = a) then Some e else if decide (x = e) then Some b else fwd h x) /\
  (forall x, bck h' x = if decide (x = b) then Some e else if decide (x = e) then Some a else bck h x) /\
  same_outside h h' [e; a; b].

Lemma dlist_splice h h' head l1 l2 pre a b post e :
  dlist h head (l1 ++ l2) -> head :: l1 = pre ++ [a] -> l2 ++ [head] = b :: post ->
  e ∉ head :: l1 ++ l2 -> e <> NULL -> spliced h h' a b e ->
  dlist h' head (l1 ++ e :: l2) /\ same_outside h h' (e :: head :: l1 ++ l2).
Proof.
  intros (Hnd & Hnull & Hl) H1 H2 He Hne (Hf & Hb & Hs).
  assert (Ha : a ∈ head :: l1) by (rewrite H1; set_solver).
  assert (Hbi : b ∈ l2 ++ [head]) by (rewrite H2; left).
  split; [split; [|split]|].
  - assert (head :: l1 ++ e :: l2 ≡ₚ e :: head :: l1 ++ l2) as -> by solve_Permutation.
    by constructor.
  - clear -Hnull Hne. set_solver.
  - destruct (dlist_cut head l1 l2 Hnd) as (pre' & a' & b' & post' & H1' & H2' & Hj).
    rewrite H1 in H1'. apply app_inj_tail in H1' as [<- <-]. rewrite H2 in H2'. injection H2' as <- <-.
    destruct (dlist_cut_linked h head l1 l2 pre a b post H1 H2 Hl) as (Hl1 & Hl2 & _).
    replace (head :: (l1 ++ e :: l2) ++ [head]) with (pre ++ a :: [e] ++ b :: post).
    2: { assert (head :: (l1 ++ e :: l2) ++ [head] = (head :: l1) ++ e :: (l2 ++ [head])) as ->
           by (simpl; by rewrite <-app_assoc).
         by rewrite H1, H2, <-app_assoc. }
    eapply linked_junction; [exact Hj| | | |done|done|].
    + intros x Hx Hxe. rewrite Hf, !decide_False; [done|set_solver|done].
    + intros x Hx Hxe. rewrite Hb, !decide_False; [done|set_solver|done].
    + intros x Hx. apply list_elem_of_singleton in Hx as ->. rewrite <-H1, <-H2.
      clear -He. set_solver.
    + simpl. rewrite !Hf, !Hb. rewrite (decide_True _ _ (eq_refl a)), (decide_True _ _ (eq_refl b)).
      rewrite !(decide_True _ _ (eq_refl e)), !decide_False; [done|..]; clear -He Ha Hbi; set_solver.
  - intros x Hx. apply Hs. clear -Hx Ha Hbi. set_solver.
Qed.

(** Some rotation of the list has [p] as its head. *)
Lemma dlist_at h head l p :
  dlist h head l -> p ∈ head :: l ->
  exists l', dlist h p l' /\ head :: l ≡ₚ p :: l'.
Proof.
  intros Hd Hp. apply elem_of_cons in Hp as [->|Hp]; [by exists l|].
  apply list_elem_of_split in Hp as (l1 & l2 & ->).
  exists (l2 ++ head :: l1). split; [by apply dlist_rotate|solve_Permutation].
Qed.

Section Operations.
Context (Verify : bool) (Max : nat).

Lemma insert_check h head l p e :
  dlist h head l -> p ∈ head :: l -> capacity Max l -> e ∉ head :: l -> e <> NULL ->
  ASSERT_VERIFY_NODE_IN_VALID_LIST Verify Max h p e false = Ok tt.
Proof.
  intros Hd Hp Hc He Hne. destruct (dlist_at _ _ _ _ Hd Hp) as (l' & Hd' & Hperm).
  eapply ASSERT_VERIFY_spec; [done| |done|].
  - eapply capacity_length; [|done]. apply Permutation_length in Hperm. simpl in Hperm. lia.
  - rewrite bool_decide_false; [done|]. by rewrite <-Hperm.
Qed.

(** [InsertHeadList (p, e)] links [e] right after [p], whether [p] is the head
    or another node of the list. *)
Lemma InsertHeadList_after h head l1 l2 pre p e :
  dlist h head (l1 ++ l2) -> head :: l1 = pre ++ [p] -> capacity Max (l1 ++ l2) ->
  is_Some (h !! e) -> e ∉ head :: l1 ++ l2 -> e <> NULL ->
  exists h', InsertHeadList Verify Max h p e = Ok (p, h') /\
    dlist h' head (l1 ++ e :: l2) /\ same_outside h h' (e :: head :: l1 ++ l2).
Proof.
  intros Hd H1 Hc Hse He Hne. destruct (l2 ++ [head]) as [|b post] eqn:H2; [by destruct l2|].
  destruct (dlist_cut_linked h head l1 l2 pre p b post H1 H2) as (_ & _ & Hf & Hb); [apply Hd|].
  assert (Hp : p ∈ head :: l1 ++ l2) by (rewrite app_comm_cons, H1; clear; set_solver).
  assert (Hbi : b ∈ head :: l1 ++ l2).
  { assert (b ∈ l2 ++ [head]) as Hin by (rewrite H2; left). clear -Hin. set_solver. }
  unfold InsertHeadList. rewrite (insert_check h head (l1 ++ l2)) by done. simpl.
  apply fwd_load in Hf as (n & Hn & Hnb). rewrite Hn. simpl. rewrite Hnb.
  destruct (set_ForwardLink_spec h e b Hse) as (h1 & -> & F1 & B1 & O1 & S1). simpl.
  destruct (set_BackLink_spec h1 e p) as (h2 & -> & F2 & B2 & O2 & S2); [auto|]. simpl.
  assert (fwd h2 e = Some b) as Hfe by (by rewrite F2, F1, decide_True).
  apply fwd_load in Hfe as (n' & Hn' & Hn'b). rewrite Hn'. simpl. rewrite Hn'b.
  destruct (set_BackLink_spec h2 b e) as (h3 & -> & F3 & B3 & O3 & S3).
  { apply S2, S1. by eapply dlist_in. }
  simpl. destruct (set_ForwardLink_spec h3 p e) as (h4 & -> & F4 & B4 & O4 & S4).
  { apply S3, S2, S1. by eapply dlist_in. }
  simpl. exists h4. split; [done|].
  eapply dlist_splice; try done. repeat split.
  - intros x. by rewrite F4, F3, F2, F1.
  - intros x. by rewrite B4, B3, B2, B1.
  - intros x Hx. rewrite !not_elem_of_cons in Hx. destruct Hx as (? & ? & ? & _).
    by rewrite O4, O3, O2, O1.
Qed.

(** [InsertTailList (p, e)] links [e] right before [p]. *)
Lemma InsertTailList_before h head l1 l2 p post e :
  dlist h head (l1 ++ l2) -> l2 ++ [head] = p :: post -> capacity Max (l1 ++ l2) ->
  is_Some (h !! e) -> e ∉ head :: l1 ++ l2 -> e <> NULL ->
  exists h', InsertTailList Verify Max h p e = Ok (p, h') /\
    dlist h' head (l1 ++ e :: l2) /\ same_outside h h' (e :: head :: l1 ++ l2).
Proof.
  intros Hd H2 Hc Hse He Hne.
  destruct (exists_last (l := head :: l1)) as (pre & a & H1); [done|].
  destruct (dlist_cut_linked h head l1 l2 pre a p post H1 H2) as (_ & _ & Hf & Hb); [apply Hd|].
  assert (Ha : a ∈ head :: l1 ++ l2) by (rewrite app_comm_cons, H1; clear; set_solver).
  assert (Hp : p ∈ head :: l1 ++ l2).
  { assert (p ∈ l2 ++ [head]) as Hin by (rewrite H2; left). clear -Hin. set_solver. }
  unfold InsertTailList. rewrite (insert_check h head (l1 ++ l2)) by done. simpl.
  destruct (set_ForwardLink_spec h e p Hse) as (h1 & -> & F1 & B1 & O1 & S1). simpl.
  assert (bck h1 p = Some a) as Hb1 by (by rewrite B1).
  apply bck_load in Hb1 as (n & Hn & Hna). rewrite Hn. simpl. rewrite Hna.
  destruct (set_BackLink_spec h1 e a) as (h2 & -> & F2 & B2 & O2 & S2); [auto|]. simpl.
  assert (bck h2 e = Some a) as Hbe by (by rewrite B2, decide_True).
  apply bck_load in Hbe as (n' & Hn' & Hn'a). rewrite Hn'. simpl. rewrite Hn'a.
  destruct (set_ForwardLink_spec h2 a e) as (h3 & -> & F3 & B3 & O3 & S3).
  { apply S2, S1. by eapply dlist_in. }
  simpl. destruct (set_BackLink_spec h3 p e) as (h4 & -> & F4 & B4 & O4 & S4).
  { apply S3, S2, S1. by eapply dlist_in. }
  simpl. exists h4. split; [done|].
  eapply dlist_splice; try done. repeat split.
  - intros x. by rewrite F4, F3, F2, F1.
  - intros x. by rewrite B4, B3, B2, B1.
  - intros x Hx. rewrite !not_elem_of_cons in Hx. destruct Hx as (? & ? & ? & _).
    by rewrite O4, O3, O2, O1.
Qed.

Lemma IsListEmpty_spec h head l :
  dlist h head l -> capacity Max l ->
  IsListEmpty Max h head = Ok (bool_decide (l = [])).
Proof.
  intros Hd Hc. unfold IsListEmpty. rewrite (IsListValid_spec Max h head l) by done.
  assert (((Max =? 0) || (S (length l) <? Max))%nat = true) as ->.
  { apply orb_true_iff. rewrite Nat.eqb_eq, Nat.ltb_lt. done. }
  simpl. destruct Hd as (Hnd & _ & Hl).
  destruct l as [|x l]; simpl in Hl; destruct Hl as (Hf & _);
    apply fwd_load in Hf as (n & Hn & Hx); rewrite Hn; simpl; rewrite Hx.
  - simpl. by rewrite Z.eqb_refl.
  - rewrite (proj2 (Z.eqb_neq _ _)); [done|]. apply NoDup_cons in Hnd as [Hnin _].
    intros ->. apply Hnin. left.
Qed.

(** [RemoveEntryList (e)] unlinks [e] and returns the node after it; the links
    stored in [e] itself stay as they were. *)
Lemma RemoveEntryList_unlinks h head l1 e l2 :
  dlist h head (l1 ++ e :: l2) -> capacity Max (l1 ++ e :: l2) ->
  exists h', RemoveEntryList Max h e = Ok (List.hd head l2, h') /\
    dlist h' head (l1 ++ l2) /\ same_outside h h' (head :: l1 ++ l2).
Proof.
  intros Hd Hc. pose proof (dlist_rotate _ _ _ _ _ Hd) as Hde.
  assert (Hc' : capacity Max (l2 ++ head :: l1)).
  { eapply capacity_length; [|done]. rewrite !length_app. simpl. lia. }
  pose proof Hd as (Hnd & Hnull & Hl).
  assert (Hperm : head :: l1 ++ e :: l2 ≡ₚ e :: head :: l1 ++ l2) by solve_Permutation.
  rewrite Hperm in Hnd, Hnull. apply NoDup_cons in Hnd as [Hnin Hnd].
  apply not_elem_of_cons in Hnull as [_ Hnull].
  destruct (dlist_cut head l1 l2 Hnd) as (pre & a & b & post & H1 & H2 & Hj).
  assert (Hcyc : head :: (l1 ++ e :: l2) ++ [head] = pre ++ a :: e :: b :: post).
  { rewrite <-H2. assert (head :: (l1 ++ e :: l2) ++ [head] = (head :: l1) ++ e :: (l2 ++ [head])) as ->
      by (simpl; by rewrite <-app_assoc). by rewrite H1, <-app_assoc. }
  rewrite Hcyc in Hl. pose proof Hl as Hl0.
  apply linked_app in Hl0 as [Hl1 (Hfa & Hbe & Hfe & Hbb & Hl2)].
  assert (Hnext : List.hd head l2 = b) by (destruct l2; simpl in H2; by injection H2).
  assert (Ha : a ∈ head :: l1 ++ l2) by (rewrite app_comm_cons, H1; clear; set_solver).
  assert (Hb : b ∈ head :: l1 ++ l2).
  { assert (b ∈ l2 ++ [head]) as Hin by (rewrite H2; left). clear -Hin. set_solver. }
  assert (Hae : a <> e /\ b <> e) by (split; intros ->; contradiction).
  unfold RemoveEntryList. rewrite (IsListEmpty_spec h e (l2 ++ head :: l1)) by done.
  rewrite bool_decide_false by (by destruct l2). simpl.
  assert (exists n, h !! e = Some n /\ ForwardLink n = b /\ BackLink n = a) as (n & Hn & Hnf & Hnb).
  { unfold fwd, bck in Hfe, Hbe. destruct (h !! e) as [n|]; [|done]. simpl in *. naive_solver. }
  rewrite (load_Some h e n Hn). simpl. rewrite Hnf, Hnb.
  destruct (set_BackLink_spec h b a) as (h1 & -> & F1 & B1 & O1 & S1).
  { eapply dlist_in; [exact Hd|]. rewrite Hperm. by right. }
  simpl. rewrite (load_Some h1 e n) by (rewrite O1; naive_solver). simpl. rewrite Hnf, Hnb.
  destruct (set_ForwardLink_spec h1 a b) as (h2 & -> & F2 & B2 & O2 & S2).
  { apply S1. eapply dlist_in; [exact Hd|]. rewrite Hperm. by right. }
  simpl. rewrite (load_Some h2 e n) by (rewrite O2, O1; naive_solver). simpl. rewrite Hnf, Hnext.
  exists h2. split; [done|]. split; [split; [done|split; [done|]]|].
  - replace (head :: (l1 ++ l2) ++ [head]) with (pre ++ a :: [] ++ b :: post).
    2: { rewrite <-H2, <-app_assoc, !app_comm_cons, H1, <-app_assoc. done. }
    eapply linked_junction; [exact Hj| | | |done|done|].
    + intros x Hx _. by rewrite F2, F1, decide_False.
    + intros x Hx _. by rewrite B2, B1, decide_False.
    + intros x Hx. by apply not_elem_of_nil in Hx.
    + simpl. by rewrite F2, B2, B1, !decide_True.
  - intros x Hx. rewrite O2, O1; [done|..]; intros ->; contradiction.
Qed.

Lemma traverse_check h head l q :
  dlist h head l -> capacity Max l -> q ∈ head :: l ->
  ASSERT_VERIFY_NODE_IN_VALID_LIST Verify Max h head q true = Ok tt.
Proof.
  intros Hd Hc Hq. eapply ASSERT_VERIFY_spec; try done.
  - intros ->. by destruct Hd as (_ & ? & _).
  - by rewrite bool_decide_true.
Qed.

(** The neighbours of any node of the list. *)
Lemma dlist_neighbours h head l1 l2 pre p q post :
  dlist h head (l1 ++ l2) -> head :: l1 = pre ++ [p] -> l2 ++ [head] = q :: post ->
  exists np nq, load h p = Ok np /\ ForwardLink np = q /\ load h q = Ok nq /\ BackLink nq = p.
Proof.
  intros (_ & _ & Hl) H1 H2.
  destruct (dlist_cut_linked h head l1 l2 pre p q post H1 H2 Hl) as (_ & _ & Hf & Hb).
  apply fwd_load in Hf as (np & ? & ?). apply bck_load in Hb as (nq & ? & ?). eauto 10.
Qed.

(** The common start of [SwapListEntries]: [FirstEntry] is unlinked and its
    old neighbours [p] and [List.hd head l2] are looked at. *)
Lemma Swap_start h head l1 a l2 b pre p :
  dlist h head (l1 ++ a :: l2) -> capacity Max (l1 ++ a :: l2) ->
  b ∈ head :: l1 ++ a :: l2 -> a <> b -> head :: l1 = pre ++ [p] ->
  exists h1, dlist h1 head (l1 ++ l2) /\ same_outside h h1 (head :: l1 ++ l2) /\
    is_Some (h1 !! a) /\
    SwapListEntries Verify Max h a b =
    if p =? b then InsertTailList Verify Max h1 b a else
    let! (Head, h2) := InsertHeadList Verify Max h1 b a in
    if List.hd head l2 =? Head then Ok (List.hd head l2, h2) else
    let! (_, h3) := RemoveEntryList Max h2 b in
    let! (_, h4) := InsertTailList Verify Max h3 (List.hd head l2) b in
    Ok (b, h4).
Proof.
  intros Hd Hc Hb Hab H1.
  destruct (dlist_at h head _ a Hd) as (l' & Hda & Hpa); [clear; set_solver|].
  assert (Hca : capacity Max l').
  { eapply capacity_length; [|done]. apply Permutation_length in Hpa. simpl in Hpa. lia. }
  unfold SwapListEntries. rewrite (proj2 (Z.eqb_neq _ _)) by done.
  rewrite (traverse_check h a l' b) by (done || by rewrite <-Hpa). simpl.
  destruct (RemoveEntryList_unlinks h head l1 a l2 Hd Hc) as (h1 & -> & Hd1 & Hs1).
  exists h1. split; [done|]. split; [done|]. split.
  - rewrite Hs1; [eapply dlist_in; [done|clear; set_solver]|].
    destruct Hd as (Hnd & _ & _).
    assert (Hp : head :: l1 ++ a :: l2 ≡ₚ a :: head :: l1 ++ l2) by solve_Permutation.
    rewrite Hp in Hnd. by apply NoDup_cons in Hnd as [? _].
  - cbn [mbind result_bind].
    destruct (l2 ++ [head]) as [|q post] eqn:H2; [by destruct l2|].
    destruct (dlist_neighbours h1 head l1 l2 pre p q post Hd1 H1 H2) as (_ & nq & _ & _ & Hq & Hqb).
    assert (List.hd head l2 = q) as -> by (destruct l2; simpl in H2; by injection H2).
    rewrite Hq. simpl. by rewrite Hqb.
Qed.

(** Inequalities between the parts of a list without duplicates. *)
Lemma dlist_distinct h head l1 a l2 b l3 :
  dlist h head (l1 ++ a :: l2 ++ b :: l3) ->
  a <> b /\ a ∉ head :: l1 ++ l2 ++ l3 /\ b ∉ head :: l1 ++ l2 ++ l3 /\ a <> NULL /\ b <> NULL.
Proof.
  intros (Hnd & Hnull & _).
  assert (Hp : head :: l1 ++ a :: l2 ++ b :: l3 ≡ₚ a :: b :: head :: l1 ++ l2 ++ l3)
    by solve_Permutation.
  rewrite Hp in Hnd, Hnull. rewrite !NoDup_cons in Hnd. rewrite !not_elem_of_cons in Hnull.
  destruct Hnd as (Ha & Hb & _). apply not_elem_of_cons in Ha as [Hab Ha].
  destruct Hnull as (? & ? & _). repeat split; auto; by apply not_elem_of_cons.
Qed.

(** Swapping, when [FirstEntry] is before [SecondEntry]. *)
Lemma Swap_forward h head l1 a l2 b l3 :
  dlist h head (l1 ++ a :: l2 ++ b :: l3) -> capacity Max (l1 ++ a :: l2 ++ b :: l3) ->
  exists h', SwapListEntries Verify Max h a b = Ok (b, h') /\
    dlist h' head (l1 ++ b :: l2 ++ a :: l3) /\
    same_outside h h' (head :: l1 ++ a :: l2 ++ b :: l3).
Proof.
  intros Hd Hc. destruct (dlist_distinct _ _ _ _ _ _ _ Hd) as (Hab & Ha & Hb & Hna & Hnb).
  destruct (exists_last (l := head :: l1)) as (pre & p & H1); [done|].
  destruct (Swap_start h head l1 a (l2 ++ b :: l3) b pre p Hd Hc) as (h1 & Hd1 & Hs1 & Hsa & ->);
    [clear; set_solver|done|done|].
  rewrite (proj2 (Z.eqb_neq p b)).
  2: { intros ->. apply Hb. rewrite app_comm_cons, H1. clear. set_solver. }
  assert (Hc1 : forall l, (length l <= length (l1 ++ a :: l2 ++ b :: l3))%nat -> capacity Max l)
    by (intros; by eapply capacity_length).
  destruct (InsertHeadList_after h1 head (l1 ++ l2 ++ [b]) l3 (head :: l1 ++ l2) b a)
    as (h2 & -> & Hd2 & Hs2); rewrite <-?app_assoc; simpl; rewrite <-?app_assoc; try done.
  { apply Hc1. solve_length. } { clear -Ha Hab. set_solver. }
  cbn [mbind result_bind]. rewrite <-!app_assoc in Hd2, Hs2. simpl in Hd2, Hs2.
  destruct l2 as [|q l2]; simpl List.hd; cycle 1.
  - rewrite (proj2 (Z.eqb_neq q b)) by (clear -Hb; set_solver).
    destruct (RemoveEntryList_unlinks h2 head (l1 ++ q :: l2) b (a :: l3)) as (h3 & -> & Hd3 & Hs3).
    { by rewrite <-app_assoc. } { apply Hc1. solve_length. }
    cbn [mbind result_bind].
    destruct (InsertTailList_before h3 head l1 (q :: l2 ++ a :: l3) q ((l2 ++ a :: l3) ++ [head]) b)
      as (h4 & -> & Hd4 & Hs4); simpl; try done.
    { by rewrite <-app_assoc in Hd3. } { apply Hc1. solve_length. }
    { rewrite Hs3 by (clear -Hb Hab; set_solver). eapply dlist_in; [done|clear; set_solver]. }
    { clear -Hb Hab. set_solver. }
    exists h4. split; [done|]. split; [done|]. intros x Hx.
    rewrite Hs4, Hs3, Hs2, Hs1; [done|clear -Hx; set_solver..].
  - simpl. rewrite Z.eqb_refl. exists h2. split; [done|]. split; [done|]. intros x Hx.
    rewrite Hs2, Hs1; [done|clear -Hx; set_solver..].
Qed.

(** Swapping, when [FirstEntry] is after [SecondEntry]. *)
Lemma Swap_backward h head l1 a l2 b l3 :
  dlist h head (l1 ++ a :: l2 ++ b :: l3) -> capacity Max (l1 ++ a :: l2 ++ b :: l3) ->
  exists h', SwapListEntries Verify Max h b a = Ok (a, h') /\
    dlist h' head (l1 ++ b :: l2 ++ a :: l3) /\
    same_outside h h' (head :: l1 ++ a :: l2 ++ b :: l3).
Proof.
  intros Hd Hc. destruct (dlist_distinct _ _ _ _ _ _ _ Hd) as (Hab & Ha & Hb & Hna & Hnb).
  destruct (exists_last (l := head :: l1 ++ a :: l2)) as (pre & p & H1); [done|].
  assert (Heq : l1 ++ a :: l2 ++ b :: l3 = (l1 ++ a :: l2) ++ b :: l3) by (by rewrite <-app_assoc).
  assert (Hc1 : forall l, (length l <= length (l1 ++ a :: l2 ++ b :: l3))%nat -> capacity Max l)
    by (intros; by eapply capacity_length).
  rewrite Heq in Hd.
  destruct (Swap_start h head (l1 ++ a :: l2) b l3 a pre p Hd) as (h1 & Hd1 & Hs1 & Hsa & ->);
    [apply Hc1; solve_length|clear; set_solver|done|done|].
  rewrite <-app_assoc in Hd1, Hs1. simpl in Hd1, Hs1.
  destruct l2 as [|q l2].
  - assert (p = a) as ->.
    { rewrite app_comm_cons in H1. by apply app_inj_tail in H1 as [_ ->]. }
    rewrite Z.eqb_refl.
    destruct (InsertTailList_before h1 head l1 (a :: l3) a (l3 ++ [head]) b)
      as (h2 & -> & Hd2 & Hs2); simpl; try done.
    { apply Hc1. solve_length. } { clear -Hb Hab. set_solver. }
    exists h2. split; [done|]. split; [done|]. intros x Hx.
    rewrite Hs2, Hs1; [done|clear -Hx; set_solver..].
  - rewrite (proj2 (Z.eqb_neq p a)).
    2: { intros ->. apply Ha.
         assert (Hin : a ∈ q :: l2); [|clear -Hin; set_solver].
         destruct (exists_last (l := q :: l2)) as (l2' & z & Hz); [done|].
         rewrite Hz in H1. rewrite !app_comm_cons, !app_assoc in H1.
         apply app_inj_tail in H1 as [_ ->]. rewrite Hz. clear. set_solver. }
    destruct (InsertHeadList_after h1 head (l1 ++ [a]) (q :: l2 ++ l3) (head :: l1) a b)
      as (h2 & -> & Hd2 & Hs2); rewrite <-?app_assoc; simpl; rewrite <-?app_assoc; try done.
    { apply Hc1. solve_length. } { clear -Hb Hab. set_solver. }
    cbn [mbind result_bind]. rewrite <-!app_assoc in Hd2, Hs2. simpl in Hd2, Hs2.
    rewrite (proj2 (Z.eqb_neq _ a)) by (destruct l3; simpl; clear -Ha; set_solver).
    destruct (RemoveEntryList_unlinks h2 head l1 a (b :: q :: l2 ++ l3)) as (h3 & -> & Hd3 & Hs3);
      [done|apply Hc1; solve_length|]. cbn [mbind result_bind].
    destruct (InsertTailList_before h3 head (l1 ++ b :: q :: l2) l3 (List.hd head l3)
      (tail (l3 ++ [head])) a) as (h4 & -> & Hd4 & Hs4); rewrite <-?app_assoc; simpl; rewrite <-?app_assoc; try done.
    { by destruct l3. } { apply Hc1. solve_length. }
    { rewrite Hs3 by (clear -Ha Hab; set_solver). eapply dlist_in; [done|clear; set_solver]. }
    { clear -Ha Hab. set_solver. }
    rewrite <-!app_assoc in Hd4, Hs4. simpl in Hd4, Hs4.
    exists h4. split; [done|]. split; [done|]. intros x Hx.
    rewrite Hs4, Hs3, Hs2, Hs1; [done|clear -Hx; set_solver..].
Qed.
End Operations.

(** * The operations on the list they represent *)

Section Properties.
Context (Verify : bool) (Max : nat).

Lemma InitializeListHead_empty h p :
  is_Some (h !! p) -> p <> NULL ->
  exists h', InitializeListHead h p = Ok (p, h') /\ dlist h' p [] /\ same_outside h h' [p].
Proof.
  intros Hs Hp. unfold InitializeListHead. rewrite (proj2 (Z.eqb_neq _ _)) by done. simpl.
  destruct (set_ForwardLink_spec h p p Hs) as (h1 & -> & F1 & B1 & O1 & S1). simpl.
  destruct (set_BackLink_spec h1 p p) as (h2 & -> & F2 & B2 & O2 & S2); [auto|]. simpl.
  exists h2. split; [done|]. split; [split; [|split]|].
  - apply NoDup_singleton.
  - by rewrite list_elem_of_singleton.
  - simpl. by rewrite F2, F1, B2, !decide_True.
  - intros x Hx. rewrite list_elem_of_singleton in Hx. by rewrite O2, O1.
Qed.

(** [InsertHeadList (p, e)] and [InsertTailList (p, e)] link a fresh node
    [e] right after, respectively right before, the node [p] of a list: [p] may
    be the head (insertion at the two ends) or any other node (insertion in
    the middle, as the GCD map and the timer list do).  All other nodes keep
    their order, and every list that shares no node with this one is
    untouched.  The list-validity ASSERTs pass below the length limit. *)
Theorem Insert_links h head l1 l2 pre p q post e
    (Hlist : dlist h head (l1 ++ l2)) (Hp : head :: l1 = pre ++ [p]) (Hq : l2 ++ [head] = q :: post)
    (Hcap : capacity Max (l1 ++ l2)) (Hnode : is_Some (h !! e))
    (Hfresh : e ∉ head :: l1 ++ l2) (Hnull : e <> NULL) :
  exists h1 h2,
    InsertHeadList Verify Max h p e = Ok (p, h1) /\ dlist h1 head (l1 ++ e :: l2) /\
    InsertTailList Verify Max h q e = Ok (q, h2) /\ dlist h2 head (l1 ++ e :: l2) /\
    forall head' l', dlist h head' l' ->
      (forall x, x ∈ head' :: l' -> x ∉ e :: head :: l1 ++ l2) ->
      dlist h1 head' l' /\ dlist h2 head' l'.
Proof.
  destruct (InsertHeadList_after Verify Max h head l1 l2 pre p e) as (h1 & ? & ? & ?); auto.
  destruct (InsertTailList_before Verify Max h head l1 l2 q post e) as (h2 & ? & ? & ?); auto.
  exists h1, h2. repeat (split; [done|]). intros head' l' Hd' Hdis.
  split; by eapply dlist_frame.
Qed.

(** C33: [RemoveEntryList (e)] unlinks [e], wherever it is in the list, and
    returns the node that followed it (the head when it was last); every
    other list is untouched. *)
Theorem RemoveEntryList_removes h head l1 e l2
    (Hlist : dlist h head (l1 ++ e :: l2)) (Hcap : capacity Max (l1 ++ e :: l2)) :
  exists h', RemoveEntryList Max h e = Ok (List.hd head l2, h') /\
    dlist h' head (l1 ++ l2) /\
    forall head' l', dlist h head' l' ->
      (forall x, x ∈ head' :: l' -> x ∉ head :: l1 ++ l2) -> dlist h' head' l'.
Proof.
  destruct (RemoveEntryList_unlinks Max h head l1 e l2) as (h' & ? & ? & ?); auto.
  exists h'. repeat (split; [done|]). intros head' l' Hd' Hdis. by eapply dlist_frame.
Qed.

(** [SwapListEntries (a, b)] and [SwapListEntries (b, a)] exchange the
    positions of two nodes of a list, adjacent or not, in either order of
    appearance, and return their second argument. *)
Theorem SwapListEntries_swaps h head l1 a l2 b l3
    (Hlist : dlist h head (l1 ++ a :: l2 ++ b :: l3))
    (Hcap : capacity Max (l1 ++ a :: l2 ++ b :: l3)) :
  exists h1 h2,
    SwapListEntries Verify Max h a b = Ok (b, h1) /\ dlist h1 head (l1 ++ b :: l2 ++ a :: l3) /\
    SwapListEntries Verify Max h b a = Ok (a, h2) /\ dlist h2 head (l1 ++ b :: l2 ++ a :: l3).
Proof.
  destruct (Swap_forward Verify Max h head l1 a l2 b l3) as (h1 & ? & ? & _); auto.
  destruct (Swap_backward Verify Max h head l1 a l2 b l3) as (h2 & ? & ? & _); auto.
  eauto 10.
Qed.

Lemma GetFirstNode_spec h head l :
  dlist h head l -> capacity Max l -> GetFirstNode Max h head = Ok (List.hd head l).
Proof.
  intros Hd Hc. unfold GetFirstNode. rewrite (IsListValid_spec Max h head l) by done.
  assert (((Max =? 0) || (S (length l) <? Max))%nat = true) as ->.
  { apply orb_true_iff. rewrite Nat.eqb_eq, Nat.ltb_lt. done. }
  simpl. destruct Hd as (_ & _ & Hl).
  destruct l as [|x l]; simpl in Hl; destruct Hl as (Hf & _);
    apply fwd_load in Hf as (n & -> & <-); done.
Qed.

(** The two links of a node in the middle, and the last node. *)
Lemma dlist_links h head l1 p l2 :
  dlist h head (l1 ++ p :: l2) ->
  exists n, load h p = Ok n /\ ForwardLink n = List.hd head l2 /\ BackLink n = List.last l1 head.
Proof.
  intros (_ & _ & Hl).
  assert (Hb : bck h p = Some (List.last l1 head)).
  { destruct l1 as [|x l1 _] using rev_ind.
    - simpl in *. tauto.
    - rewrite List.last_last. rewrite <-!app_assoc in Hl. by apply (linked_bck h (head :: l1)) in Hl. }
  assert (Hf : fwd h p = Some (List.hd head l2)).
  { rewrite <-app_assoc in Hl. destruct l2; by apply (linked_fwd h (head :: l1)) in Hl. }
  apply fwd_load in Hf as (n & Hn & Hf). apply bck_load in Hb as (n' & Hn' & Hb).
  rewrite Hn in Hn'. injection Hn' as <-. by exists n.
Qed.

Lemma dlist_last h head l1 p l2 :
  dlist h head (l1 ++ p :: l2) ->
  exists n, load h head = Ok n /\ BackLink n = List.last (p :: l2) head.
Proof.
  intros (_ & _ & Hl). apply bck_load.
  destruct (exists_last (l := p :: l2)) as (pre & q & E); [done|].
  rewrite E, List.last_last. rewrite E, <-!app_assoc in Hl.
  rewrite app_assoc in Hl. by apply (linked_bck h (head :: l1 ++ pre)) in Hl.
Qed.

(** the traversal functions follow the order of the list: first, next and
    previous node (the head closes the cycle), emptiness, "is the head" and
    "is the last node". *)
Theorem traversal_follows_order h head l1 p l2
    (Hlist : dlist h head (l1 ++ p :: l2)) (Hcap : capacity Max (l1 ++ p :: l2)) :
  GetFirstNode Max h head = Ok (List.hd p l1) /\
  GetNextNode Verify Max h head p = Ok (List.hd head l2) /\
  GetPreviousNode Verify Max h head p = Ok (List.last l1 head) /\
  IsListEmpty Max h head = Ok false /\
  IsNull Verify Max h head p = Ok false /\ IsNull Verify Max h head head = Ok true /\
  IsNodeAtEnd Verify Max h head p = Ok (bool_decide (l2 = [])) /\
  IsNodeInList Max h head p = Ok true.
Proof.
  assert (Hp : p ∈ head :: l1 ++ p :: l2) by (clear; set_solver).
  assert (Hne : p <> head /\ p <> NULL).
  { destruct Hlist as (Hnd & Hnull & _). apply NoDup_cons in Hnd as [Hnd _].
    split; intros ->; [apply Hnd|apply Hnull]; clear; set_solver. }
  destruct (dlist_links h head l1 p l2 Hlist) as (n & Hn & Hnf & Hnb).
  destruct (dlist_last h head l1 p l2 Hlist) as (n0 & Hn0 & Hn0b).
  unfold GetNextNode, GetPreviousNode, IsNodeAtEnd, IsNull.
  rewrite !(traverse_check Verify Max h head (l1 ++ p :: l2)) by (done || left).
  rewrite (GetFirstNode_spec h head (l1 ++ p :: l2)), (IsListEmpty_spec Max h head (l1 ++ p :: l2)),
    (IsNodeInList_spec Max h head (l1 ++ p :: l2)), Hn, Hn0 by naive_solver.
  cbn [mbind result_bind]. rewrite Hnf, Hnb, Hn0b, Z.eqb_refl.
  rewrite (proj2 (Z.eqb_neq p head)), (bool_decide_true (p ∈ _)) by naive_solver.
  rewrite bool_decide_false by (by destruct l1).
  repeat split; [by destruct l1|]. cbn [negb andb]. f_equal.
  destruct l2 as [|x l2 _] using rev_ind.
  - simpl. by rewrite Z.eqb_refl.
  - rewrite app_comm_cons, List.last_last, (proj2 (Z.eqb_neq _ _)), bool_decide_false; [done|by destruct l2|].
    destruct Hlist as (Hnd & _). intros ->. rewrite app_comm_cons in Hnd.
    apply NoDup_app in Hnd as (_ & _ & Hnd). apply NoDup_cons in Hnd as [Hnd _].
    apply Hnd. clear. set_solver.
Qed.
(** the list-validity check bounds the length of a list: once a list has
    [PcdMaximumLinkedListLength - 1] nodes or more (and the PCD is not 0),
    insertion, removal and traversal from any of its nodes stop at their
    ASSERT, whichever node they are given. *)
Theorem length_limit h head l p e
    (Hlist : dlist h head l) (Hp : p ∈ head :: l)
    (Hfull : Max <> 0%nat /\ (Max <= S (length l))%nat) :
  InsertHeadList Verify Max h p e = AssertFailed /\
  InsertTailList Verify Max h p e = AssertFailed /\
  RemoveEntryList Max h p = AssertFailed /\
  GetFirstNode Max h p = AssertFailed /\
  GetNextNode Verify Max h p e = AssertFailed /\
  GetPreviousNode Verify Max h p e = AssertFailed.
Proof.
  destruct (dlist_at h head l p Hlist Hp) as (l' & Hd & Hperm).
  apply Permutation_length in Hperm. simpl in Hperm.
  assert (Hv : InternalBaseLibIsListValid Max h p = Ok false).
  { rewrite (IsListValid_spec Max h p l') by done. f_equal.
    apply orb_false_iff. rewrite Nat.eqb_neq, Nat.ltb_ge. lia. }
  unfold InsertHeadList, InsertTailList, RemoveEntryList, GetFirstNode, GetNextNode,
    GetPreviousNode, IsListEmpty, ASSERT_VERIFY_NODE_IN_VALID_LIST, IsNodeInList.
  rewrite Hv. by destruct Verify.
Qed.
End Properties.

(** * The properties at a concrete list

    Head 100, nodes 1, 2, 3 in this order, a free node 9 and a second list
    (head 200, empty); the limit of the EDK II default PCD. *)

Module LinkedListWitness.

Definition sample : store :=
  list_to_map [(100, MkLink 1 3); (1, MkLink 2 100); (2, MkLink 3 1); (3, MkLink 100 2);
               (9, MkLink 0 0); (200, MkLink 200 200)].

Definition limit : nat := 1000.

Lemma sample_dlist : dlist sample 100 ([1; 2; 3]).
Proof.
  split; [|split].
  - by apply (bool_decide_unpack _); vm_compute.
  - by apply (bool_decide_unpack _); vm_compute.
  - vm_compute. tauto.
Qed.

Lemma sample_other : dlist sample 200 [].
Proof.
  split; [|split].
  - by apply (bool_decide_unpack _); vm_compute.
  - by apply (bool_decide_unpack _); vm_compute.
  - vm_compute. tauto.
Qed.

Lemma sample_cap : capacity limit ([1; 2; 3]).
Proof. right. apply Nat.ltb_lt. vm_compute. reflexivity. Qed.

(** Node 9 goes between 2 and 3. *)
Lemma Insert_links_witness :
  exists h1 h2,
    InsertHeadList true limit sample 2 9 = Ok (2, h1) /\ dlist h1 100 [1; 2; 9; 3] /\
    InsertTailList true limit sample 3 9 = Ok (3, h2) /\ dlist h2 100 [1; 2; 9; 3] /\
    forall head' l', dlist sample head' l' ->
      (forall x, x ∈ head' :: l' -> x ∉ [9; 100; 1; 2; 3]) ->
      dlist h1 head' l' /\ dlist h2 head' l'.
Proof.
  refine (Insert_links true limit sample 100 [1; 2] [3] [100; 1] 2 3 [100] 9 _ _ _ _ _ _ _).
  - exact sample_dlist.
  - reflexivity.
  - reflexivity.
  - exact sample_cap.
  - vm_compute. eauto.
  - by apply (bool_decide_unpack _); vm_compute.
  - discriminate.
Defined.

Lemma RemoveEntryList_removes_witness :
  exists h', RemoveEntryList limit sample 2 = Ok (3, h') /\ dlist h' 100 [1; 3] /\
    forall head' l', dlist sample head' l' ->
      (forall x, x ∈ head' :: l' -> x ∉ [100; 1; 3]) -> dlist h' head' l'.
Proof.
  refine (RemoveEntryList_removes limit sample 100 [1] 2 [3] _ _).
  - exact sample_dlist.
  - exact sample_cap.
Defined.

(** Adjacent nodes 1 and 2. *)
Lemma SwapListEntries_swaps_witness :
  exists h1 h2,
    SwapListEntries true limit sample 1 2 = Ok (2, h1) /\ dlist h1 100 [2; 1; 3] /\
    SwapListEntries true limit sample 2 1 = Ok (1, h2) /\ dlist h2 100 [2; 1; 3].
Proof.
  refine (SwapListEntries_swaps true limit sample 100 [] 1 [] 2 [3] _ _).
  - exact sample_dlist.
  - exact sample_cap.
Defined.

Lemma traversal_follows_order_witness :
  GetFirstNode limit sample 100 = Ok 1 /\
  GetNextNode true limit sample 100 2 = Ok 3 /\
  GetPreviousNode true limit sample 100 2 = Ok 1 /\
  IsListEmpty limit sample 100 = Ok false /\
  IsNull true limit sample 100 2 = Ok false /\ IsNull true limit sample 100 100 = Ok true /\
  IsNodeAtEnd true limit sample 100 2 = Ok false /\
  IsNodeInList limit sample 100 2 = Ok true.
Proof.
  refine (traversal_follows_order true limit sample 100 [1] 2 [3] _ _).
  - exact sample_dlist.
  - exact sample_cap.
Defined.

(** With a limit of 3, the list of three nodes is too long. *)
Lemma length_limit_witness :
  InsertHeadList true 3 sample 2 9 = AssertFailed /\ InsertTailList true 3 sample 2 9 = AssertFailed /\
  RemoveEntryList 3 sample 2 = AssertFailed /\ GetFirstNode 3 sample 2 = AssertFailed /\
  GetNextNode true 3 sample 2 9 = AssertFailed /\ GetPreviousNode true 3 sample 2 9 = AssertFailed.
Proof.
  refine (length_limit true 3 sample 100 [1; 2; 3] 2 9 _ _ _).
  - exact sample_dlist.
  - by apply (bool_decide_unpack _); vm_compute.
  - vm_compute. split; [discriminate|lia].
Defined.
End LinkedListWitness.
