(* ===== verification/ListFamily.v ===== *)
(** * Several lists in one store

    A component keeps many lists in the same store of nodes: the queues of
    events, the timer list, ...  [family h F]: for every head of [F], the list
    [F] gives for it hangs off that head, and the lists have no node in common.
    Each operation of LinkedList.v on one of the lists updates [F] at its head
    and leaves all nodes outside the family alone, the new one apart. *)

From S2P Require Import Prelude LinkedList.

Abbreviation lists := (gmap ptr (list ptr)).

Definition family (h : store) (F : lists) : Prop :=
  (forall hd l, F !! hd = Some l -> dlist h hd l) /\
  (forall hd1 l1 hd2 l2 x, F !! hd1 = Some l1 -> F !! hd2 = Some l2 ->
     x ∈ hd1 :: l1 -> x ∈ hd2 :: l2 -> hd1 = hd2).

(** The nodes of the family. *)
Definition within (F : lists) (x : ptr) : Prop := exists hd l, F !! hd = Some l /\ x ∈ hd :: l.

#[export] Instance within_dec F x : Decision (within F x).
Proof.
  refine (cast_if (decide (map_Exists (fun hd l => x ∈ hd :: l) F)));
    abstract (unfold map_Exists, within in *; naive_solver).
Defined.

(** Stores that agree outside the family, and on [e]. *)
Definition same_beyond (h h' : store) (F : lists) (e : ptr) : Prop :=
  forall x, ~ within F x -> x <> e -> h' !! x = h !! x.

Section Family.
Context (Verify : bool) (Max : nat).
Implicit Types (h : store) (F : lists).

Lemma family_dlist h F hd l : family h F -> F !! hd = Some l -> dlist h hd l.
Proof. intros [Hd _]. apply Hd. Qed.

Lemma family_unique h F hd1 l1 hd2 l2 x :
  family h F -> F !! hd1 = Some l1 -> F !! hd2 = Some l2 -> x ∈ l1 -> x ∈ l2 -> hd1 = hd2.
Proof. intros [_ Hu] H1 H2 Hx1 Hx2. eapply Hu; [exact H1|exact H2|by right|by right]. Qed.

Lemma family_NoDup h F hd l : family h F -> F !! hd = Some l -> NoDup l /\ hd ∉ l.
Proof. intros Hf Hl. destruct (family_dlist _ _ _ _ Hf Hl) as (Hnd & _). apply NoDup_cons in Hnd. tauto. Qed.

(** The heads are no elements. *)
Lemma family_head h F hd l hd' l' : family h F -> F !! hd = Some l -> F !! hd' = Some l' -> hd ∉ l'.
Proof.
  intros Hf Hl Hl' Hin. assert (hd = hd') as -> by (eapply (proj2 Hf); [exact Hl|exact Hl'|left|by right]).
  by destruct (family_NoDup _ _ _ _ Hf Hl').
Qed.

(** The links of the nodes of a family are never [NULL]. *)
Lemma family_linked h F x : family h F -> within F x -> exists n, h !! x = Some n /\ ForwardLink n <> NULL.
Proof.
  intros [Hd _] (hd & l & Hl & Hx). destruct (dlist_at h hd l x (Hd _ _ Hl) Hx) as (l' & Hd' & _).
  destruct Hd' as (_ & Hnull & Hlk). destruct (l' ++ [x]) as [|b t] eqn:E; [by destruct l'|].
  destruct Hlk as (Hf & _). unfold fwd in Hf. destruct (h !! x) as [n|]; [|done].
  exists n. split; [done|]. intros Heq. injection Hf as Hb. apply Hnull. rewrite <-Heq, Hb.
  assert (b ∈ l' ++ [x]) as Hin by (rewrite E; left). clear -Hin. set_solver.
Qed.

Lemma family_frame h h' F : family h F -> (forall x, within F x -> h' !! x = h !! x) -> family h' F.
Proof.
  intros [Hd Hu] Hs. split; [|done]. intros hd l Hl.
  apply (dlist_ext h); [|by apply Hd]. intros x Hx. apply Hs. by exists hd, l.
Qed.

Lemma within_insert F hd l x :
  within (<[hd := l]> F) x <-> x ∈ hd :: l \/ exists hd' l', hd' <> hd /\ F !! hd' = Some l' /\ x ∈ hd' :: l'.
Proof.
  unfold within. split.
  - intros (hd' & l' & Hl & Hx). apply lookup_insert_Some in Hl as [[<- <-]|[Hne Hl]]; [by left|].
    right. by exists hd', l'.
  - intros [Hx|(hd' & l' & Hne & Hl & Hx)].
    + exists hd, l. by rewrite lookup_insert_eq.
    + exists hd', l'. by rewrite lookup_insert_ne.
Qed.

(** One list is changed, within its old nodes and [e]. *)
Lemma family_update h h' F hd l l' e :
  family h F -> F !! hd = Some l -> dlist h' hd l' -> same_outside h h' (e :: hd :: l) ->
  (forall x, x ∈ l' -> x ∈ e :: l) -> (e ∈ l' -> ~ within F e) -> (within F e -> e ∈ hd :: l) ->
  family h' (<[hd := l']> F).
Proof.
  intros [Hd Hu] Hl Hd' Hs Hsub Hfresh He. split.
  - intros hd2 l2 H2. apply lookup_insert_Some in H2 as [[<- <-]|[Hne H2]]; [done|].
    apply (dlist_ext h); [|by apply Hd]. intros x Hx. apply Hs.
    rewrite not_elem_of_cons. split.
    + intros ->. apply Hne, (Hu hd l hd2 l2 e Hl H2); [|done]. apply He. by exists hd2, l2.
    + intros Hin. by apply Hne, (Hu hd l hd2 l2 x Hl H2).
  - assert (Hold : forall hd2 l2 x, F !! hd2 = Some l2 -> hd2 <> hd -> x ∈ hd2 :: l2 -> x ∈ hd :: l' -> False).
    { intros hd2 l2 x H2 Hne Hx Hx'. destruct (decide (x ∈ hd :: l)) as [Hin|Hin].
      { apply Hne. by apply (Hu hd2 l2 hd l x). }
      apply elem_of_cons in Hx' as [->|Hx']; [apply Hin; left|].
      destruct (proj1 (elem_of_cons _ _ _) (Hsub x Hx')) as [->|?]; [|apply Hin; by right].
      apply Hfresh; [done|]. by exists hd2, l2. }
    intros hd1 l1 hd2 l2 x H1 H2 Hx1 Hx2.
    apply lookup_insert_Some in H1 as [[<- <-]|[Hne1 H1]], H2 as [[<- <-]|[Hne2 H2]]; try done.
    + exfalso. by eapply (Hold hd2 l2).
    + exfalso. by eapply (Hold hd1 l1).
    + by apply (Hu hd1 l1 hd2 l2 x).
Qed.

(** ** Operations *)

(** Inserting [e], which is in no list, before [p] ... *)
Lemma family_insert_before h F hd l1 l2 p post e :
  family h F -> F !! hd = Some (l1 ++ l2) -> l2 ++ [hd] = p :: post -> capacity Max (l1 ++ l2) ->
  is_Some (h !! e) -> ~ within F e -> e <> NULL ->
  exists h', InsertTailList Verify Max h p e = Ok (p, h') /\
    family h' (<[hd := l1 ++ e :: l2]> F) /\ same_beyond h h' F e.
Proof.
  intros Hf Hl Hp Hc He Hnew Hnull. pose proof (family_dlist _ _ _ _ Hf Hl) as Hd.
  assert (Hnin : e ∉ hd :: l1 ++ l2) by (intros Hin; apply Hnew; by exists hd, (l1 ++ l2)).
  destruct (InsertTailList_before Verify Max h hd l1 l2 p post e) as (h' & Heq & Hd' & Hs); [done..|].
  exists h'. split; [done|]. split.
  - apply (family_update h h' F hd (l1 ++ l2) _ e); try done. clear. set_solver.
  - intros x Hx Hxe. apply Hs. rewrite not_elem_of_cons. split; [done|].
    intros Hin. apply Hx. by exists hd, (l1 ++ l2).
Qed.

(** ... at the end, and at the front. *)
Lemma family_insert_tail h F hd l e :
  family h F -> F !! hd = Some l -> capacity Max l ->
  is_Some (h !! e) -> ~ within F e -> e <> NULL ->
  exists h', InsertTailList Verify Max h hd e = Ok (hd, h') /\
    family h' (<[hd := l ++ [e]]> F) /\ same_beyond h h' F e.
Proof.
  intros Hf Hl Hc. apply (family_insert_before h F hd l [] hd []); rewrite ?app_nil_r; done.
Qed.

Lemma family_insert_head h F hd l e :
  family h F -> F !! hd = Some l -> capacity Max l ->
  is_Some (h !! e) -> ~ within F e -> e <> NULL ->
  exists h', InsertHeadList Verify Max h hd e = Ok (hd, h') /\
    family h' (<[hd := e :: l]> F) /\ same_beyond h h' F e.
Proof.
  intros Hf Hl Hc He Hnew Hnull. pose proof (family_dlist _ _ _ _ Hf Hl) as Hd.
  assert (Hnin : e ∉ hd :: l) by (intros Hin; apply Hnew; by exists hd, l).
  destruct (InsertHeadList_after Verify Max h hd [] l [] hd e) as (h' & Heq & Hd' & Hs); [done..|].
  exists h'. split; [done|]. split.
  - by apply (family_update h h' F hd l _ e).
  - intros x Hx Hxe. apply Hs. rewrite not_elem_of_cons. split; [done|].
    intros Hin. apply Hx. by exists hd, l.
Qed.

(** Removing an element; its own links stay as they were. *)
Lemma family_remove h F hd l1 e l2 :
  family h F -> F !! hd = Some (l1 ++ e :: l2) -> capacity Max (l1 ++ e :: l2) ->
  exists h', RemoveEntryList Max h e = Ok (List.hd hd l2, h') /\
    family h' (<[hd := l1 ++ l2]> F) /\ ~ within (<[hd := l1 ++ l2]> F) e /\
    same_beyond h h' F e /\ h' !! e = h !! e.
Proof.
  intros Hf Hl Hc. pose proof (family_dlist _ _ _ _ Hf Hl) as Hd.
  destruct (RemoveEntryList_unlinks Max h hd l1 e l2) as (h' & Heq & Hd' & Hs); [done..|].
  pose proof Hd as (Hnd & _ & _).
  assert (He : e ∉ hd :: l1 ++ l2).
  { assert (Hp : hd :: l1 ++ e :: l2 ≡ₚ e :: hd :: l1 ++ l2) by solve_Permutation.
    rewrite Hp in Hnd. by apply NoDup_cons in Hnd as [? _]. }
  assert (Hsub : forall x, x ∈ l1 ++ l2 -> x ∈ l1 ++ e :: l2) by (clear; set_solver).
  assert (Hin : e ∈ hd :: l1 ++ e :: l2) by (clear; set_solver).
  exists h'. split; [done|]. split; [|split; [|split]].
  - apply (family_update h h' F hd (l1 ++ e :: l2) _ e); try done.
    + intros x Hx. apply Hs. clear -Hx. set_solver.
    + clear. set_solver.
    + intros H'. exfalso. apply He. by right.
  - rewrite within_insert. intros [?|(hd' & l' & Hne & Hl' & Hx)]; [done|].
    apply Hne. symmetry. by eapply (proj2 Hf).
  - intros x Hx Hxe. apply Hs. intros Hx'. apply Hx. exists hd, (l1 ++ e :: l2). split; [done|].
    clear -Hx'. set_solver.
  - by apply Hs.
Qed.

Lemma family_IsListEmpty h F hd l :
  family h F -> F !! hd = Some l -> capacity Max l -> IsListEmpty Max h hd = Ok (bool_decide (l = [])).
Proof. intros Hf Hl. apply IsListEmpty_spec. by eapply family_dlist. Qed.

(** Following the list. *)
Lemma family_first h F hd l :
  family h F -> F !! hd = Some l -> exists n, load h hd = Ok n /\ ForwardLink n = List.hd hd l.
Proof.
  intros Hf Hl. destruct (family_dlist _ _ _ _ Hf Hl) as (_ & _ & Hlk).
  apply fwd_load. destruct l; apply Hlk.
Qed.

Lemma family_next h F hd l1 p l2 :
  family h F -> F !! hd = Some (l1 ++ p :: l2) -> exists n, load h p = Ok n /\ ForwardLink n = List.hd hd l2.
Proof.
  intros Hf Hl. destruct (dlist_links h hd l1 p l2) as (n & ? & ? & _); [by eapply family_dlist|eauto].
Qed.

(** Writing a node outside the family. *)
Lemma family_write h F e n : family h F -> ~ within F e -> family (<[e := n]> h) F.
Proof. intros Hf He. apply (family_frame h); [done|]. intros x Hx. rewrite lookup_insert_ne; [done|by intros ->]. Qed.

(** A new list, empty; and a list that is given up. *)
Lemma family_new_head h F hd :
  family h F -> is_Some (h !! hd) -> ~ within F hd -> hd <> NULL ->
  exists h', InitializeListHead h hd = Ok (hd, h') /\ family h' (<[hd := []]> F) /\ same_beyond h h' F hd.
Proof.
  intros Hf He Hnew Hnull. destruct (InitializeListHead_empty h hd) as (h' & Heq & Hd & Hs); [done..|].
  exists h'. split; [done|]. assert (Hrest : forall x, x <> hd -> h' !! x = h !! x).
  { intros x Hx. apply Hs. by rewrite list_elem_of_singleton. }
  split; [|by intros x _ Hx; apply Hrest]. split.
  - intros hd2 l2 [[<- <-]|[Hne H2]]%lookup_insert_Some; [done|]. apply (dlist_ext h); [|by apply Hf].
    intros x Hx. apply Hrest. intros ->. apply Hnew. by exists hd2, l2.
  - intros hd1 l1 hd2 l2 x [[<- <-]|[Hne1 H1]]%lookup_insert_Some [[<- <-]|[Hne2 H2]]%lookup_insert_Some Hx1 Hx2; [done| | |by eapply (proj2 Hf)].
    + apply list_elem_of_singleton in Hx1 as ->. destruct Hnew. by exists hd2, l2.
    + apply list_elem_of_singleton in Hx2 as ->. destruct Hnew. by exists hd1, l1.
Qed.

Lemma family_drop h F hd : family h F -> family h (delete hd F).
Proof.
  intros [Hd Hu]. split; [intros hd' l [_ Hl]%lookup_delete_Some; by apply Hd|].
  intros hd1 l1 hd2 l2 x [_ H1]%lookup_delete_Some [_ H2]%lookup_delete_Some. by apply Hu.
Qed.
End Family.
