(* ===== verification/Gcd.v ===== *)
(** Global Coherency Domain services: MdeModulePkg/Core/Dxe/Gcd/Gcd.c.

    The code of the GCD memory and I/O space maps, on a store of list nodes
    (LinkedList.v) and of [EFI_GCD_MAP_ENTRY] records with the same addresses.
    GcdMap.v proves the worker functions correct, GcdSpace.v the services. *)

From S2P Require Import Prelude LinkedList.

(** * Constants *)

(** [EFI_GCD_MEMORY_TYPE], [EFI_GCD_IO_TYPE], [EFI_GCD_ALLOCATE_TYPE]
    (MdePkg/Include/Pi/PiDxeCis.h); the services range-check their values. *)
Definition EfiGcdMemoryTypeNonExistent : Z := 0.
Definition EfiGcdMemoryTypeReserved : Z := 1.
Definition EfiGcdMemoryTypeSystemMemory : Z := 2.
Definition EfiGcdMemoryTypeMemoryMappedIo : Z := 3.
Definition EfiGcdMemoryTypePersistent : Z := 4.
Definition EfiGcdMemoryTypeMoreReliable : Z := 5.
Definition EfiGcdMemoryTypeMaximum : Z := 6.

Definition EfiGcdIoTypeNonExistent : Z := 0.
Definition EfiGcdIoTypeReserved : Z := 1.
Definition EfiGcdIoTypeIo : Z := 2.
Definition EfiGcdIoTypeMaximum : Z := 3.

Definition EfiGcdAllocateAnySearchBottomUp : Z := 0.
Definition EfiGcdAllocateMaxAddressSearchBottomUp : Z := 1.
Definition EfiGcdAllocateAddress : Z := 2.
Definition EfiGcdAllocateAnySearchTopDown : Z := 3.
Definition EfiGcdAllocateMaxAddressSearchTopDown : Z := 4.
Definition EfiGcdMaxAllocateType : Z := 5.

(** Memory attribute bits (MdePkg/Include/Uefi/UefiSpec.h, DxeMain.h). *)
Definition EFI_MEMORY_UC : Z := 0x1.
Definition EFI_MEMORY_WC : Z := 0x2.
Definition EFI_MEMORY_WT : Z := 0x4.
Definition EFI_MEMORY_WB : Z := 0x8.
Definition EFI_MEMORY_UCE : Z := 0x10.
Definition EFI_MEMORY_WP : Z := 0x1000.
Definition EFI_MEMORY_RP : Z := 0x2000.
Definition EFI_MEMORY_XP : Z := 0x4000.
Definition EFI_MEMORY_NV : Z := 0x8000.
Definition EFI_MEMORY_MORE_RELIABLE : Z := 0x10000.
Definition EFI_MEMORY_RO : Z := 0x20000.
Definition EFI_MEMORY_PRESENT : Z := 0x0100000000000000.
Definition EFI_MEMORY_INITIALIZED : Z := 0x0200000000000000.
Definition EFI_MEMORY_TESTED : Z := 0x0400000000000000.
Definition EFI_MEMORY_PORT_IO : Z := 0x4000000000000000.
Definition EFI_MEMORY_RUNTIME : Z := 0x8000000000000000.

Definition EXCLUSIVE_MEMORY_ATTRIBUTES : Z :=
  Z.lor EFI_MEMORY_UC (Z.lor EFI_MEMORY_WC (Z.lor EFI_MEMORY_WT
    (Z.lor EFI_MEMORY_WB (Z.lor EFI_MEMORY_WP EFI_MEMORY_UCE)))).

Definition NONEXCLUSIVE_MEMORY_ATTRIBUTES : Z :=
  Z.lor EFI_MEMORY_XP (Z.lor EFI_MEMORY_RP EFI_MEMORY_RO).

Definition EFI_PAGE_SHIFT : Z := 12.
Definition EFI_PAGE_MASK : Z := 0xFFF.
Definition EFI_PAGE_SIZE : Z := 0x1000.

(** The operation codes of Gcd.h. *)
Definition GCD_MEMORY_SPACE_OPERATION : Z := 0x20.
Definition GCD_IO_SPACE_OPERATION : Z := 0x40.
Definition GCD_ADD_MEMORY_OPERATION : Z := Z.lor GCD_MEMORY_SPACE_OPERATION 0.
Definition GCD_ALLOCATE_MEMORY_OPERATION : Z := Z.lor GCD_MEMORY_SPACE_OPERATION 1.
Definition GCD_FREE_MEMORY_OPERATION : Z := Z.lor GCD_MEMORY_SPACE_OPERATION 2.
Definition GCD_REMOVE_MEMORY_OPERATION : Z := Z.lor GCD_MEMORY_SPACE_OPERATION 3.
Definition GCD_SET_ATTRIBUTES_MEMORY_OPERATION : Z := Z.lor GCD_MEMORY_SPACE_OPERATION 4.
Definition GCD_SET_CAPABILITIES_MEMORY_OPERATION : Z := Z.lor GCD_MEMORY_SPACE_OPERATION 5.
Definition GCD_ADD_IO_OPERATION : Z := Z.lor GCD_IO_SPACE_OPERATION 0.
Definition GCD_ALLOCATE_IO_OPERATION : Z := Z.lor GCD_IO_SPACE_OPERATION 1.
Definition GCD_FREE_IO_OPERATION : Z := Z.lor GCD_IO_SPACE_OPERATION 2.
Definition GCD_REMOVE_IO_OPERATION : Z := Z.lor GCD_IO_SPACE_OPERATION 3.

(** * State *)

(** [SIGNATURE_32 ('g', 'c', 'd', 'm')]. *)
Definition EFI_GCD_MAP_SIGNATURE : Z := 0x6d646367.

Record EFI_GCD_MAP_ENTRY := MkEntry {
  Signature : Z;
  BaseAddress : Z;
  EndAddress : Z;
  Capabilities : Z;
  Attributes : Z;
  GcdMemoryType : Z;
  GcdIoType : Z;
  ImageHandle : Z;
  DeviceHandle : Z }.

#[export] Instance EFI_GCD_MAP_ENTRY_eq_dec : EqDecision EFI_GCD_MAP_ENTRY.
Proof. solve_decision. Defined.

(** [AllocateZeroPool]: all fields 0. *)
Definition zero_entry : EFI_GCD_MAP_ENTRY := MkEntry 0 0 0 0 0 0 0 0 0.

Definition set_BaseAddress (v : Z) (e : EFI_GCD_MAP_ENTRY) : EFI_GCD_MAP_ENTRY :=
  MkEntry (Signature e) v (EndAddress e) (Capabilities e) (Attributes e)
    (GcdMemoryType e) (GcdIoType e) (ImageHandle e) (DeviceHandle e).
Definition set_EndAddress (v : Z) (e : EFI_GCD_MAP_ENTRY) : EFI_GCD_MAP_ENTRY :=
  MkEntry (Signature e) (BaseAddress e) v (Capabilities e) (Attributes e)
    (GcdMemoryType e) (GcdIoType e) (ImageHandle e) (DeviceHandle e).
Definition set_Capabilities (v : Z) (e : EFI_GCD_MAP_ENTRY) : EFI_GCD_MAP_ENTRY :=
  MkEntry (Signature e) (BaseAddress e) (EndAddress e) v (Attributes e)
    (GcdMemoryType e) (GcdIoType e) (ImageHandle e) (DeviceHandle e).
Definition set_Attributes (v : Z) (e : EFI_GCD_MAP_ENTRY) : EFI_GCD_MAP_ENTRY :=
  MkEntry (Signature e) (BaseAddress e) (EndAddress e) (Capabilities e) v
    (GcdMemoryType e) (GcdIoType e) (ImageHandle e) (DeviceHandle e).
Definition set_GcdMemoryType (v : Z) (e : EFI_GCD_MAP_ENTRY) : EFI_GCD_MAP_ENTRY :=
  MkEntry (Signature e) (BaseAddress e) (EndAddress e) (Capabilities e) (Attributes e)
    v (GcdIoType e) (ImageHandle e) (DeviceHandle e).
Definition set_GcdIoType (v : Z) (e : EFI_GCD_MAP_ENTRY) : EFI_GCD_MAP_ENTRY :=
  MkEntry (Signature e) (BaseAddress e) (EndAddress e) (Capabilities e) (Attributes e)
    (GcdMemoryType e) v (ImageHandle e) (DeviceHandle e).
Definition set_Handles (i d : Z) (e : EFI_GCD_MAP_ENTRY) : EFI_GCD_MAP_ENTRY :=
  MkEntry (Signature e) (BaseAddress e) (EndAddress e) (Capabilities e) (Attributes e)
    (GcdMemoryType e) (GcdIoType e) i d.

Definition mGcdMemorySpaceMapEntryTemplate : EFI_GCD_MAP_ENTRY :=
  MkEntry EFI_GCD_MAP_SIGNATURE 0 0 0 0 EfiGcdMemoryTypeNonExistent 0 NULL NULL.
Definition mGcdIoSpaceMapEntryTemplate : EFI_GCD_MAP_ENTRY :=
  MkEntry EFI_GCD_MAP_SIGNATURE 0 0 0 0 0 EfiGcdIoTypeNonExistent NULL NULL.

(** Calls to other parts of the system that change their state: the CPU
    architectural protocol and the UEFI memory map (Mem/Page.c). *)
Inductive Call :=
| SetMemoryAttributes (BaseAddress Length Attributes : Z)
| CoreAddMemoryDescriptor (Start NumberOfPages Attribute : Z)
| CoreUpdateMemoryAttributes (Start NumberOfPages NewAttributes : Z).

(** The GCD variables of the DXE core.  [links] holds the nodes of both lists
    and the two list heads, [entries] the records the nodes are part of;
    [&Entry->Link] and [Entry] are the same address here.  A lock is [true] when
    acquired.  [calls] records the calls above, newest first. *)
Record GCD := MkGcd {
  links : store;
  entries : gmap Z EFI_GCD_MAP_ENTRY;
  mGcdMemorySpaceLock : bool;
  mGcdIoSpaceLock : bool;
  calls : list Call }.

(** The addresses of the two list heads. *)
Definition mGcdMemorySpaceMap : ptr := 1.
Definition mGcdIoSpaceMap : ptr := 2.

Definition set_links (h : store) (st : GCD) : GCD :=
  MkGcd h (entries st) (mGcdMemorySpaceLock st) (mGcdIoSpaceLock st) (calls st).
Definition set_entries (m : gmap Z EFI_GCD_MAP_ENTRY) (st : GCD) : GCD :=
  MkGcd (links st) m (mGcdMemorySpaceLock st) (mGcdIoSpaceLock st) (calls st).
Definition set_memory_lock (b : bool) (st : GCD) : GCD :=
  MkGcd (links st) (entries st) b (mGcdIoSpaceLock st) (calls st).
Definition set_io_lock (b : bool) (st : GCD) : GCD :=
  MkGcd (links st) (entries st) (mGcdMemorySpaceLock st) b (calls st).
Definition call (c : Call) (st : GCD) : GCD :=
  MkGcd (links st) (entries st) (mGcdMemorySpaceLock st) (mGcdIoSpaceLock st) (c :: calls st).

(** What the GCD relies on from the pool allocator (Mem/Pool.c): a buffer that
    is not [NULL] and not in use, or failure. *)
Class PoolAllocator := {
  AllocatePool : gset Z -> option Z;
  AllocatePool_fresh : forall live p, AllocatePool live = Some p -> p ∉ live /\ p <> NULL }.

(** * Worker functions *)

(** [LShiftU64 (1, Alignment) - 1]. *)
Definition AlignmentMask (Alignment : Z) : Z := u64 (u64 (Z.shiftl 1 Alignment) - 1).

Definition AlignValue (Value Alignment : Z) (RoundUp : bool) : Z :=
  let Value := if RoundUp then u64 (Value + AlignmentMask Alignment) else Value in
  Z.land Value (not64 (AlignmentMask Alignment)).

Definition PageAlignAddress (Value : Z) : Z := AlignValue Value EFI_PAGE_SHIFT true.
Definition PageAlignLength (Value : Z) : Z := AlignValue Value EFI_PAGE_SHIFT false.

(** The record of a node, with the signature check of [CR]. *)
Definition CR (st : GCD) (Link : ptr) : result EFI_GCD_MAP_ENTRY :=
  let! Entry := deref (entries st !! Link) in
  do! ASSERT (Signature Entry =? EFI_GCD_MAP_SIGNATURE) ;;
  Ok Entry.

Definition update_entry (st : GCD) (p : ptr) (f : EFI_GCD_MAP_ENTRY -> EFI_GCD_MAP_ENTRY) : result GCD :=
  let! e := deref (entries st !! p) in
  Ok (set_entries (<[p := f e]> (entries st)) st).

(** [CopyMem (Dst, Src, sizeof (EFI_GCD_MAP_ENTRY))]: the record and its link. *)
Definition copy_entry (st : GCD) (Dst Src : ptr) : result GCD :=
  let! e := deref (entries st !! Src) in
  let! n := load (links st) Src in
  Ok (set_links (<[Dst := n]> (links st)) (set_entries (<[Dst := e]> (entries st)) st)).

Definition CoreFreePool (st : GCD) (p : ptr) : GCD :=
  set_links (delete p (links st)) (set_entries (delete p (entries st)) st).

Definition CoreAcquireGcdMemoryLock (st : GCD) : result GCD :=
  do! ASSERT (negb (mGcdMemorySpaceLock st)) ;; Ok (set_memory_lock true st).
Definition CoreReleaseGcdMemoryLock (st : GCD) : result GCD :=
  do! ASSERT (mGcdMemorySpaceLock st) ;; Ok (set_memory_lock false st).
Definition CoreAcquireGcdIoLock (st : GCD) : result GCD :=
  do! ASSERT (negb (mGcdIoSpaceLock st)) ;; Ok (set_io_lock true st).
Definition CoreReleaseGcdIoLock (st : GCD) : result GCD :=
  do! ASSERT (mGcdIoSpaceLock st) ;; Ok (set_io_lock false st).

(** Passes of a loop over one of the lists. *)
Definition walk_bound (st : GCD) : nat := S (size (links st)).

Section Workers.
Context `{PoolAllocator} (Verify : bool) (Max : nat).

Definition AllocateZeroPool (st : GCD) : option (ptr * GCD) :=
  match AllocatePool (dom (links st)) with
  | None => None
  | Some p => Some (p, set_links (<[p := MkLink 0 0]> (links st))
                        (set_entries (<[p := zero_entry]> (entries st)) st))
  end.

(** The result: status, [*TopEntry], [*BottomEntry]. *)
Definition CoreAllocateGcdMapEntry (st : GCD) : EFI_STATUS * ptr * ptr * GCD :=
  match AllocateZeroPool st with
  | None => (EFI_OUT_OF_RESOURCES, NULL, NULL, st)
  | Some (TopEntry, st) =>
      match AllocateZeroPool st with
      | None => (EFI_OUT_OF_RESOURCES, TopEntry, NULL, CoreFreePool st TopEntry)
      | Some (BottomEntry, st) => (EFI_SUCCESS, TopEntry, BottomEntry, st)
      end
  end.

(** What lies below the range stays in [BottomEntry], before [Entry]... *)
Definition Insert_bottom (st : GCD) (Link : ptr) (Base : Z) (BottomEntry : ptr) : result GCD :=
  let! b := deref (entries st !! BottomEntry) in
  do! ASSERT (Signature b =? 0) ;;
  let! st := copy_entry st BottomEntry Link in
  let! st := update_entry st Link (set_BaseAddress Base) in
  let! st := update_entry st BottomEntry (set_EndAddress (u64 (Base - 1))) in
  let! (_, h) := InsertTailList Verify Max (links st) Link BottomEntry in
  Ok (set_links h st).

(** ... and the rest above it in [TopEntry], after [Entry]. *)
Definition Insert_top (st : GCD) (Link : ptr) (Base Length : Z) (TopEntry : ptr) : result GCD :=
  let! t := deref (entries st !! TopEntry) in
  do! ASSERT (Signature t =? 0) ;;
  let! st := copy_entry st TopEntry Link in
  let! st := update_entry st TopEntry (set_BaseAddress (u64 (Base + Length))) in
  let! st := update_entry st Link (set_EndAddress (u64 (Base + Length - 1))) in
  let! (_, h) := InsertHeadList Verify Max (links st) Link TopEntry in
  Ok (set_links h st).

(** [Link] and [Entry] are the link and the record of one node. *)
Definition CoreInsertGcdMapEntry (st : GCD) (Link : ptr) (Base Length : Z)
    (TopEntry BottomEntry : ptr) : result GCD :=
  do! ASSERT (negb (Length =? 0)) ;;
  let! Entry := deref (entries st !! Link) in
  let! st := if Base >? BaseAddress Entry then Insert_bottom st Link Base BottomEntry else Ok st in
  let! Entry := deref (entries st !! Link) in
  if u64 (Base + Length - 1) <? EndAddress Entry then Insert_top st Link Base Length TopEntry
  else Ok st.

Definition CoreMergeGcdMapEntry (st : GCD) (Link : ptr) (Forward : bool) (Map : ptr)
    : result (EFI_STATUS * GCD) :=
  let! n := load (links st) Link in
  let AdjacentLink := if Forward then ForwardLink n else BackLink n in
  if AdjacentLink =? Map then Ok (EFI_SUCCESS, st) else
  let! Entry := CR st Link in
  let! AdjacentEntry := CR st AdjacentLink in
  if negb (Capabilities Entry =? Capabilities AdjacentEntry) then Ok (EFI_UNSUPPORTED, st) else
  if negb (Attributes Entry =? Attributes AdjacentEntry) then Ok (EFI_UNSUPPORTED, st) else
  if negb (GcdMemoryType Entry =? GcdMemoryType AdjacentEntry) then Ok (EFI_UNSUPPORTED, st) else
  if negb (GcdIoType Entry =? GcdIoType AdjacentEntry) then Ok (EFI_UNSUPPORTED, st) else
  if negb (ImageHandle Entry =? ImageHandle AdjacentEntry) then Ok (EFI_UNSUPPORTED, st) else
  if negb (DeviceHandle Entry =? DeviceHandle AdjacentEntry) then Ok (EFI_UNSUPPORTED, st) else
  let! st := if Forward then update_entry st Link (set_EndAddress (EndAddress AdjacentEntry))
             else update_entry st Link (set_BaseAddress (BaseAddress AdjacentEntry)) in
  let! (_, h) := RemoveEntryList Max (links st) AdjacentLink in
  Ok (EFI_SUCCESS, CoreFreePool (set_links h st) AdjacentLink).

Fixpoint Cleanup_loop (fuel : nat) (st : GCD) (Link EndLink Map : ptr) : result GCD :=
  match fuel with
  | O => NoFuel
  | S fuel =>
      let! e := load (links st) EndLink in
      if Link =? ForwardLink e then Ok st else
      let! (_, st) := CoreMergeGcdMapEntry st Link false Map in
      let! n := load (links st) Link in
      Cleanup_loop fuel st (ForwardLink n) EndLink Map
  end.

Definition free_unused (st : GCD) (p : ptr) : result GCD :=
  let! e := deref (entries st !! p) in
  Ok (if Signature e =? 0 then CoreFreePool st p else st).

Definition CoreCleanupGcdMapEntry (st : GCD) (TopEntry BottomEntry StartLink EndLink Map : ptr)
    : result (EFI_STATUS * GCD) :=
  let! st := free_unused st TopEntry in
  let! st := free_unused st BottomEntry in
  let! st := Cleanup_loop (walk_bound st) st StartLink EndLink Map in
  let! (_, st) := CoreMergeGcdMapEntry st EndLink true Map in
  Ok (EFI_SUCCESS, st).

Fixpoint Search_loop (fuel : nat) (st : GCD) (Base Length : Z) (Map Link StartLink : ptr)
    : result (EFI_STATUS * ptr * ptr) :=
  match fuel with
  | O => NoFuel
  | S fuel =>
      if Link =? Map then Ok (EFI_NOT_FOUND, StartLink, NULL) else
      let! Entry := CR st Link in
      let StartLink := if (Base >=? BaseAddress Entry) && (Base <=? EndAddress Entry)
                       then Link else StartLink in
      if negb (StartLink =? NULL) && (u64 (Base + Length - 1) >=? BaseAddress Entry) &&
         (u64 (Base + Length - 1) <=? EndAddress Entry)
      then Ok (EFI_SUCCESS, StartLink, Link) else
      let! n := load (links st) Link in
      Search_loop fuel st Base Length Map (ForwardLink n) StartLink
  end.

(** The result: status, [*StartLink], [*EndLink]. *)
Definition CoreSearchGcdMapEntry (st : GCD) (Base Length : Z) (Map : ptr)
    : result (EFI_STATUS * ptr * ptr) :=
  do! ASSERT (negb (Length =? 0)) ;;
  let! m := load (links st) Map in
  Search_loop (walk_bound st) st Base Length Map (ForwardLink m) NULL.

Fixpoint Count_loop (fuel : nat) (st : GCD) (Map Link : ptr) (Count : Z) : result Z :=
  match fuel with
  | O => NoFuel
  | S fuel =>
      if Link =? Map then Ok Count else
      let! n := load (links st) Link in
      Count_loop fuel st Map (ForwardLink n) (Count + 1)
  end.

Definition CoreCountGcdMapEntry (st : GCD) (Map : ptr) : result Z :=
  let! m := load (links st) Map in
  Count_loop (walk_bound st) st Map (ForwardLink m) 0.
End Workers.

Definition ConverToCpuArchAttributes (Attributes : Z) : Z :=
  let CpuArchAttributes := Z.land Attributes NONEXCLUSIVE_MEMORY_ATTRIBUTES in
  if Z.land Attributes EFI_MEMORY_UC =? EFI_MEMORY_UC then Z.lor CpuArchAttributes EFI_MEMORY_UC
  else if Z.land Attributes EFI_MEMORY_WC =? EFI_MEMORY_WC then Z.lor CpuArchAttributes EFI_MEMORY_WC
  else if Z.land Attributes EFI_MEMORY_WT =? EFI_MEMORY_WT then Z.lor CpuArchAttributes EFI_MEMORY_WT
  else if Z.land Attributes EFI_MEMORY_WB =? EFI_MEMORY_WB then Z.lor CpuArchAttributes EFI_MEMORY_WB
  else if Z.land Attributes EFI_MEMORY_UCE =? EFI_MEMORY_UCE then Z.lor CpuArchAttributes EFI_MEMORY_UCE
  else if Z.land Attributes EFI_MEMORY_WP =? EFI_MEMORY_WP then Z.lor CpuArchAttributes EFI_MEMORY_WP
  else CpuArchAttributes.

(** * Operating on a range *)

(** The test of one descriptor before [CoreConvertSpace] changes anything:
    the body of its first loop.  [EFI_SUCCESS]: go on. *)
Definition ConvertCheckEntry (Operation : Z) (Entry : EFI_GCD_MAP_ENTRY)
    (Base Length Caps Attrs : Z) : EFI_STATUS :=
  if Operation =? GCD_ADD_MEMORY_OPERATION then
    if negb (GcdMemoryType Entry =? EfiGcdMemoryTypeNonExistent) || negb (ImageHandle Entry =? NULL)
    then EFI_ACCESS_DENIED else EFI_SUCCESS
  else if Operation =? GCD_ADD_IO_OPERATION then
    if negb (GcdIoType Entry =? EfiGcdIoTypeNonExistent) || negb (ImageHandle Entry =? NULL)
    then EFI_ACCESS_DENIED else EFI_SUCCESS
  else if (Operation =? GCD_FREE_MEMORY_OPERATION) || (Operation =? GCD_FREE_IO_OPERATION) then
    if ImageHandle Entry =? NULL then EFI_NOT_FOUND else EFI_SUCCESS
  else if Operation =? GCD_REMOVE_MEMORY_OPERATION then
    if GcdMemoryType Entry =? EfiGcdMemoryTypeNonExistent then EFI_NOT_FOUND
    else if negb (ImageHandle Entry =? NULL) then EFI_ACCESS_DENIED else EFI_SUCCESS
  else if Operation =? GCD_REMOVE_IO_OPERATION then
    if GcdIoType Entry =? EfiGcdIoTypeNonExistent then EFI_NOT_FOUND
    else if negb (ImageHandle Entry =? NULL) then EFI_ACCESS_DENIED else EFI_SUCCESS
  else if Operation =? GCD_SET_ATTRIBUTES_MEMORY_OPERATION then
    if negb (Z.land Attrs EFI_MEMORY_RUNTIME =? 0) &&
       (negb (Z.land Base EFI_PAGE_MASK =? 0) || negb (Z.land Length EFI_PAGE_MASK =? 0))
    then EFI_INVALID_PARAMETER
    else if negb (Z.land (Capabilities Entry) Attrs =? Attrs) then EFI_UNSUPPORTED else EFI_SUCCESS
  else if Operation =? GCD_SET_CAPABILITIES_MEMORY_OPERATION then
    if negb (Z.land Base EFI_PAGE_MASK =? 0) || negb (Z.land Length EFI_PAGE_MASK =? 0)
    then EFI_INVALID_PARAMETER
    else if negb (Z.land Caps (Attributes Entry) =? Attributes Entry) then EFI_UNSUPPORTED
    else EFI_SUCCESS
  else EFI_SUCCESS.

(** The change of one descriptor: the [switch] of the second loop.  The
    variable [Attributes] of the function is changed too, and the new value is
    used for the next descriptors. *)
Definition ConvertEntry (Operation MemoryType IoType Caps CpuArchAttributes : Z)
    (Attrs : Z) (Entry : EFI_GCD_MAP_ENTRY) : Z * EFI_GCD_MAP_ENTRY :=
  if Operation =? GCD_ADD_MEMORY_OPERATION then
    (Attrs, set_Capabilities
      (if MemoryType =? EfiGcdMemoryTypeMemoryMappedIo
       then Z.lor (Z.lor Caps EFI_MEMORY_RUNTIME) EFI_MEMORY_PORT_IO
       else Z.lor Caps EFI_MEMORY_RUNTIME) (set_GcdMemoryType MemoryType Entry))
  else if Operation =? GCD_ADD_IO_OPERATION then (Attrs, set_GcdIoType IoType Entry)
  else if (Operation =? GCD_FREE_MEMORY_OPERATION) || (Operation =? GCD_FREE_IO_OPERATION) then
    (Attrs, set_Handles NULL NULL Entry)
  else if Operation =? GCD_REMOVE_MEMORY_OPERATION then
    (Attrs, set_Capabilities 0 (set_GcdMemoryType EfiGcdMemoryTypeNonExistent Entry))
  else if Operation =? GCD_REMOVE_IO_OPERATION then
    (Attrs, set_GcdIoType EfiGcdIoTypeNonExistent Entry)
  else if Operation =? GCD_SET_ATTRIBUTES_MEMORY_OPERATION then
    let Attrs := if CpuArchAttributes =? 0
      then Z.lor Attrs (Z.land (Attributes Entry)
             (Z.lor EXCLUSIVE_MEMORY_ATTRIBUTES NONEXCLUSIVE_MEMORY_ATTRIBUTES))
      else Attrs in
    (Attrs, set_Attributes Attrs Entry)
  else if Operation =? GCD_SET_CAPABILITIES_MEMORY_OPERATION then
    (Attrs, set_Capabilities Caps Entry)
  else (Attrs, Entry).

(** Acquire and release the lock of the map that [Operation] works on. *)
Definition SelectMap (Operation : Z) (st : GCD) : result (ptr * GCD) :=
  if negb (Z.land Operation GCD_MEMORY_SPACE_OPERATION =? 0) then
    let! st := CoreAcquireGcdMemoryLock st in Ok (mGcdMemorySpaceMap, st)
  else if negb (Z.land Operation GCD_IO_SPACE_OPERATION =? 0) then
    let! st := CoreAcquireGcdIoLock st in Ok (mGcdIoSpaceMap, st)
  else AssertFailed.

Definition ReleaseMap (Operation : Z) (st : GCD) : result GCD :=
  let! st := if negb (Z.land Operation GCD_MEMORY_SPACE_OPERATION =? 0)
             then CoreReleaseGcdMemoryLock st else Ok st in
  if negb (Z.land Operation GCD_IO_SPACE_OPERATION =? 0) then CoreReleaseGcdIoLock st else Ok st.

Section Services.
Context `{PoolAllocator} (Verify : bool) (Max : nat).

(** The CPU architectural protocol, once installed: the status of its
    [SetMemoryAttributes (BaseAddress, Length, Attributes)]. *)
Context (gCpu : option (Z -> Z -> Z -> EFI_STATUS)).

(** [while (Link != EndLink->ForwardLink)] with a test of each descriptor: the
    first error, with its link, ends the loop. *)
Fixpoint Check_loop (fuel : nat) (st : GCD) (check : EFI_GCD_MAP_ENTRY -> EFI_STATUS)
    (Link EndLink : ptr) : result (EFI_STATUS * ptr) :=
  match fuel with
  | O => NoFuel
  | S fuel =>
      let! e := load (links st) EndLink in
      if Link =? ForwardLink e then Ok (EFI_SUCCESS, Link) else
      let! Entry := CR st Link in
      if EFI_ERROR (check Entry) then Ok (check Entry, Link) else
      let! n := load (links st) Link in
      Check_loop fuel st check (ForwardLink n) EndLink
  end.

(** The loop that inserts and changes the descriptors from [StartLink] to
    [EndLink]; [change] is the [switch] on the operation. *)
Fixpoint Convert_loop (fuel : nat) (st : GCD)
    (change : Z -> EFI_GCD_MAP_ENTRY -> Z * EFI_GCD_MAP_ENTRY)
    (Base Length : Z) (TopEntry BottomEntry Link EndLink : ptr) (Attrs : Z) : result GCD :=
  match fuel with
  | O => NoFuel
  | S fuel =>
      let! e := load (links st) EndLink in
      if Link =? ForwardLink e then Ok st else
      let! _ := CR st Link in
      let! st := CoreInsertGcdMapEntry Verify Max st Link Base Length TopEntry BottomEntry in
      let! Entry := deref (entries st !! Link) in
      let '(Attrs, Entry) := change Attrs Entry in
      let! st := update_entry st Link (fun _ => Entry) in
      let! n := load (links st) Link in
      Convert_loop fuel st change Base Length TopEntry BottomEntry (ForwardLink n) EndLink Attrs
  end.

(** The part of [CoreConvertSpace] between taking and releasing the lock. *)
Definition ConvertSpace_locked (st : GCD) (Map : ptr) (Operation MemoryType IoType : Z)
    (Base Length Caps Attrs : Z) : result (EFI_STATUS * GCD) :=
  let! (Status, StartLink, EndLink) := CoreSearchGcdMapEntry st Base Length Map in
  if EFI_ERROR Status then Ok (EFI_UNSUPPORTED, st) else
  do! ASSERT (negb (StartLink =? NULL) && negb (EndLink =? NULL)) ;;
  let! (Status, _) := Check_loop (walk_bound st) st
    (fun Entry => ConvertCheckEntry Operation Entry Base Length Caps Attrs) StartLink EndLink in
  if EFI_ERROR Status then Ok (Status, st) else
  let '(Status, TopEntry, BottomEntry, st) := CoreAllocateGcdMapEntry st in
  if EFI_ERROR Status then Ok (EFI_OUT_OF_RESOURCES, st) else
  do! ASSERT (negb (TopEntry =? NULL) && negb (BottomEntry =? NULL)) ;;
  let CpuArchAttributes := if Operation =? GCD_SET_ATTRIBUTES_MEMORY_OPERATION
                           then ConverToCpuArchAttributes Attrs else 0 in
  let '(Status, st) :=
    if negb (CpuArchAttributes =? 0) then
      match gCpu with
      | None => (EFI_NOT_AVAILABLE_YET, st)
      | Some SetMem => (SetMem Base Length CpuArchAttributes,
                        call (SetMemoryAttributes Base Length CpuArchAttributes) st)
      end
    else (EFI_SUCCESS, st) in
  if EFI_ERROR Status then Ok (Status, CoreFreePool (CoreFreePool st TopEntry) BottomEntry) else
  let! st := Convert_loop (walk_bound st) st
    (ConvertEntry Operation MemoryType IoType Caps CpuArchAttributes)
    Base Length TopEntry BottomEntry StartLink EndLink Attrs in
  CoreCleanupGcdMapEntry Max st TopEntry BottomEntry StartLink EndLink Map.

Definition CoreConvertSpace (st : GCD) (Operation MemoryType IoType : Z)
    (Base Length Caps Attrs : Z) : result (EFI_STATUS * GCD) :=
  if Length =? 0 then Ok (EFI_INVALID_PARAMETER, st) else
  let! (Map, st) := SelectMap Operation st in
  let! (Status, st) := ConvertSpace_locked st Map Operation MemoryType IoType Base Length Caps Attrs in
  let! st := ReleaseMap Operation st in
  Ok (Status, st).

Definition CoreAllocateSpaceCheckEntry (Operation MemoryType IoType : Z)
    (Entry : EFI_GCD_MAP_ENTRY) : EFI_STATUS :=
  if negb (ImageHandle Entry =? NULL) then EFI_NOT_FOUND else
  if Operation =? GCD_ALLOCATE_MEMORY_OPERATION then
    if negb (GcdMemoryType Entry =? MemoryType) then EFI_NOT_FOUND else EFI_SUCCESS
  else if Operation =? GCD_ALLOCATE_IO_OPERATION then
    if negb (GcdIoType Entry =? IoType) then EFI_NOT_FOUND else EFI_SUCCESS
  else EFI_UNSUPPORTED.

Definition SearchesTopDown (AllocateType : Z) : bool :=
  (AllocateType =? EfiGcdAllocateMaxAddressSearchTopDown) ||
  (AllocateType =? EfiGcdAllocateAnySearchTopDown).

(** The [while (Link != Map)] of [CoreAllocateSpace]: the links found, if any,
    and [*BaseAddress].  Every way out without success has [EFI_NOT_FOUND]. *)
Fixpoint AllocateSearch_loop (fuel : nat) (st : GCD) (check : EFI_GCD_MAP_ENTRY -> EFI_STATUS)
    (AllocateType Alignment Length MaxAddress : Z) (Map Link : ptr) (Base : Z)
    : result (option (ptr * ptr) * Z) :=
  match fuel with
  | O => NoFuel
  | S fuel =>
      if Link =? Map then Ok (None, Base) else
      let! Entry := CR st Link in
      let! n := load (links st) Link in
      let TopDown := SearchesTopDown AllocateType in
      let Link := if TopDown then BackLink n else ForwardLink n in
      if EFI_ERROR (check Entry) then
        AllocateSearch_loop fuel st check AllocateType Alignment Length MaxAddress Map Link Base
      else if TopDown && (u64 (BaseAddress Entry + Length) >? MaxAddress) then
        AllocateSearch_loop fuel st check AllocateType Alignment Length MaxAddress Map Link Base
      else if TopDown && (Length >? u64 (EndAddress Entry + 1)) then Ok (None, Base)
      else
        let Base :=
          if TopDown then
            Z.land (u64 (u64 ((if EndAddress Entry >? MaxAddress then MaxAddress
                               else EndAddress Entry) + 1) - Length)) (not64 (AlignmentMask Alignment))
          else Z.land (u64 (BaseAddress Entry + AlignmentMask Alignment))
                 (not64 (AlignmentMask Alignment)) in
        if negb TopDown && (u64 (Base + Length - 1) >? MaxAddress) then Ok (None, Base) else
        let! (Status, StartLink, EndLink) := CoreSearchGcdMapEntry st Base Length Map in
        if EFI_ERROR Status then Ok (None, Base) else
        do! ASSERT (negb (StartLink =? NULL) && negb (EndLink =? NULL)) ;;
        let! (Status, SubLink) := Check_loop (walk_bound st) st check StartLink EndLink in
        if EFI_ERROR Status then
          AllocateSearch_loop fuel st check AllocateType Alignment Length MaxAddress Map SubLink Base
        else Ok (Some (StartLink, EndLink), Base)
  end.

(** The part of [CoreAllocateSpace] that looks for a range: the status, the
    links and [*BaseAddress]. *)
Definition AllocateSpace_find (st : GCD) (Map : ptr) (Operation AllocateType MemoryType IoType : Z)
    (Alignment Length Base : Z) : result (EFI_STATUS * ptr * ptr * Z) :=
  let check := CoreAllocateSpaceCheckEntry Operation MemoryType IoType in
  if AllocateType =? EfiGcdAllocateAddress then
    if negb (Z.land Base (AlignmentMask Alignment) =? 0) then Ok (EFI_NOT_FOUND, NULL, NULL, Base) else
    let! (Status, StartLink, EndLink) := CoreSearchGcdMapEntry st Base Length Map in
    if EFI_ERROR Status then Ok (EFI_NOT_FOUND, StartLink, EndLink, Base) else
    do! ASSERT (negb (StartLink =? NULL) && negb (EndLink =? NULL)) ;;
    let! (Status, _) := Check_loop (walk_bound st) st check StartLink EndLink in
    Ok (Status, StartLink, EndLink, Base)
  else
    let! m := load (links st) Map in
    let! Entry := CR st (BackLink m) in
    let MaxAddress :=
      if (AllocateType =? EfiGcdAllocateMaxAddressSearchBottomUp) ||
         (AllocateType =? EfiGcdAllocateMaxAddressSearchTopDown)
      then Base else EndAddress Entry in
    let Link := if SearchesTopDown AllocateType then BackLink m else ForwardLink m in
    let! (Found, Base) := AllocateSearch_loop (walk_bound st) st check AllocateType Alignment Length
                            MaxAddress Map Link Base in
    match Found with
    | Some (StartLink, EndLink) => Ok (EFI_SUCCESS, StartLink, EndLink, Base)
    | None => Ok (EFI_NOT_FOUND, NULL, NULL, Base)
    end.

(** The part of [CoreAllocateSpace] between taking and releasing the lock. *)
Definition AllocateSpace_locked (st : GCD) (Map : ptr) (Operation AllocateType MemoryType IoType : Z)
    (Alignment Length Base Image Device : Z) : result (EFI_STATUS * Z * GCD) :=
  let! (Status, StartLink, EndLink, Base) :=
    AllocateSpace_find st Map Operation AllocateType MemoryType IoType Alignment Length Base in
  if EFI_ERROR Status then Ok (Status, Base, st) else
  let '(Status, TopEntry, BottomEntry, st) := CoreAllocateGcdMapEntry st in
  if EFI_ERROR Status then Ok (EFI_OUT_OF_RESOURCES, Base, st) else
  do! ASSERT (negb (TopEntry =? NULL) && negb (BottomEntry =? NULL)) ;;
  let! st := Convert_loop (walk_bound st) st (fun a Entry => (a, set_Handles Image Device Entry))
    Base Length TopEntry BottomEntry StartLink EndLink 0 in
  let! (Status, st) := CoreCleanupGcdMapEntry Max st TopEntry BottomEntry StartLink EndLink Map in
  Ok (Status, Base, st).

(** [BaseAddress]: [None] is a [NULL] pointer, [Some b] points to [b].  The
    result: the status, the new [*BaseAddress] and the state. *)
Definition CoreAllocateSpace (st : GCD) (Operation AllocateType MemoryType IoType : Z)
    (Alignment Length : Z) (Base : option Z) (Image Device : Z)
    : result (EFI_STATUS * option Z * GCD) :=
  if u32 AllocateType >=? EfiGcdMaxAllocateType then Ok (EFI_INVALID_PARAMETER, Base, st) else
  if u32 MemoryType >=? EfiGcdMemoryTypeMaximum then Ok (EFI_INVALID_PARAMETER, Base, st) else
  if u32 IoType >=? EfiGcdIoTypeMaximum then Ok (EFI_INVALID_PARAMETER, Base, st) else
  match Base with
  | None => Ok (EFI_INVALID_PARAMETER, Base, st)
  | Some base =>
      if Image =? NULL then Ok (EFI_INVALID_PARAMETER, Base, st) else
      if Alignment >=? 64 then Ok (EFI_NOT_FOUND, Base, st) else
      if Length =? 0 then Ok (EFI_INVALID_PARAMETER, Base, st) else
      let! (Map, st) := SelectMap Operation st in
      let! (Status, base, st) := AllocateSpace_locked st Map Operation AllocateType MemoryType IoType
                                   Alignment Length base Image Device in
      let! st := ReleaseMap Operation st in
      Ok (Status, Some base, st)
  end.

(** * The services of the DXE core *)

Context (gDxeCoreImageHandle : Z).

Definition CoreInternalAddMemorySpace (st : GCD) (MemoryType Base Length Caps : Z)
    : result (EFI_STATUS * GCD) :=
  if (MemoryType <=? EfiGcdMemoryTypeNonExistent) || (MemoryType >=? EfiGcdMemoryTypeMaximum)
  then Ok (EFI_INVALID_PARAMETER, st)
  else CoreConvertSpace st GCD_ADD_MEMORY_OPERATION MemoryType 0 Base Length Caps 0.

Definition CoreAllocateMemorySpace (st : GCD) (AllocateType MemoryType Alignment Length : Z)
    (Base : option Z) (Image Device : Z) : result (EFI_STATUS * option Z * GCD) :=
  CoreAllocateSpace st GCD_ALLOCATE_MEMORY_OPERATION AllocateType MemoryType 0
    Alignment Length Base Image Device.

(** The page-by-page [for] of [CoreAddMemorySpace]; [fuel] bounds the pages. *)
Fixpoint AddMemoryPages (fuel : nat) (st : GCD) (MemoryType PageBase PageLength Caps : Z)
    (Status : EFI_STATUS) : result (EFI_STATUS * GCD) :=
  if PageLength =? 0 then Ok (Status, st) else
  match fuel with
  | O => NoFuel
  | S fuel =>
      let! (Status, PageBase', st) := CoreAllocateMemorySpace st EfiGcdAllocateAddress MemoryType
        EFI_PAGE_SHIFT EFI_PAGE_SIZE (Some PageBase) gDxeCoreImageHandle NULL in
      let PageBase := default PageBase PageBase' in
      let st := if EFI_ERROR Status then st else call (CoreAddMemoryDescriptor PageBase 1 Caps) st in
      AddMemoryPages fuel st MemoryType (u64 (PageBase + EFI_PAGE_SIZE))
        (u64 (PageLength - EFI_PAGE_SIZE)) Caps Status
  end.

Definition CoreAddMemorySpace (fuel : nat) (st : GCD) (MemoryType Base Length Caps : Z)
    : result (EFI_STATUS * GCD) :=
  let! (Status, st) := CoreInternalAddMemorySpace st MemoryType Base Length Caps in
  if negb (EFI_ERROR Status) &&
     ((MemoryType =? EfiGcdMemoryTypeSystemMemory) || (MemoryType =? EfiGcdMemoryTypeMoreReliable))
  then
    let PageBase := PageAlignAddress Base in
    let PageLength := PageAlignLength (u64 (u64 (Base + Length) - PageBase)) in
    let! (Status, PageBase', st) := CoreAllocateMemorySpace st EfiGcdAllocateAddress MemoryType
      EFI_PAGE_SHIFT PageLength (Some PageBase) gDxeCoreImageHandle NULL in
    let PageBase := default PageBase PageBase' in
    if negb (EFI_ERROR Status) then
      Ok (Status, call (CoreAddMemoryDescriptor PageBase (Z.shiftr PageLength EFI_PAGE_SHIFT) Caps) st)
    else AddMemoryPages fuel st MemoryType PageBase PageLength Caps Status
  else Ok (Status, st).

Definition CoreFreeMemorySpace (st : GCD) (Base Length : Z) : result (EFI_STATUS * GCD) :=
  CoreConvertSpace st GCD_FREE_MEMORY_OPERATION 0 0 Base Length 0 0.

Definition CoreRemoveMemorySpace (st : GCD) (Base Length : Z) : result (EFI_STATUS * GCD) :=
  CoreConvertSpace st GCD_REMOVE_MEMORY_OPERATION 0 0 Base Length 0 0.

Definition CoreSetMemorySpaceAttributes (st : GCD) (Base Length Attrs : Z)
    : result (EFI_STATUS * GCD) :=
  CoreConvertSpace st GCD_SET_ATTRIBUTES_MEMORY_OPERATION 0 0 Base Length 0 Attrs.

Definition CoreSetMemorySpaceCapabilities (st : GCD) (Base Length Caps : Z)
    : result (EFI_STATUS * GCD) :=
  let! (Status, st) :=
    CoreConvertSpace st GCD_SET_CAPABILITIES_MEMORY_OPERATION 0 0 Base Length Caps 0 in
  if negb (EFI_ERROR Status) then
    Ok (Status, call (CoreUpdateMemoryAttributes Base (Z.shiftr Length EFI_PAGE_SHIFT)
                        (Z.land Caps (not64 EFI_MEMORY_RUNTIME))) st)
  else Ok (Status, st).

Definition CoreAddIoSpace (st : GCD) (IoType Base Length : Z) : result (EFI_STATUS * GCD) :=
  if (IoType <=? EfiGcdIoTypeNonExistent) || (IoType >=? EfiGcdIoTypeMaximum)
  then Ok (EFI_INVALID_PARAMETER, st)
  else CoreConvertSpace st GCD_ADD_IO_OPERATION 0 IoType Base Length 0 0.

Definition CoreAllocateIoSpace (st : GCD) (AllocateType IoType Alignment Length : Z)
    (Base : option Z) (Image Device : Z) : result (EFI_STATUS * option Z * GCD) :=
  CoreAllocateSpace st GCD_ALLOCATE_IO_OPERATION AllocateType 0 IoType
    Alignment Length Base Image Device.

Definition CoreFreeIoSpace (st : GCD) (Base Length : Z) : result (EFI_STATUS * GCD) :=
  CoreConvertSpace st GCD_FREE_IO_OPERATION 0 0 Base Length 0 0.

Definition CoreRemoveIoSpace (st : GCD) (Base Length : Z) : result (EFI_STATUS * GCD) :=
  CoreConvertSpace st GCD_REMOVE_IO_OPERATION 0 0 Base Length 0 0.
End Services.

(** ** Descriptors *)

Record EFI_GCD_MEMORY_SPACE_DESCRIPTOR := MkMemoryDescriptor {
  md_BaseAddress : Z; md_Length : Z; md_Capabilities : Z; md_Attributes : Z;
  md_GcdMemoryType : Z; md_ImageHandle : Z; md_DeviceHandle : Z }.

Record EFI_GCD_IO_SPACE_DESCRIPTOR := MkIoDescriptor {
  io_BaseAddress : Z; io_Length : Z; io_GcdIoType : Z; io_ImageHandle : Z; io_DeviceHandle : Z }.

Definition BuildMemoryDescriptor (Entry : EFI_GCD_MAP_ENTRY) : EFI_GCD_MEMORY_SPACE_DESCRIPTOR :=
  MkMemoryDescriptor (BaseAddress Entry) (u64 (u64 (EndAddress Entry - BaseAddress Entry) + 1))
    (Capabilities Entry) (Attributes Entry) (GcdMemoryType Entry) (ImageHandle Entry)
    (DeviceHandle Entry).

Definition BuildIoDescriptor (Entry : EFI_GCD_MAP_ENTRY) : EFI_GCD_IO_SPACE_DESCRIPTOR :=
  MkIoDescriptor (BaseAddress Entry) (u64 (u64 (EndAddress Entry - BaseAddress Entry) + 1))
    (GcdIoType Entry) (ImageHandle Entry) (DeviceHandle Entry).

(** The common body of the two [Get...SpaceDescriptor]s: the entry at an address. *)
Definition FindEntry (st : GCD) (Map : ptr) (Base : Z) : result (EFI_STATUS * option EFI_GCD_MAP_ENTRY) :=
  let! (Status, StartLink, EndLink) := CoreSearchGcdMapEntry st Base 1 Map in
  if EFI_ERROR Status then Ok (EFI_NOT_FOUND, None) else
  do! ASSERT (negb (StartLink =? NULL) && negb (EndLink =? NULL)) ;;
  let! Entry := CR st StartLink in
  Ok (EFI_SUCCESS, Some Entry).

(** The result: status, what was written to [*Descriptor] (if not [NULL]). *)
Definition CoreGetMemorySpaceDescriptor (st : GCD) (Base : Z) (DescriptorIsNull : bool)
    : result (EFI_STATUS * option EFI_GCD_MEMORY_SPACE_DESCRIPTOR * GCD) :=
  if DescriptorIsNull then Ok (EFI_INVALID_PARAMETER, None, st) else
  let! st := CoreAcquireGcdMemoryLock st in
  let! (Status, Entry) := FindEntry st mGcdMemorySpaceMap Base in
  let! st := CoreReleaseGcdMemoryLock st in
  Ok (Status, BuildMemoryDescriptor <$> Entry, st).

Definition CoreGetIoSpaceDescriptor (st : GCD) (Base : Z) (DescriptorIsNull : bool)
    : result (EFI_STATUS * option EFI_GCD_IO_SPACE_DESCRIPTOR * GCD) :=
  if DescriptorIsNull then Ok (EFI_INVALID_PARAMETER, None, st) else
  let! st := CoreAcquireGcdIoLock st in
  let! (Status, Entry) := FindEntry st mGcdIoSpaceMap Base in
  let! st := CoreReleaseGcdIoLock st in
  Ok (Status, BuildIoDescriptor <$> Entry, st).

(** The loop that fills a descriptor array of [room] elements from the list. *)
Fixpoint Fill_loop {D} (fuel : nat) (st : GCD) (build : EFI_GCD_MAP_ENTRY -> D)
    (Map Link : ptr) (room : Z) : result (list D) :=
  match fuel with
  | O => NoFuel
  | S fuel =>
      if Link =? Map then Ok [] else
      let! Entry := CR st Link in
      if room <=? 0 then BadAccess else
      let! n := load (links st) Link in
      let! rest := Fill_loop fuel st build Map (ForwardLink n) (room - 1) in
      Ok (build Entry :: rest)
  end.

(** The [while (TRUE)] of [CoreGetMemorySpaceMap].  The lock is not held while
    the array is allocated: [Allocate k] is the state in which the [k]-th
    [AllocatePool] returns, or [None] when it fails, given the state in which
    it is called.  [NumberOfDescriptors] is meaningful once there is an array. *)
Fixpoint GetMemorySpaceMap_loop (fuel : nat) (st : GCD) (Allocate : nat -> GCD -> option GCD)
    (round : nat) (NumberOfDescriptors : Z) (MemorySpaceMap : bool)
    : result (EFI_STATUS * Z * list EFI_GCD_MEMORY_SPACE_DESCRIPTOR * GCD) :=
  match fuel with
  | O => NoFuel
  | S fuel =>
      let! DescriptorCount := CoreCountGcdMapEntry st mGcdMemorySpaceMap in
      if (DescriptorCount =? NumberOfDescriptors) && MemorySpaceMap then
        let! m := load (links st) mGcdMemorySpaceMap in
        let! l := Fill_loop (walk_bound st) st BuildMemoryDescriptor mGcdMemorySpaceMap
                    (ForwardLink m) NumberOfDescriptors in
        let! st := CoreReleaseGcdMemoryLock st in
        Ok (EFI_SUCCESS, NumberOfDescriptors, l, st)
      else
        let! st := CoreReleaseGcdMemoryLock st in
        match Allocate round st with
        | None => Ok (EFI_OUT_OF_RESOURCES, 0, [], st)
        | Some st =>
            let! st := CoreAcquireGcdMemoryLock st in
            GetMemorySpaceMap_loop fuel st Allocate (S round) DescriptorCount true
        end
  end.

(** [ArgumentIsNull]: one of the two output pointers is [NULL]. *)
Definition CoreGetMemorySpaceMap (fuel : nat) (st : GCD) (Allocate : nat -> GCD -> option GCD)
    (ArgumentIsNull : bool)
    : result (EFI_STATUS * Z * list EFI_GCD_MEMORY_SPACE_DESCRIPTOR * GCD) :=
  if ArgumentIsNull then Ok (EFI_INVALID_PARAMETER, 0, [], st) else
  let! st := CoreAcquireGcdMemoryLock st in
  GetMemorySpaceMap_loop fuel st Allocate 0 0 false.

(** [CoreGetIoSpaceMap] allocates under the lock. *)
Definition CoreGetIoSpaceMap (st : GCD) (AllocateOk ArgumentIsNull : bool)
    : result (EFI_STATUS * Z * list EFI_GCD_IO_SPACE_DESCRIPTOR * GCD) :=
  if ArgumentIsNull then Ok (EFI_INVALID_PARAMETER, 0, [], st) else
  let! st := CoreAcquireGcdIoLock st in
  let! NumberOfDescriptors := CoreCountGcdMapEntry st mGcdIoSpaceMap in
  if negb AllocateOk then
    let! st := CoreReleaseGcdIoLock st in Ok (EFI_OUT_OF_RESOURCES, NumberOfDescriptors, [], st)
  else
    let! m := load (links st) mGcdIoSpaceMap in
    let! l := Fill_loop (walk_bound st) st BuildIoDescriptor mGcdIoSpaceMap (ForwardLink m)
                NumberOfDescriptors in
    let! st := CoreReleaseGcdIoLock st in
    Ok (EFI_SUCCESS, NumberOfDescriptors, l, st).

(** * Initialization *)

(** Resource descriptor HOB attributes (MdePkg/Include/Pi/PiHob.h). *)
Definition EFI_RESOURCE_ATTRIBUTE_PRESENT : Z := 0x1.
Definition EFI_RESOURCE_ATTRIBUTE_INITIALIZED : Z := 0x2.
Definition EFI_RESOURCE_ATTRIBUTE_TESTED : Z := 0x4.
Definition EFI_RESOURCE_ATTRIBUTE_READ_PROTECTED : Z := 0x80.
Definition EFI_RESOURCE_ATTRIBUTE_WRITE_PROTECTED : Z := 0x100.
Definition EFI_RESOURCE_ATTRIBUTE_EXECUTION_PROTECTED : Z := 0x200.
Definition EFI_RESOURCE_ATTRIBUTE_UNCACHEABLE : Z := 0x400.
Definition EFI_RESOURCE_ATTRIBUTE_WRITE_COMBINEABLE : Z := 0x800.
Definition EFI_RESOURCE_ATTRIBUTE_WRITE_THROUGH_CACHEABLE : Z := 0x1000.
Definition EFI_RESOURCE_ATTRIBUTE_WRITE_BACK_CACHEABLE : Z := 0x2000.
Definition EFI_RESOURCE_ATTRIBUTE_UNCACHED_EXPORTED : Z := 0x20000.
Definition EFI_RESOURCE_ATTRIBUTE_READ_ONLY_PROTECTED : Z := 0x40000.
Definition EFI_RESOURCE_ATTRIBUTE_READ_ONLY_PROTECTABLE : Z := 0x80000.
Definition EFI_RESOURCE_ATTRIBUTE_READ_PROTECTABLE : Z := 0x100000.
Definition EFI_RESOURCE_ATTRIBUTE_WRITE_PROTECTABLE : Z := 0x200000.
Definition EFI_RESOURCE_ATTRIBUTE_EXECUTION_PROTECTABLE : Z := 0x400000.
Definition EFI_RESOURCE_ATTRIBUTE_PERSISTENT : Z := 0x800000.
Definition EFI_RESOURCE_ATTRIBUTE_PERSISTABLE : Z := 0x1000000.
Definition EFI_RESOURCE_ATTRIBUTE_MORE_RELIABLE : Z := 0x2000000.

(** [GCD_ATTRIBUTE_CONVERSION_ENTRY]: attribute, capability, memory. *)
Definition mAttributeConversionTable : list (Z * Z * bool) :=
  [ (EFI_RESOURCE_ATTRIBUTE_UNCACHEABLE, EFI_MEMORY_UC, true);
    (EFI_RESOURCE_ATTRIBUTE_UNCACHED_EXPORTED, EFI_MEMORY_UCE, true);
    (EFI_RESOURCE_ATTRIBUTE_WRITE_COMBINEABLE, EFI_MEMORY_WC, true);
    (EFI_RESOURCE_ATTRIBUTE_WRITE_THROUGH_CACHEABLE, EFI_MEMORY_WT, true);
    (EFI_RESOURCE_ATTRIBUTE_WRITE_BACK_CACHEABLE, EFI_MEMORY_WB, true);
    (EFI_RESOURCE_ATTRIBUTE_READ_PROTECTABLE, EFI_MEMORY_RP, true);
    (EFI_RESOURCE_ATTRIBUTE_WRITE_PROTECTABLE, EFI_MEMORY_WP, true);
    (EFI_RESOURCE_ATTRIBUTE_EXECUTION_PROTECTABLE, EFI_MEMORY_XP, true);
    (EFI_RESOURCE_ATTRIBUTE_READ_ONLY_PROTECTABLE, EFI_MEMORY_RO, true);
    (EFI_RESOURCE_ATTRIBUTE_PRESENT, EFI_MEMORY_PRESENT, false);
    (EFI_RESOURCE_ATTRIBUTE_INITIALIZED, EFI_MEMORY_INITIALIZED, false);
    (EFI_RESOURCE_ATTRIBUTE_TESTED, EFI_MEMORY_TESTED, false);
    (EFI_RESOURCE_ATTRIBUTE_PERSISTABLE, EFI_MEMORY_NV, true);
    (EFI_RESOURCE_ATTRIBUTE_MORE_RELIABLE, EFI_MEMORY_MORE_RELIABLE, true);
    (0, 0, false) ].

(** The [for] ends at the row whose [Attribute] is 0. *)
Fixpoint ConvertAttributes_loop (table : list (Z * Z * bool)) (MemoryType Attrs Caps : Z) : result Z :=
  match table with
  | [] => BadAccess
  | (Attribute, Capability, Memory) :: table =>
      if Attribute =? 0 then Ok Caps else
      let Caps :=
        if Memory || (negb (MemoryType =? EfiGcdMemoryTypeSystemMemory) &&
                      negb (MemoryType =? EfiGcdMemoryTypeMoreReliable))
        then if negb (Z.land Attrs Attribute =? 0) then Z.lor Caps Capability else Caps
        else Caps in
      ConvertAttributes_loop table MemoryType Attrs Caps
  end.

Definition CoreConvertResourceDescriptorHobAttributesToCapabilities (MemoryType Attrs : Z) : result Z :=
  ConvertAttributes_loop mAttributeConversionTable MemoryType Attrs 0.

Definition CoreValidateResourceDescriptorHobAttributes (Attrs : Z) : result unit :=
  do! ASSERT ((Z.land Attrs EFI_RESOURCE_ATTRIBUTE_READ_PROTECTED =? 0) ||
              negb (Z.land Attrs EFI_RESOURCE_ATTRIBUTE_READ_PROTECTABLE =? 0)) ;;
  do! ASSERT ((Z.land Attrs EFI_RESOURCE_ATTRIBUTE_WRITE_PROTECTED =? 0) ||
              negb (Z.land Attrs EFI_RESOURCE_ATTRIBUTE_WRITE_PROTECTABLE =? 0)) ;;
  do! ASSERT ((Z.land Attrs EFI_RESOURCE_ATTRIBUTE_EXECUTION_PROTECTED =? 0) ||
              negb (Z.land Attrs EFI_RESOURCE_ATTRIBUTE_EXECUTION_PROTECTABLE =? 0)) ;;
  do! ASSERT ((Z.land Attrs EFI_RESOURCE_ATTRIBUTE_READ_ONLY_PROTECTED =? 0) ||
              negb (Z.land Attrs EFI_RESOURCE_ATTRIBUTE_READ_ONLY_PROTECTABLE =? 0)) ;;
  ASSERT ((Z.land Attrs EFI_RESOURCE_ATTRIBUTE_PERSISTENT =? 0) ||
          negb (Z.land Attrs EFI_RESOURCE_ATTRIBUTE_PERSISTABLE =? 0)).

(** The statically initialized variables: two empty lists, released locks. *)
Definition boot_state : GCD :=
  MkGcd (<[mGcdMemorySpaceMap := MkLink mGcdMemorySpaceMap mGcdMemorySpaceMap]>
         (<[mGcdIoSpaceMap := MkLink mGcdIoSpaceMap mGcdIoSpaceMap]> ∅)) ∅ false false [].

Section Initialize.
Context `{PoolAllocator} (Verify : bool) (Max : nat).

(** [AllocateCopyPool (sizeof (EFI_GCD_MAP_ENTRY), &Template)]; the [Link] of
    the template is [NULL], [NULL]. *)
Definition AllocateCopyPool (st : GCD) (Template : EFI_GCD_MAP_ENTRY) : option (ptr * GCD) :=
  match AllocatePool (dom (links st)) with
  | None => None
  | Some p => Some (p, set_links (<[p := MkLink NULL NULL]> (links st))
                        (set_entries (<[p := Template]> (entries st)) st))
  end.

(** One entry for the whole of an address space of [Size] bits. *)
Definition InitializeMap (st : GCD) (Template : EFI_GCD_MAP_ENTRY) (Size : Z) (Map : ptr) : result GCD :=
  match AllocateCopyPool st Template with
  | None => AssertFailed
  | Some (Entry, st) =>
      let! st := update_entry st Entry (set_EndAddress (u64 (u64 (Z.shiftl 1 Size) - 1))) in
      let! (_, h) := InsertHeadList Verify Max (links st) Map Entry in
      Ok (set_links h st)
  end.

(** The start of [CoreInitializeGcdServices], with the sizes of the CPU HOB. *)
Definition InitializeGcdMaps (st : GCD) (SizeOfMemorySpace SizeOfIoSpace : Z) : result GCD :=
  let! st := InitializeMap st mGcdMemorySpaceMapEntryTemplate SizeOfMemorySpace mGcdMemorySpaceMap in
  InitializeMap st mGcdIoSpaceMapEntryTemplate SizeOfIoSpace mGcdIoSpaceMap.
End Initialize.
