(* ===== verification/GcdMap.v ===== *)
(** The GCD worker functions, proved on the list of entries a map represents.

    [rep st Map L]: the list hanging off [Map] holds the records [L], in order.
    Inserting, merging and searching are described by their effect on [L];
    [contig] says that the records tile an address range, and [info_at] is
    what the map says about one address. *)

From S2P Require Import Prelude LinkedList Gcd.

Abbreviation node := (ptr * EFI_GCD_MAP_ENTRY)%type.

Definition holds (st : GCD) (n : node) : Prop :=
  entries st !! n.1 = Some n.2 /\ Signature n.2 = EFI_GCD_MAP_SIGNATURE.

Definition rep (st : GCD) (Map : ptr) (L : list node) : Prop :=
  dlist (links st) Map L.*1 /\ Forall (holds st) L.

(** [st'] differs from [st] on the nodes and records at [ns] only. *)
Definition outside (st st' : GCD) (ns : list ptr) : Prop :=
  same_outside (links st) (links st') ns /\
  (forall x, x ∉ ns -> entries st' !! x = entries st !! x) /\
  mGcdMemorySpaceLock st' = mGcdMemorySpaceLock st /\ mGcdIoSpaceLock st' = mGcdIoSpaceLock st /\
  calls st' = calls st.

Lemma outside_refl st ns : outside st st ns.
Proof. by repeat split. Qed.

Lemma outside_trans st1 st2 st3 ns1 ns2 ns :
  outside st1 st2 ns1 -> outside st2 st3 ns2 -> ns1 ⊆ ns -> ns2 ⊆ ns -> outside st1 st3 ns.
Proof.
  intros (H1 & H2 & H3 & H4 & H5) (G1 & G2 & G3 & G4 & G5) Hs1 Hs2.
  split; [|split; [|repeat split; congruence]].
  - intros x Hx. rewrite G1, H1; [done|..]; intros Hin; apply Hx; auto.
  - intros x Hx. rewrite G2, H2; [done|..]; intros Hin; apply Hx; auto.
Qed.

Lemma outside_mono st st' ns ns' : outside st st' ns -> ns ⊆ ns' -> outside st st' ns'.
Proof. intros H Hs. eapply outside_trans; [exact H|apply (outside_refl _ [])|done|set_solver]. Qed.

Lemma outside_set_entries st st' ns m :
  outside st st' ns -> (forall x, x ∉ ns -> m !! x = entries st' !! x) ->
  outside st (set_entries m st') ns.
Proof.
  intros (H1 & H2 & H3 & H4 & H5) Hm. repeat split; try done.
  intros x Hx. simpl. rewrite Hm by done. auto.
Qed.

Lemma outside_set_links st st' ns h :
  outside st st' ns -> same_outside (links st') h ns -> outside st (set_links h st') ns.
Proof.
  intros (H1 & H2 & H3 & H4 & H5) Hm. repeat split; try done.
  intros x Hx. simpl. rewrite Hm by done. auto.
Qed.

Lemma rep_frame st st' ns Map L :
  outside st st' ns -> (forall x, x ∈ Map :: L.*1 -> x ∉ ns) -> rep st Map L -> rep st' Map L.
Proof.
  intros (Hl & He & _) Hdis [Hd HF]. split; [by eapply dlist_frame|].
  rewrite Forall_forall in HF |- *. intros n Hn. destruct (HF n Hn) as [Hn1 Hn2].
  split; [|done]. rewrite He; [done|]. apply Hdis. right. by apply (list_elem_of_fmap_2 fst).
Qed.

Lemma rep_in st Map L p e : rep st Map L -> (p, e) ∈ L -> entries st !! p = Some e.
Proof. intros [_ HF] Hin. rewrite Forall_forall in HF. by destruct (HF _ Hin). Qed.

Lemma rep_CR st Map L p e : rep st Map L -> (p, e) ∈ L -> CR st p = Ok e.
Proof.
  intros [_ HF] Hin. rewrite Forall_forall in HF. destruct (HF _ Hin) as [H1 H2]. simpl in *.
  unfold CR. rewrite H1. simpl. by rewrite H2, Z.eqb_refl.
Qed.

(** The record of a node in the middle of the list. *)
Lemma rep_mid st Map A p e B :
  rep st Map (A ++ (p, e) :: B) -> entries st !! p = Some e /\ CR st p = Ok e.
Proof.
  intros Hrep. assert ((p, e) ∈ A ++ (p, e) :: B) by (apply elem_of_app; right; left).
  split; [by eapply rep_in|by eapply rep_CR].
Qed.

Lemma rep_NoDup st Map L : rep st Map L -> NoDup (Map :: L.*1).
Proof. intros [(? & _) _]. done. Qed.

Lemma rep_notin st Map A p e B :
  rep st Map (A ++ (p, e) :: B) -> p ∉ Map :: A.*1 ++ B.*1 /\ p <> NULL.
Proof.
  intros [(Hnd & Hnull & _) _]. rewrite fmap_app, fmap_cons in *. simpl in *.
  assert (Hp : Map :: A.*1 ++ p :: B.*1 ≡ₚ p :: Map :: A.*1 ++ B.*1) by solve_Permutation.
  rewrite Hp in Hnd, Hnull. apply NoDup_cons in Hnd as [? _].
  split; [done|]. intros ->. apply Hnull. left.
Qed.

(** The first link of the rest of a list. *)
Definition first (Map : ptr) (L : list node) : ptr := List.hd Map L.*1.

(** The links of a node and of the head. *)
Lemma rep_node st Map A p e B :
  rep st Map (A ++ (p, e) :: B) ->
  exists n, load (links st) p = Ok n /\ ForwardLink n = first Map B /\
    BackLink n = List.last A.*1 Map.
Proof.
  intros [Hd _]. rewrite fmap_app, fmap_cons in Hd. simpl in Hd. by apply dlist_links in Hd.
Qed.

Lemma rep_head st Map L :
  rep st Map L ->
  exists n, load (links st) Map = Ok n /\ ForwardLink n = first Map L /\
    BackLink n = List.last L.*1 Map.
Proof.
  intros [(_ & _ & Hl) _]. unfold first.
  assert (Hf : fwd (links st) Map = Some (List.hd Map L.*1)).
  { destruct (L.*1); simpl in *; tauto. }
  assert (Hb : bck (links st) Map = Some (List.last L.*1 Map)).
  { destruct (L.*1) as [|x l _] using rev_ind; [simpl in *; tauto|].
    rewrite List.last_last. rewrite <-app_assoc in Hl. by apply (linked_bck _ (Map :: l) x Map []) in Hl. }
  apply fwd_load in Hf as (n & Hn & Hf). apply bck_load in Hb as (n' & Hn' & Hb).
  rewrite Hn in Hn'. injection Hn' as <-. by exists n.
Qed.

(** * Inserting *)

(** A record that the list may take in. *)
Definition spare (st : GCD) (Map : ptr) (L : list node) (p : ptr) : Prop :=
  p ∉ Map :: L.*1 /\ p <> NULL /\ is_Some (links st !! p) /\
  exists z, entries st !! p = Some z /\ Signature z = 0.

Lemma spare_frame st st' ns Map L L' p :
  outside st st' ns -> p ∉ ns -> p ∉ Map :: L'.*1 -> spare st Map L p -> spare st' Map L' p.
Proof.
  intros (Hl & He & _) Hp Hp' (H1 & H2 & [n H3] & z & H4 & H5).
  repeat split; try done.
  - rewrite Hl by done. eauto.
  - exists z. by rewrite He.
Qed.

Section Insert.
Context (Verify : bool) (Max : nat).

Lemma copy_entry_spec st Dst Src e n :
  entries st !! Src = Some e -> links st !! Src = Some n ->
  copy_entry st Dst Src =
    Ok (set_links (<[Dst := n]> (links st)) (set_entries (<[Dst := e]> (entries st)) st)).
Proof. intros He Hn. unfold copy_entry, load. by rewrite He, Hn. Qed.

Lemma update_entry_spec st p f e :
  entries st !! p = Some e -> update_entry st p f = Ok (set_entries (<[p := f e]> (entries st)) st).
Proof. intros He. unfold update_entry. by rewrite He. Qed.

Lemma holds_frame st st' (L : list node) :
  (forall x, x ∈ L.*1 -> entries st' !! x = entries st !! x) ->
  Forall (holds st) L -> Forall (holds st') L.
Proof.
  intros He HF. rewrite Forall_forall in HF |- *. intros n Hn. destruct (HF n Hn) as [Hn1 Hn2].
  split; [|done]. rewrite He; [done|]. by apply (list_elem_of_fmap_2 fst).
Qed.

(** The state after [z] was linked in next to [p]. *)
Lemma rep_insert st Map A p e B z ez e' C h m :
  rep st Map (A ++ (p, e) :: B) -> z ∉ Map :: (A ++ (p, e) :: B).*1 ->
  C ≡ₚ (z, ez) :: (p, e') :: A ++ B -> dlist h Map C.*1 ->
  same_outside (links st) h (z :: Map :: (A ++ (p, e) :: B).*1) ->
  m = <[p := e']> (<[z := ez]> (entries st)) ->
  Signature ez = EFI_GCD_MAP_SIGNATURE -> Signature e' = EFI_GCD_MAP_SIGNATURE ->
  rep (set_links h (set_entries m st)) Map C /\
  outside st (set_links h (set_entries m st)) (z :: Map :: (A ++ (p, e) :: B).*1).
Proof.
  intros Hrep Hz HC Hd Hs -> Hsz Hse.
  destruct (rep_notin _ _ _ _ _ _ Hrep) as [Hp _]. destruct Hrep as [_ HF].
  rewrite fmap_app, fmap_cons in *. simpl in Hz, Hs |- *.
  assert (Hzp : z <> p) by (intros ->; apply Hz; clear; set_solver).
  split; [split; [done|]|].
  - rewrite HC. apply Forall_cons; split; [|apply Forall_cons; split].
    + split; [|exact Hsz]. simpl. rewrite lookup_insert_ne by congruence. apply lookup_insert_eq.
    + split; [|exact Hse]. simpl. apply lookup_insert_eq.
    + apply (holds_frame st).
      * intros x Hx. simpl. rewrite fmap_app in Hx. rewrite !lookup_insert_ne; [done|..];
          intros ->; [apply Hz|apply Hp]; clear -Hx; set_solver.
      * apply Forall_app in HF as [? HF]. apply Forall_cons in HF as [_ ?]. by apply Forall_app.
  - apply outside_set_links; [|done]. apply outside_set_entries; [apply outside_refl|].
    intros x Hx. rewrite !lookup_insert_ne; [done|..]; intros ->; apply Hx; clear; set_solver.
Qed.

(** What [Insert_bottom] and [Insert_top] find before they link the new node. *)
Lemma insert_start st Map A p e B z :
  rep st Map (A ++ (p, e) :: B) -> spare st Map (A ++ (p, e) :: B) z ->
  exists n, links st !! p = Some n /\ entries st !! p = Some e /\ z <> p /\
    Signature e = EFI_GCD_MAP_SIGNATURE /\
    dlist (<[z := n]> (links st)) Map (A.*1 ++ p :: B.*1) /\
    same_outside (links st) (<[z := n]> (links st)) (z :: Map :: A.*1 ++ p :: B.*1).
Proof.
  intros [Hd HF] (Hz & _ & _ & _). rewrite fmap_app, fmap_cons in *. simpl in Hd, Hz.
  assert (Hpl : is_Some (links st !! p)) by (eapply dlist_in; [done|]; clear; set_solver).
  destruct Hpl as [n Hn]. exists n. split; [done|].
  apply Forall_app in HF as [_ HF]. apply Forall_cons in HF as [[Hpe Hsig] _].
  split; [done|]. split; [intros ->; apply Hz; clear; set_solver|]. split; [done|]. split.
  - eapply (dlist_frame _ _ [z]); [| |exact Hd].
    + intros x Hx. rewrite lookup_insert_ne; [done|]. clear -Hx. set_solver.
    + intros x Hx Hin. apply list_elem_of_singleton in Hin as ->. contradiction.
  - intros x Hx. rewrite lookup_insert_ne; [done|]. clear -Hx. set_solver.
Qed.

Lemma Insert_bottom_spec st Map A p e B Base Bottom :
  rep st Map (A ++ (p, e) :: B) -> capacity Max (A ++ (p, e) :: B).*1 ->
  spare st Map (A ++ (p, e) :: B) Bottom ->
  exists st', Insert_bottom Verify Max st p Base Bottom = Ok st' /\
    rep st' Map (A ++ (Bottom, set_EndAddress (u64 (Base - 1)) e) :: (p, set_BaseAddress Base e) :: B) /\
    outside st st' (Bottom :: Map :: (A ++ (p, e) :: B).*1).
Proof.
  intros Hrep Hcap Hsp. pose proof Hsp as (Hz & Hn0 & _ & z & Hze & Hz0).
  destruct (insert_start _ _ _ _ _ _ _ Hrep Hsp) as (n & Hn & Hpe & Hzp & Hsig & Hd & Hs).
  destruct (InsertTailList_before Verify Max (<[Bottom := n]> (links st)) Map A.*1 (p :: B.*1) p
    (B.*1 ++ [Map]) Bottom) as (h & Hins & Hd2 & Hs2); try done.
  { by rewrite fmap_app, fmap_cons in Hcap. } { rewrite lookup_insert_eq. eauto. }
  { by rewrite fmap_app, fmap_cons in Hz. }
  exists (set_links h (set_entries (<[p := set_BaseAddress Base e]>
    (<[Bottom := set_EndAddress (u64 (Base - 1)) e]> (entries st))) st)). split.
  - unfold Insert_bottom. rewrite Hze. cbn [deref mbind result_bind]. rewrite Hz0. cbn [ASSERT Z.eqb].
    cbn [mbind result_bind]. rewrite (copy_entry_spec st Bottom p e n Hpe Hn). cbn [mbind result_bind].
    rewrite (update_entry_spec _ p _ e) by (simpl; by rewrite lookup_insert_ne). cbn [mbind result_bind].
    rewrite (update_entry_spec _ Bottom _ e)
      by (simpl; rewrite lookup_insert_ne by done; by rewrite lookup_insert_eq).
    cbn [mbind result_bind links set_links set_entries]. rewrite Hins. cbn.
    unfold set_links, set_entries; simpl. do 2 f_equal.
    rewrite (insert_insert_ne _ Bottom p) by done. by rewrite insert_insert_eq.
  - eapply rep_insert; try done.
    + solve_Permutation.
    + by rewrite fmap_app, !fmap_cons.
    + intros x Hx. rewrite fmap_app, fmap_cons in Hx. rewrite Hs2, Hs; done.
Qed.

Lemma Insert_top_spec st Map A p e B Base Length Top :
  rep st Map (A ++ (p, e) :: B) -> capacity Max (A ++ (p, e) :: B).*1 ->
  spare st Map (A ++ (p, e) :: B) Top ->
  exists st', Insert_top Verify Max st p Base Length Top = Ok st' /\
    rep st' Map (A ++ (p, set_EndAddress (u64 (Base + Length - 1)) e) ::
                      (Top, set_BaseAddress (u64 (Base + Length)) e) :: B) /\
    outside st st' (Top :: Map :: (A ++ (p, e) :: B).*1).
Proof.
  intros Hrep Hcap Hsp. pose proof Hsp as (Hz & Hn0 & _ & z & Hze & Hz0).
  destruct (insert_start _ _ _ _ _ _ _ Hrep Hsp) as (n & Hn & Hpe & Hzp & Hsig & Hd & Hs).
  destruct (InsertHeadList_after Verify Max (<[Top := n]> (links st)) Map (A.*1 ++ [p]) B.*1
    (Map :: A.*1) p Top) as (h & Hins & Hd2 & Hs2); rewrite <-?app_assoc; try done.
  { by rewrite fmap_app, fmap_cons in Hcap. } { rewrite lookup_insert_eq. eauto. }
  { by rewrite fmap_app, fmap_cons in Hz. }
  exists (set_links h (set_entries (<[p := set_EndAddress (u64 (Base + Length - 1)) e]>
    (<[Top := set_BaseAddress (u64 (Base + Length)) e]> (entries st))) st)). split.
  - unfold Insert_top. rewrite Hze. cbn [deref mbind result_bind]. rewrite Hz0. cbn [ASSERT Z.eqb].
    cbn [mbind result_bind]. rewrite (copy_entry_spec st Top p e n Hpe Hn). cbn [mbind result_bind].
    rewrite (update_entry_spec _ Top _ e) by (simpl; by rewrite lookup_insert_eq). cbn [mbind result_bind].
    rewrite (update_entry_spec _ p _ e)
      by (simpl; by rewrite !lookup_insert_ne by done).
    cbn [mbind result_bind links set_links set_entries]. rewrite Hins. cbn.
    unfold set_links, set_entries; simpl. do 2 f_equal. by rewrite insert_insert_eq.
  - eapply rep_insert; try done.
    + solve_Permutation.
    + rewrite fmap_app, !fmap_cons. by rewrite <-app_assoc in Hd2.
    + intros x Hx. rewrite fmap_app, fmap_cons in Hx. rewrite <-app_assoc in Hs2. rewrite Hs2, Hs; done.
Qed.

(** The parts of [e] below, inside and above the range from [Base] up to
    [lim - 1]; [z] is the node that takes a part that is split off. *)
Definition below (Base : Z) (z : ptr) (e : EFI_GCD_MAP_ENTRY) : list node :=
  if BaseAddress e <? Base then [(z, set_EndAddress (Base - 1) e)] else [].
Definition above (lim : Z) (z : ptr) (e : EFI_GCD_MAP_ENTRY) : list node :=
  if lim - 1 <? EndAddress e then [(z, set_BaseAddress lim e)] else [].
Definition inside (Base lim : Z) (e : EFI_GCD_MAP_ENTRY) : EFI_GCD_MAP_ENTRY :=
  set_EndAddress (Z.min (EndAddress e) (lim - 1)) (set_BaseAddress (Z.max (BaseAddress e) Base) e).

(** A range of addresses below 2^64. *)
Definition range (Base Length : Z) : Prop := 0 <= Base /\ 0 < Length /\ Base + Length <= 2 ^ 64.

Lemma range_end Base Length : range Base Length -> u64 (Base + Length - 1) = Base + Length - 1.
Proof. intros (? & ? & ?). apply wrap_small. lia. Qed.

Lemma entry_eta e : e = set_EndAddress (EndAddress e) (set_BaseAddress (BaseAddress e) e).
Proof. by destruct e. Qed.

Lemma CoreInsertGcdMapEntry_spec st Map A p e B Base Length Top Bottom :
  rep st Map (A ++ (p, e) :: B) -> capacity Max (NULL :: (A ++ (p, e) :: B).*1) ->
  range Base Length -> EndAddress e < 2 ^ 64 -> 0 <= BaseAddress e -> Top <> Bottom ->
  (BaseAddress e < Base -> spare st Map (A ++ (p, e) :: B) Bottom) ->
  (Base + Length - 1 < EndAddress e -> spare st Map (A ++ (p, e) :: B) Top) ->
  exists st', CoreInsertGcdMapEntry Verify Max st p Base Length Top Bottom = Ok st' /\
    rep st' Map (A ++ below Base Bottom e ++ (p, inside Base (Base + Length) e) ::
                 above (Base + Length) Top e ++ B) /\
    outside st st' ((below Base Bottom e).*1 ++ (above (Base + Length) Top e).*1 ++
                    Map :: (A ++ (p, e) :: B).*1).
Proof.
  intros Hrep Hcap Hr He He0 Htb Hsb Hst. pose proof Hr as (? & ? & ?).
  assert (Hcap0 : capacity Max (A ++ (p, e) :: B).*1) by (eapply capacity_length; [|done]; simpl; lia).
  unfold CoreInsertGcdMapEntry. rewrite (proj2 (Z.eqb_neq Length 0)) by lia.
  cbn [negb ASSERT mbind result_bind].
  rewrite (proj1 (rep_mid _ _ _ p _ _ Hrep)). cbn [deref mbind result_bind].
  rewrite Z.gtb_ltb, range_end by done. unfold below, above, inside.
  set (e1 := if BaseAddress e <? Base then set_BaseAddress Base e else e).
  set (A1 := A ++ if BaseAddress e <? Base then [(Bottom, set_EndAddress (Base - 1) e)] else []).
  assert (exists st1, (if BaseAddress e <? Base then Insert_bottom Verify Max st p Base Bottom else Ok st)
      = Ok st1 /\ rep st1 Map (A1 ++ (p, e1) :: B) /\
    outside st st1 ((if BaseAddress e <? Base then [(Bottom, set_EndAddress (Base - 1) e)] else []).*1
      ++ Map :: (A ++ (p, e) :: B).*1)) as (st1 & -> & Hrep1 & Ho1).
  { unfold e1, A1. destruct (Z.ltb_spec (BaseAddress e) Base).
    - destruct (Insert_bottom_spec st Map A p e B Base Bottom) as (st1 & G1 & G2 & G3); auto.
      exists st1. split; [done|]. rewrite (wrap_small 64) in G2 by lia. by rewrite <-app_assoc.
    - exists st. rewrite app_nil_r. split; [done|]. split; [done|]. apply outside_refl. }
  cbn [mbind result_bind]. rewrite (proj1 (rep_mid _ _ _ p _ _ Hrep1)).
  cbn [deref mbind result_bind].
  assert (He1 : EndAddress e1 = EndAddress e /\ BaseAddress e1 = Z.max (BaseAddress e) Base /\
    e1 = set_BaseAddress (Z.max (BaseAddress e) Base) e).
  { unfold e1. destruct (Z.ltb_spec (BaseAddress e) Base).
    - rewrite Z.max_r by lia. done.
    - rewrite Z.max_l by lia. by destruct e. }
  destruct He1 as (HE & HB & He1). rewrite HE.
  destruct (Z.ltb_spec (Base + Length - 1) (EndAddress e)).
  - destruct (Insert_top_spec st1 Map A1 p e1 B Base Length Top) as (st2 & -> & G2 & G3); [done|..].
    + eapply capacity_length; [|exact Hcap]. unfold A1.
      rewrite !fmap_app, !fmap_cons. destruct (_ <? _); solve_length.
    + eapply spare_frame; [exact Ho1| | |apply Hst; lia].
      * destruct (Hst ltac:(lia)) as (Hin & _). rewrite elem_of_app. intros [Hin'|]; [|done].
        destruct (_ <? _); simpl in Hin'; [|by apply not_elem_of_nil in Hin'].
        by apply list_elem_of_singleton in Hin'.
      * destruct (Hst ltac:(lia)) as (Hin & _). unfold A1. clear -Hin Htb.
        rewrite !fmap_app, !fmap_cons in *. destruct (_ <? _); simpl in *; set_solver.
    + exists st2. split; [done|]. split.
      * rewrite (range_end Base Length), (wrap_small 64) in G2 by (done || lia).
        rewrite He1 in G2. unfold A1 in G2. rewrite <-app_assoc in G2.
        rewrite Z.min_r by lia. done.
      * eapply outside_trans; [exact Ho1|exact G3| |]; unfold A1;
          rewrite !fmap_app, !fmap_cons; destruct (_ <? _); simpl; clear; set_solver.
  - exists st1. split; [done|]. split.
    + rewrite Z.min_l by lia. rewrite <-HE, <-HB.
      unfold A1 in Hrep1. rewrite <-app_assoc in Hrep1. simpl.
      replace (set_EndAddress (EndAddress e1) (set_BaseAddress (BaseAddress e1) e)) with e1; [done|].
      rewrite He1. by destruct e.
    + eapply outside_mono; [exact Ho1|]. clear. set_solver.
Qed.
End Insert.

(** * What a map says about an address *)

(** The fields that two records must share to be merged. *)
Definition info (e : EFI_GCD_MAP_ENTRY) : Z * Z * Z * Z * Z * Z :=
  (Capabilities e, Attributes e, GcdMemoryType e, GcdIoType e, ImageHandle e, DeviceHandle e).

Definition covers (e : EFI_GCD_MAP_ENTRY) (a : Z) : bool :=
  (BaseAddress e <=? a) && (a <=? EndAddress e).

Fixpoint info_at (L : list node) (a : Z) : option (Z * Z * Z * Z * Z * Z) :=
  match L with
  | [] => None
  | n :: L => if covers n.2 a then Some (info n.2) else info_at L a
  end.

(** The records cover the addresses from [lo] to [hi - 1] without gap or overlap. *)
Fixpoint contig (lo : Z) (L : list node) (hi : Z) : Prop :=
  match L with
  | [] => lo = hi
  | n :: L => BaseAddress n.2 = lo /\ lo <= EndAddress n.2 /\ contig (EndAddress n.2 + 1) L hi
  end.

(** [L'] covers the same range as [L] and says the same about every address. *)
Definition same_map (lo : Z) (L L' : list node) (hi : Z) : Prop :=
  contig lo L' hi /\ forall a, info_at L' a = info_at L a.

Lemma covers_true e a : covers e a = true <-> BaseAddress e <= a <= EndAddress e.
Proof. unfold covers. bool_to_prop. lia. Qed.

Lemma covers_false e a : covers e a = false <-> a < BaseAddress e \/ EndAddress e < a.
Proof. unfold covers. bool_to_prop. lia. Qed.

Lemma info_at_app A B a :
  info_at (A ++ B) a = match info_at A a with Some i => Some i | None => info_at B a end.
Proof. induction A as [|n A IH]; simpl; [done|]. by destruct (covers _ _). Qed.

Lemma contig_app lo A B hi :
  contig lo (A ++ B) hi <-> exists mid, contig lo A mid /\ contig mid B hi.
Proof.
  revert lo. induction A as [|n A IH]; simpl; intros lo; [naive_solver|].
  rewrite IH. naive_solver.
Qed.

Lemma contig_le lo L hi : contig lo L hi -> lo <= hi.
Proof. revert lo. induction L as [|n L IH]; simpl; intros lo; [lia|]. intros (? & ? & H%IH). lia. Qed.

Lemma contig_lt lo n L hi : contig lo (n :: L) hi -> lo < hi.
Proof. simpl. intros (? & ? & ?%contig_le). lia. Qed.

Lemma contig_last mid T q f B hi :
  contig mid (T ++ B) hi -> last T = Some (q, f) -> mid <= BaseAddress f <= EndAddress f /\
    EndAddress f < hi.
Proof.
  intros Hc [T' ->]%last_Some. rewrite <-app_assoc in Hc.
  apply contig_app in Hc as (m & H1%contig_le & H2 & H3 & H4%contig_le). simpl in *. lia.
Qed.

(** A map says something about the addresses of its range, and only those. *)
Lemma info_at_None lo L hi a : contig lo L hi -> info_at L a = None <-> a < lo \/ hi <= a.
Proof.
  revert lo. induction L as [|n L IH]; simpl; intros lo.
  - intros ->. split; [lia|done].
  - intros (Hb & He & Hc). pose proof (contig_le _ _ _ Hc).
    destruct (covers n.2 a) eqn:E.
    + apply covers_true in E. split; [done|lia].
    + apply covers_false in E. rewrite (IH _ Hc). lia.
Qed.

(** The entry of a given address. *)
Lemma info_at_in lo A n B hi a :
  contig lo (A ++ n :: B) hi -> covers n.2 a = true -> info_at (A ++ n :: B) a = Some (info n.2).
Proof.
  intros (mid & HA & Hb & _)%contig_app Hcov. rewrite info_at_app. simpl. rewrite Hcov.
  apply covers_true in Hcov. by rewrite (proj2 (info_at_None _ _ _ a HA)) by lia.
Qed.

Lemma same_map_refl lo L hi : contig lo L hi -> same_map lo L L hi.
Proof. done. Qed.

Lemma same_map_trans lo L1 L2 L3 hi :
  same_map lo L1 L2 hi -> same_map lo L2 L3 hi -> same_map lo L1 L3 hi.
Proof. intros [H1 H2] [H3 H4]. split; [done|]. intros a. by rewrite H4. Qed.

(** Two neighbours with the same fields become one. *)
Lemma merge_pair lo A n1 n2 m B hi :
  contig lo (A ++ n1 :: n2 :: B) hi -> info n1.2 = info n2.2 -> info m.2 = info n2.2 ->
  BaseAddress m.2 = BaseAddress n1.2 -> EndAddress m.2 = EndAddress n2.2 ->
  same_map lo (A ++ n1 :: n2 :: B) (A ++ m :: B) hi.
Proof.
  intros (mid & HA & HB)%contig_app H12 Hm Hb He. simpl in HB. destruct HB as (? & ? & ? & ? & HB).
  split.
  - apply contig_app. exists mid. split; [done|]. simpl. rewrite Hb, He. repeat split; [done|lia|done].
  - intros a. rewrite !info_at_app. destruct (info_at A a); [done|]. simpl. rewrite Hm, H12.
    destruct (covers m.2 a) eqn:E, (covers n1.2 a) eqn:E1, (covers n2.2 a) eqn:E2; try done.
    all: rewrite ?covers_true, ?covers_false in *; lia.
Qed.

(** * Merging and cleaning up *)

Section Merge.
Context (Max : nat).

(** The comparisons of [CoreMergeGcdMapEntry] are the comparison of [info]. *)
Lemma merge_tests {A} (Entry Adj : EFI_GCD_MAP_ENTRY) (no yes : A) :
  (if negb (Capabilities Entry =? Capabilities Adj) then no else
   if negb (Attributes Entry =? Attributes Adj) then no else
   if negb (GcdMemoryType Entry =? GcdMemoryType Adj) then no else
   if negb (GcdIoType Entry =? GcdIoType Adj) then no else
   if negb (ImageHandle Entry =? ImageHandle Adj) then no else
   if negb (DeviceHandle Entry =? DeviceHandle Adj) then no else yes) =
  if decide (info Entry = info Adj) then yes else no.
Proof.
  unfold info.
  repeat match goal with
  | |- context [negb (?x =? ?y)] => destruct (Z.eqb_spec x y); simpl; [|case_decide; [naive_solver|done]]
  end.
  case_decide as E; [done|]. destruct E. congruence.
Qed.

(** Removing the record of a neighbour [q] after [p] took over its range. *)
Lemma rep_merge st Map L L' C p e q f e' h :
  rep st Map L -> L ≡ₚ (q, f) :: (p, e) :: C -> L' ≡ₚ (p, e') :: C ->
  Signature e' = EFI_GCD_MAP_SIGNATURE ->
  dlist h Map L'.*1 -> same_outside (links st) h (Map :: L'.*1) ->
  let st' := CoreFreePool (set_links h (set_entries (<[p := e']> (entries st)) st)) q in
  rep st' Map L' /\ outside st st' (Map :: L.*1).
Proof.
  intros Hrep HL HL' Hsig Hd Hs st'.
  pose proof (rep_NoDup _ _ _ Hrep) as Hnd. destruct Hrep as [_ HF].
  assert (Hperm : L.*1 ≡ₚ q :: p :: C.*1) by (by rewrite HL).
  assert (Hperm' : L'.*1 ≡ₚ p :: C.*1) by (by rewrite HL').
  rewrite Hperm in Hnd. rewrite !NoDup_cons, !not_elem_of_cons in Hnd.
  destruct Hnd as ((HMq & HMp & HMC) & (Hqp & HqC) & HpC & _).
  split; [split|].
  - eapply (dlist_frame h _ [q]); [| |exact Hd].
    + intros x Hx. simpl. rewrite lookup_delete_ne; [done|]. clear -Hx. set_solver.
    + intros x Hx Hxq. apply list_elem_of_singleton in Hxq as ->.
      rewrite Hperm', !elem_of_cons in Hx. destruct Hx as [|[|]]; [congruence..|contradiction].
  - rewrite HL'. rewrite HL in HF. apply Forall_cons in HF as [_ [_ HF]%Forall_cons].
    apply Forall_cons. split; [split; [|exact Hsig]|].
    + simpl. rewrite lookup_delete_ne by done. apply lookup_insert_eq.
    + eapply holds_frame; [|exact HF]. intros x Hx. simpl.
      by rewrite lookup_delete_ne, lookup_insert_ne by (intros ->; contradiction).
  - repeat split; try done; intros x Hx; rewrite Hperm in Hx; simpl.
    + rewrite lookup_delete_ne, Hs; [done|rewrite Hperm'|intros ->; apply Hx]; clear -Hx; set_solver.
    + rewrite lookup_delete_ne, lookup_insert_ne; [done|..]; intros ->; apply Hx; clear; set_solver.
Qed.

(** [CoreMergeGcdMapEntry] on the entry [p]: it may take over the range of its
    predecessor, ... *)
Lemma Merge_backward st Map A p e B lo hi :
  rep st Map (A ++ (p, e) :: B) -> capacity Max (A ++ (p, e) :: B).*1 ->
  contig lo (A ++ (p, e) :: B) hi ->
  exists s st' A' e', CoreMergeGcdMapEntry Max st p false Map = Ok (s, st') /\
    rep st' Map (A' ++ (p, e') :: B) /\ outside st st' (Map :: (A ++ (p, e) :: B).*1) /\
    same_map lo (A ++ (p, e) :: B) (A' ++ (p, e') :: B) hi /\ A' `prefix_of` A.
Proof.
  intros Hrep Hcap Hc. destruct (rep_node _ _ _ _ _ _ Hrep) as (n & Hn & _ & Hnb).
  unfold CoreMergeGcdMapEntry. rewrite Hn. cbn [mbind result_bind]. rewrite Hnb.
  destruct A as [|[q f] A _] using rev_ind.
  { simpl List.last. rewrite Z.eqb_refl. do 2 eexists. exists [], e. split; [done|]. split; [done|].
    split; [apply outside_refl|]. by split. }
  rewrite fmap_app. cbn [fmap list_fmap fst]. rewrite List.last_last. rewrite <-app_assoc in *. simpl in *.
  destruct (rep_notin _ _ _ _ _ _ Hrep) as [HqM _].
  rewrite (proj2 (Z.eqb_neq q Map)) by (intros ->; apply HqM; left).
  rewrite (rep_CR _ _ _ p e Hrep), (rep_CR _ _ _ q f Hrep) by (clear; set_solver).
  cbn [mbind result_bind]. rewrite merge_tests. case_decide as Hi.
  - rewrite (update_entry_spec _ p _ e) by (eapply rep_in; [done|clear; set_solver]).
    cbn [mbind result_bind links set_entries].
    pose proof (proj1 Hrep) as Hd. rewrite fmap_app, !fmap_cons in Hd, Hcap. simpl in Hd, Hcap.
    destruct (RemoveEntryList_unlinks Max (links st) Map A.*1 q (p :: B.*1) Hd Hcap) as (h & -> & Hd' & Hs).
    cbn [mbind result_bind].
    destruct (rep_merge st Map (A ++ (q, f) :: (p, e) :: B)
      (A ++ (p, set_BaseAddress (BaseAddress f) e) :: B) (A ++ B) p e q f
      (set_BaseAddress (BaseAddress f) e) h) as [Hr Ho]; try done.
    { solve_Permutation. } { solve_Permutation. }
    { destruct Hrep as [_ HF]. apply Forall_app in HF as [_ HF].
      apply Forall_cons in HF as [_ [[_ ?] _]%Forall_cons]. done. }
    { by rewrite fmap_app, fmap_cons. } { by rewrite fmap_app, fmap_cons. }
    do 2 eexists. exists A, (set_BaseAddress (BaseAddress f) e).
    split; [done|]. split; [done|]. split; [done|]. split; [|by apply prefix_app_r].
    apply merge_pair; try done.
  - do 2 eexists. exists (A ++ [(q, f)]), e. rewrite <-app_assoc. split; [done|]. split; [done|].
    split; [apply outside_refl|]. by split.
Qed.

(** ... or of its successor. *)
Lemma Merge_forward st Map A p e B lo hi :
  rep st Map (A ++ (p, e) :: B) -> capacity Max (A ++ (p, e) :: B).*1 ->
  contig lo (A ++ (p, e) :: B) hi ->
  exists s st' B' e', CoreMergeGcdMapEntry Max st p true Map = Ok (s, st') /\
    rep st' Map (A ++ (p, e') :: B') /\ outside st st' (Map :: (A ++ (p, e) :: B).*1) /\
    same_map lo (A ++ (p, e) :: B) (A ++ (p, e') :: B') hi /\ B' `suffix_of` B.
Proof.
  intros Hrep Hcap Hc. destruct (rep_node _ _ _ _ _ _ Hrep) as (n & Hn & Hnf & _).
  unfold CoreMergeGcdMapEntry. rewrite Hn. cbn [mbind result_bind]. rewrite Hnf. unfold first.
  destruct B as [|[q f] B].
  { simpl List.hd. rewrite Z.eqb_refl. do 2 eexists. exists [], e. split; [done|]. split; [done|].
    split; [apply outside_refl|]. by split. }
  cbn [fmap list_fmap fst List.hd].
  assert (HqM : q <> Map).
  { intros ->. apply rep_NoDup, NoDup_cons in Hrep as [HM _]. apply HM. rewrite fmap_app. clear. set_solver. }
  rewrite (proj2 (Z.eqb_neq q Map)) by done.
  rewrite (rep_CR _ _ _ p e Hrep), (rep_CR _ _ _ q f Hrep) by (clear; set_solver).
  cbn [mbind result_bind]. rewrite merge_tests. case_decide as Hi.
  - rewrite (update_entry_spec _ p _ e) by (eapply rep_in; [done|clear; set_solver]).
    cbn [mbind result_bind links set_entries].
    pose proof (proj1 Hrep) as Hd. rewrite fmap_app, !fmap_cons in Hd, Hcap. simpl in Hd, Hcap.
    destruct (RemoveEntryList_unlinks Max (links st) Map (A.*1 ++ [p]) q B.*1) as (h & -> & Hd' & Hs);
      rewrite <-?app_assoc; try done.
    rewrite <-app_assoc in Hd', Hs. cbn [mbind result_bind].
    destruct (rep_merge st Map (A ++ (p, e) :: (q, f) :: B)
      (A ++ (p, set_EndAddress (EndAddress f) e) :: B) (A ++ B) p e q f
      (set_EndAddress (EndAddress f) e) h) as [Hr Ho]; try done.
    { solve_Permutation. } { solve_Permutation. }
    { destruct Hrep as [_ HF]. apply Forall_app in HF as [_ HF].
      apply Forall_cons in HF as [[_ ?] _]. done. }
    { by rewrite fmap_app, fmap_cons. } { by rewrite fmap_app, fmap_cons. }
    do 2 eexists. exists B, (set_EndAddress (EndAddress f) e).
    split; [done|]. split; [done|]. split; [done|]. split; [|by exists [(q, f)]].
    apply merge_pair; try done.
  - do 2 eexists. exists ((q, f) :: B), e. split; [done|]. split; [done|].
    split; [apply outside_refl|]. by split.
Qed.

(** The backward merges from [Link] to [EndLink]; [A] is what has been done. *)
Lemma Cleanup_loop_spec S st Map A e0 B EndLink fuel lo hi :
  rep st Map (A ++ S ++ B) -> capacity Max (A ++ S ++ B).*1 -> contig lo (A ++ S ++ B) hi ->
  last (A ++ S) = Some (EndLink, e0) -> (length S < fuel)%nat ->
  exists st' A' e', Cleanup_loop Max fuel st (first Map (S ++ B)) EndLink Map = Ok st' /\
    rep st' Map (A' ++ (EndLink, e') :: B) /\ outside st st' (Map :: (A ++ S ++ B).*1) /\
    same_map lo (A ++ S ++ B) (A' ++ (EndLink, e') :: B) hi /\
    (A' ++ (EndLink, e') :: B).*1 ⊆ (A ++ S ++ B).*1 /\
    (length (A' ++ (EndLink, e') :: B) <= length (A ++ S ++ B))%nat.
Proof.
  revert st A e0 fuel. induction S as [|[p e] S IH]; intros st A e0 fuel Hrep Hcap Hc Hlast Hf;
    (destruct fuel as [|fuel]; [simpl in Hf; lia|]); cbn [Cleanup_loop].
  - rewrite app_nil_r in Hlast. apply last_Some in Hlast as [A0 ->].
    simpl app in *. rewrite <-app_assoc in *. simpl app in *.
    destruct (rep_node _ _ _ _ _ _ Hrep) as (n & Hn & Hnf & _). rewrite Hn. cbn [mbind result_bind].
    rewrite Hnf, Z.eqb_refl. exists st, A0, e0. split; [done|]. split; [done|].
    split; [apply outside_refl|]. by repeat split.
  - assert (exists T, S ++ B = T ++ (EndLink, e0) :: B /\ S <> [] \/
                    S = [] /\ EndLink = p) as [T HT].
    { rewrite last_app in Hlast. destruct S as [|s S _] using rev_ind.
      - simpl in Hlast. exists []. right. split; [done|congruence].
      - rewrite last_cons, last_snoc in Hlast. injection Hlast as ->. exists S. left.
        split; [by rewrite <-app_assoc|by destruct S]. }
    assert (Hload : exists n, load (links st) EndLink = Ok n /\ ForwardLink n = first Map B).
    { destruct HT as [[HT _]|[-> ->]].
      - simpl app in Hrep. rewrite HT, app_comm_cons, app_assoc in Hrep.
        apply rep_node in Hrep as (n & ? & ? & _). eauto.
      - apply rep_node in Hrep as (n & ? & ? & _). eauto. }
    destruct Hload as (n & Hn & Hnf). rewrite Hn. cbn [mbind result_bind]. rewrite Hnf.
    assert (Hpne : first Map (((p, e) :: S) ++ B) <> first Map B).
    { pose proof (rep_NoDup _ _ _ Hrep) as Hnd. rewrite !fmap_app, fmap_cons in Hnd. simpl in Hnd |- *.
      assert (Hp : Map :: A.*1 ++ p :: S.*1 ++ B.*1 ≡ₚ p :: Map :: A.*1 ++ S.*1 ++ B.*1) by solve_Permutation.
      rewrite Hp in Hnd. apply NoDup_cons in Hnd as [Hnd _]. unfold first. simpl. intros ->. apply Hnd.
      destruct (B.*1); simpl; clear; set_solver. }
    rewrite (proj2 (Z.eqb_neq _ _)) by done. simpl app in *. unfold first at 1 2. simpl List.hd.
    destruct (Merge_backward st Map A p e (S ++ B) lo hi) as (s & st1 & A1 & e1 & -> & Hr1 & Ho1 & Hm1 & Hpre);
      [done..|]. cbn [mbind result_bind].
    destruct (rep_node _ _ _ _ _ _ Hr1) as (n1 & -> & Hn1 & _). cbn [mbind result_bind]. rewrite Hn1.
    replace (A1 ++ (p, e1) :: S ++ B) with ((A1 ++ [(p, e1)]) ++ S ++ B) in Hr1, Hm1
      by (by rewrite <-app_assoc).
    assert (Hsub : ((A1 ++ [(p, e1)]) ++ S ++ B).*1 ⊆ (A ++ (p, e) :: S ++ B).*1 /\
      (length ((A1 ++ [(p, e1)]) ++ S ++ B) <= length (A ++ (p, e) :: S ++ B))%nat).
    { destruct Hpre as [Z ->]. rewrite !fmap_app, !fmap_cons. split; [simpl; clear; set_solver|solve_length]. }
    destruct Hsub as [Hsub Hlen].
    destruct (IH st1 (A1 ++ [(p, e1)]) (if decide (S = []) then e1 else e0) fuel)
      as (st' & A' & e' & -> & Hr' & Ho' & Hm' & Hs' & Hl'); [done| |apply Hm1| |simpl in Hf; lia|].
    + eapply capacity_length; [|exact Hcap]. by rewrite !length_fmap.
    + destruct S as [|s0 S _] using rev_ind.
      * rewrite app_nil_r, last_snoc. destruct HT as [[_ ?]|[_ ->]]; [done|by rewrite decide_True].
      * rewrite decide_False by (by destruct S). rewrite !app_comm_cons, !app_assoc, !last_snoc in *. done.
    + exists st', A', e'. split; [done|]. split; [done|]. split; [|split; [|split]].
      * eapply outside_trans; [exact Ho1|exact Ho'|done|]. clear -Hsub. set_solver.
      * eapply same_map_trans; [exact Hm1|exact Hm'].
      * by transitivity ((A1 ++ [(p, e1)]) ++ S ++ B).*1.
      * lia.
Qed.

(** The loops over a list of the store have enough fuel. *)
Lemma walk_enough st Map L : rep st Map L -> (S (length L) < walk_bound st)%nat.
Proof.
  intros [Hd _]. apply dlist_size in Hd. rewrite length_fmap in Hd. unfold walk_bound. lia.
Qed.

(** A work node: used in the list by now, or still unused. *)
Definition used_or_spare (st : GCD) (Map : ptr) (L : list node) (p : ptr) : Prop :=
  p ∈ L.*1 \/ spare st Map L p.

Lemma free_unused_spec st Map L p :
  rep st Map L -> used_or_spare st Map L p ->
  exists st', free_unused st p = Ok st' /\ rep st' Map L /\ outside st st' [p] /\
    forall q, q <> p -> used_or_spare st Map L q -> used_or_spare st' Map L q.
Proof.
  intros Hrep [Hin|(H1 & H2 & H3 & z & Hz & Hz0)]; unfold free_unused.
  - apply list_elem_of_fmap in Hin as ([p' e] & -> & Hin). simpl.
    rewrite (rep_in _ _ _ _ _ Hrep Hin). simpl. destruct Hrep as [Hd HF].
    rewrite Forall_forall in HF. destruct (HF _ Hin) as [_ Hsig]. simpl in Hsig. rewrite Hsig. simpl.
    exists st. split; [done|]. split; [|split; [apply outside_refl|done]].
    split; [done|by apply Forall_forall].
  - rewrite Hz. simpl. rewrite Hz0. simpl. exists (CoreFreePool st p). split; [done|].
    assert (Ho : outside st (CoreFreePool st p) [p]).
    { repeat split; try done; intros x Hx; simpl; rewrite lookup_delete_ne; try done;
        intros ->; apply Hx; left. }
    split; [|split; [done|]].
    + eapply rep_frame; [exact Ho| |done]. intros x Hx Hin.
      apply list_elem_of_singleton in Hin as ->. contradiction.
    + intros q Hq [Hin|Hsp]; [by left|right]. eapply spare_frame; [exact Ho| | |exact Hsp].
      * by rewrite list_elem_of_singleton.
      * by destruct Hsp.
Qed.

Lemma CoreCleanupGcdMapEntry_spec st Map A S B Top Bottom StartLink EndLink e0 lo hi :
  rep st Map (A ++ S ++ B) -> capacity Max (A ++ S ++ B).*1 -> contig lo (A ++ S ++ B) hi ->
  StartLink = first Map (S ++ B) -> last S = Some (EndLink, e0) ->
  Top <> Bottom -> used_or_spare st Map (A ++ S ++ B) Top ->
  used_or_spare st Map (A ++ S ++ B) Bottom ->
  exists st' L', CoreCleanupGcdMapEntry Max st Top Bottom StartLink EndLink Map = Ok (EFI_SUCCESS, st') /\
    rep st' Map L' /\ outside st st' (Top :: Bottom :: Map :: (A ++ S ++ B).*1) /\
    same_map lo (A ++ S ++ B) L' hi /\ L'.*1 ⊆ (A ++ S ++ B).*1 /\
    (length L' <= length (A ++ S ++ B))%nat.
Proof.
  intros Hrep Hcap Hc -> Hlast Htb Ht Hb. unfold CoreCleanupGcdMapEntry.
  destruct (free_unused_spec _ _ _ _ Hrep Ht) as (st1 & -> & Hr1 & Ho1 & Hu1). cbn [mbind result_bind].
  destruct (free_unused_spec _ _ _ Bottom Hr1 ltac:(auto)) as (st2 & -> & Hr2 & Ho2 & _).
  cbn [mbind result_bind].
  destruct (Cleanup_loop_spec S st2 Map A e0 B EndLink (walk_bound st2) lo hi)
    as (st3 & A' & e' & -> & Hr3 & Ho3 & Hm3 & Hs3 & Hl3); try done.
  { rewrite last_app, Hlast. done. }
  { apply walk_enough in Hr2. rewrite !length_app in Hr2. lia. }
  cbn [mbind result_bind].
  destruct (Merge_forward st3 Map A' EndLink e' B lo hi) as (s & st4 & B' & e4 & -> & Hr4 & Ho4 & Hm4 & Hsuf);
    [done| |apply Hm3|].
  { eapply capacity_length; [|exact Hcap]. rewrite !length_fmap. done. }
  cbn [mbind result_bind]. exists st4, (A' ++ (EndLink, e4) :: B').
  destruct Hsuf as [Z HZ].
  split; [done|]. split; [done|]. split; [|split; [|split]].
  - assert (Hlift : forall ns, ns ⊆ (A ++ S ++ B).*1 ->
      Map :: ns ⊆ Top :: Bottom :: Map :: (A ++ S ++ B).*1) by (clear; set_solver).
    eapply outside_trans; [exact Ho1| |clear; set_solver|reflexivity].
    eapply outside_trans; [exact Ho2| |clear; set_solver|reflexivity].
    eapply outside_trans; [exact Ho3|exact Ho4|by apply Hlift|by apply Hlift].
  - by eapply same_map_trans.
  - transitivity (A' ++ (EndLink, e') :: B).*1; [|done]. rewrite HZ.
    rewrite !fmap_app, !fmap_cons, !fmap_app. clear. set_solver.
  - apply (f_equal length) in HZ. rewrite !length_app in *. simpl in *. lia.
Qed.
End Merge.

(** * Searching *)

(** [S] is the part of the map [A ++ S ++ B] that holds the addresses from
    [Base] to [lim - 1]; [s] and [q] are its first and last links. *)
Record segment (S : list node) (s q : ptr) (Base lim : Z) : Prop := {
  seg_first : exists e, head S = Some (s, e) /\ BaseAddress e <= Base <= EndAddress e;
  seg_last : exists f, last S = Some (q, f) /\ BaseAddress f <= lim - 1 <= EndAddress f }.

(** The second half of the search: the end of the range is still to come. *)
Lemma Search_loop_end B st Map A Base Length s mid hi fuel :
  rep st Map (A ++ B) -> contig mid B hi -> range Base Length -> s <> NULL ->
  Base < mid <= Base + Length - 1 -> (length B < fuel)%nat ->
  (Base + Length <= hi /\ exists B1 q f B2, B = B1 ++ (q, f) :: B2 /\
     BaseAddress f <= Base + Length - 1 <= EndAddress f /\
     Search_loop fuel st Base Length Map (first Map B) s = Ok (EFI_SUCCESS, s, q)) \/
  (hi < Base + Length /\
     Search_loop fuel st Base Length Map (first Map B) s = Ok (EFI_NOT_FOUND, s, NULL)).
Proof.
  intros Hrep Hc Hr Hs Hm Hf. revert A mid fuel Hrep Hc Hm Hf.
  induction B as [|[p e] B IH]; intros A mid fuel Hrep Hc Hm Hf;
    (destruct fuel as [|fuel]; [simpl in Hf; lia|]); cbn [Search_loop].
  - simpl in Hc. right. split; [lia|]. unfold first. simpl. by rewrite Z.eqb_refl.
  - simpl in Hc. destruct Hc as (Hb & He & Hc). change (first Map ((p, e) :: B)) with p.
    destruct (rep_notin _ _ _ _ _ _ Hrep) as [Hp _].
    rewrite (proj2 (Z.eqb_neq p Map)) by (intros ->; apply Hp; left).
    rewrite (proj2 (rep_mid _ _ _ p _ _ Hrep)). cbn [mbind result_bind].
    rewrite range_end by done.
    rewrite !Z.geb_leb. rewrite (proj2 (Z.leb_gt (BaseAddress e) Base)) by lia. cbn [andb].
    rewrite (proj2 (Z.eqb_neq s NULL)) by done. cbn [negb andb].
    rewrite (proj2 (Z.leb_le (BaseAddress e) _)) by lia. cbn [andb].
    destruct (Z.leb_spec (Base + Length - 1) (EndAddress e)).
    + left. pose proof (contig_le _ _ _ Hc). split; [lia|]. exists [], p, e, B.
      split; [done|]. split; [lia|]. done.
    + destruct (rep_node _ _ _ _ _ _ Hrep) as (n & -> & Hn & _). cbn [mbind result_bind]. rewrite Hn.
      destruct (IH (A ++ [(p, e)]) (EndAddress e + 1) fuel) as [(? & B1 & q & f & B2 & -> & ? & ?)|[? ?]];
        [by rewrite <-app_assoc|done|lia|simpl in Hf; lia|left|right; done].
      split; [done|]. by exists ((p, e) :: B1), q, f, B2.
Qed.

(** The first half: the start of the range is still to come. *)
Lemma Search_loop_start B st Map A Base Length mid hi fuel :
  rep st Map (A ++ B) -> contig mid B hi -> range Base Length -> mid <= Base ->
  (length B < fuel)%nat ->
  (Base + Length <= hi /\ exists s q B0 S B2, B = B0 ++ S ++ B2 /\ segment S s q Base (Base + Length) /\
     Search_loop fuel st Base Length Map (first Map B) NULL = Ok (EFI_SUCCESS, s, q)) \/
  (hi < Base + Length /\ exists s,
     Search_loop fuel st Base Length Map (first Map B) NULL = Ok (EFI_NOT_FOUND, s, NULL)).
Proof.
  intros Hrep Hc Hr Hm Hf. revert A mid fuel Hrep Hc Hm Hf.
  induction B as [|[p e] B IH]; intros A mid fuel Hrep Hc Hm Hf;
    (destruct fuel as [|fuel]; [simpl in Hf; lia|]); cbn [Search_loop].
  - simpl in Hc. destruct Hr. right. split; [lia|]. exists NULL. unfold first. simpl. by rewrite Z.eqb_refl.
  - simpl in Hc. destruct Hc as (Hb & He & Hc). change (first Map ((p, e) :: B)) with p.
    destruct (rep_notin _ _ _ _ _ _ Hrep) as [Hp Hpn]. pose proof Hr as (? & ? & ?).
    rewrite (proj2 (Z.eqb_neq p Map)) by (intros ->; apply Hp; left).
    rewrite (proj2 (rep_mid _ _ _ p _ _ Hrep)). cbn [mbind result_bind].
    rewrite range_end by done. rewrite !Z.geb_leb, (proj2 (Z.leb_le (BaseAddress e) Base)) by lia. cbn [andb].
    assert (HrepA : rep st Map ((A ++ [(p, e)]) ++ B)) by (by rewrite <-app_assoc).
    destruct (rep_node _ _ _ _ _ _ Hrep) as (n & Hload & Hn & _). rewrite Hload. cbn [mbind result_bind].
    rewrite Hn. destruct (Z.leb_spec Base (EndAddress e)).
    + rewrite (proj2 (Z.eqb_neq p NULL)) by done. cbn [negb andb].
      rewrite (proj2 (Z.leb_le (BaseAddress e) _)) by lia. cbn [andb].
      assert (Hfst : BaseAddress e <= Base <= EndAddress e) by lia.
      destruct (Z.leb_spec (Base + Length - 1) (EndAddress e)).
      * left. pose proof (contig_le _ _ _ Hc). split; [lia|]. exists p, p, [], [(p, e)], B.
        split; [done|]. split; [|done]. split; exists e; (split; [done|lia]).
      * destruct (Search_loop_end B st Map (A ++ [(p, e)]) Base Length p (EndAddress e + 1) hi fuel)
          as [(? & B1 & q & f & B2 & -> & ? & ?)|[? ?]]; [done..|lia|simpl in Hf; lia|left|right; eauto].
        split; [done|]. exists p, q, [], ((p, e) :: B1 ++ [(q, f)]), B2.
        split; [simpl; by rewrite <-app_assoc|]. split; [|done].
        split; [by exists e|exists f; split; [|done]]. by rewrite app_comm_cons, last_snoc.
    + rewrite Z.eqb_refl. cbn [negb andb].
      destruct (IH (A ++ [(p, e)]) (EndAddress e + 1) fuel)
        as [(? & s & q & B0 & S & B2 & -> & ? & ?)|[? ?]];
        [done..|lia|simpl in Hf; lia|left|right; eauto].
      split; [done|]. by exists s, q, ((p, e) :: B0), S, B2.
Qed.

(** [CoreSearchGcdMapEntry] finds the records of a range of the map, and fails
    for a range that leaves the map. *)
Lemma CoreSearchGcdMapEntry_spec st Map L Base Length lo hi :
  rep st Map L -> contig lo L hi -> range Base Length -> lo <= Base ->
  (Base + Length <= hi /\ exists s q A S B, L = A ++ S ++ B /\ segment S s q Base (Base + Length) /\
     CoreSearchGcdMapEntry st Base Length Map = Ok (EFI_SUCCESS, s, q)) \/
  (hi < Base + Length /\ exists s,
     CoreSearchGcdMapEntry st Base Length Map = Ok (EFI_NOT_FOUND, s, NULL)).
Proof.
  intros Hrep Hc Hr Hlo. unfold CoreSearchGcdMapEntry. pose proof Hr as (? & ? & ?).
  rewrite (proj2 (Z.eqb_neq Length 0)) by lia. cbn [negb ASSERT mbind result_bind].
  destruct (rep_head _ _ _ Hrep) as (n & -> & Hn & _). cbn [mbind result_bind]. rewrite Hn.
  apply (Search_loop_start L st Map [] Base Length lo hi); [done..|].
  apply walk_enough in Hrep. lia.
Qed.

(** * Checking *)

(** The first record of a list that fails the check, with its status. *)
Fixpoint first_error (check : EFI_GCD_MAP_ENTRY -> EFI_STATUS) (T : list node)
    : option (EFI_STATUS * ptr) :=
  match T with
  | [] => None
  | n :: T => if EFI_ERROR (check n.2) then Some (check n.2, n.1) else first_error check T
  end.

Lemma first_error_None check S :
  first_error check S = None <-> Forall (fun n => check n.2 = EFI_SUCCESS) S.
Proof.
  induction S as [|n S IH]; simpl; [split; auto|]. rewrite Forall_cons, <-IH.
  destruct (EFI_ERROR (check n.2)) eqn:E.
  - rewrite EFI_ERROR_true in E. naive_solver.
  - rewrite EFI_ERROR_false in E. naive_solver.
Qed.

(** Where the loops over a segment stop. *)
Lemma segment_end st Map A T q f B :
  rep st Map (A ++ T ++ B) -> last T = Some (q, f) ->
  exists n, load (links st) q = Ok n /\ ForwardLink n = first Map B.
Proof.
  intros Hrep (T' & ->)%last_Some. rewrite <-app_assoc, app_assoc in Hrep. simpl in Hrep.
  destruct (rep_node _ _ _ _ _ _ Hrep) as (n & ? & ? & _). eauto.
Qed.

Lemma segment_continue st Map A p e S B :
  rep st Map (A ++ (p, e) :: S ++ B) -> p <> first Map B.
Proof.
  intros [Hp _]%rep_notin. rewrite fmap_app in Hp. intros ->. apply Hp.
  unfold first. destruct B.*1; simpl; clear; set_solver.
Qed.

Lemma Check_loop_spec S st Map A B check q f fuel :
  rep st Map (A ++ S ++ B) -> last (A ++ S) = Some (q, f) -> (length S < fuel)%nat ->
  Check_loop fuel st check (first Map (S ++ B)) q =
  Ok (default (EFI_SUCCESS, first Map B) (first_error check S)).
Proof.
  revert A fuel. induction S as [|[p e] S IH]; intros A fuel Hrep Hlast Hf;
    (destruct fuel as [|fuel]; [simpl in Hf; lia|]); cbn [Check_loop].
  - rewrite app_nil_r in Hlast. simpl app in *.
    destruct (segment_end st Map [] A q f B Hrep Hlast) as (n & -> & Hn). cbn [mbind result_bind].
    by rewrite Hn, Z.eqb_refl.
  - assert (Hrep' : rep st Map ([] ++ (A ++ (p, e) :: S) ++ B)) by (by rewrite <-app_assoc).
    destruct (segment_end st Map [] _ q f B Hrep' Hlast) as (n & -> & Hn). cbn [mbind result_bind].
    rewrite Hn. change (first Map (((p, e) :: S) ++ B)) with p. simpl app in Hrep.
    rewrite (proj2 (Z.eqb_neq p (first Map B))) by (by eapply segment_continue).
    rewrite (proj2 (rep_mid _ _ _ p _ _ Hrep)). cbn [mbind result_bind first_error snd fst].
    destruct (EFI_ERROR (check e)); [done|].
    destruct (rep_node _ _ _ _ _ _ Hrep) as (n' & -> & Hn' & _). cbn [mbind result_bind]. rewrite Hn'.
    apply (IH (A ++ [(p, e)])); [by rewrite <-app_assoc| |simpl in Hf; lia].
    by rewrite <-app_assoc.
Qed.

(** * Converting *)

Section Convert.
Context (Verify : bool) (Max : nat).

(** A change of the fields of a record that leaves its range alone. *)
Definition field_change (change : Z -> EFI_GCD_MAP_ENTRY -> Z * EFI_GCD_MAP_ENTRY) : Prop :=
  forall a e, Signature (change a e).2 = Signature e /\
    BaseAddress (change a e).2 = BaseAddress e /\ EndAddress (change a e).2 = EndAddress e.

Context (change : Z -> EFI_GCD_MAP_ENTRY -> Z * EFI_GCD_MAP_ENTRY) (Hchange : field_change change).
Context (Base Length : Z) (Hrange : range Base Length) (Top Bottom : ptr) (Htb : Top <> Bottom).

Let lim := Base + Length.

(** The records after the conversion of the segment [T]. *)
Fixpoint converted (Attrs : Z) (T : list node) : list node :=
  match T with
  | [] => []
  | n :: T =>
      below Base Bottom n.2 ++ (n.1, (change Attrs (inside Base lim n.2)).2) ::
      above lim Top n.2 ++ converted (change Attrs (inside Base lim n.2)).1 T
  end.

Lemma used_or_spare_step st st' Map L L' N p :
  outside st st' (N ++ Map :: L.*1) -> L'.*1 ≡ₚ N ++ L.*1 ->
  used_or_spare st Map L p -> used_or_spare st' Map L' p.
Proof.
  intros Ho Hp Hu. destruct (decide (p ∈ L'.*1)) as [|Hn]; [by left|right].
  rewrite Hp in Hn. destruct Hu as [Hu|Hu]; [destruct Hn; clear -Hu; set_solver|].
  pose proof Hu as (Hin & _). eapply spare_frame; [exact Ho| | |exact Hu].
  - clear -Hn Hin. set_solver.
  - rewrite Hp. clear -Hn Hin. set_solver.
Qed.

Lemma rep_update st Map A p e e' B :
  rep st Map (A ++ (p, e) :: B) -> Signature e' = Signature e ->
  exists st', update_entry st p (fun _ => e') = Ok st' /\ rep st' Map (A ++ (p, e') :: B) /\
    outside st st' [p].
Proof.
  intros Hrep Hsig. destruct (rep_notin _ _ _ _ _ _ Hrep) as [Hp _].
  rewrite (update_entry_spec st p _ e) by (apply (rep_mid _ _ _ _ _ _ Hrep)).
  eexists. split; [done|]. destruct Hrep as [Hd HF]. split; [split|].
  - rewrite fmap_app, fmap_cons in *. done.
  - apply Forall_app in HF as [HA [[_ Hs] HB]%Forall_cons]. simpl in Hs.
    apply Forall_app; split; [|apply Forall_cons; split]; [|split|].
    + eapply holds_frame; [|exact HA]. intros x Hx. simpl. rewrite lookup_insert_ne; [done|].
      intros ->. apply Hp. clear -Hx. set_solver.
    + simpl. apply lookup_insert_eq.
    + simpl. congruence.
    + eapply holds_frame; [|exact HB]. intros x Hx. simpl. rewrite lookup_insert_ne; [done|].
      intros ->. apply Hp. clear -Hx. set_solver.
  - apply outside_set_entries; [apply outside_refl|]. intros x Hx.
    rewrite lookup_insert_ne; [done|]. intros ->. apply Hx. left.
Qed.

(** One pass of the loop. *)
Lemma Convert_step st Map A p e B q n fuel Attrs :
  rep st Map (A ++ (p, e) :: B) -> capacity Max (NULL :: (A ++ (p, e) :: B).*1) ->
  0 <= BaseAddress e -> EndAddress e < 2 ^ 64 ->
  (BaseAddress e < Base -> spare st Map (A ++ (p, e) :: B) Bottom) ->
  (lim - 1 < EndAddress e -> spare st Map (A ++ (p, e) :: B) Top) ->
  load (links st) q = Ok n -> p <> ForwardLink n ->
  exists st',
    Convert_loop Verify Max (S fuel) st change Base Length Top Bottom p q Attrs =
    Convert_loop Verify Max fuel st' change Base Length Top Bottom (first Map (above lim Top e ++ B)) q
      (change Attrs (inside Base lim e)).1 /\
    rep st' Map (A ++ below Base Bottom e ++ (p, (change Attrs (inside Base lim e)).2) ::
                 above lim Top e ++ B) /\
    outside st st' ((below Base Bottom e).*1 ++ (above lim Top e).*1 ++ Map :: (A ++ (p, e) :: B).*1).
Proof.
  intros Hrep Hcap He0 He Hsb Hst Hn Hpn. cbn [Convert_loop]. rewrite Hn. cbn [mbind result_bind].
  rewrite (proj2 (Z.eqb_neq _ _)) by done.
  rewrite (proj2 (rep_mid _ _ _ p _ _ Hrep)). cbn [mbind result_bind].
  destruct (CoreInsertGcdMapEntry_spec Verify Max st Map A p e B Base Length Top Bottom)
    as (st1 & -> & Hr1 & Ho1); [done..|]. cbn [mbind result_bind].
  fold lim in Hr1, Ho1. rewrite app_assoc in Hr1.
  rewrite (proj1 (rep_mid _ _ _ p _ _ Hr1)). cbn [deref mbind result_bind].
  destruct (change Attrs (inside Base lim e)) as [a e'] eqn:Ech.
  pose proof (Hchange Attrs (inside Base lim e)) as (Hsig & _). rewrite Ech in Hsig. simpl in Hsig.
  destruct (rep_update _ _ _ _ _ e' _ Hr1 Hsig) as (st2 & -> & Hr2 & Ho2). cbn [mbind result_bind].
  destruct (rep_node _ _ _ _ _ _ Hr2) as (n2 & -> & Hn2 & _). cbn [mbind result_bind]. rewrite Hn2.
  exists st2. split; [done|]. split; [by rewrite <-app_assoc in Hr2|].
  eapply outside_trans; [exact Ho1|exact Ho2|done|].
  rewrite fmap_app, fmap_cons. clear. set_solver.
Qed.

Lemma below_nil e z : Base <= BaseAddress e -> below Base z e = [].
Proof. intros. unfold below. by rewrite (proj2 (Z.ltb_ge _ _)). Qed.

Lemma above_nil e z : EndAddress e <= lim - 1 -> above lim z e = [].
Proof. intros. unfold above. by rewrite (proj2 (Z.ltb_ge _ _)). Qed.

Lemma above_ptrs e : (above lim Top e).*1 = if lim - 1 <? EndAddress e then [Top] else [].
Proof. unfold above. by destruct (_ <? _). Qed.

Lemma below_ptrs e : (below Base Bottom e).*1 = if BaseAddress e <? Base then [Bottom] else [].
Proof. unfold below. by destruct (_ <? _). Qed.

Lemma Convert_loop_done st Map A q f B fuel Attrs :
  rep st Map (A ++ (q, f) :: B) ->
  Convert_loop Verify Max (S fuel) st change Base Length Top Bottom (first Map B) q Attrs = Ok st.
Proof.
  intros Hrep. cbn [Convert_loop]. destruct (rep_node _ _ _ _ _ _ Hrep) as (n & -> & Hn & _).
  cbn [mbind result_bind]. by rewrite Hn, Z.eqb_refl.
Qed.

Lemma Convert_loop_spec T st Map A B q f mid hi fuel Attrs :
  rep st Map (A ++ T ++ B) -> contig mid (T ++ B) hi -> 0 <= mid -> hi <= 2 ^ 64 ->
  last (A ++ T) = Some (q, f) ->
  (forall n T', T = n :: T' -> Base <= EndAddress n.2 /\ BaseAddress f <= lim - 1) ->
  capacity Max ((if mid <? Base then [NULL; NULL] else [NULL]) ++ (A ++ T ++ B).*1) ->
  (mid < Base -> spare st Map (A ++ T ++ B) Bottom) ->
  (lim - 1 < EndAddress f -> spare st Map (A ++ T ++ B) Top) ->
  (length T < fuel)%nat ->
  exists st',
    Convert_loop Verify Max fuel st change Base Length Top Bottom (first Map (T ++ B)) q Attrs = Ok st' /\
    rep st' Map (A ++ converted Attrs T ++ B) /\
    outside st st' (Top :: Bottom :: Map :: (A ++ T ++ B).*1) /\
    (forall p, used_or_spare st Map (A ++ T ++ B) p ->
               used_or_spare st' Map (A ++ converted Attrs T ++ B) p).
Proof.
  revert st A mid fuel Attrs.
  induction T as [|[p e] T IH]; intros st A mid fuel Attrs Hrep Hc Hmid Hhi Hlast Hseg Hcap Hsb Hst Hf;
    (destruct fuel as [|fuel]; [simpl in Hf; lia|]).
  { rewrite app_nil_r in Hlast. apply last_Some in Hlast as [A0 ->]. exists st. simpl app in *.
    split; [eapply (Convert_loop_done st Map A0 q f); by rewrite <-app_assoc in Hrep|].
    split; [done|]. split; [apply outside_refl|done]. }
  assert (Hrep' : rep st Map ([] ++ (A ++ (p, e) :: T) ++ B)) by (by rewrite <-app_assoc).
  destruct (segment_end st Map [] _ q f B Hrep' Hlast) as (n & Hn & Hnf).
  change (first Map (((p, e) :: T) ++ B)) with p. simpl app in Hrep, Hcap, Hsb, Hst, Hc |- *.
  simpl in Hc. destruct Hc as (Hb & He & Hc). pose proof (contig_le _ _ _ Hc).
  destruct (Hseg _ _ eq_refl) as [Hbe Hfl]. simpl in Hbe.
  assert (Hlast' : T = [] /\ q = p /\ f = e \/ last T = Some (q, f) /\ EndAddress e <= lim - 1).
  { rewrite last_app, last_cons in Hlast. destruct (last T) as [[q' f']|] eqn:E.
    - right. injection Hlast as -> ->. split; [done|].
      destruct (contig_last _ _ _ _ _ _ Hc E). lia.
    - left. apply last_None in E. by injection Hlast as -> ->. }
  destruct (Convert_step st Map A p e (T ++ B) q n fuel Attrs) as (st1 & -> & Hr1 & Ho1); try done.
  { eapply capacity_length; [|exact Hcap]. destruct (mid <? Base); solve_length. } { lia. } { lia. }
  { rewrite Hb. done. }
  { intros Hlt. apply Hst. destruct Hlast' as [(_ & _ & ->)|[_ ?]]; [done|lia]. }
  { rewrite Hnf. by eapply segment_continue. }
  set (ch := change Attrs (inside Base lim e)) in *. cbn [converted fst snd].
  assert (Hptrs : (A ++ below Base Bottom e ++ (p, ch.2) :: above lim Top e ++ T ++ B).*1 ≡ₚ
    ((below Base Bottom e).*1 ++ (above lim Top e).*1) ++ (A ++ (p, e) :: T ++ B).*1).
  { rewrite !fmap_app, !fmap_cons, !fmap_app. simpl. solve_Permutation. }
  rewrite app_assoc in Ho1.
  assert (Ho1' : outside st st1 (Top :: Bottom :: Map :: (A ++ (p, e) :: T ++ B).*1)).
  { eapply outside_mono; [exact Ho1|]. rewrite below_ptrs, above_ptrs.
    destruct (BaseAddress e <? Base), (lim - 1 <? EndAddress e);
      generalize ((A ++ (p, e) :: T ++ B).*1); clear; set_solver. }
  assert (Hu1 : forall x, used_or_spare st Map (A ++ (p, e) :: T ++ B) x ->
    used_or_spare st1 Map (A ++ below Base Bottom e ++ (p, ch.2) :: above lim Top e ++ T ++ B) x).
  { intros x. apply used_or_spare_step with (1 := Ho1). exact Hptrs. }
  fold ch.
  destruct Hlast' as [(-> & -> & ->)|[Hl Hle]].
  - (* the last record *)
    destruct fuel as [|fuel]; [simpl in Hf; lia|]. exists st1. cbn [converted].
    assert (Heq : A ++ (below Base Bottom e ++ (p, ch.2) :: above lim Top e ++ []) ++ B =
      A ++ below Base Bottom e ++ (p, ch.2) :: above lim Top e ++ B)
      by (rewrite app_nil_r, <-app_assoc; done).
    rewrite Heq. split; [|done]. rewrite app_assoc in Hr1. by eapply Convert_loop_done.
  - rewrite above_nil in * by done. simpl app in Hr1, Hu1, Hptrs |- *.
    destruct (IH st1 (A ++ below Base Bottom e ++ [(p, ch.2)]) (EndAddress e + 1) fuel ch.1)
      as (st' & -> & Hr' & Ho' & Hu'); try lia.
    all: rewrite <-?app_assoc; simpl app; rewrite <-?app_assoc; simpl app; try done.
    { by rewrite !last_app, last_cons, Hl. }
    { intros m T' ->. simpl in Hc. destruct Hc as (? & ? & _). lia. }
    { eapply capacity_length; [|exact Hcap]. rewrite (proj2 (Z.ltb_ge (EndAddress e + 1) Base)) by lia.
      apply Permutation_length in Hptrs. rewrite length_app in Hptrs.
      rewrite !length_app. rewrite Hptrs, app_nil_r, below_ptrs, Hb.
      destruct (mid <? Base); simpl; lia. }
    { intros Hlt. eapply spare_frame; [exact Ho1| | |by apply Hst].
      - destruct (Hst Hlt) as (Hin & _). rewrite app_nil_r, below_ptrs.
        revert Hin; generalize ((A ++ (p, e) :: T ++ B).*1); destruct (BaseAddress e <? Base); clear -Htb; set_solver.
      - destruct (Hst Hlt) as (Hin & _). rewrite Hptrs, app_nil_r, below_ptrs.
        revert Hin; generalize ((A ++ (p, e) :: T ++ B).*1); destruct (BaseAddress e <? Base); clear -Htb; set_solver. }
    { simpl in Hf. lia. }
    exists st'. split; [done|]. rewrite <-!app_assoc in Hr', Ho', Hu'. simpl app in *.
    split; [done|]. split; [|intros x Hx; apply Hu1, Hu' in Hx; by rewrite <-!app_assoc in Hx].
    eapply outside_trans; [exact Ho1'|exact Ho'|done|].
    rewrite Hptrs, app_nil_r, below_ptrs. generalize ((A ++ (p, e) :: T ++ B).*1). destruct (BaseAddress e <? Base); clear; set_solver.
Qed.
End Convert.

(** The map after a conversion. *)
Section Effect.
Context (change : Z -> EFI_GCD_MAP_ENTRY -> Z * EFI_GCD_MAP_ENTRY) (Hchange : field_change change).
Context (Base Length : Z) (Hlen : 0 < Length) (Top Bottom : ptr).

Let lim := Base + Length.
Let Hlim : lim = Base + Length := eq_refl.

Definition in_range (x : Z) : bool := (Base <=? x) && (x <? Base + Length).

Notation conv := (converted change Base Length Top Bottom).

(** [T] is the segment of the range, or comes after it. *)
Definition segment_or_after (T : list node) (mid : Z) : Prop :=
  match head T, last T with
  | Some n, Some m => Base <= EndAddress n.2 /\ BaseAddress m.2 <= lim - 1 <= EndAddress m.2
  | _, _ => lim <= mid
  end.

(** One record: its pieces cover it, and only the inner one is changed. *)
Definition pieces (a : Z) (p : ptr) (e : EFI_GCD_MAP_ENTRY) : list node :=
  below Base Bottom e ++ (p, (change a (inside Base lim e)).2) :: above lim Top e.

Lemma converted_cons a p e T B :
  conv a ((p, e) :: T) ++ B = pieces a p e ++ conv (change a (inside Base lim e)).1 T ++ B.
Proof.
  cbn [converted fst snd]. unfold pieces. fold lim. rewrite <-!app_assoc. simpl.
  by rewrite <-!app_assoc.
Qed.

Lemma pieces_contig a p e B hi :
  BaseAddress e <= EndAddress e -> Base <= EndAddress e -> BaseAddress e <= lim - 1 ->
  contig (EndAddress e + 1) B hi -> contig (BaseAddress e) (pieces a p e ++ B) hi.
Proof.
  intros He H1 H2 Hc. destruct (Hchange a (inside Base lim e)) as (_ & HB & HE).
  unfold pieces, below, above.
  destruct (Z.ltb_spec (BaseAddress e) Base), (Z.ltb_spec (lim - 1) (EndAddress e));
    simpl; rewrite HB, HE; simpl; (repeat split; [lia..|]);
    match goal with |- contig ?m B hi => replace m with (EndAddress e + 1) by lia end; done.
Qed.

(** What [segment_or_after] says about the first record, and about the rest. *)
Lemma segment_step p e T B mid hi :
  contig mid ((p, e) :: T ++ B) hi -> segment_or_after ((p, e) :: T) mid ->
  BaseAddress e <= lim - 1 /\ Base <= EndAddress e /\ segment_or_after T (EndAddress e + 1).
Proof.
  unfold segment_or_after. intros (Hb & He & Hc) Hseg. cbn [head snd] in *. rewrite last_cons in Hseg.
  destruct (last T) as [[q f]|] eqn:E; simpl in Hseg.
  - destruct (contig_last (EndAddress e + 1) T q f B hi Hc E).
    destruct T as [|[p' e'] T]; [done|]. simpl in Hc |- *. lia.
  - apply last_None in E as ->. simpl in *. lia.
Qed.

Lemma converted_contig T B mid hi a :
  contig mid (T ++ B) hi -> segment_or_after T mid -> contig mid (conv a T ++ B) hi.
Proof.
  revert mid a. induction T as [|[p e] T IH]; intros mid a Hc Hseg; [done|].
  destruct (segment_step p e T B mid hi Hc Hseg) as (? & ? & Hseg').
  simpl in Hc. destruct Hc as (Hb & He & Hc). rewrite converted_cons, <-Hb.
  apply pieces_contig; [lia|lia|lia|]. by apply IH.
Qed.

(** What the pieces of a record say. *)
Lemma pieces_info a p e x :
  BaseAddress e <= EndAddress e -> Base <= EndAddress e -> BaseAddress e <= lim - 1 ->
  info_at (pieces a p e) x =
    if covers e x then Some (if in_range x then info (change a (inside Base lim e)).2 else info e) else None.
Proof.
  intros He H1 H2. destruct (Hchange a (inside Base lim e)) as (_ & HB & HE).
  unfold pieces, below, above, in_range, covers.
  destruct (Z.ltb_spec (BaseAddress e) Base), (Z.ltb_spec (lim - 1) (EndAddress e));
    simpl; unfold covers; simpl; rewrite HB, HE; simpl;
    repeat match goal with |- context [?a <=? ?b] => destruct (Z.leb_spec a b) end;
    repeat match goal with |- context [?a <? ?b] => destruct (Z.ltb_spec a b) end;
    simpl; try (by eauto); unfold lim in *; lia.
Qed.

(** The addresses after the segment are not in the range. *)
Lemma after_range B mid hi x : contig mid B hi -> lim <= mid -> info_at B x <> None -> in_range x = false.
Proof.
  intros Hc Hm Hx. unfold in_range. fold lim. destruct (Z.leb_spec Base x), (Z.ltb_spec x lim); simpl; try done.
  destruct Hx. apply (info_at_None _ _ _ x Hc). lia.
Qed.

Section Exact.
(** The change as a function of the accumulator and of the fields. *)
Context (step : Z -> Z * Z * Z * Z * Z * Z -> Z * (Z * Z * Z * Z * Z * Z)).
Context (Hstep : forall a e, (change a e).1 = (step a (info e)).1 /\ info (change a e).2 = (step a (info e)).2).

(** The accumulator at the record that holds [x]: the records from the base of the
    range on have been passed. *)
Fixpoint accumulator (a : Z) (L : list node) (x : Z) : Z :=
  match L with
  | [] => a
  | n :: L => if covers n.2 x then a else
              accumulator (if Base <=? EndAddress n.2 then (step a (info n.2)).1 else a) L x
  end.

(** What the converted map says at [x]. *)
Lemma converted_exact T B mid hi x a :
  contig mid (T ++ B) hi -> segment_or_after T mid ->
  info_at (conv a T ++ B) x =
    (fun i => if in_range x then (step (accumulator a (T ++ B) x) i).2 else i) <$> info_at (T ++ B) x.
Proof.
  revert mid a. induction T as [|[p e] T IH]; intros mid a Hc Hseg.
  - simpl in *. destruct (info_at B x) as [i|] eqn:E; [|done]. simpl. by rewrite (after_range B mid hi x Hc Hseg) by congruence.
  - destruct (segment_step p e T B mid hi Hc Hseg) as (? & ? & Hseg').
    simpl in Hc. destruct Hc as (Hb & He & Hc).
    rewrite converted_cons, (info_at_app (pieces a p e)). simpl app. cbn [info_at snd accumulator].
    rewrite (pieces_info a p e x) by lia. destruct (Hstep a (inside Base lim e)) as [H1 H2].
    destruct (covers e x).
    + simpl. by rewrite H2.
    + rewrite (IH (EndAddress e + 1)), (proj2 (Z.leb_le Base (EndAddress e))) by done. by rewrite H1.
Qed.

(** The records before the range do not count. *)
Lemma accumulator_app a A B lo mid x :
  contig lo A mid -> mid <= Base -> Base <= x -> accumulator a (A ++ B) x = accumulator a B x.
Proof.
  revert lo. induction A as [|n A IH]; intros lo Hc Hm Hx; [done|]. destruct Hc as (Hb & He & Hc).
  pose proof (contig_le _ _ _ Hc). cbn [app accumulator]. rewrite (proj2 (covers_false n.2 x)) by lia.
  rewrite (proj2 (Z.leb_gt Base (EndAddress n.2))) by lia. by apply (IH (EndAddress n.2 + 1)).
Qed.
End Exact.

End Effect.

(** * Converting a segment and cleaning up *)

(** The links of the converted segment, with what was split off on either side. *)
Lemma converted_last change Base Length Top Bottom a T q f :
  last T = Some (q, f) ->
  exists X f' Y, converted change Base Length Top Bottom a T = X ++ (q, f') :: Y.
Proof.
  revert a. induction T as [|[p e] T IH]; intros a Hlast; [done|]. rewrite last_cons in Hlast.
  cbn [converted fst snd]. destruct (last T) as [[q' f']|] eqn:E.
  - injection Hlast as -> ->. destruct (IH (change a (inside Base (Base + Length) e)).1 eq_refl)
      as (X & f' & Y & ->). do 3 eexists. rewrite app_comm_cons, !app_assoc. done.
  - injection Hlast as -> ->. eauto.
Qed.

Lemma converted_split change Base Length Top Bottom a T s e q f :
  head T = Some (s, e) -> last T = Some (q, f) ->
  exists X T' Y e' f', converted change Base Length Top Bottom a T = X ++ T' ++ Y /\
    head T' = Some (s, e') /\ last T' = Some (q, f').
Proof.
  destruct T as [|[p e0] T]; intros Hh Hl; [done|]. injection Hh as -> ->.
  rewrite last_cons in Hl. cbn [converted fst snd]. destruct (last T) as [[q' f']|] eqn:E.
  - injection Hl as -> ->.
    destruct (converted_last change Base Length Top Bottom (change a (inside Base (Base + Length) e)).1
      T q f E) as (X & f' & Y & ->).
    eexists _, ((s, _) :: above (Base + Length) Top e ++ X ++ [(q, f')]), Y, _, f'.
    split; [|split; [done|]].
    + f_equal. simpl. f_equal. by rewrite <-!app_assoc.
    + by rewrite app_comm_cons, app_assoc, last_snoc.
  - injection Hl as -> ->. apply last_None in E as ->.
    eexists _, [(q, _)], (above (Base + Length) Top f), _, _. split; [|by split].
    cbn [converted]. by rewrite app_nil_r.
Qed.

Lemma converted_ptrs change Base Length Top Bottom a T :
  (converted change Base Length Top Bottom a T).*1 ⊆ Top :: Bottom :: T.*1.
Proof.
  revert a. induction T as [|[p e] T IH]; intros a; [set_solver|]. cbn [converted fst snd].
  rewrite !fmap_app, !fmap_cons, !fmap_app, below_ptrs, above_ptrs. simpl.
  specialize (IH (change a (inside Base (Base + Length) e)).1). revert IH.
  generalize ((converted change Base Length Top Bottom
    (change a (inside Base (Base + Length) e)).1 T).*1).
  generalize (T.*1). intros l1 l2 Hs. destruct (BaseAddress e <? Base), (_ <? EndAddress e); set_solver.
Qed.

(** Lists of distinct nodes taken from [x :: y :: L] have at most two more. *)
Lemma rep_length st Map L' (l : list ptr) :
  rep st Map L' -> L'.*1 ⊆ l -> (length L' <= length l)%nat.
Proof.
  intros Hnd%rep_NoDup Hs. apply NoDup_cons in Hnd as [_ Hnd].
  rewrite <-(length_fmap fst). apply submseteq_length. by apply NoDup_submseteq.
Qed.

Lemma segment_or_after_intro T s q Base Length :
  segment T s q Base (Base + Length) -> segment_or_after Base Length T Base.
Proof.
  intros [(e & He & ?) (f & Hf & ?)]. unfold segment_or_after. rewrite He, Hf. simpl. lia.
Qed.

Lemma convert_and_cleanup Verify Max change Base Length Top Bottom st Map A T B s q hi a :
  field_change change -> range Base Length -> Top <> Bottom ->
  rep st Map (A ++ T ++ B) -> contig 0 (A ++ T ++ B) hi -> hi <= 2 ^ 64 ->
  segment T s q Base (Base + Length) -> capacity Max (NULL :: NULL :: (A ++ T ++ B).*1) ->
  spare st Map (A ++ T ++ B) Top -> spare st Map (A ++ T ++ B) Bottom ->
  exists st1 st2 L',
    Convert_loop Verify Max (walk_bound st) st change Base Length Top Bottom s q a = Ok st1 /\
    CoreCleanupGcdMapEntry Max st1 Top Bottom s q Map = Ok (EFI_SUCCESS, st2) /\
    rep st2 Map L' /\ outside st st2 (Top :: Bottom :: Map :: (A ++ T ++ B).*1) /\
    contig 0 L' hi /\ L'.*1 ⊆ Top :: Bottom :: (A ++ T ++ B).*1 /\
    forall x, info_at L' x = info_at (A ++ converted change Base Length Top Bottom a T ++ B) x.
Proof.
  intros Hch Hr Htb Hrep Hc Hhi Hseg Hcap Hst Hsb. pose proof Hr as (_ & Hlen & _).
  pose proof (segment_or_after_intro _ _ _ _ _ Hseg) as Hsoa.
  destruct Hseg as [(e & Hh & He) (f & Hl & Hf)].
  pose proof Hc as (mid & HA & HTB)%contig_app. pose proof (contig_le _ _ _ HA).
  assert (Hs : first Map (T ++ B) = s) by (destruct T; [done|]; by injection Hh as ->).
  destruct (Convert_loop_spec Verify Max change Hch Base Length Hr Top Bottom Htb T st Map A B q f mid hi
    (walk_bound st) a) as (st1 & Hcv & Hr1 & Ho1 & Hu1); try done.
  { by rewrite last_app, Hl. } { intros n T' ->. injection Hh as ->. simpl. lia. }
  { eapply capacity_length; [|exact Hcap]. destruct (mid <? Base); solve_length. }
  { apply walk_enough in Hrep. rewrite !length_app in Hrep. lia. }
  destruct (converted_split change Base Length Top Bottom a T s e q f Hh Hl)
    as (X & T' & Y & e' & f' & Heq & Hh' & Hl').
  assert (Hc1 : contig 0 (A ++ converted change Base Length Top Bottom a T ++ B) hi).
  { apply contig_app. exists mid. split; [done|]. apply converted_contig; try done.
    unfold segment_or_after in *. by rewrite Hh, Hl in *. }
  assert (Hsub : (A ++ converted change Base Length Top Bottom a T ++ B).*1 ⊆
    Top :: Bottom :: (A ++ T ++ B).*1).
  { pose proof (converted_ptrs change Base Length Top Bottom a T) as Hp. rewrite !fmap_app.
    revert Hp. generalize ((converted change Base Length Top Bottom a T).*1). clear. set_solver. }
  pose proof (rep_length _ _ _ _ Hr1 Hsub) as Hle.
  assert (Hassoc : A ++ converted change Base Length Top Bottom a T ++ B = (A ++ X) ++ T' ++ (Y ++ B)).
  { rewrite Heq. by rewrite <-!app_assoc. }
  assert (Hcap1 : capacity Max (A ++ converted change Base Length Top Bottom a T ++ B).*1).
  { eapply capacity_length; [|exact Hcap]. rewrite length_fmap. simpl in Hle |- *. done. }
  rewrite Hassoc in Hr1, Hc1, Hu1, Hsub, Hcap1.
  destruct (CoreCleanupGcdMapEntry_spec Max st1 Map (A ++ X) T' (Y ++ B) Top Bottom s q f' 0 hi)
    as (st2 & L' & Hcl & Hr2 & Ho2 & Hm2 & Hs2 & _); try done.
  { destruct T'; [done|]. by injection Hh' as ->. }
  { apply Hu1. by right. } { apply Hu1. by right. }
  exists st1, st2, L'. rewrite Hs in Hcv. split; [done|]. split; [done|]. split; [done|]. split.
  - eapply outside_trans; [exact Ho1|exact Ho2|done|]. clear -Hsub.
    revert Hsub. generalize (((A ++ X) ++ T' ++ Y ++ B).*1), ((A ++ T ++ B).*1). set_solver.
  - split; [apply Hm2|]. split; [by etransitivity|]. intros x. rewrite Hassoc. apply Hm2.
Qed.
