(* ===== verification/GcdSpace.v ===== *)
(** The GCD services, proved on what the maps say about each address.

    [gcd_wf hiM hiI st LM LI]: between two calls, the memory map holds the
    records [LM] and the I/O map the records [LI], each covering its address
    space ([0 .. hiM - 1] and [0 .. hiI - 1]) without gap or overlap.  A service
    changes [info_at] on its range, as its documentation says, and nowhere
    else; when it returns an error, nothing changes. *)

From S2P Require Import Prelude LinkedList Gcd GcdMap.

(** * Two maps in one store *)

Record maps (st : GCD) (Map : ptr) (L : list node) (Map2 : ptr) (L2 : list node) : Prop := {
  maps_rep : rep st Map L;
  maps_rep2 : rep st Map2 L2;
  maps_disjoint : forall x, x ∈ Map :: L.*1 -> x ∉ Map2 :: L2.*1 }.

Lemma maps_sym st Map L Map2 L2 : maps st Map L Map2 L2 -> maps st Map2 L2 Map L.
Proof. intros [H1 H2 H3]. split; [done..|]. intros x Hx Hx'. by apply (H3 x). Qed.

Lemma maps_frame st st' ns Map L Map2 L2 :
  outside st st' ns -> (forall x, x ∈ ns -> x ∉ Map :: L.*1 /\ x ∉ Map2 :: L2.*1) ->
  maps st Map L Map2 L2 -> maps st' Map L Map2 L2.
Proof.
  intros Ho Hns [H1 H2 H3]. split; [| |done].
  - eapply rep_frame; [exact Ho| |exact H1]. intros x Hx Hin. by destruct (Hns x Hin).
  - eapply rep_frame; [exact Ho| |exact H2]. intros x Hx Hin. by destruct (Hns x Hin).
Qed.

Lemma rep_dom st Map L p : rep st Map L -> p ∉ dom (links st) -> p ∉ Map :: L.*1.
Proof.
  intros [Hd _] Hp Hin. apply Hp, elem_of_dom. by eapply dlist_in.
Qed.

Section Allocation.
Context `{PoolAllocator}.

Lemma AllocateZeroPool_spec st p st' :
  AllocateZeroPool st = Some (p, st') ->
  p ∉ dom (links st) /\ p <> NULL /\ outside st st' [p] /\ is_Some (links st' !! p) /\
  entries st' !! p = Some zero_entry /\ dom (links st') = {[p]} ∪ dom (links st).
Proof.
  unfold AllocateZeroPool. destruct (AllocatePool (dom (links st))) as [q|] eqn:E; [|done].
  intros [= -> <-]. destruct (AllocatePool_fresh _ _ E) as [Hf Hn]. simpl.
  split; [done|]. split; [done|]. split; [|split; [|split]].
  - apply outside_set_links; [apply outside_set_entries; [apply outside_refl|]|];
      intros x Hx; simpl; rewrite lookup_insert_ne; try done; intros ->; apply Hx; left.
  - rewrite lookup_insert_eq. eauto.
  - apply lookup_insert_eq.
  - apply dom_insert_L.
Qed.

Lemma CoreAllocateGcdMapEntry_spec st Map L Map2 L2 :
  maps st Map L Map2 L2 ->
  exists s t b st', CoreAllocateGcdMapEntry st = (s, t, b, st') /\ maps st' Map L Map2 L2 /\
    outside st st' [t; b] /\
    ((s = EFI_OUT_OF_RESOURCES) \/
     (s = EFI_SUCCESS /\ t <> b /\ t <> NULL /\ b <> NULL /\
      spare st' Map L t /\ spare st' Map L b /\ t ∉ Map2 :: L2.*1 /\ b ∉ Map2 :: L2.*1)).
Proof.
  intros Hm. pose proof Hm as [Hr1 Hr2 _]. unfold CoreAllocateGcdMapEntry.
  destruct (AllocateZeroPool st) as [[t st1]|] eqn:E1.
  2: { do 4 eexists. split; [done|]. split; [done|]. split; [apply outside_refl|by left]. }
  destruct (AllocateZeroPool_spec _ _ _ E1) as (Ht & Htn & Ho1 & Hl1 & He1 & Hdom).
  pose proof (rep_dom _ _ _ _ Hr1 Ht) as Ht1. pose proof (rep_dom _ _ _ _ Hr2 Ht) as Ht2.
  assert (Hm1 : maps st1 Map L Map2 L2).
  { eapply maps_frame; [exact Ho1| |done]. intros x Hx. by apply list_elem_of_singleton in Hx as ->. }
  destruct (AllocateZeroPool st1) as [[b st2]|] eqn:E2.
  - destruct (AllocateZeroPool_spec _ _ _ E2) as (Hb & Hbn & Ho2 & Hl2 & He2 & _).
    rewrite Hdom in Hb. assert (Htb : t <> b) by set_solver.
    assert (Hb0 : b ∉ dom (links st)) by set_solver.
    pose proof (rep_dom _ _ _ _ Hr1 Hb0) as Hb1. pose proof (rep_dom _ _ _ _ Hr2 Hb0) as Hb2.
    do 4 eexists. split; [done|]. split.
    { eapply maps_frame; [exact Ho2| |done]. intros x Hx. by apply list_elem_of_singleton in Hx as ->. }
    split; [eapply outside_trans; [exact Ho1|exact Ho2|..]; clear; set_solver|].
    right. repeat split; try done.
    + destruct Ho2 as (Ho2 & _). rewrite Ho2; [done|]. by rewrite list_elem_of_singleton.
    + exists zero_entry. split; [|done]. destruct Ho2 as (_ & Ho2 & _).
      rewrite Ho2; [done|]. by rewrite list_elem_of_singleton.
    + by exists zero_entry.
  - do 4 eexists. split; [done|]. split; [|split; [|by left]].
    + eapply maps_frame; [|  |exact Hm1].
      * instantiate (1 := [t]). repeat split; try done; intros x Hx; simpl;
          rewrite lookup_delete_ne; try done; intros ->; apply Hx; left.
      * intros x Hx. by apply list_elem_of_singleton in Hx as ->.
    + eapply outside_trans; [exact Ho1| |clear; set_solver|reflexivity].
      repeat split; try done; intros x Hx; simpl;
        rewrite lookup_delete_ne; try done; intros ->; apply Hx; left.
Qed.
End Allocation.

(** * Records and addresses *)

(** A record with given fields, for the checks that only read those. *)
Definition entry_of (i : Z * Z * Z * Z * Z * Z) : EFI_GCD_MAP_ENTRY :=
  let '(c, a, m, io, im, d) := i in MkEntry EFI_GCD_MAP_SIGNATURE 0 0 c a m io im d.

(** [P] holds of what the map says about every address of the range. *)
Definition throughout (L : list node) (Base Length : Z) (P : Z * Z * Z * Z * Z * Z -> Prop) : Prop :=
  forall x i, in_range Base Length x = true -> info_at L x = Some i -> P i.

Lemma in_range_true Base Length x : in_range Base Length x = true <-> Base <= x < Base + Length.
Proof. unfold in_range. bool_to_prop. lia. Qed.

Lemma info_at_elem L x i : info_at L x = Some i -> exists n, n ∈ L /\ i = info n.2.
Proof.
  induction L as [|n L IH]; simpl; [done|]. destruct (covers n.2 x).
  - intros [= <-]. exists n. split; [left|done].
  - intros (m & ? & ?)%IH. exists m. split; [by right|done].
Qed.

Section Segments.
Context (A T B : list node) (s q : ptr) (Base Length hi : Z).
Context (Hc : contig 0 (A ++ T ++ B) hi) (Hseg : segment T s q Base (Base + Length)) (Hlen : 0 < Length).

(** Every record of the segment holds an address of the range, ... *)
Lemma segment_address n :
  n ∈ T -> exists x, in_range Base Length x = true /\ info_at (A ++ T ++ B) x = Some (info n.2).
Proof.
  intros (T1 & T2 & ->)%list_elem_of_split.
  destruct Hseg as [(e & Hh & He) (f & Hl & Hf)].
  assert (Hfe : EndAddress e <= EndAddress n.2).
  { apply contig_app in Hc as (mid & _ & HT). destruct T1 as [|m T1].
    - injection Hh as ->. simpl. lia.
    - injection Hh as ->. simpl in HT. destruct HT as (_ & _ & HT).
      rewrite <-app_assoc in HT. apply contig_app in HT as (mid' & ?%contig_le & ? & ? & _). simpl in *. lia. }
  assert (Hnf : BaseAddress n.2 <= BaseAddress f).
  { rewrite app_assoc in Hc. apply contig_app in Hc as (mid & HT & _).
    rewrite app_assoc in HT. apply contig_app in HT as (mid' & _ & HT).
    rewrite last_app in Hl. destruct T2 as [|m T2 _] using rev_ind.
    - injection Hl as ->. simpl. lia.
    - rewrite last_cons, last_snoc in Hl. injection Hl as ->. simpl in HT.
      destruct HT as (? & ? & HT). apply contig_app in HT as (mid2 & ?%contig_le & ? & _). simpl in *. lia. }
  assert (Hn : BaseAddress n.2 <= EndAddress n.2).
  { rewrite <-app_assoc in Hc. apply contig_app in Hc as (? & _ & HT).
    apply contig_app in HT as (? & _ & ? & ? & _). lia. }
  exists (Z.max Base (BaseAddress n.2)). split; [apply in_range_true; lia|].
  replace (A ++ (T1 ++ n :: T2) ++ B) with ((A ++ T1) ++ n :: (T2 ++ B)) in Hc |- *
    by (by rewrite <-!app_assoc).
  eapply info_at_in; [exact Hc|]. apply covers_true. lia.
Qed.

(** ... and every address of the range is in a record of the segment. *)
Lemma segment_forall P : Forall (fun n => P (info n.2)) T <-> throughout (A ++ T ++ B) Base Length P.
Proof.
  split.
  - intros HF x i Hx%in_range_true Hi. destruct Hseg as [(e & Hh & He) (f & Hl & Hf)].
    rewrite info_at_app in Hi. pose proof Hc as (mid & HA & HTB)%contig_app.
    assert (BaseAddress e = mid) by (destruct T as [|? ?]; [done|]; injection Hh as ->; by destruct HTB).
    rewrite (proj2 (info_at_None _ _ _ x HA)) in Hi by lia. rewrite info_at_app in Hi.
    destruct (info_at T x) as [j|] eqn:E.
    + injection Hi as ->. apply info_at_elem in E as (n & Hn & ->).
      rewrite Forall_forall in HF. by apply HF.
    + pose proof HTB as (mid2 & HT & HB)%contig_app.
      apply last_Some in Hl as [T' HT']. subst T. apply contig_app in HT as (mid3 & ? & ? & ? & HT).
      simpl in HT. rewrite (proj2 (info_at_None _ _ _ x HB)) in Hi; [done|]. simpl in *. lia.
  - intros Ht. rewrite Forall_forall. intros n Hn. destruct (segment_address n Hn) as (x & Hx & Hi). eauto.
Qed.
End Segments.

(** * Converting a range: the specification *)

(** The range is made of whole pages. *)
Definition whole_pages (Base Length : Z) : Prop := Base mod 2 ^ 12 = 0 /\ Length mod 2 ^ 12 = 0.

#[export] Instance whole_pages_dec Base Length : Decision (whole_pages Base Length).
Proof. unfold whole_pages. apply _. Defined.

(** What an operation requires at one address, given what the map says there:
    capabilities [c], attributes [a], types [m] and [io], the owner [im]. *)
Definition check_info (Operation Base Length Caps Attrs : Z) (i : Z * Z * Z * Z * Z * Z) : EFI_STATUS :=
  let '(c, a, m, io, im, _) := i in
  if decide (Operation = GCD_ADD_MEMORY_OPERATION) then
    if decide (m = EfiGcdMemoryTypeNonExistent /\ im = NULL) then EFI_SUCCESS else EFI_ACCESS_DENIED
  else if decide (Operation = GCD_ADD_IO_OPERATION) then
    if decide (io = EfiGcdIoTypeNonExistent /\ im = NULL) then EFI_SUCCESS else EFI_ACCESS_DENIED
  else if decide (Operation = GCD_FREE_MEMORY_OPERATION \/ Operation = GCD_FREE_IO_OPERATION) then
    if decide (im <> NULL) then EFI_SUCCESS else EFI_NOT_FOUND
  else if decide (Operation = GCD_REMOVE_MEMORY_OPERATION \/ Operation = GCD_REMOVE_IO_OPERATION) then
    if decide (Operation = GCD_REMOVE_MEMORY_OPERATION /\ m = EfiGcdMemoryTypeNonExistent \/
               Operation = GCD_REMOVE_IO_OPERATION /\ io = EfiGcdIoTypeNonExistent) then EFI_NOT_FOUND
    else if decide (im = NULL) then EFI_SUCCESS else EFI_ACCESS_DENIED
  else if decide (Operation = GCD_SET_ATTRIBUTES_MEMORY_OPERATION) then
    if decide (Z.land Attrs EFI_MEMORY_RUNTIME <> 0 /\ ~ whole_pages Base Length) then EFI_INVALID_PARAMETER
    else if decide (Z.ldiff Attrs c = 0) then EFI_SUCCESS else EFI_UNSUPPORTED
  else if decide (Operation = GCD_SET_CAPABILITIES_MEMORY_OPERATION) then
    if decide (~ whole_pages Base Length) then EFI_INVALID_PARAMETER
    else if decide (Z.ldiff a Caps = 0) then EFI_SUCCESS else EFI_UNSUPPORTED
  else EFI_SUCCESS.

(** The attributes that the CPU protocol handles. *)
Definition CPU_ATTRIBUTES : Z := Z.lor EXCLUSIVE_MEMORY_ATTRIBUTES NONEXCLUSIVE_MEMORY_ATTRIBUTES.

(** What an operation changes at one address.  Attributes without CPU attributes
    are added to the CPU attributes that were [Gathered] in the range. *)
Definition convert_info (Operation MemoryType IoType Caps Attrs Gathered : Z)
    (i : Z * Z * Z * Z * Z * Z) : Z * Z * Z * Z * Z * Z :=
  let '(c, a, m, io, im, d) := i in
  if Operation =? GCD_ADD_MEMORY_OPERATION then
    (Z.lor (Z.lor Caps EFI_MEMORY_RUNTIME)
       (if MemoryType =? EfiGcdMemoryTypeMemoryMappedIo then EFI_MEMORY_PORT_IO else 0),
     a, MemoryType, io, im, d)
  else if Operation =? GCD_ADD_IO_OPERATION then (c, a, m, IoType, im, d)
  else if (Operation =? GCD_FREE_MEMORY_OPERATION) || (Operation =? GCD_FREE_IO_OPERATION) then
    (c, a, m, io, NULL, NULL)
  else if Operation =? GCD_REMOVE_MEMORY_OPERATION then
    (0, a, EfiGcdMemoryTypeNonExistent, io, im, d)
  else if Operation =? GCD_REMOVE_IO_OPERATION then (c, a, m, EfiGcdIoTypeNonExistent, im, d)
  else if Operation =? GCD_SET_ATTRIBUTES_MEMORY_OPERATION then
    (c, if ConverToCpuArchAttributes Attrs =? 0 then Z.lor Attrs (Z.land Gathered CPU_ATTRIBUTES) else Attrs,
     m, io, im, d)
  else if Operation =? GCD_SET_CAPABILITIES_MEMORY_OPERATION then (Caps, a, m, io, im, d)
  else i.

(** The CPU attributes that an operation sets through the CPU protocol. *)
Definition cpu_attributes (Operation Attrs : Z) : Z :=
  if Operation =? GCD_SET_ATTRIBUTES_MEMORY_OPERATION then ConverToCpuArchAttributes Attrs else 0.

Definition cpu_status (gCpu : option (Z -> Z -> Z -> EFI_STATUS)) (Operation Base Length Attrs : Z)
    : EFI_STATUS :=
  if cpu_attributes Operation Attrs =? 0 then EFI_SUCCESS else
  match gCpu with
  | None => EFI_NOT_AVAILABLE_YET
  | Some SetMem => SetMem Base Length (cpu_attributes Operation Attrs)
  end.

(** The attributes of the records of a range, from its base up to the record that
    holds [x]: all of them are added at [x], not those of this record alone. *)
Definition gathered (L : list node) (Base x : Z) : Z :=
  foldr (fun n k => if (Base <=? EndAddress n.2) && (BaseAddress n.2 <=? x)
                    then Z.lor (Attributes n.2) k else k) 0 L.

(** [L'] says at the addresses [x] of the range what [f x] makes of what [L] says,
    and the same elsewhere. *)
Definition converts (L L' : list node) (Base Length : Z)
    (f : Z -> Z * Z * Z * Z * Z * Z -> Z * Z * Z * Z * Z * Z) : Prop :=
  forall x, info_at L' x = (fun i => if in_range Base Length x then f x i else i) <$> info_at L x.

(** [L'] is [L] with the addresses of the range changed by [R]. *)
Definition changed (Base Length : Z) (R : Z * Z * Z * Z * Z * Z -> Z * Z * Z * Z * Z * Z -> Prop)
    (x : Z) (o o' : option (Z * Z * Z * Z * Z * Z)) : Prop :=
  match o with
  | None => o' = None
  | Some i => exists i', o' = Some i' /\ if in_range Base Length x then R i i' else i' = i
  end.

Definition updated (L L' : list node) (Base Length : Z)
    (R : Z * Z * Z * Z * Z * Z -> Z * Z * Z * Z * Z * Z -> Prop) : Prop :=
  forall x, changed Base Length R x (info_at L x) (info_at L' x).

Lemma converts_updated L L' Base Length f (R : Z * Z * Z * Z * Z * Z -> Z * Z * Z * Z * Z * Z -> Prop) :
  converts L L' Base Length f -> (forall x i, R i (f x i)) -> updated L L' Base Length R.
Proof.
  intros Hc HR x. rewrite (Hc x). destruct (info_at L x) as [i|]; [|done]. eexists. split; [done|].
  by destruct (in_range Base Length x).
Qed.

Lemma page_mask_mod x : Z.land x EFI_PAGE_MASK = x mod 2 ^ 12.
Proof. change EFI_PAGE_MASK with (Z.ones 12). by apply Z.land_ones. Qed.

(** [(Available & Wanted) == Wanted]. *)
Lemma subset_mask Available Wanted : (Z.land Available Wanted =? Wanted) = bool_decide (Z.ldiff Wanted Available = 0).
Proof.
  apply eq_true_iff_eq. rewrite Z.eqb_eq, bool_decide_eq_true.
  split; intros H; apply Z.bits_inj'; intros i Hi;
    pose proof (f_equal (fun x => Z.testbit x i) H) as Hb; cbv beta in Hb;
    rewrite ?Z.land_spec, ?Z.ldiff_spec, ?Z.bits_0 in *;
    by destruct (Z.testbit Available i), (Z.testbit Wanted i).
Qed.

Lemma check_entry_of Operation e Base Length Caps Attrs :
  ConvertCheckEntry Operation e Base Length Caps Attrs =
  check_info Operation Base Length Caps Attrs (info e).
Proof.
  unfold ConvertCheckEntry, check_info, info, whole_pages. rewrite !subset_mask, !page_mask_mod.
  assert (GCD_REMOVE_MEMORY_OPERATION <> GCD_REMOVE_IO_OPERATION) by done.
  repeat match goal with
  | |- (if ?b then _ else _) = _ => destruct b eqn:?
  | |- _ = (if ?b then _ else _) => destruct b
  end; try done; exfalso; bool_to_prop; intuition congruence.
Qed.

Lemma ConvertEntry_field_change Operation MemoryType IoType Caps Cpu :
  field_change (ConvertEntry Operation MemoryType IoType Caps Cpu).
Proof.
  intros a e. unfold ConvertEntry.
  repeat match goal with |- context [if ?b then _ else _] => destruct b end; by destruct e.
Qed.

(** The [switch] on the fields of a record, with its accumulator. *)
Definition convert_step (Operation MemoryType IoType Caps Attrs a : Z) (i : Z * Z * Z * Z * Z * Z)
    : Z * (Z * Z * Z * Z * Z * Z) :=
  let '(c, at', m, io, im, d) := i in
  if Operation =? GCD_SET_ATTRIBUTES_MEMORY_OPERATION then
    let a := if ConverToCpuArchAttributes Attrs =? 0 then Z.lor a (Z.land at' CPU_ATTRIBUTES) else a in
    (a, (c, a, m, io, im, d))
  else (a, convert_info Operation MemoryType IoType Caps Attrs 0 i).

Lemma ConvertEntry_step Operation MemoryType IoType Caps Attrs a e :
  (ConvertEntry Operation MemoryType IoType Caps (cpu_attributes Operation Attrs) a e).1 =
    (convert_step Operation MemoryType IoType Caps Attrs a (info e)).1 /\
  info (ConvertEntry Operation MemoryType IoType Caps (cpu_attributes Operation Attrs) a e).2 =
    (convert_step Operation MemoryType IoType Caps Attrs a (info e)).2.
Proof.
  unfold ConvertEntry, convert_step, convert_info, cpu_attributes, info.
  destruct (Z.eqb_spec Operation GCD_SET_ATTRIBUTES_MEMORY_OPERATION) as [->|Hop].
  - change (GCD_SET_ATTRIBUTES_MEMORY_OPERATION =? ?x) with false. cbn [orb]. done.
  - destruct (Operation =? GCD_ADD_MEMORY_OPERATION).
    { by destruct (MemoryType =? EfiGcdMemoryTypeMemoryMappedIo); rewrite ?Z.lor_0_r. }
    destruct (Operation =? GCD_ADD_IO_OPERATION); [done|].
    destruct ((Operation =? GCD_FREE_MEMORY_OPERATION) || (Operation =? GCD_FREE_IO_OPERATION)); [done|].
    destruct (Operation =? GCD_REMOVE_MEMORY_OPERATION); [done|].
    destruct (Operation =? GCD_REMOVE_IO_OPERATION); [done|].
    by destruct (Operation =? GCD_SET_CAPABILITIES_MEMORY_OPERATION).
Qed.

(** The accumulator is what is gathered. *)
Lemma gathered_above L lo hi Base x : contig lo L hi -> x < lo -> gathered L Base x = 0.
Proof.
  revert lo. induction L as [|n L IH]; intros lo Hc Hx; [done|]. destruct Hc as (Hb & He & Hc). cbn [gathered foldr].
  rewrite (proj2 (Z.leb_gt (BaseAddress n.2) x)), andb_false_r by lia. apply (IH (EndAddress n.2 + 1)); [done|lia].
Qed.

Lemma accumulated_gathered MemoryType IoType Caps Attrs Base L lo hi x c at' m io im d a :
  contig lo L hi -> Base <= x -> info_at L x = Some (c, at', m, io, im, d) -> ConverToCpuArchAttributes Attrs = 0 ->
  Z.lor (accumulator Base (convert_step GCD_SET_ATTRIBUTES_MEMORY_OPERATION MemoryType IoType Caps Attrs) a L x)
    (Z.land at' CPU_ATTRIBUTES) = Z.lor a (Z.land (gathered L Base x) CPU_ATTRIBUTES).
Proof.
  intros Hc Hx Hi Hcpu. revert lo a Hc Hi. induction L as [|n L IH]; intros lo a Hc Hi; [done|].
  destruct Hc as (Hb & He & Hc). cbn [accumulator gathered foldr info_at] in *. fold (gathered L Base x).
  destruct (covers n.2 x) eqn:E.
  - apply covers_true in E as [H1 H2]. rewrite (proj2 (Z.leb_le _ _) H1), (proj2 (Z.leb_le Base _)) by lia. cbn [andb].
    rewrite (gathered_above L (EndAddress n.2 + 1) hi) by (done || lia). rewrite Z.lor_0_r. by injection Hi as _ <- _ _ _ _.
  - assert (Hge : EndAddress n.2 + 1 <= x).
    { destruct (Z.le_gt_cases (EndAddress n.2 + 1) x); [done|].
      by rewrite (proj2 (info_at_None _ _ _ x Hc)) in Hi by lia. }
    rewrite (proj2 (Z.leb_le (BaseAddress n.2) x)), andb_true_r by lia. rewrite (IH (EndAddress n.2 + 1)) by done.
    destruct (Base <=? EndAddress n.2); [|done]. unfold convert_step, info. cbn [Z.eqb]. rewrite Z.eqb_refl, Hcpu. cbn [fst Z.eqb].
    by rewrite <-Z.lor_assoc, Z.land_lor_distr_l.
Qed.

Lemma accumulator_constant Base step a L x : (forall i, (step a i).1 = a) -> accumulator Base step a L x = a.
Proof.
  intros Hs. induction L as [|n L IH]; cbn [accumulator]; [done|]. destruct (covers n.2 x); [done|].
  rewrite Hs. by destruct (Base <=? EndAddress n.2).
Qed.

Lemma convert_step_info Operation MemoryType IoType Caps Attrs Base L lo hi x i :
  contig lo L hi -> Base <= x -> info_at L x = Some i ->
  (convert_step Operation MemoryType IoType Caps Attrs
     (accumulator Base (convert_step Operation MemoryType IoType Caps Attrs) Attrs L x) i).2 =
  convert_info Operation MemoryType IoType Caps Attrs (gathered L Base x) i.
Proof.
  intros Hc Hx Hi. destruct i as [[[[[c at'] m] io] im] d]. unfold convert_step at 1, convert_info at 2.
  destruct (Z.eqb_spec Operation GCD_SET_ATTRIBUTES_MEMORY_OPERATION) as [->|Hop]; [|cbn [snd]; unfold convert_info; by rewrite (proj2 (Z.eqb_neq _ _) Hop)].
  change (GCD_SET_ATTRIBUTES_MEMORY_OPERATION =? ?x) with false. cbn [orb snd].
  destruct (Z.eqb_spec (ConverToCpuArchAttributes Attrs) 0) as [Hcpu|Hcpu].
  - by rewrite (accumulated_gathered MemoryType IoType Caps Attrs Base L lo hi x c at' m io im d Attrs).
  - rewrite accumulator_constant; [done|]. intros [[[[[? ?] ?] ?] ?] ?]. unfold convert_step. cbn [Z.eqb].
    by rewrite Z.eqb_refl, (proj2 (Z.eqb_neq _ _) Hcpu).
Qed.

(** * The invariant between two calls *)

Record gcd_wf (hiM hiI : Z) (st : GCD) (LM LI : list node) : Prop := {
  wf_maps : maps st mGcdMemorySpaceMap LM mGcdIoSpaceMap LI;
  wf_memory : contig 0 LM hiM;
  wf_io : contig 0 LI hiI;
  wf_hiM : hiM <= 2 ^ 63;
  wf_hiI : hiI <= 2 ^ 63;
  wf_memory_lock : mGcdMemorySpaceLock st = false;
  wf_io_lock : mGcdIoSpaceLock st = false }.

Lemma maps_memory_lock b st Map L Map2 L2 :
  maps st Map L Map2 L2 -> maps (set_memory_lock b st) Map L Map2 L2.
Proof. intros [? ? ?]. by split. Qed.

Lemma maps_io_lock b st Map L Map2 L2 :
  maps st Map L Map2 L2 -> maps (set_io_lock b st) Map L Map2 L2.
Proof. intros [? ? ?]. by split. Qed.

(** The map that an operation works on. *)
Definition on_memory (Operation : Z) : bool := Operation <? GCD_IO_SPACE_OPERATION.

Definition gcd_operation (Operation : Z) : Prop :=
  Operation ∈ [GCD_ADD_MEMORY_OPERATION; GCD_ALLOCATE_MEMORY_OPERATION; GCD_FREE_MEMORY_OPERATION;
    GCD_REMOVE_MEMORY_OPERATION; GCD_SET_ATTRIBUTES_MEMORY_OPERATION;
    GCD_SET_CAPABILITIES_MEMORY_OPERATION; GCD_ADD_IO_OPERATION; GCD_ALLOCATE_IO_OPERATION;
    GCD_FREE_IO_OPERATION; GCD_REMOVE_IO_OPERATION].

Lemma gcd_operation_cases Operation :
  gcd_operation Operation ->
  (on_memory Operation = true /\ Z.land Operation GCD_MEMORY_SPACE_OPERATION <> 0 /\
   Z.land Operation GCD_IO_SPACE_OPERATION = 0) \/
  (on_memory Operation = false /\ Z.land Operation GCD_MEMORY_SPACE_OPERATION = 0 /\
   Z.land Operation GCD_IO_SPACE_OPERATION <> 0).
Proof.
  unfold gcd_operation. rewrite !elem_of_cons, elem_of_nil.
  intros Hop. repeat destruct Hop as [->|Hop]; try done; vm_compute; intuition discriminate.
Qed.

(** * Converting a range: the code *)

Section Convert.
Context `{PoolAllocator} (Verify : bool) (Max : nat) (gCpu : option (Z -> Z -> Z -> EFI_STATUS)).

(** The status of a conversion of the map [L], address space [0 .. hi - 1]. *)
Inductive convert_outcome (st : GCD) (L : list node) (hi Operation MemoryType IoType Base Length Caps Attrs : Z)
    (L' : list node) : EFI_STATUS -> Prop :=
| convert_outside :
    hi < Base + Length -> L' = L -> convert_outcome st L hi Operation MemoryType IoType Base Length Caps Attrs L' EFI_UNSUPPORTED
| convert_denied x i :
    in_range Base Length x = true -> info_at L x = Some i ->
    check_info Operation Base Length Caps Attrs i <> EFI_SUCCESS -> L' = L ->
    convert_outcome st L hi Operation MemoryType IoType Base Length Caps Attrs L'
      (check_info Operation Base Length Caps Attrs i)
| convert_no_memory :
    (CoreAllocateGcdMapEntry st).1.1.1 = EFI_OUT_OF_RESOURCES -> L' = L ->
    convert_outcome st L hi Operation MemoryType IoType Base Length Caps Attrs L' EFI_OUT_OF_RESOURCES
| convert_cpu_error :
    cpu_status gCpu Operation Base Length Attrs <> EFI_SUCCESS -> L' = L ->
    convert_outcome st L hi Operation MemoryType IoType Base Length Caps Attrs L'
      (cpu_status gCpu Operation Base Length Attrs)
| convert_done :
    Base + Length <= hi ->
    throughout L Base Length (fun i => check_info Operation Base Length Caps Attrs i = EFI_SUCCESS) ->
    cpu_status gCpu Operation Base Length Attrs = EFI_SUCCESS ->
    converts L L' Base Length (fun x => convert_info Operation MemoryType IoType Caps Attrs (gathered L Base x)) ->
    (length L' <= 2 + length L)%nat ->
    convert_outcome st L hi Operation MemoryType IoType Base Length Caps Attrs L' EFI_SUCCESS.

(** Two states with the same locks. *)
Definition same_locks (st st' : GCD) : Prop :=
  mGcdMemorySpaceLock st' = mGcdMemorySpaceLock st /\ mGcdIoSpaceLock st' = mGcdIoSpaceLock st.

Lemma outside_locks st st' ns : outside st st' ns -> same_locks st st'.
Proof. by intros (_ & _ & ? & ? & _). Qed.

Lemma first_error_Some check T s p :
  first_error check T = Some (s, p) -> exists n, n ∈ T /\ n.1 = p /\ check n.2 = s /\ s <> EFI_SUCCESS.
Proof.
  induction T as [|n T IH]; simpl; [done|]. destruct (EFI_ERROR (check n.2)) eqn:E.
  - intros [= <- <-]. exists n. rewrite EFI_ERROR_true in E. split; [left|done].
  - intros (m & ? & ?)%IH. exists m. split; [by right|done].
Qed.

Lemma maps_call st Map L Map2 L2 c : maps st Map L Map2 L2 -> maps (call c st) Map L Map2 L2.
Proof. intros [? ? ?]. by split. Qed.

(** The conversion proper, with two fresh work nodes. *)
Lemma convert_maps change Base Length Top Bottom st Map A T B Map2 L2 s q hi a :
  field_change change -> range Base Length -> Top <> Bottom ->
  maps st Map (A ++ T ++ B) Map2 L2 -> contig 0 (A ++ T ++ B) hi -> hi <= 2 ^ 64 ->
  segment T s q Base (Base + Length) -> capacity Max (NULL :: NULL :: (A ++ T ++ B).*1) ->
  spare st Map (A ++ T ++ B) Top -> spare st Map (A ++ T ++ B) Bottom ->
  Top ∉ Map2 :: L2.*1 -> Bottom ∉ Map2 :: L2.*1 ->
  exists st1 st2 L',
    Convert_loop Verify Max (walk_bound st) st change Base Length Top Bottom s q a = Ok st1 /\
    CoreCleanupGcdMapEntry Max st1 Top Bottom s q Map = Ok (EFI_SUCCESS, st2) /\
    maps st2 Map L' Map2 L2 /\ contig 0 L' hi /\ same_locks st st2 /\
    (length L' <= 2 + length (A ++ T ++ B))%nat /\
    forall step, (forall a e, (change a e).1 = (step a (info e)).1 /\ info (change a e).2 = (step a (info e)).2) ->
      converts (A ++ T ++ B) L' Base Length (fun x i => (step (accumulator Base step a (A ++ T ++ B) x) i).2).
Proof.
  intros Hch Hr Htb [Hr1 Hr2 Hdis] Hc Hhi Hseg Hcap Ht Hb Ht2 Hb2.
  destruct (convert_and_cleanup Verify Max change Base Length Top Bottom st Map A T B s q hi a)
    as (st1 & st2 & L' & Hcv & Hcl & Hr' & Ho & Hc' & Hsub & Hi); [done..|].
  exists st1, st2, L'. split; [done|]. split; [done|]. split; [split; [done|..]|].
  - eapply rep_frame; [exact Ho| |done]. intros x Hx. rewrite !not_elem_of_cons.
    split; [congruence|]. split; [congruence|]. rewrite <-not_elem_of_cons.
    intros Hin. by apply (Hdis x).
  - intros x Hx Hx2. apply elem_of_cons in Hx as [->|Hx]; [apply (Hdis Map); [left|done]|].
    apply Hsub in Hx. rewrite !elem_of_cons in Hx. destruct Hx as [->|[->|Hx]]; [done..|].
    apply (Hdis x); [by right|done].
  - split; [done|]. split; [by eapply outside_locks|].
    split; [by rewrite <-(length_fmap fst (A ++ T ++ B)); apply (rep_length _ _ _ _ Hr' Hsub)|].
    intros step Hstep x. rewrite Hi.
    pose proof Hr as (_ & Hlen & _). rewrite !info_at_app.
    pose proof Hc as (mid & HA & HTB)%contig_app.
    pose proof (segment_or_after_intro _ _ _ _ _ Hseg) as Hsoa.
    destruct Hseg as [(e & Hh & He) (f & Hl & Hf)].
    assert (HmB : mid <= EndAddress e /\ BaseAddress e <= Base /\ BaseAddress e = mid).
    { destruct T as [|? ?]; [done|]. injection Hh as ->. destruct HTB as (HB & HE & _). simpl in *. lia. }
    destruct (info_at A x) as [i|] eqn:E.
    + simpl. destruct (in_range Base Length x) eqn:Ex; [|done]. apply in_range_true in Ex.
      by rewrite (proj2 (info_at_None _ _ _ x HA)) in E by lia.
    + pose proof (converted_exact change Hch Base Length Hlen Top Bottom step Hstep T B mid hi x a HTB) as Hm.
      rewrite !info_at_app in Hm. rewrite Hm by (unfold segment_or_after in *; by rewrite Hh, Hl in * ).
      destruct (match info_at T x with Some i => Some i | None => info_at B x end); [|done]. simpl. destruct (in_range Base Length x) eqn:Ex; [|done]. apply in_range_true in Ex.
      by rewrite (accumulator_app Base Length step a A (T ++ B) 0 mid x) by (done || lia).
Qed.

(** The work nodes are the same whether or not a lock is held. *)
Lemma allocate_set_memory_lock b st :
  (CoreAllocateGcdMapEntry (set_memory_lock b st)).1.1.1 = (CoreAllocateGcdMapEntry st).1.1.1.
Proof.
  unfold CoreAllocateGcdMapEntry, AllocateZeroPool. simpl.
  destruct (AllocatePool (dom (links st))); [|done]. simpl. by destruct (AllocatePool _).
Qed.

Lemma allocate_set_io_lock b st :
  (CoreAllocateGcdMapEntry (set_io_lock b st)).1.1.1 = (CoreAllocateGcdMapEntry st).1.1.1.
Proof.
  unfold CoreAllocateGcdMapEntry, AllocateZeroPool. simpl.
  destruct (AllocatePool (dom (links st))); [|done]. simpl. by destruct (AllocatePool _).
Qed.

Lemma maps_free st Map L Map2 L2 p :
  p ∉ Map :: L.*1 -> p ∉ Map2 :: L2.*1 -> maps st Map L Map2 L2 -> maps (CoreFreePool st p) Map L Map2 L2.
Proof.
  intros H1 H2. apply (maps_frame _ _ [p]).
  - repeat split; try done; intros x Hx; simpl; rewrite lookup_delete_ne; try done; intros ->; apply Hx; left.
  - intros x Hx. by apply list_elem_of_singleton in Hx as ->.
Qed.

Lemma ConvertSpace_locked_spec st Map L Map2 L2 hi Operation MemoryType IoType Base Length Caps Attrs :
  maps st Map L Map2 L2 -> contig 0 L hi -> hi <= 2 ^ 64 -> range Base Length ->
  capacity Max (NULL :: NULL :: L.*1) ->
  exists Status st' L',
    ConvertSpace_locked Verify Max gCpu st Map Operation MemoryType IoType Base Length Caps Attrs
      = Ok (Status, st') /\
    maps st' Map L' Map2 L2 /\ contig 0 L' hi /\ same_locks st st' /\
    convert_outcome st L hi Operation MemoryType IoType Base Length Caps Attrs L' Status.
Proof.
  intros Hm Hc Hhi Hr Hcap. pose proof Hr as (H0 & Hlen & _). unfold ConvertSpace_locked.
  destruct (CoreSearchGcdMapEntry_spec st Map L Base Length 0 hi)
    as [(Hin & s & q & A & T & B & -> & Hseg & ->)|(Hout & s & ->)]; [apply Hm|done..| |]; cbn [mbind result_bind EFI_ERROR].
  2: { exists EFI_UNSUPPORTED, st, L. split; [done|]. split; [done|]. split; [done|]. split; [done|].
       by apply convert_outside. }
  pose proof Hseg as [(e & Hh & He) (f & Hl & Hf)].
  assert (Hnn : s <> NULL /\ q <> NULL).
  { destruct Hm as [[(_ & Hnull & _) _] _ _]. rewrite !fmap_app in Hnull.
    apply head_Some in Hh as [T1 HT1]. apply last_Some in Hl as [T2 HT2]. split.
    - intros ->. apply Hnull. rewrite HT1. clear. set_solver.
    - intros ->. apply Hnull. rewrite HT2, fmap_app. clear. set_solver. }
  rewrite (proj2 (Z.eqb_neq s NULL)), (proj2 (Z.eqb_neq q NULL)) by apply Hnn.
  cbn [negb andb ASSERT mbind result_bind].
  assert (Hs : s = first Map (T ++ B)) by (destruct T; [done|]; by injection Hh as ->).
  rewrite Hs. rewrite (Check_loop_spec T st Map A B _ q f); cycle 1.
  { apply Hm. } { by rewrite last_app, Hl. }
  { pose proof (walk_enough _ _ _ (maps_rep _ _ _ _ _ Hm)). rewrite !length_app in *. lia. }
  cbn [mbind result_bind]. rewrite <-Hs.
  destruct (first_error _ T) as [[Status p]|] eqn:Efe; cbn [default from_option id].
  { apply first_error_Some in Efe as (n & Hn & _ & Hst & Herr).
    rewrite (proj2 (EFI_ERROR_true _)) by done.
    exists Status, st, (A ++ T ++ B). split; [done|]. split; [done|]. split; [done|]. split; [done|].
    destruct (segment_address A T B s q Base Length hi Hc Hseg Hlen n Hn) as (x & Hx & Hi).
    rewrite check_entry_of in Hst. subst Status. by eapply convert_denied. }
  cbn [EFI_ERROR fst id].
  destruct (CoreAllocateGcdMapEntry_spec st _ _ _ _ Hm) as (s0 & t & b & st1 & Hal & Hm1 & Ho1 & Hs0).
  rewrite Hal. destruct Hs0 as [->|(-> & Htb & Htn & Hbn & Ht & Hb & Ht2 & Hb2)]; cbn [EFI_ERROR].
  { exists EFI_OUT_OF_RESOURCES, st1, (A ++ T ++ B). split; [done|]. split; [done|]. split; [done|].
    split; [by eapply outside_locks|]. apply convert_no_memory; [by rewrite Hal|done]. }
  rewrite (proj2 (Z.eqb_neq t NULL)), (proj2 (Z.eqb_neq b NULL)) by done.
  cbn [negb andb ASSERT mbind result_bind]. fold (cpu_attributes Operation Attrs).
  set (pr := if negb (cpu_attributes Operation Attrs =? 0) then _ else _).
  assert (Hpr : pr.1 = cpu_status gCpu Operation Base Length Attrs /\
    maps pr.2 Map (A ++ T ++ B) Map2 L2 /\ same_locks st1 pr.2 /\ links pr.2 = links st1 /\
    entries pr.2 = entries st1).
  { unfold pr, cpu_status. destruct (cpu_attributes Operation Attrs =? 0); [done|]. cbn [negb].
    destruct gCpu; simpl; [|done]. split; [done|]. split; [by apply maps_call|done]. }
  destruct pr as [Status st2]. cbn [fst snd] in Hpr. destruct Hpr as (-> & Hm2 & Hlk & Hli & Hen).
  destruct (EFI_ERROR (cpu_status gCpu Operation Base Length Attrs)) eqn:Ecpu.
  { apply EFI_ERROR_true in Ecpu. do 2 eexists. exists (A ++ T ++ B). split; [done|]. split.
    { apply maps_free; [apply Hb|done|]. apply maps_free; [apply Ht|done|done]. }
    split; [done|]. split; [|by apply convert_cpu_error].
    destruct (outside_locks _ _ _ Ho1), Hlk. split; simpl; congruence. }
  apply EFI_ERROR_false in Ecpu.
  assert (Hsp : forall z, spare st1 Map (A ++ T ++ B) z -> spare st2 Map (A ++ T ++ B) z).
  { intros z (? & ? & ? & ?). unfold spare. by rewrite Hli, Hen. }
  destruct (convert_maps (ConvertEntry Operation MemoryType IoType Caps (cpu_attributes Operation Attrs))
    Base Length t b st2 Map A T B Map2 L2 s q hi Attrs)
    as (st3 & st4 & L' & -> & Hcl & Hm' & Hc' & Hlk' & Hlen' & Hupd); auto using ConvertEntry_field_change.
  cbn [mbind result_bind]. rewrite Hcl. exists EFI_SUCCESS, st4, L'. split; [done|]. split; [done|].
  split; [done|]. split.
  { destruct (outside_locks _ _ _ Ho1), Hlk, Hlk'. split; congruence. }
  apply convert_done; [done| |done| |done].
  - apply (segment_forall A T B s q Base Length hi Hc Hseg Hlen). apply first_error_None in Efe.
    eapply Forall_impl; [exact Efe|]. intros n Hn. simpl in Hn. by rewrite check_entry_of in Hn.
  - intros x. rewrite (Hupd _ (ConvertEntry_step Operation MemoryType IoType Caps Attrs) x).
    destruct (info_at (A ++ T ++ B) x) as [i|] eqn:Ei; [|done]. simpl. destruct (in_range Base Length x) eqn:Ex; [|done].
    apply in_range_true in Ex. f_equal. apply (convert_step_info _ _ _ _ _ _ _ 0 hi); [done|lia|done].
Qed.

(** An operation between taking and releasing its lock: what it does to its
    map under the lock is what the call does to the invariant. *)
Lemma with_map_lock {A} Operation hiM hiI st LM LI (body : GCD -> ptr -> result (A * GCD)) P :
  gcd_operation Operation -> gcd_wf hiM hiI st LM LI ->
  (forall st1 Map L Map2 L2 hi,
     maps st1 Map L Map2 L2 -> contig 0 L hi -> hi <= 2 ^ 64 ->
     (CoreAllocateGcdMapEntry st1).1.1.1 = (CoreAllocateGcdMapEntry st).1.1.1 ->
     L = (if on_memory Operation then LM else LI) -> hi = (if on_memory Operation then hiM else hiI) ->
     exists a st2 L', body st1 Map = Ok (a, st2) /\ maps st2 Map L' Map2 L2 /\ contig 0 L' hi /\
       same_locks st1 st2 /\ P a L') ->
  exists a st' L',
    (let! (Map, st1) := SelectMap Operation st in
     let! (a, st2) := body st1 Map in
     let! st3 := ReleaseMap Operation st2 in Ok (a, st3)) = Ok (a, st') /\
    P a L' /\
    gcd_wf hiM hiI st' (if on_memory Operation then L' else LM) (if on_memory Operation then LI else L').
Proof.
  intros Hop [Hm HcM HcI HhM HhI Hl1 Hl2] Hbody. unfold SelectMap, ReleaseMap.
  destruct (gcd_operation_cases _ Hop) as [(Hon & Hn & He)|(Hon & He & Hn)]; rewrite He, Hon in *;
    rewrite (proj2 (Z.eqb_neq _ _) Hn), Z.eqb_refl; cbn [negb].
  - unfold CoreAcquireGcdMemoryLock. rewrite Hl1. cbn [negb ASSERT mbind result_bind].
    destruct (Hbody (set_memory_lock true st) mGcdMemorySpaceMap LM mGcdIoSpaceMap LI hiM)
      as (a & st2 & L' & -> & Hm' & Hc' & [Hk1 Hk2] & HP);
      [by apply maps_memory_lock|done|lia|apply allocate_set_memory_lock|done..|].
    cbn [mbind result_bind]. unfold CoreReleaseGcdMemoryLock. rewrite Hk1. cbn.
    do 2 eexists. exists L'. split; [done|]. split; [done|]. split; try done.
    + by apply maps_memory_lock.
    + simpl. by rewrite Hk2.
  - unfold CoreAcquireGcdIoLock. rewrite Hl2. cbn [negb ASSERT mbind result_bind].
    destruct (Hbody (set_io_lock true st) mGcdIoSpaceMap LI mGcdMemorySpaceMap LM hiI)
      as (a & st2 & L' & -> & Hm' & Hc' & [Hk1 Hk2] & HP);
      [by apply maps_io_lock, maps_sym|done|lia|apply allocate_set_io_lock|done..|].
    cbn [mbind result_bind]. unfold CoreReleaseGcdIoLock. rewrite Hk2. cbn.
    do 2 eexists. exists L'. split; [done|]. split; [done|]. split; try done.
    + by apply maps_io_lock, maps_sym.
    + simpl. by rewrite Hk1.
Qed.

Lemma CoreConvertSpace_spec st LM LI hiM hiI Operation MemoryType IoType Base Length Caps Attrs :
  gcd_operation Operation -> gcd_wf hiM hiI st LM LI -> range Base Length ->
  capacity Max (NULL :: NULL :: (if on_memory Operation then LM else LI).*1) ->
  exists Status st' L',
    CoreConvertSpace Verify Max gCpu st Operation MemoryType IoType Base Length Caps Attrs
      = Ok (Status, st') /\
    convert_outcome st (if on_memory Operation then LM else LI)
      (if on_memory Operation then hiM else hiI) Operation MemoryType IoType Base Length Caps Attrs
      L' Status /\
    gcd_wf hiM hiI st' (if on_memory Operation then L' else LM) (if on_memory Operation then LI else L').
Proof.
  intros Hop Hwf Hr Hcap. pose proof Hr as (_ & ? & _). unfold CoreConvertSpace.
  rewrite (proj2 (Z.eqb_neq Length 0)) by lia.
  apply (with_map_lock Operation hiM hiI st LM LI (fun st Map =>
    ConvertSpace_locked Verify Max gCpu st Map Operation MemoryType IoType Base Length Caps Attrs)); [done..|].
  intros st1 Map L Map2 L2 hi Hm Hc Hhi Hal -> ->.
  destruct (ConvertSpace_locked_spec st1 Map _ Map2 L2 _ Operation MemoryType IoType Base Length Caps Attrs
    Hm Hc Hhi Hr Hcap) as (Status & st2 & L' & Heq & Hm' & Hc' & Hlk & Ho).
  exists Status, st2, L'. split; [done|]. split; [done|]. split; [done|]. split; [done|].
  destruct Ho; [by apply convert_outside|by eapply convert_denied|apply convert_no_memory; congruence|
    by apply convert_cpu_error|by apply convert_done].
Qed.
End Convert.
