(* ===== verification/GcdAllocate.v ===== *)
(** Allocation from a GCD map: the searches of [CoreAllocateSpace].

    [feasible]: an address where the whole range is aligned, within the limits
    and free.  The bottom-up searches return the lowest such address, and fail
    only if there is none; the top-down searches do the same with the highest of
    those that they see; and all of them terminate. *)

From S2P Require Import Prelude LinkedList Gcd GcdMap GcdSpace.

(** * Alignment *)

Lemma AlignmentMask_spec al : 0 <= al < 64 -> AlignmentMask al = 2 ^ al - 1.
Proof.
  intros Hal. unfold AlignmentMask. rewrite Z.shiftl_1_l.
  assert (0 < 2 ^ al < 2 ^ 64) by (split; [lia|apply Z.pow_lt_mono_r; lia]).
  rewrite (wrap_small 64 (2 ^ al)) by lia. apply wrap_small. lia.
Qed.

(** [x & ~AlignmentMask]. *)
Lemma align_down al x :
  0 <= al < 64 -> 0 <= x < 2 ^ 64 ->
  Z.land x (not64 (AlignmentMask al)) = x / 2 ^ al * 2 ^ al.
Proof. intros. rewrite AlignmentMask_spec by done. by apply land_not_mask. Qed.

(** [x & AlignmentMask]. *)
Lemma align_mod al x : 0 <= al < 64 -> Z.land x (AlignmentMask al) = x mod 2 ^ al.
Proof.
  intros. rewrite AlignmentMask_spec by done.
  replace (2 ^ al - 1) with (Z.ones al) by (rewrite Z.ones_equiv; lia). apply Z.land_ones. lia.
Qed.

Lemma align_down_bounds al x : 0 <= al -> x - 2 ^ al < x / 2 ^ al * 2 ^ al <= x.
Proof.
  intros. assert (0 < 2 ^ al) by lia. pose proof (Z.div_mod x (2 ^ al)).
  pose proof (Z.mod_pos_bound x (2 ^ al)). lia.
Qed.

(** Rounding down is monotone, and is the identity on aligned addresses. *)
Lemma align_down_le al b x : 0 <= al -> b mod 2 ^ al = 0 -> b <= x -> b <= x / 2 ^ al * 2 ^ al.
Proof.
  intros Hal Hb Hle. assert (0 < 2 ^ al) by lia. apply Z.mod_divide in Hb as [k ->]; [|lia].
  assert (k <= x / 2 ^ al) by (apply Z.div_le_lower_bound; lia). nia.
Qed.

Lemma align_down_aligned al x : 0 <= al -> (x / 2 ^ al * 2 ^ al) mod 2 ^ al = 0.
Proof. intros. apply Z.mod_mul. lia. Qed.

(** Rounding up gives the lowest aligned address from [x] on. *)
Lemma align_up_least al b x :
  0 <= al -> b mod 2 ^ al = 0 -> x <= b -> (x + (2 ^ al - 1)) / 2 ^ al * 2 ^ al <= b.
Proof.
  intros Hal Hb Hle. assert (0 < 2 ^ al) by lia. apply Z.mod_divide in Hb as [k ->]; [|lia].
  assert ((x + (2 ^ al - 1)) / 2 ^ al <= k) by (apply Z.lt_succ_r, Z.div_lt_upper_bound; lia). nia.
Qed.

Lemma align_up_bounds al x :
  0 <= al -> x <= (x + (2 ^ al - 1)) / 2 ^ al * 2 ^ al < x + 2 ^ al.
Proof. intros. pose proof (align_down_bounds al (x + (2 ^ al - 1))). lia. Qed.

(** * Positions in a map *)

(** Of two records of a map, the one with the higher base comes later. *)
Lemma contig_position lo A1 n1 B1 A2 n2 B2 hi :
  contig lo (A1 ++ n1 :: B1) hi -> A1 ++ n1 :: B1 = A2 ++ n2 :: B2 ->
  BaseAddress n1.2 < BaseAddress n2.2 -> (length B2 < length B1 /\ length A1 < length A2)%nat.
Proof.
  revert lo A2. induction A1 as [|a A1 IH]; intros lo A2 Hc Heq Hlt; destruct A2 as [|a2 A2];
    simpl in Heq; injection Heq as -> Heq; simpl in Hc.
  - lia.
  - subst B1. rewrite length_app. simpl. lia.
  - destruct Hc as (? & ? & (mid & ?%contig_le & ? & _)%contig_app). lia.
  - destruct Hc as (_ & _ & Hc). destruct (IH _ _ Hc Heq Hlt). simpl. lia.
Qed.

(** The records are in the order of their addresses. *)
Lemma contig_base lo L n1 n2 hi :
  contig lo L hi -> n1 ∈ L -> n2 ∈ L -> BaseAddress n2.2 <= EndAddress n1.2 -> BaseAddress n2.2 <= BaseAddress n1.2.
Proof.
  revert lo. induction L as [|n L IH]; intros lo Hc H1 H2 Hle; [by apply not_elem_of_nil in H1|].
  destruct Hc as (Hb & He & Hc).
  assert (Hin : forall m, m ∈ L -> EndAddress n.2 + 1 <= BaseAddress m.2).
  { intros m (A & B & ->)%list_elem_of_split. apply contig_app in Hc as (mid & ?%contig_le & ? & _). lia. }
  apply elem_of_cons in H1 as [->|H1], H2 as [->|H2]; [lia|by specialize (Hin n2 H2); lia| |by eapply IH].
  specialize (Hin n1 H1). lia.
Qed.

(** What the map says at the base of a record. *)
Lemma info_at_base lo A n B hi :
  contig lo (A ++ n :: B) hi -> info_at (A ++ n :: B) (BaseAddress n.2) = Some (info n.2).
Proof.
  intros Hc. eapply info_at_in; [exact Hc|]. apply contig_app in Hc as (? & _ & ? & ? & _).
  apply covers_true. lia.
Qed.

Lemma first_error_split check T s p :
  first_error check T = Some (s, p) ->
  exists T1 n T2, T = T1 ++ n :: T2 /\ n.1 = p /\ check n.2 = s /\ s <> EFI_SUCCESS.
Proof.
  intros (n & Hn & ? & ? & ?)%first_error_Some. apply list_elem_of_split in Hn as (T1 & T2 & ->). eauto 10.
Qed.

(** The records of a segment reach into its range. *)
Lemma segment_member lo A T1 n T2 B s q Base lim hi :
  contig lo (A ++ (T1 ++ n :: T2) ++ B) hi -> segment (T1 ++ n :: T2) s q Base lim ->
  Base <= EndAddress n.2 /\ BaseAddress n.2 <= lim - 1.
Proof.
  intros Hc [(e & Hh & He) (f & Hl & Hf)]. apply contig_app in Hc as (mid & _ & Hc). split.
  - destruct T1 as [|m T1]; injection Hh as ->; [simpl; lia|]. simpl in Hc.
    destruct Hc as (_ & _ & Hc). rewrite <-app_assoc in Hc.
    apply contig_app in Hc as (mid' & ?%contig_le & ? & ? & _). simpl in *. lia.
  - apply contig_app in Hc as (mid2 & Hc & _). apply contig_app in Hc as (mid3 & _ & Hc).
    rewrite last_app in Hl. destruct T2 as [|m T2 _] using rev_ind.
    + injection Hl as ->. simpl. lia.
    + rewrite last_cons, last_snoc in Hl. injection Hl as ->. simpl in Hc.
      destruct Hc as (? & ? & Hc). apply contig_app in Hc as (? & ?%contig_le & ? & _). simpl in *. lia.
Qed.

(** * The searches *)

Section Search.
Context (st : GCD) (Map : ptr) (L : list node) (hi : Z).
Context (Hrep : rep st Map L) (Hc : contig 0 L hi).
Context (check : EFI_GCD_MAP_ENTRY -> EFI_STATUS).
Context (Hcheck : forall e, check e = check (entry_of (info e))).
Context (al Length MaxAddress : Z).
Context (Hal : 0 <= al < 64) (Hlen : 0 < Length) (Hwrap : hi + 2 ^ al + Length <= 2 ^ 64).

(** The range of [Length] bytes at [b] is free. *)
Definition free (b : Z) : Prop :=
  0 <= b /\ b + Length <= hi /\ throughout L b Length (fun i => check (entry_of i) = EFI_SUCCESS).

Definition feasible (b : Z) : Prop := free b /\ b mod 2 ^ al = 0 /\ b + Length - 1 <= MaxAddress.

(** What a top-down search sees: it passes over the records whose base is less than
    [Length] below the limit, and so over the ranges that end in one of them. *)
Definition seen (b : Z) : Prop :=
  forall n, n ∈ L -> covers n.2 (b + Length - 1) = true -> BaseAddress n.2 + Length <= MaxAddress.

Lemma check_ok e : EFI_ERROR (check e) = false <-> check (entry_of (info e)) = EFI_SUCCESS.
Proof. rewrite <-Hcheck. apply EFI_ERROR_false. Qed.

(** A free range does not touch the records that fail the check. *)
Lemma free_avoids A n B b :
  L = A ++ n :: B -> EFI_ERROR (check n.2) = true -> free b ->
  BaseAddress n.2 <= b -> EndAddress n.2 < b.
Proof.
  intros HL Herr (H0 & Hb & Hf) Hle. destruct (Z.lt_ge_cases (EndAddress n.2) b); [done|].
  rewrite HL in *. assert (Hi : info_at (A ++ n :: B) b = Some (info n.2)).
  { eapply info_at_in; [exact Hc|]. apply covers_true. lia. }
  apply Hf in Hi; [|apply in_range_true; lia].
  apply EFI_ERROR_true in Herr. rewrite Hcheck in Herr. done.
Qed.

Lemma free_outside A n B b :
  L = A ++ n :: B -> EFI_ERROR (check n.2) = true -> free b ->
  b + Length <= BaseAddress n.2 \/ EndAddress n.2 < b.
Proof.
  intros HL Herr Hf. destruct (Z.le_gt_cases (BaseAddress n.2) b); [right; by apply (free_avoids A n B)|left].
  destruct (Z.le_gt_cases (b + Length) (BaseAddress n.2)); [done|exfalso]. destruct Hf as (_ & _ & Hf).
  rewrite HL in *. apply EFI_ERROR_true in Herr. apply Herr. rewrite Hcheck.
  apply (Hf (BaseAddress n.2)); [apply in_range_true; lia|by eapply info_at_base].
Qed.

(** The candidate in the first free record from [mid] on is the lowest. *)
Lemma free_shift A n B b c :
  L = A ++ n :: B -> EFI_ERROR (check n.2) = false -> free b ->
  BaseAddress n.2 <= c <= b -> b <= EndAddress n.2 -> free c.
Proof.
  intros HL Hok (H0 & Hb & Hf) Hcb Hle. split; [|split; [lia|]].
  - rewrite HL in Hc. apply contig_app in Hc as (? & ?%contig_le & ? & _). lia.
  - intros x i Hx%in_range_true Hi. destruct (Z.lt_ge_cases x b).
    + rewrite HL in Hi, Hc. rewrite (info_at_in 0 A n B hi x Hc) in Hi by (apply covers_true; lia).
      apply (inj Some) in Hi as <-. by apply check_ok.
    + eapply Hf; [|exact Hi]. apply in_range_true. lia.
Qed.

(** Searching and checking a candidate [b]. *)
Lemma candidate b :
  0 <= b -> b + Length <= 2 ^ 64 ->
  (hi < b + Length /\ exists s, CoreSearchGcdMapEntry st b Length Map = Ok (EFI_NOT_FOUND, s, NULL)) \/
  (b + Length <= hi /\ exists s q A T B, L = A ++ T ++ B /\ segment T s q b (b + Length) /\
    CoreSearchGcdMapEntry st b Length Map = Ok (EFI_SUCCESS, s, q) /\ s <> NULL /\ q <> NULL /\
    Check_loop (walk_bound st) st check s q =
      Ok (default (EFI_SUCCESS, first Map B) (first_error check T)) /\
    (first_error check T = None <-> free b)).
Proof.
  intros H0 Hb. assert (Hr : range b Length) by (repeat split; lia).
  destruct (CoreSearchGcdMapEntry_spec st Map L b Length 0 hi Hrep Hc Hr H0)
    as [(Hin & s & q & A & T & B & HL & Hseg & Hs)|(Hout & s & Hs)]; [right|left; eauto].
  split; [done|]. exists s, q, A, T, B. pose proof Hseg as [(e & Hh & He) (f & Hl & Hf)].
  split; [done|]. split; [done|]. split; [done|]. rewrite HL in Hrep, Hc.
  assert (Hnn : s <> NULL /\ q <> NULL).
  { destruct Hrep as [(_ & Hnull & _) _]. rewrite !fmap_app in Hnull.
    apply head_Some in Hh as [T1 HT1]. apply last_Some in Hl as [T2 HT2]. split.
    - intros ->. apply Hnull. rewrite HT1. clear. set_solver.
    - intros ->. apply Hnull. rewrite HT2, fmap_app. clear. set_solver. }
  split; [apply Hnn|]. split; [apply Hnn|].
  assert (Hfst : s = first Map (T ++ B)) by (destruct T; [done|]; by injection Hh as ->).
  split.
  - rewrite Hfst. apply (Check_loop_spec T st Map A B check q f); [done|by rewrite last_app, Hl|].
    pose proof (walk_enough _ _ _ Hrep). rewrite !length_app in *. lia.
  - rewrite first_error_None. unfold free. rewrite HL.
    rewrite <-(segment_forall A T B s q b Length hi Hc Hseg Hlen).
    rewrite !Forall_forall. setoid_rewrite Hcheck at 1. naive_solver.
Qed.

(** ** Bottom-up *)

Lemma AllocateSearch_bottom_up AllocateType n A B base fuel :
  SearchesTopDown AllocateType = false -> L = A ++ B -> (length B <= n)%nat -> (n < fuel)%nat ->
  (forall b mid, contig mid B hi -> feasible b -> mid <= b) ->
  exists r b, AllocateSearch_loop fuel st check AllocateType al Length MaxAddress Map (first Map B) base
    = Ok (r, b) /\
    match r with
    | None => forall b', ~ feasible b'
    | Some (s, q) => feasible b /\ (forall b', feasible b' -> b <= b') /\
        exists A T B, L = A ++ T ++ B /\ segment T s q b (b + Length)
    end.
Proof.
  intros Hup. revert A B base fuel. induction n as [|n IH]; intros A B base fuel HL Hn Hf Hmid;
    (destruct fuel as [|fuel]; [lia|]); cbn [AllocateSearch_loop];
    (destruct B as [|[p e] B];
      [exists None, base; change (first Map []) with Map; rewrite Z.eqb_refl; split; [done|];
       intros b' Hb'; pose proof (Hmid b' hi eq_refl Hb'); destruct Hb' as ((?&?&_)&_); lia|]).
  { simpl in Hn. lia. }
  pose proof Hrep as HrepL. pose proof Hc as HcL. rewrite HL in HrepL, HcL.
  pose proof HcL as (mid & HcA & Hb & He & HcB)%contig_app. simpl in Hb, He, HcB.
  pose proof (contig_le _ _ _ HcA). pose proof (contig_le _ _ _ HcB).
  change (first Map ((p, e) :: B)) with p. destruct (rep_notin _ _ _ _ _ _ HrepL) as [Hp _].
  rewrite (proj2 (Z.eqb_neq p Map)) by (intros ->; apply Hp; left).
  rewrite (proj2 (rep_mid _ _ _ _ _ _ HrepL)). cbn [mbind result_bind].
  destruct (rep_node _ _ _ _ _ _ HrepL) as (nd & -> & Hfwd & _). cbn [mbind result_bind].
  rewrite Hup, Hfwd. cbn [andb negb].
  assert (Hskip : (forall b', feasible b' -> EndAddress e + 1 <= b') ->
    forall b' mid', contig mid' B hi -> feasible b' -> mid' <= b').
  { intros Hall b' mid' Hc' Hb'. specialize (Hall b' Hb'). destruct B as [|[p' e'] B].
    - simpl in Hc', HcB. lia.
    - simpl in Hc', HcB. lia. }
  assert (Hge : forall b', feasible b' -> mid <= b').
  { intros b'. apply Hmid. simpl. split; [done|]. by split. }
  destruct (EFI_ERROR (check e)) eqn:Eck.
  { apply (IH (A ++ [(p, e)])); [by rewrite <-app_assoc|simpl in Hn; lia|lia|].
    apply Hskip. intros b' Hb'. pose proof (Hge b' Hb'). destruct Hb' as (Hfree & _).
    pose proof (free_avoids A (p, e) B b' HL Eck Hfree). simpl in *. lia. }
  pose proof (align_up_bounds al mid ltac:(lia)) as Hup1.
  assert (0 < 2 ^ al) by lia.
  rewrite Hb, AlignmentMask_spec, (wrap_small 64 (mid + (2 ^ al - 1))) by lia.
  rewrite <-(AlignmentMask_spec al), align_down by (rewrite ?AlignmentMask_spec; lia).
  rewrite AlignmentMask_spec by lia.
  set (b := (mid + (2 ^ al - 1)) / 2 ^ al * 2 ^ al) in *.
  assert (Hleast : forall b', feasible b' -> b <= b').
  { intros b' Hb'. apply align_up_least; [lia|apply Hb'|by apply Hge]. }
  rewrite (wrap_small 64 (b + Length - 1)) by lia. rewrite Z.gtb_ltb.
  destruct (Z.ltb_spec MaxAddress (b + Length - 1)).
  { exists None, b. split; [done|]. intros b' Hb'. pose proof (Hleast b' Hb').
    destruct Hb' as (_ & _ & ?). lia. }
  destruct (candidate b) as [(Hout & s & ->)|(Hin & s & q & A2 & T & B2 & HL2 & Hseg & -> & Hs & Hq & Hchk & Hfree)];
    [lia|lia| |]; cbn [mbind result_bind EFI_ERROR].
  { exists None, b. split; [done|]. intros b' Hb'. pose proof (Hleast b' Hb').
    destruct Hb' as ((_ & ? & _) & _). lia. }
  rewrite (proj2 (Z.eqb_neq s NULL)), (proj2 (Z.eqb_neq q NULL)) by done.
  cbn [negb andb ASSERT mbind result_bind].
  rewrite Hchk. cbn [mbind result_bind].
  destruct (first_error check T) as [[Status r]|] eqn:Efe; cbn [default from_option id].
  - apply first_error_split in Efe as (T1 & m & T2 & -> & <- & <- & Herr).
    rewrite (proj2 (EFI_ERROR_true _) Herr).
    assert (HL3 : L = (A2 ++ T1) ++ m :: T2 ++ B2) by (rewrite HL2; by rewrite <-!app_assoc).
    pose proof Hc as Hc3. rewrite HL2 in Hc3.
    destruct (segment_member _ _ _ _ _ _ _ _ _ _ _ Hc3 Hseg) as [Hm1 Hm2].
    rewrite <-HL2, HL3 in Hc3.
    assert (Hbm : BaseAddress e < BaseAddress m.2).
    { destruct (Z.lt_ge_cases (BaseAddress e) (BaseAddress m.2)) as [|Hge']; [done|exfalso].
      assert (Hcov : covers m.2 (BaseAddress e) = true) by (apply covers_true; lia).
      pose proof (info_at_in _ _ _ _ _ _ Hc3 Hcov) as Hi1.
      pose proof (info_at_base _ _ _ _ _ HcL) as Hi2. simpl in Hi2.
      rewrite <-HL3, HL, Hi2 in Hi1. apply (inj Some) in Hi1.
      apply Herr. rewrite Hcheck, <-Hi1. by apply check_ok in Eck. }
    destruct (contig_position 0 A (p, e) B (A2 ++ T1) m (T2 ++ B2) hi) as [Hl _];
      [done|by rewrite <-HL|done|].
    change m.1 with (first Map (m :: T2 ++ B2)).
    apply (IH (A2 ++ T1)); [done|simpl in Hn |- *; lia|lia|].
    intros b' mid' Hc' Hb'. simpl in Hc'. destruct Hc' as (<- & Hme & _).
    destruct (Z.le_gt_cases (BaseAddress m.2) b'); [done|exfalso].
    pose proof (Hleast b' Hb'). destruct Hb' as ((_ & _ & Ht) & _).
    pose proof (info_at_base _ _ _ _ _ Hc3) as Hi. rewrite <-HL3 in Hi.
    apply Ht in Hi; [|apply in_range_true; lia]. rewrite <-Hcheck in Hi. done.
  - cbn [EFI_ERROR]. exists (Some (s, q)), b. split; [done|].
    split; [split; [by apply Hfree|split; [apply align_down_aligned; lia|lia]]|].
    split; [done|]. by exists A2, T, B2.
Qed.

(** ** Top-down *)

(** The first record that fails the check in a range that ends in a record [n]
    that passes it is before [n]. *)
Lemma failing_before A n B A2 T1 m T2 B2 s q b :
  L = A ++ n :: B -> L = A2 ++ (T1 ++ m :: T2) ++ B2 -> segment (T1 ++ m :: T2) s q b (b + Length) ->
  b + Length - 1 <= EndAddress n.2 -> EFI_ERROR (check n.2) = false -> check m.2 <> EFI_SUCCESS ->
  (length (A2 ++ T1) < length A)%nat.
Proof.
  intros HL HL2 Hseg Hend Hok Herr.
  assert (HL3 : L = (A2 ++ T1) ++ m :: T2 ++ B2) by (rewrite HL2; by rewrite <-!app_assoc).
  pose proof Hc as HcL. rewrite HL in HcL. pose proof Hc as Hc3. rewrite HL2 in Hc3.
  destruct (segment_member _ _ _ _ _ _ _ _ _ _ _ Hc3 Hseg) as [_ Hm]. rewrite <-HL2, HL3 in Hc3.
  destruct (Z.lt_ge_cases (BaseAddress m.2) (BaseAddress n.2)) as [Hlt|Hge].
  - destruct (contig_position 0 (A2 ++ T1) m (T2 ++ B2) A n B hi); [done|by rewrite <-HL3|done|done].
  - exfalso. assert (Hcov : covers n.2 (BaseAddress m.2) = true) by (apply covers_true; lia).
    pose proof (info_at_in _ _ _ _ _ _ HcL Hcov) as Hi1.
    pose proof (info_at_base _ _ _ _ _ Hc3) as Hi2. rewrite <-HL, HL3, Hi2 in Hi1.
    apply (inj Some) in Hi1. apply Herr. rewrite Hcheck, Hi1. by apply check_ok.
Qed.

Lemma AllocateSearch_top_down AllocateType n A B base fuel :
  SearchesTopDown AllocateType = true -> L = A ++ B -> (length A <= n)%nat -> (n < fuel)%nat ->
  0 <= MaxAddress ->
  (forall b mid, contig mid B hi -> feasible b -> seen b -> b + Length <= mid) ->
  exists r b, AllocateSearch_loop fuel st check AllocateType al Length MaxAddress Map
      (List.last A.*1 Map) base = Ok (r, b) /\
    match r with
    | None => forall b', feasible b' -> ~ seen b'
    | Some (s, q) => feasible b /\ seen b /\ (forall b', feasible b' -> seen b' -> b' <= b) /\
        exists A T B, L = A ++ T ++ B /\ segment T s q b (b + Length)
    end.
Proof.
  intros Hdown. revert A B base fuel. induction n as [|n IH]; intros A B base fuel HL Hn Hf HMax Hbelow;
    (destruct fuel as [|fuel]; [lia|]); cbn [AllocateSearch_loop];
    (destruct A as [|[p e] A _] using rev_ind;
      [exists None, base; simpl List.last; rewrite Z.eqb_refl; split; [done|];
       intros b' Hb' Hsn; simpl in HL; pose proof Hc as Hc0; rewrite HL in Hc0; pose proof (Hbelow b' 0 Hc0 Hb' Hsn); destruct Hb' as ((?&_)&_); lia|]).
  { rewrite length_app in Hn. simpl in Hn. lia. }
  rewrite <-app_assoc in HL. simpl in HL. rewrite length_app in Hn. simpl in Hn.
  pose proof Hrep as HrepL. pose proof Hc as HcL. rewrite HL in HrepL, HcL.
  pose proof HcL as (mid & HcA & Hb & He & HcB)%contig_app. simpl in Hb, He, HcB.
  pose proof (contig_le _ _ _ HcA). pose proof (contig_le _ _ _ HcB).
  rewrite fmap_app. cbn [fmap list_fmap fst]. rewrite List.last_last.
  destruct (rep_notin _ _ _ _ _ _ HrepL) as [Hp _].
  rewrite (proj2 (Z.eqb_neq p Map)) by (intros ->; apply Hp; left).
  rewrite (proj2 (rep_mid _ _ _ _ _ _ HrepL)). cbn [mbind result_bind].
  destruct (rep_node _ _ _ _ _ _ HrepL) as (nd & -> & _ & Hbwd). cbn [mbind result_bind].
  rewrite Hdown, Hbwd. cbn [andb negb].
  assert (Hend : forall b', feasible b' -> seen b' -> b' + Length <= EndAddress e + 1).
  { intros b' Hb' Hsn. by apply (Hbelow b' _ HcB). }
  assert (HIH : (forall b', feasible b' -> seen b' -> b' + Length <= BaseAddress e) ->
    exists r b, AllocateSearch_loop fuel st check AllocateType al Length MaxAddress Map
      (List.last A.*1 Map) base = Ok (r, b) /\
    match r with
    | None => forall b', feasible b' -> ~ seen b'
    | Some (s, q) => feasible b /\ seen b /\ (forall b', feasible b' -> seen b' -> b' <= b) /\
        exists A T B, L = A ++ T ++ B /\ segment T s q b (b + Length)
    end).
  { intros Hb'. apply (IH A ((p, e) :: B)); [done|lia|lia|done|]. intros b' mid' Hc'. simpl in Hc'.
    destruct Hc' as (<- & _). apply Hb'. }
  destruct (EFI_ERROR (check e)) eqn:Eck.
  { apply HIH. intros b' Hb' Hsn. pose proof (Hend b' Hb' Hsn). destruct Hb' as (Hfree & _).
    destruct (free_outside A (p, e) B b' HL Eck Hfree); simpl in *; lia. }
  assert (0 < 2 ^ al) by lia. rewrite !Z.gtb_ltb.
  rewrite (wrap_small 64 (BaseAddress e + Length)), (wrap_small 64 (EndAddress e + 1)) by lia.
  assert (HeL : (p, e) ∈ L) by (rewrite HL; apply elem_of_app; right; left).
  destruct (Z.ltb_spec MaxAddress (BaseAddress e + Length)).
  { apply HIH. intros b' Hb' Hsn. pose proof (Hend b' Hb' Hsn).
    destruct (Z.le_gt_cases (b' + Length) (BaseAddress e)); [done|exfalso].
    assert (Hcov : covers e (b' + Length - 1) = true) by (apply covers_true; lia).
    pose proof (Hsn (p, e) HeL Hcov). simpl in *. lia. }
  destruct (Z.ltb_spec (EndAddress e + 1) Length).
  { exists None, base. split; [done|]. intros b' Hb' Hsn. pose proof (Hend b' Hb' Hsn). destruct Hb' as ((? & _) & _). lia. }
  set (m := if MaxAddress <? EndAddress e then MaxAddress else EndAddress e).
  assert (Hm : m <= MaxAddress /\ m <= EndAddress e /\ Length <= m + 1)
    by (unfold m; destruct (Z.ltb_spec MaxAddress (EndAddress e)); lia).
  assert (Hmm : forall b', feasible b' -> seen b' -> b' <= m + 1 - Length).
  { intros b' Hb' Hsn. pose proof (Hend b' Hb' Hsn). destruct Hb' as (_ & _ & ?).
    unfold m. destruct (Z.ltb_spec MaxAddress (EndAddress e)); lia. }
  rewrite (wrap_small 64 (m + 1)), (wrap_small 64 (m + 1 - Length)), align_down by lia.
  pose proof (align_down_bounds al (m + 1 - Length) ltac:(lia)) as Hdn.
  assert (0 <= (m + 1 - Length) / 2 ^ al) by (apply Z.div_pos; lia).
  pose proof (align_down_aligned al (m + 1 - Length) ltac:(lia)) as Hmod.
  set (b := (m + 1 - Length) / 2 ^ al * 2 ^ al) in *. assert (0 <= b) by (unfold b; nia).
  assert (Hhigh : forall b', feasible b' -> seen b' -> b' <= b).
  { intros b' Hb' Hsn. apply align_down_le; [lia|apply Hb'|by apply Hmm]. }
  destruct (candidate b) as [(Hout & s & ->)|(Hin & s & q & A2 & T & B2 & HL2 & Hseg & -> & Hs & Hq & Hchk & Hfree)];
    [lia|lia| |]; cbn [mbind result_bind EFI_ERROR]; [lia|].
  rewrite (proj2 (Z.eqb_neq s NULL)), (proj2 (Z.eqb_neq q NULL)) by done.
  cbn [negb andb ASSERT mbind result_bind]. rewrite Hchk. cbn [mbind result_bind].
  destruct (first_error check T) as [[Status r]|] eqn:Efe; cbn [default from_option id].
  - apply first_error_split in Efe as (T1 & k & T2 & -> & <- & <- & Herr).
    rewrite (proj2 (EFI_ERROR_true _) Herr).
    pose proof (failing_before A (p, e) B A2 T1 k T2 B2 s q b HL HL2 Hseg ltac:(simpl; lia) Eck Herr) as Hlt.
    replace k.1 with (List.last ((A2 ++ T1) ++ [k]).*1 Map)
      by (rewrite fmap_app; simpl; by rewrite List.last_last).
    assert (HL3 : L = (A2 ++ T1) ++ k :: T2 ++ B2) by (rewrite HL2; by rewrite <-!app_assoc).
    apply (IH _ (T2 ++ B2)); [rewrite HL2; by rewrite <-!app_assoc|rewrite length_app; simpl; lia|lia|done|].
    pose proof Hc as Hc2. rewrite HL2 in Hc2. destruct (segment_member _ _ _ _ _ _ _ _ _ _ _ Hc2 Hseg) as [Hk _].
    rewrite <-HL2, HL3 in Hc2. apply contig_app in Hc2 as (mk & _ & HBk & HEk & Hck).
    intros b' mid' Hc' Hb' Hsn. pose proof (Hhigh b' Hb' Hsn). destruct Hb' as (Hfr & _).
    assert (mid' = EndAddress k.2 + 1) as ->.
    { destruct (T2 ++ B2); simpl in Hc', Hck; lia. }
    destruct (free_outside (A2 ++ T1) k (T2 ++ B2) b' HL3 ltac:(by apply EFI_ERROR_true) Hfr); lia.
  - cbn [EFI_ERROR]. exists (Some (s, q)), b. split; [done|].
    split; [split; [by apply Hfree|split; [done|lia]]|]. split; [|split; [done|by exists A2, T, B2]].
    intros n0 Hn0 [Hn1 Hn2]%covers_true.
    pose proof (contig_base 0 L (p, e) n0 hi Hc HeL Hn0) as Hle. simpl in Hle. lia.
Qed.
End Search.

(** * [CoreAllocateSpace] *)

(** The highest address that the last byte of the range may have. *)
Definition max_address (AllocateType base hi : Z) : Z :=
  if (AllocateType =? EfiGcdAllocateMaxAddressSearchBottomUp) ||
     (AllocateType =? EfiGcdAllocateMaxAddressSearchTopDown)
  then base else hi - 1.

Section Spec.
Context (L : list node) (hi : Z) (check : EFI_GCD_MAP_ENTRY -> EFI_STATUS) (AllocateType al Length base : Z).

(** What a search finds: any range that is feasible, or of these the ones that a
    top-down search sees. *)
Definition found (b : Z) : Prop :=
  feasible L hi check al Length (max_address AllocateType base hi) b /\
  (SearchesTopDown AllocateType = true -> seen L Length (max_address AllocateType base hi) b).

(** [b] is the answer to the request: the given address, the lowest that a search
    from the bottom finds, the highest that a search from the top finds; *)
Definition alloc_ok (b : Z) : Prop :=
  free L hi check Length b /\ b mod 2 ^ al = 0 /\
  if AllocateType =? EfiGcdAllocateAddress then b = base else
  found b /\ forall b', found b' -> if SearchesTopDown AllocateType then b' <= b else b <= b'.

(** there is none. *)
Definition alloc_none : Prop :=
  if AllocateType =? EfiGcdAllocateAddress then ~ (free L hi check Length base /\ base mod 2 ^ al = 0)
  else forall b', ~ found b'.
End Spec.

(** What an allocation asks of an address: no owner, and the requested type. *)
Definition allocatable (Operation MemoryType IoType : Z) (Entry : EFI_GCD_MAP_ENTRY) : EFI_STATUS :=
  if decide (ImageHandle Entry = NULL /\
             (if on_memory Operation then GcdMemoryType Entry else GcdIoType Entry) =
             (if on_memory Operation then MemoryType else IoType))
  then EFI_SUCCESS else EFI_NOT_FOUND.

Lemma check_allocatable Operation MemoryType IoType e :
  Operation = GCD_ALLOCATE_MEMORY_OPERATION \/ Operation = GCD_ALLOCATE_IO_OPERATION ->
  CoreAllocateSpaceCheckEntry Operation MemoryType IoType e = allocatable Operation MemoryType IoType e.
Proof.
  unfold CoreAllocateSpaceCheckEntry, allocatable. intros [-> | ->]; simpl;
    repeat match goal with |- (if ?b then _ else _) = _ => destruct b eqn:? end;
    case_decide; try done; exfalso; bool_to_prop; tauto.
Qed.

(** Only the fields of [info] matter to the check. *)
Lemma allocate_check_info Operation MemoryType IoType e :
  CoreAllocateSpaceCheckEntry Operation MemoryType IoType e =
  CoreAllocateSpaceCheckEntry Operation MemoryType IoType (entry_of (info e)).
Proof. by destruct e. Qed.

(** The requests that the theorems are about: valid parameters, and sizes for
    which no address computation wraps. *)
Record alloc_request (hi Operation AllocateType MemoryType IoType al Length base Image : Z) : Prop := {
  req_op : Operation = GCD_ALLOCATE_MEMORY_OPERATION \/ Operation = GCD_ALLOCATE_IO_OPERATION;
  req_type : 0 <= AllocateType < EfiGcdMaxAllocateType;
  req_memory : 0 <= MemoryType < EfiGcdMemoryTypeMaximum;
  req_io : 0 <= IoType < EfiGcdIoTypeMaximum;
  req_image : Image <> NULL;
  req_al : 0 <= al < 64;
  req_length : 0 < Length;
  req_base : 0 <= base < 2 ^ 64;
  req_range : AllocateType = EfiGcdAllocateAddress -> base + Length <= 2 ^ 64;
  req_wrap : AllocateType <> EfiGcdAllocateAddress -> hi + 2 ^ al + Length <= 2 ^ 64;
  req_hi : 0 < hi }.

Section Allocate.
Context `{PoolAllocator} (Verify : bool) (Max : nat).

Lemma check_error_NOT_FOUND Operation MemoryType IoType e :
  Operation = GCD_ALLOCATE_MEMORY_OPERATION \/ Operation = GCD_ALLOCATE_IO_OPERATION ->
  CoreAllocateSpaceCheckEntry Operation MemoryType IoType e <> EFI_SUCCESS ->
  CoreAllocateSpaceCheckEntry Operation MemoryType IoType e = EFI_NOT_FOUND.
Proof.
  unfold CoreAllocateSpaceCheckEntry. intros [->| ->];
    change (GCD_ALLOCATE_IO_OPERATION =? GCD_ALLOCATE_MEMORY_OPERATION) with false;
    rewrite Z.eqb_refl;
    repeat match goal with |- context [if ?b then _ else _] => destruct b end; intros Hne; by try destruct (Hne eq_refl).
Qed.

Lemma AllocateSpace_find_spec st Map L hi Operation AllocateType MemoryType IoType al Length base Image :
  rep st Map L -> contig 0 L hi ->
  alloc_request hi Operation AllocateType MemoryType IoType al Length base Image ->
  let check := CoreAllocateSpaceCheckEntry Operation MemoryType IoType in
  exists Status s q b,
    AllocateSpace_find st Map Operation AllocateType MemoryType IoType al Length base
      = Ok (Status, s, q, b) /\
    (Status = EFI_NOT_FOUND /\ alloc_none L hi check AllocateType al Length base /\
       (AllocateType = EfiGcdAllocateAddress -> b = base) \/
     Status = EFI_SUCCESS /\ s <> NULL /\ q <> NULL /\ alloc_ok L hi check AllocateType al Length base b /\
       exists A T B, L = A ++ T ++ B /\ segment T s q b (b + Length)).
Proof.
  intros Hrep Hc [Hop Hty _ _ _ Hal Hlen Hbase Hrng Hwrap Hhi] check.
  assert (Hck : forall e, check e = check (entry_of (info e))) by (intros e; apply allocate_check_info).
  unfold AllocateSpace_find, alloc_none, alloc_ok. fold check.
  assert (Hsegnn : forall s q b A T B, L = A ++ T ++ B -> segment T s q b (b + Length) ->
    s <> NULL /\ q <> NULL).
  { intros s q b A T B -> [(e & Hh & _) (f & Hl & _)].
    destruct Hrep as [(_ & Hnull & _) _]. rewrite !fmap_app in Hnull.
    apply head_Some in Hh as [T1 HT1]. apply last_Some in Hl as [T2 HT2]. split.
    - intros ->. apply Hnull. rewrite HT1. clear. set_solver.
    - intros ->. apply Hnull. rewrite HT2, fmap_app. clear. set_solver. }
  destruct (Z.eqb_spec AllocateType EfiGcdAllocateAddress) as [Hadr|Hadr].
  - rewrite align_mod by done. destruct (Z.eqb_spec (base mod 2 ^ al) 0) as [Hmod|Hmod]; cbn [negb].
    2: { do 4 eexists. split; [done|]. left. split; [done|]. split; [by intros [_ ?]|done]. }
    destruct (candidate st Map L hi Hrep Hc check Hck al Length Hal Hlen base)
      as [(Hout & s & ->)|(Hin & s & q & A & T & B & HL & Hseg & -> & Hs & Hq & Hchk & Hfree)];
      [lia|auto| |]; cbn [mbind result_bind EFI_ERROR].
    + do 4 eexists. split; [done|]. left. split; [done|]. split; [|done]. intros [(_ & ? & _) _]. lia.
    + rewrite (proj2 (Z.eqb_neq s NULL)), (proj2 (Z.eqb_neq q NULL)) by done.
      cbn [negb andb ASSERT mbind result_bind]. rewrite Hchk. cbn [mbind result_bind].
      destruct (first_error check T) as [[Status r]|] eqn:Efe; cbn [default from_option id].
      * do 4 eexists. split; [done|]. left. apply first_error_split in Efe as (T1 & k & T2 & -> & _ & <- & Herr).
        split; [by apply check_error_NOT_FOUND|]. split; [|done]. intros [Hf _].
        by apply Hfree in Hf.
      * do 4 eexists. split; [done|]. right. split; [done|]. split; [done|]. split; [done|].
        split; [split; [by apply Hfree|done]|]. by exists A, T, B.
  - specialize (Hwrap Hadr).
    destruct (rep_head _ _ _ Hrep) as (nd & -> & Hfw & Hbw). cbn [mbind result_bind].
    destruct L as [|[p e] L0 _] using rev_ind; [simpl in Hc; lia|].
    rewrite Hbw, fmap_app. cbn [fmap list_fmap fst]. rewrite List.last_last.
    rewrite (proj2 (rep_mid _ _ _ _ _ _ Hrep)). cbn [mbind result_bind].
    assert (Hend : EndAddress e = hi - 1).
    { apply contig_app in Hc as (? & _ & _ & _ & Hc). simpl in Hc. lia. }
    rewrite Hend. fold (max_address AllocateType base hi).
    set (L := L0 ++ [(p, e)]) in *. pose proof (walk_enough _ _ _ Hrep).
    assert (Hfa : fmap fst L0 ++ [p] = L.*1) by (unfold L; by rewrite fmap_app).
    destruct (SearchesTopDown AllocateType) eqn:Edown.
    + destruct (AllocateSearch_top_down st Map L hi Hrep Hc check Hck al Length
        (max_address AllocateType base hi) Hal Hlen Hwrap AllocateType (length L) L [] base
        (walk_bound st) Edown) as (r & b & Hloop & Hres); [by rewrite app_nil_r|lia|lia| | |].
      { unfold max_address. destruct (_ || _); lia. }
      { intros b mid Hm ((_ & ? & _) & _) _. simpl in Hm. lia. }
      rewrite <-Hfa, List.last_last in Hloop. rewrite Hloop. cbn [mbind result_bind]. destruct r as [[s q]|].
      * destruct Hres as [Hfs (Hsn & Hhigh & A & T & B & HL & Hseg)].
        destruct (Hsegnn _ _ _ _ _ _ HL Hseg). do 4 eexists. split; [done|]. right. split; [done|].
        split; [done|]. split; [done|]. split; [|by exists A, T, B]. split; [apply Hfs|]. split; [apply Hfs|].
        split; [by split|]. intros b' [Hb' Hsn']. by apply Hhigh; [|apply Hsn'].
      * do 4 eexists. split; [done|]. left. split; [done|]. split; [|done]. intros b' [Hb' Hsn']. by apply (Hres b' Hb'), Hsn'.
    + destruct (AllocateSearch_bottom_up st Map L hi Hrep Hc check Hck al Length
        (max_address AllocateType base hi) Hal Hlen Hwrap AllocateType (length L) [] L base
        (walk_bound st) Edown) as (r & b & Hloop & Hres); [done|lia|lia| |].
      { intros b mid Hcm ((? & _) & _). destruct L; simpl in *; lia. }
      rewrite Hfw, Hloop. cbn [mbind result_bind]. destruct r as [[s q]|].
      * destruct Hres as [Hfs (Hleast & A & T & B & HL & Hseg)].
        destruct (Hsegnn _ _ _ _ _ _ HL Hseg). do 4 eexists. split; [done|]. right. split; [done|].
        split; [done|]. split; [done|]. split; [|by exists A, T, B]. split; [apply Hfs|]. split; [apply Hfs|].
        split; [split; [done|congruence]|]. intros b' [Hb' _]. by apply Hleast.
      * do 4 eexists. split; [done|]. left. split; [done|]. split; [|done]. intros b' [Hb' _]. by apply (Hres b').
Qed.

(** The answer to a request, and the map after it. *)
Inductive alloc_outcome (st : GCD) (L : list node) (hi : Z) (check : EFI_GCD_MAP_ENTRY -> EFI_STATUS)
    (AllocateType al Length base Image Device : Z) (L' : list node) : EFI_STATUS * Z -> Prop :=
| alloc_not_found b :
    alloc_none L hi check AllocateType al Length base -> L' = L ->
    (AllocateType = EfiGcdAllocateAddress -> b = base) ->
    alloc_outcome st L hi check AllocateType al Length base Image Device L' (EFI_NOT_FOUND, b)
| alloc_no_memory b :
    alloc_ok L hi check AllocateType al Length base b -> (CoreAllocateGcdMapEntry st).1.1.1 = EFI_OUT_OF_RESOURCES -> L' = L ->
    alloc_outcome st L hi check AllocateType al Length base Image Device L' (EFI_OUT_OF_RESOURCES, b)
| alloc_done b :
    alloc_ok L hi check AllocateType al Length base b ->
    updated L L' b Length (fun '(c, a, m, io, _, _) i' => i' = (c, a, m, io, Image, Device)) ->
    (length L' <= 2 + length L)%nat ->
    alloc_outcome st L hi check AllocateType al Length base Image Device L' (EFI_SUCCESS, b).

Lemma set_Handles_field_change Image Device :
  field_change (fun a Entry => (a, set_Handles Image Device Entry)).
Proof. by intros a e. Qed.

Lemma AllocateSpace_locked_spec st Map L Map2 L2 hi Operation AllocateType MemoryType IoType al Length
    base Image Device :
  maps st Map L Map2 L2 -> contig 0 L hi -> hi <= 2 ^ 64 -> capacity Max (NULL :: NULL :: L.*1) ->
  alloc_request hi Operation AllocateType MemoryType IoType al Length base Image ->
  exists r st' L',
    AllocateSpace_locked Verify Max st Map Operation AllocateType MemoryType IoType al Length base
      Image Device = Ok (r, st') /\
    maps st' Map L' Map2 L2 /\ contig 0 L' hi /\ same_locks st st' /\
    alloc_outcome st L hi (CoreAllocateSpaceCheckEntry Operation MemoryType IoType) AllocateType al
      Length base Image Device L' r.
Proof.
  intros Hm Hc Hhi Hcap Hreq. unfold AllocateSpace_locked.
  destruct (AllocateSpace_find_spec st Map L hi Operation AllocateType MemoryType IoType al Length base
    Image (maps_rep _ _ _ _ _ Hm) Hc Hreq) as (Status & s & q & b & -> & Hres).
  cbn [mbind result_bind]. destruct Hres as [(-> & Hnone & Hbase)|(-> & Hs & Hq & Hok & A & T & B & -> & Hseg)];
    cbn [EFI_ERROR].
  { exists (EFI_NOT_FOUND, b), st, L. repeat (split; [done|]). by apply alloc_not_found. }
  destruct (CoreAllocateGcdMapEntry_spec st _ _ _ _ Hm) as (s0 & t & z & st1 & Hal & Hm1 & Ho1 & Hs0).
  rewrite Hal. destruct Hs0 as [->|(-> & Htz & Htn & Hzn & Ht & Hz & Ht2 & Hz2)]; cbn [EFI_ERROR].
  { exists (EFI_OUT_OF_RESOURCES, b), st1, (A ++ T ++ B). split; [done|]. split; [done|].
    split; [done|]. split; [by eapply outside_locks|]. apply alloc_no_memory; [done|by rewrite Hal|done]. }
  rewrite (proj2 (Z.eqb_neq t NULL)), (proj2 (Z.eqb_neq z NULL)) by done.
  cbn [negb andb ASSERT mbind result_bind].
  pose proof Hok as ((Hb0 & Hbhi & _) & _). pose proof (req_length _ _ _ _ _ _ _ _ _ Hreq).
  destruct (convert_maps Verify Max (fun a Entry => (a, set_Handles Image Device Entry)) b Length t z st1
    Map A T B Map2 L2 s q hi 0) as (st3 & st4 & L' & -> & Hcl & Hm' & Hc' & Hlk & Hlen' & Hupd);
    try done; [repeat split; lia|].
  cbn [mbind result_bind]. rewrite Hcl. cbn [mbind result_bind].
  exists (EFI_SUCCESS, b), st4, L'. split; [done|]. split; [done|]. split; [done|]. split.
  { destruct (outside_locks _ _ _ Ho1), Hlk. split; congruence. }
  apply alloc_done; [done| |done].
  eapply converts_updated; [by apply (Hupd (fun a '(c, at', m, io, _, _) => (a, (c, at', m, io, Image, Device))))|].
  by intros x [[[[[? ?] ?] ?] ?] ?].
Qed.

(** The parameters that are refused. *)
Lemma CoreAllocateSpace_refuses st Operation AllocateType MemoryType IoType al Length base Image Device :
  let call := CoreAllocateSpace Verify Max st Operation AllocateType MemoryType IoType al Length base Image Device in
  let valid := u32 AllocateType < EfiGcdMaxAllocateType /\ u32 MemoryType < EfiGcdMemoryTypeMaximum /\
               u32 IoType < EfiGcdIoTypeMaximum /\ base <> None /\ Image <> NULL in
  (~ valid -> call = Ok (EFI_INVALID_PARAMETER, base, st)) /\
  (valid -> 64 <= al -> call = Ok (EFI_NOT_FOUND, base, st)) /\
  (valid -> al < 64 -> Length = 0 -> call = Ok (EFI_INVALID_PARAMETER, base, st)).
Proof.
  intros call valid. unfold call, valid, CoreAllocateSpace. clear call valid. rewrite !Z.geb_leb.
  destruct (Z.leb_spec EfiGcdMaxAllocateType (u32 AllocateType)); [split; [done|split; intros; lia]|].
  destruct (Z.leb_spec EfiGcdMemoryTypeMaximum (u32 MemoryType)); [split; [done|split; intros; lia]|].
  destruct (Z.leb_spec EfiGcdIoTypeMaximum (u32 IoType)); [split; [done|split; intros; lia]|].
  destruct base as [b|]; [|split; [done|split; intros (_ & _ & _ & Hb & _); by destruct Hb]].
  destruct (Z.eqb_spec Image NULL); [split; [done|split; intros (_ & _ & _ & _ & Hi); by destruct Hi]|].
  split; [intros Hn; by destruct Hn|]. destruct (Z.leb_spec 64 al); [split; [done|lia]|]. split; [lia|]. by intros _ _ ->.
Qed.

Lemma alloc_outcome_ext st1 st2 L hi check check' AllocateType al Length base Image Device L' r :
  (CoreAllocateGcdMapEntry st1).1.1.1 = (CoreAllocateGcdMapEntry st2).1.1.1 ->
  (forall e, check e = check' e) ->
  alloc_outcome st1 L hi check AllocateType al Length base Image Device L' r ->
  alloc_outcome st2 L hi check' AllocateType al Length base Image Device L' r.
Proof.
  intros Hal Hext.
  assert (Hfree : forall b, free L hi check Length b <-> free L hi check' Length b).
  { intros b. unfold free, throughout. by setoid_rewrite Hext. }
  assert (Hfound : forall b, found L hi check AllocateType al Length base b <-> found L hi check' AllocateType al Length base b).
  { intros b. unfold found, feasible. by rewrite Hfree. }
  assert (Hok' : forall b, alloc_ok L hi check AllocateType al Length base b -> alloc_ok L hi check' AllocateType al Length base b).
  { intros b (?%Hfree & ? & Hok). split; [done|]. split; [done|].
    destruct (_ =? _); [done|]. destruct Hok as [?%Hfound Hlow]. split; [done|].
    intros b' ?%Hfound. by apply Hlow. }
  intros [b Hn HL Hb|b Hok Hn HL|b Hok Hupd Hlen];
    [apply alloc_not_found; [|done..]|apply alloc_no_memory; [by apply Hok'|congruence|done]|apply alloc_done; [by apply Hok'|done..]].
  unfold alloc_none in *. destruct (_ =? _).
  - by intros [?%Hfree ?]; apply Hn.
  - intros b' ?%Hfound. by apply (Hn b').
Qed.

Lemma CoreAllocateSpace_spec st LM LI hiM hiI Operation AllocateType MemoryType IoType al Length base
    Image Device :
  gcd_wf hiM hiI st LM LI ->
  alloc_request (if on_memory Operation then hiM else hiI) Operation AllocateType MemoryType IoType al
    Length base Image ->
  capacity Max (NULL :: NULL :: (if on_memory Operation then LM else LI).*1) ->
  exists Status b st' L',
    CoreAllocateSpace Verify Max st Operation AllocateType MemoryType IoType al Length (Some base)
      Image Device = Ok (Status, Some b, st') /\
    alloc_outcome st (if on_memory Operation then LM else LI) (if on_memory Operation then hiM else hiI)
      (allocatable Operation MemoryType IoType) AllocateType al Length base Image Device
      L' (Status, b) /\
    gcd_wf hiM hiI st' (if on_memory Operation then L' else LM) (if on_memory Operation then LI else L').
Proof.
  intros Hwf Hreq Hcap. pose proof Hreq as [Hop Hty HMT HIT Him Hal Hlen _ _ _ _].
  unfold CoreAllocateSpace, EfiGcdMaxAllocateType, EfiGcdMemoryTypeMaximum, EfiGcdIoTypeMaximum in *.
  rewrite !(wrap_small 32), !Z.geb_leb by lia.
  rewrite !(proj2 (Z.leb_gt _ _)), (proj2 (Z.eqb_neq Image _)), (proj2 (Z.eqb_neq Length 0)) by lia.
  assert (Hgop : gcd_operation Operation).
  { unfold gcd_operation. destruct Hop as [->| ->]; clear; set_solver. }
  destruct (with_map_lock Operation hiM hiI st LM LI (fun st Map =>
      AllocateSpace_locked Verify Max st Map Operation AllocateType MemoryType IoType al Length base
        Image Device)
    (fun r L' => alloc_outcome st (if on_memory Operation then LM else LI)
      (if on_memory Operation then hiM else hiI)
      (allocatable Operation MemoryType IoType) AllocateType al Length base Image Device L' r)
    Hgop Hwf) as ([Status b] & st' & L' & Heq & Ho & Hwf').
  { intros st1 Map L Map2 L2 hi Hm Hc Hhi Hals -> ->.
    destruct (AllocateSpace_locked_spec st1 Map _ Map2 L2 _ Operation AllocateType MemoryType IoType al
      Length base Image Device Hm Hc Hhi Hcap Hreq) as (r & st2 & L' & H1 & H2 & H3 & H4 & H5).
    exists r, st2, L'. repeat (split; [done|]).
    eapply alloc_outcome_ext, H5; [done|]. intros e. by apply check_allocatable. }
  exists Status, b, st', L'. split; [|done].
  destruct (SelectMap Operation st) as [[Map st1]| | |]; [|done..]. cbn [mbind result_bind] in *.
  destruct (AllocateSpace_locked _ _ _ _ _ _ _ _ _ _ _ _ _) as [[[S0 b0] st2]| | |]; [|done..].
  cbn [mbind result_bind] in *.
  destruct (ReleaseMap Operation st2) as [st3| | |]; [|done..]. cbn [mbind result_bind] in *.
  by injection Heq as -> -> ->.
Qed.
End Allocate.
