(* ===== verification/GcdTheorems.v ===== *)
(** The properties of the GCD services, the defects found in them, and the
    properties at concrete inputs. *)

From S2P Require Import Prelude LinkedList Gcd GcdMap GcdSpace GcdAllocate.

Section Properties.
Context `{PoolAllocator} (Verify : bool) (Max : nat) (gCpu : option (Z -> Z -> Z -> EFI_STATUS)).

(** The lists have room for the two nodes that a call may add. *)
Definition room (st : GCD) : Prop :=
  forall Map L, rep st Map L -> capacity Max (NULL :: NULL :: L.*1).

Lemma wf_room_memory hiM hiI st LM LI : gcd_wf hiM hiI st LM LI -> room st -> capacity Max (NULL :: NULL :: LM.*1).
Proof. intros [[Hr _ _] _ _ _ _ _ _] Hroom. by eapply Hroom. Qed.

Lemma wf_room hiM hiI st LM LI (b : bool) :
  gcd_wf hiM hiI st LM LI -> room st -> capacity Max (NULL :: NULL :: (if b then LM else LI).*1).
Proof. intros [[H1 H2 _] _ _ _ _ _ _] Hroom. destruct b; by eapply Hroom. Qed.

(** * Conversion *)

(** C13: [CoreConvertSpace], for each of its operations (add, free, remove, set
    attributes, set capabilities; memory and I/O), from a well-formed state whose
    lists have room for two more nodes, and for a range that does not wrap
    ([Base + Length <= 2 ^ 64]; [GcdDefects.CoreConvertSpace_wraps] shows why): a
    zero length is refused; a range that leaves the map gives [EFI_UNSUPPORTED]; a
    range with an address that the operation does not apply to gives the status of
    that address; a failed allocation or a failing CPU protocol gives their status;
    in all these cases the map says what it said before.  Otherwise the operation
    succeeds, and changes exactly the addresses of the range, each to the value of
    [convert_info]; for attributes without CPU attributes, that includes the CPU
    attributes of all records from the base of the range up to the address
    ([gathered]; see [GcdDefects.SetAttributes_leaks]).  The other map is untouched,
    the records of both still tile their address spaces, the locks are released,
    and no ASSERT fails. *)
Theorem CoreConvertSpace_correct st LM LI hiM hiI Operation MemoryType IoType Base Length Caps Attrs
    (Hop : gcd_operation Operation) (Hwf : gcd_wf hiM hiI st LM LI) (Hrange : range Base Length)
    (Hroom : room st) :
  CoreConvertSpace Verify Max gCpu st Operation MemoryType IoType Base 0 Caps Attrs
    = Ok (EFI_INVALID_PARAMETER, st) /\
  exists Status st' L',
    CoreConvertSpace Verify Max gCpu st Operation MemoryType IoType Base Length Caps Attrs
      = Ok (Status, st') /\
    convert_outcome gCpu st (if on_memory Operation then LM else LI)
      (if on_memory Operation then hiM else hiI) Operation MemoryType IoType Base Length Caps Attrs
      L' Status /\
    gcd_wf hiM hiI st' (if on_memory Operation then L' else LM) (if on_memory Operation then LI else L').
Proof.
  split; [done|]. apply CoreConvertSpace_spec; try done. by eapply wf_room.
Qed.

(** C12: [CoreAllocateSpace] refuses invalid parameters.  For valid ones, from a
    well-formed state whose lists have room for two more nodes, and when no address
    computation wraps ([alloc_request]: a given address has [base + Length <= 2 ^
    64]; for a search the size of the space, the alignment and the length sum to at
    most [2 ^ 64]), it returns: the range that it hands out was free, of the
    requested type, aligned, and (when searching) below the given limit; it is owned
    by the given handles afterwards and nothing else changes.  At a given address,
    the request fails only if that range is not free and aligned.  A bottom-up
    search returns the lowest possible address, and fails only if there is none.  A
    top-down search returns the highest of the addresses that it sees, and fails
    only if it sees none: it does not see those whose range ends in a record with
    [BaseAddress + Length] above the limit ([GcdDefects.TopDown_misses_exact_fit]).
    Besides, the allocation fails only when there is no memory for the nodes. *)
Theorem CoreAllocateSpace_correct :
  (forall st Operation AllocateType MemoryType IoType al Length base Image Device,
     let call := CoreAllocateSpace Verify Max st Operation AllocateType MemoryType IoType al Length base Image Device in
     let valid := u32 AllocateType < EfiGcdMaxAllocateType /\ u32 MemoryType < EfiGcdMemoryTypeMaximum /\
                  u32 IoType < EfiGcdIoTypeMaximum /\ base <> None /\ Image <> NULL in
     (~ valid -> call = Ok (EFI_INVALID_PARAMETER, base, st)) /\
     (valid -> 64 <= al -> call = Ok (EFI_NOT_FOUND, base, st)) /\
     (valid -> al < 64 -> Length = 0 -> call = Ok (EFI_INVALID_PARAMETER, base, st))) /\
  forall st LM LI hiM hiI Operation AllocateType MemoryType IoType al Length base Image Device,
    gcd_wf hiM hiI st LM LI -> room st ->
    alloc_request (if on_memory Operation then hiM else hiI) Operation AllocateType MemoryType IoType al Length base Image ->
    exists Status b st' L',
      CoreAllocateSpace Verify Max st Operation AllocateType MemoryType IoType al Length (Some base)
        Image Device = Ok (Status, Some b, st') /\
      alloc_outcome st (if on_memory Operation then LM else LI) (if on_memory Operation then hiM else hiI)
        (allocatable Operation MemoryType IoType) AllocateType al Length base Image Device
        L' (Status, b) /\
      gcd_wf hiM hiI st' (if on_memory Operation then L' else LM) (if on_memory Operation then LI else L').
Proof.
  split; [intros; apply CoreAllocateSpace_refuses|].
  intros. apply CoreAllocateSpace_spec; try done. by eapply wf_room.
Qed.

(** * Descriptors *)

Lemma rep_same_lock st Map L (st' : GCD) :
  links st' = links st -> entries st' = entries st -> rep st Map L -> rep st' Map L.
Proof. intros Hl He [Hd HF]. unfold rep, holds in *. by rewrite Hl, He. Qed.

(** The entry at an address of a map. *)
Lemma FindEntry_spec st Map L hi a :
  rep st Map L -> contig 0 L hi -> hi <= 2 ^ 64 -> 0 <= a < 2 ^ 64 ->
  (a < hi /\ exists e, FindEntry st Map a = Ok (EFI_SUCCESS, Some e) /\ covers e a = true /\
     info_at L a = Some (info e) /\ 0 <= BaseAddress e /\ EndAddress e < hi) \/
  (hi <= a /\ FindEntry st Map a = Ok (EFI_NOT_FOUND, None)).
Proof.
  intros Hrep Hc Hhi Ha. unfold FindEntry.
  destruct (CoreSearchGcdMapEntry_spec st Map L a 1 0 hi)
    as [(Hin & s & q & A & T & B & -> & Hseg & ->)|(Hout & s & ->)]; try done; try lia; [repeat split; lia| |];
    cbn [mbind result_bind EFI_ERROR].
  2: { right. split; [lia|done]. }
  left. split; [lia|]. destruct Hseg as [(e & Hh & He) (f & Hl & Hf)].
  destruct T as [|n T]; [done|]. injection Hh as ->. simpl app in *.
  assert (Hs : s <> NULL) by (by destruct (rep_notin _ _ _ _ _ _ Hrep)).
  assert (Hq : q <> NULL).
  { apply last_Some in Hl as [T' HT']. rewrite app_comm_cons, HT', <-app_assoc, app_assoc in Hrep.
    by destruct (rep_notin _ _ _ _ _ _ Hrep). }
  rewrite (proj2 (Z.eqb_neq s NULL)), (proj2 (Z.eqb_neq q NULL)) by done.
  cbn [negb andb ASSERT mbind result_bind]. rewrite (proj2 (rep_mid _ _ _ _ _ _ Hrep)).
  cbn [mbind result_bind]. exists e. assert (Hcov : covers e a = true) by (apply covers_true; lia).
  split; [done|]. split; [done|]. split; [exact (info_at_in _ _ _ _ _ _ Hc Hcov)|].
  apply contig_app in Hc as (mid & ?%contig_le & ? & ? & ?%contig_le). simpl in *. lia.
Qed.

(** [CoreGetMemorySpaceDescriptor] and [CoreGetIoSpaceDescriptor] return,
    for an address of the map, a descriptor whose range holds the address and
    whose fields are what the map says there, [EFI_NOT_FOUND] for an address
    beyond the map, [EFI_INVALID_PARAMETER] for a [NULL] descriptor; they change
    nothing. *)
Theorem CoreGetSpaceDescriptor_correct st LM LI hiM hiI a
    (Hwf : gcd_wf hiM hiI st LM LI) (Ha : 0 <= a < 2 ^ 64) :
  (exists s d, CoreGetMemorySpaceDescriptor st a false = Ok (s, d, st) /\
     match d with
     | Some d => s = EFI_SUCCESS /\ a < hiM /\
         md_BaseAddress d <= a < md_BaseAddress d + md_Length d /\
         exists io, info_at LM a = Some (md_Capabilities d, md_Attributes d, md_GcdMemoryType d, io,
                                         md_ImageHandle d, md_DeviceHandle d)
     | None => s = EFI_NOT_FOUND /\ hiM <= a
     end) /\
  (exists s d, CoreGetIoSpaceDescriptor st a false = Ok (s, d, st) /\
     match d with
     | Some d => s = EFI_SUCCESS /\ a < hiI /\
         io_BaseAddress d <= a < io_BaseAddress d + io_Length d /\
         exists c at' m, info_at LI a = Some (c, at', m, io_GcdIoType d, io_ImageHandle d, io_DeviceHandle d)
     | None => s = EFI_NOT_FOUND /\ hiI <= a
     end) /\
  CoreGetMemorySpaceDescriptor st a true = Ok (EFI_INVALID_PARAMETER, None, st) /\
  CoreGetIoSpaceDescriptor st a true = Ok (EFI_INVALID_PARAMETER, None, st).
Proof.
  destruct Hwf as [[Hr1 Hr2 _] HcM HcI HhM HhI Hl1 Hl2].
  unfold CoreGetMemorySpaceDescriptor, CoreGetIoSpaceDescriptor, CoreAcquireGcdMemoryLock,
    CoreReleaseGcdMemoryLock, CoreAcquireGcdIoLock, CoreReleaseGcdIoLock.
  rewrite Hl1, Hl2. cbn [negb ASSERT mbind result_bind].
  assert (Hst1 : set_memory_lock false (set_memory_lock true st) = st)
    by (unfold set_memory_lock; destruct st; simpl in *; congruence).
  assert (Hst2 : set_io_lock false (set_io_lock true st) = st)
    by (unfold set_io_lock; destruct st; simpl in *; congruence).
  assert (Hw : forall e hi, hi <= 2 ^ 63 -> covers e a = true -> 0 <= BaseAddress e -> EndAddress e < hi ->
    BaseAddress e <= a < BaseAddress e + u64 (u64 (EndAddress e - BaseAddress e) + 1)).
  { intros e hi Hhi Hcov%covers_true Hb He.
    rewrite (wrap_small 64 (EndAddress e - _)), wrap_small by lia. lia. }
  split; [|split; [|done]].
  - destruct (FindEntry_spec (set_memory_lock true st) mGcdMemorySpaceMap LM hiM a)
      as [(Hlt & e & -> & Hcov & Hi & Hb & He)|[Hge ->]];
      [by apply (rep_same_lock st)|done|lia|done| |]; cbn [mbind result_bind mGcdMemorySpaceLock
        set_memory_lock ASSERT]; rewrite Hst1; do 2 eexists; (split; [done|]); [|done].
    simpl. split; [done|]. split; [done|]. split; [by apply (Hw e hiM)|by exists (GcdIoType e)].
  - destruct (FindEntry_spec (set_io_lock true st) mGcdIoSpaceMap LI hiI a)
      as [(Hlt & e & -> & Hcov & Hi & Hb & He)|[Hge ->]];
      [by apply (rep_same_lock st)|done|lia|done| |]; cbn [mbind result_bind mGcdIoSpaceLock
        set_io_lock ASSERT]; rewrite Hst2; do 2 eexists; (split; [done|]); [|done].
    simpl. split; [done|]. split; [done|]. split; [by apply (Hw e hiI)|].
    by exists (Capabilities e), (Attributes e), (GcdMemoryType e).
Qed.

(** * Sequences of calls *)

Inductive GcdCall :=
| ConvertCall (Operation MemoryType IoType Base Length Caps Attrs : Z)
| AllocateCall (Operation AllocateType MemoryType IoType al Length base Image Device : Z).

Definition gcd_call (c : GcdCall) (st : GCD) : result (EFI_STATUS * GCD) :=
  match c with
  | ConvertCall Operation MemoryType IoType Base Length Caps Attrs =>
      CoreConvertSpace Verify Max gCpu st Operation MemoryType IoType Base Length Caps Attrs
  | AllocateCall Operation AllocateType MemoryType IoType al Length base Image Device =>
      let! (Status, _, st) := CoreAllocateSpace Verify Max st Operation AllocateType MemoryType IoType
        al Length (Some base) Image Device in
      Ok (Status, st)
  end.

(** Calls whose address computations do not wrap. *)
Definition valid_call (hiM hiI : Z) (c : GcdCall) : Prop :=
  match c with
  | ConvertCall Operation _ _ Base Length _ _ => gcd_operation Operation /\ range Base Length
  | AllocateCall Operation AllocateType MemoryType IoType al Length base Image _ =>
      alloc_request (if on_memory Operation then hiM else hiI) Operation AllocateType MemoryType IoType
        al Length base Image
  end.

(** A call in a good state returns, in a good state. *)
Lemma gcd_call_wf hiM hiI st LM LI c :
  gcd_wf hiM hiI st LM LI -> valid_call hiM hiI c -> room st ->
  exists s st' LM' LI', gcd_call c st = Ok (s, st') /\ gcd_wf hiM hiI st' LM' LI'.
Proof.
  intros Hwf Hv Hroom. destruct c as [Op MT IT B Len Caps Attrs|Op AT MT IT al Len base Im Dev]; simpl in *.
  - destruct Hv as [Hop Hr].
    destruct (CoreConvertSpace_spec Verify Max gCpu st LM LI hiM hiI Op MT IT B Len Caps Attrs)
      as (s & st' & L' & -> & _ & Hwf'); eauto using wf_room.
    destruct (on_memory Op); eauto 10.
  - destruct (CoreAllocateSpace_spec Verify Max st LM LI hiM hiI Op AT MT IT al Len base Im Dev)
      as (s & b & st' & L' & -> & _ & Hwf'); eauto using wf_room.
    cbn [mbind result_bind]. destruct (on_memory Op); eauto 10.
Qed.

(** How a call changes one address of the memory map. *)
Definition frees (c : GcdCall) (x : Z) : Prop :=
  match c with
  | ConvertCall Operation _ _ Base Length _ _ =>
      Operation = GCD_FREE_MEMORY_OPERATION /\ in_range Base Length x = true
  | AllocateCall _ _ _ _ _ _ _ _ _ => False
  end.

(** An operation other than freeing keeps the type and the owner of the
    addresses that have one. *)
Lemma convert_keeps_owner Operation MemoryType IoType Base Length Caps Attrs Gathered c a m io im d :
  gcd_operation Operation -> on_memory Operation = true ->
  check_info Operation Base Length Caps Attrs (c, a, m, io, im, d) = EFI_SUCCESS ->
  im <> NULL -> Operation <> GCD_FREE_MEMORY_OPERATION ->
  exists c' a', convert_info Operation MemoryType IoType Caps Attrs Gathered (c, a, m, io, im, d) = (c', a', m, io, im, d).
Proof.
  unfold gcd_operation. rewrite !elem_of_cons, elem_of_nil. intros Hop Hmem Hck Him Hnf.
  repeat destruct Hop as [->|Hop]; try done; clear Hmem Hnf;
    cbv [check_info convert_info] in Hck |- *; eqb_compute;
    repeat (case_decide; try done; intuition (try done)); cbn [andb orb]; eauto.
Qed.

(** ownership: an address of the memory map that has an owner keeps its
    type, owner and device through every call, whoever makes it, except a
    [CoreFreeMemorySpace] of a range that holds it. *)
Theorem gcd_owner_kept hiM hiI st LM LI c s st' x caps a m io im d
    (Hwf : gcd_wf hiM hiI st LM LI) (Hvalid : valid_call hiM hiI c) (Hroom : room st)
    (Hcall : gcd_call c st = Ok (s, st'))
    (Hx : info_at LM x = Some (caps, a, m, io, im, d)) (Howned : im <> NULL) (Hfree : ~ frees c x) :
  exists LM' LI' caps' a', gcd_wf hiM hiI st' LM' LI' /\
    info_at LM' x = Some (caps', a', m, io, im, d).
Proof.
  destruct c as [Op MT IT B Len Caps Attrs|Op AT MT IT al Len base Im Dev]; simpl in *.
  - destruct Hvalid as [Hop Hr].
    destruct (CoreConvertSpace_spec Verify Max gCpu st LM LI hiM hiI Op MT IT B Len Caps Attrs)
      as (s' & st1 & L' & Heq & Ho & Hwf'); eauto using wf_room.
    rewrite Hcall in Heq. injection Heq as <- <-.
    destruct (on_memory Op) eqn:Hm; [|eauto 10].
    destruct Ho; subst; eauto 10. exists L', LI.
    match goal with H : converts _ _ _ _ _ |- _ => rewrite (H x), Hx end. cbn [fmap option_fmap option_map].
    destruct (in_range B Len x) eqn:Ex; [|eauto].
    match goal with H : throughout _ _ _ _ |- _ => pose proof (H x _ Ex Hx) as Hck end.
    destruct (convert_keeps_owner Op MT IT B Len Caps Attrs (gathered LM B x) caps a m io im d) as (c' & a' & ->); eauto.
  - destruct (CoreAllocateSpace_spec Verify Max st LM LI hiM hiI Op AT MT IT al Len base Im Dev)
      as (s' & b & st1 & L' & Heq & Ho & Hwf'); eauto using wf_room.
    rewrite Heq in Hcall. cbn [mbind result_bind] in Hcall. injection Hcall as <- <-.
    destruct (on_memory Op) eqn:Hm; [|eauto 10].
    inversion Ho as [? ? -> _|? ? ? ->|? Hok Hupd _]; subst; eauto 10. exists L', LI.
    specialize (Hupd x). rewrite Hx in Hupd. destruct Hupd as (i' & -> & Hrel).
    destruct (in_range b Len x) eqn:Ex; [|subst; eauto].
    destruct Hok as ((_ & _ & Hf) & _). pose proof (Hf x _ Ex Hx) as Hck.
    unfold allocatable in Hck. simpl in Hck. case_decide; [tauto|done].
Qed.

(** Two updates of the same range. *)
Lemma updated_twice L L1 L2 Base Length R1 R2 :
  updated L L1 Base Length R1 -> updated L1 L2 Base Length R2 ->
  updated L L2 Base Length (fun i i2 => exists i1, R1 i i1 /\ R2 i1 i2).
Proof.
  intros H1 H2 x. specialize (H1 x). specialize (H2 x). unfold changed in *.
  destruct (info_at L x) as [i|].
  - destruct H1 as (i1 & E1 & H1). rewrite E1 in H2. destruct H2 as (i2 & -> & H2). exists i2.
    split; [done|]. destruct (in_range Base Length x); [eauto|congruence].
  - by rewrite H1 in H2.
Qed.

Lemma updated_throughout L L' Base Length R (P Q : Z * Z * Z * Z * Z * Z -> Prop) :
  updated L L' Base Length R -> throughout L Base Length P ->
  (forall i i', P i -> R i i' -> Q i') -> throughout L' Base Length Q.
Proof.
  intros Hu Ht HPQ x i' Hx Hi'. specialize (Hu x). unfold changed in Hu.
  destruct (info_at L x) as [i|] eqn:E; [|congruence]. destruct Hu as (i1 & E1 & Hu).
  rewrite Hx in Hu. rewrite E1 in Hi'. injection Hi' as <-. eauto.
Qed.

(** C34: an allocated range cannot be allocated again, and freeing it gives
    back what there was: after a successful [CoreAllocateMemorySpace], a second
    request for the same address gets [EFI_NOT_FOUND], and
    [CoreFreeMemorySpace] of the range, if it gets its work memory, succeeds and
    leaves the memory map as it was before the allocation (with a [NULL]
    device). *)
Theorem CoreAllocate_free_roundtrip st LM LI hiM hiI AllocateType MemoryType al Length base Image Device b st1
    (Hwf : gcd_wf hiM hiI st LM LI) (Hroom : room st) (Hroom1 : room st1)
    (Hreq : alloc_request hiM GCD_ALLOCATE_MEMORY_OPERATION AllocateType MemoryType 0 al Length base Image)
    (Halloc : CoreAllocateMemorySpace Verify Max st AllocateType MemoryType al Length (Some base) Image
                Device = Ok (EFI_SUCCESS, Some b, st1))
    (Hmem : (CoreAllocateGcdMapEntry st1).1.1.1 = EFI_SUCCESS) :
  (exists b' st', CoreAllocateMemorySpace Verify Max st1 EfiGcdAllocateAddress MemoryType al Length (Some b)
     Image Device = Ok (EFI_NOT_FOUND, Some b', st')) /\
  exists st2 LM2 LI2, CoreFreeMemorySpace Verify Max gCpu st1 b Length = Ok (EFI_SUCCESS, st2) /\
    gcd_wf hiM hiI st2 LM2 LI2 /\
    updated LM LM2 b Length (fun '(c, a, m, io, im, _) i' => im = NULL /\ i' = (c, a, m, io, im, NULL)).
Proof.
  pose proof Hreq as [_ _ HMT HIT Him Hal Hlen _ _ Hwrap Hhi].
  destruct (CoreAllocateSpace_spec Verify Max st LM LI hiM hiI GCD_ALLOCATE_MEMORY_OPERATION AllocateType
    MemoryType 0 al Length base Image Device Hwf Hreq (wf_room_memory _ _ _ _ _ Hwf Hroom))
    as (s & b1 & st1' & LM1 & Heq & Ho & Hwf1).
  unfold CoreAllocateMemorySpace in *. rewrite Halloc in Heq. injection Heq as <- <- <-.
  cbn [on_memory] in Ho, Hwf1. change (on_memory GCD_ALLOCATE_MEMORY_OPERATION) with true in *. cbv iota in *.
  inversion Ho as [| |b1 Hok Hupd Hlen1]; subst b1.
  destruct Hok as ((Hb0 & Hbhi & Hfree) & Hmod & _).
  assert (Hown : throughout LM1 b Length (fun i => check_info GCD_FREE_MEMORY_OPERATION b Length 0 0 i = EFI_SUCCESS /\
    allocatable GCD_ALLOCATE_MEMORY_OPERATION MemoryType 0 (entry_of i) <> EFI_SUCCESS)).
  { eapply updated_throughout; [exact Hupd|exact Hfree|].
    intros [[[[[c a] m] io] im] d] i' _ ->. unfold check_info, allocatable.
    simpl. by repeat (case_decide; intuition (try done)). }
  split.
  - destruct (CoreAllocateSpace_spec Verify Max st1 LM1 LI hiM hiI GCD_ALLOCATE_MEMORY_OPERATION
      EfiGcdAllocateAddress MemoryType 0 al Length b Image Device Hwf1) as (s & b' & st' & L' & Heq' & Ho' & _).
    { pose proof (wf_hiM _ _ _ _ _ Hwf1). split; try done; try lia; first [by left|by intros []]. }
    { by eapply (wf_room_memory _ _ st1). }
    rewrite Heq'. inversion Ho' as [|? _ Hno|b2 Hok _ _]; subst; [eauto|congruence|exfalso].
    destruct Hok as ((_ & _ & Hf) & _ & Hb'). cbn in Hb'. subst b'.
    destruct (info_at LM1 b) as [i|] eqn:Ei.
    + assert (Hin : in_range b Length b = true) by (apply in_range_true; lia).
      destruct (Hown b i Hin Ei) as [_ Hne]. by apply Hne, (Hf b).
    + destruct Hwf1 as [_ HcM _ _ _ _ _]. apply (info_at_None _ _ _ b HcM) in Ei. lia.
  - unfold CoreFreeMemorySpace.
    destruct (CoreConvertSpace_spec Verify Max gCpu st1 LM1 LI hiM hiI GCD_FREE_MEMORY_OPERATION 0 0 b Length 0 0)
      as (s & st2 & LM2 & -> & Ho2 & Hwf2); [unfold gcd_operation; clear; set_solver|done| |
        by eapply (wf_room_memory _ _ st1)|].
    { destruct Hwf1 as [_ _ _ HhM _ _ _]. repeat split; lia. }
    change (on_memory GCD_FREE_MEMORY_OPERATION) with true in *. cbv iota in *.
    inversion Ho2 as [Hout|x i Hx Hi Hne|Hno|Hcpu|_ _ _ Hupd2 _]; subst.
    + lia.
    + exfalso. by destruct (Hown x i Hx Hi).
    + congruence.
    + done.
    + exists st2, LM2, LI. split; [done|]. split; [done|].
      assert (Hconv : updated LM1 LM2 b Length (fun '(c, a, m, io, _, _) i' => i' = (c, a, m, io, NULL, NULL))).
      { eapply converts_updated; [exact Hupd2|]. by intros x [[[[[? ?] ?] ?] ?] ?]. }
      pose proof (updated_twice _ _ _ _ _ _ _ Hupd Hconv) as Hu. intros x. specialize (Hu x).
      unfold changed in *. destruct (info_at LM x) as [i|] eqn:Ei; [|done].
      destruct Hu as (i2 & -> & Hu). exists i2. split; [done|].
      destruct (in_range b Length x) eqn:Ex; [|done]. destruct Hu as (i1 & Hi1 & Hi2).
      pose proof (Hfree x i Ex Ei) as Hck. destruct i as [[[[[c a] m] io] im] d].
      unfold allocatable in Hck. simpl in Hck. case_decide as Hnone; [|done].
      destruct Hnone as [-> _]. by subst.
Qed.

(** * Adding system memory *)

Lemma pool_total st :
  (forall live, AllocatePool live <> None) -> (CoreAllocateGcdMapEntry st).1.1.1 = EFI_SUCCESS.
Proof.
  intros Hp. unfold CoreAllocateGcdMapEntry, AllocateZeroPool.
  pose proof (Hp (dom (links st))). destruct (AllocatePool (dom (links st))); [|done]. simpl.
  match goal with |- context [AllocatePool ?l] => pose proof (Hp l); by destruct (AllocatePool l) end.
Qed.

Lemma page_align x : 0 <= x -> x + 0xFFF < 2 ^ 64 -> x mod 0x1000 = 0 ->
  PageAlignAddress x = x /\ PageAlignLength x = x.
Proof.
  intros H0 H1 Hm. unfold PageAlignAddress, PageAlignLength, AlignValue, EFI_PAGE_SHIFT.
  assert (H12 : 0 <= 12 < 64) by lia. pose proof (AlignmentMask_spec 12 H12) as Hmask.
  change (2 ^ 12 - 1) with 0xFFF in Hmask. rewrite Hmask at 1.
  rewrite (wrap_small 64) by lia. rewrite !align_down by lia.
  change (2 ^ 12) with 0x1000.
  pose proof (Z.div_mod x 0x1000). split; [|lia].
  replace (x + 0xFFF) with (x / 0x1000 * 0x1000 + 0xFFF) at 1 by lia.
  rewrite Z.div_add_l by lia. change (0xFFF / 0x1000) with 0. lia.
Qed.

Context (gDxeCoreImageHandle : Z).

(** [CoreAddMemorySpace] of page-aligned system memory over a free,
    nonexistent range: the range becomes memory of the given type with the
    given capabilities (and [EFI_MEMORY_RUNTIME]), it is allocated to the DXE core at
    once, and its pages are handed to the UEFI memory map with one call; the
    rest of the map does not change. *)
Theorem CoreAddMemorySpace_system st LM LI hiM hiI MemoryType Base Length Caps fuel
    (Hwf : gcd_wf hiM hiI st LM LI)
    (Htype : MemoryType = EfiGcdMemoryTypeSystemMemory \/ MemoryType = EfiGcdMemoryTypeMoreReliable)
    (Hbase : 0 <= Base /\ Base mod 0x1000 = 0) (Hlength : 0 < Length /\ Length mod 0x1000 = 0)
    (Hin : Base + Length <= hiM)
    (Hfree : throughout LM Base Length
      (fun '(_, _, m, _, im, _) => m = EfiGcdMemoryTypeNonExistent /\ im = NULL))
    (Hpool : forall live, AllocatePool live <> None) (Himage : gDxeCoreImageHandle <> NULL)
    (Hcap : capacity Max (NULL :: NULL :: NULL :: NULL :: LM.*1)) :
  exists st' LM' LI',
    CoreAddMemorySpace Verify Max gCpu gDxeCoreImageHandle fuel st MemoryType Base Length Caps
      = Ok (EFI_SUCCESS, st') /\
    gcd_wf hiM hiI st' LM' LI' /\
    updated LM LM' Base Length (fun '(_, a, _, io, _, _) i' =>
      i' = (Z.lor Caps EFI_MEMORY_RUNTIME, a, MemoryType, io, gDxeCoreImageHandle, NULL)) /\
    head (calls st') = Some (CoreAddMemoryDescriptor Base (Length / 0x1000) Caps).
Proof.
  pose proof Hwf as [_ HcM _ HhM _ _ _].
  assert (Hty : 1 <= MemoryType < 6 /\ MemoryType <> EfiGcdMemoryTypeMemoryMappedIo /\
    ((MemoryType =? EfiGcdMemoryTypeSystemMemory) || (MemoryType =? EfiGcdMemoryTypeMoreReliable) = true))
    by (by destruct Htype as [->| ->]).
  destruct Hty as (Hty & Hnm & Hsys).
  unfold CoreAddMemorySpace, CoreInternalAddMemorySpace, EfiGcdMemoryTypeNonExistent, EfiGcdMemoryTypeMaximum.
  rewrite Z.geb_leb, (proj2 (Z.leb_gt MemoryType 0)), (proj2 (Z.leb_gt 6 MemoryType)) by lia. cbn [orb].
  destruct (CoreConvertSpace_spec Verify Max gCpu st LM LI hiM hiI GCD_ADD_MEMORY_OPERATION MemoryType 0 Base
    Length Caps 0) as (s & st1 & LM1 & -> & Ho & Hwf1); [unfold gcd_operation; clear; set_solver|done| | |].
  { repeat split; lia. } { eapply capacity_length; [|exact Hcap]. simpl. lia. }
  change (on_memory GCD_ADD_MEMORY_OPERATION) with true in *. cbv iota in *.
  inversion Ho as [Hout|x i Hx Hi Hne|Hno|Hcpu|_ _ _ Hupd Hlen1]; subst.
  { lia. }
  { exfalso. apply Hne. specialize (Hfree x i Hx Hi). destruct i as [[[[[? ?] ?] ?] ?] ?].
    by destruct Hfree as [-> ->]. }
  { by rewrite pool_total in Hno. } { done. }
  clear Ho. apply (converts_updated _ _ _ _ _ (fun '(_, a, _, io, im, d) i' => i' = (Z.lor Caps EFI_MEMORY_RUNTIME, a, MemoryType, io, im, d))) in Hupd.
  2: { intros x [[[[[? ?] ?] ?] ?] ?]. unfold convert_info. simpl. by rewrite (proj2 (Z.eqb_neq _ _) Hnm), Z.lor_0_r. }
  cbn [mbind result_bind EFI_ERROR negb]. rewrite Hsys. cbn [andb].
  destruct (page_align Base) as [-> _]; [lia|lia|tauto|].
  rewrite (wrap_small 64 (Base + Length)) by lia. replace (Base + Length - Base) with Length by lia.
  rewrite (wrap_small 64 Length) by lia. destruct (page_align Length) as [_ ->]; [lia|lia|tauto|].
  unfold CoreAllocateMemorySpace.
  destruct (CoreAllocateSpace_spec Verify Max st1 LM1 LI hiM hiI GCD_ALLOCATE_MEMORY_OPERATION
    EfiGcdAllocateAddress MemoryType 0 EFI_PAGE_SHIFT Length Base gDxeCoreImageHandle NULL Hwf1)
    as (s & b & st2 & LM2 & Heq & Ho & Hwf2).
  { change (on_memory GCD_ALLOCATE_MEMORY_OPERATION) with true. cbv iota.
    split; try done; unfold EFI_PAGE_SHIFT, EfiGcdMemoryTypeMaximum; try lia; first [by left|by intros []]. }
  { change (on_memory GCD_ALLOCATE_MEMORY_OPERATION) with true. cbv iota.
    eapply capacity_length; [|exact Hcap]. simpl. rewrite !length_fmap. lia. }
  change (on_memory GCD_ALLOCATE_MEMORY_OPERATION) with true in *. cbv iota in *.
  assert (Hfree1 : throughout LM1 Base Length (fun i =>
    allocatable GCD_ALLOCATE_MEMORY_OPERATION MemoryType 0 (entry_of i) = EFI_SUCCESS)).
  { eapply updated_throughout; [exact Hupd|exact Hfree|].
    intros [[[[[c a] m] io] im] d] i' [-> ->] Hrel.
    subst i'.
    unfold allocatable. simpl. by case_decide; intuition. }
  rewrite Heq. inversion Ho as [? Hnone|? _ Hno|? Hok Hupd2 Hlen2]; subst.
  { exfalso. unfold alloc_none in Hnone. rewrite Z.eqb_refl in Hnone. apply Hnone.
    split; [|tauto]. split; [lia|]. by split; [lia|]. }
  { by rewrite pool_total in Hno. }
  destruct Hok as (_ & _ & Hb). rewrite Z.eqb_refl in Hb. subst b.
  cbn [mbind result_bind EFI_ERROR negb default from_option id].
  eexists _, LM2, LI. split; [done|]. split; [|split].
  - destruct Hwf2 as [Hm ? ? ? ? ? ?]. split; try done. by apply maps_call.
  - pose proof (updated_twice _ _ _ _ _ _ _ Hupd Hupd2) as Hu. intros x. specialize (Hu x).
    unfold changed in *. destruct (info_at LM x) as [i|] eqn:Ei; [|done].
    destruct Hu as (i2 & -> & Hu). exists i2. split; [done|].
    destruct (in_range Base Length x) eqn:Ex; [|done]. destruct Hu as (i1 & Hi1 & Hi2).
    destruct i as [[[[[c a] m] io] im] d]. by subst.
  - simpl. f_equal. f_equal. unfold EFI_PAGE_SHIFT. by rewrite Z.shiftr_div_pow2.
Qed.
End Properties.

(** * Reading out the maps *)

Section GetMap.

Lemma Count_loop_spec B st Map A Count fuel :
  rep st Map (A ++ B) -> (length B < fuel)%nat ->
  Count_loop fuel st Map (first Map B) Count = Ok (Count + Z.of_nat (length B)).
Proof.
  revert A Count fuel. induction B as [|[p e] B IH]; intros A Count fuel Hrep Hf;
    (destruct fuel as [|fuel]; [simpl in Hf; lia|]); cbn [Count_loop].
  - change (first Map []) with Map. rewrite Z.eqb_refl. f_equal. simpl. lia.
  - change (first Map ((p, e) :: B)) with p. destruct (rep_notin _ _ _ _ _ _ Hrep) as [Hp _].
    rewrite (proj2 (Z.eqb_neq p Map)) by (intros ->; apply Hp; left).
    destruct (rep_node _ _ _ _ _ _ Hrep) as (n & -> & Hn & _). cbn [mbind result_bind]. rewrite Hn.
    rewrite (IH (A ++ [(p, e)])); [f_equal; simpl length; lia|by rewrite <-app_assoc|simpl in Hf; lia].
Qed.

Lemma CoreCountGcdMapEntry_spec st Map L :
  rep st Map L -> CoreCountGcdMapEntry st Map = Ok (Z.of_nat (length L)).
Proof.
  intros Hrep. unfold CoreCountGcdMapEntry. destruct (rep_head _ _ _ Hrep) as (n & -> & Hn & _).
  cbn [mbind result_bind]. rewrite Hn. apply (Count_loop_spec L st Map [] 0); [done|].
  apply walk_enough in Hrep. lia.
Qed.

Lemma Fill_loop_spec {D} (build : EFI_GCD_MAP_ENTRY -> D) B st Map A space fuel :
  rep st Map (A ++ B) -> (length B < fuel)%nat -> Z.of_nat (length B) <= space ->
  Fill_loop fuel st build Map (first Map B) space = Ok ((fun n => build n.2) <$> B).
Proof.
  revert A space fuel. induction B as [|[p e] B IH]; intros A space fuel Hrep Hf Hs;
    (destruct fuel as [|fuel]; [simpl in Hf; lia|]); cbn [Fill_loop].
  - change (first Map []) with Map. by rewrite Z.eqb_refl.
  - change (first Map ((p, e) :: B)) with p. destruct (rep_notin _ _ _ _ _ _ Hrep) as [Hp _].
    rewrite (proj2 (Z.eqb_neq p Map)) by (intros ->; apply Hp; left).
    rewrite (proj2 (rep_mid _ _ _ _ _ _ Hrep)). cbn [mbind result_bind].
    simpl length in Hs. rewrite (proj2 (Z.leb_gt space 0)) by lia.
    destruct (rep_node _ _ _ _ _ _ Hrep) as (n & -> & Hn & _). cbn [mbind result_bind]. rewrite Hn.
    rewrite (IH (A ++ [(p, e)])); [done|by rewrite <-app_assoc|simpl in Hf; lia|lia].
Qed.

(** The lists that a state represents are determined by it. *)
Lemma wf_length hiM1 hiI1 st LM LI LM' LI' :
  gcd_wf hiM1 hiI1 st LM LI -> gcd_wf hiM1 hiI1 st LM' LI' -> length LM' = length LM.
Proof.
  intros [[H1 _ _] _ _ _ _ _ _] [[H2 _ _] _ _ _ _ _ _].
  apply CoreCountGcdMapEntry_spec in H1, H2. rewrite H1 in H2. injection H2. lia.
Qed.

Context (hiM hiI : Z) (Allocate : nat -> GCD -> option GCD).

(** The rest of the system, while the array is allocated, leaves good maps. *)
Context (Hgood : forall k st LM LI st', gcd_wf hiM hiI st LM LI -> Allocate k st = Some st' ->
  exists LM' LI', gcd_wf hiM hiI st' LM' LI').

(** From round [n] on it does not change the number of entries any more. *)
Context (n : nat) (Hstable : forall k st LM LI st' LM' LI', (n <= k)%nat ->
  gcd_wf hiM hiI st LM LI -> Allocate k st = Some st' -> gcd_wf hiM hiI st' LM' LI' ->
  length LM' = length LM).

Lemma GetMemorySpaceMap_loop_spec fuel st LM LI round N has :
  gcd_wf hiM hiI st LM LI -> (n + 2 <= fuel + round)%nat -> (0 < fuel)%nat ->
  (has = true -> (n < round)%nat -> N = Z.of_nat (length LM)) -> ((n < round)%nat -> has = true) ->
  exists s num l st' LM' LI',
    GetMemorySpaceMap_loop fuel (set_memory_lock true st) Allocate round N has = Ok (s, num, l, st') /\
    (s = EFI_OUT_OF_RESOURCES /\ num = 0 \/
     s = EFI_SUCCESS /\ gcd_wf hiM hiI st' LM' LI' /\
     num = Z.of_nat (length LM') /\ l = (fun nd => BuildMemoryDescriptor nd.2) <$> LM').
Proof.
  revert st LM LI round N has.
  induction fuel as [|fuel IH]; intros st LM LI round N has Hwf Hfuel Hpos HN Hhas; [lia|].
  cbn [GetMemorySpaceMap_loop]. pose proof Hwf as [[Hr _ _] _ _ _ _ Hl1 _].
  assert (Hr1 : rep (set_memory_lock true st) mGcdMemorySpaceMap LM) by (by apply (rep_same_lock st)).
  rewrite (CoreCountGcdMapEntry_spec _ _ _ Hr1). cbn [mbind result_bind].
  assert (Hst1 : set_memory_lock false (set_memory_lock true st) = st)
    by (unfold set_memory_lock; destruct st; simpl in *; congruence).
  unfold CoreReleaseGcdMemoryLock. cbn [mGcdMemorySpaceLock set_memory_lock ASSERT mbind result_bind].
  fold (set_memory_lock true st). rewrite Hst1.
  destruct ((Z.of_nat (length LM) =? N) && has) eqn:E.
  - apply andb_true_iff in E as [<-%Z.eqb_eq ->].
    destruct (rep_head _ _ _ Hr1) as (m & -> & Hm & _). cbn [mbind result_bind]. rewrite Hm.
    rewrite (Fill_loop_spec BuildMemoryDescriptor LM _ mGcdMemorySpaceMap []); [|done| |lia].
    + cbn [mbind result_bind]. do 3 eexists. exists st, LM, LI. split; [done|]. by right.
    + apply walk_enough in Hr1. lia.
  - destruct (Allocate round st) as [st'|] eqn:Eal.
    2: { do 3 eexists. exists st, LM, LI. split; [done|]. by left. }
    destruct (Hgood round st LM LI st' Hwf Eal) as (LM' & LI' & Hwf').
    unfold CoreAcquireGcdMemoryLock. rewrite (wf_memory_lock _ _ _ _ _ Hwf'). cbn [negb ASSERT mbind result_bind].
    destruct (Nat.le_gt_cases (n + 2) (S round)) as [Hle|Hgt].
    { exfalso. rewrite (HN (Hhas ltac:(lia)) ltac:(lia)), (Hhas ltac:(lia)), Z.eqb_refl in E. done. }
    apply (IH st' LM' LI'); [done|lia|lia| |done]. intros _ Hround. f_equal.
    symmetry. eapply (Hstable round); [lia|exact Hwf|exact Eal|exact Hwf'].
Qed.

(** [CoreGetMemorySpaceMap] returns a complete and consistent map although
    the lock is dropped while its array is allocated: if the rest of the system
    keeps the maps well-formed meanwhile, and from round [n] on the number of
    entries is stable, then after at most [n + 2] rounds the call returns, with
    one descriptor for each entry of the map at that time, in order, and with
    the lock released; or it reports that the allocation failed. *)
Theorem CoreGetMemorySpaceMap_snapshot st LM LI (Hwf : gcd_wf hiM hiI st LM LI) :
  exists s num l st' LM' LI',
    CoreGetMemorySpaceMap (n + 2) st Allocate false = Ok (s, num, l, st') /\
    (s = EFI_OUT_OF_RESOURCES /\ num = 0 \/
     s = EFI_SUCCESS /\ gcd_wf hiM hiI st' LM' LI' /\
     num = Z.of_nat (length LM') /\ l = (fun nd => BuildMemoryDescriptor nd.2) <$> LM').
Proof.
  unfold CoreGetMemorySpaceMap, CoreAcquireGcdMemoryLock. rewrite (wf_memory_lock _ _ _ _ _ Hwf).
  cbn [negb ASSERT mbind result_bind].
  apply (GetMemorySpaceMap_loop_spec (n + 2) st LM LI 0 0 false); [done|lia|lia|done|lia].
Qed.
End GetMap.

(** * Initialization *)

Section Initialize.
Context `{PoolAllocator} (Verify : bool) (Max : nat).

(** One entry for the whole map, in a list that was empty. *)
Lemma InitializeMap_spec st Map Map2 L2 Template Size :
  maps st Map [] Map2 L2 -> capacity Max [] -> Signature Template = EFI_GCD_MAP_SIGNATURE ->
  0 <= Size < 64 -> (forall live, AllocatePool live <> None) ->
  exists st' p, InitializeMap Verify Max st Template Size Map = Ok st' /\
    maps st' Map [(p, set_EndAddress (2 ^ Size - 1) Template)] Map2 L2 /\ same_locks st st'.
Proof.
  intros [[Hd1 _] Hr2 Hdis] Hcap Hsig Hsz Hpool. simpl in Hd1, Hdis.
  assert (Hpow : 0 < 2 ^ Size < 2 ^ 64) by (split; [lia|apply Z.pow_lt_mono_r; lia]).
  unfold InitializeMap, AllocateCopyPool.
  destruct (AllocatePool (dom (links st))) as [p|] eqn:E; [|by destruct (Hpool _ E)].
  destruct (AllocatePool_fresh _ _ E) as [Hp Hn].
  assert (HpM : p <> Map) by (intros ->; apply Hp, elem_of_dom; eapply dlist_in; [exact Hd1|left]).
  pose proof (rep_dom _ _ _ _ Hr2 Hp) as Hp2.
  unfold update_entry. cbn [entries links set_links set_entries]. rewrite lookup_insert_eq.
  cbn [deref mbind result_bind links set_links set_entries].
  assert (Hd : dlist (<[p := MkLink NULL NULL]> (links st)) Map ([] ++ [])).
  { eapply (dlist_frame (links st) _ [p]); [| |exact Hd1].
    - intros x Hx. rewrite lookup_insert_ne; [done|]. clear -Hx. set_solver.
    - intros x Hx Hin. apply list_elem_of_singleton in Hin. apply list_elem_of_singleton in Hx. congruence. }
  destruct (InsertHeadList_after Verify Max _ Map [] [] [] Map p Hd eq_refl Hcap) as (h & -> & Hd' & Hs); [| |done|].
  { rewrite lookup_insert_eq. eauto. } { rewrite list_elem_of_singleton. done. }
  cbn [mbind result_bind]. rewrite Z.shiftl_1_l, (wrap_small 64 (2 ^ Size)), wrap_small by lia.
  eexists _, p. split; [done|]. split; [split; [split|..]|done].
  - exact Hd'.
  - apply Forall_singleton. split; [|exact Hsig]. apply lookup_insert_eq.
  - eapply (rep_frame st _ [p; Map]); [| |exact Hr2].
    + apply outside_set_links; [apply outside_set_entries; [apply outside_set_links;
        [apply outside_set_entries; [apply outside_refl|]|]|]|]; intros x Hx; simpl;
        rewrite ?Hs, ?lookup_insert_ne; try done; clear -Hx; set_solver.
    + intros x Hx. rewrite !not_elem_of_cons. split; [intros ->; done|]. split; [|by apply not_elem_of_nil].
      intros ->. apply (Hdis Map); [left|done].
  - intros x Hx. simpl in Hx. rewrite !elem_of_cons, elem_of_nil in Hx.
    destruct Hx as [->|[->|[]]]; [apply Hdis; left|done].
Qed.

(** the start of [CoreInitializeGcdServices] establishes the invariant: for
    a CPU with [M] memory and [I] I/O address bits, each map has one
    nonexistent, unowned entry for its whole address space. *)
Theorem InitializeGcdMaps_wf M I
    (HM : 0 <= M < 64) (HI : 0 <= I < 64) (Hcap : capacity Max [])
    (Hpool : forall live, AllocatePool live <> None) :
  exists st LM LI, InitializeGcdMaps Verify Max boot_state M I = Ok st /\
    gcd_wf (2 ^ M) (2 ^ I) st LM LI /\
    throughout LM 0 (2 ^ M) (fun i => i = (0, 0, EfiGcdMemoryTypeNonExistent, 0, NULL, NULL)) /\
    throughout LI 0 (2 ^ I) (fun i => i = (0, 0, 0, EfiGcdIoTypeNonExistent, NULL, NULL)).
Proof.
  assert (Hboot : maps boot_state mGcdMemorySpaceMap [] mGcdIoSpaceMap []).
  { assert (Hnil : forall p, p <> NULL -> links boot_state !! p = Some (MkLink p p) -> rep boot_state p []).
    { intros p Hp Hl. split; [|by apply Forall_nil]. split; [apply NoDup_singleton|]. split.
      - rewrite list_elem_of_singleton. congruence.
      - cbn [linked app fmap list_fmap]. unfold fwd, bck. by rewrite Hl. }
    split; [by apply Hnil|by apply Hnil|]. intros x Hx. apply list_elem_of_singleton in Hx as ->.
    by rewrite list_elem_of_singleton. }
  unfold InitializeGcdMaps.
  destruct (InitializeMap_spec boot_state mGcdMemorySpaceMap mGcdIoSpaceMap [] mGcdMemorySpaceMapEntryTemplate M
    Hboot Hcap eq_refl HM Hpool) as (st1 & p & -> & Hm1 & [Hk1 Hk2]). cbn [mbind result_bind].
  destruct (InitializeMap_spec st1 mGcdIoSpaceMap mGcdMemorySpaceMap _ mGcdIoSpaceMapEntryTemplate I
    (maps_sym _ _ _ _ _ Hm1) Hcap eq_refl HI Hpool) as (st2 & q & -> & Hm2 & [Hk3 Hk4]).
  assert (Hp : forall k, 0 <= k < 64 -> 0 < 2 ^ k <= 2 ^ 63).
  { intros k Hk. split; [lia|apply Z.pow_le_mono_r; lia]. }
  pose proof (Hp M HM). pose proof (Hp I HI).
  eexists st2, _, _. split; [done|]. split; [split|split].
  - by apply maps_sym.
  - simpl. lia.
  - simpl. lia.
  - lia.
  - lia.
  - rewrite Hk3, Hk1. done.
  - rewrite Hk4, Hk2. done.
  - intros x i Hx Hi. simpl in Hi. destruct (covers _ x); [|done]. by injection Hi as <-.
  - intros x i Hx Hi. simpl in Hi. destruct (covers _ x); [|done]. by injection Hi as <-.
Qed.
End Initialize.

(** * Concrete maps

    A pool that never runs out, 36 bits of memory space and 16 of I/O space, the
    list limit of 1000. *)

Module GcdWitness.

Lemma max_fresh (l : list Z) (x : Z) : x ∈ l -> x <= foldr Z.max 2 l.
Proof. induction l as [|y l IH]; simpl; [by intros ?%not_elem_of_nil|]. intros [->|?%IH]%elem_of_cons; lia. Qed.

Lemma max_fresh_pos (l : list Z) : 2 <= foldr Z.max 2 l.
Proof. induction l; simpl; lia. Qed.

#[refine] Instance SamplePool : PoolAllocator :=
  {| AllocatePool live := Some (1 + foldr Z.max 2 (elements live)) |}.
Proof.
  intros live p [= <-]. pose proof (max_fresh_pos (elements live)). split; [|unfold NULL; lia].
  intros Hin%elem_of_elements%max_fresh. lia.
Defined.

Definition limit : nat := 1000.
Definition cpu : option (Z -> Z -> Z -> EFI_STATUS) := Some (fun _ _ _ => EFI_SUCCESS).

Definition state_of {A} (r : result (A * GCD)) : GCD :=
  match r with Ok (_, st) => st | _ => boot_state end.

Definition start : GCD :=
  match InitializeGcdMaps true limit boot_state 36 16 with Ok st => st | _ => boot_state end.

(** The records of a map, read out of the store. *)
Fixpoint read_map (fuel : nat) (st : GCD) (Map Link : ptr) : list node :=
  match fuel with
  | O => []
  | S fuel =>
      if Link =? Map then [] else
      match entries st !! Link, links st !! Link with
      | Some e, Some n => (Link, e) :: read_map fuel st Map (ForwardLink n)
      | _, _ => []
      end
  end.

Definition records (st : GCD) (Map : ptr) : list node :=
  match links st !! Map with Some n => read_map (walk_bound st) st Map (ForwardLink n) | None => [] end.

(** A range and its fields, for each record. *)
Definition summary (st : GCD) (Map : ptr) : list (Z * Z * Z * Z * Z * Z) :=
  (fun n => (BaseAddress n.2, EndAddress n.2, Capabilities n.2, Attributes n.2,
             GcdMemoryType n.2, ImageHandle n.2)) <$> records st Map.

(** Decide the invariant of a concrete state. *)
Definition repb (st : GCD) (Map : ptr) (L : list node) : bool :=
  bool_decide (NoDup (Map :: L.*1)) && bool_decide (NULL ∉ Map :: L.*1) &&
  bool_decide (linked (links st) (Map :: L.*1 ++ [Map])) &&
  forallb (fun n => bool_decide (entries st !! n.1 = Some n.2) &&
                    (Signature n.2 =? EFI_GCD_MAP_SIGNATURE)) L.

Lemma repb_ok st Map L : repb st Map L = true -> rep st Map L.
Proof.
  unfold repb. rewrite !andb_true_iff, !bool_decide_eq_true. intros (((H1 & H2) & H3) & H4).
  split; [by split|]. rewrite forallb_forall in H4. apply Forall_forall. intros n Hn.
  apply list_elem_of_In in Hn. apply H4, andb_true_iff in Hn as [Hn Hs].
  split; [by apply bool_decide_eq_true in Hn|by apply Z.eqb_eq].
Qed.

Fixpoint contigb (lo : Z) (L : list node) (hi : Z) : bool :=
  match L with
  | [] => lo =? hi
  | n :: L => (BaseAddress n.2 =? lo) && (lo <=? EndAddress n.2) && contigb (EndAddress n.2 + 1) L hi
  end.

Lemma contigb_ok lo L hi : contigb lo L hi = true -> contig lo L hi.
Proof.
  revert lo. induction L as [|n L IH]; simpl; intros lo; rewrite ?andb_true_iff, ?Z.eqb_eq, ?Z.leb_le; [done|].
  intros ((? & ?) & ?%IH). auto.
Qed.

Definition wfb (hiM hiI : Z) (st : GCD) : bool :=
  repb st mGcdMemorySpaceMap (records st mGcdMemorySpaceMap) &&
  repb st mGcdIoSpaceMap (records st mGcdIoSpaceMap) &&
  forallb (fun x => bool_decide (x ∉ mGcdIoSpaceMap :: (records st mGcdIoSpaceMap).*1))
    (mGcdMemorySpaceMap :: (records st mGcdMemorySpaceMap).*1) &&
  contigb 0 (records st mGcdMemorySpaceMap) hiM && contigb 0 (records st mGcdIoSpaceMap) hiI &&
  (hiM <=? 2 ^ 63) && (hiI <=? 2 ^ 63) &&
  negb (mGcdMemorySpaceLock st) && negb (mGcdIoSpaceLock st).

Lemma wfb_ok hiM hiI st :
  wfb hiM hiI st = true ->
  gcd_wf hiM hiI st (records st mGcdMemorySpaceMap) (records st mGcdIoSpaceMap).
Proof.
  unfold wfb. rewrite !andb_true_iff, !negb_true_iff, !Z.leb_le.
  intros ((((((((H1 & H2) & H3) & H4) & H5) & H6) & H7) & H8) & H9).
  split; try done; [|by apply contigb_ok|by apply contigb_ok].
  split; [by apply repb_ok|by apply repb_ok|]. rewrite forallb_forall in H3. intros x Hx.
  apply list_elem_of_In, H3, bool_decide_eq_true in Hx. done.
Qed.

Lemma room_ok st : (size (links st) + 3 <? limit)%nat = true -> room limit st.
Proof.
  intros Hs%Nat.ltb_lt Map L [Hd _]. apply dlist_size in Hd. right. simpl.
  rewrite length_fmap in *. lia.
Qed.

(** A million bytes of reserved space with all cache attributes, and an owned range in it. *)
Definition reserved : GCD :=
  state_of (CoreInternalAddMemorySpace true limit cpu start EfiGcdMemoryTypeReserved 0x100000 0x100000 0xF).

Definition owned : GCD :=
  state_of (CoreAllocateMemorySpace true limit reserved EfiGcdAllocateAnySearchBottomUp EfiGcdMemoryTypeReserved
    12 0x1000 (Some 0) 77 0).

Example owned_summary :
  summary owned mGcdMemorySpaceMap =
  [ (0, 0xFFFFF, 0, 0, 0, 0);
    (0x100000, 0x100FFF, 0x800000000000000F, 0, 1, 77);
    (0x101000, 0x1FFFFF, 0x800000000000000F, 0, 1, 0);
    (0x200000, 0xFFFFFFFFF, 0, 0, 0, 0) ].
Proof. vm_compute. reflexivity. Qed.

Definition M36 : Z := 0x1000000000.
Definition I16 : Z := 0x10000.

Lemma start_wf : gcd_wf M36 I16 start (records start mGcdMemorySpaceMap) (records start mGcdIoSpaceMap).
Proof. apply wfb_ok. vm_compute. reflexivity. Qed.

Lemma start_room : room limit start.
Proof. apply room_ok. vm_compute. reflexivity. Qed.

Lemma owned_wf : gcd_wf M36 I16 owned (records owned mGcdMemorySpaceMap) (records owned mGcdIoSpaceMap).
Proof. apply wfb_ok. vm_compute. reflexivity. Qed.

Lemma owned_room : room limit owned.
Proof. apply room_ok. vm_compute. reflexivity. Qed.

Lemma add_is_operation : gcd_operation GCD_ADD_MEMORY_OPERATION.
Proof. left. Qed.

Lemma CoreConvertSpace_correct_witness :
  CoreConvertSpace true limit cpu start GCD_ADD_MEMORY_OPERATION 1 0 0x1000 0 0xF 0
    = Ok (EFI_INVALID_PARAMETER, start) /\
  exists Status st' L',
    CoreConvertSpace true limit cpu start GCD_ADD_MEMORY_OPERATION 1 0 0x1000 0x2000 0xF 0
      = Ok (Status, st') /\
    convert_outcome cpu start (records start mGcdMemorySpaceMap) M36 GCD_ADD_MEMORY_OPERATION 1 0
      0x1000 0x2000 0xF 0 L' Status /\
    gcd_wf M36 I16 st' L' (records start mGcdIoSpaceMap).
Proof.
  refine (CoreConvertSpace_correct true limit cpu start _ _ M36 I16 GCD_ADD_MEMORY_OPERATION 1 0
    0x1000 0x2000 0xF 0 add_is_operation start_wf _ start_room).
  unfold range. lia.
Defined.

(** A top-down search for 4 KiB of nonexistent memory. *)
Lemma CoreAllocateSpace_correct_witness :
  exists Status b st' L',
    CoreAllocateSpace true limit start GCD_ALLOCATE_MEMORY_OPERATION EfiGcdAllocateAnySearchTopDown 0 0 12
      0x1000 (Some 0) 77 0 = Ok (Status, Some b, st') /\
    alloc_outcome start (records start mGcdMemorySpaceMap) M36
      (allocatable GCD_ALLOCATE_MEMORY_OPERATION 0 0) EfiGcdAllocateAnySearchTopDown 12
      0x1000 0 77 0 L' (Status, b) /\
    gcd_wf M36 I16 st' L' (records start mGcdIoSpaceMap).
Proof.
  refine (proj2 (CoreAllocateSpace_correct true limit) start _ _ M36 I16 GCD_ALLOCATE_MEMORY_OPERATION
    EfiGcdAllocateAnySearchTopDown 0 0 12 0x1000 0 77 0 start_wf start_room _).
  split; vm_compute; first [by left|intuition congruence|by split].
Defined.

Lemma CoreGetSpaceDescriptor_correct_witness :
  (exists s d, CoreGetMemorySpaceDescriptor owned 0x100123 false = Ok (s, d, owned) /\
     match d with
     | Some d => s = EFI_SUCCESS /\ 0x100123 < M36 /\
         md_BaseAddress d <= 0x100123 < md_BaseAddress d + md_Length d /\
         exists io, info_at (records owned mGcdMemorySpaceMap) 0x100123 =
           Some (md_Capabilities d, md_Attributes d, md_GcdMemoryType d, io, md_ImageHandle d, md_DeviceHandle d)
     | None => s = EFI_NOT_FOUND /\ M36 <= 0x100123
     end) /\
  (exists s d, CoreGetIoSpaceDescriptor owned 0x100123 false = Ok (s, d, owned) /\
     match d with
     | Some d => s = EFI_SUCCESS /\ 0x100123 < I16 /\
         io_BaseAddress d <= 0x100123 < io_BaseAddress d + io_Length d /\
         exists c at' m, info_at (records owned mGcdIoSpaceMap) 0x100123 =
           Some (c, at', m, io_GcdIoType d, io_ImageHandle d, io_DeviceHandle d)
     | None => s = EFI_NOT_FOUND /\ I16 <= 0x100123
     end) /\
  CoreGetMemorySpaceDescriptor owned 0x100123 true = Ok (EFI_INVALID_PARAMETER, None, owned) /\
  CoreGetIoSpaceDescriptor owned 0x100123 true = Ok (EFI_INVALID_PARAMETER, None, owned).
Proof.
  refine (CoreGetSpaceDescriptor_correct owned _ _ M36 I16 0x100123 owned_wf _). lia.
Defined.

(** Removing the owned range is refused, and its owner stays. *)
Lemma gcd_owner_kept_witness :
  exists LM' LI' caps' a', gcd_wf M36 I16 owned LM' LI' /\
    info_at LM' 0x100800 = Some (caps', a', 1, 0, 77, 0).
Proof.
  refine (gcd_owner_kept true limit cpu M36 I16 owned _ _
    (ConvertCall GCD_REMOVE_MEMORY_OPERATION 0 0 0x100000 0x1000 0 0) EFI_ACCESS_DENIED owned 0x100800
    0x800000000000000F 0 1 0 77 0 owned_wf _ owned_room _ _ _ _).
  - split; [do 3 right; left|unfold range; lia].
  - vm_compute. reflexivity.
  - vm_compute. reflexivity.
  - discriminate.
  - intros [Hop _]. discriminate.
Defined.

Lemma reserved_wf : gcd_wf M36 I16 reserved (records reserved mGcdMemorySpaceMap) (records reserved mGcdIoSpaceMap).
Proof. apply wfb_ok. vm_compute. reflexivity. Qed.

Lemma CoreAllocate_free_roundtrip_witness :
  (exists b' st', CoreAllocateMemorySpace true limit owned EfiGcdAllocateAddress 1 12 0x1000 (Some 0x100000)
     77 0 = Ok (EFI_NOT_FOUND, Some b', st')) /\
  exists st2 LM2 LI2, CoreFreeMemorySpace true limit cpu owned 0x100000 0x1000 = Ok (EFI_SUCCESS, st2) /\
    gcd_wf M36 I16 st2 LM2 LI2 /\
    updated (records reserved mGcdMemorySpaceMap) LM2 0x100000 0x1000
      (fun '(c, a, m, io, im, _) i' => im = NULL /\ i' = (c, a, m, io, im, NULL)).
Proof.
  refine (CoreAllocate_free_roundtrip true limit cpu reserved _ _ M36 I16 EfiGcdAllocateAnySearchBottomUp 1 12
    0x1000 0 77 0 0x100000 owned reserved_wf _ owned_room _ _ _).
  - apply room_ok. vm_compute. reflexivity.
  - split; vm_compute; first [by left|intuition congruence|by split].
  - vm_compute. reflexivity.
  - vm_compute. reflexivity.
Defined.

(** A megabyte of system memory at 1 MiB. *)
Lemma CoreAddMemorySpace_system_witness :
  exists st' LM' LI',
    CoreAddMemorySpace true limit cpu 5 0 start 2 0x100000 0x100000 0xF = Ok (EFI_SUCCESS, st') /\
    gcd_wf M36 I16 st' LM' LI' /\
    updated (records start mGcdMemorySpaceMap) LM' 0x100000 0x100000 (fun '(_, a, _, io, _, _) i' =>
      i' = (Z.lor 0xF EFI_MEMORY_RUNTIME, a, 2, io, 5, NULL)) /\
    head (calls st') = Some (CoreAddMemoryDescriptor 0x100000 (0x100000 / 0x1000) 0xF).
Proof.
  refine (CoreAddMemorySpace_system true limit cpu 5 start _ _ M36 I16 2 0x100000 0x100000 0xF 0
    start_wf _ _ _ _ _ _ _ _).
  - by left.
  - done.
  - done.
  - unfold M36. lia.
  - intros x i _ Hi.
    assert (HL : records start mGcdMemorySpaceMap =
      [(3, MkEntry EFI_GCD_MAP_SIGNATURE 0 0xFFFFFFFFF 0 0 0 0 0 0)]) by (vm_compute; reflexivity).
    rewrite HL in Hi. simpl in Hi. destruct (covers _ x); [|done]. by injection Hi as <-.
  - done.
  - done.
  - right. vm_compute. lia.
Defined.

(** Nothing else runs during the allocation: one retry is enough. *)
Lemma CoreGetMemorySpaceMap_snapshot_witness :
  exists s num l st' LM' LI',
    CoreGetMemorySpaceMap 2 owned (fun _ st => Some st) false = Ok (s, num, l, st') /\
    (s = EFI_OUT_OF_RESOURCES /\ num = 0 \/
     s = EFI_SUCCESS /\ gcd_wf M36 I16 st' LM' LI' /\
     num = Z.of_nat (length LM') /\ l = (fun nd => BuildMemoryDescriptor nd.2) <$> LM').
Proof.
  refine (CoreGetMemorySpaceMap_snapshot M36 I16 (fun _ st => Some st) _ 0 _ owned _ _ owned_wf).
  - intros k st LM LI st' Hwf [= <-]. eauto.
  - intros k st LM LI st' LM' LI' _ H1 [= <-] H2. by eapply wf_length.
Defined.

Lemma InitializeGcdMaps_wf_witness :
  exists st LM LI, InitializeGcdMaps true limit boot_state 36 16 = Ok st /\
    gcd_wf (2 ^ 36) (2 ^ 16) st LM LI /\
    throughout LM 0 (2 ^ 36) (fun i => i = (0, 0, EfiGcdMemoryTypeNonExistent, 0, NULL, NULL)) /\
    throughout LI 0 (2 ^ 16) (fun i => i = (0, 0, 0, EfiGcdIoTypeNonExistent, NULL, NULL)).
Proof.
  refine (InitializeGcdMaps_wf true limit 36 16 _ _ _ _).
  - lia.
  - lia.
  - right. vm_compute. lia.
  - done.
Defined.
End GcdWitness.

(** * Defects *)

Module GcdDefects.
Import GcdWitness.

(** A range whose end wraps around 2^64 is not refused: the end address
    [BaseAddress + Length - 1] is below the base, the search finds it in the
    same record, and the call succeeds with a map whose records overlap: the
    second one runs from 0x1000 down to 0x7FF. *)
Theorem CoreConvertSpace_wraps :
  exists st, CoreInternalAddMemorySpace true limit cpu start EfiGcdMemoryTypeReserved 0x1000
      (2 ^ 64 - 0x800) 0 = Ok (EFI_SUCCESS, st) /\
    summary st mGcdMemorySpaceMap =
    [ (0, 0xFFF, 0, 0, 0, 0);
      (0x1000, 0x7FF, EFI_MEMORY_RUNTIME, 0, 1, 0);
      (0x800, 0xFFFFFFFFF, 0, 0, 0, 0) ].
Proof.
  exists (state_of (CoreInternalAddMemorySpace true limit cpu start EfiGcdMemoryTypeReserved 0x1000
    (2 ^ 64 - 0x800) 0)).
  split; vm_compute; reflexivity.
Qed.

(** Reserved space of which the first page is uncached, the second write-back. *)
Definition two_pages : GCD :=
  let st := state_of (CoreInternalAddMemorySpace true limit cpu start EfiGcdMemoryTypeReserved 0x1000 0x2000 0xF) in
  let st := state_of (CoreSetMemorySpaceAttributes true limit cpu st 0x1000 0x1000 EFI_MEMORY_UC) in
  state_of (CoreSetMemorySpaceAttributes true limit cpu st 0x2000 0x1000 EFI_MEMORY_WB).

(** Setting [EFI_MEMORY_RUNTIME] alone on both pages is meant to keep the cache
    attribute of each.  But the accumulated [Attributes] carries the attribute of
    the first page to the second, which ends up uncached and write-back. *)
Theorem SetAttributes_leaks :
  exists st, CoreSetMemorySpaceAttributes true limit cpu two_pages 0x1000 0x2000 EFI_MEMORY_RUNTIME
      = Ok (EFI_SUCCESS, st) /\
    summary two_pages mGcdMemorySpaceMap =
    [ (0, 0xFFF, 0, 0, 0, 0);
      (0x1000, 0x1FFF, Z.lor EFI_MEMORY_RUNTIME 0xF, EFI_MEMORY_UC, 1, 0);
      (0x2000, 0x2FFF, Z.lor EFI_MEMORY_RUNTIME 0xF, EFI_MEMORY_WB, 1, 0);
      (0x3000, 0xFFFFFFFFF, 0, 0, 0, 0) ] /\
    summary st mGcdMemorySpaceMap =
    [ (0, 0xFFF, 0, 0, 0, 0);
      (0x1000, 0x1FFF, Z.lor EFI_MEMORY_RUNTIME 0xF, Z.lor EFI_MEMORY_RUNTIME EFI_MEMORY_UC, 1, 0);
      (0x2000, 0x2FFF, Z.lor EFI_MEMORY_RUNTIME 0xF,
         Z.lor EFI_MEMORY_RUNTIME (Z.lor EFI_MEMORY_UC EFI_MEMORY_WB), 1, 0);
      (0x3000, 0xFFFFFFFFF, 0, 0, 0, 0) ].
Proof.
  exists (state_of (CoreSetMemorySpaceAttributes true limit cpu two_pages 0x1000 0x2000 EFI_MEMORY_RUNTIME)).
  split; [|split]; vm_compute; reflexivity.
Qed.

(** One free page of reserved space at the top of the address space. *)
Definition top_page : GCD :=
  state_of (CoreInternalAddMemorySpace true limit cpu start EfiGcdMemoryTypeReserved 0xFFFFFF000 0x1000 0).

(** A top-down search compares [BaseAddress + Length], one past the last byte,
    with the maximum address: it does not see the page, a bottom-up search does. *)
Theorem TopDown_misses_exact_fit :
  (exists b st, CoreAllocateMemorySpace true limit top_page EfiGcdAllocateAnySearchTopDown
     EfiGcdMemoryTypeReserved 12 0x1000 (Some 0) 77 0 = Ok (EFI_NOT_FOUND, b, st)) /\
  (exists st, CoreAllocateMemorySpace true limit top_page EfiGcdAllocateAnySearchBottomUp
     EfiGcdMemoryTypeReserved 12 0x1000 (Some 0) 77 0 = Ok (EFI_SUCCESS, Some 0xFFFFFF000, st)).
Proof.
  split.
  - exists (Some 0), top_page. vm_compute. reflexivity.
  - exists (state_of (CoreAllocateMemorySpace true limit top_page EfiGcdAllocateAnySearchBottomUp
      EfiGcdMemoryTypeReserved 12 0x1000 (Some 0) 77 0)). vm_compute. reflexivity.
Qed.

(** System memory that holds no whole page: the aligned length wraps to
    2^64 - 0x1000, and the page-by-page loop sets out for 2^52 - 1 pages. *)
Theorem CoreAddMemorySpace_subpage_wraps :
  PageAlignLength (u64 (u64 (0x1100 + 0x100) - PageAlignAddress 0x1100)) = 2 ^ 64 - 0x1000 /\
  CoreAddMemorySpace true limit cpu 5 50 start 2 0x1100 0x100 0 = NoFuel.
Proof. split; vm_compute; reflexivity. Qed.
End GcdDefects.
