(* ===== verification/GcdProgram.v ===== *)
(** Programs of the GCD services: every service on the two maps, in sequences.

    A call is legal if its addresses do not wrap and the lists have room for the
    nodes that it may add; its other arguments are arbitrary. *)

From S2P Require Import Prelude LinkedList Gcd GcdMap GcdSpace GcdAllocate GcdTheorems.

(** The services of the DXE core, with their arguments; [Memory] tells whether
    the allocation of the array of a map succeeds. *)
Inductive GcdService :=
| AddMemorySpace (MemoryType Base Length Caps : Z)
| AllocateMemorySpace (AllocateType MemoryType Alignment Length : Z) (Base : option Z) (Image Device : Z)
| FreeMemorySpace (Base Length : Z)
| RemoveMemorySpace (Base Length : Z)
| SetMemorySpaceAttributes (Base Length Attrs : Z)
| SetMemorySpaceCapabilities (Base Length Caps : Z)
| GetMemorySpaceDescriptor (Base : Z) (DescriptorIsNull : bool)
| GetMemorySpaceMap (Memory ArgumentIsNull : bool)
| AddIoSpace (IoType Base Length : Z)
| AllocateIoSpace (AllocateType IoType Alignment Length : Z) (Base : option Z) (Image Device : Z)
| FreeIoSpace (Base Length : Z)
| RemoveIoSpace (Base Length : Z)
| GetIoSpaceDescriptor (Base : Z) (DescriptorIsNull : bool)
| GetIoSpaceMap (Memory ArgumentIsNull : bool).

Section Program.
Context `{PoolAllocator} (Verify : bool) (Max : nat) (gCpu : option (Z -> Z -> Z -> EFI_STATUS)).
Context (gDxeCoreImageHandle : Z).

(** The whole pages of a range at most. *)
Definition pages (Length : Z) : nat := Z.to_nat (Length / 0x1000).

(** The status and the state after a call.  The loop over the pages of
    [CoreAddMemorySpace] is given as many rounds as the range has pages, that of
    [CoreGetMemorySpaceMap] two. *)
Definition run_service (c : GcdService) (st : GCD) : result (EFI_STATUS * GCD) :=
  match c with
  | AddMemorySpace MT B L C => CoreAddMemorySpace Verify Max gCpu gDxeCoreImageHandle (pages L) st MT B L C
  | AllocateMemorySpace AT MT al L B Im D =>
      let! (Status, _, st) := CoreAllocateMemorySpace Verify Max st AT MT al L B Im D in Ok (Status, st)
  | FreeMemorySpace B L => CoreFreeMemorySpace Verify Max gCpu st B L
  | RemoveMemorySpace B L => CoreRemoveMemorySpace Verify Max gCpu st B L
  | SetMemorySpaceAttributes B L A => CoreSetMemorySpaceAttributes Verify Max gCpu st B L A
  | SetMemorySpaceCapabilities B L C => CoreSetMemorySpaceCapabilities Verify Max gCpu st B L C
  | GetMemorySpaceDescriptor B n => let! (Status, _, st) := CoreGetMemorySpaceDescriptor st B n in Ok (Status, st)
  | GetMemorySpaceMap m n =>
      let! (Status, _, _, st) := CoreGetMemorySpaceMap 2 st (fun _ st => if m then Some st else None) n in
      Ok (Status, st)
  | AddIoSpace T B L => CoreAddIoSpace Verify Max gCpu st T B L
  | AllocateIoSpace AT IT al L B Im D =>
      let! (Status, _, st) := CoreAllocateIoSpace Verify Max st AT IT al L B Im D in Ok (Status, st)
  | FreeIoSpace B L => CoreFreeIoSpace Verify Max gCpu st B L
  | RemoveIoSpace B L => CoreRemoveIoSpace Verify Max gCpu st B L
  | GetIoSpaceDescriptor B n => let! (Status, _, st) := CoreGetIoSpaceDescriptor st B n in Ok (Status, st)
  | GetIoSpaceMap m n => let! (Status, _, _, st) := CoreGetIoSpaceMap st m n in Ok (Status, st)
  end.

(** The lists have room for [k] more nodes. *)
Definition room_for (k : nat) (st : GCD) : Prop :=
  forall Map L, rep st Map L -> capacity Max (replicate k NULL ++ L.*1).

(** The range does not wrap. *)
Definition fits (Base Length : Z) : Prop := 0 <= Base /\ 0 <= Length < 2 ^ 64 /\ Base + Length <= 2 ^ 64.

(** No address of the request wraps; the space has the size [hi]. *)
Definition alloc_fits (hi AllocateType MemoryType IoType al Length : Z) (base : option Z) : Prop :=
  0 <= AllocateType < 2 ^ 32 /\ 0 <= MemoryType < 2 ^ 32 /\ 0 <= IoType < 2 ^ 32 /\ 0 <= al /\ 0 <= Length /\
  forall b, base = Some b -> 0 <= b < 2 ^ 64 /\
    if AllocateType =? EfiGcdAllocateAddress then b + Length <= 2 ^ 64 else al < 64 -> hi + 2 ^ al + Length <= 2 ^ 64.

(** System memory is handed to the UEFI memory map by pages. *)
Definition by_pages (MemoryType : Z) : bool :=
  (MemoryType =? EfiGcdMemoryTypeSystemMemory) || (MemoryType =? EfiGcdMemoryTypeMoreReliable).

(** Each conversion and each allocation may add two nodes.  A range of system
    memory reaches a page boundary. *)
Definition legal_service (hiM hiI : Z) (c : GcdService) (st : GCD) : Prop :=
  match c with
  | AddMemorySpace MT B L _ =>
      fits B L /\ room_for (if by_pages MT then 4 + 2 * pages L else 2) st /\
      (by_pages MT = true -> B + 0xFFF < 2 ^ 64 /\ PageAlignAddress B <= B + L)
  | FreeMemorySpace B L | RemoveMemorySpace B L | SetMemorySpaceAttributes B L _
  | SetMemorySpaceCapabilities B L _ | AddIoSpace _ B L | FreeIoSpace B L | RemoveIoSpace B L =>
      fits B L /\ room_for 2 st
  | AllocateMemorySpace AT MT al L B _ _ => alloc_fits hiM AT MT 0 al L B /\ room_for 2 st
  | AllocateIoSpace AT IT al L B _ _ => alloc_fits hiI AT 0 IT al L B /\ room_for 2 st
  | GetMemorySpaceDescriptor B _ | GetIoSpaceDescriptor B _ => 0 <= B < 2 ^ 64
  | GetMemorySpaceMap _ _ | GetIoSpaceMap _ _ => True
  end.

(** ** The parts of the calls *)

Context (hiM hiI : Z) (HhM : 0 < hiM) (HhI : 0 < hiI).

(** Some lists with which the state is well-formed. *)
Definition good (st : GCD) : Prop := exists LM LI, gcd_wf hiM hiI st LM LI.

Lemma room_two st LM LI (b : bool) : gcd_wf hiM hiI st LM LI -> room_for 2 st -> capacity Max (NULL :: NULL :: (if b then LM else LI).*1).
Proof. intros [[H1 H2 _] _ _ _ _ _ _] Hroom. destruct b; [exact (Hroom _ _ H1)|exact (Hroom _ _ H2)]. Qed.

Lemma convert_good st LM LI Operation MemoryType IoType Base Length Caps Attrs :
  gcd_operation Operation -> gcd_wf hiM hiI st LM LI -> fits Base Length ->
  capacity Max (NULL :: NULL :: (if on_memory Operation then LM else LI).*1) ->
  exists Status st' LM' LI', CoreConvertSpace Verify Max gCpu st Operation MemoryType IoType Base Length Caps Attrs = Ok (Status, st') /\
    gcd_wf hiM hiI st' LM' LI' /\ (length LM' <= 2 + length LM)%nat.
Proof.
  intros Hop Hwf (H0 & HL & Hb) Hcap. destruct (Z.eqb_spec Length 0) as [->|Hne].
  { exists EFI_INVALID_PARAMETER, st, LM, LI. split; [done|]. split; [done|lia]. }
  destruct (CoreConvertSpace_spec Verify Max gCpu st LM LI hiM hiI Operation MemoryType IoType Base Length Caps Attrs)
    as (s & st' & L' & -> & Ho & Hwf'); [done|done|repeat split; lia|done|].
  destruct (on_memory Operation); [exists s, st', L', LI|exists s, st', LM, L']; (split; [done|]; split; [done|]); [|lia].
  destruct Ho; subst; lia.
Qed.

Lemma allocate_good st LM LI Operation AllocateType MemoryType IoType al Length base Image Device :
  Operation = GCD_ALLOCATE_MEMORY_OPERATION \/ Operation = GCD_ALLOCATE_IO_OPERATION ->
  gcd_wf hiM hiI st LM LI -> alloc_fits (if on_memory Operation then hiM else hiI) AllocateType MemoryType IoType al Length base ->
  capacity Max (NULL :: NULL :: (if on_memory Operation then LM else LI).*1) ->
  exists Status b st' LM' LI', CoreAllocateSpace Verify Max st Operation AllocateType MemoryType IoType al Length base Image Device
      = Ok (Status, b, st') /\
    gcd_wf hiM hiI st' LM' LI' /\ (length LM' <= 2 + length LM)%nat /\ (AllocateType = EfiGcdAllocateAddress -> b = base).
Proof.
  intros Hop Hwf (HAT & HMT & HIT & Hal & HL & Hfit) Hcap.
  destruct (CoreAllocateSpace_refuses Verify Max st Operation AllocateType MemoryType IoType al Length base Image Device) as (R1 & R2 & R3).
  assert (Hrefused : forall s, CoreAllocateSpace Verify Max st Operation AllocateType MemoryType IoType al Length base Image Device = Ok (s, base, st) ->
    exists Status b st' LM' LI', CoreAllocateSpace Verify Max st Operation AllocateType MemoryType IoType al Length base Image Device
      = Ok (Status, b, st') /\
    gcd_wf hiM hiI st' LM' LI' /\ (length LM' <= 2 + length LM)%nat /\ (AllocateType = EfiGcdAllocateAddress -> b = base)).
  { intros s Hs. exists s, base, st, LM, LI. split; [done|]. split; [done|]. split; [lia|done]. }
  revert R1 R2 R3. rewrite !wrap_small by lia. intros R1 R2 R3.
  destruct (Z.le_gt_cases EfiGcdMaxAllocateType AllocateType); [eapply Hrefused, R1; lia|].
  destruct (Z.le_gt_cases EfiGcdMemoryTypeMaximum MemoryType); [eapply Hrefused, R1; lia|].
  destruct (Z.le_gt_cases EfiGcdIoTypeMaximum IoType); [eapply Hrefused, R1; lia|].
  destruct base as [b|]; [|eapply Hrefused, R1; intros (_ & _ & _ & Hb & _); by destruct Hb].
  destruct (decide (Image = NULL)) as [Hi|Hi]; [eapply Hrefused, R1; intros (_ & _ & _ & _ & Hn); by destruct Hn|].
  assert (Hvalid : AllocateType < EfiGcdMaxAllocateType /\ MemoryType < EfiGcdMemoryTypeMaximum /\ IoType < EfiGcdIoTypeMaximum /\ Some b <> None /\ Image <> NULL) by done.
  destruct (Z.le_gt_cases 64 al); [by eapply Hrefused, R2|].
  destruct (decide (Length = 0)) as [->|Hn]; [by eapply Hrefused, R3|].
  destruct (Hfit b eq_refl) as [Hb Hw]. clear Hrefused R1 R2 R3.
  destruct (CoreAllocateSpace_spec Verify Max st LM LI hiM hiI Operation AllocateType MemoryType IoType al Length b Image Device)
    as (s & b' & st' & L' & -> & Ho & Hwf'); [done| |done|].
  { split; try done; try lia.
    - intros ->. rewrite Z.eqb_refl in Hw. lia.
    - intros Hne. rewrite (proj2 (Z.eqb_neq _ _) Hne) in Hw. by apply Hw.
    - by destruct (on_memory Operation). }
  assert (Hb' : AllocateType = EfiGcdAllocateAddress -> Some b' = Some b).
  { intros ->. f_equal. inversion Ho as [? ? ? He|? Hok ? ?|? Hok ? ?]; subst; [by apply He| |]; by destruct Hok as (_ & _ & ->). }
  destruct (on_memory Operation); [exists s, (Some b'), st', L', LI|exists s, (Some b'), st', LM, L'];
    (split; [done|]; split; [done|]; split; [|done]); [|lia]. inversion Ho; subst; lia.
Qed.

Lemma call_good c st LM LI : gcd_wf hiM hiI st LM LI -> gcd_wf hiM hiI (call c st) LM LI.
Proof. intros [Hm ? ? ? ? ? ?]. split; try done. by apply maps_call. Qed.

(** A request for pages at an address. *)
Lemma address_fits hi MemoryType Length b :
  0 <= MemoryType < 2 ^ 32 -> 0 <= Length -> 0 <= b < 2 ^ 64 -> b + Length <= 2 ^ 64 ->
  alloc_fits hi EfiGcdAllocateAddress MemoryType 0 12 Length (Some b).
Proof.
  intros HMT HL Hb Hw. do 5 (split; [unfold EfiGcdAllocateAddress; lia|]). intros b' [= <-]. split; [done|].
  by rewrite Z.eqb_refl.
Qed.

(** The loop over [n] pages. *)
Lemma AddMemoryPages_good MemoryType Caps n : forall fuel st LM LI PageBase Status,
  gcd_wf hiM hiI st LM LI -> 0 <= MemoryType < 2 ^ 32 -> 0 <= PageBase -> PageBase + 0x1000 * Z.of_nat n <= 2 ^ 64 -> (n <= fuel)%nat ->
  capacity Max (replicate (2 * n) NULL ++ LM.*1) ->
  exists s st', AddMemoryPages Verify Max gDxeCoreImageHandle fuel st MemoryType PageBase (0x1000 * Z.of_nat n) Caps Status = Ok (s, st') /\ good st'.
Proof.
  induction n as [|n IH]; intros fuel st LM LI PB Status Hwf HMT H0 Hfit Hfuel Hcap.
  { exists Status, st. split; [by destruct fuel|by exists LM, LI]. }
  destruct fuel as [|fuel]; [lia|]. cbn [AddMemoryPages]. rewrite (proj2 (Z.eqb_neq _ 0)) by lia.
  unfold CoreAllocateMemorySpace, EFI_PAGE_SHIFT, EFI_PAGE_SIZE.
  destruct (allocate_good st LM LI GCD_ALLOCATE_MEMORY_OPERATION EfiGcdAllocateAddress MemoryType 0 12 0x1000 (Some PB) gDxeCoreImageHandle NULL)
    as (s & b & st1 & LM1 & LI1 & -> & Hwf1 & Hlen & Hb); [by left|done| | |].
  { apply address_fits; lia. }
  { eapply capacity_length; [|exact Hcap]. change (on_memory GCD_ALLOCATE_MEMORY_OPERATION) with true. cbv iota.
    simpl. rewrite length_app, length_replicate. lia. }
  rewrite (Hb eq_refl). cbn [mbind result_bind default from_option id].
  set (st2 := if EFI_ERROR s then st1 else _).
  assert (Hwf2 : gcd_wf hiM hiI st2 LM1 LI1) by (unfold st2; destruct (EFI_ERROR s); [done|by apply call_good]).
  rewrite (wrap_small 64 (0x1000 * Z.of_nat (S n) - 0x1000)) by lia.
  replace (0x1000 * Z.of_nat (S n) - 0x1000) with (0x1000 * Z.of_nat n) by lia.
  pose proof (wrap_bounds 64 (PB + 0x1000)) as Hwb.
  destruct n as [|n]; [apply (IH fuel st2 LM1 LI1); [done|done|lia|lia|lia|]; eapply capacity_length; [|exact Hcap]; simpl; rewrite !length_fmap; lia|].
  rewrite wrap_small by lia. apply (IH fuel st2 LM1 LI1); [done|done|lia|lia|lia|].
  eapply capacity_length; [|exact Hcap]. rewrite !length_app, !length_replicate, !length_fmap. lia.
Qed.

(** Rounding to pages. *)
Lemma PageAlignAddress_eq x : 0 <= x -> x + 0xFFF < 2 ^ 64 -> PageAlignAddress x = (x + 0xFFF) / 0x1000 * 0x1000.
Proof.
  intros H0 H1. unfold PageAlignAddress, AlignValue, EFI_PAGE_SHIFT. rewrite AlignmentMask_spec by lia.
  change (2 ^ 12 - 1) with 0xFFF. rewrite wrap_small by lia. change 0xFFF with (2 ^ 12 - 1) at 2. rewrite <-AlignmentMask_spec by lia. by apply align_down; lia.
Qed.

Lemma PageAlignLength_eq x : 0 <= x < 2 ^ 64 -> PageAlignLength x = x / 0x1000 * 0x1000.
Proof. intros Hx. unfold PageAlignLength, AlignValue, EFI_PAGE_SHIFT. by apply align_down. Qed.

Lemma AddMemorySpace_good st LM LI MemoryType Base Length Caps :
  gcd_wf hiM hiI st LM LI -> fits Base Length ->
  capacity Max (replicate (if by_pages MemoryType then 4 + 2 * pages Length else 2) NULL ++ LM.*1) ->
  (by_pages MemoryType = true -> Base + 0xFFF < 2 ^ 64 /\ PageAlignAddress Base <= Base + Length) ->
  exists s st', CoreAddMemorySpace Verify Max gCpu gDxeCoreImageHandle (pages Length) st MemoryType Base Length Caps = Ok (s, st') /\ good st'.
Proof.
  intros Hwf Hfit Hcap Hpages. unfold CoreAddMemorySpace, CoreInternalAddMemorySpace. fold (by_pages MemoryType).
  destruct (_ || (MemoryType >=? EfiGcdMemoryTypeMaximum)) eqn:HMT.
  { exists EFI_INVALID_PARAMETER, st. split; [done|by exists LM, LI]. }
  apply orb_false_iff in HMT as [HMT1%Z.leb_gt HMT2]. rewrite Z.geb_leb in HMT2. apply Z.leb_gt in HMT2.
  destruct (convert_good st LM LI GCD_ADD_MEMORY_OPERATION MemoryType 0 Base Length Caps 0)
    as (s & st1 & LM1 & LI1 & -> & Hwf1 & Hlen); [unfold gcd_operation; clear; set_solver|done|done| |].
  { eapply capacity_length; [|exact Hcap]. change (on_memory GCD_ADD_MEMORY_OPERATION) with true. cbv iota.
    simpl. rewrite length_app, length_replicate. destruct (by_pages MemoryType); lia. }
  cbn [mbind result_bind]. destruct (negb (EFI_ERROR s) && by_pages MemoryType) eqn:Hsys; [|exists s, st1; split; [done|by exists LM1, LI1]].
  apply andb_true_iff in Hsys as [_ Hsys]. destruct (Hpages Hsys) as [Hw Hreach]. rewrite Hsys in Hcap.
  destruct Hfit as (H0 & HL & Hfit). rewrite PageAlignAddress_eq in Hreach |- * by done.
  pose proof (Z.div_mod (Base + 0xFFF) 0x1000 ltac:(done)) as Hdiv. pose proof (Z.mod_pos_bound (Base + 0xFFF) 0x1000 ltac:(done)) as Hmod.
  set (PB := (Base + 0xFFF) / 0x1000 * 0x1000) in *.
  assert (HPB : u64 (u64 (Base + Length) - PB) = Base + Length - PB).
  { unfold wrap. rewrite Zminus_mod_idemp_l. apply Z.mod_small. lia. }
  rewrite HPB, PageAlignLength_eq by lia.
  pose proof (Z.div_mod (Base + Length - PB) 0x1000 ltac:(done)) as Hd2. pose proof (Z.mod_pos_bound (Base + Length - PB) 0x1000 ltac:(done)) as Hm2.
  assert (Hn : 0 <= (Base + Length - PB) / 0x1000 <= Length / 0x1000) by (split; [apply Z.div_pos; lia|apply Z.div_le_mono; lia]).
  set (n := (Base + Length - PB) / 0x1000) in *.
  replace (n * 0x1000) with (0x1000 * Z.of_nat (Z.to_nat n)) by lia.
  unfold CoreAllocateMemorySpace, EFI_PAGE_SHIFT.
  destruct (allocate_good st1 LM1 LI1 GCD_ALLOCATE_MEMORY_OPERATION EfiGcdAllocateAddress MemoryType 0 12 (0x1000 * Z.of_nat (Z.to_nat n)) (Some PB) gDxeCoreImageHandle NULL)
    as (s2 & b & st2 & LM2 & LI2 & -> & Hwf2 & Hlen2 & Hb); [by left|done| | |].
  { unfold EfiGcdMemoryTypeMaximum, EfiGcdMemoryTypeNonExistent in *. apply address_fits; lia. }
  { change (on_memory GCD_ALLOCATE_MEMORY_OPERATION) with true. cbv iota. eapply capacity_length; [|exact Hcap].
    simpl. rewrite length_app, length_replicate, !length_fmap. lia. }
  rewrite (Hb eq_refl). cbn [mbind result_bind default from_option id].
  destruct (negb (EFI_ERROR s2)); [eexists _, _; split; [done|]; by exists LM2, LI2; apply call_good|].
  apply (AddMemoryPages_good MemoryType Caps (Z.to_nat n) (pages Length) st2 LM2 LI2); [done|unfold EfiGcdMemoryTypeMaximum, EfiGcdMemoryTypeNonExistent in *; lia|lia|lia| |].
  - unfold pages. lia.
  - eapply capacity_length; [|exact Hcap]. rewrite !length_app, !length_replicate, !length_fmap. unfold pages. lia.
Qed.

(** Reading out the maps. *)
Lemma GetMemorySpaceMap_good st LM LI (m n : bool) : gcd_wf hiM hiI st LM LI ->
  exists s num l st', CoreGetMemorySpaceMap 2 st (fun _ st => if m then Some st else None) n = Ok (s, num, l, st') /\ good st'.
Proof.
  intros Hwf. destruct n; [exists EFI_INVALID_PARAMETER, 0, [], st; split; [done|by exists LM, LI]|].
  unfold CoreGetMemorySpaceMap, CoreAcquireGcdMemoryLock. rewrite (wf_memory_lock _ _ _ _ _ Hwf). cbn [negb ASSERT mbind result_bind].
  pose proof Hwf as [[Hr _ _] _ _ _ _ Hl1 _].
  assert (Hst1 : set_memory_lock false (set_memory_lock true st) = st) by (unfold set_memory_lock; destruct st; simpl in *; congruence).
  assert (Hr1 : rep (set_memory_lock true st) mGcdMemorySpaceMap LM) by (by apply (rep_same_lock st)).
  cbn [GetMemorySpaceMap_loop]. rewrite (CoreCountGcdMapEntry_spec _ _ _ Hr1). cbn [mbind result_bind]. rewrite andb_false_r.
  unfold CoreReleaseGcdMemoryLock. cbn [mGcdMemorySpaceLock set_memory_lock ASSERT mbind result_bind]. fold (set_memory_lock true st). rewrite Hst1.
  destruct m; [|do 3 eexists; exists st; split; [done|by exists LM, LI]].
  unfold CoreAcquireGcdMemoryLock. rewrite Hl1. cbn [negb ASSERT mbind result_bind]. rewrite (CoreCountGcdMapEntry_spec _ _ _ Hr1).
  cbn [mbind result_bind]. rewrite Z.eqb_refl. cbn [andb].
  destruct (rep_head _ _ _ Hr1) as (nd & -> & Hn & _). cbn [mbind result_bind]. rewrite Hn.
  rewrite (Fill_loop_spec BuildMemoryDescriptor LM _ mGcdMemorySpaceMap []); [|done|apply walk_enough in Hr1; lia|lia].
  cbn [mbind result_bind mGcdMemorySpaceLock set_memory_lock ASSERT]. fold (set_memory_lock true st). rewrite Hst1.
  do 3 eexists. exists st. split; [done|by exists LM, LI].
Qed.

Lemma GetIoSpaceMap_good st LM LI (m n : bool) : gcd_wf hiM hiI st LM LI ->
  exists s num l st', CoreGetIoSpaceMap st m n = Ok (s, num, l, st') /\ good st'.
Proof.
  intros Hwf. destruct n; [exists EFI_INVALID_PARAMETER, 0, [], st; split; [done|by exists LM, LI]|].
  unfold CoreGetIoSpaceMap, CoreAcquireGcdIoLock. rewrite (wf_io_lock _ _ _ _ _ Hwf). cbn [negb ASSERT mbind result_bind].
  pose proof Hwf as [[_ Hr _] _ _ _ _ _ Hl2].
  assert (Hst1 : set_io_lock false (set_io_lock true st) = st) by (unfold set_io_lock; destruct st; simpl in *; congruence).
  assert (Hr1 : rep (set_io_lock true st) mGcdIoSpaceMap LI) by (by apply (rep_same_lock st)).
  rewrite (CoreCountGcdMapEntry_spec _ _ _ Hr1). cbn [mbind result_bind]. unfold CoreReleaseGcdIoLock.
  destruct m; cbn [negb].
  - destruct (rep_head _ _ _ Hr1) as (nd & -> & Hn & _). cbn [mbind result_bind]. rewrite Hn.
    rewrite (Fill_loop_spec BuildIoDescriptor LI _ mGcdIoSpaceMap []); [|done|apply walk_enough in Hr1; lia|lia].
    cbn [mbind result_bind mGcdIoSpaceLock set_io_lock ASSERT]. fold (set_io_lock true st). rewrite Hst1.
    do 3 eexists. exists st. split; [done|by exists LM, LI].
  - cbn [mbind result_bind mGcdIoSpaceLock set_io_lock ASSERT]. fold (set_io_lock true st). rewrite Hst1.
    do 3 eexists. exists st. split; [done|by exists LM, LI].
Qed.

(** ** Every call *)

Lemma convert_call st Operation MemoryType IoType Base Length Caps Attrs :
  gcd_operation Operation -> good st -> fits Base Length -> room_for 2 st ->
  exists Status st', CoreConvertSpace Verify Max gCpu st Operation MemoryType IoType Base Length Caps Attrs = Ok (Status, st') /\ good st'.
Proof.
  intros Hop (LM & LI & Hwf) Hf Hroom.
  destruct (convert_good st LM LI Operation MemoryType IoType Base Length Caps Attrs Hop Hwf Hf) as (s & st' & LM' & LI' & -> & Hwf' & _).
  { by apply (room_two st). }
  exists s, st'. split; [done|by exists LM', LI'].
Qed.

Lemma allocate_call st Operation AllocateType MemoryType IoType al Length base Image Device :
  Operation = GCD_ALLOCATE_MEMORY_OPERATION \/ Operation = GCD_ALLOCATE_IO_OPERATION -> good st ->
  alloc_fits (if on_memory Operation then hiM else hiI) AllocateType MemoryType IoType al Length base -> room_for 2 st ->
  exists Status b st', CoreAllocateSpace Verify Max st Operation AllocateType MemoryType IoType al Length base Image Device = Ok (Status, b, st') /\ good st'.
Proof.
  intros Hop (LM & LI & Hwf) Hf Hroom.
  destruct (allocate_good st LM LI Operation AllocateType MemoryType IoType al Length base Image Device Hop Hwf Hf) as (s & b & st' & LM' & LI' & -> & Hwf' & _).
  { by apply (room_two st). }
  exists s, b, st'. split; [done|by exists LM', LI'].
Qed.

Lemma good_call c st : good st -> good (call c st).
Proof. intros (LM & LI & Hwf). exists LM, LI. by apply call_good. Qed.

Lemma gcd_service_safe c st : good st -> legal_service hiM hiI c st -> exists Status st', run_service c st = Ok (Status, st') /\ good st'.
Proof.
  intros Hg Hl. assert (Hops : Forall gcd_operation [GCD_FREE_MEMORY_OPERATION; GCD_REMOVE_MEMORY_OPERATION; GCD_SET_ATTRIBUTES_MEMORY_OPERATION;
    GCD_SET_CAPABILITIES_MEMORY_OPERATION; GCD_ADD_IO_OPERATION; GCD_FREE_IO_OPERATION; GCD_REMOVE_IO_OPERATION]).
  { rewrite !Forall_cons. unfold gcd_operation. repeat split; try (clear; set_solver). }
  rewrite !Forall_cons in Hops. destruct Hops as (H1 & H2 & H3 & H4 & H5 & H6 & H7 & _).
  destruct c as [MT B L C|AT MT al L B Im D|B L|B L|B L A|B L C|B n|m n|T B L|AT IT al L B Im D|B L|B L|B n|m n]; cbn [run_service legal_service] in *.
  - destruct Hl as (Hf & Hroom & Hp). destruct Hg as (LM & LI & Hwf). apply (AddMemorySpace_good st LM LI); [exact Hwf|exact Hf|apply (Hroom mGcdMemorySpaceMap), Hwf|exact Hp].
  - destruct Hl as [Hf Hroom]. unfold CoreAllocateMemorySpace.
    destruct (allocate_call st GCD_ALLOCATE_MEMORY_OPERATION AT MT 0 al L B Im D) as (s & b & st' & -> & Hg'); [by left|done..|]. by exists s, st'.
  - destruct Hl. by apply convert_call.
  - destruct Hl. by apply convert_call.
  - destruct Hl. by apply convert_call.
  - destruct Hl as [Hf Hroom]. unfold CoreSetMemorySpaceCapabilities.
    destruct (convert_call st GCD_SET_CAPABILITIES_MEMORY_OPERATION 0 0 B L C 0 H4 Hg Hf Hroom) as (s & st' & -> & Hg'). cbn [mbind result_bind].
    destruct (negb (EFI_ERROR s)); [eexists _, _; split; [done|by apply good_call]|by exists s, st'].
  - destruct Hg as (LM & LI & Hwf). destruct (CoreGetSpaceDescriptor_correct st LM LI hiM hiI B Hwf Hl) as ((s & d & Heq & _) & _ & Hnull & _).
    destruct n; [rewrite Hnull|rewrite Heq]; eexists _, st; (split; [done|by exists LM, LI]).
  - destruct Hg as (LM & LI & Hwf). destruct (GetMemorySpaceMap_good st LM LI m n Hwf) as (s & num & l & st' & -> & Hg'). by exists s, st'.
  - destruct Hl as [Hf Hroom]. unfold CoreAddIoSpace. destruct (_ || _); [by exists EFI_INVALID_PARAMETER, st|]. by apply convert_call.
  - destruct Hl as [Hf Hroom]. unfold CoreAllocateIoSpace.
    destruct (allocate_call st GCD_ALLOCATE_IO_OPERATION AT 0 IT al L B Im D) as (s & b & st' & -> & Hg'); [by right|done..|]. by exists s, st'.
  - destruct Hl. by apply convert_call.
  - destruct Hl. by apply convert_call.
  - destruct Hg as (LM & LI & Hwf). destruct (CoreGetSpaceDescriptor_correct st LM LI hiM hiI B Hwf Hl) as (_ & (s & d & Heq & _) & _ & Hnull).
    destruct n; [rewrite Hnull|rewrite Heq]; eexists _, st; (split; [done|by exists LM, LI]).
  - destruct Hg as (LM & LI & Hwf). destruct (GetIoSpaceMap_good st LM LI m n Hwf) as (s & num & l & st' & -> & Hg'). by exists s, st'.
Qed.

(** C1: From every state in which the memory map and the I/O map tile their address
    spaces without gap or overlap, every sequence of legal calls of the fourteen
    GCD services on them leads to such a state, with the locks free: every call
    returns, violates no ASSERT, reads no node that is not there, and no loop runs
    out of its bound.  A call is legal if its addresses do not wrap past [2 ^ 64]
    ([GcdDefects.CoreConvertSpace_wraps] shows what a wrapping range does), if the
    lists have room for the nodes it may add (always, when
    PcdMaximumLinkedListLength is 0), and, for adding system memory, if the range
    reaches a page boundary ([GcdDefects.CoreAddMemorySpace_subpage_wraps]); all
    other arguments are arbitrary, NULL included. *)
Theorem gcd_services_safe cs st LM LI (Hwf : gcd_wf hiM hiI st LM LI)
    (Hlegal : legal_each run_service (legal_service hiM hiI) cs st) :
  exists Statuses st' LM' LI', run_each run_service cs st = Ok (Statuses, st') /\
    length Statuses = length cs /\ gcd_wf hiM hiI st' LM' LI'.
Proof.
  destruct (run_each_safe run_service (legal_service hiM hiI) good gcd_service_safe cs st) as (l & st' & Heq & Hlen & LM' & LI' & Hwf');
    [by exists LM, LI|done|]. by exists l, st', LM', LI'.
Qed.
End Program.

(** ** A program on concrete maps *)

Module GcdProgramWitness.
Import GcdWitness.

(** Reserved space is added, allocated, given attributes and capabilities, and read
    out; the owned part cannot be removed; I/O space is added and allocated; two
    megabytes of system memory are added. *)
Definition program : list GcdService := [
  AddMemorySpace EfiGcdMemoryTypeReserved 0x100000 0x100000 0xF;
  AllocateMemorySpace EfiGcdAllocateAnySearchTopDown EfiGcdMemoryTypeReserved 12 0x1000 (Some 0) 77 0;
  SetMemorySpaceAttributes 0x100000 0x1000 EFI_MEMORY_UC;
  SetMemorySpaceCapabilities 0x100000 0x2000 0xFF;
  GetMemorySpaceDescriptor 0x100123 false;
  GetMemorySpaceMap true false;
  RemoveMemorySpace 0x100000 0x100000;
  FreeMemorySpace 0x1FF000 0x1000;
  RemoveMemorySpace 0x180000 0x80000;
  AddIoSpace EfiGcdIoTypeIo 0x400 0x100;
  AllocateIoSpace EfiGcdAllocateAddress EfiGcdIoTypeIo 0 0x10 (Some 0x400) 78 0;
  FreeIoSpace 0x400 0x10;
  RemoveIoSpace 0x400 0x100;
  GetIoSpaceDescriptor 0x400 true;
  GetIoSpaceMap true false;
  AllocateMemorySpace EfiGcdAllocateAddress EfiGcdMemoryTypeReserved 12 0x1000 None 77 0;
  AddMemorySpace EfiGcdMemoryTypeSystemMemory 0x200000 0x2000 0xF ].

Definition run_program := run_each (run_service true limit cpu 5).

Example gcd_program_statuses :
  match run_program program start with Ok (l, _) => l | _ => [] end =
  [ EFI_SUCCESS; EFI_SUCCESS; EFI_SUCCESS; EFI_SUCCESS; EFI_SUCCESS; EFI_SUCCESS; EFI_ACCESS_DENIED; EFI_SUCCESS; EFI_SUCCESS;
    EFI_SUCCESS; EFI_SUCCESS; EFI_SUCCESS; EFI_SUCCESS; EFI_INVALID_PARAMETER; EFI_SUCCESS; EFI_INVALID_PARAMETER; EFI_SUCCESS ].
Proof. vm_compute. reflexivity. Qed.

(** Legality, decided. *)
Definition roomb (k : nat) (st : GCD) : bool := (size (links st) + k + 1 <? limit)%nat.
Definition fitsb (B L : Z) : bool := (0 <=? B) && (0 <=? L) && (L <? 2 ^ 64) && (B + L <=? 2 ^ 64).

Definition alloc_fitsb (hi AT MT IT al L : Z) (base : option Z) : bool :=
  (0 <=? AT) && (AT <? 2 ^ 32) && (0 <=? MT) && (MT <? 2 ^ 32) && (0 <=? IT) && (IT <? 2 ^ 32) && (0 <=? al) && (0 <=? L) &&
  match base with
  | Some b => (0 <=? b) && (b <? 2 ^ 64) && (if AT =? EfiGcdAllocateAddress then b + L <=? 2 ^ 64 else hi + 2 ^ al + L <=? 2 ^ 64)
  | None => true
  end.

Definition legalb (c : GcdService) (st : GCD) : bool :=
  match c with
  | AddMemorySpace MT B L _ =>
      fitsb B L && roomb (if by_pages MT then 4 + 2 * pages L else 2) st && (B + 0xFFF <? 2 ^ 64) && (PageAlignAddress B <=? B + L)
  | FreeMemorySpace B L | RemoveMemorySpace B L | SetMemorySpaceAttributes B L _
  | SetMemorySpaceCapabilities B L _ | AddIoSpace _ B L | FreeIoSpace B L | RemoveIoSpace B L => fitsb B L && roomb 2 st
  | AllocateMemorySpace AT MT al L B _ _ => alloc_fitsb M36 AT MT 0 al L B && roomb 2 st
  | AllocateIoSpace AT IT al L B _ _ => alloc_fitsb I16 AT 0 IT al L B && roomb 2 st
  | GetMemorySpaceDescriptor B _ | GetIoSpaceDescriptor B _ => (0 <=? B) && (B <? 2 ^ 64)
  | GetMemorySpaceMap _ _ | GetIoSpaceMap _ _ => true
  end.

Lemma roomb_ok k st : roomb k st = true -> room_for limit k st.
Proof.
  intros Hs%Nat.ltb_lt Map L [Hd _]. apply dlist_size in Hd. right. rewrite length_app, length_replicate. lia.
Qed.

Lemma fitsb_ok B L : fitsb B L = true -> fits B L.
Proof. unfold fitsb, fits. bool_to_prop. lia. Qed.

Lemma alloc_fitsb_ok hi AT MT IT al L base : alloc_fitsb hi AT MT IT al L base = true -> alloc_fits hi AT MT IT al L base.
Proof.
  unfold alloc_fitsb, alloc_fits. rewrite !andb_true_iff, !Z.leb_le, !Z.ltb_lt. intros ((((((((? & ?) & ?) & ?) & ?) & ?) & ?) & ?) & Hb).
  do 5 (split; [done|]). intros b ->. rewrite !andb_true_iff, Z.leb_le, Z.ltb_lt in Hb. destruct Hb as [? Hb]. split; [done|].
  destruct (AT =? EfiGcdAllocateAddress); [by apply Z.leb_le|intros _; by apply Z.leb_le].
Qed.

Lemma legalb_ok c st : legalb c st = true -> legal_service limit M36 I16 c st.
Proof.
  destruct c; cbn [legalb legal_service]; rewrite ?andb_true_iff, ?Z.leb_le, ?Z.ltb_lt; try done;
    try (by intros [?%fitsb_ok ?%roomb_ok]); try (by intros [?%alloc_fitsb_ok ?%roomb_ok]).
  intros (((?%fitsb_ok & ?%roomb_ok) & ?) & ?). by split.
Qed.

Fixpoint legal_eachb (cs : list GcdService) (st : GCD) : bool :=
  match cs with
  | [] => true
  | c :: cs => legalb c st && match run_service true limit cpu 5 c st with Ok (_, st') => legal_eachb cs st' | _ => true end
  end.

Lemma legal_eachb_ok cs : forall st, legal_eachb cs st = true -> legal_each (run_service true limit cpu 5) (legal_service limit M36 I16) cs st.
Proof.
  induction cs as [|c cs IH]; intros st; cbn [legal_eachb legal_each]; [done|]. intros [Hc%legalb_ok Hl]%andb_true_iff. split; [done|].
  destruct (run_service true limit cpu 5 c st) as [[? st']| | |]; [by apply IH|done..].
Qed.

Lemma gcd_services_safe_witness :
  exists Statuses st' LM' LI', run_program program start = Ok (Statuses, st') /\ length Statuses = 17%nat /\ gcd_wf M36 I16 st' LM' LI'.
Proof.
  refine (gcd_services_safe true limit cpu 5 M36 I16 _ _ program start _ _ start_wf _); [done|done|].
  apply legal_eachb_ok. vm_compute. reflexivity.
Defined.
End GcdProgramWitness.
