(* ===== verification/Event.v ===== *)
(** * Events, timers and task priority levels: the code

    MdeModulePkg/Core/Dxe/Event/Event.c, Timer.c and Tpl.c, with the locks of
    Library/Library.c.  Events live at addresses of pool memory; their four
    LIST_ENTRY fields are nodes of the store of LinkedList.v, at the field's
    offset.  A notification function is a program of calls of these services
    ([prog]), so that it can signal, close or create events in turn: lowering
    the TPL runs notification functions, which lower the TPL again, ...
    [CoreRestoreTpl] ties this knot with fuel; the functions below it take the
    version with less fuel as [restore]. *)

From S2P Require Import Prelude CTypes BaseMath LinkedList.

(** ** Constants *)

(** [EVT_*] and [TPL_*] of MdePkg/Include/Uefi/UefiSpec.h. *)
Definition EVT_TIMER : Z := 0x80000000.
Definition EVT_RUNTIME : Z := 0x40000000.
Definition EVT_NOTIFY_WAIT : Z := 0x100.
Definition EVT_NOTIFY_SIGNAL : Z := 0x200.
Definition EVT_SIGNAL_EXIT_BOOT_SERVICES : Z := 0x201.
Definition EVT_SIGNAL_VIRTUAL_ADDRESS_CHANGE : Z := 0x60000202.

Definition TPL_APPLICATION : Z := 4.
Definition TPL_CALLBACK : Z := 8.
Definition TPL_NOTIFY : Z := 16.
Definition TPL_HIGH_LEVEL : Z := 31.

(** [EFI_TIMER_DELAY]. *)
Definition TimerCancel : Z := 0.
Definition TimerPeriodic : Z := 1.
Definition TimerRelative : Z := 2.

Definition EVT_EXFLAG_EVENT_GROUP : Z := 1.
Definition EVT_EXFLAG_EVENT_PROTOCOL_NOTIFICATION : Z := 2.

(** [SIGNATURE_32 ('e','v','n','t')]. *)
Definition EVENT_SIGNATURE : Z := 0x746e7665.

Definition mEventTable : list Z :=
  [Z.lor EVT_TIMER EVT_NOTIFY_SIGNAL; EVT_TIMER; EVT_NOTIFY_WAIT; EVT_NOTIFY_SIGNAL;
   EVT_SIGNAL_EXIT_BOOT_SERVICES; EVT_SIGNAL_VIRTUAL_ADDRESS_CHANGE; 0; Z.lor EVT_TIMER EVT_NOTIFY_WAIT].

(** A GUID: its three numbers and eight bytes. *)
Record EFI_GUID := MkGuid { Data1 : Z; Data2 : Z; Data3 : Z; Data4 : list Z }.

#[export] Instance EFI_GUID_eq_dec : EqDecision EFI_GUID.
Proof. solve_decision. Defined.

Definition CompareGuid (Guid1 Guid2 : EFI_GUID) : bool := bool_decide (Guid1 = Guid2).

Definition zero_guid : EFI_GUID := MkGuid 0 0 0 ([0; 0; 0; 0; 0; 0; 0; 0]).
Definition gEfiEventExitBootServicesGuid : EFI_GUID :=
  MkGuid 0x27ABF055 0xB1B8 0x4C26 ([0x80; 0x48; 0x74; 0x8F; 0x37; 0xBA; 0xA2; 0xDF]).
Definition gEfiEventVirtualAddressChangeGuid : EFI_GUID :=
  MkGuid 0x13FA7698 0xC831 0x49C7 ([0x87; 0xEA; 0x8F; 0x43; 0xFC; 0xC2; 0x51; 0x96]).
Definition gIdleLoopEventGuid : EFI_GUID :=
  MkGuid 0x3c8d294c 0x5fc3 0x4451 ([0xbb; 0x31; 0xc4; 0xc0; 0x32; 0x29; 0x5e; 0x6c]).

(** The addresses of the static list heads: [gEventQueue[Tpl]],
    [gEventSignalQueue], [mEfiTimerList], [gRuntime->EventHead]. *)
Definition gEventQueue (Tpl : Z) : ptr := 0x1000 + 16 * Tpl.
Definition gEventSignalQueue : ptr := 0x1200.
Definition mEfiTimerList : ptr := 0x1210.
Definition gRuntime_EventHead : ptr := 0x1220.

(** Notification functions of the core: [EfiEventEmptyFunction] and
    [CoreCheckTimers] ([NULL]: no function). *)
Definition EfiEventEmptyFunction : Z := 1.
Definition CoreCheckTimers_function : Z := 2.

(** ** Data *)

(** The fields of [IEVENT] that are not links.  [RuntimeData] has [Type], TPL,
    function, context and event again; [TriggerTime] and [Period] are those of
    [Timer]. *)
Record EFI_RUNTIME_EVENT_ENTRY := MkRuntimeEntry {
  rt_Type : Z; rt_NotifyTpl : Z; rt_NotifyFunction : Z; rt_NotifyContext : Z; rt_Event : ptr }.

Record IEVENT := MkEvent {
  Signature : Z;
  Type_ : Z;
  SignalCount : Z;
  NotifyTpl : Z;
  NotifyFunction : Z;
  NotifyContext : Z;
  EventGroup : EFI_GUID;
  ExFlag : Z;
  RuntimeData : EFI_RUNTIME_EVENT_ENTRY;
  TriggerTime : Z;
  Period : Z }.

Definition zero_event : IEVENT := MkEvent 0 0 0 0 0 0 zero_guid 0 (MkRuntimeEntry 0 0 0 0 0) 0 0.

(** Offsets of the links in [IEVENT] (X64), and its size. *)
Definition OFFSET_SignalLink : Z := 16.
Definition OFFSET_NotifyLink : Z := 72.
Definition OFFSET_RuntimeLink : Z := 136.
Definition OFFSET_TimerLink : Z := 152.
Definition sizeof_IEVENT : Z := 184.

Definition set_Signature v (e : IEVENT) : IEVENT :=
  MkEvent v (Type_ e) (SignalCount e) (NotifyTpl e) (NotifyFunction e) (NotifyContext e) (EventGroup e)
    (ExFlag e) (RuntimeData e) (TriggerTime e) (Period e).
Definition set_SignalCount v (e : IEVENT) : IEVENT :=
  MkEvent (Signature e) (Type_ e) v (NotifyTpl e) (NotifyFunction e) (NotifyContext e) (EventGroup e)
    (ExFlag e) (RuntimeData e) (TriggerTime e) (Period e).
Definition set_EventGroup g x (e : IEVENT) : IEVENT :=
  MkEvent (Signature e) (Type_ e) (SignalCount e) (NotifyTpl e) (NotifyFunction e) (NotifyContext e) g
    x (RuntimeData e) (TriggerTime e) (Period e).
Definition set_RuntimeData v (e : IEVENT) : IEVENT :=
  MkEvent (Signature e) (Type_ e) (SignalCount e) (NotifyTpl e) (NotifyFunction e) (NotifyContext e)
    (EventGroup e) (ExFlag e) v (TriggerTime e) (Period e).
Definition set_Timer t p (e : IEVENT) : IEVENT :=
  MkEvent (Signature e) (Type_ e) (SignalCount e) (NotifyTpl e) (NotifyFunction e) (NotifyContext e)
    (EventGroup e) (ExFlag e) (RuntimeData e) t p.

(** [EFI_LOCK]; [Acquired]: its state is [EfiLockAcquired], else
    [EfiLockReleased]. *)
Record EFI_LOCK := MkLock { Tpl : Z; OwnerTpl : Z; Acquired : bool }.

(** The data of the event services.  [Notified] is the history of the calls of
    notification functions: event and TPL. *)
Record EventData := MkData {
  links : store;
  events : gmap ptr IEVENT;
  live : gset ptr;
  gEventPending : Z;
  mEfiSystemTime : Z;
  mEfiCheckTimerEvent : ptr;
  gIdleLoopEvent : ptr;
  Notified : list (ptr * Z) }.

Definition set_links v (d : EventData) : EventData :=
  MkData v (events d) (live d) (gEventPending d) (mEfiSystemTime d) (mEfiCheckTimerEvent d) (gIdleLoopEvent d) (Notified d).
Definition set_events v (d : EventData) : EventData :=
  MkData (links d) v (live d) (gEventPending d) (mEfiSystemTime d) (mEfiCheckTimerEvent d) (gIdleLoopEvent d) (Notified d).
Definition set_live v (d : EventData) : EventData :=
  MkData (links d) (events d) v (gEventPending d) (mEfiSystemTime d) (mEfiCheckTimerEvent d) (gIdleLoopEvent d) (Notified d).
Definition set_pending v (d : EventData) : EventData :=
  MkData (links d) (events d) (live d) v (mEfiSystemTime d) (mEfiCheckTimerEvent d) (gIdleLoopEvent d) (Notified d).
Definition set_time v (d : EventData) : EventData :=
  MkData (links d) (events d) (live d) (gEventPending d) v (mEfiCheckTimerEvent d) (gIdleLoopEvent d) (Notified d).
Definition set_CheckTimerEvent v (d : EventData) : EventData :=
  MkData (links d) (events d) (live d) (gEventPending d) (mEfiSystemTime d) v (gIdleLoopEvent d) (Notified d).
Definition set_IdleLoopEvent v (d : EventData) : EventData :=
  MkData (links d) (events d) (live d) (gEventPending d) (mEfiSystemTime d) (mEfiCheckTimerEvent d) v (Notified d).
Definition notified e t (d : EventData) : EventData :=
  MkData (links d) (events d) (live d) (gEventPending d) (mEfiSystemTime d) (mEfiCheckTimerEvent d) (gIdleLoopEvent d)
    (Notified d ++ [(e, t)]).

(** The whole state: the data, the task priority, whether interrupts are
    enabled, and the locks. *)
Record EventState := MkState {
  data : EventData;
  gEfiCurrentTpl : Z;
  InterruptState : bool;
  gEventQueueLock : EFI_LOCK;
  mEfiTimerLock : EFI_LOCK;
  mEfiSystemTimeLock : EFI_LOCK }.

Definition set_data d (s : EventState) : EventState :=
  MkState d (gEfiCurrentTpl s) (InterruptState s) (gEventQueueLock s) (mEfiTimerLock s) (mEfiSystemTimeLock s).
Definition set_tpl t (s : EventState) : EventState :=
  MkState (data s) t (InterruptState s) (gEventQueueLock s) (mEfiTimerLock s) (mEfiSystemTimeLock s).
Definition set_interrupts b (s : EventState) : EventState :=
  MkState (data s) (gEfiCurrentTpl s) b (gEventQueueLock s) (mEfiTimerLock s) (mEfiSystemTimeLock s).

(** The three locks, by name. *)
Inductive lock := EventQueueLock | TimerLock | SystemTimeLock.

#[export] Instance lock_eq_dec : EqDecision lock.
Proof. solve_decision. Defined.

Definition get_lock (l : lock) (s : EventState) : EFI_LOCK :=
  match l with
  | EventQueueLock => gEventQueueLock s
  | TimerLock => mEfiTimerLock s
  | SystemTimeLock => mEfiSystemTimeLock s
  end.

Definition set_lock (l : lock) v (s : EventState) : EventState :=
  match l with
  | EventQueueLock => MkState (data s) (gEfiCurrentTpl s) (InterruptState s) v (mEfiTimerLock s) (mEfiSystemTimeLock s)
  | TimerLock => MkState (data s) (gEfiCurrentTpl s) (InterruptState s) (gEventQueueLock s) v (mEfiSystemTimeLock s)
  | SystemTimeLock => MkState (data s) (gEfiCurrentTpl s) (InterruptState s) (gEventQueueLock s) (mEfiTimerLock s) v
  end.

(** ** Programs *)

(** The calls that a client of the services makes. *)
Inductive call :=
| RaiseTpl (NewTpl : Z)
| RestoreTpl (NewTpl : Z)
| CreateEvent (Type_ Tpl Function Context : Z)
| CreateEventEx (Type_ Tpl Function Context : Z) (Group : option EFI_GUID)
| SignalEvent (Event : ptr)
| CheckEvent (Event : ptr)
| WaitForEvent (Events : list ptr)
| CloseEvent (Event : ptr)
| SetTimer (Event : ptr) (Type_ Time : Z)
| TimerTick (Duration : Z).

(** A client: calls, each of which may depend on the status and the value
    (previous TPL, event, index) that the calls before it returned. *)
Inductive prog :=
| Done
| Do (c : call) (k : EFI_STATUS -> Z -> prog).

(** What is outside: the CPU protocol and the SMM protocol (present or not;
    the answer of [InSmm]), the period of the timer hardware, the pool, the
    protocol database, and the code of the notification functions. *)
Class Platform := {
  gCpu : bool;
  gSmmBase2 : option (EFI_STATUS * bool);
  GetTimerPeriod : Z;
  AllocatePool : bool -> gset ptr -> option ptr;
  CoreUnregisterProtocolNotify : ptr -> EventState -> EventState;
  Client : Z -> ptr -> Z -> prog }.

(** ** Interrupts and priorities: Tpl.c *)

Section Code.
Context `{Machine} `{Platform} (Verify : bool) (Max : nat).

Definition CoreSetInterruptState (Enable : bool) (s : EventState) : EventState :=
  if negb gCpu then s else
  if negb Enable then set_interrupts false s else
  match gSmmBase2 with
  | None => set_interrupts true s
  | Some (Status, InSmm) => if negb (EFI_ERROR Status) && negb InSmm then set_interrupts true s else s
  end.

Definition CoreRaiseTpl (NewTpl : Z) (s : EventState) : result (Z * EventState) :=
  let OldTpl := gEfiCurrentTpl s in
  do! ASSERT (negb (OldTpl >? NewTpl)) ;;
  do! ASSERT (NewTpl <=? TPL_HIGH_LEVEL) ;;
  let s := if (NewTpl >=? TPL_HIGH_LEVEL) && (OldTpl <? TPL_HIGH_LEVEL)
           then CoreSetInterruptState false s else s in
  Ok (OldTpl, set_tpl NewTpl s).

(** [CoreRestoreTpl], as seen by the code that it does not call itself. *)
Section Recursion.
Context (restore : Z -> EventState -> result EventState).

(** ** Locks: Library.c *)

Definition CoreAcquireLock (l : lock) (s : EventState) : result EventState :=
  do! ASSERT (negb (Acquired (get_lock l s))) ;;
  let! (OldTpl, s) := CoreRaiseTpl (Tpl (get_lock l s)) s in
  Ok (set_lock l (MkLock (Tpl (get_lock l s)) OldTpl true) s).

Definition CoreReleaseLock (l : lock) (s : EventState) : result EventState :=
  do! ASSERT (Acquired (get_lock l s)) ;;
  let OldTpl := OwnerTpl (get_lock l s) in
  restore OldTpl (set_lock l (MkLock (Tpl (get_lock l s)) OldTpl false) s).

Definition CoreAcquireLockOrFail (l : lock) (s : EventState) : result (EFI_STATUS * EventState) :=
  if Acquired (get_lock l s) then Ok (EFI_ACCESS_DENIED, s) else
  let! (OldTpl, s) := CoreRaiseTpl (Tpl (get_lock l s)) s in
  Ok (EFI_SUCCESS, set_lock l (MkLock (Tpl (get_lock l s)) OldTpl true) s).

Definition CoreAcquireEventLock (s : EventState) : result EventState := CoreAcquireLock EventQueueLock s.
Definition CoreReleaseEventLock (s : EventState) : result EventState := CoreReleaseLock EventQueueLock s.

(** ** Access to events *)

(** [Event->...]: an address that holds no event structure is not readable. *)
Definition event (d : EventData) (Event : ptr) : result IEVENT := deref (events d !! Event).

Definition update_event (f : IEVENT -> IEVENT) (Event : ptr) (d : EventData) : result EventData :=
  let! e := event d Event in Ok (set_events (<[Event := f e]> (events d)) d).

(** [CR (Link, IEVENT, Field, EVENT_SIGNATURE)]. *)
Definition CR (d : EventData) (Link Offset : ptr) : result ptr :=
  let! e := event d (Link - Offset) in
  do! ASSERT (Signature e =? EVENT_SIGNATURE) ;;
  Ok (Link - Offset).

(** [Event->Link.ForwardLink != NULL]. *)
Definition queued (d : EventData) (Link : ptr) : result bool :=
  let! n := load (links d) Link in Ok (negb (ForwardLink n =? NULL)).

Definition unlink (d : EventData) (Link : ptr) : result EventData :=
  let! (_, h) := RemoveEntryList Max (links d) Link in Ok (set_links h d).

Definition clear_link (d : EventData) (Link : ptr) : result EventData :=
  let! h := set_ForwardLink (links d) Link NULL in Ok (set_links h d).

Definition unlink_and_clear (Link : ptr) (d : EventData) : result EventData :=
  let! d := unlink d Link in clear_link d Link.

(** "If it is queued somewhere, remove it." *)
Definition dequeue (Link : ptr) (d : EventData) : result EventData :=
  let! q := queued d Link in
  if q : bool then unlink_and_clear Link d else Ok d.

(** [1 << n] in [int]. *)
Definition int_bit (n : Z) : result Z := if (0 <=? n) && (n <? 31) then Ok (Z.shiftl 1 n) else BadAccess.

(** ** Signalling: Event.c *)

Definition CoreNotifyEvent (Event : ptr) (s : EventState) : result EventState :=
  do! ASSERT (Acquired (gEventQueueLock s)) ;;
  let! d := dequeue (Event + OFFSET_NotifyLink) (data s) in
  let! e := event d Event in
  let! (_, h) := InsertTailList Verify Max (links d) (gEventQueue (NotifyTpl e)) (Event + OFFSET_NotifyLink) in
  let! bit := int_bit (NotifyTpl e) in
  Ok (set_data (set_pending (Z.lor (gEventPending d) bit) (set_links h d)) s).

(** The loop over [gEventSignalQueue]. *)
Fixpoint NotifySignalList_loop (fuel : nat) (Group : EFI_GUID) (Link : ptr) (s : EventState) : result EventState :=
  match fuel with
  | O => NoFuel
  | S fuel =>
      if Link =? gEventSignalQueue then Ok s else
      let! Event := CR (data s) Link OFFSET_SignalLink in
      let! e := event (data s) Event in
      let! s := if CompareGuid (EventGroup e) Group then CoreNotifyEvent Event s else Ok s in
      let! n := load (links (data s)) Link in
      NotifySignalList_loop fuel Group (ForwardLink n) s
  end.

Definition CoreNotifySignalList (Group : EFI_GUID) (s : EventState) : result EventState :=
  let! s := CoreAcquireEventLock s in
  let! n := load (links (data s)) gEventSignalQueue in
  let! s := NotifySignalList_loop (S (size (links (data s)))) Group (ForwardLink n) s in
  CoreReleaseEventLock s.

(** [Event == NULL] or a wrong signature. *)
Definition bad_event (d : EventData) (Event : ptr) : result bool :=
  if Event =? NULL then Ok true else
  let! e := event d Event in Ok (negb (Signature e =? EVENT_SIGNATURE)).

Definition has (Flags Flag : Z) : bool := negb (Z.land Flags Flag =? 0).

Definition CoreSignalEvent (UserEvent : ptr) (s : EventState) : result (EFI_STATUS * EventState) :=
  let! bad := bad_event (data s) UserEvent in
  if bad : bool then Ok (EFI_INVALID_PARAMETER, s) else
  let! s := CoreAcquireEventLock s in
  let! e := event (data s) UserEvent in
  let! s := if SignalCount e =? 0 then
      let! d := update_event (set_SignalCount (u32 (SignalCount e + 1))) UserEvent (data s) in
      let s := set_data d s in
      if has (Type_ e) EVT_NOTIFY_SIGNAL then
        if has (ExFlag e) EVT_EXFLAG_EVENT_GROUP then
          let! s := CoreReleaseEventLock s in
          let! e := event (data s) UserEvent in
          let! s := CoreNotifySignalList (EventGroup e) s in
          CoreAcquireEventLock s
        else CoreNotifyEvent UserEvent s
      else Ok s
    else Ok s in
  let! s := CoreReleaseEventLock s in
  Ok (EFI_SUCCESS, s).

Definition CoreCheckEvent (UserEvent : ptr) (s : EventState) : result (EFI_STATUS * EventState) :=
  let! bad := bad_event (data s) UserEvent in
  if bad : bool then Ok (EFI_INVALID_PARAMETER, s) else
  let! e := event (data s) UserEvent in
  if has (Type_ e) EVT_NOTIFY_SIGNAL then Ok (EFI_INVALID_PARAMETER, s) else
  let! s := if (SignalCount e =? 0) && has (Type_ e) EVT_NOTIFY_WAIT then
      let! s := CoreAcquireEventLock s in
      let! e := event (data s) UserEvent in
      let! s := if SignalCount e =? 0 then CoreNotifyEvent UserEvent s else Ok s in
      CoreReleaseEventLock s
    else Ok s in
  let! e := event (data s) UserEvent in
  if negb (SignalCount e =? 0) then
    let! s := CoreAcquireEventLock s in
    let! e := event (data s) UserEvent in
    let! (Status, s) := if negb (SignalCount e =? 0) then
        let! d := update_event (set_SignalCount 0) UserEvent (data s) in
        Ok (EFI_SUCCESS, set_data d s)
      else Ok (EFI_NOT_READY, s) in
    let! s := CoreReleaseEventLock s in
    Ok (Status, s)
  else Ok (EFI_NOT_READY, s).

(** ** Timers: Timer.c *)

(** The search for the first timer that triggers later. *)
Fixpoint InsertEventTimer_loop (fuel : nat) (Time : Z) (Link : ptr) (d : EventData) : result ptr :=
  match fuel with
  | O => NoFuel
  | S fuel =>
      if Link =? mEfiTimerList then Ok Link else
      let! Event2 := CR d Link OFFSET_TimerLink in
      let! e := event d Event2 in
      if TriggerTime e >? Time then Ok Link else
      let! n := load (links d) Link in
      InsertEventTimer_loop fuel Time (ForwardLink n) d
  end.

Definition CoreInsertEventTimer (Event : ptr) (s : EventState) : result EventState :=
  do! ASSERT (Acquired (mEfiTimerLock s)) ;;
  let d := data s in
  let! e := event d Event in
  let! n := load (links d) mEfiTimerList in
  let! Link := InsertEventTimer_loop (S (size (links d))) (TriggerTime e) (ForwardLink n) d in
  let! (_, h) := InsertTailList Verify Max (links d) Link (Event + OFFSET_TimerLink) in
  Ok (set_data (set_links h d) s).

Definition CoreCurrentSystemTime (s : EventState) : result (Z * EventState) :=
  let! s := CoreAcquireLock SystemTimeLock s in
  let SystemTime := mEfiSystemTime (data s) in
  let! s := CoreReleaseLock SystemTimeLock s in
  Ok (SystemTime, s).

Definition set_event (f : IEVENT -> IEVENT) (Event : ptr) (s : EventState) : result EventState :=
  let! d := update_event f Event (data s) in Ok (set_data d s).

(** One pass of the loop of [CoreCheckTimers]; [None]: it is left. *)
Definition CheckTimers_step (SystemTime : Z) (s : EventState) : result (option EventState) :=
  let! empty := IsListEmpty Max (links (data s)) mEfiTimerList in
  if empty : bool then Ok None else
  let! n := load (links (data s)) mEfiTimerList in
  let! Event := CR (data s) (ForwardLink n) OFFSET_TimerLink in
  let! e := event (data s) Event in
  if TriggerTime e >? SystemTime then Ok None else
  let! d := unlink_and_clear (Event + OFFSET_TimerLink) (data s) in
  let! (_, s) := CoreSignalEvent Event (set_data d s) in
  let! e := event (data s) Event in
  if negb (Period e =? 0) then
    let! s := set_event (fun e => set_Timer (u64 (TriggerTime e + Period e)) (Period e) e) Event s in
    let! e := event (data s) Event in
    let! s := if TriggerTime e <=? SystemTime then
        let! s := set_event (fun e => set_Timer SystemTime (Period e) e) Event s in
        let! (_, s) := CoreSignalEvent (mEfiCheckTimerEvent (data s)) s in Ok s
      else Ok s in
    let! s := CoreInsertEventTimer Event s in Ok (Some s)
  else Ok (Some s).

Fixpoint CheckTimers_loop (fuel : nat) (SystemTime : Z) (s : EventState) : result EventState :=
  match fuel with
  | O => NoFuel
  | S fuel =>
      let! r := CheckTimers_step SystemTime s in
      match r with
      | None => Ok s
      | Some s => CheckTimers_loop fuel SystemTime s
      end
  end.

Definition CoreCheckTimers (fuel : nat) (s : EventState) : result EventState :=
  let! s := CoreAcquireLock TimerLock s in
  let! (SystemTime, s) := CoreCurrentSystemTime s in
  let! s := CheckTimers_loop fuel SystemTime s in
  CoreReleaseLock TimerLock s.

(** "If the head of the list is expired, fire the timer event." *)
Definition TimerTick_check (s : EventState) : result EventState :=
  let! empty := IsListEmpty Max (links (data s)) mEfiTimerList in
  if empty : bool then Ok s else
  let! n := load (links (data s)) mEfiTimerList in
  let! Event := CR (data s) (ForwardLink n) OFFSET_TimerLink in
  let! e := event (data s) Event in
  if TriggerTime e <=? mEfiSystemTime (data s) then
    let! (_, s) := CoreSignalEvent (mEfiCheckTimerEvent (data s)) s in Ok s
  else Ok s.

Definition CoreTimerTick (Duration : Z) (s : EventState) : result EventState :=
  let! s := CoreAcquireLock SystemTimeLock s in
  let! s := TimerTick_check (set_data (set_time (u64 (mEfiSystemTime (data s) + Duration)) (data s)) s) in
  CoreReleaseLock SystemTimeLock s.

(** [CoreSetTimer] in its critical section. *)
Definition SetTimer_locked (UserEvent : ptr) (Type_' Time : Z) (s : EventState) : result EventState :=
  let! d := dequeue (UserEvent + OFFSET_TimerLink) (data s) in
  let! s := set_event (set_Timer 0 0) UserEvent (set_data d s) in
  if negb (Type_' =? TimerCancel) then
    let Time := if (Type_' =? TimerPeriodic) && (Time =? 0) then GetTimerPeriod else Time in
    let! s := if Type_' =? TimerPeriodic then set_event (set_Timer 0 Time) UserEvent s else Ok s in
    let! (Now, s) := CoreCurrentSystemTime s in
    let! s := set_event (fun e => set_Timer (u64 (Now + Time)) (Period e) e) UserEvent s in
    let! s := CoreInsertEventTimer UserEvent s in
    if Time =? 0 then let! (_, s) := CoreSignalEvent (mEfiCheckTimerEvent (data s)) s in Ok s else Ok s
  else Ok s.

Definition CoreSetTimer (UserEvent : ptr) (Type_' Time : Z) (s : EventState) : result (EFI_STATUS * EventState) :=
  let! bad := bad_event (data s) UserEvent in
  if bad : bool then Ok (EFI_INVALID_PARAMETER, s) else
  let! e := event (data s) UserEvent in
  if (u32 Type_' >? TimerRelative) || negb (has (Type_ e) EVT_TIMER) then Ok (EFI_INVALID_PARAMETER, s) else
  let! s := CoreAcquireLock TimerLock s in
  let! s := SetTimer_locked UserEvent Type_' Time s in
  let! s := CoreReleaseLock TimerLock s in
  Ok (EFI_SUCCESS, s).

(** ** Creating and closing events: Event.c *)

(** The type and the group of the new event; [None]: they are not valid
    together. *)
Definition EventTypeAndGroup (Type_' : Z) (Group : option EFI_GUID) : option (Z * option EFI_GUID) :=
  match Group with
  | Some g =>
      if (Type_' =? EVT_SIGNAL_EXIT_BOOT_SERVICES) || (Type_' =? EVT_SIGNAL_VIRTUAL_ADDRESS_CHANGE) then None
      else if CompareGuid g gEfiEventExitBootServicesGuid then Some (EVT_SIGNAL_EXIT_BOOT_SERVICES, Some g)
      else if CompareGuid g gEfiEventVirtualAddressChangeGuid then Some (EVT_SIGNAL_VIRTUAL_ADDRESS_CHANGE, Some g)
      else Some (Type_', Some g)
  | None =>
      if Type_' =? EVT_SIGNAL_EXIT_BOOT_SERVICES then Some (Type_', Some gEfiEventExitBootServicesGuid)
      else if Type_' =? EVT_SIGNAL_VIRTUAL_ADDRESS_CHANGE then Some (Type_', Some gEfiEventVirtualAddressChangeGuid)
      else Some (Type_', None)
  end.

(** [AllocateZeroPool] and [AllocateRuntimeZeroPool]: the links of the new
    structure are cleared as well. *)
Definition zero_links (p : ptr) (h : store) : store :=
  <[p + OFFSET_SignalLink := MkLink NULL NULL]> (<[p + OFFSET_NotifyLink := MkLink NULL NULL]>
    (<[p + OFFSET_RuntimeLink := MkLink NULL NULL]> (<[p + OFFSET_TimerLink := MkLink NULL NULL]> h))).

Definition AllocateEvent (Runtime : bool) (d : EventData) : option (ptr * EventData) :=
  match AllocatePool Runtime (live d) with
  | None => None
  | Some p => Some (p, set_links (zero_links p (links d))
                        (set_live ({[p]} ∪ live d) (set_events (<[p := zero_event]> (events d)) d)))
  end.

(** [EventIsNull]: the caller passes [NULL] for [Event]. *)
Definition CoreCreateEventInternal (Type_' Tpl' Function Context : Z) (Group : option EFI_GUID) (EventIsNull : bool)
    (s : EventState) : result (EFI_STATUS * ptr * EventState) :=
  if EventIsNull then Ok (EFI_INVALID_PARAMETER, NULL, s) else
  if negb (existsb (Z.eqb Type_') mEventTable) then Ok (EFI_INVALID_PARAMETER, NULL, s) else
  match EventTypeAndGroup Type_' Group with
  | None => Ok (EFI_INVALID_PARAMETER, NULL, s)
  | Some (Type_', Group) =>
      let Notify := has Type_' (Z.lor EVT_NOTIFY_WAIT EVT_NOTIFY_SIGNAL) in
      if Notify && ((Function =? NULL) || (Tpl' <=? TPL_APPLICATION) || (Tpl' >=? TPL_HIGH_LEVEL))
      then Ok (EFI_INVALID_PARAMETER, NULL, s) else
      let '(Tpl', Function, Context) := if Notify then (Tpl', Function, Context) else (0, NULL, NULL) in
      match AllocateEvent (has Type_' EVT_RUNTIME) (data s) with
      | None => Ok (EFI_OUT_OF_RESOURCES, NULL, s)
      | Some (IEvent, d) =>
          let! d := update_event (fun e => MkEvent EVENT_SIGNATURE Type_' (SignalCount e) Tpl' Function Context
                      (EventGroup e) (ExFlag e) (RuntimeData e) (TriggerTime e) (Period e)) IEvent d in
          let! d := match Group with
            | Some g => update_event (fun e => set_EventGroup g (Z.lor (ExFlag e) EVT_EXFLAG_EVENT_GROUP) e) IEvent d
            | None => Ok d
            end in
          let! d := if has Type_' EVT_RUNTIME then
              let! d := update_event (set_RuntimeData (MkRuntimeEntry Type_' Tpl' Function Context IEvent)) IEvent d in
              let! (_, h) := InsertTailList Verify Max (links d) gRuntime_EventHead (IEvent + OFFSET_RuntimeLink) in
              Ok (set_links h d)
            else Ok d in
          let! s := CoreAcquireEventLock (set_data d s) in
          let! s := if has Type_' EVT_NOTIFY_SIGNAL then
              let! (_, h) := InsertHeadList Verify Max (links (data s)) gEventSignalQueue (IEvent + OFFSET_SignalLink) in
              Ok (set_data (set_links h (data s)) s)
            else Ok s in
          let! s := CoreReleaseEventLock s in
          Ok (EFI_SUCCESS, IEvent, s)
      end
  end.

Definition CoreCreateEventEx (Type_' Tpl' Function Context : Z) (Group : option EFI_GUID) (EventIsNull : bool)
    (s : EventState) : result (EFI_STATUS * ptr * EventState) :=
  if has Type_' (Z.lor EVT_NOTIFY_WAIT EVT_NOTIFY_SIGNAL) &&
     negb (Tpl' =? TPL_APPLICATION) && negb (Tpl' =? TPL_CALLBACK) && negb (Tpl' =? TPL_NOTIFY)
  then Ok (EFI_INVALID_PARAMETER, NULL, s)
  else CoreCreateEventInternal Type_' Tpl' Function Context Group EventIsNull s.

Definition CoreCreateEvent (Type_' Tpl' Function Context : Z) (EventIsNull : bool) (s : EventState)
    : result (EFI_STATUS * ptr * EventState) :=
  CoreCreateEventEx Type_' Tpl' Function Context None EventIsNull s.

Definition unlink_if_queued (Link : ptr) (d : EventData) : result EventData :=
  let! q := queued d Link in if q : bool then unlink d Link else Ok d.

(** [CoreFreePool (Event)]: the memory keeps its contents. *)
Definition FreeEvent (Event : ptr) (d : EventData) : EventData := set_live (live d ∖ {[Event]}) d.

Definition CoreCloseEvent (UserEvent : ptr) (s : EventState) : result (EFI_STATUS * EventState) :=
  let! bad := bad_event (data s) UserEvent in
  if bad : bool then Ok (EFI_INVALID_PARAMETER, s) else
  let! e := event (data s) UserEvent in
  let! s := if has (Type_ e) EVT_TIMER then let! (_, s) := CoreSetTimer UserEvent TimerCancel 0 s in Ok s else Ok s in
  let! s := CoreAcquireEventLock s in
  let! d := unlink_if_queued (UserEvent + OFFSET_RuntimeLink) (data s) in
  let! d := unlink_if_queued (UserEvent + OFFSET_NotifyLink) d in
  let! d := unlink_if_queued (UserEvent + OFFSET_SignalLink) d in
  let! s := CoreReleaseEventLock (set_data d s) in
  let! e := event (data s) UserEvent in
  let s := if has (ExFlag e) EVT_EXFLAG_EVENT_PROTOCOL_NOTIFICATION
           then CoreUnregisterProtocolNotify UserEvent s else s in
  let! s := set_event (set_Signature 0) UserEvent s in
  Ok (EFI_SUCCESS, set_data (FreeEvent UserEvent (data s)) s).

(** ** Waiting: Event.c *)

(** The inner loop: the first event that is not "not ready". *)
Fixpoint WaitForEvent_check (UserEvents : list ptr) (Index : Z) (s : EventState)
    : result (option (EFI_STATUS * Z) * EventState) :=
  match UserEvents with
  | [] => Ok (None, s)
  | Event :: UserEvents =>
      let! (Status, s) := CoreCheckEvent Event s in
      if decide (Status <> EFI_NOT_READY) then Ok (Some (Status, Index), s)
      else WaitForEvent_check UserEvents (Index + 1) s
  end.

Fixpoint WaitForEvent_loop (fuel : nat) (UserEvents : list ptr) (s : EventState)
    : result (EFI_STATUS * Z * EventState) :=
  match fuel with
  | O => NoFuel
  | S fuel =>
      let! (r, s) := WaitForEvent_check UserEvents 0 s in
      match r with
      | Some (Status, Index) => Ok (Status, Index, s)
      | None =>
          let! (_, s) := CoreSignalEvent (gIdleLoopEvent (data s)) s in
          WaitForEvent_loop fuel UserEvents s
      end
  end.

(** [UserEvents]: the [NumberOfEvents] elements of the array; [None]: it is
    [NULL]. *)
Definition CoreWaitForEvent (fuel : nat) (NumberOfEvents : Z) (UserEvents : option (list ptr)) (s : EventState)
    : result (EFI_STATUS * Z * EventState) :=
  if negb (gEfiCurrentTpl s =? TPL_APPLICATION) then Ok (EFI_UNSUPPORTED, 0, s) else
  if NumberOfEvents =? 0 then Ok (EFI_INVALID_PARAMETER, 0, s) else
  match UserEvents with
  | None => Ok (EFI_INVALID_PARAMETER, 0, s)
  | Some UserEvents => WaitForEvent_loop fuel UserEvents s
  end.

(** ** Running programs *)

Definition run_call (fuel : nat) (c : call) (s : EventState) : result (EFI_STATUS * Z * EventState) :=
  match c with
  | RaiseTpl NewTpl => let! (OldTpl, s) := CoreRaiseTpl NewTpl s in Ok (EFI_SUCCESS, OldTpl, s)
  | RestoreTpl NewTpl => let! s := restore NewTpl s in Ok (EFI_SUCCESS, 0, s)
  | CreateEvent Type_' Tpl' Function Context => CoreCreateEvent Type_' Tpl' Function Context false s
  | CreateEventEx Type_' Tpl' Function Context Group =>
      CoreCreateEventEx Type_' Tpl' Function Context Group false s
  | SignalEvent Event => let! (Status, s) := CoreSignalEvent Event s in Ok (Status, 0, s)
  | CheckEvent Event => let! (Status, s) := CoreCheckEvent Event s in Ok (Status, 0, s)
  | WaitForEvent Events => CoreWaitForEvent fuel (Z.of_nat (length Events)) (Some Events) s
  | CloseEvent Event => let! (Status, s) := CoreCloseEvent Event s in Ok (Status, 0, s)
  | SetTimer Event Type_' Time => let! (Status, s) := CoreSetTimer Event Type_' Time s in Ok (Status, 0, s)
  | TimerTick Duration => let! s := CoreTimerTick Duration s in Ok (EFI_SUCCESS, 0, s)
  end.

Fixpoint run (fuel : nat) (p : prog) (s : EventState) : result EventState :=
  match p with
  | Done => Ok s
  | Do c k => let! (Status, v, s) := run_call fuel c s in run fuel (k Status v) s
  end.

(** [Event->NotifyFunction (Event, Event->NotifyContext)]. *)
Definition CallNotifyFunction (fuel : nat) (Function : Z) (Event : ptr) (Context : Z) (s : EventState)
    : result EventState :=
  if Function =? EfiEventEmptyFunction then Ok s
  else if Function =? CoreCheckTimers_function then CoreCheckTimers fuel s
  else run fuel (Client Function Event Context) s.

(** One pass of the loop of [CoreDispatchEventNotifies], with the queue not
    empty. *)
Definition DispatchEventNotifies_step (fuel : nat) (Priority : Z) (s : EventState) : result EventState :=
  let! n := load (links (data s)) (gEventQueue Priority) in
  let! Event := CR (data s) (ForwardLink n) OFFSET_NotifyLink in
  let! d := unlink_and_clear (Event + OFFSET_NotifyLink) (data s) in
  let! e := event d Event in
  let! d := if has (Type_ e) EVT_NOTIFY_SIGNAL then update_event (set_SignalCount 0) Event d else Ok d in
  let! s := CoreReleaseEventLock (set_data d s) in
  let! e := event (data s) Event in
  do! ASSERT (negb (NotifyFunction e =? NULL)) ;;
  let s := set_data (notified Event (gEfiCurrentTpl s) (data s)) s in
  let! s := CallNotifyFunction fuel (NotifyFunction e) Event (NotifyContext e) s in
  CoreAcquireEventLock s.

Fixpoint DispatchEventNotifies_loop (fuel : nat) (Priority : Z) (s : EventState) : result EventState :=
  match fuel with
  | O => NoFuel
  | S fuel' =>
      let! empty := IsListEmpty Max (links (data s)) (gEventQueue Priority) in
      if empty : bool then Ok s else
      let! s := DispatchEventNotifies_step fuel' Priority s in
      DispatchEventNotifies_loop fuel' Priority s
  end.

Definition CoreDispatchEventNotifies (fuel : nat) (Priority : Z) (s : EventState) : result EventState :=
  let! s := CoreAcquireEventLock s in
  do! ASSERT (OwnerTpl (gEventQueueLock s) =? Priority) ;;
  let! s := DispatchEventNotifies_loop fuel Priority s in
  let! bit := int_bit Priority in
  let s := set_data (set_pending (Z.ldiff (gEventPending (data s)) bit) (data s)) s in
  CoreReleaseEventLock s.

(** The loop of [CoreRestoreTpl]. *)
Fixpoint RestoreTpl_loop (fuel : nat) (NewTpl : Z) (s : EventState) : result EventState :=
  match fuel with
  | O => NoFuel
  | S fuel' =>
      if gEventPending (data s) =? 0 then Ok s else
      let! PendingTpl := Math.HighBitSet64 (gEventPending (data s)) in
      if PendingTpl <=? NewTpl then Ok s else
      let s := set_tpl PendingTpl s in
      let s := if PendingTpl <? TPL_HIGH_LEVEL then CoreSetInterruptState true s else s in
      let! s := CoreDispatchEventNotifies fuel' PendingTpl s in
      RestoreTpl_loop fuel' NewTpl s
  end.

Definition RestoreTpl_body (fuel : nat) (NewTpl : Z) (s : EventState) : result EventState :=
  let OldTpl := gEfiCurrentTpl s in
  do! ASSERT (negb (NewTpl >? OldTpl)) ;;
  do! ASSERT (NewTpl <=? TPL_HIGH_LEVEL) ;;
  let s := if (OldTpl >=? TPL_HIGH_LEVEL) && (NewTpl <? TPL_HIGH_LEVEL) then set_tpl TPL_HIGH_LEVEL s else s in
  let! s := RestoreTpl_loop fuel NewTpl s in
  let s := set_tpl NewTpl s in
  Ok (if NewTpl <? TPL_HIGH_LEVEL then CoreSetInterruptState true s else s).
End Recursion.

Fixpoint CoreRestoreTpl (fuel : nat) (NewTpl : Z) (s : EventState) : result EventState :=
  match fuel with
  | O => NoFuel
  | S fuel => RestoreTpl_body (CoreRestoreTpl fuel) fuel NewTpl s
  end.

(** ** Initialisation *)

Definition CoreInitializeTimer (fuel : nat) (s : EventState) : result EventState :=
  let! (Status, Event, s) := CoreCreateEventInternal (CoreRestoreTpl fuel) EVT_NOTIFY_SIGNAL (TPL_HIGH_LEVEL - 1)
    CoreCheckTimers_function NULL None false s in
  let s := if EFI_ERROR Status then s else set_data (set_CheckTimerEvent Event (data s)) s in
  do! ASSERT (negb (EFI_ERROR Status)) ;;
  Ok s.

Fixpoint InitializeQueues (n : nat) (Index : Z) (d : EventData) : result EventData :=
  match n with
  | O => Ok d
  | S n =>
      let! (_, h) := InitializeListHead (links d) (gEventQueue Index) in
      InitializeQueues n (Index + 1) (set_links h d)
  end.

Definition CoreInitializeEventServices (fuel : nat) (s : EventState) : result (EFI_STATUS * EventState) :=
  let! d := InitializeQueues 32 0 (data s) in
  let! s := CoreInitializeTimer fuel (set_data d s) in
  let! (Status, Event, s) := CoreCreateEventEx (CoreRestoreTpl fuel) EVT_NOTIFY_SIGNAL TPL_NOTIFY
    EfiEventEmptyFunction NULL (Some gIdleLoopEventGuid) false s in
  let s := if EFI_ERROR Status then s else set_data (set_IdleLoopEvent Event (data s)) s in
  Ok (EFI_SUCCESS, s).
End Code.
