(* ===== verification/EventInv.v ===== *)
(** * The invariant of the event services

    [inv F d]: the lists of the data [d] are [F]: the notification queues, the
    list of the events that are registered to be signalled, the timer list and
    the list of runtime events.  Each of the four link fields of a live event
    is in the list where it belongs, or is cleared; the timers are sorted; a
    queue that is not empty has its bit in [gEventPending]. *)

From Stdlib Require Import Sorting.Sorted.
From S2P Require Import Prelude CTypes BaseMath LinkedList ListFamily Event.

(** ** Addresses *)

(** The four link fields of an event. *)
Inductive slot := SignalSlot | NotifySlot | RuntimeSlot | TimerSlot.

#[export] Instance slot_eq_dec : EqDecision slot.
Proof. solve_decision. Defined.

Definition offset (k : slot) : Z :=
  match k with
  | SignalSlot => OFFSET_SignalLink
  | NotifySlot => OFFSET_NotifyLink
  | RuntimeSlot => OFFSET_RuntimeLink
  | TimerSlot => OFFSET_TimerLink
  end.

Definition node (e : ptr) (k : slot) : ptr := e + offset k.

(** The list that a link field belongs to. *)
Definition home (k : slot) (r : IEVENT) : ptr :=
  match k with
  | SignalSlot => gEventSignalQueue
  | NotifySlot => gEventQueue (NotifyTpl r)
  | RuntimeSlot => gRuntime_EventHead
  | TimerSlot => mEfiTimerList
  end.

Definition is_head (hd : ptr) : Prop :=
  hd = gEventSignalQueue \/ hd = mEfiTimerList \/ hd = gRuntime_EventHead \/
  exists t, 0 <= t <= 31 /\ hd = gEventQueue t.

(** What the pool promises: the blocks of [Blocks] do not overlap each other or
    the static variables, and an allocation returns one that is not in use.  A
    list can hold all of them ([PcdMaximumLinkedListLength]).  The timer's
    period is a [UINT64]. *)
Class PlatformLaws `{Platform} (Max : nat) := {
  Blocks : gset ptr;
  Blocks_disjoint : forall p q, p ∈ Blocks -> q ∈ Blocks -> p <> q -> p + sizeof_IEVENT <= q \/ q + sizeof_IEVENT <= p;
  Blocks_above : forall p, p ∈ Blocks -> 0x2000 <= p;
  Blocks_limit : Max = 0%nat \/ (S (size Blocks) < Max)%nat;
  AllocatePool_Blocks : forall b used p, AllocatePool b used = Some p -> p ∈ Blocks /\ p ∉ used;
  GetTimerPeriod_range : 0 <= GetTimerPeriod < 2 ^ 64 }.

(** What the clients promise: the notification functions that they register
    ([Registered Function Context Tpl]) are none of the core's. *)
Class Registry := {
  Registered : Z -> Z -> Z -> Prop;
  Registered_own : forall f c t, Registered f c t -> f <> EfiEventEmptyFunction /\ f <> CoreCheckTimers_function }.

(** ** The invariant *)

Section Invariant.
Context `{Platform} (Verify : bool) (Max : nat) `{!PlatformLaws Max} `{Registry}.

Definition member (F : lists) (hd x : ptr) : Prop := exists l, F !! hd = Some l /\ x ∈ l.

Definition trigger (d : EventData) (x : ptr) : Z :=
  match events d !! (x - OFFSET_TimerLink) with Some r => TriggerTime r | None => 0 end.

(** [CoreCheckTimers] runs at one TPL only. *)
Definition function_ok (r : IEVENT) : Prop :=
  NotifyFunction r = NULL \/
  TPL_APPLICATION < NotifyTpl r < TPL_HIGH_LEVEL /\
    (NotifyFunction r = EfiEventEmptyFunction \/
     NotifyFunction r = CoreCheckTimers_function /\ NotifyTpl r = TPL_HIGH_LEVEL - 1 \/
     Registered (NotifyFunction r) (NotifyContext r) (NotifyTpl r)).

Record event_ok (r : IEVENT) : Prop := {
  ok_tpl : 0 <= NotifyTpl r < TPL_HIGH_LEVEL;
  ok_function : function_ok r;
  ok_notify : has (Type_ r) (Z.lor EVT_NOTIFY_WAIT EVT_NOTIFY_SIGNAL) = true -> NotifyFunction r <> NULL;
  ok_flags : has (ExFlag r) EVT_EXFLAG_EVENT_PROTOCOL_NOTIFICATION = false;
  ok_time : 0 <= TriggerTime r < 2 ^ 64;
  ok_period : 0 <= Period r < 2 ^ 64 }.

(** Which fields may be in a list. *)
Definition slot_ok (k : slot) (r : IEVENT) : Prop :=
  match k with
  | SignalSlot => has (Type_ r) EVT_NOTIFY_SIGNAL = true
  | NotifySlot => NotifyFunction r <> NULL
  | RuntimeSlot => has (Type_ r) EVT_RUNTIME = true
  | TimerSlot => has (Type_ r) EVT_TIMER = true
  end.

(** A field of a live event is in its list or cleared; the field for signals
    is in its list exactly if the event has that type. *)
Definition placed (F : lists) (d : EventData) (e : ptr) (r : IEVENT) (k : slot) : Prop :=
  (member F (home k r) (node e k) /\ slot_ok k r) \/
  ((forall hd, ~ member F hd (node e k)) /\ fwd (links d) (node e k) = Some NULL /\
   ~ (k = SignalSlot /\ slot_ok k r)).

Record inv (F : lists) (d : EventData) : Prop := {
  inv_family : family (links d) F;
  inv_heads : forall hd, is_Some (F !! hd) <-> is_head hd;
  inv_nodes : forall e k, e ∈ Blocks -> is_Some (links d !! node e k);
  inv_live : live d ⊆ Blocks;
  inv_events : forall e, e ∈ Blocks -> exists r, events d !! e = Some r /\
    (e ∈ live d <-> Signature r = EVENT_SIGNATURE);
  inv_ok : forall e r, e ∈ live d -> events d !! e = Some r -> event_ok r;
  inv_member : forall hd x, member F hd x ->
    exists e k r, e ∈ live d /\ events d !! e = Some r /\ x = node e k /\ hd = home k r;
  inv_placed : forall e r k, e ∈ live d -> events d !! e = Some r -> placed F d e r k;
  inv_sorted : forall l, F !! mEfiTimerList = Some l ->
    StronglySorted (fun x y => trigger d x <= trigger d y) l;
  inv_pending : forall t, 0 <= t < TPL_HIGH_LEVEL -> F !! gEventQueue t <> Some [] ->
    Z.testbit (gEventPending d) t = true;
  inv_range : 0 <= gEventPending d < 2 ^ TPL_HIGH_LEVEL;
  inv_time : 0 <= mEfiSystemTime d < 2 ^ 64;
  inv_timer_event : mEfiCheckTimerEvent d = NULL \/ mEfiCheckTimerEvent d ∈ Blocks;
  inv_idle_event : gIdleLoopEvent d = NULL \/ gIdleLoopEvent d ∈ Blocks }.

(** ** Addresses *)

Lemma offset_bounds k : 0 < offset k < sizeof_IEVENT.
Proof. by destruct k. Qed.

Lemma offset_inj k k' : offset k = offset k' -> k = k'.
Proof. by destruct k, k'. Qed.

Lemma node_inj e e' k k' : e ∈ Blocks -> e' ∈ Blocks -> node e k = node e' k' -> e = e' /\ k = k'.
Proof.
  unfold node. intros He He' Heq. pose proof (offset_bounds k). pose proof (offset_bounds k').
  destruct (decide (e = e')) as [->|Hne].
  - split; [done|]. apply offset_inj. lia.
  - destruct (Blocks_disjoint e e' He He' Hne); lia.
Qed.

Lemma is_head_bound hd : is_head hd -> 0 < hd < 0x2000.
Proof. unfold is_head, gEventSignalQueue, mEfiTimerList, gRuntime_EventHead, gEventQueue. naive_solver lia. Qed.

Lemma node_head e k : e ∈ Blocks -> ~ is_head (node e k).
Proof.
  intros He Hh%is_head_bound. pose proof (Blocks_above e He). pose proof (offset_bounds k). unfold node in *. lia.
Qed.

Lemma node_null e k : e ∈ Blocks -> node e k <> NULL.
Proof. intros He. pose proof (Blocks_above e He). pose proof (offset_bounds k). unfold node, NULL. lia. Qed.

Lemma home_head k r : event_ok r -> is_head (home k r).
Proof.
  intros [Ht _ _ _ _ _]. unfold TPL_HIGH_LEVEL in *. destruct k; simpl; unfold is_head; auto.
  right. right. right. exists (NotifyTpl r). split; [lia|done].
Qed.

(** The lists of different fields have different heads. *)
Lemma home_slot k k' r r' : event_ok r -> event_ok r' -> home k r = home k' r' -> k = k'.
Proof.
  intros [Ht _ _ _ _ _] [Ht' _ _ _ _ _]. unfold TPL_HIGH_LEVEL in *.
  destruct k, k'; simpl; unfold gEventSignalQueue, mEfiTimerList, gRuntime_EventHead, gEventQueue; try done; lia.
Qed.

(** ** Lists of nodes *)

(** [x] is taken out of the list that holds it. *)
Definition del (x : ptr) (F : lists) : lists := (fun l => filter (fun y => y <> x) l) <$> F.

Lemma lookup_del x F hd : del x F !! hd = (fun l => filter (fun y => y <> x) l) <$> F !! hd.
Proof. apply lookup_fmap. Qed.

Lemma member_del x F hd y : member (del x F) hd y <-> member F hd y /\ y <> x.
Proof.
  unfold member. rewrite lookup_del. split.
  - intros (l & Hl & Hy). apply fmap_Some in Hl as (l' & Hl' & ->).
    apply list_elem_of_filter in Hy as [? ?]. eauto.
  - intros [(l & Hl & Hy) Hne]. rewrite Hl. eexists. split; [done|]. by apply list_elem_of_filter.
Qed.

Lemma filter_absent (x : ptr) (l : list ptr) : x ∉ l -> filter (fun y => y <> x) l = l.
Proof.
  induction l as [|y l IH]; [done|]. intros [Hy Hl]%not_elem_of_cons.
  rewrite filter_cons_True by auto. by rewrite IH.
Qed.

Lemma del_absent x F : (forall hd, ~ member F hd x) -> del x F = F.
Proof.
  intros Hx. apply map_eq. intros hd. rewrite lookup_del. destruct (F !! hd) as [l|] eqn:E; [|done].
  simpl. f_equal. apply filter_absent. intros Hin. apply (Hx hd). by exists l.
Qed.

Lemma del_split h F hd l1 x l2 :
  family h F -> F !! hd = Some (l1 ++ x :: l2) -> del x F = <[hd := l1 ++ l2]> F.
Proof.
  intros Hf Hl. apply map_eq. intros hd'. rewrite lookup_del.
  destruct (decide (hd' = hd)) as [->|Hne].
  - rewrite Hl, lookup_insert_eq. simpl. f_equal. destruct (family_NoDup _ _ _ _ Hf Hl) as [Hnd _].
    rewrite filter_app, filter_cons_False by tauto.
    apply NoDup_app in Hnd as (_ & H1 & H2). apply NoDup_cons in H2 as [H2 _].
    f_equal; apply filter_absent; [|done]. intros Hx. apply (H1 x Hx). left.
  - rewrite lookup_insert_ne by done. destruct (F !! hd') as [l|] eqn:E; [|done]. simpl. f_equal.
    apply filter_absent. intros Hx. apply Hne. eapply (family_unique h F); [done..|].
    clear. set_solver.
Qed.

Lemma member_split F hd x : member F hd x -> exists l1 l2, F !! hd = Some (l1 ++ x :: l2).
Proof. intros (l & Hl & Hx). apply list_elem_of_split in Hx as (l1 & l2 & ->). eauto. Qed.

Lemma member_within F hd x : member F hd x -> within F x.
Proof. intros (l & Hl & Hx). exists hd, l. split; [done|by right]. Qed.

Section Facts.
Context (F : lists) (d : EventData) (Hinv : inv F d).

Lemma within_member x : within F x -> is_head x \/ exists hd, member F hd x.
Proof.
  intros (hd & l & Hl & Hx). apply elem_of_cons in Hx as [->|Hx].
  - left. apply (inv_heads F d Hinv). eauto.
  - right. exists hd, l. done.
Qed.

Lemma live_record e : e ∈ live d -> exists r, events d !! e = Some r /\ Signature r = EVENT_SIGNATURE /\ event_ok r.
Proof.
  intros He. destruct (inv_events F d Hinv e) as (r & Hr & Hs); [by apply (inv_live F d Hinv)|].
  exists r. split; [done|]. split; [by apply Hs|]. by apply (inv_ok F d Hinv e).
Qed.

Lemma live_block e : e ∈ live d -> e ∈ Blocks.
Proof. apply (inv_live F d Hinv). Qed.

(** A field that is in a list is in its own. *)
Lemma member_home hd e r k :
  member F hd (node e k) -> e ∈ Blocks -> events d !! e = Some r -> e ∈ live d /\ hd = home k r.
Proof.
  intros Hm He Hr. destruct (inv_member F d Hinv hd _ Hm) as (e' & k' & r' & He' & Hr' & Heq & ->).
  destruct (node_inj e e' k k' He (live_block e' He') Heq) as [<- <-]. by simplify_eq.
Qed.

Lemma home_list k r : event_ok r -> exists l, F !! home k r = Some l.
Proof. intros Hok. apply (inv_heads F d Hinv). by apply home_head. Qed.

(** The elements of a list are fields of the same kind. *)
Lemma list_nodes hd l : F !! hd = Some l -> exists k es, l = (fun e => node e k) <$> es /\
  NoDup es /\ Forall (fun e => e ∈ live d /\ exists r, events d !! e = Some r /\ hd = home k r) es.
Proof.
  intros Hl. destruct l as [|x l0] eqn:E; [exists SignalSlot, []; repeat constructor|].
  destruct (inv_member F d Hinv hd x) as (e0 & k & r0 & He0 & Hr0 & -> & Hhd); [exists l; subst; split; [done|left]|].
  rewrite <-E in *. clear E.
  assert (Hall : Forall (fun x => exists e, x = node e k /\ e ∈ live d /\
    exists r, events d !! e = Some r /\ hd = home k r) l).
  { apply Forall_forall. intros y Hy.
    destruct (inv_member F d Hinv hd y) as (e & k' & r & He & Hr & -> & Hhd'); [by exists l|].
    assert (k' = k) as -> by (eapply home_slot; [by eapply inv_ok|by eapply (inv_ok F d Hinv e0)|congruence]).
    eauto 6. }
  assert (exists es, l = (fun e => node e k) <$> es /\ Forall (fun e => e ∈ live d /\
    exists r, events d !! e = Some r /\ hd = home k r) es) as (es & -> & Hes).
  { clear -Hall. induction Hall as [|y l (e & -> & ?) _ (es & -> & ?)]; [by exists []|].
    exists (e :: es). split; [done|by constructor]. }
  exists k, es. split; [done|]. split; [|done].
  destruct (family_NoDup _ _ _ _ (inv_family F d Hinv) Hl) as [Hnd _]. by eapply NoDup_fmap_1.
Qed.

Lemma list_capacity hd l : F !! hd = Some l -> capacity Max l.
Proof.
  intros Hl. destruct (list_nodes hd l Hl) as (k & es & -> & Hnd & Hes). unfold capacity.
  destruct Blocks_limit as [?|Hlim]; [by left|right]. rewrite length_fmap.
  assert (length es <= size Blocks)%nat; [|lia].
  rewrite <-(size_list_to_set (C := gset ptr)) by done. apply subseteq_size.
  intros e He. apply elem_of_list_to_set in He. rewrite Forall_forall in Hes.
  apply live_block, Hes. done.
Qed.

(** Reading fields. *)
Lemma event_live e r : events d !! e = Some r -> event d e = Ok r.
Proof. unfold event. by intros ->. Qed.

Lemma queued_spec e r k :
  e ∈ live d -> events d !! e = Some r -> exists q, queued d (node e k) = Ok q /\
    (if q : bool then member F (home k r) (node e k) /\ slot_ok k r
     else (forall hd, ~ member F hd (node e k)) /\ fwd (links d) (node e k) = Some NULL /\
          ~ (k = SignalSlot /\ slot_ok k r)).
Proof.
  intros He Hr. unfold queued, load.
  destruct (inv_placed F d Hinv e r k He Hr) as [[Hm Hs]|Hn].
  - destruct (family_linked _ _ (node e k) (inv_family F d Hinv)) as (n & -> & Hne);
      [by eapply member_within|].
    exists true. simpl. by rewrite (proj2 (Z.eqb_neq _ _)).
  - pose proof Hn as (_ & Hf & _). unfold fwd in Hf. destruct (links d !! node e k) as [n|]; [|done].
    exists false. injection Hf as Hf. simpl. by rewrite Hf.
Qed.

(** [CR]: the event of a field in a list. *)
Lemma CR_member hd x : member F hd x -> exists e k r, e ∈ live d /\ events d !! e = Some r /\ event_ok r /\
  x = node e k /\ hd = home k r /\ Signature r = EVENT_SIGNATURE /\ slot_ok k r /\
  CR d x (offset k) = Ok e.
Proof.
  intros Hm. destruct (inv_member F d Hinv hd x Hm) as (e & k & r & He & Hr & -> & ->).
  destruct (live_record e He) as (r' & Hr' & Hs & Hok). simplify_eq.
  exists e, k, r. repeat (split; [done|]).
  assert (Hsl : slot_ok k r).
  { destruct (inv_placed F d Hinv e r k He Hr) as [[_ ?]|[Hn _]]; [done|]. by destruct (Hn (home k r)). }
  split; [done|]. unfold CR. replace (node e k - offset k) with e by (unfold node; lia).
  rewrite (event_live e r Hr). cbn [mbind result_bind]. by rewrite Hs.
Qed.
End Facts.

(** ** Moving one field *)

Lemma inv_relink F d F' h' p' e k r :
  inv F d -> e ∈ live d -> events d !! e = Some r ->
  family h' F' -> (forall hd, is_Some (F' !! hd) <-> is_Some (F !! hd)) ->
  (forall hd x, x <> node e k -> member F' hd x <-> member F hd x) ->
  same_beyond (links d) h' F (node e k) -> is_Some (h' !! node e k) ->
  placed F' (set_links h' d) e r k -> (forall hd, member F' hd (node e k) -> hd = home k r) ->
  (forall l, F' !! mEfiTimerList = Some l -> StronglySorted (fun x y => trigger d x <= trigger d y) l) ->
  (forall t, 0 <= t < TPL_HIGH_LEVEL -> F' !! gEventQueue t <> Some [] -> Z.testbit p' t = true) ->
  0 <= p' < 2 ^ TPL_HIGH_LEVEL ->
  inv F' (set_pending p' (set_links h' d)).
Proof.
  intros Hinv He Hr Hf Hheads Hmem Hbeyond Hx Hplaced Hhome Hsort Hpend Hrange.
  pose proof (live_block F d Hinv e He) as HeB.
  assert (Hkept : forall x, x <> node e k -> (forall hd, ~ member F hd x) -> ~ is_head x -> h' !! x = links d !! x).
  { intros x Hne Hno Hhd. apply Hbeyond; [|done]. intros [?|[hd Hm]]%(within_member F d Hinv); [done|]. by apply (Hno hd). }
  split; try done; simpl; try apply Hinv.
  - intros hd. rewrite Hheads. apply (inv_heads F d Hinv).
  - intros e' k' He'. destruct (decide (node e' k' = node e k)) as [->|Hne]; [done|].
    destruct (h' !! node e' k') as [n|] eqn:E; [eauto|]. exfalso.
    assert (Hno : forall hd, ~ member F hd (node e' k')).
    { intros hd Hm. apply Hmem in Hm; [|done]. apply member_within in Hm.
      destruct (family_linked h' F' (node e' k') Hf Hm) as (n & Hn & _). congruence. }
    rewrite Hkept in E by (done || by apply node_head).
    destruct (inv_nodes F d Hinv e' k' He'). congruence.
  - intros hd x Hm. destruct (decide (x = node e k)) as [->|Hne].
    + exists e, k, r. by rewrite (Hhome hd Hm).
    + apply (inv_member F d Hinv). by apply Hmem.
  - intros e' r' k' He' Hr'. pose proof (live_block F d Hinv e' He') as HeB'.
    destruct (decide (node e' k' = node e k)) as [Heq|Hne].
    { destruct (node_inj e' e k' k HeB' HeB Heq) as [-> ->]. by simplify_eq. }
    destruct (inv_placed F d Hinv e' r' k' He' Hr') as [[Hm Hs]|(Hno & Hf' & Hsig)].
    + left. split; [|done]. by apply Hmem.
    + right. split; [|split; [|done]].
      * intros hd Hm. apply (Hno hd). by apply Hmem.
      * simpl. unfold fwd in *. by rewrite Hkept by (done || by apply node_head).
Qed.

(** ** Taking fields out of lists *)

Lemma StronglySorted_filter_ne {A} `{EqDecision A} (R : A -> A -> Prop) (x : A) (l : list A) :
  StronglySorted R l -> StronglySorted R (filter (fun y => y <> x) l).
Proof.
  induction 1 as [|y l Hs IH Hall]; [constructor|]. rewrite filter_cons. case_decide; [|done].
  constructor; [done|]. rewrite List.Forall_forall in *. intros z Hz. apply Hall.
  apply list_elem_of_In. apply list_elem_of_In, list_elem_of_filter in Hz. tauto.
Qed.

Lemma set_links_id d : set_links (links d) d = d.
Proof. by destruct d. Qed.

Lemma dequeue_spec F d e k r :
  inv F d -> e ∈ live d -> events d !! e = Some r -> k <> SignalSlot ->
  exists h', dequeue Max (node e k) d = Ok (set_links h' d) /\
    inv (del (node e k) F) (set_links h' d) /\ fwd h' (node e k) = Some NULL.
Proof.
  intros Hinv He Hr Hk. unfold dequeue. destruct (queued_spec F d Hinv e r k He Hr) as (q & -> & Hq).
  cbn [mbind result_bind]. destruct q.
  2: { destruct Hq as (Hno & Hf & _). exists (links d). rewrite set_links_id, del_absent by done. done. }
  destruct Hq as [Hm Hs]. destruct (member_split F _ _ Hm) as (l1 & l2 & Hl).
  pose proof (live_block F d Hinv e He) as HeB. pose proof (inv_family F d Hinv) as Hf.
  unfold unlink_and_clear, unlink. destruct (family_remove Max (links d) F (home k r) l1 (node e k) l2 Hf Hl) as
    (h1 & -> & Hf1 & Hout & Hb1 & Heq); [by eapply list_capacity|].
  cbn [mbind result_bind]. unfold clear_link. cbn [links set_links].
  destruct (set_ForwardLink_spec h1 (node e k) NULL) as (h2 & -> & Hfwd & _ & Hoth & Hsome).
  { rewrite Heq. by eapply inv_nodes. }
  cbn [mbind result_bind]. exists h2. rewrite <-(del_split (links d) F _ l1 _ l2) in Hf1, Hout by done.
  assert (Hf2 : family h2 (del (node e k) F)).
  { apply (family_frame h1); [done|]. intros x Hx. apply Hoth. by intros ->. }
  assert (Hnull : fwd h2 (node e k) = Some NULL) by (by rewrite Hfwd, decide_True).
  split; [done|]. split; [|done]. change (set_links h2 d) with (set_pending (gEventPending d) (set_links h2 d)).
  assert (Hno : forall hd, ~ member (del (node e k) F) hd (node e k)) by (intros hd []%member_del; congruence).
  eapply (inv_relink F d _ _ _ e k r); try done.
  - intros hd. rewrite lookup_del. apply fmap_is_Some.
  - intros hd x Hx. rewrite member_del. tauto.
  - intros x Hx Hne. rewrite Hoth by done. by apply Hb1.
  - by rewrite <-is_Some_fwd, Hnull.
  - right. split; [done|]. split; [done|tauto].
  - intros hd Hm'. by destruct (Hno hd).
  - intros l. rewrite lookup_del. intros (l0 & Hl0 & ->)%fmap_Some.
    apply StronglySorted_filter_ne. by apply (inv_sorted F d Hinv).
  - intros t Ht Hne. apply (inv_pending F d Hinv t Ht). intros Hnil. apply Hne. by rewrite lookup_del, Hnil.
  - by apply (inv_range F d Hinv).
Qed.

(** The same, for a field that is known to be in a list. *)
Lemma unlink_and_clear_spec F d e k r :
  inv F d -> e ∈ live d -> events d !! e = Some r -> k <> SignalSlot -> member F (home k r) (node e k) ->
  exists h', unlink_and_clear Max (node e k) d = Ok (set_links h' d) /\ inv (del (node e k) F) (set_links h' d).
Proof.
  intros Hinv He Hr Hk Hm. destruct (dequeue_spec F d e k r Hinv He Hr Hk) as (h' & Heq & Hi & _).
  unfold dequeue in Heq. destruct (queued_spec F d Hinv e r k He Hr) as (q & Hq & Hcase). rewrite Hq in Heq.
  cbn [mbind result_bind] in Heq. destruct q; [by exists h'|]. destruct Hcase as [Hno _]. by destruct (Hno (home k r)).
Qed.

(** ** Queueing a notification *)

Definition enqueue (e : ptr) (r : IEVENT) (F : lists) : lists :=
  alter (fun l => l ++ [node e NotifySlot]) (gEventQueue (NotifyTpl r)) (del (node e NotifySlot) F).

Lemma alter_lookup (f : list ptr -> list ptr) hd l (F : lists) :
  F !! hd = Some l -> alter f hd F = <[hd := f l]> F.
Proof.
  intros Hl. apply map_eq. intros hd'. destruct (decide (hd' = hd)) as [->|Hne].
  - by rewrite lookup_alter_eq, lookup_insert_eq, Hl.
  - by rewrite lookup_alter_ne, lookup_insert_ne by done.
Qed.

Lemma member_insert F hd l l' x hd' y :
  F !! hd = Some l -> (forall y, y ∈ l' <-> y = x \/ y ∈ l) ->
  member (<[hd := l']> F) hd' y <-> (hd' = hd /\ y = x) \/ member F hd' y.
Proof.
  intros Hl Heq. unfold member. destruct (decide (hd' = hd)) as [->|Hne].
  - rewrite lookup_insert_eq, Hl. split.
    + intros (? & [= <-] & Hy). apply Heq in Hy as [->|Hy]; [tauto|]. right. eauto.
    + intros [[_ ->]|(? & [= <-] & Hy)]; exists l'; split; try done; apply Heq; auto.
  - rewrite lookup_insert_ne by done. naive_solver.
Qed.

Lemma gEventQueue_inj t t' : gEventQueue t = gEventQueue t' -> t = t'.
Proof. unfold gEventQueue. lia. Qed.

Lemma int_bit_Ok t : 0 <= t < TPL_HIGH_LEVEL -> int_bit t = Ok (2 ^ t).
Proof.
  intros Ht. unfold TPL_HIGH_LEVEL in *. unfold int_bit. rewrite (proj2 (Z.leb_le 0 t)), (proj2 (Z.ltb_lt t 31)) by lia.
  simpl. by rewrite Z.shiftl_1_l.
Qed.

Lemma set_bit_range p t : 0 <= p < 2 ^ TPL_HIGH_LEVEL -> 0 <= t < TPL_HIGH_LEVEL ->
  0 <= Z.lor p (2 ^ t) < 2 ^ TPL_HIGH_LEVEL.
Proof.
  intros Hp Ht. pose proof (Z.pow_pos_nonneg 2 t ltac:(lia) ltac:(lia)). split; [by apply Z.lor_nonneg; lia|].
  destruct (Z.eq_dec (Z.lor p (2 ^ t)) 0) as [->|Hne]; [unfold TPL_HIGH_LEVEL; lia|].
  assert (Hnn : 0 <= Z.lor p (2 ^ t)) by (apply Z.lor_nonneg; lia).
  apply Z.log2_lt_pow2; [lia|]. rewrite Z.log2_lor by lia. apply Z.max_lub_lt.
  - destruct (Z.eq_dec p 0) as [->|]; [done|]. apply Z.log2_lt_pow2; lia.
  - rewrite Z.log2_pow2; lia.
Qed.

(** A cleared field is put into its list. *)
Lemma inv_insert F d h' p' e k r l l' :
  inv F d -> e ∈ live d -> events d !! e = Some r -> slot_ok k r ->
  (forall hd, ~ member F hd (node e k)) -> F !! home k r = Some l ->
  (forall y, y ∈ l' <-> y = node e k \/ y ∈ l) ->
  family h' (<[home k r := l']> F) -> same_beyond (links d) h' F (node e k) ->
  (k = TimerSlot -> StronglySorted (fun x y => trigger d x <= trigger d y) l') ->
  0 <= p' < 2 ^ TPL_HIGH_LEVEL ->
  (forall t, Z.testbit (gEventPending d) t = true -> Z.testbit p' t = true) ->
  (k = NotifySlot -> Z.testbit p' (NotifyTpl r) = true) ->
  inv (<[home k r := l']> F) (set_pending p' (set_links h' d)).
Proof.
  intros Hinv He Hr Hs Hno Hl Hl' Hf Hb Hsort Hp Hkeep Hbit. pose proof (live_block F d Hinv e He) as HeB.
  assert (Hok : event_ok r) by (by eapply (inv_ok F d)).
  assert (Hmem : forall hd' y, member (<[home k r := l']> F) hd' y <->
    (hd' = home k r /\ y = node e k) \/ member F hd' y) by (intros; by eapply member_insert).
  assert (Hin : member (<[home k r := l']> F) (home k r) (node e k)) by (apply Hmem; by left).
  eapply (inv_relink F d _ _ _ e k r); try done.
  - intros hd. rewrite lookup_insert_is_Some'. split; [intros [<-|]; [by rewrite Hl|done]|by right].
  - intros hd x Hx. rewrite Hmem. tauto.
  - destruct (family_linked _ _ (node e k) Hf) as (n & -> & _); [by eapply member_within|done].
  - by left.
  - intros hd [[-> _]|Hm]%Hmem; [done|]. by destruct (Hno hd).
  - intros l0 [[Hhd <-]|[Hne Hl0]]%lookup_insert_Some; [|by apply (inv_sorted F d Hinv)].
    apply Hsort. by apply (home_slot k TimerSlot r r).
  - intros t Ht Hne. destruct (decide (home k r = gEventQueue t)) as [Heq|Hneq].
    + assert (k = NotifySlot) as ->.
      { unfold TPL_HIGH_LEVEL in *. destruct k; simpl in Heq; unfold gEventQueue, gEventSignalQueue,
          gRuntime_EventHead, mEfiTimerList in Heq; try done; lia. }
      apply gEventQueue_inj in Heq as <-. by apply Hbit.
    + rewrite lookup_insert_ne in Hne by done. by apply Hkeep, (inv_pending F d Hinv).
Qed.

Lemma testbit_set p t i : 0 <= t -> Z.testbit (Z.lor p (2 ^ t)) i = Z.testbit p i || (i =? t).
Proof. intros Ht. rewrite Z.lor_spec, Z.pow2_bits_eqb, Z.eqb_sym by done. done. Qed.

Lemma CoreNotifyEvent_spec F e r s :
  inv F (data s) -> e ∈ live (data s) -> events (data s) !! e = Some r -> NotifyFunction r <> NULL ->
  Acquired (gEventQueueLock s) = true ->
  exists h', let d' := set_pending (Z.lor (gEventPending (data s)) (2 ^ NotifyTpl r)) (set_links h' (data s)) in
    CoreNotifyEvent Verify Max e s = Ok (set_data d' s) /\ inv (enqueue e r F) d'.
Proof.
  intros Hinv He Hr Hfn Hlk. set (d := data s) in *. pose proof (live_block F d Hinv e He) as HeB.
  assert (Hok : event_ok r) by (by eapply (inv_ok F d)). pose proof (ok_tpl r Hok) as Htpl.
  unfold CoreNotifyEvent. rewrite Hlk. cbn [ASSERT mbind result_bind]. fold d.
  change (e + OFFSET_NotifyLink) with (node e NotifySlot).
  destruct (dequeue_spec F d e NotifySlot r Hinv He Hr) as (h1 & -> & Hinv1 & Hnull); [done|].
  cbn [mbind result_bind]. rewrite (event_live (set_links h1 d) e r) by done. cbn [mbind result_bind].
  set (F1 := del (node e NotifySlot) F) in *. set (hd := gEventQueue (NotifyTpl r)).
  destruct (home_list F1 _ Hinv1 NotifySlot r Hok) as [l Hl]. change (home NotifySlot r) with hd in Hl.
  assert (Hno : forall hd', ~ member F1 hd' (node e NotifySlot)) by (intros hd' []%member_del; congruence).
  pose proof (inv_family F1 _ Hinv1) as Hf1.
  destruct (family_insert_tail Verify Max h1 F1 hd l (node e NotifySlot)) as (h2 & Hins & Hf2 & Hb2); [done..| | | | |].
  { by eapply (list_capacity F1 (set_links h1 d)). }
  { rewrite <-is_Some_fwd, Hnull. done. }
  { intros [?|[hd' Hm]]%(within_member F1 (set_links h1 d) Hinv1); [by eapply node_head|by eapply Hno]. }
  { by apply node_null. }
  simpl. rewrite Hins. cbn [mbind result_bind]. rewrite int_bit_Ok by done. cbn [mbind result_bind].
  exists h2. split; [done|]. unfold enqueue. fold F1 hd. rewrite (alter_lookup _ hd l F1 Hl).
  change (set_links h2 d) with (set_links h2 (set_links h1 d)).
  eapply (inv_insert F1 (set_links h1 d) _ _ e NotifySlot r l); try done.
  - clear. set_solver.
  - apply set_bit_range; [by apply (inv_range F d Hinv)|done].
  - intros t Ht. rewrite testbit_set by lia. simpl in Ht. by rewrite Ht.
  - intros _. rewrite testbit_set, Z.eqb_refl by lia. apply orb_true_r.
Qed.

(** Lists of other fields are not concerned. *)
Lemma del_other F d e k hd : inv F d -> e ∈ Blocks ->
  (forall r, events d !! e = Some r -> event_ok r -> home k r <> hd) -> del (node e k) F !! hd = F !! hd.
Proof.
  intros Hinv He Hne. rewrite lookup_del. destruct (F !! hd) as [l|] eqn:E; [|done]. simpl. f_equal.
  apply filter_absent. intros Hx. destruct (inv_events F d Hinv e He) as (r & Hr & _).
  destruct (member_home F d Hinv hd e r k) as [Hl ->]; [by exists l|done|done|].
  apply (Hne r Hr); [|done]. by eapply (inv_ok F d).
Qed.

(** The heads that are no notification queues. *)
Definition other_head (hd : ptr) : Prop := hd = gEventSignalQueue \/ hd = mEfiTimerList \/ hd = gRuntime_EventHead.

Lemma other_head_queue hd t : other_head hd -> 0 <= t < TPL_HIGH_LEVEL -> hd <> gEventQueue t.
Proof.
  unfold other_head, TPL_HIGH_LEVEL, gEventQueue, gEventSignalQueue, mEfiTimerList, gRuntime_EventHead.
  intros Hhd Ht Heq. lia.
Qed.

Lemma enqueue_other F d e r hd : inv F d -> e ∈ live d -> events d !! e = Some r -> other_head hd ->
  enqueue e r F !! hd = F !! hd.
Proof.
  intros Hinv He Hr Hhd. unfold enqueue. assert (Hok : event_ok r) by (by eapply (inv_ok F d)).
  rewrite lookup_alter_ne by (intros Heq; by apply (other_head_queue hd (NotifyTpl r) Hhd (ok_tpl r Hok))).
  apply (del_other F d); [done|by apply (live_block F d)|].
  intros r' Hr' Hok' Heq. by apply (other_head_queue hd (NotifyTpl r') Hhd (ok_tpl r' Hok')).
Qed.

(** ** Signalling a group *)

(** The notifications of the events [es], one after the other: the queues, and
    the pending mask. *)
Definition enqueue_all (d : EventData) (es : list ptr) (F : lists) : lists :=
  foldl (fun F e => match events d !! e with Some r => enqueue e r F | None => F end) F es.

Definition pend_all (d : EventData) (es : list ptr) (p : Z) : Z :=
  foldl (fun p e => match events d !! e with Some r => Z.lor p (2 ^ NotifyTpl r) | None => p end) p es.

(** [d'] differs from [d] in the links and the pending mask only. *)
Definition relinked (d d' : EventData) (p : Z) : Prop := exists h, d' = set_pending p (set_links h d).

Lemma relinked_trans d1 d2 d3 p q : relinked d1 d2 p -> relinked d2 d3 q -> relinked d1 d3 q.
Proof. intros [h ->] [h' ->]. by exists h'. Qed.

Lemma relinked_events d d' p : relinked d d' p -> events d' = events d /\ live d' = live d /\ gEventPending d' = p.
Proof. by intros [h ->]. Qed.

(** The events of the group [Group]. *)
Definition in_group (d : EventData) (Group : EFI_GUID) (e : ptr) : bool :=
  match events d !! e with Some r => CompareGuid (EventGroup r) Group | None => false end.

Definition group_members (d : EventData) (Group : EFI_GUID) (es : list ptr) : list ptr :=
  filter (fun e => in_group d Group e = true) es.

Lemma NotifySignalList_loop_spec fuel Group es pre F s :
  inv F (data s) -> Acquired (gEventQueueLock s) = true ->
  F !! gEventSignalQueue = Some (pre ++ ((fun e => node e SignalSlot) <$> es)) -> (length es < fuel)%nat ->
  let ns := group_members (data s) Group es in
  exists d', NotifySignalList_loop Verify Max fuel Group
      (List.hd gEventSignalQueue ((fun e => node e SignalSlot) <$> es)) s = Ok (set_data d' s) /\
    relinked (data s) d' (pend_all (data s) ns (gEventPending (data s))) /\ inv (enqueue_all (data s) ns F) d' /\
    enqueue_all (data s) ns F !! gEventSignalQueue = F !! gEventSignalQueue.
Proof.
  revert pre F s fuel. induction es as [|e es IH]; intros pre F s [|fuel] Hinv Hlk Hl Hf; try (simpl in Hf; lia);
    cbn [NotifySignalList_loop List.hd fmap list_fmap length] in *.
  { exists (data s). rewrite Z.eqb_refl. destruct s as [[] ? ? ? ? ?]. split; [done|]. split; [by eexists|done]. }
  set (d := data s) in *.
  assert (Hm : member F gEventSignalQueue (node e SignalSlot)) by (eexists; split; [done|clear; set_solver]).
  destruct (CR_member F d Hinv _ _ Hm) as (e' & k & r & He & Hr & Hok & Hx & Hhd & _ & Hs & HCR).
  assert (k = SignalSlot) as -> by (by apply (home_slot k SignalSlot r r)).
  assert (e' = e) as -> by (unfold node in Hx; lia).
  rewrite (proj2 (Z.eqb_neq _ _)).
  2: { intros Heq. eapply (node_head e SignalSlot); [by apply (live_block F d)|]. left. done. }
  change OFFSET_SignalLink with (offset SignalSlot). rewrite HCR. cbn [mbind result_bind].
  rewrite (event_live d e r Hr). cbn [mbind result_bind].
  assert (Hfn : NotifyFunction r <> NULL).
  { apply (ok_notify r Hok). simpl in Hs. unfold has in *. bool_to_prop. intros Hz. apply Hs.
    unfold EVT_NOTIFY_SIGNAL, EVT_NOTIFY_WAIT in *. rewrite Z.land_lor_distr_r in Hz.
    by apply Z.lor_eq_0_iff in Hz as [_ ?]. }
  assert (exists d1 F1, (if CompareGuid (EventGroup r) Group then CoreNotifyEvent Verify Max e s else Ok s)
      = Ok (set_data d1 s) /\ inv F1 d1 /\ F1 !! gEventSignalQueue = F !! gEventSignalQueue /\
      (if CompareGuid (EventGroup r) Group then F1 = enqueue e r F else F1 = F) /\
      relinked d d1 (if CompareGuid (EventGroup r) Group then Z.lor (gEventPending d) (2 ^ NotifyTpl r)
                     else gEventPending d)) as (d1 & F1 & -> & Hinv1 & Hl1 & HF1 & Hrel).
  { destruct (CompareGuid (EventGroup r) Group).
    - destruct (CoreNotifyEvent_spec F e r s) as (h' & -> & Hinv'); try done.
      do 2 eexists. split; [done|]. split; [done|]. split; [|split; [done|by eexists]].
      apply (enqueue_other F d); try done. by left.
    - exists d, F. destruct s as [[] ? ? ? ? ?]. split; [done|]. split; [done|]. split; [done|]. split; [done|].
      by eexists. }
  cbn [mbind result_bind data set_data].
  destruct (relinked_events _ _ _ Hrel) as (Hev & Hlv & Hpend).
  rewrite Hl in Hl1.
  destruct (family_next (links d1) F1 gEventSignalQueue pre (node e SignalSlot) ((fun e => node e SignalSlot) <$> es))
    as (n & Hn & Hnext); [by apply inv_family|done|].
  unfold load in Hn. unfold load. rewrite Hn. cbn [mbind result_bind]. rewrite Hnext.
  destruct (IH (pre ++ [node e SignalSlot]) F1 (set_data d1 s) fuel) as (d2 & Heq & Hrel2 & Hinv2 & Hsame);
    [done|done|by rewrite <-app_assoc|lia|].
  simpl in Heq, Hrel2, Hinv2, Hsame. unfold group_members, enqueue_all, pend_all, in_group in *.
  rewrite Hev in Hrel2, Hinv2, Hsame.
  rewrite filter_cons, Hr. exists d2. split; [done|].
  destruct (CompareGuid (EventGroup r) Group); subst F1; [rewrite decide_True by done|rewrite decide_False by done];
    cbn [foldl]; rewrite ?Hr; (split; [|split; [done|by rewrite Hsame, ?Hl1]]);
    (eapply relinked_trans; [exact Hrel|]); rewrite <-Hpend; exact Hrel2.
Qed.

(** ** Changing the other fields *)

Lemma sorted_ext d d' l : Forall (fun x => trigger d' x = trigger d x) l ->
  StronglySorted (fun x y => trigger d x <= trigger d y) l ->
  StronglySorted (fun x y => trigger d' x <= trigger d' y) l.
Proof.
  intros Hsame Hs. induction Hs as [|x l Hs IH Hall]; [constructor|].
  apply Forall_cons in Hsame as [Hx Hsame]. constructor; [by apply IH|].
  rewrite Forall_forall in *. intros y Hy. rewrite Hx, Hsame by done. by apply Hall.
Qed.

Definition same_shape (r r' : IEVENT) : Prop :=
  Signature r' = Signature r /\ Type_ r' = Type_ r /\ NotifyTpl r' = NotifyTpl r /\
  NotifyFunction r' = NotifyFunction r /\ NotifyContext r' = NotifyContext r /\ ExFlag r' = ExFlag r.

Lemma shape_ok r r' : same_shape r r' -> 0 <= TriggerTime r' < 2 ^ 64 -> 0 <= Period r' < 2 ^ 64 ->
  event_ok r -> event_ok r'.
Proof.
  intros (_ & Hty & Ht & Hf & Hc & Hx) Htt Hp [H1 H2 H3 H4 _ _].
  split; rewrite ?Hty, ?Ht, ?Hf, ?Hc, ?Hx; try done. unfold function_ok in *. by rewrite Ht, Hf, Hc.
Qed.

Lemma shape_home r r' k : same_shape r r' -> home k r' = home k r.
Proof. intros (_ & _ & Ht & _). destruct k; simpl; congruence. Qed.

Lemma shape_slot r r' k : same_shape r r' -> slot_ok k r' <-> slot_ok k r.
Proof. intros (_ & Hty & _ & Hf & _). destruct k; simpl; by rewrite ?Hty, ?Hf. Qed.

Lemma inv_update F d e r r' :
  inv F d -> e ∈ Blocks -> events d !! e = Some r -> same_shape r r' ->
  (e ∈ live d -> 0 <= TriggerTime r' < 2 ^ 64 /\ 0 <= Period r' < 2 ^ 64) ->
  (e ∈ live d -> TriggerTime r' = TriggerTime r \/ forall hd, ~ member F hd (node e TimerSlot)) ->
  inv F (set_events (<[e := r']> (events d)) d).
Proof.
  intros Hinv He Hr Hsh Hrange Htrig. pose proof Hsh as (Hsig & _).
  assert (Hlook : forall e0 r0, <[e := r']> (events d) !! e0 = Some r0 ->
    exists r1, events d !! e0 = Some r1 /\ same_shape r1 r0 /\ (e0 <> e -> r1 = r0) /\ (e0 = e -> r0 = r')).
  { intros e0 r0 [[<- <-]|[Hne H0']]%lookup_insert_Some; [by exists r|].
    exists r0. split; [done|]. by repeat split. }
  split; simpl; try apply Hinv.
  - intros e0 He0. destruct (inv_events F d Hinv e0 He0) as (r0 & Hr0 & Hl0).
    destruct (decide (e0 = e)) as [->|Hne].
    + exists r'. rewrite lookup_insert_eq. split; [done|]. rewrite Hsig. by simplify_eq.
    + exists r0. by rewrite lookup_insert_ne.
  - intros e0 r0 He0 Hr0. destruct (Hlook e0 r0 Hr0) as (r1 & Hr1 & Hs1 & Hne & Heq).
    pose proof (inv_ok F d Hinv e0 r1 He0 Hr1) as Hok1.
    destruct (decide (e0 = e)) as [->|Hn]; [|by rewrite <-(Hne Hn)].
    destruct (Hrange He0). rewrite (Heq eq_refl) in *. by apply (shape_ok r1).
  - intros hd x Hm. destruct (inv_member F d Hinv hd x Hm) as (e0 & k0 & r0 & He0 & Hr0 & -> & ->).
    destruct (decide (e0 = e)) as [->|Hne].
    + exists e, k0, r'. rewrite lookup_insert_eq. simplify_eq. by rewrite (shape_home r r').
    + exists e0, k0, r0. by rewrite lookup_insert_ne.
  - intros e0 r0 k0 He0 Hr0. destruct (Hlook e0 r0 Hr0) as (r1 & Hr1 & Hs1 & _).
    pose proof (inv_placed F d Hinv e0 r1 k0 He0 Hr1) as Hp. unfold placed in *.
    by rewrite (shape_home r1 r0), (shape_slot r1 r0).
  - intros l Hl. pose proof (inv_sorted F d Hinv l Hl) as Hs.
    assert (Hsame : Forall (fun x => trigger (set_events (<[e := r']> (events d)) d) x = trigger d x) l).
    { apply Forall_forall. intros x Hx. unfold trigger. simpl.
      destruct (decide (x - OFFSET_TimerLink = e)) as [Heq|Hne]; [|by rewrite lookup_insert_ne].
      subst e. rewrite lookup_insert_eq, Hr.
      assert (Hm : member F mEfiTimerList (node (x - OFFSET_TimerLink) TimerSlot)).
      { exists l. split; [done|]. unfold node. simpl. by replace (x - OFFSET_TimerLink + OFFSET_TimerLink) with x by lia. }
      destruct (member_home F d Hinv _ _ r TimerSlot Hm He Hr) as [Hlv _].
      destruct (Htrig Hlv) as [->|Hno]; [done|]. by destruct (Hno mEfiTimerList). }
    by apply (sorted_ext d).
Qed.

Lemma update_event_Ok d e r f : events d !! e = Some r ->
  update_event f e d = Ok (set_events (<[e := f r]> (events d)) d).
Proof. intros Hr. unfold update_event. by rewrite (event_live d e r Hr). Qed.

(** ** The timer list *)

Lemma InsertEventTimer_loop_spec fuel F d Time l1 l2 :
  inv F d -> F !! mEfiTimerList = Some (l1 ++ l2) -> (length l2 < fuel)%nat ->
  exists m1 m2, l2 = m1 ++ m2 /\
    InsertEventTimer_loop fuel Time (List.hd mEfiTimerList l2) d = Ok (List.hd mEfiTimerList m2) /\
    Forall (fun x => trigger d x <= Time) m1 /\
    match m2 with x :: _ => Time < trigger d x | [] => True end.
Proof.
  intros Hinv. revert l1 fuel. induction l2 as [|x l2 IH]; intros l1 [|fuel] Hl Hf; try (simpl in Hf; lia);
    cbn [InsertEventTimer_loop List.hd length] in *.
  { exists [], []. by rewrite Z.eqb_refl. }
  assert (Hm : member F mEfiTimerList x) by (eexists; split; [done|clear; set_solver]).
  destruct (CR_member F d Hinv _ _ Hm) as (e & k & r & He & Hr & Hok & -> & Hhd & _ & _ & HCR).
  assert (k = TimerSlot) as -> by (by apply (home_slot k TimerSlot r r)).
  rewrite (proj2 (Z.eqb_neq _ _)).
  2: { intros Heq. eapply (node_head e TimerSlot); [by apply (live_block F d)|]. right. by left. }
  change OFFSET_TimerLink with (offset TimerSlot). rewrite HCR. cbn [mbind result_bind].
  rewrite (event_live d e r Hr). cbn [mbind result_bind].
  assert (Htr : trigger d (node e TimerSlot) = TriggerTime r).
  { unfold trigger, node. simpl. replace (e + OFFSET_TimerLink - OFFSET_TimerLink) with e by lia. by rewrite Hr. }
  rewrite Z.gtb_ltb. destruct (Z.ltb_spec Time (TriggerTime r)) as [Hlt|Hge].
  - exists [], (node e TimerSlot :: l2). split; [done|]. split; [done|]. split; [done|]. by rewrite Htr.
  - destruct (family_next (links d) F mEfiTimerList l1 (node e TimerSlot) l2) as (n & -> & Hn);
      [by apply inv_family|done|]. cbn [mbind result_bind]. rewrite Hn.
    destruct (IH (l1 ++ [node e TimerSlot]) fuel) as (m1 & m2 & -> & -> & H1 & H2); [by rewrite <-app_assoc|lia|].
    exists (node e TimerSlot :: m1), m2. split; [done|]. split; [done|]. split; [|done].
    constructor; [by rewrite Htr|done].
Qed.

Lemma StronglySorted_insert {A} (R : A -> A -> Prop) l1 x l2 :
  StronglySorted R (l1 ++ l2) -> Forall (fun y => R y x) l1 -> Forall (R x) l2 -> StronglySorted R (l1 ++ x :: l2).
Proof.
  induction l1 as [|y l1 IH]; simpl; intros Hs H1 H2.
  - by constructor.
  - inversion Hs as [|? ? Hs' Hall]; subst. apply Forall_cons in H1 as [Hyx H1]. constructor; [by apply IH|].
    rewrite !Forall_app in *. rewrite Forall_cons. tauto.
Qed.

Lemma sorted_later d Time l1 l2 :
  StronglySorted (fun x y => trigger d x <= trigger d y) (l1 ++ l2) ->
  match l2 with x :: _ => Time < trigger d x | [] => True end -> Forall (fun x => Time < trigger d x) l2.
Proof.
  intros Hs Hx. destruct l2 as [|x l2]; [done|]. constructor; [done|].
  induction l1 as [|y l1 IH]; simpl in Hs; inversion Hs as [|? ? Hs' Hall]; subst; [|by apply IH].
  eapply Forall_impl; [exact Hall|]. intros z Hz. simpl in Hz. lia.
Qed.

Lemma list_size F d hd l : inv F d -> F !! hd = Some l -> (length l < S (size (links d)))%nat.
Proof.
  intros Hinv Hl. pose proof (dlist_size _ _ _ (family_dlist _ _ _ _ (inv_family F d Hinv) Hl)). lia.
Qed.

(** The timer is put after those that trigger before it or at the same time. *)
Lemma CoreInsertEventTimer_spec F e r l s :
  inv F (data s) -> e ∈ live (data s) -> events (data s) !! e = Some r -> has (Type_ r) EVT_TIMER = true ->
  (forall hd, ~ member F hd (node e TimerSlot)) -> F !! mEfiTimerList = Some l ->
  Acquired (mEfiTimerLock s) = true ->
  exists h' l1 l2, l = l1 ++ l2 /\ Forall (fun x => trigger (data s) x <= TriggerTime r) l1 /\
    Forall (fun x => TriggerTime r < trigger (data s) x) l2 /\
    CoreInsertEventTimer Verify Max e s = Ok (set_data (set_links h' (data s)) s) /\
    inv (<[mEfiTimerList := l1 ++ node e TimerSlot :: l2]> F) (set_links h' (data s)).
Proof.
  intros Hinv He Hr Hty Hno Hl Hlk. set (d := data s) in *. pose proof (live_block F d Hinv e He) as HeB.
  unfold CoreInsertEventTimer. rewrite Hlk. cbn [ASSERT mbind result_bind]. fold d.
  rewrite (event_live d e r Hr). cbn [mbind result_bind].
  destruct (family_first (links d) F mEfiTimerList l) as (n & -> & Hn); [by apply inv_family|done|].
  cbn [mbind result_bind]. rewrite Hn.
  destruct (InsertEventTimer_loop_spec (S (size (links d))) F d (TriggerTime r) [] l Hinv Hl)
    as (l1 & l2 & -> & -> & H1 & H2); [by eapply list_size|].
  cbn [mbind result_bind].
  pose proof (inv_sorted F d Hinv _ Hl) as Hsort. pose proof (sorted_later d _ _ _ Hsort H2) as Hlater.
  assert (Htr : trigger d (node e TimerSlot) = TriggerTime r).
  { unfold trigger, node. simpl. replace (e + OFFSET_TimerLink - OFFSET_TimerLink) with e by lia. by rewrite Hr. }
  assert (exists post, l2 ++ [mEfiTimerList] = List.hd mEfiTimerList l2 :: post) as (post & Hpost)
    by (destruct l2; simpl; eauto).
  change (e + OFFSET_TimerLink) with (node e TimerSlot).
  destruct (family_insert_before Verify Max (links d) F mEfiTimerList l1 l2 (List.hd mEfiTimerList l2) post
    (node e TimerSlot)) as (h' & -> & Hf' & Hb'); [by apply inv_family|done|done|by eapply list_capacity| | | |].
  { by apply (inv_nodes F d Hinv). }
  { intros [?|[hd' Hm]]%(within_member F d Hinv); [by eapply node_head|by eapply Hno]. }
  { by apply node_null. }
  cbn [mbind result_bind]. exists h', l1, l2. split; [done|]. split; [done|]. split; [done|]. split; [done|].
  change (set_links h' d) with (set_pending (gEventPending d) (set_links h' d)).
  apply (inv_insert F d h' (gEventPending d) e TimerSlot r (l1 ++ l2)); try done.
  - clear. set_solver.
  - intros _. apply StronglySorted_insert; [done| |]; eapply Forall_impl; try done;
      intros x Hx; simpl in Hx; rewrite Htr; lia.
  - by apply (inv_range F d Hinv).
Qed.

(** ** Births and deaths *)

(** The fields of memory that holds no event are in no list. *)
Lemma dead_member F d p k hd : inv F d -> p ∈ Blocks -> p ∉ live d -> ~ member F hd (node p k).
Proof.
  intros Hinv Hp Hdead Hm. destruct (inv_events F d Hinv p Hp) as (r & Hr & _).
  by destruct (member_home F d Hinv hd p r k Hm Hp Hr).
Qed.

Lemma inv_create F d p r h' F' :
  inv F d -> p ∈ Blocks -> p ∉ live d -> event_ok r -> Signature r = EVENT_SIGNATURE ->
  family h' F' ->
  (forall hd, is_Some (F' !! hd) <-> is_Some (F !! hd)) ->
  (forall hd, hd <> gEventSignalQueue -> hd <> gRuntime_EventHead -> F' !! hd = F !! hd) ->
  (forall hd x, member F' hd x <-> member F hd x \/
     exists k, (k = SignalSlot \/ k = RuntimeSlot) /\ slot_ok k r /\ hd = home k r /\ x = node p k) ->
  (forall x, ~ within F x -> (forall k, x <> node p k) -> h' !! x = links d !! x) ->
  (forall k, is_Some (h' !! node p k)) ->
  (forall k, (forall hd, ~ member F' hd (node p k)) -> fwd h' (node p k) = Some NULL) ->
  inv F' (set_links h' (set_live ({[p]} ∪ live d) (set_events (<[p := r]> (events d)) d))).
Proof.
  intros Hinv Hp Hdead Hok Hsig Hf Hheads Hsame Hmem Hbeyond Hsome Hnull.
  assert (Hold : forall e k, e ∈ Blocks -> e <> p -> (forall hd, ~ member F hd (node e k)) ->
    h' !! node e k = links d !! node e k).
  { intros e k He Hne Hno. apply Hbeyond.
    - intros [Hh|[hd Hm]]%(within_member F d Hinv); [by apply (node_head e k)|by apply (Hno hd)].
    - intros k' Heq. by destruct (node_inj e p k k' He Hp Heq). }
  split; simpl; try done; try apply Hinv.
  - intros hd. rewrite Hheads. apply (inv_heads F d Hinv).
  - intros e k He. destruct (decide (e = p)) as [->|Hne]; [done|].
    destruct (h' !! node e k) as [n|] eqn:E; [eauto|]. exfalso.
    assert (Hno : forall hd, ~ member F hd (node e k)).
    { intros hd Hm. assert (Hm' : member F' hd (node e k)) by (apply Hmem; by left).
      destruct (family_linked h' F' (node e k) Hf) as (n & Hn & _); [by eapply member_within|congruence]. }
    rewrite Hold in E by done. destruct (inv_nodes F d Hinv e k He). congruence.
  - intros e He. apply elem_of_union in He as [->%elem_of_singleton|He]; [done|by apply (inv_live F d)].
  - intros e He. destruct (decide (e = p)) as [->|Hne].
    + exists r. rewrite lookup_insert_eq. split; [done|]. set_solver.
    + destruct (inv_events F d Hinv e He) as (r0 & Hr0 & Hl0). exists r0.
      rewrite lookup_insert_ne by done. split; [done|]. rewrite <-Hl0. set_solver.
  - intros e r0 He [[<- <-]|[Hne Hr0]]%lookup_insert_Some; [done|].
    apply (inv_ok F d Hinv e); [set_solver|done].
  - intros hd x [Hm|(k & _ & _ & -> & ->)]%Hmem.
    + destruct (inv_member F d Hinv hd x Hm) as (e & k & r0 & He & Hr0 & -> & ->).
      exists e, k, r0. rewrite lookup_insert_ne by (intros ->; done). set_solver.
    + exists p, k, r. rewrite lookup_insert_eq. set_solver.
  - intros e r0 k He [[<- <-]|[Hne Hr0]]%lookup_insert_Some.
    + destruct (decide (k = SignalSlot \/ k = RuntimeSlot)) as [Hk|Hk].
      * assert (Hdec : Decision (slot_ok k r)) by (destruct k; simpl; apply _).
        destruct (decide (slot_ok k r)) as [Hs|Hs].
        -- left. split; [|done]. apply Hmem. right. by exists k.
        -- assert (Hno : forall hd, ~ member F' hd (node p k)).
           { intros hd [Hm|(k' & _ & Hs' & _ & Heq)]%Hmem; [by apply (dead_member F d p k hd)|].
             by destruct (node_inj p p k k' Hp Hp Heq) as [_ <-]. }
           right. split; [done|]. split; [by apply Hnull|tauto].
      * assert (Hno : forall hd, ~ member F' hd (node p k)).
        { intros hd [Hm|(k' & Hk' & _ & _ & Heq)]%Hmem; [by apply (dead_member F d p k hd)|].
          by destruct (node_inj p p k k' Hp Hp Heq) as [_ <-]. }
        right. split; [done|]. split; [by apply Hnull|tauto].
    + assert (Helv : e ∈ live d) by set_solver. pose proof (live_block F d Hinv e Helv) as HeB.
      destruct (inv_placed F d Hinv e r0 k Helv Hr0) as [[Hm Hs]|(Hno & Hfn & Hx)].
      * left. split; [|done]. apply Hmem. by left.
      * right. split; [|split; [|done]].
        -- intros hd [Hm|(k' & _ & _ & _ & Heq)]%Hmem; [by apply (Hno hd)|].
           by destruct (node_inj e p k k' HeB Hp Heq).
        -- simpl. unfold fwd in *. by rewrite Hold.
  - intros l. rewrite Hsame by done. intros Hl. pose proof (inv_sorted F d Hinv l Hl) as Hs.
    assert (Hsm : Forall (fun x => x - OFFSET_TimerLink <> p) l).
    { apply Forall_forall. intros x Hx Heq. apply (dead_member F d p TimerSlot mEfiTimerList Hinv Hp Hdead).
      exists l. split; [done|]. unfold node. simpl. by replace (p + OFFSET_TimerLink) with x by lia. }
    apply (sorted_ext d); [|done]. eapply Forall_impl; [exact Hsm|].
    intros x Hx. unfold trigger. simpl in *. by rewrite lookup_insert_ne.
  - intros t Ht. rewrite Hsame.
    + by apply (inv_pending F d Hinv).
    + unfold gEventQueue, gEventSignalQueue, TPL_HIGH_LEVEL in *. lia.
    + unfold gEventQueue, gRuntime_EventHead, TPL_HIGH_LEVEL in *. lia.
Qed.

Lemma inv_free F d e r h' F' :
  inv F d -> e ∈ live d -> events d !! e = Some r -> family h' F' ->
  (forall hd, is_Some (F' !! hd) <-> is_Some (F !! hd)) ->
  (forall hd x, member F' hd x <-> member F hd x /\ forall k, x <> node e k) ->
  (forall l, F' !! mEfiTimerList = Some l -> F !! mEfiTimerList = Some l) ->
  (forall t, F !! gEventQueue t = Some [] -> F' !! gEventQueue t = Some []) ->
  (forall x, ~ within F x -> (forall k, x <> node e k) -> h' !! x = links d !! x) ->
  (forall k, is_Some (h' !! node e k)) ->
  inv F' (FreeEvent e (set_events (<[e := set_Signature 0 r]> (events d)) (set_links h' d))).
Proof.
  intros Hinv He Hr Hf Hheads Hmem Htimers Hqueues Hbeyond Hsome. pose proof (live_block F d Hinv e He) as HeB.
  assert (Hold : forall e' k, e' ∈ Blocks -> e' <> e -> (forall hd, ~ member F hd (node e' k)) ->
    h' !! node e' k = links d !! node e' k).
  { intros e' k He' Hne Hno. apply Hbeyond.
    - intros [Hh|[hd Hm]]%(within_member F d Hinv); [by apply (node_head e' k)|by apply (Hno hd)].
    - intros k' Heq. by destruct (node_inj e' e k k' He' HeB Heq). }
  split; simpl; try done; try apply Hinv.
  - intros hd. rewrite Hheads. apply (inv_heads F d Hinv).
  - intros e' k He'. destruct (decide (e' = e)) as [->|Hne]; [done|].
    destruct (h' !! node e' k) as [n|] eqn:E; [eauto|]. exfalso.
    assert (Hno : forall hd, ~ member F hd (node e' k)).
    { intros hd Hm. assert (Hm' : member F' hd (node e' k)).
      { apply Hmem. split; [done|]. intros k' Heq. by destruct (node_inj e' e k k' He' HeB Heq). }
      destruct (family_linked h' F' (node e' k) Hf) as (n & Hn & _); [by eapply member_within|congruence]. }
    rewrite Hold in E by done. destruct (inv_nodes F d Hinv e' k He'). congruence.
  - intros e' He'. apply (inv_live F d Hinv). set_solver.
  - intros e' He'. destruct (decide (e' = e)) as [->|Hne].
    + eexists. rewrite lookup_insert_eq. split; [done|]. simpl. split; [set_solver|done].
    + destruct (inv_events F d Hinv e' He') as (r0 & Hr0 & Hl0). exists r0.
      rewrite lookup_insert_ne by done. split; [done|]. rewrite <-Hl0. set_solver.
  - intros e' r0 He' [[<- <-]|[Hne Hr0]]%lookup_insert_Some; [set_solver|].
    apply (inv_ok F d Hinv e'); [set_solver|done].
  - intros hd x [Hm Hne]%Hmem. destruct (inv_member F d Hinv hd x Hm) as (e' & k & r0 & He' & Hr0 & -> & ->).
    assert (e' <> e) by (intros ->; by apply (Hne k)).
    exists e', k, r0. rewrite lookup_insert_ne by done. set_solver.
  - intros e' r0 k He' [[<- <-]|[Hne Hr0]]%lookup_insert_Some; [set_solver|].
    assert (Helv : e' ∈ live d) by set_solver. pose proof (live_block F d Hinv e' Helv) as HeB'.
    destruct (inv_placed F d Hinv e' r0 k Helv Hr0) as [[Hm Hs]|(Hno & Hfn & Hx)].
    + left. split; [|done]. apply Hmem. split; [done|]. intros k' Heq.
      by destruct (node_inj e' e k k' HeB' HeB Heq).
    + right. split; [|split; [|done]].
      * intros hd [Hm _]%Hmem. by apply (Hno hd).
      * simpl. unfold fwd in *. by rewrite Hold.
  - intros l Hl'. pose proof (Htimers l Hl') as Hl. pose proof (inv_sorted F d Hinv l Hl) as Hs.
    assert (Hsm : Forall (fun x => x - OFFSET_TimerLink <> e) l).
    { apply Forall_forall. intros x Hx Heq.
      assert (Hm : member F' mEfiTimerList x) by (by exists l). apply Hmem in Hm as [_ Hm].
      apply (Hm TimerSlot). unfold node. simpl. lia. }
    apply (sorted_ext d); [|done]. eapply Forall_impl; [exact Hsm|].
    intros x Hx. unfold trigger. simpl in *. by rewrite lookup_insert_ne.
  - intros t Ht Hne. apply (inv_pending F d Hinv t Ht). intros Hnil. by apply Hne, Hqueues.
Qed.
End Invariant.
