(* ===== verification/EventCheck.v ===== *)
(** * Deciding the invariant of the event services

    The lists of a state are read out of its store; [checked] is a decidable
    form of the invariant of those lists. *)

From Stdlib Require Import Sorting.Sorted.
From stdpp Require Import sorting.
From S2P Require Import Prelude CTypes BaseMath LinkedList ListFamily Event EventInv.

(** The nodes that hang off a head. *)
Fixpoint read_list (fuel : nat) (h : store) (hd Link : ptr) : list ptr :=
  match fuel with
  | O => []
  | S fuel =>
      if Link =? hd then [] else
      match h !! Link with Some n => Link :: read_list fuel h hd (ForwardLink n) | None => [] end
  end.

Definition read (h : store) (hd : ptr) : list ptr :=
  match h !! hd with Some n => read_list (size h) h hd (ForwardLink n) | None => [] end.

Definition heads : list ptr :=
  [gEventSignalQueue; mEfiTimerList; gRuntime_EventHead] ++ (gEventQueue <$> seqZ 0 32).

Definition lists_of (h : store) : lists := list_to_map ((fun hd => (hd, read h hd)) <$> heads).

Lemma lists_of_lookup h hd l : lists_of h !! hd = Some l <-> hd ∈ heads /\ l = read h hd.
Proof.
  unfold lists_of. rewrite <-elem_of_list_to_map.
  - rewrite list_elem_of_fmap. naive_solver.
  - rewrite <-list_fmap_compose. apply (bool_decide_unpack _). vm_compute. done.
Qed.

Lemma is_head_heads hd : is_head hd <-> hd ∈ heads.
Proof.
  unfold is_head, heads. rewrite elem_of_app, list_elem_of_fmap, !elem_of_cons, elem_of_nil. setoid_rewrite elem_of_seqZ.
  split; (intros Hhd; repeat destruct Hhd as [Hhd|Hhd]; auto 6).
  - right. destruct Hhd as (t & ? & ->). exists t. split; [done|lia].
  - done.
  - do 3 right. destruct Hhd as (t & -> & ?). exists t. split; [lia|done].
Qed.

Definition slots : list slot := [SignalSlot; NotifySlot; RuntimeSlot; TimerSlot].

Lemma slots_all k : k ∈ slots.
Proof. destruct k; unfold slots; set_solver. Qed.

Section Check.
Context `{Platform} (Max : nat) `{!PlatformLaws Max} `{Registry} `{!forall f c t, Decision (Registered f c t)}.

#[export] Instance slot_ok_dec k r : Decision (slot_ok k r).
Proof. destruct k; simpl; apply _. Defined.

Definition record_checked (r : IEVENT) : Prop :=
  0 <= NotifyTpl r < TPL_HIGH_LEVEL /\
  (NotifyFunction r = NULL \/
   TPL_APPLICATION < NotifyTpl r < TPL_HIGH_LEVEL /\
    (NotifyFunction r = EfiEventEmptyFunction \/
     NotifyFunction r = CoreCheckTimers_function /\ NotifyTpl r = TPL_HIGH_LEVEL - 1 \/
     Registered (NotifyFunction r) (NotifyContext r) (NotifyTpl r))) /\
  (has (Type_ r) (Z.lor EVT_NOTIFY_WAIT EVT_NOTIFY_SIGNAL) = false \/ NotifyFunction r <> NULL) /\
  has (ExFlag r) EVT_EXFLAG_EVENT_PROTOCOL_NOTIFICATION = false /\
  0 <= TriggerTime r < 2 ^ 64 /\ 0 <= Period r < 2 ^ 64.

Lemma record_checked_ok r : record_checked r -> event_ok r.
Proof. intros (? & ? & Hn & ? & ? & ?). split; try done. destruct Hn; [congruence|done]. Qed.

(** The event at a block, and its links. *)
Definition slot_checked (d : EventData) (e : ptr) (r : IEVENT) (k : slot) : Prop :=
  (home k r ∈ heads /\ node e k ∈ read (links d) (home k r) /\ slot_ok k r) \/
  (Forall (fun hd => node e k ∉ read (links d) hd) heads /\ fwd (links d) (node e k) = Some NULL /\
   ~ (k = SignalSlot /\ slot_ok k r)).

#[local] Instance slot_checked_dec d e r k : Decision (slot_checked d e r k).
Proof. unfold slot_checked. apply _. Defined.

#[local] Instance record_checked_dec r : Decision (record_checked r).
Proof. unfold record_checked. apply _. Defined.

Definition block_checked (d : EventData) (e : ptr) : Prop :=
  match events d !! e with
  | None => False
  | Some r => (e ∈ live d /\ Signature r = EVENT_SIGNATURE /\ record_checked r /\ Forall (slot_checked d e r) slots) \/
      (e ∉ live d /\ Signature r <> EVENT_SIGNATURE)
  end /\ Forall (fun k => links d !! node e k <> None) slots.

#[local] Instance block_checked_dec d e : Decision (block_checked d e).
Proof. unfold block_checked. destruct (events d !! e); apply _. Defined.

(** The list of one head. *)
Definition owner_checked (d : EventData) (hd x : ptr) : Prop :=
  Exists (fun k => let e := x - offset k in e ∈ live d /\
    match events d !! e with Some r => hd = home k r | None => False end) slots.

#[local] Instance owner_checked_dec d hd x : Decision (owner_checked d hd x).
Proof.
  unfold owner_checked. apply Exists_dec. intros k. cbv zeta. destruct (events d !! _); apply _.
Defined.

Definition head_checked (d : EventData) (hd : ptr) : Prop :=
  NoDup (hd :: read (links d) hd) /\ NULL ∉ hd :: read (links d) hd /\
  linked (links d) (hd :: read (links d) hd ++ [hd]) /\
  Forall (fun hd' => hd' = hd \/ Forall (fun x => x ∉ hd' :: read (links d) hd') (hd :: read (links d) hd)) heads /\
  Forall (owner_checked d hd) (read (links d) hd).

#[local] Instance head_checked_dec d hd : Decision (head_checked d hd).
Proof. unfold head_checked. apply _. Defined.

Definition checked (d : EventData) : Prop :=
  Forall (head_checked d) heads /\ Forall (block_checked d) (elements Blocks) /\ live d ⊆ Blocks /\
  merge_sort Z.le (trigger d <$> read (links d) mEfiTimerList) = trigger d <$> read (links d) mEfiTimerList /\
  Forall (fun t => read (links d) (gEventQueue t) = [] \/ Z.testbit (gEventPending d) t = true) (seqZ 0 31) /\
  0 <= gEventPending d < 2 ^ TPL_HIGH_LEVEL /\ 0 <= mEfiSystemTime d < 2 ^ 64 /\
  (mEfiCheckTimerEvent d = NULL \/ mEfiCheckTimerEvent d ∈ Blocks) /\
  (gIdleLoopEvent d = NULL \/ gIdleLoopEvent d ∈ Blocks).

#[local] Instance checked_dec d : Decision (checked d).
Proof. unfold checked. apply _. Defined.

(** To be evaluated on a concrete state. *)
Definition invb (d : EventData) : bool := bool_decide (checked d).

Lemma member_read d hd x : member (lists_of (links d)) hd x <-> hd ∈ heads /\ x ∈ read (links d) hd.
Proof.
  unfold member. split.
  - intros (l & (Hhd & ->)%lists_of_lookup & Hx). done.
  - intros [Hhd Hx]. eexists. split; [by apply lists_of_lookup|done].
Qed.

Section Sound.
Context (d : EventData) (Hc : checked d).

Lemma checked_head hd : hd ∈ heads -> head_checked d hd.
Proof. destruct Hc as [Hh _]. rewrite Forall_forall in Hh. apply Hh. Qed.

Lemma checked_block e : e ∈ Blocks -> block_checked d e.
Proof. destruct Hc as (_ & Hb & _). rewrite Forall_forall in Hb. intros He. by apply Hb, elem_of_elements. Qed.

Lemma checked_live e r : e ∈ live d -> events d !! e = Some r -> record_checked r /\ forall k, slot_checked d e r k.
Proof.
  intros He Hr. assert (HeB : e ∈ Blocks) by (by apply (proj1 (proj2 (proj2 Hc)))).
  destruct (checked_block e HeB) as [Hb _]. rewrite Hr in Hb. destruct Hb as [(_ & _ & Hrc & Hs)|[? _]]; [|done].
  split; [done|]. intros k. rewrite Forall_forall in Hs. apply Hs, slots_all.
Qed.

Lemma checked_family : family (links d) (lists_of (links d)).
Proof.
  split.
  - intros hd l (Hhd & ->)%lists_of_lookup. destruct (checked_head hd Hhd) as (? & ? & ? & _). done.
  - intros hd1 l1 hd2 l2 x (Hh1 & ->)%lists_of_lookup (Hh2 & ->)%lists_of_lookup Hx1 Hx2.
    destruct (checked_head hd1 Hh1) as (_ & _ & _ & Hd & _). rewrite Forall_forall in Hd.
    destruct (Hd hd2 Hh2) as [?|Hd']; [done|]. rewrite Forall_forall in Hd'. by destruct (Hd' x Hx1).
Qed.

Lemma checked_placed e r k : e ∈ live d -> events d !! e = Some r -> placed (lists_of (links d)) d e r k.
Proof.
  intros He Hr. destruct (checked_live e r He Hr) as [_ Hs]. destruct (Hs k) as [(Hhd & Hin & Hok)|(Hno & Hnull & Hsig)].
  - left. split; [by apply member_read|done].
  - right. split; [|done]. intros hd [Hhd Hin]%member_read. rewrite Forall_forall in Hno. by apply (Hno hd).
Qed.

Lemma checked_sorted : StronglySorted (fun x y => trigger d x <= trigger d y) (read (links d) mEfiTimerList).
Proof.
  destruct Hc as (_ & _ & _ & Heq & _).
  pose proof (StronglySorted_merge_sort Z.le (trigger d <$> read (links d) mEfiTimerList)) as Hs. rewrite Heq in Hs. clear Heq.
  induction (read (links d) mEfiTimerList) as [|x l IH]; [constructor|]. simpl in Hs.
  inversion Hs as [|? ? Hs' Hall]; subst. constructor; [by apply IH|]. by rewrite Forall_fmap in Hall.
Qed.

Lemma checked_ok : inv Max (lists_of (links d)) d.
Proof.
  pose proof Hc as (_ & _ & Hlive & _ & Hpend & Hrange & Htime & Hte & Hie). split; try done.
  - apply checked_family.
  - intros hd. rewrite is_head_heads. split; [intros [l [? _]%lists_of_lookup]; done|].
    intros Hhd. eexists. by apply lists_of_lookup.
  - intros e k He. destruct (checked_block e He) as [_ Hn]. rewrite Forall_forall in Hn.
    apply not_eq_None_Some, Hn, slots_all.
  - intros e He. destruct (checked_block e He) as [Hb _]. destruct (events d !! e) as [r|]; [|done].
    exists r. split; [done|]. tauto.
  - intros e r He Hr. by apply record_checked_ok, (checked_live e).
  - intros hd x [Hhd Hx]%member_read. destruct (checked_head hd Hhd) as (_ & _ & _ & _ & Ho).
    rewrite Forall_forall in Ho. apply Ho, Exists_exists in Hx as (k & _ & He & Hr).
    destruct (events d !! (x - offset k)) as [r|] eqn:E; [|done]. exists (x - offset k), k, r.
    split; [done|]. split; [done|]. split; [unfold node; lia|done].
  - apply checked_placed.
  - intros l [_ ->]%lists_of_lookup. apply checked_sorted.
  - intros t Ht Hne. rewrite Forall_forall in Hpend. assert (Hin : t ∈ seqZ 0 31) by (apply elem_of_seqZ; unfold TPL_HIGH_LEVEL in Ht; lia).
    destruct (Hpend t Hin) as [Hnil|?]; [|done]. destruct Hne. apply lists_of_lookup. split; [|done].
    apply is_head_heads. do 3 right. exists t. unfold TPL_HIGH_LEVEL in Ht. split; [lia|done].
Qed.
End Sound.

Lemma invb_ok d : invb d = true -> inv Max (lists_of (links d)) d.
Proof. intros Hb%bool_decide_eq_true. by apply checked_ok. Qed.
End Check.
