(* ===== verification/EventServices.v ===== *)
(** * The event services keep the invariant

    [restorer total restore]: what the services rely on when they lower the TPL
    through [restore].  If no event above the new TPL is pending, it only sets
    the TPL; otherwise notification functions run, which may call all services
    again, and the invariant holds afterwards.  [total]: the fuel is enough.
    Each service is proved correct for any such [restore]; EventTheorems.v
    shows that [CoreRestoreTpl] is one. *)

From Stdlib Require Import Sorting.Sorted.
From S2P Require Import Prelude CTypes BaseMath LinkedList ListFamily Event EventInv.

(** ** Locks and priorities *)

(** No event above [t] is pending. *)
Definition quiet (t : Z) (d : EventData) : Prop := gEventPending d < 2 ^ (t + 1).

Definition lock_tpl (l : lock) : Z :=
  match l with TimerLock => TPL_HIGH_LEVEL - 1 | _ => TPL_HIGH_LEVEL end.

(** The locks, at TPL [t] between two critical sections of the event lock. *)
Record calm (t : Z) (s : EventState) : Prop := {
  calm_tpl : forall l, Tpl (get_lock l s) = lock_tpl l;
  calm_held : forall l, Acquired (get_lock l s) = true -> l <> EventQueueLock /\ lock_tpl l <= t }.

(** Held locks stay as they are, released locks stay released. *)
Definition lock_kept (a b : EFI_LOCK) : Prop :=
  Tpl b = Tpl a /\ Acquired b = Acquired a /\ (Acquired a = true -> b = a).

#[export] Instance lock_kept_preorder : PreOrder lock_kept.
Proof.
  split; [by intros a|]. intros a b c (? & Ha & H1') (? & Hb & H2'). repeat split; try congruence.
  intros Hl. rewrite H2', H1' by congruence. done.
Qed.

Definition kept (s s' : EventState) : Prop := forall l, lock_kept (get_lock l s) (get_lock l s').

#[export] Instance kept_preorder : PreOrder kept.
Proof.
  split; [by intros s l|]. intros s1 s2 s3 H1 H2 l. by transitivity (get_lock l s2).
Qed.

Lemma calm_kept t s s' : kept s s' -> calm t s -> calm t s'.
Proof.
  intros Hk [H1 H2]. split; intros l; destruct (Hk l) as (Ht & Ha & _); [by rewrite Ht|].
  rewrite Ha. apply H2.
Qed.

Lemma calm_mono t t' s : t <= t' -> calm t s -> calm t' s.
Proof. intros Ht [H1 H2]. split; [done|]. intros l Hl. destruct (H2 l Hl). split; [done|lia]. Qed.

(** The state inside the critical section of [l] that was entered in [s]. *)
Record inside (l : lock) (s s1 : EventState) : Prop := {
  inside_tpl : gEfiCurrentTpl s1 = lock_tpl l;
  inside_lock : get_lock l s1 = MkLock (lock_tpl l) (gEfiCurrentTpl s) true;
  inside_others : forall l', l' <> l -> lock_kept (get_lock l' s) (get_lock l' s1) }.

Lemma set_data_id s : set_data (data s) s = s.
Proof. by destruct s. Qed.

Lemma inside_data l s s1 d : inside l s s1 -> inside l s (set_data d s1).
Proof. intros [H1 H2 H3]. split; [done| |]; [by destruct l|]. intros l' Hl'. specialize (H3 l' Hl'). by destruct l'. Qed.

(** Lock fields and [set_lock]. *)
Lemma get_set_lock l v s : get_lock l (set_lock l v s) = v.
Proof. by destruct l. Qed.

Lemma get_lock_data l d s : get_lock l (set_data d s) = get_lock l s.
Proof. by destruct l. Qed.

Lemma get_set_lock_ne l l' v s : l' <> l -> get_lock l' (set_lock l v s) = get_lock l' s.
Proof. by destruct l, l'. Qed.

Section Locks.
Context `{Platform}.

Lemma interrupts_only b s : exists b', CoreSetInterruptState b s = set_interrupts b' s.
Proof.
  unfold CoreSetInterruptState.
  assert (Hid : s = set_interrupts (InterruptState s) s) by (by destruct s).
  destruct gCpu, b; simpl; eauto. destruct gSmmBase2 as [[st i]|]; [|eauto]. destruct (negb _ && negb _); eauto.
Qed.

Lemma get_lock_interrupts l b s : get_lock l (CoreSetInterruptState b s) = get_lock l s.
Proof. destruct (interrupts_only b s) as [b' ->]. by destruct l. Qed.

Lemma get_lock_tpl l t s : get_lock l (set_tpl t s) = get_lock l s.
Proof. by destruct l. Qed.

Lemma data_interrupts b s : data (CoreSetInterruptState b s) = data s.
Proof. destruct (interrupts_only b s) as [b' ->]. done. Qed.

Lemma CoreRaiseTpl_spec t s : gEfiCurrentTpl s <= t <= TPL_HIGH_LEVEL ->
  exists s1, CoreRaiseTpl t s = Ok (gEfiCurrentTpl s, s1) /\ gEfiCurrentTpl s1 = t /\ data s1 = data s /\
    forall l, get_lock l s1 = get_lock l s.
Proof.
  intros Ht. unfold CoreRaiseTpl. rewrite Z.gtb_ltb, (proj2 (Z.ltb_ge t _)), (proj2 (Z.leb_le t _)) by lia.
  cbn [negb ASSERT mbind result_bind]. eexists. split; [done|]. split; [done|].
  destruct (_ && _); simpl; rewrite ?data_interrupts; (split; [done|]); intros l; by rewrite get_lock_tpl, ?get_lock_interrupts.
Qed.

Lemma acquire_spec l s :
  calm (gEfiCurrentTpl s) s -> gEfiCurrentTpl s <= lock_tpl l -> Acquired (get_lock l s) = false ->
  exists s1, CoreAcquireLock l s = Ok s1 /\ inside l s s1 /\ data s1 = data s.
Proof.
  intros Hc Ht Ha. unfold CoreAcquireLock. rewrite Ha, (calm_tpl _ _ Hc l). cbn [negb ASSERT mbind result_bind].
  destruct (CoreRaiseTpl_spec (lock_tpl l) s) as (s1 & -> & Htpl & Hd & Hl);
    [split; [done|by destruct l]|]. cbn [mbind result_bind].
  eexists. split; [done|]. split; [split|by destruct l].
  - by destruct l.
  - rewrite get_set_lock, Hl. by rewrite (calm_tpl _ _ Hc l).
  - intros l' Hne. by rewrite get_set_lock_ne, Hl.
Qed.

Lemma inside_calm l s s1 : calm (gEfiCurrentTpl s) s -> gEfiCurrentTpl s <= lock_tpl l -> inside l s s1 ->
  l <> EventQueueLock -> calm (gEfiCurrentTpl s1) s1.
Proof.
  intros [H1 H2] Ht [I1 I2 I3] Hl. split; intros l'; destruct (decide (l' = l)) as [->|Hne].
  - by rewrite I2.
  - by rewrite (proj1 (I3 l' Hne)).
  - rewrite I1. done.
  - destruct (I3 l' Hne) as (_ & -> & _). rewrite I1. intros Ha. destruct (H2 l' Ha). split; [done|lia].
Qed.

(** What lowering the TPL must do. *)
Record restorer `{!PlatformLaws Max} `{Registry} (total : bool) (restore : Z -> EventState -> result EventState) : Prop := {
  restore_quiet : forall t s, calm t s -> 0 <= t <= gEfiCurrentTpl s -> gEfiCurrentTpl s <= TPL_HIGH_LEVEL ->
    0 <= gEventPending (data s) -> quiet t (data s) ->
    wp total (restore t s) (fun s' => data s' = data s /\ gEfiCurrentTpl s' = t /\ kept s s');
  restore_any : total = false -> forall F t s, inv Max F (data s) -> calm t s ->
    0 <= t <= gEfiCurrentTpl s -> gEfiCurrentTpl s <= TPL_HIGH_LEVEL ->
    wp false (restore t s) (fun s' => gEfiCurrentTpl s' = t /\ kept s s' /\
      exists F', inv Max F' (data s') /\ quiet t (data s')) }.
End Locks.

Section Services.
Context `{Platform} (Verify : bool) (Max : nat) `{!PlatformLaws Max} `{Registry}.
Context (total : bool) (restore : Z -> EventState -> result EventState) (Hres : restorer (Max := Max) total restore).
Abbreviation inv := (inv Max).

(** A state between two calls: [t] is the current TPL. *)
Record ready (F : lists) (s : EventState) : Prop := {
  ready_inv : inv F (data s);
  ready_calm : calm (gEfiCurrentTpl s) s;
  ready_tpl : 0 <= gEfiCurrentTpl s <= TPL_HIGH_LEVEL;
  ready_quiet : quiet (gEfiCurrentTpl s) (data s) }.

(** A call returned at the TPL at which it was made. *)
Definition back (s s' : EventState) : Prop := gEfiCurrentTpl s' = gEfiCurrentTpl s /\ kept s s'.

#[export] Instance back_preorder : PreOrder back.
Proof.
  split; [by intros s|]. intros s1 s2 s3 [H1 H1'] [H2 H2']. split; [congruence|]. by etransitivity.
Qed.

Lemma ready_back F F' s s' : ready F s -> back s s' -> inv F' (data s') -> quiet (gEfiCurrentTpl s) (data s') ->
  ready F' s'.
Proof.
  intros [_ Hc Ht _] [Heq Hk] Hi Hq. split; [done| | |]; rewrite Heq; try done. by apply (calm_kept _ s).
Qed.

Lemma ready_data F F' d' s : ready F s -> inv F' d' -> quiet (gEfiCurrentTpl s) d' -> ready F' (set_data d' s).
Proof.
  intros [_ [H1 H2] Ht _] Hi Hq. split; [done| |done|done].
  split; intros l; rewrite get_lock_data; [apply H1|apply H2].
Qed.

Definition done_any (s s' : EventState) : Prop := back s s' /\ exists F', ready F' s'.

Lemma event_lock_free F s : ready F s -> Acquired (get_lock EventQueueLock s) = false.
Proof.
  intros [_ [_ Hc] _ _]. destruct (Acquired _) eqn:E; [|done]. by destruct (Hc EventQueueLock E).
Qed.

(** ** Leaving a critical section *)

Section Release.
Context (F : lists) (l : lock) (s s1 : EventState).
Context (Hready : ready F s) (Hle : gEfiCurrentTpl s <= lock_tpl l) (Hin : inside l s s1)
  (Hfree : Acquired (get_lock l s) = false).

Let s2 := set_lock l (MkLock (lock_tpl l) (gEfiCurrentTpl s) false) s1.

Lemma release_unfold : CoreReleaseLock restore l s1 = restore (gEfiCurrentTpl s) s2.
Proof.
  unfold CoreReleaseLock. by rewrite (inside_lock _ _ _ Hin).
Qed.

Lemma released_kept : kept s s2.
Proof.
  intros l'. unfold s2. destruct (decide (l' = l)) as [->|Hne].
  - rewrite get_set_lock. unfold lock_kept. rewrite Hfree. simpl. rewrite (calm_tpl _ _ (ready_calm _ _ Hready)). done.
  - rewrite get_set_lock_ne by done. by apply (inside_others _ _ _ Hin).
Qed.

Lemma released_state : gEfiCurrentTpl s2 = lock_tpl l /\ data s2 = data s1.
Proof. unfold s2. rewrite <-(inside_tpl _ _ _ Hin). by destruct l. Qed.

Lemma release_post Q : (forall s', gEfiCurrentTpl s' = lock_tpl l -> kept s s' -> data s' = data s1 ->
    wp total (restore (gEfiCurrentTpl s) s') Q) -> wp total (CoreReleaseLock restore l s1) Q.
Proof. intros HQ. rewrite release_unfold. apply HQ; [apply released_state|apply released_kept|apply released_state]. Qed.

Lemma release_quiet : 0 <= gEventPending (data s1) -> quiet (gEfiCurrentTpl s) (data s1) ->
  wp total (CoreReleaseLock restore l s1) (fun s' => data s' = data s1 /\ back s s').
Proof.
  intros Hp Hq. rewrite release_unfold. destruct released_state as [Ht Hd]. rewrite <-Hd in Hp, Hq.
  eapply wp_mono; [apply (restore_quiet _ _ Hres)|]; try done.
  - eapply calm_kept; [apply released_kept|apply Hready].
  - rewrite Ht. split; [apply Hready|done].
  - rewrite Ht. by destruct l.
  - intros s' (Hds & Hts & Hk). simpl. split; [congruence|]. split; [done|].
    etransitivity; [apply released_kept|done].
Qed.

Lemma release_any F1 : total = false -> inv F1 (data s1) ->
  wp false (CoreReleaseLock restore l s1) (done_any s).
Proof.
  intros Htot Hi. rewrite release_unfold. destruct released_state as [Ht Hd]. rewrite <-Hd in Hi.
  eapply wp_mono; [apply (restore_any _ _ Hres Htot F1)|]; try done.
  - eapply calm_kept; [apply released_kept|apply Hready].
  - rewrite Ht. split; [apply Hready|done].
  - rewrite Ht. by destruct l.
  - intros s' (Hts & Hk & F' & Hi' & Hq). assert (Hb : back s s').
    { split; [done|]. etransitivity; [apply released_kept|done]. }
    split; [done|]. exists F'. by apply (ready_back F F' s).
Qed.
End Release.

(** Entering the event lock. *)
Lemma enter F l s : ready F s -> gEfiCurrentTpl s <= lock_tpl l -> Acquired (get_lock l s) = false ->
  exists s1, CoreAcquireLock l s = Ok s1 /\ inside l s s1 /\ data s1 = data s.
Proof. intros [_ Hc _ _] Ht Ha. by apply acquire_spec. Qed.

Lemma enter_event F s : ready F s ->
  exists s1, CoreAcquireEventLock s = Ok s1 /\ inside EventQueueLock s s1 /\ data s1 = data s.
Proof. intros Hr. apply (enter F); [done|apply Hr|by eapply event_lock_free]. Qed.

Lemma inside_acquired s s1 : inside EventQueueLock s s1 -> Acquired (gEventQueueLock s1) = true.
Proof. intros [_ Hl _]. simpl in Hl. by rewrite Hl. Qed.

(** ** Signalling *)

(** The events on the signal list. *)
Definition signal_list (F : lists) : list ptr := (fun x => x - OFFSET_SignalLink) <$> default [] (F !! gEventSignalQueue).

Lemma signal_nodes F d : inv F d -> exists es, F !! gEventSignalQueue = Some ((fun e => node e SignalSlot) <$> es) /\
  signal_list F = es /\ Forall (fun e => e ∈ live d) es.
Proof.
  intros Hi. destruct (proj2 (inv_heads _ F d Hi gEventSignalQueue)) as [l Hl]; [by left|].
  destruct (list_nodes Max F d Hi _ l Hl) as (k & es & -> & _ & Hes).
  assert (Hk : es = [] \/ k = SignalSlot).
  { destruct Hes as [|e es (He & r & Hr & Hhd) _]; [by left|right].
    eapply home_slot; [by eapply inv_ok|by eapply (inv_ok _ F d Hi e)|]. symmetry. exact Hhd. }
  exists es. split; [destruct Hk as [->| ->]; done|]. split.
  - unfold signal_list. rewrite Hl. simpl. destruct Hk as [->| ->]; [done|]. rewrite <-list_fmap_compose.
    rewrite <-(list_fmap_id es) at 2. apply list_fmap_ext. intros i e _. unfold node. simpl. lia.
  - eapply Forall_impl; [exact Hes|]. by intros e [? _].
Qed.

(** The whole group, in a critical section. *)
Lemma NotifySignalList_locked F Group s : inv F (data s) -> Acquired (gEventQueueLock s) = true ->
  let ns := group_members (data s) Group (signal_list F) in
  exists d', (let! n := load (links (data s)) gEventSignalQueue in
      NotifySignalList_loop Verify Max (S (size (links (data s)))) Group (ForwardLink n) s) = Ok (set_data d' s) /\
    relinked (data s) d' (pend_all (data s) ns (gEventPending (data s))) /\ inv (enqueue_all (data s) ns F) d'.
Proof.
  intros Hi Hlk ns. destruct (signal_nodes F (data s) Hi) as (es & Hl & Hes & _). subst ns. rewrite Hes.
  destruct (family_first (links (data s)) F _ _ (inv_family _ F _ Hi) Hl) as (n & -> & Hn).
  cbn [mbind result_bind]. rewrite Hn.
  destruct (NotifySignalList_loop_spec Verify Max (S (size (links (data s)))) Group es [] F s)
    as (d' & Heq & Hrel & Hi' & _); [done|done|done| |by exists d'].
  pose proof (list_size Max F (data s) _ _ Hi Hl) as Hsz. by rewrite length_fmap in Hsz.
Qed.

(** What follows is up to the restoring of the TPL. *)
Lemma CoreNotifySignalList_post F Group s Q : ready F s ->
  let ns := group_members (data s) Group (signal_list F) in
  let p := pend_all (data s) ns (gEventPending (data s)) in
  (forall s1, gEfiCurrentTpl s1 = TPL_HIGH_LEVEL -> kept s s1 -> relinked (data s) (data s1) p ->
     inv (enqueue_all (data s) ns F) (data s1) -> wp total (restore (gEfiCurrentTpl s) s1) Q) ->
  wp total (CoreNotifySignalList Verify Max restore Group s) Q.
Proof.
  intros Hr ns p HQ. unfold CoreNotifySignalList. destruct (enter_event F s Hr) as (s1 & -> & Hin & Hd).
  cbn [mbind result_bind]. pose proof (inside_acquired _ _ Hin) as Hlk. pose proof (ready_inv _ _ Hr) as Hi.
  rewrite <-Hd in Hi. destruct (NotifySignalList_locked F Group s1 Hi Hlk) as (d' & Heq & Hrel & Hi').
  destruct (load (links (data s1)) gEventSignalQueue) as [n| | |]; try done. cbn [mbind result_bind] in *.
  rewrite Heq. cbn [mbind result_bind]. rewrite Hd in Hrel, Hi'.
  apply (release_post F EventQueueLock s (set_data d' s1) Hr); [apply Hr|by apply inside_data|by eapply event_lock_free|].
  intros s2 Ht2 Hk2 Hd2. simpl in Hd2. rewrite <-Hd2 in Hrel, Hi'. by apply HQ.
Qed.

(** ** Signalling an event *)

(** What a client may pass: [NULL], or an address where an event may be. *)
Definition valid (e : ptr) : Prop := e = NULL \/ e ∈ Blocks.

Lemma bad_event_spec F d e : inv F d -> valid e ->
  (bad_event d e = Ok true /\ e ∉ live d) \/
  (bad_event d e = Ok false /\ e ∈ live d /\ exists r, events d !! e = Some r /\ event_ok r).
Proof.
  intros Hi Hv. unfold bad_event. destruct (Z.eqb_spec e NULL) as [->|Hne].
  { left. split; [done|]. intros He%(live_block _ _ _ Hi)%Blocks_above. unfold NULL in *. lia. }
  destruct Hv as [?|HeB]; [done|]. destruct (inv_events _ F d Hi e HeB) as (r & Hr & Hs).
  rewrite (event_live d e r Hr). cbn [mbind result_bind].
  destruct (Z.eqb_spec (Signature r) EVENT_SIGNATURE) as [Heq|Hneq]; simpl; [right|left]; (split; [done|]).
  - assert (He : e ∈ live d) by by apply Hs. split; [done|]. exists r. split; [done|]. by eapply (inv_ok _ F d).
  - intros He. by apply Hneq, Hs.
Qed.

(** The event gets signalled, if it is not yet. *)
Definition mark (e : ptr) (r : IEVENT) (d : EventData) : EventData :=
  if SignalCount r =? 0 then set_events (<[e := set_SignalCount 1 r]> (events d)) d else d.

(** The events whose notification functions are queued. *)
Definition to_notify (F : lists) (d : EventData) (e : ptr) (r : IEVENT) : list ptr :=
  if (SignalCount r =? 0) && has (Type_ r) EVT_NOTIFY_SIGNAL then
    if has (ExFlag r) EVT_EXFLAG_EVENT_GROUP then group_members d (EventGroup r) (signal_list F) else [e]
  else [].

Lemma count_shape n r : same_shape r (set_SignalCount n r).
Proof. by repeat split. Qed.

Lemma inv_count F d e r n : inv F d -> e ∈ Blocks -> events d !! e = Some r ->
  inv F (set_events (<[e := set_SignalCount n r]> (events d)) d).
Proof.
  intros Hi He Hr. apply (inv_update Max F d e r); try done; [|auto]. intros Hl.
  destruct (inv_ok _ F d Hi e r Hl Hr) as [_ _ _ _ Ht Hp]. done.
Qed.

Lemma inv_mark F d e r : inv F d -> e ∈ Blocks -> events d !! e = Some r -> inv F (mark e r d).
Proof. intros Hi He Hr. unfold mark. destruct (_ =? _); [by apply inv_count|done]. Qed.

Lemma signal_function r : event_ok r -> has (Type_ r) EVT_NOTIFY_SIGNAL = true -> NotifyFunction r <> NULL.
Proof.
  intros Hok Hs. apply (ok_notify r Hok). unfold has in *. bool_to_prop. intros Hz. apply Hs.
  unfold EVT_NOTIFY_SIGNAL, EVT_NOTIFY_WAIT in *. rewrite Z.land_lor_distr_r in Hz.
  by apply Z.lor_eq_0_iff in Hz as [_ ?].
Qed.

(** High enough, nothing that gets pending now is dispatched. *)
Lemma quiet_high F d t : inv F d -> TPL_HIGH_LEVEL - 1 <= t \/ gEventPending d < 2 ^ (t + 1) -> quiet t d.
Proof.
  intros Hi [Ht|?]; [|done]. unfold quiet. pose proof (inv_range _ F d Hi).
  assert (2 ^ TPL_HIGH_LEVEL <= 2 ^ (t + 1)) by (apply Z.pow_le_mono_r; unfold TPL_HIGH_LEVEL in *; lia). lia.
Qed.

(** A critical section of the event lock that leaves nothing to dispatch. *)
Lemma leave_quiet F F1 s s1 : ready F s -> inside EventQueueLock s s1 -> inv F1 (data s1) ->
  TPL_HIGH_LEVEL - 1 <= gEfiCurrentTpl s \/ gEventPending (data s1) < 2 ^ (gEfiCurrentTpl s + 1) ->
  wp total (CoreReleaseEventLock restore s1) (fun s' => data s' = data s1 /\ back s s').
Proof.
  intros Hr Hin Hi Hp. apply (release_quiet F EventQueueLock s); try done.
  - apply Hr.
  - by eapply event_lock_free.
  - apply (inv_range _ _ _ Hi).
  - by apply (quiet_high F1).
Qed.

Lemma leave_any F F1 s s1 : total = false -> ready F s -> inside EventQueueLock s s1 -> inv F1 (data s1) ->
  wp false (CoreReleaseEventLock restore s1) (done_any s).
Proof.
  intros Htot Hr Hin Hi. eapply (release_any F EventQueueLock s); try done; [apply Hr|by eapply event_lock_free].
Qed.

Lemma relinked_refl d : relinked d d (gEventPending d).
Proof. exists (links d). by destruct d. Qed.

(** The critical section of [CoreSignalEvent], up to its release; the case of a
    group is apart. *)
Lemma mark_update e r d : events d !! e = Some r -> SignalCount r = 0 ->
  update_event (set_SignalCount (u32 (SignalCount r + 1))) e d = Ok (mark e r d).
Proof. intros Hr Hc. rewrite (update_event_Ok _ e r) by done. unfold mark. by rewrite Hc. Qed.

(** Signalling, up to the restoring of the TPL: the event is marked and the
    notifications are queued; what the restoring ends in is what the call ends
    in. *)
Lemma CoreSignalEvent_post F e r s (Post : lists -> EventData -> Prop) :
  ready F s -> e ∈ live (data s) -> events (data s) !! e = Some r ->
  let d1 := mark e r (data s) in
  let ns := to_notify F d1 e r in
  let p := pend_all d1 ns (gEventPending (data s)) in
  (forall s1, gEfiCurrentTpl s1 = TPL_HIGH_LEVEL -> kept s s1 -> relinked d1 (data s1) p ->
     inv (enqueue_all d1 ns F) (data s1) ->
     wp total (restore (gEfiCurrentTpl s) s1) (fun s2 => back s s2 /\ exists F2, ready F2 s2 /\ Post F2 (data s2))) ->
  wp total (CoreSignalEvent Verify Max restore e s) (fun '(Status, s') =>
    Status = EFI_SUCCESS /\ back s s' /\ exists F2, ready F2 s' /\ Post F2 (data s')).
Proof.
  intros Hr He Hre d1 ns p Hpost. pose proof (ready_inv _ _ Hr) as Hi.
  pose proof (live_block _ F _ Hi e He) as HeB. unfold CoreSignalEvent.
  destruct (bad_event_spec F (data s) e Hi (or_intror HeB)) as [[_ ?]|(-> & _ & r' & Hr' & Hok)]; [done|].
  simplify_eq. cbn [mbind result_bind]. destruct (enter_event F s Hr) as (s1 & -> & Hin & Hd).
  cbn [mbind result_bind]. rewrite Hd, (event_live _ _ _ Hre). cbn [mbind result_bind].
  pose proof (inv_mark F _ e r Hi HeB Hre) as Hi1. fold d1 in Hi1.
  (* the end of all cases without a group *)
  assert (Hend : forall d', relinked d1 d' p -> inv (enqueue_all d1 ns F) d' ->
    wp total (let! s' := CoreReleaseEventLock restore (set_data d' s1) in Ok (EFI_SUCCESS, s'))
      (fun '(Status, s') => Status = EFI_SUCCESS /\ back s s' /\ exists F2, ready F2 s' /\ Post F2 (data s'))).
  { intros d' Hrel Hi'. eapply wp_bind; [|intros s' Hs'; split; [done|exact Hs']].
    apply (release_post F EventQueueLock s (set_data d' s1) Hr); [apply Hr|by apply inside_data|by eapply event_lock_free|].
    intros s2 Ht2 Hk2 Hd2. simpl in Hd2. rewrite <-Hd2 in Hrel, Hi'. by apply Hpost. }
  assert (Hd1 : d1 = mark e r (data s)) by done. assert (Hns : ns = to_notify F d1 e r) by done.
  assert (Hpp : p = pend_all d1 ns (gEventPending (data s))) by done. clearbody d1 ns p.
  unfold to_notify in Hns. destruct (Z.eqb_spec (SignalCount r) 0) as [Hc|Hc]; cbn [andb] in Hns.
  2: { unfold mark in Hd1. rewrite (proj2 (Z.eqb_neq _ _) Hc) in Hd1. subst d1 ns p.
       cbn [mbind result_bind]. rewrite <-(set_data_id s1), Hd. apply Hend; [apply relinked_refl|done]. }
  rewrite (mark_update e r (data s)) by done. cbn [mbind result_bind]. rewrite <-Hd1.
  assert (Hp1 : gEventPending d1 = gEventPending (data s)) by (by rewrite Hd1; unfold mark; destruct (_ =? _)).
  destruct (has (Type_ r) EVT_NOTIFY_SIGNAL) eqn:Hsig.
  2: { subst ns p. cbn [mbind result_bind pend_all foldl]. rewrite <-Hp1 in *. apply Hend; [apply relinked_refl|done]. }
  assert (Hre1 : events d1 !! e = Some (set_SignalCount 1 r)).
  { rewrite Hd1. unfold mark. rewrite Hc. simpl. apply lookup_insert_eq. }
  assert (He1 : e ∈ live d1) by (rewrite Hd1; unfold mark; by destruct (_ =? _)).
  destruct (has (ExFlag r) EVT_EXFLAG_EVENT_GROUP).
  - eapply wp_bind with (P := fun s4 => exists s3 F3, back s s3 /\ ready F3 s3 /\ inside EventQueueLock s3 s4 /\
      data s4 = data s3 /\ Post F3 (data s3)).
    { eapply wp_bind; [apply (leave_quiet F F s (set_data d1 s1)); [done|by apply inside_data|done|]|].
      { right. simpl. rewrite Hp1. apply Hr. }
      intros s2 [Hd2 Hb2]. cbn [data set_data] in Hd2. rewrite Hd2, (event_live _ _ _ Hre1). cbn [mbind result_bind].
      assert (Hr2 : ready F s2).
      { apply (ready_back F F s); rewrite ?Hd2; try done. unfold quiet. rewrite Hp1. apply Hr. }
      change (EventGroup (set_SignalCount 1 r)) with (EventGroup r).
      eapply wp_bind.
      { apply (CoreNotifySignalList_post F (EventGroup r) s2
          (fun s2 => back s s2 /\ exists F2, ready F2 s2 /\ Post F2 (data s2)) Hr2).
        rewrite Hd2, Hp1, <-Hns, <-Hpp. destruct Hb2 as [-> Hk2]. intros s0 Ht0 Hk0. apply Hpost; [done|by transitivity s2]. }
      intros s3 (Hb3 & F3 & Hr3 & HP3). destruct (enter_event _ s3 Hr3) as (s4 & -> & Hin4 & Hd4). by exists s3, F3. }
    intros s4 (s3 & F3 & Hb & Hr3 & Hin4 & Hd4 & HP3).
    eapply wp_bind; [apply (leave_quiet _ F3 s3 s4 Hr3 Hin4); rewrite Hd4; [apply Hr3|right; apply Hr3]|].
    intros s5 [Hd5 Hb5]. rewrite Hd4 in Hd5. split; [done|]. split; [by transitivity s3|]. exists F3. rewrite Hd5.
    split; [|done]. apply (ready_back F3 F3 s3); rewrite ?Hd5; try done; apply Hr3.
  - destruct (CoreNotifyEvent_spec Verify Max F e (set_SignalCount 1 r) (set_data d1 s1)) as (h' & -> & Hi2); try done.
    { exact (signal_function r Hok Hsig). } { exact (inside_acquired s s1 Hin). }
    cbn [mbind result_bind].
    match goal with |- context [set_data ?d' (set_data d1 s1)] => change (set_data d' (set_data d1 s1)) with (set_data d' s1) end.
    apply Hend; subst ns; cbn [pend_all foldl enqueue_all] in *; rewrite Hre1 in *.
    + subst p. cbn [data set_data]. rewrite Hp1. by exists h'.
    + done.
Qed.

(** Nothing is dispatched. *)
Lemma CoreSignalEvent_quiet F e r s : ready F s -> e ∈ live (data s) -> events (data s) !! e = Some r ->
  let d1 := mark e r (data s) in
  let ns := to_notify F d1 e r in
  let p := pend_all d1 ns (gEventPending (data s)) in
  TPL_HIGH_LEVEL - 1 <= gEfiCurrentTpl s \/ p < 2 ^ (gEfiCurrentTpl s + 1) ->
  wp total (CoreSignalEvent Verify Max restore e s) (fun '(Status, s') =>
    Status = EFI_SUCCESS /\ back s s' /\ relinked d1 (data s') p /\ inv (enqueue_all d1 ns F) (data s')).
Proof.
  intros Hr He Hre d1 ns p Hp. eapply wp_mono.
  - apply (CoreSignalEvent_post F e r s (fun _ d' => relinked d1 d' p /\ inv (enqueue_all d1 ns F) d') Hr He Hre).
    fold d1 ns p. intros s1 Ht1 Hk1 Hrel Hi1. destruct (relinked_events _ _ _ Hrel) as (_ & _ & Hpd).
    assert (Hq : quiet (gEfiCurrentTpl s) (data s1)) by (apply (quiet_high _ _ _ Hi1); by rewrite Hpd).
    eapply wp_mono; [apply (restore_quiet _ _ Hres)|]; try done.
    + apply (calm_kept _ s); [done|apply Hr].
    + rewrite Ht1. apply Hr.
    + by rewrite Ht1.
    + apply (inv_range _ _ _ Hi1).
    + intros s2 (Hd2 & Ht2 & Hk2). assert (Hb : back s s2) by (split; [done|by transitivity s1]).
      split; [done|]. exists (enqueue_all d1 ns F). rewrite Hd2. split; [|done].
      apply (ready_back F _ s); rewrite ?Hd2; done.
  - intros [Status s'] (-> & Hb & F2 & _ & Hpost). done.
Qed.

Lemma done_refl F s : ready F s -> done_any s s.
Proof. intros Hr. split; [done|by exists F]. Qed.

Lemma done_trans s1 s2 s3 : back s1 s2 -> done_any s2 s3 -> done_any s1 s3.
Proof. intros Hb [Hb' ?]. split; [by transitivity s2|done]. Qed.

Lemma CoreSignalEvent_any F e s : total = false -> ready F s -> valid e ->
  wp false (CoreSignalEvent Verify Max restore e s) (fun '(_, s') => done_any s s').
Proof.
  intros Htot Hr Hv. pose proof (ready_inv _ _ Hr) as Hi.
  destruct (bad_event_spec F (data s) e Hi Hv) as [[Hbad _]|(_ & He & r & Hre & Hok)].
  { unfold CoreSignalEvent. rewrite Hbad. by eapply done_refl. }
  rewrite <-Htot. eapply wp_mono.
  - apply (CoreSignalEvent_post F e r s (fun _ _ => True) Hr He Hre). intros s1 Ht1 Hk1 Hrel Hi1.
    rewrite Htot. eapply wp_mono; [eapply (restore_any _ _ Hres Htot); [exact Hi1| | |]|].
    + apply (calm_kept _ s); [done|apply Hr].
    + rewrite Ht1. apply Hr.
    + by rewrite Ht1.
    + intros s2 (Ht2 & Hk2 & F2 & Hi2 & Hq2). assert (Hb : back s s2) by (split; [done|by transitivity s1]).
      split; [done|]. exists F2. split; [|done]. by apply (ready_back F F2 s).
  - intros [Status s'] (_ & Hb & F2 & Hr2 & _). split; [done|by exists F2].
Qed.

(** ** Checking an event *)

(** What [CoreCheckEvent] returns without running notification functions. *)
Definition check_outcome (F : lists) (d : EventData) (e : ptr) (d' : EventData) (Status : EFI_STATUS) : Prop :=
  match events d !! e with
  | None => Status = EFI_INVALID_PARAMETER /\ d' = d
  | Some r =>
      if negb (bool_decide (e ∈ live d)) || has (Type_ r) EVT_NOTIFY_SIGNAL
      then Status = EFI_INVALID_PARAMETER /\ d' = d
      else if negb (SignalCount r =? 0)
      then Status = EFI_SUCCESS /\ d' = set_events (<[e := set_SignalCount 0 r]> (events d)) d
      else Status = EFI_NOT_READY /\
        if has (Type_ r) EVT_NOTIFY_WAIT
        then relinked d d' (Z.lor (gEventPending d) (2 ^ NotifyTpl r)) /\ inv (enqueue e r F) d'
        else d' = d
  end.

Lemma wait_function r : event_ok r -> has (Type_ r) EVT_NOTIFY_WAIT = true -> NotifyFunction r <> NULL.
Proof.
  intros Hok Hs. apply (ok_notify r Hok). unfold has in *. bool_to_prop. intros Hz. apply Hs.
  unfold EVT_NOTIFY_SIGNAL, EVT_NOTIFY_WAIT in *. rewrite Z.land_lor_distr_r in Hz.
  by apply Z.lor_eq_0_iff in Hz as [? _].
Qed.

(** Clearing the signal: the second critical section. *)
Lemma clear_signal F s e : ready F s -> e ∈ Blocks ->
  wp total (let! e' := event (data s) e in
    if negb (SignalCount e' =? 0) then
      let! s := CoreAcquireEventLock s in
      let! e' := event (data s) e in
      let! (Status, s) := if negb (SignalCount e' =? 0) then
          let! d := update_event (set_SignalCount 0) e (data s) in
          Ok (EFI_SUCCESS, set_data d s)
        else Ok (EFI_NOT_READY, s) in
      let! s := CoreReleaseEventLock restore s in
      Ok (Status, s)
    else Ok (EFI_NOT_READY, s))
  (fun '(Status, s') => back s s' /\ ready F s' /\ exists r, events (data s) !! e = Some r /\
     if SignalCount r =? 0 then Status = EFI_NOT_READY /\ data s' = data s
     else Status = EFI_SUCCESS /\ data s' = set_events (<[e := set_SignalCount 0 r]> (events (data s))) (data s)).
Proof.
  intros Hr HeB. pose proof (ready_inv _ _ Hr) as Hi.
  destruct (inv_events _ F _ Hi e HeB) as (r & Hre & _). rewrite (event_live _ _ _ Hre). cbn [mbind result_bind].
  destruct (Z.eqb_spec (SignalCount r) 0) as [Hc|Hc]; cbn [negb].
  { split; [done|]. split; [done|]. exists r. by rewrite Hc. }
  destruct (enter_event F s Hr) as (s1 & -> & Hin & Hd). cbn [mbind result_bind].
  rewrite Hd, (event_live _ _ _ Hre). cbn [mbind result_bind]. rewrite (proj2 (Z.eqb_neq _ _) Hc). cbn [negb].
  rewrite (update_event_Ok _ e r) by done. cbn [mbind result_bind].
  pose proof (inv_count F (data s) e r 0 Hi HeB Hre) as Hi1.
  eapply wp_bind; [apply (leave_quiet F F s); [done|by apply inside_data|done|right; apply Hr]|].
  intros s' [Hds Hb]. simpl in Hds. split; [done|]. split.
  - apply (ready_back F F s); rewrite ?Hds; try done. apply Hr.
  - exists r. rewrite (proj2 (Z.eqb_neq _ _) Hc). done.
Qed.

Lemma CoreCheckEvent_any F e s : total = false -> ready F s -> valid e ->
  wp false (CoreCheckEvent Verify Max restore e s) (fun '(_, s') => done_any s s').
Proof.
  intros Htot Hr Hv. pose proof (ready_inv _ _ Hr) as Hi. unfold CoreCheckEvent.
  destruct (bad_event_spec F (data s) e Hi Hv) as [[-> _]|(-> & He & r & Hre & Hok)].
  { by eapply done_refl. }
  pose proof (live_block _ F _ Hi e He) as HeB. cbn [mbind result_bind].
  rewrite (event_live _ _ _ Hre). cbn [mbind result_bind].
  destruct (has (Type_ r) EVT_NOTIFY_SIGNAL); [by eapply done_refl|].
  eapply wp_bind with (P := done_any s).
  2: { intros s2 [Hb2 [F2 Hr2]]. eapply wp_mono; [by apply (wp_partial total), (clear_signal F2)|].
       intros [Status s'] (Hb & Hr' & _). apply (done_trans _ s2); [done|]. split; [done|by exists F2]. }
  destruct (has (Type_ r) EVT_NOTIFY_WAIT) eqn:Hw; [|rewrite andb_false_r; by eapply done_refl].
  destruct (Z.eqb_spec (SignalCount r) 0) as [Hc|Hc]; [|by eapply done_refl]. cbn [andb].
  destruct (enter_event F s Hr) as (s1 & -> & Hin & Hd). cbn [mbind result_bind].
  rewrite Hd, (event_live _ _ _ Hre). cbn [mbind result_bind]. rewrite Hc. cbn [Z.eqb]. rewrite <-Hd in *.
  destruct (CoreNotifyEvent_spec Verify Max F e r s1) as (h' & -> & Hi2); try done.
  { by apply wait_function. } { exact (inside_acquired s s1 Hin). }
  cbn [mbind result_bind]. eapply (leave_any F); try done. by apply inside_data.
Qed.

Lemma set_bit_quiet p n t : 0 <= p -> 0 <= n <= t -> p < 2 ^ (t + 1) -> Z.lor p (2 ^ n) < 2 ^ (t + 1).
Proof.
  intros Hp Hn Hlt. pose proof (Z.pow_pos_nonneg 2 n ltac:(lia) ltac:(lia)).
  assert (Hnn : 0 <= Z.lor p (2 ^ n)) by (apply Z.lor_nonneg; lia).
  destruct (Z.eq_dec (Z.lor p (2 ^ n)) 0) as [->|Hne]; [apply Z.pow_pos_nonneg; lia|].
  apply Z.log2_lt_pow2; [lia|]. rewrite Z.log2_lor by lia. apply Z.max_lub_lt.
  - destruct (Z.eq_dec p 0) as [->|]; [simpl; lia|]. apply Z.log2_lt_pow2; lia.
  - rewrite Z.log2_pow2; lia.
Qed.

Lemma CoreCheckEvent_quiet F e s : ready F s -> valid e ->
  (forall r, events (data s) !! e = Some r -> NotifyTpl r <= gEfiCurrentTpl s) ->
  wp total (CoreCheckEvent Verify Max restore e s) (fun '(Status, s') =>
    back s s' /\ check_outcome F (data s) e (data s') Status).
Proof.
  intros Hr Hv Htpl. pose proof (ready_inv _ _ Hr) as Hi. unfold CoreCheckEvent, check_outcome.
  destruct (bad_event_spec F (data s) e Hi Hv) as [[-> Hdead]|(-> & He & r & Hre & Hok)].
  { cbn [mbind result_bind wp]. split; [done|]. destruct (events (data s) !! e); [|done].
    by rewrite bool_decide_false. }
  pose proof (live_block _ F _ Hi e He) as HeB. cbn [mbind result_bind].
  rewrite (event_live _ _ _ Hre). cbn [mbind result_bind]. rewrite Hre, bool_decide_true by done. cbn [negb orb].
  destruct (has (Type_ r) EVT_NOTIFY_SIGNAL); [done|].
  destruct (Z.eqb_spec (SignalCount r) 0) as [Hc|Hc]; cbn [andb negb].
  2: { cbn [mbind result_bind]. eapply wp_mono; [by apply (clear_signal F)|].
       intros [Status s'] (Hb & _ & r' & Hr' & Hout). simplify_eq. by rewrite (proj2 (Z.eqb_neq _ _) Hc) in Hout. }
  destruct (has (Type_ r) EVT_NOTIFY_WAIT) eqn:Hw.
  2: { cbn [mbind result_bind]. eapply wp_mono; [by apply (clear_signal F)|].
       intros [Status s'] (Hb & _ & r' & Hr' & Hout). simplify_eq. by rewrite Hc in Hout. }
  destruct (enter_event F s Hr) as (s1 & -> & Hin & Hd). cbn [mbind result_bind].
  rewrite Hd, (event_live _ _ _ Hre). cbn [mbind result_bind]. rewrite Hc. cbn [Z.eqb]. rewrite <-Hd in Hre, He, Hi.
  destruct (CoreNotifyEvent_spec Verify Max F e r s1) as (h' & -> & Hi2); try done.
  { by apply wait_function. } { exact (inside_acquired s s1 Hin). }
  cbn [mbind result_bind].
  assert (Hq : Z.lor (gEventPending (data s)) (2 ^ NotifyTpl r) < 2 ^ (gEfiCurrentTpl s + 1)).
  { rewrite Hd in Hi, Hre. apply set_bit_quiet; [apply (inv_range _ F _ Hi)| |apply Hr].
    split; [apply (ok_tpl r Hok)|by apply Htpl]. }
  eapply wp_bind.
  { eapply (leave_quiet F); try done; [by apply inside_data|]. right. simpl. by rewrite Hd. }
  intros s2 [Hd2 Hb2]. simpl in Hd2.
  assert (Hr2 : ready (enqueue e r F) s2).
  { apply (ready_back F _ s); rewrite ?Hd2; try done. unfold quiet. simpl. by rewrite Hd. }
  eapply wp_mono; [by apply (clear_signal (enqueue e r F))|].
  intros [Status s'] (Hb & _ & r' & Hr' & Hout). rewrite Hd2 in Hr', Hout. simpl in Hr'. rewrite Hre in Hr'.
  injection Hr' as <-. rewrite Hc in Hout. simpl in Hout. destruct Hout as [-> Hds].
  split; [by transitivity s2|]. split; [done|]. rewrite Hds, Hd in *. split; [by exists h'|done].
Qed.

(** ** Signalling from a timer *)

(** What signalling does, when nothing is dispatched: events get signalled,
    notifications are queued. *)
Record signals_only (F : lists) (d : EventData) (F' : lists) (d' : EventData) : Prop := {
  so_live : live d' = live d;
  so_time : mEfiSystemTime d' = mEfiSystemTime d;
  so_timer_event : mEfiCheckTimerEvent d' = mEfiCheckTimerEvent d;
  so_notified : Notified d' = Notified d;
  so_lists : forall hd, other_head hd -> F' !! hd = F !! hd;
  so_events : forall e r, events d !! e = Some r -> exists n, events d' !! e = Some (set_SignalCount n r) /\
    (SignalCount r <> 0 -> n <> 0) }.

Lemma signals_only_refl F d : signals_only F d F d.
Proof. split; try done. intros e r Hr. exists (SignalCount r). by destruct r. Qed.

Lemma enqueue_lists e r (F : lists) hd : event_ok r -> other_head hd -> (forall l, F !! hd = Some l -> node e NotifySlot ∉ l) ->
  enqueue e r F !! hd = F !! hd.
Proof.
  intros Hok Hhd Hno. unfold enqueue.
  rewrite lookup_alter_ne by (intros Heq; by apply (other_head_queue hd (NotifyTpl r) Hhd (ok_tpl r Hok))).
  rewrite lookup_del. destruct (F !! hd) as [l|]; [|done]. simpl. f_equal. by apply filter_absent, Hno.
Qed.

Lemma enqueue_all_lists F d d1 es hd : inv F d -> events d1 = events d -> Forall (fun e => e ∈ live d) es -> other_head hd ->
  enqueue_all d1 es F !! hd = F !! hd.
Proof.
  intros Hi Hev Hes Hhd. unfold enqueue_all. rewrite Hev.
  enough (forall F1, F1 !! hd = F !! hd -> foldl (fun F e => match events d !! e with
    | Some r => enqueue e r F | None => F end) F1 es !! hd = F !! hd) by auto.
  induction Hes as [|e es He Hes IH]; intros F1 HF1; [done|]. simpl. apply IH.
  destruct (live_record Max F d Hi e He) as (r & Hr & _ & Hok). rewrite Hr, <-HF1. apply enqueue_lists; [done|done|].
  rewrite HF1. intros l Hl Hin. destruct (member_home Max F d Hi hd e r NotifySlot) as [_ Heq];
    [by exists l|by apply (live_block Max F d)|done|]. simpl in Heq.
  by apply (other_head_queue hd (NotifyTpl r) Hhd (ok_tpl r Hok)).
Qed.

Lemma to_notify_live F d e r : inv F d -> e ∈ live d -> Forall (fun e => e ∈ live d) (to_notify F d e r).
Proof.
  intros Hi He. unfold to_notify. destruct (_ && _); [|done]. destruct (has _ _); [|by repeat constructor].
  destruct (signal_nodes F d Hi) as (es & _ & -> & Hes). unfold group_members. rewrite Forall_forall in *.
  intros x [_ Hx]%list_elem_of_filter. by apply Hes.
Qed.

(** At the TPL of the timers, whatever the event. *)
(** What signalling [e] does before anything is dispatched; a dead event is
    left alone. *)
Definition signalled (F : lists) (d : EventData) (e : ptr) (F' : lists) (d' : EventData) : Prop :=
  match events d !! e with
  | Some r =>
      if bool_decide (e ∈ live d) then
        let d1 := mark e r d in
        let ns := to_notify F d1 e r in
        F' = enqueue_all d1 ns F /\ relinked d1 d' (pend_all d1 ns (gEventPending d))
      else F' = F /\ d' = d
  | None => F' = F /\ d' = d
  end.

Lemma signal_at_timer_tpl F e s : ready F s -> TPL_HIGH_LEVEL - 1 <= gEfiCurrentTpl s -> valid e ->
  wp total (CoreSignalEvent Verify Max restore e s) (fun '(_, s') => back s s' /\ exists F', ready F' s' /\
    signals_only F (data s) F' (data s') /\ signalled F (data s) e F' (data s') /\
    (e ∈ live (data s) -> forall r, events (data s') !! e = Some r -> SignalCount r <> 0)).
Proof.
  intros Hr Ht Hv. pose proof (ready_inv _ _ Hr) as Hi.
  destruct (bad_event_spec F (data s) e Hi Hv) as [[Hbad Hdead]|(_ & He & r & Hre & Hok)].
  { unfold CoreSignalEvent. rewrite Hbad. cbn [mbind result_bind wp]. split; [done|]. exists F.
    split; [done|]. split; [apply signals_only_refl|]. split; [|done]. unfold signalled.
    rewrite bool_decide_false by done. by destruct (events (data s) !! e). }
  pose proof (live_block _ F _ Hi e He) as HeB.
  eapply wp_mono; [apply (CoreSignalEvent_quiet F e r s Hr He Hre); by left|].
  intros [Status s'] (_ & Hb & Hrel & Hi'). split; [done|]. eexists. split; [|split; [|split]].
  - apply (ready_back F _ s); try done. apply (quiet_high _ _ _ Hi'). by left.
  - pose proof (inv_mark F _ e r Hi HeB Hre) as Hi1.
    assert (Hl1 : live (mark e r (data s)) = live (data s)) by (unfold mark; by destruct (_ =? _)).
    destruct Hrel as [h ->]. split; try (unfold mark; by destruct (_ =? _)).
    + intros hd Hhd. apply (enqueue_all_lists F (mark e r (data s))); try done.
      apply to_notify_live; [done|]. by rewrite Hl1.
    + intros e' r' Hr'. simpl. unfold mark. destruct (Z.eqb_spec (SignalCount r) 0) as [Hc|Hc].
      2: { exists (SignalCount r'). by destruct r'. }
      simpl. destruct (decide (e' = e)) as [->|Hne].
      * exists 1. rewrite lookup_insert_eq. by simplify_eq.
      * exists (SignalCount r'). rewrite lookup_insert_ne by done. by destruct r'.
  - unfold signalled. rewrite Hre, bool_decide_true by done. by split.
  - intros _ r' Hr'. destruct Hrel as [h Hd']. rewrite Hd' in Hr'. simpl in Hr'. unfold mark in Hr'.
    destruct (Z.eqb_spec (SignalCount r) 0) as [Hc|Hc]; simpl in Hr'; [|by simplify_eq].
    rewrite lookup_insert_eq in Hr'. by injection Hr' as <-.
Qed.

(** ** Timers *)

(** Inside the critical section of the timers. *)
Lemma timer_ready F F1 s s1 : ready F s -> gEfiCurrentTpl s <= TPL_HIGH_LEVEL - 1 -> inside TimerLock s s1 ->
  inv F1 (data s1) -> ready F1 s1.
Proof.
  intros Hr Ht Hin Hi. pose proof (inside_tpl _ _ _ Hin) as Htpl. split; [done| | |].
  - by apply (inside_calm TimerLock s); [apply Hr| | |].
  - rewrite Htpl. done.
  - apply (quiet_high F1); [done|]. left. rewrite Htpl. simpl. lia.
Qed.

Lemma inside_back l s s1 s2 : inside l s s1 -> back s1 s2 -> inside l s s2.
Proof.
  intros [H1 H2 H3] [Ht Hk]. split; [congruence| |].
  - destruct (Hk l) as (_ & _ & Heq). rewrite H2 in Heq. by rewrite Heq.
  - intros l' Hne. etransitivity; [by apply H3|apply Hk].
Qed.

Lemma enter_timer F s : ready F s -> gEfiCurrentTpl s <= TPL_HIGH_LEVEL - 1 -> Acquired (mEfiTimerLock s) = false ->
  exists s1, CoreAcquireLock TimerLock s = Ok s1 /\ inside TimerLock s s1 /\ data s1 = data s.
Proof. intros Hr Ht Ha. by apply (enter F). Qed.

Lemma timer_acquired s s1 : inside TimerLock s s1 -> Acquired (mEfiTimerLock s1) = true.
Proof. intros [_ Hl _]. simpl in Hl. by rewrite Hl. Qed.

Lemma CoreCurrentSystemTime_spec F s : ready F s -> gEfiCurrentTpl s < TPL_HIGH_LEVEL ->
  wp total (CoreCurrentSystemTime restore s) (fun '(Time, s') => Time = mEfiSystemTime (data s) /\
    data s' = data s /\ back s s').
Proof.
  intros Hr Ht. pose proof (ready_inv _ _ Hr) as Hi.
  assert (Hfree : Acquired (get_lock SystemTimeLock s) = false).
  { destruct (Acquired _) eqn:E; [|done]. destruct (calm_held _ _ (ready_calm _ _ Hr) _ E) as [_ Hl]. simpl in Hl. lia. }
  unfold CoreCurrentSystemTime. destruct (enter F SystemTimeLock s) as (s1 & -> & Hin & Hd); [done|simpl; lia|done|].
  cbn [mbind result_bind]. eapply wp_bind.
  { apply (release_quiet F SystemTimeLock s s1); rewrite ?Hd; try done; [simpl; lia|apply (inv_range _ F _ Hi)|apply Hr]. }
  intros s' [Hds Hb]. simpl. by rewrite Hds, Hd.
Qed.

(** *** One pass of [CoreCheckTimers] *)

(** The timer [e] has changed, and other events got signalled. *)
Record kept_but (e : ptr) (d d' : EventData) : Prop := {
  kb_live : live d' = live d;
  kb_time : mEfiSystemTime d' = mEfiSystemTime d;
  kb_timer_event : mEfiCheckTimerEvent d' = mEfiCheckTimerEvent d;
  kb_notified : Notified d' = Notified d;
  kb_events : forall e' r, e' <> e -> events d !! e' = Some r -> exists r', events d' !! e' = Some r' /\
    TriggerTime r' = TriggerTime r /\ Period r' = Period r /\ (SignalCount r <> 0 -> SignalCount r' <> 0) }.

#[export] Instance kept_but_preorder e : PreOrder (kept_but e).
Proof.
  split; [intros d; split; by eauto|]. intros d1 d2 d3 [] []. split; try congruence.
  intros e' r Hne Hr. destruct (kb_events0 e' r Hne Hr) as (r2 & Hr2 & ? & ? & ?).
  destruct (kb_events1 e' r2 Hne Hr2) as (r3 & Hr3 & ? & ? & ?). exists r3. split; [done|]. split; [congruence|].
  split; [congruence|auto].
Qed.

Lemma signals_kept e F d F' d' : signals_only F d F' d' -> kept_but e d d'.
Proof.
  intros []. split; try done. intros e' r _ Hr. destruct (so_events0 e' r Hr) as (n & Hn & ?). eauto.
Qed.

Lemma update_kept e d r : kept_but e d (set_events (<[e := r]> (events d)) d).
Proof. split; try done. intros e' r' Hne Hr'. exists r'. simpl. by rewrite lookup_insert_ne. Qed.

Lemma links_kept e h d : kept_but e d (set_links h d).
Proof. split; try done. eauto. Qed.

(** When a periodic timer triggers next. *)
Definition rearmed (now : Z) (r : IEVENT) : Z :=
  let t := u64 (TriggerTime r + Period r) in if t <=? now then now else t.

(** The timer [e], first of the list, has fired. *)
Record fired (now : Z) (d : EventData) (e : ptr) (r : IEVENT) (l : list ptr) (F' : lists) (d' : EventData) : Prop := {
  fired_list : if Period r =? 0 then F' !! mEfiTimerList = Some l
    else exists l1 l2, l = l1 ++ l2 /\ F' !! mEfiTimerList = Some (l1 ++ node e TimerSlot :: l2);
  fired_event : exists r', events d' !! e = Some r' /\ SignalCount r' <> 0 /\ Period r' = Period r /\
    TriggerTime r' = (if Period r =? 0 then TriggerTime r else rearmed now r);
  fired_kept : kept_but e d d' }.

Lemma u64_range x : 0 <= u64 x < 2 ^ 64.
Proof. by apply wrap_bounds. Qed.

Lemma set_event_Ok f e r s : events (data s) !! e = Some r ->
  set_event f e s = Ok (set_data (set_events (<[e := f r]> (events (data s))) (data s)) s).
Proof. intros Hr. unfold set_event. by rewrite (update_event_Ok _ e r). Qed.

(** Changing the trigger time of an event that is not on the timer list. *)
Lemma ready_timer F s e r t p : ready F s -> e ∈ live (data s) -> events (data s) !! e = Some r ->
  (forall hd, ~ member F hd (node e TimerSlot)) -> 0 <= t < 2 ^ 64 -> 0 <= p < 2 ^ 64 ->
  ready F (set_data (set_events (<[e := set_Timer t p r]> (events (data s))) (data s)) s).
Proof.
  intros Hr He Hre Hno Ht Hp. pose proof (ready_inv _ _ Hr) as Hi. apply (ready_data F); [done| |apply Hr].
  apply (inv_update Max F (data s) e r); try done; [by apply (live_block Max F (data s))|auto].
Qed.

(** Firing an event of the list that is already taken out. *)
Lemma rearm_spec F now e r l s0 s : ready F s -> inside TimerLock s0 s -> 0 <= now < 2 ^ 64 ->
  gEfiCurrentTpl s0 <= TPL_HIGH_LEVEL - 1 ->
  e ∈ live (data s) -> events (data s) !! e = Some r -> has (Type_ r) EVT_TIMER = true -> SignalCount r <> 0 ->
  (forall hd, ~ member F hd (node e TimerSlot)) -> F !! mEfiTimerList = Some l -> Period r <> 0 ->
  wp total (
    let! s := set_event (fun e => set_Timer (u64 (TriggerTime e + Period e)) (Period e) e) e s in
    let! e' := event (data s) e in
    let! s := if TriggerTime e' <=? now then
        let! s := set_event (fun e => set_Timer now (Period e) e) e s in
        let! (_, s) := CoreSignalEvent Verify Max restore (mEfiCheckTimerEvent (data s)) s in Ok s
      else Ok s in
    let! s := CoreInsertEventTimer Verify Max e s in Ok (Some s))
  (fun o => match o with None => False | Some s' => inside TimerLock s0 s' /\ exists F', ready F' s' /\
     fired now (data s) e r l F' (data s') end).
Proof.
  intros Hr Hin Hnow Ht0 He Hre Hty Hc Hno Hl Hp. pose proof (ready_inv _ _ Hr) as Hi.
  destruct (inv_ok _ F _ Hi e r He Hre) as [_ _ _ _ _ Hpr].
  rewrite (set_event_Ok _ e r) by done. cbn [mbind result_bind].
  pose proof (ready_timer F s e r (u64 (TriggerTime r + Period r)) (Period r) Hr He Hre Hno (u64_range _) Hpr) as Hr1.
  set (r1 := set_Timer (u64 (TriggerTime r + Period r)) (Period r) r) in *.
  set (d1 := set_events (<[e := r1]> (events (data s))) (data s)) in *.
  assert (Hre1 : events d1 !! e = Some r1) by apply lookup_insert_eq.
  cbn [data set_data]. rewrite (event_live _ _ _ Hre1). cbn [mbind result_bind].
  assert (Htpl : gEfiCurrentTpl s = TPL_HIGH_LEVEL - 1) by apply (inside_tpl _ _ _ Hin).
  eapply wp_bind with (P := fun s5 => inside TimerLock s0 s5 /\ exists F5 r5, ready F5 s5 /\ F5 !! mEfiTimerList = Some l /\
    e ∈ live (data s5) /\ events (data s5) !! e = Some r5 /\ Type_ r5 = Type_ r /\ SignalCount r5 <> 0 /\ Period r5 = Period r /\
    TriggerTime r5 = rearmed now r /\ kept_but e (data s) (data s5)).
  - unfold rearmed. change (TriggerTime r1) with (u64 (TriggerTime r + Period r)).
    destruct (Z.leb_spec (u64 (TriggerTime r + Period r)) now) as [Hle|Hgt].
    2: { split; [by apply inside_data|]. exists F, r1. split; [done|]. split; [done|]. split; [done|]. split; [done|].
         split; [done|]. split; [done|]. split; [done|]. split; [done|]. apply update_kept. }
    rewrite (set_event_Ok _ e r1) by done. cbn [mbind result_bind]. cbn [data set_data].
    pose proof (ready_timer F (set_data d1 s) e r1 now (Period r) Hr1 He Hre1 Hno Hnow Hpr) as Hr2.
    cbn [data set_data] in Hr2. change (Period r1) with (Period r).
    set (r2 := set_Timer now (Period r) r1) in *.
    set (d2 := set_events (<[e := r2]> (events d1)) d1) in *.
    change (set_data d2 (set_data d1 s)) with (set_data d2 s) in *.
    eapply wp_bind; [apply (signal_at_timer_tpl F); [done|simpl; lia|]|].
    { apply (inv_timer_event _ F _ (ready_inv _ _ Hr2)). }
    intros [? s5] (Hb & F5 & Hr5 & Hso & _). cbn [wp]. cbn [data set_data] in Hso.
    split; [eapply inside_back; [by apply (inside_data _ _ s d2)|done]|].
    destruct (so_events _ _ _ _ Hso e r2) as (n & Hn & Hn0); [apply lookup_insert_eq|].
    exists F5, (set_SignalCount n r2). split; [done|].
    split; [rewrite (so_lists _ _ _ _ Hso); [done|right; by left]|].
    split; [by rewrite (so_live _ _ _ _ Hso)|]. split; [done|]. split; [done|]. split; [by apply Hn0|].
    split; [done|]. split; [done|].
    transitivity d1; [apply update_kept|]. transitivity d2; [apply update_kept|by apply (signals_kept e F d2 F5)].
  - intros s5 (Hin5 & F5 & r5 & Hr5 & Hl5 & He5 & Hre5 & Hty5 & Hc5 & Hp5 & Htr5 & Hk5).
    pose proof (ready_inv _ _ Hr5) as Hi5.
    assert (Hno5 : forall hd, ~ member F5 hd (node e TimerSlot)).
    { intros hd Hm. destruct (member_home Max F5 _ Hi5 hd e r5 TimerSlot Hm) as [_ ->];
        [by apply (live_block Max F5 (data s5))|done|]. destruct Hm as (l' & Hl' & Hin'). simpl in Hl'.
      apply (Hno mEfiTimerList). exists l. split; [done|]. by simplify_eq. }
    destruct (CoreInsertEventTimer_spec Verify Max F5 e r5 l s5) as (h' & l1 & l2 & -> & _ & _ & -> & Hi6); try done.
    { by rewrite Hty5. } { exact (timer_acquired _ _ Hin5). }
    cbn [mbind result_bind wp]. split; [by apply inside_data|]. eexists. split; [|split].
    + apply (ready_data F5); [done|exact Hi6|apply Hr5].
    + rewrite (proj2 (Z.eqb_neq _ _) Hp). exists l1, l2. split; [done|]. apply lookup_insert_eq.
    + exists r5. rewrite (proj2 (Z.eqb_neq _ _) Hp). done.
    + transitivity (data s5); [done|apply links_kept].
Qed.

Lemma trigger_node d e r : events d !! e = Some r -> trigger d (node e TimerSlot) = TriggerTime r.
Proof.
  intros Hr. unfold trigger, node. simpl. replace (e + OFFSET_TimerLink - OFFSET_TimerLink) with e by lia. by rewrite Hr.
Qed.

(** The first timer of the list. *)
Lemma first_timer F d x l : inv F d -> F !! mEfiTimerList = Some (x :: l) ->
  exists e r, x = node e TimerSlot /\ e ∈ live d /\ events d !! e = Some r /\ event_ok r /\
    has (Type_ r) EVT_TIMER = true /\ CR d x OFFSET_TimerLink = Ok e.
Proof.
  intros Hi Hl. assert (Hm : member F mEfiTimerList x) by (eexists; split; [done|left]).
  destruct (CR_member Max F d Hi _ _ Hm) as (e & k & r & He & Hre & Hok & -> & Hhd & _ & Hs & HCR).
  assert (k = TimerSlot) as -> by (by apply (home_slot k TimerSlot r r)). by exists e, r.
Qed.

Lemma timer_list F d : inv F d -> exists l, F !! mEfiTimerList = Some l.
Proof. intros Hi. apply (inv_heads _ F d Hi). right. by left. Qed.

Lemma CheckTimers_step_spec F now s0 s1 : ready F s1 -> inside TimerLock s0 s1 -> 0 <= now < 2 ^ 64 ->
  gEfiCurrentTpl s0 <= TPL_HIGH_LEVEL - 1 ->
  wp total (CheckTimers_step Verify Max restore now s1) (fun o => match o with
    | None => forall l x, F !! mEfiTimerList = Some l -> x ∈ l -> now < trigger (data s1) x
    | Some s' => inside TimerLock s0 s' /\ exists F' e r l, ready F' s' /\
        F !! mEfiTimerList = Some (node e TimerSlot :: l) /\ e ∈ live (data s1) /\ events (data s1) !! e = Some r /\
        TriggerTime r <= now /\ fired now (data s1) e r l F' (data s')
    end).
Proof.
  intros Hr Hin Hnow Ht0. pose proof (ready_inv _ _ Hr) as Hi. unfold CheckTimers_step.
  destruct (timer_list F _ Hi) as [l Hl].
  rewrite (family_IsListEmpty Max (links (data s1)) F mEfiTimerList l) by
    (first [apply Hi|done|by apply (list_capacity Max F (data s1) Hi mEfiTimerList)]).
  cbn [mbind result_bind]. destruct l as [|x l].
  { simpl. intros l' x Hl'. rewrite Hl in Hl'. injection Hl' as <-. by intros ?%elem_of_nil. }
  rewrite bool_decide_false by done.
  destruct (family_first (links (data s1)) F mEfiTimerList (x :: l)) as (n & -> & Hn); [apply Hi|done|].
  cbn [mbind result_bind List.hd] in *. rewrite Hn.
  destruct (first_timer F _ x l Hi Hl) as (e & r & -> & He & Hre & Hok & Hty & ->). cbn [mbind result_bind].
  pose proof (live_block Max F _ Hi e He) as HeB.
  rewrite (event_live _ _ _ Hre). cbn [mbind result_bind]. rewrite Z.gtb_ltb.
  destruct (Z.ltb_spec now (TriggerTime r)) as [Hlt|Hge].
  { cbn [wp]. intros l' y Hl' Hy. rewrite Hl in Hl'. injection Hl' as <-.
    pose proof (inv_sorted _ F _ Hi _ Hl) as Hs. inversion Hs as [|? ? _ Hall]; subst.
    rewrite <-(trigger_node _ _ _ Hre) in Hlt. apply elem_of_cons in Hy as [->|Hy]; [done|].
    rewrite Forall_forall in Hall. specialize (Hall y Hy). simpl in Hall. lia. }
  change (e + OFFSET_TimerLink) with (node e TimerSlot).
  destruct (unlink_and_clear_spec Max F (data s1) e TimerSlot r) as (h1 & -> & Hi1); try done.
  { eexists. split; [exact Hl|left]. }
  cbn [mbind result_bind]. set (F1 := del (node e TimerSlot) F) in *.
  assert (Hl1 : F1 !! mEfiTimerList = Some l).
  { unfold F1. rewrite lookup_del, Hl. simpl. f_equal. rewrite filter_cons_False by tauto.
    apply filter_absent. destruct (family_NoDup _ _ _ _ (inv_family _ F _ Hi) Hl) as [Hnd _].
    by apply NoDup_cons in Hnd as [? _]. }
  assert (Hno1 : forall hd, ~ member F1 hd (node e TimerSlot)) by (intros hd [_ ?]%member_del; congruence).
  assert (Hr1 : ready F1 (set_data (set_links h1 (data s1)) s1)) by (apply (ready_data F); [done|done|apply Hr]).
  eapply wp_bind; [apply (signal_at_timer_tpl F1); [done| |by right]|].
  { simpl. rewrite (inside_tpl _ _ _ Hin). simpl. lia. }
  intros [? s2] (Hb2 & F2 & Hr2 & Hso & _ & Hsig). cbn [data set_data] in Hso, Hsig.
  assert (Hin2 : inside TimerLock s0 s2) by (eapply inside_back; [by apply (inside_data _ _ s1)|done]).
  destruct (so_events _ _ _ _ Hso e r Hre) as (m & Hre2 & _).
  specialize (Hsig He _ Hre2). rewrite (event_live _ _ _ Hre2). cbn [mbind result_bind].
  assert (Hl2 : F2 !! mEfiTimerList = Some l) by (rewrite (so_lists _ _ _ _ Hso); [done|right; by left]).
  assert (Hkept : kept_but e (data s1) (data s2)).
  { transitivity (set_links h1 (data s1)); [apply links_kept|by apply (signals_kept e F1 _ F2)]. }
  change (Period (set_SignalCount m r)) with (Period r). destruct (Z.eqb_spec (Period r) 0) as [Hp|Hp]; cbn [negb].
  - cbn [wp]. split; [done|]. exists F2, e, r, l. repeat (split; [done|]).
    split; rewrite ?Hp; [done|eauto 10|done].
  - eapply wp_mono.
    { apply (rearm_spec F2 now e (set_SignalCount m r) l s0 s2); try done.
      - by rewrite (so_live _ _ _ _ Hso).
      - intros hd Hm. assert (He2 : e ∈ live (data s2)) by (by rewrite (so_live _ _ _ _ Hso)).
        destruct (member_home Max F2 _ (ready_inv _ _ Hr2) hd e _ TimerSlot Hm HeB Hre2) as [_ ->].
        destruct Hm as (l' & Hl' & Hx). simpl in Hl'. apply (Hno1 mEfiTimerList). exists l. by simplify_eq. }
    intros [s'|] Hs'; [|done]. destruct Hs' as (Hin' & F' & Hr' & [H1 (r' & Hr'e & Hc' & Hp' & Ht') H3]).
    split; [done|]. exists F', e, r, l. repeat (split; [done|]).
    split; [done|by exists r'|by transitivity (data s2)].
Qed.

(** *** The loop *)

Lemma CheckTimers_loop_any fuel now F s0 s1 : total = false -> ready F s1 -> inside TimerLock s0 s1 ->
  0 <= now < 2 ^ 64 -> gEfiCurrentTpl s0 <= TPL_HIGH_LEVEL - 1 ->
  wp false (CheckTimers_loop Verify Max restore fuel now s1) (fun s' => inside TimerLock s0 s' /\ exists F', ready F' s').
Proof.
  intros Htot. revert F s1. induction fuel as [|fuel IH]; intros F s1 Hr Hin Hnow Ht0; [done|].
  cbn [CheckTimers_loop]. eapply wp_bind; [by apply (wp_partial total), (CheckTimers_step_spec F now s0)|].
  intros [s2|] Hs2; [|by split; [|exists F]]. destruct Hs2 as (Hin2 & F2 & e & r & l & Hr2 & _). by apply (IH F2).
Qed.

Lemma CoreCheckTimers_any fuel F s : total = false -> ready F s -> gEfiCurrentTpl s <= TPL_HIGH_LEVEL - 1 ->
  Acquired (mEfiTimerLock s) = false ->
  wp false (CoreCheckTimers Verify Max restore fuel s) (done_any s).
Proof.
  intros Htot Hr Ht Ha. unfold CoreCheckTimers. destruct (enter_timer F s Hr Ht Ha) as (s1 & -> & Hin & Hd).
  cbn [mbind result_bind]. pose proof (ready_inv _ _ Hr) as Hi. rewrite <-Hd in Hi.
  pose proof (timer_ready F F s s1 Hr Ht Hin Hi) as Hr1.
  eapply wp_bind; [apply (wp_partial total), (CoreCurrentSystemTime_spec F); [done|rewrite (inside_tpl _ _ _ Hin); simpl; lia]|].
  intros [now s2] (-> & Hd2 & Hb2). assert (Hin2 : inside TimerLock s s2) by (by eapply inside_back).
  eapply wp_bind; [apply (CheckTimers_loop_any fuel _ F s)|]; try done.
  - apply (ready_back F F s1); rewrite ?Hd2; try done. apply Hr1.
  - apply (inv_time _ F _ Hi).
  - intros s3 (Hin3 & F3 & Hr3). apply (release_any F TimerLock s s3 Hr Ht Hin3 Ha F3); [done|apply Hr3].
Qed.

(** *** What [CoreCheckTimers] does to the timers *)

(** The first time after [now] at which an expired periodic timer triggers. *)
Definition next_trigger (now : Z) (r : IEVENT) : Z :=
  if TriggerTime r + Period r <=? now then now + Period r else TriggerTime r + Period r.

(** Timers expired at [now] have been signalled, and are stopped or triggered
    again later; all others are as they were. *)
Definition timers_checked (now : Z) (F : lists) (d : EventData) (F' : lists) (d' : EventData) : Prop :=
  forall e r, e ∈ live d -> events d !! e = Some r -> exists r', events d' !! e = Some r' /\
    Period r' = Period r /\ (SignalCount r <> 0 -> SignalCount r' <> 0) /\
    (member F mEfiTimerList (node e TimerSlot) /\ TriggerTime r <= now /\ SignalCount r' <> 0 /\
       (Period r = 0 /\ ~ member F' mEfiTimerList (node e TimerSlot) \/
        Period r <> 0 /\ member F' mEfiTimerList (node e TimerSlot) /\ TriggerTime r' = next_trigger now r) \/
     (~ member F mEfiTimerList (node e TimerSlot) \/ now < TriggerTime r) /\ TriggerTime r' = TriggerTime r /\
       (member F' mEfiTimerList (node e TimerSlot) <-> member F mEfiTimerList (node e TimerSlot))).

(** Re-arming the periodic timers that have expired does not overflow. *)
Definition no_overflow (now : Z) (F : lists) (d : EventData) : Prop :=
  forall e r, member F mEfiTimerList (node e TimerSlot) -> events d !! e = Some r -> TriggerTime r <= now ->
    now + Period r < 2 ^ 64.

Lemma rearmed_exact now r : TriggerTime r <= now -> now + Period r < 2 ^ 64 -> 0 <= TriggerTime r -> 0 <= Period r ->
  rearmed now r = if TriggerTime r + Period r <=? now then now else TriggerTime r + Period r.
Proof. intros. unfold rearmed. by rewrite wrap_small by lia. Qed.

Section Fired.
Context (now : Z) (F : lists) (d : EventData) (e : ptr) (r : IEVENT) (l : list ptr) (F' : lists) (d' : EventData).
Context (Hi : inv F d) (Hi' : inv F' d') (Hl : F !! mEfiTimerList = Some (node e TimerSlot :: l))
  (He : e ∈ live d) (Hre : events d !! e = Some r) (Hle : TriggerTime r <= now) (Hov : no_overflow now F d)
  (Hf : fired now d e r l F' d').

Lemma fired_first : member F mEfiTimerList (node e TimerSlot).
Proof. eexists. split; [exact Hl|left]. Qed.

Lemma fired_not_in : node e TimerSlot ∉ l.
Proof. destruct (family_NoDup _ _ _ _ (inv_family _ F d Hi) Hl) as [Hnd _]. by apply NoDup_cons in Hnd as [? _]. Qed.

Lemma fired_other e' : e' ∈ live d -> e' <> e ->
  member F' mEfiTimerList (node e' TimerSlot) <-> member F mEfiTimerList (node e' TimerSlot).
Proof.
  intros He' Hne. assert (Hx : node e' TimerSlot <> node e TimerSlot).
  { intros Heq. by destruct (node_inj Max e' e TimerSlot TimerSlot (live_block _ F d Hi e' He') (live_block _ F d Hi e He) Heq). }
  pose proof (fired_list _ _ _ _ _ _ _ Hf) as Hlist. unfold member. rewrite Hl.
  destruct (Period r =? 0).
  - rewrite Hlist. split.
    + intros (l0 & [= <-] & Hin). eexists. split; [done|]. by right.
    + intros (l0 & [= <-] & Hin). eexists. split; [done|]. by apply elem_of_cons in Hin as [?|].
  - destruct Hlist as (l1 & l2 & Hl12 & ->). rewrite Hl12. split.
    + intros (l0 & [= <-] & Hin). eexists. split; [done|]. clear -Hin Hx. set_solver.
    + intros (l0 & [= <-] & Hin). eexists. split; [done|]. clear -Hin Hx. set_solver.
Qed.

Lemma fired_self : member F' mEfiTimerList (node e TimerSlot) <-> Period r <> 0.
Proof.
  pose proof (fired_list _ _ _ _ _ _ _ Hf) as Hlist. unfold member.
  destruct (Z.eqb_spec (Period r) 0) as [Hp|Hp].
  - rewrite Hlist. split; [|done]. intros (l0 & [= <-] & Hin). by destruct fired_not_in.
  - destruct Hlist as (l1 & l2 & _ & ->). split; [done|]. intros _. eexists. split; [done|]. clear. set_solver.
Qed.

Lemma fired_range : 0 <= TriggerTime r < 2 ^ 64 /\ 0 <= Period r < 2 ^ 64 /\ now + Period r < 2 ^ 64.
Proof.
  destruct (inv_ok _ F d Hi e r He Hre) as [_ _ _ _ Ht Hp]. split; [done|]. split; [done|].
  by apply (Hov e r fired_first).
Qed.

Lemma fired_no_overflow : no_overflow now F' d'.
Proof.
  destruct fired_range as (Ht & Hp & Ho).
  intros e' r' Hm Hr' Hle'. destruct (inv_member _ F' d' Hi' _ _ Hm) as (e2 & k & r2 & He2 & _ & Heq & _).
  assert (He' : e' ∈ live d).
  { rewrite (kb_live _ _ _ (fired_kept _ _ _ _ _ _ _ Hf)) in He2. assert (k = TimerSlot /\ e' = e2) as [_ ->]; [|done].
    pose proof Hm as (l' & Hl' & Hx). destruct (list_nodes Max F' d' Hi' _ _ Hl') as (k' & es & -> & _ & Hes).
    apply list_elem_of_fmap in Hx as (e3 & Heq3 & Hin3). rewrite Forall_forall in Hes.
    destruct (Hes e3 Hin3) as (Hl3 & r3 & Hr3 & Hhd3).
    assert (k' = TimerSlot) as ->.
    { apply (home_slot k' TimerSlot r3 r3); [by eapply (inv_ok _ F' d')..|done]. }
    assert (e' = e3) as -> by (unfold node in Heq3; lia).
    destruct (node_inj Max e3 e2 TimerSlot k) as [-> <-]; try done.
    - by apply (live_block _ F' d').
    - apply (live_block _ F' d'); [done|]. by rewrite (kb_live _ _ _ (fired_kept _ _ _ _ _ _ _ Hf)). }
  destruct (decide (e' = e)) as [->|Hne].
  - destruct (fired_event _ _ _ _ _ _ _ Hf) as (r1 & Hr1 & _ & Hp1 & _). simplify_eq. by rewrite Hp1.
  - destruct (inv_events _ F d Hi e' (live_block _ F d Hi e' He')) as (r0 & Hr0 & _).
    destruct (kb_events _ _ _ (fired_kept _ _ _ _ _ _ _ Hf) e' r0 Hne Hr0) as (r1 & Hr1 & Ht1 & Hp1 & _). simplify_eq.
    rewrite Hp1. apply (Hov e' r0); [by apply fired_other|done|lia].
Qed.

Lemma fired_trans F2 d2 : timers_checked now F' d' F2 d2 -> timers_checked now F d F2 d2.
Proof.
  destruct fired_range as (Ht & Hp & Ho).
  intros Hck e0 r0 He0 Hr0. pose proof (fired_kept _ _ _ _ _ _ _ Hf) as Hk.
  assert (He0' : e0 ∈ live d') by (by rewrite (kb_live _ _ _ Hk)).
  destruct (decide (e0 = e)) as [->|Hne].
  - rewrite Hre in Hr0. injection Hr0 as <-.
    destruct (fired_event _ _ _ _ _ _ _ Hf) as (r1 & Hr1 & Hc1 & Hp1 & Ht1).
    destruct (Hck e r1 He0' Hr1) as (r2 & Hr2 & Hp2 & Hc2 & Hcase). exists r2.
    split; [done|]. split; [congruence|]. specialize (Hc2 Hc1). split; [done|]. left.
    split; [apply fired_first|]. split; [done|]. split; [done|].
    rewrite fired_self in Hcase. rewrite Hp1, Ht1 in Hcase. unfold next_trigger in *. rewrite Ht1, Hp1 in Hcase.
    destruct (Z.eqb_spec (Period r) 0) as [Hz|Hz].
    + left. split; [done|]. destruct Hcase as [(? & _)|(_ & _ & Hm)]; [done|]. rewrite Hm. tauto.
    + right. split; [done|]. rewrite (rearmed_exact now r) in Hcase by lia.
      destruct (Z.leb_spec (TriggerTime r + Period r) now) as [Hlt|Hgt].
      * destruct Hcase as [(_ & _ & _ & [[? _]|(_ & Hm & Htr)])|([?|?] & _)]; [done| |tauto|lia].
        split; [done|]. rewrite Htr. destruct (Z.leb_spec (now + Period r) now); lia.
      * destruct Hcase as [(_ & ? & _)|(_ & Htr & Hm)]; [lia|]. split; [by apply Hm|done].
  - destruct (kb_events _ _ _ Hk e0 r0 Hne Hr0) as (r1 & Hr1 & Ht1 & Hp1 & Hc1).
    destruct (Hck e0 r1 He0' Hr1) as (r2 & Hr2 & Hp2 & Hc2 & Hcase). exists r2.
    split; [done|]. split; [congruence|]. split; [auto|].
    rewrite fired_other in Hcase by done. unfold next_trigger in *. rewrite Ht1, Hp1 in Hcase. done.
Qed.
End Fired.

Lemma checked_refl now F d : (forall l x, F !! mEfiTimerList = Some l -> x ∈ l -> now < trigger d x) ->
  timers_checked now F d F d.
Proof.
  intros Hlater e r He Hr. exists r. split; [done|]. split; [done|]. split; [done|]. right. split; [|done].
  destruct (F !! mEfiTimerList) as [l|] eqn:E.
  - destruct (decide (node e TimerSlot ∈ l)) as [Hin|Hin].
    + right. rewrite <-(trigger_node d e r) by done. by eapply Hlater.
    + left. intros (l' & Hl' & Hx). rewrite E in Hl'. by injection Hl' as <-.
  - left. intros (l' & Hl' & _). simplify_eq.
Qed.

(** *** Termination *)

(** Passes of the loop that a timer may still cause: none if it triggers later,
    two if it lags behind by more than its period. *)
Definition weight (now : Z) (r : IEVENT) : nat :=
  if TriggerTime r <=? now then
    if (Period r =? 0) || (now <? TriggerTime r + Period r) then 1 else 2
  else 0.

Definition weight_at (now : Z) (d : EventData) (x : ptr) : nat :=
  match events d !! (x - OFFSET_TimerLink) with Some r => weight now r | None => 0%nat end.

Definition mass (now : Z) (d : EventData) (l : list ptr) : nat := sum_list_with (weight_at now d) l.

Lemma weight_node now d e r : events d !! e = Some r -> weight_at now d (node e TimerSlot) = weight now r.
Proof.
  intros Hr. unfold weight_at, node. simpl. replace (e + OFFSET_TimerLink - OFFSET_TimerLink) with e by lia. by rewrite Hr.
Qed.

Lemma weight_bound now d x : (weight_at now d x <= 2)%nat.
Proof.
  unfold weight_at. destruct (events d !! _) as [r|]; [|lia]. unfold weight.
  destruct (_ <=? _); [|lia]. destruct (_ || _); lia.
Qed.

Lemma mass_bound now d l : (mass now d l <= 2 * length l)%nat.
Proof. induction l as [|x l IH]; simpl; [done|]. pose proof (weight_bound now d x). unfold mass in *. lia. Qed.

Lemma mass_same now d d' l : Forall (fun x => weight_at now d' x = weight_at now d x) l -> mass now d' l = mass now d l.
Proof. intros Hs. induction Hs as [|x l Hx _ IH]; [done|]. unfold mass in *. simpl. by rewrite Hx, IH. Qed.

(** Firing the first timer makes the mass smaller. *)
Lemma fired_mass now F d e r l F' d' l' :
  inv F d -> inv F' d' -> F !! mEfiTimerList = Some (node e TimerSlot :: l) -> e ∈ live d -> events d !! e = Some r ->
  TriggerTime r <= now -> no_overflow now F d -> fired now d e r l F' d' -> F' !! mEfiTimerList = Some l' ->
  (mass now d' l' < mass now d (node e TimerSlot :: l))%nat.
Proof.
  intros Hi Hi' Hl He Hre Hle Hov Hf Hl'.
  destruct (fired_range now F d e r l Hi Hl He Hre Hle Hov) as (Ht & Hp & Ho).
  assert (Hsame : Forall (fun x => weight_at now d' x = weight_at now d x) l).
  { destruct (list_nodes Max F d Hi _ _ Hl) as (k & es & Hes & Hnd & Hall).
    destruct es as [|e0 es]; [done|]. injection Hes as Hx ->.
    apply Forall_cons in Hall as [(He0 & r0 & Hr0 & Hhd) Hall].
    assert (k = TimerSlot) as -> by (by apply (home_slot k TimerSlot r0 r0); [eapply (inv_ok _ F d)..|]).
    assert (e0 = e) as -> by (unfold node in Hx; lia).
    apply NoDup_cons in Hnd as [Hnin _]. apply Forall_fmap. rewrite Forall_forall in *. intros e' He'.
    simpl. destruct (Hall e' He') as (_ & r' & Hr' & _).
    destruct (kb_events _ _ _ (fired_kept _ _ _ _ _ _ _ Hf) e' r') as (r2 & Hr2 & Ht2 & Hp2 & _); [by intros ->|done|].
    rewrite (weight_node now d' e' r2), (weight_node now d e' r') by done. unfold weight. by rewrite Ht2, Hp2. }
  pose proof (mass_same now d d' l Hsame) as Hm. unfold mass in *. simpl. rewrite (weight_node now d e r) by done.
  destruct (fired_event _ _ _ _ _ _ _ Hf) as (r1 & Hr1 & _ & Hp1 & Ht1).
  pose proof (fired_list _ _ _ _ _ _ _ Hf) as Hlist. unfold weight at 1.
  rewrite (proj2 (Z.leb_le _ _) Hle). destruct (Z.eqb_spec (Period r) 0) as [Hz|Hz]; cbn [orb].
  - rewrite Hlist in Hl'. injection Hl' as <-. lia.
  - destruct Hlist as (l1 & l2 & -> & Hlist). rewrite Hlist in Hl'. injection Hl' as <-.
    rewrite !sum_list_with_app in *. simpl. rewrite (weight_node now d' e r1) by done. unfold weight.
    rewrite Ht1, Hp1, (rearmed_exact now r), (proj2 (Z.eqb_neq _ _) Hz) by lia. cbn [orb].
    destruct (Z.leb_spec (TriggerTime r + Period r) now), (Z.ltb_spec now (TriggerTime r + Period r)); try lia.
    + rewrite Z.leb_refl, (proj2 (Z.ltb_lt _ _)) by lia. lia.
    + rewrite (proj2 (Z.leb_gt _ _)) by lia. lia.
Qed.

Lemma CheckTimers_loop_spec fuel now F s0 s1 l : ready F s1 -> inside TimerLock s0 s1 -> 0 <= now < 2 ^ 64 ->
  gEfiCurrentTpl s0 <= TPL_HIGH_LEVEL - 1 -> no_overflow now F (data s1) ->
  F !! mEfiTimerList = Some l -> (total = true -> (mass now (data s1) l < fuel)%nat) ->
  wp total (CheckTimers_loop Verify Max restore fuel now s1) (fun s' => inside TimerLock s0 s' /\ exists F', ready F' s' /\
    timers_checked now F (data s1) F' (data s') /\
    (forall l' x, F' !! mEfiTimerList = Some l' -> x ∈ l' -> now < trigger (data s') x)).
Proof.
  revert F s1 l. induction fuel as [|fuel IH]; intros F s1 l Hr Hin Hnow Ht0 Hov Hl Hfuel.
  { simpl. destruct total; [|done]. specialize (Hfuel eq_refl). lia. }
  cbn [CheckTimers_loop]. eapply wp_bind; [by apply (CheckTimers_step_spec F now s0)|].
  intros [s2|] Hs2.
  2: { split; [done|]. exists F. split; [done|]. split; [by apply checked_refl|done]. }
  destruct Hs2 as (Hin2 & F2 & e & r & l0 & Hr2 & Hl0 & He & Hre & Hle & Hf).
  rewrite Hl in Hl0. injection Hl0 as ->. pose proof (ready_inv _ _ Hr) as Hi. pose proof (ready_inv _ _ Hr2) as Hi2.
  destruct (timer_list F2 _ Hi2) as [l2 Hl2].
  pose proof (fired_mass now F (data s1) e r l0 F2 (data s2) l2 Hi Hi2 Hl He Hre Hle Hov Hf Hl2) as Hm.
  eapply wp_mono; [apply (IH F2 s2 l2); try done|].
  - by eapply (fired_no_overflow now F (data s1) e r l0).
  - intros Ht. specialize (Hfuel Ht). lia.
  - intros s' (Hin' & F' & Hr' & Hck & Hlater). split; [done|]. exists F'. split; [done|]. split; [|done].
    by eapply (fired_trans now F (data s1) e r l0).
Qed.

(** *** The whole function, at the TPL at which it runs *)

Lemma CoreCheckTimers_quiet fuel F s : ready F s -> gEfiCurrentTpl s = TPL_HIGH_LEVEL - 1 ->
  Acquired (mEfiTimerLock s) = false -> no_overflow (mEfiSystemTime (data s)) F (data s) ->
  (total = true -> (2 * length (default [] (F !! mEfiTimerList)) < fuel)%nat) ->
  wp total (CoreCheckTimers Verify Max restore fuel s) (fun s' => back s s' /\ exists F', ready F' s' /\
    timers_checked (mEfiSystemTime (data s)) F (data s) F' (data s') /\
    (forall l x, F' !! mEfiTimerList = Some l -> x ∈ l -> mEfiSystemTime (data s) < trigger (data s') x)).
Proof.
  intros Hr Htpl Ha Hov Hfuel. assert (Ht : gEfiCurrentTpl s <= TPL_HIGH_LEVEL - 1) by lia.
  unfold CoreCheckTimers. destruct (enter_timer F s Hr Ht Ha) as (s1 & -> & Hin & Hd).
  cbn [mbind result_bind]. pose proof (ready_inv _ _ Hr) as Hi. rewrite <-Hd in Hi.
  pose proof (timer_ready F F s s1 Hr Ht Hin Hi) as Hr1. destruct (timer_list F _ Hi) as [l Hl]. rewrite Hl in Hfuel.
  eapply wp_bind; [apply (CoreCurrentSystemTime_spec F); [done|rewrite (inside_tpl _ _ _ Hin); simpl; lia]|].
  intros [now s2] (-> & Hd2 & Hb2). assert (Hin2 : inside TimerLock s s2) by (by eapply inside_back).
  eapply wp_bind; [apply (CheckTimers_loop_spec fuel _ F s _ l)|]; try done; rewrite ?Hd2, ?Hd; try done.
  - apply (ready_back F F s1); rewrite ?Hd2; try done. apply Hr1.
  - rewrite Hd in Hi. apply (inv_time _ F _ Hi).
  - intros Htot. specialize (Hfuel Htot). pose proof (mass_bound (mEfiSystemTime (data s)) (data s) l). simpl in *. lia.
  - intros s3 (Hin3 & F3 & Hr3 & Hck & Hlater). pose proof (ready_inv _ _ Hr3) as Hi3.
    assert (Hq : quiet (gEfiCurrentTpl s) (data s3)) by (apply (quiet_high F3); [done|left; lia]).
    eapply wp_mono; [apply (release_quiet F TimerLock s s3 Hr Ht Hin3 Ha); [apply (inv_range _ F3 _ Hi3)|done]|].
    intros s' [Hds Hb]. split; [done|]. exists F3. rewrite Hds. split; [|done].
    apply (ready_back F F3 s); rewrite ?Hds; done.
Qed.

(** ** The timer interrupt *)

Lemma inv_set_time F d t : inv F d -> 0 <= t < 2 ^ 64 -> inv F (set_time t d).
Proof. intros Hi Ht. destruct Hi. by split. Qed.

(** The critical section of [CoreTimerTick]. *)
Lemma TimerTick_check_spec F s s1 : ready F s -> inside SystemTimeLock s s1 -> inv F (data s1) ->
  wp total (TimerTick_check Verify Max restore s1)
  (fun s' => inside SystemTimeLock s s' /\ exists F', inv F' (data s') /\ signals_only F (data s1) F' (data s') /\
     (mEfiCheckTimerEvent (data s1) ∈ live (data s1) -> forall x l r, F !! mEfiTimerList = Some (x :: l) ->
        trigger (data s1) x <= mEfiSystemTime (data s1) ->
        events (data s') !! mEfiCheckTimerEvent (data s1) = Some r -> SignalCount r <> 0)).
Proof.
  intros Hr Hin1 Hi1. unfold TimerTick_check. set (d1 := data s1) in *.
  assert (Hr1 : ready F s1).
  { split; [done| | |].
    - apply (inside_calm SystemTimeLock s); [apply Hr|apply Hr|done|done].
    - rewrite (inside_tpl _ _ _ Hin1). done.
    - apply (quiet_high F); [done|]. left. rewrite (inside_tpl _ _ _ Hin1). done. }
  destruct (timer_list F _ Hi1) as [l Hl].
  rewrite (family_IsListEmpty Max (links d1) F mEfiTimerList l) by
    (first [apply Hi1|done|by apply (list_capacity Max F d1 Hi1 mEfiTimerList)]).
  cbn [mbind result_bind]. destruct l as [|x l].
  { split; [done|]. exists F. split; [done|]. split; [apply signals_only_refl|].
    intros _ x l r Hl'. by rewrite Hl in Hl'. }
  rewrite bool_decide_false by done.
  destruct (family_first (links d1) F mEfiTimerList (x :: l)) as (n & -> & Hn); [apply Hi1|done|].
  cbn [mbind result_bind List.hd] in *. rewrite Hn.
  destruct (first_timer F _ x l Hi1 Hl) as (e & r & -> & He & Hre & Hok & Hty & ->). cbn [mbind result_bind].
  rewrite (event_live _ _ _ Hre). cbn [mbind result_bind].
  assert (Htr : trigger d1 (node e TimerSlot) = TriggerTime r) by (by apply trigger_node).
  destruct (Z.leb_spec (TriggerTime r) (mEfiSystemTime d1)) as [Hle|Hgt].
  - eapply wp_bind; [apply (signal_at_timer_tpl F); [done| |apply (inv_timer_event _ F _ Hi1)]|].
    { rewrite (inside_tpl _ _ _ Hin1). done. }
    intros [? s'] (Hb & F' & Hr' & Hso & _ & Hsig). cbn [wp]. split; [by eapply inside_back|].
    exists F'. split; [apply Hr'|]. split; [done|]. intros Hlv y l' r' _ _ Hr''. by apply (Hsig Hlv).
  - cbn [wp]. split; [done|]. exists F. split; [done|]. split; [apply signals_only_refl|].
    intros _ y l' r' Hl'. rewrite Hl in Hl'. injection Hl' as <- <-. rewrite Htr. lia.
Qed.

Lemma CoreTimerTick_any F Duration s : total = false -> ready F s -> Acquired (mEfiSystemTimeLock s) = false ->
  wp false (CoreTimerTick Verify Max restore Duration s) (done_any s).
Proof.
  intros Htot Hr Ha. unfold CoreTimerTick.
  destruct (enter F SystemTimeLock s) as (s1 & -> & Hin & Hd); [done|apply Hr|done|].
  cbn [mbind result_bind]. pose proof (ready_inv _ _ Hr) as Hi. rewrite <-Hd in Hi.
  eapply wp_bind; [apply (wp_partial total), (TimerTick_check_spec F s)|]; try done; [by apply inside_data| |].
  - apply inv_set_time; [done|apply u64_range].
  - intros s2 (Hin2 & F2 & Hi2 & _). apply (release_any F SystemTimeLock s s2 Hr (proj2 (ready_tpl _ _ Hr)) Hin2 Ha F2 Htot Hi2).
Qed.

(** A tick at or above the TPL of the timers advances the clock, and signals
    [mEfiCheckTimerEvent] if the first timer is due. *)
Lemma CoreTimerTick_quiet F Duration s : ready F s -> Acquired (mEfiSystemTimeLock s) = false ->
  TPL_HIGH_LEVEL - 1 <= gEfiCurrentTpl s ->
  wp total (CoreTimerTick Verify Max restore Duration s) (fun s' => back s s' /\ exists F', ready F' s' /\
    let now := u64 (mEfiSystemTime (data s) + Duration) in
    signals_only F (set_time now (data s)) F' (data s') /\
    (mEfiCheckTimerEvent (data s) ∈ live (data s) -> forall x l r, F !! mEfiTimerList = Some (x :: l) ->
       trigger (data s) x <= now -> events (data s') !! mEfiCheckTimerEvent (data s) = Some r -> SignalCount r <> 0)).
Proof.
  intros Hr Ha Ht. unfold CoreTimerTick.
  destruct (enter F SystemTimeLock s) as (s1 & -> & Hin & Hd); [done|apply Hr|done|].
  cbn [mbind result_bind]. pose proof (ready_inv _ _ Hr) as Hi. rewrite <-Hd in Hi.
  eapply wp_bind; [apply (TimerTick_check_spec F s)|]; try done; [by apply inside_data| |].
  - apply inv_set_time; [done|apply u64_range].
  - intros s2 (Hin2 & F2 & Hi2 & Hso & Hsig). cbn [data set_data] in *. rewrite Hd in Hso, Hsig.
    assert (Hq : quiet (gEfiCurrentTpl s) (data s2)) by (apply (quiet_high F2); [done|left; lia]).
    eapply wp_mono; [apply (release_quiet F SystemTimeLock s s2 Hr (proj2 (ready_tpl _ _ Hr)) Hin2 Ha); [apply (inv_range _ F2 _ Hi2)|done]|].
    intros s' [Hds Hb]. split; [done|]. exists F2. rewrite Hds. split; [|done].
    apply (ready_back F F2 s); rewrite ?Hds; done.
Qed.

(** ** Setting a timer *)

(** The delay that a request means: a periodic timer without one uses the
    period of the hardware. *)
Definition delay (Type_' Time : Z) : Z :=
  if (Type_' =? TimerPeriodic) && (Time =? 0) then GetTimerPeriod else Time.

(** The timer [e] is set: it is put on the list unless it is cancelled. *)
Record timer_armed (Type_' Time : Z) (F : lists) (d : EventData) (e : ptr) (F' : lists) (d' : EventData) : Prop := {
  ta_timers : forall l, F !! mEfiTimerList = Some l ->
    let others := filter (fun y => y <> node e TimerSlot) l in
    if Type_' =? TimerCancel then F' !! mEfiTimerList = Some others
    else exists l1 l2, others = l1 ++ l2 /\ F' !! mEfiTimerList = Some (l1 ++ node e TimerSlot :: l2) /\
      Forall (fun x => trigger d x <= u64 (mEfiSystemTime d + delay Type_' Time)) l1 /\
      Forall (fun x => u64 (mEfiSystemTime d + delay Type_' Time) < trigger d x) l2;
  ta_lists : forall hd, hd <> mEfiTimerList -> F' !! hd = F !! hd;
  ta_event : exists h r, events d !! e = Some r /\
    d' = set_links h (set_events (<[e := set_Timer
      (if Type_' =? TimerCancel then 0 else u64 (mEfiSystemTime d + delay Type_' Time))
      (if Type_' =? TimerPeriodic then delay Type_' Time else 0) r]> (events d)) d) }.

(** A timer that is due at once makes the timers be looked at: the event that
    checks them is signalled. *)
Definition immediate (Type_' Time : Z) : bool := negb (Type_' =? TimerCancel) && (delay Type_' Time =? 0).

Definition timer_set (Type_' Time : Z) (F : lists) (d : EventData) (e : ptr) (F' : lists) (d' : EventData) : Prop :=
  exists Fm dm, timer_armed Type_' Time F d e Fm dm /\
    if immediate Type_' Time then signalled Fm dm (mEfiCheckTimerEvent d) F' d' else F' = Fm /\ d' = dm.

Lemma timer_set_pending Type_' Time F d e F' d' : timer_set Type_' Time F d e F' d' ->
  immediate Type_' Time = false -> gEventPending d' = gEventPending d.
Proof.
  intros (Fm & dm & Ha & Hm) Hi. destruct (ta_event _ _ _ _ _ _ _ Ha) as (h & r & _ & ->).
  rewrite Hi in Hm. by destruct Hm as [_ ->].
Qed.

Lemma delay_range Type_' Time : 0 <= Time < 2 ^ 64 -> 0 <= delay Type_' Time < 2 ^ 64.
Proof. unfold delay. destruct (_ && _); [intros; apply GetTimerPeriod_range|done]. Qed.

(** Triggers of other events. *)
Lemma trigger_kept F d e d' x : inv F d -> kept_but e d d' -> member F mEfiTimerList x -> x <> node e TimerSlot ->
  trigger d' x = trigger d x.
Proof.
  intros Hi Hk (l & Hl & Hx) Hne. destruct (list_nodes Max F d Hi _ _ Hl) as (k & es & -> & _ & Hes).
  apply list_elem_of_fmap in Hx as (e' & -> & He'). rewrite Forall_forall in Hes.
  destruct (Hes e' He') as (_ & r & Hr & Hhd).
  assert (k = TimerSlot) as ->.
  { apply (home_slot k TimerSlot r r); [eapply (inv_ok _ F d); try done; by apply Hes..|done]. }
  destruct (kb_events _ _ _ Hk e' r) as (r' & Hr' & Ht & _); [by intros ->|done|].
  by rewrite (trigger_node _ _ _ Hr), (trigger_node _ _ _ Hr').
Qed.

(** The time, period and trigger time of the timer are set. *)
Lemma SetTimer_arm F e r Type_' T s s1 : ready F s1 -> inside TimerLock s s1 -> e ∈ live (data s1) ->
  events (data s1) !! e = Some r -> Period r = 0 -> (forall hd, ~ member F hd (node e TimerSlot)) -> 0 <= T < 2 ^ 64 ->
  let r' := set_Timer (u64 (mEfiSystemTime (data s1) + T)) (if Type_' =? TimerPeriodic then T else 0) r in
  wp total (
    let! s := if Type_' =? TimerPeriodic then set_event (set_Timer 0 T) e s1 else Ok s1 in
    let! (Now, s) := CoreCurrentSystemTime restore s in
    set_event (fun e => set_Timer (u64 (Now + T)) (Period e) e) e s)
  (fun s' => inside TimerLock s s' /\ ready F s' /\ data s' = set_events (<[e := r']> (events (data s1))) (data s1)).
Proof.
  intros Hr Hin He Hre Hp0 Hno HT r'. set (p := if Type_' =? TimerPeriodic then T else 0) in *.
  assert (Hp : 0 <= p < 2 ^ 64) by (unfold p; destruct (_ =? _); lia).
  eapply wp_bind with (P := fun s3 => inside TimerLock s s3 /\ ready F s3 /\ exists r3, Period r3 = p /\
    (forall t, set_Timer t p r3 = set_Timer t p r) /\ data s3 = set_events (<[e := r3]> (events (data s1))) (data s1)).
  { unfold p. destruct (Type_' =? TimerPeriodic).
    - rewrite (set_event_Ok _ e r) by done. cbn [wp]. split; [by apply inside_data|].
      split; [by apply ready_timer|]. by exists (set_Timer 0 T r).
    - split; [done|]. split; [done|]. exists r. split; [done|]. split; [done|]. rewrite insert_id by done. by destruct (data s1). }
  intros s3 (Hin3 & Hr3 & r3 & Hp3 & Hr3' & Hd3).
  eapply wp_bind; [apply (CoreCurrentSystemTime_spec F); [done|rewrite (inside_tpl _ _ _ Hin3); done]|].
  intros [now s4] (-> & Hd4 & Hb4). assert (Hre4 : events (data s4) !! e = Some r3).
  { rewrite Hd4, Hd3. apply lookup_insert_eq. }
  rewrite (set_event_Ok _ e r3) by done. cbn [wp]. split; [by apply inside_data; eapply inside_back|].
  assert (Hr4 : ready F s4) by (apply (ready_back F F s3); rewrite ?Hd4; try done; apply Hr3). split.
  - apply ready_timer; try done; [by rewrite Hd4, Hd3|apply u64_range|by rewrite Hp3].
  - cbn [data set_data]. rewrite Hp3, Hr3', Hd4, Hd3. unfold set_events. simpl. by rewrite insert_insert_eq.
Qed.

(** The timer is put on the list, and looked at soon if it triggers at once. *)
Lemma SetTimer_insert F e r l T s s1 : ready F s1 -> inside TimerLock s s1 -> e ∈ live (data s1) ->
  events (data s1) !! e = Some r -> has (Type_ r) EVT_TIMER = true -> (forall hd, ~ member F hd (node e TimerSlot)) ->
  F !! mEfiTimerList = Some l ->
  wp total (
    let! s := CoreInsertEventTimer Verify Max e s1 in
    if T =? 0 then let! (_, s) := CoreSignalEvent Verify Max restore (mEfiCheckTimerEvent (data s)) s in Ok s else Ok s)
  (fun s' => inside TimerLock s s' /\ exists h l1 l2, l = l1 ++ l2 /\
    Forall (fun x => trigger (data s1) x <= TriggerTime r) l1 /\ Forall (fun x => TriggerTime r < trigger (data s1) x) l2 /\
    let F2 := <[mEfiTimerList := l1 ++ node e TimerSlot :: l2]> F in
    let d2 := set_links h (data s1) in
    exists F', ready F' s' /\
      if T =? 0 then signalled F2 d2 (mEfiCheckTimerEvent d2) F' (data s') else F' = F2 /\ data s' = d2).
Proof.
  intros Hr Hin He Hre Hty Hno Hl.
  destruct (CoreInsertEventTimer_spec Verify Max F e r l s1 (ready_inv _ _ Hr) He Hre Hty Hno Hl)
    as (h & l1 & l2 & Hl12 & Hle1 & Hle2 & -> & Hi'); [exact (timer_acquired _ _ Hin)|].
  cbn [mbind result_bind]. set (s2 := set_data (set_links h (data s1)) s1) in *. set (F2 := <[mEfiTimerList := _]> F) in *.
  assert (Hr2 : ready F2 s2) by (apply (ready_data F); [done|done|apply Hr]).
  assert (Hin2 : inside TimerLock s s2) by (by apply inside_data).
  destruct (Z.eqb_spec T 0) as [Hz|Hz].
  - eapply wp_bind; [apply (signal_at_timer_tpl F2); [done|rewrite (inside_tpl _ _ _ Hin2); done|]|].
    { apply (inv_timer_event _ F2 _ Hi'). }
    intros [? s3] (Hb3 & F3 & Hr3 & _ & Hsig & _). cbn [wp]. split; [by eapply inside_back|]. exists h, l1, l2.
    split; [done|]. split; [done|]. split; [done|]. by exists F3.
  - cbn [wp]. split; [done|]. exists h, l1, l2. split; [done|]. split; [done|]. split; [done|]. by exists F2.
Qed.

Lemma SetTimer_locked_spec F e r Type_' Time s s1 : ready F s -> gEfiCurrentTpl s <= TPL_HIGH_LEVEL - 1 ->
  inside TimerLock s s1 -> inv F (data s1) -> e ∈ live (data s1) -> events (data s1) !! e = Some r ->
  has (Type_ r) EVT_TIMER = true -> 0 <= Time < 2 ^ 64 ->
  wp total (SetTimer_locked Verify Max restore e Type_' Time s1) (fun s' => inside TimerLock s s' /\ exists F',
    ready F' s' /\ timer_set Type_' Time F (data s1) e F' (data s')).
Proof.
  intros Hr Ht Hin Hi He Hre Hty Htime. unfold SetTimer_locked.
  change (e + OFFSET_TimerLink) with (node e TimerSlot).
  destruct (dequeue_spec Max F (data s1) e TimerSlot r Hi He Hre) as (h1 & -> & Hi1 & _); [done|].
  cbn [mbind result_bind]. set (F1 := del (node e TimerSlot) F) in *.
  assert (Hno1 : forall hd, ~ member F1 hd (node e TimerSlot)) by (intros hd [_ ?]%member_del; congruence).
  rewrite (set_event_Ok _ e r) by done. cbn [mbind result_bind data set_data].
  pose proof (timer_ready F F1 s (set_data (set_links h1 (data s1)) s1) Hr Ht (inside_data _ _ _ _ Hin) Hi1) as Hr1.
  pose proof (ready_timer F1 _ e r 0 0 Hr1 He Hre Hno1 ltac:(lia) ltac:(lia)) as Hr2. cbn [data set_data] in Hr2.
  set (s2 := set_data (set_events _ _) _) in *. set (r2 := set_Timer 0 0 r) in *.
  assert (Hin2 : inside TimerLock s s2) by (by apply inside_data, inside_data).
  assert (Hre2 : events (data s2) !! e = Some r2) by apply lookup_insert_eq.
  assert (Hk2 : kept_but e (data s1) (data s2)) by (transitivity (set_links h1 (data s1)); [apply links_kept|apply update_kept]).
  destruct (timer_list F _ Hi) as [l Hl].
  assert (Hl1 : F1 !! mEfiTimerList = Some (filter (fun y => y <> node e TimerSlot) l)) by (unfold F1; by rewrite lookup_del, Hl).
  assert (Hother : forall hd, hd <> mEfiTimerList -> F1 !! hd = F !! hd).
  { intros hd Hhd. apply (del_other Max F (data s1)); [done|by eapply live_block|]. intros r0 _ _ Heq. by apply Hhd. }
  destruct (Z.eqb_spec Type_' TimerCancel) as [->|Hcancel]; cbn [negb].
  { cbn [wp]. split; [done|]. exists F1. split; [done|]. exists F1, (data s2). split; [|done]. split; [|done|].
    - intros l0 Hl0. rewrite Hl in Hl0. by injection Hl0 as <-.
    - by exists h1, r. }
  fold (delay Type_' Time). pose proof (delay_range Type_' Time Htime) as Hdelay.
  pose proof (SetTimer_arm F1 e r2 Type_' (delay Type_' Time) s s2 Hr2 Hin2 He Hre2 eq_refl Hno1 Hdelay) as Harm.
  set (T := u64 _) in Harm. cbv zeta in Harm. set (r5 := set_Timer T _ r2) in Harm.
  rewrite bind_assoc3. eapply wp_bind; [exact Harm|].
  intros s5 (Hin5 & Hr5 & Hd5). assert (Hre5 : events (data s5) !! e = Some r5) by (rewrite Hd5; apply lookup_insert_eq).
  assert (Hk5 : kept_but e (data s1) (data s5)) by (rewrite Hd5; transitivity (data s2); [done|apply update_kept]).
  eapply wp_mono.
  { apply (SetTimer_insert F1 e r5 (filter (fun y => y <> node e TimerSlot) l) (delay Type_' Time) s s5 Hr5 Hin5); try done.
    by rewrite (kb_live _ _ _ Hk5). }
  intros s6 (Hin6 & h6 & l1 & l2 & Hl12 & Hle1 & Hle2 & F6 & Hr6 & Hend). split; [done|].
  exists F6. split; [done|].
  assert (Hsub : forall x, x ∈ l1 ++ l2 -> trigger (data s5) x = trigger (data s1) x).
  { intros x Hx. rewrite <-Hl12 in Hx. apply list_elem_of_filter in Hx as [Hne Hx].
    apply (trigger_kept F (data s1) e); try done. by exists l. }
  exists (<[mEfiTimerList := l1 ++ node e TimerSlot :: l2]> F1), (set_links h6 (data s5)). split.
  - split; rewrite ?(proj2 (Z.eqb_neq _ _) Hcancel).
    + intros l0 Hl0. rewrite Hl in Hl0. injection Hl0 as <-. exists l1, l2. split; [done|]. split; [apply lookup_insert_eq|].
      rewrite !Forall_forall in *. split; intros x Hx; rewrite <-Hsub by (apply elem_of_app; auto); by auto.
    + intros hd Hhd. rewrite lookup_insert_ne by done. by apply Hother.
    + exists h6, r. split; [done|]. rewrite Hd5. unfold set_links, set_events. simpl. by rewrite insert_insert_eq.
  - unfold immediate. rewrite (proj2 (Z.eqb_neq _ _) Hcancel). cbn [negb andb].
    rewrite <-(kb_timer_event _ _ _ Hk5). exact Hend.
Qed.

(** The requests that are accepted. *)
Definition timer_request (d : EventData) (e Type_' : Z) : bool :=
  match events d !! e with
  | Some r => bool_decide (e ∈ live d) && (u32 Type_' <=? TimerRelative) && has (Type_ r) EVT_TIMER
  | None => false
  end.

(** Setting a timer: the request is checked, and carried out in the critical
    section of the timers; leaving it restores the TPL. *)
Lemma CoreSetTimer_restores F e Type_' Time s : total = true -> ready F s -> gEfiCurrentTpl s <= TPL_HIGH_LEVEL - 1 ->
  Acquired (mEfiTimerLock s) = false -> valid e -> 0 <= Time < 2 ^ 64 ->
  if timer_request (data s) e Type_' then exists s1 F1, gEfiCurrentTpl s1 = TPL_HIGH_LEVEL - 1 /\ kept s s1 /\
    inv F1 (data s1) /\ timer_set Type_' Time F (data s) e F1 (data s1) /\
    CoreSetTimer Verify Max restore e Type_' Time s = (let! s' := restore (gEfiCurrentTpl s) s1 in Ok (EFI_SUCCESS, s'))
  else CoreSetTimer Verify Max restore e Type_' Time s = Ok (EFI_INVALID_PARAMETER, s).
Proof.
  intros Htot Hr Ht Ha Hv Htime. pose proof (ready_inv _ _ Hr) as Hi. unfold CoreSetTimer, timer_request.
  destruct (bad_event_spec F (data s) e Hi Hv) as [[-> Hdead]|(-> & He & r & Hre & Hok)].
  { cbn [mbind result_bind]. rewrite bool_decide_false by done. by destruct (events (data s) !! e). }
  cbn [mbind result_bind]. rewrite (event_live _ _ _ Hre). cbn [mbind result_bind].
  rewrite Hre, bool_decide_true, Z.gtb_ltb by done. cbn [andb].
  destruct (Z.ltb_spec TimerRelative (u32 Type_')) as [Hgt|Hle].
  { rewrite (proj2 (Z.leb_gt _ _)) by done. done. }
  rewrite (proj2 (Z.leb_le _ _)) by done. cbn [andb orb].
  destruct (has (Type_ r) EVT_TIMER) eqn:Hty; [|done]. cbn [negb].
  destruct (enter_timer F s Hr Ht Ha) as (s1 & -> & Hin & Hd). cbn [mbind result_bind].
  pose proof (SetTimer_locked_spec F e r Type_' Time s s1 Hr Ht Hin) as Hlk. rewrite Hd in Hlk.
  specialize (Hlk Hi He Hre Hty Htime). rewrite Htot in Hlk.
  apply wp_total in Hlk as (s2 & -> & Hin2 & F2 & Hr2 & Hset). cbn [mbind result_bind].
  rewrite (release_unfold TimerLock s s2 Hin2). pose proof (released_state TimerLock s s2 Ht Hin2 Ha) as [Ht3 Hd3].
  pose proof (released_kept F TimerLock s s2 Hr Hin2 Ha) as Hk3. set (s3 := set_lock _ _ s2) in *.
  exists s3, F2. rewrite Hd3. do 2 (split; [done|]). split; [apply Hr2|]. done.
Qed.

Lemma CoreSetTimer_any F e Type_' Time s : total = false -> ready F s -> gEfiCurrentTpl s <= TPL_HIGH_LEVEL - 1 ->
  Acquired (mEfiTimerLock s) = false -> valid e -> 0 <= Time < 2 ^ 64 ->
  wp false (CoreSetTimer Verify Max restore e Type_' Time s) (fun '(_, s') => done_any s s').
Proof.
  intros Htot Hr Ht Ha Hv Htime. pose proof (ready_inv _ _ Hr) as Hi. unfold CoreSetTimer.
  destruct (bad_event_spec F (data s) e Hi Hv) as [[-> _]|(-> & He & r & Hre & Hok)].
  { by eapply done_refl. }
  cbn [mbind result_bind]. rewrite (event_live _ _ _ Hre). cbn [mbind result_bind].
  destruct (_ || _) eqn:Hbad; [by eapply done_refl|]. apply orb_false_iff in Hbad as [_ Hty].
  destruct (enter_timer F s Hr Ht Ha) as (s1 & -> & Hin & Hd). cbn [mbind result_bind]. rewrite <-Hd in Hi, He, Hre.
  eapply wp_bind; [apply (wp_partial total), (SetTimer_locked_spec F e r _ _ s); try done; by destruct (has _ _)|].
  intros s2 (Hin2 & F2 & Hr2 & _).
  eapply wp_bind; [apply (release_any F TimerLock s s2 Hr Ht Hin2 Ha F2 Htot), (ready_inv _ _ Hr2)|]. done.
Qed.
End Services.
