(* ===== verification/EventLife.v ===== *)
(** * The life of an event: creating, closing, waiting

    The services of Event.c that create and free events, proved against the
    interface [restorer] of EventServices.v, as the other services are. *)

From S2P Require Import Prelude CTypes BaseMath LinkedList ListFamily Event EventInv EventServices.

Section Life.
Context `{Platform} (Verify : bool) (Max : nat) `{!PlatformLaws Max} `{Registry}.
Context (total : bool) (restore : Z -> EventState -> result EventState) (Hres : restorer (Max := Max) total restore).
Abbreviation inv := (inv Max).
Abbreviation ready := (ready Max).
Abbreviation valid := (valid Max).

(** ** Creating an event *)

(** The lists and the data with a new event [r] at [p]. *)
Definition born_lists (p : ptr) (r : IEVENT) (F : lists) : lists :=
  let F1 := if has (Type_ r) EVT_RUNTIME then alter (fun l => l ++ [node p RuntimeSlot]) gRuntime_EventHead F else F in
  if has (Type_ r) EVT_NOTIFY_SIGNAL then alter (cons (node p SignalSlot)) gEventSignalQueue F1 else F1.

Definition born (p : ptr) (r : IEVENT) (h : store) (d : EventData) : EventData :=
  set_links h (set_live ({[p]} ∪ live d) (set_events (<[p := r]> (events d)) d)).

Lemma born_update f p r h d : update_event f p (born p r h d) = Ok (born p (f r) h d).
Proof.
  rewrite (update_event_Ok _ p r) by apply lookup_insert_eq. unfold born, set_links, set_live, set_events. simpl.
  by rewrite insert_insert_eq.
Qed.

(** A family of lists with the new event's fields outside, or in their lists. *)
Record extended (p : ptr) (h0 : store) (F : lists) (h : store) (F' : lists) (in_list : slot -> Prop) : Prop := {
  ext_family : family h F';
  ext_slots : forall k, in_list k -> k = SignalSlot \/ k = RuntimeSlot;
  ext_heads : forall hd, is_Some (F' !! hd) <-> is_Some (F !! hd);
  ext_same : forall hd, hd <> gEventSignalQueue -> hd <> gRuntime_EventHead -> F' !! hd = F !! hd;
  ext_member : forall hd x, member F' hd x <-> member F hd x \/
    exists k, (k = SignalSlot /\ hd = gEventSignalQueue \/ k = RuntimeSlot /\ hd = gRuntime_EventHead) /\
      in_list k /\ x = node p k;
  ext_beyond : forall x, ~ within F x -> (forall k, x <> node p k) -> h !! x = h0 !! x;
  ext_node : forall k, is_Some (h !! node p k);
  ext_null : forall k, ~ in_list k -> fwd h (node p k) = Some NULL }.

Lemma zero_links_node p k h : zero_links p h !! node p k = Some (MkLink NULL NULL).
Proof.
  unfold zero_links, node. destruct k; simpl; rewrite ?lookup_insert_eq; [done|..];
    repeat (rewrite lookup_insert_ne by (unfold OFFSET_SignalLink, OFFSET_NotifyLink, OFFSET_RuntimeLink, OFFSET_TimerLink; lia));
    by rewrite lookup_insert_eq.
Qed.

Lemma zero_links_other p x h : (forall k, x <> node p k) -> zero_links p h !! x = h !! x.
Proof.
  intros Hne. unfold zero_links. pose proof (Hne SignalSlot). pose proof (Hne NotifySlot).
  pose proof (Hne RuntimeSlot). pose proof (Hne TimerSlot). unfold node in *. simpl in *.
  by rewrite !lookup_insert_ne by congruence.
Qed.

Lemma extended_start F d p : inv F d -> p ∈ Blocks -> p ∉ live d ->
  extended p (links d) F (zero_links p (links d)) F (fun _ => False).
Proof.
  intros Hi Hp Hdead. split; try done.
  - apply (family_frame (links d)); [apply Hi|]. intros x Hx. apply zero_links_other. intros k ->.
    destruct (within_member Max F d Hi _ Hx) as [Hh|[hd Hm]]; [by apply (node_head Max p k)|].
    by apply (dead_member Max F d p k hd).
  - intros hd x. split; [by left|]. by intros [?|(k & _ & [] & _)].
  - intros x _. apply zero_links_other.
  - intros k. by rewrite zero_links_node.
  - intros k _. unfold fwd. by rewrite zero_links_node.
Qed.

Lemma extended_iff p h0 F h F' (I I' : slot -> Prop) :
  (forall k, I' k <-> I k) -> extended p h0 F h F' I -> extended p h0 F h F' I'.
Proof.
  intros HI [E1 E0 E2 E3 E4 E5 E6 E7]. split; try done.
  - intros k ?%HI. by apply E0.
  - intros hd x. rewrite E4. by setoid_rewrite HI.
  - intros k Hk. apply E7. by rewrite <-HI.
Qed.

(** Putting one field into its list. *)
Lemma extended_insert F d p h F1 I k hd l l' h' :
  inv F d -> p ∈ Blocks -> p ∉ live d -> extended p (links d) F h F1 I ->
  (k = SignalSlot /\ hd = gEventSignalQueue \/ k = RuntimeSlot /\ hd = gRuntime_EventHead) ->
  F1 !! hd = Some l -> (forall y, y ∈ l' <-> y = node p k \/ y ∈ l) ->
  family h' (<[hd := l']> F1) -> same_beyond h h' F1 (node p k) ->
  ~ I k -> extended p (links d) F h' (<[hd := l']> F1) (fun k' => k' = k \/ I k').
Proof.
  intros Hi Hp Hdead [E1 E0 E2 E3 E4 E5 E6 E7] Hk Hl Hl' Hf Hb HI.
  assert (Hhd : is_head hd) by (destruct Hk as [[_ ->]|[_ ->]]; unfold is_head; auto).
  assert (Hmem : forall hd' y, member (<[hd := l']> F1) hd' y <-> (hd' = hd /\ y = node p k) \/ member F1 hd' y).
  { intros. by apply (member_insert F1 hd l). }
  assert (Hnodes : forall k', k' <> k -> ~ I k' -> h' !! node p k' = h !! node p k').
  { intros k' Hne HI'. apply Hb.
    - intros (hd2 & l2 & Hl2 & Hx). apply elem_of_cons in Hx as [Hx|Hx].
      + apply (node_head Max p k' Hp). rewrite Hx. apply (inv_heads Max F d Hi), E2. eauto.
      + assert (Hm : member F1 hd2 (node p k')) by (by exists l2). apply E4 in Hm as [Hm|(k2 & _ & HI2 & Heq)].
        * by apply (dead_member Max F d p k' hd2).
        * by destruct (node_inj Max p p k' k2 Hp Hp Heq) as [_ <-].
    - intros Heq. by destruct (node_inj Max p p k' k Hp Hp Heq). }
  split; [done|..].
  - intros k' [->|?]; [destruct Hk as [[-> _]|[-> _]]; auto|by apply E0].
  - intros hd'. rewrite <-E2, lookup_insert_is_Some'. split; [intros [<-|?]; [by rewrite Hl|done]|by right].
  - intros hd' H1 H2. rewrite lookup_insert_ne; [by apply E3|]. destruct Hk as [[_ ->]|[_ ->]]; congruence.
  - intros hd' x. rewrite Hmem, E4. split.
    + intros [[-> ->]|[?|(k' & ? & ? & ?)]]; [|by left|]; right; [exists k|exists k']; auto.
    + intros [?|(k' & Hk' & [->|HI'] & ->)]; [by right; left| |right; right; by exists k'].
      left. split; [|done]. destruct Hk as [[-> ->]|[-> ->]], Hk' as [[? ->]|[? ->]]; done.
  - intros x Hx Hne. rewrite Hb; [by apply E5| |by apply Hne].
    intros (hd2 & l2 & Hl2 & Hin). apply elem_of_cons in Hin as [->|Hin].
    + apply Hx. destruct (proj1 (E2 hd2)) as [l3 Hl3]; [eauto|]. exists hd2, l3. split; [done|left].
    + assert (Hm : member F1 hd2 x) by (by exists l2). apply E4 in Hm as [Hm|(k2 & _ & _ & Heq)].
      * by apply Hx, (member_within F hd2).
      * by apply (Hne k2).
  - intros k'. destruct (decide (k' = k)) as [->|Hne].
    + destruct (family_linked h' _ (node p k) Hf) as (n & -> & _); [|done].
      apply (member_within _ hd). apply Hmem. by left.
    + destruct (decide (h' !! node p k' = None)) as [Hn|Hn]; [|by apply not_eq_None_Some in Hn].
      exfalso. assert (HnI : ~ I k').
      { intros HI'. destruct (family_linked h' _ (node p k') Hf) as (n & Hn' & _); [|congruence].
        destruct (E0 k' HI') as [->| ->].
        - apply (member_within _ gEventSignalQueue), Hmem. right. apply E4. right. exists SignalSlot. auto.
        - apply (member_within _ gRuntime_EventHead), Hmem. right. apply E4. right. exists RuntimeSlot. auto. }
      rewrite Hnodes in Hn by done. destruct (E6 k'). congruence.
  - intros k' HI'. unfold fwd. rewrite Hnodes; [apply E7| |]; intros ?; apply HI'; auto.
Qed.

(** A field that is not in a list yet. *)
Lemma extended_field F d p h F1 I k :
  inv F d -> p ∈ Blocks -> p ∉ live d -> extended p (links d) F h F1 I -> ~ I k ->
  is_Some (h !! node p k) /\ ~ within F1 (node p k) /\ node p k <> NULL.
Proof.
  intros Hi Hp Hdead E HI. split; [apply E|]. split; [|by apply (node_null Max)].
  intros (hd & l & Hl & Hx). apply elem_of_cons in Hx as [Hx|Hx].
  - apply (node_head Max p k Hp). rewrite Hx. apply (inv_heads Max F d Hi), (ext_heads _ _ _ _ _ _ E). eauto.
  - assert (Hm : member F1 hd (node p k)) by (by exists l).
    apply (ext_member _ _ _ _ _ _ E) in Hm as [Hm|(k2 & _ & HI2 & Heq)].
    + by apply (dead_member Max F d p k hd).
    + by destruct (node_inj Max p p k k2 Hp Hp Heq) as [_ <-].
Qed.

Lemma insert_runtime F d p h :
  inv F d -> p ∈ Blocks -> p ∉ live d -> extended p (links d) F h F (fun _ => False) ->
  exists h', InsertTailList Verify Max h gRuntime_EventHead (p + OFFSET_RuntimeLink) = Ok (gRuntime_EventHead, h') /\
    extended p (links d) F h' (alter (fun l => l ++ [node p RuntimeSlot]) gRuntime_EventHead F)
      (fun k => k = RuntimeSlot \/ False).
Proof.
  intros Hi Hp Hdead E. destruct (extended_field F d p h F _ RuntimeSlot Hi Hp Hdead E) as (Hs & Hw & Hn); [tauto|].
  destruct (proj2 (inv_heads _ F d Hi gRuntime_EventHead)) as [l Hl]; [by right; right; left|].
  destruct (family_insert_tail Verify Max h F gRuntime_EventHead l (node p RuntimeSlot)) as (h' & Heq & Hf & Hb);
    try done; [apply E|by apply (list_capacity Max F d Hi gRuntime_EventHead)|].
  exists h'. split; [exact Heq|]. rewrite (alter_lookup _ _ l) by done.
  apply (extended_insert F d p h F _ RuntimeSlot gRuntime_EventHead l); try done; [by right|set_solver|tauto].
Qed.

Lemma insert_signal F d p h F1 I :
  inv F d -> p ∈ Blocks -> p ∉ live d -> extended p (links d) F h F1 I -> ~ I SignalSlot ->
  F1 !! gEventSignalQueue = F !! gEventSignalQueue ->
  exists h', InsertHeadList Verify Max h gEventSignalQueue (p + OFFSET_SignalLink) = Ok (gEventSignalQueue, h') /\
    extended p (links d) F h' (alter (cons (node p SignalSlot)) gEventSignalQueue F1) (fun k => k = SignalSlot \/ I k).
Proof.
  intros Hi Hp Hdead E HI Hsame. destruct (extended_field F d p h F1 I SignalSlot Hi Hp Hdead E HI) as (Hs & Hw & Hn).
  destruct (proj2 (inv_heads _ F d Hi gEventSignalQueue)) as [l Hl]; [by left|]. rewrite <-Hsame in Hl.
  destruct (family_insert_head Verify Max h F1 gEventSignalQueue l (node p SignalSlot)) as (h' & Heq & Hf & Hb);
    try done; [apply E| |].
  { apply (list_capacity Max F d Hi gEventSignalQueue). by rewrite <-Hsame. }
  exists h'. split; [exact Heq|]. rewrite (alter_lookup _ _ l) by done.
  apply (extended_insert F d p h F1 I SignalSlot gEventSignalQueue l); try done; [by left|set_solver].
Qed.

(** The new event is in its lists: the invariant holds. *)
Lemma extended_born F d p r h F' I :
  inv F d -> p ∈ Blocks -> p ∉ live d -> event_ok r -> Signature r = EVENT_SIGNATURE ->
  extended p (links d) F h F' I -> (forall k, I k <-> (k = SignalSlot \/ k = RuntimeSlot) /\ slot_ok k r) ->
  inv F' (born p r h d).
Proof.
  intros Hi Hp Hdead Hok Hsig E HI.
  assert (Hmem : forall hd x, member F' hd x <-> member F hd x \/
     exists k, (k = SignalSlot \/ k = RuntimeSlot) /\ slot_ok k r /\ hd = home k r /\ x = node p k).
  { intros hd x. rewrite (ext_member _ _ _ _ _ _ E). split; (intros [?|(k & H1 & H2)]; [by left|right; exists k]).
    - destruct H2 as [[_ Hs]%HI ->]. destruct H1 as [[-> ->]|[-> ->]]; auto.
    - destruct H2 as (Hs & -> & ->). rewrite HI. destruct H1 as [->| ->]; simpl; auto 10. }
  apply (inv_create Max F d p r h F' Hi Hp Hdead Hok Hsig); try apply E; try done.
  intros k Hno. apply (ext_null _ _ _ _ _ _ E). rewrite HI. intros [Hk Hs].
  apply (Hno (home k r)), Hmem. right. by exists k.
Qed.

(** ** [CoreCreateEventInternal] *)

Definition new_event (p : ptr) (Type_' Tpl' Function Context : Z) (Group : option EFI_GUID) : IEVENT :=
  MkEvent EVENT_SIGNATURE Type_' 0 Tpl' Function Context (default zero_guid Group)
    (match Group with Some _ => EVT_EXFLAG_EVENT_GROUP | None => 0 end)
    (if has Type_' EVT_RUNTIME then MkRuntimeEntry Type_' Tpl' Function Context p else MkRuntimeEntry 0 0 0 0 0) 0 0.

Definition notifies (Type_' : Z) : bool := has Type_' (Z.lor EVT_NOTIFY_WAIT EVT_NOTIFY_SIGNAL).

(** The event that a request asks for, if it is valid. *)
Definition requested (p : ptr) (Type_' Tpl' Function Context : Z) (Group : option EFI_GUID) : option IEVENT :=
  if negb (existsb (Z.eqb Type_') mEventTable) then None else
  match EventTypeAndGroup Type_' Group with
  | None => None
  | Some (Type_', Group) =>
      if negb (notifies Type_') then Some (new_event p Type_' 0 NULL NULL Group)
      else if negb (Function =? NULL) && (TPL_APPLICATION <? Tpl') && (Tpl' <? TPL_HIGH_LEVEL)
      then Some (new_event p Type_' Tpl' Function Context Group)
      else None
  end.

(** The functions that may be registered. *)
Definition may_register (Function Context Tpl' : Z) : Prop :=
  Function = EfiEventEmptyFunction \/
  Function = CoreCheckTimers_function /\ Tpl' = TPL_HIGH_LEVEL - 1 \/
  Registered Function Context Tpl'.

Lemma new_event_ok p Type_' Tpl' Function Context Group :
  (if notifies Type_' then Function <> NULL /\ TPL_APPLICATION < Tpl' < TPL_HIGH_LEVEL /\ may_register Function Context Tpl'
   else Tpl' = 0 /\ Function = NULL) ->
  event_ok (new_event p Type_' Tpl' Function Context Group).
Proof.
  intros Hok. split; simpl; try lia; try by destruct Group.
  - destruct (notifies Type_'); unfold TPL_APPLICATION, TPL_HIGH_LEVEL in *; lia.
  - unfold function_ok. simpl. destruct (notifies Type_'); [right|left; by destruct Hok].
    destruct Hok as (? & ? & Hm). split; [done|]. exact Hm.
  - fold (notifies Type_'). intros Hn. rewrite Hn in Hok. by destruct Hok.
Qed.

Definition created (F : lists) (s : EventState) (r : ptr -> option IEVENT) (Status : EFI_STATUS) (Event : ptr)
    (s' : EventState) : Prop :=
  match Status with
  | EFI_SUCCESS => exists e h, r Event = Some e /\ Event ∈ Blocks /\ Event ∉ live (data s) /\ event_ok e /\
      data s' = born Event e h (data s) /\ ready (born_lists Event e F) s'
  | EFI_OUT_OF_RESOURCES => is_Some (r NULL) /\ (exists b, AllocatePool b (live (data s)) = None) /\
      Event = NULL /\ s' = s
  | EFI_INVALID_PARAMETER => r NULL = None /\ Event = NULL /\ s' = s
  | _ => False
  end.

(** The links of the new event. *)
Lemma born_runtime F d p r :
  inv F d -> p ∈ Blocks -> p ∉ live d -> exists h,
    (if has (Type_ r) EVT_RUNTIME then
       let! (_, h) := InsertTailList Verify Max (zero_links p (links d)) gRuntime_EventHead (p + OFFSET_RuntimeLink) in
       Ok (set_links h (born p r (zero_links p (links d)) d))
     else Ok (born p r (zero_links p (links d)) d)) = Ok (born p r h d) /\
    extended p (links d) F h
      (if has (Type_ r) EVT_RUNTIME then alter (fun l => l ++ [node p RuntimeSlot]) gRuntime_EventHead F else F)
      (fun k => k = RuntimeSlot /\ slot_ok k r).
Proof.
  intros Hi Hp Hdead. pose proof (extended_start F d p Hi Hp Hdead) as E0.
  destruct (has (Type_ r) EVT_RUNTIME) eqn:Hrt.
  - destruct (insert_runtime F d p _ Hi Hp Hdead E0) as (h & -> & E). exists h. split; [done|].
    eapply extended_iff; [|exact E]. intros k. simpl. split; [intros [-> _]; by left|]. by intros [->|[]].
  - eexists. split; [done|]. eapply extended_iff; [|exact E0]. intros k. simpl. split; [|done].
    intros [-> Hs]. simpl in Hs. congruence.
Qed.

Lemma inside_set_data l d s s1 : inside l (set_data d s) s1 -> inside l s s1.
Proof.
  intros [H1 H2 H3]. split; [done|done|]. intros l' Hne. specialize (H3 l' Hne). by rewrite get_lock_data in H3.
Qed.

(** The end of the function: the event is put on the signal list. *)
Lemma create_publish F s p r h : ready F s -> p ∈ Blocks -> p ∉ live (data s) -> event_ok r ->
  Signature r = EVENT_SIGNATURE ->
  extended p (links (data s)) F h
    (if has (Type_ r) EVT_RUNTIME then alter (fun l => l ++ [node p RuntimeSlot]) gRuntime_EventHead F else F)
    (fun k => k = RuntimeSlot /\ slot_ok k r) ->
  wp total (
    let! s := CoreAcquireEventLock (set_data (born p r h (data s)) s) in
    let! s := if has (Type_ r) EVT_NOTIFY_SIGNAL then
        let! (_, h) := InsertHeadList Verify Max (links (data s)) gEventSignalQueue (p + OFFSET_SignalLink) in
        Ok (set_data (set_links h (data s)) s)
      else Ok s in
    let! s := CoreReleaseEventLock restore s in
    Ok (EFI_SUCCESS, p, s))
  (fun '(Status, Event, s') => Status = EFI_SUCCESS /\ Event = p /\ back s s' /\ exists h',
     data s' = born p r h' (data s) /\ ready (born_lists p r F) s').
Proof.
  intros Hr Hp Hdead Hok Hsig E. pose proof (ready_inv _ _ _ Hr) as Hi.
  set (F1 := if has (Type_ r) EVT_RUNTIME then _ else F) in E.
  destruct (acquire_spec EventQueueLock (set_data (born p r h (data s)) s)) as (s1 & Hacq & Hin & Hd).
  { split; intros l; rewrite get_lock_data; apply Hr. } { apply Hr. } { rewrite get_lock_data. by eapply event_lock_free. }
  unfold CoreAcquireEventLock. rewrite Hacq. cbn [mbind result_bind data set_data] in *. apply inside_set_data in Hin.
  assert (exists h', (if has (Type_ r) EVT_NOTIFY_SIGNAL then
      let! (_, h) := InsertHeadList Verify Max (links (data s1)) gEventSignalQueue (p + OFFSET_SignalLink) in
      Ok (set_data (set_links h (data s1)) s1)
    else Ok s1) = Ok (set_data (born p r h' (data s)) s1) /\ inv (born_lists p r F) (born p r h' (data s)))
    as (h' & -> & Hi').
  { unfold born_lists. fold F1. rewrite Hd. destruct (has (Type_ r) EVT_NOTIFY_SIGNAL) eqn:Hs.
    - destruct (insert_signal F (data s) p h F1 _ Hi Hp Hdead E) as (h' & Heq & E'); [by intros [? _]| |].
      { unfold F1. destruct (has _ _); [by rewrite lookup_alter_ne|done]. }
      cbn [links set_links born]. change (links (born p r h (data s))) with h. rewrite Heq. exists h'. split; [done|].
      apply (extended_born F (data s) p r h' _ _ Hi Hp Hdead Hok Hsig E'). intros k. split.
      + intros [->|[-> ?]]; auto.
      + intros [[->| ->] ?]; auto.
    - exists h. split; [by rewrite <-Hd, set_data_id|].
      apply (extended_born F (data s) p r h _ _ Hi Hp Hdead Hok Hsig E). intros k. split; [intros [-> ?]; auto|].
      intros [[->| ->] ?]; [simpl in *; congruence|done]. }
  cbn [mbind result_bind]. eapply wp_bind.
  - eapply (leave_quiet Max total restore Hres F (born_lists p r F) s); try done; [by apply inside_data|].
    right. apply Hr.
  - intros s' [Hds Hb]. cbn [data set_data] in Hds. split; [done|]. split; [done|]. split; [done|].
    exists h'. split; [done|]. apply (ready_back Max F _ s); rewrite ?Hds; try done. apply Hr.
Qed.

Lemma CoreCreateEventInternal_spec F Type_' Tpl' Function Context Group s :
  ready F s -> (TPL_APPLICATION < Tpl' < TPL_HIGH_LEVEL -> Function <> NULL -> may_register Function Context Tpl') ->
  wp total (CoreCreateEventInternal Verify Max restore Type_' Tpl' Function Context Group false s)
    (fun '(Status, Event, s') => back s s' /\
       created F s (fun p => requested p Type_' Tpl' Function Context Group) Status Event s').
Proof.
  intros Hr Hreg. unfold CoreCreateEventInternal, requested.
  destruct (existsb _ _); cbn [negb]; [|done].
  destruct (EventTypeAndGroup Type_' Group) as [[T G]|]; [|done]. fold (notifies T).
  set (mk := fun p => if negb (notifies T) then new_event p T 0 NULL NULL G else new_event p T Tpl' Function Context G).
  destruct (notifies T && _) eqn:Hbad.
  { split; [done|]. cbn [created]. split; [|done]. apply andb_true_iff in Hbad as [-> Hbad]. cbn [negb].
    rewrite Z.geb_leb in Hbad. unfold TPL_APPLICATION, TPL_HIGH_LEVEL in *.
    destruct (Function =? NULL), (Z.leb_spec Tpl' 4), (Z.ltb_spec 4 Tpl'), (Z.leb_spec 31 Tpl'), (Z.ltb_spec Tpl' 31);
      simpl in *; try done; lia. }
  assert (Hvalid : notifies T = true -> Function <> NULL /\ TPL_APPLICATION < Tpl' < TPL_HIGH_LEVEL).
  { intros HT. rewrite HT in Hbad. simpl in Hbad. apply orb_false_iff in Hbad as [[H1 H2]%orb_false_iff H3].
    rewrite Z.geb_leb in H3. bool_to_prop. unfold TPL_APPLICATION, TPL_HIGH_LEVEL in *. split; [done|lia]. }
  assert (Hmk : forall p, (if negb (notifies T) then Some (new_event p T 0 NULL NULL G)
      else if negb (Function =? NULL) && (TPL_APPLICATION <? Tpl') && (Tpl' <? TPL_HIGH_LEVEL)
      then Some (new_event p T Tpl' Function Context G) else None) = Some (mk p)).
  { intros p. unfold mk. destruct (notifies T); [|done]. destruct Hvalid as (? & ? & ?); [done|]. cbn [negb].
    by rewrite (proj2 (Z.eqb_neq _ _)), (proj2 (Z.ltb_lt _ _)), (proj2 (Z.ltb_lt _ _)) by done. }
  assert (Hok : forall p, event_ok (mk p)).
  { intros p. unfold mk. destruct (notifies T) eqn:HT; cbn [negb]; apply new_event_ok; rewrite HT; [|done].
    destruct Hvalid as [? ?]; auto. }
  unfold AllocateEvent. destruct (AllocatePool _ _) as [p|] eqn:Hal; cbn [mbind result_bind].
  2: { destruct (if notifies T then _ else _) as [[??]?]. split; [done|]. cbn [created]. rewrite Hmk. split; [by eexists|eauto]. }
  destruct (AllocatePool_Blocks _ _ _ Hal) as [Hp Hdead].
  change (set_links (zero_links p (links (data s))) _) with (born p zero_event (zero_links p (links (data s))) (data s)).
  assert (Hsig : Signature (mk p) = EVENT_SIGNATURE) by (unfold mk; by destruct (negb _)).
  assert (HT : Type_ (mk p) = T) by (unfold mk; by destruct (negb _)).
  destruct (born_runtime F (data s) p (mk p) (ready_inv _ _ _ Hr) Hp Hdead) as (h & Hrun & E).
  eapply wp_mono with (P := fun '(Status, Event, s') => Status = EFI_SUCCESS /\ Event = p /\ back s s' /\ exists h',
     data s' = born p (mk p) h' (data s) /\ ready (born_lists p (mk p) F) s').
  2: { intros [[Status Event] s'] (-> & -> & Hb & h' & Hd & Hr'). split; [done|]. cbn [created]. rewrite Hmk.
       exists (mk p), h'. split; [done|]. split; [done|]. split; [done|]. split; [apply Hok|]. done. }
  pose proof (create_publish F s p (mk p) h Hr Hp Hdead (Hok p) Hsig E) as Hpub. rewrite HT in Hrun, Hpub.
  destruct (if notifies T then (Tpl', Function, Context) else (0, NULL, NULL)) as [[t f] c] eqn:Htfc.
  assert (Hnew : mk p = new_event p T t f c G).
  { unfold mk. destruct (notifies T); cbn [negb]; by injection Htfc as <- <- <-. }
  rewrite Hnew in *. unfold new_event in Hrun at 1 2 3. clearbody mk.
  rewrite born_update. cbn [mbind result_bind].
  destruct G as [g|]; rewrite ?born_update; cbn [mbind result_bind]; destruct (has T EVT_RUNTIME) eqn:Hrt; rewrite ?born_update; cbn [mbind result_bind];
    unfold new_event in Hpub at 1; rewrite Hrt in Hpub; cbn [links born set_links set_live set_events];
    try (destruct (InsertTailList _ _ _ _ _) as [[x h1]| | |]; try done); injection Hrun as ->; exact Hpub.
Qed.

(** ** [CoreCloseEvent] *)

(** Cancelling a timer makes nothing pending. *)
Lemma CoreSetTimer_cancel F e r s : ready F s -> gEfiCurrentTpl s <= TPL_HIGH_LEVEL - 1 ->
  Acquired (mEfiTimerLock s) = false -> e ∈ live (data s) -> events (data s) !! e = Some r ->
  has (Type_ r) EVT_TIMER = true ->
  wp total (CoreSetTimer Verify Max restore e TimerCancel 0 s) (fun '(Status, s') => Status = EFI_SUCCESS /\ back s s' /\
    ready (del (node e TimerSlot) F) s' /\ exists h, fwd h (node e TimerSlot) = Some NULL /\
      data s' = set_links h (set_events (<[e := set_Timer 0 0 r]> (events (data s))) (data s))).
Proof.
  intros Hr Ht Ha He Hre Hty. pose proof (ready_inv _ _ _ Hr) as Hi. pose proof (live_block Max F _ Hi e He) as HeB.
  unfold CoreSetTimer.
  destruct (bad_event_spec Max F (data s) e Hi (or_intror HeB)) as [[_ ?]|(-> & _ & _)]; [done|].
  cbn [mbind result_bind]. rewrite (event_live _ _ _ Hre). cbn [mbind result_bind]. rewrite Hty. cbn [negb]. rewrite orb_false_r.
  change (u32 TimerCancel >? TimerRelative) with false. cbv beta iota.
  destruct (enter_timer Max F s Hr Ht Ha) as (s1 & -> & Hin & Hd). cbn [mbind result_bind].
  unfold SetTimer_locked. rewrite <-Hd in He, Hre, Hi. change (e + OFFSET_TimerLink) with (node e TimerSlot).
  destruct (dequeue_spec Max F (data s1) e TimerSlot r Hi He Hre) as (h & -> & Hi1 & Hnull); [done|].
  cbn [mbind result_bind]. rewrite (set_event_Ok _ e r) by done. change (TimerCancel =? TimerCancel) with true.
  cbn [mbind result_bind data set_data negb].
  pose proof (timer_ready Max F _ s (set_data (set_links h (data s1)) s1) Hr Ht (inside_data _ _ _ _ Hin) Hi1) as Hr1.
  assert (Hno : forall hd, ~ member (del (node e TimerSlot) F) hd (node e TimerSlot)) by (intros hd [_ ?]%member_del; congruence).
  pose proof (ready_timer Max _ _ e r 0 0 Hr1 He Hre Hno ltac:(lia) ltac:(lia)) as Hr2.
  eapply wp_bind.
  { eapply (release_quiet Max total restore Hres F TimerLock s); try done; [by apply inside_data, inside_data| |].
    - apply (inv_range Max _ _ (ready_inv _ _ _ Hr2)).
    - simpl. rewrite Hd. apply Hr. }
  intros s' [Hds Hb]. cbn [wp]. cbn [data set_data] in Hds. split; [done|]. split; [done|].
  assert (Heq : data s' = set_links h (set_events (<[e := set_Timer 0 0 r]> (events (data s))) (data s))) by (by rewrite Hds, Hd).
  split; [|by exists h]. apply (ready_back Max F _ s); try done.
  - rewrite Hds. apply (ready_inv _ _ _ Hr2).
  - rewrite Heq. apply Hr.
Qed.

(** A field is in a list, or cleared. *)
Definition settled (h : store) (F : lists) (x : ptr) : Prop :=
  (exists hd, member F hd x) \/ ~ within F x /\ fwd h x = Some NULL.

(** One of the three removals under the event lock. *)
Lemma unlink_if_queued_spec F x d : family (links d) F -> (forall hd l, F !! hd = Some l -> capacity Max l) ->
  settled (links d) F x ->
  exists h', unlink_if_queued Max x d = Ok (set_links h' d) /\ family h' (del x F) /\
    ~ within (del x F) x /\ (forall y, ~ within F y -> h' !! y = links d !! y) /\ h' !! x = links d !! x.
Proof.
  intros Hf Hcap Hcase. unfold unlink_if_queued, queued.
  destruct Hcase as [[hd Hm]|[Hw Hnull]].
  - destruct (family_linked _ _ x Hf) as (n & Hn & Hne); [by eapply member_within|].
    rewrite (load_Some _ _ _ Hn). cbn [mbind result_bind]. rewrite (proj2 (Z.eqb_neq _ _)) by done. cbn [negb].
    destruct (member_split F _ _ Hm) as (l1 & l2 & Hl).
    destruct (family_remove Max (links d) F hd l1 x l2 Hf Hl) as (h' & Heq & Hf' & Hout & Hb & Hsame); [by eapply Hcap|].
    unfold unlink. rewrite Heq. exists h'. rewrite <-(del_split (links d) F _ l1 _ l2) in Hf', Hout by done.
    split; [done|]. split; [done|]. split; [done|]. split; [|done]. intros y Hy. apply Hb; [done|].
    intros ->. by apply Hy, (member_within F hd).
  - apply fwd_load in Hnull as (n & Hn & Hz). rewrite Hn. cbn [mbind result_bind]. rewrite Hz. exists (links d).
    rewrite set_links_id, del_absent; [done|]. intros hd' Hm. by apply Hw, (member_within F hd').
Qed.

Lemma del_capacity F x : (forall hd l, F !! hd = Some l -> capacity Max l) -> forall hd l, del x F !! hd = Some l -> capacity Max l.
Proof.
  intros Hc hd l. rewrite lookup_del. intros (l0 & Hl0 & ->)%fmap_Some.
  eapply capacity_length; [apply length_filter|by eapply Hc].
Qed.

Lemma del_within F x y : within (del x F) y -> within F y.
Proof.
  intros (hd & l & Hl & Hy). rewrite lookup_del in Hl. apply fmap_Some in Hl as (l0 & Hl0 & ->).
  exists hd, l0. split; [done|]. apply elem_of_cons in Hy as [->|Hy]; [left|right].
  by apply list_elem_of_filter in Hy as [_ ?].
Qed.

Lemma settled_del h h' F x y : x <> y -> (forall z, ~ within F z -> h' !! z = h !! z) ->
  settled h F x -> settled h' (del y F) x.
Proof.
  intros Hne Hb [[hd Hm]|[Hw Hn]]; [left; exists hd; by apply member_del|right].
  split; [by intros ?%del_within|]. unfold fwd in *. by rewrite Hb.
Qed.

Lemma settled_some h F x : family h F -> settled h F x -> is_Some (h !! x).
Proof.
  intros Hf [[hd Hm]|[_ Hn]].
  - destruct (family_linked h F x Hf) as (n & Hn & _); [by eapply member_within|by eexists].
  - apply is_Some_fwd. by eexists.
Qed.

(** The lists without the fields of [e] that [CoreCloseEvent] takes out. *)
Definition closed (e : ptr) (F : lists) : lists :=
  del (node e SignalSlot) (del (node e NotifySlot) (del (node e RuntimeSlot) F)).

(** The three removals. *)
Lemma unlink_all_spec F d e r : inv F d -> e ∈ live d -> events d !! e = Some r ->
  (forall hd, ~ member F hd (node e TimerSlot)) ->
  exists h, (let! d := unlink_if_queued Max (e + OFFSET_RuntimeLink) d in
      let! d := unlink_if_queued Max (e + OFFSET_NotifyLink) d in
      unlink_if_queued Max (e + OFFSET_SignalLink) d) = Ok (set_links h d) /\
    family h (closed e F) /\
    (forall x, ~ within F x -> h !! x = links d !! x) /\ (forall k, is_Some (h !! node e k)).
Proof.
  intros Hi He Hre Hno. pose proof (live_block Max F d Hi e He) as HeB.
  assert (Hne : forall k k', k <> k' -> node e k <> node e k').
  { intros k k' Hk Heq. by destruct (node_inj Max e e k k' HeB HeB Heq). }
  assert (Hslot : forall k, settled (links d) F (node e k)).
  { intros k. destruct (inv_placed Max F d Hi e r k He Hre) as [[Hm _]|(Hn & Hf & _)]; [left; eauto|right].
    split; [|done]. intros [Hh|[hd Hm]]%(within_member Max F d Hi); [by apply (node_head Max e k)|by apply (Hn hd)]. }
  pose proof (list_capacity Max F d Hi) as Hc0. pose proof (inv_family Max F d Hi) as Hf0.
  set (F1 := del (node e RuntimeSlot) F). set (F2 := del (node e NotifySlot) F1).
  destruct (unlink_if_queued_spec F (node e RuntimeSlot) d Hf0 Hc0 (Hslot _)) as (h1 & Heq1 & Hf1 & Hw1 & Hb1 & Hs1).
  pose proof (del_capacity F (node e RuntimeSlot) Hc0) as Hc1.
  assert (Hslot1 : forall k, k <> RuntimeSlot -> settled h1 F1 (node e k)) by (intros k Hk; apply (settled_del (links d)); auto).
  destruct (unlink_if_queued_spec F1 (node e NotifySlot) (set_links h1 d) Hf1 Hc1 ltac:(by apply Hslot1))
    as (h2 & Heq2 & Hf2 & Hw2 & Hb2 & Hs2). cbn [links set_links] in *.
  pose proof (del_capacity F1 (node e NotifySlot) Hc1) as Hc2.
  destruct (unlink_if_queued_spec F2 (node e SignalSlot) (set_links h2 d) Hf2 Hc2) as (h3 & Heq3 & Hf3 & Hw3 & Hb3 & Hs3).
  { apply (settled_del h1); auto. }
  cbn [links set_links] in *. exists h3.
  change (e + OFFSET_RuntimeLink) with (node e RuntimeSlot). change (e + OFFSET_NotifyLink) with (node e NotifySlot).
  change (e + OFFSET_SignalLink) with (node e SignalSlot). rewrite Heq1. cbn [mbind result_bind].
  rewrite Heq2. cbn [mbind result_bind]. change (set_links h2 (set_links h1 d)) with (set_links h2 d).
  change (set_links h3 (set_links h2 d)) with (set_links h3 d) in Heq3. split; [done|]. split; [done|].
  assert (Hsub1 : forall x, within F1 x -> within F x) by (intros x; apply del_within).
  assert (Hsub2 : forall x, within F2 x -> within F1 x) by (intros x; apply del_within). split.
  - intros x Hx. rewrite Hb3, Hb2, Hb1; auto.
  - intros k. assert (Hw0 : ~ within F (node e TimerSlot)).
    { destruct (Hslot TimerSlot) as [[hd Hm]|[? _]]; [by destruct (Hno hd)|done]. }
    destruct k.
    + rewrite Hs3. apply (settled_some h2 F2 _ Hf2), (settled_del h1); auto.
    + rewrite Hb3, Hs2 by done. apply (settled_some h1 F1 _ Hf1); auto.
    + rewrite Hb3, Hb2, Hs1 by auto. by apply (inv_nodes Max F d Hi).
    + rewrite Hb3, Hb2, Hb1 by auto. by apply (inv_nodes Max F d Hi).
Qed.

(** What closing [e] leaves. *)
Record freed (e : ptr) (F : lists) (d : EventData) (F' : lists) (d' : EventData) : Prop := {
  freed_live : live d' = live d ∖ {[e]};
  freed_events : forall e', e' <> e -> events d' !! e' = events d !! e';
  freed_lists : forall hd x, member F' hd x <-> member F hd x /\ forall k, x <> node e k;
  freed_pending : gEventPending d' = gEventPending d;
  freed_time : mEfiSystemTime d' = mEfiSystemTime d;
  freed_notified : Notified d' = Notified d }.

Lemma member_closed e F hd x : (forall hd, ~ member F hd (node e TimerSlot)) ->
  member (closed e F) hd x <-> member F hd x /\ forall k, x <> node e k.
Proof.
  intros Hno. unfold closed. rewrite !member_del. split.
  - intros [[[Hm H1] H2] H3]. split; [done|]. intros [] ->; try done. by apply (Hno hd).
  - intros [Hm Hne]. auto.
Qed.

Lemma filter_sub (l : list ptr) x hd F : F !! hd = Some l -> ~ member F hd x -> filter (fun y => y <> x) l = l.
Proof. intros Hl Hm. apply filter_absent. intros Hx. apply Hm. by exists l. Qed.

Lemma closed_inv F d e r h : inv F d -> e ∈ live d -> events d !! e = Some r ->
  (forall hd, ~ member F hd (node e TimerSlot)) ->
  family h (closed e F) -> (forall x, ~ within F x -> h !! x = links d !! x) -> (forall k, is_Some (h !! node e k)) ->
  inv (closed e F) (FreeEvent e (set_events (<[e := set_Signature 0 r]> (events d)) (set_links h d))).
Proof.
  intros Hi He Hre Hno Hf Hb Hs. pose proof (live_block Max F d Hi e He) as HeB.
  apply (inv_free Max F d e r h); try done.
  - intros hd. unfold closed. by rewrite !lookup_del, !fmap_is_Some.
  - intros hd x. by apply member_closed.
  - intros l. unfold closed. rewrite !lookup_del. destruct (F !! mEfiTimerList) as [l0|] eqn:E; [|done]. simpl.
    assert (Hother : forall k, k <> TimerSlot -> node e k ∉ l0).
    { intros k Hk Hin. destruct (member_home Max F d Hi mEfiTimerList e r k) as [_ Heq]; [by exists l0|done|done|].
      apply Hk, (home_slot k TimerSlot r r); [by apply (inv_ok Max F d Hi e)..|done]. }
    rewrite !filter_absent; try done; [by apply Hother|..]; rewrite filter_absent; try (by apply Hother);
      rewrite filter_absent; by apply Hother.
  - intros t Hl. unfold closed. by rewrite !lookup_del, Hl.
  - intros x Hx _. by apply Hb.
Qed.

(** The critical section and the end of the function, for an event that is not
    on the timer list. *)
Lemma close_untimed F e r s : ready F s -> e ∈ live (data s) -> events (data s) !! e = Some r ->
  (forall hd, ~ member F hd (node e TimerSlot)) ->
  wp total (
    let! s := CoreAcquireEventLock s in
    let! d := unlink_if_queued Max (e + OFFSET_RuntimeLink) (data s) in
    let! d := unlink_if_queued Max (e + OFFSET_NotifyLink) d in
    let! d := unlink_if_queued Max (e + OFFSET_SignalLink) d in
    let! s := CoreReleaseEventLock restore (set_data d s) in
    let! r := event (data s) e in
    let s := if has (ExFlag r) EVT_EXFLAG_EVENT_PROTOCOL_NOTIFICATION then CoreUnregisterProtocolNotify e s else s in
    let! s := set_event (set_Signature 0) e s in
    Ok (EFI_SUCCESS, set_data (FreeEvent e (data s)) s))
  (fun '(Status, s') => Status = EFI_SUCCESS /\ back s s' /\ ready (closed e F) s' /\ freed e F (data s) (closed e F) (data s')).
Proof.
  intros Hr He Hre Hno. pose proof (ready_inv _ _ _ Hr) as Hi.
  destruct (enter_event Max F s Hr) as (s1 & -> & Hin & Hd). cbn [mbind result_bind]. rewrite Hd.
  destruct (unlink_all_spec F (data s) e r Hi He Hre Hno) as (h & Heq & Hf & Hb & Hs).
  apply bind_Ok in Heq as (d1 & -> & Heq). cbn [mbind result_bind]. apply bind_Ok in Heq as (d2 & -> & Heq).
  cbn [mbind result_bind]. rewrite Heq.
  cbn [mbind result_bind]. pose proof (closed_inv F (data s) e r h Hi He Hre Hno Hf Hb Hs) as Hi'.
  eapply wp_bind.
  { eapply (release_quiet Max total restore Hres F EventQueueLock s (set_data (set_links h (data s)) s1)); try done.
    - apply Hr.
    - by apply inside_data.
    - by eapply event_lock_free.
    - apply (inv_range Max F _ Hi).
    - apply Hr. }
  intros s2 [Hd2 Hb2]. cbn [data set_data] in Hd2. rewrite Hd2, (event_live (set_links h (data s)) e r) by done.
  cbn [mbind result_bind]. rewrite (ok_flags r (inv_ok Max F _ Hi e r He Hre)). cbv zeta.
  rewrite (set_event_Ok _ e r) by (by rewrite Hd2). cbn [mbind result_bind data set_data]. rewrite Hd2. cbn [wp].
  split; [done|].
  assert (Hb' : forall d, back s (set_data d s2)).
  { intros d. destruct Hb2 as [Ht Hk]. split; [done|]. intros l. rewrite get_lock_data. apply Hk. }
  split; [apply Hb'|]. split.
  - apply (ready_back Max F _ s); [done|apply Hb'|done|apply Hr].
  - split; try done.
    + intros e' Hne. simpl. by rewrite lookup_insert_ne.
    + intros hd x. by apply member_closed.
Qed.

Lemma CoreCloseEvent_spec F e s : ready F s -> gEfiCurrentTpl s <= TPL_HIGH_LEVEL - 1 ->
  Acquired (mEfiTimerLock s) = false -> valid e ->
  wp total (CoreCloseEvent Verify Max restore e s) (fun '(Status, s') => back s s' /\
    if bool_decide (e ∈ live (data s)) then Status = EFI_SUCCESS /\ exists F', ready F' s' /\ freed e F (data s) F' (data s')
    else Status = EFI_INVALID_PARAMETER /\ s' = s).
Proof.
  intros Hr Ht Ha Hv. pose proof (ready_inv _ _ _ Hr) as Hi. unfold CoreCloseEvent.
  destruct (bad_event_spec Max F (data s) e Hi Hv) as [[-> Hdead]|(-> & He & r & Hre & Hok)].
  { cbn [mbind result_bind wp]. by rewrite bool_decide_false. }
  cbn [mbind result_bind]. rewrite (event_live _ _ _ Hre), bool_decide_true by done. cbn [mbind result_bind].
  pose proof (live_block Max F _ Hi e He) as HeB.
  eapply wp_bind with (P := fun s1 => back s s1 /\ exists F1 r1, ready F1 s1 /\ events (data s1) !! e = Some r1 /\
    (forall hd, ~ member F1 hd (node e TimerSlot)) /\ (forall hd x, x <> node e TimerSlot -> member F1 hd x <-> member F hd x) /\
    exists h, data s1 = set_links h (set_events (<[e := r1]> (events (data s))) (data s))).
  { destruct (has (Type_ r) EVT_TIMER) eqn:Hty.
    - eapply wp_bind; [by apply (CoreSetTimer_cancel F e r s)|].
      intros [Status s1] (_ & Hb & Hr1 & h & _ & Hd). split; [done|]. exists (del (node e TimerSlot) F), (set_Timer 0 0 r).
      split; [done|]. split; [rewrite Hd; apply lookup_insert_eq|]. split; [by intros hd [_ ?]%member_del|].
      split; [|eauto]. intros hd x Hx. rewrite member_del. tauto.
    - split; [done|]. exists F, r. split; [done|]. split; [done|]. split.
      + intros hd Hm. destruct (member_home Max F _ Hi hd e r TimerSlot Hm HeB Hre) as [_ ->].
        destruct (inv_placed Max F _ Hi e r TimerSlot He Hre) as [[_ Hs]|[Hn _]]; [simpl in Hs; congruence|by apply (Hn _ Hm)].
      + split; [done|]. exists (links (data s)). rewrite insert_id by done. by destruct (data s). }
  intros s1 (Hb1 & F1 & r1 & Hr1 & Hre1 & Hno & Hmem & h & Hd). 
  eapply wp_mono; [apply (close_untimed F1 e r1 s1 Hr1); [by rewrite Hd|done|done]|].
  intros [Status s2] (-> & Hb2 & Hr2 & [H1 H2 H3 H4 H5 H6]). split; [by transitivity s1|]. split; [done|].
  exists (closed e F1). split; [done|]. rewrite Hd in *. split; try done.
  - intros e' Hne. rewrite H2 by done. simpl. by rewrite lookup_insert_ne.
  - intros hd x. rewrite H3. split; (intros [Hm Hne]; split; [|done]); by apply Hmem.
Qed.

(** ** [CoreWaitForEvent] *)

Lemma WaitForEvent_check_any es i F s : total = false -> ready F s -> Forall valid es ->
  wp false (WaitForEvent_check Verify Max restore es i s) (fun '(_, s') => done_any Max s s').
Proof.
  intros Htot. revert i F s. induction es as [|e es IH]; intros i F s Hr Hes; cbn [WaitForEvent_check].
  { by eapply done_refl. }
  apply Forall_cons in Hes as [He Hes].
  eapply wp_bind; [by apply (CoreCheckEvent_any Verify Max total restore Hres F)|].
  intros [Status s1] [Hb [F1 Hr1]]. destruct (decide _); [by split; [|exists F1]|].
  eapply wp_mono; [by apply (IH _ F1)|]. intros [o s2] Hd. by eapply done_trans.
Qed.

Lemma WaitForEvent_loop_any fuel es F s : total = false -> ready F s -> Forall valid es ->
  wp false (WaitForEvent_loop Verify Max restore fuel es s) (fun '(_, _, s') => done_any Max s s').
Proof.
  intros Htot. revert F s. induction fuel as [|fuel IH]; intros F s Hr Hes; [done|]. cbn [WaitForEvent_loop].
  eapply wp_bind; [by apply (WaitForEvent_check_any es 0 F)|].
  intros [[[Status i]|] s1] [Hb [F1 Hr1]]; [by split; [|exists F1]|].
  eapply wp_bind; [apply (CoreSignalEvent_any Verify Max total restore Hres F1); [done|done|]|].
  { apply (inv_idle_event Max F1 _ (ready_inv _ _ _ Hr1)). }
  intros [? s2] [Hb2 [F2 Hr2]]. eapply wp_mono; [by apply (IH F2)|].
  intros [[??] s3] Hd. eapply done_trans; [|exact Hd]. by transitivity s1.
Qed.

Lemma CoreWaitForEvent_any fuel n es F s : total = false -> ready F s -> Forall valid (default [] es) ->
  wp false (CoreWaitForEvent Verify Max restore fuel n es s) (fun '(_, _, s') => done_any Max s s').
Proof.
  intros Htot Hr Hes. unfold CoreWaitForEvent.
  destruct (_ =? _); cbn [negb]; [|by eapply done_refl]. destruct (n =? 0); [by eapply done_refl|].
  destruct es as [es|]; [|by eapply done_refl]. by apply (WaitForEvent_loop_any fuel es F).
Qed.

(** ** The lists with a new event *)

Lemma member_alter f hd0 x0 F hd x : is_Some (F !! hd0) -> (forall l y, y ∈ f l <-> y = x0 \/ y ∈ l) ->
  member (alter f hd0 F) hd x <-> (hd = hd0 /\ x = x0) \/ member F hd x.
Proof.
  intros [l Hl] Hf. rewrite (alter_lookup _ _ _ _ Hl). by apply (member_insert F hd0 l (f l) x0).
Qed.

Lemma member_born F d p r hd x : inv F d -> member (born_lists p r F) hd x -> member F hd x \/ exists k, x = node p k.
Proof.
  intros Hi. assert (Hrt : is_Some (F !! gRuntime_EventHead)) by (apply (inv_heads Max F d Hi); right; right; by left).
  assert (Hsg : is_Some (F !! gEventSignalQueue)) by (apply (inv_heads Max F d Hi); by left).
  unfold born_lists. set (F1 := if has (Type_ r) EVT_RUNTIME then _ else F).
  assert (HF1 : member F1 hd x -> member F hd x \/ exists k, x = node p k).
  { unfold F1. destruct (has (Type_ r) EVT_RUNTIME); [|by left]. rewrite (member_alter _ _ (node p RuntimeSlot)); [|done|clear; set_solver].
    intros [[_ ->]|?]; [right; by eexists|by left]. }
  destruct (has (Type_ r) EVT_NOTIFY_SIGNAL); [|exact HF1]. rewrite (member_alter _ _ (node p SignalSlot)); [| |clear; set_solver].
  - intros [[_ ->]|?]; [right; by eexists|auto].
  - unfold F1. destruct (has (Type_ r) EVT_RUNTIME); [by rewrite lookup_alter_ne|done].
Qed.

Lemma born_member F d p r hd x : inv F d -> member F hd x -> member (born_lists p r F) hd x.
Proof.
  intros Hi Hm. assert (Hrt : is_Some (F !! gRuntime_EventHead)) by (apply (inv_heads Max F d Hi); right; right; by left).
  assert (Hsg : is_Some (F !! gEventSignalQueue)) by (apply (inv_heads Max F d Hi); by left).
  unfold born_lists. set (F1 := if has (Type_ r) EVT_RUNTIME then _ else F).
  assert (HF1 : member F1 hd x).
  { unfold F1. destruct (has (Type_ r) EVT_RUNTIME); [|done]. apply (member_alter _ _ (node p RuntimeSlot)); [done|clear; set_solver|by right]. }
  destruct (has (Type_ r) EVT_NOTIFY_SIGNAL); [|done]. apply (member_alter _ _ (node p SignalSlot)); [|clear; set_solver|by right].
  unfold F1. destruct (has (Type_ r) EVT_RUNTIME); [by rewrite lookup_alter_ne|done].
Qed.
End Life.
