(* ===== verification/EventRun.v ===== *)
(** * Programs, the dispatcher, and lowering the TPL

    [wb entry cur p]: what the event services ask of the program [p] of a
    client that was called at TPL [entry] and runs at TPL [cur].  Programs that
    keep to it, dispatching and lowering the TPL keep the invariant, so that
    [CoreRestoreTpl] is a [restorer], with whatever fuel; and it does so by steps
    of the scheduler ([delivery], [lowers]), each for the first event of the
    highest queue that is not empty. *)

From S2P Require Import Prelude CTypes BaseMath LinkedList ListFamily Event EventInv EventServices EventLife.

(** ** Well-behaved clients *)

Section Clients.
Context `{Platform} (Max : nat) `{!PlatformLaws Max} `{Registry}.

(** Priorities are raised and restored in a nested way; events are given by the
    handles that [CoreCreateEvent] returned; the functions registered are
    [Registered]. *)
Inductive wb (entry : Z) : Z -> prog -> Prop :=
| wb_Done : wb entry entry Done
| wb_RaiseTpl cur NewTpl k : cur <= NewTpl <= TPL_HIGH_LEVEL -> wb entry NewTpl (k EFI_SUCCESS cur) ->
    wb entry cur (Do (RaiseTpl NewTpl) k)
| wb_RestoreTpl cur NewTpl k : entry <= NewTpl <= cur -> wb entry NewTpl (k EFI_SUCCESS 0) ->
    wb entry cur (Do (RestoreTpl NewTpl) k)
| wb_CreateEvent cur t p f c k : Registered f c p -> (forall st e, valid Max e -> wb entry cur (k st e)) ->
    wb entry cur (Do (CreateEvent t p f c) k)
| wb_CreateEventEx cur t p f c g k : Registered f c p -> (forall st e, valid Max e -> wb entry cur (k st e)) ->
    wb entry cur (Do (CreateEventEx t p f c g) k)
| wb_SignalEvent cur e k : valid Max e -> (forall st, wb entry cur (k st 0)) -> wb entry cur (Do (SignalEvent e) k)
| wb_CheckEvent cur e k : valid Max e -> (forall st, wb entry cur (k st 0)) -> wb entry cur (Do (CheckEvent e) k)
| wb_WaitForEvent cur es k : Forall (valid Max) es -> (forall st i, wb entry cur (k st i)) ->
    wb entry cur (Do (WaitForEvent es) k)
| wb_CloseEvent cur e k : valid Max e -> cur < TPL_HIGH_LEVEL -> (forall st, wb entry cur (k st 0)) ->
    wb entry cur (Do (CloseEvent e) k)
| wb_SetTimer cur e t time k : valid Max e -> cur < TPL_HIGH_LEVEL -> 0 <= time < 2 ^ 64 ->
    (forall st, wb entry cur (k st 0)) -> wb entry cur (Do (SetTimer e t time) k)
| wb_TimerTick cur n k : (forall st, wb entry cur (k st 0)) -> wb entry cur (Do (TimerTick n) k).
End Clients.

(** The notification functions are such programs, at the TPL they are
    registered for. *)
Class ClientLaws `{Platform} (Max : nat) `{!PlatformLaws Max} `{Registry} := {
  Client_wb : forall f c t e, Registered f c t -> e ∈ Blocks -> wb Max t t (Client f e c) }.

(** All locks are free. *)
Definition unlocked (s : EventState) : Prop := forall l, Acquired (get_lock l s) = false.

Lemma unlocked_kept s s' : kept s s' -> unlocked s -> unlocked s'.
Proof. intros Hk Hu l. destruct (Hk l) as (_ & -> & _). apply Hu. Qed.

Section Run.
Context `{Machine} `{Platform} (Verify : bool) (Max : nat) `{!PlatformLaws Max} `{Registry} `{!ClientLaws Max}.
Abbreviation inv := (inv Max).
Abbreviation ready := (ready Max).

Section Programs.
Context (restore : Z -> EventState -> result EventState) (Hres : restorer (Max := Max) false restore).

(** A program or call ended at the TPL [t]. *)
Definition ended (t : Z) (s s' : EventState) : Prop := gEfiCurrentTpl s' = t /\ kept s s' /\ exists F', ready F' s'.

Lemma ended_back s s' : done_any Max s s' -> ended (gEfiCurrentTpl s) s s'.
Proof. intros [[? ?] ?]. done. Qed.

Lemma ready_tpl_change F s s' t : ready F s -> data s' = data s -> (forall l, get_lock l s' = get_lock l s) ->
  gEfiCurrentTpl s' = t -> gEfiCurrentTpl s <= t <= TPL_HIGH_LEVEL -> ready F s'.
Proof.
  intros [Hi [Hc1 Hc2] Ht Hq] Hd Hl Htpl Hle. split; [by rewrite Hd| |lia|].
  - split; intros l; rewrite Hl; [done|]. intros Ha. destruct (Hc2 l Ha). split; [done|lia].
  - unfold quiet in *. rewrite Hd, Htpl. eapply Z.lt_le_trans; [exact Hq|]. apply Z.pow_le_mono_r; lia.
Qed.

Lemma RaiseTpl_any F t s : ready F s -> gEfiCurrentTpl s <= t <= TPL_HIGH_LEVEL ->
  exists s', CoreRaiseTpl t s = Ok (gEfiCurrentTpl s, s') /\ ended t s s'.
Proof.
  intros Hr Ht. destruct (CoreRaiseTpl_spec t s Ht) as (s' & Heq & Htpl & Hd & Hl). exists s'. split; [done|].
  split; [done|]. split; [intros l; by rewrite Hl|]. exists F. by apply (ready_tpl_change F s s' t).
Qed.

Lemma restore_ready F t s : ready F s -> unlocked s -> 0 <= t <= gEfiCurrentTpl s ->
  wp false (restore t s) (fun s' => ended t s s').
Proof.
  intros Hr Hu Ht. eapply wp_mono; [eapply (restore_any _ _ Hres eq_refl F t s)|].
  - apply Hr.
  - split; [apply Hr|]. intros l Hl. by rewrite Hu in Hl.
  - done.
  - apply Hr.
  - intros s' (Htpl & Hk & F' & Hi & Hq). split; [done|]. split; [done|]. exists F'.
    assert (Hu' : unlocked s') by (by apply (unlocked_kept s)).
    split; rewrite ?Htpl; try done.
    + split; [|intros l Hl; by rewrite Hu' in Hl]. intros l. destruct (Hk l) as (-> & _). apply Hr.
    + split; [lia|]. pose proof (ready_tpl _ _ _ Hr). lia.
Qed.

(** A call of a well-behaved program, and what follows it. *)
Lemma run_step fuel c k F t entry s (V : EFI_STATUS -> Z -> Prop) :
  wp false (run_call Verify Max restore fuel c s) (fun '(st, v, s') => ended t s s' /\ V st v) ->
  (forall st v s' F', V st v -> ready F' s' -> unlocked s' -> gEfiCurrentTpl s' = t ->
     wp false (run Verify Max restore fuel (k st v) s') (ended entry s')) ->
  ready F s -> unlocked s ->
  wp false (run Verify Max restore fuel (Do c k) s) (ended entry s).
Proof.
  intros Hc Hk Hr Hu. cbn [run]. eapply wp_bind; [exact Hc|]. intros [[st v] s'] [(Ht & Hkp & F' & Hr') Hv].
  eapply wp_mono; [by apply (Hk st v s' F' Hv Hr'); [by apply (unlocked_kept s)|]|].
  intros s'' (Ht'' & Hk'' & F'' & Hr''). split; [done|]. split; [by etransitivity|by exists F''].
Qed.

(** Calls that return at the TPL at which they are made. *)
Lemma run_same fuel c k F entry s (V : EFI_STATUS -> Z -> Prop) :
  wp false (run_call Verify Max restore fuel c s) (fun '(st, v, s') => done_any Max s s' /\ V st v) ->
  (forall st v s' F', V st v -> ready F' s' -> unlocked s' -> gEfiCurrentTpl s' = gEfiCurrentTpl s ->
     wp false (run Verify Max restore fuel (k st v) s') (ended entry s')) ->
  ready F s -> unlocked s ->
  wp false (run Verify Max restore fuel (Do c k) s) (ended entry s).
Proof.
  intros Hc Hk. apply (run_step fuel c k F (gEfiCurrentTpl s) entry s V); [|done].
  eapply wp_mono; [exact Hc|]. intros [[st v] s'] [Hd Hv]. split; [by apply ended_back|done].
Qed.

Lemma CreateEventEx_any F t p f c g s : ready F s -> Registered f c p ->
  wp false (CoreCreateEventEx Verify Max restore t p f c g false s)
    (fun '(_, e, s') => done_any Max s s' /\ valid Max e).
Proof.
  intros Hr Hreg. unfold CoreCreateEventEx. destruct (_ && _ && _ && _).
  { split; [by eapply done_refl|by left]. }
  eapply wp_mono; [apply (CoreCreateEventInternal_spec Verify Max false restore Hres F); [done|]|].
  - intros _ _. by right; right.
  - intros [[st e] s'] [Hb Hc]. unfold created in Hc. destruct st; try done.
    + destruct Hc as (r & h & _ & He & _ & _ & _ & Hr'). split; [split; [done|by eexists]|by right].
    + destruct Hc as (_ & -> & ->). split; [by eapply done_refl|by left].
    + destruct Hc as (_ & _ & -> & ->). split; [by eapply done_refl|by left].
Qed.

(** The calls that take a valid handle. *)
Lemma handle_call_any F c s : ready F s -> unlocked s ->
  match c with
  | SignalEvent e | CheckEvent e => valid Max e
  | CloseEvent e => valid Max e /\ gEfiCurrentTpl s < TPL_HIGH_LEVEL
  | SetTimer e _ time => valid Max e /\ gEfiCurrentTpl s < TPL_HIGH_LEVEL /\ 0 <= time < 2 ^ 64
  | TimerTick _ => True
  | _ => False
  end -> forall fuel,
  wp false (run_call Verify Max restore fuel c s) (fun '(st, v, s') => done_any Max s s' /\ v = 0).
Proof.
  intros Hr Hu Hc fuel. destruct c; try done; cbn [run_call].
  - eapply wp_bind; [by apply (CoreSignalEvent_any Verify Max false restore Hres F)|]. by intros [st s'] Hd.
  - eapply wp_bind; [by apply (CoreCheckEvent_any Verify Max false restore Hres F)|]. by intros [st s'] Hd.
  - destruct Hc as [Hv Ht]. eapply wp_bind; [apply (CoreCloseEvent_spec Verify Max false restore Hres F Event)|]; try done; [lia|apply (Hu TimerLock)|].
    intros [st s'] [Hb Hcase]. split; [|done]. split; [done|].
    destruct (bool_decide _); [destruct Hcase as (_ & F' & Hr' & _); by exists F'|destruct Hcase as [_ ->]; by exists F].
  - destruct Hc as (Hv & Ht & Htime).
    eapply wp_bind; [apply (CoreSetTimer_any Verify Max false restore Hres F Event); try done; [lia|apply (Hu TimerLock)]|].
    by intros [st s'] Hd.
  - eapply wp_bind; [apply (CoreTimerTick_any Verify Max false restore Hres F); [done|done|apply (Hu SystemTimeLock)]|].
    by intros s' Hd.
Qed.


Lemma run_any fuel F entry cur p s : wb Max entry cur p -> 0 <= entry -> ready F s -> unlocked s -> gEfiCurrentTpl s = cur ->
  wp false (run Verify Max restore fuel p s) (ended entry s).
Proof.
  intros Hwb He. revert F s. induction Hwb; intros F s Hr Hu Ht.
  - cbn [run wp]. split; [done|]. split; [done|by exists F].
  - destruct (RaiseTpl_any F NewTpl s Hr) as (s' & Heq & Hend); [lia|].
    eapply (run_step fuel _ _ F NewTpl entry s (fun st v => st = EFI_SUCCESS /\ v = cur)); try done.
    + cbn [run_call]. rewrite Heq, Ht. cbn. done.
    + intros st v s1 F1 [-> ->]. apply IHHwb.
  - eapply (run_step fuel _ _ F NewTpl entry s (fun st v => st = EFI_SUCCESS /\ v = 0)); try done.
    + cbn [run_call]. eapply wp_bind; [apply (restore_ready F); [done|done|lia]|]. done.
    + intros st v s1 F1 [-> ->]. apply IHHwb.
  - eapply (run_same fuel _ _ F entry s (fun _ e => valid Max e)); try done; [|by intros; eauto with lia].
    by apply (CreateEventEx_any F).
  - eapply (run_same fuel _ _ F entry s (fun _ e => valid Max e)); try done; [|by intros; eauto with lia].
    by apply (CreateEventEx_any F).
  - eapply (run_same fuel _ _ F entry s (fun _ v => v = 0)); try done; [by apply (handle_call_any F); subst|].
    intros st v s' F' ->; intros; eauto with lia.
  - eapply (run_same fuel _ _ F entry s (fun _ v => v = 0)); try done; [by apply (handle_call_any F); subst|].
    intros st v s' F' ->; intros; eauto with lia.
  - eapply (run_same fuel _ _ F entry s (fun _ _ => True)); try done; [|by intros; eauto with lia].
    cbn [run_call]. eapply wp_mono; [by apply (CoreWaitForEvent_any Verify Max false restore Hres fuel _ (Some es) F)|].
    by intros [[??]?].
  - eapply (run_same fuel _ _ F entry s (fun _ v => v = 0)); try done; [by apply (handle_call_any F); subst|].
    intros st v s' F' ->; intros; eauto with lia.
  - eapply (run_same fuel _ _ F entry s (fun _ v => v = 0)); try done; [by apply (handle_call_any F); subst|].
    intros st v s' F' ->; intros; eauto with lia.
  - eapply (run_same fuel _ _ F entry s (fun _ v => v = 0)); try done; [by apply (handle_call_any F); subst|].
    intros st v s' F' ->; intros; eauto with lia.
Qed.


(** ** Calling notification functions *)

Lemma CallNotifyFunction_any fuel F e r s : ready F s -> unlocked s -> e ∈ Blocks -> event_ok r ->
  NotifyFunction r <> NULL -> gEfiCurrentTpl s = NotifyTpl r ->
  wp false (CallNotifyFunction Verify Max restore fuel (NotifyFunction r) e (NotifyContext r) s) (done_any Max s).
Proof.
  intros Hr Hu He Hok Hf Ht. unfold CallNotifyFunction.
  destruct (Z.eqb_spec (NotifyFunction r) EfiEventEmptyFunction) as [?|Hempty]; [by eapply done_refl|].
  destruct (ok_function r Hok) as [?|[Htpl [?|[[Hck Ht30]|Hreg]]]]; [done|done| |].
  - rewrite Hck, Z.eqb_refl. apply (CoreCheckTimers_any Verify Max false restore Hres fuel F); try done; [lia|apply (Hu TimerLock)].
  - destruct (Registered_own _ _ _ Hreg) as [_ Hne]. rewrite (proj2 (Z.eqb_neq _ _) Hne).
    eapply wp_mono; [apply (run_any fuel F (NotifyTpl r) (NotifyTpl r)); try done|].
    + by apply Client_wb.
    + unfold TPL_APPLICATION in *. lia.
    + intros s' (Ht' & Hk & Hr'). rewrite <-Ht in Ht'. done.
Qed.

Lemma inv_notified F d e t : inv F d -> inv F (notified e t d).
Proof. intros Hi. destruct Hi. by split. Qed.

(** ** The scheduler *)

Lemma queue_list F d P : inv F d -> 0 <= P < TPL_HIGH_LEVEL -> exists l, F !! gEventQueue P = Some l.
Proof.
  intros Hi HP. apply (inv_heads Max F d Hi). right. right. right. exists P. unfold TPL_HIGH_LEVEL in *. split; [lia|done].
Qed.

(** A queue whose bit is not set is empty. *)
Lemma queue_empty F d t P : inv F d -> quiet t d -> 0 <= t < P -> P < TPL_HIGH_LEVEL -> F !! gEventQueue P = Some [].
Proof.
  intros Hi Hq Ht HP. destruct (queue_list F d P Hi ltac:(lia)) as [[|x l] Hl]; [done|].
  assert (Hb : Z.testbit (gEventPending d) P = true) by (apply (inv_pending Max F d Hi); [lia|by rewrite Hl]).
  pose proof (inv_range Max F d Hi) as [Hnn _].
  rewrite (proj1 (bits_below _ (t + 1) ltac:(lia) Hnn) Hq) in Hb by lia. done.
Qed.

(** Clearing the bit of a queue that has been drained. *)
Lemma inv_drained F d P : inv F d -> 0 <= P < TPL_HIGH_LEVEL -> F !! gEventQueue P = Some [] ->
  inv F (set_pending (Z.ldiff (gEventPending d) (2 ^ P)) d).
Proof.
  intros Hi HP Hl. pose proof (inv_range Max F d Hi) as [Hnn Hlt].
  assert (Hge : 0 <= Z.ldiff (gEventPending d) (2 ^ P)) by (apply Z.ldiff_nonneg; lia).
  assert (Hle : Z.ldiff (gEventPending d) (2 ^ P) < 2 ^ TPL_HIGH_LEVEL).
  { apply bits_below; [done..|]. intros i Hi'. rewrite Z.ldiff_spec. unfold TPL_HIGH_LEVEL in *.
    by rewrite (proj1 (bits_below _ 31 ltac:(lia) Hnn) Hlt). }
  pose proof (inv_pending Max F d Hi) as H10. destruct Hi. split; try done; simpl.
  intros t Ht Hne. rewrite Z.ldiff_spec, Z.pow2_bits_eqb by lia.
  destruct (Z.eqb_spec P t) as [->|Hpt]; [done|]. by rewrite (H10 t Ht Hne).
Qed.

Lemma quiet_drained F d P t : inv F d -> 0 <= t -> quiet t d -> quiet t (set_pending (Z.ldiff (gEventPending d) (2 ^ P)) d).
Proof.
  intros Hi Ht Hq. pose proof (inv_range Max F d Hi) as [Hnn _]. unfold quiet in *. simpl.
  apply bits_below; [lia|apply Z.ldiff_nonneg; lia|]. intros i Hi'. rewrite Z.ldiff_spec.
  by rewrite (proj1 (bits_below _ (t + 1) ltac:(lia) Hnn) Hq).
Qed.

(** A step of the scheduler above the TPL [t].  The first event of the highest
    queue that is not empty is taken out of its queue, its signal is cleared,
    and its notification function is called at the TPL of the queue, with all
    locks free; [returns] says that this call returned.  Or the bit of a queue
    that has been drained is cleared. *)
Inductive delivery (returns : ptr -> IEVENT -> EventState -> EventState -> Prop) (t : Z) (d : EventData) : EventData -> Prop :=
| deliver_next F P e r l h s s' : inv F d -> t < P < TPL_HIGH_LEVEL ->
    (forall Q, P < Q < TPL_HIGH_LEVEL -> F !! gEventQueue Q = Some []) ->
    F !! gEventQueue P = Some (node e NotifySlot :: l) -> events d !! e = Some r ->
    let r' := if has (Type_ r) EVT_NOTIFY_SIGNAL then set_SignalCount 0 r else r in
    data s = notified e P (set_links h (set_events (<[e := r']> (events d)) d)) ->
    inv (del (node e NotifySlot) F) (data s) -> gEfiCurrentTpl s = P -> unlocked s ->
    returns e r' s s' -> gEfiCurrentTpl s' = P -> unlocked s' -> delivery returns t d (data s')
| deliver_drained F P : inv F d -> t < P < TPL_HIGH_LEVEL -> F !! gEventQueue P = Some [] ->
    delivery returns t d (set_pending (Z.ldiff (gEventPending d) (2 ^ P)) d).

(** The notification function of [e], called with [restore]. *)
Definition notify_returns (e : ptr) (r : IEVENT) (s s' : EventState) : Prop :=
  exists fuel, CallNotifyFunction Verify Max restore fuel (NotifyFunction r) e (NotifyContext r) s = Ok s'.

Abbreviation step := (delivery notify_returns).

(** ** The dispatcher *)

(** Inside its critical section at priority [P], between two notifications. *)
Record dispatching (P : Z) (s s1 : EventState) : Prop := {
  dp_inside : inside EventQueueLock s s1;
  dp_quiet : quiet P (data s1);
  dp_inv : exists F, inv F (data s1) }.

(** The first event of a queue that is not empty. *)
Lemma first_notify F d P x l : inv F d -> 0 <= P < TPL_HIGH_LEVEL -> F !! gEventQueue P = Some (x :: l) ->
  exists e r, x = node e NotifySlot /\ e ∈ live d /\ events d !! e = Some r /\ event_ok r /\
    NotifyTpl r = P /\ NotifyFunction r <> NULL /\ CR d x OFFSET_NotifyLink = Ok e.
Proof.
  intros Hi HP Hl. assert (Hm : member F (gEventQueue P) x) by (eexists; split; [done|left]).
  destruct (CR_member Max F d Hi _ _ Hm) as (e & k & r & He & Hre & Hok & -> & Hhd & _ & Hs & HCR).
  assert (k = NotifySlot) as ->.
  { pose proof (ok_tpl r Hok). unfold TPL_HIGH_LEVEL in *. destruct k; simpl in Hhd;
      unfold gEventQueue, gEventSignalQueue, gRuntime_EventHead, mEfiTimerList in Hhd; try done; lia. }
  apply gEventQueue_inj in Hhd. by exists e, r.
Qed.

(** Taking the first event out of the queue, and clearing its signal. *)
Lemma take_first F d P x l : inv F d -> 0 <= P < TPL_HIGH_LEVEL -> F !! gEventQueue P = Some (x :: l) ->
  exists e r d', x = node e NotifySlot /\ e ∈ live d /\ events d !! e = Some r /\ event_ok r /\
    NotifyTpl r = P /\ NotifyFunction r <> NULL /\
    (forall B (f : ptr -> EventData -> result B), (let! n := load (links d) (gEventQueue P) in
      let! Event := CR d (ForwardLink n) OFFSET_NotifyLink in
      let! d := unlink_and_clear Max (Event + OFFSET_NotifyLink) d in
      let! e := event d Event in
      let! d := if has (Type_ e) EVT_NOTIFY_SIGNAL then update_event (set_SignalCount 0) Event d else Ok d in
      f Event d) = f e d') /\
    inv (del x F) d' /\ exists h r', d' = set_links h (set_events (<[e := r']> (events d)) d) /\
      r' = if has (Type_ r) EVT_NOTIFY_SIGNAL then set_SignalCount 0 r else r.
Proof.
  intros Hi HP Hl. destruct (first_notify F d P x l Hi HP Hl) as (e & r & -> & He & Hre & Hok & Htpl & Hf & HCR).
  pose proof (live_block Max F d Hi e He) as HeB.
  destruct (unlink_and_clear_spec Max F d e NotifySlot r Hi He Hre) as (h & Hul & Hi1); [done| |].
  { eexists. split; [simpl; rewrite Htpl; exact Hl|left]. }
  destruct (family_first (links d) F (gEventQueue P) (node e NotifySlot :: l)) as (n & Hn & Hfst); [apply Hi|done|].
  simpl in Hfst.
  set (r' := if has (Type_ r) EVT_NOTIFY_SIGNAL then set_SignalCount 0 r else r).
  exists e, r, (set_links h (set_events (<[e := r']> (events d)) d)). do 6 (split; [done|]). split; [|split; [|eauto]].
  - intros B f. rewrite Hn. cbn [mbind result_bind]. rewrite Hfst, HCR. cbn [mbind result_bind].
    change (e + OFFSET_NotifyLink) with (node e NotifySlot). rewrite Hul. cbn [mbind result_bind].
    rewrite (event_live (set_links h d) e r) by done. cbn [mbind result_bind]. unfold r'.
    destruct (has (Type_ r) EVT_NOTIFY_SIGNAL).
    + by rewrite (update_event_Ok (set_links h d) e r).
    + cbn [mbind result_bind]. rewrite insert_id by done. by destruct d.
  - change (set_links h (set_events (<[e := r']> (events d)) d)) with
      (set_events (<[e := r']> (events (set_links h d))) (set_links h d)).
    unfold r'. destruct (has _ _); [by apply inv_count|]. rewrite insert_id by done. by destruct d.
Qed.

Lemma DispatchEventNotifies_step_any fuel F t P s s1 x l : ready F s -> unlocked s -> 0 <= P < TPL_HIGH_LEVEL -> t < P ->
  gEfiCurrentTpl s = P -> dispatching P s s1 -> forall F1, inv F1 (data s1) -> F1 !! gEventQueue P = Some (x :: l) ->
  wp false (DispatchEventNotifies_step Verify Max restore fuel P s1)
    (fun s' => dispatching P s s' /\ step t (data s1) (data s')).
Proof.
  intros Hr Hu HP HtP Ht [Hin Hq _] F1 Hi1 Hl. unfold DispatchEventNotifies_step.
  destruct (take_first F1 (data s1) P x l Hi1 HP Hl) as (e & r & d' & -> & He & Hre & Hok & Htpl & Hf & Htake & Hi' & h & r' & Hd' & Hr').
  rewrite Htake. clear Htake.
  assert (Hq' : quiet P d') by (by rewrite Hd').
  eapply wp_bind; [eapply (release_quiet Max false restore Hres F EventQueueLock s (set_data d' s1)); try done|].
  { apply Hr. } { by apply inside_data. } { apply (inv_range Max _ _ Hi'). } { by rewrite Ht. }
  intros s2 [Hd2 Hb2]. cbn [data set_data] in Hd2. rewrite Hd2.
  assert (Hre' : events d' !! e = Some r') by (rewrite Hd'; apply lookup_insert_eq).
  assert (He' : e ∈ live d') by (by rewrite Hd'). pose proof (inv_ok Max _ _ Hi' e r' He' Hre') as Hok'.
  rewrite (event_live _ _ _ Hre'). cbn [mbind result_bind].
  assert (Hf' : NotifyFunction r' <> NULL) by (rewrite Hr'; by destruct (has _ _)).
  assert (Htpl' : NotifyTpl r' = P) by (rewrite Hr'; by destruct (has _ _)).
  rewrite (proj2 (Z.eqb_neq _ _) Hf'). cbn [negb ASSERT mbind result_bind].
  destruct Hb2 as [Ht2 Hk2]. set (s3 := set_data (notified e (gEfiCurrentTpl s2) d') s2).
  assert (Hb3 : back s s3) by (split; [done|]; intros k; unfold s3; rewrite get_lock_data; apply Hk2).
  assert (Hr3 : ready (del (node e NotifySlot) F1) s3).
  { apply (ready_back Max F _ s); try done; [by apply inv_notified|]. rewrite Ht. exact Hq'. }
  assert (Hu3 : unlocked s3) by (apply (unlocked_kept s); [apply Hb3|done]).
  eapply wp_bind.
  { apply wp_ok. eapply (CallNotifyFunction_any fuel _ e r' s3 Hr3); try done.
    - by apply (live_block Max F1 (data s1)).
    - rewrite Htpl', <-Ht. apply Hb3. }
  intros s4 [Hcall [Hb4 [F4 Hr4]]]. destruct (enter_event Max F4 s4 Hr4) as (s5 & -> & Hin5 & Hd5). cbn [wp].
  assert (Hb : back s s4) by (by transitivity s3). split; [split|].
  - destruct Hin5 as [I1 I2 I3], Hb as [Hbt Hbk]. split; [done|by rewrite <-Hbt|].
    intros k Hk. etransitivity; [apply Hbk|by apply I3].
  - rewrite Hd5, <-Ht, <-(proj1 Hb). apply Hr4.
  - rewrite Hd5. exists F4. apply Hr4.
  - rewrite Hd5. subst r'. apply (deliver_next _ _ _ F1 P e r l h s3); try done.
    + lia.
    + intros Q HQ. apply (queue_empty F1 (data s1) P); [done|done|lia|lia].
    + unfold s3. simpl. by rewrite Ht2, Ht, Hd'.
    + apply Hr3.
    + rewrite <-Ht. apply Hb3.
    + by exists fuel.
    + rewrite <-Ht. apply Hb.
    + apply (unlocked_kept s); [apply Hb|done].
Qed.

Lemma DispatchEventNotifies_loop_any fuel F t P s s1 : ready F s -> unlocked s -> 0 <= P < TPL_HIGH_LEVEL -> t < P ->
  gEfiCurrentTpl s = P -> dispatching P s s1 ->
  wp false (DispatchEventNotifies_loop Verify Max restore fuel P s1) (fun s' => dispatching P s s' /\
    rtc (step t) (data s1) (data s') /\ exists F', inv F' (data s') /\ F' !! gEventQueue P = Some []).
Proof.
  intros Hr Hu HP HtP Ht. revert s1. induction fuel as [|fuel IH]; intros s1 Hdp; [done|]. cbn [DispatchEventNotifies_loop].
  pose proof Hdp as [_ _ [F1 Hi1]]. destruct (queue_list F1 _ P Hi1 HP) as [l Hl].
  rewrite (family_IsListEmpty Max (links (data s1)) F1 (gEventQueue P) l) by
    (first [apply Hi1|done|by apply (list_capacity Max F1 (data s1) Hi1 (gEventQueue P))]).
  cbn [mbind result_bind]. destruct l as [|x l].
  - rewrite bool_decide_true by done. split; [done|]. split; [done|by exists F1].
  - rewrite bool_decide_false by done.
    eapply wp_bind; [by eapply (DispatchEventNotifies_step_any fuel F t P s s1 x l Hr Hu HP HtP Ht Hdp F1)|].
    intros s2 [Hdp2 Hstep]. eapply wp_mono; [by apply IH|]. intros s' (Hdp' & Hsteps & HF'). split; [done|]. split; [|done].
    by eapply rtc_l.
Qed.

(** A queue is dispatched at its own TPL. *)
Lemma CoreDispatchEventNotifies_any fuel F t P s : ready F s -> unlocked s -> 0 <= P < TPL_HIGH_LEVEL -> t < P -> gEfiCurrentTpl s = P ->
  wp false (CoreDispatchEventNotifies Verify Max restore fuel P s)
    (fun s' => done_any Max s s' /\ rtc (step t) (data s) (data s')).
Proof.
  intros Hr Hu HP HtP Ht. unfold CoreDispatchEventNotifies.
  destruct (enter_event Max F s Hr) as (s1 & -> & Hin & Hd). cbn [mbind result_bind].
  pose proof (inside_lock _ _ _ Hin) as Hlk. simpl in Hlk. rewrite Hlk. cbn [OwnerTpl]. rewrite Ht, Z.eqb_refl.
  cbn [ASSERT mbind result_bind].
  eapply wp_bind; [apply (DispatchEventNotifies_loop_any fuel F t P s s1 Hr Hu HP HtP Ht)|].
  { split; [done|rewrite Hd, <-Ht; apply Hr|exists F; rewrite Hd; apply Hr]. }
  intros s2 ([Hin2 Hq2 _] & Hsteps & F2 & Hi2 & Hl2). rewrite int_bit_Ok by done. cbn [mbind result_bind].
  pose proof (inv_drained F2 _ P Hi2 HP Hl2) as Hi3. pose proof (quiet_drained F2 _ P P Hi2 ltac:(lia) Hq2) as Hq3.
  set (d3 := set_pending _ (data s2)) in *.
  eapply wp_mono; [apply (leave_quiet Max false restore Hres F F2 s (set_data d3 s2) Hr)|].
  - by apply inside_data.
  - done.
  - right. by rewrite Ht.
  - intros s' [Hds Hb]. cbn [data set_data] in Hds. split.
    + split; [done|]. exists F2. by apply (ready_back Max F F2 s); rewrite ?Hds, ?Ht.
    + rewrite Hds, <-Hd. eapply rtc_r; [exact Hsteps|]. apply (deliver_drained _ _ _ F2); [done|lia|done].
Qed.

(** ** Lowering the TPL *)

(** Between two queues. *)
Record lowering (s s1 : EventState) : Prop := {
  lw_kept : kept s s1;
  lw_inv : exists F, inv F (data s1) }.

Lemma pending_tpl F d t : inv F d -> gEventPending d <> 0 -> t < Z.log2 (gEventPending d) -> 0 <= t ->
  0 <= Z.log2 (gEventPending d) < TPL_HIGH_LEVEL.
Proof.
  intros Hi Hne Ht Ht0. pose proof (inv_range Max F d Hi). split; [lia|]. apply Z.log2_lt_pow2; lia.
Qed.

Lemma not_above F d t : inv F d -> 0 <= t -> Z.log2 (gEventPending d) <= t -> quiet t d.
Proof.
  intros Hi Ht Hle. pose proof (inv_range Max F d Hi) as [Hnn _]. unfold quiet.
  destruct (Z.eq_dec (gEventPending d) 0) as [->|Hne]; [apply Z.pow_pos_nonneg; lia|]. apply Z.log2_lt_pow2; lia.
Qed.

(** Whoever waits for a lock is not interrupted. *)
Lemma calm_unlocked t s : calm t s -> t < TPL_HIGH_LEVEL - 1 -> unlocked s.
Proof.
  intros [_ Hh] Ht l. destruct (Acquired (get_lock l s)) eqn:E; [|done]. destruct (Hh l E) as [Hl Hle].
  unfold TPL_HIGH_LEVEL in *. by destruct l; simpl in Hle; unfold TPL_HIGH_LEVEL in *; try lia.
Qed.

Lemma interrupts_same b s : data (CoreSetInterruptState b s) = data s /\
  gEfiCurrentTpl (CoreSetInterruptState b s) = gEfiCurrentTpl s /\
  forall l, get_lock l (CoreSetInterruptState b s) = get_lock l s.
Proof.
  destruct (interrupts_only b s) as [b' ->]. split; [done|]. split; [done|]. by intros [].
Qed.

Lemma pending64 F d : inv F d -> gEventPending d < 2 ^ 64.
Proof.
  intros Hi. pose proof (inv_range Max F d Hi). assert (2 ^ TPL_HIGH_LEVEL <= 2 ^ 64) by (by apply Z.pow_le_mono_r). lia.
Qed.

(** The loop is left when nothing above [t] is pending ... *)
Lemma RestoreTpl_loop_idle fuel t s : 0 <= t <= TPL_HIGH_LEVEL -> 0 <= gEventPending (data s) -> quiet t (data s) ->
  RestoreTpl_loop Verify Max restore (S fuel) t s = Ok s.
Proof.
  intros Ht Hp Hq. cbn [RestoreTpl_loop]. destruct (Z.eqb_spec (gEventPending (data s)) 0) as [|Hnz]; [done|].
  unfold quiet in Hq. assert (Hlog : Z.log2 (gEventPending (data s)) < t + 1) by (apply Z.log2_lt_pow2; lia).
  rewrite HighBitSet64_Ok.
  - cbn [mbind result_bind]. by rewrite (proj2 (Z.leb_le _ _)) by lia.
  - assert (2 ^ (t + 1) <= 2 ^ 64) by (apply Z.pow_le_mono_r; unfold TPL_HIGH_LEVEL in *; lia). lia.
Qed.

(** ... and otherwise dispatches the highest pending queue, at its TPL. *)
Definition raised (P : Z) (s : EventState) : EventState := CoreSetInterruptState true (set_tpl P s).

Lemma RestoreTpl_loop_next fuel F t s : inv F (data s) -> gEventPending (data s) <> 0 -> 0 <= t ->
  let P := Z.log2 (gEventPending (data s)) in t < P ->
  RestoreTpl_loop Verify Max restore (S fuel) t s =
    let! s := CoreDispatchEventNotifies Verify Max restore fuel P (raised P s) in
    RestoreTpl_loop Verify Max restore fuel t s.
Proof.
  intros Hi Hnz Ht P HP. pose proof (inv_range Max F _ Hi). pose proof (pending64 F _ Hi). cbn [RestoreTpl_loop].
  rewrite (proj2 (Z.eqb_neq _ _) Hnz), HighBitSet64_Ok by lia. cbn [mbind result_bind]. fold P.
  pose proof (pending_tpl F _ t Hi Hnz HP Ht) as HP'. fold P in HP'.
  by rewrite (proj2 (Z.leb_gt _ _)), (proj2 (Z.ltb_lt _ _)) by lia.
Qed.

Lemma raised_ready F t P s : inv F (data s) -> calm t s -> t < P -> 0 <= t -> P <= TPL_HIGH_LEVEL -> quiet P (data s) ->
  ready F (raised P s) /\ data (raised P s) = data s /\ gEfiCurrentTpl (raised P s) = P /\ kept s (raised P s).
Proof.
  intros Hi Hc HP Ht HP' Hq. destruct (interrupts_same true (set_tpl P s)) as (Hd & Htpl & Hl). unfold raised.
  set (s2 := CoreSetInterruptState true (set_tpl P s)) in *. simpl in Hd, Htpl.
  assert (Hk : kept s s2) by (intros l; by rewrite Hl, get_lock_tpl).
  split; [|done]. split; rewrite ?Hd, ?Htpl; [done| |lia|done].
  apply (calm_mono t); [lia|by apply (calm_kept t s)].
Qed.

Lemma RestoreTpl_loop_any fuel t s s1 : calm t s -> 0 <= t -> lowering s s1 ->
  wp false (RestoreTpl_loop Verify Max restore fuel t s1) (fun s' => lowering s s' /\ quiet t (data s') /\
    rtc (step t) (data s1) (data s')).
Proof.
  intros Hc Ht. revert s1. induction fuel as [|fuel IH]; intros s1 [Hk [F Hi]]; [done|].
  assert (Hlow : lowering s s1) by (split; [done|by exists F]).
  destruct (Z.eq_dec (gEventPending (data s1)) 0) as [Hz|Hnz].
  { cbn [RestoreTpl_loop]. rewrite Hz. split; [done|]. split; [|done]. unfold quiet. rewrite Hz. apply Z.pow_pos_nonneg; lia. }
  set (P := Z.log2 (gEventPending (data s1))). destruct (Z.le_gt_cases P t) as [Hle|Hgt].
  { cbn [RestoreTpl_loop]. pose proof (inv_range Max F _ Hi). pose proof (pending64 F _ Hi).
    rewrite (proj2 (Z.eqb_neq _ _) Hnz), HighBitSet64_Ok by lia. cbn [mbind result_bind]. fold P.
    rewrite (proj2 (Z.leb_le _ _)) by lia. split; [done|]. split; [by apply (not_above F)|done]. }
  rewrite (RestoreTpl_loop_next fuel F) by done. fold P.
  pose proof (pending_tpl F _ t Hi Hnz Hgt Ht) as HP. fold P in HP.
  destruct (raised_ready F t P s1) as (Hr2 & Hd2 & Ht2 & Hk2); try done; [by apply (calm_kept t s)|lia| |].
  { apply (not_above F); [done|lia|done]. }
  eapply wp_bind; [apply (CoreDispatchEventNotifies_any fuel F t P _ Hr2); try done|].
  { apply (calm_unlocked t); [|lia]. apply (calm_kept t s); [by transitivity s1|done]. }
  intros s3 [[[_ Hk3] [F3 Hr3]] Hsteps]. eapply wp_mono; [apply IH|].
  { split; [by transitivity (raised P s1); [transitivity s1|]|exists F3; apply Hr3]. }
  intros s' (Hlow' & Hq' & Hsteps'). split; [done|]. split; [done|]. rewrite Hd2 in Hsteps. by etransitivity.
Qed.

Lemma RestoreTpl_body_any fuel F t s : inv F (data s) -> calm t s -> 0 <= t <= gEfiCurrentTpl s ->
  gEfiCurrentTpl s <= TPL_HIGH_LEVEL ->
  wp false (RestoreTpl_body Verify Max restore fuel t s) (fun s' => gEfiCurrentTpl s' = t /\ kept s s' /\
    (gCpu = true -> gSmmBase2 = None -> t < TPL_HIGH_LEVEL -> InterruptState s' = true) /\
    rtc (step t) (data s) (data s') /\ exists F', inv F' (data s') /\ quiet t (data s')).
Proof.
  intros Hi Hc Ht Hh. unfold RestoreTpl_body.
  rewrite Z.gtb_ltb, (proj2 (Z.ltb_ge (gEfiCurrentTpl s) t)), (proj2 (Z.leb_le t TPL_HIGH_LEVEL)) by lia. cbn [negb ASSERT mbind result_bind].
  set (s1 := if _ && _ then _ else s).
  assert (Hs1 : data s1 = data s /\ kept s s1).
  { unfold s1. destruct (_ && _); [|done]. split; [done|]. intros l. by rewrite get_lock_tpl. }
  destruct Hs1 as [Hd1 Hk1].
  eapply wp_bind; [apply (RestoreTpl_loop_any fuel t s s1 Hc); [lia|]|].
  { split; [done|]. exists F. by rewrite Hd1. }
  intros s2 ([Hk2 [F2 Hi2]] & Hq2 & Hsteps). rewrite Hd1 in Hsteps. cbn [wp].
  destruct (interrupts_same true (set_tpl t s2)) as (Hd3 & Ht3 & Hl3).
  destruct (Z.ltb_spec t TPL_HIGH_LEVEL); rewrite ?Hd3, ?Ht3; (split; [done|split; [|split; [|split; [done|by exists F2]]]]).
  - intros l. rewrite Hl3, get_lock_tpl. apply Hk2.
  - unfold CoreSetInterruptState. by intros -> ->.
  - intros l. rewrite get_lock_tpl. apply Hk2.
  - lia.
Qed.
End Programs.

(** Nothing above the new TPL is pending: only the TPL changes. *)
Lemma RestoreTpl_body_quiet restore fuel t s : 0 <= t <= gEfiCurrentTpl s ->
  gEfiCurrentTpl s <= TPL_HIGH_LEVEL -> 0 <= gEventPending (data s) -> quiet t (data s) ->
  wp true (RestoreTpl_body Verify Max restore (S fuel) t s) (fun s' => data s' = data s /\ gEfiCurrentTpl s' = t /\ kept s s').
Proof.
  intros Ht Hh Hp Hq. unfold RestoreTpl_body.
  rewrite Z.gtb_ltb, (proj2 (Z.ltb_ge (gEfiCurrentTpl s) t)), (proj2 (Z.leb_le t TPL_HIGH_LEVEL)) by lia. cbn [negb ASSERT mbind result_bind].
  set (s1 := if _ && _ then _ else s).
  assert (Hs1 : data s1 = data s /\ forall l, get_lock l s1 = get_lock l s).
  { unfold s1. destruct (_ && _); [|done]. split; [done|]. intros l. by rewrite get_lock_tpl. }
  destruct Hs1 as [Hd1 Hl1]. rewrite RestoreTpl_loop_idle by (rewrite ?Hd1; done || lia). cbn [mbind result_bind wp].
  destruct (interrupts_same true (set_tpl t s1)) as (Hd3 & Ht3 & Hl3).
  destruct (_ <? _); rewrite ?Hd3, ?Ht3; (split; [done|split; [done|]]); intros l;
    rewrite ?Hl3, get_lock_tpl, Hl1; done.
Qed.

(** ** The knot *)

Lemma CoreRestoreTpl_partial fuel : restorer (Max := Max) false (CoreRestoreTpl Verify Max fuel).
Proof.
  induction fuel as [|fuel IH]; [by split|]. cbn [CoreRestoreTpl]. split.
  - intros t s _ Ht Hh Hp Hq. destruct fuel as [|fuel].
    + unfold RestoreTpl_body. rewrite Z.gtb_ltb, (proj2 (Z.ltb_ge (gEfiCurrentTpl s) t)), (proj2 (Z.leb_le t TPL_HIGH_LEVEL)) by lia. done.
    + apply (wp_partial true). by apply RestoreTpl_body_quiet.
  - intros _ F t s Hi Hc Ht Hh. eapply wp_mono; [by apply (RestoreTpl_body_any _ IH fuel F)|].
    by intros s' (Htpl & Hk & _ & _ & HF).
Qed.

(** The TPL is lowered from [d] to [d'] by steps of the scheduler. *)
Definition lowers : Z -> EventData -> EventData -> Prop := fun t =>
  rtc (delivery (fun e r s s' => exists n, notify_returns (CoreRestoreTpl Verify Max n) e r s s') t).

Lemma delivery_mono (R R' : ptr -> IEVENT -> EventState -> EventState -> Prop) t d d' :
  (forall e r s s', R e r s s' -> R' e r s s') -> delivery R t d d' -> delivery R' t d d'.
Proof.
  intros HR Hd. destruct Hd; [by eapply deliver_next; eauto|by eapply deliver_drained].
Qed.

Lemma CoreRestoreTpl_lowers fuel F t s : inv F (data s) -> calm t s -> 0 <= t <= gEfiCurrentTpl s ->
  gEfiCurrentTpl s <= TPL_HIGH_LEVEL ->
  wp false (CoreRestoreTpl Verify Max fuel t s) (fun s' => gEfiCurrentTpl s' = t /\ kept s s' /\
    (gCpu = true -> gSmmBase2 = None -> t < TPL_HIGH_LEVEL -> InterruptState s' = true) /\
    lowers t (data s) (data s') /\ exists F', inv F' (data s') /\ quiet t (data s')).
Proof.
  intros Hi Hc Ht Hh. destruct fuel as [|fuel]; [done|].
  eapply wp_mono; [by apply (RestoreTpl_body_any _ (CoreRestoreTpl_partial fuel) fuel F t s)|].
  intros s' (Htpl & Hk & Hint & Hsteps & HF). do 3 (split; [done|]). split; [|done].
  eapply rtc_congruence with (f := fun d => d); [|exact Hsteps]. intros d d'. apply delivery_mono. by eauto.
Qed.

Lemma CoreRestoreTpl_total fuel : restorer (Max := Max) true (CoreRestoreTpl Verify Max (S (S fuel))).
Proof. split; [|done]. intros t s _ Ht Hh Hp Hq. by apply RestoreTpl_body_quiet. Qed.
End Run.
