(* ===== verification/EventDispatch.v ===== *)
(** * What lowering the TPL delivers

    If the notification functions return without calling the event services,
    lowering the TPL calls them all: queue after queue from the highest
    priority down, and within a queue in the order of their signals.  The fuel
    that is enough for it is the number of priorities and of live events. *)

From S2P Require Import Prelude CTypes BaseMath LinkedList ListFamily Event EventInv EventServices EventLife EventRun.

Section Dispatch.
Context `{Machine} `{Platform} (Verify : bool) (Max : nat) `{!PlatformLaws Max} `{Registry}.
Abbreviation inv := (inv Max).
Abbreviation ready := (ready Max).

(** The notification function of [r] returns at once. *)
Definition passive (e : ptr) (r : IEVENT) : Prop :=
  NotifyFunction r = EfiEventEmptyFunction \/
  NotifyFunction r <> CoreCheckTimers_function /\ Client (NotifyFunction r) e (NotifyContext r) = Done.

(** The events whose notification is queued at priority [P]. *)
Definition queue (F : lists) (P : Z) : list ptr :=
  (fun x => x - OFFSET_NotifyLink) <$> default [] (F !! gEventQueue P).

(** Events differ in their [SignalCount] only. *)
Definition same_events (d d' : EventData) : Prop :=
  forall e r, events d !! e = Some r -> exists n, events d' !! e = Some (set_SignalCount n r).

#[local] Instance same_events_preorder : PreOrder same_events.
Proof.
  split; [intros d e r Hr; exists (SignalCount r); by destruct r|].
  intros d1 d2 d3 E1 E2 e r Hr. destruct (E1 e r Hr) as (n & Hn). destruct (E2 e _ Hn) as (m & Hm). by exists m.
Qed.

(** The notifications [ns] have been delivered; the lists of [F] whose heads
    satisfy [kept_heads] are as they were. *)
Record delivered (ns : list (ptr * Z)) (kept_heads : ptr -> Prop) (F : lists) (d : EventData) (F' : lists) (d' : EventData)
    : Prop := {
  dl_inv : inv F' d';
  dl_notified : Notified d' = Notified d ++ ns;
  dl_lists : forall hd, kept_heads hd -> F' !! hd = F !! hd;
  dl_live : live d' = live d;
  dl_time : mEfiSystemTime d' = mEfiSystemTime d;
  dl_events : same_events d d' }.

Lemma delivered_refl (K : ptr -> Prop) F d : inv F d -> delivered [] K F d F d.
Proof. intros Hi. split; [done|by rewrite app_nil_r|done|done|done|done]. Qed.

Lemma delivered_trans ns1 ns2 (K K1 K2 : ptr -> Prop) F d F1 d1 F2 d2 : (forall hd, K hd -> K1 hd /\ K2 hd) ->
  delivered ns1 K1 F d F1 d1 -> delivered ns2 K2 F1 d1 F2 d2 -> delivered (ns1 ++ ns2) K F d F2 d2.
Proof.
  intros HK [] []. split; try congruence; [by rewrite dl_notified1, dl_notified0, app_assoc| |by transitivity d1].
  intros hd [? ?]%HK. by rewrite dl_lists1, dl_lists0.
Qed.

(** ... of the events queued at [P]. *)
Definition passive_queue (P : Z) (F : lists) (d : EventData) : Prop :=
  forall e r, e ∈ queue F P -> events d !! e = Some r -> passive e r.

Lemma passive_kept P F d F' d' : inv F d -> 0 <= P < TPL_HIGH_LEVEL -> (forall e, e ∈ queue F' P -> e ∈ queue F P) ->
  same_events d d' -> passive_queue P F d -> passive_queue P F' d'.
Proof.
  intros Hi HP Hsub Hs Hp e r' He Hr'. apply Hsub in He. destruct (queue_list Max F d P Hi HP) as [l Hl].
  assert (Hlv : e ∈ live d).
  { destruct (list_nodes Max F d Hi _ _ Hl) as (k & es & -> & _ & Hes). unfold queue in He. rewrite Hl in He. simpl in He.
    rewrite <-list_fmap_compose in He. apply list_elem_of_fmap in He as (e0 & -> & He0).
    rewrite Forall_forall in Hes. destruct (Hes e0 He0) as (Hl0 & r0 & Hr0 & Hhd).
    assert (k = NotifySlot) as ->.
    { pose proof (ok_tpl r0 (inv_ok Max F d Hi e0 r0 Hl0 Hr0)). unfold TPL_HIGH_LEVEL in *. destruct k; simpl in Hhd;
        unfold gEventQueue, gEventSignalQueue, gRuntime_EventHead, mEfiTimerList in Hhd; try done; lia. }
    simpl. by replace (node e0 NotifySlot - OFFSET_NotifyLink) with e0 by (unfold node; simpl; lia). }
  destruct (live_record Max F d Hi e Hlv) as (r & Hr & _). destruct (Hs e r Hr) as (n & Hn). simplify_eq.
  exact (Hp e r He Hr).
Qed.

Section Total.
Context (total : bool) (restore : Z -> EventState -> result EventState) (Hres : restorer (Max := Max) total restore).

Lemma CallNotifyFunction_passive fuel e r s : passive e r ->
  CallNotifyFunction Verify Max restore fuel (NotifyFunction r) e (NotifyContext r) s = Ok s.
Proof.
  unfold CallNotifyFunction. intros [->|[Hne Hcl]]; [done|].
  destruct (_ =? _); [done|]. by rewrite (proj2 (Z.eqb_neq _ _) Hne), Hcl.
Qed.

(** The first event of the queue [P] is notified. *)
Lemma DispatchEventNotifies_step_passive fuel F P s s1 x l : ready F s -> 0 <= P < TPL_HIGH_LEVEL ->
  gEfiCurrentTpl s = P -> inside EventQueueLock s s1 -> quiet P (data s1) ->
  forall F1, passive_queue P F1 (data s1) -> inv F1 (data s1) -> F1 !! gEventQueue P = Some (x :: l) ->
  wp total (DispatchEventNotifies_step Verify Max restore fuel P s1) (fun s' => inside EventQueueLock s s' /\
    gEventPending (data s') = gEventPending (data s1) /\ exists F', F' !! gEventQueue P = Some l /\
    delivered [(x - OFFSET_NotifyLink, P)] (fun hd => hd <> gEventQueue P) F1 (data s1) F' (data s')).
Proof.
  intros Hr HP Ht Hin Hq F1 Hpas Hi1 Hl. unfold DispatchEventNotifies_step.
  destruct (take_first Max F1 (data s1) P x l Hi1 HP Hl) as (e & r & d' & -> & He & Hre & Hok & Htpl & Hf & Htake & Hi' & h & r' & Hd' & Hr').
  rewrite Htake. clear Htake. replace (node e NotifySlot - OFFSET_NotifyLink) with e by (unfold node; simpl; lia).
  assert (Hqe : e ∈ queue F1 P).
  { unfold queue. rewrite Hl. simpl. replace (node e NotifySlot - OFFSET_NotifyLink) with e by (unfold node; simpl; lia). left. }
  assert (Hq' : quiet P d') by (by rewrite Hd').
  eapply wp_bind; [eapply (release_quiet Max total restore Hres F EventQueueLock s (set_data d' s1)); try done|].
  { apply Hr. } { by apply inside_data. } { by eapply event_lock_free. } { apply (inv_range Max _ _ Hi'). } { by rewrite Ht. }
  intros s2 [Hd2 Hb2]. cbn [data set_data] in Hd2. rewrite Hd2.
  assert (Hre' : events d' !! e = Some r') by (rewrite Hd'; apply lookup_insert_eq).
  assert (Hcount : exists n, r' = set_SignalCount n r).
  { rewrite Hr'. destruct (has _ _); [by exists 0|exists (SignalCount r); by destruct r]. }
  destruct Hcount as [n Hn]. clear Hr'.
  rewrite (event_live _ _ _ Hre'). cbn [mbind result_bind].
  assert (Hf' : NotifyFunction r' <> NULL) by (by rewrite Hn).
  rewrite (proj2 (Z.eqb_neq _ _) Hf'). cbn [negb ASSERT mbind result_bind].
  rewrite CallNotifyFunction_passive by (rewrite Hn; exact (Hpas e r Hqe Hre)). cbn [mbind result_bind].
  destruct Hb2 as [Ht2 Hk2]. rewrite Ht2, Ht. set (s3 := set_data (notified e P d') s2).
  assert (Hb3 : back s s3) by (split; [done|]; intros k; unfold s3; rewrite get_lock_data; apply Hk2).
  assert (Hr3 : ready (del (node e NotifySlot) F1) s3).
  { apply (ready_back Max F _ s); try done; [by apply inv_notified|]. rewrite Ht. exact Hq'. }
  destruct (enter_event Max _ s3 Hr3) as (s5 & -> & Hin5 & Hd5). cbn [wp].
  change (data s3) with (notified e P d') in Hd5. split; [|split].
  - destruct Hin5 as [I1 I2 I3], Hb3 as [Hbt Hbk]. split; [done|by rewrite <-Hbt|].
    intros k Hk. etransitivity; [apply Hbk|by apply I3].
  - rewrite Hd5. simpl. by rewrite Hd'.
  - exists (del (node e NotifySlot) F1). split.
    + rewrite lookup_del, Hl. simpl. f_equal. rewrite filter_cons_False by tauto.
      destruct (family_NoDup _ _ _ _ (inv_family Max _ _ Hi1) Hl) as [Hnd _].
      apply filter_absent. by apply NoDup_cons in Hnd as [? _].
    + rewrite Hd5. split; simpl; [by apply inv_notified|by rewrite Hd'| |by rewrite Hd'|by rewrite Hd'|].
      * intros hd Hhd. apply (del_other Max F1 (data s1)); [done|by apply (live_block Max F1 (data s1))|].
        intros r0 Hr0 _ Heq. apply Hhd. rewrite <-Heq. simpl. rewrite Hre in Hr0. injection Hr0 as <-. by rewrite Htpl.
      * intros e' r0 Hr0. rewrite Hd'. simpl. destruct (decide (e' = e)) as [->|Hne].
        -- exists n. rewrite lookup_insert_eq, Hn. simplify_eq. done.
        -- exists (SignalCount r0). rewrite lookup_insert_ne by done. by destruct r0.
Qed.

(** The whole queue. *)
Lemma DispatchEventNotifies_loop_passive fuel F P s s1 l : ready F s -> 0 <= P < TPL_HIGH_LEVEL ->
  gEfiCurrentTpl s = P -> inside EventQueueLock s s1 -> quiet P (data s1) ->
  forall F1, passive_queue P F1 (data s1) -> inv F1 (data s1) -> F1 !! gEventQueue P = Some l -> (total = true -> (length l < fuel)%nat) ->
  wp total (DispatchEventNotifies_loop Verify Max restore fuel P s1) (fun s' => inside EventQueueLock s s' /\
    gEventPending (data s') = gEventPending (data s1) /\ exists F', F' !! gEventQueue P = Some [] /\
    delivered ((fun x => (x - OFFSET_NotifyLink, P)) <$> l) (fun hd => hd <> gEventQueue P) F1 (data s1) F' (data s')).
Proof.
  intros Hr HP Ht. revert s1 fuel. induction l as [|x l IH]; intros s1 fuel Hin Hq F1 Hpas Hi1 Hl Hfuel;
    (destruct fuel as [|fuel]; [simpl; destruct total; [specialize (Hfuel eq_refl); simpl in Hfuel; lia|done]|]);
    cbn [DispatchEventNotifies_loop].
  all: rewrite (family_IsListEmpty Max (links (data s1)) F1 (gEventQueue P) _ (inv_family Max _ _ Hi1) Hl) by
    (by apply (list_capacity Max F1 (data s1) Hi1 (gEventQueue P))); cbn [mbind result_bind].
  - rewrite bool_decide_true by done. split; [done|]. split; [done|]. exists F1. split; [done|]. by apply delivered_refl.
  - rewrite bool_decide_false by done.
    eapply wp_bind; [by apply (DispatchEventNotifies_step_passive fuel F P s s1 x l Hr HP Ht Hin Hq F1)|].
    intros s2 (Hin2 & Hp2 & F2 & Hl2 & Hdl). eapply wp_mono; [apply (IH s2 fuel Hin2)|]; try done.
    + unfold quiet. by rewrite Hp2.
    + apply (passive_kept P F1 (data s1)); try done; [|apply Hdl]. unfold queue. rewrite Hl, Hl2. simpl. intros e. by right.
    + apply Hdl.
    + intros Htot. specialize (Hfuel Htot). simpl in Hfuel. lia.
    + intros s' (Hin' & Hp' & F' & Hl' & Hdl'). split; [done|]. split; [congruence|]. exists F'. split; [done|].
      cbn [fmap list_fmap]. change (?a :: ?b) with ([a] ++ b). by eapply delivered_trans; [|exact Hdl|exact Hdl'].
Qed.

Lemma CoreDispatchEventNotifies_passive fuel F P s : ready F s -> 0 <= P < TPL_HIGH_LEVEL -> gEfiCurrentTpl s = P ->
  passive_queue P F (data s) -> (total = true -> (length (queue F P) < fuel)%nat) ->
  wp total (CoreDispatchEventNotifies Verify Max restore fuel P s) (fun s' => back s s' /\
    gEventPending (data s') = Z.ldiff (gEventPending (data s)) (2 ^ P) /\ exists F',
    delivered ((fun e => (e, P)) <$> queue F P) (fun hd => hd <> gEventQueue P) F (data s) F' (data s')).
Proof.
  intros Hr HP Ht Hpas Hfuel. unfold CoreDispatchEventNotifies.
  destruct (enter_event Max F s Hr) as (s1 & -> & Hin & Hd). cbn [mbind result_bind].
  pose proof (inside_lock _ _ _ Hin) as Hlk. simpl in Hlk. rewrite Hlk. cbn [OwnerTpl]. rewrite Ht, Z.eqb_refl.
  cbn [ASSERT mbind result_bind]. pose proof (ready_inv _ _ _ Hr) as Hi. rewrite <-Hd in Hi.
  destruct (queue_list Max F _ P Hi HP) as [l Hl]. unfold queue in *. rewrite Hl in *. simpl in *.
  assert (Hq : quiet P (data s1)) by (rewrite Hd, <-Ht; apply Hr).
  eapply wp_bind; [apply (DispatchEventNotifies_loop_passive fuel F P s s1 l Hr HP Ht Hin Hq) with (F1 := F)|]; try done.
  { by rewrite Hd. } { intros Htot. specialize (Hfuel Htot). by rewrite length_fmap in Hfuel. }
  intros s2 (Hin2 & Hp2 & F2 & Hl2 & Hdl). rewrite int_bit_Ok by done. cbn [mbind result_bind].
  pose proof (inv_drained Max F2 _ P (dl_inv _ _ _ _ _ _ Hdl) HP Hl2) as Hi3.
  set (d3 := set_pending _ (data s2)) in *.
  assert (Hlow : quiet P d3).
  { apply (quiet_drained Max F2); [apply Hdl|lia|]. unfold quiet. by rewrite Hp2. }
  eapply wp_mono; [apply (leave_quiet Max total restore Hres F F2 s (set_data d3 s2) Hr)|].
  - by apply inside_data.
  - done.
  - right. by rewrite Ht.
  - intros s' [Hds Hb]. cbn [data set_data] in Hds. split; [done|]. rewrite Hds. split; [simpl; by rewrite Hp2, Hd|].
    exists F2. rewrite <-list_fmap_compose. destruct Hdl. by split; rewrite <-?Hd.
Qed.

(** ** All queues above the new TPL *)

(** The notifications of the queues [t + 1], ..., [t + k], from the highest. *)
Fixpoint deliveries (F : lists) (t : Z) (k : nat) : list (ptr * Z) :=
  match k with
  | O => []
  | S k' => ((fun e => (e, t + Z.of_nat k)) <$> queue F (t + Z.of_nat k)) ++ deliveries F t k'
  end.

Lemma deliveries_same F F' t k : (forall P, t < P <= t + Z.of_nat k -> F' !! gEventQueue P = F !! gEventQueue P) ->
  deliveries F' t k = deliveries F t k.
Proof.
  induction k as [|k IH]; intros Hs; [done|]. cbn [deliveries]. unfold queue. rewrite Hs, IH; [done| |lia].
  intros P HP. apply Hs. lia.
Qed.

Lemma queue_length F d P : inv F d -> 0 <= P < TPL_HIGH_LEVEL -> (length (queue F P) <= size (live d))%nat.
Proof.
  intros Hi HP. destruct (queue_list Max F d P Hi HP) as [l Hl]. unfold queue. rewrite Hl, length_fmap. simpl.
  destruct (list_nodes Max F d Hi _ _ Hl) as (k & es & -> & Hnd & Hes). rewrite length_fmap.
  rewrite <-(size_list_to_set (C := gset ptr)) by done. apply subseteq_size.
  intros e He. apply elem_of_list_to_set in He. rewrite Forall_forall in Hes. by apply Hes.
Qed.

Lemma RestoreTpl_loop_passive k fuel F t s1 : inv F (data s1) -> calm t s1 -> 0 <= t ->
  t + Z.of_nat k < TPL_HIGH_LEVEL -> quiet (t + Z.of_nat k) (data s1) ->
  (forall P, t < P <= t + Z.of_nat k -> passive_queue P F (data s1)) ->
  (total = true -> (k + size (live (data s1)) + 1 < fuel)%nat) ->
  wp total (RestoreTpl_loop Verify Max restore fuel t s1) (fun s' => kept s1 s' /\ quiet t (data s') /\ exists F',
    delivered (deliveries F t k) (fun hd => forall P, t < P -> hd <> gEventQueue P) F (data s1) F' (data s')).
Proof.
  revert fuel F s1. induction k as [|k IH]; intros fuel F s1 Hi Hc Ht Hk Hq Hpas Hfuel.
  { destruct fuel as [|fuel]; [destruct total; [specialize (Hfuel eq_refl); lia|done]|].
    rewrite Z.add_0_r in Hq. rewrite RestoreTpl_loop_idle; [|lia|apply (inv_range Max F _ Hi)|done].
    split; [done|]. split; [done|]. exists F. by apply delivered_refl. }
  destruct (Z.lt_ge_cases (gEventPending (data s1)) (2 ^ (t + Z.of_nat k + 1))) as [Hlow|Hhigh].
  { assert (Hemp : queue F (t + Z.of_nat (S k)) = []).
    { unfold queue. by rewrite (queue_empty Max F (data s1) (t + Z.of_nat k)) by (done || lia). }
    cbn [deliveries]. rewrite Hemp. apply IH; try done; [lia|intros Q HQ; apply Hpas; lia|]. intros Htot. specialize (Hfuel Htot). lia. }
  destruct fuel as [|fuel]; [destruct total; [specialize (Hfuel eq_refl); lia|done]|].
  pose proof (inv_range Max F _ Hi) as Hrg. set (P := t + Z.of_nat (S k)) in *. unfold quiet in Hq.
  replace (t + Z.of_nat k + 1) with P in Hhigh by (unfold P; lia).
  assert (0 < 2 ^ P) by (apply Z.pow_pos_nonneg; unfold P; lia).
  assert (Hlog : Z.log2 (gEventPending (data s1)) = P) by (apply Z.log2_unique; unfold P in *; lia).
  rewrite (RestoreTpl_loop_next Verify Max restore fuel F) by (rewrite ?Hlog; done || (unfold P; lia)). rewrite Hlog.
  destruct (raised_ready Max F t P s1) as (Hr2 & Hd2 & Ht2 & Hk2); try done; [unfold P; lia..|].
  set (s2 := raised P s1) in *.
  eapply wp_bind; [apply (CoreDispatchEventNotifies_passive fuel F P s2 Hr2)|]; rewrite ?Hd2; try done; [unfold P in *; lia|apply Hpas; unfold P; lia| |].
  { intros Htot. specialize (Hfuel Htot). pose proof (queue_length F _ P Hi ltac:(unfold P in *; lia)). lia. }
  intros s3 ([_ Hk3] & Hp3 & F3 & Hdl). eapply wp_mono; [apply (IH fuel F3 s3)|]; try done.
  - apply Hdl.
  - apply (calm_kept t s1); [by transitivity s2|done].
  - lia.
  - unfold quiet. rewrite Hp3. apply bits_below; [lia|apply Z.ldiff_nonneg; lia|]. intros i Hi'.
    rewrite Z.ldiff_spec, Z.pow2_bits_eqb by (unfold P; lia). destruct (Z.eqb_spec P i) as [->|Hne]; [apply andb_false_r|].
    rewrite (proj1 (bits_below (gEventPending (data s1)) (P + 1) ltac:(unfold P; lia) ltac:(lia)) Hq); [done|unfold P in *; lia].
  - intros Q HQ. apply (passive_kept Q F (data s1)); [done|unfold P in *; lia| |apply Hdl|apply Hpas; unfold P in *; lia].
    intros e. unfold queue. rewrite (dl_lists _ _ _ _ _ _ Hdl); [done|]. intros Heq%gEventQueue_inj. unfold P in *. lia.
  - intros Htot. specialize (Hfuel Htot). rewrite (dl_live _ _ _ _ _ _ Hdl). lia.
  - intros s' (Hk' & Hq' & F' & Hdl'). split; [by transitivity s2; [|transitivity s3]|]. split; [done|]. exists F'.
    rewrite (deliveries_same F F3) in Hdl'.
    2: { intros Q HQ. apply (dl_lists _ _ _ _ _ _ Hdl). intros Heq%gEventQueue_inj. unfold P in *. lia. }
    cbn [deliveries]. fold P. eapply delivered_trans; [|exact Hdl|exact Hdl']. intros hd Hhd. split; [|done].
    apply Hhd. unfold P. lia.
Qed.

Lemma RestoreTpl_body_passive fuel F t s : inv F (data s) -> calm t s -> 0 <= t <= gEfiCurrentTpl s ->
  gEfiCurrentTpl s <= TPL_HIGH_LEVEL -> t < TPL_HIGH_LEVEL ->
  (forall P, t < P < TPL_HIGH_LEVEL -> passive_queue P F (data s)) ->
  (total = true -> (32 + size (live (data s)) < fuel)%nat) ->
  wp total (RestoreTpl_body Verify Max restore fuel t s) (fun s' => gEfiCurrentTpl s' = t /\ kept s s' /\
    (gCpu = true -> gSmmBase2 = None -> InterruptState s' = true) /\ quiet t (data s') /\ exists F',
    delivered (deliveries F t (Z.to_nat (TPL_HIGH_LEVEL - 1 - t))) (fun hd => forall P, t < P -> hd <> gEventQueue P)
      F (data s) F' (data s')).
Proof.
  intros Hi Hc Ht Hh Hlt Hpas Hfuel. unfold RestoreTpl_body.
  rewrite Z.gtb_ltb, (proj2 (Z.ltb_ge (gEfiCurrentTpl s) t)), (proj2 (Z.leb_le t TPL_HIGH_LEVEL)) by lia.
  cbn [negb ASSERT mbind result_bind]. set (s1 := if _ && _ then _ else s).
  assert (Hs1 : data s1 = data s /\ kept s s1).
  { unfold s1. destruct (_ && _); [|done]. split; [done|]. intros l. by rewrite get_lock_tpl. }
  destruct Hs1 as [Hd1 Hk1]. set (k := Z.to_nat _).
  assert (Hk : t + Z.of_nat k = TPL_HIGH_LEVEL - 1) by (unfold k; lia).
  eapply wp_bind; [apply (RestoreTpl_loop_passive k fuel F t s1)|]; rewrite ?Hd1; try done; try lia.
  - by apply (calm_kept t s).
  - rewrite Hk. apply (quiet_high Max F); [done|by left].
  - intros P HP. apply Hpas. lia.
  - intros Htot. specialize (Hfuel Htot). unfold TPL_HIGH_LEVEL in *. lia.
  - intros s2 (Hk2 & Hq2 & F' & Hdl). cbn [wp]. rewrite (proj2 (Z.ltb_lt _ _) Hlt).
    destruct (interrupts_same true (set_tpl t s2)) as (Hd3 & Ht3 & Hl3). rewrite Hd3, Ht3. split; [done|]. split; [|split].
    + intros l. rewrite Hl3, get_lock_tpl. etransitivity; [apply Hk1|apply Hk2].
    + unfold CoreSetInterruptState. intros -> ->. done.
    + split; [done|]. by exists F'.
Qed.
End Total.

Lemma CoreRestoreTpl_passive fuel F t s : inv F (data s) -> calm t s -> 0 <= t <= gEfiCurrentTpl s ->
  gEfiCurrentTpl s <= TPL_HIGH_LEVEL -> t < TPL_HIGH_LEVEL ->
  (forall P, t < P < TPL_HIGH_LEVEL -> passive_queue P F (data s)) -> (36 + size (live (data s)) <= fuel)%nat ->
  exists s', CoreRestoreTpl Verify Max fuel t s = Ok s' /\ gEfiCurrentTpl s' = t /\ kept s s' /\
    (gCpu = true -> gSmmBase2 = None -> InterruptState s' = true) /\ quiet t (data s') /\ exists F',
    delivered (deliveries F t (Z.to_nat (TPL_HIGH_LEVEL - 1 - t))) (fun hd => forall P, t < P -> hd <> gEventQueue P)
      F (data s) F' (data s').
Proof.
  intros Hi Hc Ht Hh Hlt Hpas Hfuel. destruct fuel as [|[|[|fuel]]]; [lia..|].
  change (CoreRestoreTpl Verify Max (S (S (S fuel)))) with
    (RestoreTpl_body Verify Max (CoreRestoreTpl Verify Max (S (S fuel))) (S (S fuel))).
  apply wp_total, (RestoreTpl_body_passive true _ (CoreRestoreTpl_total Verify Max fuel) _ F); try done. lia.
Qed.

(** Deliveries do not depend on the links and on the pending bits. *)
Lemma delivered_from ns (K : ptr -> Prop) F d d1 p F' d' : relinked d d1 p -> delivered ns K F d1 F' d' -> delivered ns K F d F' d'.
Proof. intros [h ->] []. by split. Qed.
End Dispatch.
