(* ===== verification/EventInit.v ===== *)
(** * Starting the event services

    [CoreInitializeEventServices] establishes the invariant, from memory in
    which only the statically initialised lists are lists. *)

From S2P Require Import Prelude CTypes BaseMath LinkedList ListFamily Event EventInv EventCheck EventServices EventLife EventRun.

Section Init.
Context `{Machine} `{Platform} (Verify : bool) (Max : nat) `{!PlatformLaws Max} `{Registry}.

(** The state when the DXE core starts: no event, no lock held; the heads of
    [gEventSignalQueue] and [mEfiTimerList] (initialised statically) and of
    [gRuntime->EventHead] (by the main program) are empty lists, those of the
    queues are memory. *)
Record booted (s : EventState) : Prop := {
  boot_heads : forall hd, other_head hd -> dlist (links (data s)) hd [];
  boot_queues : forall t, 0 <= t <= 31 -> is_Some (links (data s) !! gEventQueue t);
  boot_nodes : forall e k, e ∈ Blocks -> is_Some (links (data s) !! node e k);
  boot_live : live (data s) = ∅;
  boot_events : forall e, e ∈ Blocks -> exists r, events (data s) !! e = Some r /\ Signature r <> EVENT_SIGNATURE;
  boot_pending : gEventPending (data s) = 0;
  boot_time : mEfiSystemTime (data s) = 0;
  boot_timer_event : mEfiCheckTimerEvent (data s) = NULL;
  boot_idle_event : gIdleLoopEvent (data s) = NULL;
  boot_tpl : gEfiCurrentTpl s = TPL_APPLICATION;
  boot_locks : forall l, Tpl (get_lock l s) = lock_tpl l /\ Acquired (get_lock l s) = false }.

Lemma InitializeQueues_spec n i d : 0 <= i -> (forall t, i <= t < i + Z.of_nat n -> is_Some (links d !! gEventQueue t)) ->
  exists h, InitializeQueues n i d = Ok (set_links h d) /\
    (forall t, i <= t < i + Z.of_nat n -> dlist h (gEventQueue t) []) /\
    (forall x, (forall t, i <= t < i + Z.of_nat n -> x <> gEventQueue t) -> h !! x = links d !! x).
Proof.
  revert i d. induction n as [|n IH]; intros i d Hi Hs.
  { exists (links d). split; [by destruct d|]. split; [lia|done]. }
  cbn [InitializeQueues].
  destruct (InitializeListHead_empty (links d) (gEventQueue i)) as (h1 & -> & Hd1 & Hb1);
    [apply Hs; lia|unfold gEventQueue, NULL; lia|]. cbn [mbind result_bind].
  assert (Hb : forall x, x <> gEventQueue i -> h1 !! x = links d !! x).
  { intros x Hx. apply Hb1. by intros ?%list_elem_of_singleton. }
  destruct (IH (i + 1) (set_links h1 d)) as (h & -> & Hq & Ho); [lia| |].
  { intros t Ht. simpl. rewrite Hb by (intros ?%gEventQueue_inj; lia). apply Hs. lia. }
  cbn [links set_links] in *. exists h. split; [done|].
  assert (Hi' : h !! gEventQueue i = h1 !! gEventQueue i) by (apply Ho; intros t Ht Heq%gEventQueue_inj; lia).
  split.
  - intros t Ht. destruct (Z.eq_dec t i) as [->|Hne]; [|apply Hq; lia].
    apply (dlist_ext h1); [|done]. by intros x ->%list_elem_of_singleton.
  - intros x Hx. rewrite Ho by (intros t Ht; apply Hx; lia). apply Hb, Hx. lia.
Qed.

(** All lists are empty. *)
Definition no_lists : lists := list_to_map ((fun hd => (hd, [])) <$> heads).

Lemma no_lists_lookup hd l : no_lists !! hd = Some l <-> hd ∈ heads /\ l = [].
Proof.
  unfold no_lists. rewrite <-elem_of_list_to_map.
  - rewrite list_elem_of_fmap. naive_solver.
  - rewrite <-list_fmap_compose. apply (bool_decide_unpack _). vm_compute. done.
Qed.

Lemma no_member hd x : ~ member no_lists hd x.
Proof. intros (l & [_ ->]%no_lists_lookup & Hx). by apply elem_of_nil in Hx. Qed.

Lemma booted_inv s : booted s -> exists h, InitializeQueues 32 0 (data s) = Ok (set_links h (data s)) /\
  inv Max no_lists (set_links h (data s)).
Proof.
  intros [Bh Bq Bn Bl Be Bp Bt Bte Bie _ _].
  destruct (InitializeQueues_spec 32 0 (data s)) as (h & Heq & Hq & Ho); [done|intros t Ht; apply Bq; lia|].
  exists h. split; [exact Heq|].
  assert (Hheads : forall hd, hd ∈ heads -> dlist h hd []).
  { intros hd [Hhd|[Hhd|[Hhd|(t & Ht & ->)]]]%is_head_heads; [..|apply Hq; lia].
    all: apply (dlist_ext (links (data s))); [|apply Bh; unfold other_head; auto].
    all: intros x ->%list_elem_of_singleton; apply Ho; intros t Ht;
      rewrite Hhd; unfold gEventQueue, gEventSignalQueue, mEfiTimerList, gRuntime_EventHead; lia. }
  split; cbn [links live events gEventPending mEfiSystemTime mEfiCheckTimerEvent gIdleLoopEvent set_links].
  - split.
    + intros hd l [Hhd ->]%no_lists_lookup. by apply Hheads.
    + intros hd1 l1 hd2 l2 x [_ ->]%no_lists_lookup [_ ->]%no_lists_lookup.
      intros ->%list_elem_of_singleton ->%list_elem_of_singleton. done.
  - intros hd. rewrite is_head_heads. split; [by intros [l [? _]%no_lists_lookup]|].
    intros Hhd. exists []. by apply no_lists_lookup.
  - intros e k He. rewrite Ho; [by apply Bn|]. intros t Ht Hn. apply (node_head Max e k He). rewrite Hn.
    do 3 right. exists t. split; [lia|done].
  - rewrite Bl. apply empty_subseteq.
  - intros e He. destruct (Be e He) as (r & Hr & Hs). exists r. rewrite Bl. split; [done|].
    split; [by intros ?%not_elem_of_empty|done].
  - intros e r He. rewrite Bl in He. by apply not_elem_of_empty in He.
  - intros hd x Hm. by destruct (no_member hd x).
  - intros e r k He. rewrite Bl in He. by apply not_elem_of_empty in He.
  - intros l [_ ->]%no_lists_lookup. constructor.
  - intros t Ht Hne. destruct Hne. apply no_lists_lookup. split; [|done]. apply is_head_heads. do 3 right. exists t.
    unfold TPL_HIGH_LEVEL in Ht. split; [lia|done].
  - by rewrite Bp.
  - by rewrite Bt.
  - by left.
  - by left.
Qed.

Lemma ready_set_timer_event F e s : ready Max F s -> e ∈ Blocks -> ready Max F (set_data (set_CheckTimerEvent e (data s)) s).
Proof.
  intros Hr He. apply (ready_data Max F); [done| |apply Hr]. destruct (ready_inv _ _ _ Hr). split; try done. by right.
Qed.

Lemma ready_set_idle_event F e s : ready Max F s -> e ∈ Blocks -> ready Max F (set_data (set_IdleLoopEvent e (data s)) s).
Proof.
  intros Hr He. apply (ready_data Max F); [done| |apply Hr]. destruct (ready_inv _ _ _ Hr). split; try done. by right.
Qed.

Lemma CoreInitializeTimer_spec fuel F s : ready Max F s -> (forall b, AllocatePool b (live (data s)) <> None) ->
  wp true (CoreInitializeTimer Verify Max (S (S fuel)) s) (fun s' => back s s' /\ (exists F', ready Max F' s') /\
    mEfiCheckTimerEvent (data s') ∈ live (data s') /\ gIdleLoopEvent (data s') = gIdleLoopEvent (data s) /\
    exists r, events (data s') !! mEfiCheckTimerEvent (data s') = Some r /\
      NotifyFunction r = CoreCheckTimers_function /\ NotifyTpl r = TPL_HIGH_LEVEL - 1).
Proof.
  intros Hr Hal. unfold CoreInitializeTimer.
  eapply wp_bind; [apply (CoreCreateEventInternal_spec Verify Max true _ (CoreRestoreTpl_total Verify Max fuel) F); [done|]|].
  { intros _ _. by right; left. }
  intros [[Status Event] s1] [Hb Hc]. destruct Status; try done; cbn [created] in Hc.
  - destruct Hc as (r & h & Hreq & He & Hdead & _ & Hd & Hr1). cbn [EFI_ERROR negb ASSERT mbind result_bind wp].
    split; [destruct Hb as [? Hk]; split; [done|]; intros l; rewrite get_lock_data; apply Hk|].
    split; [eexists; by apply ready_set_timer_event|]. cbn [data set_data mEfiCheckTimerEvent set_CheckTimerEvent live events gIdleLoopEvent].
    rewrite Hd. cbn [live born set_links set_live set_events events gIdleLoopEvent].
    split; [by apply elem_of_union_l, elem_of_singleton|]. split; [done|]. exists r. rewrite lookup_insert_eq. split; [done|].
    vm_compute in Hreq. by injection Hreq as <-.
  - destruct Hc as [Hreq _]. vm_compute in Hreq. done.
  - destruct Hc as (_ & [b Hb'] & _). by destruct (Hal b).
Qed.

(** The two events of the core. *)
Lemma initialize_spec fuel s : booted s -> (forall b, AllocatePool b ∅ <> None) ->
  wp true (CoreInitializeEventServices Verify Max (S (S fuel)) s) (fun '(Status, s') => Status = EFI_SUCCESS /\
    (exists F', ready Max F' s') /\ unlocked s' /\ gEfiCurrentTpl s' = TPL_APPLICATION /\
    mEfiCheckTimerEvent (data s') ∈ live (data s') /\
    (gIdleLoopEvent (data s') = NULL \/ gIdleLoopEvent (data s') ∈ live (data s')) /\
    exists r, events (data s') !! mEfiCheckTimerEvent (data s') = Some r /\
      NotifyFunction r = CoreCheckTimers_function /\ NotifyTpl r = TPL_HIGH_LEVEL - 1).
Proof.
  intros Hb Hal. destruct (booted_inv s Hb) as (h & Hq & Hi). unfold CoreInitializeEventServices. rewrite Hq.
  cbn [mbind result_bind]. set (s0 := set_data (set_links h (data s)) s).
  assert (Hr0 : ready Max no_lists s0).
  { split; simpl; rewrite ?(boot_tpl _ Hb); try done.
    - split; intros l; unfold s0; rewrite get_lock_data; [apply (boot_locks _ Hb l)|].
      destruct (boot_locks _ Hb l) as [_ ->]. done.
    - unfold quiet. simpl. by rewrite (boot_pending _ Hb). }
  assert (Hu0 : unlocked s0) by (intros l; unfold s0; rewrite get_lock_data; apply (boot_locks _ Hb l)).
  eapply wp_bind; [apply (CoreInitializeTimer_spec fuel no_lists s0 Hr0)|].
  { simpl. by rewrite (boot_live _ Hb). }
  intros s1 (Hb1 & [F1 Hr1] & Hlive & Hidle & r & Hr & Hfn & Htpl).
  assert (Hu1 : unlocked s1) by (apply (unlocked_kept s0); [apply Hb1|done]).
  assert (Ht1 : gEfiCurrentTpl s1 = TPL_APPLICATION) by (rewrite (proj1 Hb1); apply (boot_tpl _ Hb)).
  unfold CoreCreateEventEx. cbn [andb]. change (_ && _ && _ && _) with false. cbv iota.
  eapply wp_bind; [apply (CoreCreateEventInternal_spec Verify Max true _ (CoreRestoreTpl_total Verify Max fuel) F1); [done|]|].
  { intros _ _. by left. }
  intros [[Status Event] s2] [Hb2 Hc]. cbn [wp]. split; [done|].
  assert (Hu2 : unlocked s2) by (apply (unlocked_kept s1); [apply Hb2|done]).
  assert (Ht2 : gEfiCurrentTpl s2 = TPL_APPLICATION) by (by rewrite (proj1 Hb2)).
  destruct Status; try done; cbn [created EFI_ERROR] in *.
  - destruct Hc as (e & h2 & _ & He & Hdead & _ & Hd & Hr2).
    split; [eexists; by apply ready_set_idle_event|]. split; [intros l; rewrite get_lock_data; apply Hu2|].
    split; [done|]. cbn [data set_data mEfiCheckTimerEvent set_IdleLoopEvent live events gIdleLoopEvent].
    rewrite Hd. cbn [live born set_links set_live set_events events gIdleLoopEvent mEfiCheckTimerEvent].
    split; [by apply elem_of_union_r|]. split; [right; by apply elem_of_union_l, elem_of_singleton|].
    exists r. rewrite lookup_insert_ne; [done|]. by intros ->.
  - destruct Hc as [Hreq _]. vm_compute in Hreq. done.
  - destruct Hc as (_ & _ & _ & ->). split; [by exists F1|]. split; [done|]. split; [done|]. split; [done|].
    split; [left; rewrite Hidle; apply (boot_idle_event _ Hb)|by exists r].
Qed.
End Init.
