(* ===== verification/EventTheorems.v ===== *)
(** * Events, timers and priorities: the properties

    What Event.c, Timer.c and Tpl.c of the DXE core promise, about the code
    with [CoreRestoreTpl] itself as the function that lowers the TPL; then a
    defect of the periodic timers, and the witnesses. *)

From S2P Require Import Prelude CTypes BaseMath LinkedList ListFamily Event EventInv EventCheck EventServices EventLife EventRun EventDispatch EventInit.

(** ** What a request for an event means *)

(** The type and the group that the event gets. *)
Definition final_type (t : Z) (g : option EFI_GUID) : Z :=
  if bool_decide (g = Some gEfiEventExitBootServicesGuid) then 0x201
  else if bool_decide (g = Some gEfiEventVirtualAddressChangeGuid) then 0x60000202
  else t.

Definition final_group (t : Z) (g : option EFI_GUID) : option EFI_GUID :=
  if bool_decide (t = 0x201) then Some gEfiEventExitBootServicesGuid
  else if bool_decide (t = 0x60000202) then Some gEfiEventVirtualAddressChangeGuid
  else g.

(** A request that can be met: one of eight types; the two types that stand for
    a group are not combined with a group; an event that is notified has a
    function and a priority between [TPL_APPLICATION] and [TPL_HIGH_LEVEL]. *)
Definition valid_core (t p f : Z) (g : option EFI_GUID) : Prop :=
  t ∈ [0x80000200; 0x80000000; 0x100; 0x200; 0x201; 0x60000202; 0; 0x80000100] /\
  (t = 0x201 \/ t = 0x60000202 -> g = None) /\
  (notifies (final_type t g) = true -> f <> NULL /\ 4 < p < 31).

(** What the boot service asks for in addition: the priorities of UEFI. *)
Definition valid_request (t p f : Z) (g : option EFI_GUID) : Prop :=
  valid_core t p f g /\ (notifies t = true -> p = 4 \/ p = 8 \/ p = 16).

Definition requested_event (e t p f c : Z) (g : option EFI_GUID) : IEVENT :=
  let T := final_type t g in
  if notifies T then new_event e T p f c (final_group t g) else new_event e T 0 NULL NULL (final_group t g).

Lemma EventTypeAndGroup_spec t g : EventTypeAndGroup t g =
  if bool_decide (t = 0x201 \/ t = 0x60000202) && bool_decide (is_Some g) then None
  else Some (final_type t g, final_group t g).
Proof.
  unfold EventTypeAndGroup, final_type, final_group, CompareGuid, EVT_SIGNAL_EXIT_BOOT_SERVICES, EVT_SIGNAL_VIRTUAL_ADDRESS_CHANGE.
  assert (Heqb : forall a b : Z, (a =? b) = bool_decide (a = b)).
  { intros a b. apply eq_true_iff_eq. by rewrite Z.eqb_eq, bool_decide_eq_true. }
  rewrite !Heqb. destruct g as [g|].
  - rewrite (bool_decide_true (is_Some _)) by done. rewrite andb_true_r.
    destruct (decide (t = 0x201)) as [->|H1']; [done|]. destruct (decide (t = 0x60000202)) as [->|H2']; [done|].
    rewrite !(bool_decide_false (t = _)) by done. cbn [orb]. rewrite (bool_decide_false (_ \/ _)) by tauto.
    destruct (decide (g = gEfiEventExitBootServicesGuid)) as [->|Hg]; [by rewrite !bool_decide_true|].
    rewrite !(bool_decide_false (_ = gEfiEventExitBootServicesGuid)), (bool_decide_false (Some g = Some gEfiEventExitBootServicesGuid)) by congruence.
    destruct (decide (g = gEfiEventVirtualAddressChangeGuid)) as [->|Hg']; [by rewrite !bool_decide_true|].
    by rewrite !(bool_decide_false (_ = gEfiEventVirtualAddressChangeGuid)), (bool_decide_false (Some g = Some _)) by congruence.
  - rewrite (bool_decide_false (is_Some _)) by (by intros []). rewrite andb_false_r.
    destruct (decide (t = 0x201)) as [->|H1']; [done|]. destruct (decide (t = 0x60000202)) as [->|H2']; [done|].
    by rewrite !(bool_decide_false (t = _)) by done.
Qed.

Lemma mEventTable_spec t : existsb (Z.eqb t) mEventTable = true <->
  t ∈ [0x80000200; 0x80000000; 0x100; 0x200; 0x201; 0x60000202; 0; 0x80000100].
Proof.
  rewrite existsb_exists. change mEventTable with [0x80000200; 0x80000000; 0x100; 0x200; 0x201; 0x60000202; 0; 0x80000100].
  setoid_rewrite Z.eqb_eq. setoid_rewrite <-list_elem_of_In. naive_solver.
Qed.

Lemma requested_spec e t p f c g :
  (valid_core t p f g /\ requested e t p f c g = Some (requested_event e t p f c g)) \/
  (~ valid_core t p f g /\ requested e t p f c g = None).
Proof.
  unfold requested, valid_core, requested_event. rewrite EventTypeAndGroup_spec. pose proof (mEventTable_spec t) as Htab.
  destruct (existsb (Z.eqb t) mEventTable); cbn [negb]; [|right; split; [|done]; intros (Hin & _); by apply Htab in Hin].
  assert (Hin : t ∈ [0x80000200; 0x80000000; 0x100; 0x200; 0x201; 0x60000202; 0; 0x80000100]) by (by apply Htab). clear Htab.
  destruct (bool_decide (t = 0x201 \/ t = 0x60000202) && bool_decide (is_Some g)) eqn:Hg.
  { apply andb_true_iff in Hg as [Ht%bool_decide_eq_true [g' ->]%bool_decide_eq_true].
    right. split; [|done]. intros (_ & Hn & _). by specialize (Hn Ht). }
  assert (Hgn : t = 0x201 \/ t = 0x60000202 -> g = None).
  { intros Ht. apply andb_false_iff in Hg as [Hg%bool_decide_eq_false|Hg%bool_decide_eq_false]; [done|].
    destruct g; [by destruct Hg|done]. }
  destruct (notifies (final_type t g)) eqn:Hnot; cbn [negb]; [|left; split; [|done]; split; [done|]; split; [done|done]].
  unfold TPL_APPLICATION, TPL_HIGH_LEVEL.
  destruct (Z.eqb_spec f NULL) as [->|Hf]; cbn [negb andb]; [right; split; [|done]; intros (_ & _ & Hv); by destruct (Hv eq_refl)|].
  destruct (Z.ltb_spec 4 p), (Z.ltb_spec p 31); cbn [andb];
    [left; split; [|done]; split; [done|]; split; [done|]; intros _; split; [done|lia]
    |right; split; [|done]; intros (_ & _ & Hv); destruct (Hv eq_refl) as [_ ?]; lia..].
Qed.

Section Properties.
Context `{Machine} `{Platform} (Verify : bool) (Max : nat) `{!PlatformLaws Max} `{Registry}.

(** C2: Whatever well-behaved clients do (raise and restore the TPL, create,
    signal, check, wait for and close events, set timers, at any TPL and from
    within notification functions, with timer ticks in between), the event
    services never violate an ASSERT and never follow a bad pointer, all their
    lists stay well-formed and every event is in exactly the lists it belongs
    to, and a client gets its TPL back with no notification above it left
    undelivered and no lock held. *)
Theorem event_programs_safe `{!ClientLaws Max} fuel F TPL p s :
  wb Max TPL TPL p -> 0 <= TPL -> ready Max F s -> unlocked s -> gEfiCurrentTpl s = TPL ->
  wp false (run Verify Max (CoreRestoreTpl Verify Max fuel) fuel p s)
    (fun s' => gEfiCurrentTpl s' = TPL /\ unlocked s' /\ exists F', ready Max F' s').
Proof.
  intros Hwb Hp Hr Hu Ht. eapply wp_mono; [by eapply (run_any Verify Max _ (CoreRestoreTpl_partial Verify Max fuel))|].
  intros s' (Ht' & Hk & Hr'). split; [done|]. split; [by apply (unlocked_kept s)|done].
Qed.

(** C3: Lowering the TPL to [NewTpl], between two critical sections of the
    event lock.  Whatever well-behaved notification functions do, timers and
    [CoreCheckTimers] included: if [CoreRestoreTpl] returns, it has got from the
    old to the new state by steps of the scheduler, each of which notifies the
    first event of the highest queue that is not empty, at the TPL of that queue
    and with its signal cleared; then no queue above [NewTpl] holds an event, and
    interrupts are enabled below [TPL_HIGH_LEVEL] (on a processor, outside of
    SMM).  It need not return, as a notification function need not
    ([CoreCheckTimers_hangs]); but if the functions queued above [NewTpl] return
    without a call, and [NewTpl] is below [TPL_HIGH_LEVEL], it returns, with a
    recursion bounded by the number of priorities and events, it has called
    exactly the functions that were queued above [NewTpl], from the highest
    priority down and each queue in the order of its signals, and it has left
    the other queues and all events but their signals alone. *)
Theorem CoreRestoreTpl_delivers fuel F NewTpl s :
  inv Max F (data s) -> calm NewTpl s -> 0 <= NewTpl <= gEfiCurrentTpl s -> gEfiCurrentTpl s <= TPL_HIGH_LEVEL ->
  (ClientLaws Max -> wp false (CoreRestoreTpl Verify Max fuel NewTpl s) (fun s' =>
     gEfiCurrentTpl s' = NewTpl /\ kept s s' /\
     (gCpu = true -> gSmmBase2 = None -> NewTpl < TPL_HIGH_LEVEL -> InterruptState s' = true) /\
     lowers Verify Max NewTpl (data s) (data s') /\
     exists F', inv Max F' (data s') /\ forall t, NewTpl < t < TPL_HIGH_LEVEL -> queue F' t = [])) /\
  (NewTpl < TPL_HIGH_LEVEL -> (forall P, NewTpl < P < TPL_HIGH_LEVEL -> passive_queue P F (data s)) ->
   (36 + size (live (data s)) <= fuel)%nat ->
   exists s', CoreRestoreTpl Verify Max fuel NewTpl s = Ok s' /\ gEfiCurrentTpl s' = NewTpl /\
     (gCpu = true -> gSmmBase2 = None -> InterruptState s' = true) /\ exists F', inv Max F' (data s') /\
     Notified (data s') = Notified (data s) ++ deliveries F NewTpl (Z.to_nat (TPL_HIGH_LEVEL - 1 - NewTpl)) /\
     (forall t, NewTpl < t < TPL_HIGH_LEVEL -> queue F' t = []) /\
     (forall hd, (forall t, NewTpl < t -> hd <> gEventQueue t) -> F' !! hd = F !! hd) /\
     same_events (data s) (data s') /\ live (data s') = live (data s)).
Proof.
  intros Hi Hc Ht Hh. split.
  - intros Hcl. eapply wp_mono; [by apply (CoreRestoreTpl_lowers Verify Max fuel F)|].
    intros s' (Ht' & Hk & Hint & Hlow & F' & Hi' & Hq). do 4 (split; [done|]). exists F'. split; [done|].
    intros t Htt. unfold queue. by rewrite (queue_empty Max F' (data s') NewTpl) by (done || lia).
  - intros Hlt Hpas Hfuel.
    destruct (CoreRestoreTpl_passive Verify Max fuel F NewTpl s Hi Hc Ht Hh Hlt Hpas Hfuel)
      as (s' & Heq & Ht' & _ & Hint & Hq & F' & []). exists s'. do 3 (split; [done|]). exists F'. split; [done|]. split; [done|].
    split; [|done]. intros t Htt. unfold queue. by rewrite (queue_empty Max F' (data s') NewTpl) by (done || lia).
Qed.

(** C22: [CoreCheckTimers], called at its TPL [TPL_HIGH_LEVEL - 1] with the
    timer lock free.  Unless the next trigger time of a periodic timer overflows
    64 bits (then it may hang: [CoreCheckTimers_hangs]), it terminates, within
    two passes per timer, and leaves no expired timer on the list: an expired
    one-shot timer is signalled and stopped, an expired periodic timer is
    signalled and triggers again one period after its last trigger, or after now
    if it lags behind; all other timers stay as they are, and the list stays
    sorted. *)
Theorem CoreCheckTimers_correct n fuel F s :
  ready Max F s -> gEfiCurrentTpl s = TPL_HIGH_LEVEL - 1 -> Acquired (mEfiTimerLock s) = false ->
  no_overflow (mEfiSystemTime (data s)) F (data s) -> (2 * length (default [] (F !! mEfiTimerList)) < fuel)%nat ->
  exists s' F', CoreCheckTimers Verify Max (CoreRestoreTpl Verify Max (S (S n))) fuel s = Ok s' /\
    back s s' /\ ready Max F' s' /\ timers_checked (mEfiSystemTime (data s)) F (data s) F' (data s') /\
    (forall l x, F' !! mEfiTimerList = Some l -> x ∈ l -> mEfiSystemTime (data s) < trigger (data s') x).
Proof.
  intros Hr Ht Ha Hov Hfuel.
  pose proof (CoreCheckTimers_quiet Verify Max true _ (CoreRestoreTpl_total Verify Max n) fuel F s Hr Ht Ha Hov ltac:(done)) as Hwp.
  apply wp_total in Hwp as (s' & Heq & Hb & F' & Hr' & Hck). by exists s', F'.
Qed.

(** From the end of a critical section, the TPL is restored. *)
Lemma restoring_from F s s1 t : ready Max F s -> gEfiCurrentTpl s1 = t -> kept s s1 ->
  gEfiCurrentTpl s <= t -> t <= TPL_HIGH_LEVEL ->
  calm (gEfiCurrentTpl s) s1 /\ 0 <= gEfiCurrentTpl s <= gEfiCurrentTpl s1 /\ gEfiCurrentTpl s1 <= TPL_HIGH_LEVEL.
Proof.
  intros Hr -> Hk Hle Hh. split; [apply (calm_kept _ s); [done|apply Hr]|]. split; [|done]. split; [apply Hr|done].
Qed.

(** C23: [CoreSetTimer], called at a TPL up to [TPL_HIGH_LEVEL - 1] with the
    timer lock free, a 64-bit time, and [NULL] or the address of an event block.
    It rejects a handle that is no live timer event and a type above
    [TimerRelative], and then changes nothing.  Otherwise it takes the event off
    the timer list and, unless the timer is cancelled, puts it back at the place
    that keeps the list sorted by trigger time, behind the timers of the same
    time; all other events and lists stay as they are, except that a timer that
    is due at once signals the event that checks the timers.  Then it restores
    the TPL, and does no more than that: if the timer is not due at once, or the
    caller's TPL is that of the timers, nothing is dispatched; if it is, the
    scheduler delivers what is pending above the caller's TPL
    ([CoreRestoreTpl_delivers]), the timers' check first. *)
Theorem CoreSetTimer_correct n F e Type_' Time s :
  ready Max F s -> gEfiCurrentTpl s <= TPL_HIGH_LEVEL - 1 ->
  Acquired (mEfiTimerLock s) = false -> valid Max e -> 0 <= Time < 2 ^ 64 ->
  let SetTimer := CoreSetTimer Verify Max (CoreRestoreTpl Verify Max (S (S n))) e Type_' Time s in
  if timer_request (data s) e Type_' then exists s1 F1,
    gEfiCurrentTpl s1 = TPL_HIGH_LEVEL - 1 /\ kept s s1 /\ inv Max F1 (data s1) /\
    timer_set Type_' Time F (data s) e F1 (data s1) /\
    SetTimer = (let! s' := CoreRestoreTpl Verify Max (S (S n)) (gEfiCurrentTpl s) s1 in Ok (EFI_SUCCESS, s')) /\
    (gEfiCurrentTpl s = TPL_HIGH_LEVEL - 1 \/ immediate Type_' Time = false ->
     exists s', SetTimer = Ok (EFI_SUCCESS, s') /\ back s s' /\ ready Max F1 s' /\ data s' = data s1) /\
    (ClientLaws Max -> wp false SetTimer (fun '(Status, s') => Status = EFI_SUCCESS /\ back s s' /\
       (exists F', ready Max F' s') /\ lowers Verify Max (gEfiCurrentTpl s) (data s1) (data s')))
  else SetTimer = Ok (EFI_INVALID_PARAMETER, s).
Proof.
  intros Hr Ht Ha Hv Htime SetTimer. pose proof (CoreRestoreTpl_total Verify Max n) as Hres.
  pose proof (CoreSetTimer_restores Verify Max true _ Hres F e Type_' Time s eq_refl Hr Ht Ha Hv Htime) as Hset.
  destruct (timer_request _ _ _); [|done]. destruct Hset as (s1 & F1 & Ht1 & Hk1 & Hi1 & Hset & Heq).
  exists s1, F1. do 5 (split; [done|]).
  destruct (restoring_from F s s1 _ Hr Ht1 Hk1 Ht ltac:(done)) as (Hc1 & Hle1 & Hh1). split.
  - intros Hcase. assert (Hq : quiet (gEfiCurrentTpl s) (data s1)).
    { apply (quiet_high Max F1); [done|]. destruct Hcase as [->|Hcase]; [by left|right].
      rewrite (timer_set_pending _ _ _ _ _ _ _ Hset Hcase). apply Hr. }
    pose proof (restore_quiet _ _ Hres _ s1 Hc1 Hle1 Hh1 (proj1 (inv_range Max F1 _ Hi1)) Hq) as Hwp.
    apply wp_total in Hwp as (s' & Hr' & Hd' & Ht' & Hk'). exists s'. unfold SetTimer. rewrite Heq, Hr'.
    assert (Hb : back s s') by (split; [done|by transitivity s1]). do 2 (split; [done|]). split; [|done].
    apply (ready_back Max F _ s); rewrite ?Hd'; done.
  - intros Hcl. unfold SetTimer. rewrite Heq. eapply wp_bind; [by apply (CoreRestoreTpl_lowers Verify Max (S (S n)) F1)|].
    intros s' (Ht' & Hk' & _ & Hlow & F' & Hi' & Hq'). assert (Hb : back s s') by (split; [done|by transitivity s1]).
    do 2 (split; [done|]). split; [|done]. exists F'. by apply (ready_back Max F F' s).
Qed.

(** C24: Signalling a live event, at any TPL, between two calls.  It sets the
    [SignalCount] once; the first signal of a notify-signal event queues the
    notifications of the event, or of the whole group it belongs to, in the
    order of the signal list, each behind the notifications already queued at
    its priority; further signals do nothing until the event is cleared.
    Then the notifications above the caller's TPL are delivered.  Whatever
    well-behaved notification functions do: if the call returns, it succeeds,
    and the scheduler has got there from the state with the queued
    notifications.  If nothing is pending above the caller's TPL, or that is
    [TPL_HIGH_LEVEL - 1] or more, it returns in just that state.  If the
    functions queued above it return without a call, it returns and has
    delivered them all, in order. *)
Theorem CoreSignalEvent_correct n F e r s :
  ready Max F s -> e ∈ live (data s) -> events (data s) !! e = Some r ->
  let TPL := gEfiCurrentTpl s in
  let Signal := CoreSignalEvent Verify Max (CoreRestoreTpl Verify Max (S (S n))) e s in
  let d1 := mark e r (data s) in
  let ns := to_notify F d1 e r in
  let F1 := enqueue_all d1 ns F in
  let p := pend_all d1 ns (gEventPending (data s)) in
  (ClientLaws Max -> wp false Signal (fun '(Status, s') => Status = EFI_SUCCESS /\ back s s' /\
     exists F', ready Max F' s' /\ exists d2, relinked d1 d2 p /\ inv Max F1 d2 /\ lowers Verify Max TPL d2 (data s'))) /\
  (TPL_HIGH_LEVEL - 1 <= TPL \/ p < 2 ^ (TPL + 1) ->
   exists s', Signal = Ok (EFI_SUCCESS, s') /\ back s s' /\ relinked d1 (data s') p /\ inv Max F1 (data s')) /\
  (TPL < TPL_HIGH_LEVEL -> (forall P, TPL < P < TPL_HIGH_LEVEL -> passive_queue P F1 d1) ->
   (36 + size (live (data s)) <= S (S n))%nat ->
   exists s', Signal = Ok (EFI_SUCCESS, s') /\ back s s' /\ exists F', ready Max F' s' /\
     Notified (data s') = Notified (data s) ++ deliveries F1 TPL (Z.to_nat (TPL_HIGH_LEVEL - 1 - TPL)) /\
     (forall t, TPL < t < TPL_HIGH_LEVEL -> queue F' t = []) /\
     (forall hd, (forall t, TPL < t -> hd <> gEventQueue t) -> F' !! hd = F1 !! hd) /\
     same_events d1 (data s') /\ live (data s') = live (data s)).
Proof.
  intros Hr He Hre TPL Signal d1 ns F1 p.
  assert (Hmk : Notified d1 = Notified (data s) /\ live d1 = live (data s)) by (unfold d1, mark; by destruct (_ =? _)).
  destruct Hmk as [Hn1 Hl1]. split; [|split].
  - intros Hcl.
    pose proof (CoreSignalEvent_post Verify Max false _ (CoreRestoreTpl_partial Verify Max (S (S n))) F e r s
      (fun _ d' => exists d2, relinked d1 d2 p /\ inv Max F1 d2 /\ lowers Verify Max TPL d2 d') Hr He Hre) as Hpost.
    eapply wp_mono; [apply Hpost|].
    + intros s1 Ht1 Hk1 Hrel Hi1. destruct (restoring_from F s s1 _ Hr Ht1 Hk1 (proj2 (ready_tpl _ _ _ Hr)) ltac:(done)) as (Hc1 & Hle1 & Hh1).
      eapply wp_mono; [exact (CoreRestoreTpl_lowers Verify Max (S (S n)) F1 TPL s1 Hi1 Hc1 Hle1 Hh1)|].
      intros s2 (Ht2 & Hk2 & _ & Hlow & F2 & Hi2 & Hq2). assert (Hb : back s s2) by (split; [done|by transitivity s1]).
      split; [done|]. exists F2. split; [by apply (ready_back Max F F2 s)|]. by exists (data s1).
    + intros [Status s'] (-> & Hb & HF). done.
  - intros Hp. pose proof (CoreSignalEvent_quiet Verify Max true _ (CoreRestoreTpl_total Verify Max n) F e r s Hr He Hre Hp) as Hwp.
    apply wp_total in Hwp as ([Status s'] & Heq & -> & Hb & Hrel & Hi). by exists s'.
  - intros Hlt Hpas Hfuel.
    pose proof (CoreSignalEvent_post Verify Max true _ (CoreRestoreTpl_total Verify Max n) F e r s
      (fun F' d' => quiet TPL d' /\ delivered Max (deliveries F1 TPL (Z.to_nat (TPL_HIGH_LEVEL - 1 - TPL)))
         (fun hd => forall P, TPL < P -> hd <> gEventQueue P) F1 d1 F' d') Hr He Hre) as Hwp.
    cbv zeta in Hwp. fold d1 ns F1 p in Hwp. lapply Hwp; clear Hwp.
    2: {
      intros s1 Ht1 Hk1 Hrel Hi1. destruct (relinked_events _ _ _ Hrel) as (Hev & Hlv & _). apply wp_total.
      destruct (restoring_from F s s1 _ Hr Ht1 Hk1 (proj2 (ready_tpl _ _ _ Hr)) ltac:(done)) as (Hc1 & Hle1 & Hh1).
      assert (Hpas1 : forall P, TPL < P < TPL_HIGH_LEVEL -> passive_queue P F1 (data s1)).
      { intros P HP e0 r0. rewrite Hev. by apply Hpas. }
      assert (Hf1 : (36 + size (live (data s1)) <= S (S n))%nat) by (by rewrite Hlv, Hl1).
      destruct (CoreRestoreTpl_passive Verify Max (S (S n)) F1 TPL s1 Hi1 Hc1 Hle1 Hh1 Hlt Hpas1 Hf1)
        as (s2 & Heq & Ht2 & Hk2 & _ & Hq2 & F2 & Hdl).
      exists s2. split; [exact Heq|]. assert (Hb : back s s2) by (split; [done|by transitivity s1]). split; [done|].
      exists F2. split; [apply (ready_back Max F F2 s); try done; apply Hdl|]. split; [done|].
      by apply (delivered_from Max _ _ F1 d1 (data s1) p). }
    intros Hwp. apply wp_total in Hwp as ([Status s'] & Heq & -> & Hb & F' & Hr' & Hq & []). exists s'. split; [exact Heq|]. split; [done|].
    exists F'. split; [done|]. split; [by rewrite <-Hn1|]. split; [|split; [done|split; [done|by rewrite <-Hl1]]].
    intros t Htt. unfold queue. assert (H0t : 0 <= TPL < t) by (split; [apply Hr|lia]).
    by rewrite (queue_empty Max F' (data s') TPL t (ready_inv _ _ _ Hr') Hq H0t (proj2 Htt)).
Qed.

(** [CoreCheckEvent] rejects dead handles and notify-signal events; it
    reports and clears a signalled event, so that each signal is reported once;
    it reports an unsignalled one as not ready, after queueing the notification
    of a notify-wait event. *)
Theorem CoreCheckEvent_correct n F e s :
  ready Max F s -> valid Max e -> (forall r, events (data s) !! e = Some r -> NotifyTpl r <= gEfiCurrentTpl s) ->
  exists Status s', CoreCheckEvent Verify Max (CoreRestoreTpl Verify Max (S (S n))) e s = Ok (Status, s') /\
    back s s' /\ check_outcome Max F (data s) e (data s') Status.
Proof.
  intros Hr Hv Ht.
  pose proof (CoreCheckEvent_quiet Verify Max true _ (CoreRestoreTpl_total Verify Max n) F e s Hr Hv Ht) as Hwp.
  apply wp_total in Hwp as ([Status s'] & Heq & Hb & Hout). by exists Status, s'.
Qed.

(** C38: [CoreCreateEvent] and [CoreCreateEventEx] accept exactly the requests
    that make sense; the new event is a block that no live event uses, with the
    fields that were asked for, and is put at the front of the signal list and
    at the end of the list of runtime events if it has these types; nothing
    else changes, and a rejected request changes nothing. *)
Theorem CoreCreateEventEx_correct n F t p f c g s : ready Max F s -> may_register f c p ->
  exists Status e s', CoreCreateEventEx Verify Max (CoreRestoreTpl Verify Max (S (S n))) t p f c g false s = Ok (Status, e, s') /\
    back s s' /\
    ((Status = EFI_SUCCESS /\ valid_request t p f g /\ e ∈ Blocks /\ e ∉ live (data s) /\
        let r := requested_event e t p f c g in
        (exists h, data s' = born e r h (data s)) /\ ready Max (born_lists e r F) s') \/
     (Status = EFI_OUT_OF_RESOURCES /\ valid_request t p f g /\ (exists b, AllocatePool b (live (data s)) = None) /\
        e = NULL /\ s' = s) \/
     (Status = EFI_INVALID_PARAMETER /\ ~ valid_request t p f g /\ e = NULL /\ s' = s)).
Proof.
  intros Hr Hreg. unfold CoreCreateEventEx. fold (notifies t). unfold TPL_APPLICATION, TPL_CALLBACK, TPL_NOTIFY.
  destruct (notifies t && negb (p =? 4) && negb (p =? 8) && negb (p =? 16)) eqn:Htpl.
  { exists EFI_INVALID_PARAMETER, NULL, s. split; [done|]. split; [done|]. right. right. split; [done|]. split; [|done].
    intros [_ Hv]. bool_to_prop. destruct Htpl as [[[Hn ?] ?] ?]. destruct (Hv Hn) as [?|[?|?]]; done. }
  assert (Hp : notifies t = true -> p = 4 \/ p = 8 \/ p = 16).
  { intros Hn. rewrite Hn in Htpl. bool_to_prop. destruct Htpl as [[[?|?]|?]|?]; auto; done. }
  pose proof (CoreCreateEventInternal_spec Verify Max true _ (CoreRestoreTpl_total Verify Max n) F t p f c g s Hr ltac:(done)) as Hwp.
  apply wp_total in Hwp as ([[Status e] s'] & -> & Hb & Hc). exists Status, e, s'. split; [done|]. split; [done|].
  destruct Status; try done; cbn [created] in Hc.
  - destruct Hc as (r & h & Hreq & He & Hdead & _ & Hd & Hr'). left. split; [done|].
    destruct (requested_spec e t p f c g) as [[Hv Heq]|[_ Heq]]; rewrite Heq in Hreq; [|done]. injection Hreq as <-.
    split; [done|]. split; [done|]. split; [done|]. split; [by exists h|done].
  - destruct Hc as (Hreq & -> & ->). right. right. split; [done|]. split; [|done]. intros [Hv _].
    destruct (requested_spec NULL t p f c g) as [[_ Heq]|[Hn _]]; [congruence|done].
  - destruct Hc as ([r Hreq] & Hal & -> & ->). right. left. split; [done|]. split; [|done].
    destruct (requested_spec NULL t p f c g) as [[Hv _]|[_ Heq]]; [done|congruence].
Qed.

(** C37: [CoreCloseEvent] frees a live event, at any TPL at which timers can be
    set: the event leaves every list it is in, queued notifications included,
    all other events and lists stay as they are, and from then on its handle is
    rejected. *)
Theorem CoreCloseEvent_correct n F e s :
  ready Max F s -> gEfiCurrentTpl s <= TPL_HIGH_LEVEL - 1 -> Acquired (mEfiTimerLock s) = false -> e ∈ live (data s) ->
  exists s' F', CoreCloseEvent Verify Max (CoreRestoreTpl Verify Max (S (S n))) e s = Ok (EFI_SUCCESS, s') /\
    back s s' /\ ready Max F' s' /\ freed e F (data s) F' (data s') /\
    CoreSignalEvent Verify Max (CoreRestoreTpl Verify Max (S (S n))) e s' = Ok (EFI_INVALID_PARAMETER, s') /\
    CoreCloseEvent Verify Max (CoreRestoreTpl Verify Max (S (S n))) e s' = Ok (EFI_INVALID_PARAMETER, s').
Proof.
  intros Hr Ht Ha He. assert (HeB : e ∈ Blocks) by (by apply (live_block Max F (data s) (ready_inv _ _ _ Hr))).
  pose proof (CoreCloseEvent_spec Verify Max true _ (CoreRestoreTpl_total Verify Max n) F e s Hr Ht Ha (or_intror HeB)) as Hwp.
  apply wp_total in Hwp as ([Status s'] & Heq & Hb & Hout). rewrite bool_decide_true in Hout by done.
  destruct Hout as (-> & F' & Hr' & Hf). exists s', F'. split; [done|]. split; [done|]. split; [done|]. split; [done|].
  assert (Hdead : bad_event (data s') e = Ok true).
  { destruct (bad_event_spec Max F' (data s') e (ready_inv _ _ _ Hr') (or_intror HeB)) as [[? _]|(_ & Hl & _)]; [done|].
    rewrite (freed_live _ _ _ _ _ Hf) in Hl. set_solver. }
  unfold CoreSignalEvent, CoreCloseEvent. by rewrite Hdead.
Qed.

(** Closing an event right after it was created undoes the creation: the
    same events are live, with the same fields, and every list holds what it
    held before. *)
Theorem create_close_roundtrip n F t p f c g s e s1 :
  ready Max F s -> may_register f c p -> gEfiCurrentTpl s <= TPL_HIGH_LEVEL - 1 -> Acquired (mEfiTimerLock s) = false ->
  CoreCreateEventEx Verify Max (CoreRestoreTpl Verify Max (S (S n))) t p f c g false s = Ok (EFI_SUCCESS, e, s1) ->
  exists s2 F2, CoreCloseEvent Verify Max (CoreRestoreTpl Verify Max (S (S n))) e s1 = Ok (EFI_SUCCESS, s2) /\
    back s s2 /\ ready Max F2 s2 /\ live (data s2) = live (data s) /\
    (forall e', e' <> e -> events (data s2) !! e' = events (data s) !! e') /\
    (forall hd x, member F2 hd x <-> member F hd x) /\ gEventPending (data s2) = gEventPending (data s).
Proof.
  intros Hr Hreg Ht Ha Hcr. pose proof (ready_inv _ _ _ Hr) as Hi. unfold CoreCreateEventEx in Hcr.
  destruct (_ && _ && _ && _); [done|].
  pose proof (CoreCreateEventInternal_spec Verify Max true _ (CoreRestoreTpl_total Verify Max n) F t p f c g s Hr ltac:(done)) as Hwp.
  rewrite Hcr in Hwp. cbn [wp created] in Hwp. destruct Hwp as (Hb & r & h & _ & HeB & Hdead & _ & Hd & Hr1).
  assert (He : e ∈ live (data s1)) by (rewrite Hd; simpl; set_solver).
  pose proof (CoreCloseEvent_spec Verify Max true _ (CoreRestoreTpl_total Verify Max n) (born_lists e r F) e s1 Hr1) as Hwp.
  destruct Hb as [Hbt Hbk]. rewrite Hbt in Hwp. specialize (Hwp Ht).
  destruct (Hbk TimerLock) as (_ & Hacq & _). simpl in Hacq. rewrite Hacq in Hwp. specialize (Hwp Ha (or_intror HeB)).
  apply wp_total in Hwp as ([Status s2] & Heq & Hb2 & Hout). rewrite bool_decide_true in Hout by done.
  destruct Hout as (-> & F2 & Hr2 & [Hl Hev Hm Hp _ _]). exists s2, F2. split; [done|].
  split; [by transitivity s1|]. split; [done|]. rewrite Hd in *. split; [rewrite Hl; simpl; set_solver|].
  split; [intros e' Hne; rewrite Hev by done; simpl; by rewrite lookup_insert_ne|]. split; [|by rewrite Hp].
  intros hd x. rewrite Hm. split.
  - intros [Hx Hne]. destruct (member_born Max F (data s) e r hd x Hi Hx) as [?|[k ->]]; [done|]. by destruct (Hne k).
  - intros Hx. split; [by apply (born_member Max F (data s))|].
    intros k ->. by apply (dead_member Max F (data s) e k hd).
Qed.

(** [CoreInitializeEventServices] turns the memory of the booted core into
    event services that satisfy their invariant, with the event that checks the
    timers in place. *)
Theorem CoreInitializeEventServices_ready n s : booted Max s -> (forall b, AllocatePool b ∅ <> None) ->
  exists s', CoreInitializeEventServices Verify Max (S (S n)) s = Ok (EFI_SUCCESS, s') /\
    (exists F', ready Max F' s') /\ unlocked s' /\ gEfiCurrentTpl s' = TPL_APPLICATION /\
    mEfiCheckTimerEvent (data s') ∈ live (data s') /\
    (gIdleLoopEvent (data s') = NULL \/ gIdleLoopEvent (data s') ∈ live (data s')) /\
    exists r, events (data s') !! mEfiCheckTimerEvent (data s') = Some r /\
      NotifyFunction r = CoreCheckTimers_function /\ NotifyTpl r = TPL_HIGH_LEVEL - 1.
Proof.
  intros Hb Hal. pose proof (initialize_spec Verify Max n s Hb Hal) as Hwp.
  apply wp_total in Hwp as ([Status s'] & Heq & -> & Hout). by exists s'.
Qed.

(** ** A timer that never gets ahead of now *)

(** The time at which the periodic timer [e] is to trigger next wraps around. *)
Definition stuck (now : Z) (F : lists) (d : EventData) (e : ptr) : Prop :=
  e ∈ live d /\ member F mEfiTimerList (node e TimerSlot) /\ exists r, events d !! e = Some r /\ TriggerTime r <= now /\
    Period r <> 0 /\ u64 (TriggerTime r + Period r) <= now /\ u64 (now + Period r) <= now.

Lemma stuck_step n now F e s0 s1 : ready Max F s1 -> inside TimerLock s0 s1 -> 0 <= now < 2 ^ 64 ->
  gEfiCurrentTpl s0 <= TPL_HIGH_LEVEL - 1 -> stuck now F (data s1) e ->
  exists s2 F2, CheckTimers_step Verify Max (CoreRestoreTpl Verify Max (S (S n))) now s1 = Ok (Some s2) /\
    ready Max F2 s2 /\ inside TimerLock s0 s2 /\ stuck now F2 (data s2) e.
Proof.
  intros Hr Hin Hnow Ht (He & Hm & r & Hre & Hle & Hp & Hw & Hw').
  pose proof (CheckTimers_step_spec Verify Max true _ (CoreRestoreTpl_total Verify Max n) F now s0 s1 Hr Hin Hnow Ht) as Hwp.
  apply wp_total in Hwp as ([s2|] & Heq & Hout).
  2: { destruct Hm as (l & Hl & Hx). specialize (Hout l _ Hl Hx). rewrite (trigger_node _ _ _ Hre) in Hout. lia. }
  destruct Hout as (Hin2 & F2 & e0 & r0 & l & Hr2 & Hl & He0 & Hre0 & Hle0 & Hf). exists s2, F2.
  split; [done|]. split; [done|]. split; [done|]. pose proof (ready_inv _ _ _ Hr) as Hi.
  split; [by rewrite (kb_live _ _ _ (fired_kept _ _ _ _ _ _ _ Hf))|]. destruct (decide (e = e0)) as [->|Hne].
  - rewrite Hre in Hre0. injection Hre0 as <-. destruct (fired_event _ _ _ _ _ _ _ Hf) as (r' & Hr' & _ & Hp' & Ht').
    pose proof (fired_list _ _ _ _ _ _ _ Hf) as Hlist. rewrite (proj2 (Z.eqb_neq _ _) Hp) in Ht', Hlist.
    destruct Hlist as (l1 & l2 & _ & Hl2). split; [eexists; split; [exact Hl2|set_solver]|]. exists r'. split; [done|].
    unfold rearmed in Ht'. rewrite (proj2 (Z.leb_le _ _) Hw) in Ht'. rewrite Ht', Hp'. auto with lia.
  - split; [by eapply (fired_other Max now F (data s1) e0 r0 l F2 (data s2))|].
    destruct (kb_events _ _ _ (fired_kept _ _ _ _ _ _ _ Hf) e r Hne Hre) as (r' & Hr' & Ht' & Hp' & _).
    exists r'. rewrite Ht', Hp'. done.
Qed.

Lemma stuck_loop n fuel now F e s0 s1 : ready Max F s1 -> inside TimerLock s0 s1 -> 0 <= now < 2 ^ 64 ->
  gEfiCurrentTpl s0 <= TPL_HIGH_LEVEL - 1 -> stuck now F (data s1) e ->
  CheckTimers_loop Verify Max (CoreRestoreTpl Verify Max (S (S n))) fuel now s1 = NoFuel.
Proof.
  revert F s1. induction fuel as [|fuel IH]; intros F s1 Hr Hin Hnow Ht Hst; [done|]. cbn [CheckTimers_loop].
  destruct (stuck_step n now F e s0 s1 Hr Hin Hnow Ht Hst) as (s2 & F2 & -> & Hr2 & Hin2 & Hst2).
  by apply (IH F2).
Qed.

(** Nothing bounds the period of a timer.  If the next trigger time of an
    expired periodic timer wraps around (a period of [MAX_UINT64] will do),
    [CoreCheckTimers] never leaves its loop: the timer is re-armed for now, and
    is expired again in the next pass. *)
Theorem CoreCheckTimers_hangs n fuel F e s :
  ready Max F s -> gEfiCurrentTpl s = TPL_HIGH_LEVEL - 1 -> Acquired (mEfiTimerLock s) = false ->
  stuck (mEfiSystemTime (data s)) F (data s) e ->
  CoreCheckTimers Verify Max (CoreRestoreTpl Verify Max (S (S n))) fuel s = NoFuel.
Proof.
  intros Hr Htpl Ha Hst. assert (Ht : gEfiCurrentTpl s <= TPL_HIGH_LEVEL - 1) by lia.
  unfold CoreCheckTimers. destruct (enter_timer Max F s Hr Ht Ha) as (s1 & -> & Hin & Hd).
  cbn [mbind result_bind]. pose proof (ready_inv _ _ _ Hr) as Hi. rewrite <-Hd in Hi, Hst.
  pose proof (timer_ready Max F F s s1 Hr Ht Hin Hi) as Hr1.
  pose proof (CoreCurrentSystemTime_spec Max true _ (CoreRestoreTpl_total Verify Max n) F s1 Hr1) as Hwp.
  rewrite (inside_tpl _ _ _ Hin) in Hwp. specialize (Hwp eq_refl).
  apply wp_total in Hwp as ([now s2] & -> & -> & Hd2 & Hb2). cbn [mbind result_bind].
  rewrite (stuck_loop n fuel _ F e s s2); [done| | | |done|].
  - apply (ready_back Max F F s1); rewrite ?Hd2; try done. apply Hr1.
  - by eapply inside_back.
  - apply (inv_time Max F _ Hi).
  - by rewrite Hd2.
Qed.

(** A tick of the timer hardware advances the clock, modulo 2^64, and
    signals the event that checks the timers if the first timer of the list is
    due; no timer changes and none leaves the timer list. *)
Theorem CoreTimerTick_correct n F Duration s : ready Max F s -> Acquired (mEfiSystemTimeLock s) = false ->
  TPL_HIGH_LEVEL - 1 <= gEfiCurrentTpl s ->
  exists s' F', CoreTimerTick Verify Max (CoreRestoreTpl Verify Max (S (S n))) Duration s = Ok s' /\
    back s s' /\ ready Max F' s' /\
    let now := u64 (mEfiSystemTime (data s) + Duration) in
    signals_only F (set_time now (data s)) F' (data s') /\
    (mEfiCheckTimerEvent (data s) ∈ live (data s) -> forall x l r, F !! mEfiTimerList = Some (x :: l) ->
       trigger (data s) x <= now -> events (data s') !! mEfiCheckTimerEvent (data s) = Some r -> SignalCount r <> 0).
Proof.
  intros Hr Ha Ht.
  pose proof (CoreTimerTick_quiet Verify Max true _ (CoreRestoreTpl_total Verify Max n) F Duration s Hr Ha Ht) as Hwp.
  apply wp_total in Hwp as (s' & Heq & Hb & F' & Hr' & Hout). by exists s', F'.
Qed.
End Properties.

(** * Witnesses *)

(** A platform with six pool blocks, and two client functions: 100 returns at
    once, 101 signals its context at [TPL_NOTIFY]. *)
Module EventWitness.

#[local] Existing Instance X64.

Definition blocks : list ptr := [0x2000; 0x3000; 0x4000; 0x5000; 0x6000; 0x7000].

Definition signal_context (c : Z) : prog :=
  Do (RaiseTpl TPL_NOTIFY) (fun _ OldTpl => Do (SignalEvent c) (fun _ _ => Do (RestoreTpl OldTpl) (fun _ _ => Done))).

#[local] Instance SamplePlatform : Platform := {|
  gCpu := true;
  gSmmBase2 := None;
  GetTimerPeriod := 100000;
  AllocatePool _ used := List.find (fun p => bool_decide (p ∉ used)) blocks;
  CoreUnregisterProtocolNotify _ s := s;
  Client f _ c := if f =? 101 then signal_context c else Done |}.

#[local] Instance SampleRegistry : Registry.
Proof.
  refine {| Registered f c t := (f = 100 /\ TPL_APPLICATION < t < TPL_HIGH_LEVEL) \/ (f = 101 /\ t = TPL_CALLBACK /\ c ∈ blocks) |}.
  intros f c t [[-> _]|[-> _]]; done.
Defined.

#[local] Instance SampleLaws : PlatformLaws 100.
Proof.
  refine {| Blocks := list_to_set blocks |}.
  - intros p q. rewrite !elem_of_list_to_set. unfold blocks, sizeof_IEVENT. rewrite !elem_of_cons, !elem_of_nil. lia.
  - intros p. rewrite elem_of_list_to_set. unfold blocks. rewrite !elem_of_cons, !elem_of_nil. lia.
  - right. vm_compute. lia.
  - intros b used p [Hin Hp]%List.find_some. split; [by apply elem_of_list_to_set, list_elem_of_In|].
    by apply bool_decide_eq_true in Hp.
  - done.
Defined.

#[local] Instance SampleClients : ClientLaws 100.
Proof.
  split. intros f c t e [[-> Ht]|(-> & -> & Hc)] He; [exact (wb_Done 100 t)|].
  change (Client 101 e c) with (signal_context c).
  assert (Hv : valid 100 c) by (right; exact (proj2 (elem_of_list_to_set (C := gset Z) c blocks) Hc)).
  apply wb_RaiseTpl; [done|]. apply wb_SignalEvent; [done|]. intros st.
  apply wb_RestoreTpl; [done|]. apply wb_Done.
Qed.

#[local] Instance Registered_dec f c t : Decision (Registered f c t).
Proof. simpl. apply _. Defined.

(** Memory after reset, and the state when the services have started. *)
Definition boot_links : store :=
  list_to_map (((fun hd => (hd, MkLink hd hd)) <$> heads) ++
    (e ← blocks; k ← slots; [(node e k, MkLink 0 0)])).

Definition boot : EventState :=
  MkState (MkData boot_links (list_to_map ((fun e => (e, zero_event)) <$> blocks)) ∅ 0 0 NULL NULL [])
    TPL_APPLICATION true (MkLock TPL_HIGH_LEVEL 0 false) (MkLock (TPL_HIGH_LEVEL - 1) 0 false) (MkLock TPL_HIGH_LEVEL 0 false).

Definition state_of {A} (r : result (A * EventState)) : EventState := match r with Ok (_, s) => s | _ => boot end.

Abbreviation fuel := 60%nat.
Abbreviation restoring := (CoreRestoreTpl true 100 fuel).

Definition start : EventState := state_of (CoreInitializeEventServices true 100 fuel boot).
#[local] Opaque start.

(** What a client calls, one after the other. *)
Definition calls (cs : list call) (s : EventState) : EventState :=
  foldl (fun s c => state_of (run_call true 100 restoring fuel c s)) s cs.

Definition readyb (s : EventState) : bool :=
  invb 100 (data s) && (0 <=? gEfiCurrentTpl s) && (gEfiCurrentTpl s <=? TPL_HIGH_LEVEL) &&
  (gEventPending (data s) <? 2 ^ (gEfiCurrentTpl s + 1)) &&
  forallb (fun l => (Tpl (get_lock l s) =? lock_tpl l) && negb (Acquired (get_lock l s))) [EventQueueLock; TimerLock; SystemTimeLock].

Definition lists_in (s : EventState) : lists := lists_of (links (data s)).

Lemma readyb_ok s : readyb s = true -> ready 100 (lists_in s) s /\ unlocked s.
Proof.
  unfold readyb. rewrite !andb_true_iff, !Z.leb_le, Z.ltb_lt, forallb_forall. intros ((((Hi & H1) & H2) & H3) & Hl).
  assert (Hlock : forall l, Tpl (get_lock l s) = lock_tpl l /\ Acquired (get_lock l s) = false).
  { intros l. specialize (Hl l). rewrite andb_true_iff, Z.eqb_eq, negb_true_iff in Hl. apply Hl. destruct l; simpl; auto. }
  split; [|intros l; apply Hlock]. split; [exact (invb_ok 100 (data s) Hi)| |done|done].
  split; intros l; [apply Hlock|]. intros Ha. destruct (Hlock l). congruence.
Qed.

Lemma start_ready : ready 100 (lists_in start) start /\ unlocked start.
Proof. apply readyb_ok. vm_compute. reflexivity. Qed.

Lemma block_ok e : bool_decide (e ∈ blocks) = true -> e ∈ Blocks.
Proof. intros He%bool_decide_eq_true. exact (proj2 (elem_of_list_to_set (C := gset Z) e blocks) He). Qed.

(** A client with a periodic timer whose notification function signals
    another event. *)
Definition client : prog :=
  Do (CreateEvent 0x200 TPL_NOTIFY 100 0) (fun _ e1 =>
  Do (CreateEvent 0x80000200 TPL_CALLBACK 101 0x4000) (fun _ e2 =>
  Do (SetTimer e2 TimerPeriodic 50) (fun _ _ =>
  Do (TimerTick 70) (fun _ _ =>
  Do (CheckEvent e1) (fun _ _ =>
  Do (CloseEvent e2) (fun _ _ => Done)))))).

Lemma client_wb : wb 100 TPL_APPLICATION TPL_APPLICATION client.
Proof.
  assert (Hblk : bool_decide (0x4000 ∈ blocks) = true) by done. apply bool_decide_eq_true in Hblk.
  apply wb_CreateEvent; [left; done|]. intros st e1 He1.
  apply wb_CreateEvent; [right; done|]. intros st' e2 He2.
  apply wb_SetTimer; [done..|]. intros _. apply wb_TimerTick. intros _. apply wb_CheckEvent; [done|]. intros _.
  apply wb_CloseEvent; [done..|]. intros _. apply wb_Done.
Qed.

Lemma event_programs_safe_witness :
  exists s', run true 100 restoring fuel client start = Ok s' /\
    Notified (data s') = [(0x2000, 30); (0x5000, 8); (0x4000, 16)] /\ gEfiCurrentTpl s' = TPL_APPLICATION /\ unlocked s'.
Proof.
  pose proof (event_programs_safe true 100 fuel (lists_in start) TPL_APPLICATION client start client_wb) as Hsafe.
  specialize (Hsafe ltac:(done) (proj1 start_ready) (proj2 start_ready) ltac:(vm_compute; reflexivity)).
  assert (Hn : match run true 100 restoring fuel client start with
    | Ok s' => Notified (data s') = [(0x2000, 30); (0x5000, 8); (0x4000, 16)] | _ => False end) by (vm_compute; reflexivity).
  destruct (run true 100 restoring fuel client start) as [s'| | |]; try done. destruct Hsafe as (Ht & Hu & _). by exists s'.
Defined.

(** Three events signalled at [TPL_HIGH_LEVEL - 1], two of them of the same
    priority. *)
Definition queued : EventState :=
  calls [CreateEvent 0x200 TPL_CALLBACK 100 0; CreateEvent 0x200 TPL_NOTIFY 100 0; CreateEvent 0x200 TPL_CALLBACK 100 0;
         RaiseTpl 30; SignalEvent 0x6000; SignalEvent 0x5000; SignalEvent 0x4000] start.
#[local] Opaque queued.

Lemma queued_ready : ready 100 (lists_in queued) queued /\ unlocked queued.
Proof. apply readyb_ok. vm_compute. reflexivity. Qed.

Definition passiveb (F : lists) (d : EventData) : bool :=
  forallb (fun P => forallb (fun e => match events d !! e with Some r => NotifyFunction r =? 100 | None => true end)
    (queue F P)) (seqZ 0 31).

Lemma passiveb_ok F d t : passiveb F d = true -> 0 <= t -> forall P, t < P < TPL_HIGH_LEVEL -> passive_queue P F d.
Proof.
  unfold passiveb. rewrite forallb_forall. intros Hb Ht P HP e r He Hr. specialize (Hb P).
  rewrite <-list_elem_of_In, elem_of_seqZ, forallb_forall in Hb. unfold TPL_HIGH_LEVEL in HP. specialize (Hb ltac:(lia) e).
  rewrite <-list_elem_of_In, Hr, Z.eqb_eq in Hb. right. rewrite (Hb He). done.
Qed.

Lemma ready_calm_at s t : ready 100 (lists_in s) s /\ unlocked s -> calm t s.
Proof. intros [Hr Hu]. split; [apply Hr|]. intros l Hl. by rewrite Hu in Hl. Qed.

(** An event whose notification function signals another one, of a higher
    priority. *)
Definition chained : EventState :=
  calls [CreateEvent 0x200 TPL_NOTIFY 100 0; CreateEvent 0x200 TPL_CALLBACK 101 0x4000; RaiseTpl 30; SignalEvent 0x5000] start.
#[local] Opaque chained.

Lemma chained_ready : ready 100 (lists_in chained) chained /\ unlocked chained.
Proof. apply readyb_ok. vm_compute. reflexivity. Qed.

Lemma CoreRestoreTpl_delivers_witness :
  (exists s', CoreRestoreTpl true 100 fuel TPL_APPLICATION queued = Ok s' /\ InterruptState s' = true /\
     Notified (data s') = [(0x5000, 16); (0x6000, 8); (0x4000, 8)]) /\
  (exists s', CoreRestoreTpl true 100 fuel TPL_APPLICATION chained = Ok s' /\
     Notified (data s') = [(0x5000, 8); (0x4000, 16)] /\ lowers true 100 TPL_APPLICATION (data chained) (data s')).
Proof.
  split.
  - destruct (proj2 (CoreRestoreTpl_delivers true 100 fuel (lists_in queued) TPL_APPLICATION queued
      (ready_inv _ _ _ (proj1 queued_ready)) (ready_calm_at queued TPL_APPLICATION queued_ready)
      ltac:(vm_compute; split; discriminate) ltac:(vm_compute; discriminate)))
      as (s' & Heq & _ & Hint & F' & _ & Hn & _).
    + done.
    + apply passiveb_ok; [vm_compute; reflexivity|done].
    + vm_compute. lia.
    + exists s'. split; [exact Heq|]. split; [by apply Hint|]. rewrite Hn. vm_compute. reflexivity.
  - pose proof (proj1 (CoreRestoreTpl_delivers true 100 fuel (lists_in chained) TPL_APPLICATION chained
      (ready_inv _ _ _ (proj1 chained_ready)) (ready_calm_at chained TPL_APPLICATION chained_ready)
      ltac:(vm_compute; split; discriminate) ltac:(vm_compute; discriminate)) SampleClients) as Hwp.
    assert (Hn : match CoreRestoreTpl true 100 fuel TPL_APPLICATION chained with
      | Ok s' => Notified (data s') = [(0x5000, 8); (0x4000, 16)] | _ => False end) by (vm_compute; reflexivity).
    destruct (CoreRestoreTpl true 100 fuel TPL_APPLICATION chained) as [s'| | |]; try contradiction Hn.
    destruct Hwp as (_ & _ & _ & Hlow & _). exists s'. split; [reflexivity|]. split; [exact Hn|exact Hlow].
Defined.

(** Three timers, two of them periodic. *)
Definition three : EventState :=
  calls [CreateEvent 0x80000200 TPL_CALLBACK 100 0; CreateEvent 0x80000000 0 0 0; CreateEvent 0x80000100 TPL_NOTIFY 100 7;
         SetTimer 0x4000 TimerPeriodic 100; SetTimer 0x5000 TimerRelative 300; SetTimer 0x6000 TimerPeriodic 40] start.
#[local] Opaque three.

Lemma three_ready : ready 100 (lists_in three) three /\ unlocked three.
Proof. apply readyb_ok. vm_compute. reflexivity. Qed.

(** Two of them are overdue. *)
Definition late : EventState := calls [RaiseTpl 31; TimerTick 250; RestoreTpl 30] three.
#[local] Opaque late.

Lemma late_ready : ready 100 (lists_in late) late /\ unlocked late.
Proof. apply readyb_ok. vm_compute. reflexivity. Qed.

Definition schedule (s : EventState) : list (ptr * Z) :=
  (fun x => (x - OFFSET_TimerLink, trigger (data s) x)) <$> read (links (data s)) mEfiTimerList.

Definition no_overflowb (s : EventState) : bool :=
  forallb (fun x => match events (data s) !! (x - OFFSET_TimerLink) with
    | Some r => mEfiSystemTime (data s) + Period r <? 2 ^ 64 | None => true end) (read (links (data s)) mEfiTimerList).

Lemma no_overflowb_ok s : no_overflowb s = true -> no_overflow (mEfiSystemTime (data s)) (lists_in s) (data s).
Proof.
  unfold no_overflowb. rewrite forallb_forall. intros Hb e r (l & (_ & ->)%lists_of_lookup & Hx) Hr _.
  specialize (Hb (node e TimerSlot)). rewrite <-list_elem_of_In in Hb. specialize (Hb Hx).
  replace (node e TimerSlot - OFFSET_TimerLink) with e in Hb by (unfold node; simpl; lia). rewrite Hr, Z.ltb_lt in Hb. done.
Qed.

Lemma CoreCheckTimers_correct_witness :
  schedule late = [(0x6000, 40); (0x4000, 100); (0x5000, 300)] /\
  exists s' F', CoreCheckTimers true 100 restoring fuel late = Ok s' /\ ready 100 F' s' /\
    timers_checked 250 (lists_in late) (data late) F' (data s') /\
    schedule s' = [(0x6000, 290); (0x5000, 300); (0x4000, 350)].
Proof.
  split; [vm_compute; reflexivity|].
  destruct (CoreCheckTimers_correct true 100 58 fuel (lists_in late) late) as (s' & F' & Heq & _ & Hr' & Hck & _).
  - apply late_ready.
  - vm_compute. reflexivity.
  - vm_compute. reflexivity.
  - apply no_overflowb_ok. vm_compute. reflexivity.
  - vm_compute. lia.
  - exists s', F'. split; [exact Heq|]. split; [done|].
    split; [replace 250 with (mEfiSystemTime (data late)) by (vm_compute; reflexivity); exact Hck|].
    assert (Hs : match CoreCheckTimers true 100 restoring fuel late with
      | Ok s => schedule s = [(0x6000, 290); (0x5000, 300); (0x4000, 350)] | _ => False end) by (vm_compute; reflexivity).
    assert (Heq' : CoreCheckTimers true 100 restoring fuel late = Ok s') by exact Heq. rewrite Heq' in Hs. exact Hs.
Defined.

(** A timer for later, and one that is due at once: all that is overdue is
    notified before the call returns. *)
Lemma CoreSetTimer_correct_witness :
  (exists s' F', CoreSetTimer true 100 restoring 0x5000 TimerRelative 100 three = Ok (EFI_SUCCESS, s') /\
    ready 100 F' s' /\ timer_set TimerRelative 100 (lists_in three) (data three) 0x5000 F' (data s') /\
    schedule s' = [(0x6000, 40); (0x4000, 100); (0x5000, 100)]) /\
  (exists s1 s' F1, CoreSetTimer true 100 restoring 0x4000 TimerRelative 0 three = Ok (EFI_SUCCESS, s') /\
    timer_set TimerRelative 0 (lists_in three) (data three) 0x4000 F1 (data s1) /\
    lowers true 100 TPL_APPLICATION (data s1) (data s') /\
    Notified (data s') = [(0x2000, 30); (0x4000, 8)] /\ schedule s' = [(0x6000, 40); (0x5000, 300)]).
Proof.
  split.
  - pose proof (CoreSetTimer_correct true 100 58 (lists_in three) 0x5000 TimerRelative 100 three (proj1 three_ready)
      ltac:(vm_compute; discriminate) ltac:(vm_compute; reflexivity) (or_intror (block_ok 0x5000 eq_refl))
      ltac:(split; [discriminate|reflexivity])) as Hset.
    cbv zeta in Hset. replace (timer_request (data three) 0x5000 TimerRelative) with true in Hset by (vm_compute; reflexivity).
    destruct Hset as (s1 & F1 & _ & _ & _ & Hset & _ & Hq & _).
    destruct Hq as (s' & Heq & _ & Hr' & Hd'); [right; vm_compute; reflexivity|].
    assert (Heq' : CoreSetTimer true 100 restoring 0x5000 TimerRelative 100 three = Ok (EFI_SUCCESS, s')) by exact Heq.
    assert (Hs : match CoreSetTimer true 100 restoring 0x5000 TimerRelative 100 three with
      | Ok (_, s) => schedule s = [(0x6000, 40); (0x4000, 100); (0x5000, 100)] | _ => False end) by (vm_compute; reflexivity).
    rewrite Heq' in Hs. exists s', F1. rewrite Hd'. split; [exact Heq'|]. split; [exact Hr'|]. split; [exact Hset|exact Hs].
  - pose proof (CoreSetTimer_correct true 100 58 (lists_in three) 0x4000 TimerRelative 0 three (proj1 three_ready)
      ltac:(vm_compute; discriminate) ltac:(vm_compute; reflexivity) (or_intror (block_ok 0x4000 eq_refl))
      ltac:(split; [discriminate|reflexivity])) as Hset.
    cbv zeta in Hset. replace (timer_request (data three) 0x4000 TimerRelative) with true in Hset by (vm_compute; reflexivity).
    destruct Hset as (s1 & F1 & _ & _ & _ & Hset & _ & _ & Hany). specialize (Hany SampleClients).
    replace (gEfiCurrentTpl three) with TPL_APPLICATION in Hany by (vm_compute; reflexivity).
    assert (Hs : match CoreSetTimer true 100 restoring 0x4000 TimerRelative 0 three with
      | Ok (_, s) => Notified (data s) = [(0x2000, 30); (0x4000, 8)] /\ schedule s = [(0x6000, 40); (0x5000, 300)]
      | _ => False end) by (vm_compute; split; reflexivity).
    change (CoreRestoreTpl true 100 (S (S 58))) with restoring in Hany.
    destruct (CoreSetTimer true 100 restoring 0x4000 TimerRelative 0 three) as [[Status s']| | |] eqn:Heq; try contradiction Hs.
    destruct Hany as (-> & _ & _ & Hlow). destruct Hs as [Hn Hs]. exists s1, s', F1. split; [reflexivity|].
    split; [exact Hset|]. split; [exact Hlow|]. split; [exact Hn|exact Hs].
Defined.

(** A group of two events, and one that is not of the group. *)
Definition sample_guid : EFI_GUID := MkGuid 1 2 3 ([4; 5; 6; 7; 8; 9; 10; 11]).

Definition members : EventState :=
  calls [CreateEventEx 0x200 TPL_CALLBACK 100 0 (Some sample_guid); CreateEventEx 0x200 TPL_NOTIFY 100 0 (Some sample_guid);
         CreateEvent 0x200 TPL_NOTIFY 100 0] start.
#[local] Opaque members.

Lemma members_ready : ready 100 (lists_in members) members /\ unlocked members.
Proof. apply readyb_ok. vm_compute. reflexivity. Qed.

Definition grouped : EventState := calls [RaiseTpl 30] members.
#[local] Opaque grouped.

Lemma grouped_ready : ready 100 (lists_in grouped) grouped /\ unlocked grouped.
Proof. apply readyb_ok. vm_compute. reflexivity. Qed.

(** At a high TPL the notifications are queued, at a low one they are
    delivered. *)
Lemma CoreSignalEvent_correct_witness :
  (exists s' r, events (data grouped) !! 0x4000 = Some r /\
    CoreSignalEvent true 100 restoring 0x4000 grouped = Ok (EFI_SUCCESS, s') /\
    gEventPending (data s') = 2 ^ 8 + 2 ^ 16 /\
    inv 100 (enqueue_all (mark 0x4000 r (data grouped)) [0x5000; 0x4000] (lists_in grouped)) (data s')) /\
  (exists s', CoreSignalEvent true 100 restoring 0x4000 members = Ok (EFI_SUCCESS, s') /\
    Notified (data s') = [(0x5000, 16); (0x4000, 8)] /\ gEfiCurrentTpl s' = TPL_APPLICATION).
Proof.
  split.
  - destruct (events (data grouped) !! 0x4000) as [r|] eqn:Hr; [|vm_compute in Hr; discriminate Hr].
    assert (Hns : to_notify (lists_in grouped) (mark 0x4000 r (data grouped)) 0x4000 r = [0x5000; 0x4000]).
    { vm_compute in Hr. injection Hr as <-. vm_compute. reflexivity. }
    destruct (proj1 (proj2 (CoreSignalEvent_correct true 100 58 (lists_in grouped) 0x4000 r grouped
      (proj1 grouped_ready) ltac:(apply (bool_decide_unpack _); vm_compute; exact I) Hr))) as (s' & Heq & _ & Hrel & Hi).
    + left. by vm_compute.
    + exists s', r. rewrite Hns in *. split; [reflexivity|]. split; [exact Heq|]. split; [|exact Hi].
      destruct Hrel as [h ->]. vm_compute in Hr. injection Hr as <-. vm_compute. reflexivity.
  - destruct (events (data members) !! 0x4000) as [r|] eqn:Hr; [|vm_compute in Hr; discriminate Hr].
    destruct (proj2 (proj2 (CoreSignalEvent_correct true 100 58 (lists_in members) 0x4000 r members
      (proj1 members_ready) ltac:(apply (bool_decide_unpack _); vm_compute; exact I) Hr)))
      as (s' & Heq & [Ht _] & F' & _ & Hn & _).
    + vm_compute. reflexivity.
    + apply passiveb_ok; [|vm_compute; discriminate]. vm_compute in Hr. injection Hr as <-. vm_compute. reflexivity.
    + vm_compute. lia.
    + exists s'. split; [exact Heq|]. split.
      * rewrite Hn. vm_compute in Hr. injection Hr as <-. vm_compute. reflexivity.
      * rewrite Ht. vm_compute. reflexivity.
Defined.

(** [three], for a client at [TPL_NOTIFY]. *)
Definition waiting : EventState := set_tpl TPL_NOTIFY three.
#[local] Opaque waiting.

Lemma waiting_ready : ready 100 (lists_in waiting) waiting /\ unlocked waiting.
Proof. apply readyb_ok. vm_compute. reflexivity. Qed.

Lemma CoreCheckEvent_correct_witness :
  exists s', CoreCheckEvent true 100 restoring 0x6000 waiting = Ok (EFI_NOT_READY, s') /\
    gEventPending (data s') = 2 ^ 16.
Proof.
  destruct (CoreCheckEvent_correct true 100 58 (lists_in waiting) 0x6000 waiting) as (Status & s' & Heq & _ & Hout).
  - apply waiting_ready.
  - right. by apply block_ok.
  - intros r He. vm_compute in He. injection He as <-. vm_compute. discriminate.
  - exists s'.
    assert (Heq' : CoreCheckEvent true 100 restoring 0x6000 waiting = Ok (Status, s')) by exact Heq.
    assert (Hs : match CoreCheckEvent true 100 restoring 0x6000 waiting with
      | Ok (st, s) => st = EFI_NOT_READY /\ gEventPending (data s) = 2 ^ 16 | _ => False end)
      by (vm_compute; split; reflexivity).
    rewrite Heq' in Hs. destruct Hs as [Hst Hp]. split; [rewrite Heq', Hst; reflexivity|exact Hp].
Defined.

Lemma callback_ok : may_register 100 0 TPL_CALLBACK.
Proof. right. right. left. done. Qed.

Lemma CoreCreateEventEx_correct_witness :
  exists s', CoreCreateEventEx true 100 restoring 0x80000200 TPL_CALLBACK 100 0 None false start =
      Ok (EFI_SUCCESS, 0x4000, s') /\
    ready 100 (born_lists 0x4000 (requested_event 0x4000 0x80000200 TPL_CALLBACK 100 0 None) (lists_in start)) s'.
Proof.
  destruct (CoreCreateEventEx_correct true 100 58 (lists_in start) 0x80000200 TPL_CALLBACK 100 0 None start)
    as (Status & e & s' & Heq & _ & Hout).
  - apply start_ready.
  - exact callback_ok.
  - exists s'.
    assert (Heq' : CoreCreateEventEx true 100 restoring 0x80000200 TPL_CALLBACK 100 0 None false start = Ok (Status, e, s')) by exact Heq.
    assert (Hs : match CoreCreateEventEx true 100 restoring 0x80000200 TPL_CALLBACK 100 0 None false start with
      | Ok (st, e, s) => st = EFI_SUCCESS /\ e = 0x4000 | _ => False end) by (vm_compute; split; reflexivity).
    rewrite Heq' in Hs. destruct Hs as [Hst He]. split; [rewrite Heq', Hst, He; reflexivity|].
    destruct Hout as [(_ & _ & _ & _ & _ & Hr)|[(Hst' & _)|(Hst' & _)]]; [rewrite He in Hr; exact Hr| |];
      rewrite Hst in Hst'; discriminate Hst'.
Defined.
(** Closing the timer with the shortest period. *)
Lemma CoreCloseEvent_correct_witness :
  exists s' F', CoreCloseEvent true 100 restoring 0x6000 three = Ok (EFI_SUCCESS, s') /\
    freed 0x6000 (lists_in three) (data three) F' (data s') /\
    schedule s' = [(0x4000, 100); (0x5000, 300)] /\
    CoreCloseEvent true 100 restoring 0x6000 s' = Ok (EFI_INVALID_PARAMETER, s').
Proof.
  destruct (CoreCloseEvent_correct true 100 58 (lists_in three) 0x6000 three) as (s' & F' & Heq & _ & _ & Hf & _ & Hcl).
  - apply three_ready.
  - vm_compute. discriminate.
  - vm_compute. reflexivity.
  - apply (bool_decide_unpack _). vm_compute. exact I.
  - exists s', F'.
    assert (Heq' : CoreCloseEvent true 100 restoring 0x6000 three = Ok (EFI_SUCCESS, s')) by exact Heq.
    assert (Hs : match CoreCloseEvent true 100 restoring 0x6000 three with
      | Ok (_, s) => schedule s = [(0x4000, 100); (0x5000, 300)] | _ => False end) by (vm_compute; reflexivity).
    rewrite Heq' in Hs. split; [exact Heq'|]. split; [exact Hf|]. split; [exact Hs|exact Hcl].
Defined.

(** [three], and one more event. *)
Definition one_more : result (EFI_STATUS * ptr * EventState) :=
  CoreCreateEventEx true 100 restoring 0x200 TPL_CALLBACK 100 0 (Some sample_guid) false three.

Lemma create_close_roundtrip_witness :
  exists s1 s2, one_more = Ok (EFI_SUCCESS, 0x7000, s1) /\ live (data s1) = live (data three) ∪ {[0x7000]} /\
    CoreCloseEvent true 100 restoring 0x7000 s1 = Ok (EFI_SUCCESS, s2) /\ live (data s2) = live (data three).
Proof.
  assert (Hs : match one_more with Ok (st, e, s) => st = EFI_SUCCESS /\ e = 0x7000 /\ live (data s) = live (data three) ∪ {[0x7000]}
    | _ => False end) by (vm_compute; auto).
  destruct one_more as [[[st e] s1]| | |] eqn:Heq; try contradiction Hs. destruct Hs as (-> & -> & Hl).
  destruct (create_close_roundtrip true 100 58 (lists_in three) 0x200 TPL_CALLBACK 100 0 (Some sample_guid) three 0x7000 s1)
    as (s2 & F2 & Hc & _ & _ & Hl2 & _).
  - apply three_ready.
  - exact callback_ok.
  - vm_compute. discriminate.
  - vm_compute. reflexivity.
  - exact Heq.
  - exists s1, s2. split; [reflexivity|]. split; [exact Hl|]. split; [exact Hc|exact Hl2].
Defined.

Lemma boot_booted : booted 100 boot.
Proof.
  split; [| | | |intros e He| | | | | |].
  - intros hd Hhd. assert (Hin : hd ∈ [gEventSignalQueue; mEfiTimerList; gRuntime_EventHead]) by (destruct Hhd as [->|[->| ->]]; set_solver).
    clear Hhd. revert hd Hin. apply Forall_forall, (bool_decide_unpack _). vm_compute. exact I.
  - intros t Ht. apply elem_of_dom.
    assert (Hall : Forall (fun t => gEventQueue t ∈ dom (links (data boot))) (seqZ 0 32)) by (apply (bool_decide_unpack _); vm_compute; exact I).
    rewrite Forall_forall in Hall. apply Hall, elem_of_seqZ. lia.
  - intros e k He%elem_of_list_to_set. apply elem_of_dom.
    assert (Hall : Forall (fun e => Forall (fun k => node e k ∈ dom (links (data boot))) slots) blocks) by (apply (bool_decide_unpack _); vm_compute; exact I).
    rewrite Forall_forall in Hall. specialize (Hall e He). rewrite Forall_forall in Hall. apply Hall, slots_all.
  - reflexivity.
  - exists zero_event. apply elem_of_list_to_set in He. split; [|vm_compute; discriminate].
    unfold blocks in He. rewrite !elem_of_cons, elem_of_nil in He.
    destruct He as [->|[->|[->|[->|[->|[->|[]]]]]]]; vm_compute; reflexivity.
  - reflexivity.
  - reflexivity.
  - reflexivity.
  - reflexivity.
  - reflexivity.
  - intros l. by destruct l.
Qed.

Lemma CoreInitializeEventServices_ready_witness :
  exists s', CoreInitializeEventServices true 100 fuel boot = Ok (EFI_SUCCESS, s') /\
    (exists F', ready 100 F' s') /\ mEfiCheckTimerEvent (data s') ∈ live (data s').
Proof.
  destruct (CoreInitializeEventServices_ready true 100 58 boot boot_booted) as (s' & Heq & HF & _ & _ & Hl & _).
  - intros b. vm_compute. discriminate.
  - exists s'. split; [exact Heq|]. split; [exact HF|exact Hl].
Defined.

(** A timer of the greatest period, which is due for the first time. *)
Definition huge : EventState :=
  calls [RaiseTpl 31; TimerTick 10; RestoreTpl 4; CreateEvent 0x80000000 0 0 0; SetTimer 0x4000 TimerPeriodic 0xFFFFFFFFFFFFFFFF;
         RaiseTpl 30] start.
#[local] Opaque huge.

Lemma huge_ready : ready 100 (lists_in huge) huge /\ unlocked huge.
Proof. apply readyb_ok. vm_compute. reflexivity. Qed.

Lemma CoreCheckTimers_hangs_witness :
  schedule huge = [(0x4000, 9)] /\ mEfiSystemTime (data huge) = 10 /\
  CoreCheckTimers true 100 restoring 1000 huge = NoFuel.
Proof.
  split; [vm_compute; reflexivity|]. split; [vm_compute; reflexivity|].
  apply (CoreCheckTimers_hangs true 100 58 1000 (lists_in huge) 0x4000 huge).
  - apply huge_ready.
  - vm_compute. reflexivity.
  - vm_compute. reflexivity.
  - split; [apply (bool_decide_unpack _); vm_compute; exact I|]. split.
    + eexists. split; [apply lists_of_lookup; split; [set_solver|reflexivity]|].
      apply (bool_decide_unpack _). vm_compute. exact I.
    + destruct (events (data huge) !! 0x4000) as [r|] eqn:Hr; [|vm_compute in Hr; discriminate Hr].
      vm_compute in Hr. injection Hr as <-. eexists. split; [reflexivity|]. vm_compute.
      repeat split; try reflexivity; discriminate.
Defined.

(** Half a millisecond passes: all three timers expire. *)
Definition ticking : EventState := calls [RaiseTpl 30] three.
#[local] Opaque ticking.

Lemma ticking_ready : ready 100 (lists_in ticking) ticking /\ unlocked ticking.
Proof. apply readyb_ok. vm_compute. reflexivity. Qed.

Lemma CoreTimerTick_correct_witness :
  exists s', CoreTimerTick true 100 restoring 500 ticking = Ok s' /\ mEfiSystemTime (data s') = 500 /\
    Z.testbit (gEventPending (data s')) 30 = true.
Proof.
  destruct (CoreTimerTick_correct true 100 58 (lists_in ticking) 500 ticking) as (s' & F' & Heq & _).
  - apply ticking_ready.
  - vm_compute. reflexivity.
  - vm_compute. discriminate.
  - exists s'.
    assert (Heq' : CoreTimerTick true 100 restoring 500 ticking = Ok s') by exact Heq.
    assert (Hs : match CoreTimerTick true 100 restoring 500 ticking with
      | Ok s => mEfiSystemTime (data s) = 500 /\ Z.testbit (gEventPending (data s)) 30 = true | _ => False end)
      by (vm_compute; split; reflexivity).
    rewrite Heq' in Hs. split; [exact Heq'|exact Hs].
Defined.
End EventWitness.
