(* ===== verification/Handle.v ===== *)
(** * Handles and protocols: the code

    MdeModulePkg/Core/Dxe/Hand/Handle.c, Notify.c and Locate.c.  Handles,
    protocol entries, interfaces, open records and notification records are
    objects of pool memory; their LIST_ENTRY fields are nodes of the store of
    LinkedList.v, at the field's offset.  The lists are: all handles, all
    protocol entries, the interfaces of a handle, the interfaces and the
    notifications of a protocol, and the open records of an interface. *)

From S2P Require Import Prelude LinkedList.

(** ** Constants *)

(** [EFI_OPEN_PROTOCOL_*] of MdePkg/Include/Uefi/UefiSpec.h. *)
Definition EFI_OPEN_PROTOCOL_BY_HANDLE_PROTOCOL : Z := 0x1.
Definition EFI_OPEN_PROTOCOL_GET_PROTOCOL : Z := 0x2.
Definition EFI_OPEN_PROTOCOL_TEST_PROTOCOL : Z := 0x4.
Definition EFI_OPEN_PROTOCOL_BY_CHILD_CONTROLLER : Z := 0x8.
Definition EFI_OPEN_PROTOCOL_BY_DRIVER : Z := 0x10.
Definition EFI_OPEN_PROTOCOL_EXCLUSIVE : Z := 0x20.

(** [EFI_NATIVE_INTERFACE]; the addresses of the static list heads. *)
Definition EFI_NATIVE_INTERFACE : Z := 0.
Definition mProtocolDatabase : ptr := 0x1000.
Definition gHandleList : ptr := 0x1010.

(** [Attributes & Mask] is not 0. *)
Definition has (Attributes Mask : Z) : bool := negb (Z.land Attributes Mask =? 0).

(** ** Data *)

(** An [EFI_GUID] is its 16 bytes. *)
Abbreviation EFI_GUID := (list Z).
Definition CompareGuid (Guid1 Guid2 : EFI_GUID) : bool := bool_decide (Guid1 = Guid2).

(** The fields that are neither links nor the signature. *)
Record IHANDLE := MkHandle { LocateRequest : Z; Key : Z }.
Record PROTOCOL_ENTRY := MkEntry { ProtocolID : EFI_GUID }.
Record PROTOCOL_INTERFACE := MkInterface { Handle : ptr; Protocol : ptr; Interface : Z; OpenListCount : Z }.
Record OPEN_PROTOCOL_DATA := MkOpen { AgentHandle : ptr; ControllerHandle : ptr; Attributes : Z; OpenCount : Z }.
Record PROTOCOL_NOTIFY := MkNotify { NotifyProtocol : ptr; NotifyEvent : ptr; Position : ptr }.

(** An object of the pool; its [Signature] is the constructor.  A zeroed block
    ([ABlank]) has none yet. *)
Inductive object :=
| ABlank
| AHandle (r : IHANDLE)
| AnEntry (r : PROTOCOL_ENTRY)
| AnInterface (r : PROTOCOL_INTERFACE)
| AnOpen (r : OPEN_PROTOCOL_DATA)
| ANotify (r : PROTOCOL_NOTIFY).

(** Offsets of the links (X64), and sizes. *)
Definition OFFSET_AllHandles : Z := 8.
Definition OFFSET_HandleProtocols : Z := 24.
Definition sizeof_IHANDLE : Z := 56.
Definition OFFSET_AllEntries : Z := 8.
Definition OFFSET_EntryProtocols : Z := 40.
Definition OFFSET_Notify : Z := 56.
Definition sizeof_PROTOCOL_ENTRY : Z := 72.
Definition OFFSET_InterfaceLink : Z := 8.
Definition OFFSET_ByProtocol : Z := 32.
Definition OFFSET_OpenList : Z := 64.
Definition sizeof_PROTOCOL_INTERFACE : Z := 88.
Definition OFFSET_OpenLink : Z := 8.
Definition sizeof_OPEN_PROTOCOL_DATA : Z := 48.
Definition OFFSET_NotifyLink : Z := 16.
Definition sizeof_PROTOCOL_NOTIFY : Z := 48.

(** The calls of the event services: [CoreSignalEvent], and the mark
    [EVT_EXFLAG_EVENT_PROTOCOL_NOTIFICATION]. *)
Inductive event_call := Signal (Event : ptr) | MarkNotification (Event : ptr).

(** The database.  [Acquired] is the state of [gProtocolDatabaseLock]; [Calls]
    are the calls of the event services so far. *)
Record Database := MkDatabase {
  links : store;
  objects : gmap ptr object;
  gHandleDatabaseKey : Z;
  mEfiLocateHandleRequest : Z;
  Acquired : bool;
  Calls : list event_call }.

Definition set_links v (db : Database) : Database :=
  MkDatabase v (objects db) (gHandleDatabaseKey db) (mEfiLocateHandleRequest db) (Acquired db) (Calls db).
Definition set_objects v (db : Database) : Database :=
  MkDatabase (links db) v (gHandleDatabaseKey db) (mEfiLocateHandleRequest db) (Acquired db) (Calls db).
Definition set_key v (db : Database) : Database :=
  MkDatabase (links db) (objects db) v (mEfiLocateHandleRequest db) (Acquired db) (Calls db).
Definition set_request v (db : Database) : Database :=
  MkDatabase (links db) (objects db) (gHandleDatabaseKey db) v (Acquired db) (Calls db).
Definition set_acquired v (db : Database) : Database :=
  MkDatabase (links db) (objects db) (gHandleDatabaseKey db) (mEfiLocateHandleRequest db) v (Calls db).
Definition add_call c (db : Database) : Database :=
  MkDatabase (links db) (objects db) (gHandleDatabaseKey db) (mEfiLocateHandleRequest db) (Acquired db) (Calls db ++ [c]).

(** The static variables: the lists point to themselves. *)
Definition initial : Database :=
  MkDatabase (list_to_map ((fun hd => (hd, MkLink hd hd)) <$> [mProtocolDatabase; gHandleList])) ∅ 0 0 false [].

(** What is outside: the pool ([AllocatePool size used]), the contents of
    uninitialised memory and the handle of the DXE core's image; and the
    drivers, which Hand/DriverSupport.c starts and stops:
    [CoreDisconnectController (ControllerHandle, DriverImageHandle, NULL)] and
    [CoreConnectController (ControllerHandle, NULL, NULL, TRUE)]. *)
Class Platform := {
  AllocatePool : Z -> gset ptr -> option ptr;
  Uninitialised : ptr -> LIST_ENTRY;
  gDxeCoreImageHandle : ptr }.

Class Drivers := {
  CoreDisconnectController : Database -> ptr -> ptr -> result (EFI_STATUS * Database);
  CoreConnectController : Database -> ptr -> result Database }.

(** ** Loops over lists

    [for (Link = List->ForwardLink; Link != List; Link = Link->ForwardLink)]
    with a body that may leave the loop, on a state that has the store in it;
    [step] is [ForwardLink] or [BackLink]. *)

Section Loops.
Context {S : Type} (store_of : S -> store).

Fixpoint for_each (fuel : nat) (step : LIST_ENTRY -> ptr) (List Link : ptr) (body : ptr -> S -> result (S * bool)) (s : S)
    : result S :=
  match fuel with
  | O => NoFuel
  | Datatypes.S fuel =>
      if Link =? List then Ok s else
      let! (s, break) := body Link s in
      if (break : bool) then Ok s else
      let! n := load (store_of s) Link in
      for_each fuel step List (step n) body s
  end.

Definition for_list (step : LIST_ENTRY -> ptr) (List : ptr) (body : ptr -> S -> result (S * bool)) (s : S) : result S :=
  let! n := load (store_of s) List in
  for_each (Datatypes.S (size (store_of s))) step List (step n) body s.
End Loops.

(** ** Objects *)

Definition handle_at (db : Database) (p : ptr) : result IHANDLE :=
  let! o := deref (objects db !! p) in match o with AHandle r => Ok r | _ => AssertFailed end.
Definition entry_at (db : Database) (p : ptr) : result PROTOCOL_ENTRY :=
  let! o := deref (objects db !! p) in match o with AnEntry r => Ok r | _ => AssertFailed end.
Definition interface_at (db : Database) (p : ptr) : result PROTOCOL_INTERFACE :=
  let! o := deref (objects db !! p) in match o with AnInterface r => Ok r | _ => AssertFailed end.
Definition open_at (db : Database) (p : ptr) : result OPEN_PROTOCOL_DATA :=
  let! o := deref (objects db !! p) in match o with AnOpen r => Ok r | _ => AssertFailed end.
Definition notify_at (db : Database) (p : ptr) : result PROTOCOL_NOTIFY :=
  let! o := deref (objects db !! p) in match o with ANotify r => Ok r | _ => AssertFailed end.

Definition put (p : ptr) (o : object) (db : Database) : Database := set_objects (<[p := o]> (objects db)) db.

(** Where the links of an object are. *)
Definition offsets (o : object) : list Z :=
  match o with
  | ABlank => []
  | AHandle _ => [OFFSET_AllHandles; OFFSET_HandleProtocols]
  | AnEntry _ => [OFFSET_AllEntries; OFFSET_EntryProtocols; OFFSET_Notify]
  | AnInterface _ => [OFFSET_InterfaceLink; OFFSET_ByProtocol; OFFSET_OpenList]
  | AnOpen _ => [OFFSET_OpenLink]
  | ANotify _ => [OFFSET_NotifyLink]
  end.

(** The object [o] at a new block [p]; its links are zeroed or not. *)
Definition place (content : ptr -> LIST_ENTRY) (p : ptr) (o : object) (db : Database) : Database :=
  put p o (set_links (foldr (fun k h => <[p + k := content (p + k)]> h) (links db) (offsets o)) db).

Definition zeroed (_ : ptr) : LIST_ENTRY := MkLink NULL NULL.

(** [CoreFreePool]. *)
Definition FreePool (p : ptr) (db : Database) : result Database :=
  let! o := deref (objects db !! p) in
  Ok (set_objects (delete p (objects db)) (set_links (foldr (fun k h => delete (p + k) h) (links db) (offsets o)) db)).

Section Code.
Context `{Platform} `{Drivers} (Verify : bool) (Max : nat).

Definition Allocate (size : Z) (db : Database) : option ptr := AllocatePool size (dom (objects db)).

Definition insert_head (List Entry : ptr) (db : Database) : result Database :=
  let! (_, h) := InsertHeadList Verify Max (links db) List Entry in Ok (set_links h db).
Definition insert_tail (List Entry : ptr) (db : Database) : result Database :=
  let! (_, h) := InsertTailList Verify Max (links db) List Entry in Ok (set_links h db).
Definition initialize_head (List : ptr) (db : Database) : result Database :=
  let! (_, h) := InitializeListHead (links db) List in Ok (set_links h db).
(** It returns the next entry as well. *)
Definition remove_entry (Entry : ptr) (db : Database) : result (ptr * Database) :=
  let! (next, h) := RemoveEntryList Max (links db) Entry in Ok (next, set_links h db).

Definition CoreAcquireProtocolLock (db : Database) : result Database :=
  do! ASSERT (negb (Acquired db)) ;; Ok (set_acquired true db).
Definition CoreReleaseProtocolLock (db : Database) : result Database :=
  do! ASSERT (Acquired db) ;; Ok (set_acquired false db).
Definition ASSERT_LOCKED (db : Database) : result unit := ASSERT (Acquired db).

(** A loop that reads the database; its state is what it looks for. *)
Definition search {A} (step : LIST_ENTRY -> ptr) (List : ptr) (db : Database) (body : ptr -> A -> result (A * bool)) (a : A)
    : result A := for_list (fun _ : A => links db) step List body a.

(** A loop that writes it. *)
Definition traverse (List : ptr) (body : ptr -> Database -> result Database) (db : Database) : result Database :=
  for_list links ForwardLink List (fun Link db => let! db := body Link db in Ok (db, false)) db.

(** ** Handle.c: looking up *)

Definition CoreValidateHandle (db : Database) (UserHandle : ptr) : result EFI_STATUS :=
  if UserHandle =? NULL then Ok EFI_INVALID_PARAMETER else
  search BackLink gHandleList db (fun Link Status =>
    let Handle := Link - OFFSET_AllHandles in
    let! _ := handle_at db Handle in
    if Handle =? UserHandle then Ok (EFI_SUCCESS, true) else Ok (Status, false)) EFI_INVALID_PARAMETER.

Definition CoreFindProtocolEntry (db : Database) (Protocol : EFI_GUID) (Create : bool) : result (ptr * Database) :=
  do! ASSERT_LOCKED db ;;
  let! ProtEntry := search ForwardLink mProtocolDatabase db (fun Link ProtEntry =>
    let Item := Link - OFFSET_AllEntries in
    let! r := entry_at db Item in
    if CompareGuid (ProtocolID r) Protocol then Ok (Item, true) else Ok (ProtEntry, false)) NULL in
  if (ProtEntry =? NULL) && Create then
    match Allocate sizeof_PROTOCOL_ENTRY db with
    | None => Ok (NULL, db)
    | Some ProtEntry =>
        let db := place Uninitialised ProtEntry (AnEntry (MkEntry Protocol)) db in
        let! db := initialize_head (ProtEntry + OFFSET_EntryProtocols) db in
        let! db := initialize_head (ProtEntry + OFFSET_Notify) db in
        let! db := insert_tail mProtocolDatabase (ProtEntry + OFFSET_AllEntries) db in
        Ok (ProtEntry, db)
    end
  else Ok (ProtEntry, db).

Definition CoreFindProtocolInterface (db : Database) (Handle : ptr) (Protocol' : EFI_GUID) (Interface' : Z) : result ptr :=
  do! ASSERT_LOCKED db ;;
  let! (ProtEntry, _) := CoreFindProtocolEntry db Protocol' false in
  if ProtEntry =? NULL then Ok NULL else
  search ForwardLink (Handle + OFFSET_HandleProtocols) db (fun Link _ =>
    let Prot := Link - OFFSET_InterfaceLink in
    let! r := interface_at db Prot in
    if (Interface r =? Interface') && (Protocol r =? ProtEntry) then Ok (Prot, true) else Ok (NULL, false)) NULL.

Definition CoreGetProtocolInterface (db : Database) (UserHandle : ptr) (Protocol' : EFI_GUID) : result ptr :=
  let! Status := CoreValidateHandle db UserHandle in
  if EFI_ERROR Status then Ok NULL else
  search ForwardLink (UserHandle + OFFSET_HandleProtocols) db (fun Link _ =>
    let Prot := Link - OFFSET_InterfaceLink in
    let! r := interface_at db Prot in
    let! e := entry_at db (Protocol r) in
    if CompareGuid (ProtocolID e) Protocol' then Ok (Prot, true) else Ok (NULL, false)) NULL.

(** ** Handle.c: opening and closing

    Results for the caller: the second component is what is stored in
    [*Interface], if anything is.  [InterfaceOut]: the caller passes a pointer
    for it; a [NULL] argument [Protocol] is [None]. *)

(** [switch (Attributes)]: the status of the handles that each mode needs. *)
Definition OpenProtocol_check (db : Database) (UserHandle ImageHandle ControllerHandle : ptr) (Attributes' : Z)
    : result EFI_STATUS :=
  if Attributes' =? EFI_OPEN_PROTOCOL_BY_CHILD_CONTROLLER then
    let! Status := CoreValidateHandle db ImageHandle in
    if EFI_ERROR Status then Ok Status else
    let! Status := CoreValidateHandle db ControllerHandle in
    if EFI_ERROR Status then Ok Status else
    Ok (if UserHandle =? ControllerHandle then EFI_INVALID_PARAMETER else EFI_SUCCESS)
  else if (Attributes' =? EFI_OPEN_PROTOCOL_BY_DRIVER) ||
          (Attributes' =? Z.lor EFI_OPEN_PROTOCOL_BY_DRIVER EFI_OPEN_PROTOCOL_EXCLUSIVE) then
    let! Status := CoreValidateHandle db ImageHandle in
    if EFI_ERROR Status then Ok Status else
    CoreValidateHandle db ControllerHandle
  else if Attributes' =? EFI_OPEN_PROTOCOL_EXCLUSIVE then CoreValidateHandle db ImageHandle
  else if (Attributes' =? EFI_OPEN_PROTOCOL_BY_HANDLE_PROTOCOL) || (Attributes' =? EFI_OPEN_PROTOCOL_GET_PROTOCOL) ||
          (Attributes' =? EFI_OPEN_PROTOCOL_TEST_PROTOCOL) then Ok EFI_SUCCESS
  else Ok EFI_INVALID_PARAMETER.

(** What the first loop finds out: the database, [ByDriver], [Exclusive], and
    the status if the function is done. *)
Record OpenScan := MkScan { scan_db : Database; ByDriver : bool; Exclusive : bool; scan_status : option EFI_STATUS }.

Definition OpenProtocol_scan (Prot ImageHandle ControllerHandle' : ptr) (Attributes' : Z) (db : Database) : result OpenScan :=
  for_list (fun s => links (scan_db s)) ForwardLink (Prot + OFFSET_OpenList) (fun Link s =>
    let db := scan_db s in
    let OpenData := Link - OFFSET_OpenLink in
    let! r := open_at db OpenData in
    let ExactMatch := (AgentHandle r =? ImageHandle) && (Attributes r =? Attributes') && (ControllerHandle r =? ControllerHandle') in
    let ByDriver' := has (Attributes r) EFI_OPEN_PROTOCOL_BY_DRIVER in
    if ByDriver' && ExactMatch then Ok (MkScan db true (Exclusive s) (Some EFI_ALREADY_STARTED), true) else
    let s := MkScan db (ByDriver s || ByDriver') (Exclusive s) None in
    if has (Attributes r) EFI_OPEN_PROTOCOL_EXCLUSIVE then Ok (MkScan db (ByDriver s) true None, false)
    else if ExactMatch then
      let db := put OpenData (AnOpen (MkOpen (AgentHandle r) (ControllerHandle r) (Attributes r) (u32 (OpenCount r + 1)))) db in
      Ok (MkScan db (ByDriver s) (Exclusive s) (Some EFI_SUCCESS), true)
    else Ok (s, false)) (MkScan db false false None).

(** The first record of an open by a driver, or [NULL]. *)
Definition FindByDriver (Prot : ptr) (db : Database) : result ptr :=
  search ForwardLink (Prot + OFFSET_OpenList) db (fun Link _ =>
    let OpenData := Link - OFFSET_OpenLink in
    let! r := open_at db OpenData in
    if has (Attributes r) EFI_OPEN_PROTOCOL_BY_DRIVER then Ok (OpenData, true) else Ok (NULL, false)) NULL.

(** [do ... while (Disconnect)]: the drivers that have the protocol open are
    disconnected. *)
Fixpoint OpenProtocol_disconnect (fuel : nat) (UserHandle Prot : ptr) (db : Database) : result (EFI_STATUS * Database) :=
  match fuel with
  | O => NoFuel
  | S fuel =>
      let! OpenData := FindByDriver Prot db in
      if OpenData =? NULL then Ok (EFI_SUCCESS, db) else
      let! r := open_at db OpenData in
      let! db := CoreReleaseProtocolLock db in
      let! (Status, db) := CoreDisconnectController db UserHandle (AgentHandle r) in
      let! db := CoreAcquireProtocolLock db in
      if EFI_ERROR Status then Ok (EFI_ACCESS_DENIED, db) else
      OpenProtocol_disconnect fuel UserHandle Prot db
  end.

(** The second [switch (Attributes)]. *)
Definition OpenProtocol_access (UserHandle Prot : ptr) (Attributes' : Z) (s : OpenScan) : result (EFI_STATUS * Database) :=
  let db := scan_db s in
  if Attributes' =? EFI_OPEN_PROTOCOL_BY_DRIVER then
    Ok (if Exclusive s || ByDriver s then EFI_ACCESS_DENIED else EFI_SUCCESS, db)
  else if (Attributes' =? Z.lor EFI_OPEN_PROTOCOL_BY_DRIVER EFI_OPEN_PROTOCOL_EXCLUSIVE) ||
          (Attributes' =? EFI_OPEN_PROTOCOL_EXCLUSIVE) then
    if Exclusive s then Ok (EFI_ACCESS_DENIED, db)
    else if ByDriver s then OpenProtocol_disconnect (S (size (objects db))) UserHandle Prot db
    else Ok (EFI_SUCCESS, db)
  else Ok (EFI_SUCCESS, db).

Definition set_OpenListCount v (r : PROTOCOL_INTERFACE) : PROTOCOL_INTERFACE :=
  MkInterface (Handle r) (Protocol r) (Interface r) v.

(** The new record. *)
Definition OpenProtocol_record (Prot ImageHandle ControllerHandle : ptr) (Attributes' : Z) (db : Database)
    : result (EFI_STATUS * Database) :=
  if ImageHandle =? NULL then Ok (EFI_SUCCESS, db) else
  match Allocate sizeof_OPEN_PROTOCOL_DATA db with
  | None => Ok (EFI_OUT_OF_RESOURCES, db)
  | Some OpenData =>
      let db := place Uninitialised OpenData (AnOpen (MkOpen ImageHandle ControllerHandle Attributes' 1)) db in
      let! db := insert_tail (Prot + OFFSET_OpenList) (OpenData + OFFSET_OpenLink) db in
      let! r := interface_at db Prot in
      Ok (EFI_SUCCESS, put Prot (AnInterface (set_OpenListCount (u64 (OpenListCount r + 1)) r)) db)
  end.

(** The part between taking and releasing the lock: [Status], [Prot]. *)
Definition OpenProtocol_locked (UserHandle : ptr) (Protocol' : EFI_GUID) (ImageHandle ControllerHandle : ptr) (Attributes' : Z)
    (db : Database) : result (EFI_STATUS * ptr * Database) :=
  let! Prot := CoreGetProtocolInterface db UserHandle Protocol' in
  if Prot =? NULL then Ok (EFI_UNSUPPORTED, Prot, db) else
  let! s := OpenProtocol_scan Prot ImageHandle ControllerHandle Attributes' db in
  match scan_status s with
  | Some Status => Ok (Status, Prot, scan_db s)
  | None =>
      let! (Status, db) := OpenProtocol_access UserHandle Prot Attributes' s in
      if EFI_ERROR Status then Ok (Status, Prot, db) else
      let! (Status, db) := OpenProtocol_record Prot ImageHandle ControllerHandle Attributes' db in
      Ok (Status, Prot, db)
  end.

Definition CoreOpenProtocol (UserHandle : ptr) (Protocol' : option EFI_GUID) (InterfaceOut : bool)
    (ImageHandle ControllerHandle : ptr) (Attributes' : Z) (db : Database) : result (EFI_STATUS * option Z * Database) :=
  match Protocol' with
  | None => Ok (EFI_INVALID_PARAMETER, None, db)
  | Some Protocol' =>
      if negb (Attributes' =? EFI_OPEN_PROTOCOL_TEST_PROTOCOL) && negb InterfaceOut then Ok (EFI_INVALID_PARAMETER, None, db) else
      let! Status := CoreValidateHandle db UserHandle in
      if EFI_ERROR Status then Ok (Status, None, db) else
      let! Status := OpenProtocol_check db UserHandle ImageHandle ControllerHandle Attributes' in
      if EFI_ERROR Status then Ok (Status, None, db) else
      let! db := CoreAcquireProtocolLock db in
      let! (Status, Prot, db) := OpenProtocol_locked UserHandle Protocol' ImageHandle ControllerHandle Attributes' db in
      let! Interface' :=
        if negb (Attributes' =? EFI_OPEN_PROTOCOL_TEST_PROTOCOL) then
          if negb (EFI_ERROR Status) || bool_decide (Status = EFI_ALREADY_STARTED) then
            do! ASSERT (negb (Prot =? NULL)) ;;
            let! r := interface_at db Prot in Ok (Some (Interface r))
          else Ok (if bool_decide (Status = EFI_UNSUPPORTED) then Some NULL else None)
        else Ok None in
      let! db := CoreReleaseProtocolLock db in
      Ok (Status, Interface', db)
  end.

Definition CoreHandleProtocol (UserHandle : ptr) (Protocol' : option EFI_GUID) (InterfaceOut : bool) (db : Database)
    : result (EFI_STATUS * option Z * Database) :=
  CoreOpenProtocol UserHandle Protocol' InterfaceOut gDxeCoreImageHandle NULL EFI_OPEN_PROTOCOL_BY_HANDLE_PROTOCOL db.

(** An open record is taken off the list of its interface and freed; the next
    link is returned. *)
Definition RemoveOpen (Prot OpenData : ptr) (db : Database) : result (ptr * Database) :=
  let! (Link, db) := remove_entry (OpenData + OFFSET_OpenLink) db in
  let! p := interface_at db Prot in
  let db := put Prot (AnInterface (set_OpenListCount (u64 (OpenListCount p - 1)) p)) db in
  let! db := FreePool OpenData db in
  Ok (Link, db).

(** A loop that may remove the record that it is at. *)
Fixpoint RemoveOpens (fuel : nat) (Prot Link : ptr) (which : OPEN_PROTOCOL_DATA -> bool) (Status : EFI_STATUS) (db : Database)
    : result (EFI_STATUS * Database) :=
  match fuel with
  | O => NoFuel
  | S fuel =>
      if Link =? Prot + OFFSET_OpenList then Ok (Status, db) else
      let OpenData := Link - OFFSET_OpenLink in
      let! r := open_at db OpenData in
      if which r then
        let! (Link, db) := RemoveOpen Prot OpenData db in
        RemoveOpens fuel Prot Link which EFI_SUCCESS db
      else
        let! n := load (links db) Link in
        RemoveOpens fuel Prot (ForwardLink n) which Status db
  end.

Definition CloseProtocol_locked (UserHandle : ptr) (Protocol' : EFI_GUID) (AgentHandle' ControllerHandle' : ptr) (db : Database)
    : result (EFI_STATUS * Database) :=
  let! ProtocolInterface := CoreGetProtocolInterface db UserHandle Protocol' in
  if ProtocolInterface =? NULL then Ok (EFI_NOT_FOUND, db) else
  let! n := load (links db) (ProtocolInterface + OFFSET_OpenList) in
  RemoveOpens (S (size (links db))) ProtocolInterface (ForwardLink n)
    (fun r => (AgentHandle r =? AgentHandle') && (ControllerHandle r =? ControllerHandle')) EFI_NOT_FOUND db.

Definition CoreCloseProtocol (UserHandle : ptr) (Protocol' : option EFI_GUID) (AgentHandle' ControllerHandle' : ptr) (db : Database)
    : result (EFI_STATUS * Database) :=
  let! Status := CoreValidateHandle db UserHandle in
  if EFI_ERROR Status then Ok (Status, db) else
  let! Status := CoreValidateHandle db AgentHandle' in
  if EFI_ERROR Status then Ok (Status, db) else
  let! Status := if negb (ControllerHandle' =? NULL) then CoreValidateHandle db ControllerHandle' else Ok EFI_SUCCESS in
  if EFI_ERROR Status then Ok (Status, db) else
  match Protocol' with
  | None => Ok (EFI_INVALID_PARAMETER, db)
  | Some Protocol' =>
      let! db := CoreAcquireProtocolLock db in
      let! (Status, db) := CloseProtocol_locked UserHandle Protocol' AgentHandle' ControllerHandle' db in
      let! db := CoreReleaseProtocolLock db in
      Ok (Status, db)
  end.

(** ** Notify.c *)

Definition CoreNotifyProtocolEntry (ProtEntry : ptr) (db : Database) : result Database :=
  do! ASSERT_LOCKED db ;;
  traverse (ProtEntry + OFFSET_Notify) (fun Link db =>
    let! r := notify_at db (Link - OFFSET_NotifyLink) in
    Ok (add_call (Signal (NotifyEvent r)) db)) db.

(** Notifications that stand at the interface that is removed step back. *)
Definition BackUpPositions (ProtEntry Prot : ptr) (db : Database) : result Database :=
  traverse (ProtEntry + OFFSET_Notify) (fun Link db =>
    let ProtNotify := Link - OFFSET_NotifyLink in
    let! r := notify_at db ProtNotify in
    if Position r =? Prot + OFFSET_ByProtocol then
      let! n := load (links db) (Prot + OFFSET_ByProtocol) in
      Ok (put ProtNotify (ANotify (MkNotify (NotifyProtocol r) (NotifyEvent r) (BackLink n))) db)
    else Ok db) db.

Definition CoreRemoveInterfaceFromProtocol (Handle : ptr) (Protocol' : EFI_GUID) (Interface' : Z) (db : Database)
    : result (ptr * Database) :=
  do! ASSERT_LOCKED db ;;
  let! Prot := CoreFindProtocolInterface db Handle Protocol' Interface' in
  if Prot =? NULL then Ok (NULL, db) else
  let! r := interface_at db Prot in
  let! db := BackUpPositions (Protocol r) Prot db in
  let! (_, db) := remove_entry (Prot + OFFSET_ByProtocol) db in
  Ok (Prot, db).

(** The registration is returned, if [*Registration] is written. *)
Definition CoreRegisterProtocolNotify (Protocol' : option EFI_GUID) (Event : ptr) (RegistrationOut : bool) (db : Database)
    : result (EFI_STATUS * option ptr * Database) :=
  match Protocol' with
  | None => Ok (EFI_INVALID_PARAMETER, None, db)
  | Some Protocol' =>
      if (Event =? NULL) || negb RegistrationOut then Ok (EFI_INVALID_PARAMETER, None, db) else
      let! db := CoreAcquireProtocolLock db in
      let! (ProtEntry, db) := CoreFindProtocolEntry db Protocol' true in
      let! (ProtNotify, db) :=
        if ProtEntry =? NULL then Ok (NULL, db) else
        match Allocate sizeof_PROTOCOL_NOTIFY db with
        | None => Ok (NULL, db)
        | Some ProtNotify =>
            let db := add_call (MarkNotification Event) db in
            let db := place Uninitialised ProtNotify (ANotify (MkNotify ProtEntry Event (ProtEntry + OFFSET_EntryProtocols))) db in
            let! db := insert_tail (ProtEntry + OFFSET_Notify) (ProtNotify + OFFSET_NotifyLink) db in
            Ok (ProtNotify, db)
        end in
      let! db := CoreReleaseProtocolLock db in
      Ok (if negb (ProtNotify =? NULL) then (EFI_SUCCESS, Some ProtNotify, db) else (EFI_OUT_OF_RESOURCES, None, db))
  end.

(** The first record of the event in the lists of an entry, or [NULL]. *)
Definition FindNotify (Event : ptr) (db : Database) : result ptr :=
  search ForwardLink mProtocolDatabase db (fun Link _ =>
    let! _ := entry_at db (Link - OFFSET_AllEntries) in
    let! ProtNotify := search ForwardLink (Link - OFFSET_AllEntries + OFFSET_Notify) db (fun NotifyLink _ =>
      let ProtNotify := NotifyLink - OFFSET_NotifyLink in
      let! r := notify_at db ProtNotify in
      if NotifyEvent r =? Event then Ok (ProtNotify, true) else Ok (NULL, false)) NULL in
    Ok (ProtNotify, negb (ProtNotify =? NULL))) NULL.

Definition CoreUnregisterProtocolNotifyEvent (Event : ptr) (db : Database) : result (EFI_STATUS * Database) :=
  let! db := CoreAcquireProtocolLock db in
  let! ProtNotify := FindNotify Event db in
  if ProtNotify =? NULL then
    let! db := CoreReleaseProtocolLock db in Ok (EFI_NOT_FOUND, db)
  else
    let! (_, db) := remove_entry (ProtNotify + OFFSET_NotifyLink) db in
    let! db := FreePool ProtNotify db in
    let! db := CoreReleaseProtocolLock db in Ok (EFI_SUCCESS, db).

Fixpoint UnregisterProtocolNotify_loop (fuel : nat) (Event : ptr) (db : Database) : result Database :=
  match fuel with
  | O => NoFuel
  | S fuel =>
      let! (Status, db) := CoreUnregisterProtocolNotifyEvent Event db in
      if EFI_ERROR Status then Ok db else UnregisterProtocolNotify_loop fuel Event db
  end.

Definition CoreUnregisterProtocolNotify (Event : ptr) (db : Database) : result (EFI_STATUS * Database) :=
  let! db := UnregisterProtocolNotify_loop (S (size (objects db))) Event db in Ok (EFI_SUCCESS, db).

(** ** Handle.c: installing *)

Definition NewKey (Handle : ptr) (db : Database) : result Database :=
  let db := set_key (u64 (gHandleDatabaseKey db + 1)) db in
  let! r := handle_at db Handle in
  Ok (put Handle (AHandle (MkHandle (LocateRequest r) (gHandleDatabaseKey db))) db).

(** The handle that the caller names, or a new one: a status and the handle. *)
Definition InstallHandle (UserHandle : ptr) (db : Database) : result (EFI_STATUS * ptr * Database) :=
  if UserHandle =? NULL then
    match Allocate sizeof_IHANDLE db with
    | None => Ok (EFI_OUT_OF_RESOURCES, NULL, db)
    | Some Handle =>
        let db := place zeroed Handle (AHandle (MkHandle 0 0)) db in
        let! db := initialize_head (Handle + OFFSET_HandleProtocols) db in
        let! db := NewKey Handle db in
        let! db := insert_tail gHandleList (Handle + OFFSET_AllHandles) db in
        Ok (EFI_SUCCESS, Handle, db)
    end
  else
    let! Status := CoreValidateHandle db UserHandle in
    Ok (Status, UserHandle, db).

(** The zeroed block [Prot] becomes an interface of [Handle]. *)
Definition InstallInterface (Handle ProtEntry Prot : ptr) (Interface' : Z) (db : Database) : result Database :=
  let db := place zeroed Prot (AnInterface (MkInterface Handle ProtEntry Interface' 0)) db in
  let! db := initialize_head (Prot + OFFSET_OpenList) db in
  let! db := insert_head (Handle + OFFSET_HandleProtocols) (Prot + OFFSET_InterfaceLink) db in
  insert_tail (ProtEntry + OFFSET_EntryProtocols) (Prot + OFFSET_ByProtocol) db.

(** The part between taking and releasing the lock: status, [Handle] and
    [Prot]; [Status] is what it was before. *)
Definition Install_locked (UserHandle : ptr) (Protocol' : EFI_GUID) (Interface' : Z) (Notify : bool) (Status : EFI_STATUS)
    (db : Database) : result (EFI_STATUS * ptr * ptr * Database) :=
  let! (ProtEntry, db) := CoreFindProtocolEntry db Protocol' true in
  if ProtEntry =? NULL then Ok (Status, NULL, NULL, db) else
  match Allocate sizeof_PROTOCOL_INTERFACE db with
  | None => Ok (EFI_OUT_OF_RESOURCES, NULL, NULL, db)
  | Some Prot =>
      let db := put Prot ABlank db in
      let! (Status, Handle, db) := InstallHandle UserHandle db in
      if EFI_ERROR Status then Ok (Status, Handle, Prot, db) else
      let! Existing := CoreFindProtocolInterface db Handle Protocol' Interface' in
      do! ASSERT (Existing =? NULL) ;;
      let! db := InstallInterface Handle ProtEntry Prot Interface' db in
      let! db := if Notify then CoreNotifyProtocolEntry ProtEntry db else Ok db in
      Ok (EFI_SUCCESS, Handle, Prot, db)
  end.

(** [UserHandle] is [*UserHandle], or [None] if the pointer to it is [NULL];
    the new value of [*UserHandle] is returned. *)
Definition CoreInstallProtocolInterfaceNotify (UserHandle : option ptr) (Protocol' : option EFI_GUID) (InterfaceType : Z)
    (Interface' : Z) (Notify : bool) (db : Database) : result (EFI_STATUS * option ptr * Database) :=
  match UserHandle, Protocol' with
  | Some UserHandle, Some Protocol' =>
      if negb (InterfaceType =? EFI_NATIVE_INTERFACE) then Ok (EFI_INVALID_PARAMETER, Some UserHandle, db) else
      let! (Status, db) :=
        if negb (UserHandle =? NULL) then
          let! (Status, _, db) := CoreHandleProtocol UserHandle (Some Protocol') true db in Ok (Status, db)
        else Ok (EFI_OUT_OF_RESOURCES, db) in
      if negb (EFI_ERROR Status) then Ok (EFI_INVALID_PARAMETER, Some UserHandle, db) else
      let! db := CoreAcquireProtocolLock db in
      let! (Status, Handle, Prot, db) := Install_locked UserHandle Protocol' Interface' Notify Status db in
      let! db := CoreReleaseProtocolLock db in
      if negb (EFI_ERROR Status) then Ok (Status, Some Handle, db) else
      let! db := if negb (Prot =? NULL) then FreePool Prot db else Ok db in
      Ok (Status, Some UserHandle, db)
  | _, _ => Ok (EFI_INVALID_PARAMETER, UserHandle, db)
  end.

Definition CoreInstallProtocolInterface (UserHandle : option ptr) (Protocol' : option EFI_GUID) (InterfaceType : Z)
    (Interface' : Z) (db : Database) : result (EFI_STATUS * option ptr * Database) :=
  CoreInstallProtocolInterfaceNotify UserHandle Protocol' InterfaceType Interface' true db.

(** ** Handle.c: uninstalling *)

(** [do ... while (ItemFound)]: the drivers that have the protocol open are
    asked to disconnect. *)
Fixpoint DisconnectControllers_loop (fuel : nat) (UserHandle Prot : ptr) (Status : EFI_STATUS) (db : Database)
    : result (EFI_STATUS * Database) :=
  match fuel with
  | O => NoFuel
  | S fuel =>
      let! OpenData := FindByDriver Prot db in
      if OpenData =? NULL then Ok (Status, db) else
      let! r := open_at db OpenData in
      let! db := CoreReleaseProtocolLock db in
      let! (Status, db) := CoreDisconnectController db UserHandle (AgentHandle r) in
      let! db := CoreAcquireProtocolLock db in
      if EFI_ERROR Status then Ok (Status, db) else
      DisconnectControllers_loop fuel UserHandle Prot Status db
  end.

(** The drivers are connected again. *)
Definition Reconnect (UserHandle : ptr) (db : Database) : result (EFI_STATUS * Database) :=
  let! db := CoreReleaseProtocolLock db in
  let! db := CoreConnectController db UserHandle in
  let! db := CoreAcquireProtocolLock db in
  Ok (EFI_ACCESS_DENIED, db).

Definition CoreDisconnectControllersUsingProtocolInterface (UserHandle Prot : ptr) (db : Database)
    : result (EFI_STATUS * Database) :=
  let! (Status, db) := DisconnectControllers_loop (S (size (objects db))) UserHandle Prot EFI_SUCCESS db in
  if EFI_ERROR Status then Reconnect UserHandle db else
  let! n := load (links db) (Prot + OFFSET_OpenList) in
  let! (_, db) := RemoveOpens (S (size (links db))) Prot (ForwardLink n) (fun r =>
    has (Attributes r) (Z.lor (Z.lor EFI_OPEN_PROTOCOL_BY_HANDLE_PROTOCOL EFI_OPEN_PROTOCOL_GET_PROTOCOL)
                              EFI_OPEN_PROTOCOL_TEST_PROTOCOL)) EFI_SUCCESS db in
  let! r := interface_at db Prot in
  if OpenListCount r >? 0 then Reconnect UserHandle db else Ok (Status, db).

Definition Uninstall_locked (UserHandle : ptr) (Protocol' : EFI_GUID) (Interface' : Z) (db : Database)
    : result (EFI_STATUS * Database) :=
  let! Prot := CoreFindProtocolInterface db UserHandle Protocol' Interface' in
  if Prot =? NULL then Ok (EFI_NOT_FOUND, db) else
  let! (Status, db) := CoreDisconnectControllersUsingProtocolInterface UserHandle Prot db in
  if EFI_ERROR Status then Ok (Status, db) else
  let! (Prot, db) := CoreRemoveInterfaceFromProtocol UserHandle Protocol' Interface' db in
  let! (Status, db) :=
    if negb (Prot =? NULL) then
      let! db := NewKey UserHandle db in
      let! (_, db) := remove_entry (Prot + OFFSET_InterfaceLink) db in
      let! db := FreePool Prot db in
      Ok (EFI_SUCCESS, db)
    else Ok (EFI_NOT_FOUND, db) in
  let! empty := IsListEmpty Max (links db) (UserHandle + OFFSET_HandleProtocols) in
  if (empty : bool) then
    let! (_, db) := remove_entry (UserHandle + OFFSET_AllHandles) db in
    let! db := FreePool UserHandle db in
    Ok (Status, db)
  else Ok (Status, db).

Definition CoreUninstallProtocolInterface (UserHandle : ptr) (Protocol' : option EFI_GUID) (Interface' : Z) (db : Database)
    : result (EFI_STATUS * Database) :=
  match Protocol' with
  | None => Ok (EFI_INVALID_PARAMETER, db)
  | Some Protocol' =>
      let! Status := CoreValidateHandle db UserHandle in
      if EFI_ERROR Status then Ok (Status, db) else
      let! db := CoreAcquireProtocolLock db in
      let! (Status, db) := Uninstall_locked UserHandle Protocol' Interface' db in
      let! db := CoreReleaseProtocolLock db in
      Ok (Status, db)
  end.

Definition Reinstall_locked (UserHandle : ptr) (Protocol' : EFI_GUID) (OldInterface NewInterface : Z) (db : Database)
    : result (EFI_STATUS * Database) :=
  let! Prot := CoreFindProtocolInterface db UserHandle Protocol' OldInterface in
  if Prot =? NULL then Ok (EFI_NOT_FOUND, db) else
  let! (Status, db) := CoreDisconnectControllersUsingProtocolInterface UserHandle Prot db in
  if EFI_ERROR Status then Ok (Status, db) else
  let! (Prot, db) := CoreRemoveInterfaceFromProtocol UserHandle Protocol' OldInterface db in
  if Prot =? NULL then Ok (EFI_NOT_FOUND, db) else
  let! r := interface_at db Prot in
  let ProtEntry := Protocol r in
  let db := put Prot (AnInterface (MkInterface (Handle r) (Protocol r) NewInterface (OpenListCount r))) db in
  let! db := insert_tail (ProtEntry + OFFSET_EntryProtocols) (Prot + OFFSET_ByProtocol) db in
  let! db := NewKey UserHandle db in
  let! db := CoreReleaseProtocolLock db in
  let! db := CoreConnectController db UserHandle in
  let! db := CoreAcquireProtocolLock db in
  let! db := CoreNotifyProtocolEntry ProtEntry db in
  Ok (EFI_SUCCESS, db).

Definition CoreReinstallProtocolInterface (UserHandle : ptr) (Protocol' : option EFI_GUID) (OldInterface NewInterface : Z)
    (db : Database) : result (EFI_STATUS * Database) :=
  let! Status := CoreValidateHandle db UserHandle in
  if EFI_ERROR Status then Ok (Status, db) else
  match Protocol' with
  | None => Ok (EFI_INVALID_PARAMETER, db)
  | Some Protocol' =>
      let! db := CoreAcquireProtocolLock db in
      let! (Status, db) := Reinstall_locked UserHandle Protocol' OldInterface NewInterface db in
      let! db := CoreReleaseProtocolLock db in
      Ok (Status, db)
  end.

(** Argument lists: pairs of a protocol and its interface, up to the [NULL]
    that ends them.  The first [n] pairs are gone through again after an
    error. *)

Fixpoint UninstallMultiple_loop (Handle : ptr) (args : list (EFI_GUID * Z)) (Index : nat) (db : Database)
    : result (EFI_STATUS * nat * Database) :=
  match args with
  | [] => Ok (EFI_SUCCESS, Index, db)
  | (Protocol', Interface') :: args =>
      let! (Status, db) := CoreUninstallProtocolInterface Handle (Some Protocol') Interface' db in
      if EFI_ERROR Status then Ok (Status, S Index, db) else
      UninstallMultiple_loop Handle args (S Index) db
  end.

Fixpoint ReinstallFirst (Handle : ptr) (args : list (EFI_GUID * Z)) (Index : nat) (db : Database) : result Database :=
  match args, Index with
  | (Protocol', Interface') :: args, S ((S _) as Index) =>
      let! (_, Handle', db) := CoreInstallProtocolInterface (Some Handle) (Some Protocol') EFI_NATIVE_INTERFACE Interface' db in
      ReinstallFirst (default Handle Handle') args Index db
  | _, _ => Ok db
  end.

Definition CoreUninstallMultipleProtocolInterfaces (Handle : ptr) (args : list (EFI_GUID * Z)) (db : Database)
    : result (EFI_STATUS * Database) :=
  let! (Status, Index, db) := UninstallMultiple_loop Handle args 0 db in
  let! db := if EFI_ERROR Status then ReinstallFirst Handle args Index db else Ok db in
  Ok (Status, db).

(** ** Handle.c: information *)

(** The links of a list, in order. *)
Definition list_of (List : ptr) (db : Database) : result (list ptr) :=
  search ForwardLink List db (fun Link l => Ok (l ++ [Link], false)) [].

(** The loops that fill a buffer with [f] of each link. *)
Definition map_list {A} (List : ptr) (db : Database) (f : ptr -> result A) : result (list A) :=
  search ForwardLink List db (fun Link l => let! a := f Link in Ok (l ++ [a], false)) [].

Definition sizeof_EFI_OPEN_PROTOCOL_INFORMATION_ENTRY : Z := 24.

(** The records are [EFI_OPEN_PROTOCOL_INFORMATION_ENTRY]s; [*EntryCount] is the
    length of the buffer, or 0. *)
Definition CoreOpenProtocolInformation (UserHandle : ptr) (Protocol' : EFI_GUID) (db : Database)
    : result (EFI_STATUS * list OPEN_PROTOCOL_DATA * Database) :=
  let! db := CoreAcquireProtocolLock db in
  let! ProtocolInterface := CoreGetProtocolInterface db UserHandle Protocol' in
  let! (Status, Buffer) :=
    if ProtocolInterface =? NULL then Ok (EFI_NOT_FOUND, []) else
    let! Links := list_of (ProtocolInterface + OFFSET_OpenList) db in
    let Count := Z.of_nat (length Links) in
    let! r := interface_at db ProtocolInterface in
    do! ASSERT (Count =? OpenListCount r) ;;
    let Size := (if Count =? 0 then 1 else Count) * sizeof_EFI_OPEN_PROTOCOL_INFORMATION_ENTRY in
    match Allocate Size db with
    | None => Ok (EFI_OUT_OF_RESOURCES, [])
    | Some _ =>
        let! Buffer := map_list (ProtocolInterface + OFFSET_OpenList) db (fun Link => open_at db (Link - OFFSET_OpenLink)) in
        Ok (EFI_SUCCESS, Buffer)
    end in
  let! db := CoreReleaseProtocolLock db in
  Ok (Status, Buffer, db).

(** The third argument and the fourth are the buffer and its length, if they are
    written. *)
Definition CoreProtocolsPerHandle (UserHandle : ptr) (BufferOut CountOut : bool) (db : Database)
    : result (EFI_STATUS * list EFI_GUID * Database) :=
  let! Status := CoreValidateHandle db UserHandle in
  if EFI_ERROR Status then Ok (Status, [], db) else
  if negb BufferOut || negb CountOut then Ok (EFI_INVALID_PARAMETER, [], db) else
  let! db := CoreAcquireProtocolLock db in
  let! Links := list_of (UserHandle + OFFSET_HandleProtocols) db in
  let ProtocolCount := Z.of_nat (length Links) in
  let! (Status, Buffer) :=
    if ProtocolCount =? 0 then Ok (EFI_INVALID_PARAMETER, []) else
    match Allocate (8 * ProtocolCount) db with
    | None => Ok (EFI_OUT_OF_RESOURCES, [])
    | Some _ =>
        let! Buffer := map_list (UserHandle + OFFSET_HandleProtocols) db (fun Link =>
          let! r := interface_at db (Link - OFFSET_InterfaceLink) in
          let! e := entry_at db (Protocol r) in Ok (ProtocolID e)) in
        Ok (EFI_SUCCESS, Buffer)
    end in
  let! db := CoreReleaseProtocolLock db in
  Ok (Status, Buffer, db).

Definition CoreGetHandleDatabaseKey (db : Database) : Z := gHandleDatabaseKey db.

(** The handles whose [Key] is greater than [Key']. *)
Definition HandlesByKey (Key' : Z) (db : Database) : result (list ptr) :=
  search ForwardLink gHandleList db (fun Link l =>
    let Handle := Link - OFFSET_AllHandles in
    let! r := handle_at db Handle in
    Ok (if Key r >? Key' then l ++ [Handle] else l, false)) [].

Fixpoint ConnectHandles_loop (HandleBuffer : list ptr) (db : Database) : result Database :=
  match HandleBuffer with
  | [] => Ok db
  | Handle :: HandleBuffer => let! db := CoreConnectController db Handle in ConnectHandles_loop HandleBuffer db
  end.

Definition CoreConnectHandlesByKey (Key' : Z) (db : Database) : result Database :=
  let! db := CoreAcquireProtocolLock db in
  let! HandleBuffer := HandlesByKey Key' db in
  let! db := CoreReleaseProtocolLock db in
  match Allocate (8 * Z.of_nat (length HandleBuffer)) db with
  | None => Ok db
  | Some _ => ConnectHandles_loop HandleBuffer db
  end.

(** ** Locate.c *)

(** [EFI_LOCATE_SEARCH_TYPE]. *)
Inductive EFI_LOCATE_SEARCH_TYPE := AllHandles | ByRegisterNotify | ByProtocol | OtherSearch.

#[export] Instance search_eq_dec : EqDecision EFI_LOCATE_SEARCH_TYPE.
Proof. solve_decision. Defined.

(** [LOCATE_POSITION], without the protocol. *)
Record LOCATE_POSITION := MkPosition { SearchKey : ptr; Pos : ptr; ProtEntry : ptr }.

(** [CORE_GET_NEXT]: the handle or [NULL], [*Interface], and the new position. *)
Definition CoreGetNextLocateAllHandles (Position : LOCATE_POSITION) (db : Database)
    : result (ptr * Z * LOCATE_POSITION * Database) :=
  let! n := load (links db) (Pos Position) in
  let Position := MkPosition (SearchKey Position) (ForwardLink n) (ProtEntry Position) in
  if negb (Pos Position =? gHandleList) then
    let Handle := Pos Position - OFFSET_AllHandles in
    let! _ := handle_at db Handle in
    Ok (Handle, NULL, Position, db)
  else Ok (NULL, NULL, Position, db).

Definition CoreGetNextLocateByRegisterNotify (Position' : LOCATE_POSITION) (db : Database)
    : result (ptr * Z * LOCATE_POSITION * Database) :=
  let ProtNotify := SearchKey Position' in
  if negb (ProtNotify =? NULL) then
    let! r := notify_at db ProtNotify in
    let Position' := MkPosition NULL (Pos Position') (ProtEntry Position') in
    let! n := load (links db) (Position r) in
    let Link := ForwardLink n in
    if negb (Link =? NotifyProtocol r + OFFSET_EntryProtocols) then
      let! i := interface_at db (Link - OFFSET_ByProtocol) in
      Ok (Handle i, Interface i, Position', db)
    else Ok (NULL, NULL, Position', db)
  else Ok (NULL, NULL, Position', db).

(** The loop over the interfaces: [*Interface] is that of the last one. *)
Fixpoint GetNextLocateByProtocol_loop (fuel : nat) (Position : LOCATE_POSITION) (Interface' : Z) (db : Database)
    : result (ptr * Z * LOCATE_POSITION * Database) :=
  match fuel with
  | O => NoFuel
  | S fuel =>
      let! n := load (links db) (Pos Position) in
      let Link := ForwardLink n in
      let Position := MkPosition (SearchKey Position) Link (ProtEntry Position) in
      if Link =? ProtEntry Position + OFFSET_EntryProtocols then Ok (NULL, Interface', Position, db) else
      let! i := interface_at db (Link - OFFSET_ByProtocol) in
      let! h := handle_at db (Handle i) in
      if negb (LocateRequest h =? mEfiLocateHandleRequest db) then
        Ok (Handle i, Interface i, Position, put (Handle i) (AHandle (MkHandle (mEfiLocateHandleRequest db) (Key h))) db)
      else GetNextLocateByProtocol_loop fuel Position (Interface i) db
  end.

Definition CoreGetNextLocateByProtocol (Position : LOCATE_POSITION) (db : Database)
    : result (ptr * Z * LOCATE_POSITION * Database) :=
  GetNextLocateByProtocol_loop (S (size (links db))) Position NULL db.

Definition GetNext (SearchType : EFI_LOCATE_SEARCH_TYPE) : LOCATE_POSITION -> Database -> result (ptr * Z * LOCATE_POSITION * Database) :=
  match SearchType with
  | AllHandles => CoreGetNextLocateAllHandles
  | ByRegisterNotify => CoreGetNextLocateByRegisterNotify
  | _ => CoreGetNextLocateByProtocol
  end.

(** The handles that fit into a buffer of [BufferSize] bytes, and the size of
    all of them. *)
Fixpoint LocateHandle_loop (fuel : nat) (SearchType : EFI_LOCATE_SEARCH_TYPE) (Position : LOCATE_POSITION) (BufferSize ResultSize : Z)
    (Buffer : list ptr) (db : Database) : result (Z * list ptr * Database) :=
  match fuel with
  | O => NoFuel
  | S fuel =>
      let! (Handle, _, Position, db) := GetNext SearchType Position db in
      if Handle =? NULL then Ok (ResultSize, Buffer, db) else
      let ResultSize := u64 (ResultSize + 8) in
      LocateHandle_loop fuel SearchType Position BufferSize ResultSize
        (if ResultSize <=? BufferSize then Buffer ++ [Handle] else Buffer) db
  end.

(** The position of a notification is advanced. *)
Definition AdvanceNotify (ProtNotify : ptr) (db : Database) : result Database :=
  let! r := notify_at db ProtNotify in
  let! n := load (links db) (Position r) in
  Ok (put ProtNotify (ANotify (MkNotify (NotifyProtocol r) (NotifyEvent r) (ForwardLink n))) db).

(** [switch (SearchType)]: a status and [Position]. *)
Definition LocateHandle_start (SearchType : EFI_LOCATE_SEARCH_TYPE) (Protocol' : option EFI_GUID) (SearchKey' : ptr) (db : Database)
    : result (EFI_STATUS * LOCATE_POSITION) :=
  let Position := MkPosition SearchKey' gHandleList NULL in
  match SearchType with
  | AllHandles => Ok (EFI_SUCCESS, Position)
  | ByRegisterNotify => Ok (if SearchKey' =? NULL then EFI_INVALID_PARAMETER else EFI_SUCCESS, Position)
  | ByProtocol =>
      match Protocol' with
      | None => Ok (EFI_INVALID_PARAMETER, Position)
      | Some Protocol' =>
          let! (ProtEntry, _) := CoreFindProtocolEntry db Protocol' false in
          Ok (if ProtEntry =? NULL then EFI_NOT_FOUND else EFI_SUCCESS,
              MkPosition SearchKey' (ProtEntry + OFFSET_EntryProtocols) ProtEntry)
      end
  | OtherSearch => Ok (EFI_INVALID_PARAMETER, Position)
  end.

(** [BufferSize] is [*BufferSize], or [None] if the pointer to it is [NULL]; it
    is returned with what is written to the buffer ([BufferOut]: there is
    one). *)
Definition CoreLocateHandle (SearchType : EFI_LOCATE_SEARCH_TYPE) (Protocol' : option EFI_GUID) (SearchKey' : ptr)
    (BufferSize : option Z) (BufferOut : bool) (db : Database) : result (EFI_STATUS * option Z * list ptr * Database) :=
  match BufferSize with
  | None => Ok (EFI_INVALID_PARAMETER, BufferSize, [], db)
  | Some Size =>
      if (Size >? 0) && negb BufferOut then Ok (EFI_INVALID_PARAMETER, BufferSize, [], db) else
      let! db := CoreAcquireProtocolLock db in
      let! (Status, Position) := LocateHandle_start SearchType Protocol' SearchKey' db in
      if EFI_ERROR Status then let! db := CoreReleaseProtocolLock db in Ok (Status, BufferSize, [], db) else
      let db := set_request (u64 (mEfiLocateHandleRequest db + 1)) db in
      let! (ResultSize, Buffer, db) := LocateHandle_loop (S (size (links db))) SearchType Position Size 0 [] db in
      if ResultSize =? 0 then let! db := CoreReleaseProtocolLock db in Ok (EFI_NOT_FOUND, BufferSize, Buffer, db) else
      let Status := if ResultSize >? Size then EFI_BUFFER_TOO_SMALL else EFI_SUCCESS in
      let! db :=
        if bool_decide (SearchType = ByRegisterNotify) && negb (EFI_ERROR Status) then AdvanceNotify SearchKey' db else Ok db in
      let! db := CoreReleaseProtocolLock db in
      Ok (Status, Some ResultSize, Buffer, db)
  end.

(** [InterfaceOut]: the caller passes a pointer for the interface. *)
Definition CoreLocateProtocol (Protocol' : option EFI_GUID) (Registration : ptr) (InterfaceOut : bool) (db : Database)
    : result (EFI_STATUS * option Z * Database) :=
  match Protocol' with
  | None => Ok (EFI_INVALID_PARAMETER, None, db)
  | Some Protocol' =>
      if negb InterfaceOut then Ok (EFI_INVALID_PARAMETER, None, db) else
      if Acquired db then Ok (EFI_NOT_FOUND, Some NULL, db) else
      let! db := CoreAcquireProtocolLock db in
      let db := set_request (u64 (mEfiLocateHandleRequest db + 1)) db in
      let! (Handle, Interface', db) :=
        if Registration =? NULL then
          let! (ProtEntry, _) := CoreFindProtocolEntry db Protocol' false in
          if ProtEntry =? NULL then Ok (NULL, NULL, db) else
          let! (Handle, Interface', _, db) :=
            CoreGetNextLocateByProtocol (MkPosition Registration (ProtEntry + OFFSET_EntryProtocols) ProtEntry) db in
          Ok (Handle, Interface', db)
        else
          let! (Handle, Interface', _, db) := CoreGetNextLocateByRegisterNotify (MkPosition Registration gHandleList NULL) db in
          Ok (Handle, Interface', db) in
      let! (Status, db) :=
        if Handle =? NULL then Ok (EFI_NOT_FOUND, db)
        else if negb (Registration =? NULL) then let! db := AdvanceNotify Registration db in Ok (EFI_SUCCESS, db)
        else Ok (EFI_SUCCESS, db) in
      let! db := CoreReleaseProtocolLock db in
      Ok (Status, Some Interface', db)
  end.

(** The number of handles and the buffer. *)
Definition CoreLocateHandleBuffer (SearchType : EFI_LOCATE_SEARCH_TYPE) (Protocol' : option EFI_GUID) (SearchKey' : ptr)
    (NumberOut BufferOut : bool) (db : Database) : result (EFI_STATUS * Z * list ptr * Database) :=
  if negb NumberOut || negb BufferOut then Ok (EFI_INVALID_PARAMETER, 0, [], db) else
  let! (Status, BufferSize, _, db) := CoreLocateHandle SearchType Protocol' SearchKey' (Some 0) false db in
  if EFI_ERROR Status && negb (bool_decide (Status = EFI_BUFFER_TOO_SMALL)) then
    Ok (if bool_decide (Status = EFI_INVALID_PARAMETER) then Status else EFI_NOT_FOUND, 0, [], db) else
  match Allocate (default 0 BufferSize) db with
  | None => Ok (EFI_OUT_OF_RESOURCES, 0, [], db)
  | Some _ =>
      let! (Status, BufferSize, Buffer, db) := CoreLocateHandle SearchType Protocol' SearchKey' BufferSize true db in
      Ok (Status, if EFI_ERROR Status then 0 else default 0 BufferSize / 8, Buffer, db)
  end.
End Code.
