(* ===== verification/HandleInv.v ===== *)
(** * Handles and protocols: the invariant

    [inv F owner db]: the lists of the database are [F]; a list holds exactly
    the links of the objects that belong there ([owner] tells to which
    interface an open record belongs).  Every handle has an interface, no two
    protocol entries have the same GUID, no handle has a protocol twice, and
    who has a protocol open exclusively is its only driver. *)

From S2P Require Import Prelude LinkedList ListFamily Handle.

(** ** Objects and their links *)

(** The links by which an object is in a list, and the lists it has. *)
Definition members (o : object) : list Z :=
  match o with
  | ABlank => []
  | AHandle _ => [OFFSET_AllHandles]
  | AnEntry _ => [OFFSET_AllEntries]
  | AnInterface _ => [OFFSET_InterfaceLink; OFFSET_ByProtocol]
  | AnOpen _ => [OFFSET_OpenLink]
  | ANotify _ => [OFFSET_NotifyLink]
  end.

Definition heads (o : object) : list Z :=
  match o with
  | AHandle _ => [OFFSET_HandleProtocols]
  | AnEntry _ => [OFFSET_EntryProtocols; OFFSET_Notify]
  | AnInterface _ => [OFFSET_OpenList]
  | ABlank | AnOpen _ | ANotify _ => []
  end.

(** The list that a link of the object at [p] belongs to. *)
Definition home (owner : gmap ptr ptr) (p : ptr) (o : object) (k : Z) : ptr :=
  match o with
  | ABlank => NULL
  | AHandle _ => gHandleList
  | AnEntry _ => mProtocolDatabase
  | AnInterface r => if k =? OFFSET_InterfaceLink then Handle r + OFFSET_HandleProtocols else Protocol r + OFFSET_EntryProtocols
  | AnOpen _ => default NULL (owner !! p) + OFFSET_OpenList
  | ANotify r => NotifyProtocol r + OFFSET_Notify
  end.

Abbreviation objs := (gmap ptr object).

Definition linked_at (O : objs) (owner : gmap ptr ptr) (hd x : ptr) : Prop :=
  exists p o k, O !! p = Some o /\ k ∈ members o /\ x = p + k /\ hd = home owner p o k.

Definition head_of (O : objs) (hd : ptr) : Prop :=
  hd = gHandleList \/ hd = mProtocolDatabase \/ exists p o k, O !! p = Some o /\ k ∈ heads o /\ hd = p + k.

Definition member (F : lists) (hd x : ptr) : Prop := exists l, F !! hd = Some l /\ x ∈ l.

(** What the pool promises: blocks do not overlap each other or the static
    variables; an allocation returns one that is not in use; when there is no
    memory for an open record there is none for an interface.  A list can hold
    all blocks. *)
Definition block_size : Z := 88.

Class PoolLaws `{Platform} (Max : nat) := {
  Blocks : gset ptr;
  Blocks_apart : forall p q, p ∈ Blocks -> q ∈ Blocks -> p <> q -> p + block_size <= q \/ q + block_size <= p;
  Blocks_above : forall p, p ∈ Blocks -> 0x2000 <= p;
  Blocks_limit : Max = 0%nat \/ (S (3 * size Blocks) < Max)%nat;
  Blocks_count : Z.of_nat (size Blocks) < 2 ^ 60;
  AllocatePool_Blocks : forall n used p, AllocatePool n used = Some p -> p ∈ Blocks /\ p ∉ used;
  AllocatePool_smaller : forall used, AllocatePool sizeof_OPEN_PROTOCOL_DATA used = None ->
    AllocatePool sizeof_PROTOCOL_INTERFACE used = None }.

(** An open record that excludes, or is by a driver. *)
Definition excludes (r : OPEN_PROTOCOL_DATA) : bool := has (Attributes r) EFI_OPEN_PROTOCOL_EXCLUSIVE.
Definition by_driver (r : OPEN_PROTOCOL_DATA) : bool := has (Attributes r) EFI_OPEN_PROTOCOL_BY_DRIVER.

Section Invariant.
Context `{Platform} (Max : nat) `{!PoolLaws Max}.

Definition is_handle (O : objs) (p : ptr) : Prop := exists r, O !! p = Some (AHandle r).
Definition is_entry (O : objs) (p : ptr) : Prop := exists r, O !! p = Some (AnEntry r).
Definition is_interface (O : objs) (p : ptr) : Prop := exists r, O !! p = Some (AnInterface r).

(** The objects that an object points to. *)
Definition refers (O : objs) (owner : gmap ptr ptr) (p : ptr) (o : object) : Prop :=
  match o with
  | AnInterface r => is_handle O (Handle r) /\ is_entry O (Protocol r)
  | AnOpen r => exists i, owner !! p = Some i /\ is_interface O i
  | ANotify r => is_entry O (NotifyProtocol r)
  | _ => True
  end.

(** The objects and their lists. *)
Record shape (F : lists) (owner : gmap ptr ptr) (O : objs) (h : store) : Prop := {
  sh_family : family h F;
  sh_heads : forall hd, is_Some (F !! hd) <-> head_of O hd;
  sh_member : forall hd x, member F hd x <-> linked_at O owner hd x;
  sh_nodes : forall p o k, O !! p = Some o -> k ∈ offsets o -> is_Some (h !! (p + k));
  sh_blocks : forall p, is_Some (O !! p) -> p ∈ Blocks;
  sh_refers : forall p o, O !! p = Some o -> refers O owner p o }.

Record inv (F : lists) (owner : gmap ptr ptr) (db : Database) : Prop := {
  inv_shape : shape F owner (objects db) (links db);
  inv_guid : forall p q e, objects db !! p = Some (AnEntry e) -> objects db !! q = Some (AnEntry e) -> p = q;
  inv_once : forall p q r s, objects db !! p = Some (AnInterface r) -> objects db !! q = Some (AnInterface s) ->
    Handle r = Handle s -> Protocol r = Protocol s -> p = q;
  inv_count : forall p r l, objects db !! p = Some (AnInterface r) -> F !! (p + OFFSET_OpenList) = Some l ->
    OpenListCount r = Z.of_nat (length l);
  inv_position : forall p r, objects db !! p = Some (ANotify r) ->
    Position r = NotifyProtocol r + OFFSET_EntryProtocols \/ member F (NotifyProtocol r + OFFSET_EntryProtocols) (Position r);
  inv_exclusive : forall p q r s i, objects db !! p = Some (AnOpen r) -> objects db !! q = Some (AnOpen s) ->
    owner !! p = Some i -> owner !! q = Some i -> excludes r = true -> excludes s || by_driver s = true -> p = q }.

(** Every handle but [p] has an interface. *)
Definition used (F : lists) (O : objs) (p : ptr) : Prop :=
  forall q r, O !! q = Some (AHandle r) -> q <> p -> F !! (q + OFFSET_HandleProtocols) <> Some [].

(** A database that no operation is changing; and between two calls. *)
Definition consistent (db : Database) : Prop := exists F owner, inv F owner db /\ used F (objects db) NULL.
Definition valid (db : Database) : Prop := Acquired db = false /\ consistent db.

(** ** Addresses *)

Lemma hand_offset_bounds o k : k ∈ offsets o -> 8 <= k < block_size.
Proof. destruct o; simpl; intros Hk; repeat (apply elem_of_cons in Hk as [->|Hk]); try done; by apply elem_of_nil in Hk. Qed.

Lemma offsets_split o k : k ∈ offsets o <-> k ∈ members o \/ k ∈ heads o.
Proof. destruct o; simpl; rewrite ?elem_of_cons, ?elem_of_nil; tauto. Qed.

Lemma member_not_head o k : k ∈ members o -> k ∉ heads o.
Proof. destruct o; simpl; rewrite ?elem_of_cons, ?elem_of_nil; intros Hk Hh; repeat (destruct Hk as [Hk|Hk]); naive_solver. Qed.

Lemma members_offsets o k : k ∈ members o -> k ∈ offsets o.
Proof. rewrite offsets_split. tauto. Qed.

Lemma heads_offsets o k : k ∈ heads o -> k ∈ offsets o.
Proof. rewrite offsets_split. tauto. Qed.

Lemma block_node p q j k : p ∈ Blocks -> q ∈ Blocks -> 0 <= j < block_size -> 0 <= k < block_size -> p + j = q + k -> p = q /\ j = k.
Proof.
  intros Hp Hq Hj Hk Heq. destruct (decide (p = q)) as [->|Hne]; [split; [done|lia]|]. destruct (Blocks_apart p q Hp Hq Hne); lia.
Qed.

Lemma block_head p k : p ∈ Blocks -> 0 <= k -> p + k <> gHandleList /\ p + k <> mProtocolDatabase /\ p + k <> NULL.
Proof. intros Hp Hk. pose proof (Blocks_above p Hp). unfold gHandleList, mProtocolDatabase, NULL. lia. Qed.

Lemma members_three o k : k ∈ members o -> k ∈ [8; 16; 32].
Proof. rewrite !list_elem_of_In. destruct o; simpl; intros Hk; repeat destruct Hk as [<-|Hk]; (done || (vm_compute; auto)). Qed.

Section Shape.
Context F owner O h (Hs : shape F owner O h).

Lemma object_block p o : O !! p = Some o -> p ∈ Blocks.
Proof. intros Hp. apply (sh_blocks _ _ _ _ Hs). by eexists. Qed.

(** A node belongs to one object. *)
Lemma object_node p q o o' j k : O !! p = Some o -> O !! q = Some o' -> j ∈ offsets o -> k ∈ offsets o' -> p + j = q + k ->
  p = q /\ o = o' /\ j = k.
Proof.
  intros Hp Hq Hj%hand_offset_bounds Hk%hand_offset_bounds Heq.
  destruct (block_node p q j k) as [-> ->]; [by eapply object_block|by eapply object_block|unfold block_size in *; lia..|done|].
  split; [done|]. split; [|done]. congruence.
Qed.

(** The list of a head. *)
Lemma head_list p o k : O !! p = Some o -> k ∈ heads o -> exists l, F !! (p + k) = Some l.
Proof. intros Hp Hk. apply (sh_heads _ _ _ _ Hs). right. right. by exists p, o, k. Qed.

Lemma handle_list : exists l, F !! gHandleList = Some l.
Proof. apply (sh_heads _ _ _ _ Hs). by left. Qed.

Lemma entry_list : exists l, F !! mProtocolDatabase = Some l.
Proof. apply (sh_heads _ _ _ _ Hs). right. by left. Qed.

(** The elements of a list. *)
Lemma list_member hd l x : F !! hd = Some l -> x ∈ l <-> linked_at O owner hd x.
Proof.
  intros Hl. rewrite <-(sh_member _ _ _ _ Hs). split; [by exists l|]. intros (l' & Hl' & Hx). by simplify_eq.
Qed.

Lemma list_length hd l : F !! hd = Some l -> (length l <= 3 * size Blocks)%nat.
Proof.
  intros Hl. set (all := b ← stdpp.base.elements Blocks; (fun k => b + k) <$> [8; 16; 32]).
  assert (Hall : length all = (3 * size Blocks)%nat).
  { change (size Blocks) with (length (stdpp.base.elements Blocks)). unfold all. generalize (stdpp.base.elements Blocks). intros m.
    induction m as [|b m IH]; [done|]. rewrite bind_cons, length_app, IH. simpl. lia. }
  rewrite <-Hall. apply submseteq_length, NoDup_submseteq; [exact (proj1 (family_NoDup h F hd l (sh_family _ _ _ _ Hs) Hl))|].
  intros x (p & o & k & Hp & Hk & -> & _)%(list_member hd l x Hl). apply list_elem_of_bind. exists p. split; [|apply elem_of_elements; by eapply object_block].
  apply list_elem_of_fmap. exists k. split; [done|by apply members_three in Hk].
Qed.

Lemma hand_list_capacity hd l : F !! hd = Some l -> capacity Max l.
Proof. intros Hl%list_length. unfold capacity. pose proof Blocks_limit. lia. Qed.
End Shape.
End Invariant.

(** ** Loops *)

(** What a loop does on the list [l]. *)
Fixpoint iterate {S} (body : ptr -> S -> result (S * bool)) (l : list ptr) (s : S) : result S :=
  match l with
  | [] => Ok s
  | x :: l => let! (s, break) := body x s in if (break : bool) then Ok s else iterate body l s
  end.

(** [step] leads from [hd] along [l] and back. *)
Definition path (step : LIST_ENTRY -> ptr) (h : store) (hd : ptr) (l : list ptr) : Prop :=
  NoDup (hd :: l) /\ forall l1 x l2, hd :: l = l1 ++ x :: l2 -> exists n, load h x = Ok n /\ step n = List.hd hd l2.

Lemma path_forward h hd l : dlist h hd l -> path ForwardLink h hd l.
Proof.
  intros Hd. split; [apply Hd|]. intros [|y l1] x l2 [= <- Hl].
  - apply fwd_load. destruct Hd as (_ & _ & Hlk). subst. destruct l2; apply Hlk.
  - subst l. destruct (dlist_links h hd l1 x l2 Hd) as (n & ? & ? & _). eauto.
Qed.

Lemma hd_last_rev (l : list ptr) d : List.hd d (reverse l) = List.last l d.
Proof. destruct l as [|x l _] using rev_ind; [done|]. by rewrite reverse_snoc, List.last_last. Qed.

Lemma path_backward h hd l : dlist h hd l -> path BackLink h hd (reverse l).
Proof.
  intros Hd. split; [destruct Hd as (Hnd & _); by rewrite reverse_Permutation|]. intros [|y l1] x l2 [= <- Hl].
  - apply bck_load. subst l2. rewrite hd_last_rev. destruct Hd as (_ & _ & Hlk).
    destruct l as [|a l _] using rev_ind; [apply Hlk|]. rewrite List.last_last.
    apply (linked_bck h (hd :: l) a hd []). by rewrite <-!app_assoc in Hlk.
  - apply (f_equal reverse) in Hl. rewrite reverse_involutive, reverse_app, reverse_cons, <-app_assoc in Hl. subst l.
    destruct (dlist_links h hd (reverse l2) x (reverse l1) Hd) as (n & ? & _ & Hb). exists n. split; [done|].
    by rewrite Hb, <-hd_last_rev, reverse_involutive.
Qed.

Lemma path_tail step h hd pre x l : path step h hd (pre ++ x :: l) -> x <> hd /\ exists n, load h x = Ok n /\ step n = List.hd hd l.
Proof.
  intros [Hnd Hp]. split; [|by apply (Hp (hd :: pre))]. intros ->. apply NoDup_cons in Hnd as [Hn _]. apply Hn, elem_of_app. right. left.
Qed.

Lemma for_each_iterate {S} (store_of : S -> store) (h : store) step body hd pre l s fuel :
  path step h hd (pre ++ l) -> store_of s = h -> (length l < fuel)%nat ->
  (forall x t t' b, x ∈ l -> store_of t = h -> body x t = Ok (t', b) -> store_of t' = h) ->
  for_each store_of fuel step hd (List.hd hd l) body s = iterate body l s.
Proof.
  revert pre s fuel. induction l as [|x l IH]; intros pre s fuel Hd Hh Hfuel Hbody; (destruct fuel as [|fuel]; [simpl in Hfuel; lia|]); cbn [for_each iterate List.hd].
  - by rewrite Z.eqb_refl.
  - destruct (path_tail step h hd pre x l Hd) as (Hx & n & Hn & Hf).
    rewrite (proj2 (Z.eqb_neq _ _) Hx). destruct (body x s) as [[t b]| | |] eqn:Hb; [|done..]. cbn [mbind result_bind].
    destruct b; [done|]. assert (Ht : store_of t = h) by (eapply Hbody; [left|done|done]). rewrite Ht, Hn. cbn [mbind result_bind]. rewrite Hf.
    apply (IH (pre ++ [x])); [by rewrite <-app_assoc|done|simpl in Hfuel; lia|]. intros y t1 t2 b Hy. apply Hbody. by right.
Qed.

Lemma for_list_iterate {S} (store_of : S -> store) (h : store) step body hd l s :
  path step h hd l -> (length l < size h)%nat -> store_of s = h ->
  (forall x t t' b, x ∈ l -> store_of t = h -> body x t = Ok (t', b) -> store_of t' = h) ->
  for_list store_of step hd body s = iterate body l s.
Proof.
  intros Hp Hsize Hh Hbody. unfold for_list. rewrite Hh. destruct (proj2 Hp [] hd l eq_refl) as (n & -> & Hf).
  cbn [mbind result_bind]. rewrite Hf. apply (for_each_iterate store_of h step body hd []); [done|done|lia|done].
Qed.

(** A search for the first link with [f]. *)
Lemma iterate_find {A} (body : ptr -> A -> result (A * bool)) (f : ptr -> bool) (g : ptr -> A) l a :
  (forall x, x ∈ l -> body x a = Ok (if f x then (g x, true) else (a, false))) ->
  iterate body l a = Ok (match List.find f l with Some x => g x | None => a end).
Proof.
  induction l as [|x l IH]; intros Hb; [done|]. simpl. rewrite Hb by left. destruct (f x); [done|]. cbn [mbind result_bind].
  apply IH. intros y Hy. apply Hb. by right.
Qed.

(** A search in a list of the database. *)
Lemma search_find {A} (db : Database) hd l (body : ptr -> A -> result (A * bool)) (f : ptr -> bool) (g : ptr -> A) a :
  dlist (links db) hd l -> (forall x, x ∈ l -> body x a = Ok (if f x then (g x, true) else (a, false))) ->
  search ForwardLink hd db body a = Ok (match List.find f l with Some x => g x | None => a end).
Proof.
  intros Hd Hb. unfold search. pose proof (dlist_size _ _ _ Hd).
  rewrite (for_list_iterate _ (links db) ForwardLink body hd l) by first [by apply path_forward|lia|done]. by apply iterate_find.
Qed.

Lemma search_find_back {A} (db : Database) hd l (body : ptr -> A -> result (A * bool)) (f : ptr -> bool) (g : ptr -> A) a :
  dlist (links db) hd l -> (forall x, x ∈ l -> body x a = Ok (if f x then (g x, true) else (a, false))) ->
  search BackLink hd db body a = Ok (match List.find f (reverse l) with Some x => g x | None => a end).
Proof.
  intros Hd Hb. unfold search. pose proof (dlist_size _ _ _ Hd).
  rewrite (for_list_iterate _ (links db) BackLink body hd (reverse l)) by first [by apply path_backward|rewrite length_reverse; lia|done].
  apply iterate_find. intros x Hx. apply Hb. by rewrite reverse_Permutation in Hx.
Qed.
