(* ===== verification/HandleLookup.v ===== *)
(** * Handles and protocols: looking up

    What the searches of Handle.c find in a database with the invariant. *)

From S2P Require Import Prelude LinkedList ListFamily Handle HandleInv.

(** ** Reading objects *)

Lemma handle_at_Some db p r : objects db !! p = Some (AHandle r) -> handle_at db p = Ok r.
Proof. unfold handle_at. by intros ->. Qed.
Lemma entry_at_Some db p r : objects db !! p = Some (AnEntry r) -> entry_at db p = Ok r.
Proof. unfold entry_at. by intros ->. Qed.
Lemma interface_at_Some db p r : objects db !! p = Some (AnInterface r) -> interface_at db p = Ok r.
Proof. unfold interface_at. by intros ->. Qed.
Lemma open_at_Some db p r : objects db !! p = Some (AnOpen r) -> open_at db p = Ok r.
Proof. unfold open_at. by intros ->. Qed.
Lemma notify_at_Some db p r : objects db !! p = Some (ANotify r) -> notify_at db p = Ok r.
Proof. unfold notify_at. by intros ->. Qed.

(** ** The elements of the lists *)

Section Shape.
Context `{Platform} (Max : nat) `{!PoolLaws Max}.
Context F owner O h (Hs : shape Max F owner O h).

Lemma home_home p o j q o' k : O !! p = Some o -> j ∈ heads o -> O !! q = Some o' -> k ∈ members o' -> p + j = home owner q o' k ->
  match o' with
  | ABlank | AHandle _ | AnEntry _ => False
  | AnInterface r => (k = OFFSET_InterfaceLink /\ j = OFFSET_HandleProtocols /\ p = Handle r) \/
                     (k = OFFSET_ByProtocol /\ j = OFFSET_EntryProtocols /\ p = Protocol r)
  | AnOpen _ => j = OFFSET_OpenList /\ owner !! q = Some p
  | ANotify r => j = OFFSET_Notify /\ p = NotifyProtocol r
  end.
Proof.
  intros Hp Hj Hq Hk Heq. pose proof (object_block Max F owner O h Hs p o Hp) as Hb.
  pose proof (heads_offsets o j Hj) as Hjo. pose proof (hand_offset_bounds o j Hjo) as Hjb.
  destruct (block_head Max p j Hb) as (Hg & Hm & _); [lia|].
  pose proof (sh_refers _ _ _ _ _ Hs q o' Hq) as Hrefers. destruct o' as [|r|r|r|r|r]; cbn [home refers] in *; [|done..| | |].
  - by apply elem_of_nil in Hk.
  - destruct Hrefers as [[rh Hrh] [re Hre]]. destruct (Z.eqb_spec k OFFSET_InterfaceLink) as [->|Hne].
    + left. destruct (object_node Max F owner O h Hs p (Handle r) o (AHandle rh) j OFFSET_HandleProtocols) as (? & _ & ?);
        [done..|right; left|done|]. done.
    + right. destruct (object_node Max F owner O h Hs p (Protocol r) o (AnEntry re) j OFFSET_EntryProtocols) as (? & _ & ?);
        [done..|right; left|done|]. cbn [members] in Hk. apply elem_of_cons in Hk as [?|Hk]; [done|].
      apply list_elem_of_singleton in Hk as ->. done.
  - destruct Hrefers as (i & Hi & [ri Hri]). rewrite Hi in Heq. simpl in Heq.
    destruct (object_node Max F owner O h Hs p i o (AnInterface ri) j OFFSET_OpenList) as (-> & _ & ?); [done..|right; right; left|done|]. done.
  - destruct Hrefers as [re Hre]. destruct (object_node Max F owner O h Hs p (NotifyProtocol r) o (AnEntry re) j OFFSET_Notify) as (? & _ & ?);
      [done..|right; right; left|done|]. done.
Qed.

(** An object is in one of the static lists, or in a list of an object. *)
Lemma home_cases q o' k : O !! q = Some o' -> k ∈ members o' ->
  match o' with
  | AHandle _ => home owner q o' k = gHandleList
  | AnEntry _ => home owner q o' k = mProtocolDatabase
  | _ => exists p o j, O !! p = Some o /\ j ∈ heads o /\ home owner q o' k = p + j
  end.
Proof.
  intros Hq Hk. pose proof (sh_refers _ _ _ _ _ Hs q o' Hq) as Hrefers. destruct o' as [|r|r|r|r|r]; cbn [home refers] in *; try done.
  - by apply elem_of_nil in Hk.
  - destruct Hrefers as [[rh Hrh] [re Hre]]. destruct (k =? OFFSET_InterfaceLink).
    + exists (Handle r), (AHandle rh), OFFSET_HandleProtocols. split; [done|]. split; [left|done].
    + exists (Protocol r), (AnEntry re), OFFSET_EntryProtocols. split; [done|]. split; [left|done].
  - destruct Hrefers as (i & Hi & [ri Hri]). exists i, (AnInterface ri), OFFSET_OpenList. rewrite Hi. split; [done|]. split; [left|done].
  - destruct Hrefers as [re Hre]. exists (NotifyProtocol r), (AnEntry re), OFFSET_Notify. split; [done|]. split; [right; left|done].
Qed.

Lemma head_not_static p o j : O !! p = Some o -> j ∈ heads o -> p + j <> gHandleList /\ p + j <> mProtocolDatabase.
Proof.
  intros Hp Hj. pose proof (object_block Max F owner O h Hs p o Hp) as Hb.
  pose proof (hand_offset_bounds o j (heads_offsets o j Hj)). destruct (block_head Max p j Hb) as (? & ? & _); [lia|done].
Qed.

(** The elements of each kind of list. *)
Lemma in_handles l x : F !! gHandleList = Some l -> x ∈ l <-> exists r, O !! (x - OFFSET_AllHandles) = Some (AHandle r).
Proof.
  intros Hl. rewrite (list_member Max F owner O h Hs _ l x Hl). split.
  - intros (p & o & k & Hp & Hk & -> & Hh). pose proof (home_cases p o k Hp Hk) as Hc.
    destruct o as [|r|r|r|r|r]; try (destruct Hc as (p' & o' & j & Hp' & Hj & Heq); rewrite Heq in Hh; by destruct (head_not_static p' o' j Hp' Hj)).
    + apply list_elem_of_singleton in Hk as ->. exists r. by rewrite Z.add_simpl_r.
    + rewrite Hc in Hh. done.
  - intros [r Hr]. exists (x - OFFSET_AllHandles), (AHandle r), OFFSET_AllHandles. split; [done|]. split; [left|]. split; [lia|done].
Qed.

Lemma in_entries l x : F !! mProtocolDatabase = Some l -> x ∈ l <-> exists r, O !! (x - OFFSET_AllEntries) = Some (AnEntry r).
Proof.
  intros Hl. rewrite (list_member Max F owner O h Hs _ l x Hl). split.
  - intros (p & o & k & Hp & Hk & -> & Hh). pose proof (home_cases p o k Hp Hk) as Hc.
    destruct o as [|r|r|r|r|r]; try (destruct Hc as (p' & o' & j & Hp' & Hj & Heq); rewrite Heq in Hh; by destruct (head_not_static p' o' j Hp' Hj)).
    + rewrite Hc in Hh. done.
    + apply list_elem_of_singleton in Hk as ->. exists r. by rewrite Z.add_simpl_r.
  - intros [r Hr]. exists (x - OFFSET_AllEntries), (AnEntry r), OFFSET_AllEntries. split; [done|]. split; [left|]. split; [lia|done].
Qed.

(** The elements of the list at offset [j] of an object. *)
Lemma in_object p o j l x : O !! p = Some o -> j ∈ heads o -> F !! (p + j) = Some l -> x ∈ l ->
  exists q o' k, O !! q = Some o' /\ k ∈ members o' /\ x = q + k /\ p + j = home owner q o' k.
Proof. intros Hp Hj Hl Hx. by apply (list_member Max F owner O h Hs _ l x Hl) in Hx. Qed.

Lemma in_handle_protocols p rh l x : O !! p = Some (AHandle rh) -> F !! (p + OFFSET_HandleProtocols) = Some l ->
  x ∈ l <-> exists r, O !! (x - OFFSET_InterfaceLink) = Some (AnInterface r) /\ Handle r = p.
Proof.
  intros Hp Hl. split.
  - intros (q & o & k & Hq & Hk & -> & Hh)%(in_object p (AHandle rh) OFFSET_HandleProtocols); [|done|left|done].
    pose proof (home_home p (AHandle rh) OFFSET_HandleProtocols q o k Hp (list_elem_of_here _ _) Hq Hk Hh) as Hc.
    destruct o as [|r|r|r|r|r]; try done; [|by destruct Hc..]. destruct Hc as [(-> & _ & ->)|(_ & ? & _)]; [|done].
    exists r. by rewrite Z.add_simpl_r.
  - intros (r & Hr & <-). apply (list_member Max F owner O h Hs _ l x Hl). eexists _, _, OFFSET_InterfaceLink. split; [exact Hr|].
    split; [left|]. split; [lia|done].
Qed.

Lemma in_entry_protocols p re l x : O !! p = Some (AnEntry re) -> F !! (p + OFFSET_EntryProtocols) = Some l ->
  x ∈ l <-> exists r, O !! (x - OFFSET_ByProtocol) = Some (AnInterface r) /\ Protocol r = p.
Proof.
  intros Hp Hl. split.
  - intros (q & o & k & Hq & Hk & -> & Hh)%(in_object p (AnEntry re) OFFSET_EntryProtocols); [|done|left|done].
    pose proof (home_home p (AnEntry re) OFFSET_EntryProtocols q o k Hp (list_elem_of_here _ _) Hq Hk Hh) as Hc.
    destruct o as [|r|r|r|r|r]; try done; [|by destruct Hc..]. destruct Hc as [(_ & ? & _)|(-> & _ & ->)]; [done|].
    exists r. by rewrite Z.add_simpl_r.
  - intros (r & Hr & <-). apply (list_member Max F owner O h Hs _ l x Hl). eexists _, _, OFFSET_ByProtocol. split; [exact Hr|].
    split; [right; left|]. split; [lia|done].
Qed.

Lemma in_notify p re l x : O !! p = Some (AnEntry re) -> F !! (p + OFFSET_Notify) = Some l ->
  x ∈ l <-> exists r, O !! (x - OFFSET_NotifyLink) = Some (ANotify r) /\ NotifyProtocol r = p.
Proof.
  intros Hp Hl. split.
  - intros (q & o & k & Hq & Hk & -> & Hh)%(in_object p (AnEntry re) OFFSET_Notify); [|done|right; left|done].
    pose proof (home_home p (AnEntry re) OFFSET_Notify q o k Hp (list_elem_of_further _ _ _ (list_elem_of_here _ _)) Hq Hk Hh) as Hc.
    destruct o as [|r|r|r|r|r]; try done; [by destruct Hc as [(_ & ? & _)|(_ & ? & _)]|by destruct Hc|].
    destruct Hc as [_ ->]. apply list_elem_of_singleton in Hk as ->. exists r. by rewrite Z.add_simpl_r.
  - intros (r & Hr & <-). apply (list_member Max F owner O h Hs _ l x Hl). eexists _, _, OFFSET_NotifyLink. split; [exact Hr|].
    split; [left|]. split; [lia|done].
Qed.

Lemma in_open_list p ri l x : O !! p = Some (AnInterface ri) -> F !! (p + OFFSET_OpenList) = Some l ->
  x ∈ l <-> exists r, O !! (x - OFFSET_OpenLink) = Some (AnOpen r) /\ owner !! (x - OFFSET_OpenLink) = Some p.
Proof.
  intros Hp Hl. split.
  - intros (q & o & k & Hq & Hk & -> & Hh)%(in_object p (AnInterface ri) OFFSET_OpenList); [|done|left|done].
    pose proof (home_home p (AnInterface ri) OFFSET_OpenList q o k Hp (list_elem_of_here _ _) Hq Hk Hh) as Hc.
    destruct o as [|r|r|r|r|r]; try done; [by destruct Hc as [(_ & ? & _)|(_ & ? & _)]| |by destruct Hc].
    destruct Hc as [_ Ho]. apply list_elem_of_singleton in Hk as ->. exists r. by rewrite Z.add_simpl_r.
  - intros (r & Hr & Ho). apply (list_member Max F owner O h Hs _ l x Hl). eexists _, _, OFFSET_OpenLink. split; [exact Hr|].
    split; [left|]. split; [lia|]. cbn [home]. by rewrite Ho.
Qed.
End Shape.

(** ** The searches *)

Lemma find_Some_split {A} (f : A -> bool) l x : List.find f l = Some x -> x ∈ l /\ f x = true.
Proof. intros [Hin Hf]%find_some. split; [by apply list_elem_of_In|done]. Qed.

Lemma find_None_all {A} (f : A -> bool) l x : List.find f l = None -> x ∈ l -> f x = false.
Proof. intros Hn Hin%list_elem_of_In. by eapply find_none. Qed.

Definition handleb (O : objs) (p : ptr) : bool := match O !! p with Some (AHandle _) => true | _ => false end.

Lemma handleb_true O p : handleb O p = true <-> is_handle O p.
Proof.
  unfold handleb, is_handle. destruct (O !! p) as [[|r|r|r|r|r]|]; split; try done; try (by intros [? ?]). by exists r.
Qed.

(** The interface at [i] gives [h] the interface [v] of protocol [g]. *)
Definition provides (O : objs) (i h : ptr) (g : EFI_GUID) (v : Z) : Prop :=
  exists r e, O !! i = Some (AnInterface r) /\ Handle r = h /\ Interface r = v /\ O !! Protocol r = Some (AnEntry e) /\ ProtocolID e = g.

Lemma provides_same_object O i h g v h' g' v' : provides O i h g v -> provides O i h' g' v' -> h = h' /\ g = g' /\ v = v'.
Proof. intros (r & e & Hi & <- & <- & He & <-) (r' & e' & Hi' & <- & <- & He' & <-). by simplify_eq. Qed.

Section Lookup.
Context `{Platform} (Max : nat) `{!PoolLaws Max}.
Context F owner db (Hs : shape Max F owner (objects db) (links db)).

Lemma object_not_null p o : objects db !! p = Some o -> p <> NULL.
Proof.
  intros Hp ->. pose proof (object_block Max F owner _ _ Hs NULL o Hp) as Hb. pose proof (Blocks_above NULL Hb). done.
Qed.

Lemma shape_dlist hd l : F !! hd = Some l -> dlist (links db) hd l.
Proof. intros Hl. eapply family_dlist; [apply (sh_family _ _ _ _ _ Hs)|done]. Qed.

Lemma CoreValidateHandle_spec p :
  CoreValidateHandle db p = Ok (if handleb (objects db) p then EFI_SUCCESS else EFI_INVALID_PARAMETER).
Proof.
  unfold CoreValidateHandle. destruct (Z.eqb_spec p NULL) as [->|Hp].
  { destruct (handleb (objects db) NULL) eqn:Hh; [|done]. apply handleb_true in Hh as [r Hr]. by apply object_not_null in Hr. }
  destruct (handle_list Max F owner _ _ Hs) as [l Hl].
  rewrite (search_find_back db gHandleList l _ (fun x => x - OFFSET_AllHandles =? p) (fun _ => EFI_SUCCESS)); [|by apply shape_dlist|].
  - f_equal. destruct (List.find _ _) as [x|] eqn:Hf; destruct (handleb (objects db) p) eqn:Hb; try done; exfalso.
    + apply find_Some_split in Hf as [Hx Heq%Z.eqb_eq]. rewrite reverse_Permutation, (in_handles Max F owner _ _ Hs l x Hl), Heq in Hx.
      apply not_true_iff_false in Hb. by apply Hb, handleb_true.
    + apply handleb_true in Hb. replace p with (p + OFFSET_AllHandles - OFFSET_AllHandles) in Hb by lia.
      apply (in_handles Max F owner _ _ Hs l _ Hl) in Hb. rewrite <-reverse_Permutation in Hb.
      apply (find_None_all _ _ _ Hf) in Hb. apply Z.eqb_neq in Hb. lia.
  - intros x [r Hr]%(in_handles Max F owner _ _ Hs l x Hl). rewrite (handle_at_Some _ _ _ Hr). cbn [mbind result_bind].
    by destruct (x - OFFSET_AllHandles =? p).
Qed.

(** The entry of a GUID, if there is one. *)
Definition names (g : EFI_GUID) (q : ptr) : Prop :=
  (q = NULL /\ forall p e, objects db !! p = Some (AnEntry e) -> ProtocolID e <> g) \/
  (q <> NULL /\ objects db !! q = Some (AnEntry (MkEntry g))).

Lemma FindProtocolEntry_search g : exists q, names g q /\
  search ForwardLink mProtocolDatabase db (fun Link ProtEntry =>
    let! r := entry_at db (Link - OFFSET_AllEntries) in
    if CompareGuid (ProtocolID r) g then Ok (Link - OFFSET_AllEntries, true) else Ok (ProtEntry, false)) NULL = Ok q.
Proof.
  destruct (entry_list Max F owner _ _ Hs) as [l Hl].
  assert (Hat : forall x, x ∈ l -> exists e, objects db !! (x - OFFSET_AllEntries) = Some (AnEntry e)) by (intros x; apply (in_entries Max F owner _ _ Hs l x Hl)).
  set (f := fun x => match objects db !! (x - OFFSET_AllEntries) with Some (AnEntry e) => CompareGuid (ProtocolID e) g | _ => false end).
  eexists. split; [|apply (search_find db mProtocolDatabase l _ f (fun x => x - OFFSET_AllEntries)); [by apply shape_dlist|]].
  - destruct (List.find f l) as [x|] eqn:Hf.
    + right. apply find_Some_split in Hf as [Hx Hf]. destruct (Hat x Hx) as [[g'] He]. unfold f in Hf. rewrite He in Hf.
      apply bool_decide_eq_true in Hf. simpl in Hf. subst. split; [by eapply object_not_null|done].
    + left. split; [done|]. intros p e He. assert (Hx : p + OFFSET_AllEntries ∈ l).
      { apply (in_entries Max F owner _ _ Hs l _ Hl). exists e. by rewrite Z.add_simpl_r. }
      apply (find_None_all _ _ _ Hf) in Hx. unfold f in Hx. rewrite Z.add_simpl_r, He in Hx. by apply bool_decide_eq_false in Hx.
  - intros x Hx. destruct (Hat x Hx) as [e He]. unfold f. rewrite (entry_at_Some _ _ _ He), He. cbn [mbind result_bind].
    by destruct (CompareGuid (ProtocolID e) g).
Qed.

Context (Verify : bool).

Lemma CoreFindProtocolEntry_lookup g : Acquired db = true ->
  exists q, names g q /\ CoreFindProtocolEntry Verify Max db g false = Ok (q, db).
Proof.
  intros Ha. destruct (FindProtocolEntry_search g) as (q & Hq & Heq). exists q. split; [done|].
  unfold CoreFindProtocolEntry, ASSERT_LOCKED. rewrite Ha. cbn [ASSERT mbind result_bind]. rewrite Heq. cbn [mbind result_bind]. by rewrite andb_false_r.
Qed.

(** A search among the interfaces of a handle. *)
Lemma interface_search h rh (f : PROTOCOL_INTERFACE -> bool) body : objects db !! h = Some (AHandle rh) ->
  (forall x r, objects db !! (x - OFFSET_InterfaceLink) = Some (AnInterface r) -> Handle r = h ->
     body x NULL = Ok (if f r then (x - OFFSET_InterfaceLink, true) else (NULL, false))) ->
  exists q, search ForwardLink (h + OFFSET_HandleProtocols) db body NULL = Ok q /\
    ((q = NULL /\ forall i r, objects db !! i = Some (AnInterface r) -> Handle r = h -> f r = false) \/
     (q <> NULL /\ exists r, objects db !! q = Some (AnInterface r) /\ Handle r = h /\ f r = true)).
Proof.
  intros Hh Hbody. destruct (head_list Max F owner _ _ Hs h _ OFFSET_HandleProtocols Hh) as [l Hl]; [left|].
  pose proof (fun x => in_handle_protocols Max F owner _ _ Hs h rh l x Hh Hl) as Hin.
  set (f' := fun x => match objects db !! (x - OFFSET_InterfaceLink) with Some (AnInterface r) => f r | _ => false end).
  eexists. split; [apply (search_find db _ l _ f' (fun x => x - OFFSET_InterfaceLink)); [by apply shape_dlist|]|].
  - intros x (r & Hr & Hrh)%Hin. unfold f'. rewrite Hr. by apply Hbody.
  - destruct (List.find f' l) as [x|] eqn:Hf; [right|left].
    + apply find_Some_split in Hf as [Hx Hf]. apply Hin in Hx as (r & Hr & Hrh). unfold f' in Hf. rewrite Hr in Hf.
      split; [by eapply object_not_null|]. by exists r.
    + split; [done|]. intros i r Hi Hrh. assert (Hx : i + OFFSET_InterfaceLink ∈ l) by (apply Hin; exists r; by rewrite Z.add_simpl_r).
      apply (find_None_all _ _ _ Hf) in Hx. unfold f' in Hx. by rewrite Z.add_simpl_r, Hi in Hx.
Qed.

Lemma provides_refers i r : objects db !! i = Some (AnInterface r) ->
  is_handle (objects db) (Handle r) /\ exists e, objects db !! Protocol r = Some (AnEntry e).
Proof. intros Hi. apply (sh_refers _ _ _ _ _ Hs i _ Hi). Qed.

Lemma CoreGetProtocolInterface_spec h g :
  exists q, CoreGetProtocolInterface db h g = Ok q /\
    ((q = NULL /\ forall i v, ~ provides (objects db) i h g v) \/ (q <> NULL /\ exists v, provides (objects db) q h g v)).
Proof.
  unfold CoreGetProtocolInterface. rewrite CoreValidateHandle_spec. cbn [mbind result_bind].
  destruct (handleb (objects db) h) eqn:Hb; cbn [EFI_ERROR].
  2: { exists NULL. split; [done|]. left. split; [done|]. intros i v (r & e & Hi & <- & _). apply not_true_iff_false in Hb.
       apply Hb, handleb_true. by apply provides_refers in Hi as [? _]. }
  apply handleb_true in Hb as [rh Hh].
  destruct (interface_search h rh (fun r => match objects db !! Protocol r with Some (AnEntry e) => CompareGuid (ProtocolID e) g | _ => false end)
    (fun Link _ => let Prot := Link - OFFSET_InterfaceLink in let! r := interface_at db Prot in let! e := entry_at db (Protocol r) in
                   if CompareGuid (ProtocolID e) g then Ok (Prot, true) else Ok (NULL, false)) Hh) as (q & Heq & Hq).
  { intros x r Hr _. cbv zeta. rewrite (interface_at_Some _ _ _ Hr). cbn [mbind result_bind].
    destruct (provides_refers _ _ Hr) as [_ [e He]]. rewrite (entry_at_Some _ _ _ He), He. cbn [mbind result_bind].
    by destruct (CompareGuid (ProtocolID e) g). }
  exists q. split; [done|]. destruct Hq as [[-> Hq]|(Hn & r & Hr & Hrh & Hf)]; [left|right]; (split; [done|]).
  - intros i v (r & e & Hi & Hrh & _ & He & Hg). specialize (Hq i r Hi Hrh). rewrite He in Hq. by apply bool_decide_eq_false in Hq.
  - destruct (provides_refers _ _ Hr) as [_ [e He]]. rewrite He in Hf. apply bool_decide_eq_true in Hf. by exists (Interface r), r, e.
Qed.

Lemma CoreFindProtocolInterface_spec h rh g v : Acquired db = true -> objects db !! h = Some (AHandle rh) ->
  (forall p q e, objects db !! p = Some (AnEntry e) -> objects db !! q = Some (AnEntry e) -> p = q) ->
  exists q, CoreFindProtocolInterface Verify Max db h g v = Ok q /\
    ((q = NULL /\ forall i, ~ provides (objects db) i h g v) \/ (q <> NULL /\ provides (objects db) q h g v)).
Proof.
  intros Ha Hh Hguid. unfold CoreFindProtocolInterface, ASSERT_LOCKED. rewrite Ha. cbn [ASSERT mbind result_bind].
  destruct (CoreFindProtocolEntry_lookup g Ha) as (e & He & Heq). rewrite Heq. cbn [mbind result_bind].
  destruct He as [[-> He]|[Hn He]].
  { exists NULL. split; [done|]. left. split; [done|]. intros i (r & e & _ & _ & _ & Hre & Hg). by apply He in Hre. }
  rewrite (proj2 (Z.eqb_neq _ _) Hn).
  destruct (interface_search h rh (fun r => (Interface r =? v) && (Protocol r =? e))
    (fun Link _ => let Prot := Link - OFFSET_InterfaceLink in let! r := interface_at db Prot in
                   if (Interface r =? v) && (Protocol r =? e) then Ok (Prot, true) else Ok (NULL, false)) Hh) as (q & Hsearch & Hq).
  { intros x r Hr _. cbv zeta. rewrite (interface_at_Some _ _ _ Hr). cbn [mbind result_bind]. by destruct ((Interface r =? v) && (Protocol r =? e)). }
  exists q. split; [done|]. destruct Hq as [[-> Hq]|(Hqn & r & Hr & Hrh & Hf)]; [left|right]; (split; [done|]).
  - intros i (r & [g'] & Hi & Hrh & Hv & Hre & Hg). simpl in Hg. subst g'. specialize (Hq i r Hi Hrh).
    rewrite Hv, Z.eqb_refl, (Hguid _ _ _ Hre He), Z.eqb_refl in Hq. done.
  - apply andb_true_iff in Hf as [Hv%Z.eqb_eq Hp%Z.eqb_eq]. exists r, (MkEntry g). rewrite Hp. done.
Qed.
End Lookup.
