(* ===== verification/HandleShape.v ===== *)
(** * Handles and protocols: changes

    How adding, removing and changing an object changes the lists, and that the
    objects and lists still fit. *)

From S2P Require Import Prelude LinkedList ListFamily Handle HandleInv HandleLookup.

(** ** Lists *)

Section Lists.
Implicit Types (F : lists).

Lemma hand_member_insert F hd0 l hd x :
  member (<[hd0 := l]> F) hd x <-> (hd = hd0 /\ x ∈ l) \/ (hd <> hd0 /\ member F hd x).
Proof.
  unfold member. split.
  - intros (l' & [[<- <-]|[Hne Hl]]%lookup_insert_Some & Hx); [by left|]. right. split; [done|]. by exists l'.
  - intros [[-> Hx]|[Hne (l' & Hl & Hx)]]; [exists l; by rewrite lookup_insert_eq|]. exists l'. by rewrite lookup_insert_ne.
Qed.

Lemma member_add F hd0 l1 l2 x0 hd x : F !! hd0 = Some (l1 ++ l2) ->
  member (<[hd0 := l1 ++ x0 :: l2]> F) hd x <-> member F hd x \/ (hd = hd0 /\ x = x0).
Proof.
  intros Hl. rewrite hand_member_insert. destruct (decide (hd = hd0)) as [->|Hne]; [|naive_solver].
  assert (Hm : member F hd0 x <-> x ∈ l1 ++ l2) by (split; [intros (l & ? & ?); by simplify_eq|by exists (l1 ++ l2)]).
  rewrite Hm, !elem_of_app, elem_of_cons. naive_solver.
Qed.

Lemma member_add_head F hd0 l x0 hd x : F !! hd0 = Some l -> member (<[hd0 := x0 :: l]> F) hd x <-> member F hd x \/ (hd = hd0 /\ x = x0).
Proof. intros Hl. by apply (member_add F hd0 [] l x0 hd x). Qed.

Lemma member_new F hd0 hd x : F !! hd0 = None -> member (<[hd0 := []]> F) hd x <-> member F hd x.
Proof.
  intros Hl. rewrite hand_member_insert. split; [|intros Hm; right; split; [|done]].
  - intros [[_ Hx]|[_ Hm]]; [by apply elem_of_nil in Hx|done].
  - intros ->. destruct Hm as (l & Hl' & _). by rewrite Hl' in Hl.
Qed.

Lemma member_remove h F hd0 l1 l2 x0 hd x : family h F -> F !! hd0 = Some (l1 ++ x0 :: l2) ->
  member (<[hd0 := l1 ++ l2]> F) hd x <-> member F hd x /\ x <> x0.
Proof.
  intros Hf Hl. pose proof (family_NoDup _ _ _ _ Hf Hl) as [Hnd _]. rewrite <-Permutation_middle in Hnd. apply NoDup_cons in Hnd as [Hn _].
  rewrite hand_member_insert. destruct (decide (hd = hd0)) as [->|Hne].
  - assert (Hm : member F hd0 x <-> x ∈ l1 ++ x0 :: l2) by (split; [intros (l & ? & ?); by simplify_eq|by exists (l1 ++ x0 :: l2)]).
    rewrite Hm, elem_of_app, elem_of_app, elem_of_cons. rewrite elem_of_app in Hn. naive_solver.
  - split; [|naive_solver]. intros [[? _]|[_ Hm]]; [done|]. split; [done|]. intros ->. destruct Hm as (l & Hl' & Hx).
    apply Hne. eapply family_unique; [done|exact Hl'|exact Hl|done|apply elem_of_app; right; left].
Qed.

Lemma member_drop F hd0 hd x : F !! hd0 = Some [] -> member (delete hd0 F) hd x <-> member F hd x.
Proof.
  intros Hl. unfold member. split.
  - intros (l & [_ Hl']%lookup_delete_Some & Hx). by exists l.
  - intros (l & Hl' & Hx). exists l. rewrite lookup_delete_ne; [done|]. intros ->. simplify_eq. by apply elem_of_nil in Hx.
Qed.

Lemma is_Some_insert F hd0 l hd : is_Some (<[hd0 := l]> F !! hd) <-> hd = hd0 \/ is_Some (F !! hd).
Proof.
  destruct (decide (hd = hd0)) as [->|Hne]; [rewrite lookup_insert_eq|rewrite lookup_insert_ne by done].
  - split; [by left|intros _; by eexists].
  - split; [by right|by intros [?|?]].
Qed.

Lemma is_Some_delete F hd0 hd : is_Some (delete hd0 F !! hd) <-> hd <> hd0 /\ is_Some (F !! hd).
Proof. unfold is_Some. setoid_rewrite lookup_delete_Some. naive_solver. Qed.
End Lists.

(** ** Objects *)

(** [o'] is linked as [o] is. *)
Definition similar (o o' : object) : Prop :=
  match o, o' with
  | AHandle _, AHandle _ => True
  | AnEntry e, AnEntry e' => e = e'
  | AnInterface r, AnInterface r' => Handle r = Handle r' /\ Protocol r = Protocol r'
  | AnOpen _, AnOpen _ => True
  | ANotify r, ANotify r' => NotifyProtocol r = NotifyProtocol r'
  | _, _ => False
  end.

Section Objects.
Context `{Platform} (Max : nat) `{!PoolLaws Max}.
Implicit Types (F : lists) (O : objs) (h : store) (owner : gmap ptr ptr).

Lemma similar_links owner p o o' k : similar o o' ->
  members o = members o' /\ heads o = heads o' /\ offsets o = offsets o' /\ home owner p o k = home owner p o' k.
Proof. intros Hs. destruct o, o'; try done; simpl in *; repeat split; try done; first [by rewrite Hs|by destruct Hs as [-> ->]]. Qed.

(** The kinds of the objects that others refer to do not change. *)
Definition kinds (O O' : objs) : Prop :=
  (forall p, is_handle O p -> is_handle O' p) /\ (forall p, is_entry O p -> is_entry O' p) /\
  (forall p, is_interface O p -> is_interface O' p).

Lemma refers_kinds O O' owner p o : kinds O O' -> refers O owner p o -> refers O' owner p o.
Proof. intros (Hh & He & Hi). destruct o; simpl; naive_solver. Qed.

Lemma kinds_put O p o o' : O !! p = Some o -> similar o o' -> kinds O (<[p := o']> O).
Proof.
  intros Hp Hsim. unfold kinds, is_handle, is_entry, is_interface.
  split; [|split]; intros q [r Hr]; (destruct (decide (q = p)) as [->|Hne]; [rewrite lookup_insert_eq|rewrite lookup_insert_ne by done; by exists r]);
    rewrite Hp in Hr; injection Hr as ->; destruct o'; try done; by eexists.
Qed.

Lemma kinds_add O p o : O !! p = None -> kinds O (<[p := o]> O).
Proof.
  intros Hp. split; [|split]; intros q [r Hr]; exists r; (rewrite lookup_insert_ne; [done|]); intros ->; by rewrite Hr in Hp.
Qed.

Lemma linked_at_put O owner p o o' hd x : O !! p = Some o -> similar o o' ->
  linked_at (<[p := o']> O) owner hd x <-> linked_at O owner hd x.
Proof.
  intros Hp Hsim. unfold linked_at. split.
  - intros (q & oq & k & [[<- <-]|[Hne Hq]]%lookup_insert_Some & Hk & Hx & Hh); [|by exists q, oq, k].
    destruct (similar_links owner p o o' k Hsim) as (Hm & _ & _ & Hho). exists p, o, k. rewrite Hm, Hho. done.
  - intros (q & oq & k & Hq & Hk & Hx & Hh). destruct (decide (q = p)) as [->|Hne].
    + destruct (similar_links owner p o o' k Hsim) as (Hm & _ & _ & Hho). simplify_eq. exists p, o', k.
      rewrite lookup_insert_eq, <-Hm, <-Hho. done.
    + exists q, oq, k. by rewrite lookup_insert_ne.
Qed.

Lemma head_of_put O p o o' hd : O !! p = Some o -> similar o o' -> head_of (<[p := o']> O) hd <-> head_of O hd.
Proof.
  intros Hp Hsim. destruct (similar_links ∅ p o o' 0 Hsim) as (_ & Hheads & _). unfold head_of. split.
  - intros [?|[?|(q & oq & k & [[<- <-]|[Hne Hq]]%lookup_insert_Some & Hk & Hx)]]; [by left|by right; left| |]; right; right.
    + exists p, o, k. by rewrite Hheads.
    + by exists q, oq, k.
  - intros [?|[?|(q & oq & k & Hq & Hk & Hx)]]; [by left|by right; left|]. right. right. destruct (decide (q = p)) as [->|Hne].
    + simplify_eq. exists p, o', k. by rewrite lookup_insert_eq, <-Hheads.
    + exists q, oq, k. by rewrite lookup_insert_ne.
Qed.

Lemma shape_put F owner O h p o o' : shape Max F owner O h -> O !! p = Some o -> similar o o' ->
  shape Max F owner (<[p := o']> O) h.
Proof.
  intros [Hf Hh Hm Hn Hb Hr] Hp Hsim. destruct (similar_links owner p o o' 0 Hsim) as (_ & _ & Hoff & _). split.
  - done.
  - intros hd. by rewrite (head_of_put O p o o' hd Hp Hsim).
  - intros hd x. by rewrite (linked_at_put O owner p o o' hd x Hp Hsim).
  - intros q oq k [[<- <-]|[Hne Hq]]%lookup_insert_Some Hk; [apply (Hn p o); [done|by rewrite Hoff]|by apply (Hn q oq)].
  - intros q [oq [[<- <-]|[Hne Hq]]%lookup_insert_Some]; apply Hb; by eexists.
  - intros q oq [[<- <-]|[Hne Hq]]%lookup_insert_Some; (eapply refers_kinds; [by eapply kinds_put|]); [|by apply Hr].
    specialize (Hr p o Hp). destruct o, o'; try done; simpl in *; [destruct Hsim as [<- <-]|rewrite <-Hsim]; done.
Qed.

(** A node of a new block is in no list. *)
Lemma fresh_node F owner O h p k : shape Max F owner O h -> O !! p = None -> p ∈ Blocks -> 0 <= k < block_size -> ~ within F (p + k).
Proof.
  intros Hs Hp Hb Hk (hd & l & Hl & Hx). apply elem_of_cons in Hx as [Hx|Hx].
  - assert (Hhd : head_of O hd) by (apply (sh_heads _ _ _ _ _ Hs); by eexists). rewrite <-Hx in Hhd.
    destruct (block_head Max p k Hb) as (? & ? & _); [lia|]. destruct Hhd as [?|[?|(q & o & j & Hq & Hj & Heq)]]; [done|done|].
    pose proof (hand_offset_bounds o j (heads_offsets o j Hj)) as Hjb.
    destruct (block_node Max p q k j) as [-> _]; [done|by eapply object_block|done|unfold block_size in *; lia|done|]. by rewrite Hq in Hp.
  - apply (list_member Max F owner O h Hs hd l _ Hl) in Hx as (q & o & j & Hq & Hj & Heq & _).
    pose proof (hand_offset_bounds o j (members_offsets o j Hj)) as Hjb.
    destruct (block_node Max p q k j) as [-> _]; [done|by eapply object_block|done|unfold block_size in *; lia|done|]. by rewrite Hq in Hp.
Qed.

(** A new object [o] at [p]. *)
Lemma shape_add F F' owner owner' O h h' p o : shape Max F owner O h -> O !! p = None -> p ∈ Blocks -> family h' F' ->
  (forall hd, is_Some (F' !! hd) <-> is_Some (F !! hd) \/ exists k, k ∈ heads o /\ hd = p + k) ->
  (forall hd x, member F' hd x <-> member F hd x \/ exists k, k ∈ members o /\ x = p + k /\ hd = home owner' p o k) ->
  (forall x, is_Some (h !! x) -> is_Some (h' !! x)) -> (forall k, k ∈ offsets o -> is_Some (h' !! (p + k))) ->
  (forall q, q <> p -> owner' !! q = owner !! q) -> refers (<[p := o]> O) owner' p o ->
  shape Max F' owner' (<[p := o]> O) h'.
Proof.
  intros [Hf Hh Hm Hn Hb Hr] Hp Hblock Hf' Hh' Hm' Hnodes Hnew Howner Hrefers.
  assert (Hhome : forall q oq k, q <> p -> home owner' q oq k = home owner q oq k).
  { intros q oq k Hq. destruct oq; try done. simpl. by rewrite Howner. }
  split.
  - done.
  - intros hd. rewrite Hh', Hh. unfold head_of. split.
    + intros [[?|[?|(q & oq & k & Hq & Hk & Hx)]]|(k & Hk & ->)]; [by left|by right; left| |]; right; right.
      * exists q, oq, k. rewrite lookup_insert_ne; [done|]. intros ->. by rewrite Hq in Hp.
      * exists p, o, k. by rewrite lookup_insert_eq.
    + intros [?|[?|(q & oq & k & [[<- <-]|[Hne Hq]]%lookup_insert_Some & Hk & Hx)]]; [left; by left|left; by right; left| |].
      * right. by exists k.
      * left. right. right. by exists q, oq, k.
  - intros hd x. rewrite Hm', Hm. unfold linked_at. split.
    + intros [(q & oq & k & Hq & Hk & Hx & Hhd)|(k & Hk & Hx & Hhd)].
      * assert (Hne : q <> p) by (intros ->; by rewrite Hq in Hp). exists q, oq, k. by rewrite lookup_insert_ne, Hhome.
      * exists p, o, k. by rewrite lookup_insert_eq.
    + intros (q & oq & k & [[<- <-]|[Hne Hq]]%lookup_insert_Some & Hk & Hx & Hhd); [right; by exists k|].
      left. exists q, oq, k. by rewrite <-Hhome.
  - intros q oq k [[<- <-]|[Hne Hq]]%lookup_insert_Some Hk; [by apply Hnew|]. apply Hnodes. by apply (Hn q oq).
  - intros q [oq [[<- <-]|[Hne Hq]]%lookup_insert_Some]; [done|]. apply Hb. by eexists.
  - intros q oq [[<- <-]|[Hne Hq]]%lookup_insert_Some; [done|]. specialize (Hr q oq Hq). apply (refers_kinds O); [by apply kinds_add|].
    destruct oq; try done. simpl in *. by rewrite Howner.
Qed.

(** The object at [p], to which nothing refers, is removed. *)
Lemma shape_remove F F' owner O h h' p o : shape Max F owner O h -> O !! p = Some o -> family h' F' ->
  (forall hd, is_Some (F' !! hd) <-> is_Some (F !! hd) /\ ~ exists k, k ∈ heads o /\ hd = p + k) ->
  (forall hd x, member F' hd x <-> member F hd x /\ ~ exists k, k ∈ members o /\ x = p + k) ->
  (forall q oq k, q <> p -> O !! q = Some oq -> k ∈ offsets oq -> is_Some (h' !! (q + k))) ->
  (forall q oq, q <> p -> O !! q = Some oq -> refers (delete p O) owner q oq) ->
  shape Max F' owner (delete p O) h'.
Proof.
  intros Hs Hp Hf' Hh' Hm' Hnodes Hrefers. pose proof Hs as [Hf Hh Hm Hn Hb Hr]. split.
  - done.
  - intros hd. rewrite Hh', Hh. unfold head_of. split.
    + intros [[?|[?|(q & oq & k & Hq & Hk & Hx)]] Hnot]; [by left|by right; left|]. right. right.
      exists q, oq, k. rewrite lookup_delete_ne; [done|]. intros ->. apply Hnot. simplify_eq. by exists k.
    + intros Hhd. split.
      * destruct Hhd as [?|[?|(q & oq & k & [Hne Hq]%lookup_delete_Some & Hk & Hx)]]; [by left|by right; left|]. right. right. by exists q, oq, k.
      * intros (k & Hk & ->). destruct (head_not_static Max F owner O h Hs p o k Hp Hk) as [? ?].
        destruct Hhd as [?|[?|(q & oq & j & [Hne Hq]%lookup_delete_Some & Hj & Hx)]]; [done|done|].
        apply Hne. destruct (object_node Max F owner O h Hs p q o oq k j) as (-> & _); [done|done|by apply heads_offsets|by apply heads_offsets|done|done].
  - intros hd x. rewrite Hm', Hm. unfold linked_at. split.
    + intros [(q & oq & k & Hq & Hk & Hx & Hhd) Hnot]. exists q, oq, k. rewrite lookup_delete_ne; [done|].
      intros ->. apply Hnot. simplify_eq. by exists k.
    + intros (q & oq & k & [Hne Hq]%lookup_delete_Some & Hk & Hx & Hhd). split; [by exists q, oq, k|].
      intros (j & Hj & ->). apply Hne. destruct (object_node Max F owner O h Hs p q o oq j k) as (-> & _); [done|done|by apply members_offsets|by apply members_offsets|done|done].
  - intros q oq k [Hne Hq]%lookup_delete_Some. by apply Hnodes.
  - intros q [oq [Hne Hq]%lookup_delete_Some]. apply Hb. by eexists.
  - intros q oq [Hne Hq]%lookup_delete_Some. by apply Hrefers.
Qed.

(** The lists are permuted. *)
Lemma shape_move F F' owner O h h' : shape Max F owner O h -> family h' F' ->
  (forall hd, is_Some (F' !! hd) <-> is_Some (F !! hd)) -> (forall hd x, member F' hd x <-> member F hd x) ->
  (forall x, is_Some (h !! x) -> is_Some (h' !! x)) -> shape Max F' owner O h'.
Proof.
  intros [Hf Hh Hm Hn Hb Hr] Hf' Hh' Hm' Hnodes. split; [done| | | |done|done].
  - intros hd. by rewrite Hh', Hh.
  - intros hd x. by rewrite Hm', Hm.
  - intros q oq k Hq Hk. apply Hnodes. by apply (Hn q oq).
Qed.
End Objects.

(** ** Steps of the code on the lists *)

Section Steps.
Context `{Platform} (Verify : bool) (Max : nat) `{!PoolLaws Max}.
Implicit Types (F : lists) (db : Database).

(** Only the store differs. *)
Definition same_data (db db' : Database) : Prop :=
  objects db' = objects db /\ gHandleDatabaseKey db' = gHandleDatabaseKey db /\
  mEfiLocateHandleRequest db' = mEfiLocateHandleRequest db /\ Acquired db' = Acquired db /\ Calls db' = Calls db.

(** Nodes stay where they are. *)
Definition keeps (h h' : store) : Prop := forall x, is_Some (h !! x) -> is_Some (h' !! x).

(** The nodes of a family are in the store. *)
Lemma within_node h F x : family h F -> within F x -> is_Some (h !! x).
Proof. intros Hf Hx. destruct (family_linked h F x Hf Hx) as (n & Hn & _). by exists n. Qed.

Lemma keeps_step h h' F F' e : family h F -> family h' F' -> (forall x, within F x -> within F' x \/ x = e) ->
  same_beyond h h' F e -> is_Some (h' !! e) -> keeps h h'.
Proof.
  intros Hf Hf' Hw Hs He x Hx. destruct (decide (x = e)) as [->|Hne]; [done|].
  destruct (decide (within F x)) as [Hin|Hout]; [|by rewrite (Hs x Hout Hne)].
  destruct (Hw x Hin) as [Hx'|?]; [by eapply within_node|done].
Qed.

Lemma foldr_insert_lookup (c : ptr -> LIST_ENTRY) p (ks : list Z) (h : store) x :
  foldr (fun k (h : store) => <[p + k := c (p + k)]> h) h ks !! x = if decide (x - p ∈ ks) then Some (c x) else h !! x.
Proof.
  induction ks as [|k ks IH]; cbn [foldr]; [by rewrite decide_False by apply not_elem_of_nil|].
  destruct (decide (x = p + k)) as [->|Hne].
  - rewrite lookup_insert_eq, decide_True; [done|]. replace (p + k - p) with k by lia. left.
  - rewrite lookup_insert_ne by done. rewrite IH. apply decide_ext. rewrite elem_of_cons. split; [by right|]. intros [?|?]; [lia|done].
Qed.

Lemma place_links c p o db x :
  links (place c p o db) !! x = if decide (x - p ∈ offsets o) then Some (c x) else links db !! x.
Proof. unfold place, put. simpl. apply foldr_insert_lookup. Qed.

Lemma foldr_delete_lookup p (ks : list Z) (h : store) x :
  foldr (fun k (h : store) => delete (p + k) h) h ks !! x = if decide (x - p ∈ ks) then None else h !! x.
Proof.
  induction ks as [|k ks IH]; cbn [foldr]; [by rewrite decide_False by apply not_elem_of_nil|].
  destruct (decide (x = p + k)) as [->|Hne].
  - rewrite lookup_delete_eq, decide_True; [done|]. replace (p + k - p) with k by lia. left.
  - rewrite lookup_delete_ne by done. rewrite IH. apply decide_ext. rewrite elem_of_cons. split; [by right|]. intros [?|?]; [lia|done].
Qed.

Lemma place_family F c p o db : family (links db) F -> (forall k, k ∈ offsets o -> ~ within F (p + k)) ->
  family (links (place c p o db)) F.
Proof.
  intros Hf Hn. apply (family_frame (links db)); [done|]. intros x Hx. rewrite place_links, decide_False; [done|].
  intros Hk. apply (Hn _ Hk). by replace (p + (x - p)) with x by lia.
Qed.

Lemma initialize_head_spec F db hd : family (links db) F -> is_Some (links db !! hd) -> ~ within F hd -> hd <> NULL ->
  exists h, initialize_head hd db = Ok (set_links h db) /\ family h (<[hd := []]> F) /\ same_beyond (links db) h F hd.
Proof.
  intros Hf He Hn Hnull. destruct (family_new_head (links db) F hd) as (h & Heq & Hf' & Hs); [done..|].
  exists h. split; [|done]. unfold initialize_head. by rewrite Heq.
Qed.

Lemma insert_tail_spec F db hd l e : family (links db) F -> F !! hd = Some l -> capacity Max l -> is_Some (links db !! e) ->
  ~ within F e -> e <> NULL ->
  exists h, insert_tail Verify Max hd e db = Ok (set_links h db) /\ family h (<[hd := l ++ [e]]> F) /\ same_beyond (links db) h F e.
Proof.
  intros Hf Hl Hc He Hn Hnull. destruct (family_insert_tail Verify Max (links db) F hd l e) as (h & Heq & Hf' & Hs); [done..|].
  exists h. split; [|done]. unfold insert_tail. by rewrite Heq.
Qed.

Lemma insert_head_spec F db hd l e : family (links db) F -> F !! hd = Some l -> capacity Max l -> is_Some (links db !! e) ->
  ~ within F e -> e <> NULL ->
  exists h, insert_head Verify Max hd e db = Ok (set_links h db) /\ family h (<[hd := e :: l]> F) /\ same_beyond (links db) h F e.
Proof.
  intros Hf Hl Hc He Hn Hnull. destruct (family_insert_head Verify Max (links db) F hd l e) as (h & Heq & Hf' & Hs); [done..|].
  exists h. split; [|done]. unfold insert_head. by rewrite Heq.
Qed.

Lemma remove_entry_spec F db hd l1 e l2 : family (links db) F -> F !! hd = Some (l1 ++ e :: l2) -> capacity Max (l1 ++ e :: l2) ->
  exists h, remove_entry Max e db = Ok (List.hd hd l2, set_links h db) /\ family h (<[hd := l1 ++ l2]> F) /\
    ~ within (<[hd := l1 ++ l2]> F) e /\ same_beyond (links db) h F e /\ h !! e = links db !! e.
Proof.
  intros Hf Hl Hc. destruct (family_remove Max (links db) F hd l1 e l2) as (h & Heq & Hf' & Hn & Hs & He); [done..|].
  exists h. split; [|done]. unfold remove_entry. by rewrite Heq.
Qed.
End Steps.
