(* ===== verification/HandleCreate.v ===== *)
(** * Handles and protocols: creating objects

    New protocol entries, notifications, open records, handles and interfaces
    are linked where they belong. *)

From S2P Require Import Prelude LinkedList ListFamily Handle HandleInv HandleLookup HandleShape.

Section Create.
Context `{Platform} (Verify : bool) (Max : nat) `{!PoolLaws Max}.
Implicit Types (F : lists) (db : Database).

Lemma Allocate_spec F owner db n p : shape Max F owner (objects db) (links db) -> Allocate n db = Some p ->
  p ∈ Blocks /\ objects db !! p = None /\ p <> NULL /\ (forall k, 0 <= k < block_size -> ~ within F (p + k)).
Proof.
  intros Hs [Hb Hn]%AllocatePool_Blocks. apply not_elem_of_dom in Hn. split; [done|]. split; [done|]. split.
  - intros ->. by pose proof (Blocks_above NULL Hb).
  - intros k Hk. by eapply fresh_node.
Qed.

Lemma not_within_new F hd x : ~ within F x -> x <> hd -> ~ within (<[hd := []]> F) x.
Proof.
  intros Hn Hne [Hx|(hd' & l & _ & Hl & Hx)]%within_insert; [by apply list_elem_of_singleton in Hx|]. apply Hn. by exists hd', l.
Qed.

Lemma within_grow F hd l l' x : F !! hd = Some l -> l ⊆ l' -> within F x -> within (<[hd := l']> F) x.
Proof.
  intros Hl Hsub (hd' & m & Hm & Hx). apply within_insert. destruct (decide (hd' = hd)) as [->|Hne].
  - left. simplify_eq. apply elem_of_cons in Hx as [->|Hx]; [left|]. right. by apply Hsub.
  - right. by exists hd', m.
Qed.

Lemma within_fresh F hd l x : F !! hd = None -> within F x -> within (<[hd := l]> F) x.
Proof. intros Hn (hd' & m & Hm & Hx). apply within_insert. right. exists hd', m. split; [|done]. intros ->. by rewrite Hm in Hn. Qed.

(** The new list of a new object. *)
Lemma new_head_step F db hd : family (links db) F -> is_Some (links db !! hd) -> ~ within F hd -> hd <> NULL ->
  exists h, initialize_head hd db = Ok (set_links h db) /\ family h (<[hd := []]> F) /\ keeps (links db) h /\ F !! hd = None.
Proof.
  intros Hf He Hn Hnull. destruct (initialize_head_spec F db hd) as (h & Heq & Hf' & Hs); [done..|]. exists h. split; [done|]. split; [done|].
  assert (HF : F !! hd = None).
  { destruct (F !! hd) as [l|] eqn:Hl; [|done]. destruct Hn. exists hd, l. split; [done|left]. }
  split; [|done]. eapply (keeps_step _ _ F (<[hd := []]> F) hd); [done..| |done|].
  - intros x Hx. left. by apply within_fresh.
  - apply (within_node h (<[hd := []]> F)); [done|]. apply within_insert. left. left.
Qed.

(** A node is put into a list. *)
Lemma insert_tail_step F db hd l e : family (links db) F -> F !! hd = Some l -> capacity Max l -> is_Some (links db !! e) ->
  ~ within F e -> e <> NULL ->
  exists h, insert_tail Verify Max hd e db = Ok (set_links h db) /\ family h (<[hd := l ++ [e]]> F) /\ keeps (links db) h.
Proof.
  intros Hf Hl Hc He Hn Hnull. destruct (insert_tail_spec Verify Max F db hd l e) as (h & Heq & Hf' & Hs); [done..|].
  exists h. split; [done|]. split; [done|]. eapply (keeps_step _ _ F _ e); [done..| |done|].
  - intros x Hx. left. apply (within_grow F hd l); [done| |done]. intros y Hy. apply elem_of_app. by left.
  - apply (within_node h (<[hd := l ++ [e]]> F)); [done|]. apply within_insert. left. right. apply elem_of_app. right. left.
Qed.

Lemma insert_head_step F db hd l e : family (links db) F -> F !! hd = Some l -> capacity Max l -> is_Some (links db !! e) ->
  ~ within F e -> e <> NULL ->
  exists h, insert_head Verify Max hd e db = Ok (set_links h db) /\ family h (<[hd := e :: l]> F) /\ keeps (links db) h.
Proof.
  intros Hf Hl Hc He Hn Hnull. destruct (insert_head_spec Verify Max F db hd l e) as (h & Heq & Hf' & Hs); [done..|].
  exists h. split; [done|]. split; [done|]. eapply (keeps_step _ _ F _ e); [done..| |done|].
  - intros x Hx. left. apply (within_grow F hd l); [done| |done]. intros y Hy. by right.
  - apply (within_node h (<[hd := e :: l]> F)); [done|]. apply within_insert. left. right. left.
Qed.

Lemma not_within_add F hd l l' x e : F !! hd = Some l -> (forall y, y ∈ l' -> y ∈ l \/ y = e) -> ~ within F x -> x <> e -> ~ within (<[hd := l']> F) x.
Proof.
  intros Hl Hsub Hn Hne [Hx|(hd' & m & _ & Hm & Hx)]%within_insert; [|apply Hn; by exists hd', m].
  apply Hn. exists hd, l. split; [done|]. apply elem_of_cons in Hx as [->|Hx]; [left|]. right. by destruct (Hsub x Hx).
Qed.

(** The block [p] has the links of [o] and is otherwise unused. *)
Record placed F db db' (p : ptr) (o : object) : Prop := {
  pl_family : family (links db') F;
  pl_keeps : keeps (links db) (links db');
  pl_nodes : forall k, k ∈ offsets o -> is_Some (links db' !! (p + k));
  pl_objects : objects db' = <[p := o]> (objects db) }.

Lemma place_placed F owner db c p o : shape Max F owner (objects db) (links db) -> (forall k, k ∈ offsets o -> ~ within F (p + k)) ->
  placed F db (place c p o db) p o.
Proof.
  intros Hs Hn. split.
  - apply place_family; [|done]. apply (sh_family _ _ _ _ _ Hs).
  - intros x Hx. rewrite place_links. destruct (decide _); [by eexists|done].
  - intros k Hk. rewrite place_links, decide_True; [by eexists|]. by replace (p + k - p) with k by lia.
  - done.
Qed.

Lemma keeps_trans h1 h2 h3 : keeps h1 h2 -> keeps h2 h3 -> keeps h1 h3.
Proof. intros H1 H2 x Hx. by apply H2, H1. Qed.

(** ** Protocol entries *)

(** What creating something leaves alone. *)
Record same_globals (db db' : Database) : Prop := {
  sg_key : gHandleDatabaseKey db' = gHandleDatabaseKey db;
  sg_request : mEfiLocateHandleRequest db' = mEfiLocateHandleRequest db;
  sg_acquired : Acquired db' = Acquired db;
  sg_calls : Calls db' = Calls db }.

Lemma same_globals_refl db : same_globals db db.
Proof. done. Qed.

(** The lists of [F] but [hd] are lists of [F']. *)
Definition extends (hd : ptr) F F' : Prop := forall hd' l, hd' <> hd -> F !! hd' = Some l -> F' !! hd' = Some l.

Lemma used_extends F F' O O' hd q : extends hd F F' -> (forall p r, O' !! p = Some (AHandle r) -> exists r', O !! p = Some (AHandle r')) ->
  (forall p, hd <> p + OFFSET_HandleProtocols \/ F' !! hd <> Some []) ->
  (forall p r, O !! p = Some (AHandle r) -> is_Some (F !! (p + OFFSET_HandleProtocols))) ->
  used F O q -> used F' O' q.
Proof.
  intros Hx HO Hhd HF Hu p r Hp Hpq. destruct (HO p r Hp) as [r' Hp']. destruct (decide (p + OFFSET_HandleProtocols = hd)) as [<-|Hne].
  - destruct (Hhd p); done.
  - destruct (HF p r' Hp') as [l Hl]. rewrite (Hx _ _ Hne Hl). intros [= ->]. by apply (Hu p r').
Qed.

(** A new object other than an open record. *)
Definition newcomer (db : Database) F' (p : ptr) (o : object) : Prop :=
  match o with
  | AnEntry e => forall q e', objects db !! q = Some (AnEntry e') -> e' <> e
  | AnInterface r => (forall q s, objects db !! q = Some (AnInterface s) -> Handle s = Handle r -> Protocol s = Protocol r -> False) /\
      F' !! (p + OFFSET_OpenList) = Some [] /\ OpenListCount r = 0
  | ANotify r => Position r = NotifyProtocol r + OFFSET_EntryProtocols
  | AnOpen _ => False
  | _ => True
  end.

Lemma inv_add F F' owner db db' p o : inv Max F owner db -> shape Max F' owner (objects db') (links db') ->
  objects db' = <[p := o]> (objects db) -> objects db !! p = None -> (forall hd x, member F hd x -> member F' hd x) ->
  (forall q r, objects db !! q = Some (AnInterface r) -> F' !! (q + OFFSET_OpenList) = F !! (q + OFFSET_OpenList)) ->
  newcomer db F' p o -> inv Max F' owner db'.
Proof.
  intros [Hs Hg Ho Hc Hpos Hex] Hs' HO Hp Hm Hl Hnew.
  assert (Hcases : forall q oq, objects db' !! q = Some oq -> (q = p /\ oq = o) \/ (q <> p /\ objects db !! q = Some oq)).
  { intros q oq Hq. rewrite HO in Hq. apply lookup_insert_Some in Hq. naive_solver. }
  split; [done|..].
  - intros q1 q2 e [[-> He]|[_ H1]]%Hcases [[-> He']|[_ H2]]%Hcases; [done| | |by eapply Hg].
    + rewrite <-He in Hnew. by destruct (Hnew q2 e H2).
    + rewrite <-He' in Hnew. by destruct (Hnew q1 e H1).
  - intros q1 q2 r s [[-> He]|[_ H1]]%Hcases [[-> He']|[_ H2]]%Hcases Hh Hpr; [done| | |by eapply Ho].
    + rewrite <-He in Hnew. by destruct (proj1 Hnew q2 s H2).
    + rewrite <-He' in Hnew. by destruct (proj1 Hnew q1 r H1).
  - intros q r l [[-> He]|[_ H1]]%Hcases Hq.
    + rewrite <-He in Hnew. destruct Hnew as (_ & Hnil & ->). by simplify_eq.
    + rewrite (Hl q r H1) in Hq. by apply (Hc q).
  - intros q r [[-> He]|[_ H1]]%Hcases; [rewrite <-He in Hnew; by left|]. destruct (Hpos q r H1) as [?|?]; [by left|right; by apply Hm].
  - intros q1 q2 r s i [[-> He]|[_ H1]]%Hcases [[-> He']|[_ H2]]%Hcases; [by rewrite <-He in Hnew|by rewrite <-He in Hnew|by rewrite <-He' in Hnew|].
    by apply Hex.
Qed.

Lemma new_entry_spec F owner db p g : inv Max F owner db -> Allocate sizeof_PROTOCOL_ENTRY db = Some p ->
  (forall q e, objects db !! q = Some (AnEntry e) -> ProtocolID e <> g) ->
  exists db' F', (let! db := initialize_head (p + OFFSET_EntryProtocols) (place Uninitialised p (AnEntry (MkEntry g)) db) in
    let! db := initialize_head (p + OFFSET_Notify) db in
    let! db := insert_tail Verify Max mProtocolDatabase (p + OFFSET_AllEntries) db in Ok (p, db)) = Ok (p, db') /\
    inv Max F' owner db' /\ extends mProtocolDatabase F F' /\ same_globals db db' /\ objects db' = <[p := AnEntry (MkEntry g)]> (objects db) /\
    F' !! (p + OFFSET_EntryProtocols) = Some [] /\ F' !! (p + OFFSET_Notify) = Some [].
Proof.
  intros [Hs Hg Ho Hc Hpos Hex] Hp Hnew. destruct (Allocate_spec _ _ _ _ _ Hs Hp) as (Hb & Hfree & Hnull & Hw).
  set (o := AnEntry (MkEntry g)). assert (Hwo : forall k, k ∈ offsets o -> ~ within F (p + k)).
  { intros k Hk. apply Hw. pose proof (hand_offset_bounds o k Hk). unfold block_size in *. lia. }
  assert (Hnn : forall k, k ∈ offsets o -> p + k <> NULL).
  { intros k Hk. pose proof (hand_offset_bounds o k Hk). apply (block_head Max p k Hb). lia. }
  destruct (place_placed F owner db Uninitialised p o Hs Hwo) as [Hf0 Hk0 Hn0 HO0]. set (db0 := place _ _ _ _) in *.
  assert (H8 : OFFSET_AllEntries ∈ offsets o) by left. assert (H40 : OFFSET_EntryProtocols ∈ offsets o) by (right; left).
  assert (H56 : OFFSET_Notify ∈ offsets o) by (right; right; left).
  destruct (new_head_step F db0 (p + OFFSET_EntryProtocols)) as (h1 & -> & Hf1 & Hk1 & HF1); [by auto..|]. cbn [mbind result_bind].
  set (F1 := <[p + OFFSET_EntryProtocols := []]> F) in *. assert (Hne : p + OFFSET_Notify <> p + OFFSET_EntryProtocols) by (unfold OFFSET_Notify, OFFSET_EntryProtocols; lia).
  destruct (new_head_step F1 (set_links h1 db0) (p + OFFSET_Notify)) as (h2 & -> & Hf2 & Hk2 & HF2); [done|by apply Hk1, Hn0|by apply not_within_new; [apply Hwo|]|by apply Hnn|].
  cbn [mbind result_bind]. set (F2 := <[p + OFFSET_Notify := []]> F1) in *. change (set_links h2 (set_links h1 db0)) with (set_links h2 db0).
  destruct (entry_list Max F owner _ _ Hs) as [l Hl]. assert (Hl2 : F2 !! mProtocolDatabase = Some l).
  { destruct (block_head Max p OFFSET_Notify Hb) as (_ & ? & _); [done|]. destruct (block_head Max p OFFSET_EntryProtocols Hb) as (_ & ? & _); [done|].
    unfold F2, F1. by rewrite !lookup_insert_ne. }
  destruct (insert_tail_step F2 (set_links h2 db0) mProtocolDatabase l (p + OFFSET_AllEntries)) as (h3 & -> & Hf3 & Hk3);
    [done|done|by eapply hand_list_capacity|by apply Hk2, Hk1, Hn0| |by apply Hnn|].
  { apply not_within_new; [apply not_within_new; [by apply Hwo|]|]; unfold OFFSET_AllEntries, OFFSET_Notify, OFFSET_EntryProtocols; lia. }
  cbn [mbind result_bind]. set (F3 := <[mProtocolDatabase := l ++ [p + OFFSET_AllEntries]]> F2) in *.
  assert (HF3 : extends mProtocolDatabase F F3).
  { intros hd l' Hhd Hl'. unfold F3, F2, F1. rewrite !lookup_insert_ne; [done| | |done]; intros <-; [by rewrite Hl' in HF1|].
    unfold F1 in HF2. rewrite lookup_insert_ne in HF2 by done. by rewrite Hl' in HF2. }
  assert (Hmem : forall hd x, member F3 hd x <-> member F hd x \/ (hd = mProtocolDatabase /\ x = p + OFFSET_AllEntries)).
  { intros hd x. unfold F3. rewrite (member_add F2 mProtocolDatabase l []) by (by rewrite app_nil_r). unfold F2, F1. by rewrite !member_new. }
  assert (Hs3 : shape Max F3 owner (<[p := o]> (objects db)) h3).
  { apply (shape_add Max F F3 owner owner (objects db) (links db) h3 p o); try done.
    - intros hd. unfold F3, F2, F1. rewrite !is_Some_insert. cbn [heads o]. setoid_rewrite elem_of_cons. setoid_rewrite list_elem_of_singleton.
      assert (is_Some (F !! mProtocolDatabase)) by by eexists. split; [intros [->|[->|[->|?]]]; eauto|intros [?|(k & [->| ->] & ->)]; auto].
    - intros hd x. rewrite Hmem. cbn [members o home]. setoid_rewrite list_elem_of_singleton. split; [intros [?|[-> ->]]; eauto|intros [?|(k & -> & -> & ->)]; auto].
    - intros x Hx. by apply Hk3, Hk2, Hk1, Hk0.
    - intros k Hk. by apply Hk3, Hk2, Hk1, Hn0. }
  exists (set_links h3 db0), F3. split; [done|]. split; [|split; [done|split; [done|split; [done|]]]].
  - apply (inv_add F F3 owner db _ p o); try done.
    + intros hd x Hx. apply Hmem. by left.
    + intros q r Hq. destruct (head_list Max F owner _ _ Hs q _ OFFSET_OpenList Hq) as [l' Hl']; [left|]. rewrite Hl'. apply HF3; [|done].
      apply (head_not_static Max F owner _ _ Hs q _ OFFSET_OpenList Hq). left.
    + intros q e' Hq ->. by apply (Hnew q _ Hq).
  - destruct (block_head Max p OFFSET_Notify Hb) as (_ & ? & _); [done|]. destruct (block_head Max p OFFSET_EntryProtocols Hb) as (_ & ? & _); [done|].
    unfold F3, F2, F1. rewrite !(lookup_insert_ne _ mProtocolDatabase) by done. rewrite lookup_insert_eq, (lookup_insert_ne _ (p + OFFSET_Notify)), lookup_insert_eq by done. done.
Qed.

(** The result of [CoreFindProtocolEntry (Protocol, TRUE)]: [q] is [NULL], an
    entry that was there, or a new one. *)
Inductive entry_made F db F' db' (g : EFI_GUID) (q : ptr) : Prop :=
| no_entry : q = NULL -> F' = F -> db' = db -> Allocate sizeof_PROTOCOL_ENTRY db = None ->
    (forall p e, objects db !! p = Some (AnEntry e) -> ProtocolID e <> g) -> entry_made F db F' db' g q
| old_entry : q <> NULL -> F' = F -> db' = db -> objects db !! q = Some (AnEntry (MkEntry g)) -> entry_made F db F' db' g q
| new_entry : q <> NULL -> objects db' = <[q := AnEntry (MkEntry g)]> (objects db) -> objects db !! q = None ->
    (forall p e, objects db !! p = Some (AnEntry e) -> ProtocolID e <> g) -> extends mProtocolDatabase F F' ->
    F' !! (q + OFFSET_EntryProtocols) = Some [] -> F' !! (q + OFFSET_Notify) = Some [] -> same_globals db db' ->
    Allocate sizeof_PROTOCOL_ENTRY db = Some q -> entry_made F db F' db' g q.

Lemma CoreFindProtocolEntry_create F owner db g : inv Max F owner db -> Acquired db = true ->
  exists q db' F', CoreFindProtocolEntry Verify Max db g true = Ok (q, db') /\ inv Max F' owner db' /\ entry_made F db F' db' g q.
Proof.
  intros Hinv Ha. pose proof (inv_shape _ _ _ _ Hinv) as Hs. destruct (FindProtocolEntry_search Max F owner db Hs g) as (q & Hq & Heq).
  unfold CoreFindProtocolEntry, ASSERT_LOCKED. rewrite Ha. cbn [ASSERT mbind result_bind]. rewrite Heq. cbn [mbind result_bind].
  destruct Hq as [[-> Hnone]|[Hn Hq]].
  - rewrite Z.eqb_refl. cbn [andb]. destruct (Allocate sizeof_PROTOCOL_ENTRY db) as [p|] eqn:Hp; [|exists NULL, db, F; split; [done|split; [done|by apply no_entry]]].
    destruct (Allocate_spec _ _ _ _ _ Hs Hp) as (_ & Hfree & Hnull & _).
    destruct (new_entry_spec F owner db p g Hinv Hp Hnone) as (db' & F' & -> & Hinv' & Hx & Hsg & HO & H1 & H2).
    exists p, db', F'. split; [done|]. split; [done|]. by apply new_entry.
  - rewrite (proj2 (Z.eqb_neq _ _) Hn). exists q, db, F. split; [done|]. split; [done|]. by apply old_entry.
Qed.

Lemma entry_made_entry F db F' db' g q : entry_made F db F' db' g q -> q <> NULL -> objects db' !! q = Some (AnEntry (MkEntry g)).
Proof. intros [?|? ? -> ?|? -> ? ?]; [done|done|]. intros _. by rewrite lookup_insert_eq. Qed.

(** The blocks in use once there is an entry for [g]. *)
Definition entry_used db (g : EFI_GUID) (used : gset ptr) : Prop :=
  ((exists e, objects db !! e = Some (AnEntry (MkEntry g))) /\ used = dom (objects db)) \/
  ((forall e, objects db !! e <> Some (AnEntry (MkEntry g))) /\
     exists q, Allocate sizeof_PROTOCOL_ENTRY db = Some q /\ used = {[q]} ∪ dom (objects db)).

Lemma entry_made_blocks F db F' db' g q : entry_made F db F' db' g q -> q <> NULL -> entry_used db g (dom (objects db')).
Proof.
  intros [?|_ _ -> Hq|_ -> _ Hn _ _ _ _ Hq]; [done| |]; intros _; [left; split; [by exists q|done]|right].
  split; [intros e He; by apply (Hn e _ He)|]. exists q. split; [done|]. by rewrite dom_insert_L.
Qed.

Lemma entry_made_globals F db F' db' g q : entry_made F db F' db' g q -> same_globals db db'.
Proof. by intros [? ? -> ?|? ? -> ?|? ? ? ?]. Qed.

(** The other objects are as they were. *)
Lemma entry_made_other F db F' db' g q p o : entry_made F db F' db' g q -> (forall e, o <> AnEntry e) ->
  objects db' !! p = Some o <-> objects db !! p = Some o.
Proof.
  intros [? ? -> ?|? ? -> ?|? -> Hq ? ?] Ho; [done|done|]. split.
  - intros [[_ He]|[_ Hp]]%lookup_insert_Some; [|done]. by destruct (Ho (MkEntry g)).
  - intros Hp. rewrite lookup_insert_ne; [done|]. intros ->. by rewrite Hp in Hq.
Qed.

Lemma entry_made_kept F db F' db' g q p o : entry_made F db F' db' g q -> objects db !! p = Some o -> objects db' !! p = Some o.
Proof.
  intros [? ? -> ?|? ? -> ?|? -> Hq ? ?] Hp; [done|done|]. rewrite lookup_insert_ne; [done|]. intros ->. by rewrite Hp in Hq.
Qed.

Lemma entry_made_extends F db F' db' g q : entry_made F db F' db' g q -> extends mProtocolDatabase F F'.
Proof. intros [? -> ? ?|? -> ? ?|]; unfold extends; auto. Qed.

Lemma entry_made_used F owner db F' db' g q p : inv Max F owner db -> entry_made F db F' db' g q -> used F (objects db) p -> used F' (objects db') p.
Proof.
  intros Hinv Hm Hu h r Hh Hne. apply (entry_made_other _ _ _ _ _ _ h _ Hm) in Hh; [|done]. pose proof (inv_shape _ _ _ _ Hinv) as Hs.
  destruct (head_list Max F owner _ _ Hs h _ OFFSET_HandleProtocols Hh) as [l Hl]; [left|].
  rewrite (entry_made_extends _ _ _ _ _ _ Hm _ l); [|by apply (head_not_static Max F owner _ _ Hs h _ OFFSET_HandleProtocols Hh); left|done].
  intros [= ->]. by apply (Hu h r).
Qed.

(** ** Notifications *)

Lemma new_notify_spec F owner db q e ev p : inv Max F owner db -> objects db !! q = Some (AnEntry e) ->
  Allocate sizeof_PROTOCOL_NOTIFY db = Some p ->
  let o := ANotify (MkNotify q ev (q + OFFSET_EntryProtocols)) in
  exists db' F' l, insert_tail Verify Max (q + OFFSET_Notify) (p + OFFSET_NotifyLink) (place Uninitialised p o db) = Ok db' /\
    inv Max F' owner db' /\ same_globals db db' /\ objects db' = <[p := o]> (objects db) /\
    F !! (q + OFFSET_Notify) = Some l /\ F' = <[q + OFFSET_Notify := l ++ [p + OFFSET_NotifyLink]]> F.
Proof.
  intros Hinv Hq Hp o. pose proof (inv_shape _ _ _ _ Hinv) as Hs. destruct (Allocate_spec _ _ _ _ _ Hs Hp) as (Hb & Hfree & Hnull & Hw).
  assert (Hwo : forall k, k ∈ offsets o -> ~ within F (p + k)).
  { intros k Hk. apply Hw. pose proof (hand_offset_bounds o k Hk). unfold block_size in *. lia. }
  destruct (place_placed F owner db Uninitialised p o Hs Hwo) as [Hf0 Hk0 Hn0 HO0]. set (db0 := place _ _ _ _) in *.
  assert (H16 : OFFSET_NotifyLink ∈ offsets o) by left.
  destruct (head_list Max F owner _ _ Hs q _ OFFSET_Notify Hq) as [l Hl]; [right; left|].
  destruct (insert_tail_step F db0 (q + OFFSET_Notify) l (p + OFFSET_NotifyLink)) as (h & -> & Hf & Hk);
    [done|done|by eapply hand_list_capacity|by apply Hn0|by apply Hwo|by apply (block_head Max)|].
  set (F' := <[_ := _]> F) in *. exists (set_links h db0), F', l. split; [done|].
  assert (Hmem : forall hd x, member F' hd x <-> member F hd x \/ (hd = q + OFFSET_Notify /\ x = p + OFFSET_NotifyLink)).
  { intros hd x. unfold F'. by rewrite (member_add F _ l []) by (by rewrite app_nil_r). }
  split; [|done]. apply (inv_add F F' owner db _ p o); try done.
  - apply (shape_add Max F F' owner owner (objects db) (links db) h p o); try done.
    + intros hd. unfold F'. rewrite is_Some_insert. cbn [heads o]. setoid_rewrite elem_of_nil. assert (is_Some (F !! (q + OFFSET_Notify))) by by eexists.
      split; [intros [->|?]; auto|intros [?|(k & [] & _)]; auto].
    + intros hd x. rewrite Hmem. cbn [members o home NotifyProtocol]. setoid_rewrite list_elem_of_singleton.
      split; [intros [?|[-> ->]]; eauto|intros [?|(k & -> & -> & ->)]; auto].
    + intros x Hx. by apply Hk, Hk0.
    + intros k Hk'. by apply Hk, Hn0.
    + exists e. cbn [NotifyProtocol]. rewrite lookup_insert_ne; [done|]. intros ->. congruence.
  - intros hd x Hx. apply Hmem. by left.
  - intros i r Hi. unfold F'. rewrite lookup_insert_ne; [done|]. intros Heq.
    destruct (object_node Max F owner _ _ Hs q i _ _ OFFSET_Notify OFFSET_OpenList Hq Hi) as (_ & ? & _); [right; right; left|right; right; left|done|done].
Qed.

(** ** Open records *)

(** A new record of [r] may join the records of the interface [i]. *)
Definition compatible (db : Database) (owner : gmap ptr ptr) (i : ptr) (r : OPEN_PROTOCOL_DATA) : Prop :=
  forall q s, objects db !! q = Some (AnOpen s) -> owner !! q = Some i ->
    (excludes r = true -> excludes s || by_driver s = false) /\ (excludes s = true -> excludes r || by_driver r = false).

Lemma inv_put_interface F owner db i r r' : inv Max F owner db -> objects db !! i = Some (AnInterface r) ->
  Handle r = Handle r' -> Protocol r = Protocol r' ->
  (forall l, F !! (i + OFFSET_OpenList) = Some l -> OpenListCount r' = Z.of_nat (length l)) -> inv Max F owner (put i (AnInterface r') db).
Proof.
  intros [Hs Hg Ho Hc Hpos Hex] Hi Hh Hp Hn. set (o := AnInterface _).
  assert (Hcases : forall q oq, <[i := o]> (objects db) !! q = Some oq -> (q = i /\ oq = o) \/ (q <> i /\ objects db !! q = Some oq)).
  { intros q oq Hq. apply lookup_insert_Some in Hq. naive_solver. }
  assert (Hint : forall q s, <[i := o]> (objects db) !! q = Some (AnInterface s) ->
    exists s', objects db !! q = Some (AnInterface s') /\ Handle s = Handle s' /\ Protocol s = Protocol s').
  { intros q s [[-> [= ->]]|[_ Hq]]%Hcases; [by exists r|by exists s]. }
  split; cbn [objects links put set_objects].
  - by apply (shape_put Max F owner _ _ i (AnInterface r)).
  - intros q1 q2 e [[-> He]|[_ H1]]%Hcases [[-> He']|[_ H2]]%Hcases; [done..|by apply (Hg q1 q2 e)].
  - intros q1 q2 s1 s2 (s1' & H1 & Hh1 & Hp1)%Hint (s2' & H2 & Hh2 & Hp2)%Hint Hh' Hp'. apply (Ho q1 q2 s1' s2'); congruence.
  - intros q s l [[-> [= ->]]|[_ Hq]]%Hcases; [apply Hn|by apply (Hc q)].
  - intros q s [[-> He]|[_ Hq]]%Hcases; [done|by apply (Hpos q)].
  - intros q1 q2 s1 s2 j [[-> He]|[_ H1]]%Hcases [[-> He']|[_ H2]]%Hcases; [done..|by apply (Hex q1 q2 s1 s2 j)].
Qed.

Lemma count_small F owner db hd l : shape Max F owner (objects db) (links db) -> F !! hd = Some l -> Z.of_nat (length l) < 2 ^ 62.
Proof. intros Hs Hl. pose proof (list_length Max F owner _ _ Hs hd l Hl). pose proof Blocks_count. lia. Qed.

Lemma new_open_spec F owner db i r rec p : inv Max F owner db -> objects db !! i = Some (AnInterface r) ->
  Allocate sizeof_OPEN_PROTOCOL_DATA db = Some p -> compatible db owner i rec ->
  exists l db', F !! (i + OFFSET_OpenList) = Some l /\
    (let! db := insert_tail Verify Max (i + OFFSET_OpenList) (p + OFFSET_OpenLink) (place Uninitialised p (AnOpen rec) db) in
     let! r := interface_at db i in
     Ok (EFI_SUCCESS, put i (AnInterface (set_OpenListCount (u64 (OpenListCount r + 1)) r)) db)) = Ok (EFI_SUCCESS, db') /\
    inv Max (<[i + OFFSET_OpenList := l ++ [p + OFFSET_OpenLink]]> F) (<[p := i]> owner) db' /\ same_globals db db' /\
    objects db' = <[i := AnInterface (set_OpenListCount (OpenListCount r + 1) r)]> (<[p := AnOpen rec]> (objects db)) /\
    objects db !! p = None.
Proof.
  intros Hinv Hi Hp Hcomp. pose proof Hinv as [Hs Hg Ho Hc Hpos Hex]. destruct (Allocate_spec _ _ _ _ _ Hs Hp) as (Hb & Hfree & Hnull & Hw).
  set (o := AnOpen rec). assert (Hwo : forall k, k ∈ offsets o -> ~ within F (p + k)).
  { intros k Hk. apply Hw. pose proof (hand_offset_bounds o k Hk). unfold block_size in *. lia. }
  destruct (place_placed F owner db Uninitialised p o Hs Hwo) as [Hf0 Hk0 Hn0 HO0]. set (db0 := place _ _ _ _) in *.
  assert (H8 : OFFSET_OpenLink ∈ offsets o) by left.
  destruct (head_list Max F owner _ _ Hs i _ OFFSET_OpenList Hi) as [l Hl]; [left|]. exists l.
  destruct (insert_tail_step F db0 (i + OFFSET_OpenList) l (p + OFFSET_OpenLink)) as (h & -> & Hf & Hk);
    [done|done|by eapply hand_list_capacity|by apply Hn0|by apply Hwo|by apply (block_head Max)|].
  set (F' := <[_ := _]> F) in *. assert (Hpi : p <> i) by (intros ->; congruence).
  assert (Hi0 : objects (set_links h db0) !! i = Some (AnInterface r)) by (cbn [set_links objects]; rewrite HO0; by rewrite lookup_insert_ne).
  cbn [mbind result_bind]. rewrite (interface_at_Some _ _ _ Hi0). cbn [mbind result_bind].
  assert (Hcount : u64 (OpenListCount r + 1) = OpenListCount r + 1).
  { rewrite (Hc i r l Hi Hl). pose proof (count_small F owner db _ l Hs Hl). apply wrap_small. lia. }
  rewrite Hcount. eexists. split; [done|]. split; [done|]. split; [|split; [done|split; [|done]]]; [|cbn [put set_objects objects set_links]; by rewrite HO0].
  assert (Hmem : forall hd x, member F' hd x <-> member F hd x \/ (hd = i + OFFSET_OpenList /\ x = p + OFFSET_OpenLink)).
  { intros hd x. unfold F'. by rewrite (member_add F _ l []) by (by rewrite app_nil_r). }
  assert (Hs' : shape Max F' (<[p := i]> owner) (<[p := o]> (objects db)) h).
  { apply (shape_add Max F F' owner (<[p := i]> owner) (objects db) (links db) h p o); try done.
    - intros hd. unfold F'. rewrite is_Some_insert. cbn [heads o]. setoid_rewrite elem_of_nil. assert (is_Some (F !! (i + OFFSET_OpenList))) by by eexists.
      split; [intros [->|?]; auto|intros [?|(k & [] & _)]; auto].
    - intros hd x. rewrite Hmem. cbn [members o home]. rewrite lookup_insert_eq. cbn [default from_option]. setoid_rewrite list_elem_of_singleton.
      split; [intros [?|[-> ->]]; eauto|intros [?|(k & -> & -> & ->)]; auto].
    - intros x Hx. by apply Hk, Hk0.
    - intros k Hk'. by apply Hk, Hn0.
    - intros q Hq. by rewrite lookup_insert_ne.
    - exists i. rewrite lookup_insert_eq. split; [done|]. exists r. by rewrite lookup_insert_ne. }
  set (oi := AnInterface _). assert (Hi' : <[p := o]> (objects db) !! i = Some (AnInterface r)) by (by rewrite lookup_insert_ne).
  assert (Hcases : forall q oq, <[i := oi]> (<[p := o]> (objects db)) !! q = Some oq ->
    (q = i /\ oq = oi) \/ (q <> i /\ q = p /\ oq = o) \/ (q <> i /\ q <> p /\ objects db !! q = Some oq)).
  { intros q oq [[-> ->]|[Hne [[-> ->]|[Hne' Hq]]%lookup_insert_Some]]%lookup_insert_Some; auto. }
  assert (Hint : forall q s, <[i := oi]> (<[p := o]> (objects db)) !! q = Some (AnInterface s) ->
    exists s', objects db !! q = Some (AnInterface s') /\ Handle s = Handle s' /\ Protocol s = Protocol s').
  { intros q s [[-> [= ->]]|[(_ & -> & He)|(_ & _ & Hq)]]%Hcases; [by exists r|done|by exists s]. }
  assert (Hopen : forall q s, <[i := oi]> (<[p := o]> (objects db)) !! q = Some (AnOpen s) ->
    (q = p /\ s = rec) \/ (q <> p /\ objects db !! q = Some (AnOpen s))).
  { intros q s [[-> He]|[(_ & -> & [= ->])|(_ & ? & Hq)]]%Hcases; auto. done. }
  split; cbn [put objects links set_objects set_links]; rewrite ?HO0.
  - by apply (shape_put Max F' _ _ _ i (AnInterface r)).
  - intros q1 q2 e [[-> He]|[(_ & -> & He)|(_ & _ & H1)]]%Hcases [[-> He']|[(_ & -> & He')|(_ & _ & H2)]]%Hcases; [done..|by apply (Hg q1 q2 e)].
  - intros q1 q2 s1 s2 (s1' & H1 & Hh1 & Hp1)%Hint (s2' & H2 & Hh2 & Hp2)%Hint Hh Hp'. apply (Ho q1 q2 s1' s2'); congruence.
  - intros q s l' [[-> [= ->]]|[(_ & -> & He)|(Hqi & _ & Hq)]]%Hcases Hl'; [|done|].
    + unfold F' in Hl'. rewrite lookup_insert_eq in Hl'. injection Hl' as <-. cbn [OpenListCount set_OpenListCount].
      rewrite (Hc i r l Hi Hl), length_app. simpl. lia.
    + unfold F' in Hl'. rewrite lookup_insert_ne in Hl'; [by apply (Hc q)|]. unfold OFFSET_OpenList. lia.
  - intros q s [[-> He]|[(_ & -> & He)|(_ & _ & Hq)]]%Hcases; [done..|]. destruct (Hpos q s Hq) as [?|?]; [by left|]. right. apply Hmem. by left.
  - intros q1 q2 s1 s2 j [[-> ->]|[Hn1 H1]]%Hopen [[-> ->]|[Hn2 H2]]%Hopen Ho1 Ho2 He1 He2; [done| | |].
    + rewrite lookup_insert_eq in Ho1. injection Ho1 as <-. rewrite lookup_insert_ne in Ho2 by done.
      destruct (Hcomp q2 s2 H2 Ho2) as [Hx _]. by rewrite (Hx He1) in He2.
    + rewrite lookup_insert_eq in Ho2. injection Ho2 as <-. rewrite lookup_insert_ne in Ho1 by done.
      destruct (Hcomp q1 s1 H1 Ho1) as [_ Hx]. by rewrite (Hx He1) in He2.
    + rewrite lookup_insert_ne in Ho1, Ho2 by done. by apply (Hex q1 q2 s1 s2 j).
Qed.

(** ** Handles *)

Lemma NewKey_spec db p r : objects db !! p = Some (AHandle r) ->
  NewKey p db = Ok (put p (AHandle (MkHandle (LocateRequest r) (u64 (gHandleDatabaseKey db + 1)))) (set_key (u64 (gHandleDatabaseKey db + 1)) db)).
Proof. intros Hp. unfold NewKey. by rewrite (handle_at_Some (set_key _ db) p r Hp). Qed.

Lemma new_handle_spec F owner db p : inv Max F owner db -> Allocate sizeof_IHANDLE db = Some p ->
  let r := MkHandle 0 (u64 (gHandleDatabaseKey db + 1)) in
  exists db' F', (let! db := initialize_head (p + OFFSET_HandleProtocols) (place zeroed p (AHandle (MkHandle 0 0)) db) in
    let! db := NewKey p db in
    let! db := insert_tail Verify Max gHandleList (p + OFFSET_AllHandles) db in Ok (EFI_SUCCESS, p, db)) = Ok (EFI_SUCCESS, p, db') /\
    inv Max F' owner db' /\ extends gHandleList F F' /\ objects db' = <[p := AHandle r]> (objects db) /\ objects db !! p = None /\ p <> NULL /\
    F' !! (p + OFFSET_HandleProtocols) = Some [] /\
    mEfiLocateHandleRequest db' = mEfiLocateHandleRequest db /\ Acquired db' = Acquired db /\ Calls db' = Calls db.
Proof.
  intros Hinv Hp r. pose proof (inv_shape _ _ _ _ Hinv) as Hs. destruct (Allocate_spec _ _ _ _ _ Hs Hp) as (Hb & Hfree & Hnull & Hw).
  set (o := AHandle (MkHandle 0 0)). assert (Hwo : forall k, k ∈ offsets o -> ~ within F (p + k)).
  { intros k Hk. apply Hw. pose proof (hand_offset_bounds o k Hk). unfold block_size in *. lia. }
  assert (Hnn : forall k, k ∈ offsets o -> p + k <> NULL).
  { intros k Hk. pose proof (hand_offset_bounds o k Hk). apply (block_head Max p k Hb). lia. }
  destruct (place_placed F owner db zeroed p o Hs Hwo) as [Hf0 Hk0 Hn0 HO0]. set (db0 := place _ _ _ _) in *.
  assert (H8 : OFFSET_AllHandles ∈ offsets o) by left. assert (H24 : OFFSET_HandleProtocols ∈ offsets o) by (right; left).
  destruct (new_head_step F db0 (p + OFFSET_HandleProtocols)) as (h1 & -> & Hf1 & Hk1 & HF1); [by auto..|]. cbn [mbind result_bind].
  set (F1 := <[p + OFFSET_HandleProtocols := []]> F) in *.
  rewrite (NewKey_spec (set_links h1 db0) p (MkHandle 0 0)) by (cbn [set_links objects]; by rewrite HO0, lookup_insert_eq). cbn [mbind result_bind].
  set (db2 := put _ _ _). assert (HO2 : objects db2 = <[p := AHandle r]> (objects db)).
  { unfold db2. cbn [put set_objects objects set_key set_links]. by rewrite HO0, insert_insert_eq. }
  assert (Hh2 : links db2 = h1) by done.
  destruct (handle_list Max F owner _ _ Hs) as [l Hl]. assert (Hl1 : F1 !! gHandleList = Some l).
  { destruct (block_head Max p OFFSET_HandleProtocols Hb) as (? & _ & _); [done|]. unfold F1. by rewrite !lookup_insert_ne. }
  destruct (insert_tail_step F1 db2 gHandleList l (p + OFFSET_AllHandles)) as (h & -> & Hf & Hk);
    [done|done|by eapply hand_list_capacity|rewrite Hh2; by apply Hk1, Hn0| |by apply Hnn|].
  { apply not_within_new; [by apply Hwo|]. unfold OFFSET_AllHandles, OFFSET_HandleProtocols. lia. }
  cbn [mbind result_bind]. set (F2 := <[gHandleList := _]> F1) in *. rewrite Hh2 in Hk.
  assert (HF2 : extends gHandleList F F2).
  { intros hd l' Hhd Hl'. unfold F2, F1. rewrite !lookup_insert_ne; [done| |done]. intros <-. by rewrite Hl' in HF1. }
  assert (Hmem : forall hd x, member F2 hd x <-> member F hd x \/ (hd = gHandleList /\ x = p + OFFSET_AllHandles)).
  { intros hd x. unfold F2. rewrite (member_add F1 gHandleList l []) by (by rewrite app_nil_r). unfold F1. by rewrite !member_new. }
  assert (Hs2 : shape Max F2 owner (<[p := AHandle r]> (objects db)) h).
  { apply (shape_add Max F F2 owner owner (objects db) (links db) h p (AHandle r)); try done.
    - intros hd. unfold F2, F1. rewrite !is_Some_insert. cbn [heads]. setoid_rewrite list_elem_of_singleton.
      assert (is_Some (F !! gHandleList)) by by eexists. split; [intros [->|[->|?]]; eauto|intros [?|(k & -> & ->)]; auto].
    - intros hd x. rewrite Hmem. cbn [members home]. setoid_rewrite list_elem_of_singleton. split; [intros [?|[-> ->]]; eauto|intros [?|(k & -> & -> & ->)]; auto].
    - intros x Hx. by apply Hk, Hk1, Hk0.
    - intros k Hk'. by apply Hk, Hk1, Hn0. }
  exists (set_links h db2), F2. split; [done|]. split; [|split; [done|split; [done|split; [done|split; [done|split; [|done]]]]]].
  - apply (inv_add F F2 owner db _ p (AHandle r)); try done; [cbn [set_links objects links]; by rewrite HO2| |].
    + intros hd x Hx. apply Hmem. by left.
    + intros q s Hq. destruct (head_list Max F owner _ _ Hs q _ OFFSET_OpenList Hq) as [l' Hl']; [left|]. rewrite Hl'. apply HF2; [|done].
      apply (head_not_static Max F owner _ _ Hs q _ OFFSET_OpenList Hq). left.
  - destruct (block_head Max p OFFSET_HandleProtocols Hb) as (? & _ & _); [done|]. unfold F2, F1. rewrite lookup_insert_ne by done. by rewrite lookup_insert_eq.
Qed.

(** ** Interfaces *)

Lemma shape_blank F owner O h p : shape Max F owner O h -> O !! p = Some ABlank -> shape Max F owner (delete p O) h.
Proof.
  intros Hs Hp. pose proof Hs as [Hf Hh Hm Hn Hb Hr]. apply (shape_remove Max F F owner O h h p ABlank); try done.
  - intros hd. cbn [heads]. setoid_rewrite elem_of_nil. naive_solver.
  - intros hd x. cbn [members]. setoid_rewrite elem_of_nil. naive_solver.
  - intros q oq k _ Hq Hk. by apply (Hn q oq).
  - intros q oq Hq Hoq. specialize (Hr q oq Hoq). assert (Hne : forall q' o', O !! q' = Some o' -> o' <> ABlank -> delete p O !! q' = Some o').
    { intros q' o' Hq' Ho'. rewrite lookup_delete_ne; [done|]. intros <-. by simplify_eq. }
    destruct oq; try done; unfold refers, is_handle, is_entry, is_interface in *.
    + destruct Hr as [[rh Hrh] [re Hre]]. split; [exists rh|exists re]; by apply Hne.
    + destruct Hr as (i & Hi & [ri Hri]). exists i. split; [done|]. exists ri. by apply Hne.
    + destruct Hr as [re Hre]. exists re. by apply Hne.
Qed.

Lemma inv_delete F owner db h O p : inv Max F owner db -> shape Max F owner O h -> O = delete p (objects db) ->
  inv Max F owner (set_objects O (set_links h db)).
Proof.
  intros [Hs Hg Ho Hc Hpos Hex] Hs' ->. split; cbn [set_objects objects set_links links]; [done|..].
  - intros q1 q2 e [_ H1]%lookup_delete_Some [_ H2]%lookup_delete_Some. by apply (Hg q1 q2 e).
  - intros q1 q2 r s [_ H1]%lookup_delete_Some [_ H2]%lookup_delete_Some. by apply (Ho q1 q2 r s).
  - intros q r l [_ H1]%lookup_delete_Some. by apply (Hc q).
  - intros q r [_ H1]%lookup_delete_Some. by apply (Hpos q).
  - intros q1 q2 r s i [_ H1]%lookup_delete_Some [_ H2]%lookup_delete_Some. by apply (Hex q1 q2 r s i).
Qed.

Lemma InstallInterface_spec F owner db p h rh e re v : inv Max F owner db -> objects db !! p = Some ABlank ->
  objects db !! h = Some (AHandle rh) -> objects db !! e = Some (AnEntry re) ->
  (forall q s, objects db !! q = Some (AnInterface s) -> Handle s = h -> Protocol s = e -> False) ->
  exists db' lh le, F !! (h + OFFSET_HandleProtocols) = Some lh /\ F !! (e + OFFSET_EntryProtocols) = Some le /\
    InstallInterface Verify Max h e p v db = Ok db' /\
    inv Max (<[e + OFFSET_EntryProtocols := le ++ [p + OFFSET_ByProtocol]]>
              (<[h + OFFSET_HandleProtocols := p + OFFSET_InterfaceLink :: lh]> (<[p + OFFSET_OpenList := []]> F))) owner db' /\
    same_globals db db' /\ objects db' = <[p := AnInterface (MkInterface h e v 0)]> (objects db).
Proof.
  intros Hinv Hp Hh He Honce. pose proof (inv_shape _ _ _ _ Hinv) as Hs. set (O0 := delete p (objects db)).
  pose proof (shape_blank F owner _ _ p Hs Hp) as Hs0. fold O0 in Hs0.
  pose proof (inv_delete F owner db (links db) O0 p Hinv Hs0 eq_refl) as Hinv0. set (db0 := set_objects O0 (set_links (links db) db)) in *.
  assert (Hfree : O0 !! p = None) by apply lookup_delete_eq. pose proof (object_block Max F owner _ _ Hs p _ Hp) as Hb.
  set (o := AnInterface (MkInterface h e v 0)). assert (Hwo : forall k, k ∈ offsets o -> ~ within F (p + k)).
  { intros k Hk. eapply fresh_node; [exact Hs0|done|done|]. pose proof (hand_offset_bounds o k Hk). unfold block_size in *. lia. }
  assert (Hnn : forall k, k ∈ offsets o -> p + k <> NULL).
  { intros k Hk. pose proof (hand_offset_bounds o k Hk). apply (block_head Max p k Hb). lia. }
  destruct (place_placed F owner db zeroed p o Hs Hwo) as [Hf1 Hk1 Hn1 HO1]. unfold InstallInterface. cbv zeta. fold o. set (db1 := place _ _ _ _) in *.
  assert (H8 : OFFSET_InterfaceLink ∈ offsets o) by left. assert (H32 : OFFSET_ByProtocol ∈ offsets o) by (right; left).
  assert (H64 : OFFSET_OpenList ∈ offsets o) by (right; right; left).
  destruct (head_list Max F owner _ _ Hs h _ OFFSET_HandleProtocols Hh) as [lh Hlh]; [left|].
  destruct (head_list Max F owner _ _ Hs e _ OFFSET_EntryProtocols He) as [le Hle]; [left|]. 
  assert (Hph : p + OFFSET_OpenList <> h + OFFSET_HandleProtocols).
  { intros Heq. apply (Hwo OFFSET_OpenList H64). rewrite Heq. exists (h + OFFSET_HandleProtocols), lh. split; [done|left]. }
  assert (Hpe : p + OFFSET_OpenList <> e + OFFSET_EntryProtocols).
  { intros Heq. apply (Hwo OFFSET_OpenList H64). rewrite Heq. exists (e + OFFSET_EntryProtocols), le. split; [done|left]. }
  assert (Hhe : h + OFFSET_HandleProtocols <> e + OFFSET_EntryProtocols).
  { intros Heq. destruct (object_node Max F owner _ _ Hs h e _ _ OFFSET_HandleProtocols OFFSET_EntryProtocols Hh He) as (_ & ? & _); [right; left|right; left|done|done]. }
  destruct (new_head_step F db1 (p + OFFSET_OpenList)) as (h2 & -> & Hf2 & Hk2 & HF2); [by auto..|]. cbn [mbind result_bind].
  set (F2 := <[p + OFFSET_OpenList := []]> F) in *.
  destruct (insert_head_step F2 (set_links h2 db1) (h + OFFSET_HandleProtocols) lh (p + OFFSET_InterfaceLink)) as (h3 & -> & Hf3 & Hk3);
    [done|unfold F2; by rewrite lookup_insert_ne|by eapply hand_list_capacity|by apply Hk2, Hn1|apply not_within_new; [by apply Hwo|unfold OFFSET_InterfaceLink, OFFSET_OpenList; lia]|by apply Hnn|].
  cbn [mbind result_bind]. set (F3 := <[h + OFFSET_HandleProtocols := _]> F2) in *.
  destruct (insert_tail_step F3 (set_links h3 (set_links h2 db1)) (e + OFFSET_EntryProtocols) le (p + OFFSET_ByProtocol)) as (h4 & -> & Hf4 & Hk4);
    [done|unfold F3, F2; by rewrite !lookup_insert_ne|by eapply hand_list_capacity|by apply Hk3, Hk2, Hn1| |by apply Hnn|].
  { apply (not_within_add F2 (h + OFFSET_HandleProtocols) lh _ _ (p + OFFSET_InterfaceLink)); [unfold F2; by rewrite lookup_insert_ne| | |].
    - intros y [->|Hy]%elem_of_cons; auto.
    - apply not_within_new; [by apply Hwo|]. unfold OFFSET_ByProtocol, OFFSET_OpenList. lia.
    - unfold OFFSET_ByProtocol, OFFSET_InterfaceLink. lia. }
  set (F4 := <[e + OFFSET_EntryProtocols := _]> F3) in *. set (db4 := set_links h4 _). exists db4, lh, le. split; [done|]. split; [done|]. split; [done|].
assert (HO4 : objects db4 = <[p := o]> O0) by (cbn [db4 set_links objects]; rewrite HO1; unfold O0; by rewrite insert_delete_eq).
  assert (Hmem : forall hd x, member F4 hd x <-> member F hd x \/ (hd = h + OFFSET_HandleProtocols /\ x = p + OFFSET_InterfaceLink) \/
                                                (hd = e + OFFSET_EntryProtocols /\ x = p + OFFSET_ByProtocol)).
  { intros hd x. unfold F4. rewrite (member_add F3 _ le []) by (rewrite app_nil_r; unfold F3, F2; by rewrite !lookup_insert_ne).
    unfold F3. rewrite (member_add_head F2 _ lh) by (unfold F2; by rewrite lookup_insert_ne). unfold F2. rewrite member_new by done. tauto. }
  assert (Hs4 : shape Max F4 owner (<[p := o]> O0) h4).
  { apply (shape_add Max F F4 owner owner O0 (links db) h4 p o); try done.
    - intros hd. unfold F4, F3, F2. rewrite !is_Some_insert. cbn [heads o]. setoid_rewrite list_elem_of_singleton.
      assert (is_Some (F !! (h + OFFSET_HandleProtocols))) by by eexists. assert (is_Some (F !! (e + OFFSET_EntryProtocols))) by by eexists.
      split; [intros [->|[->|[->|?]]]; eauto|intros [?|(k & -> & ->)]; auto].
    - intros hd x. rewrite Hmem. cbn [members o home Handle Protocol]. setoid_rewrite elem_of_cons. setoid_rewrite list_elem_of_singleton.
      split; [intros [?|[[-> ->]|[-> ->]]]; [by left|right; eexists; split; [by left|done]|right; eexists; split; [by right|done]]|].
      intros [?|(k & [->| ->] & -> & ->)]; auto.
    - intros x Hx. by apply Hk4, Hk3, Hk2, Hk1.
    - intros k Hk. by apply Hk4, Hk3, Hk2, Hn1.
    - split; [exists rh|exists re]; cbn [Handle Protocol o]; unfold O0; rewrite insert_delete_eq, lookup_insert_ne; try done; intros ->; congruence. }
  split; [|split; [done|by rewrite HO4; unfold O0; rewrite insert_delete_eq]].
  apply (inv_add F F4 owner db0 db4 p o); [done|by rewrite HO4|done|done|intros hd x Hx; apply Hmem; by left| |]; cbn [db0 set_objects objects]; unfold O0.
  - intros q r [Hqp Hq]%lookup_delete_Some. unfold F4, F3, F2.
    rewrite !lookup_insert_ne; [done| | |]; intros Heq.
    + unfold OFFSET_OpenList in Heq. lia.
    + destruct (object_node Max F owner _ _ Hs h q _ _ OFFSET_HandleProtocols OFFSET_OpenList Hh Hq) as (_ & ? & _); [right; left|right; right; left|done|done].
    + destruct (object_node Max F owner _ _ Hs e q _ _ OFFSET_EntryProtocols OFFSET_OpenList He Hq) as (_ & ? & _); [right; left|right; right; left|done|done].
  - split; [|split; [|done]]; cbn [db0 set_objects objects]; unfold O0.
    + intros q s [_ Hq]%lookup_delete_Some. by apply (Honce q s).
    + unfold F4, F3, F2. rewrite !(lookup_insert_ne _ _ (p + OFFSET_OpenList)) by done. by rewrite lookup_insert_eq.
Qed.
End Create.
