(* ===== verification/HandleRemove.v ===== *)
(** * Handles and protocols: removing objects

    Open records, notifications, interfaces and handles are taken off their
    lists and freed. *)

From S2P Require Import Prelude LinkedList ListFamily Handle HandleInv HandleLookup HandleShape HandleCreate.

Section Remove.
Context `{Platform} (Verify : bool) (Max : nat) `{!PoolLaws Max}.
Implicit Types (F : lists) (db : Database).

(** ** Steps *)

(** A node is taken off a list. *)
Lemma remove_step F db hd l1 e l2 : family (links db) F -> F !! hd = Some (l1 ++ e :: l2) -> capacity Max (l1 ++ e :: l2) ->
  exists h, remove_entry Max e db = Ok (List.hd hd l2, set_links h db) /\ family h (<[hd := l1 ++ l2]> F) /\
    ~ within (<[hd := l1 ++ l2]> F) e /\ keeps (links db) h.
Proof.
  intros Hf Hl Hc. destruct (remove_entry_spec Max F db hd l1 e l2) as (h & Heq & Hf' & Hn & Hs & He); [done..|].
  exists h. split; [done|]. split; [done|]. split; [done|]. eapply (keeps_step _ _ F _ e); [done..| |done|].
  - intros x (hd' & m & Hm & Hx). destruct (decide (x = e)) as [->|Hne]; [by right|]. left. apply within_insert.
    destruct (decide (hd' = hd)) as [->|Hhd]; [left|right; by exists hd', m]. simplify_eq. rewrite elem_of_cons, elem_of_app in Hx |- *.
    rewrite elem_of_cons in Hx. tauto.
  - rewrite He. apply (within_node (links db) F); [done|]. exists hd, (l1 ++ e :: l2). split; [done|]. right. apply elem_of_app. right. left.
Qed.

Lemma within_shrink F hd l1 e l2 x : F !! hd = Some (l1 ++ e :: l2) -> within (<[hd := l1 ++ l2]> F) x -> within F x.
Proof.
  intros Hl [Hx|(hd' & m & _ & Hm & Hx)]%within_insert; [|by exists hd', m]. exists hd, (l1 ++ e :: l2). split; [done|].
  rewrite elem_of_cons, elem_of_app in Hx |- *. rewrite elem_of_cons. tauto.
Qed.

(** The lists do not have the links of [o] at [p]. *)
Definition apart F (p : ptr) (o : object) : Prop := forall k, k ∈ offsets o -> ~ within F (p + k).

Lemma FreePool_spec F db p o : objects db !! p = Some o -> family (links db) F -> apart F p o ->
  exists db', FreePool p db = Ok db' /\ family (links db') F /\ objects db' = delete p (objects db) /\ same_globals db db' /\
    forall x, x - p ∉ offsets o -> is_Some (links db !! x) -> is_Some (links db' !! x).
Proof.
  intros Hp Hf Hap. unfold FreePool. rewrite Hp. cbn [deref mbind result_bind]. eexists. split; [done|].
  cbn [set_objects set_links links objects]. split; [|split; [done|split; [done|]]].
  - apply (family_frame (links db)); [done|]. intros x Hx. rewrite foldr_delete_lookup, decide_False; [done|].
    intros Hk. apply (Hap _ Hk). by replace (p + (x - p)) with x by lia.
  - intros x Hx Hl. by rewrite foldr_delete_lookup, decide_False.
Qed.

(** Nothing refers to open records and notifications. *)
Lemma refers_leaf O owner p o x ox : O !! p = Some o -> match o with AnOpen _ | ANotify _ => True | _ => False end ->
  refers O owner x ox -> refers (delete p O) owner x ox.
Proof.
  intros Hp Ho Hr. assert (Hother : forall y oy, O !! y = Some oy -> match oy with AnOpen _ | ANotify _ => False | _ => True end -> delete p O !! y = Some oy).
  { intros y oy Hy Hoy. rewrite lookup_delete_ne; [done|]. intros <-. rewrite Hp in Hy. injection Hy as <-. by destruct o. }
  destruct ox; try done; unfold refers, is_handle, is_entry, is_interface in *.
  - destruct Hr as [[a Ha] [b Hb]]. split; [exists a|exists b]; by apply Hother.
  - destruct Hr as (j & Hj & [a Ha]). exists j. split; [done|]. exists a. by apply Hother.
  - destruct Hr as [b Hb]. exists b. by apply Hother.
Qed.

(** ** Open records *)

Lemma RemoveOpen_spec F owner db q r i ri l1 l2 : inv Max F owner db -> objects db !! q = Some (AnOpen r) ->
  objects db !! i = Some (AnInterface ri) -> F !! (i + OFFSET_OpenList) = Some (l1 ++ (q + OFFSET_OpenLink) :: l2) ->
  exists db', RemoveOpen Max i q db = Ok (List.hd (i + OFFSET_OpenList) l2, db') /\
    inv Max (<[i + OFFSET_OpenList := l1 ++ l2]> F) owner db' /\ same_globals db db' /\
    objects db' = delete q (<[i := AnInterface (set_OpenListCount (OpenListCount ri - 1) ri)]> (objects db)).
Proof.
  intros Hinv Hq Hi Hl. pose proof Hinv as [Hs Hg Ho Hc Hpos Hex]. pose proof (hand_list_capacity Max F owner _ _ Hs _ _ Hl) as Hcap.
  destruct (remove_step F db _ l1 (q + OFFSET_OpenLink) l2 (sh_family _ _ _ _ _ Hs) Hl Hcap) as (h & Hrem & Hf & Hn & Hk).
  assert (Hqi : q <> i) by (intros ->; congruence).
  unfold RemoveOpen. rewrite Hrem. cbn [mbind result_bind]. rewrite (interface_at_Some (set_links h db) i ri Hi). cbn [mbind result_bind].
  assert (Hcount : u64 (OpenListCount ri - 1) = OpenListCount ri - 1).
  { rewrite (Hc i ri _ Hi Hl). pose proof (count_small Max F owner db _ _ Hs Hl). rewrite length_app in *. simpl in *. apply wrap_small. lia. }
  rewrite Hcount. set (oi := AnInterface _). set (F' := <[_ := _]> F) in *.
  destruct (FreePool_spec F' (put i oi (set_links h db)) q (AnOpen r)) as (db' & Hfree & Hf' & HO & Hsg & Hkeep).
  { cbn [put set_objects objects set_links]. by rewrite lookup_insert_ne. }
  { done. }
  { intros k Hk'. cbn [offsets] in Hk'. by apply list_elem_of_singleton in Hk' as ->. }
  rewrite Hfree. cbn [mbind result_bind]. exists db'. split; [done|]. cbn [put set_objects objects set_links links] in HO, Hkeep.
  split; [|split; [by destruct Hsg|done]].
  assert (Hmem : forall hd x, member F' hd x <-> member F hd x /\ x <> q + OFFSET_OpenLink).
  { intros hd x. unfold F'. apply (member_remove (links db) F _ l1 l2); [apply Hs|done]. }
  set (O1 := <[i := oi]> (objects db)) in *. assert (Hs1 : shape Max F owner O1 (links db)) by (by apply (shape_put Max F owner _ _ i (AnInterface ri))).
  assert (Hq1 : O1 !! q = Some (AnOpen r)) by (unfold O1; by rewrite lookup_insert_ne).
  assert (Hcases : forall x o, delete q O1 !! x = Some o -> x <> q /\ ((x = i /\ o = oi) \/ (x <> i /\ objects db !! x = Some o))).
  { intros x o [Hne Hx]%lookup_delete_Some. split; [done|]. apply lookup_insert_Some in Hx. naive_solver. }
  assert (Hint : forall x s, delete q O1 !! x = Some (AnInterface s) ->
    exists s', objects db !! x = Some (AnInterface s') /\ Handle s = Handle s' /\ Protocol s = Protocol s').
  { intros x s [_ [[-> [= ->]]|[_ Hx]]]%Hcases; [by exists ri|by exists s]. }
  split; rewrite ?HO.
  - apply (shape_remove Max F F' owner O1 (links db) (links db') q (AnOpen r)); try done.
    + intros hd. unfold F'. rewrite is_Some_insert. cbn [heads]. setoid_rewrite elem_of_nil.
      assert (is_Some (F !! (i + OFFSET_OpenList))) by by eexists. split; [intros [->|?]; (split; [done|by intros (k & [] & _)])|intros [? _]; auto].
    + intros hd x. rewrite Hmem. cbn [members]. setoid_rewrite list_elem_of_singleton. split; [intros [? ?]; split; [done|]; by intros (k & -> & ->)|].
      intros [? Hnot]. split; [done|]. intros ->. apply Hnot. by exists OFFSET_OpenLink.
    + intros x ox k Hxq Hx Hk'. apply Hkeep.
      * intros Hk''. destruct (object_node Max F owner O1 _ Hs1 x q ox (AnOpen r) k (x + k - q)) as (-> & _); [done..|lia|done].
      * apply Hk. by apply (sh_nodes _ _ _ _ _ Hs1 x ox).
    + intros x ox Hxq Hx. apply (refers_leaf O1 owner q (AnOpen r)); [done|done|]. by apply (sh_refers _ _ _ _ _ Hs1 x ox).
  - intros q1 q2 e [_ [[-> He]|[_ H1]]]%Hcases [_ [[-> He']|[_ H2]]]%Hcases; [done..|by apply (Hg q1 q2 e)].
  - intros q1 q2 s1 s2 (s1' & H1 & Hh1 & Hp1)%Hint (s2' & H2 & Hh2 & Hp2)%Hint Hh Hp'. apply (Ho q1 q2 s1' s2'); congruence.
  - intros x s l' [_ [[-> [= ->]]|[Hxi Hx]]]%Hcases Hl'; unfold F' in Hl'.
    + rewrite lookup_insert_eq in Hl'. injection Hl' as <-. cbn [OpenListCount set_OpenListCount]. rewrite (Hc i ri _ Hi Hl), !length_app. simpl. lia.
    + rewrite lookup_insert_ne in Hl'; [by apply (Hc x)|]. unfold OFFSET_OpenList. lia.
  - intros x s [_ [[-> He]|[_ Hx]]]%Hcases; [done|]. destruct (Hpos x s Hx) as [?|(l & Hl' & Hin)]; [by left|]. right. apply Hmem. split; [by exists l|].
    intros Heq. rewrite Heq in Hin. destruct (sh_refers _ _ _ _ _ Hs x _ Hx) as [re Hre].
    apply (in_entry_protocols Max F owner _ _ Hs _ re l _ Hre Hl') in Hin as (s' & Hs' & _).
    destruct (object_node Max F owner _ _ Hs q (q + OFFSET_OpenLink - OFFSET_ByProtocol) _ _ OFFSET_OpenLink OFFSET_ByProtocol Hq Hs') as (_ & ? & _);
      [left|right; left|lia|done].
  - intros q1 q2 s1 s2 j [_ [[-> He]|[_ H1]]]%Hcases [_ [[-> He']|[_ H2]]]%Hcases; [done..|by apply (Hex q1 q2 s1 s2 j)].
Qed.

(** The records that are removed. *)
Definition removedb (O : objs) (which : OPEN_PROTOCOL_DATA -> bool) (x : ptr) : bool :=
  match O !! (x - OFFSET_OpenLink) with Some (AnOpen r) => which r | _ => false end.

Definition keptb (O : objs) (which : OPEN_PROTOCOL_DATA -> bool) (x : ptr) : bool := negb (removedb O which x).

(** [db'] is [db] without the records of [gone], which were open on [i]. *)
Definition opens_removed db db' (i : ptr) (gone : list ptr) (count : Z) : Prop :=
  same_globals db db' /\ forall p, objects db' !! p =
    if decide (p = i) then match objects db !! i with Some (AnInterface ri) => Some (AnInterface (set_OpenListCount count ri)) | o => o end
    else if decide (p + OFFSET_OpenLink ∈ gone) then None else objects db !! p.

Lemma RemoveOpens_spec which i rest : forall F owner db ri kept Status fuel, inv Max F owner db -> objects db !! i = Some (AnInterface ri) ->
  F !! (i + OFFSET_OpenList) = Some (kept ++ rest) -> (length rest < fuel)%nat ->
  exists db', RemoveOpens Max fuel i (List.hd (i + OFFSET_OpenList) rest) which Status db =
      Ok (if existsb (removedb (objects db) which) rest then EFI_SUCCESS else Status, db') /\
    inv Max (<[i + OFFSET_OpenList := kept ++ List.filter (keptb (objects db) which) rest]> F) owner db' /\
    opens_removed db db' i (List.filter (removedb (objects db) which) rest) (Z.of_nat (length (kept ++ List.filter (keptb (objects db) which) rest))).
Proof.
  induction rest as [|x rest IH]; intros F owner db ri kept Status fuel Hinv Hi Hl Hfuel; (destruct fuel as [|fuel]; [simpl in Hfuel; lia|]);
    pose proof (inv_shape _ _ _ _ Hinv) as Hs; cbn [RemoveOpens List.hd].
  - rewrite Z.eqb_refl. exists db. cbn [existsb List.filter]. split; [done|]. rewrite insert_id by done. split; [done|]. split; [done|].
    intros p. destruct (decide (p = i)) as [->|Hne]; [|by rewrite decide_False by apply not_elem_of_nil].
    rewrite Hi, <-(inv_count _ _ _ _ Hinv i ri _ Hi Hl). by destruct ri.
  - destruct (family_NoDup _ _ _ _ (sh_family _ _ _ _ _ Hs) Hl) as [Hnd Hhd]. assert (Hx : x ∈ kept ++ x :: rest) by (apply elem_of_app; right; left).
    rewrite (proj2 (Z.eqb_neq _ _)) by (intros ->; done).
    destruct (proj1 (in_open_list Max F owner _ _ Hs i ri _ x Hi Hl) Hx) as (r & Hr & _). rewrite (open_at_Some _ _ _ Hr). cbn [mbind result_bind].
    assert (Hkr : removedb (objects db) which x = which r) by (unfold removedb; by rewrite Hr).
    assert (Hkk : keptb (objects db) which x = negb (which r)) by (unfold keptb; by rewrite Hkr).
    cbn [existsb List.filter]. rewrite Hkr, Hkk. destruct (which r) eqn:Hw; cbn [negb orb].
    + replace x with (x - OFFSET_OpenLink + OFFSET_OpenLink) in Hl by lia.
      destruct (RemoveOpen_spec F owner db (x - OFFSET_OpenLink) r i ri kept rest Hinv Hr Hi Hl) as (db1 & -> & Hinv1 & Hsg1 & HO1). cbn [mbind result_bind].
      assert (Hi1 : objects db1 !! i = Some (AnInterface (set_OpenListCount (OpenListCount ri - 1) ri))).
      { rewrite HO1, lookup_delete_ne by (intros Heq; rewrite Heq in Hr; congruence). by rewrite lookup_insert_eq. }
      assert (Hsame : forall y, y ∈ rest -> removedb (objects db1) which y = removedb (objects db) which y).
      { intros y Hy. unfold removedb. rewrite HO1. rewrite lookup_delete_ne.
        - rewrite lookup_insert_ne; [done|]. intros Heq.
          destruct (proj1 (in_open_list Max F owner _ _ Hs i ri _ y Hi Hl)) as (s & Hs' & _); [apply elem_of_app; right; by right|].
          rewrite <-Heq in Hs'. congruence.
        - intros Heq. assert (x = y) as -> by lia. rewrite NoDup_app, NoDup_cons in Hnd. tauto. }
      destruct (IH _ owner db1 _ kept EFI_SUCCESS fuel Hinv1 Hi1) as (db' & Heq & Hinv' & Hsg' & HO'); [by rewrite lookup_insert_eq|simpl in Hfuel; lia|].
      rewrite insert_insert_eq in Hinv'.
      assert (Hf1 : List.filter (removedb (objects db1) which) rest = List.filter (removedb (objects db) which) rest).
      { apply filter_ext_in. intros y Hy%list_elem_of_In. by apply Hsame. }
      assert (Hf2 : List.filter (keptb (objects db1) which) rest = List.filter (keptb (objects db) which) rest).
      { apply filter_ext_in. intros y Hy%list_elem_of_In. unfold keptb. by rewrite Hsame. }
      rewrite Hf2 in Hinv'. rewrite Hf1, Hf2 in HO'. exists db'. rewrite Heq. split; [by destruct (existsb _ rest)|]. split; [done|].
      split; [destruct Hsg1, Hsg'; split; congruence|]. intros p. rewrite HO', Hi1, Hi. destruct (decide (p = i)) as [->|Hne]; [done|].
      destruct (decide (p + OFFSET_OpenLink ∈ List.filter (removedb (objects db) which) rest)) as [Hin|Hnot].
      * by rewrite decide_True by (by right).
      * rewrite HO1. destruct (decide (p = x - OFFSET_OpenLink)) as [->|Hpx].
        -- rewrite lookup_delete_eq, decide_True; [done|]. apply elem_of_cons. left. lia.
        -- rewrite lookup_delete_ne, lookup_insert_ne by done. rewrite decide_False; [done|].
           intros [?|?]%elem_of_cons; [lia|done].
    + destruct (family_next _ _ _ _ _ _ (sh_family _ _ _ _ _ Hs) Hl) as (n & -> & Hn). cbn [mbind result_bind]. rewrite Hn.
      replace (kept ++ x :: rest) with ((kept ++ [x]) ++ rest) in Hl by (by rewrite <-app_assoc).
      destruct (IH F owner db ri (kept ++ [x]) Status fuel Hinv Hi Hl) as (db' & Heq & Hinv' & Hrem); [simpl in Hfuel; lia|].
      rewrite <-app_assoc in Hinv', Hrem. by exists db'.
Qed.
End Remove.
