(* ===== verification/HandleUninstall.v ===== *)
(** * Handles and protocols: notifications, and removing interfaces and handles

    Walking through the notifications of a protocol: they are signalled, or step
    back from an interface that is removed.  Notifications, interfaces and
    handles are taken off their lists and freed. *)

From S2P Require Import Prelude LinkedList ListFamily Handle HandleInv HandleLookup HandleShape HandleCreate HandleRemove.

(** ** Loops that write the database *)

Fixpoint traverse_list (body : ptr -> Database -> result Database) (l : list ptr) (db : Database) : result Database :=
  match l with
  | [] => Ok db
  | x :: l => let! db := body x db in traverse_list body l db
  end.

Lemma iterate_traverse body l db :
  iterate (fun x db => let! db := body x db in Ok (db, false)) l db = traverse_list body l db.
Proof.
  revert db. induction l as [|x l IH]; intros db; [done|]. cbn [iterate traverse_list].
  destruct (body x db) as [db'| | |]; [|done..]. cbn [mbind result_bind]. apply IH.
Qed.

Lemma traverse_spec hd l body db : dlist (links db) hd l ->
  (forall x t t', x ∈ l -> links t = links db -> body x t = Ok t' -> links t' = links db) ->
  traverse hd body db = traverse_list body l db.
Proof.
  intros Hd Hb. unfold traverse. pose proof (dlist_size _ _ _ Hd).
  rewrite (for_list_iterate links (links db) ForwardLink _ hd l) by first [by apply path_forward|lia|done|
    intros x t t' b Hx Ht Hbody; destruct (body x t) as [t1| | |] eqn:Hb1; [|done..]; cbn [mbind result_bind] in Hbody; injection Hbody as <- _; by eapply Hb].
  apply iterate_traverse.
Qed.

(** What an object is after a notification at the interface [i] stepped back to
    [b]. *)
Definition step_back (i b : ptr) (o : object) : object :=
  match o with
  | ANotify r => if Position r =? i + OFFSET_ByProtocol then ANotify (MkNotify (NotifyProtocol r) (NotifyEvent r) b) else o
  | _ => o
  end.

(** The signals of the notifications [l]. *)
Definition signals (O : objs) (l : list ptr) : list event_call :=
  omap (fun x => match O !! (x - OFFSET_NotifyLink) with Some (ANotify r) => Some (Signal (NotifyEvent r)) | _ => None end) l.

Section Uninstall.
Context `{Platform} (Verify : bool) (Max : nat) `{!PoolLaws Max}.
Implicit Types (F : lists) (db : Database).

(** ** Notifications *)

Definition set_calls c db : Database :=
  MkDatabase (links db) (objects db) (gHandleDatabaseKey db) (mEfiLocateHandleRequest db) (Acquired db) c.

Lemma set_calls_same db : set_calls (Calls db) db = db.
Proof. by destruct db. Qed.

Lemma inv_set_calls F owner db c : inv Max F owner db -> inv Max F owner (set_calls c db).
Proof. intros [Hs Hg Ho Hc Hpos Hex]. by split. Qed.

Lemma signal_list (l : list ptr) : forall db, (forall x, x ∈ l -> exists r, objects db !! (x - OFFSET_NotifyLink) = Some (ANotify r)) ->
  traverse_list (fun Link db => let! r := notify_at db (Link - OFFSET_NotifyLink) in Ok (add_call (Signal (NotifyEvent r)) db)) l db =
    Ok (set_calls (Calls db ++ signals (objects db) l) db).
Proof.
  induction l as [|x l IH]; intros db Hl; cbn [traverse_list signals omap list_omap].
  - rewrite app_nil_r. by rewrite set_calls_same.
  - destruct (Hl x) as [r Hr]; [left|]. rewrite (notify_at_Some _ _ _ Hr), Hr. cbn [mbind result_bind].
    rewrite IH by (intros y Hy; apply Hl; by right). cbn [add_call Calls objects]. by rewrite <-app_assoc.
Qed.

Lemma CoreNotifyProtocolEntry_spec F owner db e re : inv Max F owner db -> Acquired db = true -> objects db !! e = Some (AnEntry re) ->
  exists l, F !! (e + OFFSET_Notify) = Some l /\ CoreNotifyProtocolEntry e db = Ok (set_calls (Calls db ++ signals (objects db) l) db).
Proof.
  intros Hinv Ha He. pose proof (inv_shape _ _ _ _ Hinv) as Hs. destruct (head_list Max F owner _ _ Hs e _ OFFSET_Notify He) as [l Hl]; [right; left|].
  exists l. split; [done|]. unfold CoreNotifyProtocolEntry, ASSERT_LOCKED. rewrite Ha. cbn [ASSERT mbind result_bind].
  rewrite (traverse_spec _ l); [|by eapply shape_dlist|].
  - apply signal_list. intros x Hx. apply (in_notify Max F owner _ _ Hs e re l x He Hl) in Hx as (r & Hr & _). by exists r.
  - intros x t t' _ Ht. unfold notify_at. destruct (deref _) as [o| | |]; [|done..]. cbn [mbind result_bind]. by destruct o; intros [= <-].
Qed.

Lemma inv_put_notify F owner db q r pos : inv Max F owner db -> objects db !! q = Some (ANotify r) ->
  pos = NotifyProtocol r + OFFSET_EntryProtocols \/ member F (NotifyProtocol r + OFFSET_EntryProtocols) pos ->
  inv Max F owner (put q (ANotify (MkNotify (NotifyProtocol r) (NotifyEvent r) pos)) db).
Proof.
  intros [Hs Hg Ho Hc Hpos Hex] Hq Hp. set (o := ANotify _).
  assert (Hcases : forall x ox, <[q := o]> (objects db) !! x = Some ox -> (x = q /\ ox = o) \/ (x <> q /\ objects db !! x = Some ox)).
  { intros x ox Hx. apply lookup_insert_Some in Hx. naive_solver. }
  split; cbn [objects links put set_objects].
  - by apply (shape_put Max F owner _ _ q (ANotify r)).
  - intros q1 q2 e [[-> He]|[_ H1]]%Hcases [[-> He']|[_ H2]]%Hcases; [done..|by apply (Hg q1 q2 e)].
  - intros q1 q2 s1 s2 [[-> He]|[_ H1]]%Hcases [[-> He']|[_ H2]]%Hcases; [done..|by apply (Ho q1 q2 s1 s2)].
  - intros x s l [[-> He]|[_ Hx]]%Hcases; [done|by apply (Hc x)].
  - intros x s [[-> [= ->]]|[_ Hx]]%Hcases; [done|by apply (Hpos x)].
  - intros q1 q2 s1 s2 j [[-> He]|[_ H1]]%Hcases [[-> He']|[_ H2]]%Hcases; [done..|by apply (Hex q1 q2 s1 s2 j)].
Qed.

(** The position before the interface [i] in the list of its protocol. *)
Lemma position_before F owner db i ri : inv Max F owner db -> objects db !! i = Some (AnInterface ri) ->
  exists n, load (links db) (i + OFFSET_ByProtocol) = Ok n /\ BackLink n <> i + OFFSET_ByProtocol /\
    (BackLink n = Protocol ri + OFFSET_EntryProtocols \/ member F (Protocol ri + OFFSET_EntryProtocols) (BackLink n)).
Proof.
  intros Hinv Hi. pose proof (inv_shape _ _ _ _ Hinv) as Hs. destruct (sh_refers _ _ _ _ _ Hs i _ Hi) as [_ [re Hre]].
  destruct (head_list Max F owner _ _ Hs _ _ OFFSET_EntryProtocols Hre) as [l Hl]; [left|].
  assert (Hin : i + OFFSET_ByProtocol ∈ l) by (apply (in_entry_protocols Max F owner _ _ Hs _ re l _ Hre Hl); exists ri; by rewrite Z.add_simpl_r).
  apply list_elem_of_split in Hin as (l1 & l2 & Heq). pose proof (shape_dlist Max F owner db Hs _ _ Hl) as Hd. rewrite Heq in Hd.
  destruct (dlist_links _ _ l1 _ l2 Hd) as (n & Hn & _ & Hb). exists n. split; [done|]. rewrite Hb.
  destruct Hd as (Hnd & _). apply NoDup_cons in Hnd as [Hhd Hnd].
  destruct l1 as [|y l1 _] using rev_ind; cbn [List.last].
  - split; [|by left]. intros Hx. apply Hhd. rewrite Hx. left.
  - rewrite List.last_last. assert (Hy : y ∈ l1 ++ [y]) by (apply elem_of_app; right; left). split.
    + intros ->. apply NoDup_app in Hnd as (_ & Hnd & _). by apply (Hnd _ Hy); left.
    + right. exists l. split; [done|]. rewrite Heq. apply elem_of_app. by left.
Qed.

(** A notification at [i] is one of the protocol of [i]. *)
Lemma position_at F owner db i ri q r : inv Max F owner db -> objects db !! i = Some (AnInterface ri) -> objects db !! q = Some (ANotify r) ->
  Position r = i + OFFSET_ByProtocol -> NotifyProtocol r = Protocol ri.
Proof.
  intros Hinv Hi Hq Heq. pose proof (inv_shape _ _ _ _ Hinv) as Hs. destruct (sh_refers _ _ _ _ _ Hs q _ Hq) as [re Hre].
  destruct (inv_position _ _ _ _ Hinv q r Hq) as [Hpos|(l & Hl & Hin)].
  - rewrite Heq in Hpos. destruct (object_node Max F owner _ _ Hs _ _ _ _ OFFSET_ByProtocol OFFSET_EntryProtocols Hi Hre) as (_ & ? & _);
      [right; left|right; left|done|done].
  - rewrite Heq in Hin. apply (in_entry_protocols Max F owner _ _ Hs _ re l _ Hre Hl) in Hin as (s & Hs' & <-). rewrite Z.add_simpl_r in Hs'. congruence.
Qed.

Lemma BackUpPositions_list F owner b i ri n l : forall db, inv Max F owner db -> objects db !! i = Some (AnInterface ri) ->
  load (links db) (i + OFFSET_ByProtocol) = Ok n -> b = BackLink n ->
  b = Protocol ri + OFFSET_EntryProtocols \/ member F (Protocol ri + OFFSET_EntryProtocols) b ->
  (forall x, x ∈ l -> exists r, objects db !! (x - OFFSET_NotifyLink) = Some (ANotify r)) -> b <> i + OFFSET_ByProtocol -> NoDup l ->
  exists db', traverse_list (fun Link db =>
      let! r := notify_at db (Link - OFFSET_NotifyLink) in
      if Position r =? i + OFFSET_ByProtocol then
        let! n := load (links db) (i + OFFSET_ByProtocol) in
        Ok (put (Link - OFFSET_NotifyLink) (ANotify (MkNotify (NotifyProtocol r) (NotifyEvent r) (BackLink n))) db)
      else Ok db) l db = Ok db' /\ inv Max F owner db' /\ links db' = links db /\ same_globals db db' /\
    forall p, objects db' !! p = if decide (p + OFFSET_NotifyLink ∈ l) then step_back i b <$> objects db !! p else objects db !! p.
Proof.
  induction l as [|x l IH]; intros db Hinv Hi Hn Hb Hbok Hl Hbi Hnd; cbn [traverse_list].
  { exists db. split; [done|]. split; [done|]. split; [done|]. split; [done|]. intros p. by rewrite decide_False by apply not_elem_of_nil. }
  destruct (Hl x) as [r Hr]; [left|]. rewrite (notify_at_Some _ _ _ Hr). cbn [mbind result_bind]. apply NoDup_cons in Hnd as [Hxl Hnd].
  set (q := x - OFFSET_NotifyLink) in *. assert (Hqi : q <> i) by (intros Heq; rewrite Heq in Hr; congruence).
  assert (Hstep : exists db1, (if Position r =? i + OFFSET_ByProtocol then let! n := load (links db) (i + OFFSET_ByProtocol) in
      Ok (put q (ANotify (MkNotify (NotifyProtocol r) (NotifyEvent r) (BackLink n))) db) else Ok db) = Ok db1 /\
      inv Max F owner db1 /\ links db1 = links db /\ same_globals db db1 /\ objects db1 = <[q := step_back i b (ANotify r)]> (objects db)).
  { cbn [step_back]. destruct (Z.eqb_spec (Position r) (i + OFFSET_ByProtocol)) as [Hpos|Hpos].
    - rewrite Hn. cbn [mbind result_bind]. rewrite <-Hb. eexists. split; [done|]. split; [|done]. apply inv_put_notify; [done|done|].
      by rewrite (position_at F owner db i ri q r).
    - exists db. split; [done|]. split; [done|]. split; [done|]. split; [done|]. by rewrite insert_id. }
  destruct Hstep as (db1 & -> & Hinv1 & Hk1 & Hsg1 & HO1). cbn [mbind result_bind].
  destruct (IH db1) as (db' & Heq & Hinv' & Hk' & Hsg' & HO'); [done|by rewrite HO1, lookup_insert_ne|by rewrite Hk1|done|done| |done|done|].
  { intros y Hy. destruct (Hl y) as [s Hs]; [by right|]. rewrite HO1. exists s. rewrite lookup_insert_ne; [done|].
    intros Heq. assert (x = y) as -> by (unfold q in Heq; lia). done. }
  exists db'. split; [done|]. split; [done|]. split; [congruence|]. split; [destruct Hsg1, Hsg'; split; congruence|].
  intros p. rewrite HO', HO1. destruct (decide (p = q)) as [->|Hpq].
  - unfold q. rewrite decide_False by (by replace (x - OFFSET_NotifyLink + OFFSET_NotifyLink) with x by lia).
    rewrite decide_True by (apply elem_of_cons; left; lia). fold q. by rewrite lookup_insert_eq, Hr.
  - rewrite lookup_insert_ne by done. destruct (decide (p + OFFSET_NotifyLink ∈ l)) as [Hin|Hin].
    + by rewrite decide_True by by right.
    + rewrite decide_False; [done|]. intros [?|?]%elem_of_cons; [unfold q in Hpq; lia|done].
Qed.

Lemma BackUpPositions_spec F owner db i ri : inv Max F owner db -> objects db !! i = Some (AnInterface ri) ->
  exists b db', BackUpPositions (Protocol ri) i db = Ok db' /\ inv Max F owner db' /\ links db' = links db /\ same_globals db db' /\
    objects db' = step_back i b <$> objects db /\ b <> i + OFFSET_ByProtocol.
Proof.
  intros Hinv Hi. pose proof (inv_shape _ _ _ _ Hinv) as Hs. destruct (sh_refers _ _ _ _ _ Hs i _ Hi) as [_ [re Hre]].
  destruct (head_list Max F owner _ _ Hs _ _ OFFSET_Notify Hre) as [l Hl]; [right; left|].
  destruct (position_before F owner db i ri Hinv Hi) as (n & Hn & Hbi & Hb).
  pose proof (fun x => in_notify Max F owner _ _ Hs _ re l x Hre Hl) as Hin.
  destruct (BackUpPositions_list F owner _ i ri n l db Hinv Hi Hn eq_refl Hb) as (db' & Heq & Hinv' & Hk & Hsg & HO); [|done| |].
  { intros x (r & Hr & _)%Hin. by exists r. }
  { eapply family_NoDup; [apply Hs|done]. }
  exists (BackLink n), db'. split; [|split; [done|split; [done|split; [done|split; [|done]]]]].
  - unfold BackUpPositions. rewrite (traverse_spec _ l); [done|by eapply shape_dlist|].
    intros x t t' _ Ht. unfold notify_at. destruct (deref _) as [o| | |]; [|done..]. cbn [mbind result_bind].
    destruct o; [by intros [= <-]..|]. cbn [mbind result_bind]. destruct (_ =? _); [|by intros [= <-]].
    destruct (load (links t) _) as [m| | |]; [|done..]. cbn [mbind result_bind]. intros Ht1. by injection Ht1 as <-.
  - apply map_eq. intros p. rewrite HO, lookup_fmap. destruct (decide (p + OFFSET_NotifyLink ∈ l)) as [Hp|Hp]; [done|].
    destruct (objects db !! p) as [o|] eqn:Ho; [|done]. cbn [fmap option_fmap option_map]. f_equal.
    destruct o as [|r|r|r|r|r]; try done. cbn [step_back]. destruct (Z.eqb_spec (Position r) (i + OFFSET_ByProtocol)) as [Hpos|]; [|done].
    destruct Hp. apply Hin. exists r. rewrite Z.add_simpl_r. split; [done|]. by apply (position_at F owner db i ri p r).
Qed.

(** ** Deleting objects *)

Lemma inv_del F F' owner db db' p : inv Max F owner db -> shape Max F' owner (objects db') (links db') -> objects db' = delete p (objects db) ->
  (forall q r, q <> p -> objects db !! q = Some (AnInterface r) -> F' !! (q + OFFSET_OpenList) = F !! (q + OFFSET_OpenList)) ->
  (forall q r, q <> p -> objects db !! q = Some (ANotify r) -> member F (NotifyProtocol r + OFFSET_EntryProtocols) (Position r) ->
     member F' (NotifyProtocol r + OFFSET_EntryProtocols) (Position r)) -> inv Max F' owner db'.
Proof.
  intros [Hs Hg Ho Hc Hpos Hex] Hs' HO Hlist Hmem. split; [done|..]; rewrite HO.
  - intros q1 q2 e [_ H1]%lookup_delete_Some [_ H2]%lookup_delete_Some. by apply (Hg q1 q2 e).
  - intros q1 q2 r s [_ H1]%lookup_delete_Some [_ H2]%lookup_delete_Some. by apply (Ho q1 q2 r s).
  - intros q r l [Hne H1]%lookup_delete_Some. rewrite (Hlist q r) by done. by apply (Hc q).
  - intros q r [Hne H1]%lookup_delete_Some. destruct (Hpos q r H1) as [?|?]; [by left|right]. by apply (Hmem q).
  - intros q1 q2 r s i [_ H1]%lookup_delete_Some [_ H2]%lookup_delete_Some. by apply (Hex q1 q2 r s i).
Qed.

(** The links of the other objects stay in the store. *)
Lemma nodes_freed F owner O (h h1 h' : store) p o q oq k : shape Max F owner O h -> O !! p = Some o -> keeps h h1 ->
  (forall x, x - p ∉ offsets o -> is_Some (h1 !! x) -> is_Some (h' !! x)) ->
  q <> p -> O !! q = Some oq -> k ∈ offsets oq -> is_Some (h' !! (q + k)).
Proof.
  intros Hs Hp Hk Hfree Hqp Hq Hko. apply Hfree.
  - intros Hko'. apply Hqp. destruct (object_node Max F owner O h Hs q p oq o k (q + k - p)) as (-> & _); [done..|lia|done].
  - apply Hk. by apply (sh_nodes _ _ _ _ _ Hs q oq).
Qed.

(** The lists of entries have nothing but links of interfaces. *)
Lemma position_link F owner O h e l x p o k : shape Max F owner O h -> is_entry O e -> F !! (e + OFFSET_EntryProtocols) = Some l -> x ∈ l ->
  O !! p = Some o -> k ∈ offsets o -> x = p + k -> k = OFFSET_ByProtocol /\ exists r, o = AnInterface r.
Proof.
  intros Hs [re He] Hl Hx Hp Hk ->. apply (in_entry_protocols Max F owner O h Hs e re l _ He Hl) in Hx as (s & Hs' & _).
  destruct (object_node Max F owner O h Hs p (p + k - OFFSET_ByProtocol) o _ k OFFSET_ByProtocol Hp Hs') as (_ & -> & ->); [done|right; left|lia|].
  split; [done|by exists s].
Qed.

Lemma RemoveNotify_spec F owner db q r : inv Max F owner db -> objects db !! q = Some (ANotify r) ->
  exists l1 l2, F !! (NotifyProtocol r + OFFSET_Notify) = Some (l1 ++ (q + OFFSET_NotifyLink) :: l2) /\
  exists n db1 db', remove_entry Max (q + OFFSET_NotifyLink) db = Ok (n, db1) /\ FreePool q db1 = Ok db' /\
    inv Max (<[NotifyProtocol r + OFFSET_Notify := l1 ++ l2]> F) owner db' /\ same_globals db db' /\ objects db' = delete q (objects db).
Proof.
  intros Hinv Hq. pose proof (inv_shape _ _ _ _ Hinv) as Hs. destruct (sh_refers _ _ _ _ _ Hs q _ Hq) as [re Hre].
  destruct (head_list Max F owner _ _ Hs _ _ OFFSET_Notify Hre) as [l Hl]; [right; left|].
  assert (Hin : q + OFFSET_NotifyLink ∈ l) by (apply (in_notify Max F owner _ _ Hs _ re l _ Hre Hl); exists r; by rewrite Z.add_simpl_r).
  apply list_elem_of_split in Hin as (l1 & l2 & ->). exists l1, l2. split; [done|].
  destruct (remove_step Max F db _ l1 _ l2 (sh_family _ _ _ _ _ Hs) Hl) as (h & Hrem & Hf & Hn & Hk); [by eapply hand_list_capacity|].
  set (F' := <[_ := _]> F) in *. destruct (FreePool_spec F' (set_links h db) q (ANotify r)) as (db' & Hfree & Hf' & HO & Hsg & Hkeep); [done|done| |].
  { intros k Hk'. cbn [offsets] in Hk'. by apply list_elem_of_singleton in Hk' as ->. }
  eexists _, _, db'. split; [done|]. split; [done|]. split; [|split; [by destruct Hsg|done]].
  assert (Hmem : forall hd x, member F' hd x <-> member F hd x /\ x <> q + OFFSET_NotifyLink).
  { intros hd x. unfold F'. apply (member_remove (links db) F _ l1 l2); [apply Hs|done]. }
  apply (inv_del F F' owner db db' q); [done| |done| |].
  - rewrite HO. apply (shape_remove Max F F' owner (objects db) (links db) (links db') q (ANotify r)); try done.
    + intros hd. unfold F'. rewrite is_Some_insert. cbn [heads]. setoid_rewrite elem_of_nil.
      assert (is_Some (F !! (NotifyProtocol r + OFFSET_Notify))) by by eexists.
      split; [intros [->|?]; (split; [done|by intros (k & [] & _)])|intros [? _]; auto].
    + intros hd x. rewrite Hmem. cbn [members]. setoid_rewrite list_elem_of_singleton. split; [intros [? ?]; split; [done|]; by intros (k & -> & ->)|].
      intros [? Hnot]. split; [done|]. intros ->. apply Hnot. by exists OFFSET_NotifyLink.
    + intros x ox k Hxq Hx Hk'. by apply (nodes_freed F owner (objects db) (links db) h (links db') q (ANotify r) x ox k).
    + intros x ox Hxq Hx. apply (refers_leaf (objects db) owner q (ANotify r)); [done|done|]. by apply (sh_refers _ _ _ _ _ Hs x ox).
  - intros x s _ Hx. unfold F'. rewrite lookup_insert_ne; [done|]. intros Heq.
    destruct (object_node Max F owner _ _ Hs _ x _ _ OFFSET_Notify OFFSET_OpenList Hre Hx) as (_ & ? & _); [right; right; left|right; right; left|done|done].
  - intros x s Hxq Hx (l & Hl' & Hin). apply Hmem. split; [by exists l|]. intros Heq.
    destruct (position_link F owner _ _ _ l _ q (ANotify r) OFFSET_NotifyLink Hs (sh_refers _ _ _ _ _ Hs x _ Hx) Hl' Hin Hq) as [? _]; [left|done|done].
Qed.

(** A handle without interfaces is removed. *)
Lemma RemoveHandle_spec F owner db p rh : inv Max F owner db -> objects db !! p = Some (AHandle rh) -> F !! (p + OFFSET_HandleProtocols) = Some [] ->
  exists l1 l2, F !! gHandleList = Some (l1 ++ (p + OFFSET_AllHandles) :: l2) /\
  exists n db1 db', remove_entry Max (p + OFFSET_AllHandles) db = Ok (n, db1) /\ FreePool p db1 = Ok db' /\
    inv Max (delete (p + OFFSET_HandleProtocols) (<[gHandleList := l1 ++ l2]> F)) owner db' /\ same_globals db db' /\ objects db' = delete p (objects db).
Proof.
  intros Hinv Hp Hnil. pose proof (inv_shape _ _ _ _ Hinv) as Hs. destruct (handle_list Max F owner _ _ Hs) as [l Hl].
  assert (Hin : p + OFFSET_AllHandles ∈ l) by (apply (in_handles Max F owner _ _ Hs l _ Hl); exists rh; by rewrite Z.add_simpl_r).
  apply list_elem_of_split in Hin as (l1 & l2 & ->). exists l1, l2. split; [done|].
  destruct (remove_step Max F db _ l1 _ l2 (sh_family _ _ _ _ _ Hs) Hl) as (h & Hrem & Hf & Hn & Hk); [by eapply hand_list_capacity|].
  assert (Hgp : p + OFFSET_HandleProtocols <> gHandleList) by (apply (head_not_static Max F owner _ _ Hs p _ OFFSET_HandleProtocols Hp); left).
  set (F1 := <[gHandleList := _]> F) in *. assert (Hnil1 : F1 !! (p + OFFSET_HandleProtocols) = Some []) by (unfold F1; by rewrite lookup_insert_ne).
  set (F' := delete _ F1). pose proof (family_drop h F1 (p + OFFSET_HandleProtocols) Hf) as Hf2.
  destruct (FreePool_spec F' (set_links h db) p (AHandle rh)) as (db' & Hfree & Hf' & HO & Hsg & Hkeep); [done|done| |].
  { intros k Hk'. cbn [offsets] in Hk'. apply elem_of_cons in Hk' as [->|Hk'].
    - intros (hd & m & [_ Hm]%lookup_delete_Some & Hx). apply Hn. by exists hd, m.
    - apply list_elem_of_singleton in Hk' as ->. intros (hd & m & [Hne Hm]%lookup_delete_Some & Hx). apply elem_of_cons in Hx as [?|Hx]; [done|].
      by apply (family_head h F1 _ [] hd m Hf Hnil1 Hm). }
  eexists _, _, db'. split; [done|]. split; [done|]. split; [|split; [by destruct Hsg|done]].
  assert (Hmem : forall hd x, member F' hd x <-> member F hd x /\ x <> p + OFFSET_AllHandles).
  { intros hd x. unfold F'. rewrite (member_drop F1) by done. unfold F1. apply (member_remove (links db) F _ l1 l2); [apply Hs|done]. }
  assert (Hnone : forall x s, objects db !! x = Some (AnInterface s) -> Handle s <> p).
  { intros x s Hx Heq. assert (Hin : x + OFFSET_InterfaceLink ∈ []).
    { apply (in_handle_protocols Max F owner _ _ Hs p rh [] _ Hp Hnil). exists s. by rewrite Z.add_simpl_r. }
    by apply elem_of_nil in Hin. }
  apply (inv_del F F' owner db db' p); [done| |done| |].
  - rewrite HO. apply (shape_remove Max F F' owner (objects db) (links db) (links db') p (AHandle rh)); try done.
    + intros hd. unfold F', F1. rewrite is_Some_delete, is_Some_insert. cbn [heads]. setoid_rewrite list_elem_of_singleton.
      assert (is_Some (F !! gHandleList)) by by eexists. split.
      * intros [Hne Hhd]. split; [by destruct Hhd as [->|?]|]. by intros (k & -> & ->).
      * intros [Hhd Hnot]. split; [|by right]. intros ->. apply Hnot. by exists OFFSET_HandleProtocols.
    + intros hd x. rewrite Hmem. cbn [members]. setoid_rewrite list_elem_of_singleton. split; [intros [? ?]; split; [done|]; by intros (k & -> & ->)|].
      intros [? Hnot]. split; [done|]. intros ->. apply Hnot. by exists OFFSET_AllHandles.
    + intros x ox k Hxq Hx Hk'. by apply (nodes_freed F owner (objects db) (links db) h (links db') p (AHandle rh) x ox k).
    + intros x ox Hxq Hx. pose proof (sh_refers _ _ _ _ _ Hs x ox Hx) as Hr. destruct ox as [|r|r|r|r|r]; try done; unfold refers, is_handle, is_entry, is_interface in *.
      * destruct Hr as [[a Ha] [b Hb]]. split; [exists a|exists b]; (rewrite lookup_delete_ne; [done|]); [by apply not_eq_sym, (Hnone x)|intros Heq; congruence].
      * destruct Hr as (j & Hj & [a Ha]). exists j. split; [done|]. exists a. rewrite lookup_delete_ne; [done|]. intros Heq; congruence.
      * destruct Hr as [b Hb]. exists b. rewrite lookup_delete_ne; [done|]. intros Heq; congruence.
  - intros x s _ Hx. unfold F', F1. rewrite lookup_delete_ne, lookup_insert_ne; [done| |].
    + apply not_eq_sym, (head_not_static Max F owner _ _ Hs x _ OFFSET_OpenList Hx). left.
    + intros Heq. destruct (object_node Max F owner _ _ Hs p x _ _ OFFSET_HandleProtocols OFFSET_OpenList Hp Hx) as (_ & ? & _); [right; left|right; right; left|done|done].
  - intros x s Hxq Hx (l & Hl' & Hin). apply Hmem. split; [by exists l|]. intros Heq.
    destruct (position_link F owner _ _ _ l _ p (AHandle rh) OFFSET_AllHandles Hs (sh_refers _ _ _ _ _ Hs x _ Hx) Hl' Hin Hp) as [? _]; [left|done|done].
Qed.

(** ** Interfaces *)

Lemma provides_entry F owner db i h g v : inv Max F owner db -> provides (objects db) i h g v ->
  exists r, objects db !! i = Some (AnInterface r) /\ Handle r = h /\ Interface r = v /\ objects db !! Protocol r = Some (AnEntry (MkEntry g)).
Proof. intros Hinv (r & [g'] & Hi & Hh & Hv & He & Hg). simpl in Hg. subst g'. by exists r. Qed.

Lemma provides_unique F owner db i j h g v w : inv Max F owner db -> provides (objects db) i h g v -> provides (objects db) j h g w -> i = j /\ v = w.
Proof.
  intros Hinv Hi Hj. destruct (provides_entry F owner db _ _ _ _ Hinv Hi) as (r & Hr & <- & <- & He). destruct (provides_entry F owner db _ _ _ _ Hinv Hj) as (s & Hs & Hh & <- & He').
  assert (i = j) as -> by (apply (inv_once _ _ _ _ Hinv i j r s); [done|done|done|by apply (inv_guid _ _ _ _ Hinv _ _ (MkEntry g))]).
  split; [done|]. congruence.
Qed.

Lemma inv_put_handle F owner db p r r' : inv Max F owner db -> objects db !! p = Some (AHandle r) -> inv Max F owner (put p (AHandle r') db).
Proof.
  intros [Hs Hg Ho Hc Hpos Hex] Hp. set (o := AHandle _).
  assert (Hcases : forall x ox, <[p := o]> (objects db) !! x = Some ox -> (x = p /\ ox = o) \/ (x <> p /\ objects db !! x = Some ox)).
  { intros x ox Hx. apply lookup_insert_Some in Hx. naive_solver. }
  split; cbn [objects links put set_objects].
  - by apply (shape_put Max F owner _ _ p (AHandle r)).
  - intros q1 q2 e [[-> He]|[_ H1]]%Hcases [[-> He']|[_ H2]]%Hcases; [done..|by apply (Hg q1 q2 e)].
  - intros q1 q2 s1 s2 [[-> He]|[_ H1]]%Hcases [[-> He']|[_ H2]]%Hcases; [done..|by apply (Ho q1 q2 s1 s2)].
  - intros x s l [[-> He]|[_ Hx]]%Hcases; [done|by apply (Hc x)].
  - intros x s [[-> He]|[_ Hx]]%Hcases; [done|by apply (Hpos x)].
  - intros q1 q2 s1 s2 j [[-> He]|[_ H1]]%Hcases [[-> He']|[_ H2]]%Hcases; [done..|by apply (Hex q1 q2 s1 s2 j)].
Qed.

Lemma inv_set_key F owner db k : inv Max F owner db -> inv Max F owner (set_key k db).
Proof. intros [Hs Hg Ho Hc Hpos Hex]. by split. Qed.

(** The interface [i] is off the list of its protocol, in the store [h']; else
    the database is [db1]. *)
Record taken_off F owner db (i : ptr) (ri : PROTOCOL_INTERFACE) (b : ptr) (l1 l2 : list ptr) db1 (h' : store) : Prop := {
  to_inv : inv Max F owner db1;
  to_links : links db1 = links db;
  to_globals : same_globals db db1;
  to_objects : objects db1 = step_back i b <$> objects db;
  to_before : b <> i + OFFSET_ByProtocol;
  to_list : F !! (Protocol ri + OFFSET_EntryProtocols) = Some (l1 ++ (i + OFFSET_ByProtocol) :: l2);
  to_family : family h' (<[Protocol ri + OFFSET_EntryProtocols := l1 ++ l2]> F);
  to_within : ~ within (<[Protocol ri + OFFSET_EntryProtocols := l1 ++ l2]> F) (i + OFFSET_ByProtocol);
  to_keeps : keeps (links db) h' }.

Lemma CoreRemoveInterfaceFromProtocol_spec F owner db h g v i : inv Max F owner db -> Acquired db = true -> provides (objects db) i h g v ->
  exists ri b l1 l2 db1 h', objects db !! i = Some (AnInterface ri) /\ Handle ri = h /\ Interface ri = v /\
    objects db !! Protocol ri = Some (AnEntry (MkEntry g)) /\
    CoreRemoveInterfaceFromProtocol Verify Max h g v db = Ok (i, set_links h' db1) /\ taken_off F owner db i ri b l1 l2 db1 h'.
Proof.
  intros Hinv Ha Hi. pose proof (inv_shape _ _ _ _ Hinv) as Hs. destruct (provides_entry F owner db _ _ _ _ Hinv Hi) as (ri & Hri & Hh & Hv & He).
  destruct (sh_refers _ _ _ _ _ Hs i _ Hri) as [[rh Hrh] _]. rewrite Hh in Hrh.
  destruct (CoreFindProtocolInterface_spec Max F owner db Hs Verify h rh g v Ha Hrh (inv_guid _ _ _ _ Hinv)) as (q & Hq & [[-> Hnone]|[Hqn Hqp]]);
    [by destruct (Hnone i)|].
  destruct (provides_unique F owner db _ _ _ _ _ _ Hinv Hi Hqp) as [<- _].
  destruct (BackUpPositions_spec F owner db i ri Hinv Hri) as (b & db1 & Hback & Hinv1 & Hk1 & Hsg1 & HO1 & Hb).
  destruct (head_list Max F owner _ _ Hs _ _ OFFSET_EntryProtocols He) as [l Hl]; [left|].
  assert (Hin : i + OFFSET_ByProtocol ∈ l) by (apply (in_entry_protocols Max F owner _ _ Hs _ _ l _ He Hl); exists ri; by rewrite Z.add_simpl_r).
  apply list_elem_of_split in Hin as (l1 & l2 & ->). pose proof (inv_shape _ _ _ _ Hinv1) as Hs1.
  destruct (remove_step Max F db1 _ l1 _ l2 (sh_family _ _ _ _ _ Hs1) Hl) as (h' & Hrem & Hf & Hn & Hk); [by eapply hand_list_capacity|].
  exists ri, b, l1, l2, db1, h'. do 4 (split; [done|]). split; [|by split; rewrite <-?Hk1].
  unfold CoreRemoveInterfaceFromProtocol, ASSERT_LOCKED. rewrite Ha. cbn [ASSERT mbind result_bind]. rewrite Hq. cbn [mbind result_bind].
  rewrite (proj2 (Z.eqb_neq _ _) Hqn), (interface_at_Some _ _ _ Hri). cbn [mbind result_bind]. rewrite Hback. cbn [mbind result_bind]. by rewrite Hrem.
Qed.

(** The objects when the interface [i] is gone and the handle [h] has a new
    key. *)
Definition erased db (i b h : ptr) (rh : IHANDLE) : objs :=
  delete i (<[h := AHandle (MkHandle (LocateRequest rh) (u64 (gHandleDatabaseKey db + 1)))]> (step_back i b <$> objects db)).

(** No notification of [db1] is at the interface. *)
Lemma taken_off_position F owner db i ri b l1 l2 db1 h' q r : taken_off F owner db i ri b l1 l2 db1 h' ->
  objects db1 !! q = Some (ANotify r) -> Position r <> i + OFFSET_ByProtocol.
Proof.
  intros Ht. rewrite (to_objects _ _ _ _ _ _ _ _ _ _ Ht), lookup_fmap. intros (o & Ho & Heq)%fmap_Some.
  destruct o as [|s|s|s|s|s]; try done. cbn [step_back] in Heq. destruct (Z.eqb_spec (Position s) (i + OFFSET_ByProtocol)); injection Heq as ->; [|done].
  cbn [Position]. apply Ht.
Qed.

Lemma EraseInterface_spec F owner db i ri b l1 l2 db1 h' rh : inv Max F owner db -> objects db !! i = Some (AnInterface ri) ->
  objects db !! Handle ri = Some (AHandle rh) -> F !! (i + OFFSET_OpenList) = Some [] -> taken_off F owner db i ri b l1 l2 db1 h' ->
  exists m1 m2, F !! (Handle ri + OFFSET_HandleProtocols) = Some (m1 ++ (i + OFFSET_InterfaceLink) :: m2) /\
  exists n db2 db', NewKey (Handle ri) (set_links h' db1) = Ok db2 /\
  exists db3, remove_entry Max (i + OFFSET_InterfaceLink) db2 = Ok (n, db3) /\ FreePool i db3 = Ok db' /\
    inv Max (delete (i + OFFSET_OpenList) (<[Handle ri + OFFSET_HandleProtocols := m1 ++ m2]> (<[Protocol ri + OFFSET_EntryProtocols := l1 ++ l2]> F))) owner db' /\
    objects db' = erased db i b (Handle ri) rh /\ Acquired db' = Acquired db /\ mEfiLocateHandleRequest db' = mEfiLocateHandleRequest db /\
    Calls db' = Calls db.
Proof.
  intros Hinv Hi Hh Hnil Ht. set (p := Handle ri) in *. pose proof Ht as [Hinv1 Hk1 Hsg1 HO1 Hb Hle Hf1 Hn1 Hkeep1].
  pose proof (inv_shape _ _ _ _ Hinv) as Hs. pose proof (inv_shape _ _ _ _ Hinv1) as Hs1. set (e := Protocol ri) in *.
  destruct (sh_refers _ _ _ _ _ Hs i _ Hi) as [_ [re Hre]]. fold e in Hre.
  assert (Hi1 : objects db1 !! i = Some (AnInterface ri)) by (by rewrite HO1, lookup_fmap, Hi).
  assert (Hh1 : objects db1 !! p = Some (AHandle rh)) by (by rewrite HO1, lookup_fmap, Hh).
  assert (Hpi : p <> i) by (intros Heq; congruence).
  destruct (head_list Max F owner _ _ Hs p _ OFFSET_HandleProtocols Hh) as [m Hm]; [left|].
  assert (Hin : i + OFFSET_InterfaceLink ∈ m) by (apply (in_handle_protocols Max F owner _ _ Hs p rh m _ Hh Hm); exists ri; by rewrite Z.add_simpl_r).
  apply list_elem_of_split in Hin as (m1 & m2 & ->). exists m1, m2. split; [done|].
  assert (Hep : e + OFFSET_EntryProtocols <> p + OFFSET_HandleProtocols).
  { intros Heq. destruct (object_node Max F owner _ _ Hs e p _ _ OFFSET_EntryProtocols OFFSET_HandleProtocols Hre Hh) as (_ & ? & _); [right; left|right; left|done|done]. }
  set (F1 := <[e + OFFSET_EntryProtocols := l1 ++ l2]> F) in *. assert (Hm1 : F1 !! (p + OFFSET_HandleProtocols) = Some (m1 ++ (i + OFFSET_InterfaceLink) :: m2)) by (unfold F1; by rewrite lookup_insert_ne).
  set (rn := MkHandle (LocateRequest rh) (u64 (gHandleDatabaseKey db + 1))).
  pose proof (NewKey_spec (set_links h' db1) p rh Hh1) as Hkey. cbn [set_links gHandleDatabaseKey] in Hkey. rewrite (sg_key _ _ Hsg1) in Hkey. fold rn in Hkey.
  set (db2 := put _ _ _) in Hkey.
  destruct (remove_step Max F1 db2 _ m1 _ m2 Hf1 Hm1) as (h2 & Hrem & Hf2 & Hn2 & Hkeep2); [by eapply hand_list_capacity|].
  set (F2 := <[p + OFFSET_HandleProtocols := m1 ++ m2]> F1) in *.
  assert (Hnil2 : F2 !! (i + OFFSET_OpenList) = Some []).
  { unfold F2, F1. rewrite !lookup_insert_ne; [done| |]; intros Heq.
    - destruct (object_node Max F owner _ _ Hs e i _ _ OFFSET_EntryProtocols OFFSET_OpenList Hre Hi) as (_ & ? & _); [right; left|right; right; left|done|done].
    - destruct (object_node Max F owner _ _ Hs p i _ _ OFFSET_HandleProtocols OFFSET_OpenList Hh Hi) as (_ & ? & _); [right; left|right; right; left|done|done]. }
  set (F' := delete (i + OFFSET_OpenList) F2).
  assert (Hsub : forall x, within F' x -> within F2 x) by (intros x (hd & l & [_ Hl]%lookup_delete_Some & Hx); by exists hd, l).
  destruct (FreePool_spec F' (set_links h2 db2) i (AnInterface ri)) as (db' & Hfree & Hf' & HO & Hsg & Hkeep3).
  { cbn [set_links db2 put set_objects objects]. by rewrite lookup_insert_ne. }
  { by apply family_drop. }
  { intros k Hk'. cbn [offsets] in Hk'. rewrite !elem_of_cons in Hk'. destruct Hk' as [->|[->|[->|Hk']]]; [| | |by apply elem_of_nil in Hk'].
    - intros Hw%Hsub. done.
    - intros Hw%Hsub. apply Hn1. by apply (within_shrink F1 (p + OFFSET_HandleProtocols) m1 (i + OFFSET_InterfaceLink) m2).
    - intros (hd & l & [Hne Hl]%lookup_delete_Some & Hx). apply elem_of_cons in Hx as [?|Hx]; [done|]. by apply (family_head h2 F2 _ [] hd l Hf2 Hnil2 Hl). }
  eexists _, db2, db'. split; [done|]. eexists. split; [done|]. split; [done|].
  assert (HO2 : objects db' = delete i (<[p := AHandle rn]> (objects db1))) by done.
  split; [|split; [by rewrite HO2, HO1|destruct Hsg as [_ Hr Ha Hc], Hsg1 as [_ Hr1 Ha1 Hc1]; cbn [set_links db2 put set_objects set_key mEfiLocateHandleRequest Acquired Calls] in *; split; [congruence|split; congruence]]].
  set (db2' := put p (AHandle rn) (set_key (u64 (gHandleDatabaseKey db + 1)) db1)).
  assert (Hinv2 : inv Max F owner db2') by (apply (inv_put_handle F owner _ p rh); [by apply inv_set_key|done]).
  pose proof (inv_shape _ _ _ _ Hinv2) as Hs2. set (O2 := <[p := AHandle rn]> (objects db1)) in *.
  assert (Hi2 : O2 !! i = Some (AnInterface ri)) by (unfold O2; by rewrite lookup_insert_ne).
  assert (Hmem : forall hd x, member F' hd x <-> member F hd x /\ x <> i + OFFSET_ByProtocol /\ x <> i + OFFSET_InterfaceLink).
  { intros hd x. unfold F'. rewrite (member_drop F2) by done. unfold F2. rewrite (member_remove h' F1 _ m1 m2) by done.
    unfold F1. rewrite (member_remove (links db) F _ l1 l2) by (done || apply Hs). tauto. }
  apply (inv_del F F' owner db2' db' i); [done| |done| |].
  - rewrite HO2. apply (shape_remove Max F F' owner O2 (links db1) (links db') i (AnInterface ri)); try done.
    + intros hd. unfold F', F2, F1. rewrite is_Some_delete, !is_Some_insert. cbn [heads]. setoid_rewrite list_elem_of_singleton.
      assert (is_Some (F !! (p + OFFSET_HandleProtocols))) by by eexists. assert (is_Some (F !! (e + OFFSET_EntryProtocols))) by by eexists. split.
      * intros [Hne Hhd]. split; [by destruct Hhd as [->|[->|?]]|]. by intros (k & -> & ->).
      * intros [Hhd Hnot]. split; [|by right; right]. intros ->. apply Hnot. by exists OFFSET_OpenList.
    + intros hd x. rewrite Hmem. cbn [members]. split.
      * intros (? & Hx1 & Hx2). split; [done|]. intros (k & Hk & ->). rewrite !elem_of_cons in Hk. destruct Hk as [->|[->|Hk]]; [done|done|by apply elem_of_nil in Hk].
      * intros [? Hnot]. split; [done|]. split; intros ->; apply Hnot; [exists OFFSET_ByProtocol|exists OFFSET_InterfaceLink]; (split; [|done]); [right; left|left].
    + intros x ox k Hxq Hx Hk'. apply (nodes_freed F owner O2 (links db1) h2 (links db') i (AnInterface ri) x ox k); try done.
      rewrite Hk1. eapply keeps_trans; [exact Hkeep1|exact Hkeep2].
    + intros x ox Hxq Hx. pose proof (sh_refers _ _ _ _ _ Hs2 x ox Hx) as Hr. destruct ox as [|r|r|r|r|r]; try done; unfold refers, is_handle, is_entry, is_interface in *.
      * destruct Hr as [[a' Ha] [b' Hb']]. split; [exists a'|exists b']; (rewrite lookup_delete_ne; [done|]); intros Heq; [rewrite <-Heq in Ha; change (O2 !! i = Some (AHandle a')) in Ha|rewrite <-Heq in Hb'; change (O2 !! i = Some (AnEntry b')) in Hb']; congruence.
      * destruct Hr as (j & Hj & [a' Ha]). exists j. split; [done|]. exists a'. rewrite lookup_delete_ne; [done|]. intros <-.
        assert (Hin : x + OFFSET_OpenLink ∈ []); [|by apply elem_of_nil in Hin].
        apply (in_open_list Max F owner _ _ Hs2 i ri [] _ Hi2 Hnil). exists r. by rewrite Z.add_simpl_r.
      * destruct Hr as [b' Hb']. exists b'. rewrite lookup_delete_ne; [done|]. intros Heq. rewrite <-Heq in Hb'. change (O2 !! i = Some (AnEntry b')) in Hb'. congruence.
  - intros x s Hxi Hx. unfold F', F2, F1. change (O2 !! x = Some (AnInterface s)) in Hx. assert (Hh2 : O2 !! p = Some (AHandle rn)) by apply lookup_insert_eq.
    assert (He2 : O2 !! e = Some (AnEntry re)) by (unfold O2; rewrite lookup_insert_ne by (intros Heq; congruence); by rewrite HO1, lookup_fmap, Hre).
    rewrite lookup_delete_ne, !lookup_insert_ne; [done| | |unfold OFFSET_OpenList; lia]; intros Heq.
    + destruct (object_node Max F owner _ _ Hs2 e x _ _ OFFSET_EntryProtocols OFFSET_OpenList He2 Hx) as (_ & ? & _); [right; left|right; right; left|done|done].
    + destruct (object_node Max F owner _ _ Hs2 p x _ _ OFFSET_HandleProtocols OFFSET_OpenList Hh2 Hx) as (_ & ? & _); [right; left|right; right; left|done|done].
  - intros x s Hxq Hx (l & Hl' & Hin). apply Hmem. split; [by exists l|]. split; intros Heq.
    + assert (Hx1 : objects db1 !! x = Some (ANotify s)).
      { change (O2 !! x = Some (ANotify s)) in Hx. unfold O2 in Hx. by apply lookup_insert_Some in Hx as [[_ ?]|[_ ?]]. }
      by apply (taken_off_position F owner db i ri b l1 l2 db1 h' x s Ht Hx1).
    + destruct (position_link F owner _ _ _ l _ i (AnInterface ri) OFFSET_InterfaceLink Hs2 (sh_refers _ _ _ _ _ Hs2 x _ Hx) Hl' Hin Hi2) as [? _]; [left|done|done].
Qed.

(** The interface joins the list again, at its end. *)
Lemma MoveInterface_spec F owner db i ri b l1 l2 db1 h' v : inv Max F owner db -> objects db !! i = Some (AnInterface ri) ->
  taken_off F owner db i ri b l1 l2 db1 h' -> let o := AnInterface (MkInterface (Handle ri) (Protocol ri) v (OpenListCount ri)) in
  exists db', insert_tail Verify Max (Protocol ri + OFFSET_EntryProtocols) (i + OFFSET_ByProtocol) (put i o (set_links h' db1)) = Ok db' /\
    inv Max (<[Protocol ri + OFFSET_EntryProtocols := l1 ++ l2 ++ [i + OFFSET_ByProtocol]]> F) owner db' /\ same_globals db db' /\
    objects db' = <[i := o]> (step_back i b <$> objects db).
Proof.
  intros Hinv Hi Ht o. pose proof Ht as [Hinv1 Hk1 Hsg1 HO1 Hb Hle Hf1 Hn1 Hkeep1]. pose proof (inv_shape _ _ _ _ Hinv) as Hs.
  set (e := Protocol ri) in *. assert (Hi1 : objects db1 !! i = Some (AnInterface ri)) by (by rewrite HO1, lookup_fmap, Hi).
  set (F1 := <[e + OFFSET_EntryProtocols := l1 ++ l2]> F) in *. assert (Hl1 : F1 !! (e + OFFSET_EntryProtocols) = Some (l1 ++ l2)) by apply lookup_insert_eq.
  assert (Hnode : is_Some (links db !! (i + OFFSET_ByProtocol))) by (apply (sh_nodes _ _ _ _ _ Hs i (AnInterface ri)); [done|right; left]).
  destruct (insert_tail_step Verify Max F1 (put i o (set_links h' db1)) _ (l1 ++ l2) (i + OFFSET_ByProtocol) Hf1 Hl1) as (h2 & -> & Hf2 & Hk2).
  { pose proof (hand_list_capacity Max F owner _ _ Hs _ _ Hle) as Hcap. unfold capacity in *. rewrite length_app in *. simpl in Hcap. lia. }
  { by apply Hkeep1. }
  { done. }
  { pose proof (object_block Max F owner _ _ Hs i _ Hi). by apply (block_head Max). }
  unfold F1 in Hf2. rewrite insert_insert_eq, <-app_assoc in Hf2. set (F2 := <[e + OFFSET_EntryProtocols := l1 ++ l2 ++ [i + OFFSET_ByProtocol]]> F) in *. eexists. split; [done|].
  split; [|split; [by destruct Hsg1|by rewrite <-HO1]].
  assert (Hmem : forall hd x, member F2 hd x <-> member F hd x).
  { intros hd x. unfold F2. rewrite hand_member_insert. destruct (decide (hd = e + OFFSET_EntryProtocols)) as [->|Hne]; [|naive_solver].
    assert (Hm : member F (e + OFFSET_EntryProtocols) x <-> x ∈ l1 ++ (i + OFFSET_ByProtocol) :: l2).
    { split; [|by eexists]. intros (m & Hm & Hx). rewrite Hle in Hm. by injection Hm as <-. }
    rewrite Hm, !elem_of_app, !elem_of_cons. assert (x ∉ []) by apply not_elem_of_nil. split; [intros [[_ Hx]|[Hx _]]; [tauto|done]|intros Hx; left; split; [done|tauto]]. }
  pose proof (inv_put_interface Max F owner db1 i ri (MkInterface (Handle ri) e v (OpenListCount ri)) Hinv1 Hi1 eq_refl eq_refl
    (fun l => inv_count _ _ _ _ Hinv1 i ri l Hi1)) as Hinv2.
  pose proof Hinv2 as [Hs2 Hg2 Ho2 Hc2 Hpos2 Hex2]. split; cbn [set_links put set_objects objects links] in *; try done.
  - apply (shape_move Max F F2 owner _ (links db1) h2); try done.
    + intros hd. unfold F2. rewrite is_Some_insert. assert (is_Some (F !! (e + OFFSET_EntryProtocols))) by by eexists.
      split; [by intros [->|?]|by right].
    + intros x Hx. apply Hk2. apply Hkeep1. by rewrite <-Hk1.
  - intros q r l Hq Hl. apply (Hc2 q); [done|]. unfold F2 in Hl. destruct (decide (e + OFFSET_EntryProtocols = q + OFFSET_OpenList)) as [Heq|Hne].
    + destruct (sh_refers _ _ _ _ _ Hs2 i (AnInterface (MkInterface (Handle ri) e v (OpenListCount ri)))) as [_ [re Hre]]; [apply lookup_insert_eq|].
      destruct (object_node Max F owner _ _ Hs2 e q _ _ OFFSET_EntryProtocols OFFSET_OpenList Hre Hq) as (_ & ? & _); [right; left|right; right; left|done|done].
    + by rewrite lookup_insert_ne in Hl.
  - intros q r Hq. destruct (Hpos2 q r Hq) as [?|?]; [by left|right; by apply Hmem].
Qed.
End Uninstall.
