(* ===== verification/HandleDriver.v ===== *)
(** * Handles and protocols: drivers

    What the database promises to its users and what it relies on: when a driver
    is disconnected from a controller, it closes the protocols that it has open
    there.  The loops that disconnect all drivers of an interface end. *)

From S2P Require Import Prelude LinkedList ListFamily Handle HandleInv HandleLookup.

(** ** What is in the database *)

(** The handle [h] has the interface [v] of the protocol [g]. *)
Definition Installed (db : Database) (h : ptr) (g : EFI_GUID) (v : Z) : Prop := exists i, provides (objects db) i h g v.

Definition IsHandle (db : Database) (h : ptr) : Prop := is_handle (objects db) h.

(** The record [q] of an open of the interface [i]. *)
Definition opened (db : Database) (i q : ptr) (r : OPEN_PROTOCOL_DATA) : Prop :=
  objects db !! q = Some (AnOpen r) /\ exists l, dlist (links db) (i + OFFSET_OpenList) l /\ q + OFFSET_OpenLink ∈ l.

(** [i] is the same interface. *)
Definition same_interface (db db' : Database) (i : ptr) : Prop :=
  forall r, objects db !! i = Some (AnInterface r) -> exists r', objects db' !! i = Some (AnInterface r') /\
    Handle r' = Handle r /\ Protocol r' = Protocol r /\ Interface r' = Interface r.

(** No driver has [i] open that had not before; and nobody excludes others that
    did not. *)
Definition no_new_users (db db' : Database) (i : ptr) : Prop :=
  (forall q r, opened db' i q r -> by_driver r = true -> exists q' r', opened db i q' r' /\ by_driver r' = true /\ AgentHandle r' = AgentHandle r) /\
  (forall q r, opened db' i q r -> excludes r = true -> exists q' r', opened db i q' r' /\ excludes r' = true).

Definition entries_stay (db db' : Database) : Prop := forall e g, objects db !! e = Some (AnEntry g) -> objects db' !! e = Some (AnEntry g).

(** The interfaces of the protocol entry [pe]. *)
Definition entry_head (pe : ptr) : ptr := pe + OFFSET_EntryProtocols.

(** The links of the interfaces that the registration [n] has not seen yet. *)
Definition pending (db : Database) (n : ptr) (xs : list ptr) : Prop :=
  exists r l1, objects db !! n = Some (ANotify r) /\ dlist (links db) (entry_head (NotifyProtocol r)) (l1 ++ xs) /\
    Position r = List.last (entry_head (NotifyProtocol r) :: l1) 0.

(** The protocol of a registration. *)
Definition registered_for (db : Database) (n : ptr) (g : EFI_GUID) : Prop :=
  exists r, objects db !! n = Some (ANotify r) /\ objects db !! NotifyProtocol r = Some (AnEntry (MkEntry g)).

(** What the drivers promise (UEFI specification, DisconnectController and the
    driver binding protocol): they leave the database in order; a driver that is
    disconnected closes the protocols of the controller that it has open
    [BY_DRIVER], and does not remove them. *)
Class DriverLaws `{Platform} `{Drivers} (Max : nat) `{!PoolLaws Max} := {
  Disconnect_ok : forall db h a, valid Max db -> exists Status db', CoreDisconnectController db h a = Ok (Status, db') /\ valid Max db' /\
    entries_stay db db' /\
    (EFI_ERROR Status = false -> forall i ri q r, objects db !! i = Some (AnInterface ri) -> Handle ri = h ->
       opened db i q r -> by_driver r = true -> AgentHandle r = a ->
       same_interface db db' i /\ no_new_users db db' i /\ forall q' r', opened db' i q' r' -> by_driver r' = true -> AgentHandle r' <> a);
  Connect_ok : forall db h, valid Max db -> exists db', CoreConnectController db h = Ok db' /\ valid Max db' /\ entries_stay db db' }.

(** Disconnecting the drivers of the interface [i] of the handle [h], one after
    the other, until none has it open or one fails: the status of the last call
    and the database after it.  (The lock is not held during the calls.) *)
Inductive disconnecting `{Drivers} (h i : ptr) : Database -> EFI_STATUS -> Database -> Prop :=
| disconnected db : (forall q r, opened db i q r -> by_driver r = false) -> disconnecting h i db EFI_SUCCESS db
| disconnect_fails db q r Status db' : opened db i q r -> by_driver r = true ->
    CoreDisconnectController db h (AgentHandle r) = Ok (Status, db') -> EFI_ERROR Status = true -> disconnecting h i db Status db'
| disconnect_next db q r db1 Status db' : opened db i q r -> by_driver r = true ->
    CoreDisconnectController db h (AgentHandle r) = Ok (EFI_SUCCESS, db1) -> disconnecting h i db1 Status db' -> disconnecting h i db Status db'.

(** ** Open records *)

Lemma linked_unique h (hd : ptr) l1 : forall a l2, linked h (a :: l1 ++ [hd]) -> linked h (a :: l2 ++ [hd]) -> hd ∉ l1 -> hd ∉ l2 -> l1 = l2.
Proof.
  induction l1 as [|x l1 IH]; intros a [|y l2] H1 H2 Hn1 Hn2; [done| | |].
  - destruct H1 as (Hf1 & _), H2 as (Hf2 & _). destruct Hn2. rewrite Hf1 in Hf2. injection Hf2 as <-. left.
  - destruct H1 as (Hf1 & _), H2 as (Hf2 & _). destruct Hn1. rewrite Hf2 in Hf1. injection Hf1 as <-. left.
  - destruct H1 as (Hf1 & _ & H1), H2 as (Hf2 & _ & H2). rewrite Hf1 in Hf2. injection Hf2 as <-. f_equal.
    apply (IH x l2 H1 H2); intros ?; [apply Hn1|apply Hn2]; by right.
Qed.

Lemma dlist_unique h hd l1 l2 : dlist h hd l1 -> dlist h hd l2 -> l1 = l2.
Proof.
  intros (Hn1 & _ & H1) (Hn2 & _ & H2). apply NoDup_cons in Hn1 as [Hn1 _], Hn2 as [Hn2 _]. by apply (linked_unique h hd l1 hd).
Qed.

Lemma size_of_list (l : list ptr) : (size (list_to_set l : gset ptr) <= length l)%nat.
Proof.
  induction l as [|x l IH]; [done|]. cbn [list_to_set length]. rewrite size_union_alt, size_singleton.
  assert (Hsub : (size (list_to_set l ∖ {[x]} : gset ptr) <= size (list_to_set l : gset ptr))%nat) by (apply subseteq_size; set_solver). lia.
Qed.

Section Opens.
Context `{Platform} (Max : nat) `{!PoolLaws Max}.
Context F owner db (Hs : shape Max F owner (objects db) (links db)).

Lemma opened_owner i ri q r : objects db !! i = Some (AnInterface ri) -> opened db i q r <-> objects db !! q = Some (AnOpen r) /\ owner !! q = Some i.
Proof.
  intros Hi. destruct (head_list Max F owner _ _ Hs i _ OFFSET_OpenList Hi) as [l Hl]; [left|].
  pose proof (in_open_list Max F owner _ _ Hs i ri l (q + OFFSET_OpenLink) Hi Hl) as Hin. rewrite Z.add_simpl_r in Hin. unfold opened. split.
  - intros (Hq & l' & Hl' & Hx). split; [done|]. rewrite (dlist_unique _ _ l' l Hl') in Hx by (by apply (shape_dlist Max F owner db Hs)).
    by apply Hin in Hx as (_ & _ & ?).
  - intros [Hq Ho]. split; [done|]. exists l. split; [by apply (shape_dlist Max F owner db Hs)|]. apply Hin. by exists r.
Qed.

(** The agents that have [i] open as drivers. *)
Definition agents (l : list ptr) : gset ptr :=
  list_to_set (omap (fun x => match objects db !! (x - OFFSET_OpenLink) with
                              | Some (AnOpen r) => if by_driver r then Some (AgentHandle r) else None
                              | _ => None end) l).

Lemma elem_of_agents i ri l a : objects db !! i = Some (AnInterface ri) -> F !! (i + OFFSET_OpenList) = Some l ->
  a ∈ agents l <-> exists q r, opened db i q r /\ by_driver r = true /\ AgentHandle r = a.
Proof.
  intros Hi Hl. unfold agents. rewrite elem_of_list_to_set, list_elem_of_omap. setoid_rewrite (opened_owner i ri _ _ Hi). split.
  - intros (x & Hx & Hm). apply (in_open_list Max F owner _ _ Hs i ri l x Hi Hl) in Hx as (r & Hr & Ho). rewrite Hr in Hm.
    destruct (by_driver r) eqn:Hd; [|done]. injection Hm as <-. by exists (x - OFFSET_OpenLink), r.
  - intros (q & r & [Hq Ho] & Hd & <-). exists (q + OFFSET_OpenLink). rewrite Z.add_simpl_r, Hq, Hd. split; [|done].
    apply (in_open_list Max F owner _ _ Hs i ri l _ Hi Hl). exists r. by rewrite Z.add_simpl_r.
Qed.

Lemma agents_size i ri l : objects db !! i = Some (AnInterface ri) -> F !! (i + OFFSET_OpenList) = Some l -> (size (agents l) <= size (objects db))%nat.
Proof.
  intros Hi Hl. transitivity (length l).
  - unfold agents. etransitivity; [apply size_of_list|]. clear. induction l as [|x l IH]; [done|]. cbn [omap list_omap].
    destruct (objects db !! _) as [[]|]; try (destruct (by_driver _)); simpl in *; lia.
  - destruct (family_NoDup _ _ _ _ (sh_family _ _ _ _ _ Hs) Hl) as [Hnd _]. rewrite <-(length_fmap (fun x => x - OFFSET_OpenLink)).
    rewrite <-size_dom, <-(size_list_to_set (C := gset ptr)).
    + apply subseteq_size. intros q (x & -> & Hx)%elem_of_list_to_set%list_elem_of_fmap.
      apply (in_open_list Max F owner _ _ Hs i ri l x Hi Hl) in Hx as (r & Hr & _). apply elem_of_dom. by eexists.
    + apply NoDup_fmap_2_strong; [|done]. intros x y _ _ Heq. lia.
Qed.

Lemma FindByDriver_spec i ri : objects db !! i = Some (AnInterface ri) ->
  exists q, FindByDriver i db = Ok q /\ ((q = NULL /\ forall q' r, opened db i q' r -> by_driver r = false) \/
                                         (q <> NULL /\ exists r, opened db i q r /\ by_driver r = true)).
Proof.
  intros Hi. destruct (head_list Max F owner _ _ Hs i _ OFFSET_OpenList Hi) as [l Hl]; [left|].
  pose proof (fun x => in_open_list Max F owner _ _ Hs i ri l x Hi Hl) as Hin.
  set (f := fun x => match objects db !! (x - OFFSET_OpenLink) with Some (AnOpen r) => by_driver r | _ => false end).
  eexists. split; [apply (search_find db _ l _ f (fun x => x - OFFSET_OpenLink)); [by apply (shape_dlist Max F owner db Hs)|]|].
  - intros x (r & Hr & _)%Hin. unfold f. cbv zeta. rewrite (open_at_Some _ _ _ Hr), Hr. cbn [mbind result_bind].
    unfold by_driver. by destruct (has _ _).
  - destruct (List.find f l) as [x|] eqn:Hf; [right|left].
    + apply find_Some_split in Hf as [Hx Hf]. apply Hin in Hx as (r & Hr & Ho). unfold f in Hf. rewrite Hr in Hf.
      split; [by eapply (object_not_null Max F owner db Hs)|]. exists r. by rewrite (opened_owner i ri).
    + split; [done|]. intros q r [Hq Ho]%(opened_owner i ri); [|done].
      assert (Hx : q + OFFSET_OpenLink ∈ l) by (apply Hin; exists r; by rewrite Z.add_simpl_r).
      apply (find_None_all _ _ _ Hf) in Hx. unfold f in Hx. by rewrite Z.add_simpl_r, Hq in Hx.
Qed.
End Opens.

(** ** Disconnecting drivers *)

Lemma same_interface_refl db i : same_interface db db i.
Proof. intros r Hr. by exists r. Qed.

Lemma same_interface_trans db1 db2 db3 i : same_interface db1 db2 i -> same_interface db2 db3 i -> same_interface db1 db3 i.
Proof.
  intros H1 H2 r Hr. destruct (H1 r Hr) as (r2 & Hr2 & Hh & Hp & Hi). destruct (H2 r2 Hr2) as (r3 & Hr3 & ? & ? & ?). exists r3. repeat split; congruence.
Qed.

Lemma no_new_users_refl db i : no_new_users db db i.
Proof. split; intros q r Hq Hr; exists q, r; done. Qed.

Lemma no_new_users_trans db1 db2 db3 i : no_new_users db1 db2 i -> no_new_users db2 db3 i -> no_new_users db1 db3 i.
Proof.
  intros [H1 H1'] [H2 H2']. split; intros q r Hq Hr.
  - destruct (H2 q r Hq Hr) as (q2 & r2 & Hq2 & Hr2 & Ha2). destruct (H1 q2 r2 Hq2 Hr2) as (q1 & r1 & Hq1 & Hr1 & Ha1).
    exists q1, r1. repeat split; try done; try apply Hq1. congruence.
  - destruct (H2' q r Hq Hr) as (q2 & r2 & Hq2 & Hr2). by apply (H1' q2 r2).
Qed.

Lemma entries_stay_trans db1 db2 db3 : entries_stay db1 db2 -> entries_stay db2 db3 -> entries_stay db1 db3.
Proof. intros H1 H2 e g He. by apply H2, H1. Qed.

Section Loops.
Context `{Platform} `{Drivers} (Max : nat) `{!PoolLaws Max} `{!DriverLaws Max}.

Lemma consistent_acquired db b : consistent Max db -> consistent Max (set_acquired b db).
Proof. intros (F & owner & [Hs Hg Ho Hc Hpos Hex] & Hu). exists F, owner. by split. Qed.

Lemma acquire_release db b c : set_acquired b (set_acquired c db) = set_acquired b db.
Proof. done. Qed.

Lemma set_acquired_same db : set_acquired (Acquired db) db = db.
Proof. by destruct db. Qed.

Lemma acquire_ok db : Acquired db = false -> CoreAcquireProtocolLock db = Ok (set_acquired true db).
Proof. intros Ha. unfold CoreAcquireProtocolLock. by rewrite Ha. Qed.

Lemma release_ok db : Acquired db = true -> CoreReleaseProtocolLock db = Ok (set_acquired false db).
Proof. intros Ha. unfold CoreReleaseProtocolLock. by rewrite Ha. Qed.

(** One driver. *)
Lemma disconnect_step db i ri q r : consistent Max db -> Acquired db = true -> objects db !! i = Some (AnInterface ri) ->
  opened db i q r -> by_driver r = true ->
  exists Status db', (let! db := CoreReleaseProtocolLock db in let! (Status, db) := CoreDisconnectController db (Handle ri) (AgentHandle r) in
      let! db := CoreAcquireProtocolLock db in Ok (Status, db)) = Ok (Status, db') /\
    CoreDisconnectController (set_acquired false db) (Handle ri) (AgentHandle r) = Ok (Status, set_acquired false db') /\
    consistent Max db' /\ Acquired db' = true /\ entries_stay db db' /\
    (EFI_ERROR Status = false -> same_interface db db' i /\ no_new_users db db' i /\
       forall q' r', opened db' i q' r' -> by_driver r' = true -> AgentHandle r' <> AgentHandle r).
Proof.
  intros Hc Ha Hi Hq Hd. destruct (Disconnect_ok (set_acquired false db) (Handle ri) (AgentHandle r)) as (Status & db1 & Heq & [Ha1 Hc1] & Hst & Hok).
  { split; [done|]. by apply consistent_acquired. }
  exists Status, (set_acquired true db1). unfold CoreReleaseProtocolLock, CoreAcquireProtocolLock. rewrite Ha. cbn [ASSERT mbind result_bind]. rewrite Heq.
  cbn [mbind result_bind]. rewrite Ha1. cbn [negb ASSERT mbind result_bind]. split; [done|]. split; [by rewrite acquire_release, <-Ha1, set_acquired_same|].
  split; [by apply consistent_acquired|]. split; [done|]. split; [done|].
  intros He. apply (Hok He i ri q r); done.
Qed.

(** All drivers: those that are left are fewer and fewer. *)
Lemma DisconnectControllers_spec i fuel : forall F owner db ri l Status, inv Max F owner db -> used F (objects db) NULL -> Acquired db = true ->
  objects db !! i = Some (AnInterface ri) -> F !! (i + OFFSET_OpenList) = Some l -> (size (agents db l) < fuel)%nat -> EFI_ERROR Status = false ->
  exists Status' db', DisconnectControllers_loop fuel (Handle ri) i Status db = Ok (Status', db') /\
    consistent Max db' /\ Acquired db' = true /\ entries_stay db db' /\
    disconnecting (Handle ri) i (set_acquired false db) Status' (set_acquired false db') /\
    (EFI_ERROR Status' = false -> same_interface db db' i /\ no_new_users db db' i /\ forall q r, opened db' i q r -> by_driver r = false) /\
    ((forall q r, opened db i q r -> by_driver r = false) -> Status' = Status /\ db' = db).
Proof.
  induction fuel as [|fuel IH]; intros F owner db ri l Status Hinv Hu Ha Hi Hl Hfuel HS; [lia|]. cbn [DisconnectControllers_loop].
  pose proof (inv_shape _ _ _ _ Hinv) as Hs. destruct (FindByDriver_spec Max F owner db Hs i ri Hi) as (q & -> & Hq). cbn [mbind result_bind].
  destruct Hq as [[-> Hnone]|[Hqn (r & Hq & Hd)]].
  { rewrite Z.eqb_refl. apply EFI_ERROR_false in HS as ->. exists EFI_SUCCESS, db. split; [done|]. split; [by exists F, owner|]. split; [done|]. split; [by intros e g|].
    split; [by apply disconnected|]. split; [|done]. intros _. split; [apply same_interface_refl|]. split; [apply no_new_users_refl|done]. }
  rewrite (proj2 (Z.eqb_neq _ _) Hqn), (open_at_Some db q r) by apply Hq. cbn [mbind result_bind].
  destruct (disconnect_step db i ri q r) as (Status1 & db1 & Heq & Hcall & Hc1 & Ha1 & Hst1 & Hok1); [by exists F, owner|done..|].
  destruct (CoreReleaseProtocolLock db) as [dbr| | |]; [|done..]. cbn [mbind result_bind] in Heq |- *.
  destruct (CoreDisconnectController dbr _ _) as [[St dbd]| | |]; [|done..]. cbn [mbind result_bind] in Heq |- *.
  destruct (CoreAcquireProtocolLock dbd) as [dba| | |]; [|done..]. cbn [mbind result_bind] in Heq |- *. injection Heq as -> ->.
  destruct (EFI_ERROR Status1) eqn:HS1.
  { exists Status1, db1. split; [done|]. do 3 (split; [done|]). split; [by apply (disconnect_fails _ _ _ q r)|]. split; [congruence|]. intros Hnone. by rewrite (Hnone q r Hq) in Hd. }
  destruct (Hok1 eq_refl) as (Hsame1 & Husers1 & Hgone1). destruct (Hsame1 ri Hi) as (ri1 & Hi1 & Hh1 & _). rewrite <-Hh1.
  destruct Hc1 as (F1 & owner1 & Hinv1 & Hu1). pose proof (inv_shape _ _ _ _ Hinv1) as Hs1.
  destruct (head_list Max F1 owner1 _ _ Hs1 i _ OFFSET_OpenList Hi1) as [l1 Hl1]; [left|].
  destruct (IH F1 owner1 db1 ri1 l1 Status1 Hinv1 Hu1 Ha1 Hi1 Hl1) as (Status' & db' & Heq & Hc' & Ha' & Hst' & Hdis & Hok' & _); [|done|].
  { assert (Hlt : (size (agents db1 l1) < size (agents db l))%nat); [|lia]. apply subset_size. split.
    - intros a (q1 & r1 & Hq1 & Hd1 & <-)%(elem_of_agents Max F1 owner1 db1 Hs1 i ri1 l1 a Hi1 Hl1).
      apply (elem_of_agents Max F owner db Hs i ri l _ Hi Hl). by apply (proj1 Husers1 q1 r1).
    - intros Hsub. assert (Hin : AgentHandle r ∈ agents db l) by (apply (elem_of_agents Max F owner db Hs i ri l _ Hi Hl); by exists q, r).
      apply Hsub in Hin. apply (elem_of_agents Max F1 owner1 db1 Hs1 i ri1 l1 _ Hi1 Hl1) in Hin as (q1 & r1 & Hq1 & Hd1 & Hag). by apply (Hgone1 q1 r1). }
  exists Status', db'. split; [done|]. split; [done|]. split; [done|]. split; [by eapply entries_stay_trans|].
  split; [apply EFI_ERROR_false in HS1 as ->; rewrite Hh1 in Hdis |- *; by apply (disconnect_next _ _ _ q r (set_acquired false db1))|]. split.
  - intros HS'. destruct (Hok' HS') as (Hsame' & Husers' & Hnone'). split; [by eapply same_interface_trans|]. split; [by eapply no_new_users_trans|done].
  - intros Hnone. by rewrite (Hnone q r Hq) in Hd.
Qed.

(** The loop of [CoreOpenProtocol] differs in its status. *)
Lemma OpenProtocol_disconnect_eq h i fuel : forall db Status, EFI_ERROR Status = false ->
  OpenProtocol_disconnect fuel h i db =
  (let! (Status, db) := DisconnectControllers_loop fuel h i Status db in Ok (if EFI_ERROR Status then EFI_ACCESS_DENIED else EFI_SUCCESS, db)).
Proof.
  induction fuel as [|fuel IH]; intros db Status HS; [done|]. cbn [OpenProtocol_disconnect DisconnectControllers_loop].
  destruct (FindByDriver i db) as [q| | |]; [|done..]. cbn [mbind result_bind]. destruct (q =? NULL); [cbn [mbind result_bind]; by rewrite HS|].
  destruct (open_at db q) as [r| | |]; [|done..]. cbn [mbind result_bind]. destruct (CoreReleaseProtocolLock db) as [dbr| | |]; [|done..]. cbn [mbind result_bind].
  destruct (CoreDisconnectController dbr _ _) as [[St dbd]| | |]; [|done..]. cbn [mbind result_bind].
  destruct (CoreAcquireProtocolLock dbd) as [dba| | |]; [|done..]. cbn [mbind result_bind]. destruct (EFI_ERROR St) eqn:HSt; [cbn [mbind result_bind]; by rewrite HSt|].
  by apply IH.
Qed.
End Loops.
