(* ===== verification/HandleOpen.v ===== *)
(** * Handles and protocols: opening

    [CoreOpenProtocol] and [CoreCloseProtocol], for every mode. *)

From S2P Require Import Prelude LinkedList ListFamily Handle HandleInv HandleLookup HandleShape HandleCreate HandleRemove HandleDriver.

(** ** The scan of the open records *)

(** A record of the same agent, controller and mode. *)
Definition ExactMatch (ImageHandle ControllerHandle' : ptr) (Attributes' : Z) (r : OPEN_PROTOCOL_DATA) : bool :=
  (AgentHandle r =? ImageHandle) && (Attributes r =? Attributes') && (ControllerHandle r =? ControllerHandle').

(** A record that decides: the driver has started, or opens once more. *)
Definition decides (ih ch : ptr) (attr : Z) (r : OPEN_PROTOCOL_DATA) : bool := ExactMatch ih ch attr r && (by_driver r || negb (excludes r)).

Definition open_once_more (r : OPEN_PROTOCOL_DATA) : OPEN_PROTOCOL_DATA := MkOpen (AgentHandle r) (ControllerHandle r) (Attributes r) (u32 (OpenCount r + 1)).

(** [f] of the open record with the link [x]. *)
Definition at_open (O : objs) (f : OPEN_PROTOCOL_DATA -> bool) (x : ptr) : bool :=
  match O !! (x - OFFSET_OpenLink) with Some (AnOpen r) => f r | _ => false end.

Section Open.
Context `{Platform} (Verify : bool) (Max : nat) `{!PoolLaws Max}.
Implicit Types (F : lists) (db : Database).

Definition scan_body (ih ch : ptr) (attr : Z) (Link : ptr) (s : OpenScan) : result (OpenScan * bool) :=
  let db := scan_db s in
  let OpenData := Link - OFFSET_OpenLink in
  let! r := open_at db OpenData in
  let ExactMatch := (AgentHandle r =? ih) && (Attributes r =? attr) && (ControllerHandle r =? ch) in
  let ByDriver' := has (Attributes r) EFI_OPEN_PROTOCOL_BY_DRIVER in
  if ByDriver' && ExactMatch then Ok (MkScan db true (Exclusive s) (Some EFI_ALREADY_STARTED), true) else
  let s := MkScan db (ByDriver s || ByDriver') (Exclusive s) None in
  if has (Attributes r) EFI_OPEN_PROTOCOL_EXCLUSIVE then Ok (MkScan db (ByDriver s) true None, false)
  else if ExactMatch then
    let db := put OpenData (AnOpen (MkOpen (AgentHandle r) (ControllerHandle r) (Attributes r) (u32 (OpenCount r + 1)))) db in
    Ok (MkScan db (ByDriver s) (Exclusive s) (Some EFI_SUCCESS), true)
  else Ok (s, false).

Lemma scan_body_at ih ch attr db bd ex x r : objects db !! (x - OFFSET_OpenLink) = Some (AnOpen r) ->
  scan_body ih ch attr x (MkScan db bd ex None) = Ok (
    if by_driver r && ExactMatch ih ch attr r then (MkScan db true ex (Some EFI_ALREADY_STARTED), true)
    else if excludes r then (MkScan db (bd || by_driver r) true None, false)
    else if ExactMatch ih ch attr r then (MkScan (put (x - OFFSET_OpenLink) (AnOpen (open_once_more r)) db) (bd || by_driver r) ex (Some EFI_SUCCESS), true)
    else (MkScan db (bd || by_driver r) ex None, false)).
Proof.
  intros Hr. unfold scan_body. cbv zeta. cbn [scan_db]. rewrite (open_at_Some _ _ _ Hr). cbn [mbind result_bind].
  unfold by_driver, excludes, ExactMatch. by destruct (has (Attributes r) _), ((AgentHandle r =? ih) && (Attributes r =? attr) && (ControllerHandle r =? ch)), (has (Attributes r) EFI_OPEN_PROTOCOL_EXCLUSIVE).
Qed.

Lemma scan_iterate ih ch attr db (l : list ptr) : forall bd ex, (forall x, x ∈ l -> exists r, objects db !! (x - OFFSET_OpenLink) = Some (AnOpen r)) ->
  exists s, iterate (scan_body ih ch attr) l (MkScan db bd ex None) = Ok s /\
    match List.find (at_open (objects db) (decides ih ch attr)) l with
    | Some x => exists r, objects db !! (x - OFFSET_OpenLink) = Some (AnOpen r) /\
        scan_status s = Some (if by_driver r then EFI_ALREADY_STARTED else EFI_SUCCESS) /\
        scan_db s = if by_driver r then db else put (x - OFFSET_OpenLink) (AnOpen (open_once_more r)) db
    | None => s = MkScan db (bd || existsb (at_open (objects db) by_driver) l) (ex || existsb (at_open (objects db) excludes) l) None
    end.
Proof.
  induction l as [|x l IH]; intros bd ex Hl; cbn [iterate List.find existsb].
  { eexists. split; [done|]. by rewrite !orb_false_r. }
  destruct (Hl x) as [r Hr]; [left|]. rewrite (scan_body_at _ _ _ _ _ _ _ _ Hr). cbn [mbind result_bind].
  assert (Hat : forall f, at_open (objects db) f x = f r) by (intros f; unfold at_open; by rewrite Hr). rewrite !Hat. unfold decides at 1.
  destruct (by_driver r) eqn:Hd, (ExactMatch ih ch attr r) eqn:He, (excludes r) eqn:Hx; cbn [andb orb negb mbind result_bind];
    try (eexists; split; [done|]; exists r; by rewrite Hd); rewrite ?orb_true_r, ?orb_false_r;
    (edestruct IH as (s & Hs & Hm); [intros y Hy; apply Hl; by right|]; exists s; split; [exact Hs|]; destruct (List.find _ l); [done|]; by rewrite ?orb_true_r, ?orb_true_l in Hm |- *).
Qed.

(** What the scan finds. *)
Lemma OpenProtocol_scan_spec F owner db i ri ih ch attr l : shape Max F owner (objects db) (links db) -> objects db !! i = Some (AnInterface ri) ->
  F !! (i + OFFSET_OpenList) = Some l ->
  exists s, OpenProtocol_scan i ih ch attr db = Ok s /\
    match List.find (at_open (objects db) (decides ih ch attr)) l with
    | Some x => exists r, objects db !! (x - OFFSET_OpenLink) = Some (AnOpen r) /\
        scan_status s = Some (if by_driver r then EFI_ALREADY_STARTED else EFI_SUCCESS) /\
        scan_db s = if by_driver r then db else put (x - OFFSET_OpenLink) (AnOpen (open_once_more r)) db
    | None => s = MkScan db (existsb (at_open (objects db) by_driver) l) (existsb (at_open (objects db) excludes) l) None
    end.
Proof.
  intros Hs Hi Hl. pose proof (shape_dlist Max F owner db Hs _ _ Hl) as Hd.
  destruct (scan_iterate ih ch attr db l false false) as (s & Heq & Hm).
  { intros x Hx. apply (in_open_list Max F owner _ _ Hs i ri l x Hi Hl) in Hx as (r & Hr & _). by exists r. }
  exists s. split; [|done]. unfold OpenProtocol_scan. pose proof (dlist_size _ _ _ Hd).
  rewrite (for_list_iterate _ (links db) ForwardLink _ _ l) by first [by apply path_forward|lia|done|
    intros x t t' b _ Ht; unfold open_at; destruct (deref _) as [o| | |]; try done; cbn [mbind result_bind]; destruct o as [|r|r|r|r|r]; try done; cbn [mbind result_bind];
    destruct (_ && _); [by intros [= <- _]|]; destruct (has _ _); [by intros [= <- _]|]; destruct (_ && _); by intros [= <- _]].
  exact Heq.
Qed.

Lemma used_same F F' O O' p : used F O p -> (forall q r, O' !! q = Some (AHandle r) -> exists r', O !! q = Some (AHandle r')) ->
  (forall q r, O' !! q = Some (AHandle r) -> F' !! (q + OFFSET_HandleProtocols) = F !! (q + OFFSET_HandleProtocols)) -> used F' O' p.
Proof. intros Hu HO HF q r Hq Hne. rewrite (HF q r Hq). destruct (HO q r Hq) as [r' Hr']. by apply (Hu q r'). Qed.

Lemma inv_put_open F owner db q r r' : inv Max F owner db -> objects db !! q = Some (AnOpen r) -> Attributes r' = Attributes r ->
  inv Max F owner (put q (AnOpen r') db).
Proof.
  intros [Hs Hg Ho Hc Hpos Hex] Hq Ha. set (o := AnOpen _).
  assert (Hcases : forall x ox, <[q := o]> (objects db) !! x = Some ox -> (x = q /\ ox = o) \/ (x <> q /\ objects db !! x = Some ox)).
  { intros x ox Hx. apply lookup_insert_Some in Hx. naive_solver. }
  assert (Hopen : forall x s, <[q := o]> (objects db) !! x = Some (AnOpen s) -> exists s', objects db !! x = Some (AnOpen s') /\ Attributes s = Attributes s').
  { intros x s [[-> [= ->]]|[_ Hx]]%Hcases; [by exists r|by exists s]. }
  split; cbn [objects links put set_objects].
  - by apply (shape_put Max F owner _ _ q (AnOpen r)).
  - intros q1 q2 e [[-> He]|[_ H1]]%Hcases [[-> He']|[_ H2]]%Hcases; [done..|by apply (Hg q1 q2 e)].
  - intros q1 q2 s1 s2 [[-> He]|[_ H1]]%Hcases [[-> He']|[_ H2]]%Hcases; [done..|by apply (Ho q1 q2 s1 s2)].
  - intros x s l [[-> He]|[_ Hx]]%Hcases; [done|by apply (Hc x)].
  - intros x s [[-> He]|[_ Hx]]%Hcases; [done|by apply (Hpos x)].
  - intros q1 q2 s1 s2 j (s1' & H1 & Ha1)%Hopen (s2' & H2 & Ha2)%Hopen Ho1 Ho2. unfold excludes, by_driver. rewrite Ha1, Ha2.
    by apply (Hex q1 q2 s1' s2' j).
Qed.
End Open.

(** ** The specification *)

Definition nobody db i (f : OPEN_PROTOCOL_DATA -> bool) : Prop := forall q r, opened db i q r -> f r = false.
Definition somebody db i (f : OPEN_PROTOCOL_DATA -> bool) : Prop := exists q r, opened db i q r /\ f r = true.
Definition restricts (r : OPEN_PROTOCOL_DATA) : bool := excludes r || by_driver r.

(** The mode [attr] is granted in [db1], which is [db], or [db] after the drivers
    were disconnected from the handle [h] of [i]. *)
Inductive granted `{Drivers} db h i attr db1 : Prop :=
| shared_mode : has attr EFI_OPEN_PROTOCOL_EXCLUSIVE = false -> has attr EFI_OPEN_PROTOCOL_BY_DRIVER = false -> db1 = db -> granted db h i attr db1
| no_user : nobody db i restricts -> db1 = db -> granted db h i attr db1
| drivers_left : has attr EFI_OPEN_PROTOCOL_EXCLUSIVE = true -> nobody db i excludes -> somebody db i by_driver ->
    disconnecting h i db EFI_SUCCESS db1 -> same_interface db db1 i -> nobody db1 i restricts -> granted db h i attr db1.

Section Spec.
Context `{Platform} `{Drivers}.

(** Opening the interface [i] of the handle [h]. *)
Inductive open_outcome db h i ih ch attr : EFI_STATUS -> Database -> Prop :=
| open_started q r : opened db i q r -> ExactMatch ih ch attr r = true -> by_driver r = true -> open_outcome db h i ih ch attr EFI_ALREADY_STARTED db
| open_again q r : opened db i q r -> ExactMatch ih ch attr r = true -> restricts r = false ->
    open_outcome db h i ih ch attr EFI_SUCCESS (put q (AnOpen (open_once_more r)) db)
| open_denied : nobody db i (decides ih ch attr) ->
    somebody db i (if has attr EFI_OPEN_PROTOCOL_EXCLUSIVE then excludes else restricts) ->
    has attr EFI_OPEN_PROTOCOL_EXCLUSIVE || has attr EFI_OPEN_PROTOCOL_BY_DRIVER = true ->
    open_outcome db h i ih ch attr EFI_ACCESS_DENIED db
| open_refused Status db1 : nobody db i (decides ih ch attr) -> has attr EFI_OPEN_PROTOCOL_EXCLUSIVE = true -> nobody db i excludes -> somebody db i by_driver ->
    disconnecting h i db Status db1 -> EFI_ERROR Status = true -> open_outcome db h i ih ch attr EFI_ACCESS_DENIED db1
| open_untracked db1 : nobody db i (decides ih ch attr) -> granted db h i attr db1 -> ih = NULL -> open_outcome db h i ih ch attr EFI_SUCCESS db1
| open_no_memory db1 : nobody db i (decides ih ch attr) -> granted db h i attr db1 -> ih <> NULL ->
    Allocate sizeof_OPEN_PROTOCOL_DATA db1 = None -> open_outcome db h i ih ch attr EFI_OUT_OF_RESOURCES db1
| open_new db1 db' p ri : nobody db i (decides ih ch attr) -> granted db h i attr db1 -> ih <> NULL ->
    objects db1 !! p = None -> objects db1 !! i = Some (AnInterface ri) ->
    objects db' = <[i := AnInterface (set_OpenListCount (OpenListCount ri + 1) ri)]> (<[p := AnOpen (MkOpen ih ch attr 1)]> (objects db1)) ->
    opened db' i p (MkOpen ih ch attr 1) -> (forall j q r, is_interface (objects db1) j -> opened db' j q r -> q = p \/ opened db1 j q r) ->
    same_globals db1 db' -> open_outcome db h i ih ch attr EFI_SUCCESS db'.

(** The modes. *)
Definition modes : list Z := [EFI_OPEN_PROTOCOL_BY_HANDLE_PROTOCOL; EFI_OPEN_PROTOCOL_GET_PROTOCOL; EFI_OPEN_PROTOCOL_TEST_PROTOCOL;
  EFI_OPEN_PROTOCOL_BY_CHILD_CONTROLLER; EFI_OPEN_PROTOCOL_BY_DRIVER; EFI_OPEN_PROTOCOL_EXCLUSIVE;
  Z.lor EFI_OPEN_PROTOCOL_BY_DRIVER EFI_OPEN_PROTOCOL_EXCLUSIVE].

Lemma outcome_interface db h i ih ch attr st db' ri : open_outcome db h i ih ch attr st db' -> objects db !! i = Some (AnInterface ri) ->
  EFI_ERROR st = false \/ st = EFI_ALREADY_STARTED -> same_interface db db' i.
Proof.
  assert (Hgr : forall db1, granted db h i attr db1 -> same_interface db db1 i).
  { intros db1 [_ _ ->|_ ->|_ _ _ _ ? _]; [apply same_interface_refl..|done]. }
  intros Ho Hi Hst. destruct Ho as [q r Hq _ _|q r Hq _ _|? ? ?|st1 db1 ? ? ? ? ? ?|db1 _ Hg _|db1 _ Hg _ _|db1 db' p rj _ Hg _ Hp Hrj HO _ _ _].
  - apply same_interface_refl.
  - intros r' Hr'. exists r'. split; [|done]. cbn [put set_objects objects]. rewrite lookup_insert_ne; [done|]. intros ->. by destruct Hq as [? _]; simplify_eq.
  - by destruct Hst.
  - by destruct Hst.
  - by apply Hgr.
  - by destruct Hst.
  - eapply same_interface_trans; [by apply Hgr|]. intros r' Hr'. rewrite Hrj in Hr'. injection Hr' as <-. rewrite HO. eexists. by rewrite lookup_insert_eq.
Qed.
End Spec.

(** ** The code meets it *)

Section OpenCode.
Context `{Platform} `{Drivers} (Verify : bool) (Max : nat) `{!PoolLaws Max} `{!DriverLaws Max}.
Implicit Types (F : lists) (db : Database).

Section Records.
Context F owner db i ri l (Hs : shape Max F owner (objects db) (links db)) (Hi : objects db !! i = Some (AnInterface ri))
  (Hl : F !! (i + OFFSET_OpenList) = Some l).

Lemma opened_in q r : opened db i q r <-> objects db !! q = Some (AnOpen r) /\ q + OFFSET_OpenLink ∈ l.
Proof.
  rewrite (opened_owner Max F owner db Hs i ri q r Hi). pose proof (in_open_list Max F owner _ _ Hs i ri l (q + OFFSET_OpenLink) Hi Hl) as Hin.
  rewrite Z.add_simpl_r in Hin. split; intros [Hq Ho]; (split; [done|]).
  - apply Hin. by exists r.
  - by apply Hin in Ho as (_ & _ & ?).
Qed.

Lemma somebody_exists f : existsb (at_open (objects db) f) l = true <-> somebody db i f.
Proof.
  rewrite existsb_exists. setoid_rewrite <-list_elem_of_In. split.
  - intros (x & Hx & Hf). unfold at_open in Hf. destruct (objects db !! (x - OFFSET_OpenLink)) as [[|r|r|r|r|r]|] eqn:Hr; try done.
    exists (x - OFFSET_OpenLink), r. split; [|done]. apply opened_in. split; [done|]. by rewrite Z.sub_add.
  - intros (q & r & [Hq Hx]%opened_in & Hf). exists (q + OFFSET_OpenLink). split; [done|]. unfold at_open. by rewrite Z.add_simpl_r, Hq.
Qed.

Lemma nobody_exists f : existsb (at_open (objects db) f) l = false <-> nobody db i f.
Proof.
  rewrite <-not_true_iff_false, somebody_exists. unfold nobody, somebody. split.
  - intros Hn q r Hq. apply not_true_iff_false. intros Hf. apply Hn. by exists q, r.
  - intros Hn (q & r & Hq & Hf). by rewrite (Hn q r Hq) in Hf.
Qed.

Lemma users_exist f : if existsb (at_open (objects db) f) l then somebody db i f else nobody db i f.
Proof. destruct (existsb _ _) eqn:He; [by apply somebody_exists|by apply nobody_exists]. Qed.

Lemma nobody_find f : List.find (at_open (objects db) f) l = None <-> nobody db i f.
Proof.
  rewrite <-nobody_exists. split; intros Hn.
  - apply not_true_iff_false. intros (x & Hx & Hf)%existsb_exists. rewrite (find_none _ _ Hn x Hx) in Hf. done.
  - destruct (List.find _ l) as [x|] eqn:Hf; [|done]. apply find_some in Hf as [Hx Hf]. assert (existsb (at_open (objects db) f) l = true); [|congruence].
    apply existsb_exists. by exists x.
Qed.
End Records.

Lemma nobody_or db i f g : nobody db i f -> nobody db i g -> nobody db i (fun r => f r || g r).
Proof. intros Hf Hg q r Hq. by rewrite (Hf q r Hq), (Hg q r Hq). Qed.

(** A new record joins those of the interface [i]. *)
Lemma OpenProtocol_record_spec db i ri ih ch attr : consistent Max db -> Acquired db = true -> objects db !! i = Some (AnInterface ri) ->
  (excludes (MkOpen ih ch attr 1) = true -> nobody db i restricts) -> (by_driver (MkOpen ih ch attr 1) = true -> nobody db i excludes) ->
  exists Status db', OpenProtocol_record Verify Max i ih ch attr db = Ok (Status, db') /\ consistent Max db' /\ Acquired db' = true /\
    ((ih = NULL /\ Status = EFI_SUCCESS /\ db' = db) \/
     (ih <> NULL /\ Allocate sizeof_OPEN_PROTOCOL_DATA db = None /\ Status = EFI_OUT_OF_RESOURCES /\ db' = db) \/
     (ih <> NULL /\ Status = EFI_SUCCESS /\ same_globals db db' /\ exists p, objects db !! p = None /\
        objects db' = <[i := AnInterface (set_OpenListCount (OpenListCount ri + 1) ri)]> (<[p := AnOpen (MkOpen ih ch attr 1)]> (objects db)) /\
        opened db' i p (MkOpen ih ch attr 1) /\ forall j q r, is_interface (objects db) j -> opened db' j q r -> q = p \/ opened db j q r)).
Proof.
  intros (F & owner & Hinv & Hu) Ha Hi Hex Hdr. pose proof (inv_shape _ _ _ _ Hinv) as Hs. unfold OpenProtocol_record.
  destruct (Z.eqb_spec ih NULL) as [->|Hih]; [exists EFI_SUCCESS, db; split; [done|]; split; [by exists F, owner|]; split; [done|by left]|].
  destruct (Allocate _ db) as [p|] eqn:Hp; [|exists EFI_OUT_OF_RESOURCES, db; split; [done|]; split; [by exists F, owner|]; split; [done|by right; left]].
  set (rec := MkOpen ih ch attr 1) in *.
  destruct (new_open_spec Verify Max F owner db i ri rec p Hinv Hi Hp) as (l & db' & Hl & -> & Hinv' & Hsg & HO & Hfree).
  { intros q s Hq Ho. assert (Hqo : opened db i q s) by (by apply (opened_owner Max F owner db Hs i ri q s Hi)). split.
    - intros He. by apply (Hex He q s).
    - intros He. destruct (by_driver rec) eqn:Hd; [rewrite (Hdr eq_refl q s Hqo) in He; done|]. rewrite orb_false_r. apply not_true_iff_false.
      intros He'. pose proof (Hex He' q s Hqo) as Hr. unfold restricts in Hr. by rewrite He in Hr. }
  exists EFI_SUCCESS, db'. split; [done|]. assert (Hpi : p <> i) by (intros ->; congruence).
  split; [|split; [by rewrite (sg_acquired _ _ Hsg)|]].
  - eexists _, _. split; [exact Hinv'|]. apply (used_same F _ (objects db)); [done| |]; rewrite HO; intros q r Hq;
      (apply lookup_insert_Some in Hq as [[_ ?]|[Hqi Hq]]; [done|]; apply lookup_insert_Some in Hq as [[_ ?]|[Hqp Hq]]; [done|]); [by exists r|].
    rewrite lookup_insert_ne; [done|]. intros Heq.
    destruct (object_node Max F owner _ _ Hs i q _ _ OFFSET_OpenList OFFSET_HandleProtocols Hi Hq) as (_ & ? & _); [right; right; left|right; left|done|done].
  - right. right. split; [done|]. split; [done|]. split; [done|]. exists p. split; [done|]. split; [done|].
    assert (Hi' : objects db' !! i = Some (AnInterface (set_OpenListCount (OpenListCount ri + 1) ri))) by (by rewrite HO, lookup_insert_eq).
    split.
    + apply (opened_owner Max _ _ db' (inv_shape _ _ _ _ Hinv') i _ p rec Hi'). rewrite lookup_insert_eq. split; [|done].
      by rewrite HO, lookup_insert_ne, lookup_insert_eq by done.
    + intros j q r [rj Hj] Hq. assert (exists rj', objects db' !! j = Some (AnInterface rj')) as [rj' Hj'].
      { rewrite HO. destruct (decide (j = i)) as [->|Hne]; [by eexists; apply lookup_insert_eq|]. exists rj. rewrite !lookup_insert_ne; [done| |done]. intros ->. congruence. }
      apply (opened_owner Max _ _ db' (inv_shape _ _ _ _ Hinv') j rj' q r Hj') in Hq as [Hq Ho]. destruct (decide (q = p)) as [->|Hne]; [by left|right].
      apply (opened_owner Max F owner db Hs j rj q r Hj). rewrite lookup_insert_ne in Ho by done. split; [|done].
      rewrite HO in Hq. apply lookup_insert_Some in Hq as [[_ ?]|[_ Hq]]; [done|]. by rewrite lookup_insert_ne in Hq.
Qed.

Lemma restricts_excludes db i : nobody db i restricts -> nobody db i excludes.
Proof. intros Hn q r Hq. pose proof (Hn q r Hq) as Hr. unfold restricts in Hr. by apply orb_false_iff in Hr as [? _]. Qed.

Lemma granted_interface db h i attr db1 : granted db h i attr db1 -> same_interface db db1 i.
Proof. intros [_ _ ->|_ ->|_ _ _ _ ? _]; [apply same_interface_refl..|done]. Qed.

Lemma granted_record db h i ih ch attr db1 : granted db h i attr db1 ->
  (excludes (MkOpen ih ch attr 1) = true -> nobody db1 i restricts) /\ (by_driver (MkOpen ih ch attr 1) = true -> nobody db1 i excludes).
Proof.
  unfold excludes at 1, by_driver at 1. cbn [Attributes].
  intros [-> -> ->|Hn ->|_ _ _ _ _ Hn]; [done|split; intros _; [done|by apply restricts_excludes]..].
Qed.

Lemma OpenProtocol_access_spec db i ri attr (bd ex : bool) : consistent Max db -> Acquired db = true -> objects db !! i = Some (AnInterface ri) -> attr ∈ modes ->
  (if bd then somebody db i by_driver else nobody db i by_driver) -> (if ex then somebody db i excludes else nobody db i excludes) ->
  exists Status db1, OpenProtocol_access (Handle ri) i attr (MkScan db bd ex None) = Ok (Status, db1) /\ consistent Max db1 /\ Acquired db1 = true /\
    ((Status = EFI_SUCCESS /\ granted (set_acquired false db) (Handle ri) i attr (set_acquired false db1)) \/
     (Status = EFI_ACCESS_DENIED /\ db1 = db /\ somebody db i (if has attr EFI_OPEN_PROTOCOL_EXCLUSIVE then excludes else restricts) /\
        has attr EFI_OPEN_PROTOCOL_EXCLUSIVE || has attr EFI_OPEN_PROTOCOL_BY_DRIVER = true) \/
     (Status = EFI_ACCESS_DENIED /\ has attr EFI_OPEN_PROTOCOL_EXCLUSIVE = true /\ nobody db i excludes /\ somebody db i by_driver /\
        exists St, disconnecting (Handle ri) i (set_acquired false db) St (set_acquired false db1) /\ EFI_ERROR St = true)).
Proof.
  intros Hc Ha Hi Hmode Hbd Hex.
  assert (Hkind : (attr = EFI_OPEN_PROTOCOL_BY_DRIVER) \/
    ((attr =? Z.lor EFI_OPEN_PROTOCOL_BY_DRIVER EFI_OPEN_PROTOCOL_EXCLUSIVE) || (attr =? EFI_OPEN_PROTOCOL_EXCLUSIVE) = true /\
      (attr =? EFI_OPEN_PROTOCOL_BY_DRIVER) = false /\ has attr EFI_OPEN_PROTOCOL_EXCLUSIVE = true) \/
    ((attr =? EFI_OPEN_PROTOCOL_BY_DRIVER) = false /\ (attr =? Z.lor EFI_OPEN_PROTOCOL_BY_DRIVER EFI_OPEN_PROTOCOL_EXCLUSIVE) || (attr =? EFI_OPEN_PROTOCOL_EXCLUSIVE) = false /\
      has attr EFI_OPEN_PROTOCOL_EXCLUSIVE = false /\ has attr EFI_OPEN_PROTOCOL_BY_DRIVER = false)).
  { apply list_elem_of_In in Hmode. simpl in Hmode. repeat destruct Hmode as [<-|Hmode]; vm_compute; auto 10. done. }
  assert (Hnone : bd = false -> ex = false -> nobody db i restricts) by (intros -> ->; by apply nobody_or).
  unfold OpenProtocol_access. cbn [scan_db Exclusive ByDriver]. destruct Hkind as [->|[(Hk & -> & Hx)|(-> & -> & Hx & Hd)]].
  - rewrite Z.eqb_refl. exists (if ex || bd then EFI_ACCESS_DENIED else EFI_SUCCESS), db. split; [done|]. split; [done|]. split; [done|].
    change (has EFI_OPEN_PROTOCOL_BY_DRIVER EFI_OPEN_PROTOCOL_EXCLUSIVE) with false. destruct ex; [|destruct bd]; cbn [orb].
    + right. left. do 2 (split; [done|]). split; [|done]. destruct Hex as (q & r & Hq & Hr). exists q, r. unfold restricts. by rewrite Hr.
    + right. left. do 2 (split; [done|]). split; [|done]. destruct Hbd as (q & r & Hq & Hr). exists q, r. unfold restricts. by rewrite Hr, orb_true_r.
    + left. split; [done|]. apply no_user; [by apply Hnone|done].
  - rewrite Hk, Hx. destruct ex; [|destruct bd].
    + exists EFI_ACCESS_DENIED, db. split; [done|]. do 2 (split; [done|]). right. by left.
    + destruct Hc as (F & owner & Hinv & Hu). pose proof (inv_shape _ _ _ _ Hinv) as Hs.
      destruct (head_list Max F owner _ _ Hs i _ OFFSET_OpenList Hi) as [l Hl]; [left|].
      rewrite (OpenProtocol_disconnect_eq (Handle ri) i _ db EFI_SUCCESS) by done.
      pose proof (agents_size Max F owner db Hs i ri l Hi Hl) as Hsz.
      destruct (DisconnectControllers_spec Max i (S (size (objects db))) F owner db ri l EFI_SUCCESS Hinv Hu Ha Hi Hl) as
        (Status & db1 & -> & Hc1 & Ha1 & Hst & Hdis & Hok & _); [lia|done|]. cbn [mbind result_bind]. exists (if EFI_ERROR Status then EFI_ACCESS_DENIED else EFI_SUCCESS), db1.
      split; [done|]. do 2 (split; [done|]). destruct (EFI_ERROR Status) eqn:HE; [right; right; do 4 (split; [done|]); by exists Status|left]. split; [done|].
      apply EFI_ERROR_false in HE as ->. destruct (Hok eq_refl) as (Hsame & [_ Hnew] & Hgone). apply drivers_left; [done..|]. apply nobody_or; [|done].
      intros q r Hq. apply not_true_iff_false. intros He. destruct (Hnew q r Hq He) as (q' & r' & Hq' & Hr'). by rewrite (Hex q' r' Hq') in Hr'.
    + exists EFI_SUCCESS, db. split; [done|]. do 2 (split; [done|]). left. split; [done|]. apply no_user; [by apply Hnone|done].
  - exists EFI_SUCCESS, db. split; [done|]. do 2 (split; [done|]). left. split; [done|]. by apply shared_mode.
Qed.

(** The interface [i] is found; it is opened. *)
Lemma OpenProtocol_interface_spec db i ri ih ch attr : consistent Max db -> Acquired db = true -> objects db !! i = Some (AnInterface ri) -> attr ∈ modes ->
  exists Status db', (let! s := OpenProtocol_scan i ih ch attr db in
     match scan_status s with
     | Some Status => Ok (Status, i, scan_db s)
     | None => let! (Status, db) := OpenProtocol_access (Handle ri) i attr s in
               if EFI_ERROR Status then Ok (Status, i, db) else
               let! (Status, db) := OpenProtocol_record Verify Max i ih ch attr db in Ok (Status, i, db)
     end) = Ok (Status, i, db') /\ consistent Max db' /\ Acquired db' = true /\
    open_outcome (set_acquired false db) (Handle ri) i ih ch attr Status (set_acquired false db').
Proof.
  intros Hc Ha Hi Hmode. pose proof Hc as (F & owner & Hinv & Hu). pose proof (inv_shape _ _ _ _ Hinv) as Hs.
  destruct (head_list Max F owner _ _ Hs i _ OFFSET_OpenList Hi) as [l Hl]; [left|].
  destruct (OpenProtocol_scan_spec Max F owner db i ri ih ch attr l Hs Hi Hl) as (s & -> & Hscan). cbn [mbind result_bind].
  destruct (List.find _ l) as [x|] eqn:Hfind.
  - destruct Hscan as (r & Hr & -> & ->). apply find_some in Hfind as [Hx%list_elem_of_In Hdec]. unfold at_open in Hdec. rewrite Hr in Hdec.
    apply andb_true_iff in Hdec as [Hexact Hdec].
    assert (Hq : opened db i (x - OFFSET_OpenLink) r) by (apply (opened_in F owner db i ri l Hs Hi Hl); split; [done|by rewrite Z.sub_add]).
    destruct (by_driver r) eqn:Hd.
    + exists EFI_ALREADY_STARTED, db. split; [done|]. do 2 (split; [done|]). by apply (open_started (set_acquired false db) _ _ _ _ _ _ r Hq).
    + eexists EFI_SUCCESS, _. split; [done|]. split; [|split; [done|]].
      * exists F, owner. split; [by apply (inv_put_open Max F owner db _ r)|]. apply (used_same F F (objects db)); [done| |done].
        intros q rq Hq'. cbn [put set_objects objects] in Hq'. apply lookup_insert_Some in Hq' as [[_ ?]|[_ ?]]; [done|by exists rq].
      * apply (open_again (set_acquired false db) _ _ _ _ _ _ r Hq); [done|]. unfold restricts. rewrite Hd, orb_false_r. by destruct (excludes r).
  - apply (nobody_find F owner db i ri l Hs Hi Hl) in Hfind. rewrite Hscan. cbn [scan_status].
    destruct (OpenProtocol_access_spec db i ri attr (existsb (at_open (objects db) by_driver) l) (existsb (at_open (objects db) excludes) l) Hc Ha Hi Hmode)
      as (Status & db1 & -> & Hc1 & Ha1 & Hcase).
    1-2: by apply (users_exist F owner db i ri l Hs Hi Hl).
    cbn [mbind result_bind]. destruct Hcase as [[-> Hg]|[(-> & -> & Hsome & Hm)|(-> & Hx & Hn & Hsome & St & Hdis & HSt)]]; cbn [EFI_ERROR].
    + destruct (granted_interface _ _ _ _ _ Hg ri Hi) as (ri1 & Hi1 & _). destruct (granted_record _ _ i ih ch attr _ Hg) as [He Hd].
      destruct (OpenProtocol_record_spec db1 i ri1 ih ch attr Hc1 Ha1 Hi1 He Hd) as (Status & db' & -> & Hc' & Ha' & Hcase). cbn [mbind result_bind].
      exists Status, db'. split; [done|]. do 2 (split; [done|]).
      destruct Hcase as [(-> & -> & ->)|[(Hih & Hp & -> & ->)|(Hih & -> & Hsg & p & Hp & HO & Hop & Hrest)]];
        [by apply open_untracked|by apply open_no_memory|]. destruct Hsg as [? ? ? ?].
      by apply (open_new (set_acquired false db) _ _ _ _ _ (set_acquired false db1) (set_acquired false db') p ri1).
    + exists EFI_ACCESS_DENIED, db. split; [done|]. do 2 (split; [done|]). by apply (open_denied (set_acquired false db)).
    + exists EFI_ACCESS_DENIED, db1. split; [done|]. do 2 (split; [done|]). by apply (open_refused _ _ _ _ _ _ St).
Qed.

(** The handles that the mode needs are there. *)
Definition handles_ok db h ih ch attr : bool :=
  bool_decide (attr ∈ modes) &&
  (if bool_decide (attr ∈ [EFI_OPEN_PROTOCOL_BY_CHILD_CONTROLLER; EFI_OPEN_PROTOCOL_BY_DRIVER; EFI_OPEN_PROTOCOL_EXCLUSIVE;
                           Z.lor EFI_OPEN_PROTOCOL_BY_DRIVER EFI_OPEN_PROTOCOL_EXCLUSIVE]) then handleb (objects db) ih else true) &&
  (if bool_decide (attr ∈ [EFI_OPEN_PROTOCOL_BY_CHILD_CONTROLLER; EFI_OPEN_PROTOCOL_BY_DRIVER;
                           Z.lor EFI_OPEN_PROTOCOL_BY_DRIVER EFI_OPEN_PROTOCOL_EXCLUSIVE]) then handleb (objects db) ch else true) &&
  (if attr =? EFI_OPEN_PROTOCOL_BY_CHILD_CONTROLLER then negb (h =? ch) else true).

Lemma OpenProtocol_check_spec F owner db h ih ch attr : shape Max F owner (objects db) (links db) ->
  OpenProtocol_check db h ih ch attr = Ok (if handles_ok db h ih ch attr then EFI_SUCCESS else EFI_INVALID_PARAMETER).
Proof.
  intros Hs. unfold OpenProtocol_check, handles_ok. pose proof (CoreValidateHandle_spec Max F owner db Hs) as Hv.
  destruct (decide (attr ∈ modes)) as [Hm|Hm].
  - rewrite (bool_decide_eq_true_2 _ Hm). apply list_elem_of_In in Hm. simpl in Hm.
    repeat destruct Hm as [<-|Hm]; try done; cbn -[CoreValidateHandle Z.eqb handleb]; rewrite ?Hv; cbn -[CoreValidateHandle Z.eqb handleb];
      destruct (handleb (objects db) ih); cbn -[CoreValidateHandle Z.eqb handleb]; rewrite ?Hv; cbn -[CoreValidateHandle Z.eqb handleb]; try done;
      destruct (handleb (objects db) ch); cbn -[Z.eqb]; try done; by destruct (h =? ch).
  - rewrite (bool_decide_eq_false_2 _ Hm). cbn [andb].
    assert (Hne : forall m, m ∈ modes -> (attr =? m) = false) by (intros m Hin; apply Z.eqb_neq; by intros ->).
    rewrite !Hne; [done|apply list_elem_of_In; vm_compute; tauto..].
Qed.

(** Taking and releasing the lock makes no difference. *)
Lemma release_acquire db : Acquired db = false -> set_acquired false (set_acquired true db) = db.
Proof. destruct db as [? ? ? ? a ?]. by cbn; intros ->. Qed.

(** What the caller gets. *)
Definition interface_out (attr : Z) (Status : EFI_STATUS) (v : Z) : option Z :=
  if (attr =? EFI_OPEN_PROTOCOL_TEST_PROTOCOL) || (EFI_ERROR Status && negb (bool_decide (Status = EFI_ALREADY_STARTED))) then None else Some v.

Inductive open_result db h g ih ch attr : EFI_STATUS -> option Z -> Database -> Prop :=
| result_invalid : handleb (objects db) h && handles_ok db h ih ch attr = false -> open_result db h g ih ch attr EFI_INVALID_PARAMETER None db
| result_unsupported : handleb (objects db) h && handles_ok db h ih ch attr = true -> (forall v, ~ Installed db h g v) ->
    open_result db h g ih ch attr EFI_UNSUPPORTED (if attr =? EFI_OPEN_PROTOCOL_TEST_PROTOCOL then None else Some NULL) db
| result_open i v Status db' : handleb (objects db) h && handles_ok db h ih ch attr = true -> provides (objects db) i h g v ->
    open_outcome db h i ih ch attr Status db' -> open_result db h g ih ch attr Status (interface_out attr Status v) db'.

Lemma CoreOpenProtocol_spec db h g out ih ch attr : valid Max db -> attr = EFI_OPEN_PROTOCOL_TEST_PROTOCOL \/ out = true ->
  exists Status v db', CoreOpenProtocol Verify Max h (Some g) out ih ch attr db = Ok (Status, v, db') /\ valid Max db' /\
    open_result db h g ih ch attr Status v db'.
Proof.
  intros [Ha Hc] Hout. pose proof Hc as (F & owner & Hinv & Hu). pose proof (inv_shape _ _ _ _ Hinv) as Hs. unfold CoreOpenProtocol.
  replace (negb (attr =? EFI_OPEN_PROTOCOL_TEST_PROTOCOL) && negb out) with false by (destruct Hout as [->| ->]; [done|by rewrite andb_false_r]).
  rewrite (CoreValidateHandle_spec Max F owner db Hs). cbn [mbind result_bind]. destruct (handleb (objects db) h) eqn:Hh; cbn [EFI_ERROR].
  2: { exists EFI_INVALID_PARAMETER, None, db. do 2 (split; [done|]). apply result_invalid. by rewrite Hh. }
  rewrite (OpenProtocol_check_spec F owner db h ih ch attr Hs). cbn [mbind result_bind]. destruct (handles_ok db h ih ch attr) eqn:Hk; cbn [EFI_ERROR].
  2: { exists EFI_INVALID_PARAMETER, None, db. do 2 (split; [done|]). apply result_invalid. by rewrite Hh, Hk. }
  assert (Hmode : attr ∈ modes). { unfold handles_ok in Hk. do 3 apply andb_true_iff in Hk as [Hk _]. by apply bool_decide_eq_true in Hk. }
  unfold CoreAcquireProtocolLock. rewrite Ha. cbn [negb ASSERT mbind result_bind]. set (dba := set_acquired true db).
  destruct (CoreGetProtocolInterface_spec Max F owner dba Hs h g) as (i & Hget & Hi). unfold OpenProtocol_locked. rewrite Hget. cbn [mbind result_bind].
  destruct Hi as [[-> Hnone]|[Hin [v Hp]]].
  { rewrite Z.eqb_refl. cbn [mbind result_bind EFI_ERROR negb orb]. rewrite bool_decide_eq_false_2, bool_decide_eq_true_2 by done.
    exists EFI_UNSUPPORTED, (if attr =? EFI_OPEN_PROTOCOL_TEST_PROTOCOL then None else Some NULL), db. split; [|split; [done|]].
    - unfold CoreReleaseProtocolLock. change (Acquired dba) with true. unfold dba.
      destruct (attr =? EFI_OPEN_PROTOCOL_TEST_PROTOCOL); cbn [negb mbind result_bind ASSERT]; by rewrite release_acquire.
    - apply result_unsupported; [by rewrite Hh, Hk|]. intros v [i Hi]. by apply (Hnone i v). }
  rewrite (proj2 (Z.eqb_neq _ _) Hin). destruct Hp as (ri & re & Hi & Hhi & Hv & He & Hg).
  destruct (OpenProtocol_interface_spec dba i ri ih ch attr) as (Status & db1 & Heq & Hc1 & Ha1 & Hout1); [by apply consistent_acquired|done..|].
  rewrite Hhi in Heq. rewrite Heq. cbn [mbind result_bind].
  exists Status, (interface_out attr Status v), (set_acquired false db1). split; [|split].
  - assert (Hread : EFI_ERROR Status = false \/ Status = EFI_ALREADY_STARTED -> exists r, interface_at db1 i = Ok r /\ Interface r = v).
    { intros Hst. destruct (outcome_interface _ _ _ _ _ _ _ _ _ Hout1 Hi Hst ri Hi) as (r & Hr & _ & _ & Hrv). exists r. split; [by apply interface_at_Some|congruence]. }
    unfold interface_out. destruct (attr =? EFI_OPEN_PROTOCOL_TEST_PROTOCOL); cbn [negb orb mbind result_bind].
    + unfold CoreReleaseProtocolLock. rewrite Ha1. done.
    + destruct (EFI_ERROR Status) eqn:HE; cbn [negb orb andb]; [destruct (bool_decide_reflect (Status = EFI_ALREADY_STARTED)) as [HA|HA]|]; cbn [negb].
      1,3: destruct Hread as (r & -> & <-); [auto|]; rewrite (proj2 (Z.eqb_neq _ _) Hin); cbn [negb ASSERT mbind result_bind]; unfold CoreReleaseProtocolLock; by rewrite Ha1.
      rewrite bool_decide_eq_false_2; [cbn [mbind result_bind]; unfold CoreReleaseProtocolLock; by rewrite Ha1|]. intros ->. inversion Hout1.
  - split; [done|]. by apply consistent_acquired.
  - apply (result_open _ _ _ _ _ _ i); [by rewrite Hh, Hk|by exists ri, re|]. unfold dba in Hout1. rewrite release_acquire, Hhi in Hout1 by done. exact Hout1.
Qed.

(** ** Closing *)

Definition closes (ah ch : ptr) (r : OPEN_PROTOCOL_DATA) : bool := (AgentHandle r =? ah) && (ControllerHandle r =? ch).

(** The records of [i] that [f] are gone, nothing else. *)
Definition closed db db' (i : ptr) (f : OPEN_PROTOCOL_DATA -> bool) : Prop :=
  same_interface db db' i /\ same_globals db db' /\
  (forall j rj q r, objects db !! j = Some (AnInterface rj) -> opened db' j q r <-> opened db j q r /\ (j = i -> f r = false)) /\
  (forall p o, p <> i -> objects db' !! p = Some o <-> objects db !! p = Some o /\ ~ exists r, o = AnOpen r /\ opened db i p r /\ f r = true).

Lemma RemoveOpens_closed db i ri f Status : consistent Max db -> objects db !! i = Some (AnInterface ri) ->
  exists n Status' db', load (links db) (i + OFFSET_OpenList) = Ok n /\
    RemoveOpens Max (S (size (links db))) i (ForwardLink n) f Status db = Ok (Status', db') /\ consistent Max db' /\ closed db db' i f /\
    (somebody db i f -> Status' = EFI_SUCCESS) /\ (nobody db i f -> Status' = Status) /\
    exists r', objects db' !! i = Some (AnInterface r') /\ (OpenListCount r' = 0 <-> nobody db i (fun r => negb (f r))) /\ 0 <= OpenListCount r'.
Proof.
  intros (F & owner & Hinv & Hu) Hi. pose proof (inv_shape _ _ _ _ Hinv) as Hs.
  destruct (head_list Max F owner _ _ Hs i _ OFFSET_OpenList Hi) as [l Hl]; [left|].
  destruct (family_first _ _ _ _ (sh_family _ _ _ _ _ Hs) Hl) as (n & Hn & Hf). pose proof (dlist_size _ _ _ (shape_dlist Max F owner db Hs _ _ Hl)) as Hsize.
  destruct (RemoveOpens_spec Max f i l F owner db ri [] Status (S (size (links db))) Hinv Hi Hl) as (db' & Heq & Hinv' & Hsg & HO); [lia|].
  cbn [app] in Hinv', HO. set (l' := List.filter _ l) in Hinv'. set (count := Z.of_nat _) in HO. set (gone := List.filter (removedb _ _) l) in HO.
  exists n. rewrite Hf. eexists _, db'. split; [done|]. split; [exact Heq|].
  assert (Hi' : objects db' !! i = Some (AnInterface (set_OpenListCount count ri))) by (by rewrite HO, decide_True, Hi by done).
  assert (Hgone : forall p, p + OFFSET_OpenLink ∈ gone <-> exists r, opened db i p r /\ f r = true).
  { intros p. unfold gone. rewrite list_elem_of_In, filter_In, <-list_elem_of_In. unfold removedb. rewrite Z.add_simpl_r. split.
    - intros [Hx Hr]. destruct (objects db !! p) as [[|r|r|r|r|r]|] eqn:Hp; try done. exists r. split; [|done]. by apply (opened_in F owner db i ri l Hs Hi Hl).
    - intros (r & [Hp Hx]%(opened_in F owner db i ri l Hs Hi Hl) & Hr). by rewrite Hp. }
  assert (Hother : forall p o, p <> i -> objects db' !! p = Some o <-> objects db !! p = Some o /\ ~ exists r, o = AnOpen r /\ opened db i p r /\ f r = true).
  { intros p o Hp. rewrite HO, decide_False by done. destruct (decide (p + OFFSET_OpenLink ∈ gone)) as [(r & Hr & Hfr)%Hgone|Hng].
    - split; [done|]. intros [Hpo Hnot]. destruct Hnot. exists r. split; [|done]. destruct Hr as [Hr _]. congruence.
    - split; [|by intros [? _]]. intros Hpo. split; [done|]. intros (r & -> & Hr & Hfr). apply Hng, Hgone. by exists r. }
  split; [|split; [split|split; [|split]]].
  - eexists _, owner. split; [exact Hinv'|]. apply (used_same F _ (objects db)); [done| |]; intros q r Hq;
      (assert (Hqi : q <> i) by (intros ->; congruence); apply (Hother q _ Hqi) in Hq as [Hq _]); [by exists r|].
    rewrite lookup_insert_ne; [done|]. intros Hx.
    destruct (object_node Max F owner _ _ Hs i q _ _ OFFSET_OpenList OFFSET_HandleProtocols Hi Hq) as (_ & ? & _); [right; right; left|right; left|done|done].
  - intros r Hr. rewrite Hi in Hr. injection Hr as <-. by eexists.
  - split; [done|]. split; [|done]. intros j rj q r Hj. assert (Hj' : exists rj', objects db' !! j = Some (AnInterface rj')).
    { destruct (decide (j = i)) as [->|Hne]; [by eexists|]. exists rj. apply (Hother j _ Hne). split; [done|by intros (? & ? & _)]. }
    destruct Hj' as [rj' Hj']. rewrite (opened_owner Max _ _ db' (inv_shape _ _ _ _ Hinv') j _ q r Hj'), (opened_owner Max F owner db Hs j rj q r Hj). split.
    + intros [Hq Ho]. assert (Hqi : q <> i) by (intros ->; congruence). apply (Hother q _ Hqi) in Hq as [Hq Hnot]. split; [done|]. intros ->.
      apply not_true_iff_false. intros Hfr. apply Hnot. exists r. split; [done|]. split; [|done]. by apply (opened_owner Max F owner db Hs i rj q r Hj).
    + intros [[Hq Ho] Hfr]. split; [|done]. assert (Hqi : q <> i) by (intros ->; congruence). apply (Hother q _ Hqi). split; [done|].
      intros (r' & [= <-] & [_ Ho']%(opened_owner Max F owner db Hs i ri q r Hi) & Hfr'). rewrite Ho' in Ho. injection Ho as ->. by rewrite Hfr in Hfr'.
  - intros Hsome. apply (somebody_exists F owner db i ri l Hs Hi Hl) in Hsome. change (at_open (objects db) f) with (removedb (objects db) f) in Hsome. by rewrite Hsome.
  - intros Hno. apply (nobody_exists F owner db i ri l Hs Hi Hl) in Hno. change (at_open (objects db) f) with (removedb (objects db) f) in Hno. by rewrite Hno.
  - eexists. split; [exact Hi'|]. cbn [OpenListCount set_OpenListCount]. split; [|unfold count; lia].
    rewrite <-(nobody_exists F owner db i ri l Hs Hi Hl). unfold count. split.
    + intros Hz. apply not_true_iff_false. intros (x & Hx & Hfx)%existsb_exists. assert (Hin : x ∈ []); [|by apply elem_of_nil in Hin].
      assert (List.filter (keptb (objects db) f) l = []) as <- by (destruct (List.filter _ l); [done|simpl in Hz; lia]).
      apply list_elem_of_In, filter_In. split; [done|]. unfold at_open in Hfx. unfold keptb, removedb. by destruct (objects db !! (x - OFFSET_OpenLink)) as [[]|].
    + intros Hno. destruct (List.filter (keptb (objects db) f) l) as [|x m] eqn:Hfl; [done|]. exfalso.
      assert (Hx : In x (List.filter (keptb (objects db) f) l)) by (rewrite Hfl; by left). apply filter_In in Hx as [Hx Hk].
      assert (Hc : existsb (at_open (objects db) (fun r => negb (f r))) l = true); [|congruence]. apply existsb_exists. exists x. split; [done|].
      apply list_elem_of_In, (in_open_list Max F owner _ _ Hs i ri l x Hi Hl) in Hx as (r & Hr & _). unfold keptb, removedb in Hk. unfold at_open. by rewrite Hr in Hk |- *.
Qed.

Lemma closed_release db db1 i f : Acquired db = false -> closed (set_acquired true db) db1 i f -> closed db (set_acquired false db1) i f.
Proof. intros Ha (Hi & [Hk Hr Hac Hca] & Ho & Hp). split; [done|]. split; [by split|done]. Qed.

(** Closing. *)
Inductive close_result db h g ah ch : EFI_STATUS -> Database -> Prop :=
| close_invalid : handleb (objects db) h && handleb (objects db) ah && ((ch =? NULL) || handleb (objects db) ch) = false ->
    close_result db h g ah ch EFI_INVALID_PARAMETER db
| close_absent : handleb (objects db) h && handleb (objects db) ah && ((ch =? NULL) || handleb (objects db) ch) = true ->
    (forall v, ~ Installed db h g v) -> close_result db h g ah ch EFI_NOT_FOUND db
| close_done i v Status db' : handleb (objects db) h && handleb (objects db) ah && ((ch =? NULL) || handleb (objects db) ch) = true ->
    provides (objects db) i h g v -> closed db db' i (closes ah ch) ->
    (Status = EFI_SUCCESS /\ somebody db i (closes ah ch)) \/ (Status = EFI_NOT_FOUND /\ nobody db i (closes ah ch)) ->
    close_result db h g ah ch Status db'.

Lemma somebody_or_nobody db i f : consistent Max db -> (exists ri, objects db !! i = Some (AnInterface ri)) -> somebody db i f \/ nobody db i f.
Proof.
  intros (F & owner & Hinv & Hu) [ri Hi]. pose proof (inv_shape _ _ _ _ Hinv) as Hs. destruct (head_list Max F owner _ _ Hs i _ OFFSET_OpenList Hi) as [l Hl]; [left|].
  pose proof (users_exist F owner db i ri l Hs Hi Hl f) as Hu'. destruct (existsb _ _); auto.
Qed.

Lemma CoreCloseProtocol_spec db h g ah ch : valid Max db ->
  exists Status db', CoreCloseProtocol Max h (Some g) ah ch db = Ok (Status, db') /\ valid Max db' /\ close_result db h g ah ch Status db'.
Proof.
  intros [Ha Hc]. pose proof Hc as (F & owner & Hinv & Hu). pose proof (inv_shape _ _ _ _ Hinv) as Hs. unfold CoreCloseProtocol.
  pose proof (CoreValidateHandle_spec Max F owner db Hs) as Hval. rewrite (Hval h). cbn [mbind result_bind].
  destruct (handleb (objects db) h) eqn:Hh; cbn [EFI_ERROR]; [|exists EFI_INVALID_PARAMETER, db; do 2 (split; [done|]); apply close_invalid; by rewrite Hh].
  rewrite (Hval ah). cbn [mbind result_bind]. destruct (handleb (objects db) ah) eqn:Hah; cbn [EFI_ERROR].
  2: { exists EFI_INVALID_PARAMETER, db; do 2 (split; [done|]); apply close_invalid; by rewrite Hh, Hah. }
  assert (Hch : (if negb (ch =? NULL) then CoreValidateHandle db ch else Ok EFI_SUCCESS) =
                Ok (if (ch =? NULL) || handleb (objects db) ch then EFI_SUCCESS else EFI_INVALID_PARAMETER)).
  { destruct (ch =? NULL); [done|]. cbn [negb orb]. by rewrite Hval. }
  rewrite Hch. cbn [mbind result_bind]. destruct ((ch =? NULL) || handleb (objects db) ch) eqn:Hck; cbn [EFI_ERROR].
  2: { exists EFI_INVALID_PARAMETER, db; do 2 (split; [done|]); apply close_invalid; by rewrite Hh, Hah, Hck. }
  assert (Hok : handleb (objects db) h && handleb (objects db) ah && ((ch =? NULL) || handleb (objects db) ch) = true) by by rewrite Hh, Hah, Hck.
  unfold CoreAcquireProtocolLock. rewrite Ha. cbn [negb ASSERT mbind result_bind]. set (dba := set_acquired true db).
  destruct (CoreGetProtocolInterface_spec Max F owner dba Hs h g) as (i & Hget & Hi). unfold CloseProtocol_locked. rewrite Hget. cbn [mbind result_bind].
  destruct Hi as [[-> Hnone]|[Hin [v Hp]]].
  { rewrite Z.eqb_refl. cbn [mbind result_bind]. exists EFI_NOT_FOUND, db. split; [|split; [done|]].
    - unfold CoreReleaseProtocolLock. change (Acquired dba) with true. cbn [ASSERT mbind result_bind]. unfold dba. by rewrite release_acquire.
    - apply close_absent; [done|]. intros v [i Hi]. by apply (Hnone i v). }
  rewrite (proj2 (Z.eqb_neq _ _) Hin). pose proof Hp as (ri & re & Hi & _).
  destruct (RemoveOpens_closed dba i ri (closes ah ch) EFI_NOT_FOUND) as (n & Status & db1 & Hn & Heq & Hc1 & Hcl & Hsome & Hno & _); [by apply consistent_acquired|done|].
  rewrite Hn. cbn [mbind result_bind]. unfold closes in Heq. rewrite Heq. cbn [mbind result_bind].
  exists Status, (set_acquired false db1). split; [|split; [split; [done|by apply consistent_acquired]|]].
  - unfold CoreReleaseProtocolLock. destruct Hcl as (_ & Hsg & _). by rewrite (sg_acquired _ _ Hsg).
  - apply (close_done _ _ _ _ _ i v); [done|done|by apply closed_release|].
    destruct (somebody_or_nobody dba i (closes ah ch)) as [?|?]; [by apply consistent_acquired|by exists ri|left|right]; auto.
Qed.
End OpenCode.
