(* ===== verification/HandleInstall.v ===== *)
(** * Handles and protocols: installing

    [CoreInstallProtocolInterfaceNotify]: a new protocol entry, a new handle and
    the interface, or nothing but the entry; the notifications of the protocol
    are signalled. *)

From S2P Require Import Prelude LinkedList ListFamily Handle HandleInv HandleLookup HandleShape HandleCreate HandleRemove HandleUninstall HandleDriver HandleOpen.

(** ** Notifications of a protocol *)

(** The signals of the events that are registered for [g], in order. *)
Definition registered (db : Database) (g : EFI_GUID) (calls : list event_call) : Prop :=
  (exists e l, objects db !! e = Some (AnEntry (MkEntry g)) /\ dlist (links db) (e + OFFSET_Notify) l /\ calls = signals (objects db) l) \/
  ((forall e, objects db !! e <> Some (AnEntry (MkEntry g))) /\ calls = []).

Lemma signals_ext O O' l : (forall x r, x ∈ l -> O !! (x - OFFSET_NotifyLink) = Some (ANotify r) -> O' !! (x - OFFSET_NotifyLink) = Some (ANotify r)) ->
  (forall x, x ∈ l -> exists r, O !! (x - OFFSET_NotifyLink) = Some (ANotify r)) -> signals O' l = signals O l.
Proof.
  intros Hkeep. induction l as [|x l IH]; intros Hl; [done|]. cbn [signals omap list_omap]. destruct (Hl x) as [r Hr]; [left|].
  rewrite Hr, (Hkeep x r) by (done || left). f_equal. apply IH; [|intros y Hy; apply Hl; by right]. intros y s Hy. apply Hkeep. by right.
Qed.

Section Install.
Context `{Platform} (Verify : bool) (Max : nat) `{!PoolLaws Max}.
Implicit Types (F : lists) (db : Database).

Lemma registered_unique db g c1 c2 : consistent Max db -> registered db g c1 -> registered db g c2 -> c1 = c2.
Proof.
  intros (F & owner & Hinv & _) [(e1 & l1 & He1 & Hl1 & ->)|[Hn1 ->]] [(e2 & l2 & He2 & Hl2 & ->)|[Hn2 ->]]; [|by destruct (Hn2 e1)|by destruct (Hn1 e2)|done].
  assert (e1 = e2) as -> by (by apply (inv_guid _ _ _ _ Hinv e1 e2 (MkEntry g))). by rewrite (dlist_unique _ _ _ _ Hl1 Hl2).
Qed.

Lemma registered_exists db g : consistent Max db -> exists c, registered db g c.
Proof.
  intros (F & owner & Hinv & _). pose proof (inv_shape _ _ _ _ Hinv) as Hs. destruct (FindProtocolEntry_search Max F owner db Hs g) as (q & [[-> Hn]|[_ Hq]] & _).
  - exists []. right. split; [|done]. intros e He. by apply (Hn e _ He).
  - destruct (head_list Max F owner _ _ Hs q _ OFFSET_Notify Hq) as [l Hl]; [right; left|]. exists (signals (objects db) l). left. exists q, l.
    split; [done|]. split; [by apply (shape_dlist Max F owner db Hs)|done].
Qed.

(** ** Blocks *)

Lemma inv_blank F owner db p : inv Max F owner db -> objects db !! p = None -> p ∈ Blocks -> inv Max F owner (put p ABlank db).
Proof.
  intros Hinv Hp Hb. pose proof (inv_shape _ _ _ _ Hinv) as Hs. apply (inv_add Max F F owner db _ p ABlank); try done. cbn [put set_objects objects links].
  apply (shape_add Max F F owner owner (objects db) (links db) (links db) p ABlank); try done.
  - apply (sh_family _ _ _ _ _ Hs).
  - intros hd. cbn [heads]. setoid_rewrite elem_of_nil. naive_solver.
  - intros hd x. cbn [members]. setoid_rewrite elem_of_nil. naive_solver.
  - intros k Hk. by apply elem_of_nil in Hk.
Qed.

Lemma FreeBlank_spec db p : consistent Max db -> objects db !! p = Some ABlank ->
  exists db', FreePool p db = Ok db' /\ consistent Max db' /\ objects db' = delete p (objects db) /\ same_globals db db' /\ links db' = links db.
Proof.
  intros (F & owner & Hinv & Hu) Hp. pose proof (inv_shape _ _ _ _ Hinv) as Hs. unfold FreePool. rewrite Hp. cbn [deref mbind result_bind offsets foldr].
  eexists. split; [done|]. split; [|done]. exists F, owner. split.
  - apply (inv_delete Max F owner db (links db) _ p); [done| |done]. by apply shape_blank.
  - cbn [set_objects objects]. intros q r [_ Hq]%lookup_delete_Some. by apply (Hu q r).
Qed.

(** The interfaces of [db] have no new opens. *)
Definition opens_kept db db' : Prop := forall j q r, is_interface (objects db) j -> opened db' j q r -> opened db j q r.

(** An interface is still there, and so are its lists; the records did not
    become more. *)
Lemma opens_kept_owner F owner db F' db' : inv Max F owner db -> inv Max F' owner db' -> (forall j, is_interface (objects db) j -> is_interface (objects db') j) ->
  (forall q r, objects db' !! q = Some (AnOpen r) -> objects db !! q = Some (AnOpen r)) -> opens_kept db db'.
Proof.
  intros Hinv Hinv' Hif Hop j q r Hj Ho. pose proof Hj as [rj Hrj]. destruct (Hif j Hj) as [rj' Hrj'].
  apply (opened_owner Max F' owner db' (inv_shape _ _ _ _ Hinv') j rj' q r Hrj') in Ho as [Hq Ho].
  apply (opened_owner Max F owner db (inv_shape _ _ _ _ Hinv) j rj q r Hrj). split; [by apply Hop|done].
Qed.

Lemma opens_kept_links db db' : links db' = links db -> (forall q r, objects db' !! q = Some (AnOpen r) -> objects db !! q = Some (AnOpen r)) -> opens_kept db db'.
Proof. intros Hl Hop j q r _ [Hq (l & Hd & Hx)]. split; [by apply Hop|]. exists l. by rewrite <-Hl. Qed.

(** The same handles and interfaces. *)
Definition same_protocols db db' : Prop :=
  (forall h, IsHandle db' h <-> IsHandle db h) /\ (forall i h g v, provides (objects db') i h g v <-> provides (objects db) i h g v).

Lemma same_protocols_trans db1 db2 db3 : same_protocols db1 db2 -> same_protocols db2 db3 -> same_protocols db1 db3.
Proof. intros [H1 H1'] [H2 H2']. split; [intros h; by rewrite H2|]. intros i h g v. by rewrite H2'. Qed.

(** A new object that is no interface gives no handle a protocol. *)
Lemma provides_new O p o : O !! p = None -> match o with AnInterface _ => False | _ => True end ->
  (forall i r, O !! i = Some (AnInterface r) -> is_Some (O !! Protocol r)) ->
  forall i h g v, provides (<[p := o]> O) i h g v <-> provides O i h g v.
Proof.
  intros Hp Ho Hrefers i h g v. unfold provides. split; intros (r & e & Hi & Hh & Hv & He & Hg); exists r, e.
  - apply lookup_insert_Some in Hi as [[_ ->]|[_ Hi]]; [done|]. split; [done|]. split; [done|]. split; [done|]. split; [|done].
    rewrite lookup_insert_ne in He; [done|]. intros ->. destruct (Hrefers i r Hi) as [oe Hoe]. by rewrite Hoe in Hp.
  - rewrite !lookup_insert_ne; [done| |]; intros ->; congruence.
Qed.

Lemma same_protocols_new db db' p o : objects db' = <[p := o]> (objects db) -> objects db !! p = None ->
  match o with AHandle _ | AnInterface _ => False | _ => True end ->
  (forall i r, objects db !! i = Some (AnInterface r) -> is_Some (objects db !! Protocol r)) -> same_protocols db db'.
Proof.
  intros HO Hp Ho Hrefers. split; [|rewrite HO; apply provides_new; [done|by destruct o|done]].
  unfold IsHandle, is_handle. rewrite HO. intros h. split; intros [r Hr]; exists r; [|by rewrite lookup_insert_ne by (intros ->; congruence)].
  apply lookup_insert_Some in Hr as [[_ ->]|[_ Hr]]; done.
Qed.

(** A block becomes an interface. *)
Lemma provides_interface O p k q g v n : O !! p = Some ABlank -> O !! q = Some (AnEntry (MkEntry g)) ->
  forall i h g' v', provides (<[p := AnInterface (MkInterface k q v n)]> O) i h g' v' <-> provides O i h g' v' \/ (i = p /\ h = k /\ g' = g /\ v' = v).
Proof.
  intros Hp Hq i h g' v'. unfold provides. split.
  - intros (r & e & Hi & Hh & Hv & He & Hg). apply lookup_insert_Some in Hi as [[<- [= <-]]|[Hne Hi]]; [right|left].
    + cbn [Protocol Handle Interface] in *. rewrite lookup_insert_ne in He by (intros ->; congruence). rewrite Hq in He. injection He as <-. by subst.
    + exists r, e. apply lookup_insert_Some in He as [[_ ?]|[_ He]]; done.
  - intros [(r & e & Hi & Hh & Hv & He & Hg)|(-> & -> & -> & ->)].
    + exists r, e. rewrite !lookup_insert_ne; [done| |]; intros ->; congruence.
    + eexists _, (MkEntry g). rewrite lookup_insert_eq. split; [done|]. split; [done|]. split; [done|]. cbn [Protocol]. by rewrite lookup_insert_ne by (intros ->; congruence).
Qed.

Lemma inv_refers F owner db i r : inv Max F owner db -> objects db !! i = Some (AnInterface r) -> is_Some (objects db !! Protocol r).
Proof. intros Hinv Hi. destruct (sh_refers _ _ _ _ _ (inv_shape _ _ _ _ Hinv) i _ Hi) as [_ [re Hre]]. by eexists. Qed.

Lemma entry_made_protocols F owner db F' db' g q : inv Max F owner db -> entry_made F db F' db' g q -> same_protocols db db'.
Proof.
  intros Hinv [_ _ -> _|_ _ -> _|_ HO Hq _ _ _ _ _]; [done..|]. apply (same_protocols_new db db' q _ HO Hq); [done|]. intros i r. by apply (inv_refers F owner).
Qed.

(** ** Handles *)

Lemma InstallHandle_spec F owner db hd : inv Max F owner db ->
  exists Status k db' F', InstallHandle Verify Max hd db = Ok (Status, k, db') /\ inv Max F' owner db' /\
    extends gHandleList F F' /\ Acquired db' = Acquired db /\ mEfiLocateHandleRequest db' = mEfiLocateHandleRequest db /\ Calls db' = Calls db /\
    ((hd = NULL /\ Status = EFI_OUT_OF_RESOURCES /\ db' = db /\ F' = F /\ Allocate sizeof_IHANDLE db = None) \/
     (hd = NULL /\ Status = EFI_SUCCESS /\ objects db !! k = None /\ k <> NULL /\ (exists r, objects db' = <[k := AHandle r]> (objects db)) /\
        F' !! (k + OFFSET_HandleProtocols) = Some []) \/
     (hd <> NULL /\ Status = (if handleb (objects db) hd then EFI_SUCCESS else EFI_INVALID_PARAMETER) /\ k = hd /\ db' = db /\ F' = F)).
Proof.
  intros Hinv. unfold InstallHandle. destruct (Z.eqb_spec hd NULL) as [->|Hne].
  - destruct (Allocate sizeof_IHANDLE db) as [p|] eqn:Hp.
    + destruct (new_handle_spec Verify Max F owner db p Hinv Hp) as (db' & F' & -> & Hinv' & Hx & HO & Hfree & Hnull & Hnil & Hreq & Ha & Hca).
      exists EFI_SUCCESS, p, db', F'. do 6 (split; [done|]). right. left. do 4 (split; [done|]). split; [by eexists|done].
    + exists EFI_OUT_OF_RESOURCES, NULL, db, F. split; [done|]. split; [done|]. split; [by intros ? ?|]. do 3 (split; [done|]). by left.
  - rewrite (CoreValidateHandle_spec Max F owner db (inv_shape _ _ _ _ Hinv)). cbn [mbind result_bind].
    eexists _, hd, db, F. split; [done|]. split; [done|]. split; [by intros ? ?|]. do 3 (split; [done|]). by right; right.
Qed.

(** ** The interface *)

Lemma registered_list F owner db e g l : inv Max F owner db -> objects db !! e = Some (AnEntry (MkEntry g)) -> F !! (e + OFFSET_Notify) = Some l ->
  registered db g (signals (objects db) l).
Proof. intros Hinv He Hl. left. exists e, l. split; [done|]. split; [|done]. by apply (shape_dlist Max F owner db (inv_shape _ _ _ _ Hinv)). Qed.

(** An interface is added at the end of the list of the protocol [q], or to no
    list if there is no such entry. *)
Lemma pending_added F owner db F' owner' db' q x n r xs : shape Max F owner (objects db) (links db) -> shape Max F' owner' (objects db') (links db') ->
  objects db !! n = Some (ANotify r) -> objects db' !! n = Some (ANotify r) ->
  (forall e re l, objects db !! e = Some (AnEntry re) -> F !! entry_head e = Some l -> F' !! entry_head e = Some (if e =? q then l ++ [x] else l)) ->
  pending db n xs -> pending db' n (if NotifyProtocol r =? q then xs ++ [x] else xs).
Proof.
  intros Hs Hs' Hn Hn' HF (r' & l1 & Hr & Hd & Hpos). rewrite Hn in Hr. injection Hr as <-. exists r, l1. split; [done|]. split; [|done].
  destruct (sh_refers _ _ _ _ _ Hs n _ Hn) as [re He]. destruct (head_list Max F owner _ _ Hs _ _ OFFSET_EntryProtocols He) as [l Hl]; [left|].
  assert (l = l1 ++ xs) as -> by (apply (dlist_unique (links db) (entry_head (NotifyProtocol r))); [by apply (shape_dlist Max F owner db Hs)|done]).
  apply (shape_dlist Max F' owner' db' Hs'). rewrite (HF _ _ _ He Hl). destruct (_ =? q); [by rewrite app_assoc|done].
Qed.

Lemma pending_kept F owner db F' owner' db' n xs : shape Max F owner (objects db) (links db) -> shape Max F' owner' (objects db') (links db') ->
  (forall r, objects db !! n = Some (ANotify r) -> objects db' !! n = Some (ANotify r)) ->
  (forall e re l, objects db !! e = Some (AnEntry re) -> F !! entry_head e = Some l -> F' !! entry_head e = Some l) -> pending db n xs -> pending db' n xs.
Proof.
  intros Hs Hs' HO HF Hp. pose proof Hp as (r & _ & Hn & _). assert (Hq : exists q, (NotifyProtocol r =? q) = false /\ forall e re, objects db !! e = Some (AnEntry re) -> (e =? q) = false).
  { exists NULL. assert (Hnn : forall e re, objects db !! e = Some (AnEntry re) -> (e =? NULL) = false) by (intros e re He; apply Z.eqb_neq; by apply (object_not_null Max F owner db Hs e _ He)).
    split; [|done]. destruct (sh_refers _ _ _ _ _ Hs n _ Hn) as [re He]. by apply (Hnn _ re). }
  destruct Hq as (q & Hrq & Hq). pose proof (pending_added F owner db F' owner' db' q 0 n r xs Hs Hs' Hn (HO r Hn)) as Hadd. rewrite Hrq in Hadd. apply Hadd; [|done].
  intros e re l He Hl. rewrite (Hq e re He). by apply (HF e re).
Qed.

Lemma Install_finish F owner db k rk q g p v (Notify : bool) : inv Max F owner db -> Acquired db = true -> objects db !! p = Some ABlank ->
  objects db !! k = Some (AHandle rk) -> objects db !! q = Some (AnEntry (MkEntry g)) -> (forall w, ~ Installed db k g w) -> used F (objects db) k ->
  exists db' calls, (let! Existing := CoreFindProtocolInterface Verify Max db k g v in
      do! ASSERT (Existing =? NULL) ;;
      let! db := InstallInterface Verify Max k q p v db in
      let! db := if Notify then CoreNotifyProtocolEntry q db else Ok db in Ok (EFI_SUCCESS, k, p, db)) = Ok (EFI_SUCCESS, k, p, db') /\
    (exists F', inv Max F' owner db' /\ used F' (objects db') NULL) /\ Acquired db' = true /\ objects db' = <[p := AnInterface (MkInterface k q v 0)]> (objects db) /\
    registered db g calls /\ Calls db' = Calls db ++ (if Notify then calls else []) /\
    forall n r xs, objects db !! n = Some (ANotify r) -> pending db n xs -> pending db' n (if NotifyProtocol r =? q then xs ++ [p + OFFSET_ByProtocol] else xs).
Proof.
  intros Hinv Ha Hp Hk Hq Hnew Hu. pose proof (inv_shape _ _ _ _ Hinv) as Hs.
  destruct (CoreFindProtocolInterface_spec Max F owner db Hs Verify k rk g v Ha Hk (inv_guid _ _ _ _ Hinv)) as (x & -> & [[-> _]|[_ Hx]]);
    [|by destruct (Hnew v); exists x]. cbn [mbind result_bind]. rewrite Z.eqb_refl. cbn [ASSERT mbind result_bind].
  destruct (InstallInterface_spec Verify Max F owner db p k rk q (MkEntry g) v Hinv Hp Hk Hq) as (db1 & lh & le & Hlh & Hle & -> & Hinv1 & Hsg1 & HO1).
  { intros i s Hi Hh Hpr. apply (Hnew (Interface s)). exists i, s, (MkEntry g). rewrite Hpr. done. }
  cbn [mbind result_bind]. set (F1 := <[q + OFFSET_EntryProtocols := _]> _) in *.
  assert (Hq1 : objects db1 !! q = Some (AnEntry (MkEntry g))) by (rewrite HO1, lookup_insert_ne by (intros ->; congruence); done).
  destruct (CoreNotifyProtocolEntry_spec Max F1 owner db1 q (MkEntry g) Hinv1) as (l & Hl & Hn); [by rewrite (sg_acquired _ _ Hsg1)|done|].
  assert (Hl0 : F !! (q + OFFSET_Notify) = Some l).
  { destruct (head_list Max F owner _ _ Hs q _ OFFSET_Notify Hq) as [l' Hl']; [right; left|]. unfold F1 in Hl.
    rewrite !lookup_insert_ne in Hl; [done| | |]; intros Heq.
    - destruct (block_node Max p q OFFSET_OpenList OFFSET_Notify) as [-> _]; [by apply (object_block Max F owner _ _ Hs p _ Hp)|by apply (object_block Max F owner _ _ Hs q _ Hq)|done..|congruence].
    - destruct (object_node Max F owner _ _ Hs k q _ _ OFFSET_HandleProtocols OFFSET_Notify Hk Hq) as (_ & ? & _); [right; left|right; right; left|done|done].
    - unfold OFFSET_EntryProtocols, OFFSET_Notify in Heq. lia. }
  pose proof (registered_list F owner db q g l Hinv Hq Hl0) as Hreg.
  assert (Hsig : signals (objects db1) l = signals (objects db) l).
  { apply signals_ext; intros x.
    - intros r _ Hr. rewrite HO1, lookup_insert_ne; [done|]. intros Heq. rewrite Heq in Hp. congruence.
    - intros Hx. apply (in_notify Max F owner _ _ Hs q (MkEntry g) l x Hq Hl0) in Hx as (r & Hr & _). by exists r. }
  assert (Hc1 : exists F', inv Max F' owner db1 /\ used F' (objects db1) NULL).
  { exists F1. split; [done|]. intros x r Hx _. rewrite HO1 in Hx. apply lookup_insert_Some in Hx as [[_ ?]|[_ Hx]]; [done|].
    unfold F1. rewrite lookup_insert_ne.
    - destruct (decide (x = k)) as [->|Hne]; [by rewrite lookup_insert_eq|]. rewrite !lookup_insert_ne; [by apply (Hu x r)| |unfold OFFSET_HandleProtocols; lia].
      intros Heq. destruct (block_node Max p x OFFSET_OpenList OFFSET_HandleProtocols) as [-> _]; [by apply (object_block Max F owner _ _ Hs p _ Hp)|by apply (object_block Max F owner _ _ Hs x _ Hx)|done..|congruence].
    - intros Heq. destruct (object_node Max F owner _ _ Hs q x _ _ OFFSET_EntryProtocols OFFSET_HandleProtocols Hq Hx) as (_ & ? & _); [right; left|right; left|done|done]. }
  assert (Hpend : forall n r xs, objects db !! n = Some (ANotify r) -> pending db n xs -> pending db1 n (if NotifyProtocol r =? q then xs ++ [p + OFFSET_ByProtocol] else xs)).
  { intros n r xs Hnr. apply (pending_added F owner db F1 owner db1); [done|apply Hinv1|done|rewrite HO1, lookup_insert_ne; [done|intros ->; congruence]|].
    intros e re le' He Hle'. unfold F1. destruct (Z.eqb_spec e q) as [->|Hne]; unfold entry_head in *; [rewrite Hle in Hle'; injection Hle' as <-; apply lookup_insert_eq|].
    rewrite !lookup_insert_ne; [done| | |lia]; intros Heq.
    - destruct (block_node Max p e OFFSET_OpenList OFFSET_EntryProtocols) as [_ ?]; [by apply (object_block Max F owner _ _ Hs p _ Hp)|by apply (object_block Max F owner _ _ Hs e _ He)|done..].
    - destruct (object_node Max F owner _ _ Hs k e _ _ OFFSET_HandleProtocols OFFSET_EntryProtocols Hk He) as (_ & ? & _); [right; left|right; left|done|done]. }
  destruct Notify.
  - rewrite Hn. cbn [mbind result_bind]. rewrite Hsig. eexists _, (signals (objects db) l). split; [done|].
    split; [destruct Hc1 as (F2 & Hi2 & Hu2); exists F2; split; [by apply inv_set_calls|done]|]. split; [cbn; by rewrite (sg_acquired _ _ Hsg1)|].
    split; [done|]. split; [done|]. split; [cbn [set_calls Calls]; by rewrite (sg_calls _ _ Hsg1)|exact Hpend].
  - eexists db1, (signals (objects db) l). split; [done|]. split; [done|]. split; [by rewrite (sg_acquired _ _ Hsg1)|]. split; [done|]. split; [done|].
    split; [by rewrite app_nil_r, (sg_calls _ _ Hsg1)|exact Hpend].
Qed.

(** Why an interface of [g] is not installed on [hd]: there is no memory for the
    entry of the protocol (which is then reported as what the search for the
    protocol on the handle found), for the interface or for a new handle, or
    [hd] is no handle. *)
Definition search_status db (hd : ptr) : EFI_STATUS :=
  if hd =? NULL then EFI_OUT_OF_RESOURCES else if handleb (objects db) hd then EFI_UNSUPPORTED else EFI_INVALID_PARAMETER.

Inductive install_error db (hd : ptr) (g : EFI_GUID) : EFI_STATUS -> Prop :=
| no_entry_memory : (forall e, objects db !! e <> Some (AnEntry (MkEntry g))) -> Allocate sizeof_PROTOCOL_ENTRY db = None ->
    install_error db hd g (search_status db hd)
| no_interface_memory used : entry_used db g used -> AllocatePool sizeof_PROTOCOL_INTERFACE used = None -> install_error db hd g EFI_OUT_OF_RESOURCES
| no_handle_memory used p : hd = NULL -> entry_used db g used -> AllocatePool sizeof_PROTOCOL_INTERFACE used = Some p ->
    AllocatePool sizeof_IHANDLE ({[p]} ∪ used) = None -> install_error db hd g EFI_OUT_OF_RESOURCES
| not_a_handle used p : hd <> NULL -> ~ IsHandle db hd -> entry_used db g used -> AllocatePool sizeof_PROTOCOL_INTERFACE used = Some p ->
    install_error db hd g EFI_INVALID_PARAMETER.

Lemma search_status_error db hd : EFI_ERROR (search_status db hd) = true.
Proof. unfold search_status. by destruct (hd =? NULL), (handleb (objects db) hd). Qed.

Lemma install_error_unlocked db hd g Status b : install_error (set_acquired b db) hd g Status -> install_error db hd g Status.
Proof. intros [Hno Ha|u Hu Ha|u p Hn Hu Hp Ha|u p Hn Hh Hu Hp]; [exact (no_entry_memory db hd g Hno Ha)|by apply (no_interface_memory db hd g u)|by apply (no_handle_memory db hd g u p)|by apply (not_a_handle db hd g u p)]. Qed.

Lemma install_error_error db hd g Status : install_error db hd g Status -> EFI_ERROR Status = true.
Proof. intros []; try done. apply search_status_error. Qed.

Record install_success db k g v (Notify : bool) hd (p : ptr) db' : Prop := {
  is_named : hd <> NULL -> k = hd;
  is_new : hd = NULL -> ~ IsHandle db k;
  is_not_null : k <> NULL;
  is_before : forall w, ~ Installed db k g w;
  is_handles : forall h, IsHandle db' h <-> IsHandle db h \/ h = k;
  is_provides : forall i h g' v', provides (objects db') i h g' v' <-> provides (objects db) i h g' v' \/ (i = p /\ h = k /\ g' = g /\ v' = v);
  is_unused : nobody db' p (fun _ => true);
  is_pending : forall n g' xs, registered_for db n g' -> pending db n xs ->
    registered_for db' n g' /\ pending db' n (if bool_decide (g' = g) then xs ++ [p + OFFSET_ByProtocol] else xs);
  is_calls : exists calls, registered db g calls /\ Calls db' = Calls db ++ (if Notify then calls else []) }.

Lemma nobody_counted db i ri f : consistent Max db -> objects db !! i = Some (AnInterface ri) -> OpenListCount ri = 0 -> nobody db i f.
Proof.
  intros (F & owner & Hinv & _) Hi Hz q r [Hq Ho]%(opened_owner Max F owner db (inv_shape _ _ _ _ Hinv) i ri q r Hi).
  pose proof (inv_shape _ _ _ _ Hinv) as Hs. destruct (head_list Max F owner _ _ Hs i _ OFFSET_OpenList Hi) as [l Hl]; [left|].
  pose proof (inv_count _ _ _ _ Hinv i ri l Hi Hl) as Hn. destruct l; [|simpl in Hn; lia].
  assert (Hin : q + OFFSET_OpenLink ∈ []); [|by apply elem_of_nil in Hin]. apply (in_open_list Max F owner _ _ Hs i ri [] _ Hi Hl). exists r. by rewrite Z.add_simpl_r.
Qed.

(** The registrations for [g] when its entry [q] was made. *)
Lemma registered_made F owner db F1 db1 F3 owner3 db3 q g calls : inv Max F owner db -> inv Max F3 owner3 db3 -> entry_made F db F1 db1 g q -> q <> NULL ->
  (forall x o, objects db1 !! x = Some o -> objects db3 !! x = Some o) ->
  (forall l, F1 !! (q + OFFSET_Notify) = Some l -> F3 !! (q + OFFSET_Notify) = Some l) -> registered db3 g calls -> registered db g calls.
Proof.
  intros Hinv Hinv3 Hmade Hqn Hkeep Hlist Hreg. pose proof (entry_made_entry _ _ _ _ _ _ Hmade Hqn) as Hq1. pose proof (Hkeep q _ Hq1) as Hq3.
  assert (Hl : forall l, F1 !! (q + OFFSET_Notify) = Some l -> calls = signals (objects db3) l).
  { intros l Hl%Hlist. pose proof (registered_list F3 owner3 db3 q g l Hinv3 Hq3 Hl) as Hr. destruct Hreg as [(e & l' & He & Hl' & ->)|[Hn _]]; [|by destruct (Hn q)].
    assert (e = q) as -> by (by apply (inv_guid _ _ _ _ Hinv3 e q (MkEntry g))).
    by rewrite (dlist_unique _ _ l' l Hl') by by apply (shape_dlist Max F3 owner3 db3 (inv_shape _ _ _ _ Hinv3)). }
  destruct Hmade as [?|_ -> -> Hq|_ HO Hfree Hn _ _ Hnil _]; [done| |].
  - destruct (head_list Max F owner _ _ (inv_shape _ _ _ _ Hinv) q _ OFFSET_Notify Hq) as [l Hl']; [right; left|]. rewrite (Hl l Hl').
    rewrite (signals_ext (objects db)); [by apply (registered_list F owner db q)| |].
    + intros x r _. apply Hkeep.
    + intros x Hx. apply (in_notify Max F owner _ _ (inv_shape _ _ _ _ Hinv) q _ l x Hq Hl') in Hx as (r & Hr & _). by exists r.
  - right. split; [intros e He; by apply (Hn e _ He)|]. by rewrite (Hl [] Hnil).
Qed.

(** What is registered when the entry was made is still. *)
Lemma pending_made F owner db F1 db1 F3 owner3 db3 q g : inv Max F owner db -> inv Max F3 owner3 db3 -> entry_made F db F1 db1 g q ->
  (forall x o, objects db1 !! x = Some o -> o <> ABlank -> objects db3 !! x = Some o) -> extends gHandleList F1 F3 ->
  forall n g' xs, registered_for db n g' -> pending db n xs -> registered_for db3 n g' /\ pending db3 n xs.
Proof.
  intros Hinv Hinv3 Hmade Hkeep Hx n g' xs (r & Hn & He) Hp. assert (Hold : forall x o, objects db !! x = Some o -> o <> ABlank -> objects db3 !! x = Some o).
  { intros x o Hxo Ho. apply Hkeep; [|done]. by apply (entry_made_kept _ _ _ _ _ _ x o Hmade). }
  split; [exists r; split; by apply Hold|]. apply (pending_kept F owner db F3 owner3 db3 n xs); [apply Hinv|apply Hinv3| | |done].
  - intros s Hs. by apply Hold.
  - intros e re l He' Hl. destruct (head_not_static Max F owner _ _ (inv_shape _ _ _ _ Hinv) e _ OFFSET_EntryProtocols He') as [Hg1 Hg2]; [left|].
    apply Hx; [done|]. by apply (entry_made_extends _ _ _ _ _ _ Hmade).
Qed.

Lemma Install_success_spec F owner db db3 k rk q g p v Notify hd : inv Max F owner db3 -> Acquired db3 = true -> objects db3 !! p = Some ABlank ->
  objects db3 !! k = Some (AHandle rk) -> objects db3 !! q = Some (AnEntry (MkEntry g)) -> used F (objects db3) k ->
  (forall h, IsHandle db3 h <-> IsHandle db h \/ h = k) -> (forall i h g v, provides (objects db3) i h g v <-> provides (objects db) i h g v) ->
  (forall calls, registered db3 g calls -> registered db g calls) -> Calls db3 = Calls db ->
  (hd <> NULL -> k = hd) -> (hd = NULL -> ~ IsHandle db k) -> k <> NULL -> (forall w, ~ Installed db k g w) ->
  (forall n g' xs, registered_for db n g' -> pending db n xs -> registered_for db3 n g' /\ pending db3 n xs) ->
  (forall j, is_interface (objects db) j -> is_interface (objects db3) j) -> opens_kept db db3 ->
  exists Status k' p' db', (let! Existing := CoreFindProtocolInterface Verify Max db3 k g v in
      do! ASSERT (Existing =? NULL) ;;
      let! db := InstallInterface Verify Max k q p v db3 in
      let! db := if (Notify : bool) then CoreNotifyProtocolEntry q db else Ok db in Ok (EFI_SUCCESS, k, p, db)) = Ok (Status, k', p', db') /\
    consistent Max db' /\ Acquired db' = true /\ opens_kept db db' /\
    ((install_error db hd g Status /\ (p' = NULL \/ objects db' !! p' = Some ABlank) /\ same_protocols db db' /\ Calls db' = Calls db) \/
     (Status = EFI_SUCCESS /\ install_success db k' g v Notify hd p' db')).
Proof.
  intros Hinv Ha Hp Hk Hq Hu Hh3 Hp3 Hr3 Hc3 Hnamed Hfresh Hkn Hnew Hpd3 Hif3 Hop3.
  destruct (Install_finish F owner db3 k rk q g p v Notify) as (db' & calls & Heq & (F' & Hinv' & Hu') & Ha' & HO' & Hreg & Hcalls & Hpend); [done..| |done|].
  { intros w [i Hi]. apply (Hnew w). exists i. by apply Hp3. }
  assert (Hc' : consistent Max db') by by exists F', owner. assert (Hif' : forall j, is_interface (objects db3) j -> is_interface (objects db') j).
  { intros j [r Hr]. exists r. rewrite HO', lookup_insert_ne; [done|]. intros ->. congruence. }
  eexists EFI_SUCCESS, k, p, db'. split; [exact Heq|]. split; [done|]. split; [done|]. split.
  { intros j x r Hj Hx. apply (Hop3 j x r Hj). apply (opens_kept_owner F owner db3 F' db' Hinv Hinv' Hif'); [|by apply Hif3|done].
    intros y ry Hy. rewrite HO' in Hy. by apply lookup_insert_Some in Hy as [[_ ?]|[_ ?]]. }
  right. split; [done|]. split; [done..| | | | |].
  - intros h. rewrite <-Hh3. unfold IsHandle, is_handle. rewrite HO'. split; intros [r Hr]; exists r; [|by rewrite lookup_insert_ne by (intros ->; congruence)].
    apply lookup_insert_Some in Hr as [[_ ?]|[_ Hr]]; done.
  - intros i h g' v'. rewrite HO', (provides_interface _ p k q g v 0 Hp Hq i h g' v'). by rewrite Hp3.
  - apply (nobody_counted db' p (MkInterface k q v 0)); [done| |done]. by rewrite HO', lookup_insert_eq.
  - intros n g' xs Hrf Hpn. destruct (Hpd3 n g' xs Hrf Hpn) as [(r & Hn & He) Hp3n]. pose proof (Hpend n r xs Hn Hp3n) as Hadd. split.
    + exists r. rewrite HO'. split; (rewrite lookup_insert_ne; [done|intros ->; congruence]).
    + destruct (Z.eqb_spec (NotifyProtocol r) q) as [Heq'|Hne]; [rewrite Heq', Hq in He; injection He as <-; by rewrite bool_decide_eq_true_2|].
      rewrite bool_decide_eq_false_2; [done|]. intros ->. apply Hne. by apply (inv_guid _ _ _ _ Hinv _ _ (MkEntry g)).
  - exists calls. split; [by apply Hr3|]. by rewrite Hcalls, Hc3.
Qed.

Lemma Install_locked_spec db hd g v (Notify : bool) Status0 : consistent Max db -> Acquired db = true ->
  ((forall w, ~ Installed db hd g w) /\ Status0 = search_status db hd) \/ ((exists w, Installed db hd g w) /\ Allocate sizeof_PROTOCOL_INTERFACE db = None) ->
  exists Status k p db', Install_locked Verify Max hd g v Notify Status0 db = Ok (Status, k, p, db') /\
    consistent Max db' /\ Acquired db' = true /\ opens_kept db db' /\
    ((install_error db hd g Status /\ (p = NULL \/ objects db' !! p = Some ABlank) /\ same_protocols db db' /\ Calls db' = Calls db) \/
     (Status = EFI_SUCCESS /\ install_success db k g v Notify hd p db')).
Proof.
  intros (F & owner & Hinv & Hu) Ha Hpre. unfold Install_locked.
  destruct (CoreFindProtocolEntry_create Verify Max F owner db g Hinv Ha) as (q & db1 & F1 & -> & Hinv1 & Hmade). cbn [mbind result_bind].
  pose proof (entry_made_globals _ _ _ _ _ _ Hmade) as Hsg1. pose proof (entry_made_protocols F owner db F1 db1 g q Hinv Hmade) as Hsame1.
  pose proof (entry_made_used Max F owner db F1 db1 g q NULL Hinv Hmade Hu) as Hu1.
  assert (Hif1 : forall j, is_interface (objects db) j -> is_interface (objects db1) j) by (intros j [r Hr]; exists r; by apply (entry_made_kept _ _ _ _ _ _ _ _ Hmade)).
  assert (Hop1 : forall x r, objects db1 !! x = Some (AnOpen r) -> objects db !! x = Some (AnOpen r)) by (intros x r; by apply (entry_made_other _ _ _ _ _ _ _ _ Hmade)).
  pose proof (opens_kept_owner F owner db F1 db1 Hinv Hinv1 Hif1 Hop1) as Hkept1.
  destruct (Z.eqb_spec q NULL) as [->|Hqn].
  { exists Status0, NULL, NULL, db1. split; [done|]. split; [by exists F1, owner|]. split; [by rewrite (sg_acquired _ _ Hsg1)|]. split; [done|]. left.
    split; [|split; [by left|]; split; [done|]; by rewrite (sg_calls _ _ Hsg1)]. destruct Hmade as [_ _ _ Hnone Hno|?|?]; [|done..].
    assert (Hno' : forall e, objects db !! e <> Some (AnEntry (MkEntry g))) by (intros e He; by apply (Hno e _ He)).
    destruct Hpre as [[_ ->]|[[w [i (r & [g'] & _ & _ & _ & He & Hg)]] _]]; [by apply no_entry_memory|]. cbn in Hg. subst g'. by destruct (Hno' _ He). }
  pose proof (entry_made_blocks _ _ _ _ _ _ Hmade Hqn) as Hused.
  pose proof (entry_made_entry _ _ _ _ _ _ Hmade Hqn) as Hq1. pose proof (inv_shape _ _ _ _ Hinv1) as Hs1.
  destruct (Allocate sizeof_PROTOCOL_INTERFACE db1) as [p|] eqn:Hp.
  2: { exists EFI_OUT_OF_RESOURCES, NULL, NULL, db1. split; [done|]. split; [by exists F1, owner|]. split; [by rewrite (sg_acquired _ _ Hsg1)|]. split; [done|]. left.
       split; [by apply (no_interface_memory _ _ _ _ Hused)|]. split; [by left|]. split; [done|]. by rewrite (sg_calls _ _ Hsg1). }
  assert (Hnew : forall w, ~ Installed db hd g w).
  { destruct Hpre as [[? _]|[[w [i (r & e & Hi & Hh & Hv & He & Hg)]] Hnone]]; [done|]. exfalso. destruct Hmade as [? ? ? ? ?|? _ -> _|? _ _ Hn _ _ _ _]; [done|congruence|]. by apply (Hn _ _ He). }
  destruct (Allocate_spec Max F1 owner db1 _ p Hs1 Hp) as (Hb & Hfree & Hpn & _). pose proof (inv_blank F1 owner db1 p Hinv1 Hfree Hb) as Hinv2.
  set (db2 := put p ABlank db1) in *. assert (HO2 : objects db2 = <[p := ABlank]> (objects db1)) by done.
  pose proof (inv_shape _ _ _ _ Hinv2) as Hs2.
  destruct (InstallHandle_spec F1 owner db2 hd Hinv2) as (Status & k & db3 & F3 & -> & Hinv3 & Hx & Ha3 & Hreq3 & Hc3 & Hcase). cbn [mbind result_bind].
  assert (Hsame2 : same_protocols db db2).
  { eapply same_protocols_trans; [exact Hsame1|]. apply (same_protocols_new db1 db2 p ABlank); [done|done|done|]. intros i r. by apply (inv_refers F1 owner). }
  assert (Hu2 : used F1 (objects db2) NULL).
  { apply (used_same F1 F1 (objects db1)); [done| |done]. intros x r Hx'. cbn [db2 put set_objects objects] in Hx'. apply lookup_insert_Some in Hx' as [[_ ?]|[_ ?]]; [done|by exists r]. }
  assert (Ha2 : Acquired db2 = true) by (cbn; by rewrite (sg_acquired _ _ Hsg1)). assert (Hc2 : Calls db2 = Calls db) by (cbn; by rewrite (sg_calls _ _ Hsg1)).
  assert (Hif2 : forall j, is_interface (objects db) j -> is_interface (objects db2) j).
  { intros j [r Hr]%Hif1. exists r. rewrite HO2, lookup_insert_ne; [done|]. intros ->. congruence. }
  assert (Hop2 : forall x r, objects db2 !! x = Some (AnOpen r) -> objects db !! x = Some (AnOpen r)).
  { intros x r Hx'. rewrite HO2 in Hx'. apply lookup_insert_Some in Hx' as [[_ ?]|[_ Hx']]; [done|by apply Hop1]. }
  pose proof (opens_kept_owner F owner db F1 db2 Hinv Hinv2 Hif2 Hop2) as Hkept2.
  assert (Hfail : db3 = db2 -> F3 = F1 -> install_error db hd g Status ->
    exists Status' k' p' db', Ok (Status, k, p, db3) = Ok (Status', k', p', db') /\ consistent Max db' /\ Acquired db' = true /\ opens_kept db db' /\
      ((install_error db hd g Status' /\ (p' = NULL \/ objects db' !! p' = Some ABlank) /\ same_protocols db db' /\ Calls db' = Calls db) \/
       (Status' = EFI_SUCCESS /\ install_success db k' g v Notify hd p' db'))).
  { intros -> -> Hwhy. exists Status, k, p, db2. split; [done|]. split; [by exists F1, owner|]. split; [done|]. split; [done|]. left. split; [done|].
    split; [right; apply lookup_insert_eq|]. done. }
  destruct Hcase as [(-> & -> & -> & -> & Hnone)|[(-> & -> & Hkfree & Hkn & [rk HO3] & Hnil)|(Hhd & -> & -> & -> & ->)]]; cbn [EFI_ERROR].
  - apply Hfail; [done..|]. apply (no_handle_memory _ _ _ _ p eq_refl Hused Hp). unfold Allocate in Hnone. by rewrite HO2, dom_insert_L in Hnone.
  - rewrite HO2 in Hkfree, HO3. apply lookup_insert_None in Hkfree as [Hk1 Hpk].
    apply (Install_success_spec F3 owner db db3 k rk q g p v Notify NULL); try done.
    + by rewrite Ha3.
    + rewrite HO3, lookup_insert_ne by done. apply lookup_insert_eq.
    + by rewrite HO3, lookup_insert_eq.
    + rewrite HO3, !lookup_insert_ne; [done| |]; intros ->; congruence.
    + rewrite HO3, <-HO2. intros x r Hx' Hxk. apply lookup_insert_Some in Hx' as [[? _]|[_ Hx']]; [done|].
      destruct (head_list Max F1 owner _ _ Hs2 x _ OFFSET_HandleProtocols Hx') as [l' Hl']; [left|].
      rewrite (Hx _ l'); [|by apply (head_not_static Max F1 owner _ _ Hs2 x _ OFFSET_HandleProtocols Hx'); left|done].
      intros [= ->]. apply (Hu2 x r); [done| |done]. by apply (object_not_null Max F1 owner db2 Hs2 x _ Hx').
    + intros h. rewrite <-(proj1 Hsame2 h). unfold IsHandle, is_handle. rewrite HO3, <-HO2. split.
      * intros [r Hr]. apply lookup_insert_Some in Hr as [[-> _]|[_ Hr]]; [by right|left; by exists r].
      * intros [[r Hr]| ->]; [exists r; rewrite lookup_insert_ne; [done|]|exists rk; apply lookup_insert_eq].
        intros <-. rewrite HO2, lookup_insert_ne in Hr by done. congruence.
    + intros i h g' v'. rewrite <-(proj2 Hsame2 i h g' v'), HO3, <-HO2. apply provides_new; [by rewrite HO2, lookup_insert_ne|done|]. intros i' r'. by apply (inv_refers F1 owner).
    + intros calls. apply (registered_made F owner db F1 db1 F3 owner db3 q g calls Hinv Hinv3 Hmade Hqn).
      * intros x o Hx'. rewrite HO3, !lookup_insert_ne; [done| |]; intros ->; congruence.
      * intros l Hl. apply Hx; [|done]. apply (head_not_static Max F1 owner _ _ Hs1 q _ OFFSET_Notify Hq1). right. left.
    + by rewrite Hc3.
    + intros _ Hk'. apply (proj1 Hsame2) in Hk' as [r Hr]. rewrite HO2, lookup_insert_ne in Hr by done. congruence.
    + intros w [i (r & e & Hi & Hh & _)]. destruct (sh_refers _ _ _ _ _ (inv_shape _ _ _ _ Hinv) i _ Hi) as [Hk' _]. rewrite Hh in Hk'.
      apply (proj1 Hsame2 k) in Hk' as [rk' Hk']. rewrite HO2, lookup_insert_ne in Hk' by done. congruence.
    + apply (pending_made F owner db F1 db1 F3 owner db3 q g Hinv Hinv3 Hmade); [|done].
      intros x o Hx' _. rewrite HO3, !lookup_insert_ne; [done| |]; intros ->; congruence.
    + intros j [r Hr]%Hif2. exists r. rewrite HO3, <-HO2, lookup_insert_ne; [done|]. intros <-. rewrite HO2, lookup_insert_ne in Hr by done. congruence.
    + apply (opens_kept_owner F owner db F3 db3 Hinv Hinv3).
      * intros j [r Hr]%Hif2. exists r. rewrite HO3, <-HO2, lookup_insert_ne; [done|]. intros <-. rewrite HO2, lookup_insert_ne in Hr by done. congruence.
      * intros x r Hx'. rewrite HO3, <-HO2 in Hx'. apply lookup_insert_Some in Hx' as [[_ ?]|[_ Hx']]; [done|by apply Hop2].
  - destruct (handleb (objects db2) hd) eqn:Hb2; cbn [EFI_ERROR].
    + apply handleb_true in Hb2 as [rk Hk].
      apply (Install_success_spec F1 owner db db2 hd rk q g p v Notify hd); try done.
      * by rewrite HO2, lookup_insert_eq.
      * rewrite HO2, lookup_insert_ne; [done|]. intros ->; congruence.
      * intros x r Hx' _. apply (Hu2 x r Hx'). by apply (object_not_null Max F1 owner db2 Hs2 x _ Hx').
      * intros h. rewrite (proj1 Hsame2 h). split; [by left|intros [?| ->]; [done|]]. apply (proj1 Hsame2). by exists rk.
      * intros i h g' v'. apply (proj2 Hsame2).
      * intros calls. apply (registered_made F owner db F1 db1 F1 owner db2 q g calls Hinv Hinv2 Hmade Hqn); [|done].
        intros x o Hx'. rewrite HO2, lookup_insert_ne; [done|]. intros ->; congruence.
      * apply (pending_made F owner db F1 db1 F1 owner db2 q g Hinv Hinv2 Hmade); [|by intros ? ?].
        intros x o Hx' _. rewrite HO2, lookup_insert_ne; [done|]. intros ->; congruence.
    + apply Hfail; [done..|]. apply (not_a_handle _ _ _ (dom (objects db1)) p Hhd); [|exact Hused|exact Hp]. intros Hh%(proj1 Hsame2)%handleb_true. congruence.
Qed.
End Install.

(** ** The whole function *)

Section InstallCode.
Context `{Platform} `{Drivers} (Verify : bool) (Max : nat) `{!PoolLaws Max} `{!DriverLaws Max}.
Implicit Types (F : lists) (db : Database).

Inductive install_result db hd g v (Notify : bool) : EFI_STATUS -> option ptr -> Database -> Prop :=
| install_new k p db' : install_success db k g v Notify hd p db' -> install_result db hd g v Notify EFI_SUCCESS (Some k) db'
| install_again w db' : hd <> NULL -> Installed db hd g w -> same_protocols db db' -> Calls db' = Calls db ->
    install_result db hd g v Notify EFI_INVALID_PARAMETER (Some hd) db'
| install_failed Status db' : install_error db hd g Status -> same_protocols db db' -> Calls db' = Calls db -> install_result db hd g v Notify Status (Some hd) db'.

Lemma same_protocols_put db p o o' : objects db !! p = Some o -> similar o o' ->
  (forall r r', o = AnInterface r -> o' = AnInterface r' -> Interface r = Interface r') -> same_protocols db (put p o' db).
Proof.
  intros Hp Hsim Hv. split.
  - intros h. unfold IsHandle, is_handle. cbn [put set_objects objects]. split; intros [r Hr].
    + apply lookup_insert_Some in Hr as [[<- ->]|[_ Hr]]; [|by exists r]. destruct o; try done. by eexists.
    + destruct (decide (h = p)) as [->|Hne]; [|exists r; by rewrite lookup_insert_ne]. rewrite Hp in Hr. injection Hr as ->. destruct o'; try done.
      eexists. apply lookup_insert_eq.
  - intros i h g v. unfold provides. cbn [put set_objects objects]. split; intros (r & e & Hi & Hh & Hvi & He & Hg).
    + assert (Hi' : exists r', objects db !! i = Some (AnInterface r') /\ Handle r' = Handle r /\ Interface r' = Interface r /\ Protocol r' = Protocol r).
      { apply lookup_insert_Some in Hi as [[<- ->]|[_ Hi]]; [|by exists r]. destruct o as [| | |r'| |]; try done. destruct Hsim as [? ?]. exists r'. repeat split; try done. by apply Hv. }
      destruct Hi' as (r' & Hi' & Hh' & Hv' & Hp'). exists r', e. split; [done|]. rewrite Hh', Hv', Hp'. do 2 (split; [done|]). split; [|done].
      apply lookup_insert_Some in He as [[<- ->]|[_ He]]; [|done]. destruct o; try done. cbn in Hsim. by subst.
    + assert (Hi' : exists r', <[p := o']> (objects db) !! i = Some (AnInterface r') /\ Handle r' = Handle r /\ Interface r' = Interface r /\ Protocol r' = Protocol r).
      { destruct (decide (i = p)) as [->|Hne]; [|exists r; by rewrite lookup_insert_ne]. rewrite Hp in Hi. injection Hi as ->. destruct o' as [| | |r'| |]; try done.
        destruct Hsim as [? ?]. exists r'. rewrite lookup_insert_eq. repeat split; try done. symmetry. by apply Hv. }
      destruct Hi' as (r' & Hi' & Hh' & Hv' & Hp'). exists r', e. split; [done|]. rewrite Hh', Hv', Hp'. do 2 (split; [done|]). split; [|done].
      destruct (decide (Protocol r = p)) as [Heq|Hne]; [|by rewrite lookup_insert_ne]. rewrite Heq in He |- *. rewrite Hp in He. injection He as ->.
      destruct o'; try done. cbn in Hsim. subst. apply lookup_insert_eq.
Qed.

(** A mode that is shared changes nothing but open records. *)
Lemma outcome_shared F owner db k i ih ch attr st db' : inv Max F owner db -> has attr EFI_OPEN_PROTOCOL_EXCLUSIVE = false -> has attr EFI_OPEN_PROTOCOL_BY_DRIVER = false ->
  open_outcome db k i ih ch attr st db' ->
  same_protocols db db' /\ Calls db' = Calls db /\ (st = EFI_SUCCESS \/ (st = EFI_OUT_OF_RESOURCES /\ db' = db /\ Allocate sizeof_OPEN_PROTOCOL_DATA db = None)).
Proof.
  intros Hinv He Hd Ho. assert (Hgr : forall db1, granted db k i attr db1 -> db1 = db) by (intros db1 [_ _ ->|_ ->|? _ _ _ _ _]; [done..|congruence]).
  destruct Ho as [q r Hq Hex Hdr|q r Hq Hex Hr|? ? Hm|? db1 ? Hm ? ? ? ?|db1 ? Hg ?|db1 ? Hg ? Hnone|db1 db' p rj ? Hg ? Hp Hrj HO Hop _ Hsg].
  - unfold ExactMatch in Hex. apply andb_true_iff in Hex as [Hex _]. apply andb_true_iff in Hex as [_ Hat%Z.eqb_eq]. unfold by_driver in Hdr. rewrite Hat in Hdr. congruence.
  - split; [|split; [done|by left]]. destruct Hq as [Hq _]. by apply (same_protocols_put db q (AnOpen r)).
  - by rewrite He, Hd in Hm.
  - congruence.
  - apply Hgr in Hg as ->. split; [done|]. split; [done|by left].
  - apply Hgr in Hg as ->. split; [done|]. split; [done|by right].
  - apply Hgr in Hg as ->. split; [|split; [apply Hsg|by left]]. set (dbp := put p (AnOpen (MkOpen ih ch attr 1)) db).
    assert (Hpi : p <> i) by (intros ->; congruence).
    assert (Hs1 : same_protocols db dbp) by (apply (same_protocols_new db dbp p (AnOpen (MkOpen ih ch attr 1))); [done..|]; intros j r; by apply (inv_refers Max F owner)).
    eapply same_protocols_trans; [exact Hs1|]. pose proof (same_protocols_put dbp i (AnInterface rj) (AnInterface (set_OpenListCount (OpenListCount rj + 1) rj))) as [Hsp1 Hsp2].
    + cbn [dbp put set_objects objects]. by rewrite lookup_insert_ne.
    + done.
    + by intros r r' [= <-] [= <-].
    + split; unfold IsHandle; [intros h|intros j h g v]; rewrite HO; [apply Hsp1|apply Hsp2].
Qed.

(** The interfaces of [db] have no new opens, but such as every handle of a
    protocol is read by. *)
Definition only_reads db db' : Prop :=
  forall j q r, is_interface (objects db) j -> opened db' j q r -> opened db j q r \/ Attributes r = EFI_OPEN_PROTOCOL_BY_HANDLE_PROTOCOL.

Lemma opens_only_reads db db' : opens_kept db db' -> only_reads db db'.
Proof. intros Hk j q r Hj Ho. left. by apply Hk. Qed.

Lemma only_reads_refl db : only_reads db db.
Proof. intros j q r _ Ho. by left. Qed.

Lemma only_reads_trans db1 db2 db3 : (forall j, is_interface (objects db1) j -> is_interface (objects db2) j) -> only_reads db1 db2 -> only_reads db2 db3 -> only_reads db1 db3.
Proof. intros Hif H1 H2 j q r Hj Ho. destruct (H2 j q r (Hif j Hj) Ho) as [Ho'|?]; [|by right]. by apply H1. Qed.

Lemma same_protocols_delete db db' p o : objects db !! p = Some o -> match o with ABlank | AnOpen _ | ANotify _ => True | _ => False end ->
  objects db' = delete p (objects db) -> same_protocols db db'.
Proof.
  intros Hp Ho HO. unfold same_protocols, IsHandle, is_handle, provides. rewrite HO. split.
  - intros h. split; intros [r Hr]; exists r; [by apply lookup_delete_Some in Hr as [_ ?]|]. rewrite lookup_delete_ne; [done|]. intros ->. rewrite Hr in Hp. by injection Hp as <-.
  - intros i h g v. split; intros (r & e & Hi & Hh & Hv & He & Hg); exists r, e.
    + apply lookup_delete_Some in Hi as [_ Hi]. by apply lookup_delete_Some in He as [_ He].
    + rewrite !lookup_delete_ne; [done| |]; intros ->; [rewrite He in Hp|rewrite Hi in Hp]; by injection Hp as <-.
Qed.

(** A mode that is shared makes no other opens. *)
Lemma outcome_only_reads F owner db h i ih ch st db' : inv Max F owner db -> open_outcome db h i ih ch EFI_OPEN_PROTOCOL_BY_HANDLE_PROTOCOL st db' -> only_reads db db'.
Proof.
  intros Hinv Ho. assert (Hgr : forall db1, granted db h i EFI_OPEN_PROTOCOL_BY_HANDLE_PROTOCOL db1 -> db1 = db) by (by intros db1 [_ _ ->|_ ->|? _ _ _ _ _]).
  destruct Ho as [q r Hq Hex Hdr|q r Hq Hex Hr|? ? Hm|? db1 ? Hm ? ? ? ?|db1 ? Hg ?|db1 ? Hg ? Hnone|db1 db' p rj ? Hg ? Hp Hrj HO Hop Hrest Hsg]; try apply only_reads_refl.
  - intros j x s Hj [Hx Hl]. cbn [put set_objects objects] in Hx. apply lookup_insert_Some in Hx as [[<- [= <-]]|[_ Hx]]; [|by left]. right. cbn [open_once_more Attributes].
    unfold ExactMatch in Hex. apply andb_true_iff in Hex as [Hex _]. by apply andb_true_iff in Hex as [_ Hat%Z.eqb_eq].
  - by cbn in Hm.
  - apply Hgr in Hg as ->. apply only_reads_refl.
  - apply Hgr in Hg as ->. apply only_reads_refl.
  - apply Hgr in Hg as ->. intros j q r Hj Hq. destruct (Hrest j q r Hj Hq) as [->|?]; [|by left]. right.
    destruct Hq as [Hq _]. rewrite HO in Hq. apply lookup_insert_Some in Hq as [[_ ?]|[_ Hq]]; [done|]. rewrite lookup_insert_eq in Hq. by injection Hq as <-.
Qed.

Lemma CoreInstallProtocolInterfaceNotify_full db hd g v Notify : valid Max db ->
  exists Status h' db', CoreInstallProtocolInterfaceNotify Verify Max (Some hd) (Some g) EFI_NATIVE_INTERFACE v Notify db = Ok (Status, h', db') /\
    valid Max db' /\ install_result db hd g v Notify Status h' db' /\ only_reads db db'.
Proof.
  intros Hvalid. unfold CoreInstallProtocolInterfaceNotify. rewrite Z.eqb_refl. cbn [negb].
  assert (Hfirst : exists Status0 db0, (if negb (hd =? NULL) then
      let! (Status, _, db) := CoreHandleProtocol Verify Max hd (Some g) true db in Ok (Status, db) else Ok (EFI_OUT_OF_RESOURCES, db)) = Ok (Status0, db0) /\
    ((EFI_ERROR Status0 = false /\ valid Max db0 /\ install_result db hd g v Notify EFI_INVALID_PARAMETER (Some hd) db0 /\ only_reads db db0) \/
     (EFI_ERROR Status0 = true /\ db0 = db /\
      (((forall w, ~ Installed db hd g w) /\ Status0 = search_status db hd) \/ ((exists w, Installed db hd g w) /\ Allocate sizeof_PROTOCOL_INTERFACE db = None))))).
  { destruct Hvalid as [Ha (F & owner & Hinv & Hu)]. assert (Hnull : forall w, ~ Installed db NULL g w).
    { intros w [i (r & e & Hi & Hh & _)]. destruct (sh_refers _ _ _ _ _ (inv_shape _ _ _ _ Hinv) i _ Hi) as [[rh Hrh] _]. rewrite Hh in Hrh.
      by apply (object_not_null Max F owner db (inv_shape _ _ _ _ Hinv) NULL _ Hrh). }
    destruct (Z.eqb_spec hd NULL) as [->|Hne]; cbn [negb]; [exists EFI_OUT_OF_RESOURCES, db; split; [done|]; right; do 2 (split; [done|]); by left|].
    assert (Hss : search_status db hd = if handleb (objects db) hd then EFI_UNSUPPORTED else EFI_INVALID_PARAMETER) by (unfold search_status; by rewrite (proj2 (Z.eqb_neq hd NULL) Hne)).
    destruct (CoreOpenProtocol_spec Verify Max db hd g true gDxeCoreImageHandle NULL EFI_OPEN_PROTOCOL_BY_HANDLE_PROTOCOL) as (Status & w & db' & Heq & Hv' & Hres); [by split; [|exists F, owner]|by right|].
    unfold CoreHandleProtocol. rewrite Heq. cbn [mbind result_bind]. exists Status, db'. split; [done|].
    destruct Hres as [Hbad|Hok Hnone|i w' Status db' Hok Hp Hout].
    - assert (Hno : handleb (objects db) hd = false) by (unfold handles_ok in Hbad; by rewrite bool_decide_eq_true_2, andb_true_r in Hbad by (apply list_elem_of_In; by left)).
      right. split; [done|]. split; [done|]. left. split; [|by rewrite Hss, Hno]. intros w [i (r & e & Hi & Hh & _)].
      destruct (sh_refers _ _ _ _ _ (inv_shape _ _ _ _ Hinv) i _ Hi) as [Hk _]. rewrite Hh in Hk. apply handleb_true in Hk. by rewrite Hk in Hbad.
    - right. split; [done|]. split; [done|]. left. split; [done|]. apply andb_true_iff in Hok as [Hok _]. by rewrite Hss, Hok.
    - destruct (outcome_shared F owner db hd i _ _ EFI_OPEN_PROTOCOL_BY_HANDLE_PROTOCOL _ _ Hinv eq_refl eq_refl Hout) as (Hsame & Hcalls & [->|(-> & -> & Hnone)]).
      + left. split; [done|]. split; [done|]. split; [apply (install_again _ _ _ _ _ w'); [done|by exists i|done|done]|]. by apply (outcome_only_reads F owner db hd i gDxeCoreImageHandle NULL EFI_SUCCESS).
      + right. split; [done|]. split; [done|]. right. split; [exists w'; by exists i|]. by apply AllocatePool_smaller. }
  destruct Hfirst as (Status0 & db0 & -> & [(HS & Hv0 & Hres)|(HS & -> & Hpre)]); cbn [mbind result_bind]; rewrite HS; cbn [negb].
  { exists EFI_INVALID_PARAMETER, (Some hd), db0. by destruct Hres. }
  destruct Hvalid as [Ha Hc]. unfold CoreAcquireProtocolLock. rewrite Ha. cbn [negb ASSERT mbind result_bind].
  destruct (Install_locked_spec Verify Max (set_acquired true db) hd g v Notify Status0) as (Status & k & p & db1 & -> & Hc1 & Ha1 & Hkept & Hcase);
    [by apply consistent_acquired|done..|].
  cbn [mbind result_bind]. unfold CoreReleaseProtocolLock. rewrite Ha1. cbn [ASSERT mbind result_bind].
  pose proof (consistent_acquired Max db1 false Hc1) as Hc2. destruct Hcase as [(HE & Hp & Hsame & Hcalls)|[-> Hs]].
  - apply install_error_unlocked in HE. rewrite (install_error_error _ _ _ _ HE). cbn [negb]. destruct (Z.eqb_spec p NULL) as [->|Hpn]; cbn [negb mbind result_bind].
    + exists Status, (Some hd), (set_acquired false db1). split; [done|]. split; [done|]. split; [by apply install_failed|]. by apply opens_only_reads.
    + destruct Hp as [?|Hp]; [done|]. destruct (FreeBlank_spec Max (set_acquired false db1) p Hc2 Hp) as (db2 & -> & Hc3 & HO & Hsg & Hlk). cbn [mbind result_bind].
      exists Status, (Some hd), db2. split; [done|]. split; [by split; [rewrite (sg_acquired _ _ Hsg)|]|]. split.
      * apply install_failed; [done| |by rewrite (sg_calls _ _ Hsg)].
        eapply same_protocols_trans; [exact Hsame|]. by apply (same_protocols_delete (set_acquired false db1) db2 p ABlank).
      * apply opens_only_reads. intros j q r Hj Ho. apply (Hkept j q r Hj). destruct Ho as [Hq Hl]. rewrite HO in Hq. apply lookup_delete_Some in Hq as [_ Hq].
        split; [exact Hq|]. rewrite Hlk in Hl. exact Hl.
  - cbn [EFI_ERROR negb]. exists EFI_SUCCESS, (Some k), (set_acquired false db1). split; [done|]. split; [done|].
    split; [apply (install_new _ _ _ _ _ k p); by destruct Hs|by apply opens_only_reads].
Qed.

Lemma CoreInstallProtocolInterfaceNotify_spec db hd g v Notify : valid Max db ->
  exists Status h' db', CoreInstallProtocolInterfaceNotify Verify Max (Some hd) (Some g) EFI_NATIVE_INTERFACE v Notify db = Ok (Status, h', db') /\
    valid Max db' /\ install_result db hd g v Notify Status h' db'.
Proof. intros Hv. destruct (CoreInstallProtocolInterfaceNotify_full db hd g v Notify Hv) as (Status & h' & db' & ? & ? & ? & _). by exists Status, h', db'. Qed.
End InstallCode.
