(* ===== verification/HandleErase.v ===== *)
(** * Handles and protocols: uninstalling

    [CoreUninstallProtocolInterface] and [CoreReinstallProtocolInterface]: the
    drivers of the interface are disconnected; if nobody uses it any more it is
    removed, and its handle with it if that has no other interface. *)

From S2P Require Import Prelude LinkedList ListFamily Handle HandleInv HandleLookup HandleShape HandleCreate HandleRemove HandleUninstall HandleDriver HandleOpen HandleInstall.

(** Opens that do not keep an interface from being removed. *)
Definition passive (r : OPEN_PROTOCOL_DATA) : bool :=
  has (Attributes r) (Z.lor (Z.lor EFI_OPEN_PROTOCOL_BY_HANDLE_PROTOCOL EFI_OPEN_PROTOCOL_GET_PROTOCOL) EFI_OPEN_PROTOCOL_TEST_PROTOCOL).

(** The users that do. *)
Definition holds (r : OPEN_PROTOCOL_DATA) : bool := negb (passive r).
Definition uses (r : OPEN_PROTOCOL_DATA) : bool := holds r || by_driver r.

(** The interface [i] of the handle [h] cannot be removed: a driver fails to be
    disconnected; or all of them are, the passive opens are closed, and somebody
    else has it open.  In either case the drivers are connected again. *)
Inductive refused `{Drivers} (h i : ptr) db db' : Prop :=
| driver_refuses Status db1 : disconnecting h i db Status db1 -> EFI_ERROR Status = true -> CoreConnectController db1 h = Ok db' -> refused h i db db'
| still_held db1 db2 : disconnecting h i db EFI_SUCCESS db1 -> closed db1 db2 i passive -> somebody db1 i holds ->
    CoreConnectController db2 h = Ok db' -> refused h i db db'.

(** It can: all drivers are disconnected and the passive opens are closed, and
    there are no others. *)
Definition given_up `{Drivers} (h i : ptr) db db' : Prop :=
  exists db1, disconnecting h i db EFI_SUCCESS db1 /\ closed db1 db' i passive /\ nobody db1 i holds.

(** An interface that nobody uses, or that is only read, is not refused. *)
Lemma disconnecting_nobody `{Drivers} h i db Status db' : nobody db i by_driver -> disconnecting h i db Status db' -> Status = EFI_SUCCESS /\ db' = db.
Proof. intros Hn Hdis. revert Hn. destruct Hdis as [db _|db q r ? ? Hq Hd|db q r ? ? ? Hq Hd]; intros Hn; [done|by rewrite (Hn q r Hq) in Hd..]. Qed.

Lemma nobody_refused `{Drivers} h i db db' : nobody db i uses -> ~ refused h i db db'.
Proof.
  intros Hn. assert (nobody db i by_driver) as Hd by (intros q r Hq; by apply (orb_false_elim _ _ (Hn q r Hq))).
  intros [Status db1 Hdis HE _|db1 db2 Hdis _ (q & r & Hq & Hr) _]; apply disconnecting_nobody in Hdis as [Hst ->]; [by subst|done|subst|done].
  destruct (orb_false_elim _ _ (Hn q r Hq)) as [Hh _]. congruence.
Qed.

Section Disconnect.
Context `{Platform} `{Drivers} (Verify : bool) (Max : nat) `{!PoolLaws Max} `{!DriverLaws Max}.
Implicit Types (F : lists) (db : Database).

Lemma Reconnect_spec db h : consistent Max db -> Acquired db = true ->
  exists db', Reconnect h db = Ok (EFI_ACCESS_DENIED, db') /\ CoreConnectController (set_acquired false db) h = Ok (set_acquired false db') /\
    consistent Max db' /\ Acquired db' = true /\ entries_stay db db'.
Proof.
  intros Hc Ha. destruct (Connect_ok (set_acquired false db) h) as (db1 & Heq & [Ha1 Hc1] & Hst).
  { split; [done|]. by apply consistent_acquired. }
  exists (set_acquired true db1). unfold Reconnect, CoreReleaseProtocolLock, CoreAcquireProtocolLock. rewrite Ha. cbn [ASSERT mbind result_bind]. rewrite Heq.
  cbn [mbind result_bind]. rewrite Ha1. cbn [negb ASSERT mbind result_bind]. split; [done|]. split; [by rewrite acquire_release, <-Ha1, set_acquired_same|].
  split; [by apply consistent_acquired|]. by split.
Qed.

Lemma closed_unlocked db db' i f : closed db db' i f -> closed (set_acquired false db) (set_acquired false db') i f.
Proof. intros (Hi & [Hk Hr Hac Hca] & Ho & Hp). split; [done|]. split; [by split|done]. Qed.

(** An object that is neither is there before and after. *)
Lemma closed_lookup db db' i ri f p o : closed db db' i f -> objects db !! i = Some (AnInterface ri) ->
  match o with AnInterface _ | AnOpen _ => False | _ => True end -> objects db' !! p = Some o <-> objects db !! p = Some o.
Proof.
  intros (Hsame & _ & _ & Hother) Hi Ho. destruct (decide (p = i)) as [->|Hp].
  - destruct (Hsame ri Hi) as (r' & Hr' & _). rewrite Hr', Hi. split; intros [= <-]; by destruct Ho.
  - rewrite (Hother p o Hp). split; [by intros [? _]|]. intros Hpo. split; [done|]. by intros (r & -> & _).
Qed.

Lemma closed_protocols db db' i ri f : closed db db' i f -> objects db !! i = Some (AnInterface ri) -> same_protocols db db'.
Proof.
  intros Hcl Hi. split.
  - intros h. unfold IsHandle, is_handle. by setoid_rewrite (closed_lookup db db' i ri f h (AHandle _) Hcl Hi I).
  - intros j h g v. pose proof Hcl as (Hsame & _ & _ & Hother). unfold provides. split; intros (r & e & Hj & Hh & Hv & He & Hg).
    + destruct (decide (j = i)) as [->|Hne].
      * destruct (Hsame ri Hi) as (r' & Hr' & Hh' & Hp' & Hv'). rewrite Hr' in Hj. injection Hj as <-. exists ri, e.
        rewrite <-Hh', <-Hp', <-Hv'. do 3 (split; [done|]). split; [|done]. by apply (closed_lookup db db' i ri f _ (AnEntry e) Hcl Hi I).
      * exists r, e. apply (Hother j _ Hne) in Hj as [Hj _]. do 3 (split; [done|]). split; [|done]. by apply (closed_lookup db db' i ri f _ (AnEntry e) Hcl Hi I).
    + destruct (decide (j = i)) as [->|Hne].
      * destruct (Hsame r Hj) as (r' & Hr' & Hh' & Hp' & Hv'). exists r', e.
        rewrite Hh', Hp', Hv'. do 3 (split; [done|]). split; [|done]. by apply (closed_lookup db db' i ri f _ (AnEntry e) Hcl Hi I).
      * exists r, e. split; [apply (Hother j _ Hne); split; [done|by intros (? & ? & _)]|]. do 2 (split; [done|]). split; [|done].
        by apply (closed_lookup db db' i ri f _ (AnEntry e) Hcl Hi I).
Qed.

(** Nobody uses the interface any more, or an error. *)
Lemma CoreDisconnectControllers_spec db i ri : consistent Max db -> Acquired db = true -> objects db !! i = Some (AnInterface ri) ->
  exists Status db', CoreDisconnectControllersUsingProtocolInterface Max (Handle ri) i db = Ok (Status, db') /\
    consistent Max db' /\ Acquired db' = true /\ entries_stay db db' /\
    ((Status = EFI_ACCESS_DENIED /\ refused (Handle ri) i (set_acquired false db) (set_acquired false db')) \/
     (Status = EFI_SUCCESS /\ given_up (Handle ri) i (set_acquired false db) (set_acquired false db') /\ same_interface db db' i /\ nobody db' i (fun _ => true) /\
        (nobody db i by_driver -> same_protocols db db' /\ Calls db' = Calls db /\ opens_kept db db'))).
Proof.
  intros Hc Ha Hi. pose proof Hc as (F & owner & Hinv & Hu). pose proof (inv_shape _ _ _ _ Hinv) as Hs.
  destruct (head_list Max F owner _ _ Hs i _ OFFSET_OpenList Hi) as [l Hl]; [left|]. pose proof (agents_size Max F owner db Hs i ri l Hi Hl) as Hsz.
  unfold CoreDisconnectControllersUsingProtocolInterface.
  destruct (DisconnectControllers_spec Max i (S (size (objects db))) F owner db ri l EFI_SUCCESS Hinv Hu Ha Hi Hl) as
    (Status & db1 & -> & Hc1 & Ha1 & Hst1 & Hdis & Hok1 & Hquiet); [lia|done|]. cbn [mbind result_bind].
  destruct (EFI_ERROR Status) eqn:HE.
  { destruct (Reconnect_spec db1 (Handle ri) Hc1 Ha1) as (db2 & -> & Hcon & Hc2 & Ha2 & Hst2). exists EFI_ACCESS_DENIED, db2.
    do 3 (split; [done|]). split; [by eapply entries_stay_trans|]. left. split; [done|]. by apply (driver_refuses _ _ _ _ Status (set_acquired false db1)). }
  apply EFI_ERROR_false in HE as ->. destruct (Hok1 eq_refl) as (Hsame1 & _ & Hnone1). destruct (Hsame1 ri Hi) as (ri1 & Hi1 & Hh1 & Hp1 & Hv1).
  destruct (RemoveOpens_closed Max db1 i ri1 passive EFI_SUCCESS Hc1 Hi1) as (n & Status2 & db2 & -> & Heq & Hc2 & Hcl & _ & _ & ri2 & Hi2 & Hcount & Hpos).
  cbn [mbind result_bind]. unfold passive in Heq. rewrite Heq. cbn [mbind result_bind]. rewrite (interface_at_Some _ _ _ Hi2). cbn [mbind result_bind].
  pose proof Hcl as (Hsame2 & Hsg2 & Hop2 & _). assert (Ha2 : Acquired db2 = true) by (by rewrite (sg_acquired _ _ Hsg2)).
  assert (Hst2 : entries_stay db1 db2) by (intros e re He; by apply (closed_lookup db1 db2 i ri1 passive e (AnEntry re) Hcl Hi1 I)).
  rewrite Z.gtb_ltb. destruct (Z.ltb_spec 0 (OpenListCount ri2)) as [Hlt|Hle].
  - destruct (Reconnect_spec db2 (Handle ri) Hc2 Ha2) as (db3 & -> & Hcon & Hc3 & Ha3 & Hst3). exists EFI_ACCESS_DENIED, db3. do 3 (split; [done|]).
    split; [eapply entries_stay_trans; [exact Hst1|]; by eapply entries_stay_trans|]. left. split; [done|].
    apply (still_held _ _ _ _ (set_acquired false db1) (set_acquired false db2)); [done|by apply closed_unlocked| |done].
    destruct (somebody_or_nobody Max db1 i holds Hc1) as [?|Hn]; [by eexists|done|]. apply Hcount in Hn. lia.
  - assert (Hz : nobody db1 i holds) by (apply Hcount; lia).
    exists EFI_SUCCESS, db2. do 3 (split; [done|]). split; [by eapply entries_stay_trans|]. right. split; [done|].
    split; [exists (set_acquired false db1); split; [done|]; split; [by apply closed_unlocked|done]|]. split; [by eapply same_interface_trans|]. split.
    + intros q r [Hq Hf]%(Hop2 i ri1 q r Hi1). specialize (Hf eq_refl). pose proof (Hz q r Hq) as Hz1. unfold holds in Hz1. by rewrite Hf in Hz1.
    + intros Hn. destruct (Hquiet Hn) as [_ ->]. split; [by apply (closed_protocols db db2 i ri1 passive)|]. split; [apply Hsg2|]. intros j q r [rj Hj] Hq. by apply (Hop2 j rj q r Hj) in Hq as [? _].
Qed.

(** ** Without the interface *)

Lemma erased_interface db i b hd rh ri j r : objects db !! i = Some (AnInterface ri) -> objects db !! hd = Some (AHandle rh) ->
  erased db i b hd rh !! j = Some (AnInterface r) <-> j <> i /\ objects db !! j = Some (AnInterface r).
Proof.
  intros Hi Hh. unfold erased. rewrite lookup_delete_Some. split.
  - intros [Hne Hj]. split; [done|]. apply lookup_insert_Some in Hj as [[_ ?]|[_ Hj]]; [done|]. rewrite lookup_fmap in Hj.
    apply fmap_Some in Hj as (o & Ho & Heq). destruct o as [| | |s| |s]; cbn [step_back] in Heq; try done; [by injection Heq as ->|]. by destruct (_ =? _) in Heq.
  - intros [Hne Hj]. split; [done|]. rewrite lookup_insert_ne by (intros ->; congruence). by rewrite lookup_fmap, Hj.
Qed.

Lemma erased_entry db i b hd rh ri j e : objects db !! i = Some (AnInterface ri) -> objects db !! hd = Some (AHandle rh) ->
  erased db i b hd rh !! j = Some (AnEntry e) <-> objects db !! j = Some (AnEntry e).
Proof.
  intros Hi Hh. unfold erased. rewrite lookup_delete_Some. split.
  - intros [Hne Hj]. apply lookup_insert_Some in Hj as [[_ ?]|[_ Hj]]; [done|]. rewrite lookup_fmap in Hj.
    apply fmap_Some in Hj as (o & Ho & Heq). destruct o as [| |s| | |s]; cbn [step_back] in Heq; try done; [by injection Heq as ->|]. by destruct (_ =? _) in Heq.
  - intros Hj. split; [intros ->; congruence|]. rewrite lookup_insert_ne by (intros ->; congruence). by rewrite lookup_fmap, Hj.
Qed.

Lemma erased_handle db i b hd rh ri h : objects db !! i = Some (AnInterface ri) -> objects db !! hd = Some (AHandle rh) ->
  is_handle (erased db i b hd rh) h <-> is_handle (objects db) h.
Proof.
  intros Hi Hh. unfold erased, is_handle. setoid_rewrite lookup_delete_Some. split.
  - intros (r & Hne & Hj). apply lookup_insert_Some in Hj as [[<- _]|[_ Hj]]; [by exists rh|]. rewrite lookup_fmap in Hj.
    apply fmap_Some in Hj as (o & Ho & Heq). destruct o as [|s| | | |s]; cbn [step_back] in Heq; try done; [by exists s|]. by destruct (_ =? _) in Heq.
  - intros (r & Hr). destruct (decide (h = hd)) as [->|Hne].
    + eexists. split; [intros ->; congruence|]. apply lookup_insert_eq.
    + exists r. split; [intros ->; congruence|]. rewrite lookup_insert_ne by done. by rewrite lookup_fmap, Hr.
Qed.

Lemma erased_provides db i b hd rh ri j h g v : objects db !! i = Some (AnInterface ri) -> objects db !! hd = Some (AHandle rh) ->
  provides (erased db i b hd rh) j h g v <-> provides (objects db) j h g v /\ j <> i.
Proof.
  intros Hi Hh. unfold provides. setoid_rewrite (erased_interface db i b hd rh ri j _ Hi Hh). setoid_rewrite (erased_entry db i b hd rh ri _ _ Hi Hh). naive_solver.
Qed.

Lemma erased_open db i b hd rh q r : erased db i b hd rh !! q = Some (AnOpen r) -> objects db !! q = Some (AnOpen r).
Proof.
  unfold erased. intros [_ [[_ ?]|[_ Hq]]%lookup_insert_Some]%lookup_delete_Some; [done|]. rewrite lookup_fmap in Hq.
  apply fmap_Some in Hq as (o & Ho & Heq). destruct o as [| | | |s|s]; cbn [step_back] in Heq; try done; [by injection Heq as ->|]. by destruct (_ =? _) in Heq.
Qed.

(** What is still there has no new opens. *)
Definition opens_left db db' : Prop := forall j q r, is_interface (objects db') j -> opened db' j q r -> opened db j q r.

Lemma opens_left_owner F owner db F' db' : inv Max F owner db -> inv Max F' owner db' -> (forall j, is_interface (objects db') j -> is_interface (objects db) j) ->
  (forall q r, objects db' !! q = Some (AnOpen r) -> objects db !! q = Some (AnOpen r)) -> opens_left db db'.
Proof.
  intros Hinv Hinv' Hif Hop j q r Hj Ho. pose proof Hj as [rj' Hrj']. destruct (Hif j Hj) as [rj Hrj].
  apply (opened_owner Max F' owner db' (inv_shape _ _ _ _ Hinv') j rj' q r Hrj') in Ho as [Hq Ho].
  apply (opened_owner Max F owner db (inv_shape _ _ _ _ Hinv) j rj q r Hrj). split; [by apply Hop|done].
Qed.

Lemma consistent_provides db j : consistent Max db -> is_interface (objects db) j -> exists h g v, provides (objects db) j h g v.
Proof.
  intros (F & owner & Hinv & _) [r Hr]. destruct (sh_refers _ _ _ _ _ (inv_shape _ _ _ _ Hinv) j _ Hr) as [_ [e He]]. by exists (Handle r), (ProtocolID e), (Interface r), r, e.
Qed.

(** [i] is removed from the handle [hd], which goes with its last interface. *)
Record removed db db' (i hd : ptr) : Prop := {
  rm_provides : forall j h g v, provides (objects db') j h g v <-> provides (objects db) j h g v /\ j <> i;
  rm_handles : forall h, IsHandle db' h <-> IsHandle db h /\ (h = hd -> exists g v, Installed db' hd g v);
  rm_calls : Calls db' = Calls db }.

(** The end of the function: the interface [i], which nobody uses, is removed. *)
Definition Uninstall_erase (UserHandle : ptr) (Protocol' : EFI_GUID) (Interface' : Z) (db : Database) : result (EFI_STATUS * Database) :=
  let! (Prot, db) := CoreRemoveInterfaceFromProtocol Verify Max UserHandle Protocol' Interface' db in
  let! (Status, db) :=
    if negb (Prot =? NULL) then
      let! db := NewKey UserHandle db in
      let! (_, db) := remove_entry Max (Prot + OFFSET_InterfaceLink) db in
      let! db := FreePool Prot db in
      Ok (EFI_SUCCESS, db)
    else Ok (EFI_NOT_FOUND, db) in
  let! empty := IsListEmpty Max (links db) (UserHandle + OFFSET_HandleProtocols) in
  if (empty : bool) then
    let! (_, db) := remove_entry Max (UserHandle + OFFSET_AllHandles) db in
    let! db := FreePool UserHandle db in
    Ok (Status, db)
  else Ok (Status, db).

Lemma Uninstall_erase_spec db i hd g v : consistent Max db -> Acquired db = true -> provides (objects db) i hd g v -> nobody db i (fun _ => true) ->
  exists db', Uninstall_erase hd g v db = Ok (EFI_SUCCESS, db') /\ consistent Max db' /\ Acquired db' = true /\ removed db db' i hd /\ opens_left db db'.
Proof.
  intros (F & owner & Hinv & Hu) Ha Hp Hnone. pose proof (inv_shape _ _ _ _ Hinv) as Hs.
  destruct (CoreRemoveInterfaceFromProtocol_spec Verify Max F owner db hd g v i Hinv Ha Hp) as (ri & b & l1 & l2 & db1 & h' & Hi & Hh & Hv & He & Heq & Ht).
  destruct (sh_refers _ _ _ _ _ Hs i _ Hi) as [[rh Hrh] _]. destruct (head_list Max F owner _ _ Hs i _ OFFSET_OpenList Hi) as [l Hl]; [left|].
  assert (l = []) as ->.
  { destruct l as [|x l]; [done|]. destruct (proj1 (in_open_list Max F owner _ _ Hs i ri (x :: l) x Hi Hl)) as (r & Hr & Ho); [left|].
    assert (opened db i (x - OFFSET_OpenLink) r) as Hq by (by apply (opened_owner Max F owner db Hs i ri)). by apply Hnone in Hq. }
  destruct (EraseInterface_spec Max F owner db i ri b l1 l2 db1 h' rh Hinv Hi Hrh Hl Ht) as (m1 & m2 & Hm & n & db2 & db' & Hkey & db3 & Hrem & Hfree & Hinv' & HO & Ha' & _ & Hcalls).
  rewrite Hh in *. set (F' := delete _ _) in Hinv'.
  assert (Hm' : F' !! (hd + OFFSET_HandleProtocols) = Some (m1 ++ m2)).
  { unfold F'. rewrite lookup_delete_ne, lookup_insert_eq; [done|]. intros Hx.
    destruct (object_node Max F owner _ _ Hs i hd _ _ OFFSET_OpenList OFFSET_HandleProtocols Hi Hrh) as (_ & ? & _); [right; right; left|right; left|done|done]. }
  assert (Hhd' : is_handle (objects db') hd) by (rewrite HO; apply (erased_handle db i b hd rh ri hd Hi Hrh); by exists rh).
  assert (Hused : used F' (objects db') hd).
  { intros x r Hx Hne. assert (Hx' : is_handle (objects db) x) by (apply (erased_handle db i b hd rh ri x Hi Hrh); rewrite <-HO; by exists r). destruct Hx' as [r' Hx'].
    unfold F'. rewrite lookup_delete_ne, !lookup_insert_ne.
    - apply (Hu x r' Hx'). by apply (object_not_null Max F owner db Hs x _ Hx').
    - intros Hxx. destruct (object_node Max F owner _ _ Hs (Protocol ri) x _ _ OFFSET_EntryProtocols OFFSET_HandleProtocols He Hx') as (_ & ? & _); [right; left|right; left|done|done].
    - unfold OFFSET_HandleProtocols. lia.
    - intros Hxx. destruct (object_node Max F owner _ _ Hs i x _ _ OFFSET_OpenList OFFSET_HandleProtocols Hi Hx') as (_ & ? & _); [right; right; left|right; left|done|done]. }
  pose proof (inv_shape _ _ _ _ Hinv') as Hs'. destruct Hhd' as [rh' Hrh'].
  assert (Hprov : forall j h g v, provides (objects db') j h g v <-> provides (objects db) j h g v /\ j <> i).
  { intros j y g' v'. rewrite HO. by apply (erased_provides db i b hd rh ri). }
  assert (Hhand : forall h, IsHandle db' h <-> IsHandle db h) by (intros x; unfold IsHandle; rewrite HO; by apply (erased_handle db i b hd rh ri)).
  assert (Hin : forall x, x ∈ m1 ++ m2 <-> exists r, objects db' !! (x - OFFSET_InterfaceLink) = Some (AnInterface r) /\ Handle r = hd) by (intros x; by apply (in_handle_protocols Max F' owner _ _ Hs' hd rh')).
  assert (Hif : forall j, is_interface (objects db') j -> is_interface (objects db) j).
  { intros j [r Hr]. rewrite HO in Hr. apply (erased_interface db i b hd rh ri j r Hi Hrh) in Hr as [_ Hr]. by exists r. }
  assert (Hop : forall q r, objects db' !! q = Some (AnOpen r) -> objects db !! q = Some (AnOpen r)) by (intros q r; rewrite HO; apply erased_open).
  unfold Uninstall_erase. rewrite Heq. cbn [mbind result_bind].
  assert (Hin0 : (i =? NULL) = false) by (apply Z.eqb_neq; by apply (object_not_null Max F owner db Hs i _ Hi)).
  rewrite Hin0. cbn [negb]. rewrite Hkey. cbn [mbind result_bind]. rewrite Hrem. cbn [mbind result_bind]. rewrite Hfree. cbn [mbind result_bind].
  rewrite (family_IsListEmpty Max (links db') F' _ (m1 ++ m2)); [|apply Hs'|done|by apply (hand_list_capacity Max F' owner _ _ Hs' _ _ Hm')]. cbn [mbind result_bind].
  destruct (m1 ++ m2) as [|x m] eqn:Hmm.
  - rewrite bool_decide_eq_true_2 by done.
    destruct (RemoveHandle_spec Max F' owner db' hd rh' Hinv' Hrh' Hm') as (k1 & k2 & Hk & n' & db4 & db5 & Hrem' & Hfree' & Hinv5 & Hsg5 & HO5).
    rewrite Hrem'. cbn [mbind result_bind]. rewrite Hfree'. cbn [mbind result_bind]. exists db5. split; [done|].
    assert (Hc5 : consistent Max db5).
    { eexists _, owner. split; [exact Hinv5|]. intros y r Hy _. rewrite HO5 in Hy. apply lookup_delete_Some in Hy as [Hne Hy].
      rewrite lookup_delete_ne, lookup_insert_ne; [by apply (Hused y r)| |unfold OFFSET_HandleProtocols; lia].
      apply not_eq_sym, (head_not_static Max F' owner _ _ Hs' y _ OFFSET_HandleProtocols Hy). left. }
    assert (Hprov5 : forall j h g v, provides (objects db5) j h g v <-> provides (objects db) j h g v /\ j <> i).
    { intros j y g' v'. rewrite <-Hprov, HO5. unfold provides. split; intros (r & e & Hj & Hhr & Hvr & Her & Hgr); exists r, e.
      - apply lookup_delete_Some in Hj as [_ Hj]. by apply lookup_delete_Some in Her as [_ Her].
      - rewrite !lookup_delete_ne; [done| |]; intros ->; congruence. }
    split; [done|]. split; [by rewrite (sg_acquired _ _ Hsg5), Ha'|]. split.
    2: { apply (opens_left_owner F owner db _ db5 Hinv Hinv5).
      - intros j [r Hr]. rewrite HO5 in Hr. apply lookup_delete_Some in Hr as [_ Hr]. apply Hif. by exists r.
      - intros q r Hq. rewrite HO5 in Hq. apply lookup_delete_Some in Hq as [_ Hq]. by apply Hop. }
    split; [done| |by rewrite (sg_calls _ _ Hsg5)].
    intros y. rewrite <-Hhand. unfold IsHandle, is_handle. rewrite HO5. setoid_rewrite lookup_delete_Some. split.
    + intros (r & Hne & Hy). split; [by exists r|]. by intros ->.
    + intros [[r Hy] Hlast]. exists r. split; [|done]. intros ->. destruct (Hlast eq_refl) as (g' & v' & j & Hj). apply Hprov5, Hprov in Hj as (s & e & Hj & Hhs & _).
      assert (Hx : j + OFFSET_InterfaceLink ∈ []); [|by apply elem_of_nil in Hx]. apply Hin. exists s. by rewrite Z.add_simpl_r.
  - rewrite bool_decide_eq_false_2 by done. exists db'. split; [done|].
    split; [exists F', owner; split; [done|]|split; [by rewrite Ha'|split; [split; [done| |done]|by apply (opens_left_owner F owner db F' db' Hinv Hinv')]]].
    + intros y r Hy Hn. destruct (decide (y = hd)) as [->|Hne]; [by rewrite Hm'|]. by apply (Hused y r).
    + intros y. rewrite Hhand. split; [|by intros [? _]]. intros Hy. split; [done|]. intros ->.
      destruct (proj1 (Hin x)) as (r & Hr & Hrh2); [left|]. destruct (sh_refers _ _ _ _ _ Hs' _ _ Hr) as [_ [e Hre]].
      exists (ProtocolID e), (Interface r), (x - OFFSET_InterfaceLink), r, e. done.
Qed.

(** ** Uninstalling *)

Inductive uninstall_result db hd g v : EFI_STATUS -> Database -> Prop :=
| uninstall_invalid : ~ IsHandle db hd -> uninstall_result db hd g v EFI_INVALID_PARAMETER db
| uninstall_absent : IsHandle db hd -> ~ Installed db hd g v -> uninstall_result db hd g v EFI_NOT_FOUND db
| uninstall_refused i db' : provides (objects db) i hd g v -> refused hd i db db' -> uninstall_result db hd g v EFI_ACCESS_DENIED db'
| uninstall_done i db1 db' : provides (objects db) i hd g v -> given_up hd i db db1 -> same_interface db db1 i ->
    (nobody db i by_driver -> same_protocols db db1 /\ Calls db1 = Calls db) -> removed db1 db' i hd -> uninstall_result db hd g v EFI_SUCCESS db'.

(** The interface after its drivers were disconnected. *)
Lemma provides_same F owner db db1 i hd g v : inv Max F owner db -> provides (objects db) i hd g v -> same_interface db db1 i -> entries_stay db db1 ->
  provides (objects db1) i hd g v.
Proof.
  intros Hinv Hp Hsame Hst. destruct (provides_entry Max F owner db i hd g v Hinv Hp) as (r & Hr & Hh & Hv & He).
  destruct (Hsame r Hr) as (r1 & Hr1 & Hh1 & Hp1 & Hv1). exists r1, (MkEntry g). rewrite Hp1. repeat split; try done; [congruence..|]. by apply Hst.
Qed.

Lemma CoreFindProtocolInterface_found F owner db hd g v : inv Max F owner db -> Acquired db = true -> IsHandle db hd ->
  exists q, CoreFindProtocolInterface Verify Max db hd g v = Ok q /\
    ((q = NULL /\ ~ Installed db hd g v) \/ (q <> NULL /\ provides (objects db) q hd g v)).
Proof.
  intros Hinv Ha [rh Hh]. destruct (CoreFindProtocolInterface_spec Max F owner db (inv_shape _ _ _ _ Hinv) Verify hd rh g v Ha Hh (inv_guid _ _ _ _ Hinv)) as (q & Hq & Hc).
  exists q. split; [done|]. destruct Hc as [[-> Hn]|?]; [left; split; [done|]; intros [i Hi]; by apply (Hn i)|by right].
Qed.

Lemma CoreUninstallProtocolInterface_full db hd g v : valid Max db ->
  exists Status db', CoreUninstallProtocolInterface Verify Max hd (Some g) v db = Ok (Status, db') /\ valid Max db' /\ uninstall_result db hd g v Status db' /\
    (Status = EFI_SUCCESS -> forall i, provides (objects db) i hd g v -> nobody db i by_driver -> opens_left db db').
Proof.
  intros [Ha Hc]. pose proof Hc as (F & owner & Hinv & Hu). pose proof (inv_shape _ _ _ _ Hinv) as Hs. unfold CoreUninstallProtocolInterface.
  rewrite (CoreValidateHandle_spec Max F owner db Hs). cbn [mbind result_bind]. destruct (handleb (objects db) hd) eqn:Hb; cbn [EFI_ERROR].
  2: { exists EFI_INVALID_PARAMETER, db. do 2 (split; [done|]). split; [|done]. apply uninstall_invalid. intros Hh%handleb_true. congruence. }
  apply handleb_true in Hb. unfold CoreAcquireProtocolLock. rewrite Ha. cbn [negb ASSERT mbind result_bind]. set (dba := set_acquired true db).
  pose proof (consistent_acquired Max db true Hc) as Hca. assert (Hinva : inv Max F owner dba) by (by destruct Hinv).
  unfold Uninstall_locked. destruct (CoreFindProtocolInterface_found F owner dba hd g v Hinva eq_refl Hb) as (i & -> & Hi). cbn [mbind result_bind].
  destruct Hi as [[-> Hno]|[Hin Hp]].
  { rewrite Z.eqb_refl. cbn [mbind result_bind]. unfold CoreReleaseProtocolLock. change (Acquired dba) with true. cbn [ASSERT mbind result_bind]. unfold dba. rewrite release_acquire by done.
    exists EFI_NOT_FOUND, db. do 2 (split; [done|]). split; [by apply uninstall_absent|done]. }
  rewrite (proj2 (Z.eqb_neq _ _) Hin). pose proof Hp as (ri & re & Hri & Hh & _).
  destruct (CoreDisconnectControllers_spec dba i ri Hca eq_refl Hri) as (Status & db1 & Hdis & Hc1 & Ha1 & Hst1 & Hcase).
  assert (Hdb : set_acquired false dba = db) by (unfold dba; by rewrite release_acquire). rewrite Hh in Hdis. rewrite Hdb, Hh in Hcase.
  rewrite Hdis. cbn [mbind result_bind].
  destruct Hcase as [[-> Hsome]|(-> & Hgiven & Hsame & Hnone & Hquiet)].
  - cbn [EFI_ERROR mbind result_bind]. unfold CoreReleaseProtocolLock. rewrite Ha1. cbn [ASSERT mbind result_bind].
    exists EFI_ACCESS_DENIED, (set_acquired false db1). split; [done|]. split; [split; [done|by apply consistent_acquired]|]. split; [by apply (uninstall_refused _ _ _ _ i)|done].
  - cbn [EFI_ERROR]. pose proof (provides_same F owner dba db1 i hd g v Hinva Hp Hsame Hst1) as Hp1.
    destruct (Uninstall_erase_spec db1 i hd g v Hc1 Ha1 Hp1 Hnone) as (db2 & Heq & Hc2 & Ha2 & Hrm & Hleft). unfold Uninstall_erase in Heq. rewrite Heq. cbn [mbind result_bind].
    unfold CoreReleaseProtocolLock. rewrite Ha2. cbn [ASSERT mbind result_bind].
    exists EFI_SUCCESS, (set_acquired false db2). split; [done|]. split; [split; [done|by apply consistent_acquired]|].
    split.
    + apply (uninstall_done _ _ _ _ i (set_acquired false db1)); [done|done|done| |by destruct Hrm]. intros Hn. by destruct (Hquiet Hn) as (? & ? & _).
    + intros _ i' Hi' Hn. assert (i' = i) as -> by (by destruct (provides_unique Max F owner dba i' i hd g v v Hinva Hi' Hp)).
      destruct (Hquiet Hn) as (_ & _ & Hkept). intros j q r [rj Hj] Hq. pose proof (Hleft j q r ltac:(by exists rj) Hq) as Hq1.
      destruct (consistent_provides db2 j Hc2 ltac:(by exists rj)) as (h' & g' & v' & Hpj). apply (rm_provides _ _ _ _ Hrm) in Hpj as [Hpj _].
      destruct (Hquiet Hn) as ([_ Hsp] & _ & _). apply Hsp in Hpj as (r0 & _ & Hr0 & _). apply (Hkept j q r); [by exists r0|done].
Qed.

Lemma CoreUninstallProtocolInterface_spec db hd g v : valid Max db ->
  exists Status db', CoreUninstallProtocolInterface Verify Max hd (Some g) v db = Ok (Status, db') /\ valid Max db' /\ uninstall_result db hd g v Status db'.
Proof. intros Hv. destruct (CoreUninstallProtocolInterface_full db hd g v Hv) as (Status & db' & ? & ? & ? & _). by exists Status, db'. Qed.



(** ** Reinstalling *)

(** The interface [i] of [hd] is now [v]; everything else is there still. *)
Definition replaced db db' (i hd : ptr) (g : EFI_GUID) (v : Z) : Prop :=
  (forall h, IsHandle db' h <-> IsHandle db h) /\
  (forall j h g' v', provides (objects db') j h g' v' <-> (provides (objects db) j h g' v' /\ j <> i) \/ (j = i /\ h = hd /\ g' = g /\ v' = v)).

Inductive reinstall_result db hd g v v' : EFI_STATUS -> Database -> Prop :=
| reinstall_invalid : ~ IsHandle db hd -> reinstall_result db hd g v v' EFI_INVALID_PARAMETER db
| reinstall_absent : IsHandle db hd -> ~ Installed db hd g v -> reinstall_result db hd g v v' EFI_NOT_FOUND db
| reinstall_refused i db' : provides (objects db) i hd g v -> refused hd i db db' -> reinstall_result db hd g v v' EFI_ACCESS_DENIED db'
| reinstall_done i db1 db2 db3 db' calls : provides (objects db) i hd g v -> given_up hd i db db1 -> same_interface db db1 i ->
    (nobody db i by_driver -> same_protocols db db1 /\ Calls db1 = Calls db) -> replaced db1 db2 i hd g v' ->
    CoreConnectController db2 hd = Ok db3 -> registered db3 g calls -> same_protocols db3 db' -> Calls db' = Calls db3 ++ calls ->
    reinstall_result db hd g v v' EFI_SUCCESS db'.

(** The objects of [db'] are those of [db] with notifications and the record of
    the handle [hd] changed, and the interface [i] changed to [r']. *)
Lemma moved_lookup O b i hd r0 r' rh rh' : O !! i = Some (AnInterface r0) -> O !! hd = Some (AHandle rh) ->
  let O' := <[hd := AHandle rh']> (<[i := AnInterface r']> (step_back i b <$> O)) in
  (forall j r, O' !! j = Some (AnInterface r) <-> (j <> i /\ O !! j = Some (AnInterface r)) \/ (j = i /\ r = r')) /\
  (forall j e, O' !! j = Some (AnEntry e) <-> O !! j = Some (AnEntry e)) /\ (forall h, is_handle O' h <-> is_handle O h).
Proof.
  intros Hi Hh O'. assert (Hne : hd <> i) by (intros ->; congruence).
  assert (Hstep : forall j o, match o with ANotify _ => False | _ => True end -> (step_back i b <$> O) !! j = Some o <-> O !! j = Some o).
  { intros j o Ho. rewrite lookup_fmap, fmap_Some. split.
    - intros (o' & Hj & ->). destruct o' as [| | | | |s]; try done. cbn [step_back] in Ho. by destruct (_ =? _) in Ho.
    - intros Hj. exists o. split; [done|]. by destruct o. }
  split; [|split]; unfold O'.
  - intros j r. split.
    + intros [[_ ?]|[_ Hj]]%lookup_insert_Some; [done|]. apply lookup_insert_Some in Hj as [[-> [= ->]]|[Hji Hj]]; [by right|left]. split; [done|]. by apply Hstep in Hj.
    + intros [[Hji Hj]|[-> ->]].
      * rewrite lookup_insert_ne by (intros ->; congruence). rewrite lookup_insert_ne by done. by apply Hstep.
      * rewrite lookup_insert_ne by done. apply lookup_insert_eq.
  - intros j e. split.
    + intros [[_ ?]|[_ Hj]]%lookup_insert_Some; [done|]. apply lookup_insert_Some in Hj as [[_ ?]|[Hji Hj]]; [done|]. by apply Hstep in Hj.
    + intros Hj. rewrite !lookup_insert_ne by (intros ->; congruence). by apply Hstep.
  - intros h. unfold is_handle. split; intros [r Hr].
    + apply lookup_insert_Some in Hr as [[<- _]|[_ Hr]]; [by exists rh|]. apply lookup_insert_Some in Hr as [[_ ?]|[_ Hr]]; [done|]. exists r. by apply Hstep in Hr.
    + destruct (decide (h = hd)) as [->|Hn]; [eexists; apply lookup_insert_eq|]. exists r. rewrite !lookup_insert_ne by (intros ->; congruence). by apply Hstep.
Qed.

Lemma Reinstall_move_spec db i hd g v v' : consistent Max db -> Acquired db = true -> provides (objects db) i hd g v ->
  exists e dbr r dbm db', CoreRemoveInterfaceFromProtocol Verify Max hd g v db = Ok (i, dbr) /\ interface_at dbr i = Ok r /\ Protocol r = e /\
    insert_tail Verify Max (e + OFFSET_EntryProtocols) (i + OFFSET_ByProtocol)
      (put i (AnInterface (MkInterface (Handle r) (Protocol r) v' (OpenListCount r))) dbr) = Ok dbm /\
    NewKey hd dbm = Ok db' /\ consistent Max db' /\ Acquired db' = true /\ Calls db' = Calls db /\ replaced db db' i hd g v' /\
    objects db' !! e = Some (AnEntry (MkEntry g)).
Proof.
  intros (F & owner & Hinv & Hu) Ha Hp. pose proof (inv_shape _ _ _ _ Hinv) as Hs.
  destruct (CoreRemoveInterfaceFromProtocol_spec Verify Max F owner db hd g v i Hinv Ha Hp) as (ri & b & l1 & l2 & db1 & h' & Hi & Hh & Hv & He & Heq & Ht).
  destruct (sh_refers _ _ _ _ _ Hs i _ Hi) as [[rh Hrh] _]. rewrite Hh in Hrh.
  destruct (MoveInterface_spec Verify Max F owner db i ri b l1 l2 db1 h' v' Hinv Hi Ht) as (dbm & Hins & Hinvm & Hsgm & HOm).
  set (o := MkInterface (Handle ri) (Protocol ri) v' (OpenListCount ri)) in *. set (F' := <[_ := _]> F) in Hinvm.
  assert (Hhm : objects dbm !! hd = Some (AHandle rh)) by (rewrite HOm, lookup_insert_ne by (intros ->; congruence); by rewrite lookup_fmap, Hrh).
  exists (Protocol ri), (set_links h' db1), ri, dbm. eexists. split; [done|].
  split; [apply interface_at_Some; cbn [set_links objects]; by rewrite (to_objects _ _ _ _ _ _ _ _ _ _ _ Ht), lookup_fmap, Hi|]. split; [done|]. split; [done|].
  split; [by apply NewKey_spec|]. set (rh' := MkHandle _ _).
  destruct (moved_lookup (objects db) b i hd ri o rh rh' Hi Hrh) as (Hint & Hent & Hhan). rewrite <-HOm in Hint, Hent, Hhan.
  split; [|split; [cbn; by rewrite (sg_acquired _ _ Hsgm)|split; [cbn; by rewrite (sg_calls _ _ Hsgm)|split; [split|by apply Hent]]]].
  - exists F', owner. split; [apply (inv_put_handle Max F' owner _ hd rh); [by apply inv_set_key|done]|].
    apply (used_same F F' (objects db)); [done| |]; intros q r Hq; cbn [put set_objects objects set_key] in Hq.
    + apply (proj1 (Hhan q)). by exists r.
    + destruct (proj1 (Hhan q)) as [r' Hr']; [by exists r|]. unfold F'. rewrite lookup_insert_ne; [done|]. intros Hx.
      destruct (object_node Max F owner _ _ Hs (Protocol ri) q _ _ OFFSET_EntryProtocols OFFSET_HandleProtocols He Hr') as (_ & ? & _); [right; left|right; left|done|done].
  - intros h. apply Hhan.
  - intros j h g' w. cbn [put set_objects objects set_key]. unfold provides. setoid_rewrite Hint. setoid_rewrite Hent. split.
    + intros (r & e & [[Hne Hj]|[-> ->]] & Hhr & Hvr & Her & Hgr); [left; split; [by exists r, e|done]|right]. cbn [o Handle Interface Protocol] in *.
      rewrite He in Her. injection Her as <-. cbn in Hgr. by subst.
    + intros [[(r & e & Hj & Hrest) Hne]|(-> & -> & -> & ->)]; [exists r, e; split; [by left|done]|].
      exists o, (MkEntry g). split; [by right|]. by subst.
Qed.

Lemma CoreReinstallProtocolInterface_spec db hd g v v' : valid Max db ->
  exists Status db', CoreReinstallProtocolInterface Verify Max hd (Some g) v v' db = Ok (Status, db') /\ valid Max db' /\ reinstall_result db hd g v v' Status db'.
Proof.
  intros [Ha Hc]. pose proof Hc as (F & owner & Hinv & Hu). pose proof (inv_shape _ _ _ _ Hinv) as Hs. unfold CoreReinstallProtocolInterface.
  rewrite (CoreValidateHandle_spec Max F owner db Hs). cbn [mbind result_bind]. destruct (handleb (objects db) hd) eqn:Hb; cbn [EFI_ERROR].
  2: { exists EFI_INVALID_PARAMETER, db. do 2 (split; [done|]). apply reinstall_invalid. intros Hh%handleb_true. congruence. }
  apply handleb_true in Hb. rewrite (acquire_ok db Ha). cbn [mbind result_bind]. set (dba := set_acquired true db).
  pose proof (consistent_acquired Max db true Hc) as Hca. assert (Hinva : inv Max F owner dba) by (by destruct Hinv).
  unfold Reinstall_locked. destruct (CoreFindProtocolInterface_found F owner dba hd g v Hinva eq_refl Hb) as (i & -> & Hi). cbn [mbind result_bind].
  destruct Hi as [[-> Hno]|[Hin Hp]].
  { rewrite Z.eqb_refl. cbn [mbind result_bind]. unfold CoreReleaseProtocolLock. change (Acquired dba) with true. cbn [ASSERT mbind result_bind]. unfold dba. rewrite release_acquire by done.
    exists EFI_NOT_FOUND, db. do 2 (split; [done|]). by apply reinstall_absent. }
  rewrite (proj2 (Z.eqb_neq _ _) Hin). pose proof Hp as (ri & re & Hri & Hh & _).
  destruct (CoreDisconnectControllers_spec dba i ri Hca eq_refl Hri) as (Status & db1 & Hdis & Hc1 & Ha1 & Hst1 & Hcase). 
  assert (Hdb : set_acquired false dba = db) by (unfold dba; by rewrite release_acquire). rewrite Hh in Hdis. rewrite Hdb, Hh in Hcase.
  rewrite Hdis. cbn [mbind result_bind]. destruct Hcase as [[-> Hsome]|(-> & Hgiven & Hsame & Hnone & Hquiet)].
  { cbn [EFI_ERROR mbind result_bind]. unfold CoreReleaseProtocolLock. rewrite Ha1. cbn [ASSERT mbind result_bind].
    exists EFI_ACCESS_DENIED, (set_acquired false db1). split; [done|]. split; [split; [done|by apply consistent_acquired]|]. by apply (reinstall_refused _ _ _ _ _ i). }
  cbn [EFI_ERROR]. pose proof (provides_same F owner dba db1 i hd g v Hinva Hp Hsame Hst1) as Hp1.
  destruct (Reinstall_move_spec db1 i hd g v v' Hc1 Ha1 Hp1) as (e & dbr & r & dbm & db2 & Heq & Hr & He & Hins & Hkey & Hc2 & Ha2 & Hcalls2 & Hrep & Hent).
  rewrite Heq. cbn [mbind result_bind]. rewrite (proj2 (Z.eqb_neq _ _) Hin), Hr. cbn [mbind result_bind]. rewrite He in Hins |- *. rewrite Hins. cbn [mbind result_bind].
  rewrite Hkey. cbn [mbind result_bind]. rewrite (release_ok db2 Ha2). cbn [mbind result_bind].
  destruct (Connect_ok (set_acquired false db2) hd) as (db3 & Hcon & [Ha3 Hc3] & Hst3); [by split; [|apply consistent_acquired]|].
  rewrite Hcon. cbn [mbind result_bind]. rewrite (acquire_ok db3 Ha3). cbn [mbind result_bind].
  destruct (consistent_acquired Max db3 true Hc3) as (F3 & owner3 & Hinv3 & Hu3). pose proof (Hst3 e _ Hent) as He3.
  destruct (CoreNotifyProtocolEntry_spec Max F3 owner3 (set_acquired true db3) e (MkEntry g) Hinv3 eq_refl He3) as (l & Hl & ->). cbn [mbind result_bind].
  unfold CoreReleaseProtocolLock. cbn [set_calls set_acquired Acquired ASSERT mbind result_bind].
  eexists EFI_SUCCESS, _. split; [done|]. split; [split; [done|]|].
  - exists F3, owner3. split; [|done]. by destruct Hinv3.
  - apply (reinstall_done _ _ _ _ _ i (set_acquired false db1) (set_acquired false db2) db3 _ (signals (objects db3) l)); try done.
    { intros Hn. by destruct (Hquiet Hn) as (? & ? & _). }
    exact (registered_list Max F3 owner3 _ e g l Hinv3 He3 Hl).
Qed.
End Disconnect.
