(* ===== verification/HandleLocate.v ===== *)
(** * Handles and protocols: locating

    [CoreLocateHandle] and [CoreLocateProtocol] list the handles, those of a
    protocol, and what is new for a registration. *)

From S2P Require Import Prelude LinkedList ListFamily Handle HandleInv HandleLookup HandleShape HandleCreate HandleRemove HandleUninstall HandleDriver HandleOpen HandleInstall.

(** The part of a list of handles that fits into the buffer. *)
Fixpoint fill (BufferSize ResultSize : Z) (hs : list ptr) : list ptr :=
  match hs with
  | [] => []
  | h :: hs => (if ResultSize + 8 <=? BufferSize then [h] else []) ++ fill BufferSize (ResultSize + 8) hs
  end.

Lemma fill_take BufferSize hs : forall ResultSize, fill BufferSize ResultSize hs = take (Z.to_nat ((BufferSize - ResultSize) / 8)) hs.
Proof.
  induction hs as [|h hs IH]; intros R; cbn [fill]; [by rewrite take_nil|]. rewrite IH.
  replace (BufferSize - (R + 8)) with ((BufferSize - R) + (-1) * 8) by lia. rewrite Z.div_add by lia.
  destruct (Z.leb_spec (R + 8) BufferSize) as [Hle|Hlt]; cbn [app].
  - assert (1 <= (BufferSize - R) / 8) by (apply Z.div_le_lower_bound; lia).
    replace (Z.to_nat ((BufferSize - R) / 8)) with (S (Z.to_nat ((BufferSize - R) / 8 + -1))) by lia. done.
  - assert ((BufferSize - R) / 8 < 1) by (apply Z.div_lt_upper_bound; lia).
    replace (Z.to_nat ((BufferSize - R) / 8)) with 0%nat by lia. by replace (Z.to_nat ((BufferSize - R) / 8 + -1)) with 0%nat by lia.
Qed.

(** The handle and the interface of a link in the list of a protocol. *)
Definition handle_of (O : objs) (x : ptr) : ptr := match O !! (x - OFFSET_ByProtocol) with Some (AnInterface r) => Handle r | _ => NULL end.
Definition value_of (O : objs) (x : ptr) : Z := match O !! (x - OFFSET_ByProtocol) with Some (AnInterface r) => Interface r | _ => 0 end.

(** No handle has the mark of the next search. *)
Definition unmarked (db : Database) : Prop :=
  forall p r, objects db !! p = Some (AHandle r) -> LocateRequest r <> u64 (mEfiLocateHandleRequest db + 1).

Section Locate.
Context `{Platform} (Verify : bool) (Max : nat) `{!PoolLaws Max}.
Implicit Types (F : lists) (db : Database).

Section Lists.
Context F owner db (Hs : shape Max F owner (objects db) (links db)).

(** A list with one link of each object is not longer than the pool. *)
Lemma list_length_one hd l k : F !! hd = Some l -> (forall x, x ∈ l -> x - k ∈ Blocks) -> (length l <= size Blocks)%nat.
Proof.
  intros Hl Hb. destruct (family_NoDup _ _ _ _ (sh_family _ _ _ _ _ Hs) Hl) as [Hnd _]. rewrite <-(length_fmap (fun x => x - k)).
  rewrite <-(size_list_to_set (C := gset ptr)) by (apply NoDup_fmap_2_strong; [intros x y _ _ Heq; lia|done]).
  apply subseteq_size. intros q (x & -> & Hx)%elem_of_list_to_set%list_elem_of_fmap. by apply Hb.
Qed.

(** The link after the place where [l1] ends. *)
Lemma next_link hd l1 l2 x : F !! hd = Some (l1 ++ l2) -> x = List.last (hd :: l1) 0 ->
  exists n, load (links db) x = Ok n /\ ForwardLink n = List.hd hd l2.
Proof.
  intros Hl ->. destruct (path_forward _ _ _ (shape_dlist Max F owner db Hs _ _ Hl)) as [_ Hp].
  apply (Hp (removelast (hd :: l1)) (List.last (hd :: l1) 0) l2). rewrite (app_comm_cons l1 l2 hd).
  rewrite (app_removelast_last 0 (l := hd :: l1)) at 1 by done. by rewrite <-app_assoc.
Qed.

Lemma link_not_head hd l1 y l2 : F !! hd = Some (l1 ++ y :: l2) -> (y =? hd) = false.
Proof.
  intros Hl. apply Z.eqb_neq. intros ->. destruct (family_NoDup _ _ _ _ (sh_family _ _ _ _ _ Hs) Hl) as [_ Hhd]. apply Hhd, elem_of_app. right. left.
Qed.

(** The loop over all handles, from a place in the list. *)
Lemma LocateHandle_all l2 : forall l1 x sk pe BS RS Buf fuel, F !! gHandleList = Some (l1 ++ l2) -> x = List.last (gHandleList :: l1) 0 ->
  (length l2 < fuel)%nat -> 0 <= RS -> RS + 8 * Z.of_nat (length l2) < 2 ^ 64 ->
  LocateHandle_loop fuel AllHandles (MkPosition sk x pe) BS RS Buf db =
    Ok (RS + 8 * Z.of_nat (length l2), Buf ++ fill BS RS ((fun x => x - OFFSET_AllHandles) <$> l2), db).
Proof.
  induction l2 as [|y l2 IH]; intros l1 x sk pe BS RS Buf fuel Hl Hx Hfuel HRS Hbig; (destruct fuel as [|fuel]; [simpl in Hfuel; lia|]);
    cbn [LocateHandle_loop GetNext]; unfold CoreGetNextLocateAllHandles; cbn [Pos SearchKey ProtEntry];
    destruct (next_link gHandleList l1 _ x Hl Hx) as (n & -> & Hf); cbn [mbind result_bind Pos]; rewrite Hf; cbn [List.hd].
  - rewrite Z.eqb_refl. cbn [negb mbind result_bind]. rewrite Z.eqb_refl. cbn [fmap list_fmap length fill].
    rewrite app_nil_r. do 3 f_equal; lia.
  - rewrite (link_not_head _ _ _ _ Hl). cbn [negb]. assert (Hy : y ∈ l1 ++ y :: l2) by (apply elem_of_app; right; left).
    destruct (proj1 (in_handles Max F owner _ _ Hs _ y Hl) Hy) as [r Hr]. rewrite (handle_at_Some _ _ _ Hr). cbn [mbind result_bind].
    rewrite (proj2 (Z.eqb_neq _ _)) by (by apply (object_not_null Max F owner db Hs _ _ Hr)).
    cbn [length] in *. replace (u64 (RS + 8)) with (RS + 8) by (symmetry; apply wrap_small; lia).
    rewrite (IH (l1 ++ [y])); [|by rewrite <-app_assoc| |lia|lia|lia].
    + cbn [fmap list_fmap fill]. destruct (RS + 8 <=? BS); rewrite <-?app_assoc; cbn [app]; do 3 f_equal; lia.
    + by rewrite app_comm_cons, List.last_last.
Qed.

(** One step of the search by protocol. *)
Lemma next_by_protocol_end pe l1 x sk : F !! entry_head pe = Some l1 -> x = List.last (entry_head pe :: l1) 0 ->
  CoreGetNextLocateByProtocol (MkPosition sk x pe) db = Ok (NULL, NULL, MkPosition sk (entry_head pe) pe, db).
Proof.
  intros Hl Hx. unfold CoreGetNextLocateByProtocol. cbn [GetNextLocateByProtocol_loop Pos SearchKey ProtEntry].
  destruct (next_link (entry_head pe) l1 [] x) as (n & -> & Hf); [by rewrite app_nil_r|done|]. cbn [mbind result_bind]. rewrite Hf. cbn [List.hd].
  by rewrite Z.eqb_refl.
Qed.

Lemma next_by_protocol_step pe l1 y l2 x sk ri rh : F !! entry_head pe = Some (l1 ++ y :: l2) -> x = List.last (entry_head pe :: l1) 0 ->
  objects db !! (y - OFFSET_ByProtocol) = Some (AnInterface ri) -> objects db !! Handle ri = Some (AHandle rh) -> LocateRequest rh <> mEfiLocateHandleRequest db ->
  CoreGetNextLocateByProtocol (MkPosition sk x pe) db =
    Ok (Handle ri, Interface ri, MkPosition sk y pe, put (Handle ri) (AHandle (MkHandle (mEfiLocateHandleRequest db) (Key rh))) db).
Proof.
  intros Hl Hx Hi Hh Hreq. unfold CoreGetNextLocateByProtocol. cbn [GetNextLocateByProtocol_loop Pos SearchKey ProtEntry].
  destruct (next_link _ l1 _ x Hl Hx) as (n & -> & Hf). cbn [mbind result_bind]. rewrite Hf. cbn [List.hd].
  change (pe + OFFSET_EntryProtocols) with (entry_head pe). rewrite (link_not_head _ _ _ _ Hl), (interface_at_Some _ _ _ Hi). cbn [mbind result_bind].
  rewrite (handle_at_Some _ _ _ Hh). cbn [mbind result_bind]. by rewrite (proj2 (Z.eqb_neq _ _) Hreq).
Qed.
End Lists.

(** Handles are marked. *)
Record marks db db' : Prop := {
  mk_links : links db' = links db;
  mk_globals : same_globals db db';
  mk_objects : forall p o, match o with AHandle _ => False | _ => True end -> objects db' !! p = Some o <-> objects db !! p = Some o;
  mk_handles : forall p, is_handle (objects db') p <-> is_handle (objects db) p;
  mk_requests : forall p r', objects db' !! p = Some (AHandle r') ->
    exists r, objects db !! p = Some (AHandle r) /\ (LocateRequest r' = LocateRequest r \/ LocateRequest r' = mEfiLocateHandleRequest db) }.

Lemma marks_refl db : marks db db.
Proof. split; try done. intros p r Hp. exists r. split; [done|by left]. Qed.

Lemma marks_put db db' p r r' : marks db db' -> objects db' !! p = Some (AHandle r) -> LocateRequest r' = mEfiLocateHandleRequest db' -> marks db (put p (AHandle r') db').
Proof.
  intros [Hl [Hk Hreq Ha Hc] HO Hh Hm] Hp Hr'. split; [done|by split| | |]; cbn [put set_objects objects].
  - intros q o Ho. rewrite <-(HO q o Ho). split; intros Hq; [by apply lookup_insert_Some in Hq as [[_ <-]|[_ ?]]|].
    rewrite lookup_insert_ne; [done|]. intros ->. rewrite Hp in Hq. by injection Hq as <-.
  - intros q. rewrite <-(Hh q). unfold is_handle. split; intros [s Hq]; [apply lookup_insert_Some in Hq as [[<- _]|[_ Hq]]; by eexists|].
    destruct (decide (q = p)) as [->|Hne]; [eexists; apply lookup_insert_eq|exists s; by rewrite lookup_insert_ne].
  - intros q s [[<- [= <-]]|[_ Hq]]%lookup_insert_Some; [|by apply Hm]. destruct (Hm p r Hp) as (r0 & Hr0 & _). exists r0. split; [done|]. right. congruence.
Qed.

Lemma marks_trans db1 db2 db3 : marks db1 db2 -> marks db2 db3 -> marks db1 db3.
Proof.
  intros [Hl1 [? Hr1 ? ?] HO1 Hh1 Hm1] [Hl2 [? ? ? ?] HO2 Hh2 Hm2]. split; [congruence|split; congruence| | |].
  - intros p o Ho. by rewrite (HO2 p o Ho), (HO1 p o Ho).
  - intros p. by rewrite Hh2, Hh1.
  - intros p r (r2 & Hp2 & [->| ->])%Hm2; destruct (Hm1 p r2 Hp2) as (r1 & Hp1 & Hr); exists r1; (split; [done|]); [done|by right].
Qed.

Lemma marks_protocols db db' : marks db db' -> same_protocols db db'.
Proof.
  intros [_ _ HO Hh _]. split; [done|]. intros i h g v. unfold provides.
  setoid_rewrite (fun j r => HO j (AnInterface r) I). by setoid_rewrite (fun j e => HO j (AnEntry e) I).
Qed.

(** The loop over the interfaces of a protocol. *)
Lemma LocateHandle_protocol F owner pe g db0 l2 : forall l1 db x sk BS RS Buf fuel, inv Max F owner db -> marks db0 db ->
  objects db !! pe = Some (AnEntry (MkEntry g)) -> F !! entry_head pe = Some (l1 ++ l2) -> x = List.last (entry_head pe :: l1) 0 ->
  (forall y ri rh, y ∈ l2 -> objects db !! (y - OFFSET_ByProtocol) = Some (AnInterface ri) -> objects db !! Handle ri = Some (AHandle rh) ->
     LocateRequest rh <> mEfiLocateHandleRequest db) ->
  (length l2 < fuel)%nat -> 0 <= RS -> RS + 8 * Z.of_nat (length l2) < 2 ^ 64 ->
  exists db', LocateHandle_loop fuel ByProtocol (MkPosition sk x pe) BS RS Buf db =
    Ok (RS + 8 * Z.of_nat (length l2), Buf ++ fill BS RS (handle_of (objects db0) <$> l2), db') /\ inv Max F owner db' /\ marks db0 db'.
Proof.
  induction l2 as [|y l2 IH]; intros l1 db x sk BS RS Buf fuel Hinv Hmk Hpe Hl Hx Hfresh Hfuel HRS Hbig; (destruct fuel as [|fuel]; [simpl in Hfuel; lia|]);
    pose proof (inv_shape _ _ _ _ Hinv) as Hs; cbn [LocateHandle_loop GetNext].
  - rewrite app_nil_r in Hl. rewrite (next_by_protocol_end F owner db Hs pe l1 x sk Hl Hx). cbn [mbind result_bind]. rewrite Z.eqb_refl.
    exists db. split; [|done]. cbn [fmap list_fmap length fill]. rewrite app_nil_r. do 3 f_equal; lia.
  - assert (Hy : y ∈ l1 ++ y :: l2) by (apply elem_of_app; right; left). pose proof (fun z => in_entry_protocols Max F owner _ _ Hs pe _ _ z Hpe Hl) as Hin.
    destruct (proj1 (Hin y) Hy) as (ri & Hi & Hpr). destruct (sh_refers _ _ _ _ _ Hs _ _ Hi) as [[rh Hh] _].
    rewrite (next_by_protocol_step F owner db Hs pe l1 y l2 x sk ri rh Hl Hx Hi Hh) by (apply (Hfresh y ri rh); [left|done|done]). cbn [mbind result_bind].
    rewrite (proj2 (Z.eqb_neq _ _)) by (by apply (object_not_null Max F owner db Hs _ _ Hh)). set (db1 := put _ _ _).
    cbn [length] in *. replace (u64 (RS + 8)) with (RS + 8) by (symmetry; apply wrap_small; lia).
    assert (Hhi : handle_of (objects db0) y = Handle ri) by (unfold handle_of; by rewrite (proj1 (mk_objects _ _ Hmk _ (AnInterface ri) I) Hi)).
    destruct (family_NoDup _ _ _ _ (sh_family _ _ _ _ _ Hs) Hl) as [Hnd _].
    destruct (IH (l1 ++ [y]) db1 y sk BS (RS + 8) (if RS + 8 <=? BS then Buf ++ [Handle ri] else Buf) fuel) as (db' & Heq & Hinv' & Hmk'); [| | | | | | | | |exists db'; split; [|split; [exact Hinv'|exact Hmk']]].
    + by apply (inv_put_handle Max F owner db _ rh).
    + by apply (marks_put db0 db _ rh).
    + cbn [db1 put set_objects objects]. rewrite lookup_insert_ne; [done|]. intros Heq. rewrite Heq in Hh. congruence.
    + by rewrite <-app_assoc.
    + by rewrite app_comm_cons, List.last_last.
    + intros z rz rhz Hz Hiz Hhz. cbn [db1 put set_objects objects mEfiLocateHandleRequest] in *.
      apply lookup_insert_Some in Hiz as [[_ ?]|[_ Hiz]]; [done|]. assert (Hzl : z ∈ l1 ++ y :: l2) by (apply elem_of_app; right; by right).
      destruct (proj1 (Hin z) Hzl) as (rz' & Hiz' & Hprz). rewrite Hiz in Hiz'. injection Hiz' as <-.
      apply lookup_insert_Some in Hhz as [[Hsame _]|[_ Hhz]]; [exfalso|by apply (Hfresh z rz rhz); [right| |]].
      assert (y = z) as ->; [|apply NoDup_app in Hnd as (_ & _ & Hnd); apply NoDup_cons in Hnd as [? _]; done].
      assert (y - OFFSET_ByProtocol = z - OFFSET_ByProtocol); [|lia]. apply (inv_once _ _ _ _ Hinv _ _ ri rz Hi Hiz Hsame). congruence.
    + lia.
    + lia.
    + lia.
    + rewrite Heq. cbn [fmap list_fmap fill]. rewrite Hhi. destruct (RS + 8 <=? BS); rewrite <-?app_assoc; cbn [app]; do 3 f_equal; lia.
Qed.

(** ** Lists of handles *)

(** The handles that a search is for, each once. *)
Definition listed db (SearchType : EFI_LOCATE_SEARCH_TYPE) (g : EFI_GUID) (hs : list ptr) : Prop :=
  NoDup hs /\ forall h, h ∈ hs <-> match SearchType with
                                  | AllHandles => IsHandle db h
                                  | ByProtocol => exists v, Installed db h g v
                                  | _ => False
                                  end.

(** The status, the size and the buffer for the handles [hs]. *)
Definition located (hs : list ptr) (Size : Z) : EFI_STATUS * option Z * list ptr :=
  match hs with
  | [] => (EFI_NOT_FOUND, Some Size, [])
  | _ => (if 8 * Z.of_nat (length hs) <=? Size then EFI_SUCCESS else EFI_BUFFER_TOO_SMALL, Some (8 * Z.of_nat (length hs)), take (Z.to_nat (Size / 8)) hs)
  end.

Lemma located_some hs Size : hs <> [] -> located hs Size =
  (if 8 * Z.of_nat (length hs) <=? Size then EFI_SUCCESS else EFI_BUFFER_TOO_SMALL, Some (8 * Z.of_nat (length hs)), take (Z.to_nat (Size / 8)) hs).
Proof. by destruct hs. Qed.

Lemma inv_set_request F owner db v : inv Max F owner db -> inv Max F owner (set_request v db).
Proof. intros [Hs Hg Ho Hc Hpos Hex]. by split. Qed.

Lemma inv_set_acquired F owner db b : inv Max F owner db -> inv Max F owner (set_acquired b db).
Proof. intros [Hs Hg Ho Hc Hpos Hex]. by split. Qed.

Lemma marks_used F db db' : marks db db' -> used F (objects db) NULL -> used F (objects db') NULL.
Proof.
  intros [_ _ _ Hh] Hu. apply (used_same F F (objects db)); [done| |done]. intros q r Hq. apply Hh. by exists r.
Qed.

Lemma fill_zero BS hs : fill BS 0 hs = take (Z.to_nat (BS / 8)) hs.
Proof. by rewrite fill_take, Z.sub_0_r. Qed.

(** The handles of the list of a protocol. *)
Lemma listed_protocol F owner db pe g l : inv Max F owner db -> objects db !! pe = Some (AnEntry (MkEntry g)) -> F !! entry_head pe = Some l ->
  listed db ByProtocol g (handle_of (objects db) <$> l).
Proof.
  intros Hinv Hpe Hl. pose proof (inv_shape _ _ _ _ Hinv) as Hs. pose proof (fun z => in_entry_protocols Max F owner _ _ Hs pe _ l z Hpe Hl) as Hin.
  destruct (family_NoDup _ _ _ _ (sh_family _ _ _ _ _ Hs) Hl) as [Hnd _]. split.
  - apply NoDup_fmap_2_strong; [|done]. intros x y (rx & Hx & Hpx)%Hin (ry & Hy & Hpy)%Hin. unfold handle_of. rewrite Hx, Hy. intros Heq.
    assert (x - OFFSET_ByProtocol = y - OFFSET_ByProtocol); [|lia]. apply (inv_once _ _ _ _ Hinv _ _ rx ry Hx Hy Heq). congruence.
  - intros h. rewrite list_elem_of_fmap. split.
    + intros (x & -> & (r & Hr & Hp)%Hin). exists (Interface r), (x - OFFSET_ByProtocol), r, (MkEntry g). unfold handle_of. rewrite Hr, Hp. done.
    + intros (v & i & Hp). destruct (provides_entry Max F owner db i h g v Hinv Hp) as (r & Hr & <- & _ & He). exists (i + OFFSET_ByProtocol).
      unfold handle_of. rewrite Z.add_simpl_r, Hr. split; [done|]. apply Hin. exists r. rewrite Z.add_simpl_r. split; [done|]. by apply (inv_guid _ _ _ _ Hinv _ _ (MkEntry g)).
Qed.

Lemma listed_all F owner db l : inv Max F owner db -> F !! gHandleList = Some l -> listed db AllHandles [] ((fun x => x - OFFSET_AllHandles) <$> l).
Proof.
  intros Hinv Hl. pose proof (inv_shape _ _ _ _ Hinv) as Hs. destruct (family_NoDup _ _ _ _ (sh_family _ _ _ _ _ Hs) Hl) as [Hnd _]. split.
  - apply NoDup_fmap_2_strong; [|done]. intros x y _ _ Heq. lia.
  - intros h. rewrite list_elem_of_fmap. split.
    + intros (x & -> & [r Hr]%(in_handles Max F owner _ _ Hs l x Hl)). by exists r.
    + intros [r Hr]. exists (h + OFFSET_AllHandles). split; [lia|]. apply (in_handles Max F owner _ _ Hs l _ Hl). exists r. by rewrite Z.add_simpl_r.
Qed.

(** No list of handles is so long that its size in bytes wraps around. *)
Lemma bytes_small F owner db hd l k : shape Max F owner (objects db) (links db) -> F !! hd = Some l -> (forall x, x ∈ l -> x - k ∈ Blocks) ->
  8 * Z.of_nat (length l) < 2 ^ 64.
Proof. intros Hs Hl Hb. pose proof (list_length_one F owner db Hs hd l k Hl Hb). pose proof Blocks_count. lia. Qed.

(** The search of [CoreLocateHandle] fails for an unknown protocol, or finds the
    handles. *)
Lemma LocateHandle_search F owner db SearchType g sk Size : inv Max F owner db -> Acquired db = false -> (SearchType = AllHandles \/ (SearchType = ByProtocol /\ unmarked db)) ->
  let dba := set_acquired true db in let dbr := set_request (u64 (mEfiLocateHandleRequest dba + 1)) dba in
  (exists pos, SearchType = ByProtocol /\ (forall v h, ~ Installed db h g v) /\
      LocateHandle_start Verify Max SearchType (Some g) sk dba = Ok (EFI_NOT_FOUND, pos)) \/
  exists hs pos db', LocateHandle_start Verify Max SearchType (Some g) sk dba = Ok (EFI_SUCCESS, pos) /\ listed db SearchType g hs /\
    LocateHandle_loop (S (size (links dbr))) SearchType pos Size 0 [] dbr = Ok (8 * Z.of_nat (length hs), fill Size 0 hs, db') /\
    inv Max F owner db' /\ marks dbr db'.
Proof.
  intros Hinv Ha Htype dba dbr. pose proof (inv_shape _ _ _ _ Hinv) as Hs. destruct Htype as [->|[-> Hun]].
  - right. destruct (handle_list Max F owner _ _ Hs) as [l Hl]. pose proof (dlist_size _ _ _ (shape_dlist Max F owner db Hs _ _ Hl)) as Hsz.
    exists ((fun x => x - OFFSET_AllHandles) <$> l), (MkPosition sk gHandleList NULL), dbr. split; [done|].
    split; [by apply (listed_all F owner db l Hinv)|]. rewrite length_fmap.
    assert (Hb : 8 * Z.of_nat (length l) < 2 ^ 64).
    { apply (bytes_small F owner db gHandleList l OFFSET_AllHandles Hs Hl). intros x [r Hr]%(in_handles Max F owner _ _ Hs l x Hl). by apply (object_block Max F owner _ _ Hs _ _ Hr). }
    split; [|split; [by apply inv_set_request, inv_set_acquired|by apply marks_refl]].
    rewrite (LocateHandle_all F owner dbr Hs l [] gHandleList sk NULL Size 0 [] (S (size (links dbr)))); [done|done|done| |lia|lia]. cbn [dbr set_request links dba set_acquired]. lia.
  - destruct (CoreFindProtocolEntry_lookup Max F owner dba Hs Verify g eq_refl) as (pe & Hpe & Heq). cbn [LocateHandle_start]. rewrite Heq. cbn [mbind result_bind].
    destruct Hpe as [[-> Hno]|[Hn Hpe]].
    + left. eexists. split; [done|]. split; [|done]. intros v h [i (r & e & _ & _ & _ & He & Hg)]. by apply (Hno _ _ He).
    + right. rewrite (proj2 (Z.eqb_neq _ _) Hn). destruct (head_list Max F owner _ _ Hs pe _ OFFSET_EntryProtocols Hpe) as [l Hl]; [left|].
      pose proof (dlist_size _ _ _ (shape_dlist Max F owner db Hs _ _ Hl)) as Hsz.
      assert (Hb : 8 * Z.of_nat (length l) < 2 ^ 64).
      { apply (bytes_small F owner db _ l OFFSET_ByProtocol Hs Hl). intros x (r & Hr & _)%(in_entry_protocols Max F owner _ _ Hs pe _ l x Hpe Hl). by apply (object_block Max F owner _ _ Hs _ _ Hr). }
      destruct (LocateHandle_protocol F owner pe g dbr l [] dbr (entry_head pe) sk Size 0 [] (S (size (links dbr)))) as (db' & Hl' & Hinv' & Hmk);
        [by apply inv_set_request, inv_set_acquired|apply marks_refl|done|done|done| |cbn [dbr set_request links dba set_acquired]; lia|lia|lia|].
      * intros y ri rh _ _ Hh. cbn [dbr set_request mEfiLocateHandleRequest dba set_acquired]. by apply (Hun _ _ Hh).
      * exists (handle_of (objects db) <$> l), (MkPosition sk (entry_head pe) pe), db'. split; [done|]. split; [by apply (listed_protocol F owner db pe g l)|].
        rewrite length_fmap. done.
Qed.

(** What a search leaves behind: it has a number, and the handles found are marked
    with it. *)
Record searched (hs : list ptr) db db' : Prop := {
  se_request : hs <> [] -> mEfiLocateHandleRequest db' = u64 (mEfiLocateHandleRequest db + 1);
  se_marks : forall p r', objects db' !! p = Some (AHandle r') ->
    exists r, objects db !! p = Some (AHandle r) /\ (LocateRequest r' = LocateRequest r \/ LocateRequest r' = u64 (mEfiLocateHandleRequest db + 1));
  se_links : links db' = links db;
  se_dom : dom (objects db') = dom (objects db);
  se_opens : forall p r, objects db' !! p = Some (AnOpen r) <-> objects db !! p = Some (AnOpen r) }.

Lemma searched_refl db : searched [] db db.
Proof. split; try done. intros p r Hp. exists r. split; [done|by left]. Qed.

Lemma marks_searched hs db db' v : marks (set_request (u64 (mEfiLocateHandleRequest db + 1)) (set_acquired v db)) db' -> searched hs db (set_acquired false db').
Proof.
  intros [Hl [_ Hreq _ _] HO Hh Hm]. cbn [set_request set_acquired mEfiLocateHandleRequest objects links] in *. split; cbn [set_acquired mEfiLocateHandleRequest objects links]; [done|done|done| |].
  - assert (Hsub : forall O O' : objs, (forall p o, match o with AHandle _ => False | _ => True end -> O !! p = Some o -> O' !! p = Some o) ->
      (forall p, is_handle O p -> is_handle O' p) -> forall p, is_Some (O !! p) -> is_Some (O' !! p)).
    { intros O O' HO1 Hh1 p [o Ho]. destruct o as [|r| | | |]; try (eexists; refine (HO1 p _ _ Ho); exact I). destruct (Hh1 p) as [r' Hr']; [by exists r|by exists (AHandle r')]. }
    apply set_eq. intros p. rewrite !elem_of_dom. split; apply Hsub; try (intros q; apply Hh); intros q o Ho; by apply HO.
  - intros p r. by apply (HO p (AnOpen r)).
Qed.

Lemma CoreLocateHandle_full db SearchType g sk Size out : valid Max db -> (SearchType = AllHandles \/ (SearchType = ByProtocol /\ unmarked db)) ->
  0 <= Size -> (0 < Size -> out = true) ->
  exists hs Status size Buffer db', CoreLocateHandle Verify Max SearchType (Some g) sk (Some Size) out db = Ok (Status, size, Buffer, db') /\
    valid Max db' /\ same_protocols db db' /\ Calls db' = Calls db /\ listed db SearchType g hs /\ (Status, size, Buffer) = located hs Size /\ searched hs db db'.
Proof.
  intros [Ha (F & owner & Hinv & Hu)] Htype HSize Hout. pose proof (inv_shape _ _ _ _ Hinv) as Hs. unfold CoreLocateHandle.
  replace ((Size >? 0) && negb out) with false by (symmetry; apply andb_false_iff; destruct (Z.gtb_spec Size 0); [right; by rewrite Hout by lia|by left]).
  rewrite (acquire_ok db Ha). cbn [mbind result_bind]. set (dba := set_acquired true db).
  set (dbr := set_request (u64 (mEfiLocateHandleRequest dba + 1)) dba).
  destruct (LocateHandle_search F owner db SearchType g sk Size Hinv Ha Htype) as [(pos & -> & Hno & Hst)|(hs & pos & db' & Hst & Hlist & Hl & Hinv' & Hmk)];
    fold dba in Hst; rewrite Hst; cbn [mbind result_bind EFI_ERROR].
  - rewrite (release_ok dba eq_refl). cbn [mbind result_bind]. unfold dba. rewrite release_acquire by done. exists [], EFI_NOT_FOUND, (Some Size), [], db.
    split; [done|]. split; [by split; [|exists F, owner]|]. split; [done|]. split; [done|]. split; [|split; [done|by apply searched_refl]]. split; [constructor|]. intros h. rewrite elem_of_nil. naive_solver.
  - fold dba in Hl, Hmk. fold dbr in Hl, Hmk. fold dbr. rewrite Hl. cbn [mbind result_bind]. pose proof (sg_acquired _ _ (mk_globals _ _ Hmk)) as Ha'. cbn [dbr set_request Acquired dba set_acquired] in Ha'.
    pose proof (marks_protocols dbr db' Hmk) as Hsame. assert (Hc' : consistent Max db') by (exists F, owner; split; [done|by apply (marks_used F dbr)]).
    pose proof (sg_calls _ _ (mk_globals _ _ Hmk)) as Hcalls.
    exists hs. destruct hs as [|h hs'] eqn:Hhs.
    + cbn [length fill]. cbn [Z.of_nat Z.mul Z.eqb]. rewrite (release_ok db' Ha'). cbn [mbind result_bind]. exists EFI_NOT_FOUND, (Some Size), [], (set_acquired false db').
      split; [done|]. split; [split; [done|by apply consistent_acquired]|]. split; [done|]. split; [done|]. split; [done|]. split; [done|by apply (marks_searched _ _ _ true)].
    + rewrite <-Hhs in *. assert (Hlen : (0 < length hs)%nat) by (rewrite Hhs; simpl; lia).
      rewrite (proj2 (Z.eqb_neq (8 * Z.of_nat (length hs)) 0)) by lia. rewrite bool_decide_eq_false_2 by (destruct Htype as [->|[-> _]]; done). cbn [andb mbind result_bind].
      rewrite (release_ok db' Ha'). cbn [mbind result_bind]. eexists _, _, _, (set_acquired false db'). split; [done|].
      split; [split; [done|by apply consistent_acquired]|]. split; [done|]. split; [done|]. split; [done|].
      rewrite fill_zero, Z.gtb_ltb, Z.ltb_antisym. rewrite located_some by (by rewrite Hhs). split; [by destruct (8 * Z.of_nat (length hs) <=? Size)|by apply (marks_searched _ _ _ true)].
Qed.

Lemma CoreLocateHandle_list db SearchType g sk Size out : valid Max db -> (SearchType = AllHandles \/ (SearchType = ByProtocol /\ unmarked db)) ->
  0 <= Size -> (0 < Size -> out = true) ->
  exists hs Status size Buffer db', CoreLocateHandle Verify Max SearchType (Some g) sk (Some Size) out db = Ok (Status, size, Buffer, db') /\
    valid Max db' /\ same_protocols db db' /\ Calls db' = Calls db /\ listed db SearchType g hs /\ (Status, size, Buffer) = located hs Size.
Proof.
  intros Hv Ht HS Ho. destruct (CoreLocateHandle_full db SearchType g sk Size out Hv Ht HS Ho) as (hs & Status & size & Buffer & db' & ? & ? & ? & ? & ? & ? & _).
  by exists hs, Status, size, Buffer, db'.
Qed.
End Locate.
