(* ===== verification/HandleNotify.v ===== *)
(** * Handles and protocols: registrations

    [CoreRegisterProtocolNotify], [CoreUnregisterProtocolNotify], and what the
    services of Locate.c return for a registration. *)

From S2P Require Import Prelude LinkedList ListFamily Handle HandleInv HandleLookup HandleShape HandleCreate HandleRemove HandleUninstall HandleDriver HandleOpen HandleInstall HandleLocate.

Definition not_signal (Event : ptr) (c : event_call) : bool := match c with Signal e => negb (e =? Event) | _ => true end.

Section Notify.
Context `{Platform} (Verify : bool) (Max : nat) `{!PoolLaws Max}.
Implicit Types (F : lists) (db : Database).

Lemma pending_exists db n r : consistent Max db -> objects db !! n = Some (ANotify r) -> exists xs, pending db n xs.
Proof.
  intros (F & owner & Hinv & _) Hn. pose proof (inv_shape _ _ _ _ Hinv) as Hs. destruct (sh_refers _ _ _ _ _ Hs n _ Hn) as [e He].
  destruct (head_list Max F owner _ _ Hs _ _ OFFSET_EntryProtocols He) as [l Hl]; [left|]. pose proof (shape_dlist Max F owner db Hs _ _ Hl) as Hd.
  destruct (inv_position _ _ _ _ Hinv n r Hn) as [Hp|(l' & Hl' & Hin)]; [by exists l, r, []|].
  rewrite Hl in Hl'. injection Hl' as <-. apply list_elem_of_split in Hin as (l1 & l2 & ->). exists l2, r, (l1 ++ [Position r]).
  split; [done|]. split; [by rewrite <-app_assoc|]. by rewrite app_comm_cons, List.last_last.
Qed.

(** The next link after the position. *)
Lemma pending_next F owner db n xs : inv Max F owner db -> pending db n xs ->
  exists r node, objects db !! n = Some (ANotify r) /\ load (links db) (Position r) = Ok node /\ ForwardLink node = List.hd (entry_head (NotifyProtocol r)) xs /\
    match xs with
    | [] => True
    | y :: _ => (y =? entry_head (NotifyProtocol r)) = false /\ member F (entry_head (NotifyProtocol r)) y /\
        exists ri, objects db !! (y - OFFSET_ByProtocol) = Some (AnInterface ri) /\ is_handle (objects db) (Handle ri)
    end.
Proof.
  intros Hinv (r & l1 & Hn & Hd & Hpos). pose proof (inv_shape _ _ _ _ Hinv) as Hs. destruct (sh_refers _ _ _ _ _ Hs n _ Hn) as [e He].
  destruct (head_list Max F owner _ _ Hs _ _ OFFSET_EntryProtocols He) as [l Hl]; [left|].
  assert (l = l1 ++ xs) as -> by (by apply (dlist_unique (links db) (entry_head (NotifyProtocol r))); [apply (shape_dlist Max F owner db Hs)|]).
  destruct (next_link Max F owner db Hs _ l1 xs (Position r) Hl Hpos) as (node & Hload & Hf). exists r, node. do 3 (split; [done|]).
  destruct xs as [|y xs]; [done|]. split; [by apply (link_not_head Max F owner db Hs _ l1 y xs)|]. assert (Hy : y ∈ l1 ++ y :: xs) by (apply elem_of_app; right; left).
  split; [by exists (l1 ++ y :: xs)|]. destruct (proj1 (in_entry_protocols Max F owner _ _ Hs _ e _ y He Hl) Hy) as (ri & Hri & _). exists ri. split; [done|].
  by apply (sh_refers _ _ _ _ _ Hs _ _ Hri).
Qed.

(** [CoreGetNextLocateByRegisterNotify] for a registration. *)
Lemma next_by_registration F owner db n xs p pe : inv Max F owner db -> pending db n xs ->
  CoreGetNextLocateByRegisterNotify (MkPosition n p pe) db =
    Ok (match xs with y :: _ => handle_of (objects db) y | [] => NULL end, match xs with y :: _ => value_of (objects db) y | [] => NULL end, MkPosition NULL p pe, db) /\
  match xs with y :: _ => handle_of (objects db) y <> NULL | [] => True end.
Proof.
  intros Hinv Hp. pose proof (inv_shape _ _ _ _ Hinv) as Hs. destruct (pending_next F owner db n xs Hinv Hp) as (r & node & Hn & Hload & Hf & Hy).
  unfold CoreGetNextLocateByRegisterNotify. cbn [SearchKey Pos ProtEntry]. rewrite (proj2 (Z.eqb_neq n NULL)) by (by apply (object_not_null Max F owner db Hs n _ Hn)).
  cbn [negb]. rewrite (notify_at_Some _ _ _ Hn). cbn [mbind result_bind]. rewrite Hload. cbn [mbind result_bind]. rewrite Hf.
  change (NotifyProtocol r + OFFSET_EntryProtocols) with (entry_head (NotifyProtocol r)). destruct xs as [|y xs]; cbn [List.hd].
  - by rewrite Z.eqb_refl.
  - destruct Hy as (-> & _ & ri & Hri & [rh Hrh]). cbn [negb]. rewrite (interface_at_Some _ _ _ Hri). unfold handle_of, value_of. rewrite Hri. split; [done|].
    by apply (object_not_null Max F owner db Hs _ _ Hrh).
Qed.

Lemma next_by_null p pe db : CoreGetNextLocateByRegisterNotify (MkPosition NULL p pe) db = Ok (NULL, NULL, MkPosition NULL p pe, db).
Proof. done. Qed.

(** The registration has seen the first of them. *)
Lemma AdvanceNotify_spec F owner db n y xs : inv Max F owner db -> pending db n (y :: xs) ->
  exists db', AdvanceNotify n db = Ok db' /\ inv Max F owner db' /\ same_globals db db' /\ pending db' n xs /\ same_protocols db db' /\
    forall g, registered_for db n g -> registered_for db' n g.
Proof.
  intros Hinv Hp. destruct (pending_next F owner db n _ Hinv Hp) as (r & node & Hn & Hload & Hf & _ & Hmem & _). cbn [List.hd] in Hf.
  destruct Hp as (r' & l1 & Hn' & Hd & Hpos). rewrite Hn in Hn'. injection Hn' as <-.
  unfold AdvanceNotify. rewrite (notify_at_Some _ _ _ Hn). cbn [mbind result_bind]. rewrite Hload. cbn [mbind result_bind]. rewrite Hf.
  eexists. split; [done|]. split; [apply inv_put_notify; [done|done|by right]|]. split; [done|]. split; [|split; [by apply (same_protocols_put db n (ANotify r))|]].
  2: { intros g (r' & Hr & He). rewrite Hn in Hr. injection Hr as <-. eexists. cbn [put set_objects objects]. rewrite lookup_insert_eq. split; [done|].
       cbn [NotifyProtocol]. rewrite lookup_insert_ne; [done|]. intros Heq. rewrite <-Heq in He. congruence. }
  exists (MkNotify (NotifyProtocol r) (NotifyEvent r) y), (l1 ++ [y]). split; [apply lookup_insert_eq|]. cbn [NotifyProtocol Position put set_objects links].
  split; [by rewrite <-app_assoc|]. by rewrite app_comm_cons, List.last_last.
Qed.

Lemma pending_at db n xs : pending db n xs -> exists r, objects db !! n = Some (ANotify r).
Proof. intros (r & _ & Hn & _). by exists r. Qed.

(** ** Locating for a registration *)

Lemma CoreLocateHandle_registration db g n xs Size out : valid Max db -> pending db n xs -> 0 <= Size -> (0 < Size -> out = true) ->
  exists Status size Buffer db', CoreLocateHandle Verify Max ByRegisterNotify g n (Some Size) out db = Ok (Status, size, Buffer, db') /\
    valid Max db' /\ same_protocols db db' /\ Calls db' = Calls db /\
    (Status, size, Buffer) = located (take 1 (handle_of (objects db) <$> xs)) Size /\
    pending db' n (if bool_decide (Status = EFI_SUCCESS) then tail xs else xs) /\ (forall g', registered_for db n g' -> registered_for db' n g').
Proof.
  intros [Ha (F & owner & Hinv & Hu)] Hp HSize Hout. pose proof (inv_shape _ _ _ _ Hinv) as Hs. unfold CoreLocateHandle.
  replace ((Size >? 0) && negb out) with false by (symmetry; apply andb_false_iff; destruct (Z.gtb_spec Size 0); [right; by rewrite Hout by lia|by left]).
  rewrite (acquire_ok db Ha). cbn [mbind result_bind LocateHandle_start]. destruct (pending_at db n xs Hp) as [r Hn].
  rewrite (proj2 (Z.eqb_neq n NULL)) by (by apply (object_not_null Max F owner db Hs n _ Hn)). cbn [EFI_ERROR].
  set (dbr := set_request _ _). assert (Hinvr : inv Max F owner dbr) by by apply inv_set_request, inv_set_acquired. assert (Hpr : pending dbr n xs) by done.
  destruct (next_by_registration F owner dbr n xs gHandleList NULL Hinvr Hpr) as [Hnext Hnn].
  assert (Hsize : exists k, size (links dbr) = S k).
  { destruct Hp as (r' & l1 & _ & Hd & _). pose proof (dlist_size _ _ _ Hd). exists (pred (size (links db))). cbn. lia. }
  destruct Hsize as [k Hk]. cbn [LocateHandle_loop GetNext]. rewrite Hnext. cbn [mbind result_bind]. destruct xs as [|y xs].
  - rewrite Z.eqb_refl. cbn [mbind result_bind]. rewrite Z.eqb_refl, (release_ok dbr eq_refl). cbn [mbind result_bind].
    eexists _, _, _, (set_acquired false dbr). split; [done|]. split; [split; [done|]; exists F, owner; split; [by apply inv_set_acquired|done]|]. done.
  - rewrite (proj2 (Z.eqb_neq _ _) Hnn). change (u64 (0 + 8)) with 8. rewrite Hk. cbn [LocateHandle_loop GetNext]. rewrite next_by_null.
    cbn [mbind result_bind]. rewrite Z.eqb_refl. cbn [mbind result_bind take fmap list_fmap]. rewrite take_0. cbn [located length].
    rewrite Z.gtb_ltb, Z.ltb_antisym. change (8 =? 0) with false. change (8 * Z.of_nat 1) with 8. cbn iota. destruct (Z.leb_spec 8 Size) as [Hle|Hlt]; cbn [negb].
    + rewrite bool_decide_eq_true_2 by done. cbn [andb EFI_ERROR negb].
      destruct (AdvanceNotify_spec F owner dbr n y xs Hinvr Hpr) as (db' & -> & Hinv' & Hsg & Hp' & Hsame & Hrf). cbn [mbind result_bind].
      rewrite (release_ok db') by (by rewrite (sg_acquired _ _ Hsg)). cbn [mbind result_bind]. eexists _, _, _, (set_acquired false db'). split; [done|].
      split; [split; [done|]; exists F, owner; split; [by apply inv_set_acquired|]|].
      { apply (used_same F F (objects db)); [done| |done]. intros q s Hq. apply (proj1 Hsame q). by exists s. }
      split; [done|]. split; [exact (sg_calls _ _ Hsg)|]. split; [|split; [by rewrite bool_decide_eq_true_2|exact Hrf]].
      destruct (Z.to_nat (Size / 8)) as [|m] eqn:Hm; [|cbn [take app]; by rewrite take_nil].
      assert (1 <= Size / 8) by (apply Z.div_le_lower_bound; lia). lia.
    + rewrite bool_decide_eq_true_2 by done. cbn [andb EFI_ERROR negb mbind result_bind]. rewrite (release_ok dbr eq_refl). cbn [mbind result_bind].
      eexists _, _, _, (set_acquired false dbr). split; [done|]. split; [split; [done|]; exists F, owner; split; [by apply inv_set_acquired|done]|].
      split; [done|]. split; [done|]. split; [|split; [by rewrite bool_decide_eq_false_2|done]].
      assert (Size / 8 < 1) by (apply Z.div_lt_upper_bound; lia). by replace (Z.to_nat (Size / 8)) with 0%nat by lia.
Qed.

(** [CoreLocateProtocol] without a registration: an interface of the protocol, if
    there is one. *)
Lemma CoreLocateProtocol_any db g : valid Max db -> unmarked db ->
  exists Status v db', CoreLocateProtocol Verify Max (Some g) NULL true db = Ok (Status, Some v, db') /\
    valid Max db' /\ same_protocols db db' /\ Calls db' = Calls db /\
    ((Status = EFI_SUCCESS /\ exists h, Installed db h g v) \/ (Status = EFI_NOT_FOUND /\ v = NULL /\ forall h w, ~ Installed db h g w)).
Proof.
  intros [Ha (F & owner & Hinv & Hu)] Hun. pose proof (inv_shape _ _ _ _ Hinv) as Hs. unfold CoreLocateProtocol. cbn [negb]. rewrite Ha.
  rewrite (acquire_ok db Ha). cbn [mbind result_bind]. rewrite Z.eqb_refl. set (dbr := set_request _ _).
  assert (Hinvr : inv Max F owner dbr) by by apply inv_set_request, inv_set_acquired.
  destruct (CoreFindProtocolEntry_lookup Max F owner dbr Hs Verify g eq_refl) as (pe & Hpe & ->). cbn [mbind result_bind].
  destruct Hpe as [[-> Hno]|[Hn Hpe]].
  { rewrite Z.eqb_refl. cbn [mbind result_bind]. rewrite Z.eqb_refl. cbn [mbind result_bind]. rewrite (release_ok dbr eq_refl). cbn [mbind result_bind].
    eexists _, _, (set_acquired false dbr). split; [done|]. split; [split; [done|]; exists F, owner; split; [by apply inv_set_acquired|done]|].
    split; [done|]. split; [done|]. right. do 2 (split; [done|]). intros h w [i (r & e & _ & _ & _ & He & Hg)]. by apply (Hno _ _ He). }
  rewrite (proj2 (Z.eqb_neq _ _) Hn). destruct (head_list Max F owner _ _ Hs pe _ OFFSET_EntryProtocols Hpe) as [l Hl]; [left|].
  destruct (listed_protocol Max F owner db pe g l Hinv Hpe Hl) as [_ Hlist]. change (pe + OFFSET_EntryProtocols) with (entry_head pe). destruct l as [|y l].
  - rewrite (next_by_protocol_end Max F owner dbr Hs pe [] (entry_head pe) NULL Hl eq_refl). cbn [mbind result_bind]. rewrite Z.eqb_refl. cbn [mbind result_bind].
    rewrite (release_ok dbr eq_refl). cbn [mbind result_bind].
    eexists _, _, (set_acquired false dbr). split; [done|]. split; [split; [done|]; exists F, owner; split; [by apply inv_set_acquired|done]|].
    split; [done|]. split; [done|]. right. do 2 (split; [done|]). intros h w Hw. assert (Hin : h ∈ []); [|by apply elem_of_nil in Hin]. apply Hlist. by exists w.
  - destruct (proj1 (in_entry_protocols Max F owner _ _ Hs pe _ _ y Hpe Hl)) as (ri & Hri & Hpr); [left|]. destruct (sh_refers _ _ _ _ _ Hs _ _ Hri) as [[rh Hrh] _].
    rewrite (next_by_protocol_step Max F owner dbr Hs pe [] y l (entry_head pe) NULL ri rh Hl eq_refl Hri Hrh) by (by apply (Hun _ _ Hrh)). cbn [mbind result_bind].
    rewrite (proj2 (Z.eqb_neq _ _)) by (by apply (object_not_null Max F owner db Hs _ _ Hrh)). cbn [negb mbind result_bind].
    set (db' := put _ _ _). assert (Hmk : marks dbr db') by (by apply (marks_put dbr dbr _ rh); [apply marks_refl| |]).
    rewrite (release_ok db' eq_refl). cbn [mbind result_bind]. eexists _, _, (set_acquired false db'). split; [done|].
    split; [split; [done|]; exists F, owner; split; [apply inv_set_acquired; by apply (inv_put_handle Max F owner dbr _ rh)|exact (marks_used F dbr db' Hmk Hu)]|].
    split; [exact (marks_protocols dbr db' Hmk)|]. split; [done|]. left. split; [done|]. exists (Handle ri), (y - OFFSET_ByProtocol), ri, (MkEntry g). by rewrite Hpr.
Qed.

(** With a registration: the interface that it has not seen. *)
Lemma CoreLocateProtocol_registration db g n xs : valid Max db -> pending db n xs ->
  exists db', CoreLocateProtocol Verify Max (Some g) n true db =
      Ok (match xs with [] => (EFI_NOT_FOUND, Some NULL, db') | y :: _ => (EFI_SUCCESS, Some (value_of (objects db) y), db') end) /\
    valid Max db' /\ same_protocols db db' /\ Calls db' = Calls db /\ pending db' n (tail xs).
Proof.
  intros [Ha (F & owner & Hinv & Hu)] Hp. pose proof (inv_shape _ _ _ _ Hinv) as Hs. unfold CoreLocateProtocol. cbn [negb]. rewrite Ha.
  rewrite (acquire_ok db Ha). cbn [mbind result_bind]. destruct (pending_at db n xs Hp) as [r Hn].
  rewrite (proj2 (Z.eqb_neq n NULL)) by (by apply (object_not_null Max F owner db Hs n _ Hn)). set (dbr := set_request _ _).
  assert (Hinvr : inv Max F owner dbr) by by apply inv_set_request, inv_set_acquired. assert (Hpr : pending dbr n xs) by done.
  destruct (next_by_registration F owner dbr n xs gHandleList NULL Hinvr Hpr) as [Hnext Hnn]. rewrite Hnext. cbn [mbind result_bind negb]. destruct xs as [|y xs].
  - rewrite Z.eqb_refl. cbn [mbind result_bind]. rewrite (release_ok dbr eq_refl). cbn [mbind result_bind].
    exists (set_acquired false dbr). split; [done|]. split; [split; [done|]; exists F, owner; split; [by apply inv_set_acquired|done]|]. done.
  - rewrite (proj2 (Z.eqb_neq _ _) Hnn). destruct (AdvanceNotify_spec F owner dbr n y xs Hinvr Hpr) as (db' & -> & Hinv' & Hsg & Hp' & Hsame & _). cbn [mbind result_bind].
    rewrite (release_ok db') by (by rewrite (sg_acquired _ _ Hsg)). cbn [mbind result_bind]. exists (set_acquired false db'). split; [done|].
    split; [split; [done|]; exists F, owner; split; [by apply inv_set_acquired|]|].
    { apply (used_same F F (objects db)); [done| |done]. intros q s Hq. apply (proj1 Hsame q). by exists s. }
    split; [done|]. split; [exact (sg_calls _ _ Hsg)|done].
Qed.

(** ** Registering *)

(** No memory for the entry of the protocol or for the registration. *)
Definition no_registration db (g : EFI_GUID) : Prop :=
  ((forall e, objects db !! e <> Some (AnEntry (MkEntry g))) /\ Allocate sizeof_PROTOCOL_ENTRY db = None) \/
  exists used, entry_used db g used /\ AllocatePool sizeof_PROTOCOL_NOTIFY used = None.

Lemma CoreRegisterProtocolNotify_spec db g ev c : valid Max db -> ev <> NULL -> registered db g c ->
  exists Status reg db', CoreRegisterProtocolNotify Verify Max (Some g) ev true db = Ok (Status, reg, db') /\ valid Max db' /\ same_protocols db db' /\
    ((Status = EFI_OUT_OF_RESOURCES /\ reg = None /\ Calls db' = Calls db /\ registered db' g c /\ no_registration db g) \/
     (Status = EFI_SUCCESS /\ Calls db' = Calls db ++ [MarkNotification ev] /\ registered db' g (c ++ [Signal ev]) /\
      exists n xs, reg = Some n /\ objects db !! n = None /\ registered_for db' n g /\ pending db' n xs /\ listed db ByProtocol g (handle_of (objects db') <$> xs))).
Proof.
  intros [Ha Hc] Hev Hreg. pose proof Hc as (F & owner & Hinv & Hu). unfold CoreRegisterProtocolNotify.
  rewrite (proj2 (Z.eqb_neq _ _) Hev). cbn [orb negb]. rewrite (acquire_ok db Ha). cbn [mbind result_bind]. set (dba := set_acquired true db).
  assert (Hinva : inv Max F owner dba) by by apply inv_set_acquired.
  destruct (CoreFindProtocolEntry_create Verify Max F owner dba g Hinva eq_refl) as (q & db1 & F1 & -> & Hinv1 & Hmade). cbn [mbind result_bind].
  pose proof (entry_made_globals _ _ _ _ _ _ Hmade) as Hsg1. pose proof (entry_made_protocols Max F owner dba F1 db1 g q Hinva Hmade) as Hsame1.
  pose proof (entry_made_used Max F owner dba F1 db1 g q NULL Hinva Hmade Hu) as Hu1. pose proof (inv_shape _ _ _ _ Hinv1) as Hs1.
  assert (Hout : registered db1 g c -> no_registration db g -> exists Status reg db',
    (let! db := CoreReleaseProtocolLock db1 in Ok (if negb (NULL =? NULL) then (EFI_SUCCESS, Some NULL, db) else (EFI_OUT_OF_RESOURCES, None, db))) = Ok (Status, reg, db') /\
    valid Max db' /\ same_protocols db db' /\
    ((Status = EFI_OUT_OF_RESOURCES /\ reg = None /\ Calls db' = Calls db /\ registered db' g c /\ no_registration db g) \/
     (Status = EFI_SUCCESS /\ Calls db' = Calls db ++ [MarkNotification ev] /\ registered db' g (c ++ [Signal ev]) /\
      exists n xs, reg = Some n /\ objects db !! n = None /\ registered_for db' n g /\ pending db' n xs /\ listed db ByProtocol g (handle_of (objects db') <$> xs)))).
  { intros Hr1 Hnm. rewrite (release_ok db1) by (by rewrite (sg_acquired _ _ Hsg1)). cbn [mbind result_bind]. rewrite Z.eqb_refl. cbn [negb].
    eexists _, _, (set_acquired false db1). split; [done|]. split; [split; [done|]; exists F1, owner; split; [by apply inv_set_acquired|done]|]. split; [done|].
    left. do 2 (split; [done|]). split; [exact (sg_calls _ _ Hsg1)|]. done. }
  destruct (Z.eqb_spec q NULL) as [->|Hqn].
  { cbn [mbind result_bind]. destruct Hmade as [_ -> -> Hnone Hno|?|?]; [|done..]. apply Hout; [done|]. left. split; [|done]. intros e He. by apply (Hno e _ He). }
  pose proof (entry_made_entry _ _ _ _ _ _ Hmade Hqn) as Hq1. destruct (head_list Max F1 owner _ _ Hs1 q _ OFFSET_Notify Hq1) as [l Hl]; [right; left|].
  pose proof (registered_list Max F1 owner db1 q g l Hinv1 Hq1 Hl) as Hr1.
  assert (c = signals (objects db1) l) as Hcl.
  { apply (registered_unique Max db g _ _ Hc Hreg). exact (registered_made Max F owner dba F1 db1 F1 owner db1 q g _ Hinva Hinv1 Hmade Hqn (fun _ _ Hx => Hx) (fun _ Hx => Hx) Hr1). }
  destruct (Allocate sizeof_PROTOCOL_NOTIFY db1) as [n|] eqn:Hn; [|cbn [mbind result_bind]; apply Hout; [by rewrite Hcl|]; right; exists (dom (objects db1)); split; [exact (entry_made_blocks _ _ _ _ _ _ Hmade Hqn)|done]].
  set (dbm := add_call (MarkNotification ev) db1). assert (Hinvm : inv Max F1 owner dbm) by exact (inv_set_calls Max F1 owner db1 _ Hinv1).
  destruct (new_notify_spec Verify Max F1 owner dbm q (MkEntry g) ev n Hinvm Hq1 Hn) as (db' & F' & l' & -> & Hinv' & Hsg' & HO' & Hl' & HF'). cbn [mbind result_bind].
  rewrite Hl in Hl'. injection Hl' as <-. destruct (Allocate_spec Max F1 owner db1 _ n Hs1 Hn) as (_ & Hfree & Hnn & _).
  pose proof (inv_shape _ _ _ _ Hinv') as Hs'. pose proof (sg_acquired _ _ Hsg') as Ha'. cbn [dbm add_call Acquired] in Ha'. rewrite (sg_acquired _ _ Hsg1) in Ha'.
  rewrite (release_ok db' Ha'). cbn [mbind result_bind]. rewrite (proj2 (Z.eqb_neq _ _) Hnn). cbn [negb].
  assert (Hsame' : same_protocols db1 db') by (apply (same_protocols_new db1 db' n _ HO' Hfree); [done|]; intros i r; by apply (inv_refers Max F1 owner)).
  assert (Hn' : objects db' !! n = Some (ANotify (MkNotify q ev (q + OFFSET_EntryProtocols)))) by (rewrite HO'; apply lookup_insert_eq).
  assert (Hq' : objects db' !! q = Some (AnEntry (MkEntry g))).
  { rewrite HO', lookup_insert_ne; [done|]. intros <-. cbn [dbm add_call objects] in *. congruence. }
  destruct (head_list Max F' owner _ _ Hs' q _ OFFSET_EntryProtocols Hq') as [xs Hxs]; [left|].
  eexists _, _, (set_acquired false db'). split; [done|]. split; [split; [done|]; exists F', owner; split; [by apply inv_set_acquired|]|].
  { apply (used_same F1 F' (objects db1)); [done| |]; intros x r Hx; cbn [set_acquired objects] in Hx; rewrite HO' in Hx;
      (apply lookup_insert_Some in Hx as [[_ ?]|[_ Hx]]; [done|]); [by exists r|]. rewrite HF', lookup_insert_ne; [done|]. intros Heq.
    destruct (object_node Max F1 owner _ _ Hs1 q x _ _ OFFSET_Notify OFFSET_HandleProtocols Hq1 Hx) as (_ & ? & _); [right; right; left|right; left|done|done]. }
  split; [exact (same_protocols_trans dba db1 db' Hsame1 Hsame')|]. right. split; [done|].
  split; [cbn [set_acquired Calls]; rewrite (sg_calls _ _ Hsg'); cbn [dbm add_call Calls]; by rewrite (sg_calls _ _ Hsg1)|]. split.
  - rewrite Hcl. assert (Hsig : signals (objects db') (l ++ [n + OFFSET_NotifyLink]) = signals (objects db1) l ++ [Signal ev]).
    { unfold signals. rewrite omap_app. fold (signals (objects db') l) (signals (objects db1) l). f_equal.
      - apply signals_ext; [|intros x (r & Hr & _)%(in_notify Max F1 owner _ _ Hs1 q _ l x Hq1 Hl); by exists r].
        intros x r _ Hr. rewrite HO', lookup_insert_ne; [done|]. intros ->. cbn [dbm add_call objects] in *. congruence.
      - cbn [omap list_omap]. by rewrite Z.add_simpl_r, Hn'. }
    rewrite <-Hsig. apply (registered_list Max F' owner db' q g); [done|done|]. rewrite HF'. apply lookup_insert_eq.
  - exists n, xs. split; [done|]. split; [|split; [by exists (MkNotify q ev (q + OFFSET_EntryProtocols))|split]].
    + destruct (objects db !! n) as [o|] eqn:Ho; [|done]. by rewrite (entry_made_kept _ _ _ _ _ _ n o Hmade Ho) in Hfree.
    + exists (MkNotify q ev (q + OFFSET_EntryProtocols)), []. split; [done|]. split; [|done]. by apply (shape_dlist Max F' owner db' Hs').
    + destruct (listed_protocol Max F' owner db' q g xs Hinv' Hq' Hxs) as [Hnd Hlist]. split; [done|]. intros h. rewrite (Hlist h).
      split; intros (v & i & Hi); exists v, i; [apply (proj2 Hsame1), (proj2 Hsame')|apply (proj2 Hsame'), (proj2 Hsame1)]; done.
Qed.

(** ** Unregistering *)

Definition notifies (O : objs) (ev x : ptr) : bool := match O !! (x - OFFSET_NotifyLink) with Some (ANotify r) => NotifyEvent r =? ev | _ => false end.

(** The search in the notifications of one entry. *)
Lemma FindNotify_entry F owner db e re ev l : shape Max F owner (objects db) (links db) -> objects db !! e = Some (AnEntry re) -> F !! (e + OFFSET_Notify) = Some l ->
  search ForwardLink (e + OFFSET_Notify) db (fun NotifyLink _ =>
    let! r := notify_at db (NotifyLink - OFFSET_NotifyLink) in
    if NotifyEvent r =? ev then Ok (NotifyLink - OFFSET_NotifyLink, true) else Ok (NULL, false)) NULL =
  Ok (match List.find (notifies (objects db) ev) l with Some x => x - OFFSET_NotifyLink | None => NULL end).
Proof.
  intros Hs He Hl. apply (search_find db _ l _ _ (fun x => x - OFFSET_NotifyLink)); [by apply (shape_dlist Max F owner db Hs)|].
  intros x (r & Hr & _)%(in_notify Max F owner _ _ Hs e re l x He Hl). cbv zeta. unfold notifies. rewrite (notify_at_Some _ _ _ Hr), Hr. cbn [mbind result_bind].
  by destruct (NotifyEvent r =? ev).
Qed.

Lemma FindNotify_spec F owner db ev : shape Max F owner (objects db) (links db) ->
  exists q, FindNotify ev db = Ok q /\ ((q = NULL /\ forall n r, objects db !! n = Some (ANotify r) -> NotifyEvent r <> ev) \/
                                        (q <> NULL /\ exists r, objects db !! q = Some (ANotify r) /\ NotifyEvent r = ev)).
Proof.
  intros Hs. destruct (entry_list Max F owner _ _ Hs) as [l Hl]. pose proof (fun x => in_entries Max F owner _ _ Hs l x Hl) as Hin.
  set (inner := fun x => match F !! (x - OFFSET_AllEntries + OFFSET_Notify) with Some m => List.find (notifies (objects db) ev) m | None => None end).
  set (f := fun x => match inner x with Some _ => true | None => false end). set (found := fun x => match inner x with Some y => y - OFFSET_NotifyLink | None => NULL end).
  assert (Hinner : forall x y, x ∈ l -> inner x = Some y -> exists r, objects db !! (y - OFFSET_NotifyLink) = Some (ANotify r) /\ NotifyEvent r = ev).
  { intros x y [re Hre]%Hin Hy. unfold inner in Hy. destruct (head_list Max F owner _ _ Hs _ _ OFFSET_Notify Hre) as [m Hm]; [right; left|]. rewrite Hm in Hy.
    apply find_Some_split in Hy as [Hym Hev]. apply (in_notify Max F owner _ _ Hs _ re m y Hre Hm) in Hym as (r & Hr & _). exists r. split; [done|].
    unfold notifies in Hev. rewrite Hr in Hev. by apply Z.eqb_eq. }
  eexists. split; [apply (search_find db _ l _ f found); [by apply (shape_dlist Max F owner db Hs)|]|].
  - intros x Hx. destruct (proj1 (Hin x) Hx) as [re Hre]. rewrite (entry_at_Some _ _ _ Hre). cbn [mbind result_bind].
    destruct (head_list Max F owner _ _ Hs _ _ OFFSET_Notify Hre) as [m Hm]; [right; left|]. rewrite (FindNotify_entry F owner db _ re ev m Hs Hre Hm). cbn [mbind result_bind].
    pose proof (Hinner x) as Hix. unfold f, found. assert (inner x = List.find (notifies (objects db) ev) m) as Hi by (unfold inner; by rewrite Hm). rewrite Hi in Hix |- *.
    destruct (List.find _ m) as [y|] eqn:Hy; [|by rewrite Z.eqb_refl]. destruct (Hix y Hx eq_refl) as (r & Hr & _).
    by rewrite (proj2 (Z.eqb_neq _ _)) by (by apply (object_not_null Max F owner db Hs _ _ Hr)).
  - destruct (List.find f l) as [x|] eqn:Hf; [right|left].
    + apply find_Some_split in Hf as [Hx Hf]. unfold f in Hf. unfold found. pose proof (Hinner x) as Hix. destruct (inner x) as [y|]; [|done].
      destruct (Hix y Hx eq_refl) as (r & Hr & Hev). split; [by apply (object_not_null Max F owner db Hs _ _ Hr)|by exists r].
    + split; [done|]. intros n r Hn Hev. destruct (sh_refers _ _ _ _ _ Hs n _ Hn) as [re Hre].
      assert (Hx : NotifyProtocol r + OFFSET_AllEntries ∈ l) by (apply Hin; exists re; by rewrite Z.add_simpl_r).
      apply (find_None_all _ _ _ Hf) in Hx. unfold f, inner in Hx. rewrite Z.add_simpl_r in Hx.
      destruct (head_list Max F owner _ _ Hs _ _ OFFSET_Notify Hre) as [m Hm]; [right; left|]. rewrite Hm in Hx. destruct (List.find _ m) eqn:Hfm; [done|].
      assert (Hnm : n + OFFSET_NotifyLink ∈ m) by (apply (in_notify Max F owner _ _ Hs _ re m _ Hre Hm); exists r; by rewrite Z.add_simpl_r).
      apply (find_None_all _ _ _ Hfm) in Hnm. unfold notifies in Hnm. rewrite Z.add_simpl_r, Hn in Hnm. by apply Z.eqb_neq in Hnm.
Qed.

Lemma signals_cons O x l : signals O (x :: l) =
  match O !! (x - OFFSET_NotifyLink) with Some (ANotify r) => Signal (NotifyEvent r) :: signals O l | _ => signals O l end.
Proof. unfold signals. cbn [omap list_omap]. by destruct (O !! _) as [[]|]. Qed.

(** Without the notification [q], signals of other events are as before. *)
Lemma registered_without F owner db db' q r g c F' : inv Max F owner db -> inv Max F' owner db' -> objects db !! q = Some (ANotify r) -> objects db' = delete q (objects db) ->
  (forall hd l, F !! hd = Some l -> exists l', F' !! hd = Some l' /\ l' = List.filter (fun x => negb (x =? q + OFFSET_NotifyLink)) l) -> registered db g c ->
  exists c', registered db' g c' /\ List.filter (not_signal (NotifyEvent r)) c' = List.filter (not_signal (NotifyEvent r)) c.
Proof.
  intros Hinv Hinv' Hq HO HF [(e & l & He & Hl & ->)|[Hno ->]].
  - pose proof (inv_shape _ _ _ _ Hinv) as Hs. destruct (head_list Max F owner _ _ Hs e _ OFFSET_Notify He) as [l0 Hl0]; [right; left|].
    assert (l0 = l) as -> by (by apply (dlist_unique (links db) (e + OFFSET_Notify)); [apply (shape_dlist Max F owner db Hs)|]).
    destruct (HF _ _ Hl0) as (l' & Hl' & Heq). exists (signals (objects db') l'). split.
    + apply (registered_list Max F' owner db' e g); [done| |done]. rewrite HO, lookup_delete_ne; [done|]. intros ->; congruence.
    + pose proof (fun x => in_notify Max F owner _ _ Hs e _ l x He Hl0) as Hin. clear Hl0 Hl Hl'. subst l'.
      assert (Hall : forall x, x ∈ l -> exists s, objects db !! (x - OFFSET_NotifyLink) = Some (ANotify s)) by (intros x (s & Hs' & _)%Hin; by exists s). clear Hin.
      rewrite HO. induction l as [|x l IH]; [done|]. assert (Hall' : forall y, y ∈ l -> exists s, objects db !! (y - OFFSET_NotifyLink) = Some (ANotify s)) by (intros y Hy; apply Hall; by right).
      specialize (IH Hall'). destruct (Hall x) as [s Hs']; [left|]. cbn [List.filter]. destruct (Z.eqb_spec x (q + OFFSET_NotifyLink)) as [->|Hne]; cbn [negb].
      * rewrite IH, (signals_cons _ (q + OFFSET_NotifyLink)). rewrite Z.add_simpl_r, Hq. cbn [List.filter not_signal]. by rewrite Z.eqb_refl.
      * rewrite !(signals_cons _ x), lookup_delete_ne by lia. rewrite Hs'. cbn [List.filter]. by rewrite IH.
  - exists []. split; [right; split; [|done]|done]. intros e He. rewrite HO in He. apply lookup_delete_Some in He as [_ He]. by apply (Hno e).
Qed.

Lemma filter_other (x0 : ptr) m : x0 ∉ m -> List.filter (fun x => negb (x =? x0)) m = m.
Proof.
  intros Hm. induction m as [|x m IHm]; [done|]. apply not_elem_of_cons in Hm as [Hx Hm]. cbn [List.filter].
  rewrite (proj2 (Z.eqb_neq x _)) by (intros Hxe; by apply Hx). cbn [negb]. by rewrite IHm.
Qed.

(** One notification of the event is removed, if there is one. *)
Lemma CoreUnregisterProtocolNotifyEvent_spec db ev : valid Max db ->
  (CoreUnregisterProtocolNotifyEvent Max ev db = Ok (EFI_NOT_FOUND, db) /\ forall n r, objects db !! n = Some (ANotify r) -> NotifyEvent r <> ev) \/
  exists q r db', CoreUnregisterProtocolNotifyEvent Max ev db = Ok (EFI_SUCCESS, db') /\ valid Max db' /\ objects db !! q = Some (ANotify r) /\ NotifyEvent r = ev /\
    objects db' = delete q (objects db) /\ Calls db' = Calls db /\
    forall g c, registered db g c -> exists c', registered db' g c' /\ List.filter (not_signal ev) c' = List.filter (not_signal ev) c.
Proof.
  intros [Ha (F & owner & Hinv & Hu)]. pose proof (inv_shape _ _ _ _ Hinv) as Hs. unfold CoreUnregisterProtocolNotifyEvent.
  rewrite (acquire_ok db Ha). cbn [mbind result_bind]. set (dba := set_acquired true db). assert (Hinva : inv Max F owner dba) by by apply inv_set_acquired.
  destruct (FindNotify_spec F owner dba ev Hs) as (q & -> & [[-> Hno]|[Hqn (r & Hq & Hev)]]); cbn [mbind result_bind].
  { left. rewrite Z.eqb_refl, (release_ok dba eq_refl). cbn [mbind result_bind]. unfold dba. by rewrite release_acquire. }
  right. rewrite (proj2 (Z.eqb_neq _ _) Hqn).
  destruct (RemoveNotify_spec Max F owner dba q r Hinva Hq) as (l1 & l2 & Hl & n & db1 & db' & -> & Hfree & Hinv' & Hsg & HO). cbn [mbind result_bind]. rewrite Hfree. cbn [mbind result_bind].
  rewrite (release_ok db') by (by rewrite (sg_acquired _ _ Hsg)). cbn [mbind result_bind]. exists q, r, (set_acquired false db'). split; [done|].
  assert (Hc' : consistent Max db').
  { eexists _, owner. split; [exact Hinv'|]. intros x s Hx Hne. rewrite HO in Hx. apply lookup_delete_Some in Hx as [_ Hx]. rewrite lookup_insert_ne; [by apply (Hu x s)|].
    intros Heq. destruct (sh_refers _ _ _ _ _ Hs q _ Hq) as [re Hre].
    destruct (object_node Max F owner _ _ Hs _ x _ _ OFFSET_Notify OFFSET_HandleProtocols Hre Hx) as (_ & ? & _); [right; right; left|right; left|done|done]. }
  split; [split; [done|by apply consistent_acquired]|]. do 3 (split; [done|]). split; [exact (sg_calls _ _ Hsg)|].
  intros g c Hreg. destruct (registered_without F owner dba db' q r g c (<[NotifyProtocol r + OFFSET_Notify := l1 ++ l2]> F) Hinva Hinv' Hq HO) as (c' & Hc1 & Hc2); [|done|by exists c'; rewrite <-Hev].
  intros hd l Hhd. pose proof (family_NoDup _ _ _ _ (sh_family _ _ _ _ _ Hs) Hl) as [Hnd _]. destruct (decide (hd = NotifyProtocol r + OFFSET_Notify)) as [->|Hne].
  - exists (l1 ++ l2). rewrite lookup_insert_eq. split; [done|]. rewrite Hl in Hhd. injection Hhd as <-. apply NoDup_app in Hnd as (Hn1 & Hx1 & [Hx2 Hn2]%NoDup_cons).
    rewrite List.filter_app. cbn [List.filter]. rewrite Z.eqb_refl. cbn [negb].
    rewrite !filter_other; [done|done|]. intros Hx. apply (Hx1 _ Hx). left.
  - exists l. rewrite lookup_insert_ne by done. split; [done|]. symmetry. assert (Hq' : q + OFFSET_NotifyLink ∉ l).
    { intros Hx. apply Hne. eapply (family_unique (links db) F); [apply Hs|exact Hhd|exact Hl|exact Hx|]. apply elem_of_app. right. left. }
    by apply filter_other.
Qed.

(** All notifications of the event are removed. *)
Lemma UnregisterProtocolNotify_loop_spec ev fuel : forall db, valid Max db -> (size (objects db) < fuel)%nat ->
  exists db', UnregisterProtocolNotify_loop Max fuel ev db = Ok db' /\ valid Max db' /\ same_protocols db db' /\ Calls db' = Calls db /\
    (forall n r, objects db' !! n = Some (ANotify r) -> NotifyEvent r <> ev) /\
    forall g c, registered db g c -> exists c', registered db' g c' /\ List.filter (not_signal ev) c' = List.filter (not_signal ev) c.
Proof.
  induction fuel as [|fuel IH]; intros db Hv Hf; [lia|]. cbn [UnregisterProtocolNotify_loop].
  destruct (CoreUnregisterProtocolNotifyEvent_spec db ev Hv) as [[-> Hno]|(q & r & db1 & -> & Hv1 & Hq & _ & HO & Hcalls & Hreg)]; cbn [mbind result_bind EFI_ERROR].
  - exists db. split; [done|]. split; [done|]. split; [by split|]. split; [done|]. split; [done|]. intros g c Hc. by exists c.
  - destruct (IH db1 Hv1) as (db' & -> & Hv' & Hsame & Hcalls' & Hno & Hreg').
    { rewrite HO, map_size_delete, Hq. assert (size (objects db) <> 0%nat) by (apply map_size_ne_0_lookup; by exists q, (ANotify r)). lia. }
    exists db'. split; [done|]. split; [done|]. split; [apply (same_protocols_trans _ db1); [by apply (same_protocols_delete db db1 q (ANotify r))|done]|].
    split; [by rewrite Hcalls'|]. split; [done|]. intros g c (c1 & Hc1 & He1)%Hreg. destruct (Hreg' g c1 Hc1) as (c2 & Hc2 & He2). exists c2. by rewrite He2.
Qed.

Lemma filter_all {A} (f : A -> bool) l : (forall x, x ∈ l -> f x = true) -> List.filter f l = l.
Proof. induction l as [|x l IH]; intros H'; [done|]. cbn [List.filter]. rewrite (H' x) by left. f_equal. apply IH. intros y Hy. apply H'. by right. Qed.

Lemma registered_signals db g c x : registered db g c -> x ∈ c -> exists n r, objects db !! n = Some (ANotify r) /\ x = Signal (NotifyEvent r).
Proof.
  intros [(e & l & _ & _ & ->)|[_ ->]] Hx; [|by apply elem_of_nil in Hx]. unfold signals in Hx. apply list_elem_of_omap in Hx as (y & _ & Hy).
  destruct (objects db !! (y - OFFSET_NotifyLink)) as [[]|] eqn:Hn; try done. injection Hy as <-. by eexists _, _.
Qed.

Lemma CoreUnregisterProtocolNotify_spec db ev : valid Max db ->
  exists db', CoreUnregisterProtocolNotify Max ev db = Ok (EFI_SUCCESS, db') /\ valid Max db' /\ same_protocols db db' /\ Calls db' = Calls db /\
    (forall n r, objects db' !! n = Some (ANotify r) -> NotifyEvent r <> ev) /\
    forall g c, registered db g c -> registered db' g (List.filter (not_signal ev) c).
Proof.
  intros Hv. unfold CoreUnregisterProtocolNotify. destruct (UnregisterProtocolNotify_loop_spec ev (S (size (objects db))) db Hv) as (db' & -> & Hv' & Hsame & Hcalls & Hno & Hreg); [lia|].
  cbn [mbind result_bind]. exists db'. do 5 (split; [done|]). intros g c (c' & Hc' & <-)%Hreg. rewrite filter_all; [done|].
  intros x Hx. destruct (registered_signals db' g c' x Hc' Hx) as (n & r & Hn & ->). cbn [not_signal]. by rewrite (proj2 (Z.eqb_neq _ _)) by (by apply (Hno n)).
Qed.
End Notify.
