(* ===== verification/HandleInfo.v ===== *)
(** * Handles and protocols: information about the database

    [CoreOpenProtocolInformation], [CoreProtocolsPerHandle] and
    [CoreConnectHandlesByKey]. *)

From S2P Require Import Prelude LinkedList ListFamily Handle HandleInv HandleLookup HandleDriver HandleOpen HandleInstall.

(** ** Loops that collect *)

Lemma iterate_map {A} (f : ptr -> result A) (g : ptr -> A) l : forall acc, (forall x, x ∈ l -> f x = Ok (g x)) ->
  iterate (fun Link l => let! a := f Link in Ok (l ++ [a], false)) l acc = Ok (acc ++ (g <$> l)).
Proof.
  induction l as [|x l IH]; intros acc Hf; cbn [iterate fmap list_fmap]; [by rewrite app_nil_r|]. rewrite (Hf x) by left. cbn [mbind result_bind].
  rewrite IH, <-app_assoc; [done|]. intros y Hy. apply Hf. by right.
Qed.

Lemma search_iterate {A} (db : Database) hd l (body : ptr -> A -> result (A * bool)) a : dlist (links db) hd l ->
  search ForwardLink hd db body a = iterate body l a.
Proof.
  intros Hd. unfold search. pose proof (dlist_size _ _ _ Hd). apply (for_list_iterate _ (links db)); [by apply path_forward|lia|done..].
Qed.

Lemma map_list_spec {A} db hd l (f : ptr -> result A) (g : ptr -> A) : dlist (links db) hd l -> (forall x, x ∈ l -> f x = Ok (g x)) ->
  map_list hd db f = Ok (g <$> l).
Proof. intros Hd Hf. unfold map_list. rewrite (search_iterate db hd l) by done. by rewrite (iterate_map f g). Qed.

Lemma list_of_spec db hd l : dlist (links db) hd l -> list_of hd db = Ok l.
Proof.
  intros Hd. unfold list_of. rewrite (search_iterate db hd l) by done. pose proof (iterate_map (fun x => Ok x) (fun x => x) l []) as Hi.
  cbn [mbind result_bind] in Hi. rewrite Hi by done. by rewrite list_fmap_id.
Qed.

Lemma iterate_filter (f : ptr -> bool) (k : Z) (body : ptr -> list ptr -> result (list ptr * bool)) l : forall acc,
  (forall x acc, x ∈ l -> body x acc = Ok (if f x then acc ++ [x - k] else acc, false)) ->
  iterate body l acc = Ok (acc ++ ((fun x => x - k) <$> List.filter f l)).
Proof.
  induction l as [|x l IH]; intros acc Hb; cbn [iterate List.filter]; [by rewrite app_nil_r|]. rewrite (Hb x) by left. cbn [mbind result_bind].
  rewrite IH by (intros y acc' Hy; apply Hb; by right). destruct (f x); [|done]. by rewrite <-app_assoc.
Qed.

Section Info.
Context `{Platform} `{Drivers} (Verify : bool) (Max : nat) `{!PoolLaws Max} `{!DriverLaws Max}.
Implicit Types (F : lists) (db : Database).

(** The open records of an interface, each once. *)
Definition records_of db i (Buffer : list OPEN_PROTOCOL_DATA) : Prop :=
  exists qs, NoDup qs /\ (forall q, q ∈ qs <-> exists r, opened db i q r) /\ Forall2 (fun q r => objects db !! q = Some (AnOpen r)) qs Buffer.

Inductive information_result db h g : EFI_STATUS -> list OPEN_PROTOCOL_DATA -> Prop :=
| information_absent : (forall v, ~ Installed db h g v) -> information_result db h g EFI_NOT_FOUND []
| information_no_memory i v Buffer : provides (objects db) i h g v -> records_of db i Buffer ->
    Allocate (Z.max 1 (Z.of_nat (length Buffer)) * sizeof_EFI_OPEN_PROTOCOL_INFORMATION_ENTRY) db = None -> information_result db h g EFI_OUT_OF_RESOURCES []
| information_done i v Buffer : provides (objects db) i h g v -> records_of db i Buffer -> information_result db h g EFI_SUCCESS Buffer.

Definition open_of (O : objs) (x : ptr) : OPEN_PROTOCOL_DATA :=
  match O !! (x - OFFSET_OpenLink) with Some (AnOpen r) => r | _ => MkOpen NULL NULL 0 0 end.

Lemma records_of_list F owner db i ri l : inv Max F owner db -> objects db !! i = Some (AnInterface ri) -> F !! (i + OFFSET_OpenList) = Some l ->
  records_of db i (open_of (objects db) <$> l) /\ forall x, x ∈ l -> open_at db (x - OFFSET_OpenLink) = Ok (open_of (objects db) x).
Proof.
  intros Hinv Hi Hl. pose proof (inv_shape _ _ _ _ Hinv) as Hs. pose proof (fun x => in_open_list Max F owner _ _ Hs i ri l x Hi Hl) as Hin. split.
  - exists ((fun x => x - OFFSET_OpenLink) <$> l). split; [|split].
    + apply NoDup_fmap_2_strong; [intros x y _ _ ?; lia|]. by destruct (family_NoDup _ _ _ _ (sh_family _ _ _ _ _ Hs) Hl).
    + intros q. rewrite list_elem_of_fmap. setoid_rewrite (opened_owner Max F owner db Hs i ri q _ Hi). split.
      * intros (x & -> & (r & Hr & Ho)%Hin). by exists r.
      * intros (r & Hr & Ho). exists (q + OFFSET_OpenLink). rewrite Z.add_simpl_r. split; [done|]. apply Hin. exists r. by rewrite Z.add_simpl_r.
    + apply Forall2_fmap_2, Forall_Forall2_diag, Forall_forall. intros x (r & Hr & _)%Hin. unfold open_of. by rewrite Hr.
  - intros x (r & Hr & _)%Hin. unfold open_of. by rewrite (open_at_Some _ _ _ Hr), Hr.
Qed.

Lemma CoreOpenProtocolInformation_spec db h g : valid Max db ->
  exists Status Buffer, CoreOpenProtocolInformation h g db = Ok (Status, Buffer, db) /\ information_result db h g Status Buffer.
Proof.
  intros [Ha (F & owner & Hinv & Hu)]. pose proof (inv_shape _ _ _ _ Hinv) as Hs. unfold CoreOpenProtocolInformation. rewrite (acquire_ok db Ha). cbn [mbind result_bind].
  set (dba := set_acquired true db). assert (Hrel : CoreReleaseProtocolLock dba = Ok db) by (rewrite (release_ok dba eq_refl); unfold dba; by rewrite release_acquire).
  destruct (CoreGetProtocolInterface_spec Max F owner dba Hs h g) as (i & -> & [[-> Hno]|[Hi [v Hp]]]); cbn [mbind result_bind].
  { rewrite Z.eqb_refl. cbn [mbind result_bind]. rewrite Hrel. cbn [mbind result_bind]. exists EFI_NOT_FOUND, []. split; [done|]. apply information_absent. intros v [i Hi]. by apply (Hno i v). }
  rewrite (proj2 (Z.eqb_neq _ _) Hi). pose proof Hp as (ri & re & Hri & _). destruct (head_list Max F owner _ _ Hs i _ OFFSET_OpenList Hri) as [l Hl]; [left|].
  pose proof (shape_dlist Max F owner db Hs _ _ Hl) as Hd. rewrite (list_of_spec dba _ l Hd). cbn [mbind result_bind]. rewrite (interface_at_Some dba _ _ Hri). cbn [mbind result_bind].
  rewrite (inv_count _ _ _ _ Hinv i ri l Hri Hl), Z.eqb_refl. cbn [ASSERT mbind result_bind].
  destruct (records_of_list F owner dba i ri l) as [Hrec Hat]; [by destruct Hinv|done|done|].
  destruct (Allocate _ dba) eqn:Halloc; cbn [mbind result_bind].
  - rewrite (map_list_spec dba _ l _ (open_of (objects dba)) Hd Hat). cbn [mbind result_bind].
    rewrite Hrel. cbn [mbind result_bind]. eexists _, _. split; [done|]. by apply (information_done _ _ _ i v).
  - rewrite Hrel. cbn [mbind result_bind]. eexists _, _. split; [done|]. apply (information_no_memory db h g i v _ Hp Hrec).
    rewrite length_fmap. rewrite <-Halloc. unfold Allocate. do 2 f_equal. destruct (Z.eqb_spec (Z.of_nat (length l)) 0); lia.
Qed.

(** The protocols of a handle, each once. *)
Definition protocols_of db h (Buffer : list EFI_GUID) : Prop := NoDup Buffer /\ forall g, g ∈ Buffer <-> exists v, Installed db h g v.

Inductive protocols_result db h : EFI_STATUS -> list EFI_GUID -> Prop :=
| protocols_invalid : ~ IsHandle db h -> protocols_result db h EFI_INVALID_PARAMETER []
| protocols_no_memory Buffer : IsHandle db h -> protocols_of db h Buffer -> Allocate (8 * Z.of_nat (length Buffer)) db = None -> protocols_result db h EFI_OUT_OF_RESOURCES []
| protocols_done Buffer : IsHandle db h -> Buffer <> [] -> protocols_of db h Buffer -> protocols_result db h EFI_SUCCESS Buffer.

Definition guid_of (O : objs) (x : ptr) : EFI_GUID :=
  match O !! (x - OFFSET_InterfaceLink) with
  | Some (AnInterface r) => match O !! Protocol r with Some (AnEntry e) => ProtocolID e | _ => [] end
  | _ => []
  end.

Lemma guid_of_link F owner db h rh l x : inv Max F owner db -> objects db !! h = Some (AHandle rh) -> F !! (h + OFFSET_HandleProtocols) = Some l -> x ∈ l ->
  exists r e, objects db !! (x - OFFSET_InterfaceLink) = Some (AnInterface r) /\ Handle r = h /\ objects db !! Protocol r = Some (AnEntry e) /\
    guid_of (objects db) x = ProtocolID e.
Proof.
  intros Hinv Hh Hl Hx. pose proof (inv_shape _ _ _ _ Hinv) as Hs. apply (in_handle_protocols Max F owner _ _ Hs h rh l x Hh Hl) in Hx as (r & Hr & Hhr).
  destruct (sh_refers _ _ _ _ _ Hs _ _ Hr) as [_ [e He]]. exists r, e. do 3 (split; [done|]). unfold guid_of. by rewrite Hr, He.
Qed.

Lemma protocols_of_list F owner db h rh l : inv Max F owner db -> objects db !! h = Some (AHandle rh) -> F !! (h + OFFSET_HandleProtocols) = Some l ->
  protocols_of db h (guid_of (objects db) <$> l).
Proof.
  intros Hinv Hh Hl. pose proof (inv_shape _ _ _ _ Hinv) as Hs. pose proof (guid_of_link F owner db h rh l) as Hlink. split.
  - apply NoDup_fmap_2_strong; [|by destruct (family_NoDup _ _ _ _ (sh_family _ _ _ _ _ Hs) Hl)]. intros x y Hx Hy Heq.
    destruct (Hlink x Hinv Hh Hl Hx) as (r & e & Hr & Hhr & He & Hgx), (Hlink y Hinv Hh Hl Hy) as (s & f & Hs' & Hhs & Hf & Hgy).
    assert (e = f) as -> by (destruct e as [ge], f as [gf]; simpl in *; congruence).
    assert (x - OFFSET_InterfaceLink = y - OFFSET_InterfaceLink); [|lia]. apply (inv_once _ _ _ _ Hinv _ _ r s Hr Hs'); [congruence|]. by apply (inv_guid _ _ _ _ Hinv _ _ f).
  - intros g. rewrite list_elem_of_fmap. split.
    + intros (x & -> & Hx). destruct (Hlink x Hinv Hh Hl Hx) as (r & e & Hr & Hhr & He & ->). by exists (Interface r), (x - OFFSET_InterfaceLink), r, e.
    + intros (v & i & r & e & Hi & Hhi & _ & He & <-). exists (i + OFFSET_InterfaceLink). split; [|apply (in_handle_protocols Max F owner _ _ Hs h rh l _ Hh Hl); exists r; by rewrite Z.add_simpl_r].
      unfold guid_of. by rewrite Z.add_simpl_r, Hi, He.
Qed.

Lemma CoreProtocolsPerHandle_spec db h : valid Max db ->
  exists Status Buffer, CoreProtocolsPerHandle h true true db = Ok (Status, Buffer, db) /\ protocols_result db h Status Buffer.
Proof.
  intros [Ha (F & owner & Hinv & Hu)]. pose proof (inv_shape _ _ _ _ Hinv) as Hs. unfold CoreProtocolsPerHandle.
  rewrite (CoreValidateHandle_spec Max F owner db Hs). cbn [mbind result_bind]. destruct (handleb (objects db) h) eqn:Hb; cbn [EFI_ERROR].
  2: { eexists _, _. split; [done|]. apply protocols_invalid. intros Hh%handleb_true. congruence. }
  apply handleb_true in Hb as [rh Hh]. cbn [negb orb]. rewrite (acquire_ok db Ha). cbn [mbind result_bind]. set (dba := set_acquired true db).
  assert (Hrel : CoreReleaseProtocolLock dba = Ok db) by (rewrite (release_ok dba eq_refl); unfold dba; by rewrite release_acquire).
  destruct (head_list Max F owner _ _ Hs h _ OFFSET_HandleProtocols Hh) as [l Hl]; [left|]. pose proof (shape_dlist Max F owner db Hs _ _ Hl) as Hd.
  rewrite (list_of_spec dba _ l Hd). cbn [mbind result_bind]. assert (Hne : l <> []).
  { intros ->. apply (Hu h rh Hh); [by apply (object_not_null Max F owner db Hs h _ Hh)|done]. }
  rewrite (proj2 (Z.eqb_neq (Z.of_nat (length l)) 0)) by (destruct l; [done|simpl; lia]). assert (IsHandle db h) by by exists rh.
  destruct (Allocate _ dba) eqn:Halloc; cbn [mbind result_bind].
  - rewrite (map_list_spec dba _ l _ (guid_of (objects dba)) Hd).
    + cbn [mbind result_bind]. rewrite Hrel. cbn [mbind result_bind]. eexists _, _. split; [done|]. apply protocols_done; [done|by destruct l|]. by apply (protocols_of_list F owner db h rh l).
    + intros x Hx. destruct (guid_of_link F owner db h rh l x Hinv Hh Hl Hx) as (r & e & Hr & _ & He & Hg). rewrite (interface_at_Some dba _ _ Hr). cbn [mbind result_bind].
      rewrite (entry_at_Some dba _ _ He). cbn [mbind result_bind]. cbn [dba set_acquired objects]. by rewrite Hg.
  - rewrite Hrel. cbn [mbind result_bind]. eexists _, _. split; [done|]. apply (protocols_no_memory db h (guid_of (objects db) <$> l)); [done|by apply (protocols_of_list F owner db h rh l)|by rewrite length_fmap].
Qed.

(** ** Connecting the handles that are new *)

Definition newer (O : objs) (Key' : Z) (x : ptr) : bool := match O !! (x - OFFSET_AllHandles) with Some (AHandle r) => Key r >? Key' | _ => false end.

Lemma HandlesByKey_spec F owner db Key' : inv Max F owner db ->
  exists hs, HandlesByKey Key' db = Ok hs /\ NoDup hs /\ forall h, h ∈ hs <-> exists r, objects db !! h = Some (AHandle r) /\ Key' < Key r.
Proof.
  intros Hinv. pose proof (inv_shape _ _ _ _ Hinv) as Hs. destruct (handle_list Max F owner _ _ Hs) as [l Hl]. pose proof (fun x => in_handles Max F owner _ _ Hs l x Hl) as Hin.
  exists ((fun x => x - OFFSET_AllHandles) <$> List.filter (newer (objects db) Key') l). split; [|split].
  - unfold HandlesByKey. rewrite (search_iterate db gHandleList l) by (by apply (shape_dlist Max F owner db Hs)).
    rewrite (iterate_filter (newer (objects db) Key') OFFSET_AllHandles); [done|]. intros x acc [r Hr]%Hin. cbv zeta. rewrite (handle_at_Some _ _ _ Hr). cbn [mbind result_bind].
    unfold newer. by rewrite Hr.
  - apply NoDup_fmap_2_strong; [intros x y _ _ ?; lia|]. apply NoDup_ListNoDup, List.NoDup_filter, NoDup_ListNoDup. by destruct (family_NoDup _ _ _ _ (sh_family _ _ _ _ _ Hs) Hl).
  - intros h. rewrite list_elem_of_fmap. split.
    + intros (x & -> & Hx). apply list_elem_of_In, List.filter_In in Hx as [Hx Hn]. apply list_elem_of_In, Hin in Hx as [r Hr]. exists r. split; [done|]. unfold newer in Hn. rewrite Hr in Hn. lia.
    + intros (r & Hr & Hk). exists (h + OFFSET_AllHandles). rewrite Z.add_simpl_r. split; [done|]. apply list_elem_of_In, List.filter_In. split.
      * apply list_elem_of_In, Hin. exists r. by rewrite Z.add_simpl_r.
      * unfold newer. rewrite Z.add_simpl_r, Hr. lia.
Qed.

Lemma ConnectHandles_loop_spec hs : forall db, valid Max db -> exists db', ConnectHandles_loop hs db = Ok db' /\ valid Max db' /\ entries_stay db db'.
Proof.
  induction hs as [|h hs IH]; intros db Hv; cbn [ConnectHandles_loop]; [exists db; split; [done|]; split; [done|]; intros e g; done|].
  destruct (Connect_ok db h Hv) as (db1 & -> & Hv1 & Hst). cbn [mbind result_bind]. destruct (IH db1 Hv1) as (db' & -> & Hv' & Hst'). exists db'. split; [done|]. split; [done|].
  by apply (entries_stay_trans _ db1).
Qed.

Lemma CoreConnectHandlesByKey_spec db Key' : valid Max db ->
  exists hs db', (forall h, h ∈ hs <-> exists r, objects db !! h = Some (AHandle r) /\ Key' < Key r) /\ NoDup hs /\
    CoreConnectHandlesByKey Key' db = Ok db' /\ valid Max db' /\ ((db' = db /\ Allocate (8 * Z.of_nat (length hs)) db = None) \/ ConnectHandles_loop hs db = Ok db').
Proof.
  intros Hv. pose proof Hv as [Ha (F & owner & Hinv & Hu)]. unfold CoreConnectHandlesByKey. rewrite (acquire_ok db Ha). cbn [mbind result_bind]. set (dba := set_acquired true db).
  destruct (HandlesByKey_spec F owner dba Key') as (hs & -> & Hnd & Hhs); [by destruct Hinv|]. cbn [mbind result_bind]. rewrite (release_ok dba eq_refl). cbn [mbind result_bind].
  unfold dba. rewrite release_acquire by done. exists hs. destruct (Allocate _ db) eqn:Halloc.
  - destruct (ConnectHandles_loop_spec hs db Hv) as (db' & Heq & Hv' & _). rewrite Heq. exists db'. do 4 (split; [done|]). by right.
  - exists db. do 4 (split; [done|]). by left.
Qed.
End Info.
