(* ===== verification/HandleSafe.v ===== *)
(** * Handles and protocols: every call is safe

    Whatever the arguments: a call of a valid database returns and leaves a valid
    one.  The searches by protocol skip handles that have the mark of the search;
    that they end does not depend on which handles have it. *)

From S2P Require Import Prelude LinkedList ListFamily Handle HandleInv HandleLookup HandleShape HandleCreate HandleRemove HandleUninstall HandleDriver HandleOpen HandleInstall HandleErase HandleLocate HandleNotify HandleInfo.

Section Safe.
Context `{Platform} `{Drivers} (Verify : bool) (Max : nat) `{!PoolLaws Max} `{!DriverLaws Max}.
Implicit Types (F : lists) (db : Database).

(** ** Searching by protocol *)

(** From a place in the list of the protocol: the end of the list, or a link
    further on whose handle is marked. *)
Lemma GetNextLocateByProtocol_any F owner db pe re l2 : inv Max F owner db -> objects db !! pe = Some (AnEntry re) ->
  forall l1 x sk v fuel, F !! entry_head pe = Some (l1 ++ l2) -> x = List.last (entry_head pe :: l1) 0 -> (length l2 < fuel)%nat ->
  exists h v' pos db', GetNextLocateByProtocol_loop fuel (MkPosition sk x pe) v db = Ok (h, v', pos, db') /\
    ((h = NULL /\ db' = db) \/
     exists l y l' r r', l2 = l ++ y :: l' /\ pos = MkPosition sk y pe /\ h = handle_of (objects db) y /\ objects db !! h = Some (AHandle r) /\ db' = put h (AHandle r') db /\
       LocateRequest r' = mEfiLocateHandleRequest db).
Proof.
  intros Hinv Hpe. pose proof (inv_shape _ _ _ _ Hinv) as Hs.
  induction l2 as [|y l2 IH]; intros l1 x sk v fuel Hl Hx Hfuel; (destruct fuel as [|fuel]; [simpl in Hfuel; lia|]);
    cbn [GetNextLocateByProtocol_loop Pos SearchKey ProtEntry]; destruct (next_link Max F owner db Hs (entry_head pe) l1 _ x Hl Hx) as (n & -> & Hf);
    cbn [mbind result_bind]; rewrite Hf; cbn [List.hd]; change (pe + OFFSET_EntryProtocols) with (entry_head pe).
  - rewrite Z.eqb_refl. eexists _, _, _, db. split; [done|]. by left.
  - rewrite (link_not_head Max F owner db Hs _ _ _ _ Hl). assert (Hy : y ∈ l1 ++ y :: l2) by (apply elem_of_app; right; left).
    destruct (proj1 (in_entry_protocols Max F owner _ _ Hs pe re _ y Hpe Hl) Hy) as (ri & Hri & _). destruct (sh_refers _ _ _ _ _ Hs _ _ Hri) as [[rh Hrh] _].
    rewrite (interface_at_Some _ _ _ Hri). cbn [mbind result_bind]. rewrite (handle_at_Some _ _ _ Hrh). cbn [mbind result_bind].
    destruct (negb _).
    + eexists _, _, _, _. split; [done|]. right. exists [], y, l2, rh, (MkHandle (mEfiLocateHandleRequest db) (Key rh)). unfold handle_of. by rewrite Hri.
    + destruct (IH (l1 ++ [y]) y sk (Interface ri) fuel) as (h & v' & pos & db' & -> & Hc); [by rewrite <-app_assoc|by rewrite app_comm_cons, List.last_last|simpl in Hfuel; lia|].
      exists h, v', pos, db'. split; [done|]. destruct Hc as [?|(l & z & l' & r & r' & -> & Hc)]; [by left|]. right. by exists (y :: l), z, l', r, r'.
Qed.

(** The handles of some of the interfaces are found, in their order. *)
Lemma LocateHandle_protocol_any F owner pe re k : forall l1 l2 db x sk BS RS Buf fuel, (length l2 <= k)%nat -> inv Max F owner db -> objects db !! pe = Some (AnEntry re) ->
  F !! entry_head pe = Some (l1 ++ l2) -> x = List.last (entry_head pe :: l1) 0 -> (k < fuel)%nat -> 0 <= RS -> RS + 8 * Z.of_nat (length l2) < 2 ^ 64 ->
  exists l db', LocateHandle_loop fuel ByProtocol (MkPosition sk x pe) BS RS Buf db = Ok (RS + 8 * Z.of_nat (length l), Buf ++ fill BS RS (handle_of (objects db) <$> l), db') /\
    l `sublist_of` l2 /\ inv Max F owner db' /\ marks db db'.
Proof.
  induction k as [|k IH]; intros l1 l2 db x sk BS RS Buf fuel Hk Hinv Hpe Hl Hx Hfuel HRS Hbig; (destruct fuel as [|fuel]; [lia|]); cbn [LocateHandle_loop GetNext];
    unfold CoreGetNextLocateByProtocol; pose proof (inv_shape _ _ _ _ Hinv) as Hs; pose proof (dlist_size _ _ _ (shape_dlist Max F owner db Hs _ _ Hl)) as Hsz; rewrite length_app in Hsz;
    destruct (GetNextLocateByProtocol_any F owner db pe re l2 Hinv Hpe l1 x sk NULL (S (size (links db))) Hl Hx ltac:(lia)) as (h & v & pos & db1 & -> & Hc);
    cbn [mbind result_bind]; (destruct Hc as [[-> ->]|(l & y & l' & r & r' & -> & -> & -> & Hr & -> & Hreq)];
    [rewrite Z.eqb_refl; exists [], db; split; [cbn [fmap list_fmap length fill]; rewrite app_nil_r; do 3 f_equal; lia|split; [apply sublist_nil_l|split; [done|apply marks_refl]]]|]);
    rewrite length_app in Hk, Hbig; cbn [length] in Hk, Hbig; [lia|].
  rewrite (proj2 (Z.eqb_neq _ _)) by (by apply (object_not_null Max F owner db Hs _ _ Hr)). set (db1 := put _ _ _).
  assert (Hmk : marks db db1) by (by apply (marks_put db db _ r); [apply marks_refl| |]). replace (u64 (RS + 8)) with (RS + 8) by (symmetry; apply wrap_small; lia).
  assert (Hof : forall z, handle_of (objects db1) z = handle_of (objects db) z).
  { intros z. unfold handle_of. pose proof (fun s => mk_objects _ _ Hmk (z - OFFSET_ByProtocol) (AnInterface s) I) as Ho.
    destruct (objects db1 !! (z - OFFSET_ByProtocol)) as [[| | |s| |]|], (objects db !! (z - OFFSET_ByProtocol)) as [[| | |t| |]|]; try done;
      first [specialize (proj1 (Ho s) eq_refl) as E|specialize (proj2 (Ho t) eq_refl) as E]; by simplify_eq. }
  destruct (IH ((l1 ++ l) ++ [y]) l' db1 y sk BS (RS + 8) (if RS + 8 <=? BS then Buf ++ [handle_of (objects db) y] else Buf) fuel) as (k' & db' & -> & Hsub & Hinv' & Hmk');
    [lia|by apply (inv_put_handle Max F owner db _ r)| | | |lia|lia|lia|].
  - by apply (mk_objects _ _ Hmk pe (AnEntry re)).
  - rewrite Hl. by rewrite <-!app_assoc.
  - by rewrite app_comm_cons, List.last_last.
  - exists (y :: k'), db'. split; [|split; [apply sublist_inserts_l; by constructor|split; [done|by apply (marks_trans db db1)]]].
    rewrite (list_fmap_ext _ _ k' (fun _ z _ => Hof z)). cbn [fmap list_fmap fill length]. destruct (RS + 8 <=? BS); rewrite <-?app_assoc; cbn [app]; do 3 f_equal; lia.
Qed.

(** The lock is released after a search. *)
Lemma release_marks F owner db db' v : inv Max F owner db' -> used F (objects db) NULL -> marks (set_request v (set_acquired true db)) db' ->
  exists db1, CoreReleaseProtocolLock db' = Ok db1 /\ valid Max db1 /\ same_protocols db db1 /\ Calls db1 = Calls db /\ opens_kept db db1.
Proof.
  intros Hinv Hu Hmk. rewrite (release_ok db') by (by rewrite (sg_acquired _ _ (mk_globals _ _ Hmk))). eexists. split; [done|].
  split; [split; [done|]|split; [exact (marks_protocols _ _ Hmk)|split; [exact (sg_calls _ _ (mk_globals _ _ Hmk))|]]].
  - exists F, owner. split; [by apply inv_set_acquired|]. exact (marks_used F _ db' Hmk Hu).
  - apply opens_kept_links; [exact (mk_links _ _ Hmk)|]. intros q r. exact (proj1 (mk_objects _ _ Hmk q (AnOpen r) I)).
Qed.

(** A registration that has not been removed. *)
Definition live db (n : ptr) : Prop := exists r, objects db !! n = Some (ANotify r).

Lemma live_pending db n : valid Max db -> live db n -> exists xs, pending db n xs.
Proof. intros [_ Hc] [r Hr]. by apply (pending_exists Max db n r). Qed.

(** The end of a call of [CoreLocateHandle]. *)
Definition quiet db (n : ptr) (x : result (EFI_STATUS * option Z * list ptr * Database)) : Prop :=
  exists Status size Buffer db', x = Ok (Status, size, Buffer, db') /\ match size with Some n => 0 <= n | None => True end /\ valid Max db' /\ same_protocols db db' /\ Calls db' = Calls db /\ (live db n -> live db' n).

Lemma quiet_refl db n Status size : valid Max db -> match size with Some n => 0 <= n | None => True end -> quiet db n (Ok (Status, size, [], db)).
Proof. intros Hv Hsize. exists Status, size, [], db. do 3 (split; [done|]). split; [by split|by split]. Qed.

Lemma quiet_lock db n Status size : valid Max db -> match size with Some n => 0 <= n | None => True end ->
  quiet db n (let! db := CoreReleaseProtocolLock (set_acquired true db) in Ok (Status, size, [], db)).
Proof. intros Hv Hsize. rewrite (release_ok (set_acquired true db) eq_refl). cbn [mbind result_bind]. rewrite release_acquire by apply Hv. by apply quiet_refl. Qed.

Lemma located_size hs Size Status size Buffer : (Status, size, Buffer) = located hs Size -> 0 <= Size -> match size with Some n => 0 <= n | None => True end.
Proof. destruct hs as [|h hs]; intros [= -> -> ->] HS; [done|lia]. Qed.

(** Some of the handles with the protocol, each once. *)
Lemma CoreLocateHandle_some db g sk Size out : valid Max db -> 0 <= Size -> (0 < Size -> out = true) ->
  exists hs Status size Buffer db', CoreLocateHandle Verify Max ByProtocol (Some g) sk (Some Size) out db = Ok (Status, size, Buffer, db') /\
    valid Max db' /\ same_protocols db db' /\ Calls db' = Calls db /\ opens_kept db db' /\
    NoDup hs /\ (forall h, h ∈ hs -> exists v, Installed db h g v) /\ (Status, size, Buffer) = located hs Size.
Proof.
  intros Hv HSize Hout. pose proof Hv as [Ha (F & owner & Hinv & Hu)]. pose proof (inv_shape _ _ _ _ Hinv) as Hs. unfold CoreLocateHandle.
  replace ((Size >? 0) && negb out) with false by (symmetry; apply andb_false_iff; destruct (Z.gtb_spec Size 0); [right; by rewrite Hout by lia|by left]).
  rewrite (acquire_ok db Ha). cbn [mbind result_bind]. set (dba := set_acquired true db). set (dbr := set_request (u64 (mEfiLocateHandleRequest dba + 1)) dba).
  cbn [LocateHandle_start]. destruct (CoreFindProtocolEntry_lookup Max F owner dba Hs Verify g eq_refl) as (pe & Hpe & ->). cbn [mbind result_bind].
  destruct Hpe as [[-> Hno]|[Hn Hpe]].
  { rewrite Z.eqb_refl. cbn [EFI_ERROR]. rewrite (release_ok dba eq_refl). cbn [mbind result_bind]. unfold dba. rewrite release_acquire by done. exists [], EFI_NOT_FOUND, (Some Size), [], db.
    do 4 (split; [done|]). split; [by intros ? ? ? _|]. split; [constructor|]. split; [|done]. intros h Hh. by apply not_elem_of_nil in Hh. }
  rewrite (proj2 (Z.eqb_neq _ _) Hn). cbn [EFI_ERROR]. destruct (head_list Max F owner _ _ Hs pe _ OFFSET_EntryProtocols Hpe) as [l Hl]; [left|].
  assert (Hinvr : inv Max F owner dbr) by by apply inv_set_request, inv_set_acquired. pose proof (dlist_size _ _ _ (shape_dlist Max F owner db Hs _ _ Hl)) as Hsz.
  assert (Hb : 8 * Z.of_nat (length l) < 2 ^ 64).
  { apply (bytes_small Max F owner db _ l OFFSET_ByProtocol Hs Hl). intros x (r & Hr & _)%(in_entry_protocols Max F owner _ _ Hs pe _ l x Hpe Hl). by apply (object_block Max F owner _ _ Hs _ _ Hr). }
  destruct (LocateHandle_protocol_any F owner pe (MkEntry g) (length l) [] l dbr (entry_head pe) sk Size 0 [] (S (size (links dbr)))) as (l' & db1 & Heq1 & Hsub & Hinv1 & Hmk); try done.
  { cbn [dbr set_request links dba set_acquired]. lia. }
  destruct (listed_protocol Max F owner db pe g l Hinv Hpe Hl) as [Hnd Hin].
  change (pe + OFFSET_EntryProtocols) with (entry_head pe). fold dbr. rewrite Heq1. cbn [mbind result_bind app]. destruct (release_marks F owner db db1 _ Hinv1 Hu Hmk) as (db' & Heq & Hdb').
  change (handle_of (objects dbr) <$> l') with (handle_of (objects db) <$> l'). set (hs := handle_of (objects db) <$> l'). rewrite <-(length_fmap (handle_of (objects db)) l'). fold hs.
  assert (hs `sublist_of` (handle_of (objects db) <$> l)) as Hsubh by by apply fmap_sublist.
  exists hs. rewrite bool_decide_eq_false_2 by done. cbn [andb mbind result_bind]. rewrite Heq. cbn [mbind result_bind]. rewrite fill_zero.
  assert (valid Max db' /\ same_protocols db db' /\ Calls db' = Calls db /\ opens_kept db db' /\ NoDup hs /\ (forall h, h ∈ hs -> exists v, Installed db h g v)) as Hall.
  { destruct Hdb' as (? & ? & ? & ?). do 4 (split; [done|]). split; [by apply (sublist_NoDup _ _ Hnd Hsubh)|]. intros h Hh. apply Hin. by apply (elem_of_sublist _ _ _ Hh Hsubh). }
  destruct (decide (hs = [])) as [Hnil|Hne].
  - rewrite Hnil. cbn [length Z.of_nat Z.mul Z.add Z.eqb]. eexists _, _, _, db'. split; [done|]. rewrite <-Hnil. destruct Hall as (? & ? & ? & ? & ? & ?). do 6 (split; [done|]). rewrite Hnil. by rewrite take_nil.
  - assert (0 < Z.of_nat (length hs)) as Hpos by (destruct hs; [done|cbn [length]; lia]). rewrite Z.add_0_l, (proj2 (Z.eqb_neq _ 0)) by lia. eexists _, _, _, db'. split; [done|].
    destruct Hall as (? & ? & ? & ? & ? & ?). do 6 (split; [done|]). rewrite located_some by done. rewrite Z.gtb_ltb, Z.ltb_antisym. by destruct (8 * Z.of_nat (length hs) <=? Size).
Qed.

Lemma CoreLocateHandle_protocol_safe db g sk Size out : valid Max db -> 0 <= Size ->
  quiet db NULL (CoreLocateHandle Verify Max ByProtocol (Some g) sk (Some Size) out db).
Proof.
  intros Hv HSize. destruct ((Size >? 0) && negb out) eqn:Hout; [unfold CoreLocateHandle; rewrite Hout; by apply (quiet_refl db NULL EFI_INVALID_PARAMETER (Some Size))|].
  destruct (CoreLocateHandle_some db g sk Size out Hv HSize) as (hs & Status & size & Buffer & db' & -> & Hv' & Hsame & Hcalls & _ & _ & _ & Hloc); [intros ?; destruct out; [done|]; rewrite andb_true_r in Hout; lia|].
  exists Status, size, Buffer, db'. split; [done|]. split; [by apply (located_size _ Size _ _ _ Hloc)|]. do 3 (split; [done|]). intros [r Hr]. destruct Hv as [_ (F & owner & Hinv & _)].
  by destruct (object_not_null Max F owner db (inv_shape _ _ _ _ Hinv) _ _ Hr).
Qed.

Lemma CoreLocateHandle_safe db SearchType g sk (BufferSize : option Z) out : valid Max db -> (SearchType = ByRegisterNotify -> sk = NULL \/ live db sk) ->
  match BufferSize with Some Size => 0 <= Size | None => True end ->
  quiet db (if bool_decide (SearchType = ByRegisterNotify) then sk else NULL) (CoreLocateHandle Verify Max SearchType g sk BufferSize out db).
Proof.
  intros Hv Hkey HSize. set (n := if bool_decide _ then sk else NULL). destruct BufferSize as [Size|]; [|by apply (quiet_refl db n EFI_INVALID_PARAMETER None)].
  destruct ((Size >? 0) && negb out) eqn:Hout; [unfold CoreLocateHandle; rewrite Hout; by apply (quiet_refl db n EFI_INVALID_PARAMETER (Some Size))|].
  assert (Hb : 0 < Size -> out = true) by (intros ?; destruct out; [done|]; rewrite andb_true_r in Hout; lia). pose proof Hv as [Ha _].
  assert (Hbad : forall Status pos, LocateHandle_start Verify Max SearchType g sk (set_acquired true db) = Ok (Status, pos) -> EFI_ERROR Status = true ->
    quiet db n (CoreLocateHandle Verify Max SearchType g sk (Some Size) out db)).
  { intros Status pos Hst HE. unfold CoreLocateHandle. rewrite Hout, (acquire_ok db Ha). cbn [mbind result_bind]. rewrite Hst. cbn [mbind result_bind]. rewrite HE.
    by apply (quiet_lock db n Status (Some Size)). }
  destruct SearchType; [| |destruct g as [g|]; [by apply CoreLocateHandle_protocol_safe|]|]; [| |by eapply Hbad..].
  - destruct (CoreLocateHandle_list Verify Max db AllHandles [] sk Size out Hv) as (hs & Status & size & Buffer & db' & Heq & Hv' & Hsame & Hcalls & _ & Hloc); [by left|done..|].
    exists Status, size, Buffer, db'. split; [exact Heq|]. split; [by apply (located_size _ Size _ _ _ Hloc)|]. do 3 (split; [done|]). intros [r Hr]. destruct Hv as [_ (F & owner & Hinv & _)].
    by destruct (object_not_null Max F owner db (inv_shape _ _ _ _ Hinv) _ _ Hr).
  - destruct (Hkey eq_refl) as [->|Hlive]; [by eapply Hbad|]. destruct (live_pending db sk Hv Hlive) as [xs Hp].
    destruct (CoreLocateHandle_registration Verify Max db g sk xs Size out Hv Hp HSize Hb) as (Status & size & Buffer & db' & Heq & Hv' & Hsame & Hcalls & Hloc & Hp' & _).
    exists Status, size, Buffer, db'. split; [exact Heq|]. split; [by apply (located_size _ Size _ _ _ Hloc)|]. do 3 (split; [done|]). intros _. by apply pending_at in Hp'.
Qed.

(** The second search takes the size that the first one gave. *)
Lemma CoreLocateHandleBuffer_safe db SearchType g sk nout bout : valid Max db -> (SearchType = ByRegisterNotify -> sk = NULL \/ live db sk) ->
  exists Status n Buffer db', CoreLocateHandleBuffer Verify Max SearchType g sk nout bout db = Ok (Status, n, Buffer, db') /\
    valid Max db' /\ same_protocols db db' /\ Calls db' = Calls db.
Proof.
  intros Hv Hkey. unfold CoreLocateHandleBuffer. destruct (negb nout || negb bout); [by eexists _, _, _, db|].
  destruct (CoreLocateHandle_safe db SearchType g sk (Some 0) false Hv Hkey) as (Status & size & Buffer & db1 & -> & Hsize & Hv1 & Hsame1 & Hcalls1 & Hlive); [done|].
  cbn [mbind result_bind]. destruct (EFI_ERROR Status && _); [by eexists _, _, _, db1|]. destruct (Allocate _ db1); [|by eexists _, _, _, db1].
  destruct (CoreLocateHandle_safe db1 SearchType g sk size true Hv1) as (Status2 & size2 & Buffer2 & db2 & -> & _ & Hv2 & Hsame2 & Hcalls2 & _); [|done|].
  - intros Htype. destruct (Hkey Htype) as [?|?]; [by left|right]. rewrite bool_decide_eq_true_2 in Hlive by done. by apply Hlive.
  - cbn [mbind result_bind]. eexists _, _, _, db2. split; [done|]. split; [done|]. split; [by apply (same_protocols_trans db db1)|]. congruence.
Qed.

(** ** Locating an interface *)

Lemma CoreLocateProtocol_safe db g n out : valid Max db -> n = NULL \/ live db n ->
  exists Status v db', CoreLocateProtocol Verify Max g n out db = Ok (Status, v, db') /\ valid Max db' /\ same_protocols db db' /\ Calls db' = Calls db.
Proof.
  intros Hv Hn. destruct g as [g|]; [|by eexists _, _, db]. destruct out; [|by eexists _, _, db].
  destruct Hn as [->|Hlive].
  2: { destruct (live_pending db n Hv Hlive) as [xs Hp]. destruct (CoreLocateProtocol_registration Verify Max db g n xs Hv Hp) as (db' & -> & Hv' & Hsame & Hcalls & _).
       destruct xs; by eexists _, _, db'. }
  pose proof Hv as [Ha (F & owner & Hinv & Hu)]. pose proof (inv_shape _ _ _ _ Hinv) as Hs. unfold CoreLocateProtocol. cbn [negb]. rewrite Ha, (acquire_ok db Ha).
  cbn [mbind result_bind]. rewrite Z.eqb_refl. set (dbr := set_request _ _). assert (Hinvr : inv Max F owner dbr) by by apply inv_set_request, inv_set_acquired.
  destruct (CoreFindProtocolEntry_lookup Max F owner dbr Hs Verify g eq_refl) as (pe & Hpe & ->). cbn [mbind result_bind].
  destruct (release_marks F owner db dbr _ Hinvr Hu (marks_refl _)) as (db0 & Heq0 & Hv0 & Hs0 & Hc0 & _). destruct Hpe as [[-> Hno]|[Hpn Hpe]].
  { rewrite Z.eqb_refl. cbn [mbind result_bind]. rewrite Z.eqb_refl. cbn [mbind result_bind]. rewrite Heq0. cbn [mbind result_bind]. by eexists _, _, db0. }
  rewrite (proj2 (Z.eqb_neq _ _) Hpn). destruct (head_list Max F owner _ _ Hs pe _ OFFSET_EntryProtocols Hpe) as [l Hl]; [left|].
  pose proof (dlist_size _ _ _ (shape_dlist Max F owner db Hs _ _ Hl)) as Hsz. unfold CoreGetNextLocateByProtocol.
  destruct (GetNextLocateByProtocol_any F owner dbr pe (MkEntry g) l Hinvr Hpe [] (entry_head pe) NULL NULL (S (size (links dbr))) Hl eq_refl) as (h & v & pos & db1 & Heq & Hc).
  { cbn [dbr set_request links set_acquired]. lia. }
  change (pe + OFFSET_EntryProtocols) with (entry_head pe). rewrite Heq. cbn [mbind result_bind]. destruct Hc as [[-> ->]|(l0 & y & l' & r & r' & _ & _ & _ & Hr & -> & Hreq)].
  - rewrite Z.eqb_refl. cbn [mbind result_bind]. rewrite Heq0. cbn [mbind result_bind]. by eexists _, _, db0.
  - rewrite (proj2 (Z.eqb_neq _ _)) by (by apply (object_not_null Max F owner db Hs _ _ Hr)). cbn [negb mbind result_bind].
    destruct (release_marks F owner db (put h (AHandle r') dbr) (mEfiLocateHandleRequest dbr) (inv_put_handle Max F owner dbr h r r' Hinvr Hr) Hu) as (db2 & -> & Hv2 & Hs2 & Hc2 & _).
    + apply (marks_put _ _ _ r); [apply marks_refl|done|done].
    + cbn [mbind result_bind]. by eexists _, _, db2.
Qed.
End Safe.
