(* ===== verification/HandleProgram.v ===== *)
(** * Handles and protocols: programs

    The calls of the services as data, and sequences of them.  What a call needs
    is little: a registration that is passed as a key must not have been
    removed; everything else is checked by the code. *)

From S2P Require Import Prelude LinkedList ListFamily Handle HandleInv HandleLookup HandleDriver HandleOpen HandleInstall HandleErase HandleLocate HandleNotify HandleInfo HandleSafe.

Inductive call :=
| InstallProtocolInterface (UserHandle : option ptr) (Protocol : option EFI_GUID) (InterfaceType Interface : Z) (Notify : bool)
| UninstallProtocolInterface (UserHandle : ptr) (Protocol : option EFI_GUID) (Interface : Z)
| UninstallMultipleProtocolInterfaces (Handle : ptr) (args : list (EFI_GUID * Z))
| ReinstallProtocolInterface (UserHandle : ptr) (Protocol : option EFI_GUID) (OldInterface NewInterface : Z)
| HandleProtocol (UserHandle : ptr) (Protocol : option EFI_GUID) (InterfaceOut : bool)
| OpenProtocol (UserHandle : ptr) (Protocol : option EFI_GUID) (InterfaceOut : bool) (ImageHandle ControllerHandle : ptr) (Attributes : Z)
| CloseProtocol (UserHandle : ptr) (Protocol : option EFI_GUID) (AgentHandle ControllerHandle : ptr)
| OpenProtocolInformation (UserHandle : ptr) (Protocol : EFI_GUID)
| ProtocolsPerHandle (UserHandle : ptr) (BufferOut CountOut : bool)
| ConnectHandlesByKey (Key : Z)
| RegisterProtocolNotify (Protocol : option EFI_GUID) (Event : ptr) (RegistrationOut : bool)
| UnregisterProtocolNotify (Event : ptr)
| LocateHandle (SearchType : EFI_LOCATE_SEARCH_TYPE) (Protocol : option EFI_GUID) (SearchKey : ptr) (BufferSize : option N) (BufferOut : bool)
| LocateHandleBuffer (SearchType : EFI_LOCATE_SEARCH_TYPE) (Protocol : option EFI_GUID) (SearchKey : ptr) (NumberOut BufferOut : bool)
| LocateProtocol (Protocol : option EFI_GUID) (Registration : ptr) (InterfaceOut : bool).

Section Program.
Context `{Platform} `{Drivers} (Verify : bool) (Max : nat).
Implicit Types (db : Database).

(** The status and the database after a call; [Database] alone is a success. *)
Definition first {A} (x : result (EFI_STATUS * A * Database)) : result (EFI_STATUS * Database) := let! (Status, _, db) := x in Ok (Status, db).

Definition run (c : call) (db : Database) : result (EFI_STATUS * Database) :=
  match c with
  | InstallProtocolInterface hd g t v n => first (CoreInstallProtocolInterfaceNotify Verify Max hd g t v n db)
  | UninstallProtocolInterface hd g v => CoreUninstallProtocolInterface Verify Max hd g v db
  | UninstallMultipleProtocolInterfaces hd args => CoreUninstallMultipleProtocolInterfaces Verify Max hd args db
  | ReinstallProtocolInterface hd g v v' => CoreReinstallProtocolInterface Verify Max hd g v v' db
  | HandleProtocol hd g out => first (CoreHandleProtocol Verify Max hd g out db)
  | OpenProtocol hd g out ih ch attr => first (CoreOpenProtocol Verify Max hd g out ih ch attr db)
  | CloseProtocol hd g ah ch => CoreCloseProtocol Max hd g ah ch db
  | OpenProtocolInformation hd g => first (CoreOpenProtocolInformation hd g db)
  | ProtocolsPerHandle hd b n => first (CoreProtocolsPerHandle hd b n db)
  | ConnectHandlesByKey k => let! db := CoreConnectHandlesByKey k db in Ok (EFI_SUCCESS, db)
  | RegisterProtocolNotify g ev out => first (CoreRegisterProtocolNotify Verify Max g ev out db)
  | UnregisterProtocolNotify ev => CoreUnregisterProtocolNotify Max ev db
  | LocateHandle t g k n b => let! (Status, _, _, db) := CoreLocateHandle Verify Max t g k (Z.of_N <$> n) b db in Ok (Status, db)
  | LocateHandleBuffer t g k n b => let! (Status, _, _, db) := CoreLocateHandleBuffer Verify Max t g k n b db in Ok (Status, db)
  | LocateProtocol g r out => first (CoreLocateProtocol Verify Max g r out db)
  end.

Definition legal (c : call) db : Prop :=
  match c with
  | LocateHandle ByRegisterNotify _ k _ _ | LocateHandleBuffer ByRegisterNotify _ k _ _ | LocateProtocol _ k _ => k = NULL \/ live db k
  | _ => True
  end.

Definition run_all : list call -> Database -> result (list EFI_STATUS * Database) := run_each run.
Definition legal_all : list call -> Database -> Prop := legal_each run legal.

Context `{!PoolLaws Max} `{!DriverLaws Max}.

(** ** Arguments that the specifications leave out *)

Lemma open_safe db hd g out ih ch attr : valid Max db -> exists Status v db', CoreOpenProtocol Verify Max hd g out ih ch attr db = Ok (Status, v, db') /\ valid Max db'.
Proof.
  intros Hv. destruct g as [g|]; [|by eexists _, _, db]. destruct (negb (attr =? EFI_OPEN_PROTOCOL_TEST_PROTOCOL) && negb out) eqn:Hout.
  - exists EFI_INVALID_PARAMETER, None, db. split; [|done]. unfold CoreOpenProtocol. by rewrite Hout.
  - destruct (CoreOpenProtocol_spec Verify Max db hd g out ih ch attr Hv) as (Status & v & db' & Heq & Hv' & _); [|by exists Status, v, db'].
    destruct (Z.eqb_spec attr EFI_OPEN_PROTOCOL_TEST_PROTOCOL); [by left|right]. by destruct out.
Qed.

Lemma install_safe db hd g t v n : valid Max db ->
  exists Status h' db', CoreInstallProtocolInterfaceNotify Verify Max hd g t v n db = Ok (Status, h', db') /\ valid Max db'.
Proof.
  intros Hv. destruct hd as [hd|]; [|by eexists _, _, db]. destruct g as [g|]; [|by eexists _, _, db]. destruct (Z.eqb_spec t EFI_NATIVE_INTERFACE) as [->|Ht].
  - destruct (CoreInstallProtocolInterfaceNotify_spec Verify Max db hd g v n Hv) as (Status & h' & db' & Heq & Hv' & _). by exists Status, h', db'.
  - exists EFI_INVALID_PARAMETER, (Some hd), db. split; [|done]. unfold CoreInstallProtocolInterfaceNotify. by rewrite (proj2 (Z.eqb_neq _ _) Ht).
Qed.

(** A function that validates its handle first. *)
Lemma validated_safe db hd {A} (a : EFI_STATUS -> A) (k : result (A * Database)) : valid Max db -> (exists x db', k = Ok (x, db') /\ valid Max db') ->
  exists x db', (let! Status := CoreValidateHandle db hd in if EFI_ERROR Status then Ok (a Status, db) else k) = Ok (x, db') /\ valid Max db'.
Proof.
  intros Hv Hk. pose proof Hv as [_ (F & owner & Hinv & _)]. rewrite (CoreValidateHandle_spec Max F owner db (inv_shape _ _ _ _ Hinv)). cbn [mbind result_bind].
  destruct (handleb (objects db) hd); cbn [EFI_ERROR]; [done|]. by eexists _, db.
Qed.

Lemma uninstall_safe db hd g v : valid Max db -> exists Status db', CoreUninstallProtocolInterface Verify Max hd g v db = Ok (Status, db') /\ valid Max db'.
Proof.
  intros Hv. destruct g as [g|]; [|by eexists _, db]. destruct (CoreUninstallProtocolInterface_spec Verify Max db hd g v Hv) as (Status & db' & Heq & Hv' & _). by exists Status, db'.
Qed.

Lemma reinstall_safe db hd g v v' : valid Max db -> exists Status db', CoreReinstallProtocolInterface Verify Max hd g v v' db = Ok (Status, db') /\ valid Max db'.
Proof.
  intros Hv. destruct g as [g|].
  - destruct (CoreReinstallProtocolInterface_spec Verify Max db hd g v v' Hv) as (Status & db' & Heq & Hv' & _). by exists Status, db'.
  - apply (validated_safe db hd (fun Status => Status)); [done|]. by eexists _, db.
Qed.

Lemma close_safe db hd g ah ch : valid Max db -> exists Status db', CoreCloseProtocol Max hd g ah ch db = Ok (Status, db') /\ valid Max db'.
Proof.
  intros Hv. destruct g as [g|].
  - destruct (CoreCloseProtocol_spec Max db hd g ah ch Hv) as (Status & db' & Heq & Hv' & _). by exists Status, db'.
  - apply (validated_safe db hd (fun Status => Status)); [done|]. apply (validated_safe db ah (fun Status => Status)); [done|].
    destruct (negb (ch =? NULL)); [apply (validated_safe db ch (fun Status => Status)); [done|]|cbn [mbind result_bind EFI_ERROR]]; by eexists _, db.
Qed.

Lemma register_safe db g ev out : valid Max db -> exists Status r db', CoreRegisterProtocolNotify Verify Max g ev out db = Ok (Status, r, db') /\ valid Max db'.
Proof.
  intros Hv. destruct g as [g|]; [|by eexists _, _, db]. destruct out; [|unfold CoreRegisterProtocolNotify; rewrite orb_true_r; by eexists _, _, db].
  destruct (Z.eqb_spec ev NULL) as [->|Hev]; [by eexists _, _, db|]. destruct (registered_exists Max db g (proj2 Hv)) as [c Hc].
  destruct (CoreRegisterProtocolNotify_spec Verify Max db g ev c Hv Hev Hc) as (Status & r & db' & Heq & Hv' & _). by exists Status, r, db'.
Qed.

Lemma per_handle_safe db hd b n : valid Max db -> exists Status l db', CoreProtocolsPerHandle hd b n db = Ok (Status, l, db') /\ valid Max db'.
Proof.
  intros Hv. destruct (negb b || negb n) eqn:Hout.
  - assert (He : exists x db', CoreProtocolsPerHandle hd b n db = Ok (x, db') /\ valid Max db'); [|by destruct He as ([Status l] & db' & ? & ?); exists Status, l, db'].
    unfold CoreProtocolsPerHandle. rewrite Hout. apply (validated_safe db hd (fun Status => (Status, []))); [done|]. by eexists _, db.
  - destruct b, n; try done. destruct (CoreProtocolsPerHandle_spec Max db hd Hv) as (Status & l & Heq & _). by exists Status, l, db.
Qed.

(** ** Several interfaces at once *)

Lemma uninstall_loop_safe hd args : forall Index db, valid Max db ->
  exists Status n db', UninstallMultiple_loop Verify Max hd args Index db = Ok (Status, n, db') /\ valid Max db'.
Proof.
  induction args as [|[g v] args IH]; intros Index db Hv; cbn [UninstallMultiple_loop]; [by eexists _, _, db|].
  destruct (uninstall_safe db hd (Some g) v Hv) as (Status & db1 & -> & Hv1). cbn [mbind result_bind]. destruct (EFI_ERROR Status); [by eexists _, _, db1|]. by apply IH.
Qed.

Lemma reinstall_first_safe args : forall hd Index db, valid Max db -> exists db', ReinstallFirst Verify Max hd args Index db = Ok db' /\ valid Max db'.
Proof.
  induction args as [|[g v] args IH]; intros hd Index db Hv; cbn [ReinstallFirst]; [by eexists db|]. destruct Index as [|[|Index]]; [by eexists db..|].
  unfold CoreInstallProtocolInterface. destruct (install_safe db (Some hd) (Some g) EFI_NATIVE_INTERFACE v true Hv) as (Status & h' & db1 & -> & Hv1). cbn [mbind result_bind]. by apply IH.
Qed.

(** ** Every call *)

Lemma run_safe c db : valid Max db -> legal c db -> exists Status db', run c db = Ok (Status, db') /\ valid Max db'.
Proof.
  intros Hv Hl. destruct c as [hd g t v n|hd g v|hd args|hd g v v'|hd g out|hd g out ih ch attr|hd g ah ch|hd g|hd b n|k|g ev out|ev|t g k n b|t g k n b|g r out]; cbn [run].
  - destruct (install_safe db hd g t v n Hv) as (Status & ? & db' & -> & ?). by exists Status, db'.
  - by apply uninstall_safe.
  - unfold CoreUninstallMultipleProtocolInterfaces. destruct (uninstall_loop_safe hd args 0 db Hv) as (Status & m & db1 & -> & Hv1). cbn [mbind result_bind].
    destruct (EFI_ERROR Status); [|by exists Status, db1]. destruct (reinstall_first_safe args hd m db1 Hv1) as (db' & -> & Hv'). by exists Status, db'.
  - by apply reinstall_safe.
  - destruct (open_safe db hd g out gDxeCoreImageHandle NULL EFI_OPEN_PROTOCOL_BY_HANDLE_PROTOCOL Hv) as (Status & ? & db' & Heq & ?). unfold CoreHandleProtocol. rewrite Heq. by exists Status, db'.
  - destruct (open_safe db hd g out ih ch attr Hv) as (Status & ? & db' & -> & ?). by exists Status, db'.
  - by apply close_safe.
  - destruct (CoreOpenProtocolInformation_spec Max db hd g Hv) as (Status & l & -> & _). by exists Status, db.
  - destruct (per_handle_safe db hd b n Hv) as (Status & ? & db' & -> & ?). by exists Status, db'.
  - destruct (CoreConnectHandlesByKey_spec Max db k Hv) as (hs & db' & _ & _ & -> & Hv' & _). by exists EFI_SUCCESS, db'.
  - destruct (register_safe db g ev out Hv) as (Status & ? & db' & -> & ?). by exists Status, db'.
  - destruct (CoreUnregisterProtocolNotify_spec Max db ev Hv) as (db' & -> & Hv' & _). by exists EFI_SUCCESS, db'.
  - destruct (CoreLocateHandle_safe Verify Max db t g k (Z.of_N <$> n) b Hv) as (Status & ? & ? & db' & -> & _ & Hv' & _); [by intros ->|destruct n as [n|]; [simpl; lia|done]|].
    by exists Status, db'.
  - destruct (CoreLocateHandleBuffer_safe Verify Max db t g k n b Hv) as (Status & ? & ? & db' & -> & Hv' & _); [by intros ->|]. by exists Status, db'.
  - destruct (CoreLocateProtocol_safe Verify Max db g r out Hv Hl) as (Status & ? & db' & -> & Hv' & _). by exists Status, db'.
Qed.

(** ** What a valid database is like *)

(** Every handle has an interface, and none twice of a protocol; who has an
    interface open exclusively is its only driver. *)
Record well_used db : Prop := {
  wu_handle : forall h, IsHandle db h -> h <> NULL /\ exists g v, Installed db h g v;
  wu_installed : forall h g v, Installed db h g v -> IsHandle db h;
  wu_once : forall i j h g v w, provides (objects db) i h g v -> provides (objects db) j h g w -> i = j;
  wu_exclusive : forall i h g v q r q' r', provides (objects db) i h g v -> opened db i q r -> opened db i q' r' -> excludes r = true -> restricts r' = true -> q = q' }.

Lemma valid_well_used db : valid Max db -> well_used db.
Proof.
  intros [_ (F & owner & Hinv & Hu)]. pose proof (inv_shape _ _ _ _ Hinv) as Hs. split.
  - intros h [rh Hh]. pose proof (object_not_null Max F owner db Hs h _ Hh) as Hn. split; [done|]. destruct (head_list Max F owner _ _ Hs h _ OFFSET_HandleProtocols Hh) as [l Hl]; [left|].
    destruct l as [|x l]; [by destruct (Hu h rh Hh Hn)|]. destruct (proj1 (in_handle_protocols Max F owner _ _ Hs h rh _ x Hh Hl)) as (r & Hr & Hhr); [left|].
    destruct (sh_refers _ _ _ _ _ Hs _ _ Hr) as [_ [e He]]. by exists (ProtocolID e), (Interface r), (x - OFFSET_InterfaceLink), r, e.
  - intros h g v (i & r & e & Hi & <- & _). apply (sh_refers _ _ _ _ _ Hs _ _ Hi).
  - intros i j h g v w (r & e & Hi & Hh & _ & He & Hg) (s & f & Hj & Hh' & _ & Hf & Hg'). apply (inv_once _ _ _ _ Hinv i j r s Hi Hj); [congruence|].
    assert (e = f) as -> by (destruct e, f; simpl in *; congruence). by apply (inv_guid _ _ _ _ Hinv _ _ f).
  - intros i h g v q r q' r' (ri & _ & Hi & _) [Hq Ho]%(opened_owner Max F owner db Hs i ri _ _ Hi) [Hq' Ho']%(opened_owner Max F owner db Hs i ri _ _ Hi) Hr Hr'.
    by apply (inv_exclusive _ _ _ _ Hinv q q' r r' i).
Qed.

Lemma initial_valid : valid Max initial.
Proof.
  split; [done|]. exists {[mProtocolDatabase := []; gHandleList := []]}, ∅.
  assert (Hcase : forall hd (l : list ptr), ({[mProtocolDatabase := []; gHandleList := []]} : lists) !! hd = Some l -> l = [] /\ (hd = mProtocolDatabase \/ hd = gHandleList)).
  { intros hd l [[<- <-]|[_ Hl]]%lookup_insert_Some; [by auto|]. apply lookup_singleton_Some in Hl as [<- <-]. by auto. }
  split; [split; [split| | | | |]|]; try done.
  - split.
    + intros hd l [-> [-> | ->]]%Hcase; (split; [apply NoDup_singleton|split; [by rewrite list_elem_of_singleton|by repeat split]]).
    + intros hd1 l1 hd2 l2 x [-> _]%Hcase [-> _]%Hcase Hx1 Hx2. apply list_elem_of_singleton in Hx1 as <-. by apply list_elem_of_singleton in Hx2.
  - intros hd. split.
    + intros [l [_ [-> | ->]]%Hcase]; [right; by left|by left].
    + intros [->|[->|(p & o & k & Hp & _)]]; [by eexists..|]. done.
  - intros hd x. split; [intros (l & [-> _]%Hcase & Hx); by apply elem_of_nil in Hx|]. intros (p & o & k & Hp & _). done.
  - intros p [o Ho]. done.
Qed.

Lemma run_all_safe cs db : valid Max db -> legal_all cs db ->
  exists Statuses db', run_all cs db = Ok (Statuses, db') /\ length Statuses = length cs /\ valid Max db'.
Proof. apply run_each_safe. intros c db0. apply run_safe. Qed.
End Program.
