(* ===== verification/HandleSample.v ===== *)
(** * Handles and protocols: a platform

    Pool blocks, and a driver that manages one protocol: it closes it when it is
    disconnected.  They meet the laws. *)

From S2P Require Import Prelude LinkedList ListFamily Handle HandleInv HandleLookup HandleDriver HandleOpen HandleInstall HandleErase HandleLocate HandleNotify HandleInfo HandleSafe HandleProgram.

Definition sample_blocks : list ptr := (fun n => 0x3000 + 0x100 * Z.of_nat n) <$> seq 0 24.
Definition sample_guid (n : Z) : EFI_GUID := replicate 16 n.

(** The uninitialised links of a block point nowhere. *)
#[local] Instance SamplePlatform : Platform := {|
  AllocatePool _ used := List.find (fun p => bool_decide (p ∉ used)) sample_blocks;
  Uninitialised _ := MkLink 0xAF 0xAF;
  gDxeCoreImageHandle := 0x3200 |}.

Abbreviation sample_max := 100%nat.

#[local] Instance SamplePool : PoolLaws sample_max.
Proof.
  refine {| Blocks := list_to_set sample_blocks |}.
  - intros p q. rewrite !elem_of_list_to_set. intros (n & -> & _)%list_elem_of_fmap (m & -> & _)%list_elem_of_fmap Hne. unfold block_size. lia.
  - intros p (n & -> & _)%elem_of_list_to_set%list_elem_of_fmap. lia.
  - right. apply Nat.ltb_lt. by vm_compute.
  - apply Z.ltb_lt. by vm_compute.
  - intros n used p [Hin Hp]%List.find_some. split; [by apply elem_of_list_to_set, list_elem_of_In|]. by apply bool_decide_eq_true in Hp.
  - done.
Defined.

(** The driver manages the protocol 7.  It is connected by its clients. *)
Definition drives (a : ptr) (x : ptr * object) : bool := match x with (_, AnOpen r) => (AgentHandle r =? a) && by_driver r | _ => false end.

Definition stop (db : Database) (h a : ptr) : result (EFI_STATUS * Database) :=
  let! (_, db) := CoreCloseProtocol sample_max h (Some (sample_guid 7)) a h db in
  Ok (if existsb (drives a) (map_to_list (objects db)) then EFI_ACCESS_DENIED else EFI_SUCCESS, db).

#[local] Instance SampleDrivers : Drivers := {|
  CoreDisconnectController := stop;
  CoreConnectController db _ := Ok db |}.

Lemma drives_none db a q r : existsb (drives a) (map_to_list (objects db)) = false -> objects db !! q = Some (AnOpen r) -> by_driver r = true -> AgentHandle r <> a.
Proof.
  intros Hno Hq Hd Ha. apply not_true_iff_false in Hno. apply Hno, existsb_exists. exists (q, AnOpen r). split; [by apply list_elem_of_In, elem_of_map_to_list|].
  cbn [drives]. by rewrite Ha, Z.eqb_refl, Hd.
Qed.

Lemma close_stays db h g ah ch Status db' : close_result db h g ah ch Status db' -> entries_stay db db' /\
  forall i ri, objects db !! i = Some (AnInterface ri) -> same_interface db db' i /\ no_new_users db db' i.
Proof.
  intros [?|? ?|i v Status' db1 _ (ri & re & Hi & _) Hcl _]; [split; [by intros ? ?|by intros; split; [apply same_interface_refl|apply no_new_users_refl]]..|].
  split; [intros e g' He; by apply (closed_lookup db db1 i ri _ e (AnEntry g') Hcl Hi I)|]. pose proof Hcl as (Hsame & _ & Hop & Hother). intros j rj Hj. split.
  - destruct (decide (j = i)) as [->|Hne]; [done|]. intros r Hr. exists r. split; [|done]. apply (Hother j _ Hne). split; [done|by intros (? & ? & _)].
  - split; intros q r [Hq _]%(Hop j rj q r Hj) Hr; by exists q, r.
Qed.

#[local] Instance SampleDriverLaws : DriverLaws sample_max.
Proof.
  split.
  - intros db h a Hv. destruct (CoreCloseProtocol_spec sample_max db h (sample_guid 7) a h Hv) as (Status & db' & Heq & Hv' & Hres). destruct (close_stays _ _ _ _ _ _ _ Hres) as [Hst Hi].
    cbn [CoreDisconnectController SampleDrivers]. unfold stop. rewrite Heq. cbn [mbind result_bind]. eexists _, db'. split; [done|]. split; [done|]. split; [done|].
    destruct (existsb _ _) eqn:Hno; [done|]. intros _ i ri q r Hri _ _ _ _. destruct (Hi i ri Hri) as [Hsame Hnew]. do 2 (split; [done|]). intros q' r' [Hq' _]. by apply (drives_none db' a q').
  - intros db h Hv. exists db. split; [done|]. split; [done|]. by intros ? ?.
Qed.

(** The state after some calls. *)
Definition database_of {A} (x : result (A * Database)) : Database := match x with Ok (_, db) => db | _ => initial end.

(** No handle has the mark of the next search, decided. *)
Definition unmarkedb (db : Database) : bool :=
  forallb (fun x => match x.2 with AHandle r => negb (LocateRequest r =? u64 (mEfiLocateHandleRequest db + 1)) | _ => true end) (map_to_list (objects db)).

Lemma unmarkedb_true db : unmarkedb db = true -> unmarked db.
Proof.
  intros Hall p r Hp. apply (proj1 (forallb_forall _ _)) with (x := (p, AHandle r)) in Hall; [by apply negb_true_iff, Z.eqb_neq in Hall|].
  by apply list_elem_of_In, elem_of_map_to_list.
Qed.

(** A database that the examples start from. *)
Module Sample.
Abbreviation g7 := (sample_guid 7).
Abbreviation g8 := (sample_guid 8).
Abbreviation runs := (run_all true sample_max).

(** A handle with the protocol 7, and the handle of a driver. *)
Definition setup : list call := [
  InstallProtocolInterface (Some NULL) (Some g7) EFI_NATIVE_INTERFACE 0x70 true;
  InstallProtocolInterface (Some NULL) (Some g8) EFI_NATIVE_INTERFACE 0x80 true ].
Definition ready : Database := database_of (runs setup initial).

Definition device : ptr := 0x3200.
Definition driver : ptr := 0x3500.

Lemma run_valid cs db : valid sample_max db -> legal_all true sample_max cs db -> valid sample_max (database_of (runs cs db)).
Proof. intros Hv Hl. by destruct (run_all_safe true sample_max cs db Hv Hl) as (Statuses & db' & -> & _ & Hv'). Qed.

Lemma ready_valid : valid sample_max ready.
Proof. apply run_valid; [apply initial_valid|]. by vm_compute. Qed.

Lemma ready_unmarked : unmarked ready.
Proof. apply unmarkedb_true. by vm_compute. Qed.
End Sample.
