(* ===== verification/HandleTheorems.v ===== *)
(** * Handles and protocols: the theorems

    What the handle and protocol database of the DXE core promises, with any
    pool and any drivers that keep to the UEFI driver model. *)

From S2P Require Import Prelude LinkedList ListFamily Handle HandleInv HandleLookup HandleDriver HandleOpen HandleInstall HandleErase HandleLocate HandleNotify HandleInfo HandleSafe HandleProgram HandleSample.

Section Drain.
Context `{Platform} (Verify : bool) (Max : nat) `{!PoolLaws Max}.
Implicit Types (db : Database).

(** A client that asks for the handles of a registration, one at a time, until
    there is none. *)
Fixpoint drain (fuel : nat) (n : ptr) (db : Database) : result (list ptr * Database) :=
  match fuel with
  | O => NoFuel
  | S fuel =>
      let! (Status, _, Buffer, db) := CoreLocateHandle Verify Max ByRegisterNotify None n (Some 8) true db in
      if EFI_ERROR Status then Ok ([], db) else
      let! (hs, db) := drain fuel n db in
      Ok (Buffer ++ hs, db)
  end.

Lemma interface_provides db i r : valid Max db -> objects db !! i = Some (AnInterface r) -> exists g, provides (objects db) i (Handle r) g (Interface r).
Proof.
  intros [_ (F & owner & Hinv & _)] Hi. destruct (sh_refers _ _ _ _ _ (inv_shape _ _ _ _ Hinv) i _ Hi) as [_ [e He]]. by exists (ProtocolID e), r, e.
Qed.

Lemma handle_of_same db db' x : valid Max db -> valid Max db' -> same_protocols db db' -> handle_of (objects db') x = handle_of (objects db) x.
Proof.
  intros Hv Hv' [_ Hsame]. unfold handle_of. pose proof (interface_provides db (x - OFFSET_ByProtocol)) as H1. pose proof (interface_provides db' (x - OFFSET_ByProtocol)) as H2.
  destruct (objects db !! _) as [[| | |r| |]|] eqn:Ho.
  4: { destruct (H1 r Hv eq_refl) as [g Hg]. apply Hsame in Hg as (r' & _ & -> & -> & _). done. }
  all: destruct (objects db' !! _) as [[| | |r'| |]|] eqn:Ho'; try done; destruct (H2 r' Hv' eq_refl) as [g Hg]; apply Hsame in Hg as (? & _ & Hx & _); congruence.
Qed.

Lemma drain_pending n xs : forall db, valid Max db -> pending db n xs ->
  exists db', drain (S (length xs)) n db = Ok (handle_of (objects db) <$> xs, db') /\ valid Max db' /\ same_protocols db db' /\ pending db' n [] /\
    forall g, registered_for db n g -> registered_for db' n g.
Proof.
  induction xs as [|x xs IH]; intros db Hv Hp; cbn [drain];
    (destruct (CoreLocateHandle_registration Verify Max db None n _ 8 true Hv Hp) as (Status & size & Buffer & db1 & -> & Hv1 & Hsame1 & _ & Hloc & Hp1 & Hrf1); [lia|done|]);
    cbn [mbind result_bind].
  - injection Hloc as -> -> ->. cbn [EFI_ERROR]. by exists db1.
  - cbn [take fmap list_fmap] in Hloc. injection Hloc as -> -> ->. cbn [EFI_ERROR]. rewrite bool_decide_eq_true_2 in Hp1 by done. cbn [tail] in Hp1.
    destruct (IH db1 Hv1 Hp1) as (db' & Heq & Hv' & Hsame' & Hp' & Hrf'). cbn [length]. rewrite Heq. cbn [mbind result_bind]. exists db'.
    split; [|split; [done|split; [by apply (same_protocols_trans db db1)|split; [done|auto]]]].
    do 2 f_equal. change (take (Z.to_nat (8 / 8)) [handle_of (objects db) x]) with [handle_of (objects db) x]. cbn [app fmap list_fmap]. f_equal.
    apply list_fmap_ext. intros k y _. by apply handle_of_same.
Qed.
End Drain.

(** What was added to a database is removed again. *)
Lemma same_protocols_back db db1 db1' db2 k g v p hd : well_used db -> install_success db k g v true hd p db1 -> same_protocols db1 db1' -> removed db1' db2 p k ->
  same_protocols db db2.
Proof.
  intros Hw Hs [Hh1 Hp1] [Hrm Hrh _]. pose proof (is_provides _ _ _ _ _ _ _ _ Hs) as Hprov.
  assert (Hp2 : forall j h g' v', provides (objects db2) j h g' v' <-> provides (objects db) j h g' v').
  { intros j h g' v'. rewrite Hrm, Hp1, Hprov. split; [by intros [[?|(? & _)] ?]|]. intros Hj. split; [by left|]. intros ->.
    assert (Hpk : provides (objects db1) p k g v) by (apply Hprov; by right). assert (Hph : provides (objects db1) p h g' v') by (apply Hprov; by left).
    destruct (provides_same_object _ _ _ _ _ _ _ _ Hpk Hph) as (-> & -> & ->). apply (is_before _ _ _ _ _ _ _ _ Hs v'). by exists p. }
  assert (Hins : forall h g' v', Installed db2 h g' v' <-> Installed db h g' v') by (intros h g' v'; split; intros [j Hj]; exists j; by apply Hp2).
  split; [|done]. intros h. rewrite Hrh, Hh1, (is_handles _ _ _ _ _ _ _ _ Hs). split.
  - intros [[?| ->] Hk]; [done|]. destruct (Hk eq_refl) as (g' & v' & Hi%Hins). by apply (wu_installed _ Hw) in Hi.
  - intros Hh. split; [by left|]. intros ->. destruct (wu_handle _ Hw k Hh) as (_ & g' & v' & Hi). exists g', v'. by apply Hins.
Qed.

Section Theorems.
Context `{Platform} `{Drivers} (Verify : bool) (Max : nat) `{!PoolLaws Max} `{!DriverLaws Max}.
Implicit Types (db : Database).

(** C6: OpenProtocol returns and keeps the database valid. It refuses a NULL
    protocol, and a NULL result unless the mode is TEST_PROTOCOL; otherwise its
    result is that of the specification's access rules: the arguments must be
    handles where the mode needs them; the protocol must be there; an agent that
    drives the interface with the same arguments is told so; the same open is
    counted; an open [EXCLUSIVE] or [BY_DRIVER] is denied while another excludes
    it; an [EXCLUSIVE] one disconnects the drivers one after the other, and is
    denied exactly if one of these calls fails; and what is granted is recorded,
    if there is memory for the record. *)
Theorem CoreOpenProtocol_correct db h g out ih ch attr : valid Max db ->
  exists Status v db', CoreOpenProtocol Verify Max h g out ih ch attr db = Ok (Status, v, db') /\ valid Max db' /\
    match g with
    | Some g => if (attr =? EFI_OPEN_PROTOCOL_TEST_PROTOCOL) || out then open_result db h g ih ch attr Status v db'
                else Status = EFI_INVALID_PARAMETER /\ v = None /\ db' = db
    | None => Status = EFI_INVALID_PARAMETER /\ v = None /\ db' = db
    end.
Proof.
  intros Hv. destruct g as [g|]; [|by eexists _, _, db]. destruct ((attr =? EFI_OPEN_PROTOCOL_TEST_PROTOCOL) || out) eqn:Hout.
  - apply (CoreOpenProtocol_spec Verify Max db h g out ih ch attr Hv). apply orb_true_iff in Hout as [Ht%Z.eqb_eq|?]; [by left|by right].
  - eexists _, _, db. split; [|done]. unfold CoreOpenProtocol. by rewrite <-negb_orb, Hout.
Qed.

(** C17: InstallProtocolInterface returns and keeps the database valid. On success
    the handle, a new one if the caller passed NULL, has the interface, which it
    had not before and nobody uses; no other handle or interface has changed;
    the events that are registered for the protocol have been signalled, each
    once and in order; and every registration for the protocol has the interface
    ahead of it. Otherwise handles and interfaces are as before and no event is
    signalled, and the status is the reason: an argument is NULL or the
    interface not native, the handle has the protocol already, it is no handle,
    or the pool refused the entry of the protocol, the interface or the handle
    when it was asked for it. *)
Theorem CoreInstallProtocolInterface_correct db hd g t v : valid Max db ->
  exists Status h' db', CoreInstallProtocolInterface Verify Max hd g t v db = Ok (Status, h', db') /\ valid Max db' /\
    match hd, g with
    | Some hd, Some g => if t =? EFI_NATIVE_INTERFACE then install_result db hd g v true Status h' db' /\ only_reads db db'
                         else Status = EFI_INVALID_PARAMETER /\ h' = Some hd /\ db' = db
    | _, _ => Status = EFI_INVALID_PARAMETER /\ h' = hd /\ db' = db
    end.
Proof.
  intros Hv. destruct hd as [hd|]; [|by eexists _, _, db]. destruct g as [g|]; [|by eexists _, _, db].
  destruct (Z.eqb_spec t EFI_NATIVE_INTERFACE) as [->|Ht]; [by apply CoreInstallProtocolInterfaceNotify_full|].
  eexists _, _, db. split; [|done]. unfold CoreInstallProtocolInterface, CoreInstallProtocolInterfaceNotify. by rewrite (proj2 (Z.eqb_neq _ _) Ht).
Qed.

(** C18: UninstallProtocolInterface returns and keeps the database valid. It
    refuses a NULL protocol and what is no handle, and says so if there is no
    such interface. Otherwise it disconnects the drivers of the interface one
    after the other and closes the opens that only read. If no other open is
    left the interface is removed, and the handle with its last one; if a driver
    fails to be disconnected or somebody else has the interface open, the
    drivers are connected again and nothing is removed. *)
Theorem CoreUninstallProtocolInterface_correct db hd g v : valid Max db ->
  exists Status db', CoreUninstallProtocolInterface Verify Max hd g v db = Ok (Status, db') /\ valid Max db' /\
    match g with
    | Some g => uninstall_result db hd g v Status db'
    | None => Status = EFI_INVALID_PARAMETER /\ db' = db
    end.
Proof. intros Hv. destruct g as [g|]; [by apply CoreUninstallProtocolInterface_spec|by eexists _, db]. Qed.

(** C19: ReinstallProtocolInterface returns and keeps the database valid. It
    refuses a NULL protocol and what is no handle, and says so if there is no
    such interface. Otherwise it disconnects the drivers of the interface one
    after the other and closes the opens that only read. If no other open is
    left it replaces the interface on its handle, connects the drivers to the
    new one and signals the events that are registered for the protocol; if a
    driver fails to be disconnected or somebody else has the interface open, the
    drivers are connected again and nothing is replaced. *)
Theorem CoreReinstallProtocolInterface_correct db hd g v v' : valid Max db ->
  exists Status db', CoreReinstallProtocolInterface Verify Max hd g v v' db = Ok (Status, db') /\ valid Max db' /\
    match g with
    | Some g => reinstall_result db hd g v v' Status db'
    | None => Status = EFI_INVALID_PARAMETER /\ db' = db
    end.
Proof.
  intros Hv. destruct g as [g|]; [by apply CoreReinstallProtocolInterface_spec|]. exists EFI_INVALID_PARAMETER, db. split; [|done].
  pose proof Hv as [_ (F & owner & Hinv & _)]. unfold CoreReinstallProtocolInterface. rewrite (CoreValidateHandle_spec Max F owner db (inv_shape _ _ _ _ Hinv)).
  cbn [mbind result_bind]. by destruct (handleb (objects db) hd).
Qed.

(** C5: A registration finds every handle with the protocol once, whatever is
    installed when: the handles that have it when the registration is made, each
    once; then none, until it is installed on another handle; then that one, and
    none again. *)
Theorem registration_sees_each_once db g ev n db1 : valid Max db -> CoreRegisterProtocolNotify Verify Max (Some g) ev true db = Ok (EFI_SUCCESS, Some n, db1) ->
  exists hs db2, drain Verify Max (S (length hs)) n db1 = Ok (hs, db2) /\ listed db ByProtocol g hs /\ same_protocols db db2 /\
    forall hd v k db3, CoreInstallProtocolInterface Verify Max (Some hd) (Some g) EFI_NATIVE_INTERFACE v db2 = Ok (EFI_SUCCESS, Some k, db3) ->
      exists db4, drain Verify Max 2 n db3 = Ok ([k], db4) /\ (forall w, ~ Installed db2 k g w) /\ Installed db4 k g v.
Proof.
  intros Hv Hr. destruct (registered_exists Max db g (proj2 Hv)) as [c Hc]. assert (Hev : ev <> NULL) by (by intros ->).
  destruct (CoreRegisterProtocolNotify_spec Verify Max db g ev c Hv Hev Hc) as (Status & reg & db1' & Heq & Hv1 & Hsame1 & Hcase).
  rewrite Hr in Heq. injection Heq as <- <- <-. destruct Hcase as [(? & _)|(_ & _ & _ & n' & xs & [= <-] & _ & Hrf1 & Hp1 & Hlist)]; [done|].
  destruct (drain_pending Verify Max n xs db1 Hv1 Hp1) as (db2 & Hd & Hv2 & Hsame2 & Hp2 & Hrf2). exists (handle_of (objects db1) <$> xs), db2.
  rewrite length_fmap. split; [done|]. split; [done|]. split; [by apply (same_protocols_trans db db1)|]. intros hd v k db3 Hi.
  destruct (CoreInstallProtocolInterfaceNotify_spec Verify Max db2 hd g v true Hv2) as (Status & h' & db3' & Heq & Hv3 & Hres). unfold CoreInstallProtocolInterface in Hi.
  rewrite Hi in Heq. injection Heq as <- <- <-. inversion Hres as [k' p db' Hs| |Status' db' HE]; subst; [|by apply install_error_error in HE].
  destruct (is_pending _ _ _ _ _ _ _ _ Hs n g [] (Hrf2 g Hrf1) Hp2) as [_ Hp3]. rewrite bool_decide_eq_true_2 in Hp3 by done. cbn [app] in Hp3.
  destruct (drain_pending Verify Max n _ db3 Hv3 Hp3) as (db4 & Hd4 & _ & Hsame4 & _ & _). exists db4.
  assert (Hprov : provides (objects db3) p k g v) by (apply (is_provides _ _ _ _ _ _ _ _ Hs); by right).
  split; [|split; [exact (is_before _ _ _ _ _ _ _ _ Hs)|exists p; by apply (proj2 Hsame4)]].
  change (length [p + OFFSET_ByProtocol]) with 1%nat in Hd4. rewrite Hd4. destruct Hprov as (r & e & Hr' & <- & _). cbn [fmap list_fmap]. unfold handle_of.
  by rewrite Z.add_simpl_r, Hr'.
Qed.

(** C36: CloseProtocol returns and keeps the database valid. It removes exactly
    the open records of the agent and the controller on that interface, and says
    whether there were any. *)
Theorem CoreCloseProtocol_correct db h g ah ch : valid Max db ->
  exists Status db', CoreCloseProtocol Max h (Some g) ah ch db = Ok (Status, db') /\ valid Max db' /\ close_result db h g ah ch Status db'.
Proof. intros. by apply CoreCloseProtocol_spec. Qed.

(** C21: LocateHandle for all handles or by protocol finds exactly the handles of
    the database, or those with the protocol, each once; it returns the size
    that they need, as many as fit into the buffer, and whether all did. (No
    handle has the mark of the search yet; the marks are from a 64-bit counter.) *)
Theorem CoreLocateHandle_correct db SearchType g sk Size out : valid Max db -> SearchType = AllHandles \/ (SearchType = ByProtocol /\ unmarked db) ->
  0 <= Size -> (0 < Size -> out = true) ->
  exists hs Status size Buffer db', CoreLocateHandle Verify Max SearchType (Some g) sk (Some Size) out db = Ok (Status, size, Buffer, db') /\
    valid Max db' /\ same_protocols db db' /\ Calls db' = Calls db /\ listed db SearchType g hs /\ (Status, size, Buffer) = located hs Size.
Proof. intros. by apply CoreLocateHandle_list. Qed.

(** C35: An interface that was just installed can be uninstalled, whatever the
    drivers do, and then the handles and the interfaces are those from before. *)
Theorem install_uninstall_roundtrip db hd g v k db1 : valid Max db ->
  CoreInstallProtocolInterface Verify Max (Some hd) (Some g) EFI_NATIVE_INTERFACE v db = Ok (EFI_SUCCESS, Some k, db1) ->
  exists db2, CoreUninstallProtocolInterface Verify Max k (Some g) v db1 = Ok (EFI_SUCCESS, db2) /\ valid Max db2 /\ same_protocols db db2.
Proof.
  intros Hv Hi. destruct (CoreInstallProtocolInterfaceNotify_spec Verify Max db hd g v true Hv) as (Status & h' & db1' & Heq & Hv1 & Hres). unfold CoreInstallProtocolInterface in Hi.
  rewrite Hi in Heq. injection Heq as <- <- <-. inversion Hres as [k' p db' Hs| |Status' db' HE]; subst; [|by apply install_error_error in HE].
  destruct (CoreUninstallProtocolInterface_spec Verify Max db1 k g v Hv1) as (Status & db2 & Heq & Hv2 & Hun). rewrite Heq.
  pose proof (valid_well_used Max db Hv) as Hw. pose proof (valid_well_used Max db1 Hv1) as Hw1. pose proof (is_provides _ _ _ _ _ _ _ _ Hs) as Hprov. pose proof (is_unused _ _ _ _ _ _ _ _ Hs) as Hno.
  assert (Hp : provides (objects db1) p k g v) by (apply Hprov; by right). assert (Hk : IsHandle db1 k) by (apply (is_handles _ _ _ _ _ _ _ _ Hs); by right).
  destruct Hun as [?|? Hn|i db2 Hi2 Href|i db1' db2 Hi2 _ _ Hquiet Hrm]; [done|by destruct Hn; exists p| |]; (assert (i = p) as -> by (by apply (wu_once _ Hw1 i p k g v v)));
    [by destruct (nobody_refused k p db1 db2 (fun q r Hq => ltac:(by pose proof (Hno q r Hq))) Href)|].
  exists db2. split; [done|]. split; [done|]. destruct Hquiet as [Hsame1 _]; [intros q r Hq; by pose proof (Hno q r Hq)|]. by apply (same_protocols_back db db1 db1' db2 k g v p hd).
Qed.
(** CoreUnregisterProtocolNotify removes every registration of an event and
    no other: it is signalled for no protocol any more, the others are as
    before, in their order; handles and interfaces do not change. *)
Theorem CoreUnregisterProtocolNotify_correct db ev : valid Max db ->
  exists db', CoreUnregisterProtocolNotify Max ev db = Ok (EFI_SUCCESS, db') /\ valid Max db' /\ same_protocols db db' /\ Calls db' = Calls db /\
    (forall n r, objects db' !! n = Some (ANotify r) -> NotifyEvent r <> ev) /\
    forall g c, registered db g c -> registered db' g (List.filter (not_signal ev) c).
Proof. intros. by apply CoreUnregisterProtocolNotify_spec. Qed.
End Theorems.

(** * Witnesses *)

Module HandleWitness.

#[local] Existing Instance SamplePlatform.
#[local] Existing Instance SamplePool.
#[local] Existing Instance SampleDrivers.
#[local] Existing Instance SampleDriverLaws.

Import Sample.

(** The driver has the protocol open. *)
Definition driven : Database := database_of (runs [OpenProtocol device (Some g7) true driver device EFI_OPEN_PROTOCOL_BY_DRIVER] ready).

Lemma driven_valid : valid sample_max driven.
Proof. apply run_valid; [apply ready_valid|]. by vm_compute. Qed.

(** The statuses of a program. *)
Definition statuses (cs : list call) (db : Database) : list EFI_STATUS := match runs cs db with Ok (l, _) => l | _ => [] end.

Definition program : list call := [
  OpenProtocol device (Some g7) true driver device EFI_OPEN_PROTOCOL_BY_DRIVER;
  OpenProtocol device (Some g7) true driver device EFI_OPEN_PROTOCOL_BY_DRIVER;
  OpenProtocol device (Some g7) true device driver EFI_OPEN_PROTOCOL_BY_DRIVER;
  OpenProtocolInformation device g7;
  OpenProtocol device (Some g7) true device NULL EFI_OPEN_PROTOCOL_EXCLUSIVE;
  OpenProtocol device (Some g7) true driver device EFI_OPEN_PROTOCOL_BY_DRIVER;
  UninstallProtocolInterface device (Some g7) 0x70;
  CloseProtocol device (Some g7) device NULL;
  CloseProtocol device (Some g7) device NULL;
  ReinstallProtocolInterface device (Some g7) 0x70 0x71;
  LocateHandle AllHandles None NULL (Some 8%N) true;
  UninstallMultipleProtocolInterfaces device [(g7, 0x71); (g8, 0x80)];
  LocateProtocol (Some g7) NULL true ].

Example program_statuses : statuses program ready = [EFI_SUCCESS; EFI_ALREADY_STARTED; EFI_ACCESS_DENIED; EFI_SUCCESS; EFI_SUCCESS; EFI_ACCESS_DENIED;
  EFI_ACCESS_DENIED; EFI_SUCCESS; EFI_NOT_FOUND; EFI_SUCCESS; EFI_BUFFER_TOO_SMALL; EFI_INVALID_PARAMETER; EFI_NOT_FOUND].
Proof. vm_compute. reflexivity. Qed.

(** A registration, used and removed. *)
Definition key : ptr := 0x3600.
Definition listening : Database := database_of (CoreRegisterProtocolNotify true sample_max (Some g7) 0x900 true ready).

Definition listen : list call := [
  RegisterProtocolNotify (Some g7) 0x900 true;
  InstallProtocolInterface (Some driver) (Some g7) EFI_NATIVE_INTERFACE 0x72 true;
  LocateHandle ByRegisterNotify None key (Some 8%N) true;
  LocateProtocol (Some g7) key true;
  LocateHandleBuffer ByRegisterNotify None key true true;
  UnregisterProtocolNotify 0x900 ].

Lemma listen_legal : legal_all true sample_max (listen ++ program) ready.
Proof. vm_compute. repeat split; first [by left|right; by eexists]. Qed.

Lemma CoreOpenProtocol_correct_witness :
  exists Status v db', CoreOpenProtocol true sample_max device (Some g7) true device NULL EFI_OPEN_PROTOCOL_EXCLUSIVE driven = Ok (Status, v, db') /\
    valid sample_max db' /\ open_result driven device g7 device NULL EFI_OPEN_PROTOCOL_EXCLUSIVE Status v db'.
Proof. exact (CoreOpenProtocol_correct true sample_max driven device (Some g7) true device NULL EFI_OPEN_PROTOCOL_EXCLUSIVE driven_valid). Defined.

Lemma CoreInstallProtocolInterface_correct_witness :
  exists Status h' db', CoreInstallProtocolInterface true sample_max (Some device) (Some g8) EFI_NATIVE_INTERFACE 0x81 driven = Ok (Status, h', db') /\
    valid sample_max db' /\ install_result driven device g8 0x81 true Status h' db' /\ only_reads driven db'.
Proof. exact (CoreInstallProtocolInterface_correct true sample_max driven (Some device) (Some g8) EFI_NATIVE_INTERFACE 0x81 driven_valid). Defined.

Lemma CoreUninstallProtocolInterface_correct_witness :
  exists Status db', CoreUninstallProtocolInterface true sample_max device (Some g7) 0x70 driven = Ok (Status, db') /\
    valid sample_max db' /\ uninstall_result driven device g7 0x70 Status db'.
Proof. exact (CoreUninstallProtocolInterface_correct true sample_max driven device (Some g7) 0x70 driven_valid). Defined.

Lemma CoreReinstallProtocolInterface_correct_witness :
  exists Status db', CoreReinstallProtocolInterface true sample_max device (Some g7) 0x70 0x71 driven = Ok (Status, db') /\
    valid sample_max db' /\ reinstall_result driven device g7 0x70 0x71 Status db'.
Proof. exact (CoreReinstallProtocolInterface_correct true sample_max driven device (Some g7) 0x70 0x71 driven_valid). Defined.

Lemma CoreCloseProtocol_correct_witness :
  exists Status db', CoreCloseProtocol sample_max device (Some g7) driver device driven = Ok (Status, db') /\
    valid sample_max db' /\ close_result driven device g7 driver device Status db'.
Proof. exact (CoreCloseProtocol_correct sample_max driven device g7 driver device driven_valid). Defined.

Lemma listening_eq : CoreRegisterProtocolNotify true sample_max (Some g7) 0x900 true ready = Ok (EFI_SUCCESS, Some key, listening).
Proof. vm_compute. reflexivity. Qed.

Lemma listening_valid : valid sample_max listening.
Proof. destruct (register_safe true sample_max ready (Some g7) 0x900 true ready_valid) as (Status & r & db' & Heq & Hv). unfold listening. by rewrite Heq. Qed.

Lemma registration_sees_each_once_witness :
  exists hs db2, drain true sample_max (S (length hs)) key listening = Ok (hs, db2) /\ listed ready ByProtocol g7 hs /\ same_protocols ready db2 /\
    forall hd v k db3, CoreInstallProtocolInterface true sample_max (Some hd) (Some g7) EFI_NATIVE_INTERFACE v db2 = Ok (EFI_SUCCESS, Some k, db3) ->
      exists db4, drain true sample_max 2 key db3 = Ok ([k], db4) /\ (forall w, ~ Installed db2 k g7 w) /\ Installed db4 k g7 v.
Proof. exact (registration_sees_each_once true sample_max ready g7 0x900 key listening ready_valid listening_eq). Defined.

Lemma CoreLocateHandle_correct_witness :
  exists hs Status size Buffer db', CoreLocateHandle true sample_max ByProtocol (Some g7) NULL (Some 4) true ready = Ok (Status, size, Buffer, db') /\
    valid sample_max db' /\ same_protocols ready db' /\ Calls db' = Calls ready /\ listed ready ByProtocol g7 hs /\ (Status, size, Buffer) = located hs 4.
Proof. by refine (CoreLocateHandle_correct true sample_max ready ByProtocol g7 NULL 4 true ready_valid (or_intror (conj eq_refl ready_unmarked)) _ _). Defined.

Definition installed_state : Database := database_of (CoreInstallProtocolInterface true sample_max (Some device) (Some g8) EFI_NATIVE_INTERFACE 0x81 ready).

Lemma installed_state_eq :
  CoreInstallProtocolInterface true sample_max (Some device) (Some g8) EFI_NATIVE_INTERFACE 0x81 ready = Ok (EFI_SUCCESS, Some device, installed_state).
Proof. vm_compute. reflexivity. Qed.

Lemma install_uninstall_roundtrip_witness :
  exists db2, CoreUninstallProtocolInterface true sample_max device (Some g8) 0x81 installed_state = Ok (EFI_SUCCESS, db2) /\
    valid sample_max db2 /\ same_protocols ready db2.
Proof. exact (install_uninstall_roundtrip true sample_max ready device g8 0x81 device installed_state ready_valid installed_state_eq). Defined.

Lemma CoreUnregisterProtocolNotify_correct_witness :
  exists db', CoreUnregisterProtocolNotify sample_max 0x900 listening = Ok (EFI_SUCCESS, db') /\ valid sample_max db' /\ same_protocols listening db' /\
    Calls db' = Calls listening /\ (forall n r, objects db' !! n = Some (ANotify r) -> NotifyEvent r <> 0x900) /\
    forall g c, registered listening g c -> registered db' g (List.filter (not_signal 0x900) c).
Proof. exact (CoreUnregisterProtocolNotify_correct sample_max listening 0x900 listening_valid). Defined.

(** CoreUninstallMultipleProtocolInterfaces fails and does not install again what
    it removed: with its last interface the handle is gone, and the installation
    on it fails. *)
Example uninstall_multiple_loses_interface :
  match CoreUninstallMultipleProtocolInterfaces true sample_max device [(g7, 0x70); (g8, 0x80)] ready with
  | Ok (Status, db) => Status = EFI_INVALID_PARAMETER /\ CoreLocateProtocol true sample_max (Some g7) NULL true db = Ok (EFI_NOT_FOUND, Some NULL, database_of (CoreLocateProtocol true sample_max (Some g7) NULL true db))
  | _ => False
  end.
Proof. vm_compute. by split. Qed.
End HandleWitness.

(** A platform on which there is no memory for a third protocol entry. *)
Module NoEntryMemory.

#[local] Instance LowPlatform : Platform := {|
  AllocatePool n used := if (n =? sizeof_PROTOCOL_ENTRY) && bool_decide (used <> ∅) then None else List.find (fun p => bool_decide (p ∉ used)) sample_blocks;
  Uninitialised _ := MkLink 0xAF 0xAF;
  gDxeCoreImageHandle := NULL |}.

#[local] Instance NoDrivers : Drivers := {| CoreDisconnectController db _ _ := Ok (EFI_NOT_FOUND, db); CoreConnectController db _ := Ok db |}.

(** CoreInstallProtocolInterface returns EFI_UNSUPPORTED, and not
    EFI_OUT_OF_RESOURCES, when there is no memory for the protocol entry. *)
Example install_unsupported :
  let db := database_of (CoreInstallProtocolInterface true 100 (Some NULL) (Some (sample_guid 7)) EFI_NATIVE_INTERFACE 0x70 initial) in
  match CoreInstallProtocolInterface true 100 (Some 0x3200) (Some (sample_guid 8)) EFI_NATIVE_INTERFACE 0x80 db with
  | Ok (Status, _, _) => Status = EFI_UNSUPPORTED
  | _ => False
  end.
Proof. vm_compute. reflexivity. Qed.
End NoEntryMemory.
