(* ===== verification/HandleDepex.v ===== *)
(** * Dependency expressions over the protocol database

    [CoreIsSchedulable] (Dependency.c) asks [CoreLocateProtocol] (Locate.c) for
    each protocol of an expression.  Here the database of Handle.v answers. *)

From S2P Require Import Prelude LinkedList Depex.
From S2P Require Import ListFamily Handle HandleInv HandleDriver HandleInstall HandleLocate HandleNotify HandleProgram HandleSample.

Section Answers.
Context `{Platform} (Verify : bool) (Max : nat).

(** [CoreLocateProtocol (&Guid, NULL, &Interface)]. *)
Definition answers (db : Database) : Depex.ProtocolDatabase := fun g =>
  match CoreLocateProtocol Verify Max (Some g) NULL true db with Ok (Status, _, _) => Status | _ => EFI_DEVICE_ERROR end.

Context `{!PoolLaws Max}.

Lemma answers_installed db g : valid Max db -> unmarked db -> installed (db := answers db) g = true <-> exists h v, Installed db h g v.
Proof.
  intros Hv Hun. unfold installed, Depex.LocateProtocol, answers.
  destruct (CoreLocateProtocol_any Verify Max db g Hv Hun) as (Status & v & db' & -> & _ & _ & _ & [[-> [h Hh]]|(-> & _ & Hno)]); cbn [EFI_ERROR negb].
  - split; [|done]. intros _. by exists h, v.
  - split; [done|]. intros (h & w & Hw). by destruct (Hno h w).
Qed.
End Answers.

(** What an expression says of the database. *)
Fixpoint holds_in (db : Database) (e : Expr.expr) : Prop :=
  match e with
  | Expr.Push g => exists h v, Installed db h g v
  | Expr.Replaced _ | Expr.TRUE => True
  | Expr.FALSE => False
  | Expr.NOT e => ~ holds_in db e
  | Expr.AND e1 e2 => holds_in db e1 /\ holds_in db e2
  | Expr.OR e1 e2 => holds_in db e1 \/ holds_in db e2
  end.

Lemma holds_same db db' e : same_protocols db db' -> holds_in db' e <-> holds_in db e.
Proof.
  intros Hsame. induction e as [g|g| | |e IH|e1 IH1 e2 IH2|e1 IH1 e2 IH2]; cbn [holds_in]; [|done..|by rewrite IH|by rewrite IH1, IH2|by rewrite IH1, IH2].
  split; intros (h & v & i & Hi); exists h, v, i; by apply Hsame.
Qed.

Section Composition.
Context `{Platform} (Verify : bool) (Max : nat) `{!PoolLaws Max}.

Lemma eval_holds db e : valid Max db -> unmarked db -> Expr.eval (db := answers Verify Max db) e = true <-> holds_in db e.
Proof.
  intros Hv Hun. induction e as [g|g| | |e IH|e1 IH1 e2 IH2|e1 IH1 e2 IH2]; cbn [Expr.eval holds_in]; [by apply (answers_installed Verify Max db g)|done..| | |].
  - by rewrite negb_true_iff, <-not_true_iff_false, IH.
  - by rewrite andb_true_iff, IH1, IH2.
  - by rewrite orb_true_iff, IH1, IH2.
Qed.

(** C26: A driver is scheduled exactly when its dependency expression holds of the
    protocols that are installed on some handle: CoreIsSchedulable, with
    CoreLocateProtocol over the handle database for its lookups, evaluates the
    postfix bytes to that; and the lookups, which only mark handles, do not
    change the answer. (No handle has the mark of the next search.) *)
Theorem dependencies_met db AllocatePool mArchProtocols (d : Dxe.EFI_CORE_DRIVER_ENTRY) sor e st : valid Max db -> unmarked db ->
  (forall n, AllocatePool n = true) -> Expr.well_formed e -> Dxe.Before d = false -> Dxe.After d = false ->
  Dxe.Depex d = Some (Dxe.depex sor e) -> Dxe.DepexSize d = length (Dxe.depex sor e) ->
  (exists b st' d', Dxe.CoreIsSchedulable (db := answers Verify Max db) AllocatePool mArchProtocols d st = Ok (b, st', d') /\ (b = true <-> holds_in db e)) /\
  forall db', valid Max db' -> unmarked db' -> same_protocols db db' ->
    Expr.eval (db := answers Verify Max db') e = Expr.eval (db := answers Verify Max db) e.
Proof.
  intros Hv Hun Hpool Hwf HB HA HD HS. split.
  - destruct (Dxe.CoreIsSchedulable_depex (db := answers Verify Max db) AllocatePool Hpool mArchProtocols d sor e st) as (st' & _ & Heq); [done..|].
    eexists _, st', _. split; [exact Heq|]. by apply eval_holds.
  - intros db' Hv' Hun' Hsame. apply eq_true_iff_eq. rewrite (eval_holds db' e Hv' Hun'), (eval_holds db e Hv Hun). by apply holds_same.
Qed.
End Composition.

Module HandleDepexWitness.
#[local] Existing Instance SamplePlatform.
#[local] Existing Instance SamplePool.
Import Sample.

(** Protocol 7, or not protocol 9. *)
Definition wanted : Expr.expr := Expr.OR (Expr.Push g7) (Expr.NOT (Expr.Push (sample_guid 9))).

Definition waiting : Dxe.EFI_CORE_DRIVER_ENTRY :=
  Dxe.MkDriver (Some (Dxe.depex true wanted)) (length (Dxe.depex true wanted)) false false [] true false.

Lemma dependencies_met_witness :
  (exists b st' d', Dxe.CoreIsSchedulable (db := answers true sample_max ready) (fun _ => true) [] waiting DepexStack.NULL_stack = Ok (b, st', d') /\ (b = true <-> holds_in ready wanted)) /\
  forall db', valid sample_max db' -> unmarked db' -> same_protocols ready db' ->
    Expr.eval (db := answers true sample_max db') wanted = Expr.eval (db := answers true sample_max ready) wanted.
Proof.
  refine (dependencies_met true sample_max ready (fun _ => true) [] waiting true wanted DepexStack.NULL_stack ready_valid ready_unmarked (fun _ => eq_refl) _ eq_refl eq_refl eq_refl eq_refl).
  by split.
Defined.
End HandleDepexWitness.
