(* ===== verification/DevicePath.v ===== *)
(** * Device paths: the code

    MdePkg/Library/UefiDevicePathLib/DevicePathUtilities.c, on a memory of bytes.
    A device path is a sequence of nodes, each with a type, a subtype and its
    length in the first four bytes, up to an end node. *)

From S2P Require Import Prelude.

(** ** Constants *)

(** MdePkg/Include/Protocol/DevicePath.h. *)
Definition END_DEVICE_PATH_TYPE : Z := 0x7f.
Definition END_ENTIRE_DEVICE_PATH_SUBTYPE : Z := 0xFF.
Definition END_INSTANCE_DEVICE_PATH_SUBTYPE : Z := 0x01.
Definition END_DEVICE_PATH_LENGTH : Z := 4.
Definition MEDIA_DEVICE_PATH : Z := 0x04.
Definition MEDIA_FILEPATH_DP : Z := 0x04.
Definition sizeof_EFI_DEVICE_PATH_PROTOCOL : Z := 4.
Definition MAX_UINTN : Z := MAX_UINT64.
Definition MAX_ADDRESS : Z := MAX_UINT64.

(** ** Memory *)

(** The bytes that may be accessed, and the blocks of the pool with their sizes. *)
Record Memory := MkMemory { bytes : gmap ptr Z; blocks : gmap ptr Z }.

(** What is outside: where the pool finds room for a block, what is in new
    memory, and where the template of an end node is. *)
Class PathPlatform := {
  FindBlock : Z -> Memory -> option ptr;
  Garbage : ptr -> Z;
  mUefiDevicePathLibEndDevicePath : ptr }.

Definition read8 (m : Memory) (p : ptr) : result Z := deref (bytes m !! p).
Definition write8 (m : Memory) (p : ptr) (b : Z) : result Memory :=
  let! _ := read8 m p in Ok (MkMemory (<[p := b]> (bytes m)) (blocks m)).

(** Little endian. *)
Definition read16 (m : Memory) (p : ptr) : result Z :=
  let! lo := read8 m p in
  let! hi := read8 m (p + 1) in
  Ok (Z.lor lo (Z.shiftl hi 8)).
Definition ReadUnaligned16 (m : Memory) (p : ptr) : result Z := do! ASSERT (negb (p =? NULL)) ;; read16 m p.
Definition WriteUnaligned16 (m : Memory) (p : ptr) (v : Z) : result Memory :=
  do! ASSERT (negb (p =? NULL)) ;;
  let! m := write8 m p (Z.land v 0xff) in write8 m (p + 1) (Z.shiftr v 8).

Fixpoint read_bytes (n : nat) (m : Memory) (p : ptr) : result (list Z) :=
  match n with
  | O => Ok []
  | S n => let! b := read8 m p in let! l := read_bytes n m (p + 1) in Ok (b :: l)
  end.

Fixpoint write_bytes (l : list Z) (m : Memory) (p : ptr) : result Memory :=
  match l with
  | [] => Ok m
  | b :: l => let! m := write8 m p b in write_bytes l m (p + 1)
  end.

(** The blocks may overlap: all is read before it is written. *)
Definition CopyMem (m : Memory) (DestinationBuffer SourceBuffer : ptr) (Length : Z) : result Memory :=
  if Length =? 0 then Ok m else
  do! ASSERT (Length - 1 <=? MAX_ADDRESS - DestinationBuffer) ;;
  do! ASSERT (Length - 1 <=? MAX_ADDRESS - SourceBuffer) ;;
  if DestinationBuffer =? SourceBuffer then Ok m else
  let! l := read_bytes (Z.to_nat Length) m SourceBuffer in
  write_bytes l m DestinationBuffer.

(** The difference of the first bytes that differ, of [S n] bytes. *)
Fixpoint InternalMemCompareMem (n : nat) (m : Memory) (DestinationBuffer SourceBuffer : ptr) : result Z :=
  let! d := read8 m DestinationBuffer in
  let! s := read8 m SourceBuffer in
  match n with
  | O => Ok (d - s)
  | S n => if d =? s then InternalMemCompareMem n m (DestinationBuffer + 1) (SourceBuffer + 1) else Ok (d - s)
  end.

Definition CompareMem (m : Memory) (DestinationBuffer SourceBuffer : ptr) (Length : Z) : result Z :=
  if (Length =? 0) || (DestinationBuffer =? SourceBuffer) then Ok 0 else
  do! ASSERT (negb (DestinationBuffer =? NULL)) ;;
  do! ASSERT (negb (SourceBuffer =? NULL)) ;;
  do! ASSERT (Length - 1 <=? MAX_ADDRESS - DestinationBuffer) ;;
  do! ASSERT (Length - 1 <=? MAX_ADDRESS - SourceBuffer) ;;
  InternalMemCompareMem (pred (Z.to_nat Length)) m DestinationBuffer SourceBuffer.

(** The addresses of [n] bytes from [p]. *)
Definition range (p : ptr) (n : Z) : list ptr := (fun i => p + Z.of_nat i) <$> seq 0 (Z.to_nat n).

Section Code.
Context `{PathPlatform} (PcdMaximumDevicePathNodeCount : Z).

Definition AllocatePool (m : Memory) (Size : Z) : ptr * Memory :=
  match FindBlock Size m with
  | None => (NULL, m)
  | Some p => (p, MkMemory (foldr (fun a h => <[a := Garbage a]> h) (bytes m) (range p Size)) (<[p := Size]> (blocks m)))
  end.

Definition FreePool (m : Memory) (p : ptr) : result Memory :=
  let! Size := deref (blocks m !! p) in
  Ok (MkMemory (foldr (fun a h => delete a h) (bytes m) (range p Size)) (delete p (blocks m))).

Definition AllocateZeroPool (m : Memory) (Size : Z) : result (ptr * Memory) :=
  let (p, m) := AllocatePool m Size in
  if p =? NULL then Ok (NULL, m) else
  let! m := write_bytes (replicate (Z.to_nat Size) 0) m p in Ok (p, m).

Definition AllocateCopyPool (m : Memory) (AllocationSize : Z) (Buffer : ptr) : result (ptr * Memory) :=
  do! ASSERT (negb (Buffer =? NULL)) ;;
  do! ASSERT (AllocationSize <=? MAX_ADDRESS - Buffer + 1) ;;
  let (p, m) := AllocatePool m AllocationSize in
  if p =? NULL then Ok (NULL, m) else
  let! m := CopyMem m p Buffer AllocationSize in Ok (p, m).

(** ** Nodes *)

Definition DevicePathType (m : Memory) (Node : ptr) : result Z := do! ASSERT (negb (Node =? NULL)) ;; read8 m Node.
Definition DevicePathSubType (m : Memory) (Node : ptr) : result Z := do! ASSERT (negb (Node =? NULL)) ;; read8 m (Node + 1).
Definition DevicePathNodeLength (m : Memory) (Node : ptr) : result Z :=
  do! ASSERT (negb (Node =? NULL)) ;; ReadUnaligned16 m (Node + 2).
Definition NextDevicePathNode (m : Memory) (Node : ptr) : result ptr :=
  do! ASSERT (negb (Node =? NULL)) ;; let! n := DevicePathNodeLength m Node in Ok (Node + n).

Definition IsDevicePathEndType (m : Memory) (Node : ptr) : result bool :=
  do! ASSERT (negb (Node =? NULL)) ;; let! t := DevicePathType m Node in Ok (t =? END_DEVICE_PATH_TYPE).
Definition IsDevicePathEnd (m : Memory) (Node : ptr) : result bool :=
  do! ASSERT (negb (Node =? NULL)) ;;
  let! e := IsDevicePathEndType m Node in
  if (e : bool) then let! s := DevicePathSubType m Node in Ok (s =? END_ENTIRE_DEVICE_PATH_SUBTYPE) else Ok false.
Definition IsDevicePathEndInstance (m : Memory) (Node : ptr) : result bool :=
  do! ASSERT (negb (Node =? NULL)) ;;
  let! e := IsDevicePathEndType m Node in
  if (e : bool) then let! s := DevicePathSubType m Node in Ok (s =? END_INSTANCE_DEVICE_PATH_SUBTYPE) else Ok false.

Definition SetDevicePathNodeLength (m : Memory) (Node : ptr) (Length : Z) : result (Z * Memory) :=
  do! ASSERT (negb (Node =? NULL)) ;;
  do! ASSERT ((Length >=? sizeof_EFI_DEVICE_PATH_PROTOCOL) && (Length <? 0x10000)) ;;
  let! m := WriteUnaligned16 m (Node + 2) (u16 Length) in Ok (u16 Length, m).

Definition SetDevicePathEndNode (m : Memory) (Node : ptr) : result Memory :=
  do! ASSERT (negb (Node =? NULL)) ;; CopyMem m Node mUefiDevicePathLibEndDevicePath sizeof_EFI_DEVICE_PATH_PROTOCOL.

(** ** Whole paths *)

(** The loops over nodes run with one more than the number of bytes of memory. *)
Definition node_fuel (m : Memory) : nat := S (size (bytes m)).

(** [MaxSize] is not 0 any more; [Size] and [Count] are those of the nodes so far. *)
Fixpoint IsDevicePathValid_loop (fuel : nat) (m : Memory) (MaxSize Count Size : Z) (DevicePath : ptr) : result bool :=
  match fuel with
  | O => NoFuel
  | S fuel =>
      let! e := IsDevicePathEnd m DevicePath in
      if (e : bool) then let! n := DevicePathNodeLength m DevicePath in Ok (n =? END_DEVICE_PATH_LENGTH) else
      let! NodeLength := DevicePathNodeLength m DevicePath in
      if NodeLength <? sizeof_EFI_DEVICE_PATH_PROTOCOL then Ok false else
      if NodeLength >? MAX_UINTN - Size then Ok false else
      let Size := Size + NodeLength in
      if Size >? MaxSize - END_DEVICE_PATH_LENGTH then Ok false else
      let Count := if PcdMaximumDevicePathNodeCount >? 0 then Count + 1 else Count in
      if (PcdMaximumDevicePathNodeCount >? 0) && (Count >=? PcdMaximumDevicePathNodeCount) then Ok false else
      let! t := DevicePathType m DevicePath in
      let! unterminated :=
        if t =? MEDIA_DEVICE_PATH then
          let! s := DevicePathSubType m DevicePath in
          if s =? MEDIA_FILEPATH_DP then let! c := read16 m (DevicePath + NodeLength - 2) in Ok (negb (c =? 0)) else Ok false
        else Ok false in
      if (unterminated : bool) then Ok false else
      let! DevicePath := NextDevicePathNode m DevicePath in
      IsDevicePathValid_loop fuel m MaxSize Count Size DevicePath
  end.

Definition IsDevicePathValid (m : Memory) (DevicePath : ptr) (MaxSize : Z) : result bool :=
  if (DevicePath =? NULL) || ((MaxSize >? 0) && (MaxSize <? END_DEVICE_PATH_LENGTH)) then Ok false else
  IsDevicePathValid_loop (node_fuel m) m (if MaxSize =? 0 then MAX_UINTN else MaxSize) 0 0 DevicePath.

(** [while (!IsEnd (Node)) Node = NextDevicePathNode (Node)]. *)
Fixpoint FindNode (fuel : nat) (IsEnd : Memory -> ptr -> result bool) (m : Memory) (Node : ptr) : result ptr :=
  match fuel with
  | O => NoFuel
  | S fuel =>
      let! e := IsEnd m Node in
      if (e : bool) then Ok Node else
      let! Node := NextDevicePathNode m Node in
      FindNode fuel IsEnd m Node
  end.

Definition UefiDevicePathLibGetDevicePathSize (m : Memory) (DevicePath : ptr) : result Z :=
  if DevicePath =? NULL then Ok 0 else
  let! v := IsDevicePathValid m DevicePath 0 in
  if negb v then Ok 0 else
  let! End := FindNode (node_fuel m) IsDevicePathEnd m DevicePath in
  let! n := DevicePathNodeLength m End in
  Ok (End - DevicePath + n).

Definition UefiDevicePathLibDuplicateDevicePath (m : Memory) (DevicePath : ptr) : result (ptr * Memory) :=
  let! Size := UefiDevicePathLibGetDevicePathSize m DevicePath in
  if Size =? 0 then Ok (NULL, m) else AllocateCopyPool m Size DevicePath.

Definition UefiDevicePathLibAppendDevicePath (m : Memory) (FirstDevicePath SecondDevicePath : ptr) : result (ptr * Memory) :=
  if FirstDevicePath =? NULL then
    UefiDevicePathLibDuplicateDevicePath m (if negb (SecondDevicePath =? NULL) then SecondDevicePath else mUefiDevicePathLibEndDevicePath)
  else if SecondDevicePath =? NULL then UefiDevicePathLibDuplicateDevicePath m FirstDevicePath else
  let! v1 := IsDevicePathValid m FirstDevicePath 0 in
  let! v := if negb v1 then Ok false else IsDevicePathValid m SecondDevicePath 0 in
  if negb v then Ok (NULL, m) else
  let! Size1 := UefiDevicePathLibGetDevicePathSize m FirstDevicePath in
  let! Size2 := UefiDevicePathLibGetDevicePathSize m SecondDevicePath in
  let (NewDevicePath, m) := AllocatePool m (u64 (Size1 + Size2 - END_DEVICE_PATH_LENGTH)) in
  if NewDevicePath =? NULL then Ok (NULL, m) else
  let! m := CopyMem m NewDevicePath FirstDevicePath Size1 in
  let! m := CopyMem m (NewDevicePath + (Size1 - END_DEVICE_PATH_LENGTH)) SecondDevicePath Size2 in
  Ok (NewDevicePath, m).

Definition UefiDevicePathLibAppendDevicePathNode (m : Memory) (DevicePath DevicePathNode : ptr) : result (ptr * Memory) :=
  if DevicePathNode =? NULL then
    UefiDevicePathLibDuplicateDevicePath m (if negb (DevicePath =? NULL) then DevicePath else mUefiDevicePathLibEndDevicePath)
  else
  let! NodeLength := DevicePathNodeLength m DevicePathNode in
  let (TempDevicePath, m) := AllocatePool m (NodeLength + END_DEVICE_PATH_LENGTH) in
  if TempDevicePath =? NULL then Ok (NULL, m) else
  let! m := CopyMem m TempDevicePath DevicePathNode NodeLength in
  let! NextNode := NextDevicePathNode m TempDevicePath in
  let! m := SetDevicePathEndNode m NextNode in
  let! (NewDevicePath, m) := UefiDevicePathLibAppendDevicePath m DevicePath TempDevicePath in
  let! m := FreePool m TempDevicePath in
  Ok (NewDevicePath, m).

Definition UefiDevicePathLibAppendDevicePathInstance (m : Memory) (DevicePath DevicePathInstance : ptr) : result (ptr * Memory) :=
  if DevicePath =? NULL then UefiDevicePathLibDuplicateDevicePath m DevicePathInstance else
  if DevicePathInstance =? NULL then Ok (NULL, m) else
  let! v1 := IsDevicePathValid m DevicePath 0 in
  let! v := if negb v1 then Ok false else IsDevicePathValid m DevicePathInstance 0 in
  if negb v then Ok (NULL, m) else
  let! SrcSize := UefiDevicePathLibGetDevicePathSize m DevicePath in
  let! InstanceSize := UefiDevicePathLibGetDevicePathSize m DevicePathInstance in
  let (NewDevicePath, m) := AllocatePool m (u64 (SrcSize + InstanceSize)) in
  if NewDevicePath =? NULL then Ok (NULL, m) else
  let! m := CopyMem m NewDevicePath DevicePath SrcSize in
  let! TempDevicePath := FindNode (node_fuel m) IsDevicePathEnd m NewDevicePath in
  let! m := write8 m (TempDevicePath + 1) END_INSTANCE_DEVICE_PATH_SUBTYPE in
  let! TempDevicePath := NextDevicePathNode m TempDevicePath in
  let! m := CopyMem m TempDevicePath DevicePathInstance InstanceSize in
  Ok (NewDevicePath, m).

(** [DevicePath] is [*DevicePath]; the results are the copy of the instance, the
    new [*DevicePath], and [*Size], if it is written. *)
Definition UefiDevicePathLibGetNextDevicePathInstance (m : Memory) (DevicePath : option ptr) : result (ptr * option ptr * option Z * Memory) :=
  match DevicePath with
  | None => Ok (NULL, DevicePath, Some 0, m)
  | Some p =>
      if p =? NULL then Ok (NULL, DevicePath, Some 0, m) else
      let! v := IsDevicePathValid m p 0 in
      if negb v then Ok (NULL, DevicePath, None, m) else
      let! DevPath := FindNode (node_fuel m) IsDevicePathEndType m p in
      let Size := DevPath - p + sizeof_EFI_DEVICE_PATH_PROTOCOL in
      let! Temp := read8 m (DevPath + 1) in
      let! m := write8 m (DevPath + 1) END_ENTIRE_DEVICE_PATH_SUBTYPE in
      let! (ReturnValue, m) := UefiDevicePathLibDuplicateDevicePath m p in
      let! m := write8 m (DevPath + 1) Temp in
      let! s := DevicePathSubType m DevPath in
      let! Next := if s =? END_ENTIRE_DEVICE_PATH_SUBTYPE then Ok NULL else NextDevicePathNode m DevPath in
      Ok (ReturnValue, Some Next, Some Size, m)
  end.

Definition UefiDevicePathLibCreateDeviceNode (m : Memory) (NodeType NodeSubType NodeLength : Z) : result (ptr * Memory) :=
  if NodeLength <? sizeof_EFI_DEVICE_PATH_PROTOCOL then Ok (NULL, m) else
  let! (DevicePath, m) := AllocateZeroPool m NodeLength in
  if DevicePath =? NULL then Ok (NULL, m) else
  let! m := write8 m DevicePath NodeType in
  let! m := write8 m (DevicePath + 1) NodeSubType in
  let! (_, m) := SetDevicePathNodeLength m DevicePath NodeLength in
  Ok (DevicePath, m).

Fixpoint IsMultiInstance_loop (fuel : nat) (m : Memory) (Node : ptr) : result bool :=
  match fuel with
  | O => NoFuel
  | S fuel =>
      let! e := IsDevicePathEnd m Node in
      if (e : bool) then Ok false else
      let! i := IsDevicePathEndInstance m Node in
      if (i : bool) then Ok true else
      let! Node := NextDevicePathNode m Node in
      IsMultiInstance_loop fuel m Node
  end.

Definition UefiDevicePathLibIsDevicePathMultiInstance (m : Memory) (DevicePath : ptr) : result bool :=
  if DevicePath =? NULL then Ok false else
  let! v := IsDevicePathValid m DevicePath 0 in
  if negb v then Ok false else IsMultiInstance_loop (node_fuel m) m DevicePath.
End Code.
