(* ===== verification/DevicePathSpec.v ===== *)
(** * Device paths: nodes and their bytes

    A path is a list of [node]s; [path_bytes] are its bytes in memory, end node
    included.  Reading a path that memory [stores] gives the nodes back. *)

From S2P Require Import Prelude DevicePath.

Record node := MkNode { n_type : Z; n_subtype : Z; n_data : list Z }.

Definition n_length (n : node) : Z := 4 + Z.of_nat (length (n_data n)).
Definition node_bytes (n : node) : list Z := [n_type n; n_subtype n; n_length n mod 256; n_length n / 256] ++ n_data n.
Definition end_bytes : list Z := [END_DEVICE_PATH_TYPE; END_ENTIRE_DEVICE_PATH_SUBTYPE; END_DEVICE_PATH_LENGTH; 0].
Definition nodes_bytes (ns : list node) : list Z := concat (node_bytes <$> ns).
Definition path_bytes (ns : list node) : list Z := nodes_bytes ns ++ end_bytes.

Definition nodes_size (ns : list node) : Z := Z.of_nat (length (nodes_bytes ns)).
Definition path_size (ns : list node) : Z := nodes_size ns + END_DEVICE_PATH_LENGTH.

(** A node that is not the end of the path, and whose length fits its field. *)
Definition good (n : node) : Prop :=
  n_length n < 0x10000 /\ Forall (fun b => 0 <= b < 256) (node_bytes n) /\ ~ (n_type n = END_DEVICE_PATH_TYPE /\ n_subtype n = END_ENTIRE_DEVICE_PATH_SUBTYPE).

(** A file path node must end with a terminated string. *)
Definition terminated (n : node) : bool :=
  negb ((n_type n =? MEDIA_DEVICE_PATH) && (n_subtype n =? MEDIA_FILEPATH_DP)) ||
  ((List.nth (Z.to_nat (n_length n - 2)) (node_bytes n) 0 =? 0) && (List.nth (Z.to_nat (n_length n - 1)) (node_bytes n) 0 =? 0)).

(** Memory has the bytes [l] from [p] on. *)
Definition stores (m : Memory) (p : ptr) (l : list Z) : Prop := forall i b, l !! i = Some b -> bytes m !! (p + Z.of_nat i) = Some b.

Lemma holds_nil m p : stores m p [].
Proof. by intros i b. Qed.

Lemma holds_cons m p b l : stores m p (b :: l) <-> bytes m !! p = Some b /\ stores m (p + 1) l.
Proof.
  split.
  - intros Hl. split; [replace p with (p + Z.of_nat 0) by lia; by apply Hl|]. intros i c Hi. replace (p + 1 + Z.of_nat i) with (p + Z.of_nat (S i)) by lia. by apply Hl.
  - intros [Hb Hl] [|i] c Hi; [injection Hi as <-; by replace (p + Z.of_nat 0) with p by lia|].
    replace (p + Z.of_nat (S i)) with (p + 1 + Z.of_nat i) by lia. by apply Hl.
Qed.

Lemma holds_app m l2 : forall l1 p, stores m p (l1 ++ l2) <-> stores m p l1 /\ stores m (p + Z.of_nat (length l1)) l2.
Proof.
  induction l1 as [|b l1 IH]; intros p.
  - cbn [app length]. replace (p + Z.of_nat 0) with p by lia. split; [by split; [apply holds_nil|]|by intros [_ ?]].
  - cbn [app]. rewrite !holds_cons, IH. replace (p + Z.of_nat (length (b :: l1))) with (p + 1 + Z.of_nat (length l1)) by (simpl; lia). tauto.
Qed.

Lemma elem_of_range p n a : a ∈ range p n <-> p <= a < p + n.
Proof.
  unfold range. rewrite list_elem_of_fmap. setoid_rewrite elem_of_seq. split; [intros (i & -> & Hi); lia|]. intros Ha. exists (Z.to_nat (a - p)). lia.
Qed.

Lemma NoDup_range p n : NoDup (range p n).
Proof. apply NoDup_fmap_2_strong; [intros x y _ _ ?; lia|apply NoDup_seq]. Qed.

Lemma holds_byte m p l a : stores m p l -> p <= a < p + Z.of_nat (length l) -> is_Some (bytes m !! a).
Proof.
  intros Hl Ha. destruct (lookup_lt_is_Some_2 l (Z.to_nat (a - p))) as [b Hb]; [lia|]. exists b. replace a with (p + Z.of_nat (Z.to_nat (a - p))) by lia. by apply Hl.
Qed.

Lemma holds_size m p l : stores m p l -> (length l <= size (bytes m))%nat.
Proof.
  intros Hl. rewrite <-size_dom, <-(length_seq (length l) 0), <-(length_fmap (fun i => p + Z.of_nat i)).
  rewrite <-(size_list_to_set (C := gset ptr)).
  - apply subseteq_size. intros a (i & -> & Hi%elem_of_seq)%elem_of_list_to_set%list_elem_of_fmap. apply elem_of_dom. apply (holds_byte m p l); [done|lia].
  - apply NoDup_fmap_2_strong; [intros x y _ _ ?; lia|apply NoDup_seq].
Qed.

(** Where memory has not changed it holds what it held. *)
Lemma bytes_same m m' p l : stores m p l -> (forall a, p <= a < p + Z.of_nat (length l) -> bytes m' !! a = bytes m !! a) -> stores m' p l.
Proof. intros Hl Hs i b Hi. rewrite Hs; [by apply Hl|]. apply lookup_lt_Some in Hi. lia. Qed.

Lemma length_node_bytes n : Z.of_nat (length (node_bytes n)) = n_length n.
Proof. unfold node_bytes, n_length. rewrite length_app. simpl. lia. Qed.

Lemma nodes_size_cons n ns : nodes_size (n :: ns) = n_length n + nodes_size ns.
Proof. unfold nodes_size, nodes_bytes. cbn [fmap list_fmap concat]. rewrite length_app. pose proof (length_node_bytes n). lia. Qed.

Lemma nodes_bytes_app ns1 ns2 : nodes_bytes (ns1 ++ ns2) = nodes_bytes ns1 ++ nodes_bytes ns2.
Proof. unfold nodes_bytes. by rewrite fmap_app, List.concat_app. Qed.

Lemma nodes_size_app ns1 ns2 : nodes_size (ns1 ++ ns2) = nodes_size ns1 + nodes_size ns2.
Proof. unfold nodes_size. rewrite nodes_bytes_app, length_app. lia. Qed.

Lemma path_bytes_cons n ns : path_bytes (n :: ns) = node_bytes n ++ path_bytes ns.
Proof. unfold path_bytes, nodes_bytes. cbn [fmap list_fmap concat]. by rewrite app_assoc. Qed.

Lemma path_bytes_app ns1 ns2 : path_bytes (ns1 ++ ns2) = nodes_bytes ns1 ++ path_bytes ns2.
Proof. unfold path_bytes. by rewrite nodes_bytes_app, app_assoc. Qed.

Lemma length_path_bytes ns : Z.of_nat (length (path_bytes ns)) = path_size ns.
Proof. unfold path_bytes, path_size, nodes_size. rewrite length_app. simpl. unfold END_DEVICE_PATH_LENGTH. lia. Qed.

Lemma n_length_pos n : 4 <= n_length n.
Proof. unfold n_length. lia. Qed.

Lemma nodes_size_count ns : 4 * Z.of_nat (length ns) <= nodes_size ns.
Proof. induction ns as [|n ns IH]; [done|]. rewrite nodes_size_cons. pose proof (n_length_pos n). simpl. lia. Qed.

(** The bytes of a node determine it. *)
Lemma node_bytes_inj n1 n2 l1 l2 : n_length n1 < 0x10000 -> n_length n2 < 0x10000 -> node_bytes n1 ++ l1 = node_bytes n2 ++ l2 -> n1 = n2 /\ l1 = l2.
Proof.
  intros H1 H2 [= Ht Hs Hlo Hhi Hd]. assert (n_length n1 = n_length n2) as Hn.
  { pose proof (Z.div_mod (n_length n1) 256). pose proof (Z.div_mod (n_length n2) 256). lia. }
  assert (length (n_data n1) = length (n_data n2)) as Hlen by (unfold n_length in Hn; lia). apply app_inj_1 in Hd as [Hd ->]; [|done].
  split; [|done]. destruct n1, n2. simpl in *. congruence.
Qed.

(** The node that starts with given bytes. *)
Lemma node_of_bytes t s lo hi l : 0 <= lo < 256 -> 0 <= hi < 256 -> 4 <= lo + hi * 256 <= 4 + Z.of_nat (length l) ->
  exists n l', t :: s :: lo :: hi :: l = node_bytes n ++ l' /\ n_type n = t /\ n_subtype n = s /\ n_length n = lo + hi * 256 /\ length l' = Z.to_nat (4 + Z.of_nat (length l) - (lo + hi * 256)).
Proof.
  intros Hlo Hhi Hn. exists (MkNode t s (take (Z.to_nat (lo + hi * 256 - 4)) l)), (drop (Z.to_nat (lo + hi * 256 - 4)) l).
  assert (n_length (MkNode t s (take (Z.to_nat (lo + hi * 256 - 4)) l)) = lo + hi * 256) as Hlen by (unfold n_length; cbn [n_data]; rewrite length_take; lia).
  split; [|by rewrite length_drop; repeat split; try done; lia]. unfold node_bytes. rewrite Hlen. cbn [n_type n_subtype n_data app]. rewrite take_drop.
  repeat f_equal; [rewrite Z.mod_add by lia; by rewrite Z.mod_small|rewrite Z.div_add by lia; by rewrite Z.div_small].
Qed.

(** ** Well-formed memory *)

Section Memory.
Context `{PathPlatform}.

(** Addresses and bytes are in range (those of X64 with bit 63 are not used by
    firmware), and the template of an end node is there. *)
Record wf (m : Memory) : Prop := {
  wf_address : forall a b, bytes m !! a = Some b -> 0 <= a < 2 ^ 63 /\ 0 <= b < 256;
  wf_template : stores m mUefiDevicePathLibEndDevicePath end_bytes;
  wf_template_pos : 0 < mUefiDevicePathLibEndDevicePath }.

Lemma wf_holds m p l : wf m -> stores m p l -> Forall (fun b => 0 <= b < 256) l.
Proof. intros Hw Hl. apply Forall_lookup. intros i b Hi. apply (wf_address m Hw (p + Z.of_nat i)). by apply Hl. Qed.

(** What memory holds ends at the last address. *)
Lemma held_room m p l : wf m -> stores m p l -> l <> [] -> 0 <= p /\ p + Z.of_nat (length l) <= 2 ^ 63.
Proof.
  intros Hw Hl Hne. assert (0 < length l)%nat as Hlen by (destruct l; [done|simpl; lia]).
  destruct (holds_byte m p l p Hl) as [b Hb]; [lia|]. destruct (holds_byte m p l (p + Z.of_nat (length l) - 1) Hl) as [c Hc]; [lia|].
  apply (wf_address m Hw) in Hb, Hc. lia.
Qed.

(** ** Reading a node *)

Lemma join_bytes lo hi : 0 <= lo < 256 -> 0 <= hi -> Z.lor lo (Z.shiftl hi 8) = lo + hi * 256.
Proof.
  intros Hlo Hhi. rewrite Z.shiftl_mul_pow2 by lia. change (2 ^ 8) with 256. symmetry. apply Z.add_nocarry_lor. apply Z.bits_inj'. intros k Hk.
  rewrite Z.land_spec, Z.bits_0. destruct (Z.lt_ge_cases k 8).
  - change 256 with (2 ^ 8). rewrite Z.mul_pow2_bits_low by lia. apply andb_false_r.
  - replace (Z.testbit lo k) with false; [done|]. symmetry. rewrite <-(Z.mod_small lo (2 ^ 8)) by lia. apply Z.mod_pow2_bits_high. lia.
Qed.

(** The header of the node at [p]. *)
Definition head (m : Memory) (p : ptr) (t s n : Z) : Prop :=
  0 < p /\ exists lo hi, stores m p [t; s; lo; hi] /\ 0 <= lo < 256 /\ 0 <= hi < 256 /\ n = lo + hi * 256.

Lemma header_of m p t s lo hi l : wf m -> 0 < p -> stores m p (t :: s :: lo :: hi :: l) -> head m p t s (lo + hi * 256).
Proof.
  intros Hw Hp Hl. pose proof (wf_holds m p _ Hw Hl) as Hb. rewrite !Forall_cons in Hb. destruct Hb as (_ & _ & Hlo & Hhi & _).
  split; [done|]. exists lo, hi. apply (holds_app m l [t; s; lo; hi]) in Hl as [Hl _]. done.
Qed.

Lemma node_header m p n l : wf m -> 0 < p -> n_length n < 0x10000 -> stores m p (node_bytes n ++ l) -> head m p (n_type n) (n_subtype n) (n_length n).
Proof.
  intros Hw Hp Hn Hl. pose proof (n_length_pos n). replace (n_length n) with (n_length n mod 256 + n_length n / 256 * 256) by (pose proof (Z.div_mod (n_length n) 256); lia).
  by apply (header_of m p _ _ _ _ (n_data n ++ l)).
Qed.

Lemma end_head m p l : wf m -> 0 < p -> stores m p (end_bytes ++ l) -> head m p END_DEVICE_PATH_TYPE END_ENTIRE_DEVICE_PATH_SUBTYPE END_DEVICE_PATH_LENGTH.
Proof. intros Hw Hp Hl. by apply (header_of m p _ _ 4 0 l). Qed.

Section Head.
Context (m : Memory) (p : ptr) (t s n : Z) (Hh : head m p t s n).

Lemma head_bytes : (p =? NULL) = false /\ exists lo hi, read8 m p = Ok t /\ read8 m (p + 1) = Ok s /\ read8 m (p + 2) = Ok lo /\ read8 m (p + 2 + 1) = Ok hi /\
  (p + 2 =? NULL) = false /\ Z.lor lo (Z.shiftl hi 8) = n.
Proof.
  destruct Hh as (Hp & lo & hi & Hl & Hlo & Hhi & ->). unfold NULL. split; [lia|]. exists lo, hi. rewrite !holds_cons in Hl. destruct Hl as (H1 & H2 & H3 & H4 & _).
  replace (p + 2 + 1) with (p + 1 + 1 + 1) by lia. replace (p + 2) with (p + 1 + 1) by lia. unfold read8. rewrite H1, H2, H3, H4.
  do 4 (split; [done|]). split; [lia|]. apply join_bytes; lia.
Qed.

Lemma DevicePathType_head : DevicePathType m p = Ok t.
Proof. unfold DevicePathType. destruct head_bytes as (-> & lo & hi & E & _). exact E. Qed.

Lemma DevicePathSubType_head : DevicePathSubType m p = Ok s.
Proof. unfold DevicePathSubType. destruct head_bytes as (-> & lo & hi & _ & E & _). exact E. Qed.

Lemma DevicePathNodeLength_head : DevicePathNodeLength m p = Ok n.
Proof.
  unfold DevicePathNodeLength, ReadUnaligned16, read16. destruct head_bytes as (-> & lo & hi & _ & _ & E1 & E2 & -> & Hv).
  cbn [negb ASSERT mbind result_bind]. rewrite E1. cbn [mbind result_bind]. rewrite E2. cbn [mbind result_bind]. by rewrite Hv.
Qed.

Lemma NextDevicePathNode_head : NextDevicePathNode m p = Ok (p + n).
Proof. unfold NextDevicePathNode. rewrite DevicePathNodeLength_head. by destruct head_bytes as (-> & _). Qed.

Lemma IsDevicePathEndType_head : IsDevicePathEndType m p = Ok (t =? END_DEVICE_PATH_TYPE).
Proof. unfold IsDevicePathEndType. rewrite DevicePathType_head. by destruct head_bytes as (-> & _). Qed.

Lemma IsDevicePathEnd_head : IsDevicePathEnd m p = Ok ((t =? END_DEVICE_PATH_TYPE) && (s =? END_ENTIRE_DEVICE_PATH_SUBTYPE)).
Proof.
  unfold IsDevicePathEnd. rewrite IsDevicePathEndType_head, DevicePathSubType_head. destruct head_bytes as (-> & _). by destruct (t =? END_DEVICE_PATH_TYPE).
Qed.

Lemma IsDevicePathEndInstance_head : IsDevicePathEndInstance m p = Ok ((t =? END_DEVICE_PATH_TYPE) && (s =? END_INSTANCE_DEVICE_PATH_SUBTYPE)).
Proof.
  unfold IsDevicePathEndInstance. rewrite IsDevicePathEndType_head, DevicePathSubType_head. destruct head_bytes as (-> & _). by destruct (t =? END_DEVICE_PATH_TYPE).
Qed.
End Head.

(** The last two bytes of a node, as the terminator of a string. *)
Lemma read16_last m p n l : wf m -> 0 < p -> stores m p (node_bytes n ++ l) -> exists c, read16 m (p + n_length n - 2) = Ok c /\
  (c =? 0) = (List.nth (Z.to_nat (n_length n - 2)) (node_bytes n) 0 =? 0) && (List.nth (Z.to_nat (n_length n - 1)) (node_bytes n) 0 =? 0).
Proof.
  intros Hw Hp [Hl _]%holds_app. pose proof (wf_holds m p _ Hw Hl) as Hb. pose proof (length_node_bytes n). pose proof (n_length_pos n).
  assert (forall k, 0 <= k < n_length n -> read8 m (p + k) = Ok (List.nth (Z.to_nat k) (node_bytes n) 0) /\ 0 <= List.nth (Z.to_nat k) (node_bytes n) 0 < 256) as Hr.
  { intros k Hk. destruct (lookup_lt_is_Some_2 (node_bytes n) (Z.to_nat k)) as [b E]; [lia|]. rewrite (nth_lookup_Some _ _ 0 b E).
    split; [|by apply (Forall_lookup_1 _ _ _ _ Hb E)]. unfold read8. replace (p + k) with (p + Z.of_nat (Z.to_nat k)) by lia. by rewrite (Hl _ _ E). }
  destruct (Hr (n_length n - 2)) as [E1 B1]; [lia|]. destruct (Hr (n_length n - 1)) as [E2 B2]; [lia|]. unfold read16.
  replace (p + n_length n - 2) with (p + (n_length n - 2)) by lia. replace (p + (n_length n - 2) + 1) with (p + (n_length n - 1)) by lia. rewrite E1. cbn [mbind result_bind].
  rewrite E2. cbn [mbind result_bind]. eexists. split; [done|]. rewrite join_bytes by lia. apply eq_true_iff_eq. bool_to_prop. lia.
Qed.
End Memory.
