(* ===== verification/DevicePathValid.v ===== *)
(** * Device paths: validation and traversal

    [IsDevicePathValid] decides the grammar of device paths on any bytes, within
    the size it is given, and it ends on any memory.  The loops that look for an
    end node find it in a path. *)

From S2P Require Import Prelude DevicePath DevicePathSpec.

Section Valid.
Context `{PathPlatform} (PcdMaximumDevicePathNodeCount : Z).

(** The limit on the number of nodes; 0 is no limit. *)
Definition count_ok (k : Z) : bool := (PcdMaximumDevicePathNodeCount <=? 0) || (k <? PcdMaximumDevicePathNodeCount).
Definition acceptable (ns : list node) : bool := count_ok (Z.of_nat (length ns)) && forallb terminated ns.

(** A path in memory. *)
Record path_at (m : Memory) (p : ptr) (ns : list node) : Prop := {
  path_holds : stores m p (path_bytes ns);
  path_good : Forall good ns;
  path_pos : 0 < p }.

Lemma path_head m p n ns : wf m -> path_at m p (n :: ns) -> head m p (n_type n) (n_subtype n) (n_length n).
Proof. intros Hw [Hl [[Hn _] _]%Forall_cons Hp]. rewrite path_bytes_cons in Hl. by apply (node_header m p n (path_bytes ns)). Qed.

Lemma path_rest m p n ns : path_at m p (n :: ns) -> path_at m (p + n_length n) ns.
Proof.
  intros [Hl [_ Hg]%Forall_cons Hp]. rewrite path_bytes_cons in Hl. apply holds_app in Hl as [_ Hl]. rewrite length_node_bytes in Hl.
  split; [done|done|]. pose proof (n_length_pos n). lia.
Qed.

Lemma path_end m p : wf m -> path_at m p [] -> head m p END_DEVICE_PATH_TYPE END_ENTIRE_DEVICE_PATH_SUBTYPE END_DEVICE_PATH_LENGTH.
Proof. intros Hw [Hl _ Hp]. by apply (end_head m p []). Qed.

Lemma good_not_end n : good n -> (n_type n =? END_DEVICE_PATH_TYPE) && (n_subtype n =? END_ENTIRE_DEVICE_PATH_SUBTYPE) = false.
Proof. intros (_ & _ & Hne). apply not_true_iff_false. rewrite andb_true_iff, !Z.eqb_eq. tauto. Qed.

Lemma path_room m p ns : wf m -> path_at m p ns -> p + path_size ns <= 2 ^ 63.
Proof. intros Hw [Hl _ Hp]. rewrite <-length_path_bytes. apply (held_room m p _ Hw Hl). unfold path_bytes. by destruct (nodes_bytes ns). Qed.

Lemma path_fuel m p ns : path_at m p ns -> (length ns < node_fuel m)%nat.
Proof.
  intros [Hl _ _]. apply holds_size in Hl. pose proof (length_path_bytes ns) as Hs. unfold path_size in Hs. pose proof (nodes_size_count ns). unfold node_fuel, END_DEVICE_PATH_LENGTH in *. lia.
Qed.

(** ** One round of the validation *)

(** The round at a node, if it does not answer: the new size and count. *)
Definition round_ok (MaxSize Count Size n : Z) : bool :=
  (sizeof_EFI_DEVICE_PATH_PROTOCOL <=? n) && (Size + n <=? MaxSize - END_DEVICE_PATH_LENGTH) &&
  ((PcdMaximumDevicePathNodeCount <=? 0) || (Count + 1 <? PcdMaximumDevicePathNodeCount)).
Definition next_count (Count : Z) : Z := if PcdMaximumDevicePathNodeCount >? 0 then Count + 1 else Count.

Lemma loop_end fuel m MaxSize Count Size p t s n : head m p t s n -> (t =? END_DEVICE_PATH_TYPE) && (s =? END_ENTIRE_DEVICE_PATH_SUBTYPE) = true ->
  IsDevicePathValid_loop PcdMaximumDevicePathNodeCount (S fuel) m MaxSize Count Size p = Ok (n =? END_DEVICE_PATH_LENGTH).
Proof. intros Hh He. cbn [IsDevicePathValid_loop]. rewrite (IsDevicePathEnd_head _ _ _ _ _ Hh), He. cbn [mbind result_bind]. by rewrite (DevicePathNodeLength_head _ _ _ _ _ Hh). Qed.

Lemma loop_node fuel m MaxSize Count Size p t s n : head m p t s n -> (t =? END_DEVICE_PATH_TYPE) && (s =? END_ENTIRE_DEVICE_PATH_SUBTYPE) = false ->
  MaxSize <= MAX_UINTN -> 0 <= Size -> n < 0x10000 ->
  IsDevicePathValid_loop PcdMaximumDevicePathNodeCount (S fuel) m MaxSize Count Size p =
  if round_ok MaxSize Count Size n then
    let! unterminated := (if (t =? MEDIA_DEVICE_PATH) && (s =? MEDIA_FILEPATH_DP) then let! c := read16 m (p + n - 2) in Ok (negb (c =? 0)) else Ok false) in
    if (unterminated : bool) then Ok false else IsDevicePathValid_loop PcdMaximumDevicePathNodeCount fuel m MaxSize (next_count Count) (Size + n) (p + n)
  else Ok false.
Proof.
  intros Hh He Hmax Hsize Hn. cbn [IsDevicePathValid_loop]. rewrite (IsDevicePathEnd_head _ _ _ _ _ Hh), He. cbn [mbind result_bind].
  rewrite (DevicePathNodeLength_head _ _ _ _ _ Hh), (DevicePathType_head _ _ _ _ _ Hh), (DevicePathSubType_head _ _ _ _ _ Hh), (NextDevicePathNode_head _ _ _ _ _ Hh).
  cbn [mbind result_bind]. unfold round_ok, next_count, MAX_UINTN, MAX_UINT64, sizeof_EFI_DEVICE_PATH_PROTOCOL, END_DEVICE_PATH_LENGTH in *.
  destruct (n <? 4) eqn:E1; [by replace (4 <=? n) with false by lia|]. replace (4 <=? n) with true by lia.
  destruct (n >? _ - Size) eqn:E2; [by replace (Size + n <=? MaxSize - 4) with false by lia|].
  destruct (Size + n >? MaxSize - 4) eqn:E3; [by replace (Size + n <=? MaxSize - 4) with false by lia|]. replace (Size + n <=? MaxSize - 4) with true by lia.
  cbn [andb]. destruct (PcdMaximumDevicePathNodeCount >? 0) eqn:E4; cbn [andb].
  - destruct (Count + 1 >=? PcdMaximumDevicePathNodeCount) eqn:E5; [by replace (PcdMaximumDevicePathNodeCount <=? 0) with false by lia; replace (Count + 1 <? PcdMaximumDevicePathNodeCount) with false by lia|].
    replace (Count + 1 <? PcdMaximumDevicePathNodeCount) with true by lia. rewrite orb_true_r. destruct (t =? MEDIA_DEVICE_PATH); [|done]. by destruct (s =? MEDIA_FILEPATH_DP).
  - replace (PcdMaximumDevicePathNodeCount <=? 0) with true by lia. cbn [orb]. destruct (t =? MEDIA_DEVICE_PATH); [|done]. by destruct (s =? MEDIA_FILEPATH_DP).
Qed.

(** The same at a node that is in memory with all its bytes. *)
Lemma loop_whole fuel m MaxSize Count Size p n l : wf m -> 0 < p -> good n -> stores m p (node_bytes n ++ l) -> MaxSize <= MAX_UINTN -> 0 <= Size ->
  IsDevicePathValid_loop PcdMaximumDevicePathNodeCount (S fuel) m MaxSize Count Size p =
  if round_ok MaxSize Count Size (n_length n) && terminated n
  then IsDevicePathValid_loop PcdMaximumDevicePathNodeCount fuel m MaxSize (next_count Count) (Size + n_length n) (p + n_length n) else Ok false.
Proof.
  intros Hw Hp Hg Hl Hmax Hsize. pose proof Hg as [Hn _]. rewrite (loop_node fuel m MaxSize Count Size p _ _ _ (node_header m p n l Hw Hp Hn Hl) (good_not_end n Hg)) by done.
  destruct (round_ok _ _ _ _); [|done]. unfold terminated. destruct ((n_type n =? MEDIA_DEVICE_PATH) && _); [|done].
  destruct (read16_last m p n l Hw Hp Hl) as (c & -> & Hc). cbn [mbind result_bind negb orb andb]. rewrite <-Hc. by destruct (c =? 0).
Qed.

(** ** On a path *)

(** Whether the nodes still to come are within the limits. *)
Definition rest_ok (MaxSize Count Size : Z) (ns : list node) : bool :=
  (Size + nodes_size ns <=? MaxSize - END_DEVICE_PATH_LENGTH) && count_ok (Count + Z.of_nat (length ns)) && forallb terminated ns.

Lemma rest_ok_cons MaxSize Count Size n ns : 0 <= Count ->
  rest_ok MaxSize Count Size (n :: ns) = round_ok MaxSize Count Size (n_length n) && terminated n && rest_ok MaxSize (next_count Count) (Size + n_length n) ns.
Proof.
  intros Hc. unfold rest_ok, round_ok, count_ok, next_count, sizeof_EFI_DEVICE_PATH_PROTOCOL. rewrite nodes_size_cons. cbn [forallb length].
  pose proof (n_length_pos n). pose proof (nodes_size_count ns). apply eq_true_iff_eq. destruct (PcdMaximumDevicePathNodeCount >? 0) eqn:E; bool_to_prop; intuition lia.
Qed.

Lemma loop_path fuel m MaxSize ns : wf m -> MaxSize <= MAX_UINTN -> forall p Count Size, path_at m p ns -> 0 <= Count -> 0 <= Size <= MaxSize - END_DEVICE_PATH_LENGTH ->
  count_ok Count = true -> (length ns < fuel)%nat -> IsDevicePathValid_loop PcdMaximumDevicePathNodeCount fuel m MaxSize Count Size p = Ok (rest_ok MaxSize Count Size ns).
Proof.
  intros Hw Hmax. revert fuel. induction ns as [|n ns IH]; intros [|fuel] p Count Size Hp Hc Hs Hok Hf; [by inversion Hf| |by inversion Hf|].
  - rewrite (loop_end _ _ _ _ _ _ _ _ _ (path_end m p Hw Hp)) by done. unfold rest_ok. cbn [length forallb]. change (nodes_size []) with 0. rewrite !Z.add_0_r, Hok, (proj2 (Z.leb_le _ _)) by lia. done.
  - pose proof Hp as [Hl [Hg _]%Forall_cons Hpos]. rewrite path_bytes_cons in Hl. rewrite (loop_whole fuel m MaxSize Count Size p n (path_bytes ns)) by (try done; lia).
    rewrite (rest_ok_cons _ _ _ _ _ Hc). destruct (round_ok _ _ _ _) eqn:Er; [|done]. destruct (terminated n); [|done]. cbn [andb]. unfold round_ok, sizeof_EFI_DEVICE_PATH_PROTOCOL in Er.
    pose proof (n_length_pos n). apply IH; [by apply path_rest|unfold next_count; destruct (_ >? 0); lia|lia| |simpl in Hf; lia]. unfold count_ok, next_count in *. destruct (_ >? 0) eqn:?; lia.
Qed.

(** A path in memory is valid exactly if it has no more nodes than allowed and
    its file names are terminated, and it is not larger than [MaxSize]. *)
Lemma IsDevicePathValid_path m p ns MaxSize : wf m -> path_at m p ns -> 0 <= MaxSize <= MAX_UINTN ->
  IsDevicePathValid PcdMaximumDevicePathNodeCount m p MaxSize = Ok (((MaxSize =? 0) || (path_size ns <=? MaxSize)) && acceptable ns).
Proof.
  intros Hw Hp Hmax. pose proof (path_room m p ns Hw Hp). pose proof (path_pos _ _ _ Hp). pose proof (nodes_size_count ns). unfold IsDevicePathValid, NULL.
  replace (p =? 0) with false by lia. cbn [orb]. destruct (_ && _) eqn:E.
  - unfold path_size. f_equal. unfold END_DEVICE_PATH_LENGTH in *. destruct (acceptable ns); lia.
  - assert (count_ok 0 = true) as Hc by (unfold count_ok; lia). rewrite (loop_path (node_fuel m) m _ ns Hw); [|destruct (_ =? 0); lia|done|lia|unfold MAX_UINTN, MAX_UINT64, END_DEVICE_PATH_LENGTH in *; destruct (MaxSize =? 0) eqn:?; lia|done|by apply path_fuel in Hp].
    f_equal. unfold rest_ok, acceptable. rewrite !Z.add_0_l, <-andb_assoc. f_equal. unfold path_size, MAX_UINTN, MAX_UINT64, END_DEVICE_PATH_LENGTH in *. destruct (MaxSize =? 0) eqn:?; lia.
Qed.

(** ** On any bytes *)

(** [l] starts with a path that is acceptable after [Count] nodes. *)
Definition starts_path (Count : Z) (l : list Z) : Prop := exists ns rest, l = path_bytes ns ++ rest /\ Forall good ns /\ count_ok (Count + Z.of_nat (length ns)) = true /\ forallb terminated ns = true.

Lemma starts_path_end Count t s lo hi l : (t =? END_DEVICE_PATH_TYPE) && (s =? END_ENTIRE_DEVICE_PATH_SUBTYPE) = true -> 0 <= lo < 256 -> 0 <= hi < 256 -> count_ok Count = true ->
  (lo + hi * 256 =? END_DEVICE_PATH_LENGTH) = true <-> starts_path Count (t :: s :: lo :: hi :: l).
Proof.
  intros [->%Z.eqb_eq ->%Z.eqb_eq]%andb_true_iff Hlo Hhi Hc. rewrite Z.eqb_eq. split.
  - intros Hn. exists [], l. unfold END_DEVICE_PATH_LENGTH in Hn. replace lo with 4 by lia. replace hi with 0 by lia. rewrite Z.add_0_r. done.
  - intros ([|n ns] & rest & Hl & Hg & _); [by injection Hl as -> -> _|]. apply Forall_cons in Hg as [(_ & _ & Hne) _]. rewrite path_bytes_cons in Hl. injection Hl as Ht Hs _. by destruct Hne.
Qed.

Lemma starts_path_cons Count n l : good n -> 0 <= Count -> starts_path Count (node_bytes n ++ l) <->
  (terminated n = true /\ ((PcdMaximumDevicePathNodeCount <=? 0) || (Count + 1 <? PcdMaximumDevicePathNodeCount)) = true /\ (4 <= length l)%nat /\ starts_path (next_count Count) l).
Proof.
  intros Hg Hc. split.
  - intros ([|n' ns] & rest & Hl & Hgs & Hk & Ht).
    + exfalso. destruct Hg as (_ & _ & Hne). injection Hl as Ht' Hs' _. by destruct Hne.
    + rewrite path_bytes_cons, <-app_assoc in Hl. apply Forall_cons in Hgs as [Hg' Hgs]. apply node_bytes_inj in Hl as [<- ->]; [|by destruct Hg|by destruct Hg'].
      apply andb_true_iff in Ht as [Ht Hts]. split; [done|]. cbn [length] in Hk. pose proof (length_path_bytes ns) as Hlen. unfold path_size, END_DEVICE_PATH_LENGTH in Hlen. pose proof (nodes_size_count ns).
      split; [unfold count_ok in Hk; bool_to_prop; lia|]. split; [rewrite length_app; lia|]. exists ns, rest. split; [done|]. split; [done|]. split; [|done].
      unfold count_ok, next_count in *. destruct (_ >? 0) eqn:?; bool_to_prop; lia.
  - intros (Ht & Hk & _ & ns & rest & -> & Hgs & Hks & Hts). exists (n :: ns), rest. rewrite path_bytes_cons, app_assoc. split; [done|]. split; [by apply Forall_cons|].
    split; [|cbn [forallb]; by rewrite Ht, Hts]. unfold count_ok, next_count in *. cbn [length]. destruct (_ >? 0) eqn:?; bool_to_prop; lia.
Qed.

Lemma starts_path_length Count t s lo hi l : (t =? END_DEVICE_PATH_TYPE) && (s =? END_ENTIRE_DEVICE_PATH_SUBTYPE) = false -> starts_path Count (t :: s :: lo :: hi :: l) ->
  4 <= lo + hi * 256 <= Z.of_nat (length l).
Proof.
  intros He ([|n ns] & rest & Hl & Hgs & _); [injection Hl as -> -> _; by vm_compute in He|]. rewrite path_bytes_cons, <-app_assoc in Hl.
  pose proof (f_equal length Hl) as Hlen. rewrite !length_app in Hlen. pose proof (length_node_bytes n). pose proof (length_path_bytes ns) as Hp. unfold path_size, END_DEVICE_PATH_LENGTH in Hp. pose proof (nodes_size_count ns).
  change (length (t :: s :: lo :: hi :: l)) with (4 + length l)%nat in Hlen. injection Hl as -> -> -> -> _. pose proof (n_length_pos n). pose proof (Z.div_mod (n_length n) 256). lia.
Qed.

Lemma loop_bytes m MaxSize : wf m -> MaxSize <= MAX_UINTN -> forall fuel p Count Size l, stores m p l -> 0 < p -> 0 <= Count -> count_ok Count = true -> 0 <= Size ->
  (4 <= length l)%nat -> Size + Z.of_nat (length l) = MaxSize -> (length l < fuel)%nat ->
  exists b, IsDevicePathValid_loop PcdMaximumDevicePathNodeCount fuel m MaxSize Count Size p = Ok b /\ (b = true <-> starts_path Count l).
Proof.
  intros Hw Hmax. induction fuel as [|fuel IH]; intros p Count Size l Hl Hp Hc Hok Hs Hlen Hsize Hf; [lia|].
  destruct l as [|t [|s [|lo [|hi l]]]]; [simpl in Hlen; lia..|]. pose proof (header_of m p t s lo hi l Hw Hp Hl) as Hh. pose proof (wf_holds m p _ Hw Hl) as Hb.
  rewrite !Forall_cons in Hb. destruct Hb as (_ & _ & Hlo & Hhi & Hb). destruct ((t =? END_DEVICE_PATH_TYPE) && (s =? END_ENTIRE_DEVICE_PATH_SUBTYPE)) eqn:He.
  - rewrite (loop_end fuel m MaxSize Count Size p t s _ Hh He). eexists. split; [done|]. by apply starts_path_end.
  - destruct (decide (4 <= lo + hi * 256 <= Z.of_nat (length l))) as [Hn|Hn]; cycle 1.
    + rewrite (loop_node fuel m MaxSize Count Size p t s _ Hh He) by lia. unfold round_ok. exists false. split; [|split; [done|intros Hst; by apply starts_path_length in Hst]].
      unfold sizeof_EFI_DEVICE_PATH_PROTOCOL, END_DEVICE_PATH_LENGTH. cbn [length] in Hsize. replace ((4 <=? lo + hi * 256) && _) with false; [done|lia].
    + destruct (node_of_bytes t s lo hi l Hlo Hhi) as (n & l' & E & Ht & Hst & Hnl & Hl'); [lia|]. rewrite E in *. assert (good n) as Hg.
      { split; [lia|]. split; [|rewrite Ht, Hst; intros [-> ->]; by vm_compute in He]. pose proof (wf_holds m p _ Hw Hl) as Hb'. by apply Forall_app in Hb' as [? _]. }
      rewrite (loop_whole fuel m MaxSize Count Size p n l') by done. pose proof (starts_path_cons Count n l' Hg Hc) as Hsc. pose proof (length_node_bytes n). rewrite length_app in Hsize, Hf.
      destruct (round_ok _ _ _ _) eqn:Er; unfold round_ok, sizeof_EFI_DEVICE_PATH_PROTOCOL, END_DEVICE_PATH_LENGTH in Er; [|exists false; split; [done|]; split; [done|]; intros (_ & Hk & Hl4 & _)%Hsc; rewrite Hk, andb_true_r in Er; lia].
      destruct (terminated n); [|exists false; split; [done|]; split; [done|]; by intros []%Hsc]. cbn [andb]. apply andb_true_iff in Er as [Er Hk]. apply holds_app in Hl as [_ Hl]. rewrite length_node_bytes in Hl.
      destruct (IH (p + n_length n) (next_count Count) (Size + n_length n) l') as (b & -> & Hb'); [done|lia|unfold next_count; destruct (_ >? 0); lia|unfold count_ok, next_count; destruct (_ >? 0) eqn:?; lia|lia..|].
      exists b. split; [done|]. rewrite Hb', Hsc. assert (4 <= length l')%nat by lia. tauto.
Qed.

Lemma IsDevicePathValid_bytes m p l : wf m -> stores m p l -> 0 < p -> (4 <= length l)%nat ->
  exists b, IsDevicePathValid PcdMaximumDevicePathNodeCount m p (Z.of_nat (length l)) = Ok b /\ (b = true <-> starts_path 0 l).
Proof.
  intros Hw Hl Hp Hlen. unfold IsDevicePathValid, NULL, END_DEVICE_PATH_LENGTH. replace (p =? 0) with false by lia. replace (_ && _) with false by lia. replace (Z.of_nat (length l) =? 0) with false by lia.
  cbn [orb]. destruct (held_room m p l Hw Hl) as [_ Hroom]; [intros ->; simpl in Hlen; lia|]. apply loop_bytes; try done; [unfold MAX_UINTN, MAX_UINT64; lia|unfold count_ok; lia|]. apply holds_size in Hl. unfold node_fuel. lia.
Qed.

(** ** Termination *)

Definition ends {A} (r : result A) : Prop := r <> NoFuel.

Lemma ends_bind {A B} (r : result A) (f : A -> result B) : ends r -> (forall a, r = Ok a -> ends (f a)) -> ends (let! x := r in f x).
Proof. intros Hr Hf. destruct r as [a| | |]; [by apply Hf|done..]. Qed.

Lemma ends_read8 m p : ends (read8 m p).
Proof. unfold read8. by destruct (bytes m !! p). Qed.

Lemma ends_read16 m p : ends (read16 m p).
Proof. unfold read16. apply ends_bind; [apply ends_read8|]. intros lo _. apply ends_bind; [apply ends_read8|done]. Qed.

Lemma ends_assert {A} b (r : result A) : ends r -> ends (do! ASSERT b ;; r).
Proof. by destruct b. Qed.

Lemma ends_DevicePathType m p : ends (DevicePathType m p).
Proof. apply ends_assert, ends_read8. Qed.

Lemma ends_DevicePathSubType m p : ends (DevicePathSubType m p).
Proof. apply ends_assert, ends_read8. Qed.

Lemma ends_DevicePathNodeLength m p : ends (DevicePathNodeLength m p).
Proof. apply ends_assert, ends_assert, ends_read16. Qed.

Lemma ends_IsDevicePathEnd m p : ends (IsDevicePathEnd m p).
Proof.
  apply ends_assert, ends_bind; [apply ends_assert, ends_bind; [apply ends_DevicePathType|done]|]. intros [] _; [|done].
  apply ends_bind; [apply ends_DevicePathSubType|done].
Qed.

Lemma IsDevicePathEnd_reads m p e : IsDevicePathEnd m p = Ok e -> is_Some (bytes m !! p).
Proof.
  unfold IsDevicePathEnd, IsDevicePathEndType, DevicePathType. destruct (p =? NULL); [done|]. cbn [negb ASSERT mbind result_bind]. unfold read8. by destruct (bytes m !! p).
Qed.

(** The bytes of memory from [p] on. *)
Definition bytes_from (m : Memory) (p : ptr) : nat := size (filter (fun x => p <= x.1) (bytes m)).

Lemma bytes_from_less m p n : is_Some (bytes m !! p) -> 0 < n -> (bytes_from m (p + n) < bytes_from m p)%nat.
Proof.
  intros [b Hb] Hn. apply map_subset_size. split.
  - apply map_subseteq_spec. intros a c [E Ha]%map_lookup_filter_Some. cbn [fst] in Ha. apply map_lookup_filter_Some. split; [done|]. cbn [fst]. lia.
  - intros Hsub. assert (filter (fun x => p <= x.1) (bytes m) !! p = Some b) as E by (apply map_lookup_filter_Some; cbn [fst]; split; [done|lia]).
    apply (lookup_weaken _ _ _ _ E) in Hsub. apply map_lookup_filter_Some in Hsub as [_ Hle]. cbn [fst] in Hle. lia.
Qed.

Lemma loop_ends m MaxSize : forall fuel p Count Size, (bytes_from m p < fuel)%nat -> ends (IsDevicePathValid_loop PcdMaximumDevicePathNodeCount fuel m MaxSize Count Size p).
Proof.
  induction fuel as [|fuel IH]; intros p Count Size Hf; [lia|]. cbn [IsDevicePathValid_loop]. apply ends_bind; [apply ends_IsDevicePathEnd|]. intros e He.
  destruct e; [apply ends_bind; [apply ends_DevicePathNodeLength|done]|]. apply ends_bind; [apply ends_DevicePathNodeLength|]. intros n Hn.
  unfold sizeof_EFI_DEVICE_PATH_PROTOCOL. destruct (n <? 4) eqn:Hn4; [done|]. destruct (n >? MAX_UINTN - Size); [done|]. destruct (Size + n >? MaxSize - END_DEVICE_PATH_LENGTH); [done|]. destruct (_ && _); [done|].
  apply ends_bind; [apply ends_DevicePathType|]. intros t _. apply ends_bind.
  { destruct (t =? MEDIA_DEVICE_PATH); [|done]. apply ends_bind; [apply ends_DevicePathSubType|]. intros s _. destruct (s =? MEDIA_FILEPATH_DP); [|done]. by apply ends_bind; [apply ends_read16|]. }
  intros [] _; [done|]. apply ends_bind; [apply ends_assert, ends_bind; [apply ends_DevicePathNodeLength|done]|]. intros q Hq.
  unfold NextDevicePathNode in Hq. rewrite Hn in Hq. destruct (p =? NULL); [done|]. injection Hq as <-.
  apply IH. pose proof (bytes_from_less m p n (IsDevicePathEnd_reads _ _ _ He)). lia.
Qed.

Lemma IsDevicePathValid_ends m p MaxSize : ends (IsDevicePathValid PcdMaximumDevicePathNodeCount m p MaxSize).
Proof.
  unfold IsDevicePathValid. destruct (_ || _); [done|]. apply loop_ends. unfold node_fuel, bytes_from. apply Nat.lt_succ_r, map_subseteq_size, map_filter_subseteq.
Qed.

(** ** Looking for an end node *)

(** [IsEnd] tests the type and the subtype of a node. *)
Definition tests (IsEnd : Memory -> ptr -> result bool) (f : Z -> Z -> bool) : Prop := forall m p t s n, head m p t s n -> IsEnd m p = Ok (f t s).

Lemma tests_end : tests IsDevicePathEnd (fun t s => (t =? END_DEVICE_PATH_TYPE) && (s =? END_ENTIRE_DEVICE_PATH_SUBTYPE)).
Proof. intros m p t s n. apply IsDevicePathEnd_head. Qed.

Lemma tests_end_type : tests IsDevicePathEndType (fun t s => t =? END_DEVICE_PATH_TYPE).
Proof. intros m p t s n. apply IsDevicePathEndType_head. Qed.

(** The nodes before the one it stops at. *)
Fixpoint before (f : Z -> Z -> bool) (ns : list node) : list node :=
  match ns with [] => [] | n :: ns => if f (n_type n) (n_subtype n) then [] else n :: before f ns end.

Lemma FindNode_path IsEnd f m ns : wf m -> tests IsEnd f -> f END_DEVICE_PATH_TYPE END_ENTIRE_DEVICE_PATH_SUBTYPE = true ->
  forall fuel p, path_at m p ns -> (length ns < fuel)%nat -> FindNode fuel IsEnd m p = Ok (p + nodes_size (before f ns)).
Proof.
  intros Hw Ht Hf. induction ns as [|n ns IH]; intros [|fuel] p Hp Hlen; [by inversion Hlen| |by inversion Hlen|]; cbn [FindNode].
  - rewrite (Ht _ _ _ _ _ (path_end m p Hw Hp)), Hf. cbn [mbind result_bind before]. change (nodes_size []) with 0. by rewrite Z.add_0_r.
  - pose proof (path_head _ _ _ _ Hw Hp) as Hh. rewrite (Ht _ _ _ _ _ Hh). cbn [mbind result_bind before]. destruct (f (n_type n) (n_subtype n)); [change (nodes_size []) with 0; by rewrite Z.add_0_r|].
    rewrite (NextDevicePathNode_head _ _ _ _ _ Hh). cbn [mbind result_bind]. rewrite (IH fuel) by (first [by apply path_rest|simpl in Hlen; lia]). rewrite nodes_size_cons. f_equal. lia.
Qed.

Lemma before_good ns : Forall good ns -> before (fun t s => (t =? END_DEVICE_PATH_TYPE) && (s =? END_ENTIRE_DEVICE_PATH_SUBTYPE)) ns = ns.
Proof. induction 1 as [|n ns Hn _ IH]; [done|]. cbn [before]. by rewrite (good_not_end n Hn), IH. Qed.

(** The end of a path. *)
Lemma FindNode_end m p ns : wf m -> path_at m p ns -> FindNode (node_fuel m) IsDevicePathEnd m p = Ok (p + nodes_size ns).
Proof. intros Hw Hp. rewrite (FindNode_path _ _ m ns Hw tests_end) by (try done; by apply path_fuel in Hp). by rewrite before_good by apply Hp. Qed.

(** The end of its first instance. *)
Lemma FindNode_end_type m p ns : wf m -> path_at m p ns -> FindNode (node_fuel m) IsDevicePathEndType m p = Ok (p + nodes_size (before (fun t _ => t =? END_DEVICE_PATH_TYPE) ns)).
Proof. intros Hw Hp. apply (FindNode_path _ _ m ns Hw tests_end_type); [done..|by apply path_fuel in Hp]. Qed.
End Valid.
