(* ===== verification/DevicePathMemory.v ===== *)
(** * Device paths: copies and blocks

    What the copies and the pool do to memory: a new block has bytes that were
    free, and nothing else changes. *)

From S2P Require Import Prelude DevicePath DevicePathSpec.

(** The laws of the pool: a block it finds is free, at good addresses, and not at
    NULL. *)
Class PathLaws `{PathPlatform} := {
  FindBlock_free n m p : wf m -> 0 <= n -> FindBlock n m = Some p ->
    0 < p /\ p + n <= 2 ^ 63 /\ blocks m !! p = None /\ forall a, p <= a < p + n -> bytes m !! a = None;
  Garbage_byte p : 0 <= Garbage p < 256 }.

Abbreviation byte_list := (Forall (fun b => 0 <= b < 256)).

(** ** Copies *)

(** [m'] is [m] with [l] at [p]. *)
Definition written (m m' : Memory) (p : ptr) (l : list Z) : Prop :=
  stores m' p l /\ blocks m' = blocks m /\ forall a, ~ (p <= a < p + Z.of_nat (length l)) -> bytes m' !! a = bytes m !! a.

(** The [n] bytes at [p] may be accessed. *)
Definition accessible (m : Memory) (p : ptr) (n : Z) : Prop := forall a, p <= a < p + n -> is_Some (bytes m !! a).

Lemma read8_holds m p b l : stores m p (b :: l) -> read8 m p = Ok b.
Proof. intros [Hb _]%holds_cons. unfold read8. by rewrite Hb. Qed.

Lemma read_bytes_spec m l : forall p, stores m p l -> read_bytes (length l) m p = Ok l.
Proof.
  induction l as [|b l IH]; intros p Hl; [done|]. cbn [length read_bytes]. rewrite (read8_holds m p b l Hl). apply holds_cons in Hl as [_ Hl].
  cbn [mbind result_bind]. by rewrite (IH _ Hl).
Qed.

Lemma write8_spec m p b : is_Some (bytes m !! p) -> write8 m p b = Ok (MkMemory (<[p := b]> (bytes m)) (blocks m)).
Proof. intros [c Hc]. unfold write8, read8. by rewrite Hc. Qed.

Lemma write_bytes_spec l : forall m p, accessible m p (Z.of_nat (length l)) -> exists m', write_bytes l m p = Ok m' /\ written m m' p l.
Proof.
  induction l as [|b l IH]; intros m p Ha; [by exists m|]. cbn [length] in Ha. cbn [write_bytes]. rewrite write8_spec by (apply Ha; lia). cbn [mbind result_bind].
  destruct (IH (MkMemory (<[p := b]> (bytes m)) (blocks m)) (p + 1)) as (m' & -> & Hl & Hb & Hs).
  { intros a Hr. cbn [bytes]. destruct (decide (a = p)) as [->|]; [rewrite lookup_insert_eq; by eexists|]. rewrite lookup_insert_ne by done. apply Ha. lia. }
  exists m'. split; [done|]. cbn [bytes blocks] in Hs, Hb. split; [|split; [done|]].
  - apply holds_cons. split; [|done]. rewrite Hs by lia. by rewrite lookup_insert_eq.
  - intros a Hr. cbn [length] in Hr. rewrite Hs by lia. rewrite lookup_insert_ne by lia. done.
Qed.

Lemma holds_accessible m p l : stores m p l -> accessible m p (Z.of_nat (length l)).
Proof. intros Hl a Ha. by apply (holds_byte m p l). Qed.

Section Laws.
Context `{PathLaws}.

Lemma accessible_room m p n : wf m -> accessible m p n -> 0 < n -> 0 <= p /\ p + n <= 2 ^ 63.
Proof.
  intros Hw Ha Hn. destruct (Ha p) as [b Hb]; [lia|]. destruct (Ha (p + n - 1)) as [c Hc]; [lia|]. apply (wf_address m Hw) in Hb, Hc. lia.
Qed.

Lemma CopyMem_spec m d s l : wf m -> stores m s l -> accessible m d (Z.of_nat (length l)) ->
  exists m', CopyMem m d s (Z.of_nat (length l)) = Ok m' /\ written m m' d l.
Proof.
  intros Hw Hl Ha. unfold CopyMem. destruct l as [|b l]; [by exists m|]. replace (Z.of_nat (length (b :: l)) =? 0) with false by (simpl; lia).
  destruct (accessible_room m d _ Hw Ha); [simpl; lia|]. destruct (held_room m s _ Hw Hl); [done|]. unfold MAX_ADDRESS, MAX_UINT64.
  do 2 (match goal with |- context [ASSERT ?c] => replace c with true by lia end; cbn [ASSERT mbind result_bind]).
  destruct (Z.eqb_spec d s) as [->|_]; [by exists m|]. rewrite Nat2Z.id, (read_bytes_spec m _ s Hl). by apply write_bytes_spec.
Qed.

(** ** Blocks *)

(** A block of [n] bytes is new at [p]. *)
Record allocated (m m' : Memory) (p : ptr) (n : Z) : Prop := {
  alloc_pos : 0 < p;
  alloc_room : p + n <= 2 ^ 63;
  alloc_new : blocks m !! p = None;
  alloc_blocks : blocks m' = <[p := n]> (blocks m);
  alloc_in : forall a, p <= a < p + n -> bytes m !! a = None /\ exists b, bytes m' !! a = Some b /\ 0 <= b < 256;
  alloc_out : forall a, ~ (p <= a < p + n) -> bytes m' !! a = bytes m !! a }.

(** A block with the bytes [l] is new at [p]. *)
Definition new_block (m m' : Memory) (p : ptr) (l : list Z) : Prop := allocated m m' p (Z.of_nat (length l)) /\ stores m' p l.

(** The outcome of an operation that makes a block for [l]. *)
Definition pool_result (m : Memory) (l : list Z) (r : ptr) (m' : Memory) : Prop :=
  match FindBlock (Z.of_nat (length l)) m with None => r = NULL /\ m' = m | Some p => r = p /\ new_block m m' p l end.

Lemma range_insert_lookup (f : ptr -> Z) (h : gmap ptr Z) l a : foldr (fun a h => <[a := f a]> h) h l !! a = if decide (a ∈ l) then Some (f a) else h !! a.
Proof.
  induction l as [|c l IH]; cbn [foldr]; [done|]. destruct (decide (a = c)) as [->|Hne]; [rewrite lookup_insert_eq, decide_True; [done|by left]|].
  rewrite lookup_insert_ne, IH by done. apply decide_ext. rewrite elem_of_cons. tauto.
Qed.

Lemma range_delete_lookup (h : gmap ptr Z) l a : foldr (fun a h => delete a h) h l !! a = if decide (a ∈ l) then None else h !! a.
Proof.
  induction l as [|c l IH]; cbn [foldr]; [done|]. destruct (decide (a = c)) as [->|Hne]; [rewrite lookup_delete_eq, decide_True; [done|by left]|].
  rewrite lookup_delete_ne, IH by done. apply decide_ext. rewrite elem_of_cons. tauto.
Qed.

Lemma AllocatePool_None m n : FindBlock n m = None -> AllocatePool m n = (NULL, m).
Proof. unfold AllocatePool. by intros ->. Qed.

Lemma AllocatePool_Some m n p : wf m -> 0 <= n -> FindBlock n m = Some p -> exists m', AllocatePool m n = (p, m') /\ allocated m m' p n /\ (p =? NULL) = false.
Proof.
  intros Hw Hn Hf. destruct (FindBlock_free n m p Hw Hn Hf) as (Hp & Hroom & Hnew & Hfree). unfold AllocatePool. rewrite Hf. eexists. split; [done|]. split; [|unfold NULL; lia].
  split; [done..| |]; intros a Ha; cbn [bytes]; rewrite range_insert_lookup.
  - split; [by apply Hfree|]. rewrite decide_True by by apply elem_of_range. eexists. split; [done|]. apply Garbage_byte.
  - rewrite decide_False; [done|]. by rewrite elem_of_range.
Qed.

Lemma alloc_accessible m m' p n : allocated m m' p n -> accessible m' p n.
Proof. intros Ha a Hr. destruct (alloc_in _ _ _ _ Ha a Hr) as (_ & b & Hb & _). by exists b. Qed.

(** What was in memory is still there. *)
Lemma alloc_keeps m m' p n q l : allocated m m' p n -> stores m q l -> stores m' q l.
Proof.
  intros Ha Hl i b Hi. rewrite (alloc_out _ _ _ _ Ha); [by apply Hl|]. intros Hr. apply (alloc_in _ _ _ _ Ha) in Hr as [Hn _]. specialize (Hl i b Hi). congruence.
Qed.

Lemma alloc_wf m m' p n : wf m -> allocated m m' p n -> wf m'.
Proof.
  intros Hw Ha. split; [|apply (alloc_keeps m m' p n _ _ Ha), (wf_template m Hw)|apply (wf_template_pos m Hw)].
  intros a b Hb. destruct (decide (p <= a < p + n)) as [Hr|Hr].
  - pose proof (alloc_in _ _ _ _ Ha a Hr) as (_ & c & Hc & Hcb). pose proof (alloc_pos _ _ _ _ Ha). pose proof (alloc_room _ _ _ _ Ha). rewrite Hb in Hc. injection Hc as <-. lia.
  - rewrite (alloc_out _ _ _ _ Ha a Hr) in Hb. by apply (wf_address m Hw).
Qed.

(** Writing into the block. *)
Lemma alloc_written m m' m'' p n q l : allocated m m' p n -> written m' m'' q l -> byte_list l -> p <= q -> q + Z.of_nat (length l) <= p + n -> allocated m m'' p n.
Proof.
  intros Ha (Hl & Hb & Hs) Hbytes Hq Hlen. split; [by apply Ha..|rewrite Hb; by apply Ha| |].
  - intros a Hr. destruct (alloc_in _ _ _ _ Ha a Hr) as (Hn & b & E & Hbb). split; [done|]. destruct (decide (q <= a < q + Z.of_nat (length l))) as [Hin|Hin]; [|rewrite Hs by done; by exists b].
    destruct (lookup_lt_is_Some_2 l (Z.to_nat (a - q))) as [c Hc]; [lia|]. exists c. split; [|by apply (Forall_lookup_1 _ _ _ _ Hbytes Hc)]. rewrite <-(Hl _ _ Hc). f_equal. lia.
  - intros a Hr. rewrite Hs by lia. by apply (alloc_out _ _ _ _ Ha).
Qed.

Lemma written_keeps m m' p l q k : written m m' p l -> stores m q k -> q + Z.of_nat (length k) <= p \/ p + Z.of_nat (length l) <= q -> stores m' q k.
Proof. intros (_ & _ & Hs) Hk Hd. apply (bytes_same m m' q k Hk). intros a Ha. apply Hs. lia. Qed.

(** Copying old bytes into the new block. *)
Lemma CopyMem_alloc m m' p n q s l : wf m -> allocated m m' p n -> stores m s l -> p <= q -> q + Z.of_nat (length l) <= p + n ->
  exists m'', CopyMem m' q s (Z.of_nat (length l)) = Ok m'' /\ written m' m'' q l /\ allocated m m'' p n.
Proof.
  intros Hw Ha Hl Hq Hlen. destruct (CopyMem_spec m' q s l) as (m'' & -> & Hwr); [by apply (alloc_wf m m' p n)|by apply (alloc_keeps m m' p n)| |].
  - intros a Hr. apply (alloc_accessible m m' p n Ha). lia.
  - exists m''. split; [done|]. split; [done|]. apply (alloc_written m m' m'' p n q l); try done. by apply (wf_holds m s).
Qed.

(** Writing bytes into the new block. *)
Lemma write_bytes_alloc m m' p n q l : allocated m m' p n -> byte_list l -> p <= q -> q + Z.of_nat (length l) <= p + n ->
  exists m'', write_bytes l m' q = Ok m'' /\ written m' m'' q l /\ allocated m m'' p n.
Proof.
  intros Ha Hb Hq Hlen. destruct (write_bytes_spec l m' q) as (m'' & -> & Hwr); [intros a Hr; apply (alloc_accessible m m' p n Ha); lia|].
  exists m''. split; [done|]. split; [done|]. by apply (alloc_written m m' m'' p n q l).
Qed.

Lemma write8_as_bytes m q b : write8 m q b = write_bytes [b] m q.
Proof. cbn [write_bytes]. by destruct (write8 m q b). Qed.

Lemma write8_alloc m m' p n q b : allocated m m' p n -> 0 <= b < 256 -> p <= q < p + n -> exists m'', write8 m' q b = Ok m'' /\ written m' m'' q [b] /\ allocated m m'' p n.
Proof. intros Ha Hb Hq. rewrite write8_as_bytes. apply (write_bytes_alloc m m' p n q [b] Ha); [by apply Forall_singleton|lia|cbn [length]; lia]. Qed.

Lemma AllocateCopyPool_spec m s l : wf m -> stores m s l -> 0 < s -> l <> [] ->
  exists r m', AllocateCopyPool m (Z.of_nat (length l)) s = Ok (r, m') /\ pool_result m l r m'.
Proof.
  intros Hw Hl Hs Hne. destruct (held_room m s l Hw Hl Hne) as [_ Hroom]. unfold AllocateCopyPool, pool_result, MAX_ADDRESS, MAX_UINT64. replace (s =? NULL) with false by (unfold NULL; lia).
  match goal with |- context [ASSERT (?x <=? ?y)] => replace (x <=? y) with true by lia end. cbn [ASSERT negb mbind result_bind].
  destruct (FindBlock _ m) as [p|] eqn:E; [|rewrite (AllocatePool_None m _ E); by exists NULL, m].
  destruct (AllocatePool_Some m (Z.of_nat (length l)) p Hw ltac:(lia) E) as (m' & -> & Ha & ->). destruct (CopyMem_alloc m m' p _ p s l Hw Ha Hl) as (m'' & -> & Hwr & Ha'); [lia..|].
  exists p, m''. split; [done|]. split; [done|]. split; [done|]. apply Hwr.
Qed.

Lemma free_block_spec m m' m'' p n q l : allocated m m' p n -> new_block m' m'' q l -> 0 < n -> l <> [] -> exists m3, FreePool m'' p = Ok m3 /\ new_block m m3 q l.
Proof.
  intros Ha [Hb Hl] Hn Hne. unfold FreePool. assert (0 < Z.of_nat (length l)) as Hlen by (destruct l; [done|simpl; lia]).
  assert (forall a, p <= a < p + n -> ~ (q <= a < q + Z.of_nat (length l))) as Hd.
  { intros a Hr1 Hr2. apply (alloc_in _ _ _ _ Ha) in Hr1 as (_ & b & Hb1 & _). apply (alloc_in _ _ _ _ Hb) in Hr2 as [Hb2 _]. congruence. }
  assert (p <> q) as Hpq by (intros ->; apply (Hd q); lia). rewrite (alloc_blocks _ _ _ _ Hb), lookup_insert_ne, (alloc_blocks _ _ _ _ Ha), lookup_insert_eq by done. cbn [deref mbind result_bind].
  eexists. split; [done|]. assert (forall a, (foldr (fun a h => delete a h) (bytes m'') (range p n)) !! a = if decide (p <= a < p + n) then None else bytes m'' !! a) as Hlk.
  { intros a. rewrite range_delete_lookup. apply decide_ext. apply elem_of_range. }
  split; [split; cbn [bytes blocks]; [by apply Hb..| | | |]|].
  - pose proof (alloc_new _ _ _ _ Hb) as Hnew. rewrite (alloc_blocks _ _ _ _ Ha), lookup_insert_ne in Hnew by done. done.
  - rewrite insert_insert_ne, delete_insert_eq by done. rewrite delete_insert_ne by done. rewrite delete_id; [done|]. apply (alloc_new _ _ _ _ Ha).
  - intros a Hr. destruct (alloc_in _ _ _ _ Hb a Hr) as (Hn' & b & Hbb & Hbyte). rewrite Hlk, decide_False by (intros Hr'; by apply (Hd a)). split; [|by exists b].
    rewrite <-(alloc_out _ _ _ _ Ha a); [done|]. intros Hr'. by apply (Hd a).
  - intros a Hr. rewrite Hlk. destruct (decide _) as [Hr'|Hr']; [symmetry; by apply (alloc_in _ _ _ _ Ha)|]. rewrite (alloc_out _ _ _ _ Hb a Hr). by apply (alloc_out _ _ _ _ Ha).
  - intros i b Hi. cbn [bytes]. rewrite Hlk, decide_False; [by apply Hl|]. intros Hr. apply (Hd _ Hr). apply lookup_lt_Some in Hi. lia.
Qed.

(** A new block of memory in which nothing was written is given back. *)
Lemma FreePool_undo m m' p n : allocated m m' p n -> FreePool m' p = Ok m.
Proof.
  intros Ha. unfold FreePool. rewrite (alloc_blocks _ _ _ _ Ha), lookup_insert_eq. cbn [deref mbind result_bind]. f_equal.
  rewrite delete_insert_id by apply Ha. destruct m as [mb mk]. cbn [blocks bytes] in *. f_equal. apply map_eq. intros a. rewrite range_delete_lookup.
  destruct (decide _) as [Hr%elem_of_range|Hr]; [symmetry; by apply (alloc_in _ _ _ _ Ha)|]. apply (alloc_out _ _ _ _ Ha). by rewrite elem_of_range in Hr.
Qed.
End Laws.
