(* ===== verification/DevicePathOps.v ===== *)
(** * Device paths: the operations

    What each operation of the library does to a path in memory: the size, the
    copies, and how they are put together. *)

From S2P Require Import Prelude DevicePath DevicePathSpec DevicePathValid DevicePathMemory.

Section Ops.
Context `{PathLaws} (PcdMaximumDevicePathNodeCount : Z).
Abbreviation Max := PcdMaximumDevicePathNodeCount.
Abbreviation acceptable := (acceptable Max).

Lemma acceptable_nil : acceptable [] = true.
Proof. apply andb_true_iff. split; [|done]. unfold count_ok. cbn [length]. bool_to_prop. lia. Qed.

(** ** Sizes *)

Lemma path_drop m p ns1 ns2 : path_at m p (ns1 ++ ns2) -> path_at m (p + nodes_size ns1) ns2.
Proof.
  intros [Hl [_ Hg]%Forall_app Hp]. rewrite path_bytes_app in Hl. apply holds_app in Hl as [_ Hl]. fold (nodes_size ns1) in Hl. split; [done|done|].
  pose proof (nodes_size_count ns1). lia.
Qed.

Lemma path_end_at m p ns : path_at m p ns -> path_at m (p + nodes_size ns) [].
Proof. intros Hp. apply path_drop. by rewrite app_nil_r. Qed.

Lemma path_not_null m p ns : path_at m p ns -> (p =? NULL) = false.
Proof. intros Hp. pose proof (path_pos _ _ _ Hp). unfold NULL. lia. Qed.

Lemma path_bytes_ne ns : path_bytes ns <> [].
Proof. unfold path_bytes. by destruct (nodes_bytes ns). Qed.

Lemma path_size_pos ns : 4 <= path_size ns.
Proof. pose proof (nodes_size_count ns). unfold path_size, END_DEVICE_PATH_LENGTH. lia. Qed.

Lemma IsDevicePathValid_0 m p ns : wf m -> path_at m p ns -> IsDevicePathValid Max m p 0 = Ok (acceptable ns).
Proof. intros Hw Hp. rewrite (IsDevicePathValid_path Max m p ns 0 Hw Hp); [done|]. unfold MAX_UINTN, MAX_UINT64. lia. Qed.

Lemma GetDevicePathSize_path m p ns : wf m -> path_at m p ns -> UefiDevicePathLibGetDevicePathSize Max m p = Ok (if acceptable ns then path_size ns else 0).
Proof.
  intros Hw Hp. unfold UefiDevicePathLibGetDevicePathSize. rewrite (path_not_null _ _ _ Hp), (IsDevicePathValid_0 m p ns Hw Hp). cbn [mbind result_bind]. destruct (acceptable ns); [|done].
  cbn [negb]. rewrite (FindNode_end m p ns Hw Hp). cbn [mbind result_bind]. rewrite (DevicePathNodeLength_head _ _ _ _ _ (path_end m _ Hw (path_end_at m p ns Hp))).
  cbn [mbind result_bind]. unfold path_size. f_equal. lia.
Qed.

Lemma template_path m : wf m -> path_at m mUefiDevicePathLibEndDevicePath [].
Proof. intros Hw. split; [apply (wf_template m Hw)|done|apply (wf_template_pos m Hw)]. Qed.

(** ** Copies *)

Lemma Duplicate_path m p ns : wf m -> path_at m p ns -> exists r m', UefiDevicePathLibDuplicateDevicePath Max m p = Ok (r, m') /\
  (if acceptable ns then pool_result m (path_bytes ns) r m' else r = NULL /\ m' = m).
Proof.
  intros Hw Hp. unfold UefiDevicePathLibDuplicateDevicePath. rewrite (GetDevicePathSize_path m p ns Hw Hp). cbn [mbind result_bind].
  destruct (acceptable ns); [|by exists NULL, m]. pose proof (path_size_pos ns). replace (path_size ns =? 0) with false by lia. rewrite <-length_path_bytes.
  apply AllocateCopyPool_spec; [done|apply Hp..|apply path_bytes_ne].
Qed.

(** NULL stands for the path without nodes. *)
Definition optional (m : Memory) (p : ptr) (ns : list node) : Prop := p = NULL /\ ns = [] \/ path_at m p ns.

(** The sum of two sizes does not wrap around. *)
Lemma path_sum m p1 p2 ns1 ns2 : wf m -> path_at m p1 ns1 -> path_at m p2 ns2 -> 8 <= path_size ns1 + path_size ns2 < 2 ^ 64.
Proof.
  intros Hw Hp1 Hp2. pose proof (path_room m p1 ns1 Hw Hp1). pose proof (path_room m p2 ns2 Hw Hp2). pose proof (path_size_pos ns1). pose proof (path_size_pos ns2).
  pose proof (path_pos _ _ _ Hp1). pose proof (path_pos _ _ _ Hp2). lia.
Qed.

Lemma Append_paths m p1 p2 ns1 ns2 : wf m -> path_at m p1 ns1 -> path_at m p2 ns2 -> exists r m', UefiDevicePathLibAppendDevicePath Max m p1 p2 = Ok (r, m') /\
  (if acceptable ns1 && acceptable ns2 then pool_result m (path_bytes (ns1 ++ ns2)) r m' else r = NULL /\ m' = m).
Proof.
  intros Hw Hp1 Hp2. unfold UefiDevicePathLibAppendDevicePath. rewrite (path_not_null _ _ _ Hp1), (path_not_null _ _ _ Hp2), (IsDevicePathValid_0 m p1 ns1 Hw Hp1). cbn [mbind result_bind].
  rewrite (GetDevicePathSize_path m p1 ns1 Hw Hp1), (GetDevicePathSize_path m p2 ns2 Hw Hp2), (IsDevicePathValid_0 m p2 ns2 Hw Hp2).
  destruct (acceptable ns1); [|by exists NULL, m]. cbn [negb mbind result_bind andb]. destruct (acceptable ns2); [|by exists NULL, m]. cbn [negb].
  pose proof (length_path_bytes (ns1 ++ ns2)) as Hlen. pose proof (path_sum m p1 p2 ns1 ns2 Hw Hp1 Hp2) as Hsum. rewrite wrap_small by (unfold END_DEVICE_PATH_LENGTH; lia).
  replace (path_size ns1 + path_size ns2 - END_DEVICE_PATH_LENGTH) with (Z.of_nat (length (path_bytes (ns1 ++ ns2)))) by (unfold path_size in *; rewrite nodes_size_app in Hlen; lia).
  unfold pool_result. destruct (FindBlock _ m) as [r|] eqn:E; [|rewrite (AllocatePool_None m _ E); by exists NULL, m].
  destruct (AllocatePool_Some m (Z.of_nat (length (path_bytes (ns1 ++ ns2)))) r Hw ltac:(lia) E) as (m1 & -> & Ha & ->). pose proof (path_size_pos ns2). pose proof (alloc_pos _ _ _ _ Ha).
  assert (path_size ns1 + nodes_size ns2 = path_size (ns1 ++ ns2)) as Hs by (unfold path_size; rewrite nodes_size_app; lia). pose proof (nodes_size_count ns2). pose proof (nodes_size_count ns1).
  rewrite <-(length_path_bytes ns1). destruct (CopyMem_alloc m m1 r _ r p1 (path_bytes ns1) Hw Ha (path_holds _ _ _ Hp1)) as (m2 & -> & Hw2 & Ha2); [lia|rewrite length_path_bytes; lia|].
  cbn [mbind result_bind]. rewrite <-(length_path_bytes ns2). replace (r + (Z.of_nat (length (path_bytes ns1)) - END_DEVICE_PATH_LENGTH)) with (r + nodes_size ns1) by (rewrite length_path_bytes; unfold path_size; lia).
  destruct (CopyMem_alloc m m2 r _ (r + nodes_size ns1) p2 (path_bytes ns2) Hw Ha2 (path_holds _ _ _ Hp2)) as (m3 & -> & Hw3 & Ha3); [lia|rewrite length_path_bytes; unfold path_size in *; lia|].
  exists r, m3. split; [done|]. split; [done|]. split; [done|]. rewrite path_bytes_app. apply holds_app. split; [|apply Hw3].
  apply (written_keeps m2 m3 _ _ _ _ Hw3); [|fold (nodes_size ns1); lia]. destruct Hw2 as [Hl2 _]. by apply holds_app in Hl2 as [? _].
Qed.

Lemma AppendDevicePath_spec m p1 p2 ns1 ns2 : wf m -> optional m p1 ns1 -> optional m p2 ns2 -> exists r m', UefiDevicePathLibAppendDevicePath Max m p1 p2 = Ok (r, m') /\
  (if acceptable ns1 && acceptable ns2 then pool_result m (path_bytes (ns1 ++ ns2)) r m' else r = NULL /\ m' = m).
Proof.
  intros Hw [[-> ->]|Hp1] Hp2.
  - rewrite acceptable_nil. cbn [andb app]. unfold UefiDevicePathLibAppendDevicePath. cbn [Z.eqb NULL].
    destruct Hp2 as [[-> ->]|Hp2]; [apply (Duplicate_path m _ [] Hw), (template_path m Hw)|]. rewrite (path_not_null _ _ _ Hp2). by apply Duplicate_path.
  - destruct Hp2 as [[-> ->]|Hp2]; [|by apply Append_paths]. rewrite app_nil_r. rewrite acceptable_nil. rewrite andb_true_r.
    unfold UefiDevicePathLibAppendDevicePath. rewrite (path_not_null _ _ _ Hp1). cbn [Z.eqb NULL]. by apply Duplicate_path.
Qed.

(** ** A node *)

(** A node in memory. *)
Record node_at (m : Memory) (q : ptr) (n : node) : Prop := {
  node_holds : stores m q (node_bytes n);
  node_good : good n;
  node_pos : 0 < q }.

Lemma SetDevicePathEndNode_alloc m m' p n q : wf m -> allocated m m' p n -> p <= q -> q + 4 <= p + n ->
  exists m'', SetDevicePathEndNode m' q = Ok m'' /\ written m' m'' q end_bytes /\ allocated m m'' p n.
Proof.
  intros Hw Ha Hq Hlen. pose proof (alloc_pos _ _ _ _ Ha). unfold SetDevicePathEndNode. replace (q =? NULL) with false by (unfold NULL; lia).
  apply (CopyMem_alloc m m' p n q _ end_bytes Hw Ha (wf_template m Hw)); done.
Qed.

(** [TempDevicePath] of [AppendDevicePathNode]: the path of one node. *)
Lemma temp_path m q n t : wf m -> node_at m q n -> FindBlock (n_length n + END_DEVICE_PATH_LENGTH) m = Some t ->
  exists m1 m2 m3, AllocatePool m (n_length n + END_DEVICE_PATH_LENGTH) = (t, m1) /\ (t =? NULL) = false /\ CopyMem m1 t q (n_length n) = Ok m2 /\
  NextDevicePathNode m2 t = Ok (t + n_length n) /\ SetDevicePathEndNode m2 (t + n_length n) = Ok m3 /\ new_block m m3 t (path_bytes [n]).
Proof.
  intros Hw [Hl Hg Hq] E. pose proof (n_length_pos n). destruct (AllocatePool_Some m (n_length n + END_DEVICE_PATH_LENGTH) t Hw ltac:(unfold END_DEVICE_PATH_LENGTH; lia) E) as (m1 & -> & Ha & ->).
  destruct (CopyMem_alloc m m1 t _ t q (node_bytes n) Hw Ha Hl) as (m2 & Hc & Hw2 & Ha2); [lia|rewrite length_node_bytes; unfold END_DEVICE_PATH_LENGTH; lia|]. rewrite length_node_bytes in Hc.
  pose proof (alloc_pos _ _ _ _ Ha). assert (head m2 t (n_type n) (n_subtype n) (n_length n)) as Hh.
  { apply (node_header m2 t n []); [by apply (alloc_wf m m2 t (n_length n + END_DEVICE_PATH_LENGTH))|done|by destruct Hg|]. rewrite app_nil_r. apply Hw2. }
  destruct (SetDevicePathEndNode_alloc m m2 t _ (t + n_length n) Hw Ha2) as (m3 & Hs & Hw3 & Ha3); [lia|unfold END_DEVICE_PATH_LENGTH; lia|].
  exists m1, m2, m3. split; [done|]. split; [done|]. split; [done|]. split; [by apply (NextDevicePathNode_head _ _ _ _ _ Hh)|]. split; [done|]. split.
  - rewrite length_path_bytes. unfold path_size. rewrite nodes_size_cons. change (nodes_size []) with 0. by rewrite Z.add_0_r.
  - rewrite path_bytes_cons. apply holds_app. rewrite length_node_bytes. split; [|apply Hw3]. apply (written_keeps m2 m3 _ _ _ _ Hw3); [apply Hw2|left; rewrite length_node_bytes; lia].
Qed.

Lemma block_path m m' p ns : new_block m m' p (path_bytes ns) -> Forall good ns -> path_at m' p ns.
Proof. intros [Ha Hl] Hg. split; [done|done|by apply Ha]. Qed.

Lemma block_wf m m' p l : wf m -> new_block m m' p l -> wf m'.
Proof. intros Hw [Ha _]. by apply (alloc_wf m m' p (Z.of_nat (length l))). Qed.

Lemma optional_keeps m m' p n q ns : allocated m m' p n -> optional m q ns -> optional m' q ns.
Proof. intros Ha [[-> ->]|[Hl Hg Hq]]; [by left|right]. split; [by apply (alloc_keeps m m' p n)|done|done]. Qed.

(** What the appended node leads to: no room for the copy of the node, or for
    the new path, or one is not acceptable; or the new path. *)
Definition node_result (m : Memory) (ns : list node) (n : node) (r : ptr) (m' : Memory) : Prop :=
  match FindBlock (n_length n + END_DEVICE_PATH_LENGTH) m with
  | None => r = NULL /\ m' = m
  | Some t =>
      if acceptable ns && acceptable [n] then
        exists m1, new_block m m1 t (path_bytes [n]) /\
        match FindBlock (path_size (ns ++ [n])) m1 with None => r = NULL /\ m' = m | Some p => r = p /\ new_block m m' p (path_bytes (ns ++ [n])) end
      else r = NULL /\ m' = m
  end.

Lemma AppendDevicePathNode_spec m p q ns n : wf m -> optional m p ns -> node_at m q n ->
  exists r m', UefiDevicePathLibAppendDevicePathNode Max m p q = Ok (r, m') /\ node_result m ns n r m'.
Proof.
  intros Hw Hp Hq. pose proof Hq as [Hl Hg Hpos]. unfold UefiDevicePathLibAppendDevicePathNode, node_result. replace (q =? NULL) with false by (unfold NULL; lia).
  pose proof (node_header m q n [] Hw Hpos (proj1 Hg)) as Hh. rewrite app_nil_r in Hh. rewrite (DevicePathNodeLength_head _ _ _ _ _ (Hh Hl)). cbn [mbind result_bind].
  destruct (FindBlock _ m) as [t|] eqn:E; [|rewrite (AllocatePool_None m _ E); by exists NULL, m].
  destruct (temp_path m q n t Hw Hq E) as (m1 & m2 & m3 & -> & -> & -> & Hn & Hs & Hb). cbn [mbind result_bind]. rewrite Hn. cbn [mbind result_bind]. rewrite Hs. cbn [mbind result_bind].
  pose proof (block_wf _ _ _ _ Hw Hb) as Hw3. pose proof (block_path m m3 t [n] Hb ltac:(by apply Forall_singleton)) as Ht. pose proof Hb as [Ha _].
  destruct (AppendDevicePath_spec m3 p t ns [n] Hw3 (optional_keeps _ _ _ _ _ _ Ha Hp) ltac:(by right)) as (r & m4 & -> & Hr). cbn [mbind result_bind].
  destruct (acceptable ns && acceptable [n]); [|destruct Hr as [-> ->]; rewrite (FreePool_undo m m3 t _ Ha); by exists NULL, m].
  unfold pool_result in Hr. rewrite length_path_bytes in Hr. destruct (FindBlock (path_size (ns ++ [n])) m3) as [x|] eqn:E3.
  - destruct Hr as [-> Hr]. destruct (free_block_spec m m3 m4 t _ x (path_bytes (ns ++ [n])) Ha Hr) as (m5 & -> & Hb5); [rewrite length_path_bytes; pose proof (path_size_pos [n]); lia|apply path_bytes_ne|].
    exists x, m5. split; [done|]. exists m3. split; [done|]. by rewrite E3.
  - destruct Hr as [-> ->]. rewrite (FreePool_undo m m3 t _ Ha). exists NULL, m. split; [done|]. exists m3. split; [done|]. by rewrite E3.
Qed.

Lemma AppendDevicePathNode_none m p ns : wf m -> optional m p ns -> exists r m', UefiDevicePathLibAppendDevicePathNode Max m p NULL = Ok (r, m') /\
  (if acceptable ns then pool_result m (path_bytes ns) r m' else r = NULL /\ m' = m).
Proof.
  intros Hw [[-> ->]|Hp]; unfold UefiDevicePathLibAppendDevicePathNode; cbn [Z.eqb NULL negb]; [by apply Duplicate_path, template_path|]. rewrite (path_not_null _ _ _ Hp). by apply Duplicate_path.
Qed.

(** A new node is zero but for its header. *)
Definition zero_node (t s n : Z) : node := MkNode t s (replicate (Z.to_nat (n - 4)) 0).

Lemma zero_node_bytes t s n : 4 <= n < 0x10000 -> node_bytes (zero_node t s n) = [t; s; n mod 256; n / 256] ++ replicate (Z.to_nat (n - 4)) 0.
Proof. intros Hn. unfold node_bytes, zero_node, n_length. cbn [n_type n_subtype n_data]. rewrite length_replicate. by replace (4 + Z.of_nat (Z.to_nat (n - 4))) with n by lia. Qed.

Lemma byte_zeros k : byte_list (replicate k 0).
Proof. by apply Forall_replicate. Qed.

Lemma WriteUnaligned16_alloc m m' p n q v : allocated m m' p n -> 0 <= v < 0x10000 -> p <= q -> q + 2 <= p + n ->
  exists m'', WriteUnaligned16 m' q v = Ok m'' /\ written m' m'' q [v mod 256; v / 256] /\ allocated m m'' p n.
Proof.
  intros Ha Hv Hq Hlen. pose proof (alloc_pos _ _ _ _ Ha). unfold WriteUnaligned16. replace (q =? NULL) with false by (unfold NULL; lia). cbn [negb ASSERT mbind result_bind].
  change 0xff with (Z.ones 8). rewrite Z.land_ones, Z.shiftr_div_pow2 by lia. change (2 ^ 8) with 256.
  destruct (write_bytes_alloc m m' p n q [v mod 256; v / 256] Ha) as (m'' & E & Hw); [|lia|cbn [length]; lia|].
  - pose proof (Z.mod_pos_bound v 256). assert (0 <= v / 256 < 256) by (split; [by apply Z.div_pos; lia|apply Z.div_lt_upper_bound; lia]). repeat constructor; lia.
  - exists m''. split; [|done]. cbn [write_bytes] in E. destruct (write8 m' q _) as [m1| | |]; [|done..]. cbn [mbind result_bind] in *. by destruct (write8 m1 _ _).
Qed.

Lemma CreateDeviceNode_spec m t s n : wf m -> 0 <= t < 256 -> 0 <= s < 256 -> 0 <= n < 0x10000 -> exists r m', UefiDevicePathLibCreateDeviceNode m t s n = Ok (r, m') /\
  (if n <? 4 then r = NULL /\ m' = m else pool_result m (node_bytes (zero_node t s n)) r m').
Proof.
  intros Hw Ht Hs Hn. unfold UefiDevicePathLibCreateDeviceNode, sizeof_EFI_DEVICE_PATH_PROTOCOL. destruct (Z.ltb_spec n 4) as [Hlt|Hge]; [by exists NULL, m|].
  assert (Z.of_nat (length (node_bytes (zero_node t s n))) = n) as Hlen by (rewrite length_node_bytes; unfold n_length, zero_node; cbn [n_data]; rewrite length_replicate; lia).
  unfold AllocateZeroPool, pool_result. rewrite Hlen. destruct (FindBlock n m) as [p|] eqn:E; [|rewrite (AllocatePool_None m _ E); by exists NULL, m].
  destruct (AllocatePool_Some m n p Hw ltac:(lia) E) as (m1 & -> & Ha & Hnn). rewrite Hnn.
  destruct (write_bytes_alloc m m1 p n p (replicate (Z.to_nat n) 0) Ha (byte_zeros _)) as (m2 & -> & Hw2 & Ha2); [lia|rewrite length_replicate; lia|]. cbn [mbind result_bind]. rewrite Hnn.
  destruct (write8_alloc m m2 p n p t Ha2 Ht) as (m3 & -> & Hw3 & Ha3); [lia|]. cbn [mbind result_bind].
  destruct (write8_alloc m m3 p n (p + 1) s Ha3 Hs) as (m4 & -> & Hw4 & Ha4); [lia|]. cbn [mbind result_bind].
  unfold SetDevicePathNodeLength, sizeof_EFI_DEVICE_PATH_PROTOCOL. rewrite Hnn. replace ((n >=? 4) && (n <? 65536)) with true by lia. cbn [negb ASSERT mbind result_bind].
  rewrite wrap_small by lia. destruct (WriteUnaligned16_alloc m m4 p n (p + 2) n Ha4) as (m5 & -> & Hw5 & Ha5); [lia..|].
  exists p, m5. split; [done|]. split; [done|]. split; [by rewrite Hlen|]. rewrite (zero_node_bytes t s n) by lia.
  pose proof Hw2 as [H2 _]. replace (Z.to_nat n) with (4 + Z.to_nat (n - 4))%nat in H2 by lia. rewrite replicate_add in H2. apply holds_app in H2 as [_ H2]. cbn [length replicate] in H2.
  change ([t; s; n mod 256; n / 256] ++ replicate (Z.to_nat (n - 4)) 0) with ([t] ++ [s] ++ [n mod 256; n / 256] ++ replicate (Z.to_nat (n - 4)) 0).
  rewrite !holds_app. cbn [length]. change (Z.of_nat 1) with 1. change (Z.of_nat 2) with 2. change (Z.of_nat 4) with 4 in H2. replace (p + 1 + 1) with (p + 2) by lia. replace (p + 2 + 2) with (p + 4) by lia.
  split; [|split; [|split; [apply Hw5|]]].
  - apply (written_keeps m4 m5 _ _ _ _ Hw5); [apply (written_keeps m3 m4 _ _ _ _ Hw4); [apply Hw3|cbn [length]; lia]|cbn [length]; lia].
  - apply (written_keeps m4 m5 _ _ _ _ Hw5); [apply Hw4|cbn [length]; lia].
  - apply (written_keeps m4 m5 _ _ _ _ Hw5); [apply (written_keeps m3 m4 _ _ _ _ Hw4); [apply (written_keeps m2 m3 _ _ _ _ Hw3); [done|]|]|]; cbn [length]; lia.
Qed.
End Ops.
