(* ===== verification/DevicePathInstances.v ===== *)
(** * Device paths: instances

    A path of several instances has end-of-instance nodes between them: they are
    appended, and taken apart one by one. *)

From S2P Require Import Prelude DevicePath DevicePathSpec DevicePathValid DevicePathMemory DevicePathOps.

Definition end_instance : node := MkNode END_DEVICE_PATH_TYPE END_INSTANCE_DEVICE_PATH_SUBTYPE [].

(** No node of an instance is an end node. *)
Definition is_instance (i : list node) : Prop := Forall (fun n => n_type n <> END_DEVICE_PATH_TYPE) i.

(** The nodes of a path of several instances. *)
Fixpoint join (i : list node) (js : list (list node)) : list node :=
  match js with [] => i | j :: js => i ++ end_instance :: join j js end.

Lemma join_app j k : forall js i, join i (js ++ [j]) ++ k = join i js ++ end_instance :: j ++ k.
Proof.
  induction js as [|i' js IH]; intros i; cbn [join app].
  - by rewrite <-app_assoc.
  - rewrite <-!app_assoc. cbn [app]. by rewrite IH.
Qed.

Lemma join_snoc i js j : join i (js ++ [j]) = join i js ++ end_instance :: j.
Proof. pose proof (join_app j [] js i) as E. by rewrite !app_nil_r in E. Qed.

Lemma good_end_instance : good end_instance.
Proof. split; [by vm_compute|]. split; [repeat constructor; by vm_compute|by intros [_ ?]]. Qed.

Lemma nodes_size_end_instance ns : nodes_size (end_instance :: ns) = 4 + nodes_size ns.
Proof. by rewrite nodes_size_cons. Qed.

Lemma before_instance i : forall ns, is_instance i -> before (fun t _ => t =? END_DEVICE_PATH_TYPE) (i ++ end_instance :: ns) = i.
Proof.
  induction i as [|n i IH]; intros ns Hi; [done|]. apply Forall_cons in Hi as [Hn Hi]. cbn [app before]. rewrite (proj2 (Z.eqb_neq _ _) Hn). by rewrite IH.
Qed.

Lemma before_last i : is_instance i -> before (fun t _ => t =? END_DEVICE_PATH_TYPE) i = i.
Proof. induction 1 as [|n i Hn _ IH]; [done|]. cbn [before]. rewrite (proj2 (Z.eqb_neq _ _) Hn). by rewrite IH. Qed.

(** The first instance of a path, and what is after its end node. *)
Lemma before_join i js : is_instance i -> before (fun t _ => t =? END_DEVICE_PATH_TYPE) (join i js) = i.
Proof. intros Hi. destruct js; [by apply before_last|by apply before_instance]. Qed.

Section Instances.
Context `{PathLaws} (PcdMaximumDevicePathNodeCount : Z).
Abbreviation Max := PcdMaximumDevicePathNodeCount.
Abbreviation acceptable := (acceptable Max).

(** A prefix of an acceptable path is acceptable. *)
Lemma acceptable_app ns1 ns2 : acceptable (ns1 ++ ns2) = true -> acceptable ns1 = true.
Proof.
  unfold acceptable, count_ok. rewrite length_app, forallb_app. intros Ha. bool_to_prop. destruct Ha as [Hc [Ht _]]. split; [lia|done].
Qed.

Lemma acceptable_suffix ns1 ns2 : acceptable (ns1 ++ ns2) = true -> acceptable ns2 = true.
Proof.
  unfold acceptable, count_ok. rewrite length_app, forallb_app. intros Ha. bool_to_prop. destruct Ha as [Hc [_ Ht]]. split; [lia|done].
Qed.

Lemma acceptable_join i js : acceptable (join i js) = true -> acceptable i = true.
Proof. destruct js as [|j js]; [done|]. apply acceptable_app. Qed.

(** ** Appending an instance *)

(** The end node of the copy becomes the end of an instance. *)
Lemma end_becomes_instance m m2 r n ns : wf m -> allocated m m2 r n -> stores m2 r (path_bytes ns) -> nodes_size ns + 4 <= n ->
  exists m3, write8 m2 (r + nodes_size ns + 1) END_INSTANCE_DEVICE_PATH_SUBTYPE = Ok m3 /\ allocated m m3 r n /\ stores m3 r (nodes_bytes (ns ++ [end_instance])) /\
  NextDevicePathNode m3 (r + nodes_size ns) = Ok (r + nodes_size ns + 4).
Proof.
  intros Hw Ha Hl Hn. pose proof (nodes_size_count ns). pose proof (alloc_pos _ _ _ _ Ha).
  destruct (write8_alloc m m2 r n (r + nodes_size ns + 1) END_INSTANCE_DEVICE_PATH_SUBTYPE Ha) as (m3 & -> & Hwr & Ha3); [by vm_compute|lia|].
  unfold path_bytes in Hl. apply holds_app in Hl as [Hn2 He2]. fold (nodes_size ns) in He2.
  assert (stores m3 (r + nodes_size ns) (node_bytes end_instance)) as He3.
  { change (stores m3 (r + nodes_size ns) ([END_DEVICE_PATH_TYPE] ++ [END_INSTANCE_DEVICE_PATH_SUBTYPE] ++ [4; 0])). change end_bytes with ([END_DEVICE_PATH_TYPE] ++ [END_ENTIRE_DEVICE_PATH_SUBTYPE] ++ [4; 0]) in He2.
    rewrite !holds_app in He2 |- *. cbn [length] in *. destruct He2 as (Ht & _ & Hlb). split; [|split; [apply Hwr|]]; apply (written_keeps m2 m3 _ _ _ _ Hwr); [done| |done|]; cbn [length]; lia. }
  exists m3. split; [done|]. split; [done|]. split.
  - rewrite nodes_bytes_app. apply holds_app. split; [|done]. apply (written_keeps m2 m3 _ _ _ _ Hwr Hn2). left. fold (nodes_size ns). lia.
  - pose proof (node_header m3 (r + nodes_size ns) end_instance [] (alloc_wf m m3 r n Hw Ha3) ltac:(lia) (proj1 good_end_instance)) as Hh. rewrite app_nil_r in Hh.
    exact (NextDevicePathNode_head _ _ _ _ _ (Hh He3)).
Qed.

Lemma AppendInstance_paths m p1 p2 ns1 ns2 : wf m -> path_at m p1 ns1 -> path_at m p2 ns2 -> exists r m', UefiDevicePathLibAppendDevicePathInstance Max m p1 p2 = Ok (r, m') /\
  (if acceptable ns1 && acceptable ns2 then pool_result m (path_bytes (ns1 ++ end_instance :: ns2)) r m' else r = NULL /\ m' = m).
Proof.
  intros Hw Hp1 Hp2. unfold UefiDevicePathLibAppendDevicePathInstance. rewrite (path_not_null _ _ _ Hp1), (path_not_null _ _ _ Hp2), (IsDevicePathValid_0 Max m p1 ns1 Hw Hp1). cbn [mbind result_bind].
  rewrite (GetDevicePathSize_path Max m p1 ns1 Hw Hp1), (GetDevicePathSize_path Max m p2 ns2 Hw Hp2), (IsDevicePathValid_0 Max m p2 ns2 Hw Hp2).
  destruct (acceptable ns1); [|by exists NULL, m]. cbn [negb mbind result_bind andb]. destruct (acceptable ns2); [|by exists NULL, m]. cbn [negb].
  pose proof (length_path_bytes (ns1 ++ end_instance :: ns2)) as Hlen. pose proof (nodes_size_count ns1). pose proof (nodes_size_count ns2).
  assert (path_size ns1 + path_size ns2 = path_size (ns1 ++ end_instance :: ns2)) as Hs by (unfold path_size; rewrite nodes_size_app, nodes_size_end_instance; unfold END_DEVICE_PATH_LENGTH; lia).
  pose proof (path_sum m p1 p2 ns1 ns2 Hw Hp1 Hp2) as Hsum. rewrite (wrap_small 64) by lia. unfold pool_result. rewrite Hlen, Hs. destruct (FindBlock _ m) as [r|] eqn:E; [|rewrite (AllocatePool_None m _ E); by exists NULL, m].
  pose proof (path_size_pos (ns1 ++ end_instance :: ns2)). destruct (AllocatePool_Some m (path_size (ns1 ++ end_instance :: ns2)) r Hw ltac:(lia) E) as (m1 & -> & Ha & ->). pose proof (alloc_pos _ _ _ _ Ha).
  rewrite <-(length_path_bytes ns1). destruct (CopyMem_alloc m m1 r _ r p1 (path_bytes ns1) Hw Ha (path_holds _ _ _ Hp1)) as (m2 & -> & Hw2 & Ha2); [lia|rewrite length_path_bytes; unfold path_size, END_DEVICE_PATH_LENGTH in *; lia|]. cbn [mbind result_bind].
  assert (path_at m2 r ns1) as Hr by (split; [apply Hw2|apply Hp1|done]). pose proof (alloc_wf m m2 r _ Hw Ha2) as Hwf2. rewrite (FindNode_end m2 r ns1 Hwf2 Hr). cbn [mbind result_bind].
  unfold path_size, END_DEVICE_PATH_LENGTH in Hs. assert (nodes_size ns1 + 4 <= path_size (ns1 ++ end_instance :: ns2)) as Hle by (unfold path_size, END_DEVICE_PATH_LENGTH; lia).
  destruct (end_becomes_instance m m2 r _ ns1 Hw Ha2 (proj1 Hw2) Hle) as (m3 & -> & Ha3 & Hl3 & Hnext). cbn [mbind result_bind]. rewrite Hnext. cbn [mbind result_bind].
  rewrite <-(length_path_bytes ns2). destruct (CopyMem_alloc m m3 r _ (r + nodes_size ns1 + 4) p2 (path_bytes ns2) Hw Ha3 (path_holds _ _ _ Hp2)) as (m4 & -> & Hw4 & Ha4).
  { lia. } { rewrite length_path_bytes. unfold path_size, END_DEVICE_PATH_LENGTH in *. lia. }
  exists r, m4. split; [done|]. split; [done|]. split; [by rewrite Hlen|]. replace (ns1 ++ end_instance :: ns2) with ((ns1 ++ [end_instance]) ++ ns2) by by rewrite <-app_assoc.
  rewrite path_bytes_app. apply holds_app. fold (nodes_size (ns1 ++ [end_instance])). rewrite nodes_size_app. change (nodes_size [end_instance]) with 4. rewrite Z.add_assoc.
  split; [|apply Hw4]. apply (written_keeps m3 m4 _ _ _ _ Hw4 Hl3). left. fold (nodes_size (ns1 ++ [end_instance])). rewrite nodes_size_app. change (nodes_size [end_instance]) with 4. lia.
Qed.

(** ** Taking the first instance off *)

(** Memory with one byte changed. *)
Definition with_byte (m : Memory) (a : ptr) (b : Z) : Memory := MkMemory (<[a := b]> (bytes m)) (blocks m).

Lemma with_byte_same m a b : bytes m !! a = Some b -> with_byte m a b = m.
Proof. intros Hb. unfold with_byte. rewrite insert_id by done. by destruct m. Qed.

Lemma with_byte_back m a b c : bytes m !! a = Some b -> with_byte (with_byte m a c) a b = m.
Proof. intros Hb. unfold with_byte. cbn [bytes blocks]. rewrite insert_insert_eq. by apply with_byte_same. Qed.

(** A byte is changed, a block is made, and the byte is changed back. *)
Lemma block_back m m2 a b c r l : bytes m !! a = Some b -> new_block (with_byte m a c) m2 r l -> is_Some (bytes m2 !! a) /\ new_block m (with_byte m2 a b) r l.
Proof.
  intros Hb [Ha Hl]. assert (~ (r <= a < r + Z.of_nat (length l))) as Hna.
  { intros Hr. apply (alloc_in _ _ _ _ Ha) in Hr as [Hn _]. cbn [with_byte bytes] in Hn. by rewrite lookup_insert_eq in Hn. }
  assert (bytes m2 !! a = Some c) as Hc by (rewrite (alloc_out _ _ _ _ Ha a Hna); apply lookup_insert_eq).
  split; [by exists c|]. split; [split; cbn [with_byte bytes blocks]; try apply Ha|].
  - intros a' Hr. assert (a' <> a) as Hne by (intros ->; done). pose proof (alloc_in _ _ _ _ Ha a' Hr) as [Hn Hex]. cbn [with_byte bytes] in Hn. rewrite lookup_insert_ne in Hn by done. rewrite lookup_insert_ne by done. done.
  - intros a' Hr. destruct (decide (a' = a)) as [->|Hne]; [by rewrite lookup_insert_eq|]. rewrite lookup_insert_ne by done. rewrite (alloc_out _ _ _ _ Ha a' Hr). cbn [with_byte bytes]. by rewrite lookup_insert_ne.
  - intros i x Hi. cbn [with_byte bytes]. rewrite lookup_insert_ne; [by apply Hl|]. intros ->. apply Hna. apply lookup_lt_Some in Hi. lia.
Qed.

(** The end of an instance becomes the end of the path. *)
Lemma instance_becomes_path m p i ns : wf m -> path_at m p (i ++ end_instance :: ns) ->
  let m1 := with_byte m (p + nodes_size i + 1) END_ENTIRE_DEVICE_PATH_SUBTYPE in wf m1 /\ path_at m1 p i.
Proof.
  intros Hw [Hl Hg Hp] m1. rewrite path_bytes_app, path_bytes_cons in Hl. apply holds_app in Hl as [Hi Hl]. fold (nodes_size i) in Hl. apply holds_app in Hl as [He _].
  change (node_bytes end_instance) with [END_DEVICE_PATH_TYPE; END_INSTANCE_DEVICE_PATH_SUBTYPE; 4; 0] in He. rewrite !holds_cons in He. destruct He as (E0 & E1 & E2 & E3 & _).
  assert (forall q l, stores m q l -> Forall (fun b => b <> END_INSTANCE_DEVICE_PATH_SUBTYPE) l \/ q + Z.of_nat (length l) <= p + nodes_size i + 1 -> stores m1 q l) as Hk.
  { intros q l Hq Hor k b Hb. cbn [m1 with_byte bytes]. rewrite lookup_insert_ne; [by apply Hq|]. intros Heq. destruct Hor as [Hf|Hle].
    - specialize (Hq k b Hb). rewrite <-Heq, E1 in Hq. injection Hq as <-. by apply (Forall_lookup_1 _ _ _ _ Hf Hb).
    - apply lookup_lt_Some in Hb. lia. }
  pose proof (nodes_size_count i). split; split; cbn [m1 with_byte bytes]; [|apply Hk; [apply (wf_template m Hw)|left; repeat constructor; by vm_compute]|apply (wf_template_pos m Hw)| |by apply Forall_app in Hg as [? _]|done].
  - intros a b. destruct (decide (a = p + nodes_size i + 1)) as [->|Hne]; [rewrite lookup_insert_eq; intros [= <-]; split; [by apply (wf_address m Hw _ _ E1)|by vm_compute]|].
    rewrite lookup_insert_ne by done. apply (wf_address m Hw).
  - unfold path_bytes. apply holds_app. split; [apply (Hk _ _ Hi); right; fold (nodes_size i); lia|]. fold (nodes_size i). unfold end_bytes. rewrite !holds_cons. cbn [m1 with_byte bytes].
    repeat split; try apply holds_nil; first [apply lookup_insert_eq|rewrite lookup_insert_ne by lia; done].
Qed.

(** The copy of the instance, and how it is paid for: memory is looked for while
    the path ends after its first instance. *)
Definition instance_result (m : Memory) (p : ptr) (i : list node) (r : ptr) (m' : Memory) : Prop :=
  match FindBlock (path_size i) (with_byte m (p + nodes_size i + 1) END_ENTIRE_DEVICE_PATH_SUBTYPE) with
  | None => r = NULL /\ m' = m
  | Some x => r = x /\ new_block m m' x (path_bytes i)
  end.

Lemma instance_result_keeps m p i r m' q ns : instance_result m p i r m' -> path_at m q ns -> path_at m' q ns.
Proof.
  unfold instance_result. destruct (FindBlock _ _) as [x|]; [intros [-> [Ha _]] [Hl Hg Hq]|by intros [-> ->]]. split; [by apply (alloc_keeps _ _ _ _ _ _ Ha)|done|done].
Qed.

Lemma instance_result_wf m p i r m' : wf m -> instance_result m p i r m' -> wf m'.
Proof. unfold instance_result. intros Hw. destruct (FindBlock _ _) as [x|]; [intros [-> Hb]; by apply (block_wf m m' x (path_bytes i))|by intros [_ ->]]. Qed.

(** The end node of the first instance. *)
Definition first_end (js : list (list node)) : Z := match js with [] => END_ENTIRE_DEVICE_PATH_SUBTYPE | _ :: _ => END_INSTANCE_DEVICE_PATH_SUBTYPE end.

Lemma first_head m p i js : wf m -> path_at m p (join i js) -> head m (p + nodes_size i) END_DEVICE_PATH_TYPE (first_end js) 4.
Proof.
  intros Hw Hp. destruct js as [|j js]; cbn [join first_end] in *; [by apply (path_end m _ Hw), path_end_at|]. apply path_drop in Hp. by apply (path_head m (p + nodes_size i) end_instance (join j js) Hw).
Qed.

Lemma read_subtype m p t s n : head m p t s n -> read8 m (p + 1) = Ok s.
Proof. intros Hh. by destruct (head_bytes _ _ _ _ _ Hh) as (_ & lo & hi & _ & E & _). Qed.

Lemma write8_with_byte m p b s : read8 m p = Ok s -> write8 m p b = Ok (with_byte m p b).
Proof. unfold write8. by intros ->. Qed.

(** Cut off the first instance, copy it, and put the end node back. *)
Lemma copy_instance m p i js : wf m -> path_at m p (join i js) -> acceptable (join i js) = true ->
  exists r m2 m', UefiDevicePathLibDuplicateDevicePath Max (with_byte m (p + nodes_size i + 1) END_ENTIRE_DEVICE_PATH_SUBTYPE) p = Ok (r, m2) /\
  write8 m2 (p + nodes_size i + 1) (first_end js) = Ok m' /\ instance_result m p i r m'.
Proof.
  intros Hw Hp Hok. pose proof (read_subtype _ _ _ _ _ (first_head m p i js Hw Hp)) as Hr. pose proof Hr as Hb%deref_Ok. set (a := p + nodes_size i + 1) in *.
  set (m1 := with_byte m a END_ENTIRE_DEVICE_PATH_SUBTYPE). assert (wf m1 /\ path_at m1 p i) as [Hw1 Hp1].
  { destruct js as [|j js]; [unfold m1; by rewrite (with_byte_same m a END_ENTIRE_DEVICE_PATH_SUBTYPE Hb)|by apply (instance_becomes_path m p i (join j js))]. }
  destruct (Duplicate_path Max m1 p i Hw1 Hp1) as (r & m2 & Hd & Hres). rewrite (acceptable_join i js Hok) in Hres. exists r, m2, (with_byte m2 a (first_end js)). split; [done|].
  unfold instance_result, pool_result in *. rewrite length_path_bytes in Hres. fold a. fold m1. destruct (FindBlock (path_size i) m1) as [x|].
  - destruct Hres as [-> Hres]. destruct (block_back m m2 a _ _ x (path_bytes i) Hb Hres) as [[c Hc] Hnew]. split; [by apply write8_spec; exists c|done].
  - destruct Hres as [-> ->]. split; [apply write8_spec; cbn [m1 with_byte bytes]; rewrite lookup_insert_eq; by eexists|]. split; [done|]. by apply with_byte_back.
Qed.

Lemma GetNextDevicePathInstance_spec m p i js : wf m -> path_at m p (join i js) -> is_instance i -> acceptable (join i js) = true ->
  exists r m', UefiDevicePathLibGetNextDevicePathInstance Max m (Some p) =
    Ok (r, Some (match js with [] => NULL | _ :: _ => p + path_size i end), Some (path_size i), m') /\
  instance_result m p i r m' /\ match js with [] => True | j :: js => path_at m' (p + path_size i) (join j js) end.
Proof.
  intros Hw Hp Hi Hok. destruct (copy_instance m p i js Hw Hp Hok) as (r & m2 & m' & Hd & Hback & Hres). pose proof (first_head m p i js Hw Hp) as Hh. pose proof (read_subtype _ _ _ _ _ Hh) as Hs.
  pose proof (first_head m' p i js (instance_result_wf _ _ _ _ _ Hw Hres) (instance_result_keeps _ _ _ _ _ _ _ Hres Hp)) as Hh'. exists r, m'. split; [|split; [done|]].
  - unfold UefiDevicePathLibGetNextDevicePathInstance. rewrite (path_not_null _ _ _ Hp), (IsDevicePathValid_0 Max m p _ Hw Hp), Hok. cbn [negb mbind result_bind].
    rewrite (FindNode_end_type m p _ Hw Hp), (before_join i js Hi). cbn [mbind result_bind]. rewrite Hs. cbn [mbind result_bind]. rewrite (write8_with_byte _ _ _ _ Hs). cbn [mbind result_bind].
    rewrite Hd. cbn [mbind result_bind]. rewrite Hback. cbn [mbind result_bind]. rewrite (DevicePathSubType_head _ _ _ _ _ Hh'), (NextDevicePathNode_head _ _ _ _ _ Hh'). cbn [mbind result_bind].
    unfold path_size, sizeof_EFI_DEVICE_PATH_PROTOCOL, END_DEVICE_PATH_LENGTH. destruct js as [|j js]; cbn; do 3 f_equal; try done; f_equal; f_equal; lia.
  - destruct js as [|j js]; [done|]. apply (instance_result_keeps _ _ _ _ _ _ _ Hres). cbn [join] in Hp. apply path_drop, path_rest in Hp. unfold path_size, END_DEVICE_PATH_LENGTH.
    change (n_length end_instance) with 4 in Hp. by rewrite Z.add_assoc.
Qed.

Lemma GetNextDevicePathInstance_invalid m p ns : wf m -> path_at m p ns -> acceptable ns = false -> UefiDevicePathLibGetNextDevicePathInstance Max m (Some p) = Ok (NULL, Some p, None, m).
Proof. intros Hw Hp Hno. unfold UefiDevicePathLibGetNextDevicePathInstance. by rewrite (path_not_null _ _ _ Hp), (IsDevicePathValid_0 Max m p _ Hw Hp), Hno. Qed.

(** ** Several instances *)

Definition ends_instance (n : node) : bool := (n_type n =? END_DEVICE_PATH_TYPE) && (n_subtype n =? END_INSTANCE_DEVICE_PATH_SUBTYPE).

Lemma IsMultiInstance_path m ns : wf m -> forall fuel p, path_at m p ns -> (length ns < fuel)%nat -> IsMultiInstance_loop fuel m p = Ok (existsb ends_instance ns).
Proof.
  intros Hw. induction ns as [|n ns IH]; intros [|fuel] p Hp Hlen; [by inversion Hlen| |by inversion Hlen|]; cbn [IsMultiInstance_loop].
  - by rewrite (IsDevicePathEnd_head _ _ _ _ _ (path_end m p Hw Hp)).
  - pose proof (path_head _ _ _ _ Hw Hp) as Hh. pose proof (path_good _ _ _ Hp) as [Hg _]%Forall_cons. rewrite (IsDevicePathEnd_head _ _ _ _ _ Hh), (good_not_end n Hg). cbn [mbind result_bind existsb].
    rewrite (IsDevicePathEndInstance_head _ _ _ _ _ Hh). fold (ends_instance n). cbn [mbind result_bind]. destruct (ends_instance n); [done|]. rewrite (NextDevicePathNode_head _ _ _ _ _ Hh).
    cbn [mbind result_bind orb]. apply IH; [by apply path_rest|simpl in Hlen; lia].
Qed.

Lemma IsDevicePathMultiInstance_spec m p ns : wf m -> path_at m p ns -> UefiDevicePathLibIsDevicePathMultiInstance Max m p = Ok (acceptable ns && existsb ends_instance ns).
Proof.
  intros Hw Hp. unfold UefiDevicePathLibIsDevicePathMultiInstance. rewrite (path_not_null _ _ _ Hp), (IsDevicePathValid_0 Max m p _ Hw Hp). cbn [mbind result_bind].
  destruct (acceptable ns); [|done]. cbn [negb andb]. apply (IsMultiInstance_path m ns Hw); [done|by apply path_fuel in Hp].
Qed.
End Instances.
