(* ===== verification/DevicePathTheorems.v ===== *)
(** * Device paths: the theorems

    What the device path library promises, with any pool, and a small pool on
    which the promises are tried. *)

From S2P Require Import Prelude DevicePath DevicePathSpec DevicePathValid DevicePathMemory DevicePathOps DevicePathInstances.

Section Theorems.
Context `{PathLaws} (PcdMaximumDevicePathNodeCount : Z).
Abbreviation Max := PcdMaximumDevicePathNodeCount.
Abbreviation acceptable := (acceptable Max).

(** C14: IsDevicePathValid ends on any memory. Given the size of a buffer of
    arbitrary bytes it reads nothing outside of it, and accepts it exactly if it
    starts with a sequence of whole nodes up to an end node, not too many, and
    those of a file path terminated. *)
Theorem IsDevicePathValid_decides : (forall m p MaxSize, IsDevicePathValid Max m p MaxSize <> NoFuel) /\
  forall m p l, wf m -> stores m p l -> 0 < p -> (4 <= length l)%nat ->
    exists b, IsDevicePathValid Max m p (Z.of_nat (length l)) = Ok b /\
      (b = true <-> exists ns rest, l = path_bytes ns ++ rest /\ Forall good ns /\ acceptable ns = true).
Proof.
  split; [apply IsDevicePathValid_ends|]. intros m p l Hw Hl Hp Hlen. destruct (IsDevicePathValid_bytes Max m p l Hw Hl Hp Hlen) as (b & Hb & Hiff).
  exists b. split; [done|]. rewrite Hiff. unfold starts_path, acceptable. setoid_rewrite andb_true_iff. by setoid_rewrite Z.add_0_l.
Qed.

(** C16: AppendDevicePath puts two paths together, a NULL argument being a path
    without nodes: if both are acceptable and there is room, a new block has the
    nodes of the first and then those of the second, its size is that of both
    with one end node, and no other byte has changed; otherwise nothing has. *)
Theorem AppendDevicePath_correct m p1 p2 ns1 ns2 : wf m -> optional m p1 ns1 -> optional m p2 ns2 ->
  exists r m', UefiDevicePathLibAppendDevicePath Max m p1 p2 = Ok (r, m') /\
    if acceptable ns1 && acceptable ns2 then
      match FindBlock (path_size (ns1 ++ ns2)) m with
      | None => r = NULL /\ m' = m
      | Some p => r = p /\ new_block m m' p (path_bytes (ns1 ++ ns2)) /\
          UefiDevicePathLibGetDevicePathSize Max m' p = Ok (if acceptable (ns1 ++ ns2) then nodes_size ns1 + nodes_size ns2 + END_DEVICE_PATH_LENGTH else 0)
      end
    else r = NULL /\ m' = m.
Proof.
  intros Hw Hp1 Hp2. destruct (AppendDevicePath_spec Max m p1 p2 ns1 ns2 Hw Hp1 Hp2) as (r & m' & Heq & Hres). exists r, m'. split; [done|].
  destruct (acceptable ns1 && acceptable ns2); [|done]. unfold pool_result in Hres. rewrite length_path_bytes in Hres. destruct (FindBlock _ m) as [p|]; [|done].
  destruct Hres as [-> Hb]. split; [done|]. split; [done|]. rewrite <-nodes_size_app. change (nodes_size (ns1 ++ ns2) + END_DEVICE_PATH_LENGTH) with (path_size (ns1 ++ ns2)).
  apply GetDevicePathSize_path; [by apply (block_wf m m' p _ Hw Hb)|]. apply (block_path m m' p _ Hb). apply Forall_app. split; [destruct Hp1 as [[_ ->]|[]]|destruct Hp2 as [[_ ->]|[]]]; done.
Qed.

(** AppendDevicePathNode adds one node at the end of a path: through a copy of
    the node that is a path of its own and is given back, so that nothing is left
    but a new block with the nodes of the path and the node; or nothing has
    changed, because there is no room or one of them is not acceptable. *)
Theorem AppendDevicePathNode_correct m p q ns n : wf m -> optional m p ns -> node_at m q n ->
  exists r m', UefiDevicePathLibAppendDevicePathNode Max m p q = Ok (r, m') /\ node_result Max m ns n r m'.
Proof. apply AppendDevicePathNode_spec. Qed.

(** GetNextDevicePathInstance makes a copy of the first instance of a path,
    returns its size and the place of the next one, or NULL after the last, and
    leaves the path as it was, although it cuts it off at the instance to copy
    it. *)
Theorem GetNextDevicePathInstance_correct m p i js : wf m -> path_at m p (join i js) -> is_instance i -> acceptable (join i js) = true ->
  exists r m', UefiDevicePathLibGetNextDevicePathInstance Max m (Some p) =
    Ok (r, Some (match js with [] => NULL | _ :: _ => p + path_size i end), Some (path_size i), m') /\
  instance_result m p i r m' /\ match js with [] => True | j :: js => path_at m' (p + path_size i) (join j js) end.
Proof. apply GetNextDevicePathInstance_spec. Qed.

(** C15: Two instances that AppendDevicePathInstance has put together are taken
    apart by GetNextDevicePathInstance: the first call copies the first one, the
    second call the other, then there is none left; and the path is still
    there. *)
Theorem instances_roundtrip m p q i j r m1 : wf m -> path_at m p i -> path_at m q j -> is_instance i -> is_instance j ->
  acceptable (i ++ end_instance :: j) = true -> UefiDevicePathLibAppendDevicePathInstance Max m p q = Ok (r, m1) -> r <> NULL ->
  path_at m1 r (i ++ end_instance :: j) /\ UefiDevicePathLibIsDevicePathMultiInstance Max m1 r = Ok true /\
  exists c m2 d m3,
    UefiDevicePathLibGetNextDevicePathInstance Max m1 (Some r) = Ok (c, Some (r + path_size i), Some (path_size i), m2) /\ instance_result m1 r i c m2 /\
    UefiDevicePathLibGetNextDevicePathInstance Max m2 (Some (r + path_size i)) = Ok (d, Some NULL, Some (path_size j), m3) /\
    instance_result m2 (r + path_size i) j d m3 /\ path_at m3 r (i ++ end_instance :: j).
Proof.
  intros Hw Hp Hq Hi Hj Hok Happ Hr. pose proof (acceptable_app Max i (end_instance :: j) Hok) as Hoki.
  assert (acceptable j = true) as Hokj by by apply (acceptable_suffix Max (i ++ [end_instance])); rewrite <-app_assoc.
  destruct (AppendInstance_paths Max m p q i j Hw Hp Hq) as (r' & m1' & Heq & Hres). rewrite Happ in Heq. injection Heq as <- <-. rewrite Hoki, Hokj in Hres. cbn [andb] in Hres.
  unfold pool_result in Hres. destruct (FindBlock _ m) as [x|]; [destruct Hres as [-> Hb]|by destruct Hres]. pose proof (block_wf m m1 x _ Hw Hb) as Hw1.
  assert (path_at m1 x (i ++ end_instance :: j)) as Hx.
  { apply (block_path m m1 x _ Hb). apply Forall_app. split; [apply Hp|]. apply Forall_cons. split; [apply good_end_instance|apply Hq]. }
  split; [done|]. split. { rewrite (IsDevicePathMultiInstance_spec Max m1 x _ Hw1 Hx), Hok, existsb_app. cbn [existsb]. change (ends_instance end_instance) with true. by rewrite orb_true_r. }
  destruct (GetNextDevicePathInstance_spec Max m1 x i [j] Hw1 Hx Hi Hok) as (c & m2 & E1 & R1 & P1). cbn [join] in P1. pose proof (instance_result_wf _ _ _ _ _ Hw1 R1) as Hw2.
  destruct (GetNextDevicePathInstance_spec Max m2 _ j [] Hw2 P1 Hj Hokj) as (d & m3 & E2 & R2 & _). exists c, m2, d, m3. split; [done|]. split; [done|]. split; [done|]. split; [done|].
  apply (instance_result_keeps _ _ _ _ _ _ _ R2), (instance_result_keeps _ _ _ _ _ _ _ R1 Hx).
Qed.
End Theorems.

(** * Witnesses *)

(** Eight places of 256 bytes. *)
Definition sample_places : list ptr := (fun n => 0x9000 + 0x100 * Z.of_nat n) <$> seq 0 8.

Definition room_at (n : Z) (m : Memory) (p : ptr) : bool :=
  (n <=? 0x100) && bool_decide (blocks m !! p = None) && forallb (fun a => bool_decide (bytes m !! a = None)) (range p n).

#[local] Instance SamplePaths : PathPlatform := {|
  FindBlock n m := List.find (room_at n m) sample_places;
  Garbage _ := 0xAF;
  mUefiDevicePathLibEndDevicePath := 0x8000 |}.

#[local] Instance SamplePathLaws : PathLaws.
Proof.
  split; [|done]. intros n m p _ _ [Hin Hroom]%List.find_some. apply list_elem_of_In, list_elem_of_fmap in Hin as (k & -> & Hk%elem_of_seq).
  unfold room_at in Hroom. rewrite !andb_true_iff in Hroom. destruct Hroom as [[Hn Hb] Hf]. apply bool_decide_eq_true in Hb. split; [lia|]. split; [lia|]. split; [done|].
  intros a Ha%elem_of_range%list_elem_of_In. by apply (proj1 (forallb_forall _ _) Hf), bool_decide_eq_true in Ha.
Defined.

Module DevicePathWitness.

Definition put_bytes (p : ptr) (l : list Z) (h : gmap ptr Z) : gmap ptr Z := foldr (fun x h => <[x.1 := x.2]> h) h (zip (range p (Z.of_nat (length l))) l).

(** A controller and a disk; and a file on it, with a terminated name. *)
Definition controller : node := MkNode 1 1 [3; 0].
Definition disk : node := MkNode 3 1 [0; 1; 2; 3].
Definition file : node := MkNode MEDIA_DEVICE_PATH MEDIA_FILEPATH_DP [0x41; 0; 0; 0].

Definition sample_memory : Memory := MkMemory
  (put_bytes 0x8000 end_bytes (put_bytes 0x8100 (path_bytes [controller; disk]) (put_bytes 0x8200 (path_bytes [file]) (put_bytes 0x8300 (node_bytes file ++ [7; 7; 7; 7]) ∅)))) ∅.

(** The properties of a concrete memory, decided. *)
Definition holdsb (m : Memory) (p : ptr) (l : list Z) : bool := forallb (fun x => bool_decide (bytes m !! x.1 = Some x.2)) (zip (range p (Z.of_nat (length l))) l).
Definition goodb (n : node) : bool :=
  (n_length n <? 0x10000) && forallb (fun b => (0 <=? b) && (b <? 256)) (node_bytes n) && negb ((n_type n =? END_DEVICE_PATH_TYPE) && (n_subtype n =? END_ENTIRE_DEVICE_PATH_SUBTYPE)).
Definition wfb (m : Memory) : bool :=
  forallb (fun x => (0 <=? x.1) && (x.1 <? 2 ^ 63) && (0 <=? x.2) && (x.2 <? 256)) (map_to_list (bytes m)) && holdsb m mUefiDevicePathLibEndDevicePath end_bytes.

Lemma holdsb_true m p l : holdsb m p l = true -> stores m p l.
Proof.
  intros Hall i b Hi. assert ((p + Z.of_nat i, b) ∈ zip (range p (Z.of_nat (length l))) l) as Hin.
  { apply list_elem_of_lookup. exists i. apply lookup_zip_Some. split; [|done]. unfold range. rewrite list_lookup_fmap, lookup_seq_lt; [done|]. apply lookup_lt_Some in Hi. lia. }
  apply list_elem_of_In in Hin. by apply (proj1 (forallb_forall _ _) Hall), bool_decide_eq_true in Hin.
Qed.

Lemma goodb_true n : goodb n = true -> good n.
Proof.
  unfold goodb. rewrite !andb_true_iff. intros [[Hlen Hb] Hne]. split; [lia|]. split.
  - apply Forall_forall. intros b Hin%list_elem_of_In. apply (proj1 (forallb_forall _ _) Hb) in Hin. lia.
  - intros [Ht Hs]. rewrite Ht, Hs in Hne. by vm_compute in Hne.
Qed.

Lemma goods_true ns : forallb goodb ns = true -> Forall good ns.
Proof. intros Hg. apply Forall_forall. intros n Hn%list_elem_of_In. by apply goodb_true, (proj1 (forallb_forall _ _) Hg). Qed.

Lemma wfb_true m : wfb m = true -> wf m.
Proof.
  unfold wfb. rewrite andb_true_iff. intros [Hall Hl]. split; [|by apply holdsb_true|done]. intros a b Hb%elem_of_map_to_list%list_elem_of_In.
  apply (proj1 (forallb_forall _ _) Hall) in Hb. cbn [fst snd] in Hb. lia.
Qed.

Lemma path_true m p ns : (0 <? p) && holdsb m p (path_bytes ns) && forallb goodb ns = true -> path_at m p ns.
Proof.
  rewrite !andb_true_iff. intros [[Hp Hl] Hg]. split; [by apply holdsb_true|by apply goods_true|lia].
Qed.

Lemma sample_wf : wf sample_memory.
Proof. apply wfb_true. by vm_compute. Qed.

Lemma controller_disk : path_at sample_memory 0x8100 [controller; disk].
Proof. apply path_true. by vm_compute. Qed.

Lemma file_path : path_at sample_memory 0x8200 [file].
Proof. apply path_true. by vm_compute. Qed.

Lemma file_node : node_at sample_memory 0x8300 file.
Proof. split; [|by apply goodb_true; vm_compute|done]. apply (holds_app _ [7; 7; 7; 7]), holdsb_true. by vm_compute. Qed.

(** The file without an end node, and with other bytes after it. *)
Lemma bytes_there : stores sample_memory 0x8300 (node_bytes file ++ [7; 7; 7; 7]).
Proof. apply holdsb_true. by vm_compute. Qed.

Lemma IsDevicePathValid_decides_witness : exists b, IsDevicePathValid 0 sample_memory 0x8300 12 = Ok b /\
  (b = true <-> exists ns rest, node_bytes file ++ [7; 7; 7; 7] = path_bytes ns ++ rest /\ Forall good ns /\ acceptable 0 ns = true).
Proof. refine (proj2 (IsDevicePathValid_decides 0) sample_memory 0x8300 (node_bytes file ++ [7; 7; 7; 7]) sample_wf bytes_there _ _); vm_compute; [done|lia]. Defined.

Lemma AppendDevicePath_correct_witness : exists r m', UefiDevicePathLibAppendDevicePath 0 sample_memory 0x8100 0x8200 = Ok (r, m') /\
  r = 0x9000 /\ new_block sample_memory m' 0x9000 (path_bytes [controller; disk; file]) /\ UefiDevicePathLibGetDevicePathSize 0 m' 0x9000 = Ok 26.
Proof.
  destruct (AppendDevicePath_correct 0 sample_memory 0x8100 0x8200 [controller; disk] [file] sample_wf (or_intror controller_disk) (or_intror file_path)) as (r & m' & Heq & Hres).
  exists r, m'. split; [exact Heq|]. assert (FindBlock (path_size ([controller; disk] ++ [file])) sample_memory = Some 0x9000) as E by (by vm_compute). rewrite E in Hres. exact Hres.
Defined.

(** The first place is taken, the second is not. *)
Lemma second_place m1 : new_block sample_memory m1 0x9000 (path_bytes [file]) -> FindBlock 26 m1 = Some 0x9100.
Proof.
  intros [Ha _]. cbn [FindBlock SamplePaths]. change sample_places with (0x9000 :: 0x9100 :: drop 2 sample_places). cbn [List.find].
  assert (room_at 26 m1 0x9000 = false) as ->.
  { unfold room_at. rewrite (alloc_blocks _ _ _ _ Ha), lookup_insert_eq, bool_decide_eq_false_2 by done. by rewrite andb_false_r. }
  assert (room_at 26 m1 0x9100 = true) as ->; [|done]. unfold room_at. rewrite !andb_true_iff. split; [split; [done|]|].
  - apply bool_decide_eq_true. by rewrite (alloc_blocks _ _ _ _ Ha), lookup_insert_ne.
  - apply forallb_forall. intros a Hin%list_elem_of_In%elem_of_range. apply bool_decide_eq_true. rewrite (alloc_out _ _ _ _ Ha); [|change (Z.of_nat (length (path_bytes [file]))) with 12; lia].
    assert (forallb (fun a => bool_decide (bytes sample_memory !! a = None)) (range 0x9100 26) = true) as Hall by (by vm_compute).
    apply (bool_decide_eq_true _), (proj1 (forallb_forall _ _) Hall a), list_elem_of_In, elem_of_range, Hin.
Qed.

Lemma AppendDevicePathNode_correct_witness : exists r m', UefiDevicePathLibAppendDevicePathNode 0 sample_memory 0x8100 0x8300 = Ok (r, m') /\
  r = 0x9100 /\ new_block sample_memory m' 0x9100 (path_bytes [controller; disk; file]).
Proof.
  destruct (AppendDevicePathNode_correct 0 sample_memory 0x8100 0x8300 [controller; disk] file sample_wf (or_intror controller_disk) file_node) as (r & m' & Heq & Hres).
  exists r, m'. split; [exact Heq|]. unfold node_result in Hres. assert (FindBlock (n_length file + END_DEVICE_PATH_LENGTH) sample_memory = Some 0x9000) as E by (by vm_compute). rewrite E in Hres.
  assert (acceptable 0 [controller; disk] && acceptable 0 [file] = true) as Ha by (by vm_compute). rewrite Ha in Hres. destruct Hres as (m1 & Hb & Hr).
  assert (FindBlock (path_size ([controller; disk] ++ [file])) m1 = Some 0x9100) as E1 by exact (second_place _ Hb). rewrite E1 in Hr. exact Hr.
Defined.

(** Two instances: the disk, and the file. *)
Definition two : Memory := match UefiDevicePathLibAppendDevicePathInstance 0 sample_memory 0x8100 0x8200 with Ok (_, m) => m | _ => sample_memory end.

Lemma two_made : UefiDevicePathLibAppendDevicePathInstance 0 sample_memory 0x8100 0x8200 = Ok (0x9000, two) /\
  new_block sample_memory two 0x9000 (path_bytes ([controller; disk] ++ end_instance :: [file])).
Proof.
  destruct (AppendInstance_paths 0 sample_memory 0x8100 0x8200 _ _ sample_wf controller_disk file_path) as (r & m' & Heq & Hres).
  assert (FindBlock (Z.of_nat (length (path_bytes ([controller; disk] ++ end_instance :: [file])))) sample_memory = Some 0x9000) as E by (by vm_compute). unfold pool_result in Hres.
  rewrite E in Hres. assert (two = m') as -> by (unfold two; by rewrite Heq). destruct Hres as [-> Hb]. split; [exact Heq|exact Hb].
Qed.

Lemma two_wf : wf two.
Proof. exact (block_wf _ _ _ _ sample_wf (proj2 two_made)). Qed.

Lemma two_path : path_at two 0x9000 (join [controller; disk] [[file]]).
Proof. apply (block_path _ _ _ _ (proj2 two_made)). by apply goods_true; vm_compute. Qed.

Lemma no_end_nodes : is_instance [controller; disk] /\ is_instance [file].
Proof. split; repeat constructor; by vm_compute. Qed.

Lemma GetNextDevicePathInstance_correct_witness : exists r m', UefiDevicePathLibGetNextDevicePathInstance 0 two (Some 0x9000) = Ok (r, Some 0x9012, Some 18, m') /\
  instance_result two 0x9000 [controller; disk] r m' /\ path_at m' 0x9012 [file].
Proof. exact (GetNextDevicePathInstance_correct 0 two 0x9000 [controller; disk] [[file]] two_wf two_path (proj1 no_end_nodes) eq_refl). Defined.

Lemma instances_roundtrip_witness : path_at two 0x9000 ([controller; disk] ++ end_instance :: [file]) /\ UefiDevicePathLibIsDevicePathMultiInstance 0 two 0x9000 = Ok true /\
  exists c m2 d m3,
    UefiDevicePathLibGetNextDevicePathInstance 0 two (Some 0x9000) = Ok (c, Some 0x9012, Some 18, m2) /\ instance_result two 0x9000 [controller; disk] c m2 /\
    UefiDevicePathLibGetNextDevicePathInstance 0 m2 (Some 0x9012) = Ok (d, Some NULL, Some 12, m3) /\
    instance_result m2 0x9012 [file] d m3 /\ path_at m3 0x9000 ([controller; disk] ++ end_instance :: [file]).
Proof.
  refine (instances_roundtrip 0 sample_memory 0x8100 0x8200 [controller; disk] [file] 0x9000 two sample_wf controller_disk file_path (proj1 no_end_nodes) (proj2 no_end_nodes) eq_refl (proj1 two_made) _).
  discriminate.
Defined.
End DevicePathWitness.
