(* ===== verification/DevicePathPrefix.v ===== *)
(** * Device paths: prefixes

    [CompareMem] on the bytes of two paths, and what it says about their nodes:
    the bytes of one are the first bytes of the other exactly if its nodes are
    the first nodes. *)

From S2P Require Import Prelude DevicePath DevicePathSpec DevicePathValid DevicePathOps.

(** ** Comparing memory *)

Lemma stores_same m p : forall l k, stores m p l -> stores m p k -> length l = length k -> l = k.
Proof.
  intros l k Hl Hk Hlen. apply list_eq_same_length with (length k); [done..|]. intros i x y Hi Hx Hy. apply Hl in Hx. apply Hk in Hy. congruence.
Qed.

Lemma InternalMemCompareMem_spec m : forall n p q a l b k, stores m p (a :: l) -> stores m q (b :: k) -> length l = n -> length k = n ->
  exists c, InternalMemCompareMem n m p q = Ok c /\ (c =? 0) = bool_decide (a :: l = b :: k).
Proof.
  induction n as [|n IH]; intros p q a l b k [Ha Hl]%holds_cons [Hb Hk]%holds_cons Hn Hn'; cbn [InternalMemCompareMem]; unfold read8; rewrite Ha, Hb; cbn [deref mbind result_bind].
  - destruct l, k; try done. eexists. split; [done|]. apply eq_true_iff_eq. rewrite bool_decide_eq_true, Z.eqb_eq. split; [intros ?; f_equal; lia|intros [= ->]; lia].
  - destruct (Z.eqb_spec a b) as [->|Hne].
    + destruct l as [|a' l], k as [|b' k]; try done. destruct (IH (p + 1) (q + 1) a' l b' k Hl Hk) as (c & -> & Hc); [simpl in *; lia..|]. exists c. split; [done|]. rewrite Hc.
      apply bool_decide_ext. naive_solver.
    + eexists. split; [done|]. rewrite bool_decide_eq_false_2 by congruence. apply Z.eqb_neq. lia.
Qed.

Lemma CompareMem_spec `{PathPlatform} m p q l k : wf m -> 0 < p -> 0 < q -> stores m p l -> stores m q k -> length l = length k ->
  exists c, CompareMem m p q (Z.of_nat (length l)) = Ok c /\ (c =? 0) = bool_decide (l = k).
Proof.
  intros Hw Hp Hq Hl Hk Hlen. unfold CompareMem. destruct l as [|a l]; [destruct k; [by exists 0|done]|]. destruct k as [|b k]; [done|].
  assert (0 < Z.of_nat (length (a :: l))) as Hpos by (cbn [length]; lia). rewrite (proj2 (Z.eqb_neq (Z.of_nat (length (a :: l))) 0)) by lia. cbn [orb]. destruct (Z.eqb_spec p q) as [->|Hne].
  - exists 0. split; [done|]. rewrite bool_decide_eq_true_2; [done|]. by apply (stores_same m q).
  - unfold NULL. destruct (held_room m p _ Hw Hl) as [_ Hrp]; [done|]. destruct (held_room m q _ Hw Hk) as [_ Hrq]; [done|]. rewrite <-Hlen in Hrq.
    replace (p =? 0) with false by lia. replace (q =? 0) with false by lia. cbn [negb ASSERT mbind result_bind]. unfold MAX_ADDRESS, MAX_UINT64.
    replace (Z.of_nat (length (a :: l)) - 1 <=? 18446744073709551615 - p) with true by lia. replace (Z.of_nat (length (a :: l)) - 1 <=? 18446744073709551615 - q) with true by lia.
    cbn [ASSERT mbind result_bind]. apply InternalMemCompareMem_spec; [done..|cbn [length]; lia|]. cbn [length] in *. lia.
Qed.

(** ** The grammar is free of prefixes *)

Lemma good_not_end_bytes n l k : good n -> end_bytes ++ l <> node_bytes n ++ k.
Proof. intros (_ & _ & Hne) [= Ht Hs _ _ _]. by apply Hne. Qed.

Lemma path_bytes_prefix b1 : forall b2 r, Forall good b1 -> Forall good b2 -> path_bytes b2 = path_bytes b1 ++ r -> b2 = b1.
Proof.
  induction b1 as [|n1 b1 IH]; intros [|n2 b2] r H1 H2 Heq; [done| | |].
  - rewrite path_bytes_cons in Heq. apply Forall_cons in H2 as [Hg _]. symmetry in Heq. by apply good_not_end_bytes in Heq.
  - rewrite path_bytes_cons, <-app_assoc in Heq. apply Forall_cons in H1 as [Hg _]. change (path_bytes []) with end_bytes in Heq. rewrite <-(app_nil_r end_bytes) in Heq. by apply good_not_end_bytes in Heq.
  - rewrite !path_bytes_cons, <-app_assoc in Heq. apply Forall_cons in H1 as [[Hn1 _] H1], H2 as [[Hn2 _] H2]. apply node_bytes_inj in Heq as [-> Heq]; [|done..]. f_equal. by apply (IH b2 r).
Qed.

Lemma path_at_unique m p b1 b2 : path_at m p b1 -> path_at m p b2 -> b1 = b2.
Proof.
  assert (forall b1 b2, path_at m p b1 -> path_at m p b2 -> (length (path_bytes b1) <= length (path_bytes b2))%nat -> b2 = b1) as Hle.
  { intros c1 c2 [H1 G1 _] [H2 G2 _] Hlen. apply (path_bytes_prefix c1 c2 (drop (length (path_bytes c1)) (path_bytes c2)) G1 G2). rewrite <-(take_drop (length (path_bytes c1)) (path_bytes c2)) at 1. f_equal.
    apply (stores_same m p); [|done|rewrite length_take; lia]. intros i x Hi. apply H2. apply lookup_take_Some in Hi. tauto. }
  intros H1 H2. destruct (Nat.le_ge_cases (length (path_bytes b1)) (length (path_bytes b2))); [symmetry|]; by apply Hle.
Qed.

(** ** Prefixes *)

Lemma nodes_prefix b : forall i r, Forall good b -> Forall good i -> nodes_bytes i = nodes_bytes b ++ r -> b `prefix_of` i.
Proof.
  induction b as [|n b IH]; intros [|n' i] r Hb Hi Heq; [apply prefix_nil..|done|]. unfold nodes_bytes in Heq. cbn [fmap list_fmap concat] in Heq. rewrite <-app_assoc in Heq.
  apply Forall_cons in Hb as [[Hn _] Hb], Hi as [[Hn' _] Hi]. apply node_bytes_inj in Heq as [-> Heq]; [|done..]. by apply prefix_cons, (IH i r).
Qed.

Lemma prefix_size b i : b `prefix_of` i -> nodes_size b <= nodes_size i.
Proof. intros [r ->]. rewrite nodes_size_app. unfold nodes_size. lia. Qed.

(** Of two prefixes the shorter one is a prefix of the other. *)
Lemma prefix_of_longer b c i : b `prefix_of` i -> c `prefix_of` i -> nodes_size b <= nodes_size c -> b `prefix_of` c.
Proof.
  intros Hb Hc Hle. destruct (prefix_weak_total b c i Hb Hc) as [Hbc|[r ->]]; [done|]. rewrite nodes_size_app in Hle. pose proof (nodes_size_count r).
  destruct r as [|n r]; [by rewrite app_nil_r|]. cbn [length] in *. lia.
Qed.

Lemma prefix_same_size b c i : b `prefix_of` i -> c `prefix_of` i -> nodes_size b = nodes_size c -> b = c.
Proof. intros Hb Hc Heq. apply (anti_symm prefix); apply (prefix_of_longer _ _ i); (done || lia). Qed.

(** The comparison of a path with the beginning of another. *)
Lemma compare_prefix `{PathPlatform} m p q i r b : wf m -> 0 < p -> stores m p (nodes_bytes i ++ r) -> Forall good i -> path_at m q b -> nodes_size b <= nodes_size i ->
  exists c, CompareMem m p q (nodes_size b) = Ok c /\ (c =? 0 = true <-> b `prefix_of` i).
Proof.
  intros Hw Hp [Hl _]%holds_app Hgi [Hb Hgb Hq] Hle. unfold path_bytes in Hb. apply holds_app in Hb as [Hb _].
  assert (stores m p (take (length (nodes_bytes b)) (nodes_bytes i))) as Hlt by (intros k x Hk; apply Hl; apply lookup_take_Some in Hk; tauto).
  assert (length (take (length (nodes_bytes b)) (nodes_bytes i)) = length (nodes_bytes b)) as Hlen by (rewrite length_take; unfold nodes_size in Hle; lia).
  destruct (CompareMem_spec m p q _ _ Hw Hp Hq Hlt Hb Hlen) as (c & Hc & Hd). exists c. rewrite Hlen in Hc. split; [exact Hc|]. rewrite Hd, bool_decide_eq_true. split.
  - intros Ht. apply (nodes_prefix b i (drop (length (nodes_bytes b)) (nodes_bytes i)) Hgb Hgi). by rewrite <-Ht at 1; rewrite take_drop.
  - intros [k ->]. by rewrite nodes_bytes_app, take_app_length.
Qed.
