(* ===== verification/HandlePath.v ===== *)
(** * Handles and device paths: the code

    The services of the handle database that read device paths:
    [CoreLocateDevicePath] of MdeModulePkg/Core/Dxe/Hand/Locate.c and
    [CoreInstallMultipleProtocolInterfaces] of Handle.c; and the functions of
    DevicePathUtilities.c that ask for the device path of a handle.  They work
    on the database and on the memory of DevicePath.v; the interface of a handle
    for [gEfiDevicePathProtocolGuid] is the address of its device path. *)

From S2P Require Import Prelude CTypes Handle DevicePath.

(** MdePkg.dec. *)
Definition gEfiDevicePathProtocolGuid : EFI_GUID := [0x91; 0x6e; 0x57; 0x09; 0x3f; 0x6d; 0xd2; 0x11; 0x8e; 0x39; 0x00; 0xa0; 0xc9; 0x69; 0x72; 0x3b].
Definition SIZE_OF_FILEPATH_DEVICE_PATH : Z := 4.

Section Code.
Context `{Platform} `{Drivers} `{PathPlatform} (Verify : bool) (Max : nat) (PcdMaximumDevicePathNodeCount PcdMaximumUnicodeStringLength : Z).

(** ** Locate.c *)

(** The loop condition and the [break]: the end of the path or of its first
    instance. *)
Definition IsFirstEnd (m : Memory) (Node : ptr) : result bool :=
  let! e := IsDevicePathEnd m Node in
  if (e : bool) then Ok true else IsDevicePathEndInstance m Node.

(** [BestMatch] and [BestDevice] after [n] more handles, the next one being
    [Handles[Index]]. *)
Fixpoint LocateDevicePath_loop (n Index : nat) (Handles : list ptr) (SourcePath SourceSize : Z) (m : Memory) (BestMatch : Z) (BestDevice : ptr)
    (db : Database) : result (Z * ptr * Database) :=
  match n with
  | O => Ok (BestMatch, BestDevice, db)
  | S n =>
      let! Handle := deref (Handles !! Index) in
      let! (Status, TmpDevicePath, db) := CoreHandleProtocol Verify Max Handle (Some gEfiDevicePathProtocolGuid) true db in
      if EFI_ERROR Status then LocateDevicePath_loop n (S Index) Handles SourcePath SourceSize m BestMatch BestDevice db else
      let TmpDevicePath := default 0 TmpDevicePath in
      let! PathSize := UefiDevicePathLibGetDevicePathSize PcdMaximumDevicePathNodeCount m TmpDevicePath in
      let Size := cast INT64 (PathSize - sizeof_EFI_DEVICE_PATH_PROTOCOL) in
      do! ASSERT (Size >=? 0) ;;
      let! c := if Size <=? SourceSize then CompareMem m SourcePath TmpDevicePath Size else Ok 1 in
      if (Size <=? SourceSize) && (c =? 0) then
        do! ASSERT (negb (Size =? BestMatch)) ;;
        if Size >? BestMatch then LocateDevicePath_loop n (S Index) Handles SourcePath SourceSize m Size Handle db
        else LocateDevicePath_loop n (S Index) Handles SourcePath SourceSize m BestMatch BestDevice db
      else LocateDevicePath_loop n (S Index) Handles SourcePath SourceSize m BestMatch BestDevice db
  end.

(** [DevicePath] is [*DevicePath], or [None] if the pointer to it is [NULL];
    [DeviceOut]: the caller passes a pointer for the handle.  The new
    [*DevicePath] and what is stored in [*Device] are returned. *)
Definition CoreLocateDevicePath (Protocol' : option EFI_GUID) (DevicePath : option ptr) (DeviceOut : bool) (m : Memory) (db : Database)
    : result (EFI_STATUS * option ptr * option ptr * Database) :=
  match Protocol', DevicePath with
  | Some Protocol', Some SourcePath =>
      if SourcePath =? NULL then Ok (EFI_INVALID_PARAMETER, DevicePath, None, db) else
      let! TmpDevicePath := FindNode (node_fuel m) IsFirstEnd m SourcePath in
      let SourceSize := cast INT64 (TmpDevicePath - SourcePath) in
      let! (Status, HandleCount, Handles, db) := CoreLocateHandleBuffer Verify Max ByProtocol (Some Protocol') NULL true true db in
      if EFI_ERROR Status || (HandleCount =? 0) then Ok (EFI_NOT_FOUND, DevicePath, None, db) else
      let! (BestMatch, BestDevice, db) := LocateDevicePath_loop (Z.to_nat HandleCount) 0 Handles SourcePath SourceSize m (-1) NULL db in
      if BestMatch =? -1 then Ok (EFI_NOT_FOUND, DevicePath, None, db) else
      if negb DeviceOut then Ok (EFI_INVALID_PARAMETER, DevicePath, None, db) else
      Ok (EFI_SUCCESS, Some (SourcePath + BestMatch), Some BestDevice, db)
  | _, _ => Ok (EFI_INVALID_PARAMETER, DevicePath, None, db)
  end.

(** ** Handle.c *)

(** Whether some handle has this device path already. *)
Definition DevicePathStarted (DevicePath : ptr) (m : Memory) (db : Database) : result (bool * Database) :=
  let! (Status, DevicePath, DeviceHandle, db) := CoreLocateDevicePath (Some gEfiDevicePathProtocolGuid) (Some DevicePath) true m db in
  if negb (EFI_ERROR Status) && negb (default NULL DeviceHandle =? NULL)
  then let! e := IsDevicePathEnd m (default NULL DevicePath) in Ok (e, db)
  else Ok (false, db).

(** The installations until an error: the status, [*Handle] and [Index]. *)
Fixpoint InstallMultiple_loop (Handle : ptr) (args : list (EFI_GUID * Z)) (Index : nat) (m : Memory) (db : Database) : result (EFI_STATUS * ptr * nat * Database) :=
  match args with
  | [] => Ok (EFI_SUCCESS, Handle, Index, db)
  | (Protocol', Interface') :: args =>
      let! (Started, db) := if CompareGuid Protocol' gEfiDevicePathProtocolGuid then DevicePathStarted Interface' m db else Ok (false, db) in
      if (Started : bool) then Ok (EFI_ALREADY_STARTED, Handle, S Index, db) else
      let! (Status, Handle', db) := CoreInstallProtocolInterface Verify Max (Some Handle) (Some Protocol') EFI_NATIVE_INTERFACE Interface' db in
      let Handle := default Handle Handle' in
      if EFI_ERROR Status then Ok (Status, Handle, S Index, db) else InstallMultiple_loop Handle args (S Index) m db
  end.

(** [for (; Index > 1; Index--)]: those that were installed are removed. *)
Fixpoint UninstallFirst (Handle : ptr) (args : list (EFI_GUID * Z)) (Index : nat) (db : Database) : result Database :=
  match args, Index with
  | (Protocol', Interface') :: args, S ((S _) as Index) =>
      let! (_, db) := CoreUninstallProtocolInterface Verify Max Handle (Some Protocol') Interface' db in
      UninstallFirst Handle args Index db
  | _, _ => Ok db
  end.

(** [Handle] is [*Handle], or [None] if the pointer to it is [NULL]; the new
    [*Handle] is returned. *)
Definition CoreInstallMultipleProtocolInterfaces (Handle : option ptr) (args : list (EFI_GUID * Z)) (m : Memory) (db : Database)
    : result (EFI_STATUS * option ptr * Database) :=
  match Handle with
  | None => Ok (EFI_INVALID_PARAMETER, None, db)
  | Some OldHandle =>
      let! (Status, Handle, Index, db) := InstallMultiple_loop OldHandle args 0 m db in
      if EFI_ERROR Status then
        let! db := UninstallFirst Handle args Index db in Ok (Status, Some OldHandle, db)
      else Ok (Status, Some Handle, db)
  end.

(** ** DevicePathUtilities.c *)

(** [gBS->HandleProtocol] is [CoreHandleProtocol]. *)
Definition DevicePathFromHandle (Handle : ptr) (db : Database) : result (ptr * Database) :=
  let! (Status, DevicePath, db) := CoreHandleProtocol Verify Max Handle (Some gEfiDevicePathProtocolGuid) true db in
  Ok (if EFI_ERROR Status then NULL else default NULL DevicePath, db).

Fixpoint StrLen_loop (fuel : nat) (m : Memory) (String : ptr) (Length : Z) : result Z :=
  match fuel with
  | O => NoFuel
  | S fuel =>
      let! c := read16 m String in
      if c =? 0 then Ok Length else
      do! (if negb (PcdMaximumUnicodeStringLength =? 0) then ASSERT (Length <? PcdMaximumUnicodeStringLength) else Ok tt) ;;
      StrLen_loop fuel m (String + 2) (Length + 1)
  end.

Definition StrLen (m : Memory) (String : ptr) : result Z :=
  do! ASSERT (negb (String =? NULL)) ;;
  do! ASSERT (Z.land String 1 =? 0) ;;
  StrLen_loop (node_fuel m) m String 0.

Definition StrSize (m : Memory) (String : ptr) : result Z := let! n := StrLen m String in Ok ((n + 1) * 2).

Definition FileDevicePath (Device FileName : ptr) (m : Memory) (db : Database) : result (ptr * Memory * Database) :=
  let! Size := StrSize m FileName in
  let (FileDevicePath, m) := AllocatePool m (Size + SIZE_OF_FILEPATH_DEVICE_PATH + END_DEVICE_PATH_LENGTH) in
  if FileDevicePath =? NULL then Ok (NULL, m, db) else
  let! m := write8 m FileDevicePath MEDIA_DEVICE_PATH in
  let! m := write8 m (FileDevicePath + 1) MEDIA_FILEPATH_DP in
  let! m := CopyMem m (FileDevicePath + SIZE_OF_FILEPATH_DEVICE_PATH) FileName Size in
  let! (_, m) := SetDevicePathNodeLength m FileDevicePath (Size + SIZE_OF_FILEPATH_DEVICE_PATH) in
  let! Next := NextDevicePathNode m FileDevicePath in
  let! m := SetDevicePathEndNode m Next in
  let! (DevicePath, db) := if negb (Device =? NULL) then DevicePathFromHandle Device db else Ok (NULL, db) in
  let! (DevicePath, m) := UefiDevicePathLibAppendDevicePath PcdMaximumDevicePathNodeCount m DevicePath FileDevicePath in
  let! m := FreePool m FileDevicePath in
  Ok (DevicePath, m, db).
End Code.
