(* ===== verification/HandlePathLocate.v ===== *)
(** * Handles and device paths: locating

    [CoreLocateDevicePath] finds, among the handles with a protocol, the one whose
    device path is the longest prefix of the path it is given. *)

From S2P Require Import Prelude CTypes LinkedList ListFamily Handle HandleInv HandleLookup HandleShape HandleCreate HandleRemove HandleUninstall HandleDriver HandleOpen HandleInstall HandleLocate HandleSafe DevicePath DevicePathSpec DevicePathValid DevicePathMemory DevicePathOps DevicePathInstances DevicePathPrefix HandlePath.

(** ** Reading a protocol of a handle *)

Section Read.
Context `{Platform} `{Drivers} (Verify : bool) (Max : nat) `{!PoolLaws Max} `{!DriverLaws Max}.
Implicit Types db : Database.

(** What makes room for [k] more open records, whatever else is allocated. *)
Definition openings (k : nat) db : Prop :=
  forall used : gset ptr, (size used < size (objects db) + k)%nat -> Handle.AllocatePool sizeof_OPEN_PROTOCOL_DATA used <> None.

Lemma openings_here k db : openings (S k) db -> Allocate sizeof_OPEN_PROTOCOL_DATA db <> None.
Proof. intros Ho. apply Ho. rewrite size_dom. lia. Qed.

Lemma openings_next k db db' : openings (S k) db -> (size (objects db') <= S (size (objects db)))%nat -> openings k db'.
Proof. intros Ho Hs used Hu. apply Ho. lia. Qed.

(** A shared open makes at most one record. *)
Lemma outcome_size db h i ih ch st db' : open_outcome db h i ih ch EFI_OPEN_PROTOCOL_BY_HANDLE_PROTOCOL st db' -> (size (objects db') <= S (size (objects db)))%nat.
Proof.
  intros Ho. assert (Hgr : forall db1, granted db h i EFI_OPEN_PROTOCOL_BY_HANDLE_PROTOCOL db1 -> db1 = db) by (by intros db1 [_ _ ->|_ ->|? _ _ _ _ _]).
  destruct Ho as [q r Hq Hex Hdr|q r [Hq _] Hex Hr|? ? Hm|db1 ? Hm ? ?|db1 ? Hg ?|db1 ? Hg ? Hnone|db1 db' p rj ? Hg ? Hp Hrj HO Hop Hrest Hsg]; try apply Hgr in Hg as ->; try lia.
  - cbn [put set_objects objects]. rewrite map_size_insert, Hq. simpl. lia.
  - by cbn in Hm.
  - rewrite HO, map_size_insert, lookup_insert_ne by (intros ->; congruence). rewrite Hrj, map_size_insert, Hp. simpl. lia.
Qed.

Lemma CoreHandleProtocol_spec db h g : valid Max db -> IsHandle db h ->
  exists Status v db', CoreHandleProtocol Verify Max h (Some g) true db = Ok (Status, v, db') /\ valid Max db' /\ same_protocols db db' /\ Calls db' = Calls db /\
    (size (objects db') <= S (size (objects db)))%nat /\ only_reads db db' /\
    ((EFI_ERROR Status = true /\ db' = db /\ ((forall w, ~ Installed db h g w) \/ Allocate sizeof_OPEN_PROTOCOL_DATA db = None)) \/
     (Status = EFI_SUCCESS /\ exists w, v = Some w /\ Installed db h g w)).
Proof.
  intros Hv Hh. pose proof Hv as [_ (F & owner & Hinv & _)]. unfold CoreHandleProtocol.
  destruct (CoreOpenProtocol_spec Verify Max db h g true gDxeCoreImageHandle NULL EFI_OPEN_PROTOCOL_BY_HANDLE_PROTOCOL) as (Status & v & db' & -> & Hv' & Hres); [done|by right|].
  exists Status, v, db'. split; [done|]. split; [done|]. apply handleb_true in Hh. destruct Hres as [Hbad|Hok Hnone|i w Status db' Hok Hp Hout].
  - by rewrite Hh in Hbad.
  - split; [done|]. split; [done|]. split; [lia|]. split; [apply only_reads_refl|]. left. auto.
  - pose proof (outcome_size _ _ _ _ _ _ _ Hout) as Hs. pose proof (outcome_only_reads Max F owner db h i _ _ _ _ Hinv Hout) as Hr.
    destruct (outcome_shared Max F owner db h i _ _ EFI_OPEN_PROTOCOL_BY_HANDLE_PROTOCOL _ _ Hinv eq_refl eq_refl Hout) as (Hsame & Hcalls & Hcase).
    do 4 (split; [done|]). destruct Hcase as [->|(-> & -> & Hnone)].
    + right. split; [done|]. exists w. split; [done|by exists i].
    + left. auto.
Qed.

(** A handle has a protocol once. *)
Lemma Installed_unique db h g v w : valid Max db -> Installed db h g v -> Installed db h g w -> v = w.
Proof. intros [_ (F & owner & Hinv & _)] [i Hi] [j Hj]. by apply (provides_unique Max F owner db i j h g v w). Qed.

Lemma Installed_handle db h g v : valid Max db -> Installed db h g v -> IsHandle db h.
Proof.
  intros [_ (F & owner & Hinv & _)] [i (r & e & Hr & <- & _)]. by destruct (sh_refers _ _ _ _ _ (inv_shape _ _ _ _ Hinv) i _ Hr) as [Hh _].
Qed.

Lemma same_interfaces db db' j : valid Max db -> same_protocols db db' -> is_interface (objects db) j -> is_interface (objects db') j.
Proof.
  intros [_ (F & owner & Hinv & _)] [_ Hp] [r Hr]. destruct (sh_refers _ _ _ _ _ (inv_shape _ _ _ _ Hinv) j _ Hr) as [_ [e He]].
  destruct (proj2 (Hp j (Handle r) (ProtocolID e) (Interface r))) as (r' & _ & Hr' & _); [by exists r, e|by exists r'].
Qed.

(** ** The handles with a protocol *)

(** The marks of the next two searches are new. *)
Definition unmarked_twice db : Prop :=
  forall p r, objects db !! p = Some (AHandle r) -> LocateRequest r <> u64 (mEfiLocateHandleRequest db + 1) /\ LocateRequest r <> u64 (mEfiLocateHandleRequest db + 2).

Lemma request_next n : u64 (u64 (n + 1) + 1) = u64 (n + 2) /\ u64 (n + 1) <> u64 (n + 2).
Proof.
  unfold wrap. rewrite Zplus_mod_idemp_l. split; [f_equal; lia|]. intros Heq. replace (n + 2) with (n + 1 + 1) in Heq by lia. rewrite <-(Zplus_mod_idemp_l (n + 1) 1) in Heq.
  pose proof (Z.mod_pos_bound (n + 1) (2 ^ 64) eq_refl) as Hb. set (k := (n + 1) mod 2 ^ 64) in *. destruct (Z.eq_dec (k + 1) (2 ^ 64)) as [He|Hne].
  - rewrite He, Z_mod_same_full in Heq. lia.
  - rewrite Z.mod_small in Heq by lia. lia.
Qed.

Lemma searched_unmarked hs db db' : unmarked_twice db -> searched hs db db' -> hs <> [] -> unmarked db'.
Proof.
  intros Hu [Hreq Hm _ _] Hne p r (r0 & Hr0 & Hr)%Hm. rewrite Hreq by done. destruct (request_next (mEfiLocateHandleRequest db)) as [-> Hd].
  destruct (Hu p r0 Hr0) as [_ H2]. by destruct Hr as [->| ->].
Qed.

Lemma searched_opens hs db db' : searched hs db db' -> opens_kept db db'.
Proof. intros [_ _ Hl _ Ho]. apply opens_kept_links; [done|]. intros q r. apply Ho. Qed.

Lemma listed_same db db' g hs hs' : same_protocols db db' -> listed db ByProtocol g hs -> listed db' ByProtocol g hs' -> length hs' = length hs.
Proof.
  intros [_ Hp] [Hn Hl] [Hn' Hl']. apply Permutation_length, NoDup_Permutation; [done..|]. intros h. rewrite Hl, Hl'.
  split; intros (v & i & Hi); exists v, i; by apply Hp.
Qed.

Lemma CoreLocateHandleBuffer_protocol db g : valid Max db -> unmarked_twice db ->
  exists hs Status n Buffer db', CoreLocateHandleBuffer Verify Max ByProtocol (Some g) NULL true true db = Ok (Status, n, Buffer, db') /\
    valid Max db' /\ same_protocols db db' /\ Calls db' = Calls db /\ dom (objects db') = dom (objects db) /\ opens_kept db db' /\
    listed db ByProtocol g hs /\
    ((EFI_ERROR Status = true /\ (hs = [] \/ Allocate (8 * Z.of_nat (length hs)) db = None)) \/
     (Status = EFI_SUCCESS /\ hs <> [] /\ n = Z.of_nat (length Buffer) /\ listed db ByProtocol g Buffer)).
Proof.
  intros Hv Hu. unfold CoreLocateHandleBuffer. cbn [negb orb].
  destruct (CoreLocateHandle_full Verify Max db ByProtocol g NULL 0 false Hv) as (hs & St1 & size1 & B1 & db1 & -> & Hv1 & Hs1 & Hc1 & Hl1 & Hloc1 & Hse1); [right; split; [done|]; intros p r Hr; by apply (Hu p r Hr)|done..|].
  cbn [mbind result_bind]. exists hs. destruct (decide (hs = [])) as [->|Hne].
  { injection Hloc1 as -> -> ->. cbn [EFI_ERROR]. exists EFI_NOT_FOUND, 0, [], db1. rewrite !bool_decide_eq_false_2 by done. cbn [andb negb]. split; [done|]. do 3 (split; [done|]).
    split; [apply Hse1|]. split; [by apply (searched_opens [])|]. split; [done|]. left. auto. }
  assert (0 < length hs)%nat as Hpos by (destruct hs; [done|simpl; lia]). rewrite located_some in Hloc1 by done. replace (8 * Z.of_nat (length hs) <=? 0) with false in Hloc1 by lia.
  injection Hloc1 as -> -> _. rewrite bool_decide_eq_true_2 by done. cbn [EFI_ERROR andb negb default]. destruct (Allocate _ db1) eqn:Hal.
  2: { exists EFI_OUT_OF_RESOURCES, 0, [], db1. split; [done|]. do 3 (split; [done|]). split; [apply Hse1|]. split; [by apply (searched_opens hs)|]. split; [done|]. left. split; [done|]. right.
       unfold Allocate in *. by rewrite (se_dom _ _ _ Hse1) in Hal. }
  destruct (CoreLocateHandle_full Verify Max db1 ByProtocol g NULL (8 * Z.of_nat (length hs)) true Hv1) as (hs2 & St2 & size2 & B2 & db2 & -> & Hv2 & Hs2 & Hc2 & Hl2 & Hloc2 & Hse2);
    [right; split; [done|]; by apply (searched_unmarked hs db)|lia|done|]. cbn [mbind result_bind].
  pose proof (listed_same db db1 g hs hs2 Hs1 Hl1 Hl2) as Hlen. assert (hs2 <> []) as Hne2 by (destruct hs2; [by rewrite <-Hlen in Hpos; inversion Hpos|done]).
  rewrite located_some, Hlen in Hloc2 by done. rewrite (proj2 (Z.leb_le _ _)) in Hloc2 by lia. injection Hloc2 as -> -> ->. cbn [EFI_ERROR default id].
  rewrite (Z.mul_comm 8), Z.div_mul by done. rewrite Nat2Z.id, <-Hlen, firstn_all. exists EFI_SUCCESS, (Z.of_nat (length hs2)), hs2, db2. split; [done|]. split; [done|].
  split; [by apply (same_protocols_trans db db1)|]. split; [congruence|]. split; [by rewrite (se_dom _ _ _ Hse2), (se_dom _ _ _ Hse1)|].
  split; [apply opens_kept_links; [by rewrite (se_links _ _ _ Hse2), (se_links _ _ _ Hse1)|intros q r; by rewrite (se_opens _ _ _ Hse2), (se_opens _ _ _ Hse1)]|]. split; [done|]. right. do 3 (split; [done|]). destruct Hl2 as [Hn2 Hl2]. split; [done|].
  intros h. rewrite Hl2. destruct Hs1 as [_ Hp]. split; intros (v & i & Hi); exists v, i; by apply Hp.
Qed.

(** Whatever the marks are. *)
Lemma CoreLocateHandleBuffer_some db g : valid Max db ->
  exists Status n Buffer db', CoreLocateHandleBuffer Verify Max ByProtocol (Some g) NULL true true db = Ok (Status, n, Buffer, db') /\
    valid Max db' /\ same_protocols db db' /\ Calls db' = Calls db /\ only_reads db db' /\
    (EFI_ERROR Status = true \/ (Status = EFI_SUCCESS /\ Buffer <> [] /\ n = Z.of_nat (length Buffer) /\ NoDup Buffer /\ forall h, h ∈ Buffer -> exists v, Installed db h g v)).
Proof.
  intros Hv. unfold CoreLocateHandleBuffer. cbn [negb orb].
  destruct (CoreLocateHandle_some Verify Max db g NULL 0 false Hv) as (hs & St1 & size1 & B1 & db1 & -> & Hv1 & Hs1 & Hc1 & Ho1%opens_only_reads & _ & _ & Hloc1); [done..|].
  cbn [mbind result_bind]. assert (match size1 with Some n => 0 <= n | None => True end) as Hsize by by apply (located_size hs 0 St1 size1 B1). assert (exists k, size1 = Some k) as [k ->] by (destruct hs; injection Hloc1; eauto).
  destruct (EFI_ERROR St1 && negb (bool_decide (St1 = EFI_BUFFER_TOO_SMALL))) eqn:HE.
  { eexists _, _, _, db1. split; [done|]. do 4 (split; [done|]). left. apply andb_true_iff in HE as [HE _]. by destruct (bool_decide (St1 = EFI_INVALID_PARAMETER)). }
  cbn [default]. destruct (Allocate _ db1) eqn:Hal; [|eexists _, _, _, db1; split; [done|]; do 4 (split; [done|]); by left].
  destruct (CoreLocateHandle_some Verify Max db1 g NULL k true Hv1) as (hs2 & St2 & size2 & B2 & db2 & -> & Hv2 & Hs2 & Hc2 & Ho2%opens_only_reads & Hnd & Hin & Hloc2); [done..|]. cbn [mbind result_bind].
  eexists _, _, _, db2. split; [done|]. split; [done|]. split; [by apply (same_protocols_trans db db1)|]. split; [congruence|].
  split; [apply (only_reads_trans db db1); [intros j; by apply same_interfaces|done|done]|].
  destruct hs2 as [|h hs2]; [injection Hloc2 as -> -> ->; by left|]. rewrite located_some in Hloc2 by done. destruct (Z.leb_spec (8 * Z.of_nat (length (h :: hs2))) k) as [Hle|Hlt]; injection Hloc2 as -> -> ->; [right|by left].
  assert (take (Z.to_nat (k / 8)) (h :: hs2) = h :: hs2) as ->.
  { apply take_ge. apply Nat2Z.inj_le. rewrite Z2Nat.id by (apply Z.div_pos; lia). apply Z.div_le_lower_bound; lia. }
  split; [done|]. split; [done|]. cbn [EFI_ERROR default id]. rewrite (Z.mul_comm 8), Z.div_mul by done. split; [done|]. split; [done|].
  intros h' Hh'. destruct (Hin h' Hh') as (v & i & Hi). exists v, i. by apply (proj2 Hs1).
Qed.
End Read.

(** ** The longest prefix *)

Section Locate.
Context `{Platform} `{Drivers} `{PathPlatform} (Verify : bool) (Max : nat) `{!PoolLaws Max} `{!DriverLaws Max} (PcdMaximumDevicePathNodeCount : Z).
Implicit Types db : Database.
Abbreviation acceptable := (acceptable PcdMaximumDevicePathNodeCount).

(** The handle has the device path with the nodes [b]. *)
Definition DevicePathOf db (m : Memory) (h : ptr) (b : list node) : Prop := exists q, Installed db h gEfiDevicePathProtocolGuid q /\ path_at m q b.

(** The device paths of all handles are acceptable, and no two that consist of one
    instance are the same. *)
Record paths_ok db (m : Memory) : Prop := {
  paths_acceptable : forall h q, Installed db h gEfiDevicePathProtocolGuid q -> exists b, path_at m q b /\ acceptable b = true;
  paths_unique : forall h1 h2 b, is_instance b -> DevicePathOf db m h1 b -> DevicePathOf db m h2 b -> h1 = h2 }.

Lemma DevicePathOf_same db db' m h b : same_protocols db db' -> DevicePathOf db' m h b <-> DevicePathOf db m h b.
Proof. intros [_ Hp]. unfold DevicePathOf, Installed. split; intros (q & [i Hi] & Hb); exists q; (split; [exists i; by apply Hp|done]). Qed.

Lemma tests_first_end : tests IsFirstEnd (fun t s => (t =? END_DEVICE_PATH_TYPE) && ((s =? END_ENTIRE_DEVICE_PATH_SUBTYPE) || (s =? END_INSTANCE_DEVICE_PATH_SUBTYPE))).
Proof.
  intros m p t s n Hh. unfold IsFirstEnd. rewrite (IsDevicePathEnd_head m p t s n Hh), (IsDevicePathEndInstance_head m p t s n Hh). cbn [mbind result_bind].
  by destruct (t =? END_DEVICE_PATH_TYPE), (s =? END_ENTIRE_DEVICE_PATH_SUBTYPE).
Qed.

Lemma before_first_end i js : is_instance i ->
  before (fun t s => (t =? END_DEVICE_PATH_TYPE) && ((s =? END_ENTIRE_DEVICE_PATH_SUBTYPE) || (s =? END_INSTANCE_DEVICE_PATH_SUBTYPE))) (join i js) = i.
Proof.
  intros Hi. destruct js as [|j js]; cbn [join].
  - induction Hi as [|n i Hn Hi IH]; [done|]. cbn [before]. by rewrite (proj2 (Z.eqb_neq _ _) Hn), IH.
  - induction Hi as [|n i Hn Hi IH]; [done|]. cbn [app before]. by rewrite (proj2 (Z.eqb_neq _ _) Hn), IH.
Qed.

Section Loop.
Context (db0 : Database) (m : Memory) (p : ptr) (i : list node) (r : list Z).
Context (Hw : wf m) (Hp : 0 < p) (Hi : stores m p (nodes_bytes i ++ r)) (Hgood : Forall good i) (Hinst : is_instance i) (Hfit : p + nodes_size i <= 2 ^ 63) (Hok : paths_ok db0 m).

(** Among the handles that have been looked at. *)
Definition best (hs : list ptr) (BestMatch : Z) (BestDevice : ptr) : Prop :=
  (BestMatch = -1 /\ BestDevice = NULL) \/ exists b, BestDevice ∈ hs /\ DevicePathOf db0 m BestDevice b /\ b `prefix_of` i /\ BestMatch = nodes_size b.

Lemma best_more hs hs' BM BD : best hs BM BD -> hs ⊆ hs' -> best hs' BM BD.
Proof. intros [?|(b & Hb & ?)] Hsub; [by left|right]. exists b. split; [by apply Hsub|done]. Qed.

(** The comparison with one device path. *)
Lemma path_compared h q b : path_at m q b -> acceptable b = true -> DevicePathOf db0 m h b ->
  UefiDevicePathLibGetDevicePathSize PcdMaximumDevicePathNodeCount m q = Ok (nodes_size b + 4) /\
  cast INT64 (nodes_size b + 4 - sizeof_EFI_DEVICE_PATH_PROTOCOL) = nodes_size b /\ 0 <= nodes_size b /\
  exists c, (if nodes_size b <=? nodes_size i then CompareMem m p q (nodes_size b) else Ok 1) = Ok c /\ ((nodes_size b <=? nodes_size i) && (c =? 0) = true <-> b `prefix_of` i).
Proof.
  intros Hq Hb Hh. rewrite (GetDevicePathSize_path _ m q b Hw Hq), Hb. split; [done|]. pose proof (path_room m q b Hw Hq) as Hroom. pose proof (path_pos _ _ _ Hq).
  assert (0 <= nodes_size b) as Hpos by (unfold nodes_size; lia). unfold path_size, END_DEVICE_PATH_LENGTH in Hroom. split; [|split; [done|]].
  - unfold sizeof_EFI_DEVICE_PATH_PROTOCOL. rewrite Z.add_simpl_r. apply cast_fits; [done|]. unfold fits. cbn. lia.
  - destruct (Z.leb_spec (nodes_size b) (nodes_size i)) as [Hle|Hlt].
    + destruct (compare_prefix m p q i _ b Hw Hp Hi Hgood Hq Hle) as (c & -> & Hc). exists c. split; [done|exact Hc].
    + exists 1. split; [done|]. cbn [andb]. split; [done|]. intros Hpre%prefix_size. lia.
Qed.

(** The loop over the handles [todo], after those of [done]. *)
Definition longest (todo : list ptr) (BestMatch : Z) : Prop :=
  forall h b, h ∈ todo -> DevicePathOf db0 m h b -> b `prefix_of` i -> nodes_size b <= BestMatch.

Lemma longest_cons h todo BM : longest todo BM -> (forall b, DevicePathOf db0 m h b -> b `prefix_of` i -> nodes_size b <= BM) -> longest (h :: todo) BM.
Proof. intros Ht Hh k b [->|Hk]%elem_of_cons; [by apply Hh|by apply Ht]. Qed.

(** A second handle with the same match would have the same device path. *)
Lemma match_differs hs BM BD h b : best hs BM BD -> DevicePathOf db0 m h b -> b `prefix_of` i -> h ∉ hs -> (nodes_size b =? BM) = false.
Proof.
  intros Hb Hh Hpre Hnot. apply Z.eqb_neq. intros Heq. destruct Hb as [[-> _]|(c & HBD & Hc & Hprec & ->)]; [unfold nodes_size in Heq; lia|].
  rewrite (prefix_same_size b c i Hpre Hprec Heq) in Hh. assert (is_instance c) as Hic by (destruct Hprec as [k Hk]; rewrite Hk in Hinst; by apply Forall_app in Hinst as [? _]). by rewrite (paths_unique _ _ Hok h BD c Hic Hh Hc) in Hnot.
Qed.

Lemma LocateDevicePath_loop_spec hs : NoDup hs -> (forall h, h ∈ hs -> IsHandle db0 h) ->
  forall todo looked db BM BD, hs = looked ++ todo -> valid Max db -> same_protocols db0 db -> best looked BM BD ->
  exists BM' BD' db', LocateDevicePath_loop Verify Max PcdMaximumDevicePathNodeCount (length todo) (length looked) hs p (nodes_size i) m BM BD db = Ok (BM', BD', db') /\
    valid Max db' /\ same_protocols db0 db' /\ Calls db' = Calls db /\ only_reads db db' /\ best hs BM' BD' /\ BM <= BM' /\
    (openings (length todo) db -> longest todo BM').
Proof.
  intros Hnd Hhs. induction todo as [|h todo IH]; intros looked db BM BD Heq Hv Hsame Hbest; cbn [length LocateDevicePath_loop].
  { exists BM, BD, db. split; [done|]. do 3 (split; [done|]). split; [apply only_reads_refl|]. rewrite app_nil_r in Heq. subst looked. split; [done|]. split; [lia|]. intros _ k b Hk. by apply not_elem_of_nil in Hk. }
  assert (hs !! length looked = Some h) as -> by (by rewrite Heq, lookup_app_r, Nat.sub_diag). cbn [deref mbind result_bind].
  assert (h ∈ hs) as Hin by (rewrite Heq; apply elem_of_app; right; left).
  assert (h ∉ looked) as Hnew by (rewrite Heq in Hnd; apply NoDup_app in Hnd as (_ & Hd & _); intros Hl; apply (Hd h Hl); left).
  destruct (CoreHandleProtocol_spec Verify Max db h gEfiDevicePathProtocolGuid Hv) as (St & v & db1 & -> & Hv1 & Hs1 & Hc1 & Hsz & Hr1 & Hcase); [by apply (proj1 Hsame), Hhs|]. cbn [mbind result_bind].
  assert (forall BM1 BD1, best (looked ++ [h]) BM1 BD1 -> BM <= BM1 -> (openings (S (length todo)) db -> forall b, DevicePathOf db0 m h b -> b `prefix_of` i -> nodes_size b <= BM1) ->
    exists BM' BD' db', LocateDevicePath_loop Verify Max PcdMaximumDevicePathNodeCount (length todo) (S (length looked)) hs p (nodes_size i) m BM1 BD1 db1 = Ok (BM', BD', db') /\
      valid Max db' /\ same_protocols db0 db' /\ Calls db' = Calls db /\ only_reads db db' /\ best hs BM' BD' /\ BM <= BM' /\ (openings (S (length todo)) db -> longest (h :: todo) BM')) as Hnext.
  { intros BM1 BD1 Hb1 Hle1 Hh1. destruct (IH (looked ++ [h]) db1 BM1 BD1) as (BM' & BD' & db' & Hl & Hv' & Hs' & Hc' & Hr' & Hb' & Hle & Hlong); [by rewrite <-app_assoc|done|by apply (same_protocols_trans db0 db)|done|].
    rewrite length_app, Nat.add_1_r in Hl. exists BM', BD', db'. split; [done|]. split; [done|]. split; [done|]. split; [congruence|]. split.
    { apply (only_reads_trans db db1); [|done|done]. intros j. by apply (same_interfaces Max). }
    split; [done|]. split; [lia|]. intros Hop. apply longest_cons; [apply Hlong; by apply (openings_next _ db)|]. intros b Hb Hpre. transitivity BM1; [by apply Hh1|done]. }
  destruct Hcase as [(HE & -> & Hnone)|(-> & w & -> & Hw')].
  - rewrite HE. apply Hnext; [by apply (best_more looked); [|apply list_subseteq_app_l]|lia|]. intros Hop b (q & Hq & _) _. exfalso.
    destruct Hnone as [Hno|Hno]; [|by apply (openings_here (length todo) db)]. apply (Hno q). destruct Hq as [j Hj]. exists j. by apply (proj2 Hsame).
  - cbn [EFI_ERROR default id]. assert (Installed db0 h gEfiDevicePathProtocolGuid w) as Hw0 by (destruct Hw' as [j Hj]; exists j; by apply (proj2 Hsame)).
    destruct (paths_acceptable _ _ Hok h w Hw0) as (b & Hb & Hacc). assert (DevicePathOf db0 m h b) as Hdp by (by exists w).
    destruct (path_compared h w b Hb Hacc Hdp) as (-> & Hcast & Hpos & c & Hcm & Hc). cbn [mbind result_bind]. rewrite Hcast.
    assert (Hother : forall b', DevicePathOf db0 m h b' -> b' = b).
    { intros b' (q & [j Hj] & Hq). apply (path_at_unique m w); [|done]. rewrite <-(Installed_unique Max db h gEfiDevicePathProtocolGuid q w Hv); [done|exists j; by apply (proj2 Hsame)|done]. }
    rewrite Z.geb_leb, (proj2 (Z.leb_le _ _) Hpos). cbn [ASSERT mbind result_bind]. rewrite Hcm. cbn [mbind result_bind]. destruct (_ && _).
    + rewrite (match_differs looked BM BD h b Hbest Hdp) by (done || by apply Hc). cbn [negb ASSERT mbind result_bind]. rewrite Z.gtb_ltb. destruct (Z.ltb_spec BM (nodes_size b)).
      * apply Hnext; [|lia|]. { right. exists b. split; [apply elem_of_app; right; left|]. split; [done|]. split; [by apply Hc|done]. }
        intros _ b' ->%Hother _. done.
      * apply Hnext; [by apply (best_more looked); [|apply list_subseteq_app_l]|lia|]. intros _ b' ->%Hother _. lia.
    + apply Hnext; [by apply (best_more looked); [|apply list_subseteq_app_l]|lia|]. intros _ b' ->%Hother Hpre%Hc. done.
Qed.
End Loop.

(** ** The service *)

(** What the search is about: a handle with the protocol whose device path is the
    beginning of the first instance [i]. *)
Definition candidate db m g (i : list node) h (b : list node) : Prop := (exists v, Installed db h g v) /\ DevicePathOf db m h b /\ b `prefix_of` i.

(** The marks of the search are new; there is memory for the list of handles, and
    for opening each device path. *)
Definition room db g : Prop := unmarked_twice db /\ forall hs, listed db ByProtocol g hs -> Allocate (8 * Z.of_nat (length hs)) db <> None /\ openings (length hs) db.

(** The status, [*DevicePath] and [*Device]. *)
Inductive locate_result db m g p i js (out : bool) : EFI_STATUS -> ptr -> option ptr -> Prop :=
| locate_none : (room db g -> forall h b, ~ candidate db m g i h b) -> locate_result db m g p i js out EFI_NOT_FOUND p None
| locate_found h b rest : candidate db m g i h b -> i = b ++ rest -> path_at m (p + nodes_size b) (join rest js) ->
    (room db g -> forall h' b', candidate db m g i h' b' -> b' `prefix_of` b) ->
    locate_result db m g p i js out (if out then EFI_SUCCESS else EFI_INVALID_PARAMETER) (if out then p + nodes_size b else p) (if out then Some h else None).

Lemma path_suffix m p b ns : path_at m p (b ++ ns) -> path_at m (p + nodes_size b) ns.
Proof.
  intros [Hl Hg Hp]. rewrite path_bytes_app in Hl. apply holds_app in Hl as [_ Hl]. apply Forall_app in Hg as [_ Hg]. split; [exact Hl|done|]. unfold nodes_size. lia.
Qed.

Lemma join_prefix b rest js : join (b ++ rest) js = b ++ join rest js.
Proof. destruct js; [done|]. cbn [join]. by rewrite <-app_assoc. Qed.

Lemma first_instance m p i js : wf m -> path_at m p (join i js) -> is_instance i ->
  FindNode (node_fuel m) IsFirstEnd m p = Ok (p + nodes_size i) /\ 0 < p /\ Forall good i /\ p + nodes_size i <= 2 ^ 63 /\ exists r, stores m p (nodes_bytes i ++ r).
Proof.
  intros Hw Hp Hi. rewrite (FindNode_path _ _ m (join i js) Hw tests_first_end) by (try done; by apply path_fuel in Hp). rewrite before_first_end by done. split; [done|].
  pose proof (path_room m p _ Hw Hp) as Hroom. destruct Hp as [Hl Hg Hp]. split; [done|].
  assert (exists k, join i js = i ++ k) as [k Hk]. { destruct js as [|j js]; [exists []; by rewrite app_nil_r|by eexists]. }
  rewrite Hk in Hl, Hg, Hroom. apply Forall_app in Hg as [Hg _]. split; [done|]. unfold path_size, END_DEVICE_PATH_LENGTH in Hroom. rewrite nodes_size_app in Hroom. pose proof (nodes_size_count k).
  split; [lia|]. rewrite path_bytes_app in Hl. by eexists.
Qed.

(** The handles that are looked at: with [room], all of them. *)
Lemma CoreLocateHandleBuffer_found db g : valid Max db ->
  exists Status n Buffer db', CoreLocateHandleBuffer Verify Max ByProtocol (Some g) NULL true true db = Ok (Status, n, Buffer, db') /\
    valid Max db' /\ same_protocols db db' /\ Calls db' = Calls db /\ only_reads db db' /\
    ((EFI_ERROR Status = true /\ (room db g -> forall h v, ~ Installed db h g v)) \/
     (EFI_ERROR Status = false /\ Buffer <> [] /\ n = Z.of_nat (length Buffer) /\ NoDup Buffer /\ (forall h, h ∈ Buffer -> exists v, Installed db h g v) /\
      (room db g -> (forall h v, Installed db h g v -> h ∈ Buffer) /\ openings (length Buffer) db'))).
Proof.
  intros Hv. destruct (CoreLocateHandleBuffer_some Verify Max db g Hv) as (St & n & Buf & db1 & Heq & Hv1 & Hs1 & Hc1 & Ho1 & Hcase). exists St, n, Buf, db1. do 5 (split; [done|]).
  destruct Hcase as [HE|(-> & Hne & -> & Hnd & Hin)]; [left; split; [done|]|right; do 5 (split; [done|])]; intros [Hu Hroom];
    destruct (CoreLocateHandleBuffer_protocol Verify Max db g Hv Hu) as (hs & St' & n' & Buf' & db1' & Heq' & _ & _ & _ & Hd & _ & Hl & Hcase);
    rewrite Heq in Heq'; injection Heq' as <- <- <- <-.
  - destruct Hcase as [(_ & Hnone)|(-> & _)]; [|done]. intros h v Hh. destruct Hnone as [->|Hno]; [|by destruct (Hroom hs Hl)].
    apply (not_elem_of_nil h), (proj2 Hl). by exists v.
  - destruct Hcase as [[? _]|(_ & _ & _ & Hl2)]; [done|]. split; [intros h v Hh; apply (proj2 Hl2); by exists v|].
    intros used. rewrite <-(size_dom (objects db1)), Hd, size_dom. by apply (Hroom Buf Hl2).
Qed.

Lemma CoreLocateDevicePath_full db m g p i js out : valid Max db -> wf m -> path_at m p (join i js) -> is_instance i -> paths_ok db m ->
  exists Status p' device db', CoreLocateDevicePath Verify Max PcdMaximumDevicePathNodeCount (Some g) (Some p) out m db = Ok (Status, Some p', device, db') /\
    valid Max db' /\ same_protocols db db' /\ Calls db' = Calls db /\ only_reads db db' /\ locate_result db m g p i js out Status p' device.
Proof.
  intros Hv Hw Hp Hi Hok. unfold CoreLocateDevicePath. destruct (first_instance m p i js Hw Hp Hi) as (HF & Hpos & Hgood & Hfit & r & Hsrc). rewrite HF.
  replace (p =? NULL) with false by (unfold NULL; lia). cbn [mbind result_bind]. rewrite Z.add_simpl_l.
  replace (cast INT64 (nodes_size i)) with (nodes_size i) by (symmetry; apply cast_fits; [done|]; unfold fits; cbn; unfold nodes_size in *; lia).
  destruct (CoreLocateHandleBuffer_found db g Hv) as (St & n & Buf & db1 & -> & Hv1 & Hs1 & Hc1 & Hr1 & Hcase). cbn [mbind result_bind].
  destruct Hcase as [(HE & Hnone)|(HE & HBne & -> & Hnd & Hwith & Hall)]; rewrite HE; cbn [orb].
  { exists EFI_NOT_FOUND, p, None, db1. split; [done|]. do 4 (split; [done|]). apply locate_none. intros Hroom h b ([v Hh] & _). by apply (Hnone Hroom h v). }
  replace (Z.of_nat (length Buf) =? 0) with false by (symmetry; apply Z.eqb_neq; by destruct Buf). rewrite Nat2Z.id.
  destruct (LocateDevicePath_loop_spec db m p i r Hw Hpos Hsrc Hgood Hi Hok Buf Hnd) with (looked := @nil ptr) (todo := Buf) (db := db1) (BM := -1) (BD := NULL) as (BM & BD & db2 & Hloop & Hv2 & Hs2 & Hc2 & Hr2 & Hbest & Hge & Hlong); [|done|done|done|by left|].
  { intros h [v Hv']%Hwith. by apply (Installed_handle Max db h g v). }
  cbn [length] in Hloop. rewrite Hloop. cbn [mbind result_bind].
  assert (room db g -> forall h b, candidate db m g i h b -> nodes_size b <= BM) as Hlongest.
  { intros Hroom h b ([v Hh] & Hdp & Hpre). destruct (Hall Hroom) as [Hin Hop]. apply (Hlong Hop h b); [by apply (Hin h v)|done|done]. }
  assert (only_reads db db2) as Hreads. { apply (only_reads_trans db db1); [intros j; by apply (same_interfaces Max)|done|done]. }
  assert (Calls db2 = Calls db) as Hcalls by congruence. destruct Hbest as [[-> ->]|(b & HBD & Hdp & [rest Hrest] & ->)].
  - cbn [Z.eqb]. exists EFI_NOT_FOUND, p, None, db2. split; [done|]. do 4 (split; [done|]). apply locate_none. intros Hroom h b Hcan.
    pose proof (Hlongest Hroom h b Hcan) as Hle. unfold nodes_size in Hle. lia.
  - replace (nodes_size b =? -1) with false by (symmetry; apply Z.eqb_neq; unfold nodes_size; lia).
    assert (locate_result db m g p i js out (if out then EFI_SUCCESS else EFI_INVALID_PARAMETER) (if out then p + nodes_size b else p) (if out then Some BD else None)) as Hres.
    { apply (locate_found _ _ _ _ _ _ _ BD b rest); [|done| |].
      - split; [by apply Hwith|]. split; [done|by exists rest].
      - apply path_suffix. by rewrite <-join_prefix, <-Hrest.
      - intros Hroom h' b' Hcan. apply (prefix_of_longer b' b i); [apply Hcan|by exists rest|]. by apply (Hlongest Hroom h'). }
    destruct out; cbn [negb]; eexists _, _, _, db2; (split; [done|]); do 4 (split; [done|]); exact Hres.
Qed.
End Locate.
