(* ===== verification/HandlePathInstall.v ===== *)
(** * Handles and device paths: installing several interfaces

    [CoreInstallMultipleProtocolInterfaces] installs all of its interfaces, or
    removes again those that it has installed. *)

From S2P Require Import Prelude CTypes LinkedList ListFamily Handle HandleInv HandleLookup HandleShape HandleCreate HandleRemove HandleUninstall HandleDriver HandleOpen HandleInstall HandleErase HandleLocate HandleSafe HandleProgram DevicePath DevicePathSpec DevicePathValid DevicePathMemory DevicePathOps DevicePathInstances DevicePathPrefix HandlePath HandlePathLocate.

Section Install.
Context `{Platform} `{Drivers} `{PathPlatform} (Verify : bool) (Max : nat) `{!PoolLaws Max} `{!DriverLaws Max} (PcdMaximumDevicePathNodeCount : Z).
Implicit Types db : Database.
Abbreviation acceptable := (acceptable PcdMaximumDevicePathNodeCount).
Abbreviation paths_ok := (paths_ok PcdMaximumDevicePathNodeCount).

(** ** Whether a device path is there already *)

Lemma IsDevicePathEnd_path m p ns : wf m -> path_at m p ns -> IsDevicePathEnd m p = Ok (bool_decide (ns = [])).
Proof.
  intros Hw Hp. destruct ns as [|n ns].
  - by rewrite (IsDevicePathEnd_head _ _ _ _ _ (path_end m p Hw Hp)).
  - rewrite (IsDevicePathEnd_head _ _ _ _ _ (path_head m p n ns Hw Hp)), good_not_end; [done|]. pose proof (path_good _ _ _ Hp) as Hg. by apply Forall_cons in Hg as [? _].
Qed.

Lemma join_nil i js : join i js = [] -> i = [] /\ js = [].
Proof. destruct js; [done|]. cbn [join]. by destruct i. Qed.

Lemma DevicePathStarted_spec db m p i js : valid Max db -> wf m -> path_at m p (join i js) -> is_instance i -> paths_ok db m ->
  exists started db', DevicePathStarted Verify Max PcdMaximumDevicePathNodeCount p m db = Ok (started, db') /\
    valid Max db' /\ same_protocols db db' /\ Calls db' = Calls db /\ only_reads db db' /\
    (started = true -> js = [] /\ exists h, DevicePathOf db m h i) /\ (room db gEfiDevicePathProtocolGuid -> js = [] -> started = false -> forall h, ~ DevicePathOf db m h i).
Proof.
  intros Hv Hw Hp Hi Hok. unfold DevicePathStarted.
  destruct (CoreLocateDevicePath_full Verify Max _ db m gEfiDevicePathProtocolGuid p i js true Hv Hw Hp Hi Hok) as (St & p' & dev & db' & -> & Hv' & Hs' & Hc' & Hr' & Hres). cbn [mbind result_bind].
  assert (forall h b, DevicePathOf db m h b -> b `prefix_of` i -> candidate db m gEfiDevicePathProtocolGuid i h b) as Hcand by (intros h b [q [Hq Hb]] Hpre; split; [by exists q|split; [by exists q|done]]).
  destruct Hres as [Hnone|h b rest Hc Hi' Hrest Hlong]; cbn [EFI_ERROR negb andb default].
  - exists false, db'. do 5 (split; [done|]). split; [done|]. intros Hroom _ _ h Hh. apply (Hnone Hroom h i). by apply Hcand.
  - destruct Hc as ([v Hh] & Hdp & Hpre). pose proof (wu_handle _ (valid_well_used Max db Hv) h (Installed_handle Max db h _ v Hv Hh)) as [Hn _].
    cbn [id]. rewrite (proj2 (Z.eqb_neq _ _) Hn). cbn [negb]. rewrite (IsDevicePathEnd_path m _ _ Hw Hrest). cbn [mbind result_bind].
    exists (bool_decide (join rest js = [])), db'. do 5 (split; [done|]). split.
    + intros [-> ->]%bool_decide_eq_true%join_nil. split; [done|]. exists h. by rewrite Hi', app_nil_r.
    + intros Hroom -> Hd h' Hh'. apply bool_decide_eq_false in Hd. apply Hd. cbn [join]. destruct (Hlong Hroom h' i) as [k Hk]; [by apply Hcand|].
      assert (length i = (length b + length rest)%nat) as Hlen by (by rewrite <-length_app, <-Hi'). assert (length b = (length i + length k)%nat) as Hlen' by (by rewrite <-length_app, <-Hk). destruct rest; [done|simpl in Hlen; lia].
Qed.

(** ** The interfaces that have been added *)

(** To [db0] the interfaces [I] were added on the handle [k]: the objects, with the
    protocols and interfaces. *)
Record added db0 (k : ptr) (I : list (ptr * (EFI_GUID * Z))) db : Prop := {
  ad_valid : valid Max db;
  ad_provides : forall i h g v, provides (objects db) i h g v <-> provides (objects db0) i h g v \/ (h = k /\ (i, (g, v)) ∈ I);
  ad_new : forall i gv h g v, (i, gv) ∈ I -> ~ provides (objects db0) i h g v;
  ad_once : NoDup I.*1;
  ad_unused : forall i gv, (i, gv) ∈ I -> nobody db i uses;
  ad_handle : I <> [] -> k <> NULL }.

Lemma added_start db k : valid Max db -> added db k [] db.
Proof.
  assert (forall x, x ∉ ([] : list (ptr * (EFI_GUID * Z)))) as Hnil by (intros x; apply not_elem_of_nil).
  intros Hv. split; [done| |by intros i gv h g v Hi%Hnil|by constructor|by intros i gv Hi%Hnil|done]. intros i h g v. split; [by left|]. by intros [?|[_ Hi%Hnil]].
Qed.

Lemma added_interface db0 k I db i gv : added db0 k I db -> (i, gv) ∈ I -> provides (objects db) i k gv.1 gv.2 /\ is_interface (objects db) i.
Proof.
  intros Had Hi. assert (provides (objects db) i k gv.1 gv.2) as Hp by (apply (ad_provides _ _ _ _ Had); right; by destruct gv). split; [done|]. destruct Hp as (r & _ & Hr & _). by exists r.
Qed.

(** Reading leaves only opens that do not hold an interface. *)
Lemma read_uses db db' i : only_reads db db' -> is_interface (objects db) i -> nobody db i uses -> nobody db' i uses.
Proof. intros Hr Hi Hn q r Hq. destruct (Hr i q r Hi Hq) as [Hq'|Ha]; [by apply (Hn q)|]. unfold uses, holds, passive, by_driver. by rewrite Ha. Qed.

Lemma added_same db0 k I db db' : added db0 k I db -> valid Max db' -> same_protocols db db' -> only_reads db db' -> added db0 k I db'.
Proof.
  intros Had Hv [_ Hp] Hr. pose proof Had as [_ Hprov Hnew Hnd Hun Hh]. split; try done.
  - intros i h g v. by rewrite Hp.
  - intros i gv Hi. apply (read_uses db); [done| |by apply (Hun i gv)]. by apply (added_interface db0 k I db i gv).
Qed.

Lemma added_install db0 k I db g v N k' p db' : added db0 k I db -> install_success db k' g v N k p db' -> valid Max db' -> only_reads db db' ->
  added db0 k' (I ++ [(p, (g, v))]) db'.
Proof.
  intros Had Hs Hv Hr. pose proof Had as [_ Hprov Hnew Hnd Hun Hh].
  assert (I <> [] -> k' = k) as Hk by (intros Hne; by apply (is_named _ _ _ _ _ _ _ _ Hs), Hh).
  assert (forall h g' v', ~ provides (objects db) p h g' v') as Hfresh.
  { intros h g' v' Hp. assert (provides (objects db') p h g' v') as Hp1 by (apply (is_provides _ _ _ _ _ _ _ _ Hs); by left).
    assert (provides (objects db') p k' g v) as Hp2 by (apply (is_provides _ _ _ _ _ _ _ _ Hs); by right). destruct (provides_same_object _ _ _ _ _ _ _ _ Hp1 Hp2) as (-> & -> & ->).
    apply (is_before _ _ _ _ _ _ _ _ Hs v). by exists p. }
  split; [done| | | | |].
  - intros i h g' v'. rewrite (is_provides _ _ _ _ _ _ _ _ Hs), Hprov. setoid_rewrite elem_of_app. setoid_rewrite list_elem_of_singleton. split.
    + intros [[?|[-> Hin]]|(-> & -> & -> & ->)]; [by left| |right; split; [done|by right]]. right. split; [|by left]. symmetry. apply Hk. intros ->. by apply not_elem_of_nil in Hin.
    + intros [?|[-> [Hin|[= -> -> ->]]]]; [by left; left| |by right]. left. right. split; [|done]. apply Hk. intros ->. by apply not_elem_of_nil in Hin.
  - intros i gv h g' v' [Hin|Heq]%elem_of_app Hp; [by apply (Hnew i gv h g' v')|]. apply list_elem_of_singleton in Heq as [= -> ->]. apply (Hfresh h g' v'), Hprov. by left.
  - rewrite fmap_app. apply NoDup_app. split; [done|]. split; [|by apply NoDup_singleton]. intros i ([i' gv] & -> & Hin)%list_elem_of_fmap. cbn [fmap list_fmap fst]. rewrite list_elem_of_singleton. intros ->.
    by destruct (Hfresh k gv.1 gv.2), (added_interface db0 k I db p gv).
  - intros i gv [Hin|Heq]%elem_of_app.
    + apply (read_uses db); [done| |by apply (Hun i gv)]. by apply (added_interface db0 k I db i gv).
    + apply list_elem_of_singleton in Heq as [= -> ->]. intros q r Hq. by pose proof (is_unused _ _ _ _ _ _ _ _ Hs q r Hq).
  - intros _. exact (is_not_null _ _ _ _ _ _ _ _ Hs).
Qed.

(** What was added first is removed. *)
Lemma added_uninstall db0 k i g v I db : added db0 k ((i, (g, v)) :: I) db ->
  exists db', CoreUninstallProtocolInterface Verify Max k (Some g) v db = Ok (EFI_SUCCESS, db') /\ added db0 k I db'.
Proof.
  intros Had. pose proof Had as [Hv Hprov Hnew Hnd Hun Hh]. destruct (added_interface db0 k _ db i (g, v) Had) as [Hi _]; [left|]. cbn [fst snd] in Hi.
  pose proof Hv as [_ (F & owner & Hinv & _)]. assert (Installed db k g v) as Hin by (by exists i).
  assert (nobody db i by_driver) as Hquiet. { intros q r Hq. pose proof (Hun i (g, v) ltac:(left) q r Hq) as Hr. by apply orb_false_iff in Hr as [_ ?]. }
  destruct (CoreUninstallProtocolInterface_full Verify Max db k g v Hv) as (St & db' & Heq & Hv' & Hres & Hleft).
  destruct Hres as [Hno|_ Hno|j db' Hj Href|j db1 db' Hj _ Hsame Hquiet1 Hrm].
  - by destruct Hno; apply (Installed_handle Max db k g v).
  - done.
  - destruct (provides_unique Max F owner db i j k g v v Hinv Hi Hj) as [<- _]. by destruct (nobody_refused k i db db' (Hun i (g, v) ltac:(left))).
  - exists db'. split; [done|]. destruct (provides_unique Max F owner db i j k g v v Hinv Hi Hj) as [<- _]. destruct (Hquiet1 Hquiet) as [[_ Hs] _]. apply NoDup_cons in Hnd as [Hni Hnd]. cbn [fst] in Hni.
    assert (forall j h g' v', provides (objects db') j h g' v' <-> provides (objects db) j h g' v' /\ j <> i) as Hp by (intros j h g' v'; by rewrite (rm_provides _ _ _ _ Hrm), Hs).
    assert (forall j gv, (j, gv) ∈ I -> j <> i) as Hne. { intros j gv Hjin ->. apply Hni, list_elem_of_fmap. by exists (i, gv). }
    split; [done| | |done| |].
    + intros j h g' v'. rewrite Hp, Hprov. split.
      * intros [[?|[-> [[= -> -> ->]|Hjin]%elem_of_cons]] Hji]; [by left|done|by right].
      * intros [Hj0|[-> Hjin]]; [|split; [right; split; [done|by right]|by apply (Hne j (g', v'))]]. split; [by left|]. intros ->. by apply (Hnew i (g, v) h g' v'); [left|].
    + intros j gv h g' v' Hjin. apply (Hnew j gv). by right.
    + intros j gv Hjin q r Hq. apply (Hun j gv ltac:(by right) q r). apply (Hleft eq_refl i Hi Hquiet j q r); [|done].
      destruct (proj2 (Hp j k gv.1 gv.2)) as (rj & _ & Hrj & _); [|by exists rj]. split; [|by apply (Hne j gv)]. apply Hprov. right. split; [done|]. right. by destruct gv.
    + intros _. apply Hh. done.
Qed.

Lemma UninstallFirst_spec db0 k rest : forall I db, added db0 k I db ->
  exists db', UninstallFirst Verify Max k (I.*2 ++ rest) (S (length I)) db = Ok db' /\ added db0 k [] db'.
Proof.
  induction I as [|[i [g v]] I IH]; intros db Had.
  - exists db. split; [|done]. by destruct rest as [|[? ?] ?].
  - destruct (added_uninstall db0 k i g v I db Had) as (db1 & Heq & Had1). destruct (IH db1 Had1) as (db' & Heq' & Had'). exists db'. split; [|done].
    cbn [fmap list_fmap snd app length UninstallFirst]. rewrite Heq. exact Heq'.
Qed.

(** With nothing added the handles are the same, since each has an interface. *)
Lemma provides_handles db db' : valid Max db -> valid Max db' -> (forall i h g v, provides (objects db') i h g v <-> provides (objects db) i h g v) -> same_protocols db db'.
Proof.
  intros Hv Hv' Hp. split; [|done]. intros h. split; intros Hh.
  - destruct (wu_handle _ (valid_well_used Max db' Hv') h Hh) as (_ & g & v & i & Hi). apply (Installed_handle Max db h g v Hv). exists i. by apply Hp.
  - destruct (wu_handle _ (valid_well_used Max db Hv) h Hh) as (_ & g & v & i & Hi). apply (Installed_handle Max db' h g v Hv'). exists i. by apply Hp.
Qed.

Lemma added_none db0 k db : valid Max db0 -> added db0 k [] db -> same_protocols db0 db.
Proof.
  intros Hv [Hv' Hprov _ _ _ _]. apply provides_handles; [done..|]. intros i h g v. rewrite Hprov. split; [|by left]. intros [?|[_ Hin]]; [done|]. by apply not_elem_of_nil in Hin.
Qed.

(** ** The service *)

(** The device paths among the arguments are in memory, and there is one at most. *)
Fixpoint arguments_ok (m : Memory) (args : list (EFI_GUID * Z)) : Prop :=
  match args with
  | [] => True
  | (g, v) :: args => (g = gEfiDevicePathProtocolGuid -> (exists i js, path_at m v (join i js) /\ is_instance i) /\ Forall (fun gv => gv.1 <> gEfiDevicePathProtocolGuid) args) /\ arguments_ok m args
  end.

(** No device path has been added. *)
Definition no_path (gvs : list (EFI_GUID * Z)) : Prop := Forall (fun gv => gv.1 <> gEfiDevicePathProtocolGuid) gvs.

Lemma added_paths db0 k I db m : added db0 k I db -> no_path I.*2 -> paths_ok db0 m -> paths_ok db m.
Proof.
  intros Had Hno [Hacc Huniq]. assert (forall h q, Installed db h gEfiDevicePathProtocolGuid q -> Installed db0 h gEfiDevicePathProtocolGuid q) as Hi.
  { intros h q [i Hi]. apply (ad_provides _ _ _ _ Had) in Hi as [Hi|[_ Hi]]; [by exists i|]. exfalso.
    apply (proj1 (Forall_forall _ _) Hno (gEfiDevicePathProtocolGuid, q)); [|done]. apply list_elem_of_fmap. by exists (i, (gEfiDevicePathProtocolGuid, q)). }
  split; [intros h q Hq; by apply (Hacc h), Hi|]. intros h1 h2 b Hb (q1 & E1 & P1) (q2 & E2 & P2). by apply (Huniq h1 h2 b Hb); [exists q1|exists q2]; split; [apply Hi| |apply Hi|].
Qed.

(** One interface: the device path is looked for, and the interface installed. *)
Lemma InstallMultiple_one db0 k I db m g v : added db0 k I db -> wf m -> paths_ok db0 m -> (g = gEfiDevicePathProtocolGuid -> no_path I.*2 /\ exists i js, path_at m v (join i js) /\ is_instance i) ->
  exists started db1, (if CompareGuid g gEfiDevicePathProtocolGuid then DevicePathStarted Verify Max PcdMaximumDevicePathNodeCount v m db else Ok (false, db)) = Ok (started, db1) /\ added db0 k I db1 /\
    same_protocols db db1 /\
    exists Status k' db2, CoreInstallProtocolInterface Verify Max (Some k) (Some g) EFI_NATIVE_INTERFACE v db1 = Ok (Status, k', db2) /\
      ((EFI_ERROR Status = true /\ k' = Some k /\ added db0 k I db2) \/
       (Status = EFI_SUCCESS /\ exists h p, k' = Some h /\ install_success db1 h g v true k p db2 /\ added db0 h (I ++ [(p, (g, v))]) db2)).
Proof.
  intros Had Hw Hok Hg. assert (exists started db1, (if CompareGuid g gEfiDevicePathProtocolGuid then DevicePathStarted Verify Max PcdMaximumDevicePathNodeCount v m db else Ok (false, db)) = Ok (started, db1) /\
    added db0 k I db1 /\ same_protocols db db1) as (started & db1 & Heq & Had1 & Hs1).
  { unfold CompareGuid. destruct (bool_decide_reflect (g = gEfiDevicePathProtocolGuid)) as [Hdp|_]; [|by exists false, db]. destruct (Hg Hdp) as (Hno & i & js & Hp & Hi).
    destruct (DevicePathStarted_spec db m v i js (ad_valid _ _ _ _ Had) Hw Hp Hi (added_paths db0 k I db m Had Hno Hok)) as (started & db1 & -> & Hv1 & Hs1 & _ & Hr1 & _).
    exists started, db1. split; [done|]. split; [by apply (added_same db0 k I db)|done]. }
  exists started, db1. split; [done|]. split; [done|]. split; [done|]. unfold CoreInstallProtocolInterface.
  destruct (CoreInstallProtocolInterfaceNotify_full Verify Max db1 k g v true (ad_valid _ _ _ _ Had1)) as (Status & k' & db2 & -> & Hv2 & Hres & Hr2). exists Status, k', db2. split; [done|].
  destruct Hres as [h p db2 Hs|w db2 Hk Hw' Hs Hc|Status db2 HE%install_error_error Hs Hc].
  - right. split; [done|]. exists h, p. split; [done|]. split; [done|]. by apply (added_install db0 k I db1 g v true).
  - left. split; [done|]. split; [done|]. by apply (added_same db0 k I db1).
  - left. split; [done|]. split; [done|]. by apply (added_same db0 k I db1).
Qed.

Lemma InstallMultiple_loop_spec db0 m : valid Max db0 -> wf m -> paths_ok db0 m -> forall args k I db, added db0 k I db -> arguments_ok m args -> no_path I.*2 \/ no_path args ->
  exists Status k' Index db' I', InstallMultiple_loop Verify Max PcdMaximumDevicePathNodeCount k args (length I) m db = Ok (Status, k', Index, db') /\ added db0 k' (I ++ I') db' /\
    (k <> NULL -> k' = k) /\ (k = NULL -> I' <> [] -> ~ IsHandle db0 k') /\
    ((Status = EFI_SUCCESS /\ I'.*2 = args) \/ (EFI_ERROR Status = true /\ Index = S (length (I ++ I')) /\ exists rest, args = I'.*2 ++ rest)).
Proof.
  intros Hv0 Hw Hok. induction args as [|[g v] args IH]; intros k I db Had Hargs Hpaths; cbn [InstallMultiple_loop].
  { exists EFI_SUCCESS, k, (length I), db, []. rewrite app_nil_r. do 4 (split; [done|]). by left. }
  destruct Hargs as [Hg Hargs].
  destruct (InstallMultiple_one db0 k I db m g v Had Hw Hok) as (started & db1 & -> & Had1 & Hs1 & Status & k' & db2 & Heq & Hcase).
  { intros Hdp. split; [|by apply Hg]. destruct Hpaths as [?|Hno]; [done|]. by apply Forall_cons in Hno as [? _]. }
  cbn [mbind result_bind]. destruct started.
  { exists EFI_ALREADY_STARTED, k, (S (length I)), db1, []. rewrite app_nil_r. do 4 (split; [done|]). right. do 2 (split; [done|]). by exists ((g, v) :: args). }
  rewrite Heq. cbn [mbind result_bind]. destruct Hcase as [(HE & -> & Had2)|(-> & h & p & -> & Hs & Had2)].
  { rewrite HE. exists Status, k, (S (length I)), db2, []. rewrite app_nil_r. do 4 (split; [done|]). right. do 2 (split; [done|]). by exists ((g, v) :: args). }
  cbn [EFI_ERROR default id]. destruct (IH h (I ++ [(p, (g, v))]) db2 Had2 Hargs) as (Status & k' & Index & db' & I' & Hloop & Had' & Hsame & _ & Hout).
  { destruct (decide (g = gEfiDevicePathProtocolGuid)) as [Hdp|Hdp]; [right; by apply Hg|]. destruct Hpaths as [Hno|Hno]; [left|right; by apply Forall_cons in Hno as [_ ?]].
    unfold no_path. rewrite fmap_app. apply Forall_app. split; [done|]. by apply Forall_cons. }
  rewrite length_app, Nat.add_1_r in Hloop. exists Status, k', Index, db', ((p, (g, v)) :: I'). split; [done|]. rewrite <-app_assoc in Had', Hout. cbn [app] in Had', Hout. split; [done|].
  pose proof (is_not_null _ _ _ _ _ _ _ _ Hs) as Hn. rewrite (Hsame Hn). split; [intros Hk; by apply (is_named _ _ _ _ _ _ _ _ Hs)|]. split.
  - intros -> _ Hh. apply (is_new _ _ _ _ _ _ _ _ Hs eq_refl). assert (I = []) as -> by (destruct I; [done|by destruct (ad_handle _ _ _ _ Had)]).
    by apply (added_none db0 NULL db1 Hv0 Had1).
  - destruct Hout as [[-> <-]|(HE & -> & rest & ->)]; [by left|right]. split; [done|]. split; [done|]. by exists rest.
Qed.

(** All the interfaces are there, on the handle, which is a new one if none was
    given. *)
Record all_installed db (hd : ptr) (args : list (EFI_GUID * Z)) (k : ptr) db' : Prop := {
  al_named : hd <> NULL -> k = hd;
  al_new : hd = NULL -> args <> [] -> ~ IsHandle db k;
  al_installed : forall h g v, Installed db' h g v <-> Installed db h g v \/ (h = k /\ (g, v) ∈ args) }.

Lemma InstallMultiple_correct db m hd args : valid Max db -> wf m -> paths_ok db m -> arguments_ok m args ->
  exists Status k db', CoreInstallMultipleProtocolInterfaces Verify Max PcdMaximumDevicePathNodeCount (Some hd) args m db = Ok (Status, Some k, db') /\ valid Max db' /\
    if EFI_ERROR Status then k = hd /\ same_protocols db db' else Status = EFI_SUCCESS /\ all_installed db hd args k db'.
Proof.
  intros Hv Hw Hok Hargs. unfold CoreInstallMultipleProtocolInterfaces.
  destruct (InstallMultiple_loop_spec db m Hv Hw Hok args hd [] db (added_start db hd Hv) Hargs) as (Status & k & Index & db1 & I & Heq & Had & Hk & Hnew & Hout); [left; constructor|].
  cbn [length] in Heq. rewrite Heq. cbn [mbind result_bind]. cbn [app] in Had, Hout. destruct Hout as [[-> Hargs']|(HE & -> & rest & ->)].
  - exists EFI_SUCCESS, k, db1. cbn [EFI_ERROR]. split; [done|]. split; [apply Had|]. split; [done|]. split; [done|intros Hn Hne; apply Hnew; [done|]; by intros ->|].
    intros h g v. unfold Installed. setoid_rewrite (ad_provides _ _ _ _ Had). split.
    + intros [i [Hi|[-> Hi]]]; [left; by exists i|right]. split; [done|]. rewrite <-Hargs'. apply list_elem_of_fmap. by exists (i, (g, v)).
    + intros [[i Hi]|[-> Hi]]; [exists i; by left|]. rewrite <-Hargs' in Hi. apply list_elem_of_fmap in Hi as ([i gv] & Hgv & Hi). cbn [snd] in Hgv. subst gv. exists i. by right.
  - rewrite HE. destruct (UninstallFirst_spec db k rest I db1 Had) as (db' & -> & Had'). cbn [mbind result_bind]. exists Status, hd, db'. split; [done|]. split; [apply Had'|].
    rewrite HE. split; [done|]. by apply (added_none db k).
Qed.

(** ** A device path *)

Lemma paths_same db db' m : same_protocols db db' -> paths_ok db m -> paths_ok db' m.
Proof.
  intros Hs [Hacc Huniq]. split.
  - intros h q [i Hi]. apply (Hacc h). exists i. by apply (proj2 Hs).
  - intros h1 h2 b Hb D1%(DevicePathOf_same db db' m h1 b Hs) D2%(DevicePathOf_same db db' m h2 b Hs). by apply (Huniq h1 h2 b).
Qed.

Lemma paths_added db db' m hd k args : all_installed db hd args k db' -> paths_ok db m ->
  (forall v w, (gEfiDevicePathProtocolGuid, v) ∈ args -> (gEfiDevicePathProtocolGuid, w) ∈ args -> v = w) ->
  (forall v, (gEfiDevicePathProtocolGuid, v) ∈ args -> exists i, path_at m v i /\ acceptable i = true /\ forall h, ~ DevicePathOf db m h i) -> paths_ok db' m.
Proof.
  intros [_ _ Hal] [Hacc Huniq] Hone Hnew.
  assert (forall h q, Installed db' h gEfiDevicePathProtocolGuid q -> Installed db h gEfiDevicePathProtocolGuid q \/ (h = k /\ (gEfiDevicePathProtocolGuid, q) ∈ args)) as Hcase by (intros h q; apply Hal).
  assert (forall h b, DevicePathOf db' m h b -> DevicePathOf db m h b \/ (h = k /\ (forall h', ~ DevicePathOf db m h' b))) as Hof.
  { intros h b (q & [Hq|[-> Hq]]%Hcase & Hb); [left; by exists q|right]. split; [done|]. destruct (Hnew q Hq) as (i & Hi & _ & Hno). by rewrite (path_at_unique m q b i Hb Hi). }
  split.
  - intros h q [Hq|[-> Hq]]%Hcase; [by apply (Hacc h)|]. destruct (Hnew q Hq) as (i & ? & ? & _). by exists i.
  - intros h1 h2 b Hb [D1|[-> N1]]%Hof [D2|[-> N2]]%Hof; [by apply (Huniq h1 h2 b)|by destruct (N2 h1)|by destruct (N1 h2)|done].
Qed.

(** A list with its device path, if it has one. *)
Lemma arguments_split m args : arguments_ok m args -> no_path args \/ exists before v after, args = before ++ (gEfiDevicePathProtocolGuid, v) :: after /\ no_path before /\ no_path after.
Proof.
  induction args as [|[g v] args IH]; intros Hargs; [left; by constructor|]. destruct Hargs as [Hg Hargs]. destruct (decide (g = gEfiDevicePathProtocolGuid)) as [->|Hne].
  - right. exists [], v, args. split; [done|]. split; [by constructor|]. by apply Hg.
  - destruct (IH Hargs) as [Hno|(before & w & after & -> & Hb & Ha)]; [left; by constructor|right]. exists ((g, v) :: before), w, after. split; [done|]. split; [by constructor|done].
Qed.

Lemma path_split_unique before v after before' v' after' : no_path before -> no_path after ->
  before ++ (gEfiDevicePathProtocolGuid, v) :: after = before' ++ (gEfiDevicePathProtocolGuid, v') :: after' -> before' = before /\ v' = v /\ after' = after.
Proof.
  intros Hb Ha. revert before'. induction before as [|[g w] before IH]; intros [|[g' w'] before'] Heq; cbn [app] in Heq; injection Heq as ?.
  - by simplify_eq.
  - simplify_eq. apply Forall_app in Ha as [_ Ha]. by apply Forall_cons in Ha as [Ha _].
  - simplify_eq. by apply Forall_cons in Hb as [Hb _].
  - simplify_eq. apply Forall_cons in Hb as [_ Hb]. by destruct (IH Hb before') as (-> & -> & ->).
Qed.

Lemma arguments_before m before rest : arguments_ok m (before ++ rest) -> arguments_ok m before.
Proof.
  induction before as [|[g v] before IH]; intros Hargs; [done|]. destruct Hargs as [Hg Hargs]. split; [|by apply IH]. intros [Hp Hno]%Hg. split; [done|]. by apply Forall_app in Hno as [? _].
Qed.

(** The loop over two lists, one after the other. *)
Lemma InstallMultiple_loop_app hd before rest n m db :
  InstallMultiple_loop Verify Max PcdMaximumDevicePathNodeCount hd (before ++ rest) n m db =
  let! (Status, k, Index, db1) := InstallMultiple_loop Verify Max PcdMaximumDevicePathNodeCount hd before n m db in
  if EFI_ERROR Status then Ok (Status, k, Index, db1) else InstallMultiple_loop Verify Max PcdMaximumDevicePathNodeCount k rest Index m db1.
Proof.
  revert hd n db. induction before as [|[g v] before IH]; intros hd n db; cbn [app InstallMultiple_loop]; [done|].
  destruct (if CompareGuid g _ then _ else _) as [[[|] db1]| | |]; cbn [mbind result_bind]; [done| |done..].
  destruct (CoreInstallProtocolInterface _ _ _ _ _ _ _) as [[[Status k] db2]| | |]; cbn [mbind result_bind]; [|done..].
  destruct (EFI_ERROR Status) eqn:HE; cbn [mbind result_bind]; [by rewrite HE|]. apply IH.
Qed.

(** When the search for a device path of the list is made, there is room for it. *)
Definition searchable db m (hd : ptr) (before : list (EFI_GUID * Z)) : Prop :=
  forall k n db1, InstallMultiple_loop Verify Max PcdMaximumDevicePathNodeCount hd before 0 m db = Ok (EFI_SUCCESS, k, n, db1) -> room db1 gEfiDevicePathProtocolGuid.

Lemma searchable_first db m hd : room db gEfiDevicePathProtocolGuid -> searchable db m hd [].
Proof. intros Hr k n db1. cbn [InstallMultiple_loop]. by intros [= _ _ <-]. Qed.

(** Where the loop is after the interfaces before the device path: it fails with
    one of them, or finds the device path, or goes on if no handle has it. *)
Lemma install_to_path db m hd before v after i : valid Max db -> wf m -> paths_ok db m -> arguments_ok m (before ++ (gEfiDevicePathProtocolGuid, v) :: after) -> no_path before ->
  path_at m v i -> is_instance i -> searchable db m hd before ->
  exists Status k Index db1, InstallMultiple_loop Verify Max PcdMaximumDevicePathNodeCount hd before 0 m db = Ok (Status, k, Index, db1) /\
    ((EFI_ERROR Status = true /\ InstallMultiple_loop Verify Max PcdMaximumDevicePathNodeCount hd (before ++ (gEfiDevicePathProtocolGuid, v) :: after) 0 m db = Ok (Status, k, Index, db1)) \/
     (Status = EFI_SUCCESS /\
       ((exists db2, InstallMultiple_loop Verify Max PcdMaximumDevicePathNodeCount hd (before ++ (gEfiDevicePathProtocolGuid, v) :: after) 0 m db = Ok (EFI_ALREADY_STARTED, k, S Index, db2)) \/
        forall h, ~ DevicePathOf db m h i) /\
       ((exists h, DevicePathOf db m h i) -> exists db2, InstallMultiple_loop Verify Max PcdMaximumDevicePathNodeCount hd (before ++ (gEfiDevicePathProtocolGuid, v) :: after) 0 m db = Ok (EFI_ALREADY_STARTED, k, S Index, db2)))).
Proof.
  intros Hv Hw Hok Hargs Hno Hp Hi Hroom.
  destruct (InstallMultiple_loop_spec db m Hv Hw Hok before hd [] db (added_start db hd Hv) (arguments_before m _ _ Hargs)) as (Status & k & Index & db1 & I & Heq & Had & _ & _ & Hout); [by right|].
  cbn [length app] in *. exists Status, k, Index, db1. split; [done|]. rewrite InstallMultiple_loop_app, Heq. cbn [mbind result_bind]. destruct Hout as [[-> HI]|(HE & _)]; [right; split; [done|]|left; by rewrite HE].
  cbn [EFI_ERROR InstallMultiple_loop]. unfold CompareGuid. rewrite bool_decide_eq_true_2 by done.
  assert (paths_ok db1 m) as Hok1 by (apply (added_paths db k I db1); [done|by rewrite HI|done]).
  destruct (DevicePathStarted_spec db1 m v i [] (ad_valid _ _ _ _ Had) Hw Hp Hi Hok1) as (started & db2 & -> & _ & _ & _ & _ & Hyes & Hnone). cbn [mbind result_bind].
  assert (forall h, DevicePathOf db m h i -> DevicePathOf db1 m h i) as Hkept by (intros h (q & [j Hj] & Hq); exists q; split; [exists j; apply (ad_provides _ _ _ _ Had); by left|done]).
  destruct started; [split; [left|intros _]; by exists db2|]. assert (forall h, ~ DevicePathOf db m h i) as Hn by (intros h Hh%Hkept; by apply (Hnone (Hroom _ _ _ Heq) eq_refl eq_refl h)).
  split; [by right|]. intros [h Hh]. by destruct (Hn h).
Qed.

Lemma InstallMultiple_status hd args m db Status k Index db1 Status' k' db' : InstallMultiple_loop Verify Max PcdMaximumDevicePathNodeCount hd args 0 m db = Ok (Status, k, Index, db1) ->
  CoreInstallMultipleProtocolInterfaces Verify Max PcdMaximumDevicePathNodeCount (Some hd) args m db = Ok (Status', k', db') -> Status' = Status.
Proof.
  intros Heq. unfold CoreInstallMultipleProtocolInterfaces. rewrite Heq. cbn [mbind result_bind]. destruct (EFI_ERROR Status); [|by intros [= <- _ _]].
  destruct (UninstallFirst _ _ _ _ _ _); cbn [mbind result_bind]; [by intros [= <- _ _]|done..].
Qed.

(** The list is installed only if no handle has its device path; then the device
    paths are still unique. *)
Lemma install_device_path db m hd args : valid Max db -> wf m -> paths_ok db m -> arguments_ok m args ->
  (forall before v after, args = before ++ (gEfiDevicePathProtocolGuid, v) :: after -> (exists i, path_at m v i /\ is_instance i /\ acceptable i = true) /\ searchable db m hd before) ->
  exists Status k db', CoreInstallMultipleProtocolInterfaces Verify Max PcdMaximumDevicePathNodeCount (Some hd) args m db = Ok (Status, Some k, db') /\ valid Max db' /\ paths_ok db' m /\
    (if EFI_ERROR Status then k = hd /\ same_protocols db db' else Status = EFI_SUCCESS /\ all_installed db hd args k db') /\
    forall before v after h i, args = before ++ (gEfiDevicePathProtocolGuid, v) :: after -> path_at m v i -> DevicePathOf db m h i ->
      EFI_ERROR Status = true /\ forall k1 n db1, InstallMultiple_loop Verify Max PcdMaximumDevicePathNodeCount hd before 0 m db = Ok (EFI_SUCCESS, k1, n, db1) -> Status = EFI_ALREADY_STARTED.
Proof.
  intros Hv Hw Hok Hargs Hpath. destruct (InstallMultiple_correct db m hd args Hv Hw Hok Hargs) as (Status & k & db' & Heq & Hv' & Hres). exists Status, k, db'. split; [done|]. split; [done|].
  assert (EFI_ERROR Status = true -> same_protocols db db') as Herr by (intros HE; by rewrite HE in Hres; apply Hres).
  assert (EFI_ERROR Status = false -> all_installed db hd args k db') as Hall by (intros HE; by rewrite HE in Hres; apply Hres).
  destruct (arguments_split m args Hargs) as [Hno|(before & v & after & -> & Hb & Ha)].
  { assert (forall v, (gEfiDevicePathProtocolGuid, v) ∉ args) as Hnone by (intros v Hin; by apply (proj1 (Forall_forall _ _) Hno _ Hin)).
    split; [destruct (EFI_ERROR Status); [by apply (paths_same db); [apply Herr|]|apply (paths_added db db' m hd k args); [by apply Hall|done|intros v w Hin|intros v Hin]; by destruct (Hnone v)]|].
    split; [done|]. intros before v after h i ->. destruct (Hnone v). apply elem_of_app. right. left. }
  destruct (Hpath before v after eq_refl) as [(i & Hp & Hi & Hacc) Hroom].
  destruct (install_to_path db m hd before v after i Hv Hw Hok Hargs Hb Hp Hi Hroom) as (Status1 & k1 & Index & db1 & Hloop & Hcase).
  assert (EFI_ERROR Status = false -> forall h, ~ DevicePathOf db m h i) as Hnew.
    intros HE. destruct Hcase as [[HE1 Hl]|(_ & [[db2 Hl]|?] & _)]; [..|done]; rewrite (InstallMultiple_status _ _ _ _ _ _ _ _ _ _ _ Hl Heq) in HE; [congruence|done].
  split; [destruct (EFI_ERROR Status) eqn:HE; [by apply (paths_same db); [apply Herr|]|apply (paths_added db db' m hd k _ (Hall eq_refl) Hok)]|split; [done|]].
  - intros w w' Hin1 Hin2. assert (forall u, (gEfiDevicePathProtocolGuid, u) ∈ before ++ (gEfiDevicePathProtocolGuid, v) :: after -> u = v) as Hv1; [|by rewrite (Hv1 w), (Hv1 w')].
    intros u (l1 & l2 & Heq')%list_elem_of_split. by destruct (path_split_unique _ _ _ _ _ _ Hb Ha Heq') as (_ & -> & _).
  - intros w (l1 & l2 & Heq')%list_elem_of_split. destruct (path_split_unique _ _ _ _ _ _ Hb Ha Heq') as (_ & -> & _). exists i. split; [done|]. split; [done|]. by apply Hnew.
  - intros before' v' after' h i' Heq' Hp' Hh. destruct (path_split_unique _ _ _ _ _ _ Hb Ha Heq') as (-> & -> & ->). rewrite (path_at_unique m v i' i Hp' Hp) in Hh. split.
    + destruct (EFI_ERROR Status); [done|]. by destruct (Hnew eq_refl h).
    + intros k2 n db2 Hl. rewrite Hloop in Hl. injection Hl as -> _ _ _. destruct Hcase as [[? _]|(_ & _ & Hst)]; [done|]. destruct Hst as [db3 Hl3]; [by exists h|].
      exact (InstallMultiple_status _ _ _ _ _ _ _ _ _ _ _ Hl3 Heq).
Qed.
End Install.
