(* ===== verification/HandlePathProgram.v ===== *)
(** * Handles and device paths: programs

    Every service of the database, with the two that read device paths.  These
    take the memory that the device paths are in: the paths that they read must be
    device paths in it; the other calls need no more than in HandleProgram. *)

From S2P Require Import Prelude CTypes LinkedList ListFamily Handle HandleInv HandleLookup HandleDriver HandleOpen HandleInstall HandleErase HandleLocate HandleNotify HandleInfo HandleSafe HandleProgram DevicePath DevicePathSpec DevicePathValid DevicePathMemory DevicePathOps DevicePathInstances DevicePathPrefix HandlePath HandlePathLocate HandlePathInstall.

Inductive service :=
| Database_call (c : call)
| InstallMultipleProtocolInterfaces (Handle : option ptr) (args : list (EFI_GUID * Z)) (m : Memory)
| LocateDevicePath (Protocol : option EFI_GUID) (DevicePath : option ptr) (DeviceOut : bool) (m : Memory).

Section Program.
Context `{Platform} `{Drivers} `{PathPlatform} (Verify : bool) (Max : nat) (PcdMaximumDevicePathNodeCount : Z).
Implicit Types db : Database.

Definition run_service (c : service) db : result (EFI_STATUS * Database) :=
  match c with
  | Database_call c => run Verify Max c db
  | InstallMultipleProtocolInterfaces hd args m => first (CoreInstallMultipleProtocolInterfaces Verify Max PcdMaximumDevicePathNodeCount hd args m db)
  | LocateDevicePath g p out m => let! (Status, _, _, db) := CoreLocateDevicePath Verify Max PcdMaximumDevicePathNodeCount g p out m db in Ok (Status, db)
  end.

(** A device path of one or more instances. *)
Definition readable (m : Memory) (p : ptr) : Prop := exists i js, path_at m p (join i js) /\ is_instance i.

(** A key is a registration that is there; a path is in memory, and so are the
    device paths of the handles, which are acceptable and different; a list of
    interfaces has one device path at most.  NULL arguments need nothing. *)
Definition legal_service (c : service) db : Prop :=
  match c with
  | Database_call c => legal c db
  | InstallMultipleProtocolInterfaces (Some _) args m => wf m /\ paths_ok PcdMaximumDevicePathNodeCount db m /\ arguments_ok m args
  | LocateDevicePath (Some _) (Some p) _ m => p = NULL \/ wf m /\ paths_ok PcdMaximumDevicePathNodeCount db m /\ readable m p
  | _ => True
  end.

Definition run_services : list service -> Database -> result (list EFI_STATUS * Database) := run_each run_service.
Definition legal_services : list service -> Database -> Prop := legal_each run_service legal_service.

Context `{!PoolLaws Max} `{!DriverLaws Max}.

Lemma run_service_safe c db : valid Max db -> legal_service c db -> exists Status db', run_service c db = Ok (Status, db') /\ valid Max db'.
Proof.
  intros Hv Hl. destruct c as [c|[hd|] args m|[g|] [p|] out m]; cbn [run_service]; [by apply run_safe| |by eexists _, db| |by eexists _, db..].
  - destruct Hl as (Hw & Hok & Hargs). destruct (InstallMultiple_correct Verify Max _ db m hd args Hv Hw Hok Hargs) as (Status & k & db' & -> & Hv' & _). by exists Status, db'.
  - destruct Hl as [->|(Hw & Hok & i & js & Hp & Hi)]; [by eexists _, db|].
    destruct (CoreLocateDevicePath_full Verify Max _ db m g p i js out Hv Hw Hp Hi Hok) as (Status & p' & device & db' & -> & Hv' & _). by exists Status, db'.
Qed.

Lemma run_services_safe cs db : valid Max db -> legal_services cs db ->
  exists Statuses db', run_services cs db = Ok (Statuses, db') /\ length Statuses = length cs /\ valid Max db'.
Proof. apply run_each_safe. intros c db0. apply run_service_safe. Qed.
End Program.
