(* ===== verification/HandlePathTheorems.v ===== *)
(** * Handles and device paths: the theorems

    What [CoreLocateDevicePath] and [CoreInstallMultipleProtocolInterfaces]
    promise, with any pool and any drivers that keep the laws; a defect; and a
    database with two devices on which the theorems are tried. *)

From S2P Require Import Prelude CTypes LinkedList ListFamily Handle HandleInv HandleLookup HandleDriver HandleOpen HandleInstall HandleErase HandleLocate HandleSafe HandleProgram HandleSample DevicePath DevicePathSpec DevicePathValid DevicePathMemory DevicePathOps DevicePathInstances DevicePathTheorems DevicePathPrefix HandlePath HandlePathLocate HandlePathInstall HandlePathProgram.

Section Theorems.
Context `{Platform} `{Drivers} `{PathPlatform} (Verify : bool) (Max : nat) `{!PoolLaws Max} `{!DriverLaws Max} (PcdMaximumDevicePathNodeCount : Z).
Implicit Types db : Database.
Abbreviation PcdCount := PcdMaximumDevicePathNodeCount.

(** C4: From the static lists at the start, and from any valid database, every
    sequence of calls of the seventeen services of Handle.c, Notify.c and Locate.c
    that is legal: a registration that is used as a key is there when it is used;
    and when LocateDevicePath or InstallMultipleProtocolInterfaces is called with
    arguments that are not NULL, the path (the one device path of the list) is a
    device path in the memory that is passed, and the device paths of the handles
    are in it, acceptable, and different. The other arguments are arbitrary. Every
    call returns, violates no ASSERT and follows no bad pointer, and afterwards
    the lock is free, the handles are those with an interface, none has a protocol
    twice, and who has an interface open exclusively is the only one that
    excludes others or drives it. *)
Theorem handle_services_safe : valid Max initial /\
  forall cs db, valid Max db -> legal_services Verify Max PcdCount cs db ->
    exists Statuses db', run_services Verify Max PcdCount cs db = Ok (Statuses, db') /\ length Statuses = length cs /\ valid Max db' /\ well_used db'.
Proof.
  split; [apply initial_valid|]. intros cs db Hv Hl. destruct (run_services_safe Verify Max PcdCount cs db Hv Hl) as (Statuses & db' & Heq & Hlen & Hv').
  exists Statuses, db'. do 3 (split; [done|]). by apply (valid_well_used Max).
Qed.

(** C8: LocateDevicePath rejects NULL arguments.  If the device paths of the handles
    are acceptable and different, it finds, among the handles with the protocol,
    one whose device path is the beginning of the first instance of the path, and
    returns the rest of the path; with memory for the search it is the handle with
    the longest such device path, and none is found only if there is none.
    Nothing changes but open records. *)
Theorem CoreLocateDevicePath_correct :
  (forall g p out m db, g = None \/ p = None \/ p = Some NULL -> CoreLocateDevicePath Verify Max PcdCount g p out m db = Ok (EFI_INVALID_PARAMETER, p, None, db)) /\
  forall db m g p i js out, valid Max db -> wf m -> path_at m p (join i js) -> is_instance i -> paths_ok PcdCount db m ->
    exists Status p' device db', CoreLocateDevicePath Verify Max PcdCount (Some g) (Some p) out m db = Ok (Status, Some p', device, db') /\
      valid Max db' /\ same_protocols db db' /\ Calls db' = Calls db /\ locate_result db m g p i js out Status p' device.
Proof.
  split; [by intros [g|] [p|] out m db [?|[?|[= ->]]]|]. intros db m g p i js out Hv Hw Hp Hi Hok.
  destruct (CoreLocateDevicePath_full Verify Max PcdCount db m g p i js out Hv Hw Hp Hi Hok) as (Status & p' & device & db' & ? & ? & ? & ? & _ & ?). by exists Status, p', device, db'.
Qed.

(** C7: InstallMultipleProtocolInterfaces is all or nothing: it installs every
    interface of its list, on the handle or on a new one; or it fails, and then the
    handles and the interfaces are the ones from before, whatever had been
    installed already, and [*Handle] is restored. *)
Theorem CoreInstallMultipleProtocolInterfaces_correct :
  (forall args m db, CoreInstallMultipleProtocolInterfaces Verify Max PcdCount None args m db = Ok (EFI_INVALID_PARAMETER, None, db)) /\
  forall db m hd args, valid Max db -> wf m -> paths_ok PcdCount db m -> arguments_ok m args ->
    exists Status k db', CoreInstallMultipleProtocolInterfaces Verify Max PcdCount (Some hd) args m db = Ok (Status, Some k, db') /\ valid Max db' /\
      if EFI_ERROR Status then k = hd /\ same_protocols db db' else Status = EFI_SUCCESS /\ all_installed db hd args k db'.
Proof. split; [done|]. intros db m hd args. exact (InstallMultiple_correct Verify Max PcdCount db m hd args). Qed.

(** C20: When InstallMultipleProtocolInterfaces is called with a list in which the
    device path, if there is one, consists of one acceptable instance, and there is
    room for the search for it at the time that it is made (memory for the list of
    handles and for an open record of each, and new marks), the device paths of the
    handles stay acceptable and different. If a handle has the device path already,
    the whole list is refused, with EFI_ALREADY_STARTED unless an interface before
    it in the list failed; nothing of the list stays, and [*Handle] is restored.
    (Without memory the duplicate is not seen: [duplicate_without_memory]; one of
    several instances is not looked for: [multi_instance_path_twice].) *)
Theorem device_paths_stay_unique db m hd args : valid Max db -> wf m -> paths_ok PcdCount db m -> arguments_ok m args ->
  (forall before v after, args = before ++ (gEfiDevicePathProtocolGuid, v) :: after ->
    (exists i, path_at m v i /\ is_instance i /\ acceptable PcdCount i = true) /\ searchable Verify Max PcdCount db m hd before) ->
  exists Status k db', CoreInstallMultipleProtocolInterfaces Verify Max PcdCount (Some hd) args m db = Ok (Status, Some k, db') /\
    valid Max db' /\ paths_ok PcdCount db' m /\
    (if EFI_ERROR Status then k = hd /\ same_protocols db db' else Status = EFI_SUCCESS /\ all_installed db hd args k db') /\
    forall before v after h i, args = before ++ (gEfiDevicePathProtocolGuid, v) :: after -> path_at m v i -> DevicePathOf db m h i ->
      EFI_ERROR Status = true /\
      forall k1 n db1, InstallMultiple_loop Verify Max PcdCount hd before 0 m db = Ok (EFI_SUCCESS, k1, n, db1) -> Status = EFI_ALREADY_STARTED.
Proof. exact (install_device_path Verify Max PcdCount db m hd args). Qed.
End Theorems.

(** * Deciding the hypotheses on a concrete database *)

(** The handles that have a device path, and where it is. *)
Definition device_paths (db : Database) : list (ptr * Z) :=
  omap (fun x => match x.2 with
                 | AnInterface r => match objects db !! Protocol r with
                                    | Some (AnEntry e) => if bool_decide (ProtocolID e = gEfiDevicePathProtocolGuid) then Some (Handle r, Interface r) else None
                                    | _ => None
                                    end
                 | _ => None
                 end) (map_to_list (objects db)).

Lemma Installed_device_path db h q : Installed db h gEfiDevicePathProtocolGuid q -> (h, q) ∈ device_paths db.
Proof.
  intros (i & r & e & Hi & <- & <- & He & Hg). apply list_elem_of_omap. exists (i, AnInterface r). split; [by apply elem_of_map_to_list|]. cbn [snd]. by rewrite He, bool_decide_eq_true_2.
Qed.

Lemma paths_ok_listed `{PathPlatform} Pcd db m (l : list (ptr * Z * list node)) : device_paths db = l.*1 -> Forall (fun x => path_at m x.1.2 x.2 /\ acceptable Pcd x.2 = true) l -> NoDup l.*2 ->
  paths_ok Pcd db m.
Proof.
  intros Hl Hall Hnd. assert (forall h q, Installed db h gEfiDevicePathProtocolGuid q -> exists x, x ∈ l /\ x.1 = (h, q)) as Hin.
  { intros h q Hq%Installed_device_path. rewrite Hl in Hq. apply list_elem_of_fmap in Hq as (x & Hx & Hxl). by exists x. }
  assert (forall h b, DevicePathOf db m h b -> exists x, x ∈ l /\ x.1.1 = h /\ x.2 = b) as Hof.
  { intros h b (q & (x & Hx & Hxq)%Hin & Hb). exists x. split; [done|]. rewrite Hxq. split; [done|]. destruct (proj1 (Forall_forall _ _) Hall x Hx) as [Hp _]. rewrite Hxq in Hp. by apply (path_at_unique m q). }
  split.
  - intros h q (x & Hx & Hxq)%Hin. exists x.2. destruct (proj1 (Forall_forall _ _) Hall x Hx) as [Hp Ha]. by rewrite Hxq in Hp.
  - intros h1 h2 b _ (x1 & H1 & <- & B1)%Hof (x2 & H2 & <- & B2)%Hof. f_equal. f_equal. apply list_elem_of_lookup in H1 as [k1 K1], H2 as [k2 K2].
    assert (k1 = k2) as ->; [|congruence]. apply (NoDup_lookup l.*2 k1 k2 b Hnd); by rewrite list_lookup_fmap, ?K1, ?K2; simpl; f_equal.
Qed.

(** * Witnesses *)

Module HandlePathWitness.

#[local] Existing Instance SamplePlatform.
#[local] Existing Instance SamplePool.
#[local] Existing Instance SampleDrivers.
#[local] Existing Instance SampleDriverLaws.
#[local] Existing Instance SamplePaths.

Import Sample DevicePathWitness.

(** A controller, a disk on it, and a path of two instances: a file on the disk,
    and the file alone. *)
Definition memory : Memory := MkMemory
  (put_bytes 0x8000 end_bytes (put_bytes 0x8100 (path_bytes [controller]) (put_bytes 0x8200 (path_bytes [controller; disk])
    (put_bytes 0x8300 (path_bytes (join [controller; disk; file] [[file]])) ∅)))) ∅.

Lemma memory_wf : wf memory.
Proof. apply wfb_true. by vm_compute. Qed.

Lemma controller_path : path_at memory 0x8100 [controller].
Proof. apply path_true. by vm_compute. Qed.

Lemma disk_path : path_at memory 0x8200 [controller; disk].
Proof. apply path_true. by vm_compute. Qed.

Lemma source_path : path_at memory 0x8300 (join [controller; disk; file] [[file]]).
Proof. apply path_true. by vm_compute. Qed.

Lemma source_instance : is_instance [controller; disk; file].
Proof. repeat constructor; by vm_compute. Qed.

Abbreviation dp := gEfiDevicePathProtocolGuid.

(** Two handles with a device path and the protocol 7. *)
Definition devices : Database := database_of (runs [
  InstallProtocolInterface (Some NULL) (Some dp) EFI_NATIVE_INTERFACE 0x8100 true;
  InstallProtocolInterface (Some 0x3200) (Some g7) EFI_NATIVE_INTERFACE 0x71 true;
  InstallProtocolInterface (Some NULL) (Some dp) EFI_NATIVE_INTERFACE 0x8200 true;
  InstallProtocolInterface (Some 0x3600) (Some g7) EFI_NATIVE_INTERFACE 0x72 true ] initial).

Lemma devices_valid : valid sample_max devices.
Proof. apply run_valid; [apply initial_valid|]. by vm_compute. Qed.

Lemma devices_ok : paths_ok 0 devices memory.
Proof.
  apply (paths_ok_listed 0 devices memory [((0x3600, 0x8200), [controller; disk]); ((0x3200, 0x8100), [controller])]).
  - by vm_compute.
  - rewrite !Forall_cons. split; [split; [apply disk_path|by vm_compute]|]. split; [|done]. split; [apply controller_path|by vm_compute].
  - apply NoDup_cons. split; [|by apply NoDup_singleton]. intros Hin%list_elem_of_singleton. discriminate.
Qed.

(** Room for the search. *)
Lemma sample_pool n (used : gset ptr) : (size used < 24)%nat -> Handle.AllocatePool n used <> None.
Proof.
  cbn [Handle.AllocatePool SamplePlatform]. intros Hs Hno. assert (list_to_set sample_blocks ⊆ used) as Hsub.
  { intros p Hp%elem_of_list_to_set%list_elem_of_In. apply (List.find_none _ _ Hno) in Hp. apply bool_decide_eq_false in Hp. by destruct (decide (p ∈ used)). }
  apply subseteq_size in Hsub. assert (size (list_to_set sample_blocks : gset ptr) = 24%nat) as E by (by vm_compute). rewrite E in Hsub. lia.
Qed.

Definition unmarked_twiceb (db : Database) : bool :=
  forallb (fun x => match x.2 with
                    | AHandle r => negb (LocateRequest r =? u64 (mEfiLocateHandleRequest db + 1)) && negb (LocateRequest r =? u64 (mEfiLocateHandleRequest db + 2))
                    | _ => true
                    end) (map_to_list (objects db)).

Lemma unmarked_twiceb_true db : unmarked_twiceb db = true -> unmarked_twice db.
Proof.
  intros Hall p r Hp. apply (proj1 (forallb_forall _ _)) with (x := (p, AHandle r)) in Hall; [|by apply list_elem_of_In, elem_of_map_to_list].
  cbn [snd] in Hall. by apply andb_true_iff in Hall as [H1%negb_true_iff%Z.eqb_neq H2%negb_true_iff%Z.eqb_neq].
Qed.

Lemma small_room db g : valid sample_max db -> unmarked_twiceb db = true -> (size (objects db) <= 12)%nat -> room db g.
Proof.
  intros Hv Hu Hs. split; [by apply unmarked_twiceb_true|]. intros hs [Hnd Hl].
  assert (length hs <= size (objects db))%nat as Hlen.
  { rewrite <-size_dom, <-(size_list_to_set (C := gset ptr)) by done. apply subseteq_size. intros h Hh%elem_of_list_to_set. apply Hl in Hh as [v Hh].
    destruct (Installed_handle sample_max db h g v Hv Hh) as [r Hr]. apply elem_of_dom. by exists (AHandle r). }
  split; [apply sample_pool; rewrite size_dom; lia|]. intros used Hused. apply sample_pool. lia.
Qed.

Lemma devices_room g : room devices g.
Proof. apply (small_room devices g devices_valid); [by vm_compute|]. apply Nat.leb_le. by vm_compute. Qed.

Abbreviation locate := (CoreLocateDevicePath true sample_max 0).
Abbreviation install := (CoreInstallMultipleProtocolInterfaces true sample_max 0).

Lemma CoreLocateDevicePath_correct_witness : exists Status p' device db', locate (Some g7) (Some 0x8300) true memory devices = Ok (Status, Some p', device, db') /\
  valid sample_max db' /\ same_protocols devices db' /\ Calls db' = Calls devices /\ locate_result devices memory g7 0x8300 [controller; disk; file] [[file]] true Status p' device.
Proof. exact (proj2 (CoreLocateDevicePath_correct true sample_max 0) devices memory g7 0x8300 [controller; disk; file] [[file]] true devices_valid memory_wf source_path source_instance devices_ok). Defined.

(** The disk is found, and the file is left of the path. *)
Example locate_disk : match locate (Some g7) (Some 0x8300) true memory devices with Ok (Status, p, h, _) => (Status, p, h) = (EFI_SUCCESS, Some 0x830E, Some 0x3600) | _ => False end.
Proof. by vm_compute. Qed.

Definition some_interfaces : list (EFI_GUID * Z) := [(g8, 0x81); (dp, 0x8200)].

Lemma some_interfaces_ok : arguments_ok memory some_interfaces.
Proof.
  split; [intros Heq; by vm_compute in Heq|]. split; [|done]. intros _. split; [|by constructor]. exists [controller; disk], []. split; [apply disk_path|]. repeat constructor; by vm_compute.
Qed.

Lemma CoreInstallMultipleProtocolInterfaces_correct_witness : exists Status k db', install (Some NULL) some_interfaces memory devices = Ok (Status, Some k, db') /\ valid sample_max db' /\
  if EFI_ERROR Status then k = NULL /\ same_protocols devices db' else Status = EFI_SUCCESS /\ all_installed devices NULL some_interfaces k db'.
Proof. exact (proj2 (CoreInstallMultipleProtocolInterfaces_correct true sample_max 0) devices memory NULL some_interfaces devices_valid memory_wf devices_ok some_interfaces_ok). Defined.

(** The device path of the disk is there already: the interface that was installed
    before it is removed again. *)
Example install_twice : match install (Some NULL) some_interfaces memory devices with Ok (Status, k, db) => (Status, k, size (objects db)) = (EFI_ALREADY_STARTED, Some NULL, 11%nat) | _ => False end.
Proof. by vm_compute. Qed.

Definition registration : ptr := 0x3900.

(** A program of services: a registration, its handles, the device of a path, a
    list that is refused, one that is installed, and rejected arguments. *)
Definition service_program : list service := [
  Database_call (RegisterProtocolNotify (Some g8) 0x900 true);
  LocateDevicePath (Some g7) (Some 0x8300) true memory;
  InstallMultipleProtocolInterfaces (Some NULL) some_interfaces memory;
  InstallMultipleProtocolInterfaces (Some 0x3600) [(g8, 0x81)] memory;
  Database_call (LocateProtocol (Some g8) registration true);
  LocateDevicePath (Some g8) (Some NULL) true memory;
  InstallMultipleProtocolInterfaces None some_interfaces memory ].

Lemma legal_next c cs db St db1 : run_service true sample_max 0 c db = Ok (St, db1) -> legal_service 0 c db -> legal_services true sample_max 0 cs db1 -> legal_services true sample_max 0 (c :: cs) db.
Proof. intros Heq Hc Hl. split; [done|]. by rewrite Heq. Qed.

Definition after (n : nat) : Database := database_of (run_services true sample_max 0 (take n service_program) devices).

Lemma after_ok n : device_paths (after n) = [(0x3600, 0x8200); (0x3200, 0x8100)] -> paths_ok 0 (after n) memory.
Proof.
  intros Hd. apply (paths_ok_listed 0 (after n) memory [((0x3600, 0x8200), [controller; disk]); ((0x3200, 0x8100), [controller])]); [done| |].
  - rewrite !Forall_cons. split; [split; [apply disk_path|by vm_compute]|]. split; [|done]. split; [apply controller_path|by vm_compute].
  - apply NoDup_cons. split; [|by apply NoDup_singleton]. intros Hin%list_elem_of_singleton. discriminate.
Qed.

Lemma service_program_legal : legal_services true sample_max 0 service_program devices.
Proof.
  assert (Hi : is_instance [controller; disk; file]) by (exact source_instance).
  apply (legal_next _ _ _ EFI_SUCCESS (after 1)); [by vm_compute|done|].
  apply (legal_next _ _ _ EFI_SUCCESS (after 2)); [by vm_compute|right; split; [exact memory_wf|split; [apply after_ok; by vm_compute|by exists [controller; disk; file], [[file]]; split; [exact source_path|]]]|].
  apply (legal_next _ _ _ EFI_ALREADY_STARTED (after 3)); [by vm_compute|split; [exact memory_wf|split; [apply after_ok; by vm_compute|exact some_interfaces_ok]]|].
  apply (legal_next _ _ _ EFI_SUCCESS (after 4)); [by vm_compute|split; [exact memory_wf|split; [apply after_ok; by vm_compute|by split]]|].
  apply (legal_next _ _ _ EFI_SUCCESS (after 5)); [by vm_compute|right; eexists; by vm_compute|].
  apply (legal_next _ _ _ EFI_INVALID_PARAMETER (after 6)); [by vm_compute|by left|]. by apply (legal_next _ _ _ EFI_INVALID_PARAMETER (after 7)); [by vm_compute|..].
Qed.

Lemma handle_services_safe_witness :
  exists Statuses db', run_services true sample_max 0 service_program devices = Ok (Statuses, db') /\ length Statuses = 7%nat /\ valid sample_max db' /\ well_used db'.
Proof. exact (proj2 (handle_services_safe true sample_max 0) service_program devices devices_valid service_program_legal). Defined.

Definition disk_again : list (EFI_GUID * Z) := [(dp, 0x8200); (g8, 0x81)].

Lemma disk_again_ok : arguments_ok memory disk_again.
Proof.
  split; [|split; [intros Heq; by vm_compute in Heq|done]]. intros _. split; [|by repeat constructor]. exists [controller; disk], []. split; [apply disk_path|]. repeat constructor; by vm_compute.
Qed.

Lemma disk_again_searchable before v after : disk_again = before ++ (dp, v) :: after ->
  (exists i, path_at memory v i /\ is_instance i /\ acceptable 0 i = true) /\ searchable true sample_max 0 devices memory NULL before.
Proof.
  intros Heq. destruct (path_split_unique [] 0x8200 [(g8, 0x81)] before v after) as (-> & -> & ->); [by constructor|by repeat constructor|exact Heq|]. split.
  - exists [controller; disk]. split; [apply disk_path|]. split; [repeat constructor; by vm_compute|by vm_compute].
  - apply searchable_first, devices_room.
Qed.

Lemma device_paths_stay_unique_witness : exists Status k db', install (Some NULL) disk_again memory devices = Ok (Status, Some k, db') /\
  valid sample_max db' /\ paths_ok 0 db' memory /\
  (if EFI_ERROR Status then k = NULL /\ same_protocols devices db' else Status = EFI_SUCCESS /\ all_installed devices NULL disk_again k db') /\
  forall before v after h i, disk_again = before ++ (dp, v) :: after -> path_at memory v i -> DevicePathOf devices memory h i ->
    EFI_ERROR Status = true /\
    forall k1 n db1, InstallMultiple_loop true sample_max 0 NULL before 0 memory devices = Ok (EFI_SUCCESS, k1, n, db1) -> Status = EFI_ALREADY_STARTED.
Proof. exact (device_paths_stay_unique true sample_max 0 devices memory NULL disk_again devices_valid memory_wf devices_ok disk_again_ok disk_again_searchable). Defined.

(** A platform whose pool has no memory for the records of opens. *)
Definition ScarcePlatform : Platform := {|
  Handle.AllocatePool n used := if n =? sizeof_OPEN_PROTOCOL_DATA then None else @Handle.AllocatePool SamplePlatform n used;
  Handle.Uninitialised := @Handle.Uninitialised SamplePlatform;
  Handle.gDxeCoreImageHandle := @Handle.gDxeCoreImageHandle SamplePlatform |}.

(** There the search does not open the device paths that it would compare: the
    disk gets a second handle with its device path, and the call succeeds. *)
Example duplicate_without_memory :
  match @CoreInstallMultipleProtocolInterfaces ScarcePlatform _ true sample_max 0 (Some NULL) [(dp, 0x8200)] memory devices with
  | Ok (Status, k, db) => (Status, k, device_paths db) = (EFI_SUCCESS, Some 0x3900, [(0x3600, 0x8200); (0x3200, 0x8100); (0x3900, 0x8200)])
  | _ => False
  end.
Proof. by vm_compute. Qed.

(** A device path of two instances is not found to be there already: the search
    looks for its first instance only. *)
Example multi_instance_path_twice :
  match install (Some NULL) [(dp, 0x8300)] memory devices with
  | Ok (Status1, Some h1, db) => match install (Some NULL) [(dp, 0x8300)] memory db with
                                 | Ok (Status2, Some h2, _) => (Status1, Status2, bool_decide (h1 = h2)) = (EFI_SUCCESS, EFI_SUCCESS, false)
                                 | _ => False
                                 end
  | _ => False
  end.
Proof. by vm_compute. Qed.
End HandlePathWitness.
