(* ===== verification/RedBlackTree.v ===== *)
(** * Ordered collections: the code

    MdePkg/Library/BaseOrderedCollectionRedBlackTreeLib: a collection is a
    red-black tree of nodes with parent links, on the pool.  The state holds
    every collection and every node at its address; the functions read and
    write them one field at a time, as the C code does.  A user structure is an
    address that only the comparison functions of the collection look behind. *)

From S2P Require Import Prelude.

(** ** Data *)

Inductive RED_BLACK_TREE_COLOR := RedBlackTreeRed | RedBlackTreeBlack.

#[export] Instance color_eq_dec : EqDecision RED_BLACK_TREE_COLOR.
Proof. solve_decision. Defined.

Record RED_BLACK_TREE_NODE := MkNode {
  UserStruct : Z; Parent : ptr; Left : ptr; Right : ptr; Color : RED_BLACK_TREE_COLOR }.

Record ORDERED_COLLECTION := MkTree {
  Root : ptr; UserStructCompare : Z -> Z -> Z; KeyCompare : Z -> Z -> Z }.

Abbreviation nodes := (gmap ptr RED_BLACK_TREE_NODE).

Record Collections := MkCollections { trees : gmap ptr ORDERED_COLLECTION; tree_nodes : nodes }.

Definition set_Root v (T : ORDERED_COLLECTION) : ORDERED_COLLECTION :=
  MkTree v (UserStructCompare T) (KeyCompare T).

(** [AllocatePool]: an address, given those in use. *)
Class Pool := AllocatePool : gset ptr -> option ptr.

Section Code.
Context `{Pool} (PcdValidateOrderedCollection : bool).

(** ** Access to nodes *)

Definition load (h : nodes) (p : ptr) : result RED_BLACK_TREE_NODE := deref (h !! p).

Definition set_Parent (h : nodes) (p v : ptr) : result nodes :=
  let! n := load h p in Ok (<[p := MkNode (UserStruct n) v (Left n) (Right n) (Color n)]> h).
Definition set_Left (h : nodes) (p v : ptr) : result nodes :=
  let! n := load h p in Ok (<[p := MkNode (UserStruct n) (Parent n) v (Right n) (Color n)]> h).
Definition set_Right (h : nodes) (p v : ptr) : result nodes :=
  let! n := load h p in Ok (<[p := MkNode (UserStruct n) (Parent n) (Left n) v (Color n)]> h).
Definition set_Color (h : nodes) (p : ptr) (c : RED_BLACK_TREE_COLOR) : result nodes :=
  let! n := load h p in Ok (<[p := MkNode (UserStruct n) (Parent n) (Left n) (Right n) c]> h).

Definition tree_of (s : Collections) (Tree : ptr) : result ORDERED_COLLECTION := deref (trees s !! Tree).

(** Passes that a loop over nodes of this store can make. *)
Definition node_bound (h : nodes) : nat := S (size h).

Definition OrderedCollectionUserStruct (s : Collections) (Node : ptr) : result Z :=
  let! n := load (tree_nodes s) Node in Ok (UserStruct n).

Definition OrderedCollectionIsEmpty (s : Collections) (Tree : ptr) : result bool :=
  let! T := tree_of s Tree in Ok (Root T =? NULL).

Definition OrderedCollectionUninit (s : Collections) (Tree : ptr) : result Collections :=
  let! empty := OrderedCollectionIsEmpty s Tree in
  do! ASSERT empty ;;
  Ok (MkCollections (delete Tree (trees s)) (tree_nodes s)).

(** ** Searching *)

Fixpoint Find_loop (fuel : nat) (Compare : Z -> Z) (h : nodes) (Node : ptr) : result ptr :=
  match fuel with
  | O => NoFuel
  | S fuel =>
      if Node =? NULL then Ok Node else
      let! n := load h Node in
      let Result := Compare (UserStruct n) in
      if Result =? 0 then Ok Node else
      Find_loop fuel Compare h (if Result <? 0 then Left n else Right n)
  end.

Definition OrderedCollectionFind (s : Collections) (Tree : ptr) (StandaloneKey : Z) : result ptr :=
  let! T := tree_of s Tree in
  Find_loop (node_bound (tree_nodes s)) (KeyCompare T StandaloneKey) (tree_nodes s) (Root T).

(** [while (Node->Left != NULL) Node = Node->Left;] and its mirror image. *)
Fixpoint Leftmost_loop (fuel : nat) (h : nodes) (Node : ptr) : result ptr :=
  match fuel with
  | O => NoFuel
  | S fuel =>
      let! n := load h Node in
      if negb (Left n =? NULL) then Leftmost_loop fuel h (Left n) else Ok Node
  end.

Fixpoint Rightmost_loop (fuel : nat) (h : nodes) (Node : ptr) : result ptr :=
  match fuel with
  | O => NoFuel
  | S fuel =>
      let! n := load h Node in
      if negb (Right n =? NULL) then Rightmost_loop fuel h (Right n) else Ok Node
  end.

Definition OrderedCollectionMin (s : Collections) (Tree : ptr) : result ptr :=
  let! T := tree_of s Tree in
  if Root T =? NULL then Ok NULL else Leftmost_loop (node_bound (tree_nodes s)) (tree_nodes s) (Root T).

Definition OrderedCollectionMax (s : Collections) (Tree : ptr) : result ptr :=
  let! T := tree_of s Tree in
  if Root T =? NULL then Ok NULL else Rightmost_loop (node_bound (tree_nodes s)) (tree_nodes s) (Root T).

(** The ascent to the first ancestor that is left from its left child
    ([Next_loop]) or from its right child ([Prev_loop]). *)
Fixpoint Next_loop (fuel : nat) (h : nodes) (Child Walk : ptr) : result ptr :=
  match fuel with
  | O => NoFuel
  | S fuel =>
      if Walk =? NULL then Ok Walk else
      let! n := load h Walk in
      if Child =? Right n then Next_loop fuel h Walk (Parent n) else Ok Walk
  end.

Fixpoint Prev_loop (fuel : nat) (h : nodes) (Child Walk : ptr) : result ptr :=
  match fuel with
  | O => NoFuel
  | S fuel =>
      if Walk =? NULL then Ok Walk else
      let! n := load h Walk in
      if Child =? Left n then Prev_loop fuel h Walk (Parent n) else Ok Walk
  end.

Definition Next (h : nodes) (Node : ptr) : result ptr :=
  if Node =? NULL then Ok NULL else
  let! n := load h Node in
  if negb (Right n =? NULL) then Leftmost_loop (node_bound h) h (Right n)
  else Next_loop (node_bound h) h Node (Parent n).

Definition Prev (h : nodes) (Node : ptr) : result ptr :=
  if Node =? NULL then Ok NULL else
  let! n := load h Node in
  if negb (Left n =? NULL) then Rightmost_loop (node_bound h) h (Left n)
  else Prev_loop (node_bound h) h Node (Parent n).

Definition OrderedCollectionNext (s : Collections) (Node : ptr) : result ptr := Next (tree_nodes s) Node.
Definition OrderedCollectionPrev (s : Collections) (Node : ptr) : result ptr := Prev (tree_nodes s) Node.

(** ** Validation *)

Definition NodeIsNullOrBlack (h : nodes) (Node : ptr) : result bool :=
  if Node =? NULL then Ok true else
  let! n := load h Node in Ok (bool_decide (Color n = RedBlackTreeBlack)).

(** The result is a [UINT32]. *)
Fixpoint RedBlackTreeRecursiveCheck (fuel : nat) (h : nodes) (Node : ptr) : result Z :=
  match fuel with
  | O => NoFuel
  | S fuel =>
      if Node =? NULL then Ok 1 else
      let! n := load h Node in
      do! (if bool_decide (Color n = RedBlackTreeRed) then
             let! b := NodeIsNullOrBlack h (Left n) in
             do! ASSERT b ;;
             let! b := NodeIsNullOrBlack h (Right n) in
             ASSERT b
           else Ok tt) ;;
      let! LeftHeight := RedBlackTreeRecursiveCheck fuel h (Left n) in
      let! RightHeight := RedBlackTreeRecursiveCheck fuel h (Right n) in
      do! ASSERT (LeftHeight =? RightHeight) ;;
      Ok (u32 ((if bool_decide (Color n = RedBlackTreeBlack) then 1 else 0) + LeftHeight))
  end.

(** The two loops that compare neighbours and count them. *)
Fixpoint Forward_loop (fuel : nat) (Compare : Z -> Z -> Z) (h : nodes) (Last : ptr) (ForwardCount : Z) : result Z :=
  match fuel with
  | O => NoFuel
  | S fuel =>
      let! Node := Next h Last in
      if Node =? NULL then Ok ForwardCount else
      let! l := load h Last in
      let! n := load h Node in
      do! ASSERT (Compare (UserStruct l) (UserStruct n) <? 0) ;;
      Forward_loop fuel Compare h Node (u32 (ForwardCount + 1))
  end.

Fixpoint Backward_loop (fuel : nat) (Compare : Z -> Z -> Z) (h : nodes) (Last : ptr) (BackwardCount : Z) : result Z :=
  match fuel with
  | O => NoFuel
  | S fuel =>
      let! Node := Prev h Last in
      if Node =? NULL then Ok BackwardCount else
      let! l := load h Last in
      let! n := load h Node in
      do! ASSERT (Compare (UserStruct l) (UserStruct n) >? 0) ;;
      Backward_loop fuel Compare h Node (u32 (BackwardCount + 1))
  end.

Definition RedBlackTreeValidate (s : Collections) (Tree : ptr) : result unit :=
  let h := tree_nodes s in
  let! T := tree_of s Tree in
  let! b := NodeIsNullOrBlack h (Root T) in
  do! ASSERT b ;;
  let! _ := RedBlackTreeRecursiveCheck (node_bound h) h (Root T) in
  let! Last := OrderedCollectionMin s Tree in
  let! ForwardCount := Forward_loop (node_bound h) (UserStructCompare T) h Last (if Last =? NULL then 0 else 1) in
  let! Last := OrderedCollectionMax s Tree in
  let! BackwardCount := Backward_loop (node_bound h) (UserStructCompare T) h Last (if Last =? NULL then 0 else 1) in
  ASSERT (ForwardCount =? BackwardCount).

Definition ValidateIfEnabled (s : Collections) (Tree : ptr) : result unit :=
  if PcdValidateOrderedCollection then RedBlackTreeValidate s Tree else Ok tt.

Definition OrderedCollectionInit (s : Collections) (UserStructCompare KeyCompare : Z -> Z -> Z)
    : result (ptr * Collections) :=
  match AllocatePool (dom (trees s) ∪ dom (tree_nodes s)) with
  | None => Ok (NULL, s)
  | Some Tree =>
      let s := MkCollections (<[Tree := MkTree NULL UserStructCompare KeyCompare]> (trees s)) (tree_nodes s) in
      do! ValidateIfEnabled s Tree ;;
      Ok (Tree, s)
  end.
(** ** Rotations

    A local [*NewRoot] is passed in and returned. *)

(** [if (Old == Parent->Left) Parent->Left = New; else Parent->Right = New;],
    or [*NewRoot = New] if there is no [Parent]. *)
Definition replace_child (h : nodes) (Parent' Old New NewRoot : ptr) : result (nodes * ptr) :=
  if Parent' =? NULL then Ok (h, New) else
  let! n := load h Parent' in
  let! h := if Old =? Left n then set_Left h Parent' New else set_Right h Parent' New in
  Ok (h, NewRoot).

(** [if (Child != NULL) Child->Parent = Parent;] *)
Definition adopt (h : nodes) (Child Parent' : ptr) : result nodes :=
  if negb (Child =? NULL) then set_Parent h Child Parent' else Ok h.

Definition RedBlackTreeRotateRight (h : nodes) (Pivot NewRoot : ptr) : result (nodes * ptr) :=
  let! n := load h Pivot in
  let Parent' := Parent n in
  let LeftChild := Left n in
  let! l := load h LeftChild in
  let LeftRightChild := Right l in
  let! h := set_Left h Pivot LeftRightChild in
  let! h := adopt h LeftRightChild Pivot in
  let! h := set_Parent h LeftChild Parent' in
  let! (h, NewRoot) := replace_child h Parent' Pivot LeftChild NewRoot in
  let! h := set_Right h LeftChild Pivot in
  let! h := set_Parent h Pivot LeftChild in
  Ok (h, NewRoot).

Definition RedBlackTreeRotateLeft (h : nodes) (Pivot NewRoot : ptr) : result (nodes * ptr) :=
  let! n := load h Pivot in
  let Parent' := Parent n in
  let RightChild := Right n in
  let! r := load h RightChild in
  let RightLeftChild := Left r in
  let! h := set_Right h Pivot RightLeftChild in
  let! h := adopt h RightLeftChild Pivot in
  let! h := set_Parent h RightChild Parent' in
  let! (h, NewRoot) := replace_child h Parent' Pivot RightChild NewRoot in
  let! h := set_Left h RightChild Pivot in
  let! h := set_Parent h Pivot RightChild in
  Ok (h, NewRoot).

(** ** Insertion *)

(** The search for a collision: [Tmp], [Parent] and [Result] after the loop. *)
Fixpoint Insert_loop (fuel : nat) (Compare : Z -> Z) (h : nodes) (Tmp Parent' Result : Z) : result (ptr * ptr * Z) :=
  match fuel with
  | O => NoFuel
  | S fuel =>
      if Tmp =? NULL then Ok (Tmp, Parent', Result) else
      let! n := load h Tmp in
      let Result := Compare (UserStruct n) in
      if Result =? 0 then Ok (Tmp, Parent', Result) else
      Insert_loop fuel Compare h (if Result <? 0 then Left n else Right n) Tmp Result
  end.

(** The body of the loop that restores property #3: the parent is a left child,
    or a right child.  It returns the store, [Tmp], [Parent] and [NewRoot]. *)
Definition InsertFixup_left (h : nodes) (Tmp Parent' GrandParent NewRoot : ptr) : result (nodes * ptr * ptr * ptr) :=
  let! g := load h GrandParent in
  let Uncle := Right g in
  let! black := NodeIsNullOrBlack h Uncle in
  if negb black then
    let! h := set_Color h Parent' RedBlackTreeBlack in
    let! h := set_Color h Uncle RedBlackTreeBlack in
    let! h := set_Color h GrandParent RedBlackTreeRed in
    let! t := load h GrandParent in
    Ok (h, GrandParent, Parent t, NewRoot)
  else
    let! p := load h Parent' in
    let! (h, Tmp, Parent', NewRoot) :=
      if Tmp =? Right p then
        let Tmp := Parent' in
        let! (h, NewRoot) := RedBlackTreeRotateLeft h Tmp NewRoot in
        let! t := load h Tmp in
        let Parent' := Parent t in
        let! p := load h Parent' in
        do! ASSERT (GrandParent =? Parent p) ;;
        Ok (h, Tmp, Parent', NewRoot)
      else Ok (h, Tmp, Parent', NewRoot) in
    let! h := set_Color h Parent' RedBlackTreeBlack in
    let! h := set_Color h GrandParent RedBlackTreeRed in
    let! (h, NewRoot) := RedBlackTreeRotateRight h GrandParent NewRoot in
    Ok (h, Tmp, Parent', NewRoot).

Definition InsertFixup_right (h : nodes) (Tmp Parent' GrandParent NewRoot : ptr) : result (nodes * ptr * ptr * ptr) :=
  let! g := load h GrandParent in
  let Uncle := Left g in
  let! black := NodeIsNullOrBlack h Uncle in
  if negb black then
    let! h := set_Color h Parent' RedBlackTreeBlack in
    let! h := set_Color h Uncle RedBlackTreeBlack in
    let! h := set_Color h GrandParent RedBlackTreeRed in
    let! t := load h GrandParent in
    Ok (h, GrandParent, Parent t, NewRoot)
  else
    let! p := load h Parent' in
    let! (h, Tmp, Parent', NewRoot) :=
      if Tmp =? Left p then
        let Tmp := Parent' in
        let! (h, NewRoot) := RedBlackTreeRotateRight h Tmp NewRoot in
        let! t := load h Tmp in
        let Parent' := Parent t in
        let! p := load h Parent' in
        do! ASSERT (GrandParent =? Parent p) ;;
        Ok (h, Tmp, Parent', NewRoot)
      else Ok (h, Tmp, Parent', NewRoot) in
    let! h := set_Color h Parent' RedBlackTreeBlack in
    let! h := set_Color h GrandParent RedBlackTreeRed in
    let! (h, NewRoot) := RedBlackTreeRotateLeft h GrandParent NewRoot in
    Ok (h, Tmp, Parent', NewRoot).

Fixpoint InsertFixup_loop (fuel : nat) (h : nodes) (Tmp Parent' NewRoot : ptr) : result (nodes * ptr) :=
  match fuel with
  | O => NoFuel
  | S fuel =>
      if Tmp =? NewRoot then Ok (h, NewRoot) else
      let! p := load h Parent' in
      if negb (bool_decide (Color p = RedBlackTreeRed)) then Ok (h, NewRoot) else
      let GrandParent := Parent p in
      let! g := load h GrandParent in
      let! (h, Tmp, Parent', NewRoot) :=
        if Parent' =? Left g then InsertFixup_left h Tmp Parent' GrandParent NewRoot
        else InsertFixup_right h Tmp Parent' GrandParent NewRoot in
      InsertFixup_loop fuel h Tmp Parent' NewRoot
  end.

(** The new node [Tmp] is linked to [Parent'] and the tree repaired: the store
    and the root. *)
Definition InsertNode (h : nodes) (Root' Tmp Parent' Result UserStruct' : Z) : result (nodes * ptr) :=
  if Parent' =? NULL then
    Ok (<[Tmp := MkNode UserStruct' Parent' NULL NULL RedBlackTreeBlack]> h, Tmp)
  else
    let h := <[Tmp := MkNode UserStruct' Parent' NULL NULL RedBlackTreeRed]> h in
    let! h := if Result <? 0 then set_Left h Parent' Tmp else set_Right h Parent' Tmp in
    let! (h, NewRoot) := InsertFixup_loop (node_bound h) h Tmp Parent' Root' in
    let! h := set_Color h NewRoot RedBlackTreeBlack in
    Ok (h, NewRoot).

(** The second result is what is stored in [*Node], if anything is; [NodeOut]:
    the caller passes a pointer for it. *)
Definition OrderedCollectionInsert (s : Collections) (Tree : ptr) (NodeOut : bool) (UserStruct' : Z)
    : result (EFI_STATUS * option ptr * Collections) :=
  let! T := tree_of s Tree in
  let h := tree_nodes s in
  let out (p : ptr) := if NodeOut then Some p else None in
  let! (Tmp, Parent', Result) := Insert_loop (node_bound h) (UserStructCompare T UserStruct') h (Root T) NULL 0 in
  let! (Status, Node, s) :=
    if negb (Tmp =? NULL) then Ok (EFI_ALREADY_STARTED, out Tmp, s) else
    match AllocatePool (dom (trees s) ∪ dom h) with
    | None => Ok (EFI_OUT_OF_RESOURCES, None, s)
    | Some Tmp =>
        let! (h, NewRoot) := InsertNode h (Root T) Tmp Parent' Result UserStruct' in
        Ok (EFI_SUCCESS, out Tmp, MkCollections (<[Tree := set_Root NewRoot T]> (trees s)) h)
    end in
  do! ValidateIfEnabled s Tree ;;
  Ok (Status, Node, s).

(** ** Deletion *)

(** The body of the loop that restores property #4: the child is a left child,
    or a right child.  It returns the store, [Child], [Parent] and
    [NewRoot]. *)
Definition DeleteFixup_left (h : nodes) (Parent' NewRoot : ptr) : result (nodes * ptr * ptr * ptr) :=
  let! p := load h Parent' in
  let Sibling := Right p in
  do! ASSERT (negb (Sibling =? NULL)) ;;
  let! s := load h Sibling in
  let! (h, Sibling, NewRoot) :=
    if bool_decide (Color s = RedBlackTreeRed) then
      let! h := set_Color h Sibling RedBlackTreeBlack in
      let! h := set_Color h Parent' RedBlackTreeRed in
      let! (h, NewRoot) := RedBlackTreeRotateLeft h Parent' NewRoot in
      let! p := load h Parent' in
      let Sibling := Right p in
      do! ASSERT (negb (Sibling =? NULL)) ;;
      Ok (h, Sibling, NewRoot)
    else Ok (h, Sibling, NewRoot) in
  let! s := load h Sibling in
  do! ASSERT (bool_decide (Color s = RedBlackTreeBlack)) ;;
  let LeftNephew := Left s in
  let RightNephew := Right s in
  let! LeftBlack := NodeIsNullOrBlack h LeftNephew in
  let! RightBlack := NodeIsNullOrBlack h RightNephew in
  if LeftBlack && RightBlack then
    let! h := set_Color h Sibling RedBlackTreeRed in
    let! p := load h Parent' in
    Ok (h, Parent', Parent p, NewRoot)
  else
    let! (h, Sibling, RightNephew, NewRoot) :=
      if RightBlack : bool then
        let! h := set_Color h LeftNephew RedBlackTreeBlack in
        let! h := set_Color h Sibling RedBlackTreeRed in
        let! (h, NewRoot) := RedBlackTreeRotateRight h Sibling NewRoot in
        let! p := load h Parent' in
        let Sibling := Right p in
        let! s := load h Sibling in
        Ok (h, Sibling, Right s, NewRoot)
      else Ok (h, Sibling, RightNephew, NewRoot) in
    do! ASSERT (negb (RightNephew =? NULL)) ;;
    let! n := load h RightNephew in
    do! ASSERT (bool_decide (Color n = RedBlackTreeRed)) ;;
    do! ASSERT (negb (Sibling =? NULL)) ;;
    let! s := load h Sibling in
    do! ASSERT (bool_decide (Color s = RedBlackTreeBlack)) ;;
    let! p := load h Parent' in
    let! h := set_Color h Sibling (Color p) in
    let! h := set_Color h Parent' RedBlackTreeBlack in
    let! h := set_Color h RightNephew RedBlackTreeBlack in
    let! (h, NewRoot) := RedBlackTreeRotateLeft h Parent' NewRoot in
    Ok (h, NewRoot, Parent', NewRoot).

Definition DeleteFixup_right (h : nodes) (Parent' NewRoot : ptr) : result (nodes * ptr * ptr * ptr) :=
  let! p := load h Parent' in
  let Sibling := Left p in
  do! ASSERT (negb (Sibling =? NULL)) ;;
  let! s := load h Sibling in
  let! (h, Sibling, NewRoot) :=
    if bool_decide (Color s = RedBlackTreeRed) then
      let! h := set_Color h Sibling RedBlackTreeBlack in
      let! h := set_Color h Parent' RedBlackTreeRed in
      let! (h, NewRoot) := RedBlackTreeRotateRight h Parent' NewRoot in
      let! p := load h Parent' in
      let Sibling := Left p in
      do! ASSERT (negb (Sibling =? NULL)) ;;
      Ok (h, Sibling, NewRoot)
    else Ok (h, Sibling, NewRoot) in
  let! s := load h Sibling in
  do! ASSERT (bool_decide (Color s = RedBlackTreeBlack)) ;;
  let RightNephew := Right s in
  let LeftNephew := Left s in
  let! RightBlack := NodeIsNullOrBlack h RightNephew in
  let! LeftBlack := NodeIsNullOrBlack h LeftNephew in
  if RightBlack && LeftBlack then
    let! h := set_Color h Sibling RedBlackTreeRed in
    let! p := load h Parent' in
    Ok (h, Parent', Parent p, NewRoot)
  else
    let! (h, Sibling, LeftNephew, NewRoot) :=
      if LeftBlack : bool then
        let! h := set_Color h RightNephew RedBlackTreeBlack in
        let! h := set_Color h Sibling RedBlackTreeRed in
        let! (h, NewRoot) := RedBlackTreeRotateLeft h Sibling NewRoot in
        let! p := load h Parent' in
        let Sibling := Left p in
        let! s := load h Sibling in
        Ok (h, Sibling, Left s, NewRoot)
      else Ok (h, Sibling, LeftNephew, NewRoot) in
    do! ASSERT (negb (LeftNephew =? NULL)) ;;
    let! n := load h LeftNephew in
    do! ASSERT (bool_decide (Color n = RedBlackTreeRed)) ;;
    do! ASSERT (negb (Sibling =? NULL)) ;;
    let! s := load h Sibling in
    do! ASSERT (bool_decide (Color s = RedBlackTreeBlack)) ;;
    let! p := load h Parent' in
    let! h := set_Color h Sibling (Color p) in
    let! h := set_Color h Parent' RedBlackTreeBlack in
    let! h := set_Color h LeftNephew RedBlackTreeBlack in
    let! (h, NewRoot) := RedBlackTreeRotateRight h Parent' NewRoot in
    Ok (h, NewRoot, Parent', NewRoot).

(** The loop ends with the store, [Child] and [NewRoot]. *)
Fixpoint DeleteFixup_loop (fuel : nat) (h : nodes) (Child Parent' NewRoot : ptr) : result (nodes * ptr * ptr) :=
  match fuel with
  | O => NoFuel
  | S fuel =>
      if Child =? NewRoot then Ok (h, Child, NewRoot) else
      let! black := NodeIsNullOrBlack h Child in
      if negb black then Ok (h, Child, NewRoot) else
      let! p := load h Parent' in
      let! (h, Child, Parent', NewRoot) :=
        if Child =? Left p then DeleteFixup_left h Parent' NewRoot else DeleteFixup_right h Parent' NewRoot in
      DeleteFixup_loop fuel h Child Parent' NewRoot
  end.

(** [Node] is unlinked: the store, [Child], [Parent], [ColorOfUnlinked] and
    [NewRoot].  It has at most one child ([Unlink_single]), or its successor
    takes its place ([Unlink_double]). *)
Definition Unlink_single (h : nodes) (Node OrigLeftChild OrigRightChild OrigParent NewRoot : ptr)
    : result (nodes * ptr * ptr * RED_BLACK_TREE_COLOR * ptr) :=
  let Child := if negb (OrigLeftChild =? NULL) then OrigLeftChild else OrigRightChild in
  let! n := load h Node in
  let ColorOfUnlinked := Color n in
  let! h := adopt h Child OrigParent in
  let! (h, NewRoot) := replace_child h OrigParent Node Child NewRoot in
  Ok (h, Child, OrigParent, ColorOfUnlinked, NewRoot).

(** The successor is taken out of the right subtree, unless it is its root: the
    store, [ToRelink], [Child] and [Parent]. *)
Definition Unlink_successor (h : nodes) (OrigRightChild : ptr) : result (nodes * ptr * ptr * ptr) :=
  let! t := load h OrigRightChild in
  if Left t =? NULL then Ok (h, OrigRightChild, Right t, OrigRightChild)
  else
    let! ToRelink := Leftmost_loop (node_bound h) h (Left t) in
    let! t := load h ToRelink in
    let Parent' := Parent t in
    let Child := Right t in
    let! h := set_Left h Parent' Child in
    let! h := adopt h Child Parent' in
    let! h := set_Right h ToRelink OrigRightChild in
    let! h := set_Parent h OrigRightChild ToRelink in
    Ok (h, ToRelink, Child, Parent').

Definition Unlink_double (h : nodes) (Node OrigLeftChild OrigRightChild OrigParent NewRoot : ptr)
    : result (nodes * ptr * ptr * RED_BLACK_TREE_COLOR * ptr) :=
  let! (h, ToRelink, Child, Parent') := Unlink_successor h OrigRightChild in
  let! h := set_Left h ToRelink OrigLeftChild in
  let! h := set_Parent h OrigLeftChild ToRelink in
  let! t := load h ToRelink in
  let ColorOfUnlinked := Color t in
  let! n := load h Node in
  let! h := set_Color h ToRelink (Color n) in
  let! h := set_Parent h ToRelink OrigParent in
  let! (h, NewRoot) := replace_child h OrigParent Node ToRelink NewRoot in
  Ok (h, Child, Parent', ColorOfUnlinked, NewRoot).

Definition Unlink (h : nodes) (Node NewRoot : ptr) : result (nodes * ptr * ptr * RED_BLACK_TREE_COLOR * ptr) :=
  let! n := load h Node in
  if (Left n =? NULL) || (Right n =? NULL)
  then Unlink_single h Node (Left n) (Right n) (Parent n) NewRoot
  else Unlink_double h Node (Left n) (Right n) (Parent n) NewRoot.

(** The nodes and the root without [Node]. *)
Definition DeleteNode (h : nodes) (Node NewRoot : ptr) : result (nodes * ptr) :=
  let! (h, Child, Parent', ColorOfUnlinked, NewRoot) := Unlink h Node NewRoot in
  let h := delete Node h in
  if bool_decide (ColorOfUnlinked = RedBlackTreeBlack) then
    let! (h, Child, NewRoot) := DeleteFixup_loop (node_bound h) h Child Parent' NewRoot in
    let! h := if negb (Child =? NULL) then set_Color h Child RedBlackTreeBlack else Ok h in
    Ok (h, NewRoot)
  else Ok (h, NewRoot).

(** The first result is what is stored in [*UserStruct], if the caller passes a
    pointer for it ([UserStructOut]). *)
Definition OrderedCollectionDelete (s : Collections) (Tree Node : ptr) (UserStructOut : bool)
    : result (option Z * Collections) :=
  let! T := tree_of s Tree in
  let! n := load (tree_nodes s) Node in
  let! (h, NewRoot) := DeleteNode (tree_nodes s) Node (Root T) in
  let s := MkCollections (<[Tree := set_Root NewRoot T]> (trees s)) h in
  do! ValidateIfEnabled s Tree ;;
  Ok (if UserStructOut then Some (UserStruct n) else None, s).
End Code.
