(* ===== verification/RedBlackTreeRep.v ===== *)
(** * Ordered collections: trees in memory

    The functional tree that the nodes of a collection form, as a tree and as a
    subtree in a context (a zipper), and what loads, colour changes and
    rotations do to it.  [left] and [right] versions of the code are treated at
    once, by a [side]. *)

From stdpp Require Import sorting.
From S2P Require Import Prelude RedBlackTree.

(** ** Trees and contexts *)

Inductive tree :=
| Leaf
| Branch (c : RED_BLACK_TREE_COLOR) (l : tree) (p : ptr) (u : Z) (r : tree).

Fixpoint inorder (t : tree) : list (ptr * Z) :=
  match t with
  | Leaf => []
  | Branch _ l p u r => inorder l ++ (p, u) :: inorder r
  end.

Definition addrs (t : tree) : list ptr := (inorder t).*1.

Definition root (t : tree) : ptr := match t with Leaf => NULL | Branch _ _ p _ _ => p end.

(** Property #2: leaves are black. *)
Definition black (t : tree) : bool :=
  match t with Branch RedBlackTreeRed _ _ _ _ => false | _ => true end.

Definition paint (c : RED_BLACK_TREE_COLOR) (t : tree) : tree :=
  match t with Leaf => Leaf | Branch _ l p u r => Branch c l p u r end.

Inductive side := L | R.

#[export] Instance side_eq_dec : EqDecision side.
Proof. solve_decision. Defined.

Definition other (d : side) : side := match d with L => R | R => L end.

(** The tree with [t] on side [d] and [s] on the other side. *)
Definition mk (d : side) (c : RED_BLACK_TREE_COLOR) (t : tree) (p : ptr) (u : Z) (s : tree) : tree :=
  match d with L => Branch c t p u s | R => Branch c s p u t end.

(** A context, from the inside to the outside: the hole is the child on side
    [d] of node [p], whose other child is [s]. *)
Inductive frame := Frame (d : side) (c : RED_BLACK_TREE_COLOR) (p : ptr) (u : Z) (s : tree).

Abbreviation context := (list frame).

Fixpoint plug (k : context) (t : tree) : tree :=
  match k with
  | [] => t
  | Frame d c p u s :: k => plug k (mk d c t p u s)
  end.

Definition above (k : context) : ptr := match k with [] => NULL | Frame _ _ p _ _ :: _ => p end.

(** What comes before and after the hole. *)
Fixpoint before (k : context) : list (ptr * Z) :=
  match k with
  | [] => []
  | Frame L _ _ _ _ :: k => before k
  | Frame R _ p u s :: k => before k ++ inorder s ++ [(p, u)]
  end.

Fixpoint after (k : context) : list (ptr * Z) :=
  match k with
  | [] => []
  | Frame L _ p u s :: k => (p, u) :: inorder s ++ after k
  | Frame R _ _ _ _ :: k => after k
  end.

Definition around (k : context) : list ptr := (before k).*1 ++ (after k).*1.

Lemma mk_other d c t p u s : mk (other d) c s p u t = mk d c t p u s.
Proof. by destruct d. Qed.

Lemma root_mk d c t p u s : root (mk d c t p u s) = p.
Proof. by destruct d. Qed.

Lemma inorder_plug k t : inorder (plug k t) = before k ++ inorder t ++ after k.
Proof.
  revert t. induction k as [|[d c p u s] k IH]; intros t; simpl; [by rewrite app_nil_r|].
  rewrite IH. destruct d; simpl; by rewrite <-!app_assoc.
Qed.

Lemma plug_inorder k t t' : inorder t = inorder t' -> inorder (plug k t) = inorder (plug k t').
Proof. rewrite !inorder_plug. by intros ->. Qed.

Lemma addrs_plug k t : addrs (plug k t) = (before k).*1 ++ addrs t ++ (after k).*1.
Proof. unfold addrs. by rewrite inorder_plug, !fmap_app. Qed.

Lemma elem_of_mk x d c t p u s : x ∈ addrs (mk d c t p u s) <-> x ∈ addrs t \/ x = p \/ x ∈ addrs s.
Proof. destruct d; unfold addrs; simpl; rewrite fmap_app, elem_of_app; simpl; rewrite elem_of_cons; tauto. Qed.

Lemma elem_of_around x d c p u s k : x ∈ around (Frame d c p u s :: k) <-> x = p \/ x ∈ addrs s \/ x ∈ around k.
Proof.
  unfold around, addrs. destruct d; simpl; rewrite ?fmap_app; simpl; rewrite !elem_of_app, ?elem_of_cons, ?elem_of_nil, ?elem_of_app;
    simpl; rewrite ?elem_of_cons, ?elem_of_nil; tauto.
Qed.

Lemma elem_of_plug x k t : x ∈ addrs (plug k t) <-> x ∈ addrs t \/ x ∈ around k.
Proof. rewrite addrs_plug. unfold around. rewrite !elem_of_app. tauto. Qed.

Lemma root_in t : root t = NULL \/ root t ∈ addrs t.
Proof. destruct t; [by left|right]. unfold addrs. simpl. rewrite fmap_app, elem_of_app. right. left. Qed.

Lemma root_plug k t t' : (k = [] -> root t = root t') -> root (plug k t) = root (plug k t').
Proof.
  revert t t'. induction k as [|[d c p u s] k IH]; intros t t' Hr; simpl; [by apply Hr|].
  apply IH. intros _. by rewrite !root_mk.
Qed.

Lemma plug_app k1 k2 t : plug (k1 ++ k2) t = plug k2 (plug k1 t).
Proof. revert t. induction k1 as [|[d c p u s] k1 IH]; intros t; [done|]. simpl. apply IH. Qed.

(** Every node of a tree is the root of a subtree. *)
Lemma focus t p u : (p, u) ∈ inorder t -> exists k c l r, t = plug k (Branch c l p u r).
Proof.
  induction t as [|c l IHl q v r IHr]; simpl; [by intros ?%elem_of_nil|].
  rewrite elem_of_app, elem_of_cons. intros [Hl|[[= -> ->]|Hr]].
  - destruct (IHl Hl) as (k & c' & l' & r' & ->). exists (k ++ [Frame L c q v r]), c', l', r'. by rewrite plug_app.
  - by exists [], c, l, r.
  - destruct (IHr Hr) as (k & c' & l' & r' & ->). exists (k ++ [Frame R c q v l]), c', l', r'. by rewrite plug_app.
Qed.

(** An element occurs in one place only. *)
Lemma split_unique (l1 l2 m1 m2 : list (ptr * Z)) p u u' : NoDup (m1.*1 ++ p :: m2.*1) ->
  m1 ++ (p, u) :: m2 = l1 ++ (p, u') :: l2 -> l1 = m1 /\ u' = u /\ l2 = m2.
Proof.
  revert l1. induction m1 as [|x m1 IH]; intros [|y l1] Hnd; simpl.
  - naive_solver.
  - intros [= <- ->]. apply NoDup_cons in Hnd as [Hp _]. rewrite fmap_app, fmap_cons, elem_of_app, elem_of_cons in Hp. tauto.
  - intros [= -> <-]. simpl in Hnd. apply NoDup_cons in Hnd as [Hp _]. rewrite elem_of_app, elem_of_cons in Hp. tauto.
  - intros [= <- Heq]. apply NoDup_cons in Hnd as [_ Hnd]. destruct (IH l1 Hnd Heq) as (-> & ?). done.
Qed.

(** ** Trees in the store *)

(** A node with the children [a] on side [d] and [b] on the other side. *)
Definition node (d : side) (u : Z) (par a b : ptr) (c : RED_BLACK_TREE_COLOR) : RED_BLACK_TREE_NODE :=
  match d with L => MkNode u par a b c | R => MkNode u par b a c end.

Fixpoint tree_at (h : nodes) (par : ptr) (t : tree) : Prop :=
  match t with
  | Leaf => True
  | Branch c l p u r => h !! p = Some (MkNode u par (root l) (root r) c) /\ tree_at h p l /\ tree_at h p r
  end.

Fixpoint context_at (h : nodes) (x : ptr) (k : context) : Prop :=
  match k with
  | [] => True
  | Frame d c p u s :: k =>
      h !! p = Some (node d u (above k) x (root s) c) /\ tree_at h p s /\ context_at h p k
  end.

Lemma tree_at_mk h par d c t p u s :
  tree_at h par (mk d c t p u s) <-> h !! p = Some (node d u par (root t) (root s) c) /\ tree_at h p t /\ tree_at h p s.
Proof. destruct d; simpl; tauto. Qed.

Lemma tree_at_plug h k t : tree_at h NULL (plug k t) <-> tree_at h (above k) t /\ context_at h (root t) k.
Proof.
  revert t. induction k as [|[d c p u s] k IH]; intros t; simpl; [tauto|].
  rewrite IH, tree_at_mk, root_mk. tauto.
Qed.

Lemma tree_at_frame h h' par t : (forall x, x ∈ addrs t -> h' !! x = h !! x) -> tree_at h par t -> tree_at h' par t.
Proof.
  revert par. induction t as [|c l IHl p u r IHr]; intros par Hx; simpl; [done|]. intros (Hp & Hl & Hr).
  assert (Hin : forall x, x ∈ addrs (mk L c l p u r) -> h' !! x = h !! x) by done. setoid_rewrite elem_of_mk in Hin.
  split; [by rewrite Hin by auto|]. split; [apply IHl|apply IHr]; auto.
Qed.

Lemma context_at_frame h h' x k : (forall y, y ∈ around k -> h' !! y = h !! y) -> context_at h x k -> context_at h' x k.
Proof.
  revert x. induction k as [|[d c p u s] k IH]; intros x Hx; simpl; [done|]. intros (Hp & Hs & Hk).
  setoid_rewrite elem_of_around in Hx.
  split; [by rewrite Hx by auto|]. split; [apply (tree_at_frame h); auto|apply IH; auto].
Qed.

(** The nodes of a tree are distinct. *)
Definition wf (t : tree) : Prop := NoDup (addrs t) /\ NULL ∉ addrs t.

Definition rep (h : nodes) (t : tree) : Prop := tree_at h NULL t /\ wf t.

Lemma wf_inorder t t' : inorder t = inorder t' -> wf t -> wf t'.
Proof. unfold wf, addrs. by intros ->. Qed.

(** Parts of a tree that are apart. *)
Lemma wf_mk d c t p u s : wf (mk d c t p u s) ->
  wf t /\ wf s /\ p <> NULL /\ p ∉ addrs t /\ p ∉ addrs s /\ (forall x, x ∈ addrs t -> x ∉ addrs s).
Proof.
  unfold wf, addrs. destruct d; simpl; rewrite fmap_app; simpl; intros [Hnd Hn];
    rewrite elem_of_app, elem_of_cons in Hn; apply NoDup_app in Hnd as (Hl & Hd & Hr);
    rewrite NoDup_cons in Hr; destruct Hr as [Hp Hr]; 
    (split; [tauto|]); (split; [tauto|]); (split; [intros ->; tauto|]);
    (split; [intros Hx; first [tauto|apply (Hd _ Hx); left]|]); (split; [intros Hx; first [tauto|apply (Hd _ Hx); left]|]);
    intros x Hx Hx'; first [apply (Hd _ Hx); by right|apply (Hd _ Hx'); by right].
Qed.

Lemma root_inside t : t <> Leaf -> root t ∈ addrs t.
Proof. destruct t as [|c l p u r]; [done|intros _]. apply (elem_of_mk _ L). auto. Qed.

Lemma roots_differ d c t p u s : wf (mk d c t p u s) -> t <> Leaf -> root t <> root s /\ root t <> p.
Proof.
  intros (Hwt & _ & _ & Hpt & _ & Hts)%wf_mk Ht. pose proof (root_inside t Ht) as Hin. destruct Hwt as [_ Hn].
  split; [|by intros <-]. intros Heq. destruct (root_in s) as [Hs|Hs]; [by rewrite Heq, Hs in Hin|].
  rewrite <-Heq in Hs. by apply (Hts (root t)).
Qed.

Lemma wf_plug k t : wf (plug k t) ->
  wf t /\ NoDup (around k) /\ NULL ∉ around k /\ (forall x, x ∈ addrs t -> x ∉ around k).
Proof.
  unfold wf, around. rewrite addrs_plug, !NoDup_app, !elem_of_app. intros [(Hb & Hba & Ht & Hta & Ha) Hn].
  split; [tauto|]. split; [split; [done|]; split; [|done]; intros x Hx Hxa; apply (Hba x Hx); set_solver|].
  split; [tauto|]. intros x Hx [Hxb|Hxa]%elem_of_app; [apply (Hba x Hxb); set_solver|by apply (Hta x)].
Qed.

Lemma rep_focus h k t : rep h (plug k t) ->
  tree_at h (above k) t /\ context_at h (root t) k /\ wf t /\ NoDup (around k) /\ NULL ∉ around k /\
  (forall x, x ∈ addrs t -> x ∉ around k).
Proof. intros [Ht Hw]. apply tree_at_plug in Ht as [Ht Hk]. by apply wf_plug in Hw. Qed.

Lemma rep_load h k d c t p u s : rep h (plug k (mk d c t p u s)) ->
  load h p = Ok (node d u (above k) (root t) (root s) c).
Proof. intros (Ht & _)%rep_focus. apply tree_at_mk in Ht as [Hp _]. unfold load. by rewrite Hp. Qed.

Lemma rep_not_null h k d c t p u s : rep h (plug k (mk d c t p u s)) -> p <> NULL.
Proof. intros (_ & _ & Hw & _)%rep_focus. by apply wf_mk in Hw as (_ & _ & ? & _). Qed.

(** A tree has at most as many nodes as the store. *)
Lemma rep_size h t : rep h t -> (length (inorder t) <= size h)%nat.
Proof.
  intros [Ht [Hnd _]]. rewrite <-(length_fmap fst), <-size_dom.
  rewrite <-(size_list_to_set (C := gset ptr)) by done. apply subseteq_size. intros x Hx%elem_of_list_to_set.
  apply elem_of_dom. clear Hnd. revert Hx Ht. generalize NULL as par. change ((inorder t).*1) with (addrs t).
  induction t as [|c l IHl p u r IHr]; intros par Hx; [by apply elem_of_nil in Hx|]. intros (Hp & Hl & Hr).
  apply (elem_of_mk _ L) in Hx as [Hx|[->|Hx]]; [by apply (IHl p)|by eexists|by apply (IHr p)].
Qed.

(** ** Writing to the store *)

(** The tree that replaces [T] in [h'] has the same elements, and the rest of
    the store is as in [h]. *)
Record rewritten (h : nodes) (T : tree) (h' : nodes) (T' : tree) : Prop := {
  rw_rep : rep h' T';
  rw_inorder : inorder T' = inorder T;
  rw_rest : forall x, x ∉ addrs T -> h' !! x = h !! x }.

Lemma rewritten_refl h T : rep h T -> rewritten h T h T.
Proof. by split. Qed.

Lemma rewritten_trans h1 T1 h2 T2 h3 T3 : rewritten h1 T1 h2 T2 -> rewritten h2 T2 h3 T3 -> rewritten h1 T1 h3 T3.
Proof.
  intros [H1 E1 R1] [H2 E2 R2]. split; [done|congruence|]. intros x Hx. rewrite R2, R1; try done.
  unfold addrs. by rewrite E1.
Qed.

Lemma color_spec h k d c t p u s c' : rep h (plug k (mk d c t p u s)) ->
  exists h', set_Color h p c' = Ok h' /\ rewritten h (plug k (mk d c t p u s)) h' (plug k (mk d c' t p u s)).
Proof.
  intros Hrep. pose proof (rep_focus h k _ Hrep) as (Ht & Hk & Hw & _ & _ & Hd).
  unfold set_Color. rewrite (rep_load h k d c t p u s) by done. cbn [mbind result_bind].
  eexists. split; [done|]. apply wf_mk in Hw as (_ & _ & _ & Hpt & Hps & _).
  apply tree_at_mk in Ht as (_ & Ht & Hs).
  assert (Hin : inorder (plug k (mk d c' t p u s)) = inorder (plug k (mk d c t p u s))) by (apply plug_inorder; by destruct d).
  split; [|done|].
  - split; [|by apply (wf_inorder (plug k (mk d c t p u s))), Hrep]. apply tree_at_plug. rewrite tree_at_mk, root_mk in *.
    split; [split; [rewrite lookup_insert_eq; by destruct d|]|].
    + split; (eapply tree_at_frame; [|done]); intros x Hx; apply lookup_insert_ne; by intros ->.
    + eapply context_at_frame; [|done]. intros x Hx. apply lookup_insert_ne. intros ->. apply (Hd x); [|done].
      apply elem_of_mk. auto.
  - intros x Hx. apply lookup_insert_ne. intros ->. apply Hx, elem_of_plug. left. apply elem_of_mk. auto.
Qed.

Lemma paint_mk c' d c t p u s : paint c' (mk d c t p u s) = mk d c' t p u s.
Proof. by destruct d. Qed.

Lemma paint_spec h k t c : rep h (plug k t) -> t <> Leaf ->
  exists h', set_Color h (root t) c = Ok h' /\ rewritten h (plug k t) h' (plug k (paint c t)).
Proof. destruct t as [|c' l p u r]; [done|]. intros Hrep _. by apply (color_spec h k L c' l p u r c). Qed.

Lemma black_spec h k t : rep h (plug k t) -> NodeIsNullOrBlack h (root t) = Ok (black t).
Proof.
  unfold NodeIsNullOrBlack. destruct t as [|c l p u r]; [done|]. intros Hrep.
  cbn [root]. rewrite (proj2 (Z.eqb_neq _ _) (rep_not_null h k L c l p u r Hrep)).
  rewrite (rep_load h k L c l p u r Hrep). cbn [mbind result_bind]. by destruct c.
Qed.

(** The root is above every hole. *)
Lemma root_around k t : k <> [] -> root (plug k t) ∈ around k.
Proof.
  revert t. induction k as [|[d c p u s] k IH]; intros t Hk; [done|]. simpl. rewrite elem_of_around.
  destruct k as [|f k]; [left; simpl; by rewrite root_mk|]. right. right. by apply IH.
Qed.

Lemma adopt_spec h par t p : tree_at h par t -> wf t ->
  exists h', adopt h (root t) p = Ok h' /\ tree_at h' p t /\ (forall x, x ∉ addrs t -> h' !! x = h !! x).
Proof.
  intros Ht Hw. unfold adopt. destruct t as [|c l q u r]; [by exists h|].
  pose proof (wf_mk L c l q u r Hw) as (_ & _ & Hq & Hql & Hqr & _). simpl in *. destruct Ht as (Hn & Hl & Hr).
  rewrite (proj2 (Z.eqb_neq q NULL)) by done. unfold set_Parent, load. rewrite Hn. simpl. eexists. split; [done|].
  split; [split; [by rewrite lookup_insert_eq|]|].
  - split; (eapply tree_at_frame; [|done]); intros x Hx; apply lookup_insert_ne; by intros ->.
  - intros x Hx. apply lookup_insert_ne. intros ->. apply Hx, (elem_of_mk _ L). auto.
Qed.

(** The fields of a node by side. *)
Definition child (d : side) (n : RED_BLACK_TREE_NODE) : ptr := match d with L => Left n | R => Right n end.
Definition set_child (d : side) : nodes -> ptr -> ptr -> result nodes := match d with L => set_Left | R => set_Right end.

Lemma child_node d u par a b c : child d (node d u par a b c) = a /\ child (other d) (node d u par a b c) = b /\
  Parent (node d u par a b c) = par /\ Color (node d u par a b c) = c /\ UserStruct (node d u par a b c) = u.
Proof. by destruct d. Qed.

Lemma set_child_node d h p v u par a b c : h !! p = Some (node d u par a b c) ->
  set_child d h p v = Ok (<[p := node d u par v b c]> h) /\ set_child (other d) h p v = Ok (<[p := node d u par a v c]> h) /\
  set_Parent h p v = Ok (<[p := node d u v a b c]> h).
Proof. intros Hp. destruct d; unfold set_child, other, set_Left, set_Right, set_Parent, load; by rewrite Hp. Qed.

Lemma set_Color_node d h p u par a b c c' : h !! p = Some (node d u par a b c) ->
  set_Color h p c' = Ok (<[p := node d u par a b c']> h).
Proof. intros Hp. unfold set_Color, load. rewrite Hp. by destruct d. Qed.

Lemma load_node h p n : h !! p = Some n -> load h p = Ok n.
Proof. unfold load. by intros ->. Qed.

(** The child of the node above is set. *)
Lemma set_hole_spec h d c p u s k t x y : context_at h x (Frame d c p u s :: k) -> wf (plug (Frame d c p u s :: k) t) ->
  exists h', set_child d h p y = Ok h' /\ context_at h' y (Frame d c p u s :: k) /\ (forall z, z <> p -> h' !! z = h !! z).
Proof.
  intros (Hp & Hs & Hk) Hw. simpl in Hw. pose proof (wf_plug _ _ Hw) as (Hwt & _ & _ & Hd).
  pose proof (wf_mk _ _ _ _ _ _ Hwt) as (_ & _ & Hpn & _ & Hps & _). setoid_rewrite elem_of_mk in Hd.
  destruct (set_child_node d h p y _ _ _ _ _ Hp) as (-> & _). eexists. split; [done|]. split.
  - split; [by rewrite lookup_insert_eq|]. split.
    + eapply tree_at_frame; [|done]. intros z Hz. apply lookup_insert_ne. by intros ->.
    + eapply context_at_frame; [|done]. intros z Hz. apply lookup_insert_ne. intros ->. apply (Hd z); auto.
  - intros z Hz. by apply lookup_insert_ne.
Qed.

(** The child that the node above holds is replaced. *)
Lemma replace_child_spec h k t x y NewRoot : context_at h x k -> wf (plug k t) -> x <> NULL -> x ∉ around k ->
  exists h', replace_child h (above k) x y NewRoot = Ok (h', match k with [] => y | _ => NewRoot end) /\
    context_at h' y k /\ (forall z, z ∉ around k -> h' !! z = h !! z).
Proof.
  intros Hk Hw Hx Hxk. unfold replace_child. destruct k as [|[d c p u s] k]; [by exists h|].
  destruct (set_hole_spec h d c p u s k t x y Hk Hw) as (h' & Heq & Hk' & Hh'). destruct Hk as (Hp & _).
  pose proof (wf_plug _ _ Hw) as (_ & _ & Hpn & _). rewrite elem_of_around in Hxk, Hpn.
  cbn [above]. rewrite (proj2 (Z.eqb_neq p NULL)) by (intros ->; tauto). unfold load. rewrite Hp. cbn [mbind result_bind deref].
  assert (Hchild : (if x =? Left (node d u (above k) x (root s) c) then set_Left h p y else set_Right h p y) = Ok h').
  { rewrite <-Heq. destruct d; simpl; [by rewrite Z.eqb_refl|].
    destruct (Z.eqb_spec x (root s)) as [->|]; [|done]. destruct (root_in s); [done|tauto]. }
  rewrite Hchild. cbn [mbind result_bind]. exists h'. split; [done|]. split; [done|].
  intros z Hz. apply Hh'. intros ->. apply Hz, elem_of_around. auto.
Qed.

(** ** Rotations *)

(** [RedBlackTreeRotateLeft] ([L]) and [RedBlackTreeRotateRight] ([R]). *)
Definition Rotate (d : side) (h : nodes) (Pivot NewRoot : ptr) : result (nodes * ptr) :=
  let! n := load h Pivot in
  let Child := child (other d) n in
  let! r := load h Child in
  let! h := set_child (other d) h Pivot (child d r) in
  let! h := adopt h (child d r) Pivot in
  let! h := set_Parent h Child (Parent n) in
  let! (h, NewRoot) := replace_child h (Parent n) Pivot Child NewRoot in
  let! h := set_child d h Child Pivot in
  let! h := set_Parent h Pivot Child in
  Ok (h, NewRoot).

Lemma RotateLeft_Rotate h p x : RedBlackTreeRotateLeft h p x = Rotate L h p x.
Proof. done. Qed.

Lemma RotateRight_Rotate h p x : RedBlackTreeRotateRight h p x = Rotate R h p x.
Proof. done. Qed.

Definition rotated (d : side) c a p u c' m q v b : tree := mk d c' (mk d c a p u m) q v b.

Lemma rotated_inorder d c a p u c' m q v b :
  inorder (rotated d c a p u c' m q v b) = inorder (mk d c a p u (mk d c' m q v b)).
Proof. unfold rotated. destruct d; simpl; by rewrite <-app_assoc. Qed.

Lemma rotate_spec d h k c a p u c' m q v b NewRoot :
  let T := plug k (mk d c a p u (mk d c' m q v b)) in
  let T' := plug k (rotated d c a p u c' m q v b) in
  rep h T -> NewRoot = root T -> exists h', Rotate d h p NewRoot = Ok (h', root T') /\ rewritten h T h' T'.
Proof.
  intros T T' Hrep ->. pose proof (rep_focus h k _ Hrep) as (Ht & Hk & Hw & _ & _ & Hd).
  setoid_rewrite elem_of_mk in Hd. setoid_rewrite elem_of_mk in Hd.
  pose proof (wf_mk _ _ _ _ _ _ Hw) as (Hwa & Hw' & Hpn & Hpa & Hp' & Ha').
  pose proof (wf_mk _ _ _ _ _ _ Hw') as (Hwm & Hwb & Hqn & Hqm & Hqb & Hmb).
  rewrite elem_of_mk in Hp'. setoid_rewrite elem_of_mk in Ha'.
  apply tree_at_mk in Ht as (Hp & Ha & Ht). apply tree_at_mk in Ht as (Hq & Hm & Hb). rewrite !root_mk in *.
  assert (Hpq : p <> q) by tauto.
  unfold Rotate. rewrite (rep_load h k d c a p u _) by done. rewrite root_mk. cbn [mbind result_bind].
  destruct (child_node d u (above k) (root a) q c) as (_ & -> & -> & _). unfold load at 1. rewrite Hq. cbn [mbind result_bind deref].
  destruct (child_node d v p (root m) (root b) c') as (-> & _).
  destruct (set_child_node d h p (root m) u (above k) (root a) q c Hp) as (_ & -> & _). cbn [mbind result_bind].
  set (h1 := <[p := _]> h).
  assert (Hh1 : forall x, x <> p -> h1 !! x = h !! x) by (intros x Hx; by apply lookup_insert_ne).
  destruct (adopt_spec h1 q m p) as (h2 & -> & Hm2 & Hh2); [|done|].
  { eapply tree_at_frame; [|done]. intros x Hx. apply Hh1. intros ->. tauto. }
  cbn [mbind result_bind].
  assert (Hq2 : h2 !! q = Some (node d v p (root m) (root b) c')) by (rewrite Hh2, Hh1 by (done || congruence); done).
  destruct (set_child_node d h2 q (above k) _ _ _ _ _ Hq2) as (_ & _ & ->). cbn [mbind result_bind]. set (h3 := <[q := _]> h2).
  assert (Hh3 : forall x, x <> p -> x <> q -> x ∉ addrs m -> h3 !! x = h !! x).
  { intros x Hxp Hxq Hxm. unfold h3. by rewrite lookup_insert_ne, Hh2, Hh1. }
  destruct (replace_child_spec h3 k (mk d c a p u (mk d c' m q v b)) p q (root T)) as (h4 & -> & Hk4 & Hh4);
    [|apply Hrep|done|apply Hd; tauto|].
  { eapply context_at_frame; [|done]. intros x Hx. apply Hh3; [| |]; try intros ->; naive_solver. }
  cbn [mbind result_bind].
  assert (Hq4 : h4 !! q = Some (node d v (above k) (root m) (root b) c')).
  { rewrite Hh4 by (apply Hd; tauto). unfold h3. by rewrite lookup_insert_eq. }
  destruct (set_child_node d h4 q p _ _ _ _ _ Hq4) as (-> & _). cbn [mbind result_bind]. set (h5 := <[q := _]> h4).
  assert (Hp5 : h5 !! p = Some (node d u (above k) (root a) (root m) c)).
  { unfold h5. rewrite lookup_insert_ne by congruence. rewrite Hh4 by (apply Hd; tauto).
    unfold h3. rewrite lookup_insert_ne by congruence. rewrite Hh2 by tauto. unfold h1. by rewrite lookup_insert_eq. }
  destruct (set_child_node d h5 p q _ _ _ _ _ Hp5) as (_ & _ & ->). cbn [mbind result_bind]. set (h6 := <[p := _]> h5).
  assert (Hh6 : forall x, x <> p -> x <> q -> h6 !! x = h4 !! x).
  { intros x Hxp Hxq. unfold h6, h5. by rewrite !lookup_insert_ne. }
  exists h6. split; [|split].
  - assert (Hroot : match k with [] => q | _ => root T end = root T').
    { destruct k as [|[]]; [unfold T', rotated; simpl; by rewrite root_mk|].
      unfold T, T'. simpl. apply root_plug. intros _. by rewrite !root_mk. }
    by rewrite Hroot.
  - split; [|apply (wf_inorder T); [|apply Hrep]; symmetry; apply plug_inorder, rotated_inorder].
    apply tree_at_plug. unfold rotated. rewrite !tree_at_mk, !root_mk. split_and!.
    + unfold h6, h5. by rewrite lookup_insert_ne, lookup_insert_eq by congruence.
    + unfold h6. by rewrite lookup_insert_eq.
    + eapply tree_at_frame; [|exact Ha]. intros x Hx. assert (x <> p /\ x <> q /\ x ∉ addrs m /\ x ∉ around k) by (split_and!; try intros ->; naive_solver).
      rewrite Hh6, Hh4, Hh3; tauto.
    + eapply tree_at_frame; [|exact Hm2]. intros x Hx. assert (x <> p /\ x <> q /\ x ∉ around k) by (split_and!; try intros ->; naive_solver).
      rewrite Hh6, Hh4 by tauto. unfold h3. by rewrite lookup_insert_ne by (intros ->; tauto).
    + eapply tree_at_frame; [|exact Hb]. intros x Hx. assert (x <> p /\ x <> q /\ x ∉ addrs m /\ x ∉ around k) by (split_and!; try intros ->; naive_solver).
      rewrite Hh6, Hh4, Hh3; tauto.
    + eapply context_at_frame; [|exact Hk4]. intros x Hx. apply Hh6; intros ->; naive_solver.
  - apply plug_inorder, rotated_inorder.
  - intros x Hx. unfold T in Hx. rewrite elem_of_plug, !elem_of_mk in Hx. rewrite Hh6, Hh4, Hh3; tauto.
Qed.

(** The rotation to the other side undoes it. *)
Lemma rotate_other_spec d h k c t p u s c' q v m NewRoot :
  let T := plug k (mk d c (mk d c' t q v m) p u s) in
  let T' := plug k (mk d c' t q v (mk d c m p u s)) in
  rep h T -> NewRoot = root T -> exists h', Rotate (other d) h p NewRoot = Ok (h', root T') /\ rewritten h T h' T'.
Proof.
  intros T T'. unfold T, T'. rewrite <-(mk_other d c), <-(mk_other d c' t q v m).
  intros Hrep Hroot. destruct (rotate_spec (other d) h k c s p u c' m q v t NewRoot Hrep Hroot) as (h' & Heq & Hrw).
  unfold rotated in *. rewrite !mk_other in *. by exists h'.
Qed.

(** ** Searching *)

Fixpoint height (t : tree) : nat :=
  match t with Leaf => O | Branch _ l _ _ r => S (Nat.max (height l) (height r)) end.

Lemma height_inorder t : (height t <= length (inorder t))%nat.
Proof. induction t; simpl; [lia|]. rewrite length_app. simpl. lia. Qed.

Lemma depth_inorder k t : (length k + length (inorder t) <= length (inorder (plug k t)))%nat.
Proof.
  revert t. induction k as [|[d c p u s] k IH]; intros t; [done|]. simpl.
  etransitivity; [|apply IH]. destruct d; simpl; rewrite length_app; simpl; lia.
Qed.

Lemma rep_bound h k t : rep h (plug k t) -> (length k + height t < node_bound h)%nat.
Proof.
  intros Hrep. unfold node_bound. pose proof (rep_size h _ Hrep). pose proof (depth_inorder k t).
  pose proof (height_inorder t). lia.
Qed.

(** A comparison function that agrees with the order of the elements: as long as
    it is not below an element, it is above the elements before. *)
Definition guided (f : Z -> Z) (l : list (ptr * Z)) : Prop :=
  StronglySorted (fun a b => 0 <= f b.2 -> 0 < f a.2) l.

(** What a search is to return: the element that compares equal. *)
Definition found (f : Z -> Z) (l : list (ptr * Z)) : ptr :=
  match List.find (fun x => f x.2 =? 0) l with Some x => x.1 | None => NULL end.

Lemma find_app {A} (P : A -> bool) l1 l2 :
  List.find P (l1 ++ l2) = match List.find P l1 with Some x => Some x | None => List.find P l2 end.
Proof. induction l1 as [|x l1 IH]; simpl; [done|]. by destruct (P x). Qed.

Lemma found_none (f : Z -> Z) (l : list (ptr * Z)) : (forall x, x ∈ l -> f x.2 <> 0) -> List.find (fun x => f x.2 =? 0) l = None.
Proof.
  intros Hl. destruct (List.find _ l) as [x|] eqn:Hx; [|done].
  apply find_some in Hx as [Hin%list_elem_of_In Hf%Z.eqb_eq]. by destruct (Hl x).
Qed.

Lemma found_mid f l1 x l2 : guided f (l1 ++ x :: l2) ->
  (f x.2 = 0 -> found f (l1 ++ x :: l2) = x.1) /\
  (f x.2 < 0 -> found f (l1 ++ x :: l2) = found f l1) /\ (0 < f x.2 -> found f (l1 ++ x :: l2) = found f l2).
Proof.
  intros (Hlt & _ & Hsort)%StronglySorted_app. unfold found. rewrite find_app. cbn [List.find].
  apply StronglySorted_cons in Hsort as [Hge _]. rewrite Forall_forall in Hge. split; [|split]; intros Hx.
  - rewrite (found_none f l1); [by rewrite (proj2 (Z.eqb_eq _ _) Hx)|].
    intros y Hy. specialize (Hlt y x Hy (list_elem_of_here _ _)). lia.
  - rewrite (proj2 (Z.eqb_neq _ _)) by lia. rewrite (found_none f l2); [by destruct (List.find _ l1)|].
    intros y Hy. specialize (Hge y Hy). lia.
  - rewrite (proj2 (Z.eqb_neq _ _)) by lia. rewrite (found_none f l1); [done|].
    intros y Hy. specialize (Hlt y x Hy (list_elem_of_here _ _)). lia.
Qed.
