(* ===== verification/RedBlackTreeSearch.v ===== *)
(** * Ordered collections: searching and iterating

    [Find], [Min], [Max], [Next] and [Prev] on the tree that the nodes form. *)

From stdpp Require Import sorting.
From S2P Require Import Prelude RedBlackTree RedBlackTreeRep.

(** ** Walking from either side *)

(** The elements of a tree as met from side [d], and those after a hole. *)
Definition walk (d : side) (t : tree) : list (ptr * Z) :=
  match d with L => inorder t | R => reverse (inorder t) end.

Definition rest (d : side) (k : context) : list (ptr * Z) :=
  match d with L => after k | R => reverse (before k) end.

Definition first (l : list (ptr * Z)) : ptr := match l with [] => NULL | x :: _ => x.1 end.

Lemma walk_mk d c t p u s : walk d (mk d c t p u s) = walk d t ++ (p, u) :: walk d s.
Proof. destruct d; simpl; [done|]. by rewrite reverse_app, reverse_cons, <-app_assoc. Qed.

Lemma rest_frame d d' c p u s k :
  rest d (Frame d' c p u s :: k) = if decide (d' = d) then (p, u) :: walk d s ++ rest d k else rest d k.
Proof.
  destruct d, d'; try done. simpl. rewrite !reverse_app. by rewrite <-app_assoc.
Qed.

Lemma walk_plug d k t : exists l, walk d (plug k t) = l ++ walk d t ++ rest d k.
Proof.
  unfold walk, rest. rewrite inorder_plug. destruct d; [by eexists|].
  rewrite !reverse_app. eexists. by rewrite <-app_assoc.
Qed.

Fixpoint Extreme_loop (d : side) (fuel : nat) (h : nodes) (Node : ptr) : result ptr :=
  match fuel with
  | O => NoFuel
  | S fuel =>
      let! n := load h Node in
      if negb (child d n =? NULL) then Extreme_loop d fuel h (child d n) else Ok Node
  end.

Fixpoint Ascend_loop (d : side) (fuel : nat) (h : nodes) (Child Walk : ptr) : result ptr :=
  match fuel with
  | O => NoFuel
  | S fuel =>
      if Walk =? NULL then Ok Walk else
      let! n := load h Walk in
      if Child =? child (other d) n then Ascend_loop d fuel h Walk (Parent n) else Ok Walk
  end.

Definition Advance (d : side) (h : nodes) (Node : ptr) : result ptr :=
  if Node =? NULL then Ok NULL else
  let! n := load h Node in
  if negb (child (other d) n =? NULL) then Extreme_loop d (node_bound h) h (child (other d) n)
  else Ascend_loop d (node_bound h) h Node (Parent n).

Lemma Leftmost_loop_eq fuel h x : Leftmost_loop fuel h x = Extreme_loop L fuel h x.
Proof. revert x. induction fuel as [|fuel IH]; intros x; simpl; [done|]. destruct (load h x); simpl; by rewrite ?IH. Qed.

Lemma Rightmost_loop_eq fuel h x : Rightmost_loop fuel h x = Extreme_loop R fuel h x.
Proof. revert x. induction fuel as [|fuel IH]; intros x; simpl; [done|]. destruct (load h x); simpl; by rewrite ?IH. Qed.

Lemma Next_loop_eq fuel h x y : Next_loop fuel h x y = Ascend_loop L fuel h x y.
Proof. revert x y. induction fuel as [|fuel IH]; intros x y; simpl; [done|]. destruct (load h y); simpl; by rewrite ?IH. Qed.

Lemma Prev_loop_eq fuel h x y : Prev_loop fuel h x y = Ascend_loop R fuel h x y.
Proof. revert x y. induction fuel as [|fuel IH]; intros x y; simpl; [done|]. destruct (load h y); simpl; by rewrite ?IH. Qed.

Lemma Next_eq h x : Next h x = Advance L h x.
Proof. unfold Next, Advance. destruct (load h x) as [n| | |]; [|done..]. cbn [mbind result_bind]. by rewrite Leftmost_loop_eq, Next_loop_eq. Qed.

Lemma Prev_eq h x : Prev h x = Advance R h x.
Proof. unfold Prev, Advance. destruct (load h x) as [n| | |]; [|done..]. cbn [mbind result_bind]. by rewrite Rightmost_loop_eq, Prev_loop_eq. Qed.

(** A branch, seen from side [d]. *)
Lemma branch_mk d c l p u r : exists t s, Branch c l p u r = mk d c t p u s /\
  (height t < height (Branch c l p u r))%nat /\ (height s < height (Branch c l p u r))%nat.
Proof. destruct d; [exists l, r|exists r, l]; (split; [done|simpl; lia]). Qed.

(** The last node that the descent to side [d] reaches, as a subtree. *)
Lemma extreme_spec d t : t <> Leaf -> exists k c x u s, t = plug k (mk d c Leaf x u s) /\ walk d t = (x, u) :: walk d s ++ rest d k /\
  forall h k0 fuel, rep h (plug k0 t) -> (height t <= fuel)%nat -> Extreme_loop d fuel h (root t) = Ok x.
Proof.
  remember (height t) as n eqn:Hn. revert t Hn. induction (lt_wf n) as [n _ IH]. intros t -> Ht.
  destruct t as [|c l p u r]; [done|]. destruct (branch_mk d c l p u r) as (a & s & Heq & Ha & _).
  rewrite Heq in *. clear Heq l r Ht. destruct a as [|c' l' p' u' r'].
  - exists [], c, p, u, s. split; [done|]. split; [rewrite walk_mk; destruct d; simpl; by rewrite app_nil_r|].
    intros h k0 fuel Hrep Hfuel. destruct fuel as [|fuel]; [lia|]. cbn [Extreme_loop]. rewrite root_mk.
    rewrite (rep_load h k0 d c Leaf p u s) by done. cbn [mbind result_bind].
    by destruct (child_node d u (above k0) (root Leaf) (root s) c) as (-> & _).
  - destruct (IH (height (Branch c' l' p' u' r')) Ha _ eq_refl ltac:(done)) as (k & c1 & x & v & s1 & Heq & Hw & Hloop).
    exists (k ++ [Frame d c p u s]), c1, x, v, s1. split; [by rewrite plug_app, <-Heq|]. split.
    + rewrite walk_mk, Hw. simpl. f_equal. rewrite <-app_assoc. f_equal.
      clear -d. induction k as [|[d' c' p' u' s'] k IH]; [|rewrite <-app_comm_cons, !rest_frame].
      * simpl. rewrite rest_frame, decide_True by done. destruct d; simpl; by rewrite app_nil_r.
      * destruct (decide (d' = d)); rewrite <-IH; simpl; by rewrite <-?app_assoc.
    + intros h k0 fuel Hrep Hfuel. destruct fuel as [|fuel]; [lia|]. cbn [Extreme_loop]. rewrite root_mk.
      rewrite (rep_load h k0 d c _ p u s) by done. cbn [mbind result_bind].
      destruct (child_node d u (above k0) (root (Branch c' l' p' u' r')) (root s) c) as (-> & _).
      pose proof (rep_not_null h (Frame d c p u s :: k0) L c' l' p' u' r' Hrep) as Hp'. cbn [root].
      rewrite (proj2 (Z.eqb_neq _ _) Hp'). cbn [negb]. apply (Hloop h (Frame d c p u s :: k0)); [done|lia].
Qed.

(** ** The specifications *)

Lemma Extreme_loop_spec d h k t : rep h (plug k t) -> t <> Leaf ->
  Extreme_loop d (node_bound h) h (root t) = Ok (first (walk d t)).
Proof.
  intros Hrep Ht. destruct (extreme_spec d t Ht) as (k' & c & x & u & s & _ & -> & Hloop).
  apply (Hloop h k); [done|]. pose proof (rep_bound h k t Hrep). lia.
Qed.

Lemma Ascend_loop_spec d fuel h k t : rep h (plug k t) -> t <> Leaf -> (length k < fuel)%nat ->
  Ascend_loop d fuel h (root t) (above k) = Ok (first (rest d k)).
Proof.
  revert k t. induction fuel as [|fuel IH]; intros k t Hrep Ht Hfuel; [lia|]. cbn [Ascend_loop].
  destruct k as [|[d' c p u s] k]; [by destruct d|]. cbn [above plug length] in *. rewrite rest_frame.
  pose proof (rep_not_null h k d' c t p u s Hrep) as Hp. rewrite (proj2 (Z.eqb_neq _ _) Hp).
  rewrite (rep_load h k d' c t p u s Hrep). cbn [mbind result_bind].
  assert (Hw : wf (mk d' c t p u s)) by apply (rep_focus h k _ Hrep).
  destruct (roots_differ _ _ _ _ _ _ Hw Ht) as [Hne _]. destruct (decide (d' = d)) as [->|Hd].
  - destruct (child_node d u (above k) (root t) (root s) c) as (_ & -> & _).
    by rewrite (proj2 (Z.eqb_neq _ _) Hne).
  - assert (d' = other d) as -> by (by destruct d, d').
    destruct (child_node (other d) u (above k) (root t) (root s) c) as (-> & _ & -> & _). rewrite Z.eqb_refl.
    pose proof (IH k (mk (other d) c t p u s) Hrep) as Ha. rewrite root_mk in Ha. apply Ha; [by destruct d|lia].
Qed.

Lemma Advance_spec d h k c t p u s : rep h (plug k (mk d c t p u s)) ->
  Advance d h p = Ok (first (walk d s ++ rest d k)).
Proof.
  intros Hrep. unfold Advance. pose proof (rep_not_null h k d c t p u s Hrep) as Hp.
  rewrite (proj2 (Z.eqb_neq _ _) Hp), (rep_load h k d c t p u s Hrep). cbn [mbind result_bind].
  destruct (child_node d u (above k) (root t) (root s) c) as (_ & -> & -> & _). destruct s as [|c' l q v r].
  - cbn [root]. rewrite Z.eqb_refl. cbn [negb].
    pose proof (Ascend_loop_spec d (node_bound h) h k (mk d c t p u Leaf) Hrep) as Ha. rewrite root_mk in Ha.
    rewrite Ha; [by destruct d|by destruct d|]. pose proof (rep_bound h k _ Hrep). lia.
  - set (s := Branch c' l q v r) in *. rewrite <-(mk_other d) in Hrep.
    assert (Hs : root s <> NULL) by apply (rep_not_null h (Frame (other d) c p u t :: k) L c' l q v r Hrep).
    rewrite (proj2 (Z.eqb_neq _ _) Hs). cbn [negb].
    rewrite (Extreme_loop_spec d h (Frame (other d) c p u t :: k) s) by done.
    destruct (extreme_spec d s ltac:(done)) as (? & ? & ? & ? & ? & _ & -> & _). done.
Qed.

(** The next element of a walk. *)
Lemma Advance_walk d h T l1 p u l2 : rep h T -> walk d T = l1 ++ (p, u) :: l2 -> Advance d h p = Ok (first l2).
Proof.
  intros Hrep Hw. assert (Hin : (p, u) ∈ inorder T).
  { assert (Hin : (p, u) ∈ walk d T) by (rewrite Hw; apply elem_of_app; right; left).
    destruct d; [done|]. cbn [walk] in Hin. by rewrite reverse_Permutation in Hin. }
  destruct (focus T p u Hin) as (k & c & l & r & ->). destruct (branch_mk d c l p u r) as (t & s & Heq & _). rewrite Heq in *.
  rewrite (Advance_spec d h k c t p u s Hrep). destruct (walk_plug d k (mk d c t p u s)) as [l0 Hl0].
  rewrite walk_mk in Hl0. rewrite <-app_assoc, app_assoc in Hl0. simpl in Hl0. rewrite Hw in Hl0.
  assert (Hnd : NoDup ((l1 ++ (p, u) :: l2).*1)).
  { rewrite <-Hw. destruct Hrep as [_ [Hnd _]]. destruct d; [done|]. cbn [walk].
    by rewrite reverse_Permutation. }
  rewrite fmap_app, fmap_cons in Hnd. by destruct (split_unique _ _ _ _ _ _ _ Hnd Hl0) as (_ & _ & ->).
Qed.

Lemma Find_loop_spec fuel f h k t : rep h (plug k t) -> guided f (inorder t) -> (height t < fuel)%nat ->
  Find_loop fuel f h (root t) = Ok (found f (inorder t)).
Proof.
  revert k t. induction fuel as [|fuel IH]; intros k t Hrep Hf Hfuel; [lia|]. cbn [Find_loop].
  destruct t as [|c l p u r]; [done|]. cbn [root].
  rewrite (proj2 (Z.eqb_neq _ _) (rep_not_null h k L c l p u r Hrep)), (rep_load h k L c l p u r Hrep).
  cbn [mbind result_bind node UserStruct Left Right]. cbn [inorder height] in *.
  destruct (found_mid f (inorder l) (p, u) (inorder r) Hf) as (H0 & Hneg & Hpos). cbn [snd fst] in *.
  apply StronglySorted_app in Hf as (_ & Hl & Hr). apply StronglySorted_cons in Hr as [_ Hr].
  destruct (Z.eqb_spec (f u) 0) as [Hz|Hz]; [by rewrite H0|]. destruct (Z.ltb_spec (f u) 0).
  - rewrite Hneg by done. apply (IH (Frame L c p u r :: k)); [done|done|lia].
  - rewrite Hpos by lia. apply (IH (Frame R c p u l :: k)); [done|done|lia].
Qed.
