(* ===== verification/RedBlackTreeInsert.v ===== *)
(** * Ordered collections: insertion

    The red-black properties of a tree and of a context, and that the loop of
    [OrderedCollectionInsert] restores them. *)

From stdpp Require Import sorting.
From S2P Require Import Prelude RedBlackTree RedBlackTreeRep.

(** ** Red-black trees *)

(** Properties #3 and #4: no red node has a red child, and every path to a leaf
    has [n] black nodes. *)
Fixpoint rb (t : tree) (n : nat) : Prop :=
  match t with
  | Leaf => n = 0%nat
  | Branch RedBlackTreeRed l _ _ r => (black l = true /\ rb l n) /\ (black r = true /\ rb r n)
  | Branch RedBlackTreeBlack l _ _ r => match n with O => False | S n => rb l n /\ rb r n end
  end.

(** Property #5 as well. *)
Definition redblack (t : tree) : Prop := black t = true /\ exists n, rb t n.

(** The hole is below a black node. *)
Definition black_above (k : context) : Prop :=
  match k with Frame _ RedBlackTreeBlack _ _ _ :: _ => True | _ => False end.

(** A context that makes a red-black tree of a black tree of height [n]. *)
Fixpoint rb_context (k : context) (n : nat) : Prop :=
  match k with
  | [] => True
  | Frame _ RedBlackTreeRed _ _ s :: k => (black s = true /\ rb s n) /\ black_above k /\ rb_context k n
  | Frame _ RedBlackTreeBlack _ _ s :: k => rb s n /\ rb_context k (S n)
  end.

Lemma rb_mk_red d t p u s n :
  rb (mk d RedBlackTreeRed t p u s) n <-> (black t = true /\ rb t n) /\ (black s = true /\ rb s n).
Proof. destruct d; simpl; tauto. Qed.

Lemma rb_mk_black d t p u s n : rb (mk d RedBlackTreeBlack t p u s) (S n) <-> rb t n /\ rb s n.
Proof. destruct d; simpl; tauto. Qed.

Lemma rb_mk_black_inv d t p u s n : rb (mk d RedBlackTreeBlack t p u s) n -> exists m, n = S m /\ rb t m /\ rb s m.
Proof. intros Hn. destruct n as [|n]; [by destruct d|]. apply rb_mk_black in Hn. by exists n. Qed.

Lemma black_mk d c t p u s : black (mk d c t p u s) = bool_decide (c = RedBlackTreeBlack).
Proof. by destruct d, c. Qed.

Lemma rb_plug k t n : rb t n -> rb_context k n -> black t = true \/ black_above k -> redblack (plug k t).
Proof.
  revert t n. induction k as [|[d c p u s] k IH]; intros t n Ht Hk Hb; simpl in *.
  - split; [|by exists n]. by destruct Hb.
  - destruct c; simpl in Hb.
    + destruct Hk as (Hs & Hab & Hk). apply (IH _ n); [|done|by right]. apply rb_mk_red. split; [|done]. split; [|done]. by destruct Hb.
    + destruct Hk as (Hs & Hk). apply (IH _ (S n)); [by apply rb_mk_black|done|]. left. by rewrite black_mk.
Qed.

Lemma rb_unplug k t : redblack (plug k t) -> exists n, rb t n /\ rb_context k n /\ (black t = true \/ black_above k).
Proof.
  revert t. induction k as [|[d c p u s] k IH]; intros t; simpl; [intros [Hb [n Hn]]; exists n; auto|].
  intros (n & Ht & Hk & Hb)%IH. rewrite black_mk in Hb. destruct c.
  - apply rb_mk_red in Ht as [[Hbt Ht] Hs]. exists n. destruct Hb as [Hb|Hb]; [by apply bool_decide_eq_true in Hb|]. auto.
  - apply rb_mk_black_inv in Ht as (m & -> & Ht & Hs). exists m. split; [done|]. split; [done|]. by right.
Qed.

Lemma rb_blacken t n : rb t n -> redblack (paint RedBlackTreeBlack t).
Proof.
  destruct t as [|[] l p u r]; simpl; intros Ht; (split; [done|]).
  - by exists 0%nat.
  - exists (S n). simpl. tauto.
  - by exists n.
Qed.

(** ** One pass of the loop *)

(** [InsertFixup_left] ([L]) and [InsertFixup_right] ([R]). *)
Definition InsertFixup (d : side) (h : nodes) (Tmp Parent' GrandParent NewRoot : ptr) : result (nodes * ptr * ptr * ptr) :=
  let! g := load h GrandParent in
  let Uncle := child (other d) g in
  let! black := NodeIsNullOrBlack h Uncle in
  if negb black then
    let! h := set_Color h Parent' RedBlackTreeBlack in
    let! h := set_Color h Uncle RedBlackTreeBlack in
    let! h := set_Color h GrandParent RedBlackTreeRed in
    let! t := load h GrandParent in
    Ok (h, GrandParent, Parent t, NewRoot)
  else
    let! p := load h Parent' in
    let! (h, Tmp, Parent', NewRoot) :=
      if Tmp =? child (other d) p then
        let Tmp := Parent' in
        let! (h, NewRoot) := Rotate d h Tmp NewRoot in
        let! t := load h Tmp in
        let Parent' := Parent t in
        let! p := load h Parent' in
        do! ASSERT (GrandParent =? Parent p) ;;
        Ok (h, Tmp, Parent', NewRoot)
      else Ok (h, Tmp, Parent', NewRoot) in
    let! h := set_Color h Parent' RedBlackTreeBlack in
    let! h := set_Color h GrandParent RedBlackTreeRed in
    let! (h, NewRoot) := Rotate (other d) h GrandParent NewRoot in
    Ok (h, Tmp, Parent', NewRoot).

Lemma InsertFixup_left_eq h t p g x : InsertFixup_left h t p g x = InsertFixup L h t p g x.
Proof. done. Qed.

Lemma InsertFixup_right_eq h t p g x : InsertFixup_right h t p g x = InsertFixup R h t p g x.
Proof. done. Qed.

(** What a pass leads to: a red tree of the right height in a smaller
    context. *)
Definition fixed_up (h : nodes) (T : tree) (n : nat) (res : result (nodes * ptr * ptr * ptr)) : Prop :=
  exists h' t k m, res = Ok (h', root t, above k, root (plug k t)) /\ rewritten h T h' (plug k t) /\
    black t = false /\ rb t m /\ rb_context k m /\ (length k < n)%nat.

Lemma fixed_up_trans h T h1 T1 n res : rewritten h T h1 T1 -> fixed_up h1 T1 n res -> fixed_up h T n res.
Proof.
  intros H1 (h' & t & k & m & Heq & H2 & Hrest). exists h', t, k, m. split; [done|]. split; [|done].
  by eapply rewritten_trans.
Qed.

(** The uncle is black, and [Tmp] is the outer grandchild. *)
Lemma InsertFixup_outer d h k t q v s g w un n :
  let T := plug k (mk d RedBlackTreeBlack (mk d RedBlackTreeRed t q v s) g w un) in
  rep h T -> black t = false -> rb t n -> rb s n -> black s = true -> rb un n -> black un = true -> rb_context k (S n) ->
  fixed_up h T (S (S (length k)))
    (let! h := set_Color h q RedBlackTreeBlack in
     let! h := set_Color h g RedBlackTreeRed in
     let! (h, NewRoot) := Rotate (other d) h g (root T) in
     Ok (h, root t, q, NewRoot)).
Proof.
  intros T Hrep Hbt Ht Hs Hbs Hun Hbun Hk.
  destruct (color_spec h (Frame d RedBlackTreeBlack g w un :: k) d RedBlackTreeRed t q v s RedBlackTreeBlack Hrep) as (h1 & -> & H1).
  cbn [mbind result_bind plug] in *.
  destruct (color_spec h1 k d _ _ g w un RedBlackTreeRed (rw_rep _ _ _ _ H1)) as (h2 & -> & H2). cbn [mbind result_bind].
  pose proof (rewritten_trans _ _ _ _ _ _ H1 H2) as H12. clear H1 H2.
  destruct (rotate_other_spec d h2 k _ t g w un _ q v s (root T) (rw_rep _ _ _ _ H12)) as (h3 & -> & H3).
  { apply root_plug. intros _. by rewrite !root_mk. }
  cbn [mbind result_bind]. pose proof (rewritten_trans _ _ _ _ _ _ H12 H3) as H. clear H12 H3.
  exists h3, t, (Frame d RedBlackTreeBlack q v (mk d RedBlackTreeRed s g w un) :: k), n.
  split; [done|]. split; [done|]. split; [done|]. split; [done|]. split; [|simpl; lia].
  simpl. rewrite rb_mk_red. auto.
Qed.

(** The uncle is black. *)
Lemma InsertFixup_black d d' h k t q v s g w un n :
  let T := plug k (mk d RedBlackTreeBlack (mk d' RedBlackTreeRed t q v s) g w un) in
  rep h T -> black t = false -> rb t n -> rb s n -> black s = true -> rb un n -> black un = true -> rb_context k (S n) ->
  fixed_up h T (S (S (length k))) (InsertFixup d h (root t) q g (root T)).
Proof.
  intros T Hrep Hbt Ht Hs Hbs Hun Hbun Hk. unfold InsertFixup. unfold T in Hrep.
  rewrite (rep_load h k d _ _ g w un) by done. cbn [mbind result_bind].
  destruct (child_node d w (above k) (root (mk d' RedBlackTreeRed t q v s)) (root un) RedBlackTreeBlack) as (_ & -> & _).
  rewrite (black_spec h (Frame (other d) RedBlackTreeBlack g w (mk d' RedBlackTreeRed t q v s) :: k) un)
    by (simpl; by rewrite mk_other).
  rewrite Hbun. cbn [mbind result_bind negb].
  set (k1 := Frame d RedBlackTreeBlack g w un :: k).
  rewrite (rep_load h k1 d' RedBlackTreeRed t q v s) by done. cbn [mbind result_bind].
  assert (Hw : wf (mk d' RedBlackTreeRed t q v s)) by apply (rep_focus h k1 _ Hrep).
  assert (Htl : t <> Leaf) by (by intros ->). destruct (roots_differ _ _ _ _ _ _ Hw Htl) as [Hrs _].
  destruct (decide (d' = d)) as [->|Hd].
  - destruct (child_node d v (above k1) (root t) (root s) RedBlackTreeRed) as (_ & -> & _).
    rewrite (proj2 (Z.eqb_neq (root t) (root s))) by done.
    by apply (InsertFixup_outer d h k t q v s g w un n).
  - assert (d' = other d) as -> by (by destruct d, d').
    destruct (child_node (other d) v (above k1) (root t) (root s) RedBlackTreeRed) as (-> & _).
    rewrite Z.eqb_refl.
    assert (exists m p u b, t = mk d RedBlackTreeRed m p u b) as (m & p & u & b & ->).
    { destruct t as [|[] l p u r]; try done. destruct d; [by exists l, p, u, r|by exists r, p, u, l]. }
    rewrite mk_other in Hrep, Hw.
    destruct (rotate_spec d h k1 _ s q v _ m p u b (root T) Hrep) as (h1 & -> & H1).
    { unfold T. by rewrite mk_other. }
    cbn [mbind result_bind]. unfold rotated in *. cbn [plug k1] in *.
    rewrite (rep_load h1 (Frame d RedBlackTreeRed p u b :: k1) d _ s q v m) by apply H1. cbn [mbind result_bind].
    destruct (child_node d v (above (Frame d RedBlackTreeRed p u b :: k1)) (root s) (root m) RedBlackTreeRed) as (_ & _ & -> & _).
    cbn [above]. rewrite (rep_load h1 k1 d _ _ p u b) by apply H1. cbn [mbind result_bind].
    destruct (child_node d u (above k1) (root (mk d RedBlackTreeRed s q v m)) (root b) RedBlackTreeRed) as (_ & _ & -> & _).
    unfold k1 at 1. cbn [above]. rewrite Z.eqb_refl. cbn [ASSERT mbind result_bind].
    apply rb_mk_red in Ht as [[Hbm Hm] [Hbb Hb]].
    eapply fixed_up_trans; [unfold T; rewrite mk_other; exact H1|].
    pose proof (InsertFixup_outer d h1 k (mk d RedBlackTreeRed s q v m) p u b g w un n) as Houter.
    rewrite (root_mk d _ s) in Houter. apply Houter; try done; [apply H1|by rewrite black_mk|by apply rb_mk_red].
Qed.

(** The uncle is red: the black of the grandparent moves down. *)
Lemma InsertFixup_red d d' h k t q v s g w un n :
  let T := plug k (mk d RedBlackTreeBlack (mk d' RedBlackTreeRed t q v s) g w un) in
  rep h T -> black t = false -> rb t n -> rb s n -> black s = true -> rb un n -> black un = false -> rb_context k (S n) ->
  fixed_up h T (S (S (length k))) (InsertFixup d h (root t) q g (root T)).
Proof.
  intros T Hrep Hbt Ht Hs Hbs Hun Hbun Hk. unfold InsertFixup. unfold T in Hrep.
  set (k1 := Frame d RedBlackTreeBlack g w un :: k) in *.
  rewrite (rep_load h k d _ _ g w un) by done. cbn [mbind result_bind].
  destruct (child_node d w (above k) (root (mk d' RedBlackTreeRed t q v s)) (root un) RedBlackTreeBlack) as (_ & -> & _).
  rewrite (black_spec h (Frame (other d) RedBlackTreeBlack g w (mk d' RedBlackTreeRed t q v s) :: k) un)
    by (simpl; by rewrite mk_other).
  rewrite Hbun. cbn [mbind result_bind negb].
  destruct (color_spec h k1 d' RedBlackTreeRed t q v s RedBlackTreeBlack Hrep) as (h1 & -> & H1). cbn [mbind result_bind].
  unfold k1 in H1. cbn [plug] in H1. rewrite <-(mk_other d _ (mk d' RedBlackTreeBlack _ _ _ _)) in H1.
  destruct (paint_spec h1 (Frame (other d) RedBlackTreeBlack g w (mk d' RedBlackTreeBlack t q v s) :: k) un RedBlackTreeBlack)
    as (h2 & -> & H2); [apply H1|by intros ->|]. cbn [mbind result_bind plug] in *. rewrite mk_other in H1.
  rewrite !mk_other in H2. pose proof (rewritten_trans _ _ _ _ _ _ H1 H2) as H12. clear H1 H2.
  destruct (color_spec h2 k d _ _ g w _ RedBlackTreeRed (rw_rep _ _ _ _ H12)) as (h3 & -> & H3). cbn [mbind result_bind].
  pose proof (rewritten_trans _ _ _ _ _ _ H12 H3) as H. clear H12 H3.
  rewrite (rep_load h3 k d RedBlackTreeRed _ g w (paint RedBlackTreeBlack un)) by apply H. cbn [mbind result_bind].
  destruct (child_node d w (above k) (root (mk d' RedBlackTreeBlack t q v s)) (root (paint RedBlackTreeBlack un)) RedBlackTreeRed)
    as (_ & _ & -> & _).
  exists h3, (mk d RedBlackTreeRed (mk d' RedBlackTreeBlack t q v s) g w (paint RedBlackTreeBlack un)), k, (S n).
  rewrite root_mk. split; [|split; [done|]].
  - do 2 f_equal. apply root_plug. intros _. by rewrite !root_mk.
  - rewrite black_mk. split; [done|]. split; [|split; [done|lia]]. apply rb_mk_red. rewrite black_mk.
    split; [split; [done|by apply rb_mk_black]|]. destruct un as [|[] l p u r]; try done. simpl in *. tauto.
Qed.

(** ** The loop *)

Lemma InsertFixup_loop_spec fuel h t k n :
  rep h (plug k t) -> black t = false -> rb t n -> rb_context k n -> (length k < fuel)%nat ->
  exists h' T', InsertFixup_loop fuel h (root t) (above k) (root (plug k t)) = Ok (h', root T') /\
    rewritten h (plug k t) h' T' /\ exists m, rb T' m.
Proof.
  revert h t k n. induction fuel as [|fuel IH]; intros h t k n Hrep Hbt Ht Hk Hfuel; [lia|]. cbn [InsertFixup_loop].
  destruct k as [|[d' c q v s] k].
  { simpl. rewrite Z.eqb_refl. exists h, t. split; [done|]. split; [by apply rewritten_refl|by exists n]. }
  pose proof (rep_focus h _ _ Hrep) as (_ & _ & _ & _ & _ & Hd).
  rewrite (proj2 (Z.eqb_neq _ _)).
  2: { intros Heq. apply (Hd (root t)); [apply root_inside; by intros ->|]. rewrite Heq. by apply root_around. }
  cbn [above plug] in *. rewrite (rep_load h k d' c t q v s) by done. cbn [mbind result_bind].
  destruct (child_node d' v (above k) (root t) (root s) c) as (_ & _ & -> & -> & _).
  destruct c; [|exists h, (plug k (mk d' RedBlackTreeBlack t q v s)); split; [done|]; split; [by apply rewritten_refl|]].
  2: { cbn [rb_context] in Hk. destruct Hk as [Hs Hk]. apply (rb_plug k _ (S n)); [by apply rb_mk_black|done|]. left. by rewrite black_mk. }
  cbn [rb_context] in Hk. destruct Hk as ([Hbs Hs] & Hab & Hk). rewrite bool_decide_true by done. cbn [negb].
  destruct k as [|[d [] g w un] k]; try done. destruct Hk as [Hun Hk]. cbn [above plug length] in *.
  rewrite (rep_load h k d _ _ g w un) by done. cbn [mbind result_bind]. rewrite root_mk.
  assert (Hw : wf (mk d RedBlackTreeBlack (mk d' RedBlackTreeRed t q v s) g w un)) by apply (rep_focus h k _ Hrep).
  destruct (roots_differ _ _ _ _ _ _ Hw) as [Hne _]; [by destruct d'|]. rewrite root_mk in Hne.
  assert (Hstep : fixed_up h (plug k (mk d RedBlackTreeBlack (mk d' RedBlackTreeRed t q v s) g w un)) (S (S (length k)))
    (if q =? Left (node d w (above k) q (root un) RedBlackTreeBlack)
     then InsertFixup_left h (root t) q g (root (plug k (mk d RedBlackTreeBlack (mk d' RedBlackTreeRed t q v s) g w un)))
     else InsertFixup_right h (root t) q g (root (plug k (mk d RedBlackTreeBlack (mk d' RedBlackTreeRed t q v s) g w un))))).
  { destruct d; cbn [node Left]; [rewrite Z.eqb_refl|rewrite (proj2 (Z.eqb_neq _ _)) by done];
      rewrite ?InsertFixup_left_eq, ?InsertFixup_right_eq;
      (destruct (black un) eqn:Hbun; [by apply (InsertFixup_black _ d' h k t q v s g w un n)|by apply (InsertFixup_red _ d' h k t q v s g w un n)]). }
  destruct Hstep as (h1 & t1 & k1 & m & -> & H1 & Hbt1 & Ht1 & Hk1 & Hlen). cbn [mbind result_bind].
  destruct (IH h1 t1 k1 m) as (h2 & T2 & -> & H2 & Hm); [apply H1|done|done|done|lia|].
  exists h2, T2. split; [done|]. split; [by eapply rewritten_trans|done].
Qed.

(** ** Where the new node goes *)

(** The hole is where the comparison [f] leads to, and [r] is its last
    result. *)
Record reached (f : Z -> Z) (k : context) (r : Z) : Prop := {
  reached_last : match k with
    | [] => True
    | Frame d _ _ v _ :: _ => r = f v /\ match d with L => f v < 0 | R => 0 < f v end
    end;
  reached_before : forall x, x ∈ before k -> 0 < f x.2;
  reached_after : forall x, x ∈ after k -> f x.2 < 0 }.

Lemma reached_left f k r c l p v s : reached f k r -> guided f (inorder l ++ (p, v) :: inorder s) -> f v < 0 ->
  reached f (Frame L c p v s :: k) (f v).
Proof.
  intros [_ Hb Ha] (_ & _ & [Hs _]%StronglySorted_cons)%StronglySorted_app Hv. rewrite Forall_forall in Hs.
  split; [done|done|]. intros x. simpl. rewrite elem_of_cons, elem_of_app. intros [->|[Hx|Hx]]; [done| |by apply Ha].
  specialize (Hs x Hx). simpl in Hs. lia.
Qed.

Lemma reached_right f k r c l p v s : reached f k r -> guided f (inorder l ++ (p, v) :: inorder s) -> 0 < f v ->
  reached f (Frame R c p v l :: k) (f v).
Proof.
  intros [_ Hb Ha] (Hl & _ & _)%StronglySorted_app Hv. split; [done| |done].
  intros x. simpl. rewrite !elem_of_app, list_elem_of_singleton. intros [Hx|[Hx| ->]]; [by apply Hb| |done].
  specialize (Hl x (p, v) Hx (list_elem_of_here _ _)). simpl in Hl. lia.
Qed.

Lemma Insert_loop_spec fuel f h k t r : rep h (plug k t) -> guided f (inorder t) -> (height t < fuel)%nat -> reached f k r ->
  (exists par r', found f (inorder t) <> NULL /\
     Insert_loop fuel f h (root t) (above k) r = Ok (found f (inorder t), par, r')) \/
  (exists k' r', found f (inorder t) = NULL /\ Insert_loop fuel f h (root t) (above k) r = Ok (NULL, above k', r') /\
     plug k' Leaf = plug k t /\ reached f k' r').
Proof.
  revert k t r. induction fuel as [|fuel IH]; intros k t r Hrep Hf Hfuel Hk; [lia|]. cbn [Insert_loop].
  destruct t as [|c l p u s]; [right; by exists k, r|]. cbn [root].
  pose proof (rep_not_null h k L c l p u s Hrep) as Hp.
  rewrite (proj2 (Z.eqb_neq _ _) Hp), (rep_load h k L c l p u s Hrep).
  cbn [mbind result_bind node UserStruct Left Right]. cbn [inorder height] in *.
  destruct (found_mid f (inorder l) (p, u) (inorder s) Hf) as (H0 & Hneg & Hpos). cbn [snd fst] in *.
  pose proof Hf as (_ & Hl & Hs)%StronglySorted_app. apply StronglySorted_cons in Hs as [_ Hs].
  destruct (Z.eqb_spec (f u) 0) as [Hz|Hz].
  - left. exists (above k), (f u). by rewrite (H0 Hz).
  - destruct (Z.ltb_spec (f u) 0).
    + rewrite Hneg by done. apply (IH (Frame L c p u s :: k)); [done|done|lia|by eapply reached_left].
    + rewrite Hpos by lia. apply (IH (Frame R c p u l :: k)); [done|done|lia|]. eapply reached_right; [done|done|lia].
Qed.

(** ** Linking it *)

Definition new_leaf (x u : Z) : tree := Branch RedBlackTreeRed Leaf x u Leaf.

Lemma fresh_addrs h t x : rep h t -> h !! x = None -> x ∉ addrs t.
Proof.
  intros [Ht _]. revert Ht. generalize NULL as par. induction t as [|c l IHl p u r IHr]; intros par Ht Hx; [by intros ?%elem_of_nil|].
  destruct Ht as (Hp & Hl & Hr). intros [Hin|[->|Hin]]%(elem_of_mk _ L); [by apply (IHl p)|congruence|by apply (IHr p)].
Qed.

Lemma link_spec f h d c p v s k r x u : let k' := Frame d c p v s :: k in
  rep h (plug k' Leaf) -> reached f k' r -> h !! x = None -> x <> NULL ->
  exists h', (let h := <[x := MkNode u p NULL NULL RedBlackTreeRed]> h in if r <? 0 then set_Left h p x else set_Right h p x) = Ok h' /\
    rep h' (plug k' (new_leaf x u)) /\ (forall y, y <> x -> y ∉ addrs (plug k' Leaf) -> h' !! y = h !! y).
Proof.
  intros k' Hrep [[-> Hd] _ _] Hx Hxn. pose proof (fresh_addrs h _ x Hrep Hx) as Hxa. pose proof Hrep as [Ht Hw].
  apply tree_at_plug in Ht as (_ & Hp & Hs & Hk). rewrite elem_of_plug in Hxa. unfold k' in Hxa. rewrite elem_of_around in Hxa.
  pose proof (wf_plug _ _ (proj2 Hrep : wf (plug k (mk d c Leaf p v s)))) as (Hwm & _ & _ & Hdk).
  pose proof (wf_mk _ _ _ _ _ _ Hwm) as (_ & _ & _ & _ & Hps & _). setoid_rewrite elem_of_mk in Hdk.
  assert (Hxp : x <> p) by (intros ->; tauto). set (h1 := <[x := _]> h).
  assert (Hp1 : h1 !! p = Some (node d v (above k) NULL (root s) c)) by (unfold h1; by rewrite lookup_insert_ne).
  assert (Hset : (if f v <? 0 then set_Left h1 p x else set_Right h1 p x) = Ok (<[p := node d v (above k) x (root s) c]> h1)).
  { destruct (set_child_node d h1 p x _ _ _ _ _ Hp1) as (<- & _). destruct d; [by rewrite (proj2 (Z.ltb_lt _ _))|].
    by rewrite (proj2 (Z.ltb_ge _ _)) by lia. }
  cbn zeta. rewrite Hset. eexists. split; [done|]. set (h2 := <[p := _]> h1).
  assert (Hh2 : forall y, y <> x -> y <> p -> h2 !! y = h !! y) by (intros y Hyx Hyp; unfold h2, h1; by rewrite !lookup_insert_ne).
  split; [split|].
  - apply tree_at_plug. simpl. split; [|split; [unfold h2; by rewrite lookup_insert_eq|split]].
    + split; [|done]. unfold h2, h1. by rewrite lookup_insert_ne, lookup_insert_eq by done.
    + eapply tree_at_frame; [|done]. intros y Hy. apply Hh2; intros ->; tauto.
    + eapply context_at_frame; [|done]. intros y Hy. apply Hh2; intros ->; [tauto|by apply (Hdk p); auto].
  - assert (Hperm : addrs (plug k' (new_leaf x u)) ≡ₚ x :: addrs (plug k' Leaf)) by (rewrite !addrs_plug; symmetry; apply Permutation_middle).
    destruct Hw as [Hnd Hn]. split; rewrite Hperm; [constructor; [|done]|rewrite elem_of_cons; by intros [?|?]].
    rewrite elem_of_plug. unfold k'. rewrite elem_of_around. tauto.
  - intros y Hyx Hy. apply Hh2; [done|]. intros ->. apply Hy, elem_of_plug. right. apply elem_of_around. auto.
Qed.

(** Inserting [x] with user structure [u] at the hole. *)
Lemma InsertNode_spec f h k r x u :
  rep h (plug k Leaf) -> redblack (plug k Leaf) -> reached f k r -> h !! x = None -> x <> NULL ->
  exists h' T', InsertNode h (root (plug k Leaf)) x (above k) r u = Ok (h', root T') /\ rep h' T' /\ redblack T' /\
    inorder T' = before k ++ (x, u) :: after k /\ (forall y, y <> x -> y ∉ addrs (plug k Leaf) -> h' !! y = h !! y).
Proof.
  intros Hrep Hrb Hr Hx Hxn. unfold InsertNode. destruct k as [|[d c p v s] k].
  - simpl. eexists _, (Branch RedBlackTreeBlack Leaf x u Leaf). split; [done|]. split; [|split; [split; [done|by exists 1%nat]|split; [done|]]].
    + split; [simpl; by rewrite lookup_insert_eq|]. split; [apply NoDup_singleton|]. by intros ?%list_elem_of_singleton.
    + intros y Hy _. by rewrite lookup_insert_ne.
  - set (k' := Frame d c p v s :: k) in *. assert (Hp : p <> NULL) by apply (rep_not_null h k d c Leaf p v s Hrep).
    change (above k') with p. rewrite (proj2 (Z.eqb_neq _ _) Hp).
    destruct (link_spec f h d c p v s k r x u Hrep Hr Hx Hxn) as (h1 & Heq & Hrep1 & Hrest1). cbn zeta in Heq. rewrite Heq. clear Heq.
    cbn [mbind result_bind]. destruct (rb_unplug k' Leaf Hrb) as (n & -> & Hk & _).
    destruct (InsertFixup_loop_spec (node_bound h1) h1 (new_leaf x u) k' 0) as (h2 & T2 & Hloop & H2 & m & Hm); [done..| |].
    { pose proof (rep_bound h1 k' _ Hrep1). lia. }
    assert (Hroot : root (plug k' (new_leaf x u)) = root (plug k' Leaf)).
    { apply root_plug. by intros [=]. }
    rewrite Hroot in Hloop. change (root (new_leaf x u)) with x in Hloop. change (above k') with p in Hloop. rewrite Hloop. cbn [mbind result_bind].
    assert (HT2 : T2 <> Leaf).
    { intros ->. pose proof (rw_inorder _ _ _ _ H2) as Hin. rewrite inorder_plug in Hin. simpl in Hin.
      symmetry in Hin. apply app_eq_nil in Hin as [_ [=]]. }
    destruct (paint_spec h2 [] T2 RedBlackTreeBlack) as (h3 & -> & H3); [apply H2|done|]. cbn [mbind result_bind plug] in *.
    pose proof (rewritten_trans _ _ _ _ _ _ H2 H3) as H. exists h3, (paint RedBlackTreeBlack T2).
    split; [by destruct T2|]. split; [apply H|]. split; [by eapply rb_blacken|]. split.
    + rewrite (rw_inorder _ _ _ _ H), inorder_plug. done.
    + intros y Hy Hyk. rewrite (rw_rest _ _ _ _ H); [by apply Hrest1|].
      rewrite elem_of_plug in Hyk |- *. unfold new_leaf, addrs. simpl. rewrite list_elem_of_singleton. tauto.
Qed.
