(* ===== verification/RedBlackTreeUnlink.v ===== *)
(** * Ordered collections: unlinking a node

    The first part of [OrderedCollectionDelete]: a node with at most one child
    is replaced by that child, another one by its successor.  The result is a
    tree with one node less, and the place where a black node may be
    missing. *)

From stdpp Require Import sorting.
From S2P Require Import Prelude RedBlackTree RedBlackTreeRep RedBlackTreeSearch.

(** [T'] is [T] without [p]; [h'] is [h] elsewhere. *)
Record without (h : nodes) (T : tree) (p : ptr) (h' : nodes) (T' : tree) : Prop := {
  wo_rep : rep h' T';
  wo_inorder : exists l1 u l2, inorder T = l1 ++ (p, u) :: l2 /\ inorder T' = l1 ++ l2;
  wo_rest : forall x, x ∉ addrs T -> h' !! x = h !! x }.

(** Dropping an element keeps the nodes distinct. *)
Lemma wf_drop T T' l1 p u l2 : wf T -> inorder T = l1 ++ (p, u) :: l2 -> inorder T' = l1 ++ l2 ->
  wf T' /\ p ∉ addrs T' /\ p ∈ addrs T /\ (forall x, x ∈ addrs T' -> x ∈ addrs T).
Proof.
  intros [Hnd Hn] Heq Heq'. unfold wf, addrs in *. rewrite Heq, fmap_app, fmap_cons in Hnd, Hn. rewrite Heq', Heq, !fmap_app, fmap_cons.
  rewrite <-Permutation_middle in Hnd, Hn. apply NoDup_cons in Hnd as [Hp Hnd]. simpl in *.
  rewrite elem_of_cons in Hn. split; [split; [done|tauto]|]. split; [done|].
  setoid_rewrite elem_of_app. setoid_rewrite elem_of_cons. naive_solver.
Qed.

(** ** At most one child *)

Lemma Unlink_single_spec h k d c t p u NewRoot : let T := plug k (mk d c t p u Leaf) in
  rep h T -> NewRoot = root T ->
  exists h', (let! h1 := adopt h (root t) (above k) in
              let! (h1, NewRoot) := replace_child h1 (above k) p (root t) NewRoot in Ok (h1, NewRoot)) = Ok (h', root (plug k t)) /\
    without h T p (delete p h') (plug k t).
Proof.
  intros T Hrep ->. pose proof (rep_focus h k _ Hrep) as (Ht & Hk & Hw & _ & _ & Hd).
  apply tree_at_mk in Ht as (Hp & Ht & _). rewrite root_mk in Hk. setoid_rewrite elem_of_mk in Hd.
  pose proof (wf_mk _ _ _ _ _ _ Hw) as (Hwt & _ & Hpn & Hpt & _ & _).
  destruct (adopt_spec h p t (above k) Ht Hwt) as (h1 & -> & Ht1 & Hh1). cbn [mbind result_bind].
  assert (Hk1 : context_at h1 p k).
  { eapply context_at_frame; [|done]. intros x Hx. apply Hh1. intros Hxt. by apply (Hd x); [left|]. }
  destruct (replace_child_spec h1 k _ p (root t) (root T) Hk1 (proj2 Hrep) Hpn) as (h2 & -> & Hk2 & Hh2); [apply Hd; auto|].
  cbn [mbind result_bind]. exists h2. split.
  { f_equal. f_equal. unfold T. destruct k; [done|]. apply root_plug. by intros [=]. }
  assert (Hin : inorder T = (before k ++ match d with L => inorder t | R => [] end) ++ (p, u) :: match d with L => [] | R => inorder t end ++ after k).
  { unfold T. rewrite inorder_plug. destruct d; simpl; by rewrite ?app_nil_r, <-?app_assoc. }
  assert (Hin' : inorder (plug k t) = (before k ++ match d with L => inorder t | R => [] end) ++ match d with L => [] | R => inorder t end ++ after k).
  { rewrite inorder_plug. destruct d; simpl; by rewrite ?app_nil_r, <-?app_assoc. }
  destruct (wf_drop T _ _ p u _ (proj2 Hrep) Hin Hin') as (Hw' & Hp' & _ & _). rewrite elem_of_plug in Hp'.
  split; [split; [|done]|by exists (before k ++ match d with L => inorder t | R => [] end), u, (match d with L => [] | R => inorder t end ++ after k)|].
  - apply tree_at_plug. split.
    + eapply tree_at_frame; [|exact Ht1]. intros x Hx. rewrite lookup_delete_ne by (intros ->; tauto). apply Hh2, Hd. auto.
    + eapply context_at_frame; [|exact Hk2]. intros x Hx. by rewrite lookup_delete_ne by (intros ->; tauto).
  - intros x Hx. unfold T in Hx. rewrite elem_of_plug, elem_of_mk in Hx. rewrite lookup_delete_ne by (intros ->; tauto).
    rewrite Hh2, Hh1; tauto.
Qed.

(** ** The successor *)

(** A node without left child is taken out from under the node to whose left it
    hangs. *)
Lemma detach_spec h c q w s1 k cx x v s : let T := plug (Frame L c q w s1 :: k) (mk L cx Leaf x v s) in
  rep h T -> exists h', (let! h := set_Left h q (root s) in adopt h (root s) q) = Ok h' /\
    rep h' (plug (Frame L c q w s1 :: k) s) /\ h' !! x = h !! x /\ (forall y, y ∉ addrs T -> h' !! y = h !! y).
Proof.
  intros T Hrep. set (k' := Frame L c q w s1 :: k) in *. pose proof (rep_focus h k' _ Hrep) as (Ht & Hk & Hw & _ & _ & Hd).
  apply tree_at_mk in Ht as (Hx & _ & Hs). rewrite root_mk in Hk. setoid_rewrite elem_of_mk in Hd.
  pose proof (wf_mk _ _ _ _ _ _ Hw) as (_ & Hws & Hxn & _ & Hxs & _).
  destruct (set_hole_spec h L c q w s1 k _ x (root s) Hk (proj2 Hrep)) as (h1 & Heq & Hk1 & Hh1). cbn [set_child] in Heq. rewrite Heq.
  cbn [mbind result_bind]. assert (Hqk : q ∈ around k') by (apply elem_of_around; auto).
  destruct (adopt_spec h1 x s q) as (h2 & -> & Hs2 & Hh2); [|done|].
  { eapply tree_at_frame; [|exact Hs]. intros y Hy. apply Hh1. intros ->. apply (Hd q); auto. }
  exists h2. split; [done|].
  assert (Hin : inorder T = before k' ++ (x, v) :: (inorder s ++ after k')) by (unfold T; by rewrite inorder_plug).
  assert (Hin' : inorder (plug k' s) = before k' ++ (inorder s ++ after k')) by (by rewrite inorder_plug).
  split; [split; [|by eapply (wf_drop T), Hin'; [apply Hrep|exact Hin]]|split].
  - apply tree_at_plug. split; [done|]. eapply context_at_frame; [|exact Hk1]. intros y Hy. apply Hh2. intros Hys.
    apply (Hd y); auto.
  - rewrite Hh2 by done. apply Hh1. intros ->. apply (Hd q); auto.
  - intros y Hy. unfold T in Hy. rewrite elem_of_plug, elem_of_mk in Hy. rewrite Hh2 by tauto. apply Hh1. intros ->. tauto.
Qed.

(** The successor [x] of [p] is out of the right subtree [r], and is above what
    is left of it. *)
Record detached (h : nodes) k c l p u r (h1 : nodes) kr cx x v s : Prop := {
  dt_right : r = plug kr (mk L cx Leaf x v s);
  dt_before : before kr = [];
  dt_x : exists par lft, h1 !! x = Some (MkNode v par lft (root (plug kr s)) cx);
  dt_p : exists rgt, h1 !! p = Some (MkNode u (above k) (root l) rgt c);
  dt_r : tree_at h1 x (plug kr s);
  dt_l : tree_at h1 p l;
  dt_k : context_at h1 p k;
  dt_rest : forall y, y ∉ addrs (plug k (Branch c l p u r)) -> h1 !! y = h !! y }.

Lemma leftmost_focus r : r <> Leaf -> exists kr cx x v s, r = plug kr (mk L cx Leaf x v s) /\ before kr = [] /\
  forall h k fuel, rep h (plug k r) -> (height r <= fuel)%nat -> Leftmost_loop fuel h (root r) = Ok x.
Proof.
  intros Hr. destruct (extreme_spec L r Hr) as (kr & cx & x & v & s & Heq & Hw & Hloop).
  exists kr, cx, x, v, s. split; [done|]. split.
  - cbn [walk rest] in Hw. rewrite Heq, inorder_plug in Hw. simpl in Hw. apply (f_equal length) in Hw.
    rewrite !length_app in Hw. simpl in Hw. rewrite length_app in Hw. destruct (before kr); [done|simpl in Hw; lia].
  - intros h k fuel Hrep Hf. rewrite Leftmost_loop_eq. by apply (Hloop h k).
Qed.

Lemma Unlink_successor_spec h k c l p u r : rep h (plug k (Branch c l p u r)) -> r <> Leaf ->
  exists h1 kr cx x v s, Unlink_successor h (root r) = Ok (h1, x, root s, above (kr ++ Frame R c x v l :: k)) /\
    detached h k c l p u r h1 kr cx x v s.
Proof.
  intros Hrep Hr. destruct (rep_focus h k _ Hrep) as (Ht & Hk & _). destruct Ht as (Hp & Hl & Htr). cbn [root] in Hk.
  destruct r as [|c0 r1 q0 u0 r2]; [done|]. unfold Unlink_successor. cbn [root].
  set (k0 := Frame R c p u l :: k). rewrite (rep_load h k0 L c0 r1 q0 u0 r2 Hrep). cbn [mbind result_bind node Left Right].
  assert (r1 = Leaf \/ r1 <> Leaf) as [->|Hr1] by (destruct r1; [by left|by right]).
  - exists h, [], c0, q0, u0, r2. cbn [root]. rewrite Z.eqb_refl. split; [done|].
    destruct Htr as (Hx & _ & Hs). split; try done; [by eexists _, _|by eexists].
  - rewrite (proj2 (Z.eqb_neq _ _)).
    2: { destruct r1 as [|c' l' p' u' r']; [done|]. apply (rep_not_null h (Frame L c0 q0 u0 r2 :: k0) L c' l' p' u' r' Hrep). }
    destruct (leftmost_focus r1 Hr1) as (k1 & cx & x & v & s & Heq & Hb & Hloop).
    rewrite (Hloop h (Frame L c0 q0 u0 r2 :: k0)); [|exact Hrep|].
    2: { pose proof (rep_bound h (Frame L c0 q0 u0 r2 :: k0) r1 Hrep). lia. }
    cbn [mbind result_bind]. set (kr := k1 ++ [Frame L c0 q0 u0 r2]).
    assert (Hkr : plug kr (mk L cx Leaf x v s) = Branch c0 r1 q0 u0 r2) by (unfold kr; rewrite plug_app, <-Heq; done).
    assert (Hbk : before kr = []).
    { unfold kr. clear -Hb. induction k1 as [|[[] ? ? ? ?] k1 IH]; simpl in *; [done|by apply IH|].
      apply app_eq_nil in Hb as [_ Hb]. by apply app_eq_nil in Hb as [_ [=]]. }
    destruct kr as [|[[] c1 q w s1] k2] eqn:Ekr; [by destruct k1| |by simpl in Hbk; apply app_eq_nil in Hbk as [_ Hbk]; apply app_eq_nil in Hbk as [_ [=]]].
    assert (HT : plug k (Branch c l p u (Branch c0 r1 q0 u0 r2)) = plug (Frame L c1 q w s1 :: k2 ++ k0) (mk L cx Leaf x v s)).
    { change (Frame L c1 q w s1 :: k2 ++ k0) with ((Frame L c1 q w s1 :: k2) ++ k0). by rewrite plug_app, Hkr. }
    rewrite HT in Hrep. rewrite (rep_load h _ L cx Leaf x v s Hrep). cbn [mbind result_bind node Parent Right above].
    destruct (detach_spec h c1 q w s1 (k2 ++ k0) cx x v s Hrep) as (h2 & Hd & Hrep2 & Hx2 & Hh2).
    apply bind_Ok in Hd as (h' & -> & Had). cbn [mbind result_bind]. rewrite Had. cbn [mbind result_bind].
    assert (Hx : h !! x = Some (MkNode v q NULL (root s) cx)) by (by apply (rep_focus h (Frame L c1 q w s1 :: k2 ++ k0)) in Hrep as ((Hx & _) & _)).
    set (r' := plug (Frame L c1 q w s1 :: k2) s).
    assert (HT2 : plug (Frame L c1 q w s1 :: k2 ++ k0) s = plug k (Branch c l p u r')).
    { change (Frame L c1 q w s1 :: k2 ++ k0) with ((Frame L c1 q w s1 :: k2) ++ k0). by rewrite plug_app. }
    assert (Hx' : x ∉ addrs (plug (Frame L c1 q w s1 :: k2 ++ k0) s)).
    { eapply (wf_drop (plug (Frame L c1 q w s1 :: k2 ++ k0) (mk L cx Leaf x v s))); [apply Hrep|by rewrite inorder_plug|by rewrite inorder_plug]. }
    rewrite HT2 in Hrep2, Hx'. destruct (rep_focus h2 k _ Hrep2) as ((Hp2 & Hl2 & Hr2) & Hk2 & Hw2 & _). cbn [root] in Hk2.
    assert (Hroot : root r' = q0).
    { change q0 with (root (Branch c0 r1 q0 u0 r2)). rewrite <-Hkr. apply root_plug. intros [=]. }
    rewrite elem_of_plug in Hx'. pose proof (elem_of_mk x L c l p u r') as Hxm. cbn [mk] in Hxm. rewrite Hxm in Hx'. clear Hxm.
    unfold set_Right at 1, load. rewrite Hx2, Hx. cbn [mbind result_bind deref UserStruct Parent Left Right Color].
    set (h3 := <[x := _]> h2). pose proof (wf_mk L c l p u r' Hw2) as (Hwl & Hwr & _ & Hpl & Hpr & Hlr).
    destruct (adopt_spec h3 p r' x) as (h4 & Had4 & Hr4 & Hh4); [|done|].
    { eapply tree_at_frame; [|exact Hr2]. intros y Hy. apply lookup_insert_ne. intros ->. tauto. }
    assert (Hq0 : adopt h3 (root r') x = set_Parent h3 q0 x).
    { unfold adopt. rewrite Hroot. rewrite (proj2 (Z.eqb_neq q0 NULL)); [done|]. rewrite <-Hroot. intros Hn.
      apply (proj2 Hwr). rewrite <-Hn. apply root_inside. unfold r'. simpl. clear. intros Hn.
      apply (f_equal (length ∘ inorder)) in Hn. simpl in Hn. rewrite inorder_plug, !length_app in Hn. simpl in Hn. rewrite length_app in Hn. simpl in Hn. lia. }
    rewrite <-Hq0, Had4. cbn [mbind result_bind].
    exists h4, (Frame L c1 q w s1 :: k2), cx, x, v, s. split; [done|].
    assert (Hh4' : forall y, y <> x -> y ∉ addrs r' -> h4 !! y = h2 !! y).
    { intros y Hyx Hyr. rewrite Hh4 by done. by apply lookup_insert_ne. }
    split; [by rewrite <-Hkr|done| | |done| | |].
    + eexists q, NULL. rewrite Hh4 by tauto. unfold h3. rewrite lookup_insert_eq. fold r'. by rewrite Hroot.
    + eexists. rewrite Hh4'; [exact Hp2|intros ->; tauto|done].
    + eapply tree_at_frame; [|exact Hl2]. intros y Hy. apply Hh4'; [intros ->; tauto|by apply Hlr].
    + eapply context_at_frame; [|exact Hk2]. intros y Hy. apply Hh4'; [intros ->; tauto|]. intros Hyr.
      apply (proj2 (proj2 (proj2 (wf_plug k _ (proj2 Hrep2))))) with y; [|done]. apply (elem_of_mk y L). auto.
    + intros y Hy. rewrite Hh4', Hh2; [done|by rewrite <-HT| |].
      * intros ->. apply Hy. rewrite HT. apply elem_of_plug. left. apply elem_of_mk. auto.
      * intros Hyr. apply Hy. rewrite HT. change (Frame L c1 q w s1 :: k2 ++ k0) with ((Frame L c1 q w s1 :: k2) ++ k0).
        rewrite plug_app. apply elem_of_plug. left. unfold r' in Hyr. apply elem_of_plug in Hyr. rewrite elem_of_plug, elem_of_mk. tauto.
Qed.

(** It takes the place of [p]. *)
Lemma Unlink_double_spec h k c l p u r NewRoot : let T := plug k (Branch c l p u r) in
  rep h T -> NewRoot = root T -> l <> Leaf -> r <> Leaf ->
  exists kr cx x v s h', r = plug kr (mk L cx Leaf x v s) /\ let k' := kr ++ Frame R c x v l :: k in
    Unlink_double h p (root l) (root r) (above k) NewRoot = Ok (h', root s, above k', cx, root (plug k' s)) /\
    without h T p (delete p h') (plug k' s).
Proof.
  intros T Hrep -> Hl Hr. unfold Unlink_double.
  destruct (Unlink_successor_spec h k c l p u r Hrep Hr) as (h1 & kr & cx & x & v & s & -> & D).
  cbn [mbind result_bind]. destruct D as [Heq Hb (par & lft & Hx) (rgt & Hp) Htr Htl Htk Hrest].
  pose proof (rep_focus h k _ Hrep) as (_ & _ & Hw & _ & _ & Hd). change (Branch c l p u r) with (mk L c l p u r) in *.
  setoid_rewrite elem_of_mk in Hd. pose proof (wf_mk L c l p u r Hw) as (Hwl & Hwr & Hpn & Hpl & Hpr & Hlr).
  set (r' := plug kr s) in *. exists kr, cx, x, v, s. cbn zeta.
  assert (HT' : plug (kr ++ Frame R c x v l :: k) s = plug k (Branch c l x v r')) by (by rewrite plug_app).
  assert (Hr1 : inorder r = (x, v) :: inorder r').
  { rewrite Heq. unfold r'. by rewrite !inorder_plug, Hb. }
  assert (Hxr : x ∈ addrs r /\ x ∉ addrs r' /\ forall y, y ∈ addrs r' -> y ∈ addrs r).
  { destruct (wf_drop r r' [] x v (inorder r') Hwr) as (_ & ? & ? & ?); done. }
  destruct Hxr as (Hxr & Hxr' & Hrr).
  assert (Hxp : x <> p) by (intros ->; done). assert (Hxl : x ∉ addrs l) by (intros Hxl; by apply (Hlr x)).
  assert (Hxk : x ∉ around k) by (apply Hd; auto). assert (Hpk : p ∉ around k) by (apply Hd; auto).
  change (MkNode v par lft (root r') cx) with (node L v par lft (root r') cx) in Hx.
  destruct (set_child_node L h1 x (root l) _ _ _ _ _ Hx) as (Hset & _). cbn [set_child] in Hset. rewrite Hset. clear Hset.
  cbn [mbind result_bind]. set (h2 := <[x := _]> h1). destruct (adopt_spec h2 p l x) as (h3 & Had & Hl3 & Hh3); [|done|].
  { eapply tree_at_frame; [|exact Htl]. intros y Hy. apply lookup_insert_ne. by intros ->. }
  assert (Hln : root l <> NULL) by (intros Hn; apply (proj2 Hwl); rewrite <-Hn; by apply root_inside).
  unfold adopt in Had. rewrite (proj2 (Z.eqb_neq _ _) Hln) in Had. cbn [negb] in Had. rewrite Had. cbn [mbind result_bind].
  assert (Hh3' : forall y, y <> x -> y ∉ addrs l -> h3 !! y = h1 !! y).
  { intros y Hyx Hyl. rewrite Hh3 by done. by apply lookup_insert_ne. }
  assert (Hx3 : h3 !! x = Some (node L v par (root l) (root r') cx)) by (rewrite Hh3 by done; unfold h2; by rewrite lookup_insert_eq).
  rewrite (load_node _ _ _ Hx3). cbn [mbind result_bind Color node].
  rewrite (load_node h3 p (MkNode u (above k) (root l) rgt c)) by (rewrite Hh3' by congruence; done). cbn [mbind result_bind Color].
  rewrite (set_Color_node L h3 x _ _ _ _ _ c Hx3). cbn [mbind result_bind]. set (h4 := <[x := _]> h3).
  assert (Hx4 : h4 !! x = Some (node L v par (root l) (root r') c)) by apply lookup_insert_eq.
  destruct (set_child_node L h4 x (above k) _ _ _ _ _ Hx4) as (_ & _ & ->). cbn [mbind result_bind]. set (h5 := <[x := _]> h4).
  assert (Hh5 : forall y, y <> x -> y ∉ addrs l -> h5 !! y = h1 !! y).
  { intros y Hyx Hyl. unfold h5, h4. rewrite !lookup_insert_ne by done. by apply Hh3'. }
  destruct (replace_child_spec h5 k (mk L c l p u r) p x (root T)) as (h6 & -> & Hk6 & Hh6); [|apply (proj2 Hrep)|done|done|].
  { eapply context_at_frame; [|exact Htk]. intros y Hy. apply Hh5; [by intros ->|]. intros Hyl. by apply (Hd y); [left|]. }
  cbn [mbind result_bind]. rewrite HT'.
  assert (Hroot : match k with [] => x | _ => root T end = root (plug k (Branch c l x v r'))).
  { unfold T. destruct k; [done|]. apply root_plug. by intros [=]. }
  rewrite Hroot. exists h6. split; [done|]. split; [reflexivity|].
  assert (Hin : inorder T = (before k ++ inorder l) ++ (p, u) :: (inorder r ++ after k)).
  { unfold T. rewrite inorder_plug. simpl. by rewrite <-!app_assoc. }
  assert (Hin' : inorder (plug k (Branch c l x v r')) = (before k ++ inorder l) ++ (inorder r ++ after k)).
  { rewrite inorder_plug, Hr1. simpl. by rewrite <-!app_assoc. }
  destruct (wf_drop T _ _ p u _ (proj2 Hrep) Hin Hin') as (Hw' & Hp' & _ & _).
  split; [split; [|done]|by exists (before k ++ inorder l), u, (inorder r ++ after k)|].
  - apply tree_at_plug. cbn [tree_at root]. split; [split; [|split]|].
    + rewrite lookup_delete_ne by done. rewrite Hh6 by done. apply lookup_insert_eq.
    + eapply tree_at_frame; [|exact Hl3]. intros y Hy. rewrite lookup_delete_ne by (intros ->; done). rewrite Hh6 by (apply Hd; auto).
      unfold h5, h4. rewrite !lookup_insert_ne by (intros ->; done). done.
    + eapply tree_at_frame; [|exact Htr]. intros y Hy. assert (y <> p) by (intros ->; apply Hpr; auto).
      rewrite lookup_delete_ne by congruence. rewrite Hh6 by (apply Hd; auto). apply Hh5; [by intros ->|].
      intros Hyl. apply (Hlr y); auto.
    + eapply context_at_frame; [|exact Hk6]. intros y Hy. rewrite lookup_delete_ne by (intros ->; done). done.
  - intros y Hy. pose proof Hy as Hy'. unfold T in Hy. change (Branch c l p u r) with (mk L c l p u r) in Hy.
    rewrite elem_of_plug, elem_of_mk in Hy. rewrite lookup_delete_ne by (intros ->; tauto).
    rewrite Hh6 by tauto. rewrite Hh5; [by apply Hrest|intros ->; tauto|tauto].
Qed.
