(* ===== verification/RedBlackTreeDelete.v ===== *)
(** * Ordered collections: deletion

    Unlinking a node keeps the other elements in order; the loop of
    [OrderedCollectionDelete] restores the red-black properties. *)

From stdpp Require Import sorting.
From S2P Require Import Prelude RedBlackTree RedBlackTreeRep RedBlackTreeSearch RedBlackTreeInsert RedBlackTreeUnlink.

(** ** One pass of the loop *)

(** [DeleteFixup_left] ([L]) and [DeleteFixup_right] ([R]), once the sibling is
    black, and as a whole.  The near nephew is on the side of the child. *)
Definition DeleteFixup_rest (d : side) (h : nodes) (Parent' Sibling NewRoot : ptr) : result (nodes * ptr * ptr * ptr) :=
  let! s := load h Sibling in
  do! ASSERT (bool_decide (Color s = RedBlackTreeBlack)) ;;
  let Near := child d s in
  let Far := child (other d) s in
  let! NearBlack := NodeIsNullOrBlack h Near in
  let! FarBlack := NodeIsNullOrBlack h Far in
  if NearBlack && FarBlack then
    let! h := set_Color h Sibling RedBlackTreeRed in
    let! p := load h Parent' in
    Ok (h, Parent', Parent p, NewRoot)
  else
    let! (h, Sibling, Far, NewRoot) :=
      if FarBlack : bool then
        let! h := set_Color h Near RedBlackTreeBlack in
        let! h := set_Color h Sibling RedBlackTreeRed in
        let! (h, NewRoot) := Rotate (other d) h Sibling NewRoot in
        let! p := load h Parent' in
        let Sibling := child (other d) p in
        let! s := load h Sibling in
        Ok (h, Sibling, child (other d) s, NewRoot)
      else Ok (h, Sibling, Far, NewRoot) in
    do! ASSERT (negb (Far =? NULL)) ;;
    let! n := load h Far in
    do! ASSERT (bool_decide (Color n = RedBlackTreeRed)) ;;
    do! ASSERT (negb (Sibling =? NULL)) ;;
    let! s := load h Sibling in
    do! ASSERT (bool_decide (Color s = RedBlackTreeBlack)) ;;
    let! p := load h Parent' in
    let! h := set_Color h Sibling (Color p) in
    let! h := set_Color h Parent' RedBlackTreeBlack in
    let! h := set_Color h Far RedBlackTreeBlack in
    let! (h, NewRoot) := Rotate d h Parent' NewRoot in
    Ok (h, NewRoot, Parent', NewRoot).

Definition DeleteFixup (d : side) (h : nodes) (Parent' NewRoot : ptr) : result (nodes * ptr * ptr * ptr) :=
  let! p := load h Parent' in
  let Sibling := child (other d) p in
  do! ASSERT (negb (Sibling =? NULL)) ;;
  let! s := load h Sibling in
  let! (h, Sibling, NewRoot) :=
    if bool_decide (Color s = RedBlackTreeRed) then
      let! h := set_Color h Sibling RedBlackTreeBlack in
      let! h := set_Color h Parent' RedBlackTreeRed in
      let! (h, NewRoot) := Rotate d h Parent' NewRoot in
      let! p := load h Parent' in
      let Sibling := child (other d) p in
      do! ASSERT (negb (Sibling =? NULL)) ;;
      Ok (h, Sibling, NewRoot)
    else Ok (h, Sibling, NewRoot) in
  DeleteFixup_rest d h Parent' Sibling NewRoot.

Lemma DeleteFixup_left_eq h p x : DeleteFixup_left h p x = DeleteFixup L h p x.
Proof. done. Qed.

Lemma DeleteFixup_right_eq h p x : DeleteFixup_right h p x = DeleteFixup R h p x.
Proof. done. Qed.

(** A tree that has one black node too few on every path, [n] instead of
    [S n]; if its root is red, it will be painted black. *)
Definition short (t : tree) (n : nat) : Prop :=
  if black t then rb t n else rb (paint RedBlackTreeBlack t) (S n).

(** What a pass leads to. *)
Definition passed_on (h : nodes) (T : tree) (n : nat) (res : result (nodes * ptr * ptr * ptr)) : Prop :=
  exists h' t k par m, res = Ok (h', root t, par, root (plug k t)) /\ rewritten h T h' (plug k t) /\
    (k <> [] -> par = above k) /\ short t m /\ rb_context k (S m) /\ (black t = true -> (length k < n)%nat).

Lemma passed_on_trans h T h1 T1 n res : rewritten h T h1 T1 -> passed_on h1 T1 n res -> passed_on h T n res.
Proof.
  intros H1 (h' & t & k & par & m & Heq & H2 & Hrest). exists h', t, k, par, m. split; [done|]. split; [|done].
  by eapply rewritten_trans.
Qed.

(** The sibling, seen from the hole. *)
Lemma focus_sibling d c t p u s k : plug (Frame d c p u s :: k) t = plug (Frame (other d) c p u t :: k) s.
Proof. simpl. by rewrite mk_other. Qed.

(** Both nephews are black: the sibling gives up its black. *)
Lemma steal_spec d h c t p u x q v y k n NewRoot : let T := plug (Frame d c p u (mk d RedBlackTreeBlack x q v y) :: k) t in
  rep h T -> NewRoot = root T -> black t = true -> rb t n -> rb x n -> rb y n -> black x = true -> black y = true ->
  (rb_context k (S (S n)) /\ c = RedBlackTreeBlack \/ rb_context k (S n) /\ c = RedBlackTreeRed) ->
  exists h' par, (let! h := set_Color h q RedBlackTreeRed in let! p' := load h p in Ok (h, p, Parent p', NewRoot)) =
      Ok (h', p, par, NewRoot) /\ exists t1 m, root t1 = p /\ NewRoot = root (plug k t1) /\ rewritten h T h' (plug k t1) /\ par = above k /\
    short t1 m /\ rb_context k (S m) /\ black t1 = bool_decide (c = RedBlackTreeBlack).
Proof.
  intros T Hrep -> Hbt Ht Hx Hy Hbx Hby Hk. unfold T in *. rewrite focus_sibling in Hrep |- *.
  destruct (color_spec h (Frame (other d) c p u t :: k) d _ x q v y RedBlackTreeRed Hrep) as (h1 & -> & H1).
  cbn [mbind result_bind]. rewrite <-focus_sibling in H1. rewrite <-focus_sibling in H1. rewrite <-focus_sibling.
  cbn [plug] in *. rewrite (rep_load h1 k d c t p u _ (rw_rep _ _ _ _ H1)). cbn [mbind result_bind].
  eexists h1, _. split; [done|]. exists (mk d c t p u (mk d RedBlackTreeRed x q v y)).
  destruct (child_node d u (above k) (root t) (root (mk d RedBlackTreeRed x q v y)) c) as (_ & _ & -> & _).
  assert (Hroot : root (plug k (mk d c t p u (mk d RedBlackTreeBlack x q v y))) = root (plug k (mk d c t p u (mk d RedBlackTreeRed x q v y)))).
  { apply root_plug. intros _. by rewrite !root_mk. }
  assert (Hs : rb (mk d RedBlackTreeRed x q v y) n) by (by apply rb_mk_red).
  exists (if decide (c = RedBlackTreeBlack) then S n else n). rewrite root_mk, black_mk. split; [done|]. split; [done|].
  split; [done|]. split; [done|]. unfold short. rewrite black_mk, paint_mk.
  destruct Hk as [[Hk ->]|[Hk ->]]; (split; [by apply rb_mk_black|done]).
Qed.

(** The far nephew is red: a rotation ends the loop. *)
Lemma flush_spec d h c t p u x q v y k n NewRoot : let T := plug (Frame d c p u (mk d RedBlackTreeBlack x q v y) :: k) t in
  rep h T -> NewRoot = root T -> black t = true -> rb t n -> rb x n -> rb y n -> black y = false ->
  (rb_context k (S (S n)) /\ c = RedBlackTreeBlack \/ rb_context k (S n) /\ c = RedBlackTreeRed /\ black_above k) ->
  passed_on h T 1
    (do! ASSERT (negb (root y =? NULL)) ;;
     let! n := load h (root y) in
     do! ASSERT (bool_decide (Color n = RedBlackTreeRed)) ;;
     do! ASSERT (negb (q =? NULL)) ;;
     let! s := load h q in
     do! ASSERT (bool_decide (Color s = RedBlackTreeBlack)) ;;
     let! p' := load h p in
     let! h := set_Color h q (Color p') in
     let! h := set_Color h p RedBlackTreeBlack in
     let! h := set_Color h (root y) RedBlackTreeBlack in
     let! (h, NewRoot) := Rotate d h p NewRoot in
     Ok (h, NewRoot, p, NewRoot)).
Proof.
  intros T Hrep -> Hbt Ht Hx Hy Hby Hk. unfold T in *. clear T.
  destruct y as [|[] yl yp yu yr]; try done. set (y := Branch RedBlackTreeRed yl yp yu yr) in *.
  assert (Hp := rep_load h k d c t p u (mk d RedBlackTreeBlack x q v y) Hrep).
  pose proof Hrep as Hq. rewrite focus_sibling in Hq. pose proof Hq as Hy'. cbn [plug] in Hy'. rewrite <-(mk_other d _ x q v y) in Hy'.
  rewrite (proj2 (Z.eqb_neq (root y) NULL)) by apply (rep_not_null h (Frame (other d) _ q v x :: Frame (other d) c p u t :: k) L _ yl yp yu yr Hy').
  cbn [ASSERT negb mbind result_bind]. change (load h (root y)) with (load h yp).
  rewrite (rep_load h (Frame (other d) _ q v x :: Frame (other d) c p u t :: k) L _ yl yp yu yr Hy').
  cbn [mbind result_bind node Color bool_decide decide_rel]. rewrite bool_decide_true by done. cbn [ASSERT mbind result_bind].
  rewrite (proj2 (Z.eqb_neq q NULL)) by apply (rep_not_null h (Frame (other d) c p u t :: k) d _ x q v y Hq).
  rewrite (rep_load h (Frame (other d) c p u t :: k) d _ x q v y Hq). cbn [ASSERT negb mbind result_bind].
  destruct (child_node d v (above (Frame (other d) c p u t :: k)) (root x) (root y) RedBlackTreeBlack) as (_ & _ & _ & -> & _).
  rewrite bool_decide_true by done. cbn [ASSERT mbind result_bind]. rewrite Hp. cbn [mbind result_bind].
  destruct (child_node d u (above k) (root t) (root (mk d RedBlackTreeBlack x q v y)) c) as (_ & _ & _ & -> & _).
  destruct (color_spec h (Frame (other d) c p u t :: k) d _ x q v y c Hq) as (h1 & -> & H1). cbn [mbind result_bind].
  rewrite <-!focus_sibling in H1. cbn [plug] in H1.
  destruct (color_spec h1 k d c t p u _ RedBlackTreeBlack (rw_rep _ _ _ _ H1)) as (h2 & -> & H2). cbn [mbind result_bind].
  pose proof (rewritten_trans _ _ _ _ _ _ H1 H2) as H12. clear H1 H2.
  destruct (paint_spec h2 (Frame (other d) c q v x :: Frame (other d) RedBlackTreeBlack p u t :: k) y RedBlackTreeBlack)
    as (h3 & -> & H3); [cbn [plug]; rewrite !mk_other; apply H12|done|]. cbn [mbind result_bind plug] in *. rewrite !mk_other in H3.
  pose proof (rewritten_trans _ _ _ _ _ _ H12 H3) as H. clear H12 H3.
  destruct (rotate_spec d h3 k RedBlackTreeBlack t p u c x q v (paint RedBlackTreeBlack y) (root (plug k (mk d c t p u (mk d RedBlackTreeBlack x q v y)))))
    as (h4 & -> & H4); [apply H|apply root_plug; intros _; by rewrite !root_mk|].
  cbn [mbind result_bind]. pose proof (rewritten_trans _ _ _ _ _ _ H H4) as Hrw. clear H H4. unfold rotated in *.
  set (T' := plug k (mk d c (mk d RedBlackTreeBlack t p u x) q v (paint RedBlackTreeBlack y))) in *.
  assert (Hy2 : rb (paint RedBlackTreeBlack y) (S n)) by (simpl in *; tauto).
  assert (Hrb : redblack T').
  { destruct Hk as [[Hk ->]|(Hk & -> & Hab)].
    - apply (rb_plug k _ (S (S n))); [apply rb_mk_black; by rewrite rb_mk_black|done|left; by rewrite black_mk].
    - apply (rb_plug k _ (S n)); [apply rb_mk_red; rewrite black_mk, rb_mk_black|done|by right]. done. }
  destruct Hrb as [Hb [m Hm]]. exists h4, T', [], p, m. split; [done|]. split; [done|]. split; [done|].
  unfold short. rewrite Hb. split; [done|]. split; [done|]. simpl. lia.
Qed.

Lemma passed_on_mono h T n m res : (n <= m)%nat -> passed_on h T n res -> passed_on h T m res.
Proof.
  intros Hle (h' & t & k & par & i & Heq & H1 & H2 & H3 & H4 & H5). exists h', t, k, par, i.
  do 5 (split; [done|]). intros Hb. specialize (H5 Hb). lia.
Qed.

Lemma DeleteFixup_rest_spec d h c t p u x q v y k n NewRoot : let T := plug (Frame d c p u (mk d RedBlackTreeBlack x q v y) :: k) t in
  rep h T -> NewRoot = root T -> black t = true -> rb t n -> rb x n -> rb y n ->
  (rb_context k (S (S n)) /\ c = RedBlackTreeBlack \/ rb_context k (S n) /\ c = RedBlackTreeRed /\ black_above k) ->
  passed_on h T (if decide (c = RedBlackTreeBlack) then S (length k) else 1) (DeleteFixup_rest d h p q NewRoot).
Proof.
  intros T Hrep HT Hbt Ht Hx Hy Hk. unfold DeleteFixup_rest. unfold T in *. clear T.
  pose proof Hrep as Hq. rewrite focus_sibling in Hq. set (ks := Frame (other d) c p u t :: k) in *.
  rewrite (rep_load h ks d _ x q v y Hq). cbn [mbind result_bind].
  destruct (child_node d v (above ks) (root x) (root y) RedBlackTreeBlack) as (-> & -> & _ & -> & _).
  rewrite bool_decide_true by done. cbn [ASSERT mbind result_bind].
  rewrite (black_spec h (Frame d RedBlackTreeBlack q v y :: ks) x) by done. cbn [mbind result_bind].
  rewrite (black_spec h (Frame (other d) RedBlackTreeBlack q v x :: ks) y) by (by rewrite <-focus_sibling).
  cbn [mbind result_bind]. destruct (black y) eqn:Hby; [destruct (black x) eqn:Hbx|rewrite andb_false_r]; cbn [andb].
  - destruct (steal_spec d h c t p u x q v y k n NewRoot) as (h' & par & -> & t1 & m & <- & -> & H1 & -> & Hs & Hm & Hb); try done; [tauto|].
    exists h', t1, k, (above k), m. do 5 (split; [done|]). rewrite Hb. destruct c; [done|intros _; simpl; lia].
  - destruct x as [|[] xl xp xu xr]; try done.
    assert (exists x1 w x2, Branch RedBlackTreeRed xl xp xu xr = mk d RedBlackTreeRed x1 xp w x2) as (x1 & w & x2 & Heq).
    { destruct d; [by exists xl, xu, xr|by exists xr, xu, xl]. }
    rewrite Heq in *. clear Heq Hbx xl xu xr. rewrite root_mk. apply rb_mk_red in Hx as [[Hb1 Hx1] [Hb2 Hx2]].
    destruct (color_spec h (Frame d RedBlackTreeBlack q v y :: ks) d _ x1 xp w x2 RedBlackTreeBlack Hq) as (h1 & -> & H1).
    cbn [mbind result_bind plug] in *.
    destruct (color_spec h1 ks d _ _ q v y RedBlackTreeRed (rw_rep _ _ _ _ H1)) as (h2 & -> & H2). cbn [mbind result_bind].
    pose proof (rewritten_trans _ _ _ _ _ _ H1 H2) as H12. clear H1 H2.
    destruct (rotate_other_spec d h2 ks _ x1 q v y _ xp w x2 NewRoot (rw_rep _ _ _ _ H12)) as (h3 & -> & H3).
    { rewrite HT. unfold ks. cbn [plug]. rewrite mk_other. apply root_plug. intros _. by rewrite !root_mk. }
    cbn [mbind result_bind]. pose proof (rewritten_trans _ _ _ _ _ _ H12 H3) as H. clear H12 H3.
    unfold ks in H. rewrite <-!focus_sibling in H. cbn [plug] in H.
    rewrite (rep_load h3 k d c t p u (mk d RedBlackTreeBlack x1 xp w (mk d RedBlackTreeRed x2 q v y))) by apply H. cbn [mbind result_bind].
    destruct (child_node d u (above k) (root t) (root (mk d RedBlackTreeBlack x1 xp w (mk d RedBlackTreeRed x2 q v y))) c) as (_ & -> & _).
    rewrite root_mk. rewrite (rep_load h3 ks d _ x1 xp w (mk d RedBlackTreeRed x2 q v y))
      by (unfold ks; rewrite <-focus_sibling; apply H).
    cbn [mbind result_bind].
    destruct (child_node d w (above ks) (root x1) (root (mk d RedBlackTreeRed x2 q v y)) RedBlackTreeBlack) as (_ & -> & _).
    eapply passed_on_trans; [exact H|]. eapply (passed_on_mono _ _ 1); [destruct (decide _); lia|].
    apply (flush_spec d h3 c t p u x1 xp w (mk d RedBlackTreeRed x2 q v y) k n); try done; [apply H| |apply rb_mk_red|]; try done.
    + unfold ks. cbn [plug]. rewrite mk_other. apply root_plug. intros _. by rewrite !root_mk.
    + by rewrite black_mk.
  - eapply (passed_on_mono _ _ 1); [destruct (decide _); lia|]. by apply (flush_spec d h c t p u x q v y k n).
Qed.

Lemma DeleteFixup_spec d h c t p u s k n NewRoot : let T := plug (Frame d c p u s :: k) t in
  rep h T -> NewRoot = root T -> black t = true -> rb t n -> rb_context (Frame d c p u s :: k) (S n) ->
  passed_on h T (S (length k)) (DeleteFixup d h p NewRoot).
Proof.
  intros T Hrep HT Hbt Ht Hk. unfold DeleteFixup. unfold T in *. clear T.
  rewrite (rep_load h k d c t p u s Hrep). cbn [mbind result_bind].
  destruct (child_node d u (above k) (root t) (root s) c) as (_ & -> & _).
  assert (Hs : rb s (S n)) by (destruct c; apply Hk). destruct s as [|cs sl q sv sr]; [done|].
  destruct (branch_mk d cs sl q sv sr) as (x & y & Heq & _). rewrite Heq in *. clear Heq sl sr. rename sv into v.
  pose proof Hrep as Hq. change (plug k (mk d c t p u (mk d cs x q v y))) with (plug (Frame d c p u (mk d cs x q v y) :: k) t) in Hq.
  rewrite focus_sibling in Hq. set (ks := Frame (other d) c p u t :: k) in *. rewrite root_mk.
  rewrite (proj2 (Z.eqb_neq q NULL)) by apply (rep_not_null h ks d cs x q v y Hq). cbn [negb ASSERT mbind result_bind].
  rewrite (rep_load h ks d cs x q v y Hq). cbn [mbind result_bind].
  destruct (child_node d v (above ks) (root x) (root y) cs) as (_ & _ & _ & -> & _). destruct cs.
  - destruct c; [by destruct Hk as [[Hbs _] _]; rewrite black_mk in Hbs|]. destruct Hk as [_ Hk].
    apply rb_mk_red in Hs as [[Hbx Hx] [Hby Hy]]. rewrite bool_decide_true by done.
    destruct (color_spec h ks d _ x q v y RedBlackTreeBlack Hq) as (h1 & -> & H1). cbn [mbind result_bind].
    unfold ks in H1. rewrite <-!focus_sibling in H1. cbn [plug] in H1.
    destruct (color_spec h1 k d _ t p u _ RedBlackTreeRed (rw_rep _ _ _ _ H1)) as (h2 & -> & H2). cbn [mbind result_bind].
    pose proof (rewritten_trans _ _ _ _ _ _ H1 H2) as H12. clear H1 H2.
    destruct (rotate_spec d h2 k _ t p u _ x q v y NewRoot (rw_rep _ _ _ _ H12)) as (h3 & -> & H3).
    { rewrite HT. cbn [plug]. apply root_plug. intros _. by rewrite !root_mk. }
    cbn [mbind result_bind]. pose proof (rewritten_trans _ _ _ _ _ _ H12 H3) as H. clear H12 H3. unfold rotated in *.
    set (k' := Frame d RedBlackTreeBlack q v y :: k).
    rewrite (rep_load h3 k' d _ t p u x) by apply H. cbn [mbind result_bind].
    destruct (child_node d u (above k') (root t) (root x) RedBlackTreeRed) as (_ & -> & _).
    destruct x as [|[] xl xq xv xr]; try done. destruct (branch_mk d RedBlackTreeBlack xl xq xv xr) as (x1 & x2 & Heq & _).
    rewrite Heq in *. clear Heq xl xr. apply rb_mk_black in Hx as [Hx1 Hx2]. rewrite root_mk.
    rewrite (proj2 (Z.eqb_neq xq NULL)).
    2: { apply (rep_not_null h3 (Frame (other d) RedBlackTreeRed p u t :: k') d RedBlackTreeBlack x1 xq xv x2).
         rewrite <-focus_sibling. apply H. }
    cbn [negb ASSERT mbind result_bind]. eapply passed_on_trans; [exact H|].
    eapply (passed_on_mono _ _ 1); [lia|].
    apply (DeleteFixup_rest_spec d h3 RedBlackTreeRed t p u x1 xq xv x2 k' n); try done; [apply H|]. right. simpl. auto.
  - rewrite bool_decide_false by done. cbn [mbind result_bind]. apply rb_mk_black in Hs as [Hx Hy].
    eapply passed_on_mono; [|apply (DeleteFixup_rest_spec d h c t p u x q v y k n); try done].
    + destruct (decide _); simpl; lia.
    + destruct c; [right|left]; destruct Hk as (_ & Hk); tauto.
Qed.

(** ** The loop *)

Lemma DeleteFixup_loop_spec fuel h t k par n NewRoot :
  rep h (plug k t) -> NewRoot = root (plug k t) -> (k <> [] -> par = above k) -> short t n -> rb_context k (S n) ->
  (0 < fuel)%nat -> (black t = true -> (length k < fuel)%nat) ->
  exists h' t' k' m, DeleteFixup_loop fuel h (root t) par NewRoot = Ok (h', root t', root (plug k' t')) /\
    rewritten h (plug k t) h' (plug k' t') /\ short t' m /\ rb_context k' (S m) /\ (k' = [] \/ black t' = false).
Proof.
  revert h t k par n NewRoot. induction fuel as [|fuel IH]; intros h t k par n NewRoot Hrep -> Hpar Hs Hk Hf Hfuel; [lia|].
  cbn [DeleteFixup_loop]. destruct k as [|[d c p u s] k].
  { simpl. rewrite Z.eqb_refl. exists h, t, [], n. split; [done|]. split; [by apply rewritten_refl|]. auto. }
  rewrite Hpar by done. set (k' := Frame d c p u s :: k) in *.
  pose proof (rep_focus h k' _ Hrep) as (_ & _ & _ & _ & Hn & Hd).
  rewrite (proj2 (Z.eqb_neq (root t) (root (plug k' t)))).
  2: { pose proof (root_around k' t ltac:(done)) as Hra. intros Heq. rewrite <-Heq in Hra.
       destruct (root_in t) as [Ht|Ht]; [by rewrite Ht in Hra|by apply (Hd (root t))]. }
  rewrite (black_spec h k' t Hrep). cbn [mbind result_bind]. destruct (black t) eqn:Hbt; cbn [negb].
  2: { exists h, t, k', n. split; [done|]. split; [by apply rewritten_refl|]. auto. }
  unfold short in Hs. rewrite Hbt in Hs. specialize (Hfuel eq_refl). cbn [above k'].
  rewrite (rep_load h k d c t p u s Hrep). cbn [mbind result_bind].
  assert (Hw : wf (mk d c t p u s)) by apply (rep_focus h k _ Hrep). rewrite <-mk_other in Hw.
  assert (Hss : rb s (S n)) by (destruct c; apply Hk).
  assert (Hsl : s <> Leaf) by (by intros ->). destruct (roots_differ _ _ _ _ _ _ Hw Hsl) as [Hne _].
  assert (Hstep : passed_on h (plug k' t) (S (length k))
    (if root t =? Left (node d u (above k) (root t) (root s) c) then DeleteFixup_left h p (root (plug k' t))
     else DeleteFixup_right h p (root (plug k' t)))).
  { destruct d; cbn [node Left]; [rewrite Z.eqb_refl, DeleteFixup_left_eq|rewrite (proj2 (Z.eqb_neq _ _)), DeleteFixup_right_eq by congruence];
      by apply (DeleteFixup_spec _ h c t p u s k n). }
  destruct Hstep as (h1 & t1 & k1 & par1 & m & -> & H1 & Hpar1 & Hs1 & Hk1 & Hlen). cbn [mbind result_bind].
  simpl in Hfuel.
  destruct (IH h1 t1 k1 par1 m (root (plug k1 t1))) as (h2 & t2 & k2 & i & -> & H2 & Hrest); try done; [apply H1|lia| |].
  { intros Hb. specialize (Hlen Hb). lia. }
  exists h2, t2, k2, i. split; [done|]. split; [by eapply rewritten_trans|done].
Qed.

(** Where the loop ends the missing black node is supplied. *)
Lemma supply_black h t k n : rep h (plug k t) -> short t n -> rb_context k (S n) -> k = [] \/ black t = false ->
  exists h', (if negb (root t =? NULL) then set_Color h (root t) RedBlackTreeBlack else Ok h) = Ok h' /\
    rewritten h (plug k t) h' (plug k (paint RedBlackTreeBlack t)) /\ redblack (plug k (paint RedBlackTreeBlack t)).
Proof.
  intros Hrep Hs Hk Hend.
  assert (Hrb : redblack (plug k (paint RedBlackTreeBlack t))).
  { unfold short in Hs. destruct (black t) eqn:Hb.
    - destruct Hend as [->|?]; [|done]. by apply (rb_blacken t n).
    - apply (rb_plug k _ (S n)); [done|done|left]. by destruct t. }
  destruct t as [|c l p u r]; [exists h; split; [done|]; split; [by apply rewritten_refl|done]|].
  rewrite (proj2 (Z.eqb_neq _ _)) by apply (rep_not_null h k L c l p u r Hrep). cbn [negb].
  destruct (paint_spec h k _ RedBlackTreeBlack Hrep) as (h' & -> & H); [done|]. by exists h'.
Qed.

(** ** Deleting a node *)

(** Unlinking leaves a tree that lacks at most a black node. *)
Definition unlinked (h : nodes) (T : tree) (p : ptr) (res : result (nodes * ptr * ptr * RED_BLACK_TREE_COLOR * ptr)) : Prop :=
  exists h' t k c, res = Ok (h', root t, above k, c, root (plug k t)) /\ without h T p (delete p h') (plug k t) /\
    match c with
    | RedBlackTreeRed => redblack (plug k t)
    | RedBlackTreeBlack => exists n, rb t n /\ rb_context k (S n)
    end.

Lemma short_rb t n : rb t n -> short t n.
Proof. unfold short. destruct t as [|[] l p u r]; simpl; try done. tauto. Qed.

(** The heights around a node with one child. *)
Lemma unlinked_heights k d c t p u : redblack (plug k (mk d c t p u Leaf)) ->
  match c with
  | RedBlackTreeRed => redblack (plug k t)
  | RedBlackTreeBlack => exists n, rb t n /\ rb_context k (S n)
  end.
Proof.
  intros (n & Ht & Hk & _)%rb_unplug. destruct c.
  - apply rb_mk_red in Ht as [[Hb Ht] _]. apply (rb_plug k t n); auto.
  - apply rb_mk_black_inv in Ht as (m & -> & Ht & _). by exists m.
Qed.

(** The red-black properties of a context do not depend on the elements. *)
Lemma relabel kr c l p u x v k t : redblack (plug (kr ++ Frame R c p u l :: k) t) -> redblack (plug (kr ++ Frame R c x v l :: k) t).
Proof.
  intros (n & Ht & Hk & Hb)%rb_unplug. apply (rb_plug _ _ n); [done| |destruct kr as [|[? [] ? ? ?] ?]; done]. clear Ht Hb t.
  revert n Hk. induction kr as [|[d' [] p' u' s'] kr IH]; intros n Hk; simpl in *; [done| |].
  - destruct Hk as (Hs & Hab & Hk). split; [done|]. split; [by destruct kr as [|[? [] ? ? ?] ?]|by apply IH].
  - destruct Hk as (Hs & Hk). split; [done|by apply IH].
Qed.

Lemma Unlink_spec h k c l p u r : let T := plug k (Branch c l p u r) in
  rep h T -> redblack T -> unlinked h T p (Unlink h p (root T)).
Proof.
  intros T Hrep Hrb. unfold Unlink. rewrite (rep_load h k L c l p u r Hrep). cbn [mbind result_bind node Left Right Parent].
  assert (Hsingle : forall d t, T = plug k (mk d c t p u Leaf) ->
    root t = (if negb (root l =? NULL) then root l else root r) -> unlinked h T p (Unlink_single h p (root l) (root r) (above k) (root T))).
  { intros d t HT Hroot. unfold Unlink_single. rewrite (rep_load h k L c l p u r Hrep). cbn [mbind result_bind node Color].
    rewrite <-Hroot. rewrite HT in Hrep, Hrb |- *.
    destruct (Unlink_single_spec h k d c t p u _ Hrep eq_refl) as (h' & Heq & Hwo).
    apply bind_Ok in Heq as (h1 & -> & Heq). cbn [mbind result_bind]. apply bind_Ok in Heq as ([h2 NR] & -> & Heq).
    cbn [mbind result_bind]. injection Heq as -> ->. exists h', t, k, c. split; [done|]. split; [done|]. by eapply unlinked_heights. }
  destruct l as [|cl ll pl ul rl]; [by apply (Hsingle R r)|]. set (l := Branch cl ll pl ul rl) in *.
  assert (Hl : root l <> NULL) by apply (rep_not_null h (Frame L c p u r :: k) L cl ll pl ul rl Hrep).
  rewrite (proj2 (Z.eqb_neq _ _) Hl) in *. cbn [orb negb] in *.
  destruct r as [|cr lr pr ur rr]; [by apply (Hsingle L l)|]. set (r := Branch cr lr pr ur rr) in *.
  assert (Hr : root r <> NULL) by apply (rep_not_null h (Frame R c p u l :: k) L cr lr pr ur rr Hrep).
  rewrite (proj2 (Z.eqb_neq _ _) Hr).
  destruct (Unlink_double_spec h k c l p u r (root T) Hrep eq_refl ltac:(done) ltac:(done)) as (kr & cx & x & v & s & h' & Heq & -> & Hwo).
  eexists h', s, _, cx. split; [done|]. split; [done|]. unfold T in Hrb. rewrite Heq in Hrb.
  change (plug k (Branch c l p u (plug kr (mk L cx Leaf x v s)))) with (plug (Frame R c p u l :: k) (plug kr (mk L cx Leaf x v s))) in Hrb.
  rewrite <-plug_app in Hrb. apply (relabel _ _ _ _ _ x v) in Hrb. change (mk L cx Leaf x v s) with (mk R cx s x v Leaf) in Hrb.
  by eapply unlinked_heights.
Qed.

Lemma DeleteNode_spec h k c l p u r : let T := plug k (Branch c l p u r) in
  rep h T -> redblack T -> exists h' T', DeleteNode h p (root T) = Ok (h', root T') /\
    rep h' T' /\ redblack T' /\ inorder T' = (before k ++ inorder l) ++ (inorder r ++ after k) /\
    h' !! p = None /\ (forall x, x ∉ addrs T -> h' !! x = h !! x).
Proof.
  intros T Hrep Hrb. unfold DeleteNode. destruct (Unlink_spec h k c l p u r Hrep Hrb) as (h1 & t & k1 & c1 & Heq & Hwo & Hc).
  fold T in Heq, Hwo. rewrite Heq. cbn [mbind result_bind].
  destruct Hwo as [Hrep1 (l1 & u' & l2 & Hin & Hin1) Hrest].
  assert (HT : inorder T = (before k ++ inorder l) ++ (p, u) :: (inorder r ++ after k)).
  { unfold T. rewrite inorder_plug. simpl. by rewrite <-!app_assoc. }
  destruct (wf_drop T _ l1 p u' l2 (proj2 Hrep) Hin Hin1) as (Hw1 & Hp1 & Hp & Hsub).
  assert (Hl : l1 ++ l2 = (before k ++ inorder l) ++ (inorder r ++ after k)).
  { rewrite HT in Hin. destruct Hrep as [_ [Hnd _]]. unfold addrs in Hnd. rewrite HT, fmap_app, fmap_cons in Hnd.
    by destruct (split_unique _ _ _ _ _ _ _ Hnd Hin) as (-> & _ & ->). }
  enough (exists h' T', (if bool_decide (c1 = RedBlackTreeBlack) then
      let! (h, Child, NewRoot) := DeleteFixup_loop (node_bound (delete p h1)) (delete p h1) (root t) (above k1) (root (plug k1 t)) in
      let! h := if negb (Child =? NULL) then set_Color h Child RedBlackTreeBlack else Ok h in Ok (h, NewRoot)
    else Ok (delete p h1, root (plug k1 t))) = Ok (h', root T') /\ rewritten (delete p h1) (plug k1 t) h' T' /\ redblack T') as (h' & T' & -> & Hrw & Hrb').
  { exists h', T'. split; [done|]. split; [apply Hrw|]. split; [done|]. split; [by rewrite (rw_inorder _ _ _ _ Hrw), Hin1|].
    split; [rewrite (rw_rest _ _ _ _ Hrw) by done; by rewrite lookup_delete_eq|].
    intros x Hx. rewrite (rw_rest _ _ _ _ Hrw) by (intros Hx'; by apply Hx, Hsub). by apply Hrest. }
  destruct c1; [rewrite bool_decide_false by done; eexists _, _; split; [done|]; split; [by apply rewritten_refl|done]|].
  rewrite bool_decide_true by done. destruct Hc as (n & Ht & Hk1).
  destruct (DeleteFixup_loop_spec (node_bound (delete p h1)) (delete p h1) t k1 (above k1) n _ Hrep1 eq_refl ltac:(done) (short_rb t n Ht) Hk1)
    as (h2 & t2 & k2 & m & -> & H2 & Hs2 & Hk2 & Hend); [unfold node_bound; lia|intros _; pose proof (rep_bound _ k1 t Hrep1); lia|].
  cbn [mbind result_bind]. destruct (supply_black h2 t2 k2 m (rw_rep _ _ _ _ H2) Hs2 Hk2 Hend) as (h3 & -> & H3 & Hrb3).
  cbn [mbind result_bind]. exists h3, (plug k2 (paint RedBlackTreeBlack t2)). split; [|split; [by eapply rewritten_trans|done]].
  do 2 f_equal. apply root_plug. intros _. by destruct t2.
Qed.
