(* ===== verification/RedBlackTreeValidate.v ===== *)
(** * Ordered collections: validation

    [RedBlackTreeValidate] passes exactly if the tree is a red-black tree whose
    elements ascend. *)

From stdpp Require Import sorting.
From S2P Require Import Prelude RedBlackTree RedBlackTreeRep RedBlackTreeSearch RedBlackTreeInsert.

(** ** The red-black properties *)

Lemma rb_height_bound t n : rb t n -> (n <= length (inorder t))%nat.
Proof.
  revert n. induction t as [|[] l IHl p u r IHr]; intros n; simpl; rewrite ?length_app; [lia| |]; simpl.
  - intros [[_ Hl%IHl] _]. lia.
  - destruct n as [|n]; [done|]. intros [Hl%IHl _]. lia.
Qed.

Lemma rb_unique t n m : rb t n -> rb t m -> n = m.
Proof.
  revert n m. induction t as [|[] l IHl p u r IHr]; intros n m; simpl; [congruence| |].
  - intros [[_ Hn] _] [[_ Hm] _]. by apply IHl.
  - destruct n, m; try done. intros [Hn _] [Hm _]. f_equal. by apply IHl.
Qed.

Lemma u32_height n m : Z.of_nat n < 2 ^ 32 - 1 -> Z.of_nat m < 2 ^ 32 - 1 ->
  u32 (1 + Z.of_nat n) = u32 (1 + Z.of_nat m) -> n = m.
Proof. intros Hn Hm. rewrite !wrap_small by lia. lia. Qed.

(** The check returns the black height of the parent of an exemplary tree, and
    accepts no other. *)
Lemma RecursiveCheck_spec fuel h k t : rep h (plug k t) -> (height t < fuel)%nat -> Z.of_nat (length (inorder t)) < 2 ^ 32 - 1 ->
  (exists n, rb t n /\ RedBlackTreeRecursiveCheck fuel h (root t) = Ok (u32 (1 + Z.of_nat n))) \/
  ((forall n, ~ rb t n) /\ RedBlackTreeRecursiveCheck fuel h (root t) = AssertFailed).
Proof.
  revert k t. induction fuel as [|fuel IH]; intros k t Hrep Hfuel Hlen; [lia|]. cbn [RedBlackTreeRecursiveCheck].
  destruct t as [|c l p u r]; [left; by exists 0%nat|]. cbn [root].
  rewrite (proj2 (Z.eqb_neq _ _) (rep_not_null h k L c l p u r Hrep)), (rep_load h k L c l p u r Hrep).
  cbn [mbind result_bind node UserStruct Left Right Color]. cbn [inorder height] in *. rewrite length_app in Hlen. simpl in Hlen.
  rewrite (black_spec h (Frame L c p u r :: k) l Hrep), (black_spec h (Frame R c p u l :: k) r Hrep).
  destruct (IH (Frame L c p u r :: k) l) as [(n & Hl & Hcl)|[Hl Hcl]]; [done|lia|lia| |]; rewrite Hcl; clear Hcl;
    (destruct (IH (Frame R c p u l :: k) r) as [(m & Hr & Hcr)|[Hr Hcr]]; [done|lia|lia| |]; rewrite Hcr; clear Hcr; cbn [mbind result_bind]).
  2-4: right; split; [intros i; destruct c; simpl; [|destruct i]; naive_solver|].
  - pose proof (rb_height_bound l n Hl). pose proof (rb_height_bound r m Hr). destruct (decide (n = m)) as [<-|Hne].
    + rewrite Z.eqb_refl. destruct c.
      * rewrite (bool_decide_true (RedBlackTreeRed = RedBlackTreeRed)), (bool_decide_false (RedBlackTreeRed = RedBlackTreeBlack)) by done. destruct (black l) eqn:Hbl, (black r) eqn:Hbr; cbn [ASSERT mbind result_bind].
        1: left; exists n; split; [by simpl; rewrite Hbl, Hbr|]; by rewrite Z.add_0_l, wrap_wrap by lia.
        all: right; split; [intros i [[? _] [? _]]; congruence|done].
      * rewrite (bool_decide_false (RedBlackTreeBlack = RedBlackTreeRed)), (bool_decide_true (RedBlackTreeBlack = RedBlackTreeBlack)) by done. left. exists (S n). split; [done|]. cbn [ASSERT mbind result_bind].
        rewrite (wrap_small 32 (1 + Z.of_nat n)) by lia. do 2 f_equal. lia.
    + assert (Hb : (u32 (1 + Z.of_nat n) =? u32 (1 + Z.of_nat m)) = false).
      { apply Z.eqb_neq. intros Heq. apply Hne. by apply u32_height in Heq; [|lia..]. }
      rewrite Hb. right. split; [|by destruct c, (black l), (black r)].
      intros i Hi. assert (exists j, rb l j /\ rb r j) as (j & Hlj & Hrj).
      { destruct c; simpl in Hi; [exists i; tauto|]. destruct i as [|i]; [done|]. by exists i. }
      apply Hne. by rewrite (rb_unique l n j Hl Hlj), (rb_unique r m j Hr Hrj).
  - by destruct c, (black l), (black r).
  - by destruct c, (black l), (black r).
  - by destruct c, (black l), (black r).
Qed.

(** ** The order *)

(** Each element compares as [d] demands with the next of the walk. *)
Definition in_order (d : side) (z : Z) : bool := match d with L => z <? 0 | R => z >? 0 end.

Fixpoint chain (d : side) (cmp : Z -> Z -> Z) (l : list (ptr * Z)) : bool :=
  match l with
  | a :: ((b :: _) as l') => in_order d (cmp a.2 b.2) && chain d cmp l'
  | _ => true
  end.

(** [Forward_loop] ([L]) and [Backward_loop] ([R]). *)
Fixpoint Order_loop (d : side) (fuel : nat) (Compare : Z -> Z -> Z) (h : nodes) (Last : ptr) (Count : Z) : result Z :=
  match fuel with
  | O => NoFuel
  | S fuel =>
      let! Node := Advance d h Last in
      if Node =? NULL then Ok Count else
      let! l := load h Last in
      let! n := load h Node in
      do! ASSERT (in_order d (Compare (UserStruct l) (UserStruct n))) ;;
      Order_loop d fuel Compare h Node (u32 (Count + 1))
  end.

Lemma Forward_loop_eq fuel cmp h p c : Forward_loop fuel cmp h p c = Order_loop L fuel cmp h p c.
Proof.
  revert p c. induction fuel as [|fuel IH]; intros p c; [done|]. cbn [Forward_loop Order_loop]. rewrite Next_eq.
  destruct (Advance L h p) as [q| | |]; [|done..]. cbn [mbind result_bind]. destruct (q =? NULL); [done|].
  destruct (load h p) as [n| | |]; [|done..]. destruct (load h q) as [m| | |]; [|done..]. cbn [mbind result_bind in_order].
  destruct (ASSERT _); [|done..]. apply IH.
Qed.

Lemma Backward_loop_eq fuel cmp h p c : Backward_loop fuel cmp h p c = Order_loop R fuel cmp h p c.
Proof.
  revert p c. induction fuel as [|fuel IH]; intros p c; [done|]. cbn [Backward_loop Order_loop]. rewrite Prev_eq.
  destruct (Advance R h p) as [q| | |]; [|done..]. cbn [mbind result_bind]. destruct (q =? NULL); [done|].
  destruct (load h p) as [n| | |]; [|done..]. destruct (load h q) as [m| | |]; [|done..]. cbn [mbind result_bind in_order].
  destruct (ASSERT _); [|done..]. apply IH.
Qed.

(** The node of an element of a walk. *)
Lemma walk_node d h T p u : rep h T -> (p, u) ∈ walk d T -> p <> NULL /\ exists n, load h p = Ok n /\ UserStruct n = u.
Proof.
  intros Hrep Hin. assert (Hin' : (p, u) ∈ inorder T) by (destruct d; [done|]; cbn [walk] in Hin; by rewrite reverse_Permutation in Hin).
  destruct (focus T p u Hin') as (k & c & l & r & ->). split; [by apply (rep_not_null h k L c l p u r)|].
  rewrite (rep_load h k L c l p u r Hrep). by eexists.
Qed.

Lemma Order_loop_spec d fuel cmp h T l1 p u l2 count : rep h T -> walk d T = l1 ++ (p, u) :: l2 -> (length l2 < fuel)%nat ->
  Order_loop d fuel cmp h p (u32 count) =
    if chain d cmp ((p, u) :: l2) then Ok (u32 (count + Z.of_nat (length l2))) else AssertFailed.
Proof.
  revert l1 p u l2 count. induction fuel as [|fuel IH]; intros l1 p u l2 count Hrep Hw Hfuel; [lia|]. cbn [Order_loop].
  rewrite (Advance_walk d h T l1 p u l2 Hrep Hw). cbn [mbind result_bind].
  destruct l2 as [|[q v] l2]; [simpl; by rewrite Z.add_0_r|]. cbn [first fst].
  assert (Hp : (p, u) ∈ walk d T) by (rewrite Hw, elem_of_app; right; left).
  assert (Hq : (q, v) ∈ walk d T) by (rewrite Hw, elem_of_app; right; right; left).
  destruct (walk_node d h T p u Hrep Hp) as (_ & np & Hnp & Hup). destruct (walk_node d h T q v Hrep Hq) as (Hqn & nq & Hnq & Huq).
  rewrite (proj2 (Z.eqb_neq _ _) Hqn), Hnp, Hnq. cbn [mbind result_bind].
  change (chain d cmp ((p, u) :: (q, v) :: l2)) with (in_order d (cmp u v) && chain d cmp ((q, v) :: l2)). rewrite Hup, Huq. destruct (in_order d (cmp u v)); [|done].
  cbn [ASSERT mbind result_bind andb].
  assert (Hu : u32 (u32 count + 1) = u32 (count + 1)) by (unfold wrap; by rewrite Zplus_mod_idemp_l).
  rewrite Hu, (IH (l1 ++ [(p, u)]) q v l2 (count + 1) Hrep); [|by rewrite Hw, <-app_assoc|simpl in *; lia].
  destruct (chain d cmp ((q, v) :: l2)); [|done]. do 2 f_equal. cbn [length]. lia.
Qed.

(** The elements ascend, from either end. *)
Definition ordered_both (cmp : Z -> Z -> Z) (t : tree) : bool := chain L cmp (walk L t) && chain R cmp (walk R t).

Lemma Extreme_walk d h T : rep h T -> T <> Leaf -> exists p u l, walk d T = (p, u) :: l /\ first (walk d T) = p.
Proof.
  intros _ HT. destruct (extreme_spec d T HT) as (k & c & x & u & s & _ & -> & _). by eexists _, _, _.
Qed.

Lemma walk_length d t : length (walk d t) = length (inorder t).
Proof. destruct d; [done|]. apply length_reverse. Qed.

Lemma Check_walk d cmp h T : rep h T -> let p := first (walk d T) in
  Order_loop d (node_bound h) cmp h p (if p =? NULL then 0 else 1) =
    if chain d cmp (walk d T) then Ok (u32 (Z.of_nat (length (inorder T)))) else AssertFailed.
Proof.
  intros Hrep p. unfold p. clear p. destruct T as [|c l q v r].
  { replace (walk d Leaf) with (@nil (ptr * Z)) by (by destruct d). by unfold node_bound. }
  destruct (Extreme_walk d h _ Hrep ltac:(done)) as (p & u & l' & Hw & ->). pose proof (walk_length d (Branch c l q v r)) as Hlen.
  assert (Hp : (p, u) ∈ walk d (Branch c l q v r)) by (rewrite Hw; left).
  destruct (walk_node d h _ p u Hrep Hp) as (Hn & _). rewrite (proj2 (Z.eqb_neq _ _) Hn). rewrite Hw in Hlen |- *. cbn [length] in Hlen.
  change 1 with (u32 1). rewrite (Order_loop_spec d (node_bound h) cmp h _ [] p u l' 1 Hrep Hw).
  2: { unfold node_bound. pose proof (rep_size h _ Hrep). lia. }
  rewrite <-Hlen. destruct (chain d cmp ((p, u) :: l')); [|done]. do 2 f_equal. lia.
Qed.

(** ** The whole validation *)

(** What [RedBlackTreeValidate] demands. *)
Definition valid_tree (cmp : Z -> Z -> Z) (t : tree) : Prop := redblack t /\ ordered_both cmp t = true.

Lemma Validate_steps s Tree T t : trees s !! Tree = Some T -> Root T = root t -> rep (tree_nodes s) t ->
  RedBlackTreeValidate s Tree =
    do! ASSERT (black t) ;;
    let! _ := RedBlackTreeRecursiveCheck (node_bound (tree_nodes s)) (tree_nodes s) (root t) in
    ASSERT (ordered_both (UserStructCompare T) t).
Proof.
  intros HT Hroot Hrep. unfold RedBlackTreeValidate, OrderedCollectionMin, OrderedCollectionMax, tree_of.
  rewrite HT. cbn [deref mbind result_bind]. rewrite Hroot.
  rewrite (black_spec (tree_nodes s) [] t Hrep). cbn [mbind result_bind]. destruct (black t); [|done].
  cbn [ASSERT mbind result_bind]. destruct (RedBlackTreeRecursiveCheck _ _ _) as [x| | |]; [|done..]. cbn [mbind result_bind].
  assert (Hend : forall d, (if root t =? NULL then Ok NULL else Extreme_loop d (node_bound (tree_nodes s)) (tree_nodes s) (root t)) =
    Ok (first (walk d t))).
  { intros d. destruct t as [|c l p u r]; [by destruct d|].
    rewrite (proj2 (Z.eqb_neq _ _)) by apply (rep_not_null (tree_nodes s) [] L c l p u r Hrep).
    by apply (Extreme_loop_spec d (tree_nodes s) []). }
  rewrite Leftmost_loop_eq, (Hend L). cbn [mbind result_bind]. rewrite Forward_loop_eq, (Check_walk L) by done.
  unfold ordered_both. destruct (chain L (UserStructCompare T) (walk L t)); [|done].
  cbn [mbind result_bind]. rewrite Rightmost_loop_eq, (Hend R). cbn [mbind result_bind]. rewrite Backward_loop_eq, (Check_walk R) by done.
  destruct (chain R (UserStructCompare T) (walk R t)); [|done]. cbn [mbind result_bind]. by rewrite Z.eqb_refl.
Qed.

Lemma Validate_spec s Tree T t : trees s !! Tree = Some T -> Root T = root t -> rep (tree_nodes s) t ->
  Z.of_nat (length (inorder t)) < 2 ^ 32 - 1 ->
  (valid_tree (UserStructCompare T) t /\ RedBlackTreeValidate s Tree = Ok tt) \/
  (~ valid_tree (UserStructCompare T) t /\ RedBlackTreeValidate s Tree = AssertFailed).
Proof.
  intros HT Hroot Hrep Hlen. rewrite (Validate_steps s Tree T t HT Hroot Hrep). unfold valid_tree, redblack.
  destruct (black t) eqn:Hb; [|right; split; [by intros [[? _] _]|done]]. cbn [ASSERT mbind result_bind].
  destruct (RecursiveCheck_spec (node_bound (tree_nodes s)) (tree_nodes s) [] t Hrep) as [(n & Hn & ->)|[Hn ->]];
    [pose proof (rep_bound (tree_nodes s) [] t Hrep); lia|done| |right; split; [by intros [[_ [i Hi]] _]; destruct (Hn i)|done]].
  cbn [mbind result_bind]. destruct (ordered_both _ _); [left|right; split; [by intros [_ ?]|done]].
  split; [|done]. split; [|done]. split; [done|by exists n].
Qed.

(** On a valid tree of any size the counts may wrap around, but agree. *)
Lemma RecursiveCheck_passes fuel h k t n : rep h (plug k t) -> (height t < fuel)%nat -> rb t n ->
  RedBlackTreeRecursiveCheck fuel h (root t) = Ok (u32 (1 + Z.of_nat n)).
Proof.
  revert k t n. induction fuel as [|fuel IH]; intros k t n Hrep Hfuel Hn; [lia|]. cbn [RedBlackTreeRecursiveCheck].
  destruct t as [|c l p u r]; [by rewrite Hn|]. cbn [root].
  rewrite (proj2 (Z.eqb_neq _ _) (rep_not_null h k L c l p u r Hrep)), (rep_load h k L c l p u r Hrep).
  cbn [mbind result_bind node UserStruct Left Right Color]. cbn [height] in Hfuel.
  rewrite (black_spec h (Frame L c p u r :: k) l Hrep), (black_spec h (Frame R c p u l :: k) r Hrep).
  assert (exists m, rb l m /\ rb r m) as (m & Hl & Hr).
  { destruct c; simpl in Hn; [exists n; tauto|]. destruct n as [|n]; [done|]. by exists n. }
  rewrite (IH (Frame L c p u r :: k) l m), (IH (Frame R c p u l :: k) r m) by (done || lia). cbn [mbind result_bind].
  rewrite Z.eqb_refl. destruct c; cbn [rb] in Hn.
  - destruct Hn as [[-> Hln] [-> _]]. rewrite (rb_unique l m n Hl Hln). cbn [ASSERT mbind result_bind].
    rewrite (bool_decide_true (RedBlackTreeRed = RedBlackTreeRed)), (bool_decide_false (RedBlackTreeRed = RedBlackTreeBlack)) by done.
    cbn [ASSERT mbind result_bind]. by rewrite Z.add_0_l, wrap_wrap by lia.
  - destruct n as [|n]; [done|]. destruct Hn as [Hln _]. rewrite (rb_unique l m n Hl Hln).
    rewrite (bool_decide_false (RedBlackTreeBlack = RedBlackTreeRed)), (bool_decide_true (RedBlackTreeBlack = RedBlackTreeBlack)) by done.
    cbn [ASSERT mbind result_bind]. f_equal. unfold wrap. rewrite Zplus_mod_idemp_r. f_equal. lia.
Qed.

Lemma Validate_passes s Tree T t : trees s !! Tree = Some T -> Root T = root t -> rep (tree_nodes s) t ->
  valid_tree (UserStructCompare T) t -> RedBlackTreeValidate s Tree = Ok tt.
Proof.
  intros HT Hroot Hrep [[Hb [n Hn]] Hord]. rewrite (Validate_steps s Tree T t HT Hroot Hrep), Hb. cbn [ASSERT mbind result_bind].
  rewrite (RecursiveCheck_passes _ _ [] t n Hrep); [by rewrite Hord| |done].
  pose proof (rep_bound (tree_nodes s) [] t Hrep). lia.
Qed.
