(* ===== verification/RedBlackTreeSpec.v ===== *)
(** * Ordered collections: the abstract specification

    A collection is a sorted list of nodes with their user structures.  The
    operations of OrderedCollectionLib are steps on such lists; a client is a
    program of operations that it may use. *)

From stdpp Require Import sorting.
From S2P Require Import Prelude RedBlackTree RedBlackTreeRep RedBlackTreeSearch RedBlackTreeInsert.

(** ** Comparison functions *)

(** [ORDERED_COLLECTION_USER_COMPARE]: it compares by a total order. *)
Class UserOrder (cmp : Z -> Z -> Z) : Prop := {
  order_sym : forall x y, Z.sgn (cmp y x) = - Z.sgn (cmp x y);
  order_trans : forall x y z, cmp x y < 0 -> cmp y z < 0 -> cmp x z < 0;
  order_eq : forall x y z, cmp x y = 0 -> Z.sgn (cmp x z) = Z.sgn (cmp y z) }.

(** [ORDERED_COLLECTION_KEY_COMPARE]: it compares keys by the same order. *)
Class KeyOrder (key cmp : Z -> Z -> Z) : Prop :=
  key_order : forall k x y, cmp x y < 0 -> 0 <= key k y -> 0 < key k x.

Definition sorted (cmp : Z -> Z -> Z) (l : list (ptr * Z)) : Prop := StronglySorted (fun a b => cmp a.2 b.2 < 0) l.

Section Order.
Context (cmp : Z -> Z -> Z) `{!UserOrder cmp}.

Lemma order_flip x y : cmp y x < 0 <-> 0 < cmp x y.
Proof. pose proof (order_sym x y) as Hs. rewrite <-Z.sgn_pos_iff, <-Z.sgn_neg_iff, Hs. lia. Qed.

Lemma order_refl x : cmp x x = 0.
Proof. pose proof (order_sym x x) as Hs. apply Z.sgn_null_iff. lia. Qed.

(** A structure compares with a sorted list as with a search key. *)
Lemma user_key : KeyOrder cmp cmp.
Proof.
  intros u x y Hxy Hy. destruct (decide (cmp u y = 0)) as [Hz|Hz].
  - pose proof (order_eq u y x Hz) as Hs. apply order_flip in Hxy as Hyx. apply Z.sgn_pos_iff. rewrite Hs.
    by apply Z.sgn_pos_iff.
  - apply order_flip. apply (order_trans x y u); [done|]. apply order_flip. lia.
Qed.
End Order.

Lemma sorted_guided key cmp k l : KeyOrder key cmp -> sorted cmp l -> guided (key k) l.
Proof.
  intros Hk Hs. induction Hs as [|a l Hs IH Ha]; constructor; [done|]. rewrite Forall_forall in Ha |- *.
  intros b Hb. by apply Hk, Ha.
Qed.

(** Where a new element goes. *)
Fixpoint insert_at (cmp : Z -> Z -> Z) (x : ptr * Z) (l : list (ptr * Z)) : list (ptr * Z) :=
  match l with
  | [] => [x]
  | y :: l' => if cmp x.2 y.2 <? 0 then x :: l else y :: insert_at cmp x l'
  end.

Lemma insert_at_spec cmp x l1 l2 : (forall y, y ∈ l1 -> 0 < cmp x.2 y.2) -> (forall y, y ∈ l2 -> cmp x.2 y.2 < 0) ->
  insert_at cmp x (l1 ++ l2) = l1 ++ x :: l2.
Proof.
  intros H1 H2. induction l1 as [|y l1 IH]; simpl.
  - destruct l2 as [|y l2]; [done|]. simpl. by rewrite (proj2 (Z.ltb_lt _ _)) by (apply H2; left).
  - rewrite (proj2 (Z.ltb_ge _ _)) by (specialize (H1 y (list_elem_of_here _ _)); lia). rewrite IH; [done|].
    intros z Hz. apply H1. by right.
Qed.

(** The place of an element that compares equal to none of the list. *)
Lemma insert_at_split cmp x l : UserOrder cmp -> sorted cmp l -> (forall y, y ∈ l -> cmp x.2 y.2 <> 0) ->
  exists l1 l2, l = l1 ++ l2 /\ insert_at cmp x l = l1 ++ x :: l2 /\
    (forall y, y ∈ l1 -> 0 < cmp x.2 y.2) /\ (forall y, y ∈ l2 -> cmp x.2 y.2 < 0).
Proof.
  intros Hc Hs. induction Hs as [|y l Hs IH Hy]; intros Hne.
  - exists [], []. split; [done|]. split; [done|]. by split; intros ? ?%elem_of_nil.
  - simpl. rewrite Forall_forall in Hy. destruct (Z.ltb_spec (cmp x.2 y.2) 0) as [Hxy|Hxy].
    + exists [], (y :: l). split; [done|]. split; [done|]. split; [by intros ? ?%elem_of_nil|].
      intros z [->|Hz]%elem_of_cons; [done|]. by apply (order_trans x.2 y.2); [|apply Hy].
    + destruct IH as (l1 & l2 & -> & -> & H1 & H2); [intros z Hz; apply Hne; by right|].
      exists (y :: l1), l2. split; [done|]. split; [done|]. split; [|done].
      intros z [->|Hz]%elem_of_cons; [|by apply H1]. specialize (Hne y (list_elem_of_here _ _)). lia.
Qed.

Lemma sorted_insert cmp `{!UserOrder cmp} x l1 l2 : sorted cmp (l1 ++ l2) ->
  (forall y, y ∈ l1 -> 0 < cmp x.2 y.2) -> (forall y, y ∈ l2 -> cmp x.2 y.2 < 0) -> sorted cmp (l1 ++ x :: l2).
Proof.
  intros (H12 & H1 & H2)%StronglySorted_app Hl Hr. apply StronglySorted_app. split; [|split; [done|]].
  - intros a b Ha [->|Hb]%elem_of_cons; [apply order_flip; [done|by apply Hl]|by apply H12].
  - apply StronglySorted_cons. split; [|done]. by apply Forall_forall.
Qed.

Lemma sorted_remove cmp x l1 l2 : sorted cmp (l1 ++ x :: l2) -> sorted cmp (l1 ++ l2).
Proof.
  intros (H12 & H1 & H2)%StronglySorted_app. apply StronglySorted_cons in H2 as [_ H2]. apply StronglySorted_app.
  split; [|done]. intros a b Ha Hb. apply H12; [done|by right].
Qed.

(** ** Abstract collections *)

Record collection := MkCollection { elements : list (ptr * Z); user_order : Z -> Z -> Z; key_compare : Z -> Z -> Z }.

Definition set_elements l (a : collection) : collection := MkCollection l (user_order a) (key_compare a).

Abbreviation abstract := (gmap ptr collection).

Definition node_of (A : abstract) (p : ptr) : Prop := exists Tree a, A !! Tree = Some a /\ p ∈ (elements a).*1.

Definition fresh (A : abstract) (p : ptr) : Prop := p <> NULL /\ A !! p = None /\ ~ node_of A p.

(** The operations, and what they return. *)
Inductive call :=
| Init (cmp key : Z -> Z -> Z)
| Uninit (Tree : ptr)
| IsEmpty (Tree : ptr)
| UserStructOf (Node : ptr)
| Find (Tree : ptr) (key : Z)
| Min (Tree : ptr)
| Max (Tree : ptr)
| NextOf (Node : ptr)
| PrevOf (Node : ptr)
| Insert (Tree : ptr) (NodeOut : bool) (u : Z)
| Delete (Tree Node : ptr) (UserStructOut : bool).

Inductive answer :=
| Done
| Flag (b : bool)
| Pointer (p : ptr)
| Inserted (Status : EFI_STATUS) (Node : option ptr)
| Deleted (UserStruct : option Z).

(** When a client may call what. *)
Definition allowed (A : abstract) (c : call) : Prop :=
  match c with
  | Init cmp key => UserOrder cmp /\ KeyOrder key cmp
  | Uninit Tree => exists a, A !! Tree = Some a /\ elements a = []
  | IsEmpty Tree | Find Tree _ | Min Tree | Max Tree | Insert Tree _ _ => is_Some (A !! Tree)
  | UserStructOf Node => node_of A Node
  | NextOf Node | PrevOf Node => Node = NULL \/ node_of A Node
  | Delete Tree Node _ => exists a, A !! Tree = Some a /\ Node ∈ (elements a).*1
  end.

Definition last_of (l : list (ptr * Z)) : ptr := first (reverse l).

Definition out {V} (wanted : bool) (v : V) : option V := if wanted then Some v else None.

(** What a call may do. *)
Inductive spec_step (A : abstract) : call -> answer -> abstract -> Prop :=
| step_init cmp key p : fresh A p -> spec_step A (Init cmp key) (Pointer p) (<[p := MkCollection [] cmp key]> A)
| step_init_fails cmp key : spec_step A (Init cmp key) (Pointer NULL) A
| step_uninit Tree : spec_step A (Uninit Tree) Done (delete Tree A)
| step_is_empty Tree a : A !! Tree = Some a -> spec_step A (IsEmpty Tree) (Flag (bool_decide (elements a = []))) A
| step_user_struct Tree a l1 p u l2 : A !! Tree = Some a -> elements a = l1 ++ (p, u) :: l2 ->
    spec_step A (UserStructOf p) (Pointer u) A
| step_find Tree a k : A !! Tree = Some a -> spec_step A (Find Tree k) (Pointer (found (key_compare a k) (elements a))) A
| step_min Tree a : A !! Tree = Some a -> spec_step A (Min Tree) (Pointer (first (elements a))) A
| step_max Tree a : A !! Tree = Some a -> spec_step A (Max Tree) (Pointer (last_of (elements a))) A
| step_next_null : spec_step A (NextOf NULL) (Pointer NULL) A
| step_prev_null : spec_step A (PrevOf NULL) (Pointer NULL) A
| step_next Tree a l1 p u l2 : A !! Tree = Some a -> elements a = l1 ++ (p, u) :: l2 ->
    spec_step A (NextOf p) (Pointer (first l2)) A
| step_prev Tree a l1 p u l2 : A !! Tree = Some a -> elements a = l1 ++ (p, u) :: l2 ->
    spec_step A (PrevOf p) (Pointer (last_of l1)) A
| step_insert_collides Tree a o u : A !! Tree = Some a -> let p := found (user_order a u) (elements a) in p <> NULL ->
    spec_step A (Insert Tree o u) (Inserted EFI_ALREADY_STARTED (out o p)) A
| step_insert_fails Tree a o u : A !! Tree = Some a -> found (user_order a u) (elements a) = NULL ->
    spec_step A (Insert Tree o u) (Inserted EFI_OUT_OF_RESOURCES None) A
| step_insert Tree a o u p : A !! Tree = Some a -> found (user_order a u) (elements a) = NULL -> fresh A p ->
    spec_step A (Insert Tree o u) (Inserted EFI_SUCCESS (out o p))
      (<[Tree := set_elements (insert_at (user_order a) (p, u) (elements a)) a]> A)
| step_delete Tree a l1 p u l2 o : A !! Tree = Some a -> elements a = l1 ++ (p, u) :: l2 ->
    spec_step A (Delete Tree p o) (Deleted (out o u)) (<[Tree := set_elements (l1 ++ l2) a]> A).

(** ** Clients *)

Inductive prog :=
| Return
| Call (c : call) (k : answer -> prog).

(** A client that makes only calls it may make, whatever the answers. *)
Inductive legal : abstract -> prog -> Prop :=
| legal_return A : legal A Return
| legal_call A c k : allowed A c -> (forall v A', spec_step A c v A' -> legal A' (k v)) -> legal A (Call c k).

(** The answers that a client may get. *)
Inductive spec_run : abstract -> prog -> list answer -> abstract -> Prop :=
| run_return A : spec_run A Return [] A
| run_call A c k v A' vs A'' : spec_step A c v A' -> spec_run A' (k v) vs A'' -> spec_run A (Call c k) (v :: vs) A''.

(** The library. *)
Section Library.
Context `{Pool} (PcdValidateOrderedCollection : bool).

Definition do_call (c : call) (s : Collections) : result (answer * Collections) :=
  match c with
  | Init cmp key => let! (p, s) := OrderedCollectionInit PcdValidateOrderedCollection s cmp key in Ok (Pointer p, s)
  | Uninit Tree => let! s := OrderedCollectionUninit s Tree in Ok (Done, s)
  | IsEmpty Tree => let! b := OrderedCollectionIsEmpty s Tree in Ok (Flag b, s)
  | UserStructOf Node => let! u := OrderedCollectionUserStruct s Node in Ok (Pointer u, s)
  | Find Tree key => let! p := OrderedCollectionFind s Tree key in Ok (Pointer p, s)
  | Min Tree => let! p := OrderedCollectionMin s Tree in Ok (Pointer p, s)
  | Max Tree => let! p := OrderedCollectionMax s Tree in Ok (Pointer p, s)
  | NextOf Node => let! p := OrderedCollectionNext s Node in Ok (Pointer p, s)
  | PrevOf Node => let! p := OrderedCollectionPrev s Node in Ok (Pointer p, s)
  | Insert Tree o u =>
      let! (Status, Node, s) := OrderedCollectionInsert PcdValidateOrderedCollection s Tree o u in Ok (Inserted Status Node, s)
  | Delete Tree Node o =>
      let! (u, s) := OrderedCollectionDelete PcdValidateOrderedCollection s Tree Node o in Ok (Deleted u, s)
  end.

Fixpoint run (p : prog) (s : Collections) : result (list answer * Collections) :=
  match p with
  | Return => Ok ([], s)
  | Call c k =>
      let! (v, s) := do_call c s in
      let! (vs, s) := run (k v) s in
      Ok (v :: vs, s)
  end.
End Library.
