(* ===== verification/RedBlackTreeRefine.v ===== *)
(** * Ordered collections: the code refines the specification

    The store represents abstract collections; every operation keeps that and
    answers as the specification allows. *)

From stdpp Require Import sorting.
From S2P Require Import Prelude RedBlackTree RedBlackTreeRep RedBlackTreeSearch RedBlackTreeInsert RedBlackTreeDelete RedBlackTreeValidate RedBlackTreeSpec.

(** ** Sorted elements pass the validation *)

Lemma StronglySorted_reverse {A} (R : A -> A -> Prop) l : StronglySorted R l -> StronglySorted (flip R) (reverse l).
Proof.
  induction 1 as [|x l Hs IH Hx]; [constructor|]. rewrite reverse_cons. apply StronglySorted_app.
  split; [|by split; [|repeat constructor]]. intros y z Hy ->%list_elem_of_singleton. rewrite reverse_Permutation in Hy.
  rewrite Forall_forall in Hx. by apply Hx.
Qed.

Lemma StronglySorted_chain d (R : ptr * Z -> ptr * Z -> Prop) cmp l : (forall a b, R a b -> in_order d (cmp a.2 b.2) = true) ->
  StronglySorted R l -> chain d cmp l = true.
Proof.
  intros HR. induction 1 as [|x l Hs IH Hx]; [done|]. destruct l as [|y l]; [done|].
  change (in_order d (cmp x.2 y.2) && chain d cmp (y :: l) = true). rewrite IH, andb_true_r. apply HR. by apply Forall_inv in Hx.
Qed.

Lemma chain_sorted cmp `{!UserOrder cmp} l : chain L cmp l = true -> sorted cmp l.
Proof.
  intros Hl. apply Sorted_StronglySorted; [intros x y z; apply order_trans|]. induction l as [|x l IH]; constructor.
  - apply IH. destruct l; [done|]. by apply andb_true_iff in Hl as [_ ?].
  - destruct l as [|y l]; constructor. apply andb_true_iff in Hl as [Hxy _]. by apply Z.ltb_lt.
Qed.

Lemma ordered_both_sorted cmp `{!UserOrder cmp} t : ordered_both cmp t = true <-> sorted cmp (inorder t).
Proof.
  unfold ordered_both. rewrite andb_true_iff. split; [intros [? _]; by apply chain_sorted|]. intros Hs. split.
  - eapply StronglySorted_chain; [|exact Hs]. intros x y. apply Z.ltb_lt.
  - eapply StronglySorted_chain; [|by apply StronglySorted_reverse].
    intros x y Hyx. cbn [in_order]. rewrite Z.gtb_lt. by apply order_flip.
Qed.

(** ** The height of a red-black tree *)

Lemma rb_count t n : rb t n -> (2 ^ n <= S (length (inorder t)))%nat.
Proof.
  revert n. induction t as [|[] l IHl p u r IHr]; intros n; simpl; rewrite ?length_app; simpl.
  - intros ->. done.
  - intros [[_ Hl%IHl] _]. lia.
  - destruct n as [|n]; [done|]. intros [Hl%IHl Hr%IHr]. simpl. lia.
Qed.

Lemma rb_height t n : rb t n -> (height t <= 2 * n + if black t then 0 else 1)%nat.
Proof.
  revert n. induction t as [|[] l IHl p u r IHr]; intros n; simpl; [lia| |].
  - intros [[Hbl Hl%IHl] [Hbr Hr%IHr]]. rewrite Hbl in Hl. rewrite Hbr in Hr. lia.
  - destruct n as [|n]; [done|]. intros [Hl%IHl Hr%IHr]. destruct (black l), (black r); lia.
Qed.

Lemma redblack_height t : redblack t -> (height t <= 2 * Nat.log2 (S (length (inorder t))))%nat.
Proof.
  intros [Hb [n Hn]]. pose proof (rb_height t n Hn) as Hh. rewrite Hb in Hh. pose proof (rb_count t n Hn) as Hc.
  apply Nat.log2_le_mono in Hc. rewrite Nat.log2_pow2 in Hc by lia. lia.
Qed.

(** ** Representation *)

Class PoolLaws `{Pool} : Prop :=
  pool_fresh : forall used p, AllocatePool used = Some p -> p <> NULL /\ p ∉ used.

(** The tree [t] of the collection at [Tree]. *)
Record holds (s : Collections) (Tree : ptr) (a : collection) (t : tree) : Prop := {
  holds_tree : trees s !! Tree = Some (MkTree (root t) (user_order a) (key_compare a));
  holds_rep : rep (tree_nodes s) t;
  holds_redblack : redblack t;
  holds_elements : inorder t = elements a }.

Record represents (s : Collections) (A : abstract) : Prop := {
  rp_dom : forall Tree, A !! Tree = None -> trees s !! Tree = None;
  rp_null : A !! NULL = None;
  rp_holds : forall Tree a, A !! Tree = Some a -> exists t, holds s Tree a t;
  rp_user : forall Tree a, A !! Tree = Some a -> UserOrder (user_order a);
  rp_key : forall Tree a, A !! Tree = Some a -> KeyOrder (key_compare a) (user_order a);
  rp_sorted : forall Tree a, A !! Tree = Some a -> sorted (user_order a) (elements a);
  rp_apart : forall T1 a1 T2 a2 p, A !! T1 = Some a1 -> A !! T2 = Some a2 ->
    p ∈ (elements a1).*1 -> p ∈ (elements a2).*1 -> T1 = T2;
  rp_nodes : forall p, is_Some (tree_nodes s !! p) <-> node_of A p }.

(** No collection: the initial store. *)
Lemma represents_empty : represents (MkCollections ∅ ∅) ∅.
Proof.
  split; try (by intros * ?%lookup_empty_Some); try done. intros p. simpl. rewrite lookup_empty.
  split; [by intros []|]. by intros (? & ? & ?%lookup_empty_Some & _).
Qed.

Section Represents.
Context s A (Hr : represents s A).

Lemma rp_valid Tree a t : A !! Tree = Some a -> holds s Tree a t -> RedBlackTreeValidate s Tree = Ok tt.
Proof.
  intros Ha Ht. pose proof (rp_user s A Hr Tree a Ha). eapply Validate_passes; [apply Ht|done|apply Ht|].
  split; [apply Ht|]. apply ordered_both_sorted; [done|]. rewrite (holds_elements _ _ _ _ Ht). by apply (rp_sorted s A Hr Tree).
Qed.

Lemma ValidateIfEnabled_passes b Tree : is_Some (A !! Tree) -> ValidateIfEnabled b s Tree = Ok tt.
Proof.
  intros [a Ha]. destruct (rp_holds s A Hr Tree a Ha) as [t Ht]. unfold ValidateIfEnabled. destruct b; [|done].
  by apply (rp_valid Tree a t).
Qed.

Lemma fresh_pool `{Pool} `{!PoolLaws} p : AllocatePool (dom (trees s) ∪ dom (tree_nodes s)) = Some p ->
  fresh A p /\ tree_nodes s !! p = None.
Proof.
  intros [Hp Hu]%pool_fresh. apply not_elem_of_union in Hu as [Ht Hn]. apply not_elem_of_dom in Ht, Hn.
  split; [|done]. split; [done|]. split; [|intros Hx%(rp_nodes s A Hr); rewrite Hn in Hx; by destruct Hx].
  destruct (A !! p) as [a|] eqn:Ha; [|done]. destruct (rp_holds s A Hr p a Ha) as [t Hh].
  rewrite (holds_tree _ _ _ _ Hh) in Ht. done.
Qed.

(** Another tree under the same collection. *)
Lemma represents_update Tree a t h' t' l : A !! Tree = Some a -> holds s Tree a t ->
  rep h' t' -> redblack t' -> inorder t' = l -> sorted (user_order a) l ->
  (forall x, x ∈ l.*1 -> x ∈ (elements a).*1 \/ tree_nodes s !! x = None) ->
  (forall x, x ∈ (elements a).*1 -> x ∉ l.*1 -> h' !! x = None) ->
  (forall x, x ∉ (elements a).*1 -> x ∉ l.*1 -> h' !! x = tree_nodes s !! x) ->
  represents (MkCollections (<[Tree := MkTree (root t') (user_order a) (key_compare a)]> (trees s)) h')
             (<[Tree := set_elements l a]> A).
Proof.
  intros Ha Ht Hrep Hrb Hin Hsort Hnew Hgone Hrest. assert (Hother : forall T a' x, Tree <> T -> A !! T = Some a' -> x ∈ (elements a').*1 ->
    x ∉ (elements a).*1 /\ x ∉ l.*1).
  { intros T a' x HT Ha' Hx. assert (Hxa : x ∉ (elements a).*1) by (intros Hx'; by apply HT, (rp_apart s A Hr Tree a T a' x)).
    split; [done|]. intros [?|Hn]%Hnew; [done|]. assert (Hs : is_Some (tree_nodes s !! x)) by (apply (rp_nodes s A Hr); by exists T, a').
    rewrite Hn in Hs. by destruct Hs. }
  split; cbn [trees tree_nodes].
  - intros T [HT HTree]%lookup_insert_None. rewrite lookup_insert_ne by done. by apply (rp_dom s A Hr).
  - apply lookup_insert_None. split; [apply (rp_null s A Hr)|]. intros ->. by rewrite (rp_null s A Hr) in Ha.
  - intros T a' [[<- <-]|[HT Ha']]%lookup_insert_Some.
    + exists t'. by split; cbn [trees]; rewrite ?lookup_insert_eq.
    + destruct (rp_holds s A Hr T a' Ha') as [t0 [H1 H2 H3 H4]]. exists t0. split; cbn [trees tree_nodes]; [by rewrite lookup_insert_ne| |done|done].
      destruct H2 as [H2 Hw]. split; [|done]. eapply tree_at_frame; [|done]. intros x Hx. unfold addrs in Hx. rewrite H4 in Hx.
      by apply Hrest; apply (Hother T a').
  - intros T a' [[<- <-]|[HT Ha']]%lookup_insert_Some; [by apply (rp_user s A Hr Tree a)|by apply (rp_user s A Hr T)].
  - intros T a' [[<- <-]|[HT Ha']]%lookup_insert_Some; [by apply (rp_key s A Hr Tree a)|by apply (rp_key s A Hr T)].
  - intros T a' [[<- <-]|[HT Ha']]%lookup_insert_Some; [done|by apply (rp_sorted s A Hr T)].
  - intros T1 a1 T2 a2 x [[<- <-]|[HT1 H1]]%lookup_insert_Some [[<- <-]|[HT2 H2]]%lookup_insert_Some Hx1 Hx2; [done| | |by apply (rp_apart s A Hr T1 a1 T2 a2 x)].
    + by apply (Hother T2 a2) in Hx2 as [_ []].
    + by apply (Hother T1 a1) in Hx1 as [_ []].
  - intros x. assert (Hl : x ∈ l.*1 -> is_Some (h' !! x)).
    { rewrite <-Hin. change ((inorder t').*1) with (addrs t'). intros Hx.
      destruct (h' !! x) eqn:Hn; [by eexists|]. by destruct (fresh_addrs h' t' x Hrep Hn). }
    split.
    + intros Hx. destruct (decide (x ∈ l.*1)) as [Hxl|Hxl]; [exists Tree, (set_elements l a); by rewrite lookup_insert_eq|].
      destruct (decide (x ∈ (elements a).*1)) as [Hxa|Hxa]; [rewrite Hgone in Hx by done; by destruct Hx|].
      rewrite Hrest in Hx by done. apply (rp_nodes s A Hr) in Hx as (T & a' & Ha' & Hxa').
      exists T, a'. split; [|done]. rewrite lookup_insert_ne; [done|]. by intros <-; simplify_eq.
    + intros (T & a' & [[<- <-]|[HT Ha']]%lookup_insert_Some & Hx); [by apply Hl|].
      destruct (Hother T a' x) as [H1 H2]; [done..|]. rewrite Hrest by done. apply (rp_nodes s A Hr). by exists T, a'.
Qed.
End Represents.

(** ** Queries *)

Section Queries.
Context s A (Hr : represents s A).

Lemma member p : node_of A p -> exists Tree a l1 u l2 t,
  A !! Tree = Some a /\ elements a = l1 ++ (p, u) :: l2 /\ holds s Tree a t.
Proof.
  intros (Tree & a & Ha & ([q u] & -> & (l1 & l2 & Hin)%list_elem_of_split)%list_elem_of_fmap).
  destruct (rp_holds s A Hr Tree a Ha) as [t Ht]. by exists Tree, a, l1, u, l2, t.
Qed.

Lemma Find_represents Tree a k : A !! Tree = Some a -> OrderedCollectionFind s Tree k = Ok (found (key_compare a k) (elements a)).
Proof.
  intros Ha. destruct (rp_holds s A Hr Tree a Ha) as [t [HT Hrep Hrb Hin]]. unfold OrderedCollectionFind, tree_of. rewrite HT.
  cbn [deref mbind result_bind Root KeyCompare]. rewrite <-Hin. apply (Find_loop_spec _ _ _ []); [done| |].
  - rewrite Hin. eapply sorted_guided; [by eapply rp_key|by eapply rp_sorted].
  - pose proof (rep_bound _ [] _ Hrep). lia.
Qed.

Lemma Extreme_represents d Tree a : A !! Tree = Some a ->
  (let! T := tree_of s Tree in if Root T =? NULL then Ok NULL else Extreme_loop d (node_bound (tree_nodes s)) (tree_nodes s) (Root T)) =
    Ok (first (match d with L => elements a | R => reverse (elements a) end)).
Proof.
  intros Ha. destruct (rp_holds s A Hr Tree a Ha) as [t [HT Hrep Hrb Hin]]. unfold tree_of. rewrite HT.
  cbn [deref mbind result_bind Root]. rewrite <-Hin. change (match d with L => inorder t | R => reverse (inorder t) end) with (walk d t).
  destruct t as [|c l p u r]; [by destruct d|]. rewrite (proj2 (Z.eqb_neq _ _)) by apply (rep_not_null _ [] L c l p u r Hrep).
  by apply (Extreme_loop_spec d _ []).
Qed.

Lemma Min_represents Tree a : A !! Tree = Some a -> OrderedCollectionMin s Tree = Ok (first (elements a)).
Proof.
  intros Ha. rewrite <-(Extreme_represents L Tree a Ha). unfold OrderedCollectionMin.
  destruct (tree_of s Tree); [|done..]. cbn [mbind result_bind]. by rewrite Leftmost_loop_eq.
Qed.

Lemma Max_represents Tree a : A !! Tree = Some a -> OrderedCollectionMax s Tree = Ok (last_of (elements a)).
Proof.
  intros Ha. unfold last_of. rewrite <-(Extreme_represents R Tree a Ha). unfold OrderedCollectionMax.
  destruct (tree_of s Tree); [|done..]. cbn [mbind result_bind]. by rewrite Rightmost_loop_eq.
Qed.

Lemma IsEmpty_represents Tree a : A !! Tree = Some a -> OrderedCollectionIsEmpty s Tree = Ok (bool_decide (elements a = [])).
Proof.
  intros Ha. destruct (rp_holds s A Hr Tree a Ha) as [t [HT Hrep Hrb Hin]]. unfold OrderedCollectionIsEmpty, tree_of. rewrite HT.
  cbn [deref mbind result_bind Root]. rewrite <-Hin. destruct t as [|c l p u r]; [done|].
  rewrite (proj2 (Z.eqb_neq _ _)) by apply (rep_not_null _ [] L c l p u r Hrep). simpl. rewrite bool_decide_false; [done|].
  by intros [_ [=]]%app_eq_nil.
Qed.

Context Tree a l1 p u l2 (Ha : A !! Tree = Some a) (Hin : elements a = l1 ++ (p, u) :: l2).

Lemma UserStruct_represents : exists n, load (tree_nodes s) p = Ok n /\ UserStruct n = u.
Proof.
  destruct (rp_holds s A Hr Tree a Ha) as [t Ht]. eapply (walk_node L); [apply Ht|]. cbn [walk].
  rewrite (holds_elements _ _ _ _ Ht), Hin. apply elem_of_app. right. left.
Qed.

Lemma Next_represents : OrderedCollectionNext s p = Ok (first l2).
Proof.
  destruct (rp_holds s A Hr Tree a Ha) as [t Ht]. unfold OrderedCollectionNext. rewrite Next_eq.
  eapply Advance_walk; [apply Ht|]. cbn [walk]. by rewrite (holds_elements _ _ _ _ Ht).
Qed.

Lemma Prev_represents : OrderedCollectionPrev s p = Ok (last_of l1).
Proof.
  destruct (rp_holds s A Hr Tree a Ha) as [t Ht]. unfold OrderedCollectionPrev. rewrite Prev_eq.
  eapply Advance_walk; [apply Ht|]. cbn [walk]. rewrite (holds_elements _ _ _ _ Ht), Hin, reverse_app, reverse_cons.
  by rewrite <-app_assoc.
Qed.
End Queries.

(** ** Updates *)

Section Updates.
Context `{Pool} `{!PoolLaws} (b : bool) s A (Hr : represents s A).

Lemma Init_represents cmp key : UserOrder cmp -> KeyOrder key cmp ->
  exists p s' A', OrderedCollectionInit b s cmp key = Ok (p, s') /\ spec_step A (Init cmp key) (Pointer p) A' /\ represents s' A'.
Proof.
  intros Hc Hk. unfold OrderedCollectionInit. destruct (AllocatePool _) as [p|] eqn:Hp; [|exists NULL, s, A; split; [done|]; by split; [constructor|]].
  destruct (fresh_pool s A Hr p Hp) as [(Hn & HA & Hno) Hh]. set (s' := MkCollections _ _). set (a := MkCollection [] cmp key).
  assert (Hr' : represents s' (<[p := a]> A)).
  { split; cbn [trees tree_nodes s'].
    - intros T [HT Hpt]%lookup_insert_None. rewrite lookup_insert_ne by done. by apply (rp_dom s A Hr).
    - apply lookup_insert_None. split; [apply (rp_null s A Hr)|done].
    - intros T a' [[<- <-]|[HT Ha']]%lookup_insert_Some.
      + exists Leaf. split; [by cbn [trees s']; rewrite lookup_insert_eq| | |done]; [|by split; [|exists 0%nat]].
        split; [done|]. split; [constructor|by apply not_elem_of_nil].
      + destruct (rp_holds s A Hr T a' Ha') as [t0 [H1 H2 H3 H4]]. exists t0. split; [by cbn [trees s']; rewrite lookup_insert_ne|done..].
    - intros T a' [[<- <-]|[HT Ha']]%lookup_insert_Some; [done|by apply (rp_user s A Hr T)].
    - intros T a' [[<- <-]|[HT Ha']]%lookup_insert_Some; [done|by apply (rp_key s A Hr T)].
    - intros T a' [[<- <-]|[HT Ha']]%lookup_insert_Some; [constructor|by apply (rp_sorted s A Hr T)].
    - intros T1 a1 T2 a2 x [[<- <-]|[HT1 H1]]%lookup_insert_Some [[<- <-]|[HT2 H2]]%lookup_insert_Some Hx1 Hx2; [done| | |by apply (rp_apart s A Hr T1 a1 T2 a2 x)].
      + by apply elem_of_nil in Hx1.
      + by apply elem_of_nil in Hx2.
    - intros x. rewrite (rp_nodes s A Hr x). split.
      + intros (T & a' & Ha' & Hx). exists T, a'. split; [|done]. rewrite lookup_insert_ne; [done|]. intros <-. by rewrite HA in Ha'.
      + intros (T & a' & [[<- <-]|[HT Ha']]%lookup_insert_Some & Hx); [by apply elem_of_nil in Hx|by exists T, a']. }
  rewrite (ValidateIfEnabled_passes s' _ Hr') by (rewrite lookup_insert_eq; by eexists). cbn [mbind result_bind].
  exists p, s', (<[p := a]> A). split; [done|]. by split; [constructor|].
Qed.

Lemma Uninit_represents Tree a : A !! Tree = Some a -> elements a = [] ->
  exists s', OrderedCollectionUninit s Tree = Ok s' /\ represents s' (delete Tree A).
Proof.
  intros Ha He. unfold OrderedCollectionUninit. rewrite (IsEmpty_represents s A Hr Tree a Ha), He. cbn [bool_decide mbind result_bind ASSERT].
  eexists. split; [done|]. split; cbn [trees tree_nodes].
  - intros T [->|HT]%lookup_delete_None; [by rewrite lookup_delete_eq|]. apply lookup_delete_None. right. by apply (rp_dom s A Hr).
  - apply lookup_delete_None. right. apply (rp_null s A Hr).
  - intros T a' [HT Ha']%lookup_delete_Some. destruct (rp_holds s A Hr T a' Ha') as [t0 [H1 H2 H3 H4]].
    exists t0. split; [by cbn [trees]; rewrite lookup_delete_ne|done..].
  - intros T a' [HT Ha']%lookup_delete_Some. by apply (rp_user s A Hr T).
  - intros T a' [HT Ha']%lookup_delete_Some. by apply (rp_key s A Hr T).
  - intros T a' [HT Ha']%lookup_delete_Some. by apply (rp_sorted s A Hr T).
  - intros T1 a1 T2 a2 x [_ H1]%lookup_delete_Some [_ H2]%lookup_delete_Some. by apply (rp_apart s A Hr).
  - intros x. rewrite (rp_nodes s A Hr x). split.
    + intros (T & a' & Ha' & Hx). exists T, a'. split; [|done]. rewrite lookup_delete_ne; [done|]. intros <-.
      simplify_eq. rewrite He in Hx. by apply elem_of_nil in Hx.
    + intros (T & a' & [HT Ha']%lookup_delete_Some & Hx). by exists T, a'.
Qed.

Lemma Insert_represents Tree a o u : A !! Tree = Some a ->
  let found := found (user_order a u) (elements a) in
  let pool := AllocatePool (dom (trees s) ∪ dom (tree_nodes s)) in
  (found <> NULL /\ OrderedCollectionInsert b s Tree o u = Ok (EFI_ALREADY_STARTED, out o found, s)) \/
  (found = NULL /\ pool = None /\ OrderedCollectionInsert b s Tree o u = Ok (EFI_OUT_OF_RESOURCES, None, s)) \/
  (exists p s', found = NULL /\ pool = Some p /\ fresh A p /\ OrderedCollectionInsert b s Tree o u = Ok (EFI_SUCCESS, out o p, s') /\
     represents s' (<[Tree := set_elements (insert_at (user_order a) (p, u) (elements a)) a]> A)).
Proof.
  intros Ha. destruct (rp_holds s A Hr Tree a Ha) as [t Ht]. pose proof Ht as [HT Hrep Hrb Hin]. pose proof (rp_user s A Hr Tree a Ha) as Ho.
  pose proof (rp_sorted s A Hr Tree a Ha) as Hs. pose proof (user_key (user_order a)) as Hk.
  pose proof (sorted_guided _ _ u _ Hk Hs) as Hg. unfold OrderedCollectionInsert, tree_of. rewrite HT. cbn [deref mbind result_bind Root UserStructCompare KeyCompare].
  pose proof (rep_bound _ [] _ Hrep) as Hfuel. rewrite <-Hin in Hg.
  destruct (Insert_loop_spec (node_bound (tree_nodes s)) (user_order a u) (tree_nodes s) [] t 0) as [(par & r & Hf & Hloop)|(k & r & Hf & Hloop & Hplug & Hreach)];
    [done|done|lia|by split; [|intros ? ?%elem_of_nil..]| |]; change (above []) with NULL in Hloop; rewrite Hloop; clear Hloop; cbn [mbind result_bind]; rewrite Hin in *.
  - rewrite (proj2 (Z.eqb_neq _ _) Hf). cbn [negb mbind result_bind]. rewrite (ValidateIfEnabled_passes s A Hr) by by eexists. cbn [mbind result_bind]. by left.
  - rewrite Z.eqb_refl. cbn [negb]. destruct (AllocatePool _) as [p|] eqn:Hp.
    2: { cbn [mbind result_bind]. rewrite (ValidateIfEnabled_passes s A Hr) by (by eexists). right. by left. }
    destruct (fresh_pool s A Hr p Hp) as [Hfresh Hh]. pose proof Hreach as [_ Hbef Haft].
    change (plug [] t) with t in Hplug. assert (Hel : elements a = before k ++ after k) by (rewrite <-Hin, <-Hplug, inorder_plug; done).
    rewrite <-Hplug in Hrep, Hrb |- *.
    destruct (InsertNode_spec (user_order a u) (tree_nodes s) k r p u Hrep Hrb Hreach Hh) as (h' & T' & -> & Hrep' & Hrb' & Hin' & Hrest); [apply Hfresh|].
    unfold addrs in Hrest. rewrite inorder_plug, app_nil_l, <-Hel in Hrest.
    assert (Hat : insert_at (user_order a) (p, u) (elements a) = before k ++ (p, u) :: after k) by (rewrite Hel; by apply insert_at_spec).
    assert (Hmem : forall x, x ∈ (before k ++ (p, u) :: after k).*1 <-> x = p \/ x ∈ (elements a).*1).
    { intros x. rewrite Hel, !fmap_app, fmap_cons, !elem_of_app, elem_of_cons. cbn [fst]. tauto. }
    cbn [mbind result_bind]. set (s' := MkCollections _ _). set (A' := <[Tree := set_elements (insert_at (user_order a) (p, u) (elements a)) a]> A).
    assert (Hr' : represents s' A').
    { unfold s', A'. rewrite Hat. apply (represents_update s A Hr Tree a t); [done..| | | |].
      - apply sorted_insert; [done|by rewrite <-Hel|done|done].
      - intros x [->|?]%Hmem; [by right|by left].
      - intros x Hx []. apply Hmem. by right.
      - intros x Hx Hnx. rewrite Hmem in Hnx. apply Hrest; tauto. }
    rewrite (ValidateIfEnabled_passes s' A' Hr') by (unfold A'; rewrite lookup_insert_eq; by eexists). cbn [mbind result_bind].
    right. right. by exists p, s'.
Qed.

Lemma Delete_represents Tree a l1 p u l2 o : A !! Tree = Some a -> elements a = l1 ++ (p, u) :: l2 ->
  exists s', OrderedCollectionDelete b s Tree p o = Ok (out o u, s') /\ represents s' (<[Tree := set_elements (l1 ++ l2) a]> A).
Proof.
  intros Ha Hel. destruct (rp_holds s A Hr Tree a Ha) as [t Ht]. pose proof Ht as [HT Hrep Hrb Hin]. pose proof (rp_sorted s A Hr Tree a Ha) as Hs.
  unfold OrderedCollectionDelete, tree_of. rewrite HT. cbn [deref mbind result_bind Root].
  destruct (UserStruct_represents s A Hr Tree a l1 p u l2 Ha Hel) as (n & -> & Hn). cbn [mbind result_bind]. rewrite Hn.
  destruct (focus t p u) as (k & c & l & r & ->); [rewrite Hin, Hel, elem_of_app; right; left|].
  destruct (DeleteNode_spec (tree_nodes s) k c l p u r Hrep Hrb) as (h' & T' & -> & Hrep' & Hrb' & Hin' & Hgone & Hrest).
  assert (Hsplit : l1 ++ l2 = (before k ++ inorder l) ++ (inorder r ++ after k)).
  { assert (Hnd : NoDup (l1.*1 ++ p :: l2.*1)) by (destruct Hrep as [_ [Hnd _]]; unfold addrs in Hnd; by rewrite Hin, Hel, fmap_app in Hnd).
    destruct (split_unique (before k ++ inorder l) (inorder r ++ after k) l1 l2 p u u Hnd) as (-> & _ & ->); [|done].
    rewrite <-Hel, <-Hin, inorder_plug. simpl. by rewrite <-!app_assoc. }
  rewrite <-Hsplit in Hin'. unfold addrs in Hrest. rewrite Hin in Hrest. cbn [mbind result_bind]. set (s' := MkCollections _ _).
  assert (Hr' : represents s' (<[Tree := set_elements (l1 ++ l2) a]> A)).
  { apply (represents_update s A Hr Tree a _ h' T' (l1 ++ l2) Ha Ht Hrep' Hrb' Hin').
    - rewrite Hel in Hs. by eapply sorted_remove.
    - intros x. rewrite Hel, !fmap_app, fmap_cons, !elem_of_app, elem_of_cons. tauto.
    - intros x. rewrite Hel, !fmap_app, fmap_cons, !elem_of_app, elem_of_cons. cbn [fst]. intros Hx Hnx. destruct (decide (x = p)) as [->|]; [done|tauto].
    - intros x Hx _. by apply Hrest. }
  rewrite (ValidateIfEnabled_passes s' _ Hr') by (rewrite lookup_insert_eq; by eexists). cbn [mbind result_bind]. by exists s'.
Qed.

(** ** Every call *)

Lemma do_call_represents c : allowed A c ->
  exists v s' A', do_call b c s = Ok (v, s') /\ spec_step A c v A' /\ represents s' A'.
Proof.
  destruct c as [cmp key|Tree|Tree|p|Tree k|Tree|Tree|p|p|Tree o u|Tree p o]; cbn [allowed do_call].
  - intros [Hc Hk]. destruct (Init_represents cmp key Hc Hk) as (p & s' & A' & -> & ?). by eexists _, _, _.
  - intros (a & Ha & He). destruct (Uninit_represents Tree a Ha He) as (s' & -> & ?). eexists _, _, _. split; [done|]. by split; [constructor|].
  - intros [a Ha]. rewrite (IsEmpty_represents s A Hr Tree a Ha). eexists _, _, _. split; [done|]. by split; [constructor|].
  - intros (Tree & a & l1 & u & l2 & t & Ha & Hel & Ht)%(member s A Hr). unfold OrderedCollectionUserStruct.
    destruct (UserStruct_represents s A Hr Tree a l1 p u l2 Ha Hel) as (n & -> & Hn). cbn [mbind result_bind]. rewrite Hn.
    eexists _, _, _. split; [done|]. by split; [eapply step_user_struct|].
  - intros [a Ha]. rewrite (Find_represents s A Hr Tree a k Ha). eexists _, _, _. split; [done|]. by split; [constructor|].
  - intros [a Ha]. rewrite (Min_represents s A Hr Tree a Ha). eexists _, _, _. split; [done|]. by split; [constructor|].
  - intros [a Ha]. rewrite (Max_represents s A Hr Tree a Ha). eexists _, _, _. split; [done|]. by split; [constructor|].
  - intros [->|(Tree & a & l1 & u & l2 & t & Ha & Hel & Ht)%(member s A Hr)]; [eexists _, _, _; split; [done|]; by split; [constructor|]|].
    rewrite (Next_represents s A Hr Tree a l1 p u l2 Ha Hel). eexists _, _, _. split; [done|]. by split; [eapply step_next|].
  - intros [->|(Tree & a & l1 & u & l2 & t & Ha & Hel & Ht)%(member s A Hr)]; [eexists _, _, _; split; [done|]; by split; [constructor|]|].
    rewrite (Prev_represents s A Hr Tree a l1 p u l2 Ha Hel). eexists _, _, _. split; [done|]. by split; [eapply step_prev|].
  - intros [a Ha]. destruct (Insert_represents Tree a o u Ha) as [[Hf ->]|[(Hf & _ & ->)|(p & s' & Hf & _ & Hp & -> & Hr')]]; (eexists _, _, _; split; [done|]).
    + by split; [apply step_insert_collides|].
    + by split; [apply (step_insert_fails A Tree a)|].
    + by split; [apply step_insert|].
  - intros (a & Ha & ([q u] & -> & (l1 & l2 & Hel)%list_elem_of_split)%list_elem_of_fmap).
    cbn [fst]. destruct (Delete_represents Tree a l1 q u l2 o Ha Hel) as (s' & -> & ?). eexists _, _, _. split; [done|]. by split; [eapply step_delete|].
Qed.
End Updates.
