(* ===== verification/RedBlackTreeTheorems.v ===== *)
(** * Ordered collections: the theorems

    What BaseOrderedCollectionRedBlackTreeLib promises, for any collections a
    store represents, with and without PcdValidateOrderedCollection. *)

From stdpp Require Import sorting.
From S2P Require Import Prelude RedBlackTree RedBlackTreeRep RedBlackTreeSearch RedBlackTreeInsert RedBlackTreeValidate RedBlackTreeSpec RedBlackTreeRefine.

(** A client that visits a collection from an end. *)
Fixpoint visit (fuel : nat) (step : ptr -> result ptr) (p : ptr) : result (list ptr) :=
  match fuel with
  | O => NoFuel
  | S fuel =>
      if p =? NULL then Ok [] else
      let! q := step p in
      let! l := visit fuel step q in
      Ok (p :: l)
  end.

(** The elements of a represented collection are nodes. *)
Lemma elements_not_null s A Tree a p : represents s A -> A !! Tree = Some a -> p ∈ (elements a).*1 -> p <> NULL.
Proof.
  intros Hr Ha Hp. destruct (rp_holds s A Hr Tree a Ha) as [t [_ [_ [_ Hn]] _ Hin]]. unfold addrs in Hn. rewrite Hin in Hn.
  by intros ->.
Qed.

Lemma visit_list step l : (forall x, x ∈ l.*1 -> x <> NULL) ->
  (forall l1 p u l2, l = l1 ++ (p, u) :: l2 -> step p = Ok (first l2)) ->
  visit (S (length l)) step (first l) = Ok (l.*1).
Proof.
  intros Hn. induction l as [|[p u] l IH]; intros Hstep; [done|]. cbn [visit first fst]. fold visit.
  rewrite (proj2 (Z.eqb_neq _ _)) by (apply Hn; left). rewrite (Hstep [] p u l eq_refl). cbn [mbind result_bind].
  change (visit (length ((p, u) :: l)) step (first l)) with (visit (S (length l)) step (first l)). rewrite IH; [done| |].
  - intros x Hx. apply Hn. by right.
  - intros l1 q v l2 ->. by apply (Hstep ((p, u) :: l1) q v l2).
Qed.

(** What [found] is. *)
Lemma found_spec (f : Z -> Z) (l : list (ptr * Z)) : (forall x, x ∈ l.*1 -> x <> NULL) ->
  (found f l = NULL <-> forall p u, (p, u) ∈ l -> f u <> 0) /\
  (found f l <> NULL -> exists u, (found f l, u) ∈ l /\ f u = 0).
Proof.
  intros Hn. unfold found. destruct (List.find _ l) as [[p u]|] eqn:Hf.
  - apply find_some in Hf as [Hin%list_elem_of_In Hz%Z.eqb_eq]. cbn [fst snd] in *.
    assert (p <> NULL) by (apply Hn, list_elem_of_fmap; by exists (p, u)). split; [|by exists u].
    split; [done|]. intros Hall. by destruct (Hall p u Hin).
  - split; [|done]. split; [|done]. intros _ p u Hin%list_elem_of_In. apply (find_none _ _ Hf) in Hin. by apply Z.eqb_neq.
Qed.

Section Theorems.
Context `{Pool} `{!PoolLaws} (PcdValidateOrderedCollection : bool).

(** C9: Any client that keeps to the preconditions of the library - it passes
    live collections and nodes and total orders, and empties a collection
    before it frees it - whatever it does with the answers, in whatever order
    and on however many collections: every call terminates, violates no ASSERT
    (those of the validation included), follows no bad pointer, and the answers
    are those of sorted lists whose nodes keep their addresses; afterwards every
    collection is a red-black tree with exactly its elements, and no node is
    leaked or shared. *)
Theorem collections_refine p s A : represents s A -> legal A p ->
  exists vs s' A', run PcdValidateOrderedCollection p s = Ok (vs, s') /\ spec_run A p vs A' /\ represents s' A'.
Proof.
  intros Hr Hp. revert s Hr. induction Hp as [A|A c k Hc Hk IH]; intros s Hr; cbn [run].
  - exists [], s, A. split; [done|]. by split; [constructor|].
  - destruct (do_call_represents PcdValidateOrderedCollection s A Hr c Hc) as (v & s1 & A1 & -> & Hstep & Hr1).
    cbn [mbind result_bind]. destruct (IH v A1 Hstep s1 Hr1) as (vs & s2 & A2 & -> & Hrun & Hr2). cbn [mbind result_bind].
    exists (v :: vs), s2, A2. split; [done|]. by split; [econstructor|].
Qed.

(** C10: OrderedCollectionInsert reports a collision with the node that compares
    equal, or that there is no memory, and then changes nothing; otherwise it
    puts a new node, at an address that nothing uses, where the order demands,
    and the collection remains a red-black tree. *)
Theorem OrderedCollectionInsert_correct s A Tree a o u : represents s A -> A !! Tree = Some a ->
  let Insert := OrderedCollectionInsert PcdValidateOrderedCollection s Tree o u in
  (exists p v, (p, v) ∈ elements a /\ user_order a u v = 0 /\ Insert = Ok (EFI_ALREADY_STARTED, out o p, s)) \/
  ((forall p v, (p, v) ∈ elements a -> user_order a u v <> 0) /\
   ((AllocatePool (dom (trees s) ∪ dom (tree_nodes s)) = None /\ Insert = Ok (EFI_OUT_OF_RESOURCES, None, s)) \/
    exists p l1 l2 s', fresh A p /\ elements a = l1 ++ l2 /\
      (forall x, x ∈ l1 -> 0 < user_order a u x.2) /\ (forall x, x ∈ l2 -> user_order a u x.2 < 0) /\
      Insert = Ok (EFI_SUCCESS, out o p, s') /\
      represents s' (<[Tree := set_elements (l1 ++ (p, u) :: l2) a]> A))).
Proof.
  intros Hr Ha Insert. assert (Hn : forall x, x ∈ (elements a).*1 -> x <> NULL) by (intros x; by apply (elements_not_null s A Tree)).
  destruct (found_spec (user_order a u) (elements a) Hn) as [Hnull Hfound].
  destruct (Insert_represents PcdValidateOrderedCollection s A Hr Tree a o u Ha) as [[Hf Heq]|[(Hf & Hp & Heq)|(p & s' & Hf & Hp & Hfresh & Heq & Hr')]].
  - left. destruct (Hfound Hf) as (v & Hin & Hv). by exists (found (user_order a u) (elements a)), v.
  - right. split; [by apply Hnull|]. by left.
  - right. split; [by apply Hnull|]. right.
    destruct (insert_at_split (user_order a) (p, u) (elements a)) as (l1 & l2 & Hel & Hat & H1 & H2); [by apply (rp_user s A Hr Tree)|by apply (rp_sorted s A Hr Tree)|intros [q v] Hq; by apply (proj1 Hnull Hf q v)|].
    exists p, l1, l2, s'. rewrite <-Hat. done.
Qed.

(** C11: OrderedCollectionDelete, wherever the node is in the tree, removes that
    node and no other, returns its user structure if asked for it, frees it and
    leaves a red-black tree; all other nodes keep their addresses. *)
Theorem OrderedCollectionDelete_correct s A Tree a l1 p u l2 o : represents s A -> A !! Tree = Some a ->
  elements a = l1 ++ (p, u) :: l2 ->
  exists s', OrderedCollectionDelete PcdValidateOrderedCollection s Tree p o = Ok (out o u, s') /\
    tree_nodes s' !! p = None /\ represents s' (<[Tree := set_elements (l1 ++ l2) a]> A).
Proof.
  intros Hr Ha Hel. destruct (Delete_represents PcdValidateOrderedCollection s A Hr Tree a l1 p u l2 o Ha Hel) as (s' & Heq & Hr').
  exists s'. split; [done|]. split; [|done]. destruct (tree_nodes s' !! p) eqn:Hp; [|done]. exfalso.
  assert (Hs : is_Some (tree_nodes s' !! p)) by (by eexists). apply (rp_nodes s' _ Hr') in Hs as (T & a' & Ha' & Hin).
  destruct (rp_holds s A Hr Tree a Ha) as [t [_ [_ [Hnd _]] _ Ht]]. unfold addrs in Hnd. rewrite Ht, Hel, fmap_app, fmap_cons in Hnd.
  rewrite <-Permutation_middle in Hnd. apply NoDup_cons in Hnd as [Hnp _]. rewrite <-fmap_app in Hnp.
  apply lookup_insert_Some in Ha' as [[<- <-]|[HT Ha']]; [done|]. apply HT. eapply (rp_apart s A Hr Tree a T a' p); [done..| |done].
  rewrite Hel, fmap_app, fmap_cons, elem_of_app. right. left.
Qed.

(** C27: OrderedCollectionFind returns the element whose structure matches the
    key, or NULL if there is none, and enters at most 2 log2 (n + 1) nodes of a
    collection of n. *)
Theorem OrderedCollectionFind_logarithmic s A Tree a T k : represents s A -> A !! Tree = Some a -> trees s !! Tree = Some T ->
  exists p, OrderedCollectionFind s Tree k = Ok p /\
    Find_loop (S (2 * Nat.log2 (S (length (elements a))))) (KeyCompare T k) (tree_nodes s) (Root T) = Ok p /\
    (p = NULL <-> forall q u, (q, u) ∈ elements a -> key_compare a k u <> 0) /\
    (p <> NULL -> exists u, (p, u) ∈ elements a /\ key_compare a k u = 0).
Proof.
  intros Hr Ha HT. exists (found (key_compare a k) (elements a)). split; [by eapply Find_represents|]. split.
  - destruct (rp_holds s A Hr Tree a Ha) as [t [HT' Hrep Hrb Hin]]. rewrite HT in HT'. simplify_eq. cbn [KeyCompare Root].
    rewrite <-Hin. apply (Find_loop_spec _ _ _ []); [done| |].
    + rewrite Hin. eapply sorted_guided; [by eapply rp_key|by eapply rp_sorted].
    + pose proof (redblack_height t Hrb). lia.
  - apply found_spec. intros x. by apply (elements_not_null s A Tree).
Qed.

(** Going from OrderedCollectionMin to the next node until there is none
    visits each element once, in ascending order; from OrderedCollectionMax and
    with OrderedCollectionPrev in descending order. *)
Theorem OrderedCollection_enumerates s A Tree a : represents s A -> A !! Tree = Some a ->
  let fuel := S (length (elements a)) in
  (let! p := OrderedCollectionMin s Tree in visit fuel (OrderedCollectionNext s) p) = Ok ((elements a).*1) /\
  (let! p := OrderedCollectionMax s Tree in visit fuel (OrderedCollectionPrev s) p) = Ok (reverse ((elements a).*1)).
Proof.
  intros Hr Ha fuel. unfold fuel. rewrite (Min_represents s A Hr Tree a Ha), (Max_represents s A Hr Tree a Ha). cbn [mbind result_bind].
  assert (Hn : forall x, x ∈ (elements a).*1 -> x <> NULL) by (intros x; by apply (elements_not_null s A Tree)). split.
  - apply visit_list; [done|]. intros l1 p u l2 Hel. by apply (Next_represents s A Hr Tree a l1 p u l2).
  - unfold last_of. rewrite <-length_reverse, <-fmap_reverse. apply visit_list; [by intros x; rewrite fmap_reverse, reverse_Permutation; apply Hn|].
    intros l1 p u l2 Hel. apply (f_equal reverse) in Hel. rewrite reverse_involutive, reverse_app, reverse_cons, <-app_assoc in Hel.
    rewrite (Prev_represents s A Hr Tree a (reverse l2) p u (reverse l1) Ha Hel). unfold last_of. by rewrite reverse_involutive.
Qed.
End Theorems.

(** C31: RedBlackTreeValidate, on any binary tree of linked nodes, passes
    exactly if the root is black, no red node has a red child, all paths have
    the same number of black nodes, and the elements ascend; otherwise one of
    its ASSERTs is violated.  It always terminates. *)
Theorem RedBlackTreeValidate_decides s Tree T t : trees s !! Tree = Some T -> Root T = root t -> rep (tree_nodes s) t ->
  UserOrder (UserStructCompare T) -> Z.of_nat (length (inorder t)) < 2 ^ 32 - 1 ->
  let valid := redblack t /\ sorted (UserStructCompare T) (inorder t) in
  (valid /\ RedBlackTreeValidate s Tree = Ok tt) \/ (~ valid /\ RedBlackTreeValidate s Tree = AssertFailed).
Proof.
  intros HT Hroot Hrep Ho Hlen valid. pose proof (Validate_spec s Tree T t HT Hroot Hrep Hlen) as Hv.
  unfold valid_tree in Hv. by rewrite (ordered_both_sorted _ t) in Hv.
Qed.

(** ** Concrete inputs *)

Module CollectionWitness.

(** A pool of nine blocks. *)
Definition blocks : list ptr := [16; 32; 48; 64; 80; 96; 112; 128; 144].
#[local] Instance sample_pool : Pool := fun used => List.find (fun p => bool_decide (p ∉ used)) blocks.

#[local] Instance sample_pool_laws : PoolLaws.
Proof.
  intros used p [Hin Hp]%find_some. apply bool_decide_eq_true in Hp. split; [|done]. intros ->.
  repeat destruct Hin as [Hin|Hin]; done.
Qed.

#[local] Instance sub_order : UserOrder Z.sub.
Proof. split; intros; [rewrite <-Z.sgn_opp; f_equal; lia|lia|f_equal; lia]. Qed.

#[local] Instance sub_key : KeyOrder Z.sub Z.sub.
Proof. intros k x y. lia. Qed.

Definition one (e : list (ptr * Z)) : abstract := {[16 := MkCollection e Z.sub Z.sub]}.

(** A collection is made, and seven elements are inserted in this order. *)
Definition empty_one : Collections := MkCollections {[16 := MkTree NULL Z.sub Z.sub]} ∅.
Definition inserted : list Z := [40; 20; 60; 10; 30; 25; 27].

Fixpoint fill (s : Collections) (e : list (ptr * Z)) (l : list Z) : option (Collections * list (ptr * Z)) :=
  match l with
  | [] => Some (s, e)
  | u :: l =>
      match OrderedCollectionInsert true s 16 true u with
      | Ok (EFI_SUCCESS, Some p, s) => fill s (insert_at Z.sub (p, u) e) l
      | _ => None
      end
  end.

Definition full : Collections := from_option fst empty_one (fill empty_one [] inserted).
Definition full_elements : list (ptr * Z) := [(80, 10); (48, 20); (112, 25); (128, 27); (96, 30); (32, 40); (64, 60)].

Lemma empty_one_represents : represents empty_one (one []).
Proof.
  destruct (Init_represents true (MkCollections ∅ ∅) ∅ represents_empty Z.sub Z.sub _ _) as (p & s & A & Heq & Hstep & Hr).
  assert (Heq' : OrderedCollectionInit true (MkCollections ∅ ∅) Z.sub Z.sub = Ok (16, empty_one)) by (vm_compute; reflexivity).
  rewrite Heq' in Heq. injection Heq as <- <-. inversion Hstep; by subst.
Qed.

Lemma one_at e : one e !! 16 = Some (MkCollection e Z.sub Z.sub).
Proof. apply lookup_singleton_eq. Qed.

Lemma fill_represents l s e s' e' : represents s (one e) -> fill s e l = Some (s', e') -> represents s' (one e').
Proof.
  revert s e. induction l as [|u l IH]; intros s e Hr Hfill; cbn [fill] in Hfill; [by simplify_eq|].
  destruct (Insert_represents true s (one e) Hr 16 (MkCollection e Z.sub Z.sub) true u) as [[_ Heq]|[(_ & _ & Heq)|(p & s1 & _ & _ & _ & Heq & Hr1)]];
    [by apply one_at|by rewrite Heq in Hfill..|]. rewrite Heq in Hfill. cbn [out] in Hfill.
  unfold one in Hr1. rewrite insert_singleton_eq in Hr1. by apply (IH s1 _ Hr1).
Qed.

Lemma full_represents : represents full (one full_elements).
Proof. apply (fill_represents inserted empty_one []); [apply empty_one_represents|]. vm_compute. reflexivity. Qed.

#[local] Opaque full empty_one.

(** A client that makes a collection, inserts an element twice, looks for it,
    and cleans up. *)
Definition clean_up (t p : ptr) : prog :=
  Call (Find t 5) (fun _ => Call (Delete t p true) (fun _ => Call (Uninit t) (fun _ => Return))).

Definition client : prog :=
  Call (Init Z.sub Z.sub) (fun v => match v with
  | Pointer t => if t =? NULL then Return else
    Call (RedBlackTreeSpec.Insert t true 5) (fun v => match v with
    | Inserted EFI_SUCCESS (Some p) => Call (RedBlackTreeSpec.Insert t true 5) (fun _ => clean_up t p)
    | _ => Call (IsEmpty t) (fun _ => Return)
    end)
  | _ => Return
  end).

Definition with_elements t (e : list (ptr * Z)) (A : abstract) : abstract := <[t := MkCollection e Z.sub Z.sub]> A.

(** The step that was taken, in a collection that was just written. *)
Ltac invert_step H :=
  inversion H; subst; clear H;
  try match goal with Ha : <[?t := _]> _ !! ?t = Some _ |- _ => rewrite lookup_insert_eq in Ha; injection Ha as <- end.

Lemma clean_up_legal t p A : legal (with_elements t [(p, 5)] A) (clean_up t p).
Proof.
  unfold with_elements. constructor; [simpl; by rewrite lookup_insert_eq|]. intros v A1 Hs1. invert_step Hs1.
  constructor; [eexists; rewrite lookup_insert_eq; split; [done|]; left|]. intros v A2 Hs2. invert_step Hs2.
  match goal with Hel : elements _ = ?l1 ++ _ :: ?l2 |- _ => cbn [elements] in Hel;
    assert (l1 ++ l2 = []) as Hl by (destruct l1 as [|? l1]; [by destruct l2|]; injection Hel as _ Hel; by destruct l1) end.
  constructor; [|intros; constructor]. eexists. rewrite lookup_insert_eq. by split.
Qed.

Lemma client_legal : legal ∅ client.
Proof.
  constructor; [split; apply _|]. intros v A1 Hs1. inversion Hs1 as [? ? t Ht| | | | | | | | | | | | | | |]; subst; [|constructor].
  cbv beta iota. rewrite (proj2 (Z.eqb_neq _ _)) by apply Ht. constructor; [simpl; by rewrite lookup_insert_eq|].
  intros v A2 Hs2. invert_step Hs2.
  1,2: constructor; [simpl; by rewrite lookup_insert_eq|]; constructor.
  match goal with Hp : fresh _ ?p |- _ => destruct Hp as [Hp _] end.
  rewrite insert_insert_eq. cbn [out]. constructor; [simpl; by rewrite lookup_insert_eq|].
  intros v A3 Hs3. invert_step Hs3; [by apply clean_up_legal..|]. done.
Qed.

Lemma collections_refine_witness : represents (MkCollections ∅ ∅) ∅ /\ legal ∅ client /\
  exists vs s' A', run true client (MkCollections ∅ ∅) = Ok (vs, s') /\ spec_run ∅ client vs A' /\ represents s' A' /\
    vs = [Pointer 16; Inserted EFI_SUCCESS (Some 32); Inserted EFI_ALREADY_STARTED (Some 32); Pointer 32; Deleted (Some 5); Done].
Proof.
  split; [apply represents_empty|]. split; [apply client_legal|].
  destruct (collections_refine true client _ _ represents_empty client_legal) as (vs & s' & A' & Heq & Hrun & Hr).
  exists vs, s', A'. split; [done|]. split; [done|]. split; [done|].
  assert (Hc : match run true client (MkCollections ∅ ∅) with
    | Ok (vs, _) => vs = [Pointer 16; Inserted EFI_SUCCESS (Some 32); Inserted EFI_ALREADY_STARTED (Some 32); Pointer 32; Deleted (Some 5); Done]
    | _ => False end) by (vm_compute; reflexivity).
  by rewrite Heq in Hc.
Defined.

Lemma OrderedCollectionInsert_correct_witness : represents full (one full_elements) /\
  one full_elements !! 16 = Some (MkCollection full_elements Z.sub Z.sub) /\
  exists s' e', OrderedCollectionInsert true full 16 true 26 = Ok (EFI_SUCCESS, Some 144, s') /\ represents s' (one e') /\
    e' = [(80, 10); (48, 20); (112, 25); (144, 26); (128, 27); (96, 30); (32, 40); (64, 60)].
Proof.
  split; [apply full_represents|]. split; [apply one_at|].
  assert (Hc : match OrderedCollectionInsert true full 16 true 26 with Ok (EFI_SUCCESS, Some p, _) => p = 144 | _ => False end)
    by (vm_compute; reflexivity).
  destruct (OrderedCollectionInsert_correct true full _ 16 _ true 26 full_represents (one_at _)) as
    [(p & v & _ & _ & Heq)|[_ [[_ Heq]|(p & l1 & l2 & s' & _ & Hel & H1 & H2 & Heq & Hr)]]]; rewrite Heq in Hc;
    [destruct Hc..|]. cbn [out] in *. subst p.
  exists s', (l1 ++ (144, 26) :: l2). split; [done|]. unfold one in Hr. rewrite insert_singleton_eq in Hr. split; [done|].
  cbn [elements user_order snd] in *. rewrite <-(insert_at_spec Z.sub (144, 26) l1 l2 H1 H2), <-Hel. done.
Defined.

Lemma OrderedCollectionDelete_correct_witness : represents full (one full_elements) /\
  one full_elements !! 16 = Some (MkCollection full_elements Z.sub Z.sub) /\
  full_elements = [(80, 10)] ++ (48, 20) :: [(112, 25); (128, 27); (96, 30); (32, 40); (64, 60)] /\
  exists s', OrderedCollectionDelete true full 16 48 true = Ok (Some 20, s') /\ tree_nodes s' !! 48 = None /\
    represents s' (<[16 := MkCollection [(80, 10); (112, 25); (128, 27); (96, 30); (32, 40); (64, 60)] Z.sub Z.sub]> (one full_elements)).
Proof.
  split; [apply full_represents|]. split; [apply one_at|]. split; [done|].
  by apply (OrderedCollectionDelete_correct true full _ 16 _ [(80, 10)] 48 20 _ true full_represents (one_at _)).
Defined.

Lemma full_tree : trees full !! 16 = Some (MkTree 32 Z.sub Z.sub).
Proof. vm_compute. reflexivity. Qed.

Lemma OrderedCollectionFind_logarithmic_witness : represents full (one full_elements) /\
  one full_elements !! 16 = Some (MkCollection full_elements Z.sub Z.sub) /\ trees full !! 16 = Some (MkTree 32 Z.sub Z.sub) /\
  exists p, OrderedCollectionFind full 16 27 = Ok p /\ Find_loop 7 (Z.sub 27) (tree_nodes full) 32 = Ok p /\
    p <> NULL /\ exists u, (p, u) ∈ full_elements /\ 27 - u = 0.
Proof.
  split; [apply full_represents|]. split; [apply one_at|]. split; [apply full_tree|].
  destruct (OrderedCollectionFind_logarithmic full _ 16 _ _ 27 full_represents (one_at _) full_tree) as (p & Heq & Hloop & Hnull & Hfound).
  cbn [elements key_compare KeyCompare Root] in *. change (S (2 * Nat.log2 (S (length full_elements)))) with 7%nat in Hloop.
  exists p. split; [exact Heq|]. split; [exact Hloop|].
  assert (Hp : p <> NULL) by (intros Hp; apply (proj1 Hnull Hp 128 27); [do 3 right; left|done]). split; [done|]. by apply Hfound.
Defined.

Lemma OrderedCollection_enumerates_witness : represents full (one full_elements) /\
  one full_elements !! 16 = Some (MkCollection full_elements Z.sub Z.sub) /\
  (let! p := OrderedCollectionMin full 16 in visit 8 (OrderedCollectionNext full) p) = Ok [80; 48; 112; 128; 96; 32; 64] /\
  (let! p := OrderedCollectionMax full 16 in visit 8 (OrderedCollectionPrev full) p) = Ok [64; 32; 96; 128; 112; 48; 80].
Proof.
  split; [apply full_represents|]. split; [apply one_at|].
  exact (OrderedCollection_enumerates full _ 16 _ full_represents (one_at _)).
Defined.

(** Two red nodes in a row. *)
Definition bad_tree : tree :=
  Branch RedBlackTreeBlack (Branch RedBlackTreeRed (Branch RedBlackTreeRed Leaf 16 1 Leaf) 32 2 Leaf) 48 3 Leaf.
Definition bad : Collections := MkCollections {[64 := MkTree 48 Z.sub Z.sub]}
  (list_to_map [(48, MkNode 3 NULL 32 NULL RedBlackTreeBlack); (32, MkNode 2 48 16 NULL RedBlackTreeRed);
                (16, MkNode 1 32 NULL NULL RedBlackTreeRed)]).

Lemma bad_at : trees bad !! 64 = Some (MkTree 48 Z.sub Z.sub).
Proof. vm_compute. reflexivity. Qed.

Lemma bad_rep : rep (tree_nodes bad) bad_tree.
Proof.
  split; [by vm_compute|]. split; [apply (bool_decide_eq_true (NoDup _)); vm_compute; reflexivity|].
  apply (bool_decide_eq_true (NULL ∉ _)). vm_compute. reflexivity.
Qed.

Lemma bad_length : Z.of_nat (length (inorder bad_tree)) < 2 ^ 32 - 1.
Proof. vm_compute. reflexivity. Qed.

#[local] Opaque bad.

Lemma RedBlackTreeValidate_decides_witness : trees bad !! 64 = Some (MkTree 48 Z.sub Z.sub) /\ rep (tree_nodes bad) bad_tree /\
  UserOrder Z.sub /\ Z.of_nat (length (inorder bad_tree)) < 2 ^ 32 - 1 /\ RedBlackTreeValidate bad 64 = AssertFailed.
Proof.
  split; [exact bad_at|]. split; [exact bad_rep|]. split; [exact sub_order|]. split; [exact bad_length|].
  destruct (RedBlackTreeValidate_decides bad 64 (MkTree 48 Z.sub Z.sub) bad_tree bad_at eq_refl bad_rep sub_order bad_length) as [[[[_ [n Hn]] _] _]|[_ Heq]];
    [|exact Heq]. exfalso. destruct n as [|n]; [done|]. simpl in Hn. naive_solver.
Defined.
End CollectionWitness.
